(* ===== verification/_CoqProject ===== *)
-Q . S2P
Prelude.v
Keys.v
Hex.v
Errors.v
PageFormat.v
Node.v
Leaf.v
Internal.v
Split.v
Store.v
Overflow.v
Tree.v
TreeWrite.v
TreeRep.v
TreeAlloc.v
TreeCow.v
TreePropagate.v
TreeSplitUp.v
TreeSplitRoot.v
TreePut.v
TreeOps.v
TreeBatch.v
TreeSpec.v
TreeScan.v
TreeScanOps.v
TreeAppend.v
TreeFlush.v
TreeWalk.v
TreeSource.v
BulkLoad.v
BulkLoadSpec.v
FreeList.v
Crypto.v
DataPage.v
StructuralHeader.v
Layout.v
Catalog.v
Vfs.v
OsLock.v
HeaderSlots.v
NonceSafety.v
TxnState.v
TxnWrite.v
TxnCommit.v
TxnOpen.v
TxnShare.v
TxnOps.v
TxnHistory.v
TxnRetention.v
TxnInv.v
TxnPublish.v
TxnSpec.v
TxnTrace.v
TxnStore.v
TxnFindings.v
PageCache.v
PageCacheList.v
PageCacheInv.v
PageCacheEvict.v
PageCacheOps.v
PageCacheSettle.v
PageCacheBatch.v
PageCacheSpec.v
Pager.v
PagerFile.v
PagerOps.v
PagerFlush.v
PagerSpec.v
PagerRefine.v
PagerTrace.v
