(* ===== verification/Prelude.v ===== *)
(** * pagedb: a verification development

    pagedb ([src/src/]) is an embedded, encrypted, copy-on-write page store with
    B+ trees on top. This library models its core and proves it correct.

    ** Parts of the program and the files that model them

    - Bytes, machine integers and outcomes: [Prelude.v]. A buffer is a [list
      byte]; a [u16], [u32], [u64] or [usize] (64 bits) is a [Z] in range, with
      checked and saturating arithmetic written out. A call returns [Ok], returns
      [Err], or panics; slicing out of range panics as in Rust. A loop that runs
      out of fuel is [Panic], so that a theorem excluding [Panic] is a theorem
      that the loop ends.
    - Keys in byte order, the binary searches of the standard library and of the
      accessors, sorted record lists: [Keys.v].
    - The error enums ([errors/]): [Errors.v].
    - Page kinds, cipher ids, reserved page ids, envelope sizes
      ([pager/format/page_kind.rs], [pager/page_space.rs]): [PageFormat.v].
    - The pager as seen from above, a map from page ids to kind and body
      ([pager/core/read.rs], [write.rs]): [Store.v]. Lowercase hex ([hex.rs]):
      [Hex.v].
    - Node bodies ([btree/node.rs]), leaves ([leaf.rs]), branch nodes
      ([internal.rs]) and the leaf split ([split.rs]): [Node.v], [Leaf.v],
      [Internal.v], [Split.v].
    - Overflow chains ([btree/overflow.rs]): [Overflow.v].
    - Tree sessions ([btree/tree/]): state, allocation, descent and lookup in
      [Tree.v]; writes, batches, scans and flushing in [TreeWrite.v]; the bulk
      loader ([btree/tree/bulk/], [txn/write/txn/bulk.rs]) in [BulkLoad.v]; the walks
      that collect a tree's pages and look for dangling pointers
      ([btree/tree/maintenance.rs]) in [TreeWalk.v].
    - The durable free list ([pager/freelist/]): [FreeList.v].
    - The page cache ([pager/cache/]): [PageCache.v], in a state monad whose
      errors are cache faults.
    - The pager itself ([pager/core/], [txn/db/rekey/keyring.rs]): [Pager.v], in a
      state monad over its caches, keys, nonce generators, live header and files.
      A read is three steps, as its locks are held: the cache, the file, the cache
      again; a flush is two, the durable write and the clearing of dirty flags.
    - Cryptography ([crypto/]): associated data, nonces and their generators, key
      derivation, ciphers and the cache of derived keys in [Crypto.v]. The
      primitives are the class [Primitives], what is assumed of them the class
      [PrimitivesSpec]; [toy_primitives] satisfies it.
    - The sealed page ([pager/format/data_page.rs]): [DataPage.v]; the MACed
      headers ([pager/format/structural_header.rs]): [StructuralHeader.v].
    - The rows of the catalog ([catalog/codec.rs]): [Catalog.v], on [Layout.v], the
      theory of arrays with fields at constant offsets.
    - Files ([vfs/traits.rs], [vfs/memory.rs]): [Vfs.v]. A backend is an instance of
      [VfsFile]; clients are proved against [VfsFileSpec], which the in-memory
      backend satisfies. The locks of the native backends ([vfs/oslock.rs]) with
      their suspension points and detached tasks as a step relation: [OsLock.v]. The
      operating system is an instance of [OsLocks]; its two kinds of locks are
      [OsLocksSpec] and [ProcessLocksSpec].
    - The A/B header of [main.db] ([pager/header.rs], [pager/anchor.rs],
      [txn/db/open/header_probe.rs], the slot selection of
      [txn/db/open/existing.rs]): [HeaderSlots.v].

    - Transactions ([txn/]): the handle, its readers, their snapshots, abort flags
      and the stall policy ([txn/db/core.rs], [reader.rs], [pending.rs],
      [txn/read/txn.rs]) in [TxnState.v]; a write transaction with its two trees, the
      page source they share, counters and segment rows ([txn/write/txn.rs],
      [counter.rs]) in [TxnWrite.v]; the commit with the commit history and the
      opt-in structural check ([txn/write/commit.rs], [txn/db/catalog/history.rs],
      [history_policy.rs]) in [TxnCommit.v]; creating and opening a store
      ([txn/db/open/]) in [TxnOpen.v]. The trees of a transaction work on one page
      image that is thrown away unless the flush makes it durable. What the flush,
      the header write and the segment files answer, the clock and the iteration
      order of a hash map are the record [Env], one per commit.

    ** What the theorems show

    - Layouts: a leaf or branch node encodes exactly when it fits and decodes to
      itself; the zero-copy accessors agree with the decoders, on sorted keys also in
      what their searches find; overflow chains
      read back whole and by range; readers reject everything else.
    - Trees: [TreeRep.v] says what it means for a page image with cached leaves to
      represent a sorted sequence of records; [TreeAlloc.v], [TreeCow.v],
      [TreePropagate.v], [TreeSplitUp.v], [TreeSplitRoot.v], [TreePut.v] and
      [TreeOps.v] carry it through allocation, copy on write, splits, puts and
      deletes, [TreeBatch.v] through batches that reuse the cached path;
      [TreeSpec.v] concludes that a session refines a finite map and that
      snapshots whose pages are protected are isolated from writers.
      [TreeAppend.v]: a session of appends accepts exactly increasing keys.
      [TreeScan.v] and [TreeScanOps.v]: every scan returns exactly the bindings
      asked for, in order. [TreeFlush.v]: flushing leaves a page image from which a
      reader of the new root reads the session's map. [BulkLoadSpec.v]: a bulk load
      of sorted records builds a sound tree of exactly those records.
    - Free list: a rewrite loses no page, names none twice and keeps the chain it
      supersedes readable, the published summaries are exact, the cursor terminates
      on every image. [TxnPublish.v] shows that a commit calls it as it must.
    - Page cache: [PageCacheList.v] is the theory of the doubly linked list in the
      slab, [PageCacheInv.v] the invariant, [PageCacheEvict.v], [PageCacheOps.v],
      [PageCacheSettle.v] and [PageCacheBatch.v] carry it through eviction, single
      operations, compaction of the slab and batches; [PageCacheSpec.v] concludes
      that any run refines a cache that may only forget clean unpinned pages, with
      every guard valid and no fault raised.
    - Pager: [PagerFile.v] is about pages in a file, [PagerOps.v] about keys, reads
      and nonces, [PagerFlush.v] about the durable write; [PagerSpec.v] states the
      contract, a page image with a durable copy, and the steps, with crashes that
      tear what a flush was writing; [PagerRefine.v] and [PagerTrace.v] show that
      every trace of steps is one of the contract. The steps assume what the layers
      above ensure: a page is not rewritten while a read of it is under way, one
      flush of the main file runs at a time, a new epoch is new.
    - Pages at rest: what is sealed opens to itself, and what opens is byte for byte
      what sealing it writes; likewise for both headers
      and for the rows of the catalog.
    - Crashes: a header commit is atomic whatever mixture of old and new bytes the
      torn slot holds, as long as a mixture that is neither does not verify
      ([HeaderSlots.header_commit_atomic]); [NonceSafety.v] composes generator,
      headers, refreshes, crashes and reopens and shows that no nonce is ever
      issued twice.
    - Transactions: [TreeSource.v] says how a tree draws on its page source,
      [TxnShare.v] how two trees share one, [TxnOps.v] that every operation of a write
      transaction acts on the data and the catalog as on two maps, [TxnHistory.v] and
      [TxnRetention.v] which rows of the history remain, [TxnInv.v] and
      [TxnPublish.v] which pages belong to what, through beginning, operations and
      commit; [TxnSpec.v] is the specification, a transition system on maps;
      [TxnTrace.v] carries the invariant through every call, and [TxnStore.v]
      concludes that every sequence of calls answers as the specification, whatever
      fails. The calls assume page and commit numbers up to 2^48, keys of at most [K]
      bytes where [TreePut.room K] holds of the page size (143 bytes with pages of
      4 KiB), and of the environment that a flush that reports success has made the
      candidate's pages durable and a failed one has written no others. Readers are
      readers of the current commit. Once a commit of a store with a commit history
      has failed with pages written, the theorem goes on for readers and openings and
      not for write transactions, for which see the counterexamples.
    - Files and locks: transfers are exact over every conforming backend, logical
      paths stay below the root, exclusive locks exclude, also between processes,
      where the operating system's locks belong to descriptors.
    - Counterexamples, see the findings. Each says that some legal state or run has
      the defect: records that make the leaf split loop run
      forever and a branch node whose halves do not fit ([Split.v]); a tree whose
      first leaf is empty and hides the first key ([TreeScanOps.v]); an append below
      existing keys that is accepted and lost ([TreeAppend.v]); sibling links
      of a bulk load that go stale and make a range deletion fail
      ([BulkLoadSpec.v]); a commit that fails after its flush and leaves its row in
      the durable history, and pruning that lets the pages of a retained commit be
      recycled ([TxnFindings.v]); locks that belong to processes and are dropped by a
      detached task ([OsLock.v]). A run of the pager in which a discarded page is read
      again after its guard is released is a lemma of [PagerTrace.v].

    ** Fuel

    A walk over pages takes one more step of fuel than the image has pages: every
    step visits a page not visited before (for the free list by the tortoise and
    hare argument, [FreeList.walk_inv_bound]). The write loop of an overflow chain
    takes the length of the value, since each page takes a byte. The split loop
    takes one step per record where it terminates.

    Pushing a child to the levels of a bulk load takes one round per level and one
    more; closing the levels takes one round per leaf, since every level has fewer
    children than the one below.

    The loops over the rows of the history take two rounds more than the number of
    the commit, since every round but the last moves past a row and a store has at
    most a row per commit ([TxnCommit.history_fuel]).

    An eviction walks twice round the list and one more step each time, as the code
    bounds it; [PageCacheEvict.v] shows that this always finds the victim.

    Drawing the nonces of a flush takes one round per page: every round issues at
    least one.

    The transfer loops of [Vfs.v] take the length of the buffer: every iteration
    moves at least one byte.

    ** Not modelled

    Tasks and locks other than the file locks: an operation runs to its end, but for
    the steps of [OsLock.v], [NonceSafety.v] and [PagerSpec.v]. Metrics, diagnostics and the
    command line. Debug assertions, but for those of the page cache and the free list: the code is
    modelled as a release build runs it. The cipher primitives and the operating system are
    parameters. Compaction, rekeying, snapshots, segment files and the repair of
    directories are sequences of file operations over the parts modelled here and are
    not modelled; the components of the manifest say what is left out of each part. *)

From Stdlib Require Import ZArith Lia.
From stdpp Require Import base list numbers strings gmap.
From coqutil Require Import Byte Word.LittleEndianList.

#[global] Set Default Goal Selector "!".

(** ** Bytes, buffers and machine integers *)

Abbreviation bytes := (list byte).

Declare Scope pagedb_scope.
Delimit Scope pagedb_scope with pagedb.
Open Scope pagedb_scope.
Open Scope Z_scope.

Create HintDb pagedb.

(** The largest values of the machine integers the code uses; [usize] is taken
    64 bits wide. *)
Definition U16_MAX : Z := 2 ^ 16 - 1.
Definition U32_MAX : Z := 2 ^ 32 - 1.
Definition U64_MAX : Z := 2 ^ 64 - 1.
Definition USIZE_MAX : Z := U64_MAX.

Abbreviation is_u8 z := (0 <= z < 2 ^ 8).
Abbreviation is_u16 z := (0 <= z < 2 ^ 16).
Abbreviation is_u32 z := (0 <= z < 2 ^ 32).
Abbreviation is_u64 z := (0 <= z < 2 ^ 64).

(** [usize::checked_add], [checked_mul], [saturating_add], [saturating_sub]. *)
Definition checked_add (a b : Z) : option Z :=
  if a + b <=? USIZE_MAX then Some (a + b) else None.
Definition checked_mul (a b : Z) : option Z :=
  if a * b <=? USIZE_MAX then Some (a * b) else None.
Definition checked_sub (a b : Z) : option Z :=
  if b <=? a then Some (a - b) else None.
Definition saturating_add (a b : Z) : Z := Z.min (a + b) U64_MAX.
Definition saturating_sub (a b : Z) : Z := Z.max (a - b) 0.
Definition saturating_mul (a b : Z) : Z := Z.min (a * b) U64_MAX.

Lemma checked_add_ok a b : a + b <= USIZE_MAX -> checked_add a b = Some (a + b).
Proof. intros. unfold checked_add. by rewrite (proj2 (Z.leb_le _ _)). Qed.
Lemma checked_add_none a b : USIZE_MAX < a + b -> checked_add a b = None.
Proof. intros. unfold checked_add. by rewrite (proj2 (Z.leb_gt _ _)). Qed.
Lemma checked_sub_ok a b : b <= a -> checked_sub a b = Some (a - b).
Proof. intros. unfold checked_sub. by rewrite (proj2 (Z.leb_le _ _)). Qed.

(** ** Outcomes

    A Rust call returns a value, returns an error, or panics. *)
Inductive res (E A : Type) : Type :=
| Ok (a : A)
| Err (e : E)
| Panic.
Arguments Ok {E A} a.
Arguments Err {E A} e.
Arguments Panic {E A}.

(** The [?] operator: errors and panics leave the function. *)
Notation "'let!' x ':=' c 'in' k" :=
  (match c with Ok x => k | Err e => Err e | Panic => Panic end)
  (at level 10, x name, c at level 100, k at level 200,
   format "'[v' 'let!'  x  ':='  c  'in' '/' k ']'") : pagedb_scope.
Notation "'let!' ' p ':=' c 'in' k" :=
  (match c with Ok p => k | Err e => Err e | Panic => Panic end)
  (at level 10, p strict pattern, c at level 100, k at level 200,
   format "'[v' 'let!'  ' p  ':='  c  'in' '/' k ']'") : pagedb_scope.

Definition ok_or {E A} (o : option A) (e : E) : res E A :=
  match o with Some a => Ok a | None => Err e end.

(** An [assert!]: failure panics. *)
Definition assert_ {E} (b : bool) : res E unit := if b then Ok tt else Panic.

Section loops.
Context {E A B S : Type}.

(** A loop that pushes one element per iteration onto a vector. *)
Fixpoint traverse (f : A -> res E B) (l : list A) : res E (list B) :=
  match l with
  | [] => Ok []
  | x :: l => let! y := f x in let! ys := traverse f l in Ok (y :: ys)
  end.

(** A loop that threads a state through the elements of a vector. *)
Fixpoint fold_res (f : S -> A -> res E S) (s : S) (l : list A) : res E S :=
  match l with
  | [] => Ok s
  | x :: l => let! s' := f s x in fold_res f s' l
  end.

Lemma traverse_Ok (f : A -> res E B) l ys :
  traverse f l = Ok ys <-> Forall2 (fun x y => f x = Ok y) l ys.
Proof.
  revert ys; induction l as [|x l IH]; intros ys; simpl.
  - split; [by intros [= <-]|by inversion 1].
  - split.
    + destruct (f x) eqn:Hx; [|done..].
      destruct (traverse f l) eqn:Hl; [|done..].
      intros [= <-]. constructor; [done|by apply IH].
    + inversion 1 as [|? y ? l' Hy Hl]; subst.
      rewrite Hy. apply IH in Hl. by rewrite Hl.
Qed.

Lemma traverse_not_Panic (f : A -> res E B) l :
  Forall (fun x => f x <> Panic) l -> traverse f l <> Panic.
Proof.
  induction 1 as [|x l Hx _ IH]; simpl; [done|].
  destruct (f x); [|done..]. by destruct (traverse f l).
Qed.

Lemma fold_res_app (f : S -> A -> res E S) s l1 l2 :
  fold_res f s (l1 ++ l2) = let! s' := fold_res f s l1 in fold_res f s' l2.
Proof.
  revert s; induction l1 as [|x l1 IH]; intros s; simpl; [done|].
  by destruct (f s x).
Qed.
End loops.

(** ** Tactics *)

(** Case analysis on the first undetermined [match] of a hypothesis or goal. *)
Ltac dmatch :=
  match goal with
  | H : context [match ?x with _ => _ end] |- _ => destruct x eqn:?
  | |- context [match ?x with _ => _ end] => destruct x eqn:?
  end.

(** Boolean comparisons become propositions. *)
Ltac propify :=
  repeat match goal with
  | H : context [(_ && _)%bool = true] |- _ => rewrite andb_true_iff in H
  | H : context [(_ && _)%bool = false] |- _ => rewrite andb_false_iff in H
  | H : context [(_ || _)%bool = true] |- _ => rewrite orb_true_iff in H
  | H : context [(_ || _)%bool = false] |- _ => rewrite orb_false_iff in H
  | H : context [negb _ = true] |- _ => rewrite negb_true_iff in H
  | H : context [negb _ = false] |- _ => rewrite negb_false_iff in H
  | H : (_ <=? _) = true |- _ => apply Z.leb_le in H
  | H : (_ <=? _) = false |- _ => apply Z.leb_gt in H
  | H : (_ <? _) = true |- _ => apply Z.ltb_lt in H
  | H : (_ <? _) = false |- _ => apply Z.ltb_ge in H
  | H : (_ =? _) = true |- _ => apply Z.eqb_eq in H
  | H : (_ =? _) = false |- _ => apply Z.eqb_neq in H
  | H : (_ <=? _)%nat = true |- _ => apply Nat.leb_le in H
  | H : (_ <=? _)%nat = false |- _ => apply Nat.leb_gt in H
  | H : (_ <? _)%nat = true |- _ => apply Nat.ltb_lt in H
  | H : (_ <? _)%nat = false |- _ => apply Nat.ltb_ge in H
  end.

(** Inverts a hypothesis stating that a chain of fallible steps succeeded. *)
Ltac inv_ok H :=
  repeat match type of H with
  | match ?x with _ => _ end = _ => destruct x eqn:?; try discriminate H
  end; simplify_eq/=; propify.

(** ** Buffers *)

Definition blen (b : bytes) : Z := Z.of_nat (length b).

(** The [len] bytes of [b] from [off] on. *)
Definition sub (b : bytes) (off len : Z) : bytes :=
  take (Z.to_nat len) (drop (Z.to_nat off) b).

(** [b] with [src] written over the bytes from [off] on. *)
Definition splice (b : bytes) (off : Z) (src : bytes) : bytes :=
  take (Z.to_nat off) b ++ src ++ drop (Z.to_nat off + length src) b.

(** [&b[lo..hi]] *)
Definition slice {E} (b : bytes) (lo hi : Z) : res E bytes :=
  if (0 <=? lo) && (lo <=? hi) && (hi <=? blen b)
  then Ok (sub b lo (hi - lo)) else Panic.

(** [b[i]] *)
Definition byte_at {E} (b : bytes) (i : Z) : res E byte :=
  if 0 <=? i then
    match b !! Z.to_nat i with Some x => Ok x | None => Panic end
  else Panic.

(** [b[off..off + src.len()].copy_from_slice(src)] *)
Definition copy_at {E} (b : bytes) (off : Z) (src : bytes) : res E bytes :=
  if (0 <=? off) && (off + blen src <=? blen b)
  then Ok (splice b off src) else Panic.

Definition zeros (n : Z) : bytes := replicate (Z.to_nat n) Byte.x00.

Definition u8_of (b : byte) : Z := byte.unsigned b.
Definition to_u8 (z : Z) : byte := byte.of_Z z.

(** [to_le_bytes] and [from_le_bytes] at the widths in use. *)
Definition le16 (z : Z) : bytes := le_split 2 z.
Definition le32 (z : Z) : bytes := le_split 4 z.
Definition le64 (z : Z) : bytes := le_split 8 z.
Definition of_le (b : bytes) : Z := le_combine b.

#[global] Opaque le_split le_combine.

Section buffers.
Implicit Types b src : bytes.

Lemma blen_nonneg b : 0 <= blen b.
Proof. unfold blen; lia. Qed.
Lemma blen_app b1 b2 : blen (b1 ++ b2) = blen b1 + blen b2.
Proof. unfold blen; rewrite length_app; lia. Qed.
Lemma blen_zeros n : 0 <= n -> blen (zeros n) = n.
Proof. unfold blen, zeros; rewrite length_replicate; lia. Qed.
Lemma blen_nil : blen [] = 0. Proof. done. Qed.
Lemma blen_byte (x : byte) : blen [x] = 1. Proof. done. Qed.
Lemma blen_le16 z : blen (le16 z) = 2.
Proof. unfold blen, le16; by rewrite length_le_split. Qed.
Lemma blen_le32 z : blen (le32 z) = 4.
Proof. unfold blen, le32; by rewrite length_le_split. Qed.
Lemma blen_le64 z : blen (le64 z) = 8.
Proof. unfold blen, le64; by rewrite length_le_split. Qed.
Lemma blen_sub b off len :
  0 <= off -> 0 <= len -> off + len <= blen b -> blen (sub b off len) = len.
Proof. unfold blen, sub; intros; rewrite length_take, length_drop; lia. Qed.
Lemma blen_splice b off src :
  0 <= off -> off + blen src <= blen b -> blen (splice b off src) = blen b.
Proof.
  unfold blen, splice; intros.
  rewrite !length_app, length_take, length_drop; lia.
Qed.

Lemma of_le16 z : is_u16 z -> of_le (le16 z) = z.
Proof.
  intros; unfold of_le, le16; rewrite le_combine_split.
  change (2 ^ (Z.of_nat 2 * 8)) with (2 ^ 16); by rewrite Z.mod_small.
Qed.
Lemma of_le32 z : is_u32 z -> of_le (le32 z) = z.
Proof.
  intros; unfold of_le, le32; rewrite le_combine_split.
  change (2 ^ (Z.of_nat 4 * 8)) with (2 ^ 32); by rewrite Z.mod_small.
Qed.
Lemma of_le64 z : is_u64 z -> of_le (le64 z) = z.
Proof.
  intros; unfold of_le, le64; rewrite le_combine_split.
  change (2 ^ (Z.of_nat 8 * 8)) with (2 ^ 64); by rewrite Z.mod_small.
Qed.
Lemma of_le_bound b n : blen b = n -> 0 <= of_le b < 2 ^ (8 * n).
Proof. intros <-; apply le_combine_bound. Qed.
Lemma le16_of_le b : blen b = 2 -> le16 (of_le b) = b.
Proof. intros; unfold le16, of_le; apply split_le_combine'; unfold blen in *; lia. Qed.
Lemma le32_of_le b : blen b = 4 -> le32 (of_le b) = b.
Proof. intros; unfold le32, of_le; apply split_le_combine'; unfold blen in *; lia. Qed.
Lemma le64_of_le b : blen b = 8 -> le64 (of_le b) = b.
Proof. intros; unfold le64, of_le; apply split_le_combine'; unfold blen in *; lia. Qed.

Lemma lookup_sub b off len (i : nat) :
  0 <= off -> 0 <= len ->
  sub b off len !! i =
    if decide (Z.of_nat i < len) then b !! (Z.to_nat off + i)%nat else None.
Proof.
  intros; unfold sub. case_decide.
  - rewrite lookup_take_lt by lia. by rewrite lookup_drop.
  - rewrite lookup_take_ge; [done|lia].
Qed.

Lemma lookup_splice b off src (i : nat) :
  0 <= off -> off + blen src <= blen b ->
  splice b off src !! i =
    if decide (off <= Z.of_nat i < off + blen src)
    then src !! (i - Z.to_nat off)%nat else b !! i.
Proof.
  unfold blen, splice; intros.
  assert (length (take (Z.to_nat off) b) = Z.to_nat off) as Hl
    by (rewrite length_take; lia).
  case_decide.
  - rewrite lookup_app_r by lia. rewrite lookup_app_l by lia. by rewrite Hl.
  - destruct (decide (Z.of_nat i < off)).
    + rewrite lookup_app_l by lia. by rewrite lookup_take_lt by lia.
    + rewrite lookup_app_r by lia. rewrite lookup_app_r by lia.
      rewrite lookup_drop. f_equal. lia.
Qed.

Lemma sub_splice_same b off src :
  0 <= off -> off + blen src <= blen b ->
  sub (splice b off src) off (blen src) = src.
Proof.
  intros. pose proof (blen_nonneg src). apply list_eq; intros i.
  rewrite lookup_sub, lookup_splice by lia.
  case_decide; [|rewrite lookup_ge_None_2; [done|unfold blen in *; lia]].
  rewrite decide_True by lia. f_equal. lia.
Qed.

Lemma sub_splice_disjoint b off src o n :
  0 <= off -> off + blen src <= blen b -> 0 <= o -> 0 <= n ->
  o + n <= off \/ off + blen src <= o ->
  sub (splice b off src) o n = sub b o n.
Proof.
  intros. apply list_eq; intros i. rewrite !lookup_sub by lia.
  case_decide; [|done]. rewrite lookup_splice by lia.
  by rewrite decide_False by lia.
Qed.

Lemma sub_sub b o1 n1 o2 n2 :
  0 <= o1 -> 0 <= o2 -> 0 <= n2 -> o2 + n2 <= n1 ->
  sub (sub b o1 n1) o2 n2 = sub b (o1 + o2) n2.
Proof.
  intros. apply list_eq; intros i. rewrite !lookup_sub by lia.
  case_decide; [|done]. rewrite decide_True by lia. f_equal. lia.
Qed.

Lemma sub_app_l b1 b2 o n :
  0 <= o -> 0 <= n -> o + n <= blen b1 -> sub (b1 ++ b2) o n = sub b1 o n.
Proof.
  intros. apply list_eq; intros i. rewrite !lookup_sub by lia.
  case_decide; [|done]. rewrite lookup_app_l; [done|unfold blen in *; lia].
Qed.

Lemma sub_app_r b1 b2 o n :
  blen b1 <= o -> 0 <= n -> sub (b1 ++ b2) o n = sub b2 (o - blen b1) n.
Proof.
  intros. pose proof (blen_nonneg b1). apply list_eq; intros i.
  rewrite !lookup_sub by lia. case_decide; [|done].
  rewrite lookup_app_r by (unfold blen in *; lia). f_equal. unfold blen in *; lia.
Qed.

Lemma sub_full b : sub b 0 (blen b) = b.
Proof. unfold sub, blen. rewrite Nat2Z.id. simpl. by apply firstn_all2. Qed.

Lemma sub_split b o n m :
  0 <= o -> 0 <= n -> 0 <= m -> o + n + m <= blen b ->
  sub b o (n + m) = sub b o n ++ sub b (o + n) m.
Proof.
  intros. apply list_eq; intros i.
  destruct (decide (Z.of_nat i < n)).
  - rewrite lookup_app_l by (pose proof (blen_sub b o n); unfold blen in *; lia).
    rewrite !lookup_sub by lia. by rewrite !decide_True by lia.
  - assert (length (sub b o n) = Z.to_nat n) as Hl
      by (pose proof (blen_sub b o n); unfold blen in *; lia).
    rewrite lookup_app_r by lia. rewrite Hl, !lookup_sub by lia.
    destruct (decide (Z.of_nat i < n + m)).
    + rewrite decide_True by lia. f_equal. lia.
    + by rewrite decide_False by lia.
Qed.

(** Bytes read back as a concatenation read back piecewise. *)
Lemma sub_app_inv b o s1 s2 :
  0 <= o -> o + blen s1 + blen s2 <= blen b ->
  sub b o (blen (s1 ++ s2)) = s1 ++ s2 ->
  sub b o (blen s1) = s1 /\ sub b (o + blen s1) (blen s2) = s2.
Proof.
  intros. pose proof (blen_nonneg s1). pose proof (blen_nonneg s2).
  rewrite blen_app, sub_split in * by lia. apply app_inj_1 in H1; [done|].
  pose proof (blen_sub b o (blen s1)). unfold blen in *. lia.
Qed.

Lemma slice_ok {E} b lo hi :
  0 <= lo -> lo <= hi -> hi <= blen b ->
  slice (E:=E) b lo hi = Ok (sub b lo (hi - lo)).
Proof.
  intros; unfold slice.
  rewrite !(proj2 (Z.leb_le _ _)) by lia. done.
Qed.
Lemma slice_not_Err {E} b lo hi (e : E) : slice b lo hi <> Err e.
Proof. unfold slice; by destruct (_ && _)%bool. Qed.
Lemma slice_inv {E} b lo hi s :
  slice (E:=E) b lo hi = Ok s ->
  0 <= lo /\ lo <= hi /\ hi <= blen b /\ s = sub b lo (hi - lo).
Proof.
  unfold slice. destruct (_ && _)%bool eqn:Hc; [|done]. intros [= <-].
  propify. repeat split; lia.
Qed.

Lemma copy_at_ok {E} b off src :
  0 <= off -> off + blen src <= blen b ->
  copy_at (E:=E) b off src = Ok (splice b off src).
Proof.
  intros; unfold copy_at. by rewrite !(proj2 (Z.leb_le _ _)) by lia.
Qed.

(** What one [copy_from_slice] does, seen from later reads. *)
Lemma copy_at_step {E} b off src :
  0 <= off -> off + blen src <= blen b ->
  exists b', copy_at (E:=E) b off src = Ok b' /\ blen b' = blen b /\
    sub b' off (blen src) = src /\
    (forall o n, 0 <= o -> 0 <= n -> o + n <= off \/ off + blen src <= o ->
       sub b' o n = sub b o n).
Proof.
  intros. exists (splice b off src). split_and!.
  - by apply copy_at_ok.
  - by apply blen_splice.
  - by apply sub_splice_same.
  - intros. by apply sub_splice_disjoint.
Qed.

Lemma splice_app b off s1 s2 :
  0 <= off -> off + blen s1 + blen s2 <= blen b ->
  splice (splice b off s1) (off + blen s1) s2 = splice b off (s1 ++ s2).
Proof.
  intros. pose proof (blen_nonneg s1). pose proof (blen_nonneg s2).
  apply list_eq; intros i.
  rewrite !lookup_splice by (rewrite ?blen_splice, ?blen_app; lia). rewrite blen_app.
  repeat case_decide; try lia; try done; unfold blen in *.
  - rewrite lookup_app_r by lia. f_equal. lia.
  - rewrite lookup_app_l by lia. done.
Qed.

(** Adjacent writes are one write. *)
Lemma copy_at_app {E A} b off s1 s2 (k : bytes -> res E A) :
  (let! b1 := copy_at b off s1 in let! b2 := copy_at b1 (off + blen s1) s2 in k b2)
  = (let! b2 := copy_at b off (s1 ++ s2) in k b2).
Proof.
  pose proof (blen_nonneg s1). pose proof (blen_nonneg s2). unfold copy_at.
  rewrite blen_app.
  destruct (Z.leb_spec 0 off); [|done]. simpl.
  destruct (Z.leb_spec (off + blen s1) (blen b)).
  - rewrite (proj2 (Z.leb_le 0 _)) by lia. rewrite blen_splice by lia. simpl.
    replace (off + blen s1 + blen s2) with (off + (blen s1 + blen s2)) by lia.
    destruct (Z.leb_spec (off + (blen s1 + blen s2)) (blen b)); [|done].
    by rewrite splice_app by lia.
  - by destruct (Z.leb_spec (off + (blen s1 + blen s2)) (blen b)); [lia|].
Qed.

Lemma byte_at_sub {E} b i x : 0 <= i -> sub b i 1 = [x] -> byte_at (E:=E) b i = Ok x.
Proof.
  intros Hi Hs. unfold byte_at. rewrite (proj2 (Z.leb_le _ _)) by lia.
  assert (sub b i 1 !! 0%nat = Some x) as Hx by (by rewrite Hs).
  rewrite lookup_sub, decide_True, Nat.add_0_r in Hx by lia. by rewrite Hx.
Qed.

Lemma byte_at_eq {E} b b' i :
  0 <= i < blen b -> 0 <= i < blen b' -> sub b i 1 = sub b' i 1 ->
  byte_at (E:=E) b i = byte_at b' i.
Proof.
  intros Hi Hi' Hs. destruct (lookup_lt_is_Some_2 b (Z.to_nat i)) as [x Hx];
    [unfold blen in *; lia|].
  assert (sub b i 1 !! 0%nat = Some x) as Hx0
    by (by rewrite lookup_sub, decide_True, Nat.add_0_r by lia).
  rewrite Hs, lookup_sub, decide_True, Nat.add_0_r in Hx0 by lia.
  unfold byte_at. by rewrite Hx, Hx0.
Qed.

Lemma sub_nested_eq b b' o n o' n' :
  sub b o n = sub b' o n -> 0 <= o -> o <= o' -> 0 <= n' -> o' + n' <= o + n ->
  sub b o' n' = sub b' o' n'.
Proof.
  intros Hs ? ? ? ?. replace o' with (o + (o' - o)) by lia.
  rewrite <-(sub_sub b o n), <-(sub_sub b' o n) by lia. by rewrite Hs.
Qed.

Lemma byte_at_ok {E} b i :
  0 <= i < blen b -> exists x, byte_at (E:=E) b i = Ok x /\ b !! Z.to_nat i = Some x.
Proof.
  intros; unfold byte_at. rewrite (proj2 (Z.leb_le _ _)) by lia.
  destruct (lookup_lt_is_Some_2 b (Z.to_nat i)) as [x Hx]; [unfold blen in *; lia|].
  rewrite Hx; eauto.
Qed.

Lemma byte_at_splice_same {E} b off x :
  0 <= off < blen b -> byte_at (E:=E) (splice b off [x]) off = Ok x.
Proof.
  intros; unfold byte_at. rewrite (proj2 (Z.leb_le _ _)) by lia.
  assert (blen [x] = 1) by done.
  rewrite lookup_splice, decide_True by lia. by rewrite Nat.sub_diag.
Qed.

Lemma byte_at_splice_other {E} b off src i :
  0 <= off -> off + blen src <= blen b -> 0 <= i ->
  i < off \/ off + blen src <= i ->
  byte_at (E:=E) (splice b off src) i = byte_at b i.
Proof.
  intros; unfold byte_at. rewrite (proj2 (Z.leb_le _ _)) by lia.
  by rewrite lookup_splice, decide_False by lia.
Qed.

Lemma u8_of_bound (x : byte) : is_u8 (u8_of x).
Proof. apply byte.unsigned_range. Qed.
Lemma u8_to_u8 z : is_u8 z -> u8_of (to_u8 z) = z.
Proof.
  intros; unfold u8_of, to_u8. rewrite byte.unsigned_of_Z.
  unfold byte.wrap. by rewrite Z.mod_small.
Qed.
Lemma to_u8_u8 x : to_u8 (u8_of x) = x.
Proof. apply byte.of_Z_unsigned. Qed.
End buffers.

#[export] Hint Resolve blen_nonneg : pagedb.
Create Rewrite HintDb blen.
#[export] Hint Rewrite blen_app blen_nil blen_byte blen_le16 blen_le32 blen_le64 : blen.

(** Length arithmetic on buffers. *)
Ltac blia :=
  autorewrite with blen in *;
  repeat match goal with
  | |- context [blen ?b] =>
      lazymatch goal with
      | _ : 0 <= blen b |- _ => fail
      | _ => pose proof (blen_nonneg b)
      end
  | _ : context [blen ?b] |- _ =>
      lazymatch goal with
      | _ : 0 <= blen b |- _ => fail
      | _ => pose proof (blen_nonneg b)
      end
  end; lia.

(** ** Fixed layouts

    Writing fields one after the other with [copy_at] and reading them back with
    [slice]: [write_field] performs the first write of the goal and records what
    later reads see, [read_fields] evaluates the reads. *)

Ltac write_field :=
  match goal with
  | |- context [@copy_at ?E ?b ?off ?src] =>
      let b' := fresh "buf" in let Hl := fresh "Hlen" in
      let Hs := fresh "Hsame" in let Hd := fresh "Hother" in
      destruct (@copy_at_step E b off src) as (b' & -> & Hl & Hs & Hd);
      [blia|blia|]; autorewrite with blen in Hs, Hd
  end.

Ltac is_Zcst z :=
  lazymatch z with
  | Z0 => idtac
  | Zpos ?p => is_poscst p
  | Zneg ?p => is_poscst p
  end
with is_poscst p :=
  lazymatch p with xH => idtac | xO ?p => is_poscst p | xI ?p => is_poscst p end.

Ltac norm_lit :=
  repeat match goal with
  | |- context [Z.sub ?a ?b] =>
      is_Zcst a; is_Zcst b; let c := eval vm_compute in (Z.sub a b) in change (Z.sub a b) with c
  | |- context [Z.add ?a ?b] =>
      is_Zcst a; is_Zcst b; let c := eval vm_compute in (Z.add a b) in change (Z.add a b) with c
  end.

Ltac read_sub :=
  repeat match goal with
  | Hs : sub ?b ?o ?n = _ |- context [sub ?b ?o ?n] => rewrite Hs
  | Hd : forall o n, _ -> _ -> _ -> sub ?b o n = _ |- context [sub ?b ?o ?n] =>
      rewrite (Hd o n) by lia
  end.

Ltac read_fields :=
  rewrite ?slice_ok by blia; norm_lit; read_sub;
  rewrite ?of_le64, ?of_le32, ?of_le16 by lia.

(** A buffer that is the concatenation of its fields: writing the fields one
    after the other at a running offset, and reading field [k] back. *)
Fixpoint write_fields {E} (b : bytes) (o : Z) (fs : list bytes) : res E bytes :=
  match fs with
  | [] => Ok b
  | f :: fs => let! b := copy_at b o f in write_fields b (o + blen f) fs
  end.

Lemma write_fields_ok {E} b o fs :
  0 <= o -> o + blen (concat fs) <= blen b ->
  write_fields (E:=E) b o fs = Ok (splice b o (concat fs)).
Proof.
  revert b o; induction fs as [|f fs IH]; intros b o Ho Hl; cbn [write_fields concat] in *.
  - f_equal. unfold splice. simpl. by rewrite Nat.add_0_r, take_drop.
  - rewrite blen_app in Hl. pose proof (blen_nonneg f). pose proof (blen_nonneg (concat fs)).
    rewrite copy_at_ok by lia. rewrite IH by (rewrite ?blen_splice; lia).
    by rewrite splice_app by lia.
Qed.

Lemma splice_app_l b1 b2 o src :
  0 <= o -> o + blen src <= blen b1 -> splice (b1 ++ b2) o src = splice b1 o src ++ b2.
Proof.
  unfold splice, blen. intros. rewrite take_app_le, drop_app_le by lia. by rewrite <- !app_assoc.
Qed.

Lemma splice_app_suffix b1 b2 o src :
  o = blen b1 -> blen src = blen b2 -> splice (b1 ++ b2) o src = b1 ++ src.
Proof.
  unfold splice, blen. intros -> Hl. rewrite Nat2Z.id, take_app_length.
  rewrite drop_ge by (rewrite length_app; lia). by rewrite app_nil_r.
Qed.

Lemma splice_all b src : blen src = blen b -> splice b 0 src = src.
Proof.
  unfold splice, blen. intros. simpl. rewrite drop_ge by lia. by rewrite app_nil_r.
Qed.

Lemma zeros_app n m : 0 <= n -> 0 <= m -> zeros (n + m) = zeros n ++ zeros m.
Proof. intros. unfold zeros. rewrite Z2Nat.inj_add by lia. apply replicate_add. Qed.

(** Writing at the front of a zeroed buffer. *)
Lemma splice_zeros n src :
  blen src <= n -> splice (zeros n) 0 src = src ++ zeros (n - blen src).
Proof.
  intros. pose proof (blen_nonneg src). replace n with (blen src + (n - blen src)) at 1 by lia.
  rewrite zeros_app by lia. rewrite splice_app_l by (rewrite ?blen_zeros; lia).
  by rewrite splice_all by (rewrite blen_zeros; lia).
Qed.

Lemma sub_field (fs : list bytes) (rest : bytes) (k : nat) f o n :
  fs !! k = Some f -> o = blen (concat (take k fs)) -> n = blen f ->
  sub (concat fs ++ rest) o n = f.
Proof.
  intros Hk -> ->. pose proof (blen_nonneg (concat (take k fs))). pose proof (blen_nonneg f).
  rewrite <- (take_drop_middle fs k f Hk) at 1. rewrite concat_app. cbn [concat].
  rewrite <- !app_assoc. rewrite sub_app_r, Z.sub_diag by lia.
  rewrite sub_app_l by lia. apply sub_full.
Qed.

Lemma splice_middle a b c o src :
  o = blen a -> blen src = blen b -> splice (a ++ b ++ c) o src = a ++ src ++ c.
Proof.
  intros -> Hl. rewrite app_assoc. pose proof (blen_nonneg a). pose proof (blen_nonneg b).
  rewrite splice_app_l by (rewrite ?blen_app; lia).
  rewrite splice_app_suffix by done. by rewrite <- app_assoc.
Qed.

(** A buffer cut into consecutive fields of the given widths. *)
Fixpoint cut (b : bytes) (o : Z) (ws : list Z) : list bytes :=
  match ws with
  | [] => []
  | w :: ws => sub b o w :: cut b (o + w) ws
  end.

Lemma concat_cut b o ws :
  0 <= o -> Forall (fun w => 0 <= w) ws -> o + foldr Z.add 0 ws <= blen b ->
  concat (cut b o ws) = sub b o (foldr Z.add 0 ws).
Proof.
  revert o; induction ws as [|w ws IH]; intros o Ho Hw Hs; cbn [cut concat foldr] in *; [done|].
  apply Forall_cons in Hw as [Hw Hws].
  assert (0 <= foldr Z.add 0 ws) by (clear -Hws; induction Hws; simpl in *; lia).
  rewrite IH by (done || lia). by rewrite <- sub_split by lia.
Qed.

Lemma blen_take b n : 0 <= n <= blen b -> blen (take (Z.to_nat n) b) = n.
Proof. unfold blen. intros. rewrite length_take. lia. Qed.
Lemma blen_drop b n : 0 <= n <= blen b -> blen (drop (Z.to_nat n) b) = blen b - n.
Proof. unfold blen. intros. rewrite length_drop. lia. Qed.

Lemma sub_zeros n o m : 0 <= o -> 0 <= m -> o + m <= n -> sub (zeros n) o m = zeros m.
Proof. intros. unfold sub, zeros. rewrite drop_replicate, take_replicate. f_equal. lia. Qed.
