(* ===== verification/Keys.v ===== *)
(** * Keys: byte strings in lexicographic order, and searches over sorted keys

    The order of Rust's [Ord for [u8]], the facts about it that the B+ tree
    needs, the standard library's [binary_search_by], the search the accessor of
    [src/src/btree/leaf.rs] writes out, the partition search of
    [src/src/btree/internal.rs], and the finite map a sorted vector of records
    stands for. *)

From S2P Require Import Prelude.
From Stdlib Require Import ZArith Lia.
From stdpp Require Import base list numbers gmap sorting.
From coqutil Require Import Byte.

Local Open Scope Z_scope.
Local Open Scope pagedb_scope.

#[global] Instance byte_eq_dec : EqDecision byte := Byte.byte_eq_dec.
#[global] Instance byte_countable : Countable byte :=
  inj_countable Byte.to_N Byte.of_N Byte.of_to_N.

(** ** The order *)

Fixpoint bytes_compare (a b : bytes) : comparison :=
  match a, b with
  | [], [] => Eq
  | [], _ :: _ => Lt
  | _ :: _, [] => Gt
  | x :: a, y :: b =>
      match Z.compare (u8_of x) (u8_of y) with
      | Eq => bytes_compare a b
      | c => c
      end
  end.

Definition bytes_ltb (a b : bytes) : bool :=
  match bytes_compare a b with Lt => true | _ => false end.
Definition bytes_leb (a b : bytes) : bool :=
  match bytes_compare a b with Gt => false | _ => true end.

Definition key_lt (a b : bytes) : Prop := bytes_compare a b = Lt.
Definition key_le (a b : bytes) : Prop := bytes_compare a b <> Gt.

Infix "<ₖ" := key_lt (at level 70) : pagedb_scope.
Infix "≤ₖ" := key_le (at level 70) : pagedb_scope.

Lemma bytes_compare_refl a : bytes_compare a a = Eq.
Proof. induction a as [|x a IH]; simpl; [done|]. by rewrite Z.compare_refl. Qed.

Lemma bytes_compare_eq a b : bytes_compare a b = Eq <-> a = b.
Proof.
  split; [|intros ->; apply bytes_compare_refl].
  revert b; induction a as [|x a IH]; intros [|y b]; simpl; try done.
  destruct (Z.compare_spec (u8_of x) (u8_of y)) as [Hxy| |]; try done.
  intros ->%IH. apply byte.unsigned_inj in Hxy. by subst.
Qed.

Lemma bytes_compare_antisym a b : bytes_compare b a = CompOpp (bytes_compare a b).
Proof.
  revert b; induction a as [|x a IH]; intros [|y b]; simpl; try done.
  rewrite Z.compare_antisym. destruct (u8_of x ?= u8_of y); simpl; auto.
Qed.

Lemma key_lt_trans a b c : a <ₖ b -> b <ₖ c -> a <ₖ c.
Proof.
  unfold key_lt. revert b c.
  induction a as [|x a IH]; intros [|y b] [|z c]; simpl; try done.
  destruct (Z.compare_spec (u8_of x) (u8_of y)) as [Hxy|Hxy|Hxy]; try done;
    destruct (Z.compare_spec (u8_of y) (u8_of z)) as [Hyz|Hyz|Hyz]; try done; intros.
  - rewrite Hxy, Hyz, Z.compare_refl. eauto.
  - by rewrite (proj2 (Z.compare_lt_iff _ _)) by lia.
  - by rewrite (proj2 (Z.compare_lt_iff _ _)) by lia.
  - by rewrite (proj2 (Z.compare_lt_iff _ _)) by lia.
Qed.

Lemma key_lt_irrefl a : ~ a <ₖ a.
Proof. unfold key_lt. by rewrite bytes_compare_refl. Qed.

#[global] Instance key_lt_strict : StrictOrder key_lt.
Proof. split; [exact key_lt_irrefl|exact key_lt_trans]. Qed.

#[global] Instance key_lt_dec a b : Decision (a <ₖ b).
Proof. unfold key_lt. apply _. Defined.
#[global] Instance key_le_dec a b : Decision (a ≤ₖ b).
Proof. unfold key_le. apply _. Defined.

Lemma key_nlt_le a b : ~ a <ₖ b <-> b ≤ₖ a.
Proof.
  unfold key_lt, key_le. rewrite (bytes_compare_antisym a b).
  destruct (bytes_compare a b); simpl; naive_solver.
Qed.
Lemma key_nle_lt a b : ~ a ≤ₖ b <-> b <ₖ a.
Proof.
  unfold key_lt, key_le. rewrite (bytes_compare_antisym a b).
  destruct (bytes_compare a b); simpl; naive_solver.
Qed.
Lemma key_le_lteq a b : a ≤ₖ b <-> a <ₖ b \/ a = b.
Proof.
  unfold key_lt, key_le. rewrite <-bytes_compare_eq.
  destruct (bytes_compare a b); naive_solver.
Qed.
Lemma key_le_refl a : a ≤ₖ a.
Proof. apply key_le_lteq; auto. Qed.
Lemma key_lt_le a b : a <ₖ b -> a ≤ₖ b.
Proof. rewrite key_le_lteq; auto. Qed.
Lemma key_lt_le_trans a b c : a <ₖ b -> b ≤ₖ c -> a <ₖ c.
Proof. rewrite key_le_lteq. intros ? [?| ->]; [by etrans|done]. Qed.
Lemma key_le_lt_trans a b c : a ≤ₖ b -> b <ₖ c -> a <ₖ c.
Proof. rewrite key_le_lteq. intros [?| ->] ?; [by etrans|done]. Qed.
Lemma key_le_trans a b c : a ≤ₖ b -> b ≤ₖ c -> a ≤ₖ c.
Proof.
  rewrite !key_le_lteq. intros [?| ->] [?| ->]; auto. left; by etrans.
Qed.
Lemma key_lt_not_gt a b : a <ₖ b -> ~ b <ₖ a.
Proof. intros H1 H2. apply (key_lt_irrefl a). by etrans. Qed.
Lemma key_trichotomy a b : a <ₖ b \/ a = b \/ b <ₖ a.
Proof.
  destruct (decide (a <ₖ b)) as [|H]; [auto|].
  apply key_nlt_le, key_le_lteq in H as []; auto.
Qed.
Lemma key_nil_le a : [] ≤ₖ a.
Proof. by destruct a. Qed.
Lemma bytes_ltb_lt a b : bytes_ltb a b = true <-> a <ₖ b.
Proof. unfold bytes_ltb, key_lt. by destruct (bytes_compare a b). Qed.
Lemma bytes_leb_le a b : bytes_leb a b = true <-> a ≤ₖ b.
Proof. unfold bytes_leb, key_le. destruct (bytes_compare a b); naive_solver. Qed.

Lemma bytes_compare_app p a b : bytes_compare (p ++ a) (p ++ b) = bytes_compare a b.
Proof. induction p as [|x p IH]; simpl; [done|]. by rewrite Z.compare_refl. Qed.

(** ** Common prefixes *)

Fixpoint common_len (a b : bytes) : nat :=
  match a, b with
  | x :: a, y :: b => if decide (x = y) then S (common_len a b) else 0%nat
  | _, _ => 0%nat
  end.

Lemma common_len_le_l a b : (common_len a b <= length a)%nat.
Proof.
  revert b; induction a as [|x a IH]; intros [|y b]; simpl; try lia.
  case_decide; [|lia]. specialize (IH b). lia.
Qed.
Lemma common_len_le_r a b : (common_len a b <= length b)%nat.
Proof.
  revert b; induction a as [|x a IH]; intros [|y b]; simpl; try lia.
  case_decide; [|lia]. specialize (IH b). lia.
Qed.
Lemma common_len_take a b : take (common_len a b) b = take (common_len a b) a.
Proof.
  revert b; induction a as [|x a IH]; intros [|y b]; simpl; try done.
  case_decide; subst; simpl; [|done]. by rewrite IH.
Qed.

(** A key between two keys shares the prefix the two have in common. *)
Lemma common_len_between a b k :
  a ≤ₖ k -> k ≤ₖ b ->
  (common_len a b <= length k)%nat /\
  take (common_len a b) k = take (common_len a b) a.
Proof.
  unfold key_le. revert b k.
  induction a as [|x a IH]; intros [|y b] k; simpl; try (split; [lia|done]).
  case_decide as Hxy; [subst y|split; [simpl; lia|done]].
  destruct k as [|z k]; simpl; [done|].
  destruct (Z.compare_spec (u8_of x) (u8_of z)) as [Hxz|Hxz|Hxz];
    destruct (Z.compare_spec (u8_of z) (u8_of x)) as [Hzx|Hzx|Hzx];
    intros H1 H2; try done; try lia.
  apply byte.unsigned_inj in Hxz as ->.
  destruct (IH b k H1 H2) as [Hle Htk]. split; [lia|]. by rewrite Htk.
Qed.

(** ** Sorted keys *)

Abbreviation keys_sorted := (StronglySorted key_lt).

Lemma sorted_lookup_lt (l : list bytes) i j a b :
  keys_sorted l -> l !! i = Some a -> l !! j = Some b -> (i < j)%nat -> a <ₖ b.
Proof.
  intros Hs; revert i j. induction Hs as [|x l Hl IH Hx]; intros i j Hi Hj Hij; [done|].
  destruct j as [|j]; [lia|]. destruct i as [|i]; simpl in *.
  - simplify_eq. rewrite Forall_forall in Hx. apply Hx.
    apply list_elem_of_lookup; eauto.
  - apply (IH i j); auto with lia.
Qed.

(** The first and last keys bound a sorted list. *)
Lemma sorted_bounds ks a b k :
  keys_sorted ks -> head ks = Some a -> last ks = Some b -> k ∈ ks -> a ≤ₖ k /\ k ≤ₖ b.
Proof.
  intros Hs Ha Hb [i Hi]%list_elem_of_lookup.
  rewrite head_lookup in Ha. rewrite last_lookup in Hb.
  pose proof (lookup_lt_Some _ _ _ Hi). split.
  - destruct (decide (i = 0)%nat) as [->|]; [simplify_eq; apply key_le_refl|].
    apply key_lt_le. eapply sorted_lookup_lt; [done..|lia].
  - destruct (decide (i = pred (length ks))%nat) as [->|]; [simplify_eq; apply key_le_refl|].
    apply key_lt_le. eapply sorted_lookup_lt; [done..|lia].
Qed.

Lemma sorted_NoDup (l : list bytes) : keys_sorted l -> NoDup l.
Proof.
  induction 1 as [|x l Hl IH Hx]; constructor; [|done].
  rewrite Forall_forall in Hx. intros Hin. by apply (key_lt_irrefl x), Hx.
Qed.

Lemma sorted_app (l1 l2 : list bytes) :
  keys_sorted (l1 ++ l2) <->
  keys_sorted l1 /\ keys_sorted l2 /\
  (forall a b, a ∈ l1 -> b ∈ l2 -> a <ₖ b).
Proof.
  induction l1 as [|x l1 IH]; simpl.
  - split; [|naive_solver]. intros. split_and!; [constructor|done|].
    intros a b []%elem_of_nil.
  - split.
    + intros [Hs Hx]%StronglySorted_inv. apply IH in Hs as (Hs1 & Hs2 & Hs3).
      rewrite Forall_app in Hx. destruct Hx as [Hx1 Hx2].
      split_and!; [by constructor|done|].
      intros a b [->|Ha]%elem_of_cons Hb; [|auto].
      rewrite Forall_forall in Hx2; auto.
    + intros (H1 & H2 & H3). apply StronglySorted_inv in H1 as [H1 Hx].
      constructor.
      * apply IH. split_and!; [done..|]. intros; apply H3; [by right|done].
      * apply Forall_app; split; [done|]. apply Forall_forall; intros.
        apply H3; [by left|done].
Qed.

Lemma sorted_take (l : list bytes) n : keys_sorted l -> keys_sorted (take n l).
Proof. rewrite <-(take_drop n l) at 1. by intros []%sorted_app. Qed.
Lemma sorted_drop (l : list bytes) n : keys_sorted l -> keys_sorted (drop n l).
Proof. rewrite <-(take_drop n l) at 1. by intros (_ & ? & _)%sorted_app. Qed.

(** ** Searches

    Two searches look a key up: [slice::binary_search_by] of the standard
    library, which the vectors of decoded records use, and the loop the leaf
    accessor writes out over the encoded slots. Both run over indices below
    [n]; [inl i] is a match at [i], [inr i] the insertion point. They halve
    differently, so on keys that are not strictly sorted they may stop at
    different matches. Every iteration shrinks the interval, so [n] of them are
    enough; running out would panic. *)

(** The loop of the standard library: [base] moves to the middle unless the
    element there is greater, and an equal element does not end it. *)
Fixpoint binary_search_loop {E} (fuel : nat) (cmp : nat -> res E comparison)
    (base size : nat) : res E nat :=
  if (1 <? size)%nat then
    match fuel with
    | O => Panic
    | S fuel =>
        let half := (size / 2)%nat in
        let mid := (base + half)%nat in
        let! c := cmp mid in
        binary_search_loop fuel cmp
          (match c with Gt => base | _ => mid end) (size - half)
    end
  else Ok base.

Definition binary_search_by {E} (cmp : nat -> res E comparison) (n : nat)
  : res E (nat + nat) :=
  if (n =? 0)%nat then Ok (inr 0%nat) else
  let! base := binary_search_loop n cmp 0 n in
  let! c := cmp base in
  Ok (match c with
      | Eq => inl base
      | Lt => inr (base + 1)%nat
      | Gt => inr base
      end).

(** The loop of the accessor, which ends at the first match it meets. *)
Fixpoint bsearch {E} (fuel : nat) (cmp : nat -> res E comparison) (lo hi : nat)
  : res E (nat + nat) :=
  if (lo <? hi)%nat then
    match fuel with
    | O => Panic
    | S fuel =>
        let mid := (lo + (hi - lo) / 2)%nat in
        let! c := cmp mid in
        match c with
        | Lt => bsearch fuel cmp (mid + 1) hi
        | Gt => bsearch fuel cmp lo mid
        | Eq => Ok (inl mid)
        end
    end
  else Ok (inr lo).

Definition bisect {E} (cmp : nat -> res E comparison) (n : nat)
  : res E (nat + nat) := bsearch n cmp 0 n.

(** The smallest index of [0, n) at which [pred] fails, by bisection. *)
Fixpoint psearch {E} (fuel : nat) (pred : nat -> res E bool) (lo hi : nat)
  : res E nat :=
  if (lo <? hi)%nat then
    match fuel with
    | O => Panic
    | S fuel =>
        let mid := (lo + (hi - lo) / 2)%nat in
        let! b := pred mid in
        if (b : bool) then psearch fuel pred (mid + 1) hi
        else psearch fuel pred lo mid
    end
  else Ok lo.

Definition partition_point {E} (pred : nat -> res E bool) (n : nat) : res E nat :=
  psearch n pred 0 n.

Lemma mid_bounds lo hi : (lo < hi)%nat -> (lo <= lo + (hi - lo) / 2 < hi)%nat.
Proof. intros. pose proof (Nat.div_lt (hi - lo) 2). lia. Qed.

Lemma half_bounds size : (1 < size)%nat -> (1 <= size / 2 /\ 2 * (size / 2) <= size)%nat.
Proof.
  intros. pose proof (Nat.div_mod_eq size 2). pose proof (Nat.mod_upper_bound size 2). lia.
Qed.

(** [cmp] orders the indices below [n] around [p]: the ones before it compare
    less, the ones after it greater, and [found] says whether [p] matches. *)
Record ordered_at {E} (cmp : nat -> res E comparison) (p n : nat) (found : bool) : Prop :=
{ oa_low : forall i, (i < p)%nat -> cmp i = Ok Lt;
  oa_high : forall i, (p < i < n)%nat -> cmp i = Ok Gt;
  oa_at : (p < n)%nat -> cmp p = Ok (if found then Eq else Gt);
  oa_le : (p <= n)%nat;
  oa_found : found = true -> (p < n)%nat }.

Lemma bsearch_spec {E} (cmp : nat -> res E comparison) (p n : nat) (found : bool) :
  ordered_at cmp p n found ->
  forall fuel lo hi, (lo <= p <= hi)%nat -> (hi <= n)%nat -> (hi - lo <= fuel)%nat ->
  (found = true -> (p < hi)%nat) ->
  bsearch fuel cmp lo hi = Ok (if found then inl p else inr p).
Proof.
  intros [Hlt Hgt Hp _ _]. induction fuel as [|fuel IH]; intros lo hi Hin Hhi Hfuel Hfound;
    cbn [bsearch]; destruct (Nat.ltb_spec lo hi) as [Hl|Hl]; try lia.
  2: { pose proof (mid_bounds lo hi Hl) as Hm.
       set (mid := (lo + (hi - lo) / 2)%nat) in *.
       destruct (Nat.lt_trichotomy mid p) as [Hmp|[Hmp|Hmp]].
       - rewrite Hlt by done. apply IH; auto; lia.
       - rewrite Hmp, Hp by lia. destruct found; [done|]. apply IH; intros; try done; lia.
       - rewrite Hgt by lia. apply IH; intros; lia. }
  all: destruct found; [specialize (Hfound eq_refl); lia|].
  all: do 2 f_equal; lia.
Qed.

(** The loop of the standard library keeps [base] on an element that is not
    greater, or at the start, and drops only greater elements. *)
Lemma binary_search_loop_spec {E} (cmp : nat -> res E comparison) (p n : nat) (found : bool) :
  ordered_at cmp p n found ->
  let e := (p + if found then 1 else 0)%nat in
  forall fuel base size, (1 <= size <= fuel)%nat -> (base + size <= n)%nat ->
  (base = 0 \/ base < e)%nat -> (e <= base + size)%nat ->
  exists base', binary_search_loop fuel cmp base size = Ok base' /\ (base' < n)%nat /\
    (base' = 0 \/ base' < e)%nat /\ (e <= base' + 1)%nat.
Proof.
  intros [Hlt Hgt Hp _ _] e.
  induction fuel as [|fuel IH]; intros base size Hf Hn Hb He; [lia|]. cbn [binary_search_loop].
  destruct (Nat.ltb_spec 1 size) as [Hs|Hs]; [|exists base; split_and!; [done|lia..]].
  pose proof (half_bounds size Hs) as Hh. set (half := (size / 2)%nat) in *.
  assert ((base + half < e)%nat /\ (exists c, c <> Gt /\ cmp (base + half)%nat = Ok c) \/
          (e <= base + half)%nat /\ cmp (base + half)%nat = Ok Gt) as [[Hm (c & Hc & ->)]|[Hm ->]].
  { subst e. destruct (Nat.lt_trichotomy (base + half) p) as [?|[Hm|?]].
    - left. split; [destruct found; lia|]. exists Lt. by rewrite Hlt.
    - rewrite Hm, Hp by lia. destruct found; [left; split; [lia|by exists Eq]|right; split; [lia|done]].
    - right. rewrite Hgt by lia. split; [destruct found; lia|done]. }
  - simpl. replace (match c with Gt => base | _ => base + half end)%nat with (base + half)%nat
      by (by destruct c). apply IH; lia.
  - simpl. apply IH; lia.
Qed.

Lemma bisect_spec {E} (cmp : nat -> res E comparison) (p n : nat) (found : bool) :
  ordered_at cmp p n found -> bisect cmp n = Ok (if found then inl p else inr p).
Proof. intros Ho. destruct (Ho). apply (bsearch_spec _ _ _ _ Ho); auto; lia. Qed.

Lemma binary_search_by_spec {E} (cmp : nat -> res E comparison) (p n : nat) (found : bool) :
  ordered_at cmp p n found -> binary_search_by cmp n = Ok (if found then inl p else inr p).
Proof.
  intros Ho. destruct (Ho) as [Hlt Hgt Hp Hle Hfd]. unfold binary_search_by.
  destruct (Nat.eqb_spec n 0) as [->|Hn].
  { destruct found; [specialize (Hfd eq_refl); lia|]. do 2 f_equal. lia. }
  destruct (binary_search_loop_spec _ _ _ _ Ho n 0 n) as (b & -> & Hb & H0 & He);
    [lia|lia|by left|destruct found; [specialize (Hfd eq_refl)|]; lia|]. simpl.
  destruct found.
  - assert (b = p) as -> by lia. by rewrite Hp.
  - destruct (decide (b < p)%nat).
    + rewrite Hlt by done. simpl. do 2 f_equal. lia.
    + assert (b = p) as -> by lia. by rewrite Hp.
Qed.

Lemma bisect_ext {E} (cmp cmp' : nat -> res E comparison) (n : nat) :
  (forall i, (i < n)%nat -> cmp i = cmp' i) -> bisect cmp n = bisect cmp' n.
Proof.
  intros Hc. unfold bisect.
  assert (forall fuel lo hi, (hi <= n)%nat -> bsearch fuel cmp lo hi = bsearch fuel cmp' lo hi)
    as Hg; [|by apply Hg].
  induction fuel as [|fuel IH]; intros lo hi Hhi; cbn [bsearch]; [done|].
  destruct (Nat.ltb_spec lo hi) as [Hl|]; [|done]. pose proof (mid_bounds lo hi Hl).
  rewrite Hc by lia. destruct (cmp' _) as [[]| |]; try done; apply IH; lia.
Qed.

Lemma partition_point_ext {E} (pred pred' : nat -> res E bool) (n : nat) :
  (forall i, (i < n)%nat -> pred i = pred' i) ->
  partition_point pred n = partition_point pred' n.
Proof.
  intros Hc. unfold partition_point.
  assert (forall fuel lo hi, (hi <= n)%nat -> psearch fuel pred lo hi = psearch fuel pred' lo hi)
    as Hg; [|by apply Hg].
  induction fuel as [|fuel IH]; intros lo hi Hhi; cbn [psearch]; [done|].
  destruct (Nat.ltb_spec lo hi) as [Hl|]; [|done]. pose proof (mid_bounds lo hi Hl).
  rewrite Hc by lia. destruct (pred' _) as [[]| |]; try done; apply IH; lia.
Qed.

Lemma psearch_spec {E} (pred : nat -> res E bool) (p n : nat) :
  (forall i, (i < p)%nat -> pred i = Ok true) ->
  (forall i, (p <= i < n)%nat -> pred i = Ok false) ->
  forall fuel lo hi, (lo <= p <= hi)%nat -> (hi <= n)%nat -> (hi - lo <= fuel)%nat ->
  psearch fuel pred lo hi = Ok p.
Proof.
  intros Ht Hf. induction fuel as [|fuel IH]; intros lo hi Hin Hhi Hfuel;
    cbn [psearch]; destruct (Nat.ltb_spec lo hi) as [Hl|Hl]; try lia; try (f_equal; lia).
  pose proof (mid_bounds lo hi Hl) as Hm.
  set (mid := (lo + (hi - lo) / 2)%nat) in *.
  destruct (decide (mid < p)%nat).
  - rewrite Ht by done. apply IH; lia.
  - rewrite Hf by lia. apply IH; lia.
Qed.

(** Every sorted list splits at a key. *)
Lemma sorted_split_lt {V} (l : list (bytes * V)) q :
  keys_sorted l.*1 ->
  exists l1 l2, l = l1 ++ l2 /\ Forall (fun k => k <ₖ q) l1.*1 /\
                Forall (fun k => q ≤ₖ k) l2.*1.
Proof.
  induction l as [|[k v] l IH]; simpl; intros Hs.
  { by exists [], []. }
  apply StronglySorted_inv in Hs as [Hs Hk].
  destruct (decide (k <ₖ q)) as [Hlt|Hge].
  - destruct (IH Hs) as (l1 & l2 & -> & H1 & H2).
    exists ((k, v) :: l1), l2. simpl; auto.
  - apply key_nlt_le in Hge. exists [], ((k, v) :: l). simpl.
    split_and!; [done|done|]. constructor; [done|].
    eapply Forall_impl; [exact Hk|]. simpl. intros k' Hk'.
    by eapply key_lt_le, key_le_lt_trans.
Qed.

Lemma sorted_split_le {V} (l : list (bytes * V)) q :
  keys_sorted l.*1 ->
  exists l1 l2, l = l1 ++ l2 /\ Forall (fun k => k ≤ₖ q) l1.*1 /\
                Forall (fun k => q <ₖ k) l2.*1.
Proof.
  induction l as [|[k v] l IH]; simpl; intros Hs.
  { by exists [], []. }
  apply StronglySorted_inv in Hs as [Hs Hk].
  destruct (decide (k ≤ₖ q)) as [Hle|Hgt].
  - destruct (IH Hs) as (l1 & l2 & -> & H1 & H2).
    exists ((k, v) :: l1), l2. simpl; auto.
  - apply key_nle_lt in Hgt. exists [], ((k, v) :: l). simpl.
    split_and!; [done|done|]. constructor; [done|].
    eapply Forall_impl; [exact Hk|]. simpl. intros k' Hk'. by etrans.
Qed.

Lemma lookup_fst_Forall {V} (P : bytes -> Prop) (l : list (bytes * V)) i k v :
  Forall P l.*1 -> l !! i = Some (k, v) -> P k.
Proof.
  intros HP Hi. eapply (Forall_lookup_1 _ _ i k) in HP; [done|].
  by rewrite list_lookup_fmap, Hi.
Qed.

Section search_records.
Context {E V : Type}.

(** A comparison of record [i] with [q], as a search calls it. *)
Definition compare_at (l : list (bytes * V)) (q : bytes) (i : nat)
  : res E comparison :=
  match l !! i with
  | Some (k, _) => Ok (bytes_compare k q)
  | None => Panic
  end.

(** Comparing the keys of a sorted vector with [q] orders its indices around
    the record of [q] or the place where it belongs. *)
Lemma compare_at_ordered (l : list (bytes * V)) (q : bytes) :
  keys_sorted l.*1 ->
  (exists v l1 l2, l = l1 ++ (q, v) :: l2 /\
     Forall (fun k => k <ₖ q) l1.*1 /\ Forall (fun k => q <ₖ k) l2.*1 /\
     ordered_at (compare_at l q) (length l1) (length l) true) \/
  (exists l1 l2, l = l1 ++ l2 /\
     Forall (fun k => k <ₖ q) l1.*1 /\ Forall (fun k => q <ₖ k) l2.*1 /\
     ordered_at (compare_at l q) (length l1) (length l) false).
Proof.
  intros Hs.
  assert (forall i k v, l !! i = Some (k, v) -> compare_at l q i = Ok (bytes_compare k q)) as Hc.
  { intros i k v Hi. unfold compare_at. by rewrite Hi. }
  destruct (sorted_split_lt l q Hs) as (l1 & l2 & -> & H1 & H2).
  assert (forall i, (i < length l1)%nat -> compare_at (l1 ++ l2) q i = Ok Lt) as Hlow.
  { intros i Hi. destruct (lookup_lt_is_Some_2 l1 i Hi) as [[k v] Hk].
    rewrite (Hc i k v) by (by rewrite lookup_app_l).
    f_equal. by apply (lookup_fst_Forall _ _ _ _ _ H1 Hk). }
  rewrite fmap_app in Hs. apply sorted_app in Hs as (_ & Hs2 & _).
  destruct l2 as [|[k v] l2].
  { right. exists l1, []. rewrite app_nil_r in *. split_and!; [done..|]. split; auto; lia. }
  simpl in *. apply StronglySorted_inv in Hs2 as [_ Hk2].
  apply Forall_cons in H2 as [Hqk H2].
  set (l := l1 ++ (k, v) :: l2) in *.
  assert (forall i, (length l1 < i < length l)%nat -> compare_at l q i = Ok Gt) as Hhigh.
  { intros i Hi. unfold l in Hi. rewrite length_app in Hi. simpl in Hi.
    destruct (lookup_lt_is_Some_2 l2 (i - S (length l1))) as [[k' v'] Hk']; [lia|].
    rewrite (Hc i k' v').
    2: { unfold l. rewrite lookup_app_r by lia.
         by replace (i - length l1)%nat with (S (i - S (length l1))) by lia. }
    f_equal. rewrite bytes_compare_antisym.
    assert (q <ₖ k') as ->; [|done].
    eapply key_le_lt_trans; [exact Hqk|].
    exact (lookup_fst_Forall _ _ _ _ _ Hk2 Hk'). }
  assert (compare_at l q (length l1) = Ok (bytes_compare k q)) as Hat.
  { apply (Hc _ _ v). unfold l. by rewrite list_lookup_middle. }
  assert (length l1 < length l)%nat by (unfold l; rewrite length_app; simpl; lia).
  pose proof Hqk as Hqk'. apply key_le_lteq in Hqk' as [Hlt|<-].
  - right. exists l1, ((k, v) :: l2). split_and!; [done|done| |].
    { constructor; [done|]. eapply Forall_impl; [exact Hk2|].
      intros k' ?. by eapply key_le_lt_trans. }
    split; auto; [|lia]. rewrite Hat, bytes_compare_antisym. by rewrite Hlt.
  - left. exists v, l1, l2. split_and!; [done..|].
    split; auto; [|lia]. by rewrite Hat, bytes_compare_refl.
Qed.

(** A bisection on [key <= q] stops after the keys up to [q]. *)
Lemma partition_point_cases (l : list (bytes * V)) (q : bytes)
    (pred : nat -> res E bool) :
  keys_sorted l.*1 ->
  (forall i k v, l !! i = Some (k, v) -> pred i = Ok (bytes_leb k q)) ->
  exists l1 l2, l = l1 ++ l2 /\
    Forall (fun k => k ≤ₖ q) l1.*1 /\ Forall (fun k => q <ₖ k) l2.*1 /\
    partition_point pred (length l) = Ok (length l1).
Proof.
  intros Hs Hpred.
  destruct (sorted_split_le l q Hs) as (l1 & l2 & -> & H1 & H2).
  exists l1, l2. split_and!; [done..|].
  apply (psearch_spec pred (length l1) (length (l1 ++ l2)));
    try (rewrite length_app; lia).
  - intros i Hi. destruct (lookup_lt_is_Some_2 l1 i Hi) as [[k v] Hk].
    rewrite (Hpred i k v) by (by rewrite lookup_app_l).
    f_equal. apply bytes_leb_le. exact (lookup_fst_Forall _ _ _ _ _ H1 Hk).
  - intros i Hi. rewrite length_app in Hi.
    destruct (lookup_lt_is_Some_2 l2 (i - length l1)) as [[k v] Hk]; [lia|].
    rewrite (Hpred i k v) by (rewrite lookup_app_r by lia; done).
    f_equal. apply not_true_iff_false. rewrite bytes_leb_le. apply key_nle_lt.
    exact (lookup_fst_Forall _ _ _ _ _ H2 Hk).
Qed.
End search_records.

(** [binary_search_by] on the keys of a vector: the index found, or the index to
    insert at. It cannot fail ([position_total]). *)
Definition position {V} (l : list (bytes * V)) (q : bytes) : nat + nat :=
  match binary_search_by (E:=unit) (compare_at l q) (length l) with
  | Ok r => r
  | _ => inr 0%nat
  end.

Section position.
Context {V : Type}.
Implicit Types l : list (bytes * V).

Lemma binary_search_loop_total l q fuel base size :
  (1 <= size <= fuel)%nat -> (base + size <= length l)%nat ->
  exists base', (forall E, binary_search_loop (E:=E) fuel (compare_at l q) base size = Ok base') /\
    (base' < length l)%nat.
Proof.
  revert base size. induction fuel as [|fuel IH]; intros base size Hf Hn; [lia|].
  cbn [binary_search_loop]. destruct (Nat.ltb_spec 1 size) as [Hs|Hs];
    [|exists base; split; [done|lia]].
  pose proof (half_bounds size Hs). set (half := (size / 2)%nat) in *. unfold compare_at at 1.
  destruct (lookup_lt_is_Some_2 l (base + half)) as [[k v] ->]; [lia|].
  simpl. destruct (bytes_compare k q); apply IH; lia.
Qed.

(** The search of the standard library never fails on a vector, and a match is
    an index that holds the key. *)
Lemma binary_search_by_total l q :
  exists r, (forall E, binary_search_by (E:=E) (compare_at l q) (length l) = Ok r) /\
    forall i, r = inl i -> exists v, l !! i = Some (q, v).
Proof.
  unfold binary_search_by. destruct (Nat.eqb_spec (length l) 0); [by eexists|].
  destruct (binary_search_loop_total l q (length l) 0 (length l)) as (b & Hb & Hlt); [lia..|].
  destruct (lookup_lt_is_Some_2 l b Hlt) as [[k v] Hk].
  exists (match bytes_compare k q with Eq => inl b | Lt => inr (b + 1)%nat | Gt => inr b end).
  split.
  - intros E. rewrite Hb. simpl. unfold compare_at. by rewrite Hk.
  - intros i Hi. destruct (bytes_compare k q) eqn:Hc; simplify_eq.
    apply bytes_compare_eq in Hc as ->. eauto.
Qed.

Lemma position_total {E} l q :
  binary_search_by (E:=E) (compare_at l q) (length l) = Ok (position l q).
Proof.
  unfold position. destruct (binary_search_by_total l q) as (r & Hr & _). by rewrite !Hr.
Qed.

Lemma position_found l q i : position l q = inl i -> exists v, l !! i = Some (q, v).
Proof.
  unfold position. destruct (binary_search_by_total l q) as (r & Hr & Hf). rewrite Hr. apply Hf.
Qed.

Lemma position_bound l q i : position l q = inl i -> (i < length l)%nat.
Proof. intros [v Hv]%position_found. by eapply lookup_lt_Some. Qed.

Lemma position_cases l q :
  keys_sorted l.*1 ->
  (exists v l1 l2, l = l1 ++ (q, v) :: l2 /\
     Forall (fun k => k <ₖ q) l1.*1 /\ Forall (fun k => q <ₖ k) l2.*1 /\
     position l q = inl (length l1)) \/
  (exists l1 l2, l = l1 ++ l2 /\
     Forall (fun k => k <ₖ q) l1.*1 /\ Forall (fun k => q <ₖ k) l2.*1 /\
     position l q = inr (length l1)).
Proof.
  intros Hs.
  destruct (compare_at_ordered (E:=unit) l q Hs)
    as [(v & l1 & l2 & ? & ? & ? & Ho)|(l1 & l2 & ? & ? & ? & Ho)]; [left|right];
    apply binary_search_by_spec in Ho; rewrite position_total in Ho; naive_solver.
Qed.

Lemma position_none l q :
  keys_sorted l.*1 ->
  (match position l q with inl i => Some i | inr _ => None end) = None <-> q ∉ l.*1.
Proof.
  intros Hs. destruct (position_cases l q Hs)
    as [(v & l1 & l2 & -> & _ & _ & ->)|(l1 & l2 & -> & H1 & H2 & ->)]; rewrite fmap_app; simpl.
  - split; [done|set_solver].
  - split; [|done]. intros _ [Hq|Hq]%elem_of_app; rewrite Forall_forall in H1, H2.
    + by apply (key_lt_irrefl q), H1.
    + by apply (key_lt_irrefl q), H2.
Qed.

(** The accessor's search never fails either, and its matches are matches. *)
Lemma bsearch_total {E} l q fuel lo hi :
  (hi <= length l)%nat -> (hi - lo <= fuel)%nat ->
  exists r, bsearch (E:=E) fuel (compare_at l q) lo hi = Ok r /\
    forall i, r = inl i -> exists v, l !! i = Some (q, v).
Proof.
  revert lo hi. induction fuel as [|fuel IH]; intros lo hi Hhi Hf; cbn [bsearch];
    destruct (Nat.ltb_spec lo hi) as [Hl|]; try (by eexists); [lia|].
  pose proof (mid_bounds lo hi Hl). set (mid := (lo + (hi - lo) / 2)%nat) in *.
  unfold compare_at at 1. destruct (lookup_lt_is_Some_2 l mid) as [[k v] Hk]; [lia|].
  rewrite Hk. simpl. destruct (bytes_compare k q) eqn:Hc; [|apply IH; lia..].
  apply bytes_compare_eq in Hc as ->. exists (inl mid). split; [done|].
  intros i [= <-]. by exists v.
Qed.
Lemma bisect_total {E} l q :
  exists r, bisect (E:=E) (compare_at l q) (length l) = Ok r /\
    forall i, r = inl i -> exists v, l !! i = Some (q, v).
Proof. apply bsearch_total; lia. Qed.

(** On sorted keys the two searches agree. *)
Lemma bisect_position {E} l q :
  keys_sorted l.*1 -> bisect (E:=E) (compare_at l q) (length l) = Ok (position l q).
Proof.
  intros Hs. rewrite <-position_total.
  destruct (compare_at_ordered (E:=E) l q Hs)
    as [(v & l1 & l2 & ? & ? & ? & Ho)|(l1 & l2 & ? & ? & ? & Ho)];
    by rewrite (bisect_spec _ _ _ _ Ho), (binary_search_by_spec _ _ _ _ Ho).
Qed.

Lemma sorted_replace l1 l2 k v v' :
  keys_sorted (l1 ++ (k, v) :: l2).*1 -> keys_sorted (l1 ++ (k, v') :: l2).*1.
Proof. by rewrite !fmap_app. Qed.

Lemma sorted_insert l1 l2 k v :
  keys_sorted (l1 ++ l2).*1 ->
  Forall (fun k' => k' <ₖ k) l1.*1 -> Forall (fun k' => k <ₖ k') l2.*1 ->
  keys_sorted (l1 ++ (k, v) :: l2).*1.
Proof.
  rewrite !fmap_app, !sorted_app. intros (Hs1 & Hs2 & H12) H1 H2.
  rewrite Forall_forall in H1. split_and!; [done|by constructor|].
  intros a b Ha [->|Hb]%elem_of_cons; [by apply H1|by apply H12].
Qed.
End position.

(** ** The map a vector of records stands for *)

Definition rec_map {V} (l : list (bytes * V)) : gmap bytes V := list_to_map l.

Section rec_map.
Context {V : Type}.
Implicit Types l : list (bytes * V).

Lemma rec_map_app l1 l2 : rec_map (l1 ++ l2) = rec_map l1 ∪ rec_map l2.
Proof. apply list_to_map_app. Qed.

Lemma rec_map_None l q : q ∉ l.*1 <-> rec_map l !! q = None.
Proof. apply not_elem_of_list_to_map. Qed.

Lemma rec_map_Some l q v :
  keys_sorted l.*1 -> rec_map l !! q = Some v <-> (q, v) ∈ l.
Proof. intros Hs. symmetry. apply elem_of_list_to_map, sorted_NoDup, Hs. Qed.

Lemma rec_map_lt l q : Forall (fun k => k <ₖ q) l.*1 -> rec_map l !! q = None.
Proof.
  intros H. apply rec_map_None. intros Hin. rewrite Forall_forall in H.
  by apply (key_lt_irrefl q), H.
Qed.
Lemma rec_map_gt l q : Forall (fun k => q <ₖ k) l.*1 -> rec_map l !! q = None.
Proof.
  intros H. apply rec_map_None. intros Hin. rewrite Forall_forall in H.
  by apply (key_lt_irrefl q), H.
Qed.

Lemma rec_map_middle l1 l2 q v :
  rec_map l1 !! q = None ->
  rec_map (l1 ++ (q, v) :: l2) = <[q := v]> (rec_map (l1 ++ l2)).
Proof.
  intros Hq. rewrite !rec_map_app. simpl.
  change (rec_map ((q, v) :: l2)) with (<[q := v]> (rec_map l2)).
  symmetry. by apply insert_union_r.
Qed.
End rec_map.
