(* ===== verification/Hex.v ===== *)
(** * Hex: lowercase hex names of identifiers

    [src/src/hex.rs]: the names of sidecar files, segments and stores are hex
    encodings of their ids, so two ids never share a name. *)

From S2P Require Import Prelude Keys.
From Stdlib Require Import ZArith Lia Ascii String.
From stdpp Require Import base list strings.
From coqutil Require Import Byte.

Local Open Scope Z_scope.
Local Open Scope pagedb_scope.

Definition HEX : list Z := [48; 49; 50; 51; 52; 53; 54; 55; 56; 57; 97; 98; 99; 100; 101; 102].

Definition hex_char (nibble : Z) : Z := default 0 (HEX !! Z.to_nat nibble).

(** The characters as their codes. *)
Definition hex_codes (b : bytes) : list Z :=
  flat_map (fun x => [hex_char (Z.shiftr (u8_of x) 4); hex_char (Z.land (u8_of x) 15)]) b.

Definition char_of (code : Z) : ascii := ascii_of_N (Z.to_N code).
Definition code_of (c : ascii) : Z := Z.of_N (N_of_ascii c).

Definition to_hex_lower (b : bytes) : string := string_of_list_ascii (map char_of (hex_codes b)).

Definition hex_digit (c : Z) : option Z :=
  if (48 <=? c) && (c <=? 57) then Some (c - 48) else
  if (97 <=? c) && (c <=? 102) then Some (c - 97 + 10) else
  if (65 <=? c) && (c <=? 70) then Some (c - 65 + 10) else None.

Fixpoint parse_pairs (cs : list Z) : option bytes :=
  match cs with
  | [] => Some []
  | h :: l :: cs =>
      high ← hex_digit h; low ← hex_digit l; rest ← parse_pairs cs;
      Some (to_u8 (Z.lor (Z.shiftl high 4) low) :: rest)
  | [_] => None
  end.

Definition parse_hex (n : Z) (s : string) : option bytes :=
  let cs := map code_of (list_ascii_of_string s) in
  if negb (Z.of_nat (List.length cs) =? n * 2) then None else parse_pairs cs.

(** Every nibble's character reads back, also in upper case. *)
Lemma hex_digit_char n : 0 <= n < 16 -> hex_digit (hex_char n) = Some n.
Proof.
  intros Hn. assert (n ∈ seqZ 0 16) as Hin by (apply elem_of_seqZ; lia).
  revert Hin. change (seqZ 0 16) with [0;1;2;3;4;5;6;7;8;9;10;11;12;13;14;15].
  rewrite !elem_of_cons, elem_of_nil. intros H. repeat (destruct H as [->|H]; [done|]). done.
Qed.

Lemma nibbles x : 0 <= x < 256 -> Z.lor (Z.shiftl (Z.shiftr x 4) 4) (Z.land x 15) = x.
Proof.
  intros Hx. apply Z.bits_inj'. intros i Hi. rewrite Z.lor_spec, Z.land_spec.
  change 15 with (Z.ones 4). rewrite Z.testbit_ones_nonneg by lia.
  destruct (Z.ltb_spec i 4).
  - rewrite Z.shiftl_spec_low by lia. rewrite andb_true_r. done.
  - rewrite Z.shiftl_spec, Z.shiftr_spec by lia. replace (i - 4 + 4) with i by lia. rewrite andb_false_r. by destruct (Z.testbit x i).
Qed.

Lemma nibble_bounds x : 0 <= x < 256 -> 0 <= Z.shiftr x 4 < 16 /\ 0 <= Z.land x 15 < 16.
Proof.
  intros Hx. split.
  - rewrite Z.shiftr_div_pow2 by lia. change (2 ^ 4) with 16. split; [apply Z.div_pos; lia|]. apply Z.div_lt_upper_bound; lia.
  - change 15 with (Z.ones 4). rewrite Z.land_ones by lia. apply Z.mod_pos_bound. lia.
Qed.

Lemma hex_char_code n : 0 <= n < 16 -> 0 <= hex_char n < 256.
Proof.
  intros Hn. unfold hex_char. destruct (HEX !! Z.to_nat n) as [c|] eqn:E; simpl; [|lia].
  apply list_elem_of_lookup_2 in E. unfold HEX in E. rewrite !elem_of_cons, elem_of_nil in E. lia.
Qed.

Lemma code_of_char c : 0 <= c < 256 -> code_of (char_of c) = c.
Proof. intros Hc. unfold code_of, char_of. rewrite N_ascii_embedding by lia. lia. Qed.

Lemma parse_pairs_codes b : parse_pairs (hex_codes b) = Some b.
Proof.
  induction b as [|x b IH]; [done|]. pose proof (u8_of_bound x) as Hx. destruct (nibble_bounds (u8_of x) Hx).
  unfold hex_codes. cbn [flat_map app parse_pairs]. fold (hex_codes b).
  rewrite !hex_digit_char by done. simpl. rewrite IH. simpl. rewrite nibbles by done. by rewrite to_u8_u8.
Qed.

Lemma hex_codes_bounds b : Forall (fun c => 0 <= c < 256) (hex_codes b).
Proof.
  induction b as [|x b IH]; [constructor|]. pose proof (u8_of_bound x) as Hx. destruct (nibble_bounds (u8_of x) Hx).
  unfold hex_codes. cbn [flat_map app]. repeat constructor; try (by apply hex_char_code). exact IH.
Qed.

Lemma length_hex_codes b : List.length (hex_codes b) = (2 * List.length b)%nat.
Proof. induction b as [|x b IH]; [done|]. unfold hex_codes in *. cbn [flat_map app List.length]. rewrite IH. simpl. lia. Qed.

(** Decoding the name gives the id back. *)
Lemma parse_to_hex b : parse_hex (blen b) (to_hex_lower b) = Some b.
Proof.
  unfold parse_hex, to_hex_lower. rewrite list_ascii_of_string_of_list_ascii, map_map.
  assert (map (fun x => code_of (char_of x)) (hex_codes b) = hex_codes b) as ->.
  { pose proof (hex_codes_bounds b) as Hb. induction Hb as [|c l Hc _ IH]; [done|]. simpl. by rewrite IH, code_of_char. }
  rewrite length_hex_codes. unfold blen. rewrite (proj2 (Z.eqb_eq _ _)) by lia. apply parse_pairs_codes.
Qed.

Lemma to_hex_inj b b' : to_hex_lower b = to_hex_lower b' -> b = b'.
Proof.
  intros He. pose proof (parse_to_hex b) as H1. pose proof (parse_to_hex b') as H2. rewrite He in H1.
  unfold parse_hex in *. destruct (negb _) in H1; [done|]. destruct (negb _) in H2; [done|]. congruence.
Qed.
