(* ===== verification/Errors.v ===== *)
(** * Errors: the error spine of the crate

    The enums of [src/src/errors/] with their constructors and fields. Static
    strings and names are [string]; [std::io::Error] is its message or kind;
    [getrandom::Error] carries nothing the code looks at. *)

From S2P Require Import Prelude.
From Stdlib Require Import ZArith.
From stdpp Require Import base strings.

Local Open Scope Z_scope.

Definition RealmId := bytes.
Definition CommitId := Z.

(** [txn/mode.rs] *)
Inductive DbMode := Standalone | Follower | ReadOnlyMode | Observer.

Inductive QuotaKind := Pages | DirtyPages | ScratchPages | SegmentBytes.

Inductive Evictable := Authoritative | Replaceable.

Inductive CorruptionDetail :=
| ForeignSegment (realm_id : RealmId) (name : string)
    (segment_id footer_parent_file_id expected_parent_file_id : bytes)
| FooterUnverifiable (realm_id : RealmId) (segment_id : bytes)
| SegmentMetadataMismatch (field : string)
| SegmentGeometryInvalid (field : string)
| CatalogRowInvalid (field : string)
| SegmentMissing (realm_id : RealmId) (name : string) (segment_id : bytes)
| StagingMissing (segment_id : bytes)
| PageUnverifiable (realm_id : RealmId) (segment_id : option bytes) (page_id : Z)
    (evictable : option Evictable)
| ManifestUnverifiable (realm_id : RealmId) (segment_id : bytes)
| HeaderUnverifiable
| StructuralHeaderInvalid (header field : string)
| FooterFramingInvalid (field : string)
| NodeBodyMalformed (field : string)
| NodeKindMismatch (page_id : option Z) (expected found : string)
| OverflowBodyMalformed (field : string)
| JournalRecordMalformed (field : string)
| SnapshotArtifactInvalid (field : string)
| ReservedPageReferenced (parent_page_id child_page_id : Z)
| OverflowChainCycle (root_page_id page_id : Z)
| PageChainCycle (structure : string) (page_id : Z)
| LeafSiblingMismatch (leaf_page_id right_sibling : Z) (parent_next : option Z)
| PageKindAliased (page_id : Z) (walked_as referenced_as : string).

Inductive PagedbError :=
| ChecksumFailure
| MissingPersistedKey (mk_epoch cipher_id : Z)
| Corruption (detail : CorruptionDetail)
| Quota (realm : RealmId) (kind : QuotaKind) (used limit : Z)
| NoSpace
| NonceCounterExhausted
| ArithmeticOverflow (operation : string)
| ReadOnly
| WriterPresent
| ReadersPresent
| AlreadyOpen
| AlreadyLocked
| RestoredNotPromoted
| KeyMismatch
| FormatVersionUnsupported (stored supported : Z)
| HeaderCapabilityUnsupported (unknown_flags : Z)
| PageSizeMismatch (stored supplied : Z)
| RealmMismatch (stored supplied : RealmId)
| WrongMode (operation : string) (required actual : DbMode)
| SnapshotIncompatible (field : string)
| SnapshotBasePageReused (page_id : Z)
| DurablyCommittedButUnpublished (commit : CommitId)
| CommitOutcomeUnknown (commit : CommitId) (source : PagedbError)
| WriteTxnInterrupted
| RekeyTargetEpochActivated (commit : CommitId) (source : PagedbError)
| RekeyNoSpace (source_epoch target_epoch : Z)
| SegmentEpochStale (segment_epoch store_epoch : Z)
| RekeyPending (source_epoch target_epoch : Z)
| CommitGone (commit oldest_available : CommitId)
| NotFound
| AlreadyLinked
| NotLinked
| NameTooLong
| IllegalPageKind
| PayloadTooLarge
| EmptyExtent
| ManifestTooLarge
| MmapViewQuotaExceeded (segment_bytes available_bytes : Z)
| Aborted
| AppendNotMonotonic
| BulkLoadNotMonotonic
| DeferredFreeBacklog (pages_pending oldest_pinning_commit : Z)
| ReadersPinningTruncatedRange
| ApplyBlockedByPinnedReader (reader_commit : CommitId)
| RekeyResumeKeyRequired (source_epoch target_epoch : Z)
| RekeyCounterpartKeyInvalid (source_epoch target_epoch : Z)
| RekeyStateInvalid (field : string)
| RekeyReplacementMissing (replacement_segment_id : bytes)
| VfsContractViolated (operation detail : string)
| PageCacheStateInvalid (operation detail : string) (slot : option Z)
| Unsupported
| Randomness
| Io (message : string).

(** [Result<T>] of the crate. *)
Abbreviation result A := (res PagedbError A).

(** The named constructors of [errors/constructors.rs] in use. The diagnostics
    capture of [PagedbError::corruption] has no effect on the value. *)
Definition corruption (d : CorruptionDetail) : PagedbError := Corruption d.
Definition node_body_malformed (field : string) : PagedbError :=
  corruption (NodeBodyMalformed field).
Definition node_kind_mismatch (page_id : option Z) (expected found : string)
  : PagedbError := corruption (NodeKindMismatch page_id expected found).
Definition overflow_body_malformed (field : string) : PagedbError :=
  corruption (OverflowBodyMalformed field).
Definition overflow_chain_cycle (root_page_id page_id : Z) : PagedbError :=
  corruption (OverflowChainCycle root_page_id page_id).
Definition leaf_sibling_mismatch (leaf_page_id right_sibling : Z) (parent_next : option Z)
  : PagedbError := corruption (LeafSiblingMismatch leaf_page_id right_sibling parent_next).
Definition page_chain_cycle (structure : string) (page_id : Z) : PagedbError :=
  corruption (PageChainCycle structure page_id).
Definition structural_header_invalid (header field : string) : PagedbError :=
  corruption (StructuralHeaderInvalid header field).
Definition catalog_row_invalid (field : string) : PagedbError :=
  corruption (CatalogRowInvalid field).
Definition arithmetic_overflow (operation : string) : PagedbError :=
  ArithmeticOverflow operation.

(** [u16::try_from(n).map_err(..)?] and its siblings. *)
Definition try_u16 (n : Z) (what : string) : result Z :=
  if (0 <=? n) && (n <=? U16_MAX) then Ok n else Err (Io what).
Definition try_u32 (n : Z) (what : string) : result Z :=
  if (0 <=? n) && (n <=? U32_MAX) then Ok n else Err (Io what).

Lemma try_u16_ok n what : is_u16 n -> try_u16 n what = Ok n.
Proof.
  intros; unfold try_u16, U16_MAX. by rewrite !(proj2 (Z.leb_le _ _)) by lia.
Qed.
Lemma try_u16_inv n m what : try_u16 n what = Ok m -> m = n /\ is_u16 n.
Proof. unfold try_u16, U16_MAX. intros H. inv_ok H. lia. Qed.
Lemma try_u32_ok n what : is_u32 n -> try_u32 n what = Ok n.
Proof.
  intros; unfold try_u32, U32_MAX. by rewrite !(proj2 (Z.leb_le _ _)) by lia.
Qed.
