(* ===== verification/PageFormat.v ===== *)
(** * PageFormat: page kinds, cipher ids and the page-id space

    [src/src/pager/format/page_kind.rs], the [CipherId] of
    [src/src/crypto/cipher.rs], [src/src/pager/page_space.rs] and the sizes of
    the Format A envelope ([src/src/pager/format/data_page.rs]). *)

From S2P Require Import Prelude Errors.
From Stdlib Require Import ZArith Lia.
From stdpp Require Import base strings.

Local Open Scope Z_scope.
Local Open Scope pagedb_scope.

Module PageKind.
Inductive t :=
| BTreeInternal | BTreeLeaf | Free | Spill | Overflow | Counter | Catalog
| ApplyJournal | OverflowRoot | SegmentData | SegmentIndex | SegmentOverflow.

#[global] Instance eq_dec : EqDecision t.
Proof. solve_decision. Defined.

Definition as_byte (k : t) : Z :=
  match k with
  | BTreeInternal => 1 | BTreeLeaf => 2 | Free => 3 | Spill => 4
  | Overflow => 5 | Counter => 6 | Catalog => 7 | ApplyJournal => 8
  | OverflowRoot => 9 | SegmentData => 16 | SegmentIndex => 17
  | SegmentOverflow => 18
  end.

Definition from_byte (b : Z) : result t :=
  match b with
  | 1 => Ok BTreeInternal | 2 => Ok BTreeLeaf | 3 => Ok Free | 4 => Ok Spill
  | 5 => Ok Overflow | 6 => Ok Counter | 7 => Ok Catalog | 8 => Ok ApplyJournal
  | 9 => Ok OverflowRoot | 16 => Ok SegmentData | 17 => Ok SegmentIndex
  | 18 => Ok SegmentOverflow
  | _ => Err IllegalPageKind
  end.

Definition is_main_db (k : t) : bool :=
  match k with
  | BTreeInternal | BTreeLeaf | Free | Spill | Overflow | Counter | Catalog
  | ApplyJournal | OverflowRoot => true
  | _ => false
  end.

Definition is_segment (k : t) : bool :=
  match k with
  | SegmentData | SegmentIndex | SegmentOverflow => true
  | _ => false
  end.

Lemma as_byte_u8 k : is_u8 (as_byte k).
Proof. destruct k; simpl; lia. Qed.
Lemma from_as_byte k : from_byte (as_byte k) = Ok k.
Proof. by destruct k. Qed.
Lemma from_byte_no_panic b : from_byte b <> Panic.
Proof. unfold from_byte. by repeat case_match. Qed.
Lemma from_byte_inv b k : from_byte b = Ok k -> b = as_byte k.
Proof.
  unfold from_byte. intros H.
  repeat match type of H with
  | match ?x with _ => _ end = _ => destruct x; try discriminate H
  end; by injection H as <-.
Qed.
End PageKind.

Module CipherId.
Inductive t := PlaintextMac | Aes256Gcm | ChaCha20Poly1305.

#[global] Instance eq_dec : EqDecision t.
Proof. solve_decision. Defined.

Definition as_byte (c : t) : Z :=
  match c with PlaintextMac => 0 | Aes256Gcm => 1 | ChaCha20Poly1305 => 2 end.

Definition from_byte (b : Z) : result t :=
  match b with
  | 0 => Ok PlaintextMac | 1 => Ok Aes256Gcm | 2 => Ok ChaCha20Poly1305
  | _ => Err Unsupported
  end.

Lemma cipher_from_as_byte c : from_byte (as_byte c) = Ok c.
Proof. by destruct c. Qed.
Lemma cipher_from_byte_no_panic b : from_byte b <> Panic.
Proof. unfold from_byte. by repeat case_match. Qed.
Lemma cipher_from_byte_inv b c : from_byte b = Ok c -> b = as_byte c.
Proof.
  unfold from_byte. intros H.
  repeat match type of H with
  | match ?x with _ => _ end = _ => destruct x; try discriminate H
  end; by injection H as <-.
Qed.
Lemma cipher_as_byte_u8 c : is_u8 (as_byte c).
Proof. destruct c; simpl; lia. Qed.
End CipherId.

(** ** Page-id space *)

Definition FIRST_ALLOCATABLE_PAGE_ID : Z := 4.

Definition is_reserved (page_id : Z) : bool := page_id <? FIRST_ALLOCATABLE_PAGE_ID.

Definition page_offset (page_id page_size : Z) (operation : string) : result Z :=
  ok_or (checked_mul page_id page_size) (arithmetic_overflow operation).

(** ** Sizes of the Format A envelope *)

Definition ENVELOPE_HEADER_LEN : Z := 24.
Definition TAG_LEN : Z := 16.
Definition ENVELOPE_OVERHEAD : Z := ENVELOPE_HEADER_LEN + TAG_LEN.

Definition body_capacity (page_size : Z) : Z := page_size - ENVELOPE_OVERHEAD.
