(* ===== verification/Node.v ===== *)
(** * Node: the body layout shared by leaf and internal pages

    [src/src/btree/node.rs]: the fixed 24-byte node header, the slot directory,
    and the structural validation every decoder and zero-copy accessor runs
    before it indexes the body. *)

From S2P Require Import Prelude Errors PageFormat.
From Stdlib Require Import ZArith Lia.
From stdpp Require Import base list strings.

Local Open Scope Z_scope.
Local Open Scope pagedb_scope.

Module NodeKind.
Inductive t := Internal | Leaf.

#[global] Instance eq_dec : EqDecision t.
Proof. solve_decision. Defined.

Definition as_byte (k : t) : Z := match k with Internal => 0 | Leaf => 1 end.

Definition from_byte (b : Z) : result t :=
  match b with
  | 0 => Ok Internal
  | 1 => Ok Leaf
  | _ => Err (node_body_malformed "node_kind_byte")
  end.

Definition name (k : t) : string :=
  match k with Internal => "internal" | Leaf => "leaf" end.
End NodeKind.

Definition HEADER_LEN : Z := 24.
Definition OFF_NODE_KIND : Z := 0.
Definition OFF_SLOT_COUNT : Z := 2.
Definition OFF_PREFIX_LEN : Z := 4.
Definition OFF_LEFT_SIBLING : Z := 8.
Definition OFF_DUAL_USE : Z := 16.
Definition OVERFLOW_SENTINEL : Z := 65535.

(** ** Field access *)

Definition read_u16_le (body : bytes) (offset : Z) : result Z :=
  let! b := slice body offset (offset + 2) in Ok (of_le b).

Definition read_u64_le (body : bytes) (offset : Z) : result Z :=
  let! b := slice body offset (offset + 8) in Ok (of_le b).

Definition write_u16_le (body : bytes) (offset value : Z) : result bytes :=
  copy_at body offset (le16 value).

Definition write_u64_le (body : bytes) (offset value : Z) : result bytes :=
  copy_at body offset (le64 value).

Definition slot_offset (body : bytes) (prefix_len slot_index : Z) : result Z :=
  read_u16_le body (HEADER_LEN + prefix_len + slot_index * 2).

Definition write_slot_offset (body : bytes) (prefix_len slot_index value : Z)
  : result bytes :=
  copy_at body (HEADER_LEN + prefix_len + slot_index * 2) (le16 value).

(** ** Header *)

Record NodeHeader := mkNodeHeader {
  kind : NodeKind.t;
  slot_count : Z;
  prefix_len : Z;
  left_sibling : Z;
  dual_use : Z;
}.

Definition read_header (body : bytes) : result NodeHeader :=
  if blen body <? HEADER_LEN then Err (node_body_malformed "header_length") else
  let! kb := byte_at body OFF_NODE_KIND in
  let! kind := NodeKind.from_byte (u8_of kb) in
  let! slot_count := read_u16_le body OFF_SLOT_COUNT in
  let! prefix_len := read_u16_le body OFF_PREFIX_LEN in
  let! left_sibling := read_u64_le body OFF_LEFT_SIBLING in
  let! dual_use := read_u64_le body OFF_DUAL_USE in
  Ok (mkNodeHeader kind slot_count prefix_len left_sibling dual_use).

Definition write_header (body : bytes) (kind : NodeKind.t)
    (slot_count prefix_len left_sibling dual_use : Z) : result bytes :=
  let! body := copy_at body OFF_NODE_KIND [to_u8 (NodeKind.as_byte kind)] in
  let! body := copy_at body 1 [to_u8 0] in
  let! body := write_u16_le body OFF_SLOT_COUNT slot_count in
  let! body := write_u16_le body OFF_PREFIX_LEN prefix_len in
  let! body := write_u16_le body 6 0 in
  let! body := write_u64_le body OFF_LEFT_SIBLING left_sibling in
  write_u64_le body OFF_DUAL_USE dual_use.

(** ** Validation *)

Definition malformed : PagedbError := node_body_malformed "slot_directory".

Definition field_end (body : bytes) (start len : Z) : result Z :=
  let! end_ := ok_or (checked_add start len) malformed in
  if blen body <? end_ then Err malformed else Ok end_.

Definition validate_leaf_record (body : bytes) (offset : Z) : result unit :=
  let! after_suffix_len := field_end body offset 2 in
  let! suffix_len := read_u16_le body offset in
  let! after_suffix := field_end body after_suffix_len suffix_len in
  let! after_value_len := field_end body after_suffix 2 in
  let! value_len_raw := read_u16_le body after_suffix in
  if value_len_raw =? OVERFLOW_SENTINEL then
    let! _ := field_end body after_value_len 16 in Ok tt
  else
    let! _ := field_end body after_value_len value_len_raw in Ok tt.

Definition validate_internal_record (body : bytes) (offset : Z) : result unit :=
  let! after_key_len := field_end body offset 2 in
  let! key_len := read_u16_le body offset in
  let! after_key := field_end body after_key_len key_len in
  let! _ := field_end body after_key 8 in Ok tt.

Definition validate_node_body (body : bytes) : result NodeHeader :=
  let! header := read_header body in
  let! directory_end :=
    ok_or (end_ ← checked_add HEADER_LEN (prefix_len header);
           dir ← checked_mul (slot_count header) 2;
           checked_add end_ dir) malformed in
  if blen body <? directory_end then Err malformed else
  let! _ :=
    fold_res (fun (_ : unit) (slot_index : nat) =>
      let! offset := slot_offset body (prefix_len header) (Z.of_nat slot_index) in
      match kind header with
      | NodeKind.Leaf => validate_leaf_record body offset
      | NodeKind.Internal => validate_internal_record body offset
      end) tt (seq 0 (Z.to_nat (slot_count header))) in
  Ok header.

(** The memo belongs to the cached page; the second component is its new value. *)
Definition validate_node_body_memoised (body : bytes) (memo : bool)
  : result NodeHeader * bool :=
  if memo then (read_header body, memo)
  else match validate_node_body body with
       | Ok header => (Ok header, true)
       | r => (r, memo)
       end.

(** ** Reads as values *)

Definition u16_at (b : bytes) (off : Z) : Z := of_le (sub b off 2).
Definition u64_at (b : bytes) (off : Z) : Z := of_le (sub b off 8).

Lemma u16_at_bound b off : 0 <= off -> off + 2 <= blen b -> is_u16 (u16_at b off).
Proof. intros. apply (of_le_bound _ 2). apply blen_sub; lia. Qed.
Lemma u16_at_nonneg b off : 0 <= u16_at b off.
Proof. apply (of_le_bound _ _ eq_refl). Qed.
Lemma u64_at_bound b off : 0 <= off -> off + 8 <= blen b -> is_u64 (u64_at b off).
Proof. intros. apply (of_le_bound _ 8). apply blen_sub; lia. Qed.

Lemma read_u16_le_ok b off :
  0 <= off -> off + 2 <= blen b -> read_u16_le b off = Ok (u16_at b off).
Proof.
  intros. unfold read_u16_le. rewrite slice_ok by lia.
  by replace (off + 2 - off) with 2 by lia.
Qed.
Lemma read_u64_le_ok b off :
  0 <= off -> off + 8 <= blen b -> read_u64_le b off = Ok (u64_at b off).
Proof.
  intros. unfold read_u64_le. rewrite slice_ok by lia.
  by replace (off + 8 - off) with 8 by lia.
Qed.
Lemma read_u16_le_inv b off v :
  read_u16_le b off = Ok v ->
  0 <= off /\ off + 2 <= blen b /\ v = u16_at b off /\ is_u16 v.
Proof.
  unfold read_u16_le. destruct (slice b off (off + 2)) as [s|e|] eqn:Hs; [|done..].
  intros [= <-]. apply slice_inv in Hs as (?&?&?&->).
  replace (off + 2 - off) with 2 by lia.
  split_and!; try lia; try done; apply u16_at_bound; lia.
Qed.

Lemma u16_at_splice b off v : 0 <= off -> off + 2 <= blen b -> is_u16 v ->
  u16_at (splice b off (le16 v)) off = v.
Proof.
  intros. unfold u16_at. rewrite <-(blen_le16 v).
  rewrite sub_splice_same; [by apply of_le16|done|by rewrite blen_le16].
Qed.
Lemma u64_at_splice b off v : 0 <= off -> off + 8 <= blen b -> is_u64 v ->
  u64_at (splice b off (le64 v)) off = v.
Proof.
  intros. unfold u64_at. rewrite <-(blen_le64 v).
  rewrite sub_splice_same; [by apply of_le64|done|by rewrite blen_le64].
Qed.

(** Two buffers that agree on a range agree on the fields in it. *)
Lemma u16_at_eq b b' off : sub b off 2 = sub b' off 2 -> u16_at b off = u16_at b' off.
Proof. unfold u16_at. by intros ->. Qed.
Lemma u64_at_eq b b' off : sub b off 8 = sub b' off 8 -> u64_at b off = u64_at b' off.
Proof. unfold u64_at. by intros ->. Qed.

(** ** What validation establishes *)

Definition leaf_record_in (body : bytes) (off : Z) : Prop :=
  0 <= off /\
  let s := u16_at body off in
  let v := u16_at body (off + 2 + s) in
  off + 2 + s + 2 + (if v =? OVERFLOW_SENTINEL then 16 else v) <= blen body.

Definition internal_record_in (body : bytes) (off : Z) : Prop :=
  0 <= off /\ off + 2 + u16_at body off + 8 <= blen body.

Definition record_in (k : NodeKind.t) (body : bytes) (off : Z) : Prop :=
  match k with
  | NodeKind.Leaf => leaf_record_in body off
  | NodeKind.Internal => internal_record_in body off
  end.

(** A body whose directory and records lie inside it. *)
Definition body_in (body : bytes) (h : NodeHeader) : Prop :=
  HEADER_LEN <= blen body /\ is_u16 (slot_count h) /\ is_u16 (prefix_len h) /\
  HEADER_LEN + prefix_len h + slot_count h * 2 <= blen body /\
  forall i, 0 <= i < slot_count h ->
    record_in (kind h) body (u16_at body (HEADER_LEN + prefix_len h + i * 2)).

Lemma field_end_inv b start len e :
  field_end b start len = Ok e -> e = start + len /\ e <= blen b.
Proof.
  unfold field_end, ok_or, checked_add. intros H.
  destruct (start + len <=? USIZE_MAX); [|done]. inv_ok H. lia.
Qed.
Lemma field_end_ok b start len :
  start + len <= blen b -> blen b <= USIZE_MAX -> field_end b start len = Ok (start + len).
Proof.
  intros. unfold field_end, ok_or, checked_add.
  rewrite (proj2 (Z.leb_le _ _)) by lia. by rewrite (proj2 (Z.ltb_ge _ _)) by lia.
Qed.
Lemma field_end_no_panic b start len : field_end b start len <> Panic.
Proof. unfold field_end, ok_or. by repeat case_match. Qed.

(** Steps through validation code: bounds proved by [field_end] make the reads
    that follow succeed. *)
Ltac vstep :=
  match goal with
  | |- context [field_end ?b ?s ?l] =>
      let Hfe := fresh "Hfe" in
      destruct (field_end b s l) as [?e|?e|] eqn:Hfe;
      [apply field_end_inv in Hfe as [-> Hfe]| |by apply field_end_no_panic in Hfe]
  | |- context [read_u16_le ?b ?o] =>
      let B := fresh "B" in
      assert (is_u16 (u16_at b o)) as B by (apply u16_at_bound; lia);
      rewrite (read_u16_le_ok b o) by lia
  end.

Lemma validate_leaf_record_spec body off :
  0 <= off -> validate_leaf_record body off <> Panic /\
  (validate_leaf_record body off = Ok tt -> leaf_record_in body off).
Proof.
  intros. unfold validate_leaf_record, leaf_record_in. simpl.
  repeat (vstep; try done); destruct (_ =? OVERFLOW_SENTINEL);
    (split; [done|intros [=]; lia]).
Qed.

Lemma validate_internal_record_spec body off :
  0 <= off -> validate_internal_record body off <> Panic /\
  (validate_internal_record body off = Ok tt -> internal_record_in body off).
Proof.
  intros. unfold validate_internal_record, internal_record_in.
  by repeat (vstep; try done).
Qed.

Lemma validate_leaf_record_ok body off :
  leaf_record_in body off -> blen body <= USIZE_MAX ->
  validate_leaf_record body off = Ok tt.
Proof.
  intros [? Hin] ?. cbv zeta in Hin. unfold validate_leaf_record.
  pose proof (u16_at_nonneg body off).
  pose proof (u16_at_nonneg body (off + 2 + u16_at body off)).
  assert (off + 2 + u16_at body off + 2 <= blen body) by (destruct (_ =? _); lia).
  rewrite field_end_ok by lia. rewrite read_u16_le_ok by lia.
  rewrite field_end_ok by lia. rewrite field_end_ok by lia.
  rewrite read_u16_le_ok by lia.
  destruct (_ =? OVERFLOW_SENTINEL); by rewrite field_end_ok by lia.
Qed.

Lemma validate_internal_record_ok body off :
  internal_record_in body off -> blen body <= USIZE_MAX ->
  validate_internal_record body off = Ok tt.
Proof.
  intros [? Hin] ?. unfold validate_internal_record.
  pose proof (u16_at_nonneg body off).
  rewrite field_end_ok by lia. rewrite read_u16_le_ok by lia.
  rewrite field_end_ok by lia. by rewrite field_end_ok by lia.
Qed.

Lemma read_header_no_panic body : read_header body <> Panic.
Proof.
  unfold read_header, HEADER_LEN. destruct (Z.ltb_spec (blen body) 24); [done|].
  destruct (byte_at_ok (E:=PagedbError) body OFF_NODE_KIND) as (x & -> & _);
    [unfold OFF_NODE_KIND; lia|].
  unfold NodeKind.from_byte.
  unfold OFF_SLOT_COUNT, OFF_PREFIX_LEN, OFF_LEFT_SIBLING, OFF_DUAL_USE.
  destruct (u8_of x) as [|[]|]; try done; rewrite !read_u16_le_ok, !read_u64_le_ok by lia;
    done.
Qed.

Lemma read_header_inv body h :
  read_header body = Ok h ->
  HEADER_LEN <= blen body /\
  slot_count h = u16_at body OFF_SLOT_COUNT /\ is_u16 (slot_count h) /\
  prefix_len h = u16_at body OFF_PREFIX_LEN /\ is_u16 (prefix_len h) /\
  left_sibling h = u64_at body OFF_LEFT_SIBLING /\
  dual_use h = u64_at body OFF_DUAL_USE.
Proof.
  unfold read_header, HEADER_LEN. destruct (Z.ltb_spec (blen body) 24); [done|].
  unfold OFF_SLOT_COUNT, OFF_PREFIX_LEN, OFF_LEFT_SIBLING, OFF_DUAL_USE.
  rewrite !read_u16_le_ok, !read_u64_le_ok by lia.
  intros Hh. inv_ok Hh. split_and!; try done; try apply u16_at_bound; lia.
Qed.

Lemma fold_unit_no_panic {A} (f : A -> result unit) l :
  Forall (fun x => f x <> Panic) l -> fold_res (fun _ x => f x) tt l <> Panic.
Proof.
  induction 1 as [|x l Hx _ IH]; simpl; [done|].
  destruct (f x) as [[]| |]; done.
Qed.
Lemma fold_unit_ok {A} (f : A -> result unit) l :
  fold_res (fun _ x => f x) tt l = Ok tt <-> Forall (fun x => f x = Ok tt) l.
Proof.
  induction l as [|x l IH]; simpl; [done|]. rewrite Forall_cons, <-IH.
  destruct (f x) as [[]| |]; naive_solver.
Qed.

Lemma directory_end_eq h :
  is_u16 (slot_count h) -> is_u16 (prefix_len h) ->
  (end_ ← checked_add HEADER_LEN (prefix_len h);
   dir ← checked_mul (slot_count h) 2;
   checked_add end_ dir) = Some (HEADER_LEN + prefix_len h + slot_count h * 2).
Proof.
  intros. unfold checked_add, checked_mul, USIZE_MAX, U64_MAX, HEADER_LEN in *.
  rewrite (proj2 (Z.leb_le (24 + _) _)) by lia. simpl.
  rewrite (proj2 (Z.leb_le (_ * 2) _)) by lia. simpl.
  by rewrite (proj2 (Z.leb_le _ _)) by lia.
Qed.

Lemma slot_offset_ok body pl i :
  0 <= pl -> 0 <= i -> HEADER_LEN + pl + i * 2 + 2 <= blen body ->
  slot_offset body pl i = Ok (u16_at body (HEADER_LEN + pl + i * 2)).
Proof. unfold slot_offset, HEADER_LEN. intros. by rewrite read_u16_le_ok by lia. Qed.

Lemma validate_record_spec k body off :
  0 <= off -> blen body <= USIZE_MAX ->
  let r := match k with
           | NodeKind.Leaf => validate_leaf_record body off
           | NodeKind.Internal => validate_internal_record body off
           end in
  r <> Panic /\ (r = Ok tt <-> record_in k body off).
Proof.
  intros ? ? r. destruct k; subst r; simpl.
  - destruct (validate_internal_record_spec body off) as [? ?]; [done|].
    split; [done|]. split; [done|]. intros; by apply validate_internal_record_ok.
  - destruct (validate_leaf_record_spec body off) as [? ?]; [done|].
    split; [done|]. split; [done|]. intros; by apply validate_leaf_record_ok.
Qed.

(** Validation never panics, on any bytes. *)
Lemma validate_node_body_no_panic body :
  blen body <= USIZE_MAX -> validate_node_body body <> Panic.
Proof.
  intros. unfold validate_node_body.
  destruct (read_header body) as [h|e|] eqn:Hh; [|done|by apply read_header_no_panic in Hh].
  apply read_header_inv in Hh as (?&?&Hsc&?&Hpl&?&?).
  rewrite directory_end_eq by done. simpl.
  destruct (Z.ltb_spec (blen body) (HEADER_LEN + prefix_len h + slot_count h * 2)); [done|].
  match goal with |- context [fold_res (fun _ => ?f) tt ?l] =>
    assert (fold_res (fun _ => f) tt l <> Panic) as Hn;
      [apply (fold_unit_no_panic f)|by destruct (fold_res (fun _ => f) tt l) as [[]| |]] end.
  apply Forall_forall. intros i [_ Hi]%elem_of_seq.
  unfold HEADER_LEN in *. rewrite slot_offset_ok by (unfold HEADER_LEN; lia).
  apply (validate_record_spec (kind h)); [apply u16_at_nonneg|done].
Qed.

(** Validation accepts exactly the bodies whose directory and records lie
    inside the body. *)
Lemma validate_node_body_iff body h :
  blen body <= USIZE_MAX ->
  validate_node_body body = Ok h <-> read_header body = Ok h /\ body_in body h.
Proof.
  intros. unfold validate_node_body.
  destruct (read_header body) as [h'|e|] eqn:Hh; [|naive_solver..].
  apply read_header_inv in Hh as (?&?&Hsc&?&Hpl&?&?).
  rewrite directory_end_eq by done. simpl.
  destruct (Z.ltb_spec (blen body) (HEADER_LEN + prefix_len h' + slot_count h' * 2)).
  { split; [done|]. intros ([= ->] & (_&_&_&?&_)). lia. }
  match goal with |- context [fold_res (fun _ => ?f) tt ?l] =>
    assert (fold_res (fun _ => f) tt l = Ok tt <-> body_in body h') as Hf end.
  { rewrite fold_unit_ok, Forall_forall. unfold body_in.
    split.
    - intros Hr. split_and!; try done; try lia. intros i Hi.
      specialize (Hr (Z.to_nat i)). rewrite elem_of_seq in Hr. ospecialize (Hr _); [lia|].
      unfold HEADER_LEN in *. rewrite Z2Nat.id in Hr by lia.
      rewrite slot_offset_ok in Hr by (unfold HEADER_LEN; lia).
      eapply validate_record_spec; [apply u16_at_nonneg|done|exact Hr].
    - intros (_&_&_&_&Hr) i [_ Hi]%elem_of_seq.
      unfold HEADER_LEN in *. rewrite slot_offset_ok by (unfold HEADER_LEN; lia).
      apply (validate_record_spec (kind h')); [apply u16_at_nonneg|done|].
      apply Hr. lia. }
  match goal with |- context [fold_res (fun _ => ?f) tt ?l] =>
    destruct (fold_res (fun _ => f) tt l) as [[]| |] end.
  - split; [|naive_solver]. intros [= <-]. split; [done|]. by apply Hf.
  - split; [done|]. intros ([= ->] & Hb). by apply Hf in Hb.
  - split; [done|]. intros ([= ->] & Hb). by apply Hf in Hb.
Qed.

(** ** Writing a header *)

Lemma read_header_ext b b' :
  HEADER_LEN <= blen b -> HEADER_LEN <= blen b' ->
  sub b 0 HEADER_LEN = sub b' 0 HEADER_LEN -> read_header b = read_header b'.
Proof.
  unfold HEADER_LEN. intros ? ? Hs. unfold read_header, HEADER_LEN.
  rewrite !(proj2 (Z.ltb_ge _ _)) by lia.
  unfold OFF_NODE_KIND, OFF_SLOT_COUNT, OFF_PREFIX_LEN, OFF_LEFT_SIBLING, OFF_DUAL_USE.
  rewrite !read_u16_le_ok, !read_u64_le_ok by lia.
  rewrite (byte_at_eq b b' 0), (u16_at_eq b b' 2), (u16_at_eq b b' 4),
    (u64_at_eq b b' 8), (u64_at_eq b b' 16); try lia; try done;
    apply (sub_nested_eq b b' 0 24); (done || lia).
Qed.

Lemma write_header_spec body k sc pl ls du :
  HEADER_LEN <= blen body ->
  is_u16 sc -> is_u16 pl -> is_u64 ls -> is_u64 du ->
  exists body', write_header body k sc pl ls du = Ok body' /\
    blen body' = blen body /\
    read_header body' = Ok (mkNodeHeader k sc pl ls du) /\
    (forall o n, HEADER_LEN <= o -> 0 <= n -> sub body' o n = sub body o n).
Proof.
  unfold HEADER_LEN. intros. unfold write_header, write_u16_le, write_u64_le.
  unfold OFF_NODE_KIND, OFF_SLOT_COUNT, OFF_PREFIX_LEN, OFF_LEFT_SIBLING, OFF_DUAL_USE.
  set (kb := to_u8 (NodeKind.as_byte k)). assert (blen [kb] = 1) by done.
  assert (blen [to_u8 0] = 1) by done.
  destruct (copy_at_step (E:=PagedbError) body 0 [kb]) as (b1 & -> & L1 & S1 & D1); [lia..|].
  destruct (copy_at_step (E:=PagedbError) b1 1 [to_u8 0]) as (b2 & -> & L2 & _ & D2); [lia..|].
  destruct (copy_at_step (E:=PagedbError) b2 2 (le16 sc)) as (b3 & -> & L3 & S3 & D3); [blia..|].
  destruct (copy_at_step (E:=PagedbError) b3 4 (le16 pl)) as (b4 & -> & L4 & S4 & D4); [blia..|].
  destruct (copy_at_step (E:=PagedbError) b4 6 (le16 0)) as (b5 & -> & L5 & _ & D5); [blia..|].
  destruct (copy_at_step (E:=PagedbError) b5 8 (le64 ls)) as (b6 & -> & L6 & S6 & D6); [blia..|].
  destruct (copy_at_step (E:=PagedbError) b6 16 (le64 du)) as (b7 & -> & L7 & S7 & D7); [blia..|].
  rewrite blen_le16, blen_le64 in *.
  exists b7. split_and!; [done|lia| |].
  - unfold read_header, HEADER_LEN. rewrite (proj2 (Z.ltb_ge _ _)) by lia.
    unfold OFF_NODE_KIND, OFF_SLOT_COUNT, OFF_PREFIX_LEN, OFF_LEFT_SIBLING, OFF_DUAL_USE.
    rewrite !read_u16_le_ok, !read_u64_le_ok by lia.
    rewrite (byte_at_sub _ _ kb); [|lia|rewrite D7, D6, D5, D4, D3, D2 by lia; done].
    unfold u16_at, u64_at.
    rewrite (D7 2 2), (D6 2 2), (D5 2 2), (D4 2 2), S3 by lia.
    rewrite (D7 4 2), (D6 4 2), (D5 4 2), S4 by lia.
    rewrite (D7 8 8), S6, S7 by lia.
    rewrite !of_le16, !of_le64 by done.
    unfold kb. rewrite u8_to_u8; [|destruct k; simpl; lia]. by destruct k.
  - intros. by rewrite D7, D6, D5, D4, D3, D2, D1 by lia.
Qed.

(** Patching the last header field alone. *)
Lemma write_dual_use_spec b h du :
  read_header b = Ok h -> is_u64 du ->
  exists b', write_u64_le b OFF_DUAL_USE du = Ok b' /\ blen b' = blen b /\
    read_header b' = Ok (mkNodeHeader (kind h) (slot_count h) (prefix_len h) (left_sibling h) du) /\
    (forall o n, HEADER_LEN <= o -> 0 <= n -> sub b' o n = sub b o n).
Proof.
  intros Hh Hdu. unfold read_header, HEADER_LEN in *. destruct (Z.ltb_spec (blen b) 24); [done|].
  unfold write_u64_le, OFF_NODE_KIND, OFF_SLOT_COUNT, OFF_PREFIX_LEN, OFF_LEFT_SIBLING, OFF_DUAL_USE in *.
  destruct (copy_at_step (E:=PagedbError) b 16 (le64 du)) as (b1 & -> & L1 & S1 & D1); [blia..|].
  rewrite blen_le64 in *. exists b1. split_and!; [done|done| |intros; apply D1; lia].
  rewrite L1, (proj2 (Z.ltb_ge _ _)) by lia.
  rewrite !read_u16_le_ok, !read_u64_le_ok in * by lia.
  rewrite (byte_at_eq b1 b 0), (u16_at_eq b1 b 2), (u16_at_eq b1 b 4), (u64_at_eq b1 b 8);
    try lia; try (apply D1; lia).
  unfold u64_at at 2. rewrite S1, of_le64 by done.
  destruct (byte_at b 0) as [kb| |]; [|done..]. destruct (NodeKind.from_byte (u8_of kb)); [|done..].
  by simplify_eq.
Qed.

(** ** Packing records

    Both node kinds place records from the end of the body towards the slot
    directory, writing each record's offset in its slot. *)

Section packing.
Context {A : Type} (pl : Z) (rb : A -> bytes).
Context (step : bytes * Z * nat -> A -> result (bytes * Z * nat)).

Definition packed_size (rs : list A) : Z := foldr (fun r acc => blen (rb r) + acc) 0 rs.

(** What one iteration of the encoder's record loop does. *)
Definition pack_one (b : bytes) (tail : Z) (i : nat) (r : A) : result (bytes * Z * nat) :=
  let off := tail - blen (rb r) in
  let! b := copy_at b off (rb r) in
  let! b := write_slot_offset b pl (Z.of_nat i) off in
  Ok (b, off, S i).

Definition packs (P : A -> Prop) : Prop :=
  forall b tail i r, P r -> blen b <= U16_MAX -> tail <= blen b ->
    HEADER_LEN + pl + Z.of_nat i * 2 + 2 <= tail - blen (rb r) ->
    step (b, tail, i) r = pack_one b tail i r.

Lemma packed_size_nonneg rs : 0 <= packed_size rs.
Proof. induction rs as [|r rs IH]; simpl; [done|]. pose proof (blen_nonneg (rb r)). lia. Qed.

Lemma pack_one_spec b tail i r :
  0 <= pl -> blen b <= U16_MAX -> tail <= blen b ->
  HEADER_LEN + pl + Z.of_nat i * 2 + 2 <= tail - blen (rb r) ->
  exists b', pack_one b tail i r = Ok (b', tail - blen (rb r), S i) /\
    blen b' = blen b /\
    u16_at b' (HEADER_LEN + pl + Z.of_nat i * 2) = tail - blen (rb r) /\
    sub b' (tail - blen (rb r)) (blen (rb r)) = rb r /\
    (forall o n, 0 <= o -> 0 <= n ->
       o + n <= HEADER_LEN + pl + Z.of_nat i * 2 \/ tail <= o \/
       HEADER_LEN + pl + Z.of_nat i * 2 + 2 <= o /\ o + n <= tail - blen (rb r) ->
       sub b' o n = sub b o n).
Proof.
  unfold HEADER_LEN, U16_MAX. intros. unfold pack_one, write_slot_offset, HEADER_LEN.
  remember (tail - blen (rb r)) as off eqn:Hoff. pose proof (blen_nonneg (rb r)).
  destruct (copy_at_step (E:=PagedbError) b off (rb r)) as (b1 & -> & L1 & S1 & D1); [lia..|].
  destruct (copy_at_step (E:=PagedbError) b1 (24 + pl + Z.of_nat i * 2) (le16 off))
    as (b2 & -> & L2 & S2 & D2); [lia|rewrite blen_le16; lia|].
  rewrite blen_le16 in *. exists b2. split_and!; [done|lia| | |].
  - unfold u16_at. rewrite S2. apply of_le16. lia.
  - by rewrite D2 by lia.
  - intros. by rewrite D2, D1 by lia.
Qed.

Lemma pack_fold (P : A -> Prop) rs :
  packs P -> Forall P rs -> 0 <= pl ->
  forall b tail i, blen b <= U16_MAX -> tail <= blen b ->
  HEADER_LEN + pl + Z.of_nat (i + length rs) * 2 + packed_size rs <= tail ->
  exists b', fold_res step (b, tail, i) rs = Ok (b', tail - packed_size rs, (i + length rs)%nat) /\
    blen b' = blen b /\
    (forall o n, 0 <= o -> 0 <= n ->
       o + n <= HEADER_LEN + pl + Z.of_nat i * 2 \/ tail <= o -> sub b' o n = sub b o n) /\
    (forall j r, rs !! j = Some r ->
       let off := u16_at b' (HEADER_LEN + pl + Z.of_nat (i + j) * 2) in
       sub b' off (blen (rb r)) = rb r /\
       HEADER_LEN + pl + Z.of_nat (i + length rs) * 2 <= off /\ off + blen (rb r) <= tail /\
       off = tail - packed_size (take (S j) rs)).
Proof.
  intros Hp HP Hpl. induction HP as [|r rs Hr _ IH]; intros b tail i Hb Ht Hsz; simpl in *.
  { exists b. rewrite Nat.add_0_r, Z.sub_0_r. split_and!; done. }
  pose proof (packed_size_nonneg rs). pose proof (blen_nonneg (rb r)).
  rewrite Hp by (try done; lia).
  destruct (pack_one_spec b tail i r) as (b1 & -> & L1 & O1 & S1 & D1); [lia..|].
  destruct (IH b1 (tail - blen (rb r)) (S i)) as (b2 & -> & L2 & D2 & R2); [lia..|].
  unfold HEADER_LEN in *.
  exists b2. split_and!; [f_equal; rewrite !pair_equal_spec; split_and!; (done || lia)|lia| |].
  - intros. rewrite D2, D1 by lia. done.
  - intros [|j] r' Hj; simpl in Hj; simplify_eq.
    + rewrite Nat.add_0_r. cbv zeta. rewrite (u16_at_eq b2 b1) by (apply D2; lia). rewrite O1.
      rewrite D2 by lia. split; [done|]. cbn [take packed_size]. rewrite take_0. simpl. lia.
    + specialize (R2 j r' Hj). replace (i + S j)%nat with (S i + j)%nat by lia.
      replace (i + S (length rs))%nat with (S i + length rs)%nat by lia.
      cbv zeta in R2. destruct R2 as (? & ? & ? & ?). simpl take. simpl packed_size.
      split_and!; [done|lia|lia|lia].
Qed.
End packing.
