(* ===== verification/Leaf.v ===== *)
(** * Leaf: leaf nodes and the zero-copy leaf accessor

    [src/src/btree/leaf.rs]: records in key order, prefix-compressed encoding
    into a page body, decoding, the in-memory operations, and the accessor that
    searches an encoded body without decoding it. *)

From S2P Require Import Prelude Keys Errors PageFormat Node.
From Stdlib Require Import ZArith Lia.
From stdpp Require Import base list strings gmap sorting.

Local Open Scope Z_scope.
Local Open Scope pagedb_scope.

Inductive LeafValue :=
| Inline (v : bytes)
| Overflow (total_len root_page_id : Z).

Definition OVERFLOW_REF_ENCODED_SIZE : Z := 2 + 8 + 8.

Definition encoded_size (v : LeafValue) : Z :=
  match v with
  | Inline v => 2 + blen v
  | Overflow _ _ => OVERFLOW_REF_ENCODED_SIZE
  end.

Abbreviation leaf_record := (bytes * LeafValue)%type.

Record Leaf := mkLeaf {
  leaf_left_sibling : Z;
  leaf_right_sibling : Z;
  records : list leaf_record;
}.

Definition leaf_new : Leaf := mkLeaf 0 0 [].

(** ** Longest common prefix *)

Definition lcp_len (records : list leaf_record) : Z :=
  match records with
  | [] => 0
  | [(k, _)] => blen k
  | (first, _) :: rest =>
      match last rest with
      | Some (k, _) => Z.of_nat (common_len first k)
      | None => 0
      end
  end.

Definition lcp (records : list leaf_record) : result bytes :=
  match records with
  | [] => Ok []
  | (first, _) :: _ => slice first 0 (lcp_len records)
  end.

(** ** Decoding *)

Definition decode_leaf_record (body : bytes) (prefix_len : Z) (prefix_bytes : bytes)
    (i : nat) : result leaf_record :=
  let! off := slot_offset body prefix_len (Z.of_nat i) in
  let! suffix_len := read_u16_le body off in
  let! suffix := slice body (off + 2) (off + 2 + suffix_len) in
  let! value_len_raw := read_u16_le body (off + 2 + suffix_len) in
  let! value :=
    if value_len_raw =? OVERFLOW_SENTINEL then
      let! total_len := read_u64_le body (off + 2 + suffix_len + 2) in
      let! root_page_id := read_u64_le body (off + 2 + suffix_len + 2 + 8) in
      Ok (Overflow total_len root_page_id)
    else
      let start := off + 2 + suffix_len + 2 in
      let! v := slice body start (start + value_len_raw) in
      Ok (Inline v) in
  Ok (prefix_bytes ++ suffix, value).

Definition leaf_decode (body : bytes) : result Leaf :=
  let! h := validate_node_body body in
  if negb (bool_decide (kind h = NodeKind.Leaf)) then
    Err (node_kind_mismatch None "leaf" "internal")
  else
  let! prefix_bytes := slice body HEADER_LEN (HEADER_LEN + prefix_len h) in
  let! records :=
    traverse (decode_leaf_record body (prefix_len h) prefix_bytes)
      (seq 0 (Z.to_nat (slot_count h))) in
  Ok (mkLeaf (left_sibling h) (dual_use h) records).

(** ** Encoding *)

Definition record_size (prefix_len : Z) (r : leaf_record) : Z :=
  2 + saturating_sub (blen r.1) prefix_len + encoded_size r.2.

Definition records_size (prefix_len : Z) (records : list leaf_record) : Z :=
  foldr (fun r acc => record_size prefix_len r + acc) 0 records.

(** [HEADER_LEN + prefix_len + slot_dir_bytes + record_bytes] *)
Definition leaf_needed (records : list leaf_record) : Z :=
  let prefix_len := lcp_len records in
  HEADER_LEN + prefix_len + Z.of_nat (length records) * 2 +
    records_size prefix_len records.

Definition encode_value (body : bytes) (after_key : Z) (v : LeafValue) : result bytes :=
  match v with
  | Inline val =>
      let! vlen := try_u16 (blen val) "value_len overflow" in
      let! body := write_u16_le body after_key vlen in
      copy_at body (after_key + 2) val
  | Overflow total_len root_page_id =>
      let! _ := assert_ (negb (is_reserved root_page_id)) in
      let! body := write_u16_le body after_key OVERFLOW_SENTINEL in
      let! body := write_u64_le body (after_key + 2) total_len in
      write_u64_le body (after_key + 2 + 8) root_page_id
  end.

(** One iteration of the record loop; the state is the body, [tail] and the
    slot index. *)
Definition encode_leaf_record (prefix_len : Z) (st : bytes * Z * nat) (r : leaf_record)
  : result (bytes * Z * nat) :=
  let '(body, tail, i) := st in
  let '(k, v) := r in
  let! suffix := slice k prefix_len (blen k) in
  let rec_size := 2 + blen suffix + encoded_size v in
  let! off := match checked_sub tail rec_size with Some t => Ok t | None => Panic end in
  let! slen := try_u16 (blen suffix) "suffix_len overflow" in
  let! body := write_u16_le body off slen in
  let! body := copy_at body (off + 2) suffix in
  let! body := encode_value body (off + 2 + blen suffix) v in
  let! o := try_u16 off "record_offset overflow" in
  let! body := write_slot_offset body prefix_len (Z.of_nat i) o in
  Ok (body, off, S i).

Definition leaf_encode (l : Leaf) (body : bytes) : result bytes :=
  let cap := blen body in
  let! prefix := lcp (records l) in
  let prefix_len := blen prefix in
  let slot_count := Z.of_nat (length (records l)) in
  let needed :=
    HEADER_LEN + prefix_len + slot_count * 2 + records_size prefix_len (records l) in
  if cap <? needed then Err PayloadTooLarge else
  let! sc := try_u16 slot_count "slot_count overflow" in
  let! pl := try_u16 prefix_len "prefix_len overflow" in
  let! body :=
    write_header body NodeKind.Leaf sc pl (leaf_left_sibling l) (leaf_right_sibling l) in
  let! body := copy_at body HEADER_LEN (zeros (cap - HEADER_LEN)) in
  let! body := copy_at body HEADER_LEN prefix in
  let! st := fold_res (encode_leaf_record prefix_len) (body, cap, 0%nat) (records l) in
  Ok (st.1.1).

(** ** In-memory operations *)

Definition leaf_position (l : Leaf) (key : bytes) : nat + nat := position (records l) key.

Definition set_records (l : Leaf) (rs : list leaf_record) : Leaf :=
  mkLeaf (leaf_left_sibling l) (leaf_right_sibling l) rs.

Definition leaf_upsert (l : Leaf) (key : bytes) (value : LeafValue)
  : Leaf * (bool * option LeafValue) :=
  match leaf_position l key with
  | inl i =>
      (set_records l (alter (fun r : leaf_record => (r.1, value)) i (records l)),
       (false, r ← records l !! i; Some r.2))
  | inr i =>
      (set_records l (take i (records l) ++ (key, value) :: drop i (records l)),
       (true, None))
  end.

Definition leaf_remove (l : Leaf) (key : bytes) : Leaf * option LeafValue :=
  match leaf_position l key with
  | inl i => (set_records l (delete i (records l)),
              r ← records l !! i; Some r.2)
  | inr _ => (l, None)
  end.

Definition leaf_get (l : Leaf) (key : bytes) : option LeafValue :=
  match leaf_position l key with
  | inl i => r ← records l !! i; Some r.2
  | inr _ => None
  end.

Definition slice_fits (records : list leaf_record) (page_size : Z) : bool :=
  leaf_needed records <=? body_capacity page_size.

Definition leaf_fits (l : Leaf) (page_size : Z) : bool := slice_fits (records l) page_size.

Definition single_record_fits_encoded (key_len value_encoded_size page_size : Z) : bool :=
  if U16_MAX <? key_len then false else
  match (s ← checked_add HEADER_LEN key_len; s ← checked_add s 2;
         s ← checked_add s 2; checked_add s value_encoded_size) with
  | Some needed => needed <=? body_capacity page_size
  | None => false
  end.

(** ** The accessor *)

Inductive LeafValueLoc :=
| InlineLoc (start end_ : Z)
| OverflowLoc (total_len root_page_id : Z).

Record LeafAccessor := mkLeafAccessor {
  la_body : bytes;
  la_prefix_len : Z;
  la_slot_count : Z;
}.

Definition leaf_from_header (body : bytes) (h : NodeHeader) : result LeafAccessor :=
  if negb (bool_decide (kind h = NodeKind.Leaf)) then
    Err (node_kind_mismatch None "leaf" "internal")
  else Ok (mkLeafAccessor body (prefix_len h) (slot_count h)).

(** [from_guard] over a page body and its validation memo. *)
Definition leaf_from_guard (body : bytes) (memo : bool) : result LeafAccessor * bool :=
  let '(r, memo) := validate_node_body_memoised body memo in
  (let! h := r in leaf_from_header body h, memo).

Definition la_prefix (a : LeafAccessor) : result bytes :=
  slice (la_body a) HEADER_LEN (HEADER_LEN + la_prefix_len a).

Definition la_suffix (a : LeafAccessor) (idx : nat) : result bytes :=
  let! off := slot_offset (la_body a) (la_prefix_len a) (Z.of_nat idx) in
  let! suffix_len := read_u16_le (la_body a) off in
  slice (la_body a) (off + 2) (off + 2 + suffix_len).

Definition cmp_slot_to_query (a : LeafAccessor) (idx : nat) (query : bytes)
  : result comparison :=
  let! prefix := la_prefix a in
  let! suffix := la_suffix a idx in
  let n := Z.min (blen prefix) (blen query) in
  let! p := slice prefix 0 n in
  let! q := slice query 0 n in
  match bytes_compare p q with
  | Eq =>
      if blen query <=? blen prefix then
        if (blen query <? blen prefix) || negb (bool_decide (suffix = []))
        then Ok Gt else Ok Eq
      else
        let! tail := slice query (blen prefix) (blen query) in
        Ok (bytes_compare suffix tail)
  | non_eq => Ok non_eq
  end.

Definition la_find (a : LeafAccessor) (query : bytes) : result (option nat) :=
  let! r := bisect (fun mid => cmp_slot_to_query a mid query)
              (Z.to_nat (la_slot_count a)) in
  Ok (match r with inl mid => Some mid | inr _ => None end).

Definition value_loc (a : LeafAccessor) (idx : nat) : result LeafValueLoc :=
  let! off := slot_offset (la_body a) (la_prefix_len a) (Z.of_nat idx) in
  let! suffix_len := read_u16_le (la_body a) off in
  let after_key := off + 2 + suffix_len in
  let! value_len_raw := read_u16_le (la_body a) after_key in
  if value_len_raw =? OVERFLOW_SENTINEL then
    let! total_len := read_u64_le (la_body a) (after_key + 2) in
    let! root_page_id := read_u64_le (la_body a) (after_key + 2 + 8) in
    Ok (OverflowLoc total_len root_page_id)
  else
    let start := after_key + 2 in
    Ok (InlineLoc start (start + value_len_raw)).

(** ** In-memory operations refine a finite map *)

Definition leaf_sorted (l : Leaf) : Prop := keys_sorted (records l).*1.
Definition leaf_map (l : Leaf) : gmap bytes LeafValue := rec_map (records l).

Lemma leaf_get_spec l q : leaf_sorted l -> leaf_get l q = leaf_map l !! q.
Proof.
  intros Hs. unfold leaf_get, leaf_map, leaf_position.
  destruct (position_cases (records l) q Hs)
    as [(v & l1 & l2 & -> & H1 & H2 & ->)|(l1 & l2 & -> & H1 & H2 & ->)].
  - rewrite list_lookup_middle by done. simpl.
    rewrite rec_map_middle by (by apply rec_map_lt). by rewrite lookup_insert_eq.
  - rewrite rec_map_app, lookup_union, rec_map_lt, rec_map_gt by done. done.
Qed.

Lemma leaf_upsert_records l q v :
  leaf_sorted l ->
  exists l1 l2, records (leaf_upsert l q v).1 = l1 ++ (q, v) :: l2 /\
    Forall (fun k => k <ₖ q) l1.*1 /\ Forall (fun k => q <ₖ k) l2.*1 /\
    (records l = l1 ++ l2 \/ exists w, records l = l1 ++ (q, w) :: l2).
Proof.
  unfold leaf_sorted, leaf_upsert, leaf_position. intros Hs.
  destruct (position_cases (records l) q Hs)
    as [(w & l1 & l2 & Hl & H1 & H2 & ->)|(l1 & l2 & Hl & H1 & H2 & ->)];
    exists l1, l2; simpl; rewrite Hl; (split_and!; [|done..|eauto]).
  - by rewrite alter_app_r_alt, Nat.sub_diag by lia.
  - by rewrite take_app_length, drop_app_length.
Qed.

Lemma leaf_upsert_spec l q v l' is_new old :
  leaf_sorted l -> leaf_upsert l q v = (l', (is_new, old)) ->
  leaf_sorted l' /\ leaf_map l' = <[q := v]> (leaf_map l) /\
  old = leaf_map l !! q /\ is_new = bool_decide (leaf_map l !! q = None) /\
  leaf_left_sibling l' = leaf_left_sibling l /\
  leaf_right_sibling l' = leaf_right_sibling l.
Proof.
  unfold leaf_sorted, leaf_map, leaf_upsert, leaf_position. intros Hs.
  destruct (position_cases (records l) q Hs)
    as [(w & l1 & l2 & Hl & H1 & H2 & ->)|(l1 & l2 & Hl & H1 & H2 & ->)];
    rewrite Hl in *; intros [= <- <- <-]; simpl.
  - assert (alter (fun r : leaf_record => (r.1, v)) (length l1) (l1 ++ (q, w) :: l2)
            = l1 ++ (q, v) :: l2) as -> by (by rewrite alter_app_r_alt, Nat.sub_diag by lia).
    rewrite list_lookup_middle by done. simpl.
    rewrite !rec_map_middle by (by apply rec_map_lt).
    rewrite lookup_insert_eq, insert_insert_eq. split_and!; try done.
    by eapply sorted_replace.
  - rewrite take_app_length, drop_app_length.
    rewrite rec_map_middle by (by apply rec_map_lt).
    assert (rec_map (l1 ++ l2) !! q = None) as ->.
    { by rewrite rec_map_app, lookup_union, rec_map_lt, rec_map_gt. }
    split_and!; try done. by apply sorted_insert.
Qed.

Lemma leaf_remove_spec l q l' old :
  leaf_sorted l -> leaf_remove l q = (l', old) ->
  leaf_sorted l' /\ leaf_map l' = delete q (leaf_map l) /\ old = leaf_map l !! q /\
  leaf_left_sibling l' = leaf_left_sibling l /\
  leaf_right_sibling l' = leaf_right_sibling l.
Proof.
  unfold leaf_sorted, leaf_map, leaf_remove, leaf_position. intros Hs.
  destruct (position_cases (records l) q Hs)
    as [(w & l1 & l2 & Hl & H1 & H2 & ->)|(l1 & l2 & Hl & H1 & H2 & ->)];
    rewrite Hl in *; intros [= <- <-]; simpl.
  - rewrite list_lookup_middle by done. rewrite delete_middle. simpl.
    rewrite rec_map_middle by (by apply rec_map_lt).
    assert (rec_map (l1 ++ l2) !! q = None) as Hn.
    { by rewrite rec_map_app, lookup_union, rec_map_lt, rec_map_gt. }
    rewrite lookup_insert_eq, delete_insert_id by done. split_and!; try done.
    rewrite fmap_app in *. simpl in Hs. apply sorted_app in Hs as (Ha & Hb & Hab).
    apply StronglySorted_inv in Hb as [Hb _]. apply sorted_app. split_and!; [done..|].
    intros a b ? ?. apply Hab; [done|by right].
  - assert (rec_map (l1 ++ l2) !! q = None) as Hn.
    { by rewrite rec_map_app, lookup_union, rec_map_lt, rec_map_gt. }
    rewrite Hl, Hn, delete_id by done. done.
Qed.

(** ** Decoding a validated body *)

Definition rec_off (body : bytes) (pl : Z) (i : nat) : Z :=
  u16_at body (HEADER_LEN + pl + Z.of_nat i * 2).
Definition suffix_at (body : bytes) (off : Z) : bytes := sub body (off + 2) (u16_at body off).
Definition value_at (body : bytes) (off : Z) : LeafValue :=
  let a := off + 2 + u16_at body off in
  let v := u16_at body a in
  if v =? OVERFLOW_SENTINEL then Overflow (u64_at body (a + 2)) (u64_at body (a + 2 + 8))
  else Inline (sub body (a + 2) v).

Lemma leaf_record_in_bounds body off :
  leaf_record_in body off ->
  let s := u16_at body off in let v := u16_at body (off + 2 + s) in
  0 <= off /\ 0 <= s /\ 0 <= v /\ off + 2 + s + 2 <= blen body /\
  (v = OVERFLOW_SENTINEL -> off + 2 + s + 2 + 16 <= blen body) /\
  (v <> OVERFLOW_SENTINEL -> off + 2 + s + 2 + v <= blen body).
Proof.
  intros [? Hin] s v. cbv zeta in Hin. fold s in Hin. fold v in Hin.
  pose proof (u16_at_nonneg body off). pose proof (u16_at_nonneg body (off + 2 + s)).
  fold s in H0. fold v in H1.
  destruct (v =? OVERFLOW_SENTINEL) eqn:Hv; propify; split_and!; lia.
Qed.

Lemma decode_leaf_record_ok body h pfx i :
  body_in body h -> kind h = NodeKind.Leaf -> (i < Z.to_nat (slot_count h))%nat ->
  decode_leaf_record body (prefix_len h) pfx i =
    let off := rec_off body (prefix_len h) i in
    Ok (pfx ++ suffix_at body off, value_at body off).
Proof.
  intros (_ & ? & ? & ? & Hr) Hk ?. unfold decode_leaf_record.
  rewrite slot_offset_ok by lia. change (u16_at body _) with (rec_off body (prefix_len h) i).
  specialize (Hr (Z.of_nat i)). ospecialize (Hr _); [lia|]. rewrite Hk in Hr.
  change (leaf_record_in body (rec_off body (prefix_len h) i)) in Hr.
  set (off := rec_off body (prefix_len h) i) in *.
  apply leaf_record_in_bounds in Hr. cbv zeta in Hr.
  destruct Hr as (? & ? & ? & ? & Hov & Hin).
  rewrite read_u16_le_ok, slice_ok by lia. rewrite read_u16_le_ok by lia.
  replace (off + 2 + u16_at body off - (off + 2)) with (u16_at body off) by lia.
  fold (suffix_at body off). unfold value_at.
  destruct (Z.eqb_spec (u16_at body (off + 2 + u16_at body off)) OVERFLOW_SENTINEL) as [He|Hne].
  - specialize (Hov He). by rewrite !read_u64_le_ok by lia.
  - specialize (Hin Hne). rewrite slice_ok by lia. do 4 f_equal. lia.
Qed.

Lemma leaf_decode_ok body h :
  validate_node_body body = Ok h -> body_in body h -> kind h = NodeKind.Leaf ->
  leaf_decode body =
    Ok (mkLeaf (left_sibling h) (dual_use h)
          ((fun i => let off := rec_off body (prefix_len h) i in
              (sub body HEADER_LEN (prefix_len h) ++ suffix_at body off, value_at body off))
           <$> seq 0 (Z.to_nat (slot_count h)))).
Proof.
  intros Hv Hin Hk. unfold leaf_decode. rewrite Hv, bool_decide_true by done. simpl.
  pose proof Hin as (? & ? & ? & ? & _). unfold HEADER_LEN in *.
  rewrite slice_ok by lia. replace (24 + prefix_len h - 24) with (prefix_len h) by lia.
  match goal with |- context [traverse ?f ?l] =>
    assert (traverse f l = Ok ((fun i => let off := rec_off body (prefix_len h) i in
      (sub body 24 (prefix_len h) ++ suffix_at body off, value_at body off)) <$> l)) as ->
  end; [|done].
  apply traverse_Ok, Forall2_fmap_r, Forall_Forall2_diag, Forall_forall.
  intros i [_ Hi]%elem_of_seq. by apply decode_leaf_record_ok.
Qed.

Lemma leaf_decode_inv body l :
  blen body <= USIZE_MAX -> leaf_decode body = Ok l ->
  exists h, validate_node_body body = Ok h /\ body_in body h /\ kind h = NodeKind.Leaf.
Proof.
  intros Hb Hd. unfold leaf_decode in Hd.
  destruct (validate_node_body body) as [h|e|] eqn:Hv; [|done..].
  exists h. split; [done|]. split; [by apply validate_node_body_iff in Hv as []|].
  by destruct (bool_decide_reflect (kind h = NodeKind.Leaf)).
Qed.

Lemma leaf_decode_no_panic body : blen body <= USIZE_MAX -> leaf_decode body <> Panic.
Proof.
  intros Hb. destruct (validate_node_body body) as [h|e|] eqn:Hv.
  - destruct (decide (kind h = NodeKind.Leaf)) as [Hk|Hk].
    + pose proof Hv as [_ Hin]%validate_node_body_iff; [|done].
      by rewrite (leaf_decode_ok body h).
    + unfold leaf_decode. rewrite Hv, bool_decide_false by done. done.
  - unfold leaf_decode. by rewrite Hv.
  - by apply validate_node_body_no_panic in Hv.
Qed.

(** ** The accessor agrees with the decoded leaf *)

(** Comparing prefix and suffix separately is comparing the whole key. *)
Lemma bytes_compare_prefix (p s q : bytes) :
  bytes_compare (p ++ s) q =
  let n := Nat.min (length p) (length q) in
  match bytes_compare (take n p) (take n q) with
  | Eq =>
      if (length q <=? length p)%nat then
        if (length q <? length p)%nat || negb (bool_decide (s = [])) then Gt else Eq
      else bytes_compare s (drop (length p) q)
  | c => c
  end.
Proof.
  revert q. induction p as [|x p IH]; intros [|y q]; simpl; try done.
  - by destruct s.
  - destruct (Z.compare (u8_of x) (u8_of y)); [|done..]. apply IH.
Qed.

Lemma blen_leb (a b : bytes) : (blen a <=? blen b) = (length a <=? length b)%nat.
Proof. unfold blen. destruct (Nat.leb_spec (length a) (length b)); lia. Qed.
Lemma blen_ltb (a b : bytes) : (blen a <? blen b) = (length a <? length b)%nat.
Proof. unfold blen. destruct (Nat.ltb_spec (length a) (length b)); lia. Qed.

Lemma la_suffix_ok body h i :
  body_in body h -> kind h = NodeKind.Leaf -> (i < Z.to_nat (slot_count h))%nat ->
  la_suffix (mkLeafAccessor body (prefix_len h) (slot_count h)) i =
    Ok (suffix_at body (rec_off body (prefix_len h) i)).
Proof.
  intros (_ & ? & ? & ? & Hr) Hk ?. unfold la_suffix. simpl.
  rewrite slot_offset_ok by lia. change (u16_at body _) with (rec_off body (prefix_len h) i).
  specialize (Hr (Z.of_nat i)). ospecialize (Hr _); [lia|]. rewrite Hk in Hr.
  apply leaf_record_in_bounds in Hr. cbv zeta in Hr.
  fold (rec_off body (prefix_len h) i) in Hr.
  destruct Hr as (? & ? & ? & ? & _ & _).
  rewrite read_u16_le_ok, slice_ok by lia. f_equal. unfold suffix_at. f_equal. lia.
Qed.

Lemma cmp_slot_to_query_ok body h i q :
  body_in body h -> kind h = NodeKind.Leaf -> (i < Z.to_nat (slot_count h))%nat ->
  cmp_slot_to_query (mkLeafAccessor body (prefix_len h) (slot_count h)) i q =
    Ok (bytes_compare (sub body HEADER_LEN (prefix_len h) ++
                       suffix_at body (rec_off body (prefix_len h) i)) q).
Proof.
  intros Hin Hk Hi. unfold cmp_slot_to_query. rewrite la_suffix_ok by done.
  pose proof Hin as (? & ? & ? & ? & _). unfold la_prefix, HEADER_LEN in *. simpl.
  rewrite slice_ok by lia. replace (24 + prefix_len h - 24) with (prefix_len h) by lia.
  set (p := sub body 24 (prefix_len h)).
  set (s := suffix_at body (rec_off body (prefix_len h) i)).
  pose proof (blen_nonneg p). pose proof (blen_nonneg q).
  rewrite !slice_ok by lia. rewrite bytes_compare_prefix. cbv zeta.
  assert (forall b : bytes, sub b 0 (Z.min (blen p) (blen q) - 0)
            = take (Nat.min (length p) (length q)) b) as Ht.
  { intros b. unfold sub, blen. simpl. f_equal. lia. }
  rewrite !Ht. destruct (bytes_compare _ _); try done.
  rewrite blen_leb, blen_ltb. destruct (length q <=? length p)%nat eqn:Hle.
  - by destruct (_ || _)%bool.
  - propify. rewrite slice_ok by (unfold blen in *; lia). do 2 f_equal.
    unfold sub, blen. rewrite Nat2Z.id. apply firstn_all2. rewrite length_drop. lia.
Qed.

Definition loc_value (body : bytes) (loc : LeafValueLoc) : LeafValue :=
  match loc with
  | InlineLoc s e => Inline (sub body s (e - s))
  | OverflowLoc t r => Overflow t r
  end.

Lemma value_loc_ok body h i :
  body_in body h -> kind h = NodeKind.Leaf -> (i < Z.to_nat (slot_count h))%nat ->
  exists loc, value_loc (mkLeafAccessor body (prefix_len h) (slot_count h)) i = Ok loc /\
    loc_value body loc = value_at body (rec_off body (prefix_len h) i) /\
    (forall s e, loc = InlineLoc s e -> 0 <= s /\ s <= e /\ e <= blen body).
Proof.
  intros (_ & ? & ? & ? & Hr) Hk ?. unfold value_loc. simpl.
  rewrite slot_offset_ok by lia. change (u16_at body _) with (rec_off body (prefix_len h) i).
  specialize (Hr (Z.of_nat i)). ospecialize (Hr _); [lia|]. rewrite Hk in Hr.
  apply leaf_record_in_bounds in Hr. cbv zeta in Hr.
  fold (rec_off body (prefix_len h) i) in Hr.
  set (off := rec_off body (prefix_len h) i) in *.
  destruct Hr as (? & ? & ? & ? & Hov & Hinl).
  rewrite !read_u16_le_ok by lia. unfold value_at. cbv zeta.
  destruct (Z.eqb_spec (u16_at body (off + 2 + u16_at body off)) OVERFLOW_SENTINEL) as [He|Hne].
  - specialize (Hov He). rewrite !read_u64_le_ok by lia. eexists. split; [done|]. done.
  - specialize (Hinl Hne). eexists. split; [done|]. split.
    + simpl. do 2 f_equal. lia.
    + intros s e [= <- <-]. lia.
Qed.

Lemma leaf_decode_accessor body l :
  blen body <= USIZE_MAX -> leaf_decode body = Ok l ->
  exists h, validate_node_body body = Ok h /\ body_in body h /\ kind h = NodeKind.Leaf /\
    length (records l) = Z.to_nat (slot_count h) /\
    (forall i, (i < Z.to_nat (slot_count h))%nat ->
       records l !! i = Some (sub body HEADER_LEN (prefix_len h) ++
                                suffix_at body (rec_off body (prefix_len h) i),
                              value_at body (rec_off body (prefix_len h) i))).
Proof.
  intros Hb Hd. destruct (leaf_decode_inv body l Hb Hd) as (h & Hv & Hin & Hk).
  rewrite (leaf_decode_ok body h Hv Hin Hk) in Hd. simplify_eq.
  exists h. split_and!; try done; simpl.
  - by rewrite length_fmap, length_seq.
  - intros i Hi. rewrite list_lookup_fmap, lookup_seq_lt by done. done.
Qed.

(** The search of the accessor is the one of its loop over the decoded keys. *)
Lemma la_find_bisect body l h q :
  blen body <= USIZE_MAX -> leaf_decode body = Ok l -> validate_node_body body = Ok h ->
  la_find (mkLeafAccessor body (prefix_len h) (slot_count h)) q =
    (let! r := bisect (compare_at (records l) q) (length (records l)) in
     Ok (match r with inl i => Some i | inr _ => None end)).
Proof.
  intros Hb Hd Hv.
  destruct (leaf_decode_accessor body l Hb Hd) as (h' & Hv' & Hin & Hk & Hlen & Hrec).
  rewrite Hv in Hv'. simplify_eq. unfold la_find. simpl. rewrite <-Hlen.
  rewrite (bisect_ext _ (compare_at (records l) q)); [done|].
  intros i Hi. rewrite Hlen in Hi. rewrite cmp_slot_to_query_ok by done.
  unfold compare_at. by rewrite Hrec.
Qed.

Lemma la_find_ok body l h q :
  blen body <= USIZE_MAX -> leaf_decode body = Ok l -> validate_node_body body = Ok h ->
  leaf_sorted l ->
  la_find (mkLeafAccessor body (prefix_len h) (slot_count h)) q =
    Ok (match leaf_position l q with inl i => Some i | inr _ => None end).
Proof.
  intros Hb Hd Hv Hs. rewrite (la_find_bisect body l h q Hb Hd Hv).
  by rewrite bisect_position.
Qed.

(** ** Encoding round trip *)

Definition value_bytes (v : LeafValue) : bytes :=
  match v with
  | Inline v => le16 (blen v) ++ v
  | Overflow t r => le16 OVERFLOW_SENTINEL ++ le64 t ++ le64 r
  end.
Definition leaf_suffix (pl : Z) (k : bytes) : bytes := sub k pl (blen k - pl).
Definition record_bytes (pl : Z) (r : leaf_record) : bytes :=
  le16 (blen (leaf_suffix pl r.1)) ++ leaf_suffix pl r.1 ++ value_bytes r.2.

(** The values the code hands to [encode]: overflow references name allocated
    pages and 64-bit lengths. *)
Definition value_wf (v : LeafValue) : Prop :=
  match v with
  | Inline _ => True
  | Overflow t r => is_u64 t /\ is_u64 r /\ is_reserved r = false
  end.

Lemma blen_value_bytes v : blen (value_bytes v) = encoded_size v.
Proof. destruct v; simpl; autorewrite with blen; unfold OVERFLOW_REF_ENCODED_SIZE; lia. Qed.
Lemma blen_leaf_suffix pl k : 0 <= pl <= blen k -> blen (leaf_suffix pl k) = blen k - pl.
Proof. intros. unfold leaf_suffix. by rewrite blen_sub by lia. Qed.
Lemma blen_record_bytes pl r : 0 <= pl <= blen r.1 -> blen (record_bytes pl r) = record_size pl r.
Proof.
  intros. unfold record_bytes, record_size, saturating_sub. rewrite !blen_app, blen_le16.
  rewrite blen_value_bytes, blen_leaf_suffix by done. lia.
Qed.

Lemma encode_value_eq {A} b a v (k : bytes -> result A) :
  value_wf v -> encoded_size v <= U16_MAX ->
  (let! b := encode_value b a v in k b) = (let! b := copy_at b a (value_bytes v) in k b).
Proof.
  intros Hv Hs. destruct v as [v|t r]; simpl in *.
  - pose proof (blen_nonneg v). rewrite try_u16_ok by (unfold U16_MAX in *; lia).
    unfold write_u16_le. rewrite <-copy_at_app. rewrite blen_le16.
    by destruct (copy_at b a _).
  - destruct Hv as (_ & _ & ->). simpl. unfold write_u16_le, write_u64_le.
    rewrite <-copy_at_app, blen_le16.
    destruct (copy_at b a _) as [b1| |]; [|done..]. rewrite <-copy_at_app, blen_le64.
    by destruct (copy_at b1 _ _).
Qed.

Lemma leaf_packs pl :
  0 <= pl -> packs pl (record_bytes pl) (encode_leaf_record pl)
    (fun r => pl <= blen r.1 /\ value_wf r.2).
Proof.
  intros Hpl b tail i [k v] [Hk Hv] Hb Ht Hroom. simpl in Hk, Hv.
  unfold encode_leaf_record, pack_one, HEADER_LEN in *.
  rewrite blen_record_bytes in * by (simpl; lia).
  rewrite slice_ok by lia. fold (leaf_suffix pl k).
  assert (2 + blen (leaf_suffix pl k) + encoded_size v = record_size pl (k, v)) as ->.
  { rewrite blen_leaf_suffix by lia. unfold record_size, saturating_sub. simpl. lia. }
  assert (0 <= encoded_size v) by (rewrite <-blen_value_bytes; apply blen_nonneg).
  assert (record_size pl (k, v) = 2 + (blen k - pl) + encoded_size v)
    by (unfold record_size, saturating_sub; simpl; lia).
  unfold checked_sub. rewrite (proj2 (Z.leb_le _ _)) by lia.
  pose proof (blen_leaf_suffix pl k). unfold U16_MAX in *.
  rewrite !try_u16_ok by lia. unfold write_u16_le, record_bytes. simpl.
  rewrite <-copy_at_app, blen_le16.
  destruct (copy_at b _ _) as [b1| |]; [|done..]. rewrite <-copy_at_app.
  destruct (copy_at b1 _ _) as [b2| |]; [|done..].
  by rewrite encode_value_eq by (done || (unfold U16_MAX; lia)).
Qed.

(** Reading back the bytes of one value. *)
Lemma value_bytes_read b a v :
  0 <= a -> value_wf v -> encoded_size v < U16_MAX -> a + encoded_size v <= blen b ->
  sub b a (blen (value_bytes v)) = value_bytes v ->
  a + 2 + (if u16_at b a =? OVERFLOW_SENTINEL then 16 else u16_at b a) <= blen b /\
  (if u16_at b a =? OVERFLOW_SENTINEL
   then Overflow (u64_at b (a + 2)) (u64_at b (a + 2 + 8))
   else Inline (sub b (a + 2) (u16_at b a))) = v.
Proof.
  intros Ha Hv Hmax Hin Hs. unfold u16_at, u64_at, U16_MAX, OVERFLOW_SENTINEL in *.
  destruct v as [v|t r]; simpl in *; apply sub_app_inv in Hs as [Hl Hs]; try done;
    try (autorewrite with blen; unfold OVERFLOW_REF_ENCODED_SIZE in *; lia).
  - pose proof (blen_nonneg v). rewrite blen_le16 in *. rewrite Hl, of_le16 by lia.
    rewrite (proj2 (Z.eqb_neq _ _)) by lia. rewrite Hs. split; [lia|done].
  - unfold OVERFLOW_REF_ENCODED_SIZE in *. rewrite blen_le16 in *.
    apply sub_app_inv in Hs as [Ht Hr]; [|lia|autorewrite with blen; lia].
    rewrite !blen_le64 in *. rewrite Hl, Ht, Hr, of_le16, !of_le64 by (done || naive_solver).
    simpl. split; [lia|done].
Qed.

(** Reading back the bytes of one record. *)
Lemma record_bytes_read b off pl k v :
  0 <= off -> value_wf v ->
  blen (record_bytes pl (k, v)) < U16_MAX -> off + blen (record_bytes pl (k, v)) <= blen b ->
  sub b off (blen (record_bytes pl (k, v))) = record_bytes pl (k, v) ->
  leaf_record_in b off /\ suffix_at b off = leaf_suffix pl k /\ value_at b off = v.
Proof.
  intros Hoff Hv Hmax Hin Hs. unfold record_bytes in *. simpl in *.
  set (sf := leaf_suffix pl k) in *. rewrite !blen_app, blen_le16, blen_value_bytes in *.
  assert (0 <= encoded_size v) by (rewrite <-blen_value_bytes; apply blen_nonneg).
  pose proof (blen_nonneg sf). unfold U16_MAX in *.
  rewrite <-blen_value_bytes, <-(blen_le16 (blen sf)), <-!blen_app in Hs.
  apply sub_app_inv in Hs as [Hl Hs]; [|lia|rewrite blen_app, blen_value_bytes, blen_le16; lia].
  rewrite blen_le16 in *.
  apply sub_app_inv in Hs as [Hsf Hs]; [|lia|rewrite blen_value_bytes; lia].
  destruct (value_bytes_read b (off + 2 + blen sf) v) as [Hin' Hval];
    [lia|done|unfold U16_MAX; lia|lia|done|].
  assert (u16_at b off = blen sf) as Hu by (unfold u16_at; rewrite Hl; apply of_le16; lia).
  unfold leaf_record_in, suffix_at, value_at. rewrite !Hu. split_and!; try done; lia.
Qed.

(** The prefix [lcp] returns is a prefix of every key of a sorted leaf. *)
Lemma lcp_spec rs :
  keys_sorted rs.*1 ->
  exists p, lcp rs = Ok p /\ blen p = lcp_len rs /\
    Forall (fun r : leaf_record => lcp_len rs <= blen r.1 /\ sub r.1 0 (lcp_len rs) = p) rs.
Proof.
  intros Hs. destruct rs as [|[a va] [|r rs]]; unfold lcp.
  - by exists [].
  - simpl. pose proof (blen_nonneg a). exists a.
    rewrite slice_ok, Z.sub_0_r, sub_full by lia. split_and!; [done..|].
    apply Forall_singleton. simpl. by rewrite sub_full.
  - destruct (last (r :: rs)) as [[b vb]|] eqn:Hl; [|by apply last_None in Hl].
    assert (lcp_len ((a, va) :: r :: rs) = Z.of_nat (common_len a b)) as ->
      by (unfold lcp_len; by rewrite Hl).
    pose proof (common_len_le_l a b).
    rewrite slice_ok, Z.sub_0_r by (unfold blen; lia).
    exists (sub a 0 (Z.of_nat (common_len a b))).
    split_and!; [done|rewrite blen_sub; unfold blen; lia|].
    apply Forall_forall. intros [k v] Hk.
    assert (a ≤ₖ k /\ k ≤ₖ b) as [Hak Hkb].
    { apply (sorted_bounds ((a, va) :: r :: rs).*1); [done|done| |].
      - rewrite fmap_cons, last_cons, fmap_last. by rewrite Hl.
      - apply list_elem_of_fmap. by exists (k, v). }
    destruct (common_len_between a b k Hak Hkb) as [Hlen Ht]. simpl.
    split; [unfold blen; lia|]. unfold sub. simpl. by rewrite !Nat2Z.id.
Qed.

Lemma records_size_packed pl rs :
  0 <= pl -> Forall (fun r : leaf_record => pl <= blen r.1) rs ->
  packed_size (record_bytes pl) rs = records_size pl rs.
Proof.
  intros ?. induction 1 as [|r rs Hr _ IH]; simpl; [done|].
  by rewrite blen_record_bytes, IH.
Qed.

Definition leaf_wf (l : Leaf) : Prop :=
  leaf_sorted l /\ is_u64 (leaf_left_sibling l) /\ is_u64 (leaf_right_sibling l) /\
  Forall value_wf (records l).*2.

Lemma lcp_len_nonneg rs : 0 <= lcp_len rs.
Proof.
  destruct rs as [|[k v] [|r rs]]; unfold lcp_len; [done|apply blen_nonneg|].
  destruct (last (r :: rs)) as [[]|]; lia.
Qed.

Lemma leaf_encode_too_large l body :
  leaf_sorted l -> blen body < leaf_needed (records l) ->
  leaf_encode l body = Err PayloadTooLarge.
Proof.
  intros Hs Hn. destruct (lcp_spec _ Hs) as (p & Hp & Hpl & _).
  unfold leaf_encode. rewrite Hp, Hpl. unfold leaf_needed in Hn.
  by rewrite (proj2 (Z.ltb_lt _ _)).
Qed.

(** A body that holds the header, the prefix and every record of [l] decodes
    to [l]. *)
Lemma leaf_decode_packed l b p :
  leaf_wf l -> blen b <= U16_MAX -> lcp (records l) = Ok p ->
  let pl := blen p in
  read_header b = Ok (mkNodeHeader NodeKind.Leaf (Z.of_nat (length (records l))) pl
                        (leaf_left_sibling l) (leaf_right_sibling l)) ->
  sub b HEADER_LEN pl = p ->
  HEADER_LEN + pl + Z.of_nat (length (records l)) * 2 <= blen b ->
  (forall j r, records l !! j = Some r ->
     let off := u16_at b (HEADER_LEN + pl + Z.of_nat j * 2) in
     sub b off (blen (record_bytes pl r)) = record_bytes pl r /\
     HEADER_LEN <= off /\ off + blen (record_bytes pl r) <= blen b) ->
  leaf_decode b = Ok l.
Proof.
  intros (Hs & ? & ? & Hv) Hb Hp pl Hh Hpre Hdir Hrec.
  destruct (lcp_spec _ Hs) as (p' & Hp' & Hpl & Hall). rewrite Hp in Hp'. simplify_eq.
  fold pl in Hpl. unfold U16_MAX, HEADER_LEN in *. pose proof (blen_nonneg p).
  assert (forall j k v, records l !! j = Some (k, v) ->
            let off := rec_off b pl j in
            leaf_record_in b off /\ suffix_at b off = leaf_suffix pl k /\ value_at b off = v) as Hr.
  { intros j k v Hj. destruct (Hrec j (k, v) Hj) as (? & ? & ?).
    apply record_bytes_read; unfold U16_MAX, rec_off, HEADER_LEN; try done; try lia.
    rewrite Forall_fmap, Forall_lookup in Hv. by apply (Hv j (k, v)). }
  set (h := mkNodeHeader _ _ _ _ _) in Hh.
  assert (body_in b h) as Hin.
  { unfold body_in, HEADER_LEN. simpl. split_and!; try lia. intros i Hi.
    destruct (lookup_lt_is_Some_2 (records l) (Z.to_nat i)) as [[k v] Hj]; [lia|].
    destruct (Hr _ _ _ Hj) as [Hin _]. unfold rec_off in Hin. by rewrite Z2Nat.id in Hin by lia. }
  rewrite (leaf_decode_ok b h); [|apply validate_node_body_iff|done|done].
  2: { unfold USIZE_MAX, U64_MAX. lia. }
  2: done.
  simpl. destruct l as [ls rs recs]. simpl in *. do 2 f_equal. rewrite Nat2Z.id.
  apply list_eq. intros j. rewrite list_lookup_fmap.
  destruct (recs !! j) as [[k v]|] eqn:Hj.
  - rewrite lookup_seq_lt by (by eapply lookup_lt_Some). simpl.
    destruct (Hr _ _ _ Hj) as (_ & -> & ->). do 2 f_equal. unfold HEADER_LEN. rewrite Hpre.
    rewrite Forall_lookup in Hall. destruct (Hall _ _ Hj) as [Hle Hpk]. simpl in Hle, Hpk.
    unfold leaf_suffix. rewrite <-Hpk, <-Hpl. fold pl.
    replace pl with (0 + pl) at 2 by lia. rewrite <-sub_split by lia.
    replace (pl + (blen k - pl)) with (blen k) by lia. apply sub_full.
  - rewrite lookup_seq_ge; [done|]. by apply lookup_ge_None in Hj.
Qed.

Lemma leaf_encode_ok l body :
  leaf_wf l -> blen body <= U16_MAX -> leaf_needed (records l) <= blen body ->
  exists body', leaf_encode l body = Ok body' /\ blen body' = blen body /\
    leaf_decode body' = Ok l.
Proof.
  intros Hwf Hb Hn. pose proof Hwf as (Hs & ? & ? & Hv).
  destruct (lcp_spec _ Hs) as (p & Hp & Hpl & Hall). pose proof (blen_nonneg p) as Hp0.
  unfold leaf_encode. rewrite Hp. unfold leaf_needed in Hn. rewrite <-Hpl in Hn, Hall.
  rewrite (proj2 (Z.ltb_ge _ _)) by lia.
  assert (Forall (fun r : leaf_record => blen p <= blen r.1 /\ value_wf r.2) (records l)) as HP.
  { apply Forall_and. split; [eapply Forall_impl; [exact Hall|naive_solver]|].
    by rewrite Forall_fmap in Hv. }
  assert (packed_size (record_bytes (blen p)) (records l) = records_size (blen p) (records l))
    as Hsz by (apply records_size_packed; [lia|eapply Forall_impl; [exact Hall|naive_solver]]).
  rewrite <-Hsz in Hn. pose proof (packed_size_nonneg (record_bytes (blen p)) (records l)).
  unfold U16_MAX, HEADER_LEN in *. rewrite !try_u16_ok by lia.
  destruct (write_header_spec body NodeKind.Leaf (Z.of_nat (length (records l))) (blen p)
    (leaf_left_sibling l) (leaf_right_sibling l)) as (b1 & -> & L1 & Hh & _);
    [unfold HEADER_LEN; lia|lia|lia|done|done|].
  destruct (copy_at_step (E:=PagedbError) b1 24 (zeros (blen body - 24))) as (b2 & -> & L2 & _ & D2);
    [lia|rewrite blen_zeros; lia|].
  destruct (copy_at_step (E:=PagedbError) b2 24 p) as (b3 & -> & L3 & S3 & D3); [lia..|].
  destruct (pack_fold (blen p) _ _ _ _ (leaf_packs (blen p) Hp0) HP Hp0 b3 (blen body) 0)
    as (b4 & -> & L4 & D4 & R4); [unfold U16_MAX, HEADER_LEN; simpl; lia..|].
  simpl. exists b4. split_and!; [done|lia|].
  unfold HEADER_LEN in *. simpl in *.
  apply (leaf_decode_packed l b4 p); try done; unfold HEADER_LEN; try (unfold U16_MAX; lia).
  - rewrite <-Hh. apply read_header_ext; unfold HEADER_LEN; [lia..|].
    rewrite D4, D3, D2 by lia. done.
  - rewrite D4 by lia. done.
  - intros j r Hj. destruct (R4 j r Hj) as (? & ? & ?). split_and!; [done|lia|lia].
Qed.

(** The single-record pre-check, made from lengths alone before any page is
    touched, is exactly "a leaf holding only this record fits". *)
Lemma single_record_fits_exact (k : bytes) (v : LeafValue) (page_size ls rs : Z) :
  page_size <= U16_MAX + ENVELOPE_OVERHEAD ->
  single_record_fits_encoded (blen k) (encoded_size v) page_size
  = leaf_fits (mkLeaf ls rs [(k, v)]) page_size.
Proof.
  intros Hps. pose proof (blen_nonneg k).
  assert (0 <= encoded_size v) by (rewrite <-blen_value_bytes; apply blen_nonneg).
  unfold single_record_fits_encoded, leaf_fits, slice_fits, leaf_needed, records_size,
    record_size, saturating_sub, lcp_len, U16_MAX, HEADER_LEN, body_capacity in *. simpl.
  destruct (Z.ltb_spec (2 ^ 16 - 1) (blen k)).
  { symmetry. apply Z.leb_gt. lia. }
  assert (2 ^ 17 < USIZE_MAX) by done.
  repeat (rewrite checked_add_ok by lia; simpl).
  destruct (Z.leb_spec (24 + blen k + 2 + 2 + encoded_size v) USIZE_MAX).
  - rewrite checked_add_ok by lia. apply eq_true_iff_eq. rewrite !Z.leb_le. lia.
  - rewrite checked_add_none by lia. symmetry. apply Z.leb_gt. lia.
Qed.

(** ** Properties *)

(** C16: on every body that decodes as a leaf, opening the zero-copy accessor
    validates and memoises, its search over the prefix-compressed slots returns,
    a slot it finds holds the key, and the location it reports for a slot
    denotes the decoded value of that slot. When the keys are strictly
    increasing, as every leaf of a tree keeps them, the search finds the index
    that the standard library's binary search finds in the decoded records, and
    misses exactly the keys that are not there. *)
Theorem leaf_accessor_agrees (body : bytes) (l : Leaf) (q : bytes) :
  blen body <= USIZE_MAX -> leaf_decode body = Ok l ->
  exists a r, leaf_from_guard body false = (Ok a, true) /\
    la_find a q = Ok r /\
    (forall i, r = Some i -> exists v, records l !! i = Some (q, v)) /\
    (leaf_sorted l ->
       r = (match leaf_position l q with inl i => Some i | inr _ => None end) /\
       (r = None <-> q ∉ (records l).*1)) /\
    forall i r, records l !! i = Some r ->
      exists loc, value_loc a i = Ok loc /\ loc_value body loc = r.2.
Proof.
  intros Hb Hd.
  destruct (leaf_decode_accessor body l Hb Hd) as (h & Hv & Hin & Hk & Hlen & Hrec).
  destruct (bisect_total (E:=PagedbError) (records l) q) as (r & Hr & Hf).
  exists (mkLeafAccessor body (prefix_len h) (slot_count h)),
    (match r with inl i => Some i | inr _ => None end). split_and!.
  - unfold leaf_from_guard, validate_node_body_memoised, leaf_from_header. simpl.
    rewrite Hv, Hk. done.
  - rewrite (la_find_bisect body l h q Hb Hd Hv). by rewrite Hr.
  - intros i Hi. apply Hf. by destruct r; simplify_eq.
  - intros Hs. rewrite bisect_position in Hr by done. simplify_eq. split; [done|].
    by apply position_none.
  - intros i r' Hi. pose proof (lookup_lt_Some _ _ _ Hi) as Hlt. rewrite Hlen in Hlt.
    destruct (value_loc_ok body h i Hin Hk Hlt) as (loc & Hloc & Hval & _).
    exists loc. split; [done|]. rewrite Hrec in Hi by done. by simplify_eq.
Qed.

(** A leaf holding two inline records and one overflow reference. *)
Definition sample_leaf : Leaf :=
  mkLeaf 7 9 [(Byte.x61 :: Byte.x62 :: [], Inline (Byte.x01 :: []));
              (Byte.x61 :: Byte.x63 :: [], Overflow 5000 40);
              (Byte.x61 :: Byte.x63 :: Byte.x64 :: [], Inline [])].
Definition sample_body : bytes :=
  match leaf_encode sample_leaf (zeros 96) with Ok b => b | _ => [] end.

Lemma leaf_accessor_agrees_witness :
  exists a, leaf_from_guard sample_body false = (Ok a, true) /\
    la_find a [Byte.x61; Byte.x63] = Ok (Some 1%nat).
Proof.
  destruct (leaf_accessor_agrees sample_body sample_leaf [Byte.x61; Byte.x63])
    as (a & r & Ha & Hf & _ & Hs & _).
  - vm_compute. discriminate.
  - vm_compute. reflexivity.
  - exists a. split; [exact Ha|]. rewrite Hf. destruct Hs as [-> _].
    + unfold leaf_sorted. repeat constructor.
    + vm_compute. reflexivity.
Defined.

(** C17: encoding a well-formed leaf into a page body succeeds exactly when
    [fits] says it does; then decoding the body returns the leaf (siblings,
    every full key rebuilt from the shared prefix, every value), and otherwise
    the encoder returns [PayloadTooLarge]. *)
Theorem leaf_encode_decode (l : Leaf) (page_size : Z) (body : bytes) :
  leaf_wf l -> blen body = body_capacity page_size -> blen body <= U16_MAX ->
  if leaf_fits l page_size
  then exists body', leaf_encode l body = Ok body' /\ blen body' = blen body /\
         leaf_decode body' = Ok l
  else leaf_encode l body = Err PayloadTooLarge.
Proof.
  intros Hwf Hb Hmax. unfold leaf_fits, slice_fits. rewrite <-Hb.
  destruct (Z.leb_spec (leaf_needed (records l)) (blen body)).
  - by apply leaf_encode_ok.
  - apply leaf_encode_too_large; [apply Hwf|done].
Qed.

Lemma leaf_encode_decode_witness :
  leaf_fits sample_leaf 136 = true /\
  exists body', leaf_encode sample_leaf (zeros 96) = Ok body' /\ leaf_decode body' = Ok sample_leaf.
Proof.
  split; [reflexivity|].
  destruct (leaf_encode_decode sample_leaf 136 (zeros 96)) as (b & He & _ & Hd).
  - unfold leaf_wf, leaf_sorted, sample_leaf. simpl.
    split_and!; try lia; repeat constructor; simpl; lia.
  - reflexivity.
  - vm_compute. discriminate.
  - exists b. split; [exact He|exact Hd].
Defined.

(** On a sorted leaf, [upsert] is map insertion, [remove] is map deletion
    and [get] is map lookup; both mutators keep the records strictly sorted and
    return the value the key had before. *)
Theorem leaf_ops_refine_map (l : Leaf) (q : bytes) (v : LeafValue) :
  leaf_sorted l ->
  leaf_get l q = leaf_map l !! q /\
  (let '(l', (is_new, old)) := leaf_upsert l q v in
   leaf_sorted l' /\ leaf_map l' = <[q := v]> (leaf_map l) /\
   old = leaf_map l !! q /\ is_new = bool_decide (leaf_map l !! q = None)) /\
  (let '(l', old) := leaf_remove l q in
   leaf_sorted l' /\ leaf_map l' = delete q (leaf_map l) /\ old = leaf_map l !! q).
Proof.
  intros Hs. split; [by apply leaf_get_spec|]. split.
  - destruct (leaf_upsert l q v) as [l' [n o]] eqn:Hu.
    destruct (leaf_upsert_spec l q v l' n o Hs Hu) as (?&?&?&?&_). done.
  - destruct (leaf_remove l q) as [l' o] eqn:Hr.
    destruct (leaf_remove_spec l q l' o Hs Hr) as (?&?&?&_). done.
Qed.

Lemma leaf_ops_refine_map_witness :
  leaf_sorted sample_leaf /\
  leaf_map (leaf_remove sample_leaf [Byte.x61; Byte.x63]).1
  = delete [Byte.x61; Byte.x63] (leaf_map sample_leaf).
Proof.
  assert (leaf_sorted sample_leaf) as Hs
    by (unfold leaf_sorted, sample_leaf; simpl; repeat constructor).
  split; [exact Hs|].
  destruct (leaf_ops_refine_map sample_leaf [Byte.x61; Byte.x63] (Inline []) Hs)
    as (_ & _ & Hr).
  destruct (leaf_remove sample_leaf [Byte.x61; Byte.x63]) as [l' o]. apply Hr.
Defined.
