(* ===== verification/Internal.v ===== *)
(** * Internal: branch nodes and the zero-copy branch accessor

    [src/src/btree/internal.rs]: separators with the child to their right,
    encoding, decoding, insertion, the 50/50 split, and the accessor that picks
    the child covering a key from an encoded body. *)

From S2P Require Import Prelude Keys Errors PageFormat Node.
From Stdlib Require Import ZArith Lia.
From stdpp Require Import base list strings gmap sorting.

Local Open Scope Z_scope.
Local Open Scope pagedb_scope.

(** A separator key and the child to its right. *)
Abbreviation InternalEntry := (bytes * Z)%type.

Record Internal := mkInternal {
  leftmost_child : Z;
  entries : list InternalEntry;
}.

Definition SEPARATOR_RECORD_OVERHEAD : Z := 2 + 8.
Definition SLOT_DIRECTORY_ENTRY_SIZE : Z := 2.

Definition separator_entry_size (key_len : Z) : result Z :=
  if U16_MAX <? key_len then Err PayloadTooLarge else
  ok_or (size ← checked_add key_len SEPARATOR_RECORD_OVERHEAD;
         checked_add size SLOT_DIRECTORY_ENTRY_SIZE) PayloadTooLarge.

Definition separator_fits (key_len page_size : Z) : bool :=
  match separator_entry_size key_len with
  | Ok entry_size =>
      match checked_add HEADER_LEN entry_size with
      | Some needed => needed <=? body_capacity page_size
      | None => false
      end
  | _ => false
  end.

(** ** Decoding *)

Definition decode_internal_entry (body : bytes) (prefix_len : Z) (i : nat)
  : result InternalEntry :=
  let! off := slot_offset body prefix_len (Z.of_nat i) in
  let! key_len := read_u16_le body off in
  let! key := slice body (off + 2) (off + 2 + key_len) in
  let! right_child := read_u64_le body (off + 2 + key_len) in
  Ok (key, right_child).

Definition internal_decode (body : bytes) : result Internal :=
  let! h := validate_node_body body in
  if negb (bool_decide (kind h = NodeKind.Internal)) then
    Err (node_kind_mismatch None "internal" "leaf")
  else
  let! entries :=
    traverse (decode_internal_entry body (prefix_len h)) (seq 0 (Z.to_nat (slot_count h))) in
  Ok (mkInternal (dual_use h) entries).

(** ** Encoding *)

Definition entries_size (es : list InternalEntry) : Z :=
  foldr (fun e acc => blen e.1 + SEPARATOR_RECORD_OVERHEAD + acc) 0 es.

Definition encode_internal_entry (st : bytes * Z * nat) (e : InternalEntry)
  : result (bytes * Z * nat) :=
  let '(body, tail, i) := st in
  let '(key, right_child) := e in
  let rec_size := blen key + SEPARATOR_RECORD_OVERHEAD in
  let! off := match checked_sub tail rec_size with Some t => Ok t | None => Panic end in
  let! klen := try_u16 (blen key) "key_len overflow" in
  let! body := write_u16_le body off klen in
  let! body := copy_at body (off + 2) key in
  let! body := copy_at body (off + 2 + blen key) (le64 right_child) in
  let! o := try_u16 off "record_offset overflow" in
  let! body := write_slot_offset body 0 (Z.of_nat i) o in
  Ok (body, off, S i).

Definition internal_encode (n : Internal) (body : bytes) : result bytes :=
  let cap := blen body in
  let prefix_len := 0 in
  let slot_count := Z.of_nat (length (entries n)) in
  let slot_dir_bytes := slot_count * SLOT_DIRECTORY_ENTRY_SIZE in
  if cap <? HEADER_LEN + prefix_len + slot_dir_bytes + entries_size (entries n)
  then Err PayloadTooLarge else
  let! sc := try_u16 slot_count "slot_count overflow" in
  let! pl := try_u16 prefix_len "prefix_len overflow" in
  let! body := write_header body NodeKind.Internal sc pl 0 (leftmost_child n) in
  let! body := copy_at body HEADER_LEN (zeros (cap - HEADER_LEN)) in
  let! st := fold_res encode_internal_entry (body, cap, 0%nat) (entries n) in
  Ok (st.1.1).

Definition internal_fits (n : Internal) (page_size : Z) : bool :=
  let cap := body_capacity page_size in
  let record_bytes := foldr (fun e acc => 2 + blen e.1 + 8 + acc) 0 (entries n) in
  let slot_dir_bytes := Z.of_nat (length (entries n)) * 2 in
  HEADER_LEN + slot_dir_bytes + record_bytes <=? cap.

(** ** In-memory operations *)

Definition internal_upsert (n : Internal) (key : bytes) (right_child : Z) : Internal :=
  mkInternal (leftmost_child n)
    (match position (entries n) key with
     | inl i => alter (fun e : InternalEntry => (e.1, right_child)) i (entries n)
     | inr i => take i (entries n) ++ (key, right_child) :: drop i (entries n)
     end).

(** Splitting a node without separators indexes an empty vector. *)
Definition internal_split (n : Internal) : result (Internal * Internal * bytes) :=
  let mid := (length (entries n) / 2)%nat in
  match drop mid (entries n) with
  | [] => Panic
  | (promoted, right_leftmost) :: right_entries =>
      Ok (mkInternal (leftmost_child n) (take mid (entries n)),
          mkInternal right_leftmost right_entries, promoted)
  end.

(** ** The accessor *)

Record InternalAccessor := mkInternalAccessor {
  ia_body : bytes;
  ia_slot_count : Z;
  ia_leftmost_child : Z;
}.

(** As a release build runs it: a debug build also panics on a nonzero prefix
    length, which no encoder writes. *)
Definition internal_from_header (body : bytes) (h : NodeHeader) : result InternalAccessor :=
  if negb (bool_decide (kind h = NodeKind.Internal)) then
    Err (node_kind_mismatch None "internal" "leaf")
  else Ok (mkInternalAccessor body (slot_count h) (dual_use h)).

Definition internal_from_guard (body : bytes) (memo : bool) : result InternalAccessor * bool :=
  let '(r, memo) := validate_node_body_memoised body memo in
  (let! h := r in internal_from_header body h, memo).

Definition entry_key (a : InternalAccessor) (idx : nat) : result bytes :=
  let! off := slot_offset (ia_body a) 0 (Z.of_nat idx) in
  let! key_len := read_u16_le (ia_body a) off in
  slice (ia_body a) (off + 2) (off + 2 + key_len).

Definition right_child_offset (a : InternalAccessor) (idx : nat) : result Z :=
  let! off := slot_offset (ia_body a) 0 (Z.of_nat idx) in
  let! key_len := read_u16_le (ia_body a) off in
  Ok (off + 2 + key_len).

Definition entry_right_child (a : InternalAccessor) (idx : nat) : result Z :=
  let! off := right_child_offset a idx in
  read_u64_le (ia_body a) off.

Definition child_for (a : InternalAccessor) (query : bytes) : result Z :=
  let! lo := partition_point (fun mid => let! k := entry_key a mid in Ok (bytes_leb k query))
               (Z.to_nat (ia_slot_count a)) in
  match lo with
  | O => Ok (ia_leftmost_child a)
  | S i => entry_right_child a i
  end.

(** ** What a separator list means: the child covering a key *)

(** The child to the right of the last separator not above [q]. *)
Fixpoint route (c : Z) (es : list InternalEntry) (q : bytes) : Z :=
  match es with
  | [] => c
  | (k, c') :: es => if bytes_leb k q then route c' es q else c
  end.

Definition child_of (n : Internal) (q : bytes) : Z := route (leftmost_child n) (entries n) q.

Definition internal_sorted (n : Internal) : Prop := keys_sorted (entries n).*1.

Definition children (n : Internal) : list Z := leftmost_child n :: (entries n).*2.

(** ** Routing *)

Lemma bytes_leb_gt a b : b <ₖ a -> bytes_leb a b = false.
Proof. intros. apply not_true_iff_false. rewrite bytes_leb_le. by apply key_nle_lt. Qed.

Lemma route_app c es1 es2 q :
  Forall (fun k => k ≤ₖ q) es1.*1 ->
  route c (es1 ++ es2) q = route (default c (last es1.*2)) es2 q.
Proof.
  revert c. induction es1 as [|[k c'] es1 IH]; intros c H; [done|].
  apply Forall_cons in H as [Hk H]. cbn [route app fmap list_fmap].
  apply bytes_leb_le in Hk. simpl in Hk. rewrite Hk, IH by done. f_equal.
  cbn [fmap list_fmap]. rewrite last_cons. simpl. by destruct (last es1.*2).
Qed.
Lemma route_gt c es q : Forall (fun k => q <ₖ k) es.*1 -> route c es q = c.
Proof.
  destruct es as [|[k c'] es]; [done|]. intros [Hk _]%Forall_cons. simpl.
  by rewrite bytes_leb_gt.
Qed.
Lemma route_split c es1 es2 q :
  Forall (fun k => k ≤ₖ q) es1.*1 -> Forall (fun k => q <ₖ k) es2.*1 ->
  route c (es1 ++ es2) q = default c (last es1.*2).
Proof. intros. by rewrite route_app, route_gt. Qed.

Lemma route_in c es q : route c es q ∈ c :: es.*2.
Proof.
  revert c. induction es as [|[k c'] es IH]; intros c; simpl; [by left|].
  destruct (bytes_leb k q); [|by left]. right. apply IH.
Qed.

(** ** Decoding *)

Definition ent_off (body : bytes) (pl : Z) (i : nat) : Z :=
  u16_at body (HEADER_LEN + pl + Z.of_nat i * 2).
Definition key_at (body : bytes) (off : Z) : bytes := sub body (off + 2) (u16_at body off).
Definition child_at (body : bytes) (off : Z) : Z := u64_at body (off + 2 + u16_at body off).

Lemma internal_entry_bounds body h i :
  body_in body h -> kind h = NodeKind.Internal -> (i < Z.to_nat (slot_count h))%nat ->
  let off := ent_off body (prefix_len h) i in
  slot_offset body (prefix_len h) (Z.of_nat i) = Ok off /\
  0 <= off /\ 0 <= u16_at body off /\ off + 2 + u16_at body off + 8 <= blen body.
Proof.
  intros (_ & ? & ? & ? & Hr) Hk ? off. rewrite slot_offset_ok by lia.
  specialize (Hr (Z.of_nat i)). ospecialize (Hr _); [lia|]. rewrite Hk in Hr.
  destruct Hr as [? ?]. split_and!; try done. apply u16_at_nonneg.
Qed.

Lemma decode_internal_entry_ok body h i :
  body_in body h -> kind h = NodeKind.Internal -> (i < Z.to_nat (slot_count h))%nat ->
  decode_internal_entry body (prefix_len h) i =
    let off := ent_off body (prefix_len h) i in
    Ok (key_at body off, child_at body off).
Proof.
  intros Hin Hk Hi. unfold decode_internal_entry.
  destruct (internal_entry_bounds body h i Hin Hk Hi) as (-> & ? & ? & ?).
  set (off := ent_off _ _ _) in *.
  rewrite read_u16_le_ok, slice_ok, read_u64_le_ok by lia. cbv zeta.
  unfold key_at, child_at. do 3 f_equal. lia.
Qed.

Lemma internal_decode_ok body h :
  validate_node_body body = Ok h -> body_in body h -> kind h = NodeKind.Internal ->
  internal_decode body =
    Ok (mkInternal (dual_use h)
          ((fun i => let off := ent_off body (prefix_len h) i in
              (key_at body off, child_at body off)) <$> seq 0 (Z.to_nat (slot_count h)))).
Proof.
  intros Hv Hin Hk. unfold internal_decode. rewrite Hv, bool_decide_true by done. simpl.
  match goal with |- context [traverse ?f ?l] =>
    assert (traverse f l = Ok ((fun i => let off := ent_off body (prefix_len h) i in
      (key_at body off, child_at body off)) <$> l)) as ->
  end; [|done].
  apply traverse_Ok, Forall2_fmap_r, Forall_Forall2_diag, Forall_forall.
  intros i [_ Hi]%elem_of_seq. by apply decode_internal_entry_ok.
Qed.

Lemma internal_decode_inv body n :
  blen body <= USIZE_MAX -> internal_decode body = Ok n ->
  exists h, validate_node_body body = Ok h /\ body_in body h /\ kind h = NodeKind.Internal /\
    leftmost_child n = dual_use h /\
    length (entries n) = Z.to_nat (slot_count h) /\
    (forall i, (i < Z.to_nat (slot_count h))%nat ->
       let off := ent_off body (prefix_len h) i in
       entries n !! i = Some (key_at body off, child_at body off)).
Proof.
  intros Hb Hd. pose proof Hd as Hd'. unfold internal_decode in Hd'.
  destruct (validate_node_body body) as [h|e|] eqn:Hv; [|done..].
  pose proof Hv as [_ Hin]%validate_node_body_iff; [|done].
  destruct (bool_decide_reflect (kind h = NodeKind.Internal)) as [Hk|]; [|done]. clear Hd'.
  rewrite (internal_decode_ok body h Hv Hin Hk) in Hd. simplify_eq.
  exists h. split_and!; try done; simpl; [by rewrite length_fmap, length_seq|].
  intros i Hi. by rewrite list_lookup_fmap, lookup_seq_lt by done.
Qed.

Lemma internal_decode_no_panic body : blen body <= USIZE_MAX -> internal_decode body <> Panic.
Proof.
  intros Hb. destruct (validate_node_body body) as [h|e|] eqn:Hv.
  - destruct (decide (kind h = NodeKind.Internal)) as [Hk|Hk].
    + pose proof Hv as [_ Hin]%validate_node_body_iff; [|done].
      by rewrite (internal_decode_ok body h).
    + unfold internal_decode. rewrite Hv, bool_decide_false by done. done.
  - unfold internal_decode. by rewrite Hv.
  - by apply validate_node_body_no_panic in Hv.
Qed.

(** ** The accessor agrees with the decoded node *)

Lemma child_for_ok body h n q :
  blen body <= USIZE_MAX -> internal_decode body = Ok n -> internal_sorted n ->
  validate_node_body body = Ok h -> prefix_len h = 0 ->
  child_for (mkInternalAccessor body (slot_count h) (dual_use h)) q = Ok (child_of n q).
Proof.
  intros Hb Hd Hs Hv Hpl.
  destruct (internal_decode_inv body n Hb Hd) as (h' & Hv' & Hin & Hk & Hlm & Hlen & He).
  rewrite Hv in Hv'. simplify_eq.
  assert (forall i, (i < length (entries n))%nat ->
    entry_key (mkInternalAccessor body (slot_count h') (dual_use h')) i
      = Ok (key_at body (ent_off body 0 i)) /\
    entry_right_child (mkInternalAccessor body (slot_count h') (dual_use h')) i
      = Ok (child_at body (ent_off body 0 i))) as Ha.
  { intros i Hi. rewrite Hlen in Hi. unfold entry_key, entry_right_child, right_child_offset. simpl.
    destruct (internal_entry_bounds body h' i Hin Hk Hi) as (Ho & ? & ? & ?).
    rewrite Hpl in *. rewrite Ho. set (off := ent_off _ _ _) in *.
    rewrite read_u16_le_ok, slice_ok, read_u64_le_ok by lia.
    unfold key_at, child_at. split; do 2 f_equal; lia. }
  unfold child_for. simpl. rewrite <-Hlen.
  match goal with |- context [partition_point ?f _] =>
    destruct (partition_point_cases (entries n) q f Hs) as (l1 & l2 & Hl & H1 & H2 & ->) end.
  { intros i k v Hi. pose proof (lookup_lt_Some _ _ _ Hi) as Hlt.
    destruct (Ha i Hlt) as [-> _]. rewrite He in Hi by lia. rewrite Hpl in Hi. by simplify_eq. }
  unfold child_of. rewrite Hlm, Hl, route_split by done.
  destruct (decide (l1 = [])) as [->|Hne]; [done|].
  destruct (length l1) as [|i] eqn:Hl1; [by destruct l1|].
  assert (i < length (entries n))%nat as Hi by (rewrite Hl, length_app; lia).
  destruct (Ha i Hi) as [_ ->]. f_equal.
  assert (last l1.*2 = Some (child_at body (ent_off body 0 i))) as ->; [|done].
  rewrite last_lookup, length_fmap, Hl1, list_lookup_fmap. simpl.
  specialize (He i). ospecialize (He _); [lia|]. rewrite Hl, Hpl in He.
  rewrite lookup_app_l in He by lia. by rewrite He.
Qed.

(** ** Encoding round trip *)

Definition entry_bytes (e : InternalEntry) : bytes := le16 (blen e.1) ++ e.1 ++ le64 e.2.

Lemma blen_entry_bytes e : blen (entry_bytes e) = blen e.1 + SEPARATOR_RECORD_OVERHEAD.
Proof. unfold entry_bytes, SEPARATOR_RECORD_OVERHEAD. autorewrite with blen. lia. Qed.

Lemma entries_size_packed es : packed_size entry_bytes es = entries_size es.
Proof. induction es as [|e es IH]; simpl; [done|]. by rewrite blen_entry_bytes, IH. Qed.

Lemma internal_packs : packs 0 entry_bytes encode_internal_entry (fun _ => True).
Proof.
  intros b tail i [k c] _ Hb Ht Hroom. unfold encode_internal_entry, pack_one.
  rewrite blen_entry_bytes in *. unfold HEADER_LEN, SEPARATOR_RECORD_OVERHEAD, U16_MAX in *.
  simpl in *. pose proof (blen_nonneg k).
  rewrite checked_sub_ok by lia. rewrite !try_u16_ok by lia.
  unfold write_u16_le, entry_bytes. simpl. rewrite <-copy_at_app, blen_le16.
  destruct (copy_at b _ _) as [b1| |]; [|done..]. rewrite <-copy_at_app. done.
Qed.

Lemma entry_bytes_read b off k c :
  0 <= off -> is_u64 c -> blen k < U16_MAX ->
  off + blen (entry_bytes (k, c)) <= blen b ->
  sub b off (blen (entry_bytes (k, c))) = entry_bytes (k, c) ->
  internal_record_in b off /\ key_at b off = k /\ child_at b off = c.
Proof.
  intros Hoff Hc Hmax Hin Hs. rewrite blen_entry_bytes in Hin.
  unfold SEPARATOR_RECORD_OVERHEAD, U16_MAX in *. simpl in *. pose proof (blen_nonneg k).
  unfold entry_bytes in Hs. simpl in Hs.
  apply sub_app_inv in Hs as [Hl Hs]; [|lia|autorewrite with blen; lia].
  rewrite blen_le16 in *. apply sub_app_inv in Hs as [Hk Hs]; [|lia|autorewrite with blen; lia].
  rewrite blen_le64 in Hs.
  assert (u16_at b off = blen k) as Hu by (unfold u16_at; rewrite Hl; apply of_le16; lia).
  unfold internal_record_in, key_at, child_at, u64_at. rewrite Hu, Hs, of_le64 by done.
  split_and!; (done || lia).
Qed.

Definition internal_wf (n : Internal) : Prop :=
  internal_sorted n /\ Forall (fun c => is_u64 c) (children n).

Definition internal_needed (n : Internal) : Z :=
  HEADER_LEN + Z.of_nat (length (entries n)) * 2 + entries_size (entries n).

Lemma internal_fits_needed n ps : internal_fits n ps = (internal_needed n <=? body_capacity ps).
Proof.
  unfold internal_fits, internal_needed, entries_size, SEPARATOR_RECORD_OVERHEAD. do 2 f_equal.
  induction (entries n) as [|e es IH]; simpl; [done|]. rewrite IH. lia.
Qed.

Lemma internal_encode_too_large n body :
  blen body < internal_needed n -> internal_encode n body = Err PayloadTooLarge.
Proof.
  intros Hn. unfold internal_encode. rewrite (proj2 (Z.ltb_lt _ _)); [done|].
  unfold internal_needed, SLOT_DIRECTORY_ENTRY_SIZE in *. lia.
Qed.

(** The image [internal_encode] produces: records packed downwards from the end
    of the body, in order. *)
Definition internal_layout (n : Internal) (b : bytes) : Prop :=
  blen b <= U16_MAX /\ Forall (fun c => is_u64 c) (children n) /\ internal_needed n <= blen b /\
  read_header b = Ok (mkNodeHeader NodeKind.Internal (Z.of_nat (length (entries n))) 0 0
                        (leftmost_child n)) /\
  (forall j e, entries n !! j = Some e ->
     ent_off b 0 j = blen b - entries_size (take (S j) (entries n)) /\
     sub b (ent_off b 0 j) (blen (entry_bytes e)) = entry_bytes e).

Lemma entries_size_nonneg es : 0 <= entries_size es.
Proof. rewrite <-entries_size_packed. apply packed_size_nonneg. Qed.
Lemma entries_size_app es1 es2 : entries_size (es1 ++ es2) = entries_size es1 + entries_size es2.
Proof. induction es1 as [|e es1 IH]; simpl; [done|]. rewrite IH. lia. Qed.
Lemma entries_size_fmap es :
  entries_size es = foldr (fun k acc => blen k + SEPARATOR_RECORD_OVERHEAD + acc) 0 es.*1.
Proof. induction es as [|e es IH]; simpl; [done|]. by rewrite IH. Qed.
Lemma entries_size_take es j e :
  es !! j = Some e ->
  entries_size (take (S j) es) = entries_size (take j es) + blen (entry_bytes e) /\
  entries_size (take (S j) es) <= entries_size es.
Proof.
  intros Hj. rewrite (take_S_r _ _ _ Hj), entries_size_app, blen_entry_bytes. simpl. split; [lia|].
  rewrite <-(take_drop_middle es j e Hj) at 2. rewrite entries_size_app. simpl.
  pose proof (entries_size_nonneg (drop (S j) es)). lia.
Qed.
Lemma entries_size_take_lt es i j e :
  (i < j)%nat -> es !! j = Some e ->
  entries_size (take (S i) es) <= entries_size (take (S j) es) - blen (entry_bytes e).
Proof.
  intros Hij Hj. destruct (entries_size_take es j e Hj) as [-> _].
  assert (take (S i) es = take (S i) (take j es)) as -> by (rewrite take_take; f_equal; lia).
  pose proof (entries_size_nonneg (drop (S i) (take j es))) as Hd.
  rewrite <-(take_drop (S i) (take j es)) at 2. rewrite entries_size_app. lia.
Qed.

Lemma layout_entry n b j e :
  internal_layout n b -> entries n !! j = Some e ->
  HEADER_LEN + Z.of_nat (length (entries n)) * 2 <= ent_off b 0 j /\
  ent_off b 0 j + blen (entry_bytes e) <= blen b.
Proof.
  intros (_ & _ & Hn & _ & Hr) Hj. destruct (Hr j e Hj) as [-> _].
  destruct (entries_size_take _ _ _ Hj) as [H1 H2]. unfold internal_needed in Hn.
  pose proof (entries_size_nonneg (take j (entries n))). lia.
Qed.

Lemma layout_records n b :
  internal_layout n b ->
  forall j k c, entries n !! j = Some (k, c) ->
    let off := ent_off b 0 j in internal_record_in b off /\ key_at b off = k /\ child_at b off = c.
Proof.
  intros Hl j k c Hj. pose proof (layout_entry n b j (k, c) Hl Hj) as [Hlo Hhi].
  destruct Hl as (Hb & Hc & _ & _ & Hr). apply Forall_cons in Hc as [_ Hc].
  unfold U16_MAX, HEADER_LEN in *.
  apply entry_bytes_read; try done; [lia| | |by apply Hr].
  - rewrite Forall_fmap, Forall_lookup in Hc. exact (Hc j (k, c) Hj).
  - rewrite blen_entry_bytes in Hhi. unfold U16_MAX, SEPARATOR_RECORD_OVERHEAD in *. simpl in *. lia.
Qed.

Lemma layout_body_in n b :
  internal_layout n b ->
  let h := mkNodeHeader NodeKind.Internal (Z.of_nat (length (entries n))) 0 0 (leftmost_child n) in
  validate_node_body b = Ok h /\ body_in b h.
Proof.
  intros Hl h. pose proof Hl as (Hb & _ & Hn & Hh & _).
  pose proof (entries_size_nonneg (entries n)).
  assert (body_in b h) as Hin.
  { subst h. unfold body_in, U16_MAX, internal_needed, HEADER_LEN in *. simpl. split_and!; try lia. intros i Hi.
    destruct (lookup_lt_is_Some_2 (entries n) (Z.to_nat i)) as [[k v] Hj]; [lia|].
    destruct (layout_records n b Hl _ _ _ Hj) as [Hin _]. unfold ent_off in Hin.
    by rewrite Z2Nat.id in Hin by lia. }
  split; [|done]. apply validate_node_body_iff; unfold USIZE_MAX, U64_MAX, U16_MAX in *; (done || lia).
Qed.

Lemma layout_decode n b : internal_layout n b -> internal_decode b = Ok n.
Proof.
  intros Hl. destruct (layout_body_in n b Hl) as [Hv Hin].
  rewrite (internal_decode_ok b _ Hv Hin) by done. simpl. destruct n as [lm es]. simpl in *.
  do 2 f_equal. rewrite Nat2Z.id. apply list_eq. intros j. rewrite list_lookup_fmap.
  destruct (es !! j) as [[k c]|] eqn:Hj.
  - rewrite lookup_seq_lt by (by eapply lookup_lt_Some). simpl.
    by destruct (layout_records _ b Hl j k c Hj) as (_ & -> & ->).
  - rewrite lookup_seq_ge; [done|]. by apply lookup_ge_None in Hj.
Qed.

Lemma internal_encode_layout n body :
  Forall (fun c => is_u64 c) (children n) ->
  blen body <= U16_MAX -> internal_needed n <= blen body ->
  exists body', internal_encode n body = Ok body' /\ blen body' = blen body /\
    internal_layout n body'.
Proof.
  intros Hc Hb Hn. pose proof Hc as [Hlm _]%Forall_cons. pose proof Hn as Hn'.
  unfold internal_encode, internal_needed, SLOT_DIRECTORY_ENTRY_SIZE in *.
  rewrite (proj2 (Z.ltb_ge _ _)) by lia. rewrite <-entries_size_packed in Hn.
  pose proof (packed_size_nonneg entry_bytes (entries n)).
  unfold U16_MAX, HEADER_LEN in *. rewrite !try_u16_ok by lia.
  destruct (write_header_spec body NodeKind.Internal (Z.of_nat (length (entries n))) 0 0
    (leftmost_child n)) as (b1 & -> & L1 & Hh & _);
    [unfold HEADER_LEN; lia|lia|lia|lia|done|].
  destruct (copy_at_step (E:=PagedbError) b1 24 (zeros (blen body - 24))) as (b2 & -> & L2 & _ & D2);
    [lia|rewrite blen_zeros; lia|].
  destruct (pack_fold 0 entry_bytes _ (fun _ => True) (entries n) internal_packs) with
    (b := b2) (tail := blen body) (i := 0%nat) as (b4 & -> & L4 & D4 & R4);
    [by apply Forall_true|lia|unfold U16_MAX, HEADER_LEN; simpl; lia..|].
  assert (blen b4 = blen body) as L by lia.
  simpl. exists b4. split_and!; [done|done|]. unfold internal_layout, internal_needed, U16_MAX, HEADER_LEN.
  split_and!; [lia|done|lia| |].
  - rewrite <-Hh. apply read_header_ext; unfold HEADER_LEN; [lia..|].
    unfold HEADER_LEN in D4. rewrite D4, D2 by lia. done.
  - intros j e Hj. destruct (R4 j e Hj) as (? & _ & _ & Ho). unfold ent_off, HEADER_LEN in *.
    rewrite L, <-entries_size_packed. done.
Qed.

(** ** Repointing one child in place *)

Lemma entry_bytes_patch b b' off k c new :
  0 <= off -> off + blen (entry_bytes (k, c)) <= blen b -> blen b' = blen b ->
  sub b off (blen (entry_bytes (k, c))) = entry_bytes (k, c) ->
  sub b' (off + 2 + blen k) 8 = le64 new ->
  (forall o n, 0 <= o -> 0 <= n -> o + n <= off + 2 + blen k -> sub b' o n = sub b o n) ->
  sub b' off (blen (entry_bytes (k, new))) = entry_bytes (k, new).
Proof.
  intros Hoff Hin Hb' Hs Hn Hd. rewrite blen_entry_bytes in Hin.
  unfold SEPARATOR_RECORD_OVERHEAD in Hin. simpl in Hin. pose proof (blen_nonneg k).
  unfold entry_bytes in Hs. simpl in Hs.
  apply sub_app_inv in Hs as [Hlen Hs]; [|lia|autorewrite with blen; lia].
  rewrite blen_le16 in *. apply sub_app_inv in Hs as [Hk _]; [|lia|autorewrite with blen; lia].
  rewrite blen_entry_bytes. unfold SEPARATOR_RECORD_OVERHEAD, entry_bytes. simpl.
  replace (blen k + (2 + 8)) with (2 + (blen k + 8)) by lia.
  rewrite (sub_split _ _ 2), (sub_split _ _ (blen k)) by lia.
  by rewrite Hn, !Hd, Hlen, Hk by lia.
Qed.

Lemma layout_set_child n b j k c new :
  internal_layout n b -> entries n !! j = Some (k, c) -> is_u64 new ->
  exists b', write_u64_le b (ent_off b 0 j + 2 + blen k) new = Ok b' /\ blen b' = blen b /\
    internal_layout (mkInternal (leftmost_child n) (<[j := (k, new)]> (entries n))) b'.
Proof.
  intros Hl Hj Hnew. pose proof (layout_entry n b j _ Hl Hj) as [Hlo Hhi].
  pose proof Hl as (Hb & Hc & Hn & Hh & Hr). rewrite blen_entry_bytes in Hhi.
  unfold SEPARATOR_RECORD_OVERHEAD in Hhi. simpl in Hhi. pose proof (blen_nonneg k).
  pose proof (entries_size_take _ _ _ Hj) as [Hsz _]. rewrite blen_entry_bytes in Hsz.
  unfold write_u64_le, HEADER_LEN, SEPARATOR_RECORD_OVERHEAD in *. simpl in Hsz.
  destruct (copy_at_step (E:=PagedbError) b (ent_off b 0 j + 2 + blen k) (le64 new))
    as (b' & -> & L & S1 & D1); [lia|autorewrite with blen; lia|]. rewrite blen_le64 in *.
  assert (forall i, (i < length (entries n))%nat -> ent_off b' 0 i = ent_off b 0 i) as Hoff.
  { intros i Hi. unfold ent_off, HEADER_LEN. apply u16_at_eq, D1; lia. }
  assert (forall i, entries_size (take i (<[j:=(k, new)]> (entries n))) =
                    entries_size (take i (entries n))) as Hsame.
  { intros i. rewrite !entries_size_fmap, !fmap_take, list_fmap_insert. simpl.
    rewrite list_insert_id; [done|]. by rewrite list_lookup_fmap, Hj. }
  exists b'. split_and!; [done|done|]. unfold internal_layout, internal_needed, children.
  cbn [leftmost_child entries]. rewrite L, length_insert. split_and!; [done| | | |].
  - apply Forall_cons in Hc as [Hlm Hc]. constructor; [done|].
    rewrite list_fmap_insert. by apply Forall_insert.
  - rewrite <-(firstn_all (<[j:=_]> _)), Hsame, length_insert, firstn_all. done.
  - rewrite <-Hh. apply read_header_ext; unfold HEADER_LEN; [lia..|]. apply D1; lia.
  - intros i e Hi. pose proof (lookup_lt_Some _ _ _ Hi) as Hlt. rewrite length_insert in Hlt.
    rewrite Hsame, Hoff by done.
    destruct (decide (i = j)) as [->|Hij].
    + rewrite list_lookup_insert_eq in Hi by done. simplify_eq.
      destruct (Hr j _ Hj) as [Ho Hs]. split; [done|].
      apply (entry_bytes_patch b b' _ k c new); try done; [lia| |intros; apply D1; lia].
      rewrite blen_entry_bytes. unfold SEPARATOR_RECORD_OVERHEAD. simpl. lia.
    + rewrite list_lookup_insert_ne in Hi by done. destruct (Hr i e Hi) as [Ho Hs].
      split; [done|]. pose proof (layout_entry n b i _ Hl Hi) as [Hlo' Hhi']. unfold HEADER_LEN in *.
      pose proof (blen_nonneg (entry_bytes e)). rewrite D1; [done|lia|lia|].
      destruct (Hr j _ Hj) as [Hoj _].
      destruct (decide (i < j)%nat) as [Hlt'|Hge].
      * pose proof (entries_size_take_lt _ _ _ _ Hlt' Hj) as Hle. rewrite blen_entry_bytes in Hle.
        unfold SEPARATOR_RECORD_OVERHEAD in Hle. simpl in Hle. lia.
      * pose proof (entries_size_take_lt _ j i _ ltac:(lia) Hi) as Hle. lia.
Qed.

Lemma layout_set_leftmost n b new :
  internal_layout n b -> is_u64 new ->
  exists b', write_u64_le b OFF_DUAL_USE new = Ok b' /\ blen b' = blen b /\
    internal_layout (mkInternal new (entries n)) b'.
Proof.
  intros Hl Hnew. pose proof Hl as (Hb & Hc & Hn & Hh & Hr).
  destruct (write_dual_use_spec b _ new Hh Hnew) as (b' & -> & L & Hh' & D).
  exists b'. split_and!; [done|done|]. unfold internal_layout. simpl. rewrite L.
  split_and!; [done| |done|done|].
  - apply Forall_cons in Hc as [_ Hc]. by constructor.
  - intros j e Hj. pose proof (layout_entry n b j e Hl Hj) as [Hlo _]. pose proof (blen_nonneg (entry_bytes e)).
    assert (ent_off b' 0 j = ent_off b 0 j) as ->.
    { unfold ent_off. apply u16_at_eq, D; [unfold HEADER_LEN; lia|lia]. }
    rewrite D by (unfold HEADER_LEN in *; lia). by apply Hr.
Qed.

(** ** Insertion and split *)

Lemma internal_upsert_cases n k c :
  internal_sorted n ->
  exists es1 es2, Forall (fun k' => k' <ₖ k) es1.*1 /\ Forall (fun k' => k <ₖ k') es2.*1 /\
    internal_upsert n k c = mkInternal (leftmost_child n) (es1 ++ (k, c) :: es2) /\
    (entries n = es1 ++ es2 \/ exists c0, entries n = es1 ++ (k, c0) :: es2).
Proof.
  intros Hs. unfold internal_upsert.
  destruct (position_cases (entries n) k Hs)
    as [(v & l1 & l2 & Hl & H1 & H2 & ->)|(l1 & l2 & Hl & H1 & H2 & ->)];
    exists l1, l2; (split_and!; [done..| |eauto]); rewrite Hl; f_equal.
  - by rewrite alter_app_r_alt, Nat.sub_diag by lia.
  - by rewrite take_app_length, drop_app_length.
Qed.

Lemma Forall_lt_le k q (ks : list bytes) :
  Forall (fun k' => k' <ₖ k) ks -> k ≤ₖ q -> Forall (fun k' => k' ≤ₖ q) ks.
Proof.
  intros H Hkq. eapply Forall_impl; [exact H|]. intros k' Hk'.
  apply key_lt_le. exact (key_lt_le_trans _ _ _ Hk' Hkq).
Qed.

Lemma upsert_sorted n k c : internal_sorted n -> internal_sorted (internal_upsert n k c).
Proof.
  intros Hs. unfold internal_sorted in *.
  destruct (internal_upsert_cases n k c Hs) as (es1 & es2 & H1 & H2 & -> & [He|[c0 He]]);
    rewrite He in Hs; simpl; [by apply sorted_insert|by eapply sorted_replace].
Qed.

(** What a key routes to once a separator has been inserted. *)
Lemma route_insert lm es1 es2 k c q :
  Forall (fun k' => k' <ₖ k) es1.*1 -> Forall (fun k' => k <ₖ k') es2.*1 ->
  (q <ₖ k -> route lm (es1 ++ (k, c) :: es2) q = route lm es1 q) /\
  (k ≤ₖ q -> route lm (es1 ++ (k, c) :: es2) q = route c es2 q).
Proof.
  intros H1 H2. split; intros Hq.
  - revert lm. induction es1 as [|[k' c'] es1 IH]; intros lm; simpl.
    + by rewrite bytes_leb_gt.
    + apply Forall_cons in H1 as [_ H1]. by rewrite IH.
  - rewrite route_app by (by eapply Forall_lt_le). simpl.
    by apply bytes_leb_le in Hq as ->.
Qed.

Lemma internal_split_ok n :
  entries n <> [] ->
  exists es1 k c es2, entries n = es1 ++ (k, c) :: es2 /\
    length es1 = (length (entries n) / 2)%nat /\
    internal_split n = Ok (mkInternal (leftmost_child n) es1, mkInternal c es2, k).
Proof.
  intros Hne. unfold internal_split. set (mid := (length (entries n) / 2)%nat).
  assert (mid < length (entries n))%nat as Hmid.
  { subst mid. apply Nat.div_lt; [|lia]. destruct (entries n); simpl; [done|lia]. }
  destruct (drop mid (entries n)) as [|[k c] es2] eqn:Hd.
  { apply (f_equal length) in Hd. rewrite length_drop in Hd. simpl in Hd. lia. }
  exists (take mid (entries n)), k, c, es2. split_and!; [|by rewrite length_take_le by lia|done].
  by rewrite <-Hd, take_drop.
Qed.

(** ** Properties *)

(** C18: encoding a branch node succeeds exactly when [fits] holds, and then the
    body decodes to the same node and the accessor opened on it routes every
    key to the child right of the last separator not above it; otherwise the
    encoder returns [PayloadTooLarge]. *)
Theorem internal_encode_decode (n : Internal) (page_size : Z) (body : bytes) :
  internal_wf n -> blen body = body_capacity page_size -> blen body <= U16_MAX ->
  if internal_fits n page_size
  then exists body' a, internal_encode n body = Ok body' /\ blen body' = blen body /\
         internal_decode body' = Ok n /\ internal_from_guard body' false = (Ok a, true) /\
         forall q, child_for a q = Ok (child_of n q)
  else internal_encode n body = Err PayloadTooLarge.
Proof.
  intros [Hs Hc] Hb Hmax. rewrite internal_fits_needed, <-Hb.
  destruct (Z.leb_spec (internal_needed n) (blen body)).
  2: by apply internal_encode_too_large.
  destruct (internal_encode_layout n body) as (b & He & Hl & Hlay); [done..|].
  assert (blen b <= USIZE_MAX) as Hb' by (unfold U16_MAX, USIZE_MAX, U64_MAX in *; lia).
  pose proof (layout_decode n b Hlay) as Hd. destruct (layout_body_in n b Hlay) as [Hv _].
  exists b. eexists. split_and!; [done..| |].
  - unfold internal_from_guard, validate_node_body_memoised. rewrite Hv. done.
  - intros q. by apply (child_for_ok b _ n q Hb' Hd Hs Hv).
Qed.

Definition sample_internal : Internal :=
  mkInternal 10 [([Byte.x62], 11); ([Byte.x62; Byte.x63], 12); ([Byte.x64], 13)].

Lemma internal_encode_decode_witness :
  internal_fits sample_internal 140 = true /\
  exists body' a, internal_encode sample_internal (zeros 100) = Ok body' /\
    internal_from_guard body' false = (Ok a, true) /\ child_for a [Byte.x63] = Ok 12.
Proof.
  split; [reflexivity|].
  destruct (internal_encode_decode sample_internal 140 (zeros 100)) as (b & a & He & _ & _ & Ha & Hc).
  - split; [unfold internal_sorted; simpl; repeat constructor|].
    repeat constructor; simpl; lia.
  - reflexivity.
  - vm_compute. discriminate.
  - exists b, a. split; [exact He|]. split; [exact Ha|]. rewrite Hc. reflexivity.
Defined.

(** C28: splitting a branch node promotes a separator such that routing through
    the two halves on either side of it is routing through the original node,
    and no child is lost, duplicated or reordered. *)
Theorem internal_split_routes (n : Internal) :
  internal_sorted n -> entries n <> [] ->
  exists l r k, internal_split n = Ok (l, r, k) /\
    internal_sorted l /\ internal_sorted r /\ children n = children l ++ children r /\
    Forall (fun k' => k' <ₖ k) (entries l).*1 /\ Forall (fun k' => k <ₖ k') (entries r).*1 /\
    forall q, child_of n q = if bytes_leb k q then child_of r q else child_of l q.
Proof.
  intros Hs Hne. destruct (internal_split_ok n Hne) as (es1 & k & c & es2 & He & _ & ->).
  eexists _, _, _. split; [done|]. unfold internal_sorted, child_of, children in *. simpl.
  rewrite He in *. rewrite fmap_app in Hs. apply sorted_app in Hs as (Hs1 & Hs2 & H12).
  apply StronglySorted_inv in Hs2 as [Hs2 Hk2].
  assert (Forall (fun k' => k' <ₖ k) es1.*1) as Hk1.
  { apply Forall_forall. intros k' Hk'. apply H12; [done|]. simpl. by left. }
  split_and!; try done; [by rewrite fmap_app|].
  intros q. destruct (route_insert (leftmost_child n) es1 es2 k c q Hk1 Hk2) as [Hlt Hge].
  destruct (bytes_leb k q) eqn:Hq.
  - apply Hge. by apply bytes_leb_le.
  - apply Hlt. apply key_nle_lt. rewrite <-bytes_leb_le. by rewrite Hq.
Qed.

Lemma internal_split_routes_witness :
  exists l r k, internal_split sample_internal = Ok (l, r, k) /\
    forall q, child_of sample_internal q = if bytes_leb k q then child_of r q else child_of l q.
Proof.
  destruct (internal_split_routes sample_internal) as (l & r & k & Hs & _ & _ & _ & _ & _ & Hq).
  - unfold internal_sorted. simpl. repeat constructor.
  - discriminate.
  - exists l, r, k. split; [exact Hs|exact Hq].
Defined.
