(* ===== verification/Split.v ===== *)
(** * Split: the leaf split policy

    [src/src/btree/split.rs]. The split point starts at a guess (half, or nine
    tenths for appends) and walks one record at a time until both halves fit.
    The walk terminates when some split point lets both halves fit, which the
    size of the records decides; without it the walk can go back and forth
    forever. [split_internal] is [internal_split]. *)

From S2P Require Import Prelude Keys Errors PageFormat Node Leaf Internal.
From Stdlib Require Import ZArith Lia.
From stdpp Require Import base list strings gmap sorting.

Local Open Scope Z_scope.
Local Open Scope pagedb_scope.

(** ** The loop *)

(** [x.min(total - 1).max(1)] *)
Definition clamp (total x : nat) : nat := Nat.max (Nat.min x (total - 1)) 1.

Definition split_guess (total : nat) (monotonic : bool) : nat :=
  if monotonic then clamp total (total * 9 / 10) else (total / 2)%nat.

(** One iteration, with the two fit checks as functions of the split point:
    [inl] continues, [inr] breaks. *)
Definition split_step (left_fits right_fits : nat -> bool) (total split_at : nat) : nat + nat :=
  let split_at := clamp total split_at in
  if left_fits split_at && right_fits split_at then inr split_at
  else if negb (left_fits split_at) && (1 <? split_at)%nat then inl (split_at - 1)%nat
  else if negb (right_fits split_at) && (split_at <? total - 1)%nat then inl (split_at + 1)%nat
  else inr split_at.

(** [None]: still running after [fuel] iterations. *)
Fixpoint split_loop (fuel : nat) (left_fits right_fits : nat -> bool) (total split_at : nat)
  : option nat :=
  match fuel with
  | O => None
  | S fuel =>
      match split_step left_fits right_fits total split_at with
      | inl s => split_loop fuel left_fits right_fits total s
      | inr s => Some s
      end
  end.

(** Panics on an empty leaf ([total - 1]) and on a leaf whose right half is
    empty ([right_records[0]]). *)
Definition split_leaf (fuel : nat) (leaf : Leaf) (monotonic : bool) (page_size : Z)
  : option (result (Leaf * Leaf * bytes)) :=
  let recs := records leaf in
  let total := length recs in
  match total with
  | O => Some Panic
  | _ =>
      split_at ← split_loop fuel (fun s => slice_fits (take s recs) page_size)
                   (fun s => slice_fits (drop s recs) page_size)
                   total (split_guess total monotonic);
      Some (match drop split_at recs with
            | [] => Panic
            | (sep_key, v) :: rest =>
                Ok (mkLeaf (leaf_left_sibling leaf) 0 (take split_at recs),
                    mkLeaf 0 0 ((sep_key, v) :: rest), sep_key)
            end)
  end.

Definition split_internal (n : Internal) : result (Internal * Internal * bytes) :=
  internal_split n.

(** ** Termination *)

Section loop.
Context (fl fr : nat -> bool) (total s0 : nat).
Context (Hs0 : (1 <= s0 <= total - 1)%nat).
Context (Hfl : forall s, (1 <= s <= s0)%nat -> fl s = true).
Context (Hfr : forall s, (s0 <= s <= total - 1)%nat -> fr s = true).

Lemma clamp_in s : (1 <= clamp total s <= total - 1)%nat.
Proof. unfold clamp. lia. Qed.

(** Each iteration that does not stop moves towards [s0]. *)
Lemma split_loop_ok fuel s :
  ((s0 - clamp total s) + (clamp total s - s0) < fuel)%nat ->
  exists s', split_loop fuel fl fr total s = Some s' /\
    (1 <= s' <= total - 1)%nat /\ fl s' = true /\ fr s' = true.
Proof.
  revert s. induction fuel as [|fuel IH]; intros s Hf; [lia|].
  pose proof (clamp_in s) as Hc. simpl. unfold split_step.
  set (c := clamp total s) in *.
  assert (forall x, (1 <= x <= total - 1)%nat -> clamp total x = x) as Hid
    by (intros; unfold clamp; lia).
  destruct (fl c) eqn:Hl, (fr c) eqn:Hr; simpl.
  - by exists c.
  - assert (c < s0)%nat by (destruct (decide (c < s0)%nat); [done|rewrite Hfr in Hr by lia; done]).
    rewrite (proj2 (Nat.ltb_lt c (total - 1))) by lia. apply IH. rewrite Hid by lia. lia.
  - assert (s0 < c)%nat by (destruct (decide (s0 < c)%nat); [done|rewrite Hfl in Hl by lia; done]).
    rewrite (proj2 (Nat.ltb_lt 1 c)) by lia. apply IH. rewrite Hid by lia. lia.
  - assert (s0 < c)%nat by (destruct (decide (s0 < c)%nat); [done|rewrite Hfl in Hl by lia; done]).
    rewrite (proj2 (Nat.ltb_lt 1 c)) by lia. apply IH. rewrite Hid by lia. lia.
Qed.
End loop.

(** ** Sizes of slices *)

(** The encoded size of records under a given shared prefix length. *)
Definition needed_at (pl : Z) (rs : list leaf_record) : Z :=
  HEADER_LEN + pl + Z.of_nat (length rs) * 2 + records_size pl rs.

Definition keys_ge (pl : Z) (rs : list leaf_record) : Prop :=
  Forall (fun r : leaf_record => pl <= blen r.1) rs.

Lemma records_size_app pl rs1 rs2 :
  records_size pl (rs1 ++ rs2) = records_size pl rs1 + records_size pl rs2.
Proof. induction rs1 as [|r rs1 IH]; simpl; [done|]. rewrite IH. lia. Qed.

Lemma records_size_nonneg pl rs : 0 <= records_size pl rs.
Proof.
  induction rs as [|r rs IH]; simpl; [done|].
  assert (0 <= encoded_size r.2) by (rewrite <-blen_value_bytes; apply blen_nonneg).
  unfold record_size, saturating_sub. lia.
Qed.

(** A longer shared prefix never costs more. *)
Lemma records_size_prefix pl pl' rs :
  0 <= pl <= pl' -> keys_ge pl' rs ->
  records_size pl rs = records_size pl' rs + Z.of_nat (length rs) * (pl' - pl).
Proof.
  intros Hpl. induction 1 as [|r rs Hr _ IH]; cbn [length records_size foldr]; [lia|].
  fold (records_size pl rs). fold (records_size pl' rs). rewrite IH.
  unfold record_size, saturating_sub. nia.
Qed.
Lemma needed_at_prefix pl pl' rs :
  0 <= pl <= pl' -> keys_ge pl' rs -> rs <> [] -> needed_at pl' rs <= needed_at pl rs.
Proof.
  intros Hpl Hk Hne. unfold needed_at. rewrite (records_size_prefix pl pl' rs) by done.
  assert (1 <= Z.of_nat (length rs)) by (destruct rs; simpl; [done|lia]). nia.
Qed.

Lemma common_len_ge x y n :
  (n <= length x)%nat -> (n <= length y)%nat -> take n x = take n y -> (n <= common_len x y)%nat.
Proof.
  revert x y. induction n as [|n IH]; intros [|a x] [|b y]; simpl; intros Hx Hy Ht; try lia.
  injection Ht as -> Ht. rewrite decide_True by done.
  assert (n <= common_len x y)%nat by (apply IH; [lia..|done]). lia.
Qed.

(** A slice of a sorted leaf shares at least the prefix the leaf shares. *)
Lemma lcp_len_slice rs1 m rs2 :
  keys_sorted (rs1 ++ m ++ rs2).*1 -> m <> [] ->
  lcp_len (rs1 ++ m ++ rs2) <= lcp_len m.
Proof.
  intros Hs Hne. destruct (lcp_spec _ Hs) as (p & _ & Hp & Hall).
  set (pl := lcp_len (rs1 ++ m ++ rs2)) in *.
  assert (0 <= pl) by apply lcp_len_nonneg.
  assert (forall r, r ∈ m -> pl <= blen r.1 /\ sub r.1 0 pl = p) as Hm.
  { intros r Hr. rewrite Forall_forall in Hall. apply Hall.
    apply elem_of_app; right. by apply elem_of_app; left. }
  destruct m as [|[a va] [|r m]]; [done|apply (Hm (a, va)); by left|].
  destruct (last (r :: m)) as [[b vb]|] eqn:Hl; [|by apply last_None in Hl].
  assert (lcp_len ((a, va) :: r :: m) = Z.of_nat (common_len a b)) as ->
    by (unfold lcp_len; by rewrite Hl).
  destruct (Hm (a, va)) as [Ha Ha']; [by left|].
  destruct (Hm (b, vb)) as [Hb Hb']; [right; by apply last_Some_elem_of|].
  unfold sub, blen in *. simpl in *.
  assert (Z.to_nat pl <= common_len a b)%nat; [|lia].
  apply common_len_ge; [lia..|]. by transitivity p.
Qed.

Lemma lcp_len_keys rs : keys_sorted rs.*1 -> keys_ge (lcp_len rs) rs.
Proof.
  intros Hs. destruct (lcp_spec _ Hs) as (p & _ & _ & Hall).
  eapply Forall_impl; [exact Hall|]. by intros r [? _].
Qed.

Lemma sorted_slice (rs1 m rs2 : list leaf_record) :
  keys_sorted (rs1 ++ m ++ rs2).*1 -> keys_sorted m.*1.
Proof. rewrite !fmap_app, !sorted_app. naive_solver. Qed.

(** A slice costs at most what its records cost under the whole leaf's prefix. *)
Lemma leaf_needed_slice rs1 m rs2 :
  keys_sorted (rs1 ++ m ++ rs2).*1 -> m <> [] ->
  leaf_needed m <= needed_at (lcp_len (rs1 ++ m ++ rs2)) m.
Proof.
  intros Hs Hne. change (leaf_needed m) with (needed_at (lcp_len m) m).
  apply needed_at_prefix; [|by eapply lcp_len_keys, sorted_slice|done].
  split; [apply lcp_len_nonneg|by apply lcp_len_slice].
Qed.

Lemma leaf_needed_mono rs1 m rs2 :
  keys_sorted (rs1 ++ m ++ rs2).*1 -> m <> [] -> leaf_needed m <= leaf_needed (rs1 ++ m ++ rs2).
Proof.
  intros Hs Hne. etrans; [by apply leaf_needed_slice|].
  change (leaf_needed (rs1 ++ m ++ rs2)) with (needed_at (lcp_len (rs1 ++ m ++ rs2)) (rs1 ++ m ++ rs2)).
  unfold needed_at. rewrite !records_size_app, !length_app.
  pose proof (records_size_nonneg (lcp_len (rs1 ++ m ++ rs2)) rs1).
  pose proof (records_size_nonneg (lcp_len (rs1 ++ m ++ rs2)) rs2). lia.
Qed.

Lemma slice_fits_mono ps rs1 m rs2 :
  keys_sorted (rs1 ++ m ++ rs2).*1 -> m <> [] ->
  slice_fits (rs1 ++ m ++ rs2) ps = true -> slice_fits m ps = true.
Proof.
  unfold slice_fits. rewrite !Z.leb_le. intros ? ? ?. etrans; [by apply leaf_needed_mono|done].
Qed.

Lemma fits_take ps (rs : list leaf_record) s s0 :
  keys_sorted rs.*1 -> rs <> [] -> (1 <= s <= s0)%nat ->
  slice_fits (take s0 rs) ps = true -> slice_fits (take s rs) ps = true.
Proof.
  intros Hs Hne Hle Hf. replace (take s rs) with (take s (take s0 rs))
    by (rewrite take_take; f_equal; lia).
  apply (slice_fits_mono ps [] _ (drop s (take s0 rs))); simpl; rewrite ?take_drop; [|..|done].
  - rewrite fmap_take. by apply sorted_take.
  - destruct s, s0, rs; simpl; (done || lia).
Qed.
Lemma fits_drop ps (rs : list leaf_record) s s0 :
  keys_sorted rs.*1 -> (s0 <= s < length rs)%nat ->
  slice_fits (drop s0 rs) ps = true -> slice_fits (drop s rs) ps = true.
Proof.
  intros Hs Hle Hf. replace (drop s rs) with (drop (s - s0) (drop s0 rs))
    by (rewrite drop_drop; f_equal; lia).
  apply (slice_fits_mono ps (take (s - s0) (drop s0 rs)) _ []); rewrite ?app_nil_r, ?take_drop; [|..|done].
  - rewrite fmap_drop. by apply sorted_drop.
  - intros Heq%(f_equal length). rewrite !length_drop in Heq. simpl in Heq. lia.
Qed.

(** ** The split of a leaf that has a feasible split point *)

Lemma split_leaf_feasible fuel l mono ps s0 :
  leaf_sorted l -> (1 <= s0 < length (records l))%nat ->
  slice_fits (take s0 (records l)) ps = true -> slice_fits (drop s0 (records l)) ps = true ->
  (length (records l) <= fuel)%nat ->
  exists left right k, split_leaf fuel l mono ps = Some (Ok (left, right, k)) /\
    records l = records left ++ records right /\
    records left <> [] /\ (exists v rest, records right = (k, v) :: rest) /\
    leaf_fits left ps = true /\ leaf_fits right ps = true /\
    leaf_left_sibling left = leaf_left_sibling l /\ leaf_right_sibling left = 0 /\
    leaf_left_sibling right = 0 /\ leaf_right_sibling right = 0.
Proof.
  unfold leaf_sorted, split_leaf, leaf_fits. cbv zeta. intros Hs Hs0 Hfl Hfr Hfuel.
  set (rs := records l) in *. assert (rs <> []) by (intros ->; simpl in *; lia).
  destruct (split_loop_ok (fun s => slice_fits (take s rs) ps) (fun s => slice_fits (drop s rs) ps)
    (length rs) s0) with (fuel := fuel) (s := split_guess (length rs) mono)
    as (s & -> & Hin & Hl & Hr).
  - lia.
  - intros s Hle. by apply (fits_take ps rs s s0).
  - intros s Hle. apply (fits_drop ps rs s s0); [done|lia|done].
  - pose proof (clamp_in (length rs) s0 ltac:(lia) (split_guess (length rs) mono)). lia.
  - destruct (drop s rs) as [|[k v] rest] eqn:Hd.
    { apply (f_equal length) in Hd. rewrite length_drop in Hd. simpl in Hd. lia. }
    destruct (length rs) eqn:Hlen; [lia|]. simpl. rewrite Hd. eexists _, _, _. split; [done|]. simpl.
    split_and!; try done; [by rewrite <-Hd, take_drop| |eauto].
    destruct s, rs; simpl; (done || lia).
Qed.

(** ** When a feasible split point exists *)

(** The bytes a record takes without prefix compression, slot excluded. *)
Definition raw_size (r : leaf_record) : Z := 2 + blen r.1 + encoded_size r.2.

Lemma record_size_raw pl r : 0 <= pl <= blen r.1 -> record_size pl r = raw_size r - pl.
Proof. intros. unfold record_size, raw_size, saturating_sub. lia. Qed.

(** Two overlapping slices cost one more header, prefix and record. *)
Lemma overlap_size rs1 x rs2 :
  keys_sorted (rs1 ++ x :: rs2).*1 ->
  leaf_needed (rs1 ++ [x]) + leaf_needed (x :: rs2) <=
    leaf_needed (rs1 ++ x :: rs2) + HEADER_LEN + 2 + raw_size x.
Proof.
  intros Hs. set (pl := lcp_len (rs1 ++ x :: rs2)).
  assert (leaf_needed (rs1 ++ [x]) <= needed_at pl (rs1 ++ [x])) as H1.
  { pose proof (leaf_needed_slice [] (rs1 ++ [x]) rs2) as Hl. simpl in Hl.
    rewrite <-app_assoc in Hl. apply Hl; [done|]. by destruct rs1. }
  assert (leaf_needed (x :: rs2) <= needed_at pl (x :: rs2)) as H2.
  { pose proof (leaf_needed_slice rs1 (x :: rs2) []) as Hl. rewrite app_nil_r in Hl. by apply Hl. }
  change (leaf_needed (rs1 ++ x :: rs2)) with (needed_at pl (rs1 ++ x :: rs2)).
  assert (record_size pl x = raw_size x - pl) as Hx.
  { apply record_size_raw. split; [apply lcp_len_nonneg|].
    pose proof (lcp_len_keys _ Hs) as Hk. unfold keys_ge in Hk. rewrite Forall_forall in Hk.
    apply Hk. set_solver. }
  unfold needed_at in *. rewrite !records_size_app, !length_app in *. simpl in *. lia.
Qed.

Lemma feasible_of_sum ps rs :
  let cap := body_capacity ps in
  keys_sorted rs.*1 -> (2 <= length rs)%nat ->
  Forall (fun r => slice_fits [r] ps = true) rs ->
  Forall (fun r => leaf_needed rs + HEADER_LEN + 2 + raw_size r <= 2 * cap + 1) rs ->
  exists s0, (1 <= s0 < length rs)%nat /\
    slice_fits (take s0 rs) ps = true /\ slice_fits (drop s0 rs) ps = true.
Proof.
  intros cap Hs Hlen H1 Hsum.
  assert (forall d s, (s + d = length rs - 1)%nat -> (1 <= s)%nat ->
            slice_fits (take s rs) ps = true ->
            exists s0, (1 <= s0 < length rs)%nat /\
              slice_fits (take s0 rs) ps = true /\ slice_fits (drop s0 rs) ps = true) as Hgo.
  { induction d as [|d IH]; intros s Hd Hs1 Hl;
      (destruct (slice_fits (drop s rs) ps) eqn:Hr; [exists s; split_and!; (done || lia)|]);
      (destruct (lookup_lt_is_Some_2 rs s) as [x Hx]; [lia|]);
      pose proof (drop_S _ _ _ Hx) as HdS; rewrite HdS in Hr.
    - rewrite (drop_ge rs (S s)) in Hr by lia. rewrite Forall_lookup in H1.
      by rewrite (H1 _ _ Hx) in Hr.
    - apply (IH (S s)); [lia..|]. rewrite (take_S_r _ _ _ Hx).
      destruct (slice_fits (take s rs ++ [x]) ps) eqn:Hl'; [done|]. exfalso.
      unfold slice_fits in Hl', Hr. fold cap in Hl', Hr. propify.
      assert (rs = take s rs ++ x :: drop (S s) rs) as Heq by (by rewrite <-HdS, take_drop).
      pose proof (overlap_size (take s rs) x (drop (S s) rs)) as Ho. rewrite <-Heq in Ho.
      specialize (Ho Hs). rewrite Forall_lookup in Hsum. specialize (Hsum _ _ Hx).
      simpl in Hsum. lia. }
  apply (Hgo (length rs - 2)%nat 1%nat); [lia..|].
  destruct rs as [|r rs]; [simpl in Hlen; lia|]. apply Forall_cons in H1 as [H1 _]. done.
Qed.

(** Inserting in the middle, or replacing a value, leaves the shared prefix. *)
Lemma lcp_len_inner a m1 m2 b k v :
  lcp_len (a :: m1 ++ (k, v) :: m2 ++ [b]) = lcp_len (a :: m1 ++ m2 ++ [b]).
Proof.
  destruct a as [ka va], b as [kb vb]. unfold lcp_len.
  assert (forall l, last (l ++ [(kb, vb)]) = Some (kb, vb)) as Hl by (intros; apply last_snoc).
  replace (m1 ++ (k, v) :: m2 ++ [(kb, vb)]) with ((m1 ++ (k, v) :: m2) ++ [(kb, vb)])
    by (by rewrite <-app_assoc).
  rewrite !Hl. rewrite (app_assoc m1 m2), Hl.
  destruct (m1 ++ (k, v) :: m2), (m1 ++ m2); done.
Qed.

Lemma lcp_len_fst (rs rs' : list leaf_record) : rs.*1 = rs'.*1 -> lcp_len rs = lcp_len rs'.
Proof.
  assert (forall l : list leaf_record, lcp_len l =
    match l.*1 with
    | [] => 0
    | [k] => blen k
    | k :: ks => match last ks with Some k' => Z.of_nat (common_len k k') | None => 0 end
    end) as Hk; [|by intros Heq; rewrite !Hk, Heq].
  intros [|[a va] [|r l]]; try done. cbn [fmap list_fmap].
  change (r.1 :: l.*1) with ((r :: l).*1). rewrite fmap_last. unfold lcp_len.
  by destruct (last (r :: l)) as [[]|].
Qed.

Lemma raw_size_pos r : 0 <= raw_size r.
Proof.
  assert (0 <= encoded_size r.2) by (rewrite <-blen_value_bytes; apply blen_nonneg).
  pose proof (blen_nonneg r.1). unfold raw_size. lia.
Qed.

Lemma record_size_bounds pl r : 0 <= pl -> 0 <= record_size pl r <= raw_size r.
Proof.
  intros. assert (0 <= encoded_size r.2) by (rewrite <-blen_value_bytes; apply blen_nonneg).
  pose proof (blen_nonneg r.1). unfold record_size, raw_size, saturating_sub. lia.
Qed.

(** Adding or replacing one record of a leaf, neither before nor after all
    others, costs at most that record. *)
Lemma needed_replace rs1 rs2 k v w :
  leaf_needed (rs1 ++ (k, v) :: rs2) <= leaf_needed (rs1 ++ (k, w) :: rs2) + raw_size (k, v).
Proof.
  unfold leaf_needed. rewrite (lcp_len_fst (rs1 ++ (k, w) :: rs2) (rs1 ++ (k, v) :: rs2))
    by (by rewrite !fmap_app).
  set (pl := lcp_len _). rewrite !records_size_app, !length_app. simpl.
  pose proof (record_size_bounds pl (k, v) (lcp_len_nonneg _)).
  pose proof (record_size_bounds pl (k, w) (lcp_len_nonneg _)). lia.
Qed.
Lemma needed_insert rs1 rs2 k v :
  rs1 <> [] -> rs2 <> [] ->
  leaf_needed (rs1 ++ (k, v) :: rs2) <= leaf_needed (rs1 ++ rs2) + 2 + raw_size (k, v).
Proof.
  intros H1 H2. destruct rs1 as [|a m1]; [done|].
  destruct rs2 as [|b m2 _] using rev_ind; [done|].
  unfold leaf_needed. simpl app. rewrite lcp_len_inner. set (pl := lcp_len _).
  pose proof (record_size_bounds pl (k, v) (lcp_len_nonneg _)).
  simpl. rewrite !length_app. simpl. rewrite !records_size_app. simpl.
  rewrite !records_size_app, !length_app. simpl. lia.
Qed.

(** Splitting an overfull leaf right after an [upsert]: with records that leave
    room for one another, some split point lets both halves fit. *)
Lemma upsert_feasible l q v ps :
  let l' := (leaf_upsert l q v).1 in let cap := body_capacity ps in
  leaf_sorted l -> leaf_fits l ps = true -> leaf_fits l' ps = false ->
  slice_fits [(q, v)] ps = true ->
  Forall (fun r => raw_size (q, v) + raw_size r + 28 <= cap) (records l') ->
  leaf_sorted l' /\
  exists s0, (1 <= s0 < length (records l'))%nat /\
    slice_fits (take s0 (records l')) ps = true /\ slice_fits (drop s0 (records l')) ps = true.
Proof.
  intros l' cap Hs Hold Hnew H1 Hroom.
  assert (leaf_sorted l') as Hs'.
  { destruct (leaf_upsert l q v) as [l2 [n o]] eqn:Hu.
    by destruct (leaf_upsert_spec l q v l2 n o Hs Hu). }
  split; [done|].
  destruct (leaf_upsert_records l q v Hs) as (l1 & l2 & Hl' & _ & _ & Hl).
  fold l' in Hl'. unfold leaf_fits, leaf_sorted in *. rewrite Hl' in *.
  assert (Forall (fun r => slice_fits [r] ps = true) (l1 ++ l2)) as Hall.
  { apply Forall_forall. intros r Hr.
    assert (r ∈ records l) as (m1 & m2 & Hm)%list_elem_of_split
      by (destruct Hl as [->|[w ->]]; set_solver).
    apply (slice_fits_mono ps m1 [r] m2); [|done|]; simpl; by rewrite <-Hm. }
  assert (leaf_needed (l1 ++ (q, v) :: l2) <= leaf_needed (records l) + 2 + raw_size (q, v) ->
          (2 <= length (l1 ++ (q, v) :: l2))%nat ->
          exists s0, (1 <= s0 < length (l1 ++ (q, v) :: l2))%nat /\
            slice_fits (take s0 (l1 ++ (q, v) :: l2)) ps = true /\
            slice_fits (drop s0 (l1 ++ (q, v) :: l2)) ps = true) as Hsum.
  { intros Hle Hlen. apply feasible_of_sum; try done.
    - apply Forall_app in Hall as [? ?]. apply Forall_app. split; [done|]. by constructor.
    - unfold slice_fits in Hold. propify. fold cap in Hold |- *.
      eapply Forall_impl; [exact Hroom|]. simpl. unfold HEADER_LEN. lia. }
  destruct Hl as [Hl|[w Hl]]; rewrite Hl in *.
  - destruct (decide (l1 = [])) as [->|Hn1].
    { exists 1%nat. simpl in *. destruct l2; [by rewrite H1 in Hnew|].
      split_and!; simpl; (done || lia). }
    destruct (decide (l2 = [])) as [->|Hn2].
    { exists (length l1). rewrite take_app_length, drop_app_length, length_app.
      rewrite app_nil_r in Hold. simpl. split_and!; try done; [|lia].
      destruct l1; simpl; (done || lia). }
    apply Hsum; [by apply needed_insert|]. rewrite length_app. simpl.
    destruct l1; simpl; (done || lia).
  - apply Hsum; [pose proof (needed_replace l1 l2 q v w); lia|].
    rewrite length_app. simpl. destruct l1, l2; simpl in *; try lia.
    by rewrite H1 in Hnew.
Qed.

(** ** Properties *)

(** C26: when an [upsert] overfills a leaf that fitted, and the new record and
    every other record of the leaf fit on a page together, the split loop
    terminates within one iteration per record, whatever the initial bias, and
    returns two non-empty leaves that both fit, whose concatenation is the
    leaf, with the first key of the right half as separator. *)
Theorem split_leaf_after_upsert (l : Leaf) (q : bytes) (v : LeafValue) (mono : bool)
    (ps : Z) (fuel : nat) :
  let l' := (leaf_upsert l q v).1 in
  leaf_sorted l -> leaf_fits l ps = true -> leaf_fits l' ps = false ->
  ps <= U16_MAX + ENVELOPE_OVERHEAD ->
  single_record_fits_encoded (blen q) (encoded_size v) ps = true ->
  Forall (fun r => raw_size (q, v) + raw_size r + 28 <= body_capacity ps) (records l') ->
  (length (records l') <= fuel)%nat ->
  exists left right k, split_leaf fuel l' mono ps = Some (Ok (left, right, k)) /\
    records l' = records left ++ records right /\ records left <> [] /\
    (exists v rest, records right = (k, v) :: rest) /\
    leaf_fits left ps = true /\ leaf_fits right ps = true.
Proof.
  intros l' Hs Hold Hnew Hps H1 Hroom Hfuel.
  rewrite (single_record_fits_exact q v ps 0 0) in H1 by done.
  destruct (upsert_feasible l q v ps Hs Hold Hnew H1 Hroom) as (Hs' & s0 & Hin & Hl & Hr).
  destruct (split_leaf_feasible fuel l' mono ps s0 Hs' Hin Hl Hr Hfuel)
    as (left & right & k & ? & ? & ? & ? & ? & ? & _).
  by exists left, right, k.
Qed.

(** Four records of about a third of a 256-byte page each, the last one new. *)
Definition thirds : Leaf :=
  mkLeaf 0 0 [([Byte.x61], Inline (zeros 60)); ([Byte.x63], Inline (zeros 60))].

Lemma split_leaf_after_upsert_witness :
  let l' := (leaf_upsert thirds [Byte.x62] (Inline (zeros 60))).1 in
  leaf_fits l' 256 = false /\
  exists left right k, split_leaf 3 l' false 256 = Some (Ok (left, right, k)) /\
    leaf_fits left 256 = true /\ leaf_fits right 256 = true.
Proof.
  split; [vm_compute; reflexivity|].
  destruct (split_leaf_after_upsert thirds [Byte.x62] (Inline (zeros 60)) false 256 3)
    as (left & right & k & Hs & _ & _ & _ & Hl & Hr).
  - unfold leaf_sorted. simpl. repeat constructor.
  - vm_compute. reflexivity.
  - vm_compute. reflexivity.
  - vm_compute. discriminate.
  - vm_compute. reflexivity.
  - repeat constructor; vm_compute; discriminate.
  - vm_compute. lia.
  - exists left, right, k. split; [exact Hs|]. split; [exact Hl|exact Hr].
Defined.

(** A leaf of two records with keys of 1801 bytes, and a key of 3801 bytes that
    sorts between them. *)
Definition wide_leaf : Leaf :=
  mkLeaf 0 0 [(Byte.x61 :: zeros 1800, Inline []); (Byte.x63 :: zeros 1800, Inline [])].
Definition wide_key : bytes := Byte.x62 :: zeros 3800.

Lemma wide_steps :
  let rs := records (leaf_upsert wide_leaf wide_key (Inline [])).1 in
  let step := split_step (fun s => slice_fits (take s rs) 4096)
                (fun s => slice_fits (drop s rs) 4096) 3 in
  step 1%nat = inl 2%nat /\ step 2%nat = inl 1%nat.
Proof. vm_compute. split; reflexivity. Qed.

(** C35: records that pass every check made before insertion can make the split
    loop run forever: on a 4096-byte page the leaf fits, the new key passes the
    single-record and separator checks, and the split of the resulting leaf
    never returns, whatever the number of iterations. *)
Theorem split_leaf_can_diverge :
  let l' := (leaf_upsert wide_leaf wide_key (Inline [])).1 in
  leaf_sorted wide_leaf /\ leaf_fits wide_leaf 4096 = true /\ leaf_fits l' 4096 = false /\
  single_record_fits_encoded (blen wide_key) (encoded_size (Inline [])) 4096 = true /\
  separator_fits (blen wide_key) 4096 = true /\
  forall fuel, split_leaf fuel l' false 4096 = None.
Proof.
  split; [unfold leaf_sorted; simpl; repeat constructor|].
  do 4 (split; [vm_compute; reflexivity|]).
  intros fuel. unfold split_leaf. cbv zeta.
  change (length (records (leaf_upsert wide_leaf wide_key (Inline [])).1)) with 3%nat.
  change (split_guess 3 false) with 1%nat. cbv iota.
  destruct wide_steps as [H1 H2]. revert H1 H2.
  generalize (fun s => slice_fits (take s (records (leaf_upsert wide_leaf wide_key (Inline [])).1)) 4096).
  generalize (fun s => slice_fits (drop s (records (leaf_upsert wide_leaf wide_key (Inline [])).1)) 4096).
  intros fr fl H1 H2.
  assert (split_loop fuel fl fr 3 1 = None /\ split_loop fuel fl fr 3 2 = None) as [-> _]; [|done].
  induction fuel as [|fuel [IH1 IH2]]; [done|]. cbn [split_loop]. rewrite H1, H2. done.
Qed.

(** A branch node with four one-byte separators and one of 2500 bytes. *)
Definition skewed_internal : Internal :=
  mkInternal 10 [([Byte.x61], 11); ([Byte.x62], 12); ([Byte.x63], 13); ([Byte.x64], 14);
                 (Byte.x65 :: zeros 2499, 15)].
Definition skewed_key : bytes := Byte.x66 :: zeros 2499.

(** C36: the 50/50 split of a branch node is by count, not by size: a node that
    fits, after inserting a separator that passes the separator check, can split
    into a right half that does not fit, so that encoding it fails. *)
Theorem split_internal_can_overflow :
  internal_sorted skewed_internal /\ internal_fits skewed_internal 4096 = true /\
  separator_fits (blen skewed_key) 4096 = true /\
  exists l r k, split_internal (internal_upsert skewed_internal skewed_key 16) = Ok (l, r, k) /\
    internal_fits l 4096 = true /\ internal_fits r 4096 = false /\
    internal_encode r (zeros (body_capacity 4096)) = Err PayloadTooLarge.
Proof.
  split; [unfold internal_sorted; simpl; repeat constructor|].
  do 2 (split; [vm_compute; reflexivity|]).
  eexists _, _, _. split; [vm_compute; reflexivity|]. split_and!; vm_compute; reflexivity.
Qed.
