(* ===== verification/Store.v ===== *)
(** * Store: what the page layers above the pager see of it

    The pager ([src/src/pager/core/read.rs], [write.rs]) gives the B+ tree a
    map from page ids to a page kind and a page body: a write replaces the entry
    of its page, a read returns the body of the entry if the page has the kind
    the reader asks for, and flushing to disk or evicting clean pages changes
    nothing in it. A tree works in one realm, so the realm is fixed here. *)

From S2P Require Import Prelude Errors PageFormat.
From Stdlib Require Import ZArith Lia.
From stdpp Require Import base list gmap.

Local Open Scope Z_scope.
Local Open Scope pagedb_scope.

Abbreviation Store := (gmap Z (PageKind.t * bytes)).

(** [Pager::read_main_page]: the kind is bound; a page of another kind fails
    authentication, and so does a page that was never written. *)
Definition read_main_page (st : Store) (page_id : Z) (k : PageKind.t) : result bytes :=
  if negb (PageKind.is_main_db k) then Err IllegalPageKind else
  match st !! page_id with
  | Some (k', body) => if decide (k' = k) then Ok body else Err ChecksumFailure
  | None => Err ChecksumFailure
  end.

(** [Pager::read_main_node]: either node kind, taken from the page. *)
Definition read_main_node (st : Store) (page_id : Z) : result (bytes * PageKind.t) :=
  match st !! page_id with
  | Some (PageKind.BTreeLeaf, body) => Ok (body, PageKind.BTreeLeaf)
  | Some (PageKind.BTreeInternal, body) => Ok (body, PageKind.BTreeInternal)
  | _ => Err ChecksumFailure
  end.

(** [Pager::write_main_page] *)
Definition write_main_page (page_size : Z) (st : Store) (page_id : Z) (k : PageKind.t)
    (body : bytes) : result Store :=
  if negb (PageKind.is_main_db k) then Err IllegalPageKind else
  if negb (blen body =? page_size - ENVELOPE_OVERHEAD) then Err PayloadTooLarge else
  Ok (<[page_id := (k, body)]> st).

Lemma read_main_page_ok st pid k body :
  PageKind.is_main_db k = true ->
  st !! pid = Some (k, body) -> read_main_page st pid k = Ok body.
Proof. intros Hk H. unfold read_main_page. by rewrite Hk, H, decide_True. Qed.

Lemma read_main_page_inv st pid k body :
  read_main_page st pid k = Ok body -> st !! pid = Some (k, body).
Proof.
  unfold read_main_page. destruct (PageKind.is_main_db k); [|done]. simpl.
  destruct (st !! pid) as [[k' b]|]; [|done].
  case_decide; [|done]. by intros [= ->]; subst.
Qed.

Lemma read_main_page_no_panic st pid k : read_main_page st pid k <> Panic.
Proof. unfold read_main_page. by repeat case_match. Qed.

Lemma write_main_page_ok ps st pid k body :
  PageKind.is_main_db k = true -> blen body = body_capacity ps ->
  write_main_page ps st pid k body = Ok (<[pid := (k, body)]> st).
Proof.
  intros Hk Hb. unfold write_main_page, body_capacity in *. rewrite Hk. simpl.
  by rewrite (proj2 (Z.eqb_eq _ _)).
Qed.
