(* ===== verification/Overflow.v ===== *)
(** * Overflow: values stored as chains of pages

    [src/src/btree/overflow.rs]: the two page layouts, writing a value as a
    chain, reading it back whole or by range, collecting its page ids, and
    releasing it. The walks keep a set of visited pages, which is what makes them
    terminate on any page image. *)

From S2P Require Import Prelude Errors PageFormat Store.
From Stdlib Require Import ZArith Lia.
From stdpp Require Import base list strings gmap.

Local Open Scope Z_scope.
Local Open Scope pagedb_scope.

Definition OVERFLOW_HEADER_LEN : Z := 12.
Definition OVERFLOW_ROOT_PREFIX : Z := 4.
Definition OVERFLOW_ROOT_HEADER_LEN : Z := OVERFLOW_ROOT_PREFIX + OVERFLOW_HEADER_LEN.

Definition inline_value_threshold (page_size : Z) : Z := page_size / 4.

Definition overflow_page_capacity (page_size : Z) : Z :=
  page_size - ENVELOPE_OVERHEAD - OVERFLOW_HEADER_LEN.
Definition overflow_root_capacity (page_size : Z) : Z :=
  page_size - ENVELOPE_OVERHEAD - OVERFLOW_ROOT_HEADER_LEN.

(** ** Page layouts *)

Definition encode_overflow (body : bytes) (next : Z) (data : bytes) : result bytes :=
  let page_size := blen body + ENVELOPE_OVERHEAD in
  let cap := overflow_page_capacity page_size in
  if cap <? blen data then Err PayloadTooLarge else
  let body := zeros (blen body) in
  let! body := copy_at body 0 (le64 next) in
  let! data_len := try_u32 (blen data) "overflow data_len overflow" in
  let! body := copy_at body 8 (le32 data_len) in
  copy_at body 12 data.

Definition decode_overflow (body : bytes) : result (Z * bytes) :=
  if blen body <? OVERFLOW_HEADER_LEN
  then Err (overflow_body_malformed "chain_page.header_length") else
  let! n := slice body 0 8 in
  let next := of_le n in
  let! l := slice body 8 12 in
  let data_len := of_le l in
  if blen body <? 12 + data_len
  then Err (overflow_body_malformed "chain_page.data_length") else
  let! data := slice body 12 (12 + data_len) in
  Ok (next, data).

Definition encode_overflow_root (body : bytes) (refcount next : Z) (data : bytes)
  : result bytes :=
  let page_size := blen body + ENVELOPE_OVERHEAD in
  let cap := overflow_root_capacity page_size in
  if cap <? blen data then Err PayloadTooLarge else
  let body := zeros (blen body) in
  let! body := copy_at body 0 (le32 refcount) in
  let! body := copy_at body 4 (le64 next) in
  let! data_len := try_u32 (blen data) "overflow root data_len overflow" in
  let! body := copy_at body 12 (le32 data_len) in
  copy_at body 16 data.

Definition decode_overflow_root (body : bytes) : result (Z * Z * bytes) :=
  if blen body <? OVERFLOW_ROOT_HEADER_LEN
  then Err (overflow_body_malformed "root.header_length") else
  let! r := slice body 0 4 in
  let refcount := of_le r in
  let! n := slice body 4 12 in
  let next := of_le n in
  let! l := slice body 12 16 in
  let data_len := of_le l in
  if blen body <? 16 + data_len
  then Err (overflow_body_malformed "root.data_length") else
  let! data := slice body 16 (16 + data_len) in
  Ok (refcount, next, data).

Definition overflow_root_next (body : bytes) : result Z :=
  let! '(_, next, _) := decode_overflow_root body in Ok next.

Record RootPageInfo := mkRootPageInfo {
  refcount : Z;
  next : Z;
  root_data : bytes;
}.

Definition read_root_page (st : Store) (root_page_id : Z) : result RootPageInfo :=
  let! body := read_main_page st root_page_id PageKind.OverflowRoot in
  let! '(refcount, next, data) := decode_overflow_root body in
  Ok (mkRootPageInfo refcount next data).

(** Reading and decoding one chain page. *)
Definition read_chain_page (st : Store) (page_id : Z) : result (Z * bytes) :=
  let! body := read_main_page st page_id PageKind.Overflow in
  decode_overflow body.

(** ** Writing a chain *)

Section write.
Context {A : Type} (allocate_page : A -> result (Z * A)) (page_size : Z).

(** One page of the chain: the chunk encoded and written. *)
Definition write_overflow_page (st : Store) (page_id : Z) (is_root : bool) (next : Z)
    (value : bytes) (start end_ : Z) : result Store :=
  let! chunk := slice value start end_ in
  let body := zeros (page_size - ENVELOPE_OVERHEAD) in
  if is_root then
    let! body := encode_overflow_root body 1 next chunk in
    write_main_page page_size st page_id PageKind.OverflowRoot body
  else
    let! body := encode_overflow body next chunk in
    write_main_page page_size st page_id PageKind.Overflow body.

(** The loop of [write_chain]. Each iteration but the last consumes at least one
    byte of the value when the chain capacity is positive, so the length of the
    value bounds the iterations. An error leaves the ids drawn and the pages
    written so far. Flushing at the dirty-page budget leaves the page image as
    it is. *)
Fixpoint write_chain_loop (fuel : nat) (st : Store) (a : A) (value : bytes)
    (page_id start : Z) (is_root : bool) : result unit * (Store * A) :=
  match fuel with
  | O => (Panic, (st, a))
  | S fuel =>
      let cap := if is_root then overflow_root_capacity page_size
                 else overflow_page_capacity page_size in
      let end_ := Z.min (saturating_add start cap) (blen value) in
      match (if end_ <? blen value then allocate_page a else Ok (0, a)) with
      | Ok (next, a) =>
          match write_overflow_page st page_id is_root next value start end_ with
          | Ok st =>
              if next =? 0 then (Ok tt, (st, a))
              else write_chain_loop fuel st a value next end_ false
          | Err e => (Err e, (st, a))
          | Panic => (Panic, (st, a))
          end
      | Err e => (Err e, (st, a))
      | Panic => (Panic, (st, a))
      end
  end.

Definition write_chain (st : Store) (a : A) (value : bytes) : result Z * (Store * A) :=
  match allocate_page a with
  | Ok (root_page_id, a) =>
      let '(r, sa) := write_chain_loop (S (length value)) st a value root_page_id 0 true in
      (let! _ := r in Ok root_page_id, sa)
  | Err e => (Err e, (st, a))
  | Panic => (Panic, (st, a))
  end.
End write.

(** ** Walking a chain

    The fuel of every walk is one more than the number of pages of the image:
    each iteration visits a page not visited before. *)

Definition ISIZE_MAX : Z := 2 ^ 63 - 1.

(** [usize::try_from(total_len)] that also fits [isize]. *)
Definition checked_total_len (total_len : Z) : result Z :=
  if total_len <=? ISIZE_MAX then Ok total_len
  else Err (overflow_body_malformed "chain.total_length").

Fixpoint read_chain_loop (fuel : nat) (st : Store) (root_page_id total_len : Z)
    (out : bytes) (seen : gset Z) (next : Z) : result bytes :=
  if next =? 0 then Ok out else
  match fuel with
  | O => Panic
  | S fuel =>
      if decide (next ∈ seen) then Err (overflow_chain_cycle root_page_id next) else
      let! '(n, data) := read_chain_page st next in
      match checked_add (blen out) (blen data) with
      | Some assembled =>
          if total_len <? assembled
          then Err (overflow_body_malformed "chain.assembled_length")
          else read_chain_loop fuel st root_page_id total_len (out ++ data) ({[next]} ∪ seen) n
      | None => Err (overflow_body_malformed "chain.assembled_length")
      end
  end.

Definition read_chain (st : Store) (root_page_id total_len : Z) : result bytes :=
  let! total_len := checked_total_len total_len in
  let! info := read_root_page st root_page_id in
  if total_len <? blen (root_data info)
  then Err (overflow_body_malformed "chain.assembled_length") else
  let! out := read_chain_loop (S (size st)) st root_page_id total_len (root_data info)
                {[root_page_id]} (next info) in
  if negb (blen out =? total_len)
  then Err (overflow_body_malformed "chain.assembled_length") else Ok out.

Fixpoint read_range_loop (fuel : nat) (st : Store) (root_page_id start end_ : Z)
    (out : bytes) (consumed : Z) (chunk : bytes) (next : Z) (seen : gset Z) : result bytes :=
  let chunk_end := saturating_add consumed (blen chunk) in
  let from := saturating_sub start consumed in
  let to := Z.min (end_ - consumed) (blen chunk) in
  let! '(out, finished) :=
    if start <? chunk_end then
      let! part := slice chunk from to in
      Ok (out ++ part, end_ <=? consumed + to)
    else Ok (out, false) in
  if (finished : bool) then Ok out else
  if next =? 0 then
    if negb (blen out =? end_ - start)
    then Err (overflow_body_malformed "chain.assembled_length") else Ok out
  else
  match fuel with
  | O => Panic
  | S fuel =>
      if decide (next ∈ seen) then Err (overflow_chain_cycle root_page_id next) else
      let! '(n, data) := read_chain_page st next in
      read_range_loop fuel st root_page_id start end_ out chunk_end data n ({[next]} ∪ seen)
  end.

Definition read_chain_range (st : Store) (root_page_id total_len offset len : Z)
  : result bytes :=
  let! total_len := checked_total_len total_len in
  let start := Z.min offset total_len in
  let end_ := Z.min (default total_len (checked_add start len)) total_len in
  if end_ <=? start then Ok [] else
  let! info := read_root_page st root_page_id in
  read_range_loop (S (size st)) st root_page_id start end_ [] 0 (root_data info) (next info)
    {[root_page_id]}.

(** The walk [collect_chain] and [release] share. *)
Fixpoint collect_loop (fuel : nat) (st : Store) (root_page_id : Z) (out : list Z)
    (seen : gset Z) (cur : Z) : result (list Z) :=
  if cur =? 0 then Ok out else
  match fuel with
  | O => Panic
  | S fuel =>
      if decide (cur ∈ seen) then Err (overflow_chain_cycle root_page_id cur) else
      let! '(n, _) := read_chain_page st cur in
      collect_loop fuel st root_page_id (out ++ [cur]) ({[cur]} ∪ seen) n
  end.

Definition collect_chain (st : Store) (root_page_id : Z) : result (list Z) :=
  let! info := read_root_page st root_page_id in
  collect_loop (S (size st)) st root_page_id [root_page_id] {[root_page_id]} (next info).

Inductive ReleaseResult :=
| Decremented
| Freed (freed_pages : list Z).

Definition release (page_size : Z) (st : Store) (root_page_id new_page_id : Z)
  : result (ReleaseResult * Store) :=
  let! info := read_root_page st root_page_id in
  if refcount info <=? 1 then
    let! freed := collect_loop (S (size st)) st root_page_id [root_page_id]
                    {[root_page_id]} (next info) in
    Ok (Freed freed, st)
  else
    let new_refcount := refcount info - 1 in
    let body := zeros (page_size - ENVELOPE_OVERHEAD) in
    let! body := encode_overflow_root body new_refcount (next info) (root_data info) in
    let! st := write_main_page page_size st new_page_id PageKind.OverflowRoot body in
    Ok (Decremented, st).

(** ** What a chain stands for *)

(** [chain_tail st pid data ids]: following [next] pointers from [pid] to the
    end visits the pages [ids] and yields [data]. *)
Inductive chain_tail (st : Store) : Z -> bytes -> list Z -> Prop :=
| chain_end : chain_tail st 0 [] []
| chain_page pid n d ds ids :
    pid <> 0 -> read_chain_page st pid = Ok (n, d) -> chain_tail st n ds ids ->
    chain_tail st pid (d ++ ds) (pid :: ids).

Definition chain (st : Store) (root rc : Z) (value : bytes) (ids : list Z) : Prop :=
  exists n d ds ids', read_root_page st root = Ok (mkRootPageInfo rc n d) /\
    chain_tail st n ds ids' /\ value = d ++ ds /\ ids = root :: ids' /\ NoDup ids.

(** ** Page layouts round-trip *)

Lemma encode_overflow_ok body next data :
  blen data <= overflow_page_capacity (blen body + ENVELOPE_OVERHEAD) ->
  blen body <= U32_MAX -> is_u64 next ->
  exists body', encode_overflow body next data = Ok body' /\ blen body' = blen body /\
    decode_overflow body' = Ok (next, data).
Proof.
  unfold overflow_page_capacity, OVERFLOW_HEADER_LEN, U32_MAX. intros Hcap Hb Hn.
  pose proof (blen_nonneg data). unfold encode_overflow, overflow_page_capacity, OVERFLOW_HEADER_LEN.
  rewrite (proj2 (Z.ltb_ge _ _)) by lia.
  pose proof (blen_zeros (blen body) (blen_nonneg body)) as L0.
  destruct (copy_at_step (E:=PagedbError) (zeros (blen body)) 0 (le64 next))
    as (b1 & -> & L1 & S1 & D1); [lia|rewrite blen_le64; lia|].
  rewrite try_u32_ok by lia.
  destruct (copy_at_step (E:=PagedbError) b1 8 (le32 (blen data)))
    as (b2 & -> & L2 & S2 & D2); [lia|rewrite blen_le32; lia|].
  destruct (copy_at_step (E:=PagedbError) b2 12 data) as (b3 & -> & L3 & S3 & D3); [lia..|].
  rewrite blen_le64, blen_le32 in *. exists b3. split_and!; [done|lia|].
  unfold decode_overflow, OVERFLOW_HEADER_LEN. rewrite (proj2 (Z.ltb_ge _ _)) by lia.
  rewrite !slice_ok by lia.
  change (8 - 0) with 8. change (12 - 8) with 4.
  rewrite (D3 0 8), (D2 0 8), S1, (D3 8 4), S2, of_le64, of_le32 by lia.
  rewrite (proj2 (Z.ltb_ge _ _)) by lia. rewrite slice_ok by lia.
  replace (12 + blen data - 12) with (blen data) by lia. by rewrite S3.
Qed.

Lemma encode_overflow_root_ok body rc next data :
  blen data <= overflow_root_capacity (blen body + ENVELOPE_OVERHEAD) ->
  blen body <= U32_MAX -> is_u32 rc -> is_u64 next ->
  exists body', encode_overflow_root body rc next data = Ok body' /\ blen body' = blen body /\
    decode_overflow_root body' = Ok (rc, next, data).
Proof.
  unfold overflow_root_capacity, OVERFLOW_ROOT_HEADER_LEN, OVERFLOW_ROOT_PREFIX,
    OVERFLOW_HEADER_LEN, U32_MAX. intros Hcap Hb Hr Hn.
  pose proof (blen_nonneg data).
  unfold encode_overflow_root, overflow_root_capacity, OVERFLOW_ROOT_HEADER_LEN,
    OVERFLOW_ROOT_PREFIX, OVERFLOW_HEADER_LEN.
  rewrite (proj2 (Z.ltb_ge _ _)) by lia.
  pose proof (blen_zeros (blen body) (blen_nonneg body)) as L0.
  destruct (copy_at_step (E:=PagedbError) (zeros (blen body)) 0 (le32 rc))
    as (b0 & -> & L0' & S0 & D0); [lia|rewrite blen_le32; lia|].
  destruct (copy_at_step (E:=PagedbError) b0 4 (le64 next))
    as (b1 & -> & L1 & S1 & D1); [lia|rewrite blen_le64; lia|].
  rewrite try_u32_ok by lia.
  destruct (copy_at_step (E:=PagedbError) b1 12 (le32 (blen data)))
    as (b2 & -> & L2 & S2 & D2); [lia|rewrite blen_le32; lia|].
  destruct (copy_at_step (E:=PagedbError) b2 16 data) as (b3 & -> & L3 & S3 & D3); [lia..|].
  rewrite blen_le64, !blen_le32 in *. exists b3. split_and!; [done|lia|].
  unfold decode_overflow_root, OVERFLOW_ROOT_HEADER_LEN, OVERFLOW_ROOT_PREFIX,
    OVERFLOW_HEADER_LEN. rewrite (proj2 (Z.ltb_ge _ _)) by lia.
  rewrite !slice_ok by lia.
  change (4 - 0) with 4. change (12 - 4) with 8. change (16 - 12) with 4.
  rewrite (D3 0 4), (D2 0 4), (D1 0 4), S0, (D3 4 8), (D2 4 8), S1, (D3 12 4), S2 by lia.
  rewrite of_le64, !of_le32 by lia.
  rewrite (proj2 (Z.ltb_ge _ _)) by lia. rewrite slice_ok by lia.
  replace (16 + blen data - 16) with (blen data) by lia. by rewrite S3.
Qed.

(** Decoders reject or accept any bytes without panicking. *)
Lemma decode_overflow_no_panic body : decode_overflow body <> Panic.
Proof.
  unfold decode_overflow, OVERFLOW_HEADER_LEN. destruct (Z.ltb_spec (blen body) 12); [done|].
  rewrite !slice_ok by lia. pose proof (of_le_bound (sub body 8 (12 - 8)) _ eq_refl).
  destruct (Z.ltb_spec (blen body) (12 + of_le (sub body 8 (12 - 8)))); [done|].
  by rewrite slice_ok by lia.
Qed.
Lemma decode_overflow_root_no_panic body : decode_overflow_root body <> Panic.
Proof.
  unfold decode_overflow_root, OVERFLOW_ROOT_HEADER_LEN, OVERFLOW_ROOT_PREFIX, OVERFLOW_HEADER_LEN.
  destruct (Z.ltb_spec (blen body) (4 + 12)); [done|].
  rewrite !slice_ok by lia. pose proof (of_le_bound (sub body 12 (16 - 12)) _ eq_refl).
  destruct (Z.ltb_spec (blen body) (16 + of_le (sub body 12 (16 - 12)))); [done|].
  by rewrite slice_ok by lia.
Qed.

(** ** Termination of the walks on any page image *)

Lemma read_chain_page_no_panic st pid : read_chain_page st pid <> Panic.
Proof.
  unfold read_chain_page. pose proof (read_main_page_no_panic st pid PageKind.Overflow).
  destruct (read_main_page _ _ _); [|done..]. apply decode_overflow_no_panic.
Qed.
Lemma read_root_page_no_panic st pid : read_root_page st pid <> Panic.
Proof.
  unfold read_root_page. pose proof (read_main_page_no_panic st pid PageKind.OverflowRoot).
  destruct (read_main_page _ _ _) as [b| |]; [|done..].
  pose proof (decode_overflow_root_no_panic b).
  destruct (decode_overflow_root b) as [[[]]| |]; done.
Qed.

(** The pages of the image not yet visited. *)
Definition unseen (st : Store) (seen : gset Z) : nat := size (dom st ∖ seen).

Lemma unseen_step st seen pid r :
  read_chain_page st pid = Ok r -> pid ∉ seen ->
  (unseen st ({[pid]} ∪ seen) < unseen st seen)%nat.
Proof.
  intros Hr Hs. unfold unseen. apply subset_size.
  assert (pid ∈ dom st).
  { unfold read_chain_page in Hr. destruct (read_main_page st pid _) eqn:Hp; [|done..].
    apply read_main_page_inv in Hp. by apply elem_of_dom. }
  set_solver.
Qed.
Lemma unseen_start st root : (unseen st {[root]} < S (size st))%nat.
Proof.
  unfold unseen. rewrite <-size_dom.
  pose proof (subseteq_size (dom st ∖ {[root]}) (dom st)) as H. 
  ospecialize (H _); [set_solver|]. lia.
Qed.

Lemma decode_overflow_len body n d : decode_overflow body = Ok (n, d) -> blen d < 2 ^ 32.
Proof.
  unfold decode_overflow, OVERFLOW_HEADER_LEN. intros H. inv_ok H.
  repeat match goal with H : slice _ _ _ = Ok _ |- _ => apply slice_inv in H as (?&?&?&->) end.
  pose proof (of_le_bound (sub body 8 (12 - 8)) 4) as B. rewrite blen_sub in B by lia.
  specialize (B eq_refl). rewrite blen_sub by lia. lia.
Qed.
Lemma decode_overflow_root_len body rc n d :
  decode_overflow_root body = Ok (rc, n, d) -> blen d < 2 ^ 32.
Proof.
  unfold decode_overflow_root, OVERFLOW_ROOT_HEADER_LEN, OVERFLOW_ROOT_PREFIX, OVERFLOW_HEADER_LEN.
  intros H. inv_ok H.
  repeat match goal with H : slice _ _ _ = Ok _ |- _ => apply slice_inv in H as (?&?&?&->) end.
  pose proof (of_le_bound (sub body 12 (16 - 12)) 4) as B. rewrite blen_sub in B by lia.
  specialize (B eq_refl). rewrite blen_sub by lia. lia.
Qed.
Lemma read_chain_page_len st pid n d : read_chain_page st pid = Ok (n, d) -> blen d < 2 ^ 32.
Proof.
  unfold read_chain_page. destruct (read_main_page _ _ _); [|done..]. apply decode_overflow_len.
Qed.
Lemma read_root_page_len st pid info : read_root_page st pid = Ok info -> blen (root_data info) < 2 ^ 32.
Proof.
  unfold read_root_page. destruct (read_main_page _ _ _) as [b| |]; [|done..].
  destruct (decode_overflow_root b) as [[[rc n] d]| |] eqn:Hd; [|done..]. intros [= <-]. simpl.
  by eapply decode_overflow_root_len.
Qed.

Lemma read_chain_loop_total st root total fuel out seen nx :
  (unseen st seen < fuel)%nat -> read_chain_loop fuel st root total out seen nx <> Panic.
Proof.
  revert out seen nx. induction fuel as [|fuel IH]; intros out seen nx Hf; [lia|]. cbn.
  destruct (nx =? 0); [done|]. case_decide as Hs; [done|].
  pose proof (read_chain_page_no_panic st nx).
  destruct (read_chain_page st nx) as [[n d]| |] eqn:Hp; [|done..].
  destruct (checked_add _ _); [|done]. destruct (_ <? _); [done|].
  apply IH. pose proof (unseen_step st seen nx _ Hp Hs). lia.
Qed.

Lemma collect_loop_total st root fuel out seen nx :
  (unseen st seen < fuel)%nat -> collect_loop fuel st root out seen nx <> Panic.
Proof.
  revert out seen nx. induction fuel as [|fuel IH]; intros out seen nx Hf; [lia|]. cbn.
  destruct (nx =? 0); [done|]. case_decide as Hs; [done|].
  pose proof (read_chain_page_no_panic st nx).
  destruct (read_chain_page st nx) as [[n d]| |] eqn:Hp; [|done..].
  apply IH. pose proof (unseen_step st seen nx _ Hp Hs). lia.
Qed.

Lemma read_range_loop_total st root start end_ fuel out consumed chunk nx seen :
  (unseen st seen < fuel)%nat -> 0 <= start < end_ -> end_ <= ISIZE_MAX ->
  0 <= consumed < end_ -> blen chunk < 2 ^ 32 ->
  read_range_loop fuel st root start end_ out consumed chunk nx seen <> Panic.
Proof.
  unfold ISIZE_MAX.
  revert out consumed chunk nx seen.
  induction fuel as [|fuel IH]; intros out consumed chunk nx seen Hf Hse He Hc Hch; [lia|].
  cbn [read_range_loop]. pose proof (blen_nonneg chunk).
  assert (saturating_add consumed (blen chunk) = consumed + blen chunk) as ->
    by (unfold saturating_add, U64_MAX; lia).
  unfold saturating_sub.
  assert (forall out consumed', 0 <= consumed' < end_ ->
    (if nx =? 0 then
       if negb (blen out =? end_ - start)
       then Err (overflow_body_malformed "chain.assembled_length") else Ok out
     else
       if decide (nx ∈ seen) then Err (overflow_chain_cycle root nx) else
       let! '(n, data) := read_chain_page st nx in
       read_range_loop fuel st root start end_ out consumed' data n ({[nx]} ∪ seen)) <> Panic)
    as Hnext.
  { intros out' c' Hc'. destruct (nx =? 0); [by destruct (negb _)|]. case_decide as Hs; [done|].
    pose proof (read_chain_page_no_panic st nx).
    destruct (read_chain_page st nx) as [[n d]| |] eqn:Hp; [|done..].
    apply IH; try done; [|by eapply read_chain_page_len].
    pose proof (unseen_step st seen nx _ Hp Hs). lia. }
  destruct (Z.ltb_spec start (consumed + blen chunk)).
  - rewrite slice_ok by lia. destruct (Z.leb_spec end_ (consumed + Z.min (end_ - consumed) (blen chunk)));
      [done|]. apply Hnext. lia.
  - apply Hnext. lia.
Qed.

Lemma read_chain_total st root total : read_chain st root total <> Panic.
Proof.
  unfold read_chain, checked_total_len. destruct (_ <=? _); [|done].
  pose proof (read_root_page_no_panic st root).
  destruct (read_root_page st root) as [info| |]; [|done..].
  destruct (_ <? _); [done|].
  pose proof (read_chain_loop_total st root total (S (size st)) (root_data info) {[root]}
    (next info) (unseen_start st root)).
  destruct (read_chain_loop _ _ _ _ _ _ _); [|done..]. by destruct (negb _).
Qed.

Lemma read_chain_range_total st root total offset len :
  0 <= total -> 0 <= offset -> read_chain_range st root total offset len <> Panic.
Proof.
  intros. unfold read_chain_range, checked_total_len. destruct (Z.leb_spec total ISIZE_MAX); [|done].
  destruct (Z.leb_spec (Z.min (default total (checked_add (Z.min offset total) len)) total)
    (Z.min offset total)); [done|].
  pose proof (read_root_page_no_panic st root).
  destruct (read_root_page st root) as [info| |] eqn:Hr; [|done..].
  apply read_range_loop_total; try lia; [apply unseen_start|by eapply read_root_page_len].
Qed.

Lemma collect_chain_total st root : collect_chain st root <> Panic.
Proof.
  unfold collect_chain. pose proof (read_root_page_no_panic st root).
  destruct (read_root_page st root) as [info| |]; [|done..].
  apply collect_loop_total, unseen_start.
Qed.

(** ** The walks on a well-formed chain *)

Lemma chain_tail_dom st n ds ids : chain_tail st n ds ids -> Forall (fun p => p ∈ dom st) ids.
Proof.
  induction 1 as [|pid n d ds ids _ Hr _ IH]; constructor; [|done].
  unfold read_chain_page in Hr. destruct (read_main_page st pid _) eqn:Hp; [|done..].
  apply read_main_page_inv in Hp. by apply elem_of_dom.
Qed.

Lemma chain_tail_fuel st n ds ids : chain_tail st n ds ids -> NoDup ids -> (length ids <= size st)%nat.
Proof.
  intros Hc%chain_tail_dom Hn. rewrite <-(size_list_to_set (C:=gset Z) ids) by done.
  rewrite <-size_dom. apply subseteq_size. rewrite Forall_forall in Hc. set_solver.
Qed.

Lemma read_chain_loop_ok st root total n ds ids :
  chain_tail st n ds ids -> total <= ISIZE_MAX ->
  forall fuel out seen, NoDup ids -> (forall p, p ∈ ids -> p ∉ seen) ->
  (length ids <= fuel)%nat -> blen out + blen ds <= total ->
  read_chain_loop fuel st root total out seen n = Ok (out ++ ds).
Proof.
  intros Hc Ht. unfold ISIZE_MAX in Ht.
  induction Hc as [|pid n d ds ids Hne Hr _ IH]; intros fuel out seen Hn Hs Hf Hl.
  - rewrite app_nil_r. by destruct fuel.
  - destruct fuel as [|fuel]; [simpl in Hf; lia|]. cbn [read_chain_loop].
    rewrite (proj2 (Z.eqb_neq _ _)) by done. rewrite decide_False by (apply Hs; by left).
    rewrite Hr. apply NoDup_cons in Hn as [Hni Hn]. rewrite blen_app in Hl.
    pose proof (blen_nonneg ds). pose proof (blen_nonneg out). pose proof (blen_nonneg d).
    rewrite checked_add_ok by (unfold USIZE_MAX, U64_MAX; lia).
    rewrite (proj2 (Z.ltb_ge _ _)) by lia. rewrite IH, app_assoc; try done.
    + intros p Hp. set_solver.
    + simpl in Hf. lia.
    + rewrite blen_app. lia.
Qed.

Lemma collect_loop_ok st root n ds ids :
  chain_tail st n ds ids ->
  forall fuel out seen, NoDup ids -> (forall p, p ∈ ids -> p ∉ seen) -> (length ids <= fuel)%nat ->
  collect_loop fuel st root out seen n = Ok (out ++ ids).
Proof.
  induction 1 as [|pid n d ds ids Hne Hr _ IH]; intros fuel out seen Hn Hs Hf.
  - rewrite app_nil_r. by destruct fuel.
  - destruct fuel as [|fuel]; [simpl in Hf; lia|]. cbn [collect_loop].
    rewrite (proj2 (Z.eqb_neq _ _)) by done. rewrite decide_False by (apply Hs; by left).
    rewrite Hr. apply NoDup_cons in Hn as [Hni Hn]. rewrite IH.
    + by rewrite <-app_assoc.
    + done.
    + intros p Hp. set_solver.
    + simpl in Hf. lia.
Qed.

(** The bytes copied so far, whatever part of [start, consumed) is walked. *)
Lemma range_step (V chunk : bytes) start end_ consumed :
  0 <= start -> 0 <= consumed < end_ -> consumed + blen chunk <= blen V -> end_ <= blen V ->
  sub V consumed (blen chunk) = chunk -> start < consumed + blen chunk -> start < end_ ->
  let from := Z.max (start - consumed) 0 in
  let to := Z.min (end_ - consumed) (blen chunk) in
  sub V start (Z.max (consumed - start) 0) ++ sub chunk from (to - from)
  = sub V start (consumed + to - start).
Proof.
  intros ? ? ? ? Hsub ? ? from to. subst from to.
  assert (forall f n, 0 <= f -> 0 <= n -> f + n <= blen chunk ->
            sub chunk f n = sub V (consumed + f) n) as Hss
    by (intros; rewrite <-Hsub at 1; apply sub_sub; lia).
  pose proof (blen_nonneg chunk). rewrite Hss by lia.
  destruct (Z.le_ge_cases start consumed).
  - rewrite !Z.max_l by lia. rewrite (Z.max_r (start - consumed)) by lia.
    rewrite Z.sub_0_r, Z.add_0_r.
    replace consumed with (start + (consumed - start)) at 2 by lia.
    rewrite <-sub_split by lia. f_equal. lia.
  - rewrite (Z.max_r (consumed - start)) by lia. rewrite (Z.max_l (start - consumed)) by lia.
    change (sub V start 0) with ([] : bytes). simpl. f_equal; lia.
Qed.

Lemma range_iter st root (V : bytes) start end_ fuel consumed chunk n seen :
  0 <= start < end_ -> end_ <= blen V -> blen V <= ISIZE_MAX -> 0 <= consumed < end_ ->
  consumed + blen chunk <= blen V -> sub V consumed (blen chunk) = chunk ->
  let consumed' := consumed + blen chunk in
  let out := sub V start (Z.max (consumed' - start) 0) in
  read_range_loop fuel st root start end_ (sub V start (Z.max (consumed - start) 0))
    consumed chunk n seen =
  if end_ <=? consumed' then Ok (sub V start (end_ - start)) else
  if n =? 0 then
    if negb (blen out =? end_ - start)
    then Err (overflow_body_malformed "chain.assembled_length") else Ok out
  else
  match fuel with
  | O => Panic
  | S fuel =>
      if decide (n ∈ seen) then Err (overflow_chain_cycle root n) else
      let! '(n', data) := read_chain_page st n in
      read_range_loop fuel st root start end_ out consumed' data n' ({[n]} ∪ seen)
  end.
Proof.
  intros Hse He HV Hc Htot Hch consumed' out. unfold ISIZE_MAX in HV.
  pose proof (blen_nonneg chunk).
  assert (saturating_add consumed (blen chunk) = consumed') as Hsat
    by (unfold saturating_add, U64_MAX; lia).
  pose proof (range_step V chunk start end_ consumed) as Hst.
  destruct fuel; cbn [read_range_loop]; rewrite Hsat; unfold saturating_sub.
  all: destruct (Z.ltb_spec start consumed'); [rewrite slice_ok by lia; rewrite Hst by (done || lia)|].
  all: destruct (Z.leb_spec end_ consumed').
  all: try lia.
  all: try (rewrite (proj2 (Z.leb_le _ _)) by lia; do 2 f_equal; lia).
  all: try (rewrite (proj2 (Z.leb_gt _ _)) by lia).
  all: subst out.
  all: try (replace (consumed + Z.min (end_ - consumed) (blen chunk) - start)
      with (Z.max (consumed' - start) 0) by lia; done).
  all: replace (Z.max (consumed - start) 0) with 0 by lia;
       replace (Z.max (consumed' - start) 0) with 0 by lia; done.
Qed.

Lemma read_range_loop_ok st root (V : bytes) start end_ n ds ids :
  chain_tail st n ds ids -> 0 <= start < end_ -> end_ <= blen V -> blen V <= ISIZE_MAX ->
  forall fuel consumed chunk seen, NoDup ids -> (forall p, p ∈ ids -> p ∉ seen) ->
  (length ids <= fuel)%nat -> 0 <= consumed < end_ ->
  consumed + blen chunk + blen ds = blen V ->
  sub V consumed (blen (chunk ++ ds)) = chunk ++ ds ->
  read_range_loop fuel st root start end_ (sub V start (Z.max (consumed - start) 0))
    consumed chunk n seen = Ok (sub V start (end_ - start)).
Proof.
  intros Hc Hse He HV.
  induction Hc as [|pid n d ds ids Hne Hr _ IH];
    intros fuel consumed chunk seen Hn Hs Hf Hcons Htot Hsub;
    pose proof (blen_nonneg chunk); rewrite ?blen_app in Htot;
    apply sub_app_inv in Hsub as [Hch Hds]; try (rewrite ?blen_app; lia).
  - simpl in *. change (blen []) with 0 in *.
    rewrite range_iter by (done || lia). by rewrite (proj2 (Z.leb_le _ _)) by lia.
  - pose proof (blen_nonneg d). pose proof (blen_nonneg ds).
    rewrite range_iter by (done || lia). cbv zeta.
    destruct (Z.leb_spec end_ (consumed + blen chunk)); [done|].
    rewrite (proj2 (Z.eqb_neq _ _)) by done.
    destruct fuel as [|fuel]; [simpl in Hf; lia|].
    rewrite decide_False by (apply Hs; by left). rewrite Hr.
    apply NoDup_cons in Hn as [Hni Hn].
    apply IH; try done; try lia.
    + intros p Hp. set_solver.
    + simpl in Hf. lia.
Qed.

(** ** Writing a chain *)

Section write_spec.
Context {A : Type} (allocate_page : A -> result (Z * A)) (page_size : Z).
Context (Hps : OVERFLOW_ROOT_HEADER_LEN + ENVELOPE_OVERHEAD < page_size <= U32_MAX).

(** The next [n] ids the allocator hands out. *)
Fixpoint alloc_ids (n : nat) (a : A) : list Z :=
  match n with
  | O => []
  | S n => match allocate_page a with Ok (p, a) => p :: alloc_ids n a | _ => [] end
  end.

(** [allocs a ids a']: from [a], allocations returned [ids] in order and left [a']. *)
Inductive allocs : A -> list Z -> A -> Prop :=
| allocs_nil a : allocs a [] a
| allocs_cons a p a1 ids a2 : allocate_page a = Ok (p, a1) -> allocs a1 ids a2 -> allocs a (p :: ids) a2.

(** The allocator hands out [n] more ids, distinct nonzero 64-bit page ids. *)
Definition fresh_ids (n : nat) (a : A) : Prop :=
  length (alloc_ids n a) = n /\ NoDup (alloc_ids n a) /\ Forall (fun p => 0 < p < 2 ^ 64) (alloc_ids n a).

Definition page_decodes (st : Store) (pid : Z) (is_root : bool) (nx : Z) (d : bytes) : Prop :=
  if is_root then read_root_page st pid = Ok (mkRootPageInfo 1 nx d)
  else read_chain_page st pid = Ok (nx, d).

(** What one iteration writes. *)
Lemma write_page_ok (st : Store) (pid : Z) (is_root : bool) (nx : Z) (chunk : bytes) :
  let cap := if is_root then overflow_root_capacity page_size
             else overflow_page_capacity page_size in
  blen chunk <= cap -> is_u64 nx ->
  exists (k : PageKind.t) (body : bytes),
    (if is_root then
       let! body := encode_overflow_root (zeros (page_size - ENVELOPE_OVERHEAD)) 1 nx chunk in
       write_main_page page_size st pid PageKind.OverflowRoot body
     else
       let! body := encode_overflow (zeros (page_size - ENVELOPE_OVERHEAD)) nx chunk in
       write_main_page page_size st pid PageKind.Overflow body) = Ok (<[pid := (k, body)]> st) /\
    forall st', st' !! pid = Some (k, body) -> page_decodes st' pid is_root nx chunk.
Proof.
  intros cap Hc Hn. unfold OVERFLOW_ROOT_HEADER_LEN, OVERFLOW_ROOT_PREFIX, OVERFLOW_HEADER_LEN,
    U32_MAX in Hps.
  assert (blen (zeros (page_size - ENVELOPE_OVERHEAD)) = page_size - ENVELOPE_OVERHEAD) as Hz
    by (apply blen_zeros; lia).
  assert (page_size - ENVELOPE_OVERHEAD <= 2 ^ 32 - 1) by (unfold ENVELOPE_OVERHEAD, ENVELOPE_HEADER_LEN, TAG_LEN in *; lia).
  destruct is_root; subst cap.
  - destruct (encode_overflow_root_ok (zeros (page_size - ENVELOPE_OVERHEAD)) 1 nx chunk)
      as (b & -> & Hb & Hd); try (unfold U32_MAX; lia).
    { rewrite Hz. by replace (page_size - ENVELOPE_OVERHEAD + ENVELOPE_OVERHEAD) with page_size by lia. }
    exists PageKind.OverflowRoot, b. rewrite write_main_page_ok by (done || (unfold body_capacity; lia)).
    split; [done|]. intros st' Hst. simpl. unfold read_root_page.
    rewrite (read_main_page_ok st' pid _ b) by done. by rewrite Hd.
  - destruct (encode_overflow_ok (zeros (page_size - ENVELOPE_OVERHEAD)) nx chunk)
      as (b & -> & Hb & Hd); try (unfold U32_MAX; lia).
    { rewrite Hz. by replace (page_size - ENVELOPE_OVERHEAD + ENVELOPE_OVERHEAD) with page_size by lia. }
    exists PageKind.Overflow, b. rewrite write_main_page_ok by (done || (unfold body_capacity; lia)).
    split; [done|]. intros st' Hst. simpl. unfold read_chain_page.
    by rewrite (read_main_page_ok st' pid _ b) by done.
Qed.

Lemma write_chain_loop_ok (value : bytes) :
  blen value <= ISIZE_MAX ->
  forall fuel st a pid start is_root,
  0 <= start <= blen value -> (is_root = false -> start < blen value) ->
  (Z.to_nat (blen value - start) < fuel)%nat ->
  pid <> 0 -> length (alloc_ids fuel a) = fuel -> NoDup (pid :: alloc_ids fuel a) -> Forall (fun p => 0 < p < 2 ^ 64) (alloc_ids fuel a) ->
  exists st' a' ids nx d ds,
    write_chain_loop allocate_page page_size fuel st a value pid start is_root = (Ok tt, (st', a')) /\
    ids `prefix_of` alloc_ids fuel a /\ allocs a ids a' /\
    (forall p, p ∉ pid :: ids -> st' !! p = st !! p) /\
    page_decodes st' pid is_root nx d /\ chain_tail st' nx ds ids /\
    d ++ ds = sub value start (blen value - start).
Proof.
  intros HV. unfold ISIZE_MAX in HV. unfold OVERFLOW_ROOT_HEADER_LEN, OVERFLOW_ROOT_PREFIX,
    OVERFLOW_HEADER_LEN, U32_MAX in Hps.
  induction fuel as [|fuel IH]; intros st a pid start is_root Hst Hnr Hf Hp0 Hlen Hnd Hin; [lia|].
  cbn [write_chain_loop alloc_ids] in *.
  set (cap := if is_root then overflow_root_capacity page_size
              else overflow_page_capacity page_size).
  assert (1 <= cap <= 2 ^ 32) as Hcap.
  { unfold cap, overflow_root_capacity, overflow_page_capacity, OVERFLOW_ROOT_HEADER_LEN,
      OVERFLOW_ROOT_PREFIX, OVERFLOW_HEADER_LEN, ENVELOPE_OVERHEAD, ENVELOPE_HEADER_LEN, TAG_LEN in *.
    destruct is_root; lia. }
  assert (saturating_add start cap = start + cap) as -> by (unfold saturating_add, U64_MAX; lia).
  set (end_ := Z.min (start + cap) (blen value)) in *.
  assert (blen (sub value start (end_ - start)) <= cap) by (rewrite blen_sub; lia).
  destruct (allocate_page a) as [[nx a']| |] eqn:Ha; [|done..].
  destruct (Z.ltb_spec end_ (blen value)) as [Hlt|Hge]; unfold write_overflow_page; (rewrite slice_ok by lia).
  - apply NoDup_cons in Hnd as [Hpn Hnd]. apply Forall_cons in Hin as [Hnx Hin]. simpl in Hlen.
    destruct (write_page_ok st pid is_root nx (sub value start (end_ - start)))
      as (k & body & -> & Hdec); [done|lia|].
    rewrite (proj2 (Z.eqb_neq _ _)) by lia.
    destruct (IH (<[pid := (k, body)]> st) a' nx end_ false)
      as (st' & a'' & ids & nx' & d & ds & -> & Hpre & Hals & Hfr & Hpd & Hct & Hdd); try done; try lia.
    exists st', a'', (nx :: ids), nx, (sub value start (end_ - start)), (d ++ ds).
    assert (forall p, p ∈ ids -> p ∈ alloc_ids fuel a').
    { intros p Hp. destruct Hpre as [rest ->]. set_solver. }
    split_and!; [done|by apply prefix_cons|by econstructor| | | |].
    + intros p Hp. rewrite Hfr by set_solver. rewrite lookup_insert_ne; [done|set_solver].
    + apply Hdec. rewrite Hfr; [by rewrite lookup_insert_eq|set_solver].
    + econstructor; [lia|exact Hpd|done].
    + rewrite Hdd. replace end_ with (start + (end_ - start)) at 2 by lia.
      rewrite <-sub_split by lia. f_equal. lia.
  - destruct (write_page_ok st pid is_root 0 (sub value start (end_ - start)))
      as (k & body & -> & Hdec); [done|lia|].
    simpl. exists (<[pid := (k, body)]> st), a, [], 0, (sub value start (end_ - start)), [].
    split_and!; [done|apply prefix_nil|constructor| | |constructor|].
    + intros p Hp. rewrite lookup_insert_ne; [done|set_solver].
    + apply Hdec. by rewrite lookup_insert_eq.
    + rewrite app_nil_r. f_equal. lia.
Qed.
End write_spec.

(** ** Whole-chain results *)

Lemma write_chain_spec {A} (alloc : A -> result (Z * A)) ps st a value :
  OVERFLOW_ROOT_HEADER_LEN + ENVELOPE_OVERHEAD < ps <= U32_MAX -> blen value <= ISIZE_MAX ->
  fresh_ids alloc (S (S (length value))) a ->
  exists root st' a' ids, write_chain alloc ps st a value = (Ok root, (st', a')) /\
    chain st' root 1 value ids /\ ids `prefix_of` alloc_ids alloc (S (S (length value))) a /\
    allocs alloc a ids a' /\ (forall p, p ∉ ids -> st' !! p = st !! p).
Proof.
  intros Hps HV (Hlen & Hnd & Hin). unfold write_chain. remember (S (length value)) as f eqn:Hf.
  cbn [alloc_ids] in Hlen, Hnd, Hin |- *. destruct (alloc a) as [[root a1]| |] eqn:Hal; [|done..]. simpl in Hlen.
  pose proof Hnd as [Hr _]%NoDup_cons. apply Forall_cons in Hin as [Hr0 Hin].
  destruct (write_chain_loop_ok alloc ps Hps value HV f st a1 root 0 true)
    as (st' & a' & ids & nx & d & ds & -> & Hpre & Hals & Hfr & Hpd & Hct & Hdd); try done; try lia.
  { pose proof (blen_nonneg value). lia. }
  { unfold blen. lia. }
  exists root, st', a', (root :: ids). split_and!; [done| |by apply prefix_cons|by econstructor|done].
  exists nx, d, ds, ids. rewrite Hdd, Z.sub_0_r, sub_full. split_and!; try done.
  apply NoDup_cons. destruct Hpre as [rest Hrest]. rewrite Hrest in Hnd.
  apply NoDup_cons in Hnd as [? Hnd]. apply NoDup_app in Hnd as [? _]. set_solver.
Qed.

Lemma read_chain_ok st root rc value ids :
  chain st root rc value ids -> blen value <= ISIZE_MAX -> read_chain st root (blen value) = Ok value.
Proof.
  intros (n & d & ds & ids' & Hr & Hc & -> & -> & Hnd) HV.
  apply NoDup_cons in Hnd as [Hni Hnd]. rewrite blen_app in *.
  pose proof (blen_nonneg ds). unfold read_chain, checked_total_len.
  rewrite (proj2 (Z.leb_le _ _)) by done. rewrite Hr. cbn [root_data next].
  rewrite (proj2 (Z.ltb_ge _ _)) by lia.
  rewrite (read_chain_loop_ok st root _ n ds ids'); try done; try lia.
  - by rewrite blen_app, Z.eqb_refl.
  - set_solver.
  - pose proof (chain_tail_fuel _ _ _ _ Hc Hnd). lia.
Qed.

Lemma read_chain_loop_inv st root total fuel out seen n v :
  read_chain_loop fuel st root total out seen n = Ok v ->
  exists ds ids, chain_tail st n ds ids /\ v = out ++ ds /\ NoDup ids /\ (forall p, p ∈ ids -> p ∉ seen).
Proof.
  revert out seen n. induction fuel as [|fuel IH]; intros out seen n; cbn [read_chain_loop];
    (destruct (Z.eqb_spec n 0) as [->|Hn];
      [intros [= <-]; exists [], []; rewrite app_nil_r; split_and!; [constructor|done|constructor|set_solver]|]);
    [done|].
  case_decide as Hs; [done|].
  destruct (read_chain_page st n) as [[n' d]| |] eqn:Hp; [|done..].
  destruct (checked_add _ _); [|done]. destruct (_ <? _); [done|].
  intros (ds & ids & Hc & -> & Hnd & Hd)%IH. exists (d ++ ds), (n :: ids).
  split_and!; [by econstructor|by rewrite app_assoc| |].
  - apply NoDup_cons. split; [|done]. intros Hin. apply Hd in Hin. set_solver.
  - intros p [->|Hp']%elem_of_cons; [done|]. apply Hd in Hp'. set_solver.
Qed.

Lemma read_chain_inv st root total v :
  read_chain st root total = Ok v ->
  blen v = total /\ total <= ISIZE_MAX /\ exists rc ids, chain st root rc v ids.
Proof.
  unfold read_chain, checked_total_len. destruct (Z.leb_spec total ISIZE_MAX); [|done].
  destruct (read_root_page st root) as [[rc n d]| |] eqn:Hr; [|done..]. cbn [root_data next].
  destruct (_ <? _); [done|].
  destruct (read_chain_loop _ _ _ _ _ _ _) as [out| |] eqn:Hl; [|done..].
  destruct (Z.eqb_spec (blen out) total); [|done]. intros [= <-].
  apply read_chain_loop_inv in Hl as (ds & ids & Hc & -> & Hnd & Hd).
  split_and!; try done. exists rc, (root :: ids), n, d, ds, ids. split_and!; try done.
  apply NoDup_cons. split; [|done]. intros Hin. apply Hd in Hin. set_solver.
Qed.

Lemma read_chain_range_ok st root rc value ids offset len :
  chain st root rc value ids -> blen value <= ISIZE_MAX -> 0 <= offset -> is_u64 len ->
  let start := Z.min offset (blen value) in
  let end_ := Z.min (start + len) (blen value) in
  read_chain_range st root (blen value) offset len = Ok (sub value start (end_ - start)).
Proof.
  intros (n & d & ds & ids' & Hr & Hc & -> & -> & Hnd) HV Ho Hlen start end_.
  apply NoDup_cons in Hnd as [Hni Hnd]. set (V := d ++ ds) in *.
  pose proof (blen_nonneg V) as HV0.
  unfold read_chain_range, checked_total_len. rewrite (proj2 (Z.leb_le _ _)) by done. fold start.
  assert (Z.min (default (blen V) (checked_add start len)) (blen V) = end_) as ->.
  { unfold ISIZE_MAX in HV. subst end_. destruct (Z.leb_spec (start + len) USIZE_MAX).
    - by rewrite checked_add_ok.
    - rewrite checked_add_none by done. simpl. unfold USIZE_MAX, U64_MAX in *. lia. }
  destruct (Z.leb_spec end_ start).
  { replace (end_ - start) with 0 by lia. done. }
  rewrite Hr. cbn [root_data next].
  pose proof (read_range_loop_ok st root V start end_ n ds ids' Hc) as Hloop.
  specialize (Hloop ltac:(lia) ltac:(lia) ltac:(lia) (S (size st)) 0 d {[root]}).
  replace (Z.max (0 - start) 0) with 0 in Hloop by lia. apply Hloop; try done; try lia.
  - set_solver.
  - pose proof (chain_tail_fuel _ _ _ _ Hc Hnd). lia.
  - unfold V. rewrite blen_app. lia.
  - apply sub_full.
Qed.

Lemma collect_chain_ok st root rc value ids :
  chain st root rc value ids -> collect_chain st root = Ok ids.
Proof.
  intros (n & d & ds & ids' & Hr & Hc & -> & -> & Hnd). apply NoDup_cons in Hnd as [Hni Hnd].
  unfold collect_chain. rewrite Hr. cbn [root_data next].
  rewrite (collect_loop_ok st root n ds ids'); try done; [set_solver|].
  pose proof (chain_tail_fuel _ _ _ _ Hc Hnd). lia.
Qed.

Lemma chain_tail_frame st st' n ds ids :
  (forall p, p ∈ ids -> st' !! p = st !! p) -> chain_tail st n ds ids -> chain_tail st' n ds ids.
Proof.
  intros Hfr Hc. induction Hc as [|pid n d ds ids Hne Hr _ IH]; [constructor|].
  econstructor; [done| |apply IH; set_solver].
  unfold read_chain_page, read_main_page in *. by rewrite Hfr by (by left).
Qed.

Lemma decode_overflow_root_fields body rc n d :
  decode_overflow_root body = Ok (rc, n, d) ->
  is_u32 rc /\ is_u64 n /\ 16 + blen d <= blen body.
Proof.
  unfold decode_overflow_root, OVERFLOW_ROOT_HEADER_LEN, OVERFLOW_ROOT_PREFIX, OVERFLOW_HEADER_LEN.
  intros H. inv_ok H.
  repeat match goal with H : slice _ _ _ = Ok _ |- _ => apply slice_inv in H as (?&?&?&->) end.
  pose proof (of_le_bound (sub body 0 (4 - 0)) 4) as B1. rewrite blen_sub in B1 by lia.
  pose proof (of_le_bound (sub body 4 (12 - 4)) 8) as B2. rewrite blen_sub in B2 by lia.
  pose proof (of_le_bound (sub body 12 (16 - 12)) 4) as B3. rewrite blen_sub in B3 by lia.
  specialize (B1 eq_refl). specialize (B2 eq_refl). specialize (B3 eq_refl).
  rewrite blen_sub by lia. lia.
Qed.

(** The copy of a root with a lowered count. *)
Lemma rewrite_root_ok ps st root new_id rc n d body :
  OVERFLOW_ROOT_HEADER_LEN + ENVELOPE_OVERHEAD < ps <= U32_MAX ->
  st !! root = Some (PageKind.OverflowRoot, body) -> blen body = body_capacity ps ->
  decode_overflow_root body = Ok (rc, n, d) -> 1 < rc ->
  exists body', encode_overflow_root (zeros (ps - ENVELOPE_OVERHEAD)) (rc - 1) n d = Ok body' /\
    write_main_page ps st new_id PageKind.OverflowRoot body'
      = Ok (<[new_id := (PageKind.OverflowRoot, body')]> st) /\
    read_root_page (<[new_id := (PageKind.OverflowRoot, body')]> st) new_id
      = Ok (mkRootPageInfo (rc - 1) n d).
Proof.
  intros Hps Hst Hb Hd Hrc. apply decode_overflow_root_fields in Hd as (? & ? & ?).
  unfold body_capacity, OVERFLOW_ROOT_HEADER_LEN, OVERFLOW_ROOT_PREFIX, OVERFLOW_HEADER_LEN,
    U32_MAX in *.
  assert (blen (zeros (ps - ENVELOPE_OVERHEAD)) = ps - ENVELOPE_OVERHEAD) as Hz
    by (apply blen_zeros; lia).
  assert (0 <= ENVELOPE_OVERHEAD) by done.
  destruct (encode_overflow_root_ok (zeros (ps - ENVELOPE_OVERHEAD)) (rc - 1) n d)
    as (b & He & Hbl & Hdec).
  - unfold overflow_root_capacity, OVERFLOW_ROOT_HEADER_LEN, OVERFLOW_ROOT_PREFIX, OVERFLOW_HEADER_LEN. lia.
  - unfold U32_MAX. lia.
  - lia.
  - done.
  - exists b. rewrite write_main_page_ok by (done || (unfold body_capacity; lia)).
    split_and!; try done. unfold read_root_page.
    rewrite (read_main_page_ok _ new_id PageKind.OverflowRoot b) by (done || by rewrite lookup_insert_eq).
    by rewrite Hdec.
Qed.

(** ** Properties *)

(** C19: a value written as an overflow chain reads back whole and by any
    clamped byte range, its page ids are exactly the ones it drew from the
    allocator, and no other page of the image changes. The allocator's next ids
    are distinct and nonzero. *)
Theorem overflow_roundtrip {A} (alloc : A -> result (Z * A)) (ps : Z) (st : Store) (a : A)
    (value : bytes) (offset len : Z) :
  OVERFLOW_ROOT_HEADER_LEN + ENVELOPE_OVERHEAD < ps <= U32_MAX -> blen value <= ISIZE_MAX ->
  fresh_ids alloc (S (S (length value))) a -> 0 <= offset -> is_u64 len ->
  exists root st' a' ids, write_chain alloc ps st a value = (Ok root, (st', a')) /\
    read_chain st' root (blen value) = Ok value /\
    (let start := Z.min offset (blen value) in
     let end_ := Z.min (start + len) (blen value) in
     read_chain_range st' root (blen value) offset len = Ok (sub value start (end_ - start))) /\
    collect_chain st' root = Ok ids /\
    ids `prefix_of` alloc_ids alloc (S (S (length value))) a /\
    (forall p, p ∉ ids -> st' !! p = st !! p).
Proof.
  intros Hps HV Hf Ho Hl.
  destruct (write_chain_spec alloc ps st a value Hps HV Hf)
    as (root & st' & a' & ids & Hw & Hc & Hp & _ & Hfr).
  exists root, st', a', ids. split_and!; [done|by eapply read_chain_ok| |by eapply collect_chain_ok|done..].
  by eapply read_chain_range_ok.
Qed.

(** A counter as allocator, over 96-byte pages: 50 bytes take two pages. *)
Definition count_up (n : Z) : result (Z * Z) := Ok (n, n + 1).

Lemma overflow_roundtrip_witness :
  exists root st' a' ids, write_chain count_up 96 ∅ 7 (zeros 50) = (Ok root, (st', a')) /\
    read_chain st' root 50 = Ok (zeros 50) /\ collect_chain st' root = Ok ids.
Proof.
  destruct (overflow_roundtrip count_up 96 ∅ 7 (zeros 50) 10 20)
    as (root & st' & a' & ids & Hw & Hr & _ & Hc & _).
  - vm_compute. split; [reflexivity|discriminate].
  - vm_compute. discriminate.
  - split; [vm_compute; reflexivity|]. split; [apply (bool_decide_unpack _); vm_compute; exact I|].
    repeat constructor; vm_compute; reflexivity.
  - lia.
  - lia.
  - exists root, st', a', ids. split; [exact Hw|]. split; [exact Hr|exact Hc].
Defined.

(** Reading a chain returns a value exactly when the pages reachable from
    the root form a finite, cycle-free chain of well-formed pages whose data
    concatenates to that value and whose length is the recorded one; on every
    other page image it returns an error, in bounded time and without panicking. *)
Theorem read_chain_exact (st : Store) (root total : Z) (v : bytes) :
  read_chain st root total <> Panic /\
  (read_chain st root total = Ok v <->
   blen v = total /\ total <= ISIZE_MAX /\ exists rc ids, chain st root rc v ids).
Proof.
  split; [apply read_chain_total|]. split; [apply read_chain_inv|].
  intros (<- & HV & rc & ids & Hc). by eapply read_chain_ok.
Qed.

Lemma release_last ps st root new_id rc value ids :
  chain st root rc value ids -> rc <= 1 -> release ps st root new_id = Ok (Freed ids, st).
Proof.
  intros (n & d & ds & ids' & Hr & Hc & -> & -> & Hnd) Hrc.
  pose proof Hnd as [Hni Hnd']%NoDup_cons. unfold release. rewrite Hr. cbn [refcount next root_data].
  rewrite (proj2 (Z.leb_le _ _)) by lia.
  rewrite (collect_loop_ok st root n ds ids'); try done; [set_solver|].
  pose proof (chain_tail_fuel _ _ _ _ Hc Hnd'). lia.
Qed.

(** C29: releasing a chain with refcount at most 1 returns exactly the chain's
    pages and writes nothing; with a higher count it writes, at the new page id,
    a root with the count lowered by one that heads the same value, and leaves
    the old chain as it was. *)
Theorem release_spec (ps : Z) (st : Store) (root new_id rc : Z) (value : bytes) (ids : list Z) :
  OVERFLOW_ROOT_HEADER_LEN + ENVELOPE_OVERHEAD < ps <= U32_MAX ->
  chain st root rc value ids -> new_id ∉ ids -> 0 <= rc < 2 ^ 32 ->
  (forall body, st !! root = Some (PageKind.OverflowRoot, body) -> blen body = body_capacity ps) ->
  if rc <=? 1 then release ps st root new_id = Ok (Freed ids, st)
  else exists st', release ps st root new_id = Ok (Decremented, st') /\
         chain st' new_id (rc - 1) value (new_id :: tail ids) /\ chain st' root rc value ids /\
         (forall p, p <> new_id -> st' !! p = st !! p).
Proof.
  intros Hps Hch Hnew Hrc Hbody. destruct (Z.leb_spec rc 1); [by eapply release_last|].
  destruct Hch as (n & d & ds & ids' & Hr & Hc & -> & -> & Hnd).
  pose proof Hnd as [Hni Hnd']%NoDup_cons. unfold release. rewrite Hr. cbn [refcount next root_data].
  rewrite (proj2 (Z.leb_gt rc 1)) by lia.
  - pose proof Hr as Hr'. unfold read_root_page in Hr'.
    destruct (read_main_page st root PageKind.OverflowRoot) as [body| |] eqn:Hm; [|done..].
    apply read_main_page_inv in Hm. specialize (Hbody body Hm).
    destruct (decode_overflow_root body) as [[[rc' n'] d']| |] eqn:Hd; [|done..]. simplify_eq.
    destruct (rewrite_root_ok ps st root new_id rc n d body) as (b & -> & -> & Hnr); try done.
    assert (forall p, p <> new_id -> <[new_id:=(PageKind.OverflowRoot, b)]> st !! p = st !! p) as Hfr
      by (intros; by apply lookup_insert_ne).
    assert (chain_tail (<[new_id:=(PageKind.OverflowRoot, b)]> st) n ds ids') as Hc'
      by (apply (chain_tail_frame st); [intros p Hp; apply Hfr; set_solver|done]).
    eexists. split_and!; [done| | |done].
    + exists n, d, ds, ids'. simpl. split_and!; try done. apply NoDup_cons. set_solver.
    + exists n, d, ds, ids'. split_and!; try done.
      unfold read_root_page, read_main_page in Hr |- *. rewrite Hfr by set_solver. done.
Qed.

(** A root with refcount 3 heading a one-page chain. *)
Definition shared_store : Store :=
  match encode_overflow_root (zeros 56) 3 0 [Byte.x01; Byte.x02] with
  | Ok b => {[ 7 := (PageKind.OverflowRoot, b) ]}
  | _ => ∅
  end.

Lemma release_spec_witness :
  exists st', release 96 shared_store 7 8 = Ok (Decremented, st') /\
    chain st' 8 2 [Byte.x01; Byte.x02] [8].
Proof.
  destruct (release_spec 96 shared_store 7 8 3 [Byte.x01; Byte.x02] [7]) as (st' & Hr & Hc & _).
  - vm_compute. split; [reflexivity|discriminate].
  - exists 0, [Byte.x01; Byte.x02], [], []. split; [vm_compute; reflexivity|].
    split; [constructor|]. split; [reflexivity|]. split; [reflexivity|].
    apply (bool_decide_unpack _). vm_compute. exact I.
  - apply (bool_decide_unpack _). vm_compute. exact I.
  - lia.
  - intros body. vm_compute. intros [= <-]. reflexivity.
  - exists st'. split; [exact Hr|exact Hc].
Defined.
