(* ===== verification/Tree.v ===== *)
(** * Tree: the copy-on-write B+ tree, its state and its descents

    [src/src/btree/tree/core.rs], [page_source.rs], [navigate.rs], [read.rs]:
    the write-session state, page allocation and release, the duplicate-page
    detector, descents, sibling steps and point reads. The operations that change
    the tree are in [TreeWrite]. *)

From S2P Require Import Prelude Keys Errors PageFormat Node Leaf Internal Split Store Overflow.
From Stdlib Require Import ZArith Lia.
From stdpp Require Import base list strings gmap.

Local Open Scope Z_scope.
Local Open Scope pagedb_scope.

(** ** Session state *)

(** [PageSource]; the cache and the sink are shared by the trees of one
    session, which run one after the other. *)
Record PageSource := mkPageSource {
  reuse_threshold : Z;
  cache : list Z;
  consumed : gset Z;
}.

(** The pager is part of the state: [bt_pages] is the page image behind it. *)
Record BTree := mkBTree {
  bt_pages : Store;
  root_page_id : Z;
  next_page_id : Z;
  freed : list Z;
  freed_reusable : list Z;
  page_size : Z;
  dirty_leaves : gmap Z Leaf;
  scheduled_frees : list Z;
  dirty_parent_paths : gmap Z (list Z);
  fresh_leaves : gmap Z Leaf;
  page_source : option PageSource;
  append_last_key : option bytes;
  append_cached_path : option (list Z);
}.

Definition btree_new (pages : Store) (root next ps : Z) (source : option PageSource) : BTree :=
  mkBTree pages root (Z.max next 4) [] [] ps ∅ [] ∅ ∅ source None None.

Definition btree_open (pages : Store) (root next ps : Z) : BTree :=
  btree_new pages root next ps None.
Definition btree_open_session (pages : Store) (root next ps : Z) (source : PageSource) : BTree :=
  btree_new pages root next ps (Some source).

(** Field updates. *)
Definition with_pages (f : Store -> Store) (t : BTree) : BTree :=
  mkBTree (f (bt_pages t)) (root_page_id t) (next_page_id t) (freed t) (freed_reusable t)
    (page_size t) (dirty_leaves t) (scheduled_frees t) (dirty_parent_paths t) (fresh_leaves t)
    (page_source t) (append_last_key t) (append_cached_path t).
Definition with_root (r : Z) (t : BTree) : BTree :=
  mkBTree (bt_pages t) r (next_page_id t) (freed t) (freed_reusable t)
    (page_size t) (dirty_leaves t) (scheduled_frees t) (dirty_parent_paths t) (fresh_leaves t)
    (page_source t) (append_last_key t) (append_cached_path t).
Definition with_next (n : Z) (t : BTree) : BTree :=
  mkBTree (bt_pages t) (root_page_id t) n (freed t) (freed_reusable t)
    (page_size t) (dirty_leaves t) (scheduled_frees t) (dirty_parent_paths t) (fresh_leaves t)
    (page_source t) (append_last_key t) (append_cached_path t).
Definition with_freed (fr re : list Z) (t : BTree) : BTree :=
  mkBTree (bt_pages t) (root_page_id t) (next_page_id t) fr re
    (page_size t) (dirty_leaves t) (scheduled_frees t) (dirty_parent_paths t) (fresh_leaves t)
    (page_source t) (append_last_key t) (append_cached_path t).
Definition with_dirty (f : gmap Z Leaf -> gmap Z Leaf) (t : BTree) : BTree :=
  mkBTree (bt_pages t) (root_page_id t) (next_page_id t) (freed t) (freed_reusable t)
    (page_size t) (f (dirty_leaves t)) (scheduled_frees t) (dirty_parent_paths t) (fresh_leaves t)
    (page_source t) (append_last_key t) (append_cached_path t).
Definition with_scheduled (l : list Z) (t : BTree) : BTree :=
  mkBTree (bt_pages t) (root_page_id t) (next_page_id t) (freed t) (freed_reusable t)
    (page_size t) (dirty_leaves t) l (dirty_parent_paths t) (fresh_leaves t)
    (page_source t) (append_last_key t) (append_cached_path t).
Definition with_paths (f : gmap Z (list Z) -> gmap Z (list Z)) (t : BTree) : BTree :=
  mkBTree (bt_pages t) (root_page_id t) (next_page_id t) (freed t) (freed_reusable t)
    (page_size t) (dirty_leaves t) (scheduled_frees t) (f (dirty_parent_paths t)) (fresh_leaves t)
    (page_source t) (append_last_key t) (append_cached_path t).
Definition with_fresh (f : gmap Z Leaf -> gmap Z Leaf) (t : BTree) : BTree :=
  mkBTree (bt_pages t) (root_page_id t) (next_page_id t) (freed t) (freed_reusable t)
    (page_size t) (dirty_leaves t) (scheduled_frees t) (dirty_parent_paths t) (f (fresh_leaves t))
    (page_source t) (append_last_key t) (append_cached_path t).
Definition with_source (s : option PageSource) (t : BTree) : BTree :=
  mkBTree (bt_pages t) (root_page_id t) (next_page_id t) (freed t) (freed_reusable t)
    (page_size t) (dirty_leaves t) (scheduled_frees t) (dirty_parent_paths t) (fresh_leaves t)
    s (append_last_key t) (append_cached_path t).
Definition with_append (k : option bytes) (p : option (list Z)) (t : BTree) : BTree :=
  mkBTree (bt_pages t) (root_page_id t) (next_page_id t) (freed t) (freed_reusable t)
    (page_size t) (dirty_leaves t) (scheduled_frees t) (dirty_parent_paths t) (fresh_leaves t)
    (page_source t) k p.

(** ** Operations that change the session *)

(** A [&mut self] method: a result and the session it leaves behind, on errors
    too. *)
Definition M (A : Type) : Type := BTree -> result A * BTree.

Definition ret {A} (a : A) : M A := fun t => (Ok a, t).
Definition lift {A} (r : result A) : M A := fun t => (r, t).
Definition bind {A B} (m : M A) (k : A -> M B) : M B :=
  fun t => match m t with
           | (Ok a, t) => k a t
           | (Err e, t) => (Err e, t)
           | (Panic, t) => (Panic, t)
           end.
Definition modify (f : BTree -> BTree) : M unit := fun t => (Ok tt, f t).
(** A [&self] method. *)
Definition gets {A} (f : BTree -> result A) : M A := fun t => (f t, t).

Notation "'do!' x ':=' c 'in' k" := (bind c (fun x => k))
  (at level 10, x name, c at level 100, k at level 200,
   format "'[v' 'do!'  x  ':='  c  'in' '/' k ']'") : pagedb_scope.
Notation "'do!' ' p ':=' c 'in' k" := (bind c (fun p => k))
  (at level 10, p strict pattern, c at level 100, k at level 200,
   format "'[v' 'do!'  ' p  ':='  c  'in' '/' k ']'") : pagedb_scope.

Definition set_next_page_id (value : Z) (t : BTree) : BTree :=
  if next_page_id t <? value then with_next value t else t.

(** [Vec::pop] *)
Definition vec_pop {A} (l : list A) : option (A * list A) :=
  match reverse l with
  | [] => None
  | x :: r => Some (x, reverse r)
  end.

Definition allocate_page : M Z := fun t =>
  match vec_pop (freed_reusable t) with
  | Some (id, rest) =>
      let t := with_freed (freed t) rest t in
      if 4 <=? id then (Ok id, t) else (Panic, t)
  | None =>
      match (source ← page_source t; p ← vec_pop (cache source); Some (source, p)) with
      | Some (source, (id, rest)) =>
          if 4 <=? id
          then (Ok id, with_source (Some (mkPageSource (reuse_threshold source) rest
                                            ({[id]} ∪ consumed source))) t)
          else (Panic, t)
      | None =>
          let id := next_page_id t in
          if 4 <=? id then (Ok id, with_next (id + 1) t) else (Panic, t)
      end
  end.

Definition is_reusable_in_session (page_id : Z) (t : BTree) : bool :=
  match page_source t with
  | None => true
  | Some source => (reuse_threshold source <=? page_id) || bool_decide (page_id ∈ consumed source)
  end.

Definition free_page (page_id : Z) : M unit := fun t =>
  if negb (4 <=? page_id) then (Panic, t) else
  if is_reusable_in_session page_id t
  then (Ok tt, with_freed (freed t) (freed_reusable t ++ [page_id]) t)
  else (Ok tt, with_freed (freed t ++ [page_id]) (freed_reusable t) t).

Definition drain_freed (t : BTree) : list Z * BTree :=
  (freed t ++ freed_reusable t ++ scheduled_frees t,
   with_scheduled [] (with_freed [] [] t)).

(** ** Page access *)

Definition stored_leaf_value_encoded_size (value_len ps : Z) : result Z :=
  if inline_value_threshold ps <? value_len then Ok OVERFLOW_REF_ENCODED_SIZE
  else ok_or (checked_add 2 value_len) PayloadTooLarge.

Definition validate_insert_record_fits (t : BTree) (key value : bytes) : result unit :=
  let! value_encoded_size := stored_leaf_value_encoded_size (blen value) (page_size t) in
  if negb (single_record_fits_encoded (blen key) value_encoded_size (page_size t))
     || negb (separator_fits (blen key) (page_size t))
  then Err PayloadTooLarge else Ok tt.

Definition read_node_guard (t : BTree) (page_id : Z) : result (bytes * NodeKind.t) :=
  let! '(body, authenticated_kind) := read_main_node (bt_pages t) page_id in
  let! h := read_header body in
  let decoded_kind := kind h in
  let! expected_kind :=
    match authenticated_kind with
    | PageKind.BTreeLeaf => Ok NodeKind.Leaf
    | PageKind.BTreeInternal => Ok NodeKind.Internal
    | _ => Err IllegalPageKind
    end in
  if negb (bool_decide (decoded_kind = expected_kind))
  then Err (node_kind_mismatch (Some page_id) (NodeKind.name expected_kind)
              (NodeKind.name decoded_kind))
  else Ok (body, decoded_kind).

Definition decode_leaf_from_pager (t : BTree) (page_id : Z) : result Leaf :=
  let! body := read_main_page (bt_pages t) page_id PageKind.BTreeLeaf in
  leaf_decode body.

Definition read_leaf (t : BTree) (page_id : Z) : result Leaf :=
  match fresh_leaves t !! page_id with
  | Some leaf => Ok leaf
  | None =>
      match dirty_leaves t !! page_id with
      | Some leaf => Ok leaf
      | None => decode_leaf_from_pager t page_id
      end
  end.

Definition read_internal (t : BTree) (page_id : Z) : result Internal :=
  let! body := read_main_page (bt_pages t) page_id PageKind.BTreeInternal in
  internal_decode body.

(** A staged page write. *)
Definition write_page (page_id : Z) (k : PageKind.t) (body : bytes) : M unit := fun t =>
  match write_main_page (page_size t) (bt_pages t) page_id k body with
  | Ok st => (Ok tt, with_pages (fun _ => st) t)
  | Err e => (Err e, t)
  | Panic => (Panic, t)
  end.

Definition write_leaf (page_id : Z) (leaf : Leaf) : M unit :=
  do! body := gets (fun t => leaf_encode leaf (zeros (body_capacity (page_size t)))) in
  write_page page_id PageKind.BTreeLeaf body.

Definition write_internal (page_id : Z) (n : Internal) : M unit :=
  do! body := gets (fun t => internal_encode n (zeros (body_capacity (page_size t)))) in
  write_page page_id PageKind.BTreeInternal body.

(** The first slot whose child is [child]. *)
Fixpoint find_child_slot (a : InternalAccessor) (child : Z) (slots : list nat)
  : result (option nat) :=
  match slots with
  | [] => Ok None
  | i :: slots =>
      let! c := entry_right_child a i in
      if c =? child then Ok (Some i) else find_child_slot a child slots
  end.

(** The patched copy of an internal page body. *)
Definition repoint_child (body : bytes) (child_old child_new : Z) : result bytes :=
  let! accessor := (internal_from_guard body false).1 in
  if ia_leftmost_child accessor =? child_old then write_u64_le body OFF_DUAL_USE child_new
  else
    let! slot := find_child_slot accessor child_old (seq 0 (Z.to_nat (ia_slot_count accessor))) in
    match slot with
    | Some idx =>
        let! offset := right_child_offset accessor idx in
        write_u64_le body offset child_new
    | None => Ok body
    end.

Definition cow_internal_repointing_child (old_page_id new_page_id child_old child_new : Z)
  : M unit :=
  do! body := gets (fun t =>
    let! body := read_main_page (bt_pages t) old_page_id PageKind.BTreeInternal in
    repoint_child body child_old child_new) in
  write_page new_page_id PageKind.BTreeInternal body.

(** ** The duplicate-page detector *)

Definition malformed_btree_topology (structure : string) (page_id : Z) : PagedbError :=
  page_chain_cycle structure page_id.

Definition INLINE_SEEN_PAGE_IDS : nat := 4.

Record SeenPageIds := mkSeen {
  seen_structure : string;
  seen_inline : list Z;
  seen_len : nat;
  seen_overflow : option (gset Z);
}.

Definition seen_new (structure : string) : SeenPageIds :=
  mkSeen structure (replicate INLINE_SEEN_PAGE_IDS 0) 0 None.

Definition seen_insert_inner (s : SeenPageIds) (page_id : Z) : bool * SeenPageIds :=
  match seen_overflow s with
  | Some overflow =>
      (bool_decide (page_id ∉ overflow),
       mkSeen (seen_structure s) (seen_inline s) (seen_len s) (Some ({[page_id]} ∪ overflow)))
  | None =>
      if bool_decide (page_id ∈ take (seen_len s) (seen_inline s)) then (false, s) else
      if (seen_len s <? INLINE_SEEN_PAGE_IDS)%nat then
        (true, mkSeen (seen_structure s) (<[seen_len s := page_id]> (seen_inline s))
                 (S (seen_len s)) None)
      else
        let overflow := list_to_set (seen_inline s) : gset Z in
        (bool_decide (page_id ∉ overflow),
         mkSeen (seen_structure s) (seen_inline s) (seen_len s) (Some ({[page_id]} ∪ overflow)))
  end.

Definition seen_insert (s : SeenPageIds) (page_id : Z) : result SeenPageIds :=
  if page_id =? 0 then Err (malformed_btree_topology (seen_structure s) page_id) else
  let '(inserted, s') := seen_insert_inner s page_id in
  if (inserted : bool) then Ok s' else Err (malformed_btree_topology (seen_structure s) page_id).

Definition seen_from_existing (structure : string) (path : list Z) : result SeenPageIds :=
  fold_res seen_insert (seen_new structure) path.

(** ** Descents

    Each step of a descent reads a page it has not visited, so one step more than
    the number of pages is enough fuel. *)

Definition nav_fuel (t : BTree) : nat := S (size (bt_pages t)).

(** A descent from [page_id] that takes the child [pick] chooses at every
    branch node, appending to [path]. *)
Fixpoint descend (fuel : nat) (t : BTree) (pick : bytes -> result Z) (path : list Z)
    (page_id : Z) (seen : SeenPageIds) : result (list Z) :=
  let! seen := seen_insert seen page_id in
  let path := path ++ [page_id] in
  if bool_decide (is_Some (fresh_leaves t !! page_id)) then Ok path else
  let! '(body, k) := read_node_guard t page_id in
  match k with
  | NodeKind.Leaf => Ok path
  | NodeKind.Internal =>
      let! next := pick body in
      match fuel with
      | O => Panic
      | S fuel => descend fuel t pick path next seen
      end
  end.

(** [InternalAccessor::from_guard(..)?.child_for(key)] *)
Definition pick_child_for (key : bytes) (body : bytes) : result Z :=
  let! a := (internal_from_guard body false).1 in child_for a key.
(** [Internal::decode(..)?], then its last or its leftmost child. *)
Definition pick_rightmost (body : bytes) : result Z :=
  let! n := internal_decode body in
  Ok (match last (entries n) with Some e => e.2 | None => leftmost_child n end).
Definition pick_leftmost (body : bytes) : result Z :=
  let! n := internal_decode body in Ok (leftmost_child n).

Definition path_to_leaf_for_key (t : BTree) (key : bytes) : result (list Z) :=
  descend (nav_fuel t) t (pick_child_for key) [] (root_page_id t) (seen_new "btree_descent").

Definition path_to_rightmost_leaf (t : BTree) : result (list Z) :=
  descend (nav_fuel t) t pick_rightmost [] (root_page_id t) (seen_new "btree_descent").

(** ** Separator bounds of a path *)

Record LeafBounds := mkLeafBounds { lower : option bytes; upper : option bytes }.

Definition bounds_contains (b : LeafBounds) (key : bytes) : bool :=
  match lower b with Some lo => bytes_leb lo key | None => true end &&
  match upper b with Some hi => bytes_ltb key hi | None => true end.

(** [Option::get_or_insert]-style: the bound found first wins. *)
Definition first_of {A} (a b : option A) : option A :=
  match a with Some _ => a | None => b end.

(** The index of the first separator whose right child is [child]. *)
Fixpoint child_index (es : list InternalEntry) (child : Z) : option nat :=
  match es with
  | [] => None
  | (_, c) :: es => if c =? child then Some O else S <$> child_index es child
  end.

(** The walk over the internal pages of a path, deepest first. *)
Fixpoint separator_bounds_loop (t : BTree) (pages : list Z) (child : Z) (b : LeafBounds)
  : result LeafBounds :=
  match pages with
  | [] => Ok b
  | internal_page :: pages =>
      let! '(body, _) := read_node_guard t internal_page in
      let! n := internal_decode body in
      let b :=
        if leftmost_child n =? child then
          mkLeafBounds (lower b) (first_of (upper b) (fst <$> head (entries n)))
        else
          match child_index (entries n) child with
          | Some index =>
              mkLeafBounds (first_of (lower b) (fst <$> entries n !! index))
                (first_of (upper b) (fst <$> entries n !! (index + 1)%nat))
          | None => b
          end in
      if bool_decide (is_Some (lower b)) && bool_decide (is_Some (upper b)) then Ok b
      else separator_bounds_loop t pages internal_page b
  end.

Definition separator_bounds_for_path (t : BTree) (path : list Z) : result LeafBounds :=
  match last path with
  | None => Ok (mkLeafBounds None None)
  | Some child =>
      separator_bounds_loop t (tail (reverse path)) child (mkLeafBounds None None)
  end.

(** ** The next and the previous leaf *)

Definition right_sibling_child (n : Internal) (child : Z) : option Z :=
  if leftmost_child n =? child then snd <$> head (entries n)
  else i ← child_index (entries n) child; snd <$> entries n !! (i + 1)%nat.

Definition left_sibling_child (n : Internal) (child : Z) : option Z :=
  if leftmost_child n =? child then None
  else i ← child_index (entries n) child;
       match i with
       | O => Some (leftmost_child n)
       | S prev => snd <$> entries n !! prev
       end.

(** The walk up [ancestors] (deepest first, each with the path that leads to it)
    to the first one in which the current subtree has a sibling, then down. *)
Fixpoint sibling_leaf_loop (t : BTree) (sibling : Internal -> Z -> option Z)
    (pick : bytes -> result Z) (rev_path : list Z) (child : Z) (seen : SeenPageIds)
  : result (option (list Z)) :=
  match rev_path with
  | [] => Ok None
  | p :: up =>
      let! '(body, _) := read_node_guard t p in
      let! n := internal_decode body in
      match sibling n child with
      | Some cur =>
          let! path := descend (nav_fuel t) t pick (reverse (p :: up)) cur seen in
          Ok (Some path)
      | None => sibling_leaf_loop t sibling pick up p seen
      end
  end.

Definition sibling_leaf (t : BTree) (sibling : Internal -> Z -> option Z)
    (pick : bytes -> result Z) (path : list Z) : result (option (list Z)) :=
  if (length path <? 2)%nat then Ok None else
  let! seen := seen_from_existing "btree_descent" path in
  match reverse path with
  | [] => Ok None
  | child :: up => sibling_leaf_loop t sibling pick up child seen
  end.

Definition next_leaf_after (t : BTree) (path : list Z) : result (option (list Z)) :=
  sibling_leaf t right_sibling_child pick_leftmost path.

Definition prev_leaf_before (t : BTree) (path : list Z) : result (option (list Z)) :=
  sibling_leaf t left_sibling_child pick_rightmost path.

(** ** Point reads *)

Definition resolve_leaf_value (t : BTree) (v : LeafValue) : result bytes :=
  match v with
  | Inline b => Ok b
  | Leaf.Overflow total_len root => read_chain (bt_pages t) root total_len
  end.

Definition value_from_cached_leaf (t : BTree) (leaf : Leaf) (key : bytes)
  : result (option bytes) :=
  match leaf_get leaf key with
  | None => Ok None
  | Some (Inline v) => Ok (Some v)
  | Some (Leaf.Overflow total_len root) =>
      let! v := read_chain (bt_pages t) root total_len in Ok (Some v)
  end.

Definition extract_leaf_value (t : BTree) (key : bytes) (leaf_page_id : Z) (body : bytes)
  : result (option bytes) :=
  match first_of (fresh_leaves t !! leaf_page_id) (dirty_leaves t !! leaf_page_id) with
  | Some leaf => value_from_cached_leaf t leaf key
  | None =>
      let! leaf := (leaf_from_guard body false).1 in
      let! found := la_find leaf key in
      match found with
      | None => Ok None
      | Some idx =>
          let! loc := value_loc leaf idx in
          match loc with
          | InlineLoc start end_ => let! v := slice body start end_ in Ok (Some v)
          | OverflowLoc total_len root =>
              let! v := read_chain (bt_pages t) root total_len in Ok (Some v)
          end
      end
  end.

(** The descent of [get_from_node], below its first level. *)
Fixpoint get_loop (fuel : nat) (t : BTree) (key : bytes) (page_id : Z) (seen : SeenPageIds)
  : result (option bytes) :=
  let! seen := seen_insert seen page_id in
  match fresh_leaves t !! page_id with
  | Some leaf => value_from_cached_leaf t leaf key
  | None =>
      let! '(body, k) := read_node_guard t page_id in
      match k with
      | NodeKind.Leaf => extract_leaf_value t key page_id body
      | NodeKind.Internal =>
          let! next := pick_child_for key body in
          match fuel with
          | O => Panic
          | S fuel => get_loop fuel t key next seen
          end
      end
  end.

Definition get_from_node (t : BTree) (key : bytes) (start_page_id : Z) (start_body : bytes)
    (start_kind : NodeKind.t) : result (option bytes) :=
  match start_kind with
  | NodeKind.Leaf => extract_leaf_value t key start_page_id start_body
  | NodeKind.Internal =>
      let! next_page_id := pick_child_for key start_body in
      let! seen := seen_insert (seen_new "btree_descent") start_page_id in
      get_loop (nav_fuel t) t key next_page_id seen
  end.

Definition get (t : BTree) (key : bytes) : result (option bytes) :=
  if root_page_id t =? 0 then Ok None else
  match fresh_leaves t !! root_page_id t with
  | Some leaf => value_from_cached_leaf t leaf key
  | None =>
      let! '(root_body, root_kind) := read_node_guard t (root_page_id t) in
      get_from_node t key (root_page_id t) root_body root_kind
  end.

(** [path.last().expect("non-empty path")] *)
Definition path_leaf (path : list Z) : result Z :=
  match last path with Some p => Ok p | None => Panic end.

Definition get_range (t : BTree) (key : bytes) (offset len : Z) : result (option bytes) :=
  if root_page_id t =? 0 then Ok None else
  let! path := path_to_leaf_for_key t key in
  let! leaf_id := path_leaf path in
  let! leaf := read_leaf t leaf_id in
  match list_find (fun r : leaf_record => r.1 = key) (records leaf) with
  | None => Ok None
  | Some (_, (_, Inline b)) =>
      let start := Z.min offset (blen b) in
      let end_ := Z.min (default (blen b) (checked_add start len)) (blen b) in
      let! v := slice b start end_ in Ok (Some v)
  | Some (_, (_, Leaf.Overflow total_len root)) =>
      let! v := read_chain_range (bt_pages t) root total_len offset len in Ok (Some v)
  end.
