(* ===== verification/TreeWrite.v ===== *)
(** * TreeWrite: the operations of the B+ tree that change it

    [src/src/btree/tree/write.rs], the split propagation of [navigate.rs], and
    [flush.rs]. Hash-map iteration order is a parameter ([drain]): the operations
    that iterate over one hold for every order. *)

From S2P Require Import Prelude Keys Errors PageFormat Node Leaf Internal Split Store Overflow Tree.
From Stdlib Require Import ZArith Lia.
From stdpp Require Import base list strings gmap sorting.

Local Open Scope Z_scope.
Local Open Scope pagedb_scope.

(** ** Split propagation *)

(** The first entry whose right child is [old] gets [new]. *)
Fixpoint replace_right_child (es : list InternalEntry) (old new : Z) : list InternalEntry :=
  match es with
  | [] => []
  | (k, c) :: es => if c =? old then (k, new) :: es else (k, c) :: replace_right_child es old new
  end.

Definition replace_child (n : Internal) (old new : Z) : Internal :=
  if leftmost_child n =? old then mkInternal new (entries n)
  else mkInternal (leftmost_child n) (replace_right_child (entries n) old new).

Definition remap_dirty_parent_paths (old new : Z) (t : BTree) : BTree :=
  with_paths (fun paths : gmap Z (list Z) =>
    map (fun p => if p =? old then new else p) <$> paths) t.

(** One path under a split of [old]; [path] still holds the hops as they were
    when an element is looked at, since only earlier elements have changed. *)
Fixpoint remap_path_split (old left_new right_new : Z) (right_children : gset Z) (leaf_id : Z)
    (path : list Z) : list Z :=
  match path with
  | [] => []
  | p :: rest =>
      let next_hop := match rest with q :: _ => q | [] => leaf_id end in
      (if p =? old
       then if bool_decide (next_hop ∈ right_children) then right_new else left_new
       else p) :: remap_path_split old left_new right_new right_children leaf_id rest
  end.

Definition remap_dirty_parent_paths_split (old left_new right_new : Z) (right : Internal)
    (t : BTree) : BTree :=
  with_paths (map_imap (fun leaf_id path =>
    Some (remap_path_split old left_new right_new (list_to_set (children right)) leaf_id path))) t.

(** The ancestors above a level that did not split: [ancestors] deepest first. *)
Fixpoint cow_ancestors (ancestors : list Z) (child_old child_new : Z) : M Z :=
  match ancestors with
  | [] => ret child_new
  | p :: up =>
      do! new_p := allocate_page in
      do! _ := cow_internal_repointing_child p new_p child_old child_new in
      do! _ := free_page p in
      do! _ := modify (remap_dirty_parent_paths p new_p) in
      cow_ancestors up p new_p
  end.

(** The loop of [propagate_split_up]; [ancestors] are the internal pages of the
    path still above, deepest first. *)
Fixpoint propagate_loop (ancestors : list Z) (child_old left_replacement : Z)
    (sep_to_insert : bytes) (right_to_insert : Z) : M unit :=
  match ancestors with
  | [] =>
      do! new_root_page := allocate_page in
      do! _ := write_internal new_root_page
                 (mkInternal left_replacement [(sep_to_insert, right_to_insert)]) in
      do! _ := modify (with_root new_root_page) in
      modify (with_paths (fun paths : gmap Z (list Z) => cons new_root_page <$> paths))
  | internal_page :: up =>
      do! n := gets (fun t => read_internal t internal_page) in
      let n := replace_child n child_old left_replacement in
      let n := internal_upsert n sep_to_insert right_to_insert in
      do! new_internal_page := allocate_page in
      do! fits := gets (fun t => Ok (internal_fits n (page_size t))) in
      if negb (fits : bool) then
        do! '(left_half, right_half, promoted) := lift (split_internal n) in
        do! right_internal_page := allocate_page in
        do! _ := write_internal new_internal_page left_half in
        do! _ := write_internal right_internal_page right_half in
        do! _ := free_page internal_page in
        do! _ := modify (remap_dirty_parent_paths_split internal_page new_internal_page
                           right_internal_page right_half) in
        propagate_loop up internal_page new_internal_page promoted right_internal_page
      else
        do! _ := write_internal new_internal_page n in
        do! _ := free_page internal_page in
        do! _ := modify (remap_dirty_parent_paths internal_page new_internal_page) in
        do! new_root := cow_ancestors up internal_page new_internal_page in
        modify (with_root new_root)
  end.

Definition propagate_split_up (path : list Z) (new_left_child new_right_child : Z)
    (promoted_key : bytes) : M unit :=
  match reverse path with
  | [] => lift Panic
  | child_old :: ancestors =>
      propagate_loop ancestors child_old new_left_child promoted_key new_right_child
  end.

(** ** Cached leaves *)

Definition invalidate_append_state : BTree -> BTree := with_append None None.

Definition cached_leaf (page_id : Z) (leaf_is_fresh : bool) : M Leaf :=
  gets (fun t =>
    match (if leaf_is_fresh then fresh_leaves t !! page_id else dirty_leaves t !! page_id) with
    | Some l => Ok l
    | None => Panic
    end).

(** Writing back through the [&mut Leaf] of [cached_leaf_mut]. *)
Definition set_cached_leaf (page_id : Z) (leaf_is_fresh : bool) (l : Leaf) : BTree -> BTree :=
  if leaf_is_fresh then with_fresh (<[page_id := l]>) else with_dirty (<[page_id := l]>).

Definition ensure_leaf_dirty (page_id : Z) (path : list Z) : M unit := fun t =>
  match dirty_leaves t !! page_id with
  | Some _ => (Ok tt, t)
  | None =>
      (do! leaf := gets (fun t => decode_leaf_from_pager t page_id) in
       do! _ := modify (with_dirty (<[page_id := leaf]>)) in
       do! _ := modify (fun t => with_scheduled (scheduled_frees t ++ [page_id]) t) in
       modify (with_paths (<[page_id := take (length path - 1) path]>))) t
  end.

Fixpoint free_pages (ids : list Z) : M unit :=
  match ids with
  | [] => ret tt
  | p :: ids => do! _ := free_page p in free_pages ids
  end.

Definition apply_release_result (old_root unused_cow_page : Z) (r : ReleaseResult) : M unit :=
  match r with
  | Freed freed_pages => do! _ := free_pages freed_pages in free_page unused_cow_page
  | Decremented => free_page old_root
  end.

(** Errors on this path are logged, not returned. *)
Definition discard_uncommitted_value (v : option LeafValue) : M unit :=
  match v with
  | Some (Leaf.Overflow _ root) => fun t =>
      match collect_chain (bt_pages t) root with
      | Ok ids => free_pages ids t
      | Err _ => (Ok tt, t)
      | Panic => (Panic, t)
      end
  | _ => ret tt
  end.

(** [overflow::release] on the session's pager. *)
Definition release_chain (root new_page_id : Z) : M ReleaseResult := fun t =>
  match release (page_size t) (bt_pages t) root new_page_id with
  | Ok (r, st) => (Ok r, with_pages (fun _ => st) t)
  | Err e => (Err e, t)
  | Panic => (Panic, t)
  end.

(** [match m.await { Ok(..) => .., Err(error) => { cleanup; return Err(error) } }] *)
Definition on_err {A} (m : M A) (cleanup : M unit) : M A := fun t =>
  match m t with
  | (Err e, t) =>
      match cleanup t with
      | (Panic, t) => (Panic, t)
      | (_, t) => (Err e, t)
      end
  | r => r
  end.

(** The allocator of the session, as [write_chain] calls it. *)
Definition session_alloc (t : BTree) : result (Z * BTree) :=
  match allocate_page t with
  | (Ok id, t) => Ok (id, t)
  | (Err e, _) => Err e
  | (Panic, _) => Panic
  end.

Definition leaf_value_for (value : bytes) : M LeafValue := fun t =>
  if inline_value_threshold (page_size t) <? blen value then
    let '(r, (st, t)) := write_chain session_alloc (page_size t) (bt_pages t) t value in
    (let! root := r in Ok (Leaf.Overflow (blen value) root), with_pages (fun _ => st) t)
  else (Ok (Inline value), t).

(** ** Insertion *)

(** [Vec::swap_remove] *)
Definition swap_remove {A} (l : list A) (pos : nat) : list A :=
  match last l with
  | None => l
  | Some x => take (length l - 1) (<[pos := x]> l)
  end.

(** Drops the first occurrence of [p], if there is one. *)
Definition swap_remove_value (p : Z) (l : list Z) : list Z :=
  match list_find (fun q => q = p) l with
  | Some (pos, _) => swap_remove l pos
  | None => l
  end.

Definition is_monotonic (l : Leaf) (key : bytes) : bool :=
  match last (records l) with Some (k, _) => bytes_ltb k key | None => false end &&
  negb (existsb (fun r : leaf_record => bool_decide (r.1 = key)) (records l)).

(** Releases the chain of a value that has been replaced by [key]'s new value;
    when that fails the old value goes back and the new one is discarded. *)
Definition release_replaced (leaf_page_id : Z) (leaf_is_fresh : bool) (key : bytes)
    (old_value : option LeafValue) : M unit :=
  match old_value with
  | Some (Leaf.Overflow total_len old_root as v) =>
      do! new_cow_page := allocate_page in
      do! r := on_err (release_chain old_root new_cow_page)
        (do! _ := free_page new_cow_page in
         do! leaf := cached_leaf leaf_page_id leaf_is_fresh in
         let '(leaf, (_, attempted)) := leaf_upsert leaf key v in
         do! _ := modify (set_cached_leaf leaf_page_id leaf_is_fresh leaf) in
         discard_uncommitted_value attempted) in
      apply_release_result old_root new_cow_page r
  | _ => ret tt
  end.

(** Takes the leaf out of the cache it lives in. *)
Definition take_cached_leaf (leaf_page_id : Z) (leaf_is_fresh : bool) : M Leaf :=
  do! leaf := cached_leaf leaf_page_id leaf_is_fresh in
  do! _ := modify (if leaf_is_fresh then with_fresh (delete leaf_page_id)
                   else fun t =>
                     with_dirty (delete leaf_page_id)
                       (with_paths (delete leaf_page_id)
                          (with_scheduled (swap_remove_value leaf_page_id (scheduled_frees t)) t))) in
  ret leaf.

(** A split whose loop does not return shows as [Panic]. *)
Definition split_leaf_m (leaf : Leaf) (monotonic : bool) : M (Leaf * Leaf * bytes) :=
  fun t => (match split_leaf (length (records leaf)) leaf monotonic (page_size t) with
            | Some r => r
            | None => Panic
            end, t).

Definition unlinked (l : Leaf) : Leaf := mkLeaf 0 0 (records l).

Definition put_at_path (path : list Z) (key : bytes) (leaf_value : LeafValue) : M bool :=
  do! leaf_page_id := lift (path_leaf path) in
  do! leaf_is_fresh :=
    gets (fun t => Ok (bool_decide (is_Some (fresh_leaves t !! leaf_page_id)))) in
  do! _ := if (leaf_is_fresh : bool) then ret tt else ensure_leaf_dirty leaf_page_id path in
  do! leaf := cached_leaf leaf_page_id leaf_is_fresh in
  let monotonic := is_monotonic leaf key in
  let '(leaf, (_, old_value)) := leaf_upsert leaf key leaf_value in
  do! _ := modify (set_cached_leaf leaf_page_id leaf_is_fresh leaf) in
  do! fits := gets (fun t => Ok (leaf_fits leaf (page_size t))) in
  do! _ := release_replaced leaf_page_id leaf_is_fresh key old_value in
  if (fits : bool) then ret false else
  do! leaf := take_cached_leaf leaf_page_id leaf_is_fresh in
  do! new_leaf_page := allocate_page in
  do! '(left_half, right_half, sep_key) := split_leaf_m leaf monotonic in
  do! right_page := allocate_page in
  do! _ := modify (with_fresh (<[new_leaf_page := unlinked left_half]>)) in
  do! _ := modify (with_fresh (<[right_page := unlinked right_half]>)) in
  do! _ := free_page leaf_page_id in
  do! _ := propagate_split_up path new_leaf_page right_page sep_key in
  ret true.

(** The first record of an empty tree, written straight to the pager. *)
Definition put_first (key : bytes) (leaf_value : LeafValue) : M Z :=
  do! new_root := allocate_page in
  do! _ := write_leaf new_root (leaf_upsert leaf_new key leaf_value).1 in
  do! _ := modify (with_root new_root) in
  ret new_root.

Definition put (key value : bytes) : M unit :=
  do! _ := modify invalidate_append_state in
  do! _ := gets (fun t => validate_insert_record_fits t key value) in
  do! leaf_value := leaf_value_for value in
  do! root := gets (fun t => Ok (root_page_id t)) in
  if root =? 0 then
    do! _ := put_first key leaf_value in
    modify (fun t => with_append (append_last_key t) None t)
  else
    do! path := gets (fun t => path_to_leaf_for_key t key) in
    do! _ := put_at_path path key leaf_value in
    ret tt.

Definition max_key_at_path (t : BTree) (path : list Z) : result (option bytes) :=
  let! leaf_page_id := path_leaf path in
  let! leaf := read_leaf t leaf_page_id in
  Ok (fst <$> last (records leaf)).

Definition put_append (key value : bytes) : M unit :=
  do! last_key := gets (fun t => Ok (append_last_key t)) in
  if match last_key with Some last => bytes_leb key last | None => false end
  then lift (Err AppendNotMonotonic) else
  do! _ := gets (fun t => validate_insert_record_fits t key value) in
  do! root := gets (fun t => Ok (root_page_id t)) in
  if root =? 0 then
    do! leaf_value := leaf_value_for value in
    do! new_root := put_first key leaf_value in
    modify (with_append (Some key) (Some [new_root]))
  else
  do! path := gets (fun t => match append_cached_path t with
                             | Some cached => Ok cached
                             | None => path_to_rightmost_leaf t
                             end) in
  do! below := gets (fun t =>
    match append_last_key t with
    | Some _ => Ok false
    | None => let! m := max_key_at_path t path in
              Ok (match m with Some max_key => bytes_leb key max_key | None => false end)
    end) in
  if (below : bool) then lift (Err AppendNotMonotonic) else
  do! _ := modify (fun t => with_append (append_last_key t) None t) in
  do! leaf_value := leaf_value_for value in
  do! split := put_at_path path key leaf_value in
  modify (with_append (Some key) (if (split : bool) then None else Some path)).

(** ** Deletion *)

Definition delete_at_path (path : list Z) (key : bytes) : M bool :=
  do! leaf_page_id := lift (path_leaf path) in
  do! leaf_is_fresh :=
    gets (fun t => Ok (bool_decide (is_Some (fresh_leaves t !! leaf_page_id)))) in
  do! _ := if (leaf_is_fresh : bool) then ret tt else ensure_leaf_dirty leaf_page_id path in
  do! leaf := cached_leaf leaf_page_id leaf_is_fresh in
  let '(leaf, removed) := leaf_remove leaf key in
  do! _ := modify (set_cached_leaf leaf_page_id leaf_is_fresh leaf) in
  match removed with
  | None => ret false
  | Some (Leaf.Overflow total_len old_root as v) =>
      do! new_cow_page := allocate_page in
      do! r := on_err (release_chain old_root new_cow_page)
        (do! _ := free_page new_cow_page in
         do! leaf := cached_leaf leaf_page_id leaf_is_fresh in
         modify (set_cached_leaf leaf_page_id leaf_is_fresh (leaf_upsert leaf key v).1)) in
      do! _ := apply_release_result old_root new_cow_page r in
      ret true
  | Some (Inline _) => ret true
  end.

Definition tree_delete (key : bytes) : M bool :=
  do! _ := modify invalidate_append_state in
  do! root := gets (fun t => Ok (root_page_id t)) in
  if root =? 0 then ret false else
  do! path := gets (fun t => path_to_leaf_for_key t key) in
  delete_at_path path key.

(** ** Batches *)

(** The path to [key]'s leaf: the cached one when its bounds cover the key. *)
Definition reuse_path (cached : option (list Z * LeafBounds)) (key : bytes) (t : BTree)
  : result (list Z * LeafBounds) :=
  match cached with
  | Some (path, bounds) =>
      if bounds_contains bounds key then Ok (path, bounds) else
      let! path := path_to_leaf_for_key t key in
      let! bounds := separator_bounds_for_path t path in
      Ok (path, bounds)
  | None =>
      let! path := path_to_leaf_for_key t key in
      let! bounds := separator_bounds_for_path t path in
      Ok (path, bounds)
  end.

Fixpoint put_batch_loop (pairs : list (bytes * bytes)) (cached : option (list Z * LeafBounds))
  : M unit :=
  match pairs with
  | [] => ret tt
  | (key, value) :: pairs =>
      do! _ := gets (fun t => validate_insert_record_fits t key value) in
      do! root := gets (fun t => Ok (root_page_id t)) in
      if root =? 0 then
        do! _ := put key value in
        put_batch_loop pairs cached
      else
      do! '(path, bounds) := gets (reuse_path cached key) in
      do! leaf_value := leaf_value_for value in
      do! split := put_at_path path key leaf_value in
      put_batch_loop pairs (if (split : bool) then None else Some (path, bounds))
  end.

Definition put_batch (pairs : list (bytes * bytes)) : M unit :=
  do! _ := modify invalidate_append_state in
  put_batch_loop pairs None.

Fixpoint delete_batch_loop (keys : list bytes) (cached : option (list Z * LeafBounds)) : M unit :=
  match keys with
  | [] => ret tt
  | key :: keys =>
      do! '(path, bounds) := gets (reuse_path cached key) in
      do! _ := delete_at_path path key in
      delete_batch_loop keys (Some (path, bounds))
  end.

Definition delete_batch (keys : list bytes) : M unit :=
  do! _ := modify invalidate_append_state in
  do! root := gets (fun t => Ok (root_page_id t)) in
  if root =? 0 then ret tt else delete_batch_loop keys None.

(** ** Scans over leaves *)

(** The loop of the forward scans over the leaves from [path] on: [step] folds
    one leaf into the accumulator and says whether to stop; the sibling check is
    the one of range deletes. The scan's own detector bounds it by the number of
    leaves. *)
Fixpoint scan_loop {A} (fuel : nat) (t : BTree) (check_siblings : bool)
    (advance : BTree -> list Z -> result (option (list Z)))
    (step : A -> Leaf -> result (A * bool)) (path : list Z) (seen : SeenPageIds) (acc : A)
  : result A :=
  let! leaf_id := path_leaf path in
  let! seen := seen_insert seen leaf_id in
  let! leaf := read_leaf t leaf_id in
  let! '(acc, stop) := step acc leaf in
  if (stop : bool) then Ok acc else
  let! next_path := advance t path in
  let! next_path :=
    if check_siblings && negb (leaf_right_sibling leaf =? 0) then
      match next_path with
      | Some parent_next =>
          if bool_decide (last parent_next = Some (leaf_right_sibling leaf)) then Ok next_path
          else Err (leaf_sibling_mismatch leaf_id (leaf_right_sibling leaf) (last parent_next))
      | None => Err (leaf_sibling_mismatch leaf_id (leaf_right_sibling leaf) None)
      end
    else Ok next_path in
  match next_path with
  | None => Ok acc
  | Some path =>
      match fuel with
      | O => Panic
      | S fuel => scan_loop fuel t check_siblings advance step path seen acc
      end
  end.

(** Every leaf is in the page image or in the fresh cache. *)
Definition scan_fuel (t : BTree) : nat := S (size (bt_pages t) + size (fresh_leaves t)).

(** One leaf of [collect_range]: records in [start, end), stopping at [end]. *)
Fixpoint range_step (t : BTree) (start end_ : bytes) (out : list (bytes * bytes))
    (rs : list leaf_record) : result (list (bytes * bytes) * bool) :=
  match rs with
  | [] => Ok (out, false)
  | (k, v) :: rs =>
      if bytes_leb end_ k then Ok (out, true) else
      if bytes_leb start k then
        let! val := resolve_leaf_value t v in
        range_step t start end_ (out ++ [(k, val)]) rs
      else range_step t start end_ out rs
  end.

Definition collect_range (t : BTree) (start end_ : bytes) : result (list (bytes * bytes)) :=
  if root_page_id t =? 0 then Ok [] else
  let! path := path_to_leaf_for_key t start in
  scan_loop (scan_fuel t) t false next_leaf_after
    (fun out leaf => range_step t start end_ out (records leaf)) path (seen_new "btree_scan") [].

Definition scan_rev (t : BTree) (start end_ : bytes) : result (list (bytes * bytes)) :=
  let! forward := collect_range t start end_ in Ok (reverse forward).

Fixpoint all_step (t : BTree) (out : list (bytes * bytes)) (rs : list leaf_record)
  : result (list (bytes * bytes) * bool) :=
  match rs with
  | [] => Ok (out, false)
  | (k, v) :: rs =>
      let! val := resolve_leaf_value t v in
      all_step t (out ++ [(k, val)]) rs
  end.

Definition collect_all (t : BTree) : result (list (bytes * bytes)) :=
  if root_page_id t =? 0 then Ok [] else
  let! path := path_to_leaf_for_key t [] in
  scan_loop (scan_fuel t) t false next_leaf_after
    (fun out leaf => all_step t out (records leaf)) path (seen_new "btree_scan") [].

(** One leaf of [collect_batch_from]: at most [limit] records from [start] on. *)
Fixpoint batch_step (t : BTree) (start : bytes) (limit : nat) (out : list (bytes * bytes))
    (rs : list leaf_record) : result (list (bytes * bytes) * bool) :=
  match rs with
  | [] => Ok (out, (length out =? limit)%nat)
  | (k, v) :: rs =>
      if bytes_ltb k start then batch_step t start limit out rs else
      if (length out =? limit)%nat then Ok (out, true) else
      let! val := resolve_leaf_value t v in
      batch_step t start limit (out ++ [(k, val)]) rs
  end.

Definition collect_batch_from (t : BTree) (start : bytes) (limit : nat)
  : result (list (bytes * bytes)) :=
  if (root_page_id t =? 0) || (limit =? 0)%nat then Ok [] else
  let! path := path_to_leaf_for_key t start in
  scan_loop (scan_fuel t) t false next_leaf_after
    (fun out leaf => batch_step t start limit out (records leaf)) path (seen_new "btree_scan") [].

(** [key.starts_with(prefix)] *)
Definition starts_with (key prefix : bytes) : bool :=
  bool_decide (take (length prefix) key = prefix).

Fixpoint take_prefixed (prefix : bytes) (l : list (bytes * bytes)) : list (bytes * bytes) :=
  match l with
  | [] => []
  | (k, v) :: l => if starts_with k prefix then (k, v) :: take_prefixed prefix l else []
  end.

Definition collect_prefix_batch_from (t : BTree) (prefix start : bytes) (limit : nat)
  : result (list (bytes * bytes)) :=
  let! batch := collect_batch_from t start limit in Ok (take_prefixed prefix batch).

(** One leaf of [collect_keys_batch_in_range]. *)
Fixpoint keys_step (start end_ : bytes) (limit : nat) (out : list bytes) (rs : list leaf_record)
  : list bytes * bool :=
  match rs with
  | [] => (out, false)
  | (k, _) :: rs =>
      if bytes_leb end_ k then (out, true) else
      if bytes_leb start k then
        let out := out ++ [k] in
        if (length out =? limit)%nat then (out, true) else keys_step start end_ limit out rs
      else keys_step start end_ limit out rs
  end.

Definition collect_keys_batch_in_range (t : BTree) (start end_ : bytes) (limit : nat)
  : result (list bytes) :=
  if (root_page_id t =? 0) || (limit =? 0)%nat then Ok [] else
  let! path := path_to_leaf_for_key t start in
  scan_loop (scan_fuel t) t true next_leaf_after
    (fun out leaf => Ok (keys_step start end_ limit out (records leaf))) path
    (seen_new "leaf_siblings") [].

Definition first_key (t : BTree) : result (option bytes) :=
  if root_page_id t =? 0 then Ok None else
  let! path := path_to_leaf_for_key t [] in
  let! leaf_id := path_leaf path in
  let! leaf := read_leaf t leaf_id in
  Ok (fst <$> head (records leaf)).

Definition last_key (t : BTree) : result (option bytes) :=
  if root_page_id t =? 0 then Ok None else
  let! path := path_to_rightmost_leaf t in
  let! leaf_id := path_leaf path in
  let! leaf := read_leaf t leaf_id in
  Ok (fst <$> last (records leaf)).

(** One leaf of the reverse scan; [rs] is the leaf's records reversed. *)
Fixpoint rev_step (t : BTree) (before : option bytes) (limit : nat) (out : list (bytes * bytes))
    (rs : list leaf_record) : result (list (bytes * bytes) * bool) :=
  match rs with
  | [] => Ok (out, false)
  | (k, v) :: rs =>
      if match before with Some b => bytes_leb b k | None => false end
      then rev_step t before limit out rs
      else
        let! val := resolve_leaf_value t v in
        let out := out ++ [(k, val)] in
        if (length out =? limit)%nat then Ok (out, true) else rev_step t before limit out rs
  end.

Definition collect_rev_batch_before (t : BTree) (before : option bytes) (limit : nat)
  : result (list (bytes * bytes)) :=
  if (root_page_id t =? 0) || (limit =? 0)%nat then Ok [] else
  let! path := match before with
               | Some b => path_to_leaf_for_key t b
               | None => path_to_rightmost_leaf t
               end in
  scan_loop (scan_fuel t) t false prev_leaf_before
    (fun out leaf => rev_step t before limit out (reverse (records leaf))) path
    (seen_new "btree_scan") [].

(** One leaf of [scan_prefix]. *)
Fixpoint prefix_step (t : BTree) (prefix : bytes) (out : list (bytes * bytes))
    (rs : list leaf_record) : result (list (bytes * bytes) * bool) :=
  match rs with
  | [] => Ok (out, false)
  | (k, v) :: rs =>
      if bytes_ltb k prefix then prefix_step t prefix out rs else
      if negb (starts_with k prefix) then Ok (out, true) else
      let! val := resolve_leaf_value t v in
      prefix_step t prefix (out ++ [(k, val)]) rs
  end.

Definition scan_prefix (t : BTree) (prefix : bytes) : result (list (bytes * bytes)) :=
  if root_page_id t =? 0 then Ok [] else
  let! path := path_to_leaf_for_key t prefix in
  scan_loop (scan_fuel t) t false next_leaf_after
    (fun out leaf => prefix_step t prefix out (records leaf)) path (seen_new "btree_scan") [].

(** ** Range deletion *)

Definition DELETE_RANGE_CHUNK : nat := 1024.

(** Rounds of [delete_range]; each removes at least one key. *)
Fixpoint delete_range_loop (fuel : nat) (cursor end_ : bytes) (removed : Z) : M Z :=
  match fuel with
  | O => lift Panic
  | S fuel =>
      do! keys := gets (fun t => collect_keys_batch_in_range t cursor end_ DELETE_RANGE_CHUNK) in
      match last keys with
      | None => ret removed
      | Some last =>
          let exhausted := (length keys <? DELETE_RANGE_CHUNK)%nat in
          let removed := saturating_add removed (Z.of_nat (length keys)) in
          do! _ := delete_batch keys in
          if exhausted then ret removed
          else delete_range_loop fuel (last ++ [Byte.x00]) end_ removed
      end
  end.

(** [fuel] bounds the rounds. *)
Definition delete_range (fuel : nat) (start end_ : bytes) : M Z :=
  do! root := gets (fun t => Ok (root_page_id t)) in
  if root =? 0 then ret 0 else delete_range_loop fuel start end_ 0.

(** ** Flush *)

Section flush.
(** The order in which [HashMap::drain] yields the cached leaves. *)
Context (drain : gmap Z Leaf -> list (Z * Leaf)).

Fixpoint write_leaves (ls : list (Z * Leaf)) : M unit :=
  match ls with
  | [] => ret tt
  | (page_id, leaf) :: ls => do! _ := write_leaf page_id leaf in write_leaves ls
  end.

(** Writes every dirty leaf to a fresh page; the redirects map old to new. *)
Fixpoint cow_leaves (ls : list (Z * Leaf)) (redirects : gmap Z Z) : M (gmap Z Z) :=
  match ls with
  | [] => ret redirects
  | (old_page_id, leaf) :: ls =>
      do! new_page_id := allocate_page in
      do! _ := write_leaf new_page_id leaf in
      cow_leaves ls (<[old_page_id := new_page_id]> redirects)
  end.

(** The pages at one depth of the affected paths, in ascending order. *)
Definition internals_at (paths : gmap Z (list Z)) (depth : nat) : list Z :=
  merge_sort Z.le (elements (list_to_set (omap (fun p : Z * list Z => p.2 !! depth)
                                            (map_to_list paths)) : gset Z)).

Definition max_depth (paths : gmap Z (list Z)) : nat :=
  foldr (fun p : Z * list Z => Nat.max (length p.2)) 0%nat (map_to_list paths).

(** [internals_by_depth.values().rev()]: deepest level first. *)
Definition internals_by_depth_rev (paths : gmap Z (list Z)) : list (list Z) :=
  internals_at paths <$> reverse (seq 0 (max_depth paths)).

Definition redirect (redirects : gmap Z Z) (c : Z) : Z := default c (redirects !! c).

Definition redirect_children (redirects : gmap Z Z) (n : Internal) : Internal :=
  mkInternal (redirect redirects (leftmost_child n))
    ((fun e : InternalEntry => (e.1, redirect redirects e.2)) <$> entries n).

Definition redirects_child (redirects : gmap Z Z) (n : Internal) : bool :=
  existsb (fun c => bool_decide (is_Some (redirects !! c))) (children n).

Fixpoint cow_internals (pids : list Z) (redirects : gmap Z Z) (spine_frees : list Z)
  : M (gmap Z Z * list Z) :=
  match pids with
  | [] => ret (redirects, spine_frees)
  | old_page_id :: pids =>
      do! n := gets (fun t => read_internal t old_page_id) in
      if redirects_child redirects n then
        do! new_page_id := allocate_page in
        do! _ := write_internal new_page_id (redirect_children redirects n) in
        cow_internals pids (<[old_page_id := new_page_id]> redirects)
          (spine_frees ++ [old_page_id])
      else cow_internals pids redirects spine_frees
  end.

Fixpoint cow_levels (levels : list (list Z)) (redirects : gmap Z Z) (spine_frees : list Z)
  : M (gmap Z Z * list Z) :=
  match levels with
  | [] => ret (redirects, spine_frees)
  | pids :: levels =>
      do! '(redirects, spine_frees) := cow_internals pids redirects spine_frees in
      cow_levels levels redirects spine_frees
  end.

Definition flush_dirty_leaves : M unit :=
  do! fresh := gets (fun t => Ok (fresh_leaves t)) in
  do! _ := modify (with_fresh (fun _ => ∅)) in
  do! _ := write_leaves (drain fresh) in
  do! dirty := gets (fun t => Ok (dirty_leaves t)) in
  if bool_decide (dirty = ∅) then ret tt else
  do! _ := modify (with_dirty (fun _ => ∅)) in
  do! parent_paths := gets (fun t => Ok (dirty_parent_paths t)) in
  do! _ := modify (with_paths (fun _ => ∅)) in
  do! redirects := cow_leaves (drain dirty) ∅ in
  do! '(redirects, spine_frees) :=
    cow_levels (internals_by_depth_rev parent_paths) redirects [] in
  do! _ := modify (fun t => match redirects !! root_page_id t with
                            | Some new_root => with_root new_root t
                            | None => t
                            end) in
  free_pages spine_frees.
End flush.
