(* ===== verification/TreeRep.v ===== *)
(** * TreeRep: what a page image means as a tree

    The representation of a B+ tree of a given height by pages and cached
    leaves, contexts around one subtree, and what a descent finds. *)

From S2P Require Import Prelude Keys Errors PageFormat Node Leaf Internal Split Store Overflow Tree.
From Stdlib Require Import ZArith Lia.
From stdpp Require Import base list strings gmap sorting.

Local Open Scope Z_scope.
Local Open Scope pagedb_scope.

(** ** Key ranges: [lo <= key < hi], [None] is unbounded *)

Abbreviation bound := (option bytes).

Definition ge_lo (lo : bound) (k : bytes) : Prop :=
  match lo with Some l => l ≤ₖ k | None => True end.
Definition lt_hi (k : bytes) (hi : bound) : Prop :=
  match hi with Some h => k <ₖ h | None => True end.
Definition in_range (lo hi : bound) (k : bytes) : Prop := ge_lo lo k /\ lt_hi k hi.
(** The range is not empty. *)
Definition blt (lo hi : bound) : Prop :=
  match lo, hi with Some l, Some h => l <ₖ h | _, _ => True end.

Lemma blt_trans lo k hi : blt lo (Some k) -> blt (Some k) hi -> blt lo hi.
Proof. destruct lo, hi; simpl; try done. apply key_lt_trans. Qed.
Lemma in_range_blt lo hi k : in_range lo hi k -> blt lo hi.
Proof. destruct lo, hi; simpl; try done. intros [? ?]. by eapply key_le_lt_trans. Qed.
Lemma ge_lo_weaken lo k q : blt lo (Some k) -> k ≤ₖ q -> ge_lo lo q.
Proof.
  destruct lo as [l|]; simpl; [|done]. intros H1 H2. apply key_lt_le.
  exact (key_lt_le_trans _ _ _ H1 H2).
Qed.
Lemma lt_hi_weaken k hi q : blt (Some k) hi -> q <ₖ k -> lt_hi q hi.
Proof. destruct hi as [h|]; simpl; [|done]. intros H1 H2. exact (key_lt_trans _ _ _ H2 H1). Qed.

Lemma NoDup_perm {A} (l l' : list A) : l ≡ₚ l' -> NoDup l -> NoDup l'.
Proof. by intros ->. Qed.

(** ** Nodes *)

Section rep.
(** The longest key of the tree. *)
Context (K : Z).

Definition page_size_ok (t : BTree) : Prop :=
  HEADER_LEN + ENVELOPE_OVERHEAD <= page_size t <= U16_MAX + ENVELOPE_OVERHEAD.

(** The leaf a reader sees at [p]: a leaf split off in this session, or the page
    [p], shadowed by its dirty copy if there is one. *)
Definition leaf_at (t : BTree) (p : Z) (l : Leaf) : Prop :=
  fresh_leaves t !! p = Some l \/
  fresh_leaves t !! p = None /\
  exists body l0, bt_pages t !! p = Some (PageKind.BTreeLeaf, body) /\
    blen body = body_capacity (page_size t) /\ leaf_decode body = Ok l0 /\
    l = default l0 (dirty_leaves t !! p).

Definition internal_at (t : BTree) (p : Z) (n : Internal) : Prop :=
  fresh_leaves t !! p = None /\ dirty_leaves t !! p = None /\
  exists body, bt_pages t !! p = Some (PageKind.BTreeInternal, body) /\
    blen body = body_capacity (page_size t) /\ internal_layout n body.

(** Children covering consecutive ranges, separated by the keys of [es]. *)
Fixpoint seg (R : Z -> bound -> bound -> list leaf_record -> list Z -> Prop)
    (c : Z) (es : list InternalEntry) (lo hi : bound) (kvs : list leaf_record) (ids : list Z)
  : Prop :=
  match es with
  | [] => R c lo hi kvs ids
  | (k, c') :: es =>
      exists kvs1 kvs2 ids1 ids2, kvs = kvs1 ++ kvs2 /\ ids = ids1 ++ ids2 /\ blen k <= K /\
        R c lo (Some k) kvs1 ids1 /\ seg R c' es (Some k) hi kvs2 ids2
  end.

(** [rep t h p lo hi kvs ids]: the pages [ids] are a tree of height [h] rooted at
    [p] for the keys of [lo, hi), holding the records [kvs] in order. *)
Fixpoint rep (t : BTree) (h : nat) (p : Z) (lo hi : bound) (kvs : list leaf_record)
    (ids : list Z) : Prop :=
  match h with
  | O => exists l, leaf_at t p l /\ records l = kvs /\ ids = [p] /\ leaf_wf l /\
           leaf_fits l (page_size t) = true /\ blt lo hi /\
           Forall (fun r : leaf_record => in_range lo hi r.1 /\ blen r.1 <= K) kvs
  | S h => exists n ids', internal_at t p n /\ ids = p :: ids' /\
             seg (rep t h) (leftmost_child n) (entries n) lo hi kvs ids'
  end.

Lemma rep_head t h p lo hi kvs ids : rep t h p lo hi kvs ids -> exists ids', ids = p :: ids'.
Proof. destruct h; simpl; [intros (l & _ & _ & -> & _)|intros (n & ids' & _ & -> & _)]; eauto. Qed.

Lemma seg_app R c es1 k c' es2 lo hi kvs ids :
  seg R c (es1 ++ (k, c') :: es2) lo hi kvs ids <->
  exists kvs1 kvs2 ids1 ids2, kvs = kvs1 ++ kvs2 /\ ids = ids1 ++ ids2 /\ blen k <= K /\
    seg R c es1 lo (Some k) kvs1 ids1 /\ seg R c' es2 (Some k) hi kvs2 ids2.
Proof.
  revert c lo kvs ids. induction es1 as [|[k1 c1] es1 IH]; intros c lo kvs ids; simpl; [done|].
  split.
  - intros (ka & kb & ia & ib & -> & -> & Hk & Hc & Hs).
    apply IH in Hs as (kc & kd & ic & id & -> & -> & Hk' & Hs1 & Hs2).
    exists (ka ++ kc), kd, (ia ++ ic), id. rewrite !app_assoc. split_and!; try done.
    by exists ka, kc, ia, ic.
  - intros (? & kd & ? & id & -> & -> & Hk' & (ka & kc & ia & ic & -> & -> & Hk & Hc & Hs1) & Hs2).
    exists ka, (kc ++ kd), ia, (ic ++ id). rewrite !app_assoc. split_and!; try done.
    apply IH. by exists kc, kd, ic, id.
Qed.

Lemma seg_impl (R R' : Z -> bound -> bound -> list leaf_record -> list Z -> Prop) c es lo hi kvs ids :
  (forall c lo hi kvs' ids', ids' ⊆ ids -> R c lo hi kvs' ids' -> R' c lo hi kvs' ids') ->
  seg R c es lo hi kvs ids -> seg R' c es lo hi kvs ids.
Proof.
  revert c lo kvs ids. induction es as [|[k c'] es IH]; intros c lo kvs ids HR; simpl.
  - by apply HR.
  - intros (ka & kb & ia & ib & -> & -> & Hk & Hc & Hs).
    exists ka, kb, ia, ib. split_and!; try done.
    + apply HR; [|done]. set_solver.
    + apply IH; [|done]. intros ? ? ? ? ? ? Hr. apply HR; [set_solver|done].
Qed.

(** ** Frame: a representation depends on its own pages only *)

Definition same_at (t t' : BTree) (p : Z) : Prop :=
  bt_pages t' !! p = bt_pages t !! p /\ fresh_leaves t' !! p = fresh_leaves t !! p /\
  dirty_leaves t' !! p = dirty_leaves t !! p.

Lemma leaf_at_frame t t' p l :
  page_size t' = page_size t -> same_at t t' p -> leaf_at t p l -> leaf_at t' p l.
Proof. intros Hps (H1 & H2 & H3) H. unfold leaf_at in *. by rewrite Hps, H1, H2, H3. Qed.
Lemma internal_at_frame t t' p n :
  page_size t' = page_size t -> same_at t t' p -> internal_at t p n -> internal_at t' p n.
Proof. intros Hps (H1 & H2 & H3) H. unfold internal_at in *. by rewrite Hps, H1, H2, H3. Qed.

Lemma rep_frame t t' h p lo hi kvs ids :
  page_size t' = page_size t -> (forall q, q ∈ ids -> same_at t t' q) ->
  rep t h p lo hi kvs ids -> rep t' h p lo hi kvs ids.
Proof.
  intros Hps. revert p lo hi kvs ids. induction h as [|h IH]; intros p lo hi kvs ids Hs; simpl.
  - intros (l & Hl & ? & -> & ?). exists l. rewrite Hps.
    split; [apply (leaf_at_frame t); [done|apply Hs; by left|done]|done].
  - intros (n & ids' & Hn & -> & Hseg). exists n, ids'. split_and!; [|done|].
    + apply (internal_at_frame t); [done|apply Hs; by left|done].
    + eapply seg_impl; [|exact Hseg]. intros ? ? ? ? ? ? Hr. apply IH; [|done].
      intros q Hq. apply Hs. right. set_solver.
Qed.

Lemma seg_frame t t' h c es lo hi kvs ids :
  page_size t' = page_size t -> (forall q, q ∈ ids -> same_at t t' q) ->
  seg (rep t h) c es lo hi kvs ids -> seg (rep t' h) c es lo hi kvs ids.
Proof.
  intros Hps Hs. apply seg_impl. intros ? ? ? ? ids' ? Hr.
  apply (rep_frame t); [done| |done]. intros q Hq. apply Hs. set_solver.
Qed.

(** ** Order *)

Lemma seg_blt R c es lo hi kvs ids :
  (forall c lo hi kvs ids, R c lo hi kvs ids -> blt lo hi) ->
  seg R c es lo hi kvs ids -> blt lo hi.
Proof.
  intros HR. revert c lo kvs ids. induction es as [|[k c'] es IH]; intros c lo kvs ids; simpl.
  - apply HR.
  - intros (ka & kb & ia & ib & _ & _ & _ & Hc & Hs). eapply blt_trans; [by eapply HR|by eapply IH].
Qed.

Lemma rep_blt t h p lo hi kvs ids : rep t h p lo hi kvs ids -> blt lo hi.
Proof.
  revert p lo hi kvs ids. induction h as [|h IH]; intros p lo hi kvs ids; simpl.
  - by intros (l & _ & _ & _ & _ & _ & ? & _).
  - intros (n & ids' & _ & _ & Hs). eapply seg_blt; [exact IH|exact Hs].
Qed.

Definition in_order (lo hi : bound) (kvs : list leaf_record) : Prop :=
  keys_sorted kvs.*1 /\ Forall (fun r : leaf_record => in_range lo hi r.1 /\ blen r.1 <= K) kvs.

Lemma in_order_app lo k hi kvs1 kvs2 :
  blt lo (Some k) -> blt (Some k) hi ->
  in_order lo (Some k) kvs1 -> in_order (Some k) hi kvs2 -> in_order lo hi (kvs1 ++ kvs2).
Proof.
  intros B1 B2 [S1 F1] [S2 F2]. split.
  - rewrite fmap_app. apply sorted_app. split_and!; [done..|].
    intros a b [ra [-> Ha]]%list_elem_of_fmap [rb [-> Hb]]%list_elem_of_fmap.
    rewrite Forall_forall in F1, F2. destruct (F1 _ Ha) as [[_ Hlt] _].
    destruct (F2 _ Hb) as [[Hge _] _]. simpl in *. exact (key_lt_le_trans _ _ _ Hlt Hge).
  - apply Forall_app. split; (eapply Forall_impl; [eassumption|]); intros r [[Hg Hl] HK]; simpl in *;
      (split; [|done]); split; try done.
    + by eapply lt_hi_weaken.
    + by eapply ge_lo_weaken.
Qed.

Lemma seg_in_order (R : Z -> bound -> bound -> list leaf_record -> list Z -> Prop) c es lo hi kvs ids :
  (forall c lo hi kvs ids, R c lo hi kvs ids -> blt lo hi /\ in_order lo hi kvs) ->
  seg R c es lo hi kvs ids -> in_order lo hi kvs.
Proof.
  intros HR. revert c lo kvs ids. induction es as [|[k c'] es IH]; intros c lo kvs ids; simpl.
  - apply HR.
  - intros (ka & kb & ia & ib & -> & _ & _ & Hc & Hs). destruct (HR _ _ _ _ _ Hc).
    apply (in_order_app lo k hi); [done| |done|by eapply IH].
    eapply seg_blt; [|exact Hs]. intros ? ? ? ? ? Hr. by apply HR in Hr as [? _].
Qed.

Lemma rep_in_order t h p lo hi kvs ids : rep t h p lo hi kvs ids -> in_order lo hi kvs.
Proof.
  revert p lo hi kvs ids. induction h as [|h IH]; intros p lo hi kvs ids; simpl.
  - intros (l & _ & <- & _ & (Hs & _) & _ & _ & Hf). by split.
  - intros (n & ids' & _ & _ & Hs). eapply seg_in_order; [|exact Hs].
    intros ? ? ? ? ? Hr. split; [by eapply rep_blt|by eapply IH].
Qed.

(** The separators of a segment, in its range and increasing. *)
Lemma seg_keys t h c es lo hi kvs ids :
  seg (rep t h) c es lo hi kvs ids ->
  keys_sorted es.*1 /\ Forall (fun k => blt lo (Some k) /\ blt (Some k) hi /\ blen k <= K) es.*1.
Proof.
  revert c lo kvs ids. induction es as [|[k c'] es IH]; intros c lo kvs ids; simpl.
  - intros _. by split; constructor.
  - intros (ka & kb & ia & ib & _ & _ & HK & Hc & Hs). destruct (IH _ _ _ _ Hs) as [Hsort Hall].
    pose proof (rep_blt _ _ _ _ _ _ _ Hc) as Hb1.
    assert (blt (Some k) hi) as Hb2.
    { eapply seg_blt; [|exact Hs]. intros ? ? ? ? ?. apply rep_blt. }
    split.
    + constructor; [done|]. eapply Forall_impl; [exact Hall|]. by intros k' [? _].
    + constructor; [done|]. eapply Forall_impl; [exact Hall|].
      intros k' (? & ? & ?). split_and!; try done. by eapply blt_trans.
Qed.

Lemma internal_at_inj t p n n' : internal_at t p n -> internal_at t p n' -> n = n'.
Proof.
  intros (_ & _ & b & Hb & _ & Hd) (_ & _ & b' & Hb' & _ & Hd').
  apply layout_decode in Hd, Hd'. congruence.
Qed.

Lemma rep_internal_sorted t h p n lo hi kvs ids :
  internal_at t p n -> rep t (S h) p lo hi kvs ids -> internal_sorted n.
Proof.
  intros Hn (n' & ids' & Hn' & _ & Hs). rewrite (internal_at_inj _ _ _ _ Hn Hn').
  by apply seg_keys in Hs as [? _].
Qed.

(** ** Contexts around a child *)

(** The children of a node left of child [c]. *)
Definition left_of (R : Z -> bound -> bound -> list leaf_record -> list Z -> Prop)
    (lm : Z) (es1 : list InternalEntry) (c : Z) (lo lo' : bound)
    (kvs : list leaf_record) (ids : list Z) : Prop :=
  es1 = [] /\ lm = c /\ lo' = lo /\ kvs = [] /\ ids = [] \/
  exists es0 k, es1 = es0 ++ [(k, c)] /\ lo' = Some k /\ blen k <= K /\ seg R lm es0 lo (Some k) kvs ids.

(** The children right of it. *)
Definition right_of (R : Z -> bound -> bound -> list leaf_record -> list Z -> Prop)
    (es2 : list InternalEntry) (hi' hi : bound) (kvs : list leaf_record) (ids : list Z) : Prop :=
  es2 = [] /\ hi' = hi /\ kvs = [] /\ ids = [] \/
  exists k c es0, es2 = (k, c) :: es0 /\ hi' = Some k /\ blen k <= K /\ seg R c es0 (Some k) hi kvs ids.

Lemma seg_plug R lm es1 es2 c lo lo' hi' hi kL kR iL iR kvs ids :
  left_of R lm es1 c lo lo' kL iL -> right_of R es2 hi' hi kR iR -> R c lo' hi' kvs ids ->
  seg R lm (es1 ++ es2) lo hi (kL ++ kvs ++ kR) (iL ++ ids ++ iR).
Proof.
  intros HL HR Hc.
  assert (seg R c es2 lo' hi (kvs ++ kR) (ids ++ iR)) as Hr.
  { destruct HR as [(-> & -> & -> & ->)|(k & c2 & es0 & -> & -> & HK & Hs)].
    - by rewrite !app_nil_r.
    - simpl. by exists kvs, kR, ids, iR. }
  destruct HL as [(-> & -> & -> & -> & ->)|(es0 & k & -> & -> & HK & Hs)]; [done|].
  rewrite <-app_assoc. simpl. apply seg_app. by exists kL, (kvs ++ kR), iL, (ids ++ iR).
Qed.

(** Any child can be singled out. *)
Lemma seg_unplug R lm es1 es2 lo hi kvs ids :
  seg R lm (es1 ++ es2) lo hi kvs ids ->
  let c := default lm (last es1.*2) in
  exists lo' hi' kL kR iL iR kvs' ids', left_of R lm es1 c lo lo' kL iL /\
    right_of R es2 hi' hi kR iR /\ R c lo' hi' kvs' ids' /\
    kvs = kL ++ kvs' ++ kR /\ ids = iL ++ ids' ++ iR /\
    lo' = from_option Some lo (last es1.*1) /\ hi' = from_option Some hi (head es2.*1).
Proof.
  intros Hs c.
  assert (exists lo' kL iL kvs' ids', left_of R lm es1 c lo lo' kL iL /\
    seg R c es2 lo' hi kvs' ids' /\ kvs = kL ++ kvs' /\ ids = iL ++ ids' /\
    lo' = from_option Some lo (last es1.*1)) as (lo' & kL & iL & kv1 & id1 & HL & Hs2 & -> & -> & ->).
  { subst c. destruct es1 as [|[k c'] es0 _] using rev_ind.
    - exists lo, [], [], kvs, ids. split; [by left|]. done.
    - rewrite !fmap_app, !last_app. simpl. rewrite <-app_assoc in Hs. simpl in Hs.
      apply seg_app in Hs as (ka & kb & ia & ib & -> & -> & HK & H1 & H2).
      exists (Some k), ka, ia, kb, ib. split; [right; eauto 10|]. done. }
  destruct es2 as [|[k c2] es2]; simpl in Hs2.
  - exists (from_option Some lo (last es1.*1)), hi, kL, [], iL, [], kv1, id1.
    rewrite !app_nil_r. split_and!; try done. by left.
  - destruct Hs2 as (ka & kb & ia & ib & -> & -> & HK & H1 & H2).
    exists (from_option Some lo (last es1.*1)), (Some k), kL, kb, iL, ib, ka, ia.
    split_and!; try done. right. eauto 10.
Qed.

Definition frame (t : BTree) (h : nat) (p : Z) (n : Internal) (es1 es2 : list InternalEntry)
    (lo hi : bound) (c : Z) (lo' hi' : bound) (kL kR : list leaf_record) (iL iR : list Z) : Prop :=
  internal_at t p n /\ entries n = es1 ++ es2 /\
  left_of (rep t h) (leftmost_child n) es1 c lo lo' kL iL /\ right_of (rep t h) es2 hi' hi kR iR.

(** [ctx t root H anc h c lo hi kL kR ids]: below [root], a tree of height [H],
    the pages [anc] (deepest first) lead to the subtree [c] of height [h] for
    [lo, hi); left and right of it the tree holds [kL] and [kR], in subtrees with
    the pages [ids]. *)
Inductive ctx (t : BTree) (root : Z) (H : nat)
  : list Z -> nat -> Z -> bound -> bound -> list leaf_record -> list leaf_record -> list Z -> Prop :=
| ctx_root : ctx t root H [] H root None None [] [] []
| ctx_child anc h p lo hi n es1 es2 c lo' hi' kL kR ids kL' kR' iL iR :
    ctx t root H anc (S h) p lo hi kL kR ids ->
    frame t h p n es1 es2 lo hi c lo' hi' kL' kR' iL iR ->
    ctx t root H (p :: anc) h c lo' hi' (kL ++ kL') (kR' ++ kR) (iL ++ iR ++ ids).

Lemma frame_plug t h p n es1 es2 lo hi c lo' hi' kL kR iL iR kvs ids :
  frame t h p n es1 es2 lo hi c lo' hi' kL kR iL iR -> rep t h c lo' hi' kvs ids ->
  rep t (S h) p lo hi (kL ++ kvs ++ kR) (p :: iL ++ ids ++ iR).
Proof.
  intros (Hn & He & HL & HR) Hc. exists n, (iL ++ ids ++ iR). split_and!; [done..|].
  rewrite He. by eapply seg_plug.
Qed.

(** A hole without an upper bound has nothing to its right. *)
Lemma frame_edge t h p n es1 es2 lo hi c lo' kL kR iL iR :
  frame t h p n es1 es2 lo hi c lo' None kL kR iL iR -> hi = None /\ kR = [] /\ iR = [].
Proof. intros (_ & _ & _ & [(_ & <- & -> & ->)|(k & c' & es0 & _ & ? & _)]); done. Qed.
Lemma last_edge t h p lo hi kvs ids (x : Z) l :
  rep t h p lo hi kvs ids -> last (x :: l ++ ids ++ []) = last ids.
Proof.
  intros [ids' ->]%rep_head. rewrite app_nil_r, app_comm_cons, last_app. by destruct (last (p :: ids')) eqn:Hl; [|rewrite last_cons in Hl; destruct (last ids')].
Qed.

Lemma ctx_plug t root H anc h c lo hi kL kR iC kvs ids :
  ctx t root H anc h c lo hi kL kR iC -> rep t h c lo hi kvs ids ->
  exists ids', rep t H root None None (kL ++ kvs ++ kR) ids' /\ ids' ≡ₚ anc ++ iC ++ ids /\
    (hi = None -> last ids' = last ids).
Proof.
  intros Hc. revert kvs ids. induction Hc as [|anc h p lo hi n es1 es2 c lo' hi' kL kR iC kL' kR' iL iR _ IH Hf];
    intros kvs ids Hr.
  - exists ids. by rewrite app_nil_r.
  - destruct (IH (kL' ++ kvs ++ kR') (p :: iL ++ ids ++ iR)) as (ids' & Hr' & Hp & Hl).
    { by eapply frame_plug. }
    exists ids'. rewrite <-!app_assoc in *. split; [done|]. split; [rewrite Hp; solve_Permutation|].
    intros ->. destruct (frame_edge _ _ _ _ _ _ _ _ _ _ _ _ _ _ Hf) as (-> & _ & ->). rewrite Hl by done. by eapply last_edge.
Qed.

Lemma ctx_height t root H anc h c lo hi kL kR iC :
  ctx t root H anc h c lo hi kL kR iC -> (length anc + h = H)%nat.
Proof. induction 1; simpl; lia. Qed.

(** ** The duplicate-page detector is a set *)

Definition seen_rep (s : SeenPageIds) (S : gset Z) : Prop :=
  match seen_overflow s with
  | Some o => S = o
  | None => (seen_len s <= INLINE_SEEN_PAGE_IDS)%nat /\
            length (seen_inline s) = INLINE_SEEN_PAGE_IDS /\
            S = list_to_set (take (seen_len s) (seen_inline s))
  end.

Lemma seen_new_rep str : seen_rep (seen_new str) ∅.
Proof. unfold seen_rep, seen_new, INLINE_SEEN_PAGE_IDS. simpl. split_and!; try lia; done. Qed.

Lemma seen_insert_inner_rep s S p :
  seen_rep s S ->
  (seen_insert_inner s p).1 = bool_decide (p ∉ S) /\
  seen_rep (seen_insert_inner s p).2 ({[p]} ∪ S).
Proof.
  unfold seen_rep, seen_insert_inner. destruct s as [str inl len [o|]]; simpl.
  - intros ->. done.
  - intros (Hlen & Hinl & ->). unfold INLINE_SEEN_PAGE_IDS in *.
    case_bool_decide as Hin.
    { simpl. split; [symmetry; apply bool_decide_false; set_solver|].
      split_and!; try done. set_solver. }
    destruct (Nat.ltb_spec len 4) as [Hlt|Hge]; simpl.
    + split; [symmetry; apply bool_decide_true; set_solver|].
      split_and!; [lia|by rewrite length_insert|].
      rewrite (take_S_r _ len p) by (apply list_lookup_insert_eq; lia).
      rewrite list_to_set_app_L, take_insert_ge by lia. set_solver.
    + rewrite firstn_all2 in Hin by lia. rewrite firstn_all2 by lia. split; [|done].
      apply bool_decide_ext. set_solver.
Qed.

Lemma seen_insert_ok s S p :
  seen_rep s S -> p <> 0 -> p ∉ S ->
  exists s', seen_insert s p = Ok s' /\ seen_rep s' ({[p]} ∪ S).
Proof.
  intros Hs Hp Hn. unfold seen_insert. rewrite (proj2 (Z.eqb_neq _ _)) by done.
  destruct (seen_insert_inner_rep s S p Hs) as [H1 H2].
  destruct (seen_insert_inner s p) as [b s']. simpl in *. subst b.
  rewrite bool_decide_true by done. eauto.
Qed.

Lemma seen_insert_dup s S p :
  seen_rep s S -> p = 0 \/ p ∈ S -> exists str, seen_insert s p = Err (malformed_btree_topology str p).
Proof.
  intros Hs Hp. unfold seen_insert. destruct (Z.eqb_spec p 0); [eauto|].
  destruct (seen_insert_inner_rep s S p Hs) as [H1 _].
  destruct (seen_insert_inner s p) as [b s']. simpl in *. subst b.
  rewrite bool_decide_false by naive_solver. eauto.
Qed.

Lemma seen_insert_no_panic s p : seen_insert s p <> Panic.
Proof. unfold seen_insert. destruct (_ =? _); [done|]. by destruct (seen_insert_inner s p) as [[] ?]. Qed.

(** ** What reads of nodes return *)

Lemma cap_usize t : page_size_ok t -> body_capacity (page_size t) <= U16_MAX /\
  body_capacity (page_size t) <= USIZE_MAX /\ HEADER_LEN <= body_capacity (page_size t).
Proof. unfold page_size_ok, body_capacity, U16_MAX, USIZE_MAX, U64_MAX. lia. Qed.

Lemma read_node_guard_internal t p n :
  page_size_ok t -> internal_at t p n ->
  exists body, read_node_guard t p = Ok (body, NodeKind.Internal) /\
    bt_pages t !! p = Some (PageKind.BTreeInternal, body) /\ internal_decode body = Ok n /\
    (internal_sorted n -> forall q, pick_child_for q body = Ok (child_of n q)).
Proof.
  intros Hps (_ & _ & body & Hb & Hlen & Hl). exists body.
  destruct (cap_usize t Hps) as (Hc1 & Hc2 & _). rewrite <-Hlen in Hc1, Hc2.
  pose proof Hl as (_ & _ & _ & Hh & _). pose proof (layout_decode n body Hl) as Hd.
  destruct (layout_body_in n body Hl) as [Hv _]. split_and!; [|done|done|].
  - unfold read_node_guard, read_main_node. by rewrite Hb, Hh.
  - intros Hs q. unfold pick_child_for, internal_from_guard, validate_node_body_memoised.
    rewrite Hv. unfold internal_from_header. simpl.
    by apply (child_for_ok body _ n q Hc2 Hd Hs Hv).
Qed.

Lemma read_internal_ok t p n : internal_at t p n -> read_internal t p = Ok n.
Proof.
  intros (_ & _ & body & Hb & _ & Hl). unfold read_internal.
  rewrite (read_main_page_ok _ _ _ body) by done. by apply layout_decode.
Qed.

Lemma leaf_body_header body l :
  blen body <= USIZE_MAX -> leaf_decode body = Ok l ->
  exists h, read_header body = Ok h /\ kind h = NodeKind.Leaf.
Proof.
  intros Hb Hd. destruct (leaf_decode_inv body l Hb Hd) as (h & Hv & _ & Hk).
  exists h. split; [|done]. by apply validate_node_body_iff in Hv as [? _].
Qed.

Lemma read_node_guard_leaf t p l :
  page_size_ok t -> leaf_at t p l -> fresh_leaves t !! p = None ->
  exists body l0, read_node_guard t p = Ok (body, NodeKind.Leaf) /\
    bt_pages t !! p = Some (PageKind.BTreeLeaf, body) /\ leaf_decode body = Ok l0 /\
    blen body <= USIZE_MAX /\ l = default l0 (dirty_leaves t !! p).
Proof.
  intros Hps [?|(_ & body & l0 & Hb & Hlen & Hd & ->)] Hf; [congruence|]. exists body, l0.
  destruct (cap_usize t Hps) as (_ & Hc2 & _). rewrite <-Hlen in Hc2.
  destruct (leaf_body_header body l0 Hc2 Hd) as (h & Hh & Hk).
  split_and!; try done. unfold read_node_guard, read_main_node. by rewrite Hb, Hh, Hk.
Qed.

Lemma read_leaf_ok t p l : leaf_at t p l -> read_leaf t p = Ok l.
Proof.
  unfold read_leaf. intros [->|(-> & body & l0 & Hb & _ & Hd & ->)]; [done|].
  destruct (dirty_leaves t !! p); [done|]. unfold decode_leaf_from_pager.
  by rewrite (read_main_page_ok _ _ _ body).
Qed.

(** ** Descents *)

(** One step down: the child covering [q]. *)
Lemma rep_child t h p lo hi kvs ids q :
  rep t (S h) p lo hi kvs ids -> in_range lo hi q ->
  exists n es1 es2 lo' hi' kL kR iL iR kvs' ids', internal_at t p n /\ internal_sorted n /\
    frame t h p n es1 es2 lo hi (child_of n q) lo' hi' kL kR iL iR /\
    rep t h (child_of n q) lo' hi' kvs' ids' /\ in_range lo' hi' q /\
    kvs = kL ++ kvs' ++ kR /\ ids = p :: iL ++ ids' ++ iR.
Proof.
  intros (n & ids' & Hn & -> & Hs) [Hlo Hhi].
  pose proof Hs as [Hsort _]%seg_keys.
  destruct (sorted_split_le (entries n) q Hsort) as (es1 & es2 & He & H1 & H2).
  assert (child_of n q = default (leftmost_child n) (last es1.*2)) as Hc
    by (unfold child_of; rewrite He; by apply route_split).
  rewrite He in Hs. apply seg_unplug in Hs
    as (lo' & hi' & kL & kR & iL & iR & kvs' & ids'' & HL & HR & Hr & -> & -> & Hlo' & Hhi').
  rewrite <-Hc in *. exists n, es1, es2, lo', hi', kL, kR, iL, iR, kvs', ids''.
  split_and!; try done. split.
  - subst lo'. destruct (last es1.*1) as [k|] eqn:Hl; [|done]. simpl.
    rewrite Forall_forall in H1. apply H1. by apply last_Some_elem_of.
  - subst hi'. destruct es2 as [|[k c] es2]; [done|]. simpl. by apply Forall_cons in H2 as [? _].
Qed.

Lemma descend_key t root H q :
  page_size_ok t ->
  forall h fuel anc c lo hi kL kR iC kvs ids seen,
  ctx t root H anc h c lo hi kL kR iC -> rep t h c lo hi kvs ids -> in_range lo hi q ->
  NoDup (anc ++ iC ++ ids) -> 0 ∉ ids -> seen_rep seen (list_to_set anc) -> (h <= fuel)%nat ->
  exists anc' leaf lo' hi' kL' kR' iC' l,
    descend fuel t (pick_child_for q) (reverse anc) c seen = Ok (reverse anc' ++ [leaf]) /\
    ctx t root H anc' 0 leaf lo' hi' kL' kR' iC' /\ rep t 0 leaf lo' hi' (records l) [leaf] /\
    leaf_at t leaf l /\ in_range lo' hi' q /\
    kL' ++ records l ++ kR' = kL ++ kvs ++ kR /\
    anc' ++ iC' ++ [leaf] ≡ₚ anc ++ iC ++ ids.
Proof.
  intros Hps. induction h as [|h IH]; intros fuel anc c lo hi kL kR iC kvs ids seen Hctx Hrep Hq Hnd H0 Hseen Hf.
  - destruct (rep_head _ _ _ _ _ _ _ Hrep) as [ids0 Hids].
    pose proof Hrep as (l & Hl & <- & -> & _). simplify_eq.
    assert (c ∉ (list_to_set anc : gset Z)) as Hc.
    { rewrite elem_of_list_to_set. intros Hin. apply NoDup_app in Hnd as (_ & Hd & _).
      eapply Hd; [done|]. apply elem_of_app. right. by left. }
    destruct (seen_insert_ok seen _ c Hseen) as (seen' & Hsi & _); [set_solver|done|].
    exists anc, c, lo, hi, kL, kR, iC, l. split_and!; try done.
    destruct fuel; simpl; rewrite Hsi; (case_bool_decide as Hfr; [done|]);
      destruct (read_node_guard_leaf t c l Hps Hl) as (body & l0 & -> & _); try done;
      by apply eq_None_not_Some.
  - destruct (rep_head _ _ _ _ _ _ _ Hrep) as [ids0 Hids].
    destruct (rep_child t h c lo hi kvs ids q Hrep Hq)
      as (n & es1 & es2 & lo' & hi' & kL1 & kR1 & iL & iR & kvs' & ids' & Hn & Hs & Hfr & Hr & Hq' & -> & Hids').
    assert (c ∉ (list_to_set anc : gset Z)) as Hc.
    { rewrite elem_of_list_to_set. intros Hin. apply NoDup_app in Hnd as (_ & Hd & _).
      eapply Hd; [done|]. apply elem_of_app. right. rewrite Hids. by left. }
    destruct (seen_insert_ok seen _ c Hseen) as (seen' & Hsi & Hseen'); [set_solver|done|].
    destruct (read_node_guard_internal t c n Hps Hn) as (body & Hg & _ & _ & Hpick).
    destruct fuel as [|fuel]; [lia|]. cbn [descend]. rewrite Hsi.
    rewrite bool_decide_false by (apply Hn || (destruct Hn as [-> _]; by intros [? ?])).
    rewrite Hg, Hpick by done.
    destruct (IH fuel (c :: anc) (child_of n q) lo' hi' (kL ++ kL1) (kR1 ++ kR)
      (iL ++ iR ++ iC) kvs' ids' seen')
      as (anc' & leaf & lo2 & hi2 & kL2 & kR2 & iC2 & l & Hdesc & Hctx' & Hr' & Hl' & Hq2 & Hk & Hi);
      try done.
    + econstructor; [done|exact Hfr].
    + rewrite Hids' in Hnd. eapply NoDup_perm; [|exact Hnd]. solve_Permutation.
    + rewrite Hids' in H0. set_solver.
    + lia.
    + rewrite reverse_cons in Hdesc.
      exists anc', leaf, lo2, hi2, kL2, kR2, iC2, l. split_and!; try done.
      * rewrite Hk, <-!app_assoc. done.
      * rewrite Hi, Hids'. solve_Permutation.
Qed.

(** ** The records left and right of a context *)

Lemma seg_rep_in_order t h c es lo hi kvs ids :
  seg (rep t h) c es lo hi kvs ids -> in_order lo hi kvs /\ blt lo hi.
Proof.
  intros Hs. split.
  - eapply seg_in_order; [|exact Hs]. intros ? ? ? ? ? Hr.
    split; [by eapply rep_blt|by eapply rep_in_order].
  - eapply seg_blt; [|exact Hs]. intros ? ? ? ? ?. apply rep_blt.
Qed.

Lemma frame_sides t h p n es1 es2 lo hi c lo' hi' kL kR iL iR q :
  frame t h p n es1 es2 lo hi c lo' hi' kL kR iL iR -> in_range lo' hi' q -> blt lo hi ->
  in_range lo hi q /\ Forall (fun k => k <ₖ q) kL.*1 /\ Forall (fun k => q <ₖ k) kR.*1.
Proof.
  intros (_ & _ & HL & HR) [Hg Hl] Hb.
  assert (ge_lo lo q /\ Forall (fun k => k <ₖ q) kL.*1) as [? ?].
  { destruct HL as [(_ & _ & -> & -> & _)|(es0 & k & _ & -> & _ & Hs)]; [done|].
    apply seg_rep_in_order in Hs as [[_ Hf] Hbl]. simpl in Hg. split; [by eapply ge_lo_weaken|].
    apply Forall_fmap. eapply Forall_impl; [exact Hf|]. intros r [[_ Hlt] _]. simpl in *.
    exact (key_lt_le_trans _ _ _ Hlt Hg). }
  assert (lt_hi q hi /\ Forall (fun k => q <ₖ k) kR.*1) as [? ?].
  { destruct HR as [(_ & -> & -> & _)|(k & c2 & es0 & _ & -> & _ & Hs)]; [done|].
    apply seg_rep_in_order in Hs as [[_ Hf] Hbl]. simpl in Hl. split; [by eapply lt_hi_weaken|].
    apply Forall_fmap. eapply Forall_impl; [exact Hf|]. intros r [[Hge _] _]. simpl in *.
    exact (key_lt_le_trans _ _ _ Hl Hge). }
  done.
Qed.

Lemma ctx_sides t root H anc h c lo hi kL kR iC q :
  ctx t root H anc h c lo hi kL kR iC -> in_range lo hi q ->
  Forall (fun k => k <ₖ q) kL.*1 /\ Forall (fun k => q <ₖ k) kR.*1.
Proof.
  intros Hc. induction Hc as [|anc h p lo hi n es1 es2 c lo' hi' kL kR iC kL' kR' iL iR Hc IH Hf];
    intros Hq; [done|].
  assert (blt lo hi) as Hb.
  { destruct Hf as (Hn & He & HL & HR).
    destruct HL as [(_ & _ & -> & _)|(es0 & k & _ & -> & _ & Hs)];
    destruct HR as [(_ & -> & _)|(k2 & c2 & es3 & _ & -> & _ & Hs2)]; apply in_range_blt in Hq; try done.
    - apply seg_rep_in_order in Hs2 as [_ ?]. by eapply blt_trans.
    - apply seg_rep_in_order in Hs as [_ ?]. by eapply blt_trans.
    - apply seg_rep_in_order in Hs as [_ ?]. apply seg_rep_in_order in Hs2 as [_ ?].
      eapply blt_trans; [done|]. by eapply blt_trans. }
  destruct (frame_sides _ _ _ _ _ _ _ _ _ _ _ _ _ _ _ q Hf Hq Hb) as (Hq' & ? & ?).
  destruct (IH Hq'). rewrite !fmap_app, !Forall_app. done.
Qed.

Lemma rec_map_context {V} (l1 l l2 : list (bytes * V)) q :
  Forall (fun k => k <ₖ q) l1.*1 -> Forall (fun k => q <ₖ k) l2.*1 ->
  rec_map (l1 ++ l ++ l2) !! q = rec_map l !! q.
Proof.
  intros H1 H2. rewrite !rec_map_app, !lookup_union.
  rewrite rec_map_lt, (rec_map_gt l2) by done. by destruct (rec_map l !! q).
Qed.

(** ** The height of a tree is at most its number of pages *)

Lemma rep_height t h p lo hi kvs ids :
  rep t h p lo hi kvs ids -> NoDup ids ->
  exists ps, length ps = h /\ NoDup ps /\ (forall q, q ∈ ps -> q ∈ ids /\ q ∈ dom (bt_pages t)).
Proof.
  revert p lo hi kvs ids. induction h as [|h IH]; intros p lo hi kvs ids Hr Hnd.
  - exists []. split_and!; [done|constructor|set_solver].
  - destruct Hr as (n & ids' & Hn & -> & Hs). apply NoDup_cons in Hnd as [Hp Hnd].
    assert (exists c lo' hi' kvs' ids'', rep t h c lo' hi' kvs' ids'' /\ NoDup ids'' /\ ids'' ⊆ ids')
      as (c & lo' & hi' & kvs' & ids'' & Hr & Hnd' & Hsub).
    { destruct (entries n) as [|[k c'] es]; simpl in Hs; [by eexists _, _, _, _, _|].
      destruct Hs as (ka & kb & ia & ib & _ & -> & _ & Hr & _). apply NoDup_app in Hnd as (? & _ & _).
      eexists _, _, _, _, _. split_and!; [exact Hr|done|set_solver]. }
    destruct (IH _ _ _ _ _ Hr Hnd') as (ps & Hlen & Hndp & Hin).
    exists (p :: ps). split_and!; [simpl; lia|constructor; [|done]; intros Hp'; apply Hin in Hp' as [? _]; set_solver|].
    intros q [->|Hq]%elem_of_cons.
    + split; [by left|]. destruct Hn as (_ & _ & body & Hb & _). by apply elem_of_dom.
    + apply Hin in Hq as [? ?]. set_solver.
Qed.

Lemma rep_fuel t h p lo hi kvs ids :
  rep t h p lo hi kvs ids -> NoDup ids -> (h <= nav_fuel t)%nat.
Proof.
  intros Hr Hnd. destruct (rep_height t h p lo hi kvs ids Hr Hnd) as (ps & <- & Hnp & Hin).
  unfold nav_fuel. rewrite <-size_dom, <-(size_list_to_set (C:=gset Z) ps) by done.
  assert (size (list_to_set ps : gset Z) <= size (dom (bt_pages t)))%nat; [|lia].
  apply subseteq_size. intros q. rewrite elem_of_list_to_set. intros Hq. by apply Hin in Hq as [_ ?].
Qed.

(** ** Paths and point reads *)

Lemma path_to_leaf_ok t H kvs ids q :
  page_size_ok t -> rep t H (root_page_id t) None None kvs ids -> NoDup ids -> 0 ∉ ids ->
  exists anc leaf lo hi kL kR iC l,
    path_to_leaf_for_key t q = Ok (reverse anc ++ [leaf]) /\
    ctx t (root_page_id t) H anc 0 leaf lo hi kL kR iC /\ rep t 0 leaf lo hi (records l) [leaf] /\
    leaf_at t leaf l /\ in_range lo hi q /\ kL ++ records l ++ kR = kvs /\
    anc ++ iC ++ [leaf] ≡ₚ ids.
Proof.
  intros Hps Hr Hnd H0. unfold path_to_leaf_for_key.
  destruct (descend_key t (root_page_id t) H q Hps H (nav_fuel t) [] (root_page_id t) None None
    [] [] [] kvs ids (seen_new "btree_descent"))
    as (anc & leaf & lo & hi & kL & kR & iC & l & Hd & Hc & Hl & Hla & Hq & Hk & Hi); try done.
  - constructor.
  - apply seen_new_rep.
  - by eapply rep_fuel.
  - exists anc, leaf, lo, hi, kL, kR, iC, l. rewrite app_nil_r in Hk. done.
Qed.

(** Resolving the value a lookup found. *)
Definition resolve (t : BTree) (o : option LeafValue) : result (option bytes) :=
  match o with
  | None => Ok None
  | Some v => let! b := resolve_leaf_value t v in Ok (Some b)
  end.

Lemma value_from_cached_leaf_resolve t l q :
  value_from_cached_leaf t l q = resolve t (leaf_get l q).
Proof. unfold value_from_cached_leaf, resolve. by destruct (leaf_get l q) as [[]|]. Qed.

Lemma extract_leaf_value_ok t p body l0 q :
  blen body <= USIZE_MAX -> leaf_decode body = Ok l0 -> fresh_leaves t !! p = None ->
  leaf_sorted (default l0 (dirty_leaves t !! p)) ->
  extract_leaf_value t q p body = resolve t (leaf_get (default l0 (dirty_leaves t !! p)) q).
Proof.
  intros Hb Hd Hf Hs. unfold extract_leaf_value. rewrite Hf. simpl.
  destruct (dirty_leaves t !! p) as [l|]; [apply value_from_cached_leaf_resolve|]. simpl.
  destruct (leaf_decode_accessor body l0 Hb Hd) as (h & Hv & Hin & Hk & Hlen & Hrec).
  unfold leaf_from_guard, validate_node_body_memoised, leaf_from_header. rewrite Hv, Hk. simpl.
  rewrite (la_find_ok body l0 h q Hb Hd Hv Hs). unfold leaf_get.
  destruct (leaf_position l0 q) as [i|i] eqn:Hp; [|done].
  pose proof (position_bound (records l0) q i Hp) as Hi. rewrite Hlen in Hi.
  destruct (value_loc_ok body h i Hin Hk Hi) as (loc & -> & Hval & Hbnd). rewrite Hrec by done. simpl.
  rewrite <-Hval. destruct loc as [s e|tl r]; simpl; [|done].
  destruct (Hbnd s e eq_refl) as (? & ? & ?). by rewrite slice_ok.
Qed.

Lemma get_loop_ok t q :
  page_size_ok t ->
  forall h fuel S c lo hi kvs ids seen,
  rep t h c lo hi kvs ids -> in_range lo hi q -> NoDup ids -> 0 ∉ ids ->
  seen_rep seen S -> (forall p, p ∈ ids -> p ∉ S) -> (h <= fuel)%nat ->
  get_loop fuel t q c seen = resolve t (rec_map kvs !! q).
Proof.
  intros Hps. induction h as [|h IH]; intros fuel S c lo hi kvs ids seen Hr Hq Hnd H0 Hseen Hdis Hf.
  - pose proof Hr as (l & Hl & <- & -> & (Hs & _) & _).
    destruct (seen_insert_ok seen S c Hseen) as (seen' & Hsi & _); [set_solver|apply Hdis; by left|].
    change (rec_map (records l)) with (leaf_map l). rewrite <-(leaf_get_spec l q Hs).
    destruct fuel; cbn [get_loop]; rewrite Hsi;
      (destruct (fresh_leaves t !! c) as [l'|] eqn:Hfr;
        [destruct Hl as [Hl|[Hl _]]; [rewrite Hfr in Hl; simplify_eq|congruence];
         apply value_from_cached_leaf_resolve|]);
      destruct (read_node_guard_leaf t c l Hps Hl Hfr) as (body & l0 & -> & _ & Hd & Hb & Hl0); rewrite Hl0 in Hs |- *;
      by apply extract_leaf_value_ok.
  - destruct (rep_head _ _ _ _ _ _ _ Hr) as [ids0 Hids].
    assert (blt lo hi) as Hbl by (by eapply rep_blt).
    destruct (rep_child t h c lo hi kvs ids q Hr Hq)
      as (n & es1 & es2 & lo' & hi' & kL & kR & iL & iR & kvs' & ids' & Hn & Hs & Hfr & Hr' & Hq' & -> & Hids').
    destruct (frame_sides _ _ _ _ _ _ _ _ _ _ _ _ _ _ _ q Hfr Hq' Hbl) as (_ & HkL & HkR).
    rewrite rec_map_context by done.
    assert (c ∈ ids) by (rewrite Hids; by left).
    destruct (seen_insert_ok seen S c Hseen) as (seen' & Hsi & Hseen'); [set_solver|by apply Hdis|].
    destruct (read_node_guard_internal t c n Hps Hn) as (body & Hg & _ & _ & Hpick).
    destruct fuel as [|fuel]; [lia|]. cbn [get_loop]. rewrite Hsi.
    destruct Hn as (-> & _). rewrite Hg, Hpick by done.
    rewrite Hids' in *. apply NoDup_cons in Hnd as [Hc Hnd].
    apply NoDup_app in Hnd as (_ & _ & Hnd). apply NoDup_app in Hnd as (Hnd & _ & _).
    apply (IH fuel ({[c]} ∪ S) _ lo' hi' kvs' ids'); try done; [set_solver| |lia].
    intros p Hp. specialize (Hdis p). set_solver.
Qed.

Lemma get_ok t H kvs ids q :
  page_size_ok t -> rep t H (root_page_id t) None None kvs ids -> NoDup ids -> 0 ∉ ids ->
  get t q = resolve t (rec_map kvs !! q).
Proof.
  intros Hps Hr Hnd H0. unfold get.
  destruct (rep_head _ _ _ _ _ _ _ Hr) as [ids0 Hids].
  rewrite (proj2 (Z.eqb_neq _ _)) by (set_solver).
  pose proof (rep_fuel _ _ _ _ _ _ _ Hr Hnd) as Hfuel.
  destruct H as [|h].
  - pose proof Hr as (l & Hl & <- & _ & (Hs & _) & _). change (rec_map (records l)) with (leaf_map l). rewrite <-(leaf_get_spec l q Hs).
    destruct (fresh_leaves t !! root_page_id t) as [l'|] eqn:Hfr.
    { destruct Hl as [Hl|[Hl _]]; [rewrite Hfr in Hl; simplify_eq|congruence].
      apply value_from_cached_leaf_resolve. }
    destruct (read_node_guard_leaf t _ l Hps Hl Hfr) as (body & l0 & -> & _ & Hd & Hb & Hl0). rewrite Hl0 in Hs |- *.
    by apply extract_leaf_value_ok.
  - destruct (rep_child t h _ None None kvs ids q Hr)
      as (n & es1 & es2 & lo' & hi' & kL & kR & iL & iR & kvs' & ids' & Hn & Hs & Hf & Hr' & Hq' & -> & Hids');
      [done|].
    destruct (frame_sides _ _ _ _ _ _ _ _ _ _ _ _ _ _ _ q Hf Hq') as (_ & HkL & HkR); [done|].
    rewrite rec_map_context by done.
    destruct (read_node_guard_internal t _ n Hps Hn) as (body & Hg & _ & _ & Hpick).
    destruct Hn as (-> & _). rewrite Hg. unfold get_from_node. rewrite Hpick by done.
    rewrite Hids' in *.
    destruct (seen_insert_ok (seen_new "btree_descent") ∅ (root_page_id t) (seen_new_rep _))
      as (seen' & -> & Hseen'); [set_solver..|].
    apply NoDup_cons in Hnd as [Hc Hnd].
    apply NoDup_app in Hnd as (_ & _ & Hnd). apply NoDup_app in Hnd as (Hnd & _ & _).
    eapply get_loop_ok; try done; [set_solver|set_solver|lia].
Qed.
End rep.
