(* ===== verification/TreeAlloc.v ===== *)
(** * TreeAlloc: page allocation in a write session

    Which pages a session may hand out, and which it must never write: the pages
    a durable header or a reader's snapshot may still name. *)

From S2P Require Import Prelude Keys Errors PageFormat Node Leaf Internal Store Overflow Tree TreeWrite TreeRep.
From Stdlib Require Import ZArith Lia.
From stdpp Require Import base list strings gmap.

Local Open Scope Z_scope.
Local Open Scope pagedb_scope.

(** The pages the session may hand out without growing the file. *)
Definition avail (t : BTree) : list Z :=
  freed_reusable t ++ match page_source t with Some s => cache s | None => [] end.

(** The pages the session does not use: available ones, and freed ones it may not
    reuse. *)
Definition unused (t : BTree) : list Z := avail t ++ freed t.

(** [alloc_ok n t us P]: a page is unused or in use ([us]), and that once only, a
    protected page ([P]) is not available and stays so when it is freed, and [n]
    more allocations keep page ids in 64 bits. *)
Definition alloc_ok (n : nat) (t : BTree) (us : list Z) (P : gset Z) : Prop :=
  NoDup (unused t ++ us) /\ (forall p, p ∈ unused t ++ us -> 4 <= p < next_page_id t) /\
  4 <= next_page_id t /\ next_page_id t + Z.of_nat n <= 2 ^ 64 /\
  (forall p, p ∈ P -> ~ (p ∈ avail t) /\ is_reusable_in_session p t = false /\ p < next_page_id t).

(** Everything of a session but its allocation state. *)
Definition same_content (t t' : BTree) : Prop :=
  bt_pages t' = bt_pages t /\ root_page_id t' = root_page_id t /\ page_size t' = page_size t /\
  dirty_leaves t' = dirty_leaves t /\ scheduled_frees t' = scheduled_frees t /\
  dirty_parent_paths t' = dirty_parent_paths t /\ fresh_leaves t' = fresh_leaves t /\
  append_last_key t' = append_last_key t /\ append_cached_path t' = append_cached_path t.

Lemma same_content_trans t1 t2 t3 : same_content t1 t2 -> same_content t2 t3 -> same_content t1 t3.
Proof. unfold same_content. intuition congruence. Qed.
Lemma same_content_at t t' p : same_content t t' -> same_at t t' p.
Proof. intros (H1 & _ & _ & H4 & _ & _ & H7 & _). unfold same_at. by rewrite H1, H4, H7. Qed.

(** The allocation state. *)
Definition same_alloc (t t' : BTree) : Prop :=
  next_page_id t' = next_page_id t /\ freed t' = freed t /\ freed_reusable t' = freed_reusable t /\
  page_source t' = page_source t.

Lemma alloc_ok_same n t t' us P : same_alloc t t' -> alloc_ok n t us P -> alloc_ok n t' us P.
Proof.
  intros (H1 & H2 & H3 & H4). unfold alloc_ok, unused, avail, is_reusable_in_session. by rewrite H1, H2, H3, H4.
Qed.
Lemma alloc_ok_le n m t us P : (m <= n)%nat -> alloc_ok n t us P -> alloc_ok m t us P.
Proof. unfold alloc_ok. intros ? (?&?&?&?&?). split; [done|]. split; [done|]. split; [done|]. split; [lia|done]. Qed.

#[global] Instance alloc_ok_perm n t : Proper ((≡ₚ) ==> (=) ==> iff) (alloc_ok n t).
Proof.
  assert (forall us us' P, us ≡ₚ us' -> alloc_ok n t us P -> alloc_ok n t us' P) as Hp.
  { intros us us' P Hus. unfold alloc_ok. by setoid_rewrite Hus. }
  intros us us' Hus P ? <-. split; by apply Hp.
Qed.

Lemma alloc_ok_bound n t us P p : alloc_ok n t us P -> p ∈ us -> 4 <= p < 2 ^ 64.
Proof.
  intros (_ & H & _ & ? & _) Hp. specialize (H p (proj2 (elem_of_app _ _ _) (or_intror Hp))). lia.
Qed.
Lemma alloc_ok_nodup n t us P : alloc_ok n t us P -> NoDup us.
Proof. intros (H & _). by apply NoDup_app in H as (_ & _ & ?). Qed.

Lemma vec_pop_some {A} (l : list A) x r : vec_pop l = Some (x, r) -> l = r ++ [x].
Proof.
  unfold vec_pop. destruct (reverse l) as [|y l'] eqn:Hr; [done|]. intros [= -> <-].
  by rewrite <-(reverse_involutive l), Hr, reverse_cons.
Qed.
Lemma vec_pop_none {A} (l : list A) : vec_pop l = None -> l = [].
Proof.
  unfold vec_pop. destruct (reverse l) eqn:Hr; [|done]. intros _.
  by rewrite <-(reverse_involutive l), Hr.
Qed.

(** Handing out a page of [avail]. *)
Lemma alloc_ok_take n t t' us P id :
  alloc_ok (S n) t us P -> avail t ≡ₚ id :: avail t' -> freed t' = freed t ->
  next_page_id t' = next_page_id t ->
  (forall p, p <> id -> is_reusable_in_session p t = false -> is_reusable_in_session p t' = false) ->
  ~ (id ∈ P) /\ alloc_ok n t' (id :: us) P.
Proof.
  intros (Hnd & Hb & H4 & Hn & HP) Hperm Hfr Hnext Hr.
  assert (id ∈ avail t) as Hid by (rewrite Hperm; left).
  assert (~ (id ∈ P)) as HidP by (intros Hi; by apply HP in Hi as [? _]).
  assert (unused t' ++ id :: us ≡ₚ unused t ++ us) as Hall
    by (unfold unused; rewrite Hperm, Hfr; solve_Permutation).
  split; [done|]. unfold alloc_ok. rewrite Hnext. split; [by apply (NoDup_perm _ _ (symmetry Hall))|].
  split; [intros p; rewrite Hall; apply Hb|]. split; [done|]. split; [lia|].
  intros p Hp. destruct (HP p Hp) as (H1 & H2 & H3).
  split; [intros Hpa; apply H1; rewrite Hperm; by right|]. split; [|done]. apply Hr; [by intros ->|done].
Qed.

(** Handing out the next page id. *)
Lemma alloc_ok_grow n t t' us P :
  alloc_ok (S n) t us P -> avail t' = avail t -> freed t' = freed t ->
  next_page_id t' = next_page_id t + 1 ->
  (forall p, is_reusable_in_session p t' = is_reusable_in_session p t) ->
  ~ (next_page_id t ∈ P) /\ alloc_ok n t' (next_page_id t :: us) P.
Proof.
  intros (Hnd & Hb & H4 & Hn & HP) Hav Hfr Hnext Hr. set (id := next_page_id t) in *.
  assert (unused t' ++ id :: us ≡ₚ id :: unused t ++ us) as Hall
    by (unfold unused; rewrite Hav, Hfr; solve_Permutation).
  split; [intros Hp; apply HP in Hp; lia|].
  unfold alloc_ok. rewrite Hnext. split.
  { apply (NoDup_perm _ _ (symmetry Hall)). constructor; [|done]. intros Hin%Hb. lia. }
  split; [intros p; rewrite Hall; intros [->|Hp%Hb]%elem_of_cons; lia|].
  split; [lia|]. split; [lia|]. intros p Hp. destruct (HP p Hp) as (H1 & H2 & H3).
  rewrite Hr, Hav. split; [done|]. split; [done|lia].
Qed.

(** An allocation hands out a page that is neither in use nor protected. *)
Lemma allocate_page_ok n t us P :
  alloc_ok (S n) t us P ->
  exists id t', allocate_page t = (Ok id, t') /\ ~ (id ∈ P) /\
    alloc_ok n t' (id :: us) P /\ same_content t t'.
Proof.
  intros Ha. unfold allocate_page.
  destruct (vec_pop (freed_reusable t)) as [[id rest]|] eqn:Hp.
  - apply vec_pop_some in Hp.
    destruct (alloc_ok_take n t (with_freed (freed t) rest t) us P id Ha) as (H1 & H2); [|done|done|done|].
    { unfold avail. simpl. rewrite Hp. solve_Permutation. }
    pose proof (alloc_ok_bound _ _ _ _ id H2 ltac:(by left)).
    rewrite (proj2 (Z.leb_le 4 id)) by lia. exists id. eexists. split; [reflexivity|]. done.
  - apply vec_pop_none in Hp.
    destruct (page_source t ≫= fun s => vec_pop (cache s)) as [[id rest]|] eqn:Hc.
    + apply bind_Some in Hc as (s & Hs & Hc). rewrite Hs. simpl. rewrite Hc. simpl.
      apply vec_pop_some in Hc.
      destruct (alloc_ok_take n t
        (with_source (Some (mkPageSource (reuse_threshold s) rest ({[id]} ∪ consumed s))) t) us P id Ha)
        as (H1 & H2).
      { unfold avail. simpl. rewrite Hp, Hs, Hc. solve_Permutation. }
      { done. }
      { done. }
      { intros p Hpi. unfold is_reusable_in_session. simpl. rewrite Hs.
        intros [-> Hpc]%orb_false_iff. simpl. apply bool_decide_eq_false in Hpc.
        apply bool_decide_eq_false. set_solver. }
      pose proof (alloc_ok_bound _ _ _ _ id H2 ltac:(by left)).
      rewrite (proj2 (Z.leb_le 4 id)) by lia. exists id. eexists. split; [reflexivity|]. done.
    + assert ((source ← page_source t; p ← vec_pop (cache source); Some (source, p)) = None) as ->.
      { destruct (page_source t) as [s|]; [|done]. simpl in *. by rewrite Hc. }
      destruct (alloc_ok_grow n t (with_next (next_page_id t + 1) t) us P Ha) as (H1 & H2);
        [done|done|done|done|].
      pose proof (alloc_ok_bound _ _ _ _ (next_page_id t) H2 ltac:(by left)).
      rewrite (proj2 (Z.leb_le 4 (next_page_id t))) by lia. eexists _, _. split; [reflexivity|]. done.
Qed.

(** Freeing a page in use. *)
Lemma free_page_ok n t us P p :
  alloc_ok n t (p :: us) P ->
  exists t', free_page p t = (Ok tt, t') /\ alloc_ok n t' us P /\ same_content t t'.
Proof.
  intros Ha. pose proof (alloc_ok_bound _ _ _ _ p Ha ltac:(by left)) as Hb4. unfold free_page.
  rewrite (proj2 (Z.leb_le 4 p)) by lia. simpl.
  destruct (is_reusable_in_session p t) eqn:Hr; eexists; (split; [reflexivity|]); (split; [|done]).
  - destruct Ha as (Hnd & Hb & H4 & Hn & HP).
    assert (avail (with_freed (freed t) (freed_reusable t ++ [p]) t) ≡ₚ p :: avail t) as Hav
      by (unfold avail; simpl; solve_Permutation).
    assert (unused (with_freed (freed t) (freed_reusable t ++ [p]) t) ++ us ≡ₚ unused t ++ p :: us) as Hall
      by (unfold unused; rewrite Hav; simpl; solve_Permutation).
    unfold alloc_ok. split; [by apply (NoDup_perm _ _ (symmetry Hall))|].
    split; [intros q; rewrite Hall; apply Hb|]. split; [done|]. split; [done|].
    intros q Hq. destruct (HP q Hq) as (H1 & H2 & H3).
    split; [|done]. rewrite Hav. intros [->|?]%elem_of_cons; [|done]. congruence.
  - destruct Ha as (Hnd & Hb & H4 & Hn & HP).
    assert (unused (with_freed (freed t ++ [p]) (freed_reusable t) t) ++ us ≡ₚ unused t ++ p :: us) as Hall
      by (unfold unused, avail; simpl; solve_Permutation).
    unfold alloc_ok. split; [by apply (NoDup_perm _ _ (symmetry Hall))|].
    split; [intros q; rewrite Hall; apply Hb|done].
Qed.
