(* ===== verification/TreeCow.v ===== *)
(** * TreeCow: copy-on-write of the path above a changed node

    [cow_ancestors] and [propagate_split_up] rebuild the pages above a node that
    has been replaced or split: they write newly allocated pages only, and the new
    root represents the old tree with the node exchanged. *)

From S2P Require Import Prelude Keys Errors PageFormat Node Leaf Internal Split Store Overflow Tree TreeWrite TreeRep TreeAlloc.
From Stdlib Require Import ZArith Lia.
From stdpp Require Import base list strings gmap.

Local Open Scope Z_scope.
Local Open Scope pagedb_scope.

(** ** Effects *)

(** [t'] is [t] after writes to pages of [W] (and allocations): the cached leaves
    and the rest of the session are as they were. *)
Definition cow_step (t t' : BTree) (W : list Z) : Prop :=
  (forall q, q ∈ W \/ bt_pages t' !! q = bt_pages t !! q) /\ page_size t' = page_size t /\
  dirty_leaves t' = dirty_leaves t /\ fresh_leaves t' = fresh_leaves t /\
  scheduled_frees t' = scheduled_frees t /\ append_last_key t' = append_last_key t /\
  append_cached_path t' = append_cached_path t /\
  dom (dirty_parent_paths t') = dom (dirty_parent_paths t).

Lemma cow_step_content t t' : same_content t t' -> cow_step t t' [].
Proof.
  intros (H1 & H2 & H3 & H4 & H5 & H6 & H7 & H8 & H9). unfold cow_step. rewrite H1, H6.
  split; [by right|]. done.
Qed.
Lemma cow_step_trans t1 t2 t3 W1 W2 :
  cow_step t1 t2 W1 -> cow_step t2 t3 W2 -> cow_step t1 t3 (W1 ++ W2).
Proof.
  intros (H1 & H1') (H2 & H2'). split; [|intuition congruence].
  intros q. rewrite elem_of_app. destruct (H1 q), (H2 q); auto. right. congruence.
Qed.
Lemma cow_step_paths t (f : gmap Z (list Z) -> gmap Z (list Z)) :
  dom (f (dirty_parent_paths t)) = dom (dirty_parent_paths t) -> cow_step t (with_paths f t) [].
Proof. intros Hf. split; [by right|]. done. Qed.
Lemma cow_step_sub t t' W W' : W ⊆ W' -> cow_step t t' W -> cow_step t t' W'.
Proof. intros Hs (H1 & H2). split; [|done]. intros q. destruct (H1 q); auto. Qed.
Lemma cow_step_at t t' W q : cow_step t t' W -> ~ (q ∈ W) -> same_at t t' q.
Proof.
  intros (H1 & _ & H2 & H3 & _) Hq. unfold same_at. rewrite H2, H3. by destruct (H1 q).
Qed.

(** Cached leaves are pages in use. *)
Definition caches_in (t : BTree) (us : list Z) : Prop :=
  forall p, is_Some (dirty_leaves t !! p) \/ is_Some (fresh_leaves t !! p) -> p ∈ us.

Lemma caches_in_step t t' W us : cow_step t t' W -> caches_in t us -> caches_in t' us.
Proof. intros (_ & _ & H2 & H3 & _). unfold caches_in. by rewrite H2, H3. Qed.
Lemma caches_in_sub t us us' : us ⊆ us' -> caches_in t us -> caches_in t us'.
Proof. intros Hs Hc p Hp. by apply Hs, Hc. Qed.
Lemma caches_in_none t us p :
  caches_in t us -> ~ (p ∈ us) -> dirty_leaves t !! p = None /\ fresh_leaves t !! p = None.
Proof. intros Hc Hp. split; apply eq_None_not_Some; intros ?; apply Hp, Hc; auto. Qed.

(** ** Page writes *)

Lemma write_internal_ok t p n :
  page_size_ok t -> Forall (fun c => is_u64 c) (children n) ->
  internal_needed n <= body_capacity (page_size t) ->
  dirty_leaves t !! p = None -> fresh_leaves t !! p = None ->
  exists t', write_internal p n t = (Ok tt, t') /\ internal_at t' p n /\ cow_step t t' [p] /\
    same_alloc t t' /\ root_page_id t' = root_page_id t /\ dirty_parent_paths t' = dirty_parent_paths t.
Proof.
  intros Hps Hc Hn Hd Hf. destruct (cap_usize t Hps) as (Hc1 & _ & Hc3). unfold HEADER_LEN in Hc3.
  destruct (internal_encode_layout n (zeros (body_capacity (page_size t)))) as (b & He & L & Hl);
    [done|rewrite blen_zeros; lia..|].
  rewrite blen_zeros in L by lia.
  unfold write_internal, write_page, gets, bind. rewrite He, write_main_page_ok by done.
  eexists. split; [reflexivity|]. split; [|split; [|done]].
  - unfold internal_at. simpl. split; [done|]. split; [done|]. exists b. by rewrite lookup_insert_eq.
  - unfold cow_step. simpl. split; [|done]. intros q. destruct (decide (q = p)) as [->|].
    + left. by left.
    + right. by rewrite lookup_insert_ne.
Qed.

Lemma find_child_slot_ok body n old :
  internal_layout n body ->
  forall m i, (i + m = length (entries n))%nat ->
  find_child_slot (mkInternalAccessor body (Z.of_nat (length (entries n))) (leftmost_child n)) old (seq i m) =
    Ok ((fun j => i + j)%nat <$> (fst <$> list_find (fun e : InternalEntry => e.2 = old) (drop i (entries n)))).
Proof.
  intros Hl. pose proof Hl as (Hb & _). destruct (layout_body_in n body Hl) as [_ Hin].
  induction m as [|m IH]; intros i Hi; simpl.
  - rewrite drop_ge by lia. done.
  - destruct (lookup_lt_is_Some_2 (entries n) i) as [[k c] Hic]; [lia|].
    rewrite (drop_S _ _ _ Hic). simpl.
    destruct (layout_records n body Hl i k c Hic) as ((? & ?) & Hk & Hch).
    destruct (internal_entry_bounds body _ i Hin) as (Hso & Ho1 & Ho2 & Ho3); [done|simpl; lia|].
    simpl in *. unfold entry_right_child, right_child_offset. simpl.
    rewrite Hso, read_u16_le_ok, read_u64_le_ok by lia.
    change (u64_at body (ent_off body 0 i + 2 + u16_at body (ent_off body 0 i)))
      with (child_at body (ent_off body 0 i)). rewrite Hch.
    case_decide as Hc; simpl in Hc.
    + rewrite (proj2 (Z.eqb_eq _ _) Hc). simpl. by rewrite Nat.add_0_r.
    + rewrite (proj2 (Z.eqb_neq _ _) Hc). rewrite IH by lia. f_equal.
      rewrite <-!option_fmap_compose. destruct (list_find _ _) as [[j e]|]; simpl; [|done]. f_equal. lia.
Qed.

Lemma replace_right_child_find es old new :
  replace_right_child es old new =
    match list_find (fun e : InternalEntry => e.2 = old) es with
    | Some (j, (k, _)) => <[j := (k, new)]> es
    | None => es
    end.
Proof.
  induction es as [|[k c] es IH]; simpl; [done|]. case_decide as Hc; simpl in Hc.
  - by rewrite (proj2 (Z.eqb_eq _ _) Hc).
  - rewrite (proj2 (Z.eqb_neq _ _) Hc), IH. by destruct (list_find _ _) as [[j [k' c']]|].
Qed.

(** Patching the child pointer in the page image does what decoding the node,
    replacing the child and encoding it again would. *)
Lemma repoint_child_ok body n old new :
  internal_layout n body -> is_u64 new ->
  exists body', repoint_child body old new = Ok body' /\ blen body' = blen body /\
    internal_layout (replace_child n old new) body'.
Proof.
  intros Hl Hnew. destruct (layout_body_in n body Hl) as [Hv Hin].
  unfold repoint_child, internal_from_guard, validate_node_body_memoised. rewrite Hv.
  unfold internal_from_header, replace_child. simpl.
  destruct (Z.eqb_spec (leftmost_child n) old); [by apply layout_set_leftmost|].
  rewrite Nat2Z.id, (find_child_slot_ok body n old Hl) by done. rewrite drop_0, replace_right_child_find.
  destruct (list_find _ _) as [[j [k c]]|] eqn:Hf; simpl.
  - apply list_find_Some in Hf as (Hj & _ & _).
    destruct (layout_records n body Hl j k c Hj) as ((? & ?) & Hk & _).
    destruct (internal_entry_bounds body _ j Hin) as (Hso & Ho1 & Ho2 & Ho3);
      [done|simpl; apply lookup_lt_Some in Hj; lia|]. simpl in *.
    unfold right_child_offset. simpl. rewrite Hso, read_u16_le_ok by lia.
    assert (u16_at body (ent_off body 0 j) = blen k) as ->.
    { rewrite <-Hk. unfold key_at. rewrite blen_sub; [done|lia..]. }
    by apply (layout_set_child n body j k c new).
  - exists body. destruct n. done.
Qed.

Lemma cow_internal_ok t p p' n old new :
  page_size_ok t -> internal_at t p n -> is_u64 new ->
  dirty_leaves t !! p' = None -> fresh_leaves t !! p' = None ->
  exists t', cow_internal_repointing_child p p' old new t = (Ok tt, t') /\
    internal_at t' p' (replace_child n old new) /\ cow_step t t' [p'] /\ same_alloc t t' /\
    root_page_id t' = root_page_id t /\ dirty_parent_paths t' = dirty_parent_paths t.
Proof.
  intros Hps (_ & _ & body & Hb & Hlen & Hl) Hnew Hd Hf.
  destruct (repoint_child_ok body n old new Hl Hnew) as (b & Hr & L & Hl').
  unfold cow_internal_repointing_child, write_page, gets, bind.
  rewrite (read_main_page_ok _ _ _ body) by done. rewrite Hr, write_main_page_ok by (done || lia).
  eexists. split; [reflexivity|]. split; [|split; [|done]].
  - unfold internal_at. simpl. split; [done|]. split; [done|]. exists b. rewrite lookup_insert_eq.
    split; [done|]. split; [lia|done].
  - unfold cow_step. simpl. split; [|done]. intros q. destruct (decide (q = p')) as [->|].
    + left. by left.
    + right. by rewrite lookup_insert_ne.
Qed.

(** ** Exchanging one child of a node *)

Section cow.
Context (K : Z).
Local Abbreviation rep := (rep K).
Local Abbreviation seg := (seg K).
Local Abbreviation left_of := (left_of K).
Local Abbreviation right_of := (right_of K).
Local Abbreviation frame := (frame K).
Local Abbreviation ctx := (ctx K).

Lemma seg_children t h c es lo hi kvs ids :
  seg (rep t h) c es lo hi kvs ids -> forall q, q ∈ c :: es.*2 -> q ∈ ids.
Proof.
  revert c lo kvs ids. induction es as [|[k c'] es IH]; intros c lo kvs ids; simpl.
  - intros (ids' & ->)%rep_head q. set_solver.
  - intros (ka & kb & ia & ib & -> & -> & _ & (ids' & ->)%rep_head & Hs) q.
    specialize (IH _ _ _ _ Hs). set_solver.
Qed.

Lemma replace_right_child_app es1 es2 old new :
  ~ (old ∈ es1.*2) -> replace_right_child (es1 ++ es2) old new = es1 ++ replace_right_child es2 old new.
Proof.
  induction es1 as [|[k c] es1 IH]; simpl; [done|]. intros Hn.
  rewrite (proj2 (Z.eqb_neq _ _)) by set_solver. by rewrite IH by set_solver.
Qed.

(** The hole of a frame can be refilled. *)
Lemma replace_child_hole t h n es1 es2 c new lo lo' kL iL :
  entries n = es1 ++ es2 -> left_of (rep t h) (leftmost_child n) es1 c lo lo' kL iL -> ~ (c ∈ iL) ->
  exists es1', entries (replace_child n c new) = es1' ++ es2 /\ es1'.*1 = es1.*1 /\
    left_of (rep t h) (leftmost_child (replace_child n c new)) es1' new lo lo' kL iL /\
    (forall q, q ∈ children (replace_child n c new) -> q = new \/ q ∈ children n).
Proof.
  intros He HL Hc. unfold replace_child.
  destruct HL as [(-> & -> & -> & -> & ->)|(es0 & k & -> & -> & HK & Hs)].
  - rewrite Z.eqb_refl. exists []. split; [done|]. split; [done|]. split; [by left|].
    unfold children. simpl. set_solver.
  - pose proof (seg_children _ _ _ _ _ _ _ _ Hs) as Hch.
    rewrite (proj2 (Z.eqb_neq _ _)) by (intros <-; apply Hc, Hch; by left). simpl.
    rewrite He, <-app_assoc, replace_right_child_app
      by (intros Hin; apply Hc, Hch; by right). simpl. rewrite Z.eqb_refl.
    exists (es0 ++ [(k, new)]). rewrite <-app_assoc. split; [done|]. split; [by rewrite !fmap_app|].
    split; [right; eauto 10|]. intros q. unfold children. simpl. rewrite He, !fmap_app. set_solver.
Qed.

(** ** Frames and contexts under writes elsewhere *)

Lemma left_of_frame t t' h lm es1 c lo lo' kL iL :
  page_size t' = page_size t -> (forall q, q ∈ iL -> same_at t t' q) ->
  left_of (rep t h) lm es1 c lo lo' kL iL -> left_of (rep t' h) lm es1 c lo lo' kL iL.
Proof.
  intros Hps Hs [?|(es0 & k & -> & -> & HK & Hseg)]; [by left|]. right. exists es0, k.
  split; [done|]. split; [done|]. split; [done|]. by eapply seg_frame.
Qed.
Lemma right_of_frame t t' h es2 hi' hi kR iR :
  page_size t' = page_size t -> (forall q, q ∈ iR -> same_at t t' q) ->
  right_of (rep t h) es2 hi' hi kR iR -> right_of (rep t' h) es2 hi' hi kR iR.
Proof.
  intros Hps Hs [?|(k & c & es0 & -> & -> & HK & Hseg)]; [by left|]. right. exists k, c, es0.
  split; [done|]. split; [done|]. split; [done|]. by eapply seg_frame.
Qed.

Lemma ctx_frame t t' root H anc h c lo hi kL kR iC :
  page_size t' = page_size t -> (forall q, q ∈ anc ++ iC -> same_at t t' q) ->
  ctx t root H anc h c lo hi kL kR iC -> ctx t' root H anc h c lo hi kL kR iC.
Proof.
  intros Hps Hs Hc. induction Hc as [|anc h p lo hi n es1 es2 c lo' hi' kL kR iC kL' kR' iL iR _ IH Hf].
  - constructor.
  - destruct Hf as (Hn & He & HL & HR). eapply ctx_child.
    + apply IH. intros q Hq. apply Hs. set_solver.
    + split; [apply (internal_at_frame t); [done|apply Hs; set_solver|done]|]. split; [done|].
      split; [eapply left_of_frame; [done| |done]|eapply right_of_frame; [done| |done]];
        intros; apply Hs; set_solver.
Qed.

(** ** The pages of a tree are closed under children *)

Definition edge (t : BTree) (S : list Z) (a y : Z) : Prop :=
  a ∈ S /\ exists m, internal_at t a m /\ y ∈ children m.

Lemma leaf_not_internal t p l n : leaf_at t p l -> internal_at t p n -> False.
Proof.
  intros [Hl|(_ & b & l0 & Hb & _)] (Hf & _ & b' & Hb' & _); congruence.
Qed.

Lemma rep_closed t h p lo hi kvs ids a y :
  rep t h p lo hi kvs ids -> edge t ids a y -> y ∈ ids.
Proof.
  intros Hr (Ha & m & Hm & Hy). revert p lo hi kvs ids Hr Ha.
  induction h as [|h IH]; intros p lo hi kvs ids; simpl.
  - intros (l & Hl & _ & -> & _) ->%list_elem_of_singleton. by destruct (leaf_not_internal t p l m).
  - intros (n & ids' & Hn & -> & Hs) [->|Ha]%elem_of_cons.
    + rewrite (internal_at_inj _ _ _ _ Hm Hn) in Hy. right. by eapply seg_children.
    + right. clear Hn. revert Hs Ha. generalize (leftmost_child n) as c. revert lo kvs ids'.
      induction (entries n) as [|[k c'] es IHes]; intros lo1 kvs1 ids' c; simpl.
      * apply IH.
      * intros (ka & kb & ia & ib & -> & -> & _ & Hc & Hs). rewrite !elem_of_app.
        intros [Ha|Ha]; [left; by eapply IH|right; by eapply IHes].
Qed.

Lemma seg_closed t h c es lo hi kvs ids a y :
  seg (rep t h) c es lo hi kvs ids -> edge t ids a y -> y ∈ ids.
Proof.
  intros Hs (Ha & m & Hm & Hy). revert c lo kvs ids Hs Ha.
  induction es as [|[k c'] es IH]; intros c lo kvs ids; simpl.
  - intros Hr Ha. eapply rep_closed; [done|]. split; eauto.
  - intros (ka & kb & ia & ib & -> & -> & _ & Hc & Hs). rewrite !elem_of_app.
    intros [Ha|Ha]; [left|right; by eapply IH]. eapply rep_closed; [done|]. split; eauto.
Qed.

Lemma left_of_closed t h lm es1 c lo lo' kL iL a y :
  left_of (rep t h) lm es1 c lo lo' kL iL -> edge t iL a y -> y ∈ iL.
Proof.
  intros [(_ & _ & _ & _ & ->)|(es0 & k & _ & _ & _ & Hs)] He; [destruct He; set_solver|by eapply seg_closed].
Qed.
Lemma right_of_closed t h es2 hi' hi kR iR a y :
  right_of (rep t h) es2 hi' hi kR iR -> edge t iR a y -> y ∈ iR.
Proof.
  intros [(_ & _ & _ & ->)|(k & c & es0 & _ & _ & _ & Hs)] He; [destruct He; set_solver|by eapply seg_closed].
Qed.

(** The children of a frame's node: the hole, or in the siblings' pages. *)
Lemma frame_children t h p n es1 es2 lo hi c lo' hi' kL kR iL iR y :
  frame t h p n es1 es2 lo hi c lo' hi' kL kR iL iR -> y ∈ children n -> y = c \/ y ∈ iL ++ iR.
Proof.
  intros (_ & He & HL & HR). unfold children. rewrite He, fmap_app.
  assert (y ∈ es2.*2 -> y ∈ iR) as Hr.
  { destruct HR as [(-> & _)|(k & c' & es0 & -> & _ & _ & Hs)]; [set_solver|].
    intros Hy. by apply (seg_children _ _ _ _ _ _ _ _ Hs). }
  assert (y ∈ leftmost_child n :: es1.*2 -> y = c \/ y ∈ iL) as Hl.
  { destruct HL as [(-> & -> & _)|(es0 & k & -> & _ & _ & Hs)]; [set_solver|].
    pose proof (seg_children _ _ _ _ _ _ _ _ Hs y). rewrite fmap_app. set_solver. }
  set_solver.
Qed.

Lemma ctx_closed t root H anc h c lo hi kL kR iC a y :
  ctx t root H anc h c lo hi kL kR iC -> edge t (anc ++ iC) a y ->
  y ∈ anc ++ iC \/ y = c /\ head anc = Some a.
Proof.
  intros Hc (Ha & m & Hm & Hy).
  induction Hc as [|anc h p lo hi n es1 es2 c lo' hi' kL kR iC kL' kR' iL iR _ IH Hf]; [set_solver|].
  pose proof Hf as (Hn & He & HL & HR). simpl in Ha.
  apply elem_of_cons in Ha as [->|Ha].
  { rewrite (internal_at_inj _ _ _ _ Hm Hn) in Hy.
    destruct (frame_children _ _ _ _ _ _ _ _ _ _ _ _ _ _ _ y Hf Hy) as [->|?]; [by right|]. left. set_solver. }
  left. rewrite !elem_of_app in Ha. destruct Ha as [Ha|[Ha|[Ha|Ha]]].
  - destruct IH as [?|[-> _]]; [by apply elem_of_app; left| |by left]. set_solver.
  - assert (y ∈ iL) by (eapply left_of_closed; [exact HL|]; split; eauto). set_solver.
  - assert (y ∈ iR) by (eapply right_of_closed; [exact HR|]; split; eauto). set_solver.
  - destruct IH as [?|[-> _]]; [by apply elem_of_app; right| |by left]. set_solver.
Qed.
End cow.

(** ** Recorded paths *)

(** [path] leads from a node of [from] over the edges of [E] to [leaf]. *)
Fixpoint linked (E : Z -> Z -> Prop) (from : Z -> Prop) (path : list Z) (leaf : Z) : Prop :=
  match path with
  | [] => from leaf
  | p :: rest => from p /\ linked E (E p) rest leaf
  end.

Lemma linked_map (E E' : Z -> Z -> Prop) (F F' : Z -> Prop) (s : Z -> Z) path leaf :
  (forall a x, E a x -> E' (s a) (s x)) -> (forall x, F x -> F' (s x)) ->
  linked E F path leaf -> linked E' F' (map s path) (s leaf).
Proof.
  intros HE. revert F F'. induction path as [|p path IH]; intros F F' HF; simpl; [apply HF|].
  intros [Hp Hl]. split; [by apply HF|]. eapply IH; [|exact Hl]. intros x. apply HE.
Qed.

(** The path recorded for a dirty leaf leads to it. *)
Definition paths_ok (t : BTree) (S : list Z) (root : Z) : Prop :=
  forall leaf path, dirty_parent_paths t !! leaf = Some path ->
    is_Some (dirty_leaves t !! leaf) /\ linked (edge t S) (eq root) path leaf.

(** While a split moves up: [c] has been replaced by [New], its parent not yet. *)
Definition subst_to (c : Z) (New : list Z) (y x : Z) : Prop :=
  y <> c /\ x = y \/ y = c /\ x ∈ New.
Definition vedge (t : BTree) (S : list Z) (c : Z) (New : list Z) (a x : Z) : Prop :=
  exists y, edge t S a y /\ subst_to c New y x.
Definition vpaths (t : BTree) (S : list Z) (root c : Z) (New : list Z) : Prop :=
  forall leaf path, dirty_parent_paths t !! leaf = Some path ->
    is_Some (dirty_leaves t !! leaf) /\ linked (vedge t S c New) (subst_to c New root) path leaf.

Lemma vpaths_map t t' S S' root c New c2 New2 (s : Z -> Z) :
  dirty_leaves t' = dirty_leaves t -> dirty_parent_paths t' = map s <$> dirty_parent_paths t ->
  (forall leaf, is_Some (dirty_leaves t !! leaf) -> s leaf = leaf) ->
  (forall a x, vedge t S c New a x -> vedge t' S' c2 New2 (s a) (s x)) ->
  (forall x, subst_to c New root x -> subst_to c2 New2 root (s x)) ->
  vpaths t S root c New -> vpaths t' S' root c2 New2.
Proof.
  intros Hd Hp Hs HE HF Hv leaf path. rewrite Hp, Hd, lookup_fmap.
  intros (path0 & Hl & ->)%fmap_Some. destruct (Hv leaf path0 Hl) as [Hsome Hlink]. split; [done|].
  rewrite <-(Hs leaf Hsome) at 1. by eapply linked_map.
Qed.

Lemma vpaths_sub t S S' root c New :
  (forall q, q ∈ S -> q ∈ S') -> vpaths t S root c New -> vpaths t S' root c New.
Proof.
  intros HS Hv leaf path Hl. destruct (Hv leaf path Hl) as [Hd Hlk]. split; [done|].
  rewrite <-(map_id path). eapply (linked_map _ _ _ _ id); [|intros x; exact id|exact Hlk].
  intros a x (y & (Ha' & Hy) & Hsub). exists y. split; [|done]. split; [|done]. by apply HS.
Qed.

Lemma edge_frame t t' S S' a y :
  page_size t' = page_size t -> same_at t t' a -> (a ∈ S -> a ∈ S') -> edge t S a y -> edge t' S' a y.
Proof.
  intros Hps Hsa Hin (Ha & m & Hm & Hy). split; [by apply Hin|]. exists m. split; [|done].
  by apply (internal_at_frame t).
Qed.

Definition rename (old new : Z) (q : Z) : Z := if q =? old then new else q.
Lemma rename_old old new : rename old new old = new.
Proof. unfold rename. by rewrite Z.eqb_refl. Qed.
Lemma rename_other old new q : q <> old -> rename old new q = q.
Proof. intros. unfold rename. by rewrite (proj2 (Z.eqb_neq _ _)). Qed.

Lemma replace_child_children n old new y :
  y ∈ children n -> y <> old -> y ∈ children (replace_child n old new).
Proof.
  unfold children, replace_child. intros Hy Hne.
  assert (forall es, y ∈ es.*2 -> y ∈ (replace_right_child es old new).*2) as Hes.
  { induction es as [|[k c] es IH]; simpl; [done|]. destruct (Z.eqb_spec c old) as [->|]; set_solver. }
  destruct (Z.eqb_spec (leftmost_child n) old); simpl; [set_solver|]. specialize (Hes (entries n)). set_solver.
Qed.
Lemma replace_child_new n old new :
  old ∈ children n -> new ∈ children (replace_child n old new).
Proof.
  unfold children, replace_child. intros Hy.
  assert (forall es, old ∈ es.*2 -> new ∈ (replace_right_child es old new).*2) as Hes.
  { induction es as [|[k c] es IH]; simpl; [set_solver|]. destruct (Z.eqb_spec c old) as [->|]; set_solver. }
  destruct (Z.eqb_spec (leftmost_child n) old); simpl; [set_solver|]. specialize (Hes (entries n)). set_solver.
Qed.
