(* ===== verification/TreePropagate.v ===== *)
(** * TreePropagate: rebuilding the path above a split

    One level of the walk to the root, the walk without a split
    ([cow_ancestors]), and the walk with one ([propagate_split_up]). *)

From S2P Require Import Prelude Keys Errors PageFormat Node Leaf Internal Split Store Overflow Tree TreeWrite TreeRep TreeAlloc TreeCow.
From Stdlib Require Import ZArith Lia.
From stdpp Require Import base list strings gmap.

Local Open Scope Z_scope.
Local Open Scope pagedb_scope.

(** Membership in concatenations. *)
Ltac mem_norm H :=
  repeat first [rewrite !elem_of_app in H | rewrite !elem_of_cons in H | rewrite !elem_of_nil in H].
Ltac mem :=
  repeat first [rewrite !elem_of_app | rewrite !elem_of_cons | rewrite !elem_of_nil]; tauto.
Tactic Notation "mem" "in" hyp(H) := mem_norm H; mem.
Tactic Notation "mem" "in" hyp(H1) hyp(H2) := mem_norm H1; mem_norm H2; mem.

Section cow_up.
Context (K : Z).
Local Abbreviation rep := (rep K).
Local Abbreviation ctx := (ctx K).
Local Abbreviation frame := (frame K).

Lemma ctx_inv t root H p anc h c lo' hi' kL kR iC :
  ctx t root H (p :: anc) h c lo' hi' kL kR iC ->
  exists lo hi n es1 es2 kL0 kR0 kL' kR' iL iR ids, ctx t root H anc (S h) p lo hi kL0 kR0 ids /\
    frame t h p n es1 es2 lo hi c lo' hi' kL' kR' iL iR /\
    kL = kL0 ++ kL' /\ kR = kR' ++ kR0 /\ iC = iL ++ iR ++ ids.
Proof. inversion 1; subst. eauto 20. Qed.

Lemma ctx_root_in t root H anc h c lo hi kL kR iC :
  ctx t root H anc h c lo hi kL kR iC -> anc <> [] -> root ∈ anc.
Proof.
  induction 1 as [|anc h p lo hi n es1 es2 c lo' hi' kL kR iC kL' kR' iL iR Hc IH Hf]; [done|]. intros _.
  destruct anc as [|q anc]; [|right; by apply IH]. inversion Hc; subst. by left.
Qed.

(** Recorded paths after one level has been rewritten: [p] became [p'], whose
    children are those of [p] with [c] replaced. *)
Lemma vpaths_up t t' root H p anc h c lo hi kL kR iC ids New p' n' :
  ctx t root H (p :: anc) h c lo hi kL kR iC ->
  (forall a y, edge t ids a y -> y ∈ ids) ->
  NoDup (p' :: p :: anc ++ iC ++ ids) -> ~ (c ∈ p :: anc ++ iC ++ ids) -> New ⊆ ids ->
  dirty_leaves t' = dirty_leaves t -> page_size t' = page_size t ->
  (forall q, q ∈ anc ++ iC ++ ids -> same_at t t' q) -> internal_at t' p' n' ->
  (forall n y x, internal_at t p n -> y ∈ children n -> subst_to c New y x -> x ∈ children n') ->
  dirty_parent_paths t' = map (rename p p') <$> dirty_parent_paths t ->
  vpaths t ((p :: anc) ++ iC ++ ids) root c New ->
  vpaths t' (anc ++ iC ++ p' :: ids) root p [p'].
Proof.
  intros Hctx Hids Hnd Hc HNew Hd Hps Hs Hp' Hch Hpaths.
  apply NoDup_cons in Hnd as [Hp'n Hnd]. apply NoDup_cons in Hnd as [Hpn Hnd].
  assert (root ∈ p :: anc) as Hroot by (eapply ctx_root_in; [exact Hctx|done]).
  assert (exists n iL iR, internal_at t p n /\ iL ++ iR ⊆ iC /\
    (forall y, y ∈ children n -> y = c \/ y ∈ iL ++ iR)) as (n & iL & iR & Hn & HiC & Hcn).
  { destruct (ctx_inv _ _ _ _ _ _ _ _ _ _ _ _ Hctx)
      as (lo1 & hi1 & n & es1 & es2 & kL1 & kR1 & kL2 & kR2 & iL & iR & ids1 & _ & Hf & -> & -> & ->).
    exists n, iL, iR. split; [apply Hf|].
    split; [intros q; rewrite !elem_of_app; tauto|]. intros y. by eapply frame_children. }
  assert (forall y, subst_to p [p'] y (rename p p' y)) as Hself.
  { intros y. destruct (decide (y = p)) as [->|Hne].
    - right. rewrite rename_old. split; [done|by left].
    - left. by rewrite rename_other. }
  apply vpaths_map with (s := rename p p'); try done.
  - intros leaf Hl. apply rename_other. intros ->. destruct Hn as (_ & Hn & _). rewrite Hn in Hl. by destruct Hl.
  - intros a x (y & (Ha & m & Hm & Hy) & Hsub). destruct (decide (a = p)) as [->|Hap].
    + rewrite (internal_at_inj _ _ _ _ Hm Hn) in Hy. rewrite rename_old.
      assert (x <> p) as Hxp.
      { intros ->. destruct Hsub as [[Hyc ->]|[-> Hx]].
        - destruct (Hcn _ Hy) as [?|Hin]; [done|]. apply HiC in Hin. mem in Hpn.
        - apply HNew in Hx. mem in Hpn. }
      exists x. split; [|apply Hself]. split; [mem|]. eauto.
    + rewrite rename_other by done.
      assert (y <> c) as Hyc.
      { intros ->. assert (a ∈ (p :: anc) ++ iC \/ a ∈ ids) as [Ha'|Ha'] by (mem in Ha).
        - destruct (ctx_closed K _ _ _ _ _ _ _ _ _ _ _ a c Hctx) as [Hin|[_ [= ->]]];
            [split; [done|]; by exists m|mem in Hc Hin|done].
        - specialize (Hids a c). ospecialize (Hids _); [split; [done|]; by exists m|]. mem in Hc. }
      destruct Hsub as [[_ ->]|[? _]]; [|done]. exists y. split; [|apply Hself].
      apply (edge_frame t t' ((p :: anc) ++ iC ++ ids)); [done|apply Hs; mem in Ha|mem|].
      split; [done|]. by exists m.
  - intros x [[_ ->]|[-> _]]; [apply Hself|]. mem in Hc Hroot.
Qed.

Lemma rename_paths t p p' :
  dirty_parent_paths (remap_dirty_parent_paths p p' t) = map (rename p p') <$> dirty_parent_paths t.
Proof. done. Qed.

(** One level of the walk to the root: [p'] is a copy of [p] with [c'] for [c]. *)
Lemma cow_level_ok t root H p anc h c lo hi kL kR iC c' kvs ids X P n :
  page_size_ok t -> ctx t root H (p :: anc) h c lo hi kL kR iC -> rep t h c' lo hi kvs ids ->
  ~ (c ∈ p :: anc ++ iC ++ ids) ->
  alloc_ok (S n) t ((p :: anc) ++ iC ++ ids ++ X) P -> caches_in t ((p :: anc) ++ iC ++ ids ++ X) ->
  vpaths t ((p :: anc) ++ iC ++ ids) root c [c'] ->
  exists p' t' lo1 hi1 kL1 kR1 kL2 kR2 iC1 ids1,
    (do! new_p := allocate_page in
     do! _ := cow_internal_repointing_child p new_p c c' in
     do! _ := free_page p in
     do! _ := modify (remap_dirty_parent_paths p new_p) in ret new_p) t = (Ok p', t') /\
    ctx t' root H anc (S h) p lo1 hi1 kL1 kR1 iC1 /\
    rep t' (S h) p' lo1 hi1 (kL2 ++ kvs ++ kR2) ids1 /\
    kL1 ++ kL2 = kL /\ kR2 ++ kR1 = kR /\ iC1 ++ ids1 ≡ₚ p' :: iC ++ ids /\
    ~ (p ∈ anc ++ iC1 ++ ids1) /\ ~ (p' ∈ P) /\ ~ (p' ∈ iC ++ ids ++ X) /\
    alloc_ok n t' (anc ++ iC1 ++ ids1 ++ X) P /\ caches_in t' (anc ++ iC1 ++ ids1 ++ X) /\
    cow_step t t' [p'] /\ root_page_id t' = root_page_id t /\
    vpaths t' (anc ++ iC1 ++ ids1) root p [p'] /\ (hi = None -> hi1 = None /\ last ids1 = last ids).
Proof.
  intros Hps Hctx Hrep Hc Ha Hca Hv.
  destruct (ctx_inv _ _ _ _ _ _ _ _ _ _ _ _ Hctx)
    as (lo1 & hi1 & m & es1 & es2 & kL1 & kR1 & kL2 & kR2 & iL & iR & iC1 & Hctx1 & Hf & -> & -> & ->).
  pose proof Hf as (Hm & He & HL & HR).
  destruct (allocate_page_ok _ _ _ _ Ha) as (p' & t1 & Hal & Hp'P & Ha1 & Hc1).
  pose proof (alloc_ok_nodup _ _ _ _ Ha1) as Hnd.
  pose proof Hc1 as (E1 & E2 & E3 & E4 & E5 & E6 & E7 & _).
  assert (page_size_ok t1) as Hps1 by (unfold page_size_ok; by rewrite E3).
  pose proof (proj1 (NoDup_cons _ _) Hnd) as [Hp'n _].
  destruct (caches_in_none t1 _ p' (caches_in_step _ _ _ _ (cow_step_content _ _ Hc1) Hca) Hp'n) as [Hd1 Hf1].
  destruct (rep_head _ _ _ _ _ _ _ _ Hrep) as [ids0 Hids0].
  assert (is_u64 c') as Hc'.
  { pose proof (alloc_ok_bound _ _ _ _ c' Ha) as Hb. rewrite Hids0 in Hb. ospecialize (Hb _); [mem|]. unfold U64_MAX. lia. }
  destruct (cow_internal_ok t1 p p' m c c' Hps1) as (t2 & Hcow & Hm2 & Hc2 & Hsa2 & Hr2 & Hpa2); [|done..|].
  { apply (internal_at_frame t); [done|by apply same_content_at|done]. }
  apply (alloc_ok_same _ _ t2) in Ha1; [|done].
  assert (p' :: (p :: anc) ++ (iL ++ iR ++ iC1) ++ ids ++ X ≡ₚ
          p :: anc ++ iC1 ++ (p' :: iL ++ ids ++ iR) ++ X) as Hperm by solve_Permutation.
  rewrite Hperm in Ha1.
  destruct (free_page_ok _ _ _ _ _ Ha1) as (t3 & Hfr & Ha3 & Hc3).
  assert (cow_step t (remap_dirty_parent_paths p p' t3) [p']) as Hstep.
  { apply (cow_step_trans t t1 _ [] [p']); [by apply cow_step_content|].
    apply (cow_step_trans t1 t2 _ [p'] []); [done|].
    apply (cow_step_trans t2 t3 _ [] []); [by apply cow_step_content|].
    apply cow_step_paths. apply dom_fmap_L. }
  assert (forall q, q ∈ (p :: anc) ++ (iL ++ iR ++ iC1) ++ ids ++ X ->
            same_at t (remap_dirty_parent_paths p p' t3) q) as Hsame.
  { intros q Hq. apply (cow_step_at _ _ [p']); [done|].
    intros ->%list_elem_of_singleton. done. }
  pose proof Hc3 as (F1 & F2 & F3 & F4 & F5 & F6 & F7 & _).
  pose proof Hc2 as (_ & G3 & _).
  assert (page_size (remap_dirty_parent_paths p p' t3) = page_size t) as Hpsz
    by (change (page_size t3 = page_size t); congruence).
  set (t4 := remap_dirty_parent_paths p p' t3) in *.
  destruct (replace_child_hole K t h m es1 es2 c c' lo1 lo kL2 iL He HL) as (es1' & He' & _ & HL' & _).
  { intros Hin. apply Hc. mem. }
  assert (internal_at t4 p' (replace_child m c c')) as Hm4.
  { change (internal_at t3 p' (replace_child m c c')). apply (internal_at_frame t2); [done|by apply same_content_at|done]. }
  exists p', t4, lo1, hi1, kL1, kR1, kL2, kR2, iC1, (p' :: iL ++ ids ++ iR).
  split; [unfold bind; rewrite Hal, Hcow, Hfr; done|].
  split; [eapply ctx_frame; [done| |exact Hctx1]; intros q Hq; apply Hsame; mem in Hq|].
  split.
  { eapply frame_plug; [split; [exact Hm4|]|eapply rep_frame; [done| |exact Hrep]].
    - split; [exact He'|].
      split; [eapply left_of_frame; [done| |exact HL']|eapply right_of_frame; [done| |exact HR]];
        intros q Hq; apply Hsame; mem.
    - intros q Hq; apply Hsame; mem. }
  split; [done|]. split; [done|]. split; [solve_Permutation|].
  rewrite Hperm in Hnd. pose proof (proj1 (NoDup_cons _ _) Hnd) as [Hpn Hnd'].
  split; [intros Hin; apply Hpn; mem in Hin|]. split; [done|].
  split; [intros Hin; apply Hp'n; mem in Hin|].
  split; [done|]. split.
  { intros q Hq. assert (q ∈ (p :: anc) ++ (iL ++ iR ++ iC1) ++ ids ++ X) as Hin.
    { apply (caches_in_step _ _ _ _ Hstep Hca). done. }
    assert (q <> p) by (intros ->; destruct Hq as [Hq|Hq];
      [destruct Hm as (_ & Hx & _)|destruct Hm as (Hx & _)];
      destruct Hstep as (_ & _ & S1 & S2 & _); rewrite ?S1, ?S2, Hx in Hq; by destruct Hq).
    mem in Hin. }
  split; [done|]. split; [change (root_page_id t3 = root_page_id t); congruence|].
  assert (vpaths t4 (anc ++ (iL ++ iR ++ iC1) ++ p' :: ids) root p [p']) as Hv4.
  { eapply (vpaths_up t t4 root H p anc h c lo hi _ _ (iL ++ iR ++ iC1) ids [c'] p'); try done.
    - intros a y. by eapply (rep_closed K).
    - apply (NoDup_perm (p' :: (p :: anc) ++ (iL ++ iR ++ iC1) ++ ids)); [done|].
      rewrite <-Hperm in Hnd. rewrite !app_comm_cons, !app_assoc in Hnd.
      apply NoDup_app in Hnd as (Hnd & _). by rewrite !app_comm_cons, !app_assoc.
    - intros q ->%list_elem_of_singleton. rewrite Hids0. by left.
    - apply Hstep.
    - intros q Hq. apply Hsame. mem in Hq.
    - intros m' y x Hm' Hy Hsub. rewrite (internal_at_inj _ _ _ _ Hm' Hm) in Hy.
      destruct Hsub as [[Hyc ->]|[-> ->%list_elem_of_singleton]];
        [by apply replace_child_children|by apply replace_child_new].
    - unfold t4. rewrite rename_paths. f_equal. congruence. }
  split; [eapply vpaths_sub; [|exact Hv4]; intros q Hq; mem in Hq|].
  intros ->. destruct (frame_edge K _ _ _ _ _ _ _ _ _ _ _ _ _ _ Hf) as (-> & _ & ->). split; [done|]. by eapply (last_edge K).
Qed.

Lemma cow_ancestors_level p anc c c' t :
  cow_ancestors (p :: anc) c c' t =
  (do! p' := (do! new_p := allocate_page in
              do! _ := cow_internal_repointing_child p new_p c c' in
              do! _ := free_page p in
              do! _ := modify (remap_dirty_parent_paths p new_p) in ret new_p) in
   cow_ancestors anc p p') t.
Proof.
  cbn [cow_ancestors]. unfold bind, ret. destruct (allocate_page t) as [[new_p| |] t1]; [|done..].
  destruct (cow_internal_repointing_child p new_p c c' t1) as [[[]| |] t2]; [|done..].
  by destruct (free_page p t2) as [[[]| |] t3].
Qed.

(** [paths_ok] is [vpaths] with nothing left to replace. *)
Lemma vpaths_done t S root c root' :
  ~ (c ∈ S) -> (forall a y, edge t S a y -> y ∈ S) -> root = c ->
  vpaths t S root c [root'] -> paths_ok t S root'.
Proof.
  intros Hc Hcl -> Hv leaf path Hl. destruct (Hv leaf path Hl) as [Hd Hlk]. split; [done|].
  rewrite <-(map_id path). eapply (linked_map _ _ _ _ id); [| |exact Hlk].
  - intros a x (y & He & [[_ ->]|[-> _]]); [done|]. by apply Hcl in He.
  - intros x [[? _]|[_ ->%list_elem_of_singleton]]; done.
Qed.

(** The walk to the root above a node that has been exchanged. *)
Lemma cow_ancestors_ok root H X P n : forall anc t h c lo hi kL kR iC c' kvs ids,
  page_size_ok t -> ctx t root H anc h c lo hi kL kR iC -> rep t h c' lo hi kvs ids ->
  ~ (c ∈ anc ++ iC ++ ids) ->
  alloc_ok (length anc + n) t (anc ++ iC ++ ids ++ X) P -> caches_in t (anc ++ iC ++ ids ++ X) ->
  vpaths t (anc ++ iC ++ ids) root c [c'] ->
  exists root' W ids' t', cow_ancestors anc c c' t = (Ok root', t') /\
    rep t' H root' None None (kL ++ kvs ++ kR) ids' /\ ids' ≡ₚ W ++ iC ++ ids /\
    (forall q, q ∈ W -> ~ (q ∈ P)) /\
    alloc_ok n t' (ids' ++ X) P /\ caches_in t' (ids' ++ X) /\ cow_step t t' W /\
    root_page_id t' = root_page_id t /\ paths_ok t' ids' root' /\ (hi = None -> last ids' = last ids).
Proof.
  induction anc as [|p anc IH]; intros t h c lo hi kL kR iC c' kvs ids Hps Hctx Hrep Hc Ha Hca Hv.
  - inversion Hctx; subst. exists c', [], ids, t. simpl in *. rewrite app_nil_r.
    split; [done|]. split; [done|]. split; [done|]. split; [intros q []%elem_of_nil|].
    split; [done|]. split; [done|]. split; [by apply cow_step_content|]. split; [done|].
    split; [|done]. eapply vpaths_done; [exact Hc| |reflexivity|done]. intros a y. by eapply (rep_closed K).
  - destruct (cow_level_ok t root H p anc h c lo hi kL kR iC c' kvs ids X P (length anc + n))
      as (p' & t1 & lo1 & hi1 & kL1 & kR1 & kL2 & kR2 & iC1 & ids1 & Hl & Hctx1 & Hrep1 & HkL & HkR & Hi &
          Hp & Hp'P & Hp'X & Ha1 & Hca1 & Hs1 & Hr1 & Hv1 & He1); [done..|].
    destruct (IH t1 (S h) p lo1 hi1 kL1 kR1 iC1 p' (kL2 ++ kvs ++ kR2) ids1)
      as (root' & W & ids' & t' & Hco & Hrep' & Hids' & HWP & Ha' & Hca' & Hs' & Hr' & Hp'' & He'); [|done..|].
    { destruct Hs1 as (_ & Hz & _). unfold page_size_ok in *. by rewrite Hz. }
    exists root', (p' :: W), ids', t'. rewrite cow_ancestors_level. unfold bind at 1. rewrite Hl.
    split; [done|]. rewrite <-HkL, <-HkR. rewrite <-!app_assoc in *. split; [done|].
    split; [rewrite Hids', Hi; solve_Permutation|].
    split; [intros q [->|Hq]%elem_of_cons; auto|]. split; [done|]. split; [done|].
    split; [by apply (cow_step_trans t t1 t' [p'] W)|]. split; [congruence|]. split; [done|].
    intros Hn. destruct (He1 Hn) as [Hn1 <-]. by apply He'.
Qed.
End cow_up.
