(* ===== verification/TreeSplitUp.v ===== *)
(** * TreeSplitUp: a split moving up the tree

    [propagate_split_up]: the parent takes the new separator, splitting in turn
    when it is full, up to a new root. *)

From S2P Require Import Prelude Keys Errors PageFormat Node Leaf Internal Split Store Overflow Tree TreeWrite TreeRep TreeAlloc TreeCow TreePropagate.
From Stdlib Require Import ZArith Lia.
From stdpp Require Import base list strings gmap.

Local Open Scope Z_scope.
Local Open Scope pagedb_scope.

(** ** The parent with one more separator *)

Lemma split_unique {A} (P Q : A -> Prop) l1 l2 l1' l2' :
  (forall x, P x -> Q x -> False) -> Forall P l1 -> Forall Q l2 -> Forall P l1' -> Forall Q l2' ->
  l1 ++ l2 = l1' ++ l2' -> l1 = l1' /\ l2 = l2'.
Proof.
  intros HPQ H1 H2 H1' H2'. revert l1' H1'. induction H1 as [|x l1 Hx H1 IH]; intros l1' H1' Heq.
  - destruct H1' as [|y l1' Hy H1']; [done|]. simpl in Heq. subst l2.
    apply Forall_cons in H2 as [Hq _]. by destruct (HPQ y).
  - destruct H1' as [|y l1' Hy H1']; simpl in Heq.
    + subst l2'. apply Forall_cons in H2' as [Hq _]. by destruct (HPQ x).
    + simplify_eq. destruct (IH l1') as [-> ->]; done.
Qed.

Lemma upsert_at n es1 es2 k c :
  entries n = es1 ++ es2 -> Forall (fun k' => k' <ₖ k) es1.*1 -> Forall (fun k' => k <ₖ k') es2.*1 ->
  internal_sorted n ->
  internal_upsert n k c = mkInternal (leftmost_child n) (es1 ++ (k, c) :: es2).
Proof.
  intros He H1 H2 Hs. destruct (internal_upsert_cases n k c Hs) as (e1 & e2 & F1 & F2 & -> & Hor).
  rewrite Forall_fmap in H1, H2, F1, F2.
  destruct Hor as [He'|[c0 He']].
  - destruct (split_unique (fun e : InternalEntry => e.1 <ₖ k) (fun e => k <ₖ e.1) e1 e2 es1 es2)
      as [-> ->]; try done; [|congruence].
    intros x Hx1 Hx2. by apply (key_lt_irrefl k), (key_lt_trans _ x.1).
  - exfalso. assert ((k, c0) ∈ es1 ++ es2) as Hin by (rewrite <-He, He'; set_solver).
    rewrite Forall_forall in H1, H2.
    apply elem_of_app in Hin as [Hin|Hin]; [apply H1 in Hin|apply H2 in Hin]; by apply key_lt_irrefl in Hin.
Qed.

Lemma dom_imap_some (paths : gmap Z (list Z)) (g : Z -> list Z -> list Z) :
  dom (map_imap (fun leaf path => Some (g leaf path)) paths) = dom paths.
Proof.
  apply set_eq. intros p. rewrite !elem_of_dom, map_lookup_imap.
  destruct (paths !! p); simpl; split; intros []; eauto.
Qed.

Lemma sorted_remove (l1 l2 : list bytes) k : keys_sorted (l1 ++ k :: l2) -> keys_sorted (l1 ++ l2).
Proof.
  rewrite !sorted_app. intros (H1 & H2 & H3). split; [done|]. split.
  - by inversion H2.
  - intros a b Ha Hb. apply H3; [done|by right].
Qed.

Section split_up.
Context (K : Z).
Local Abbreviation rep := (rep K).
Local Abbreviation seg := (seg K).
Local Abbreviation left_of := (left_of K).
Local Abbreviation right_of := (right_of K).
Local Abbreviation frame := (frame K).
Local Abbreviation ctx := (ctx K).

(** The separators on the two sides of a hole. *)
Lemma left_of_keys t h lm es1 c lo lo' kL iL k :
  left_of (rep t h) lm es1 c lo lo' kL iL -> blt lo' (Some k) -> Forall (fun k' => k' <ₖ k) es1.*1.
Proof.
  intros [(-> & _)|(es0 & k0 & -> & -> & _ & Hs)] Hb; [constructor|].
  apply seg_keys in Hs as [_ Hf]. rewrite fmap_app. apply Forall_app. split; [|by repeat constructor].
  eapply Forall_impl; [exact Hf|]. intros k1 (_ & Hlt & _). simpl in *. by eapply key_lt_trans.
Qed.
Lemma right_of_keys t h es2 hi' hi kR iR k :
  right_of (rep t h) es2 hi' hi kR iR -> blt (Some k) hi' -> Forall (fun k' => k <ₖ k') es2.*1.
Proof.
  intros [(-> & _)|(k0 & c & es0 & -> & -> & _ & Hs)] Hb; [constructor|].
  apply seg_keys in Hs as [_ Hf]. constructor; [done|].
  eapply Forall_impl; [exact Hf|]. intros k1 (Hlt & _). simpl in *. by eapply key_lt_trans.
Qed.

(** Replacing the hole by two neighbours with a separator between them. *)
Lemma frame_split t h p n es1 es2 lo hi c lo' hi' kL kR iL iR l r sep kvs1 kvs2 ids1 ids2 :
  frame t h p n es1 es2 lo hi c lo' hi' kL kR iL iR -> ~ (c ∈ iL) ->
  rep t h l lo' (Some sep) kvs1 ids1 -> rep t h r (Some sep) hi' kvs2 ids2 -> blen sep <= K ->
  let n' := internal_upsert (replace_child n c l) sep r in
  seg (rep t h) (leftmost_child n') (entries n') lo hi (kL ++ (kvs1 ++ kvs2) ++ kR)
    (iL ++ (ids1 ++ ids2) ++ iR) /\
  internal_needed n' = internal_needed n + blen sep + 12 /\
  (forall y x, y ∈ children n -> subst_to c [l; r] y x -> x ∈ children n').
Proof.
  intros (Hn & He & HL & HR) Hc Hl Hr HK.
  destruct (replace_child_hole K t h n es1 es2 c l lo lo' kL iL He HL Hc) as (es1' & He' & Hk' & HL' & _).
  pose proof (rep_blt _ _ _ _ _ _ _ _ Hl) as Hb1. pose proof (rep_blt _ _ _ _ _ _ _ _ Hr) as Hb2.
  pose proof (left_of_keys _ _ _ _ _ _ _ _ _ sep HL' Hb1) as Hk1.
  pose proof (right_of_keys _ _ _ _ _ _ _ sep HR Hb2) as Hk2.
  assert (seg (rep t h) (leftmost_child (replace_child n c l)) (es1' ++ (sep, r) :: es2) lo hi
            (kL ++ (kvs1 ++ kvs2) ++ kR) (iL ++ (ids1 ++ ids2) ++ iR)) as Hseg.
  { rewrite <-!app_assoc. eapply seg_plug; [exact HL'| |exact Hl]. right. exists sep, r, es2.
    split; [done|]. split; [done|]. split; [done|].
    apply (seg_plug K (rep t h) r [] es2 r (Some sep) (Some sep) hi' hi [] kR [] iR kvs2 ids2);
      [by left|done|done]. }
  assert (internal_sorted (replace_child n c l)) as Hs'.
  { unfold internal_sorted. rewrite He'. apply seg_keys in Hseg as [Hsort _]. rewrite fmap_app in *.
    by eapply sorted_remove. }
  rewrite (upsert_at _ es1' es2 sep r He' Hk1 Hk2 Hs'). cbn [leftmost_child entries]. split_and!; [done| |].
  - unfold internal_needed. cbn [entries]. rewrite He, !entries_size_fmap, !fmap_app, Hk'.
    rewrite <-(length_fmap fst (es1' ++ _)), <-(length_fmap fst (es1 ++ es2)), !fmap_app, Hk'.
    rewrite !length_app. cbn [fmap list_fmap length].
    set (f := fun (k : bytes) acc => blen k + SEPARATOR_RECORD_OVERHEAD + acc).
    assert (forall (a b : list bytes), foldr f 0 (a ++ b) = foldr f 0 a + foldr f 0 b) as Hf.
    { induction a as [|x a IH]; intros b; simpl; [done|]. rewrite IH. unfold f. lia. }
    rewrite !Hf. simpl. unfold f at 2, SEPARATOR_RECORD_OVERHEAD. lia.
  - intros y x Hy Hsub. unfold children. cbn [leftmost_child entries]. rewrite fmap_app. simpl.
    assert (x = r \/ x ∈ children (replace_child n c l)) as [->|Hx]; [|mem|].
    + destruct Hsub as [[Hyc ->]|[-> Hx]]; [right; by apply replace_child_children|].
      apply elem_of_cons in Hx as [->|Hx]; [right; by apply replace_child_new|].
      apply list_elem_of_singleton in Hx as ->. by left.
    + unfold children in Hx. rewrite He', fmap_app in Hx. mem in Hx.
Qed.

(** ** Both halves of a full node fit

    Nodes split by the number of their separators, so the halves fit when keys are
    short enough against the page. *)
Definition split_room (ps : Z) : Prop :=
  0 <= K /\ (K + 12) * (K + 12) <= 6 * (body_capacity ps - HEADER_LEN).

Lemma entries_size_bounds es :
  Forall (fun k => blen k <= K) es.*1 ->
  10 * Z.of_nat (length es) <= entries_size es <= (K + 10) * Z.of_nat (length es).
Proof.
  induction es as [|e es IH]; [simpl; lia|]. intros [Hk Hf]%Forall_cons. specialize (IH Hf).
  simpl length. cbn [entries_size foldr]. fold (entries_size es).
  unfold SEPARATOR_RECORD_OVERHEAD. pose proof (blen_nonneg e.1). lia.
Qed.

Lemma split_halves_fit ps n es1 k c es2 :
  split_room ps -> Forall (fun k => blen k <= K) (entries n).*1 ->
  entries n = es1 ++ (k, c) :: es2 -> length es1 = (length (entries n) / 2)%nat ->
  body_capacity ps < internal_needed n <= body_capacity ps + K + 12 ->
  internal_needed (mkInternal (leftmost_child n) es1) <= body_capacity ps /\
  internal_needed (mkInternal c es2) <= body_capacity ps.
Proof.
  intros (HK & Hroom) Hf He Hmid. unfold internal_needed, HEADER_LEN in *. cbn [entries].
  rewrite He in *. rewrite length_app in *. rewrite entries_size_app.
  rewrite fmap_app in Hf. apply Forall_app in Hf as [Hf1 [Hk Hf2]%Forall_cons].
  cbn [entries_size foldr length] in *. fold (entries_size es2) in *.
  unfold SEPARATOR_RECORD_OVERHEAD in *.
  pose proof (entries_size_bounds es1 Hf1). pose proof (entries_size_bounds es2 Hf2).
  pose proof (blen_nonneg k). simpl in *.
  remember (entries_size es1) as s1. remember (entries_size es2) as s2.
  remember (length es1) as m1. remember (length es2) as m2. intros [Hgt Hle].
  assert (m1 = (m1 + S m2) / 2)%nat as Hm by done.
  assert (Z.of_nat m1 <= Z.of_nat m2 + 1 /\ Z.of_nat m2 <= Z.of_nat m1) as [Hm1 Hm2].
  { pose proof (Nat.div_mod (m1 + S m2) 2). pose proof (Nat.mod_upper_bound (m1 + S m2) 2). lia. }
  assert (K + 12 < 6 * (Z.of_nat m1 + Z.of_nat m2 + 1)) as Hc by nia.
  split; lia.
Qed.

(** ** Recorded paths across a split *)

Definition hop (path : list Z) (leaf : Z) : Z := match path with q :: _ => q | [] => leaf end.

Lemma linked_hop E (F F' : Z -> Prop) path leaf :
  F' (hop path leaf) -> linked E F path leaf -> linked E F' path leaf.
Proof. destruct path; simpl; [done|]. intros ? [_ ?]. done. Qed.
Lemma linked_from E F path leaf : linked E F path leaf -> F (hop path leaf).
Proof. destruct path; simpl; [done|]. by intros [? _]. Qed.

Lemma linked_remap_split (E E' : Z -> Z -> Prop) p p' q' (RC : gset Z) leaf :
  leaf <> p ->
  (forall a x, E a x -> a <> p -> x <> p -> E' a x) ->
  (forall a, E a p -> a <> p /\ E' a p' /\ E' a q') ->
  (forall x, E p x -> x <> p /\ (x ∈ RC -> E' q' x) /\ (~ (x ∈ RC) -> E' p' x)) ->
  forall path (F F' : Z -> Prop),
  (forall x, F x -> x <> p -> F' x) -> (F p -> F' p' /\ F' q') ->
  linked E F path leaf -> linked E' F' (remap_path_split p p' q' RC leaf path) leaf.
Proof.
  intros Hleaf H1 H2 H3. induction path as [|a path IH]; intros F F' HF1 HF2; simpl.
  - intros Hl. by apply HF1.
  - intros [Ha Hl]. pose proof (linked_from _ _ _ _ Hl) as Hx.
    change (match path with q :: _ => q | [] => leaf end) with (hop path leaf).
    assert (linked E (eq (hop path leaf)) path leaf) as Hl' by (by eapply linked_hop).
    remember (hop path leaf) as x eqn:Hxe. destruct (Z.eqb_spec a p) as [->|Hap].
    + destruct (H3 x Hx) as (Hxp & Hq & Hp). destruct (HF2 Ha) as [? ?].
      case_bool_decide as HRC; (split; [done|]); (eapply IH; [| |exact Hl']);
        try (intros y <- _; by auto); intros ->; done.
    + split; [by apply HF1|]. eapply IH; [| |exact Hl'].
      * intros y <- Hy. by apply H1.
      * intros ->. by apply H2.
Qed.

Lemma vpaths_up_split t t' root H p anc h c lo hi kL kR iC ids New p' q' nl nr :
  ctx t root H (p :: anc) h c lo hi kL kR iC ->
  (forall a y, edge t ids a y -> y ∈ ids) ->
  NoDup (q' :: p' :: p :: anc ++ iC ++ ids) -> ~ (c ∈ p :: anc ++ iC ++ ids) -> New ⊆ ids ->
  dirty_leaves t' = dirty_leaves t -> page_size t' = page_size t ->
  (forall q, q ∈ anc ++ iC ++ ids -> same_at t t' q) ->
  internal_at t' p' nl -> internal_at t' q' nr ->
  (forall n y x, internal_at t p n -> y ∈ children n -> subst_to c New y x ->
     x ∈ children nl ++ children nr) ->
  dirty_parent_paths t' = map_imap (fun leaf path =>
    Some (remap_path_split p p' q' (list_to_set (children nr)) leaf path)) (dirty_parent_paths t) ->
  vpaths t ((p :: anc) ++ iC ++ ids) root c New ->
  vpaths t' (anc ++ iC ++ p' :: q' :: ids) root p [p'; q'].
Proof.
  intros Hctx Hids Hnd Hc HNew Hd Hps Hs Hp' Hq' Hch Hpaths Hv leaf path.
  rewrite Hpaths, map_lookup_imap. intros (path0 & Hl & <-%(inj Some))%bind_Some.
  destruct (Hv leaf path0 Hl) as [Hsome Hlk]. rewrite Hd. split; [done|].
  apply NoDup_cons in Hnd as [_ Hnd]. apply NoDup_cons in Hnd as [_ Hnd]. apply NoDup_cons in Hnd as [Hpn Hnd].
  assert (root ∈ p :: anc) as Hroot by (eapply ctx_root_in; [exact Hctx|done]).
  destruct (ctx_inv _ _ _ _ _ _ _ _ _ _ _ _ _ Hctx)
    as (lo1 & hi1 & n & es1 & es2 & kL1 & kR1 & kL2 & kR2 & iL & iR & ids1 & _ & Hf & -> & -> & ->).
  pose proof Hf as (Hn & _).
  assert (forall a x, vedge t ((p :: anc) ++ (iL ++ iR ++ ids1) ++ ids) c New a x -> a <> p ->
            x <> c /\ edge t ((p :: anc) ++ (iL ++ iR ++ ids1) ++ ids) a x) as Hve.
  { intros a x (y & He & Hsub) Hap. pose proof He as (Ha & m & Hm & Hy).
    assert (y <> c) as Hyc.
    { intros ->. assert (a ∈ (p :: anc) ++ (iL ++ iR ++ ids1) \/ a ∈ ids) as [Ha'|Ha'] by (mem in Ha).
      - destruct (ctx_closed K _ _ _ _ _ _ _ _ _ _ _ a c Hctx) as [Hin|[_ [= ->]]];
          [split; [done|]; by exists m|mem in Hc Hin|done].
      - specialize (Hids a c). ospecialize (Hids _); [split; [done|]; by exists m|]. mem in Hc. }
    destruct Hsub as [[_ ->]|[? _]]; done. }
  eapply linked_remap_split; [| | | | | |exact Hlk].
  - intros ->. destruct Hn as (_ & Hn & _). rewrite Hn in Hsome. by destruct Hsome.
  - intros a x He Hap Hxp. destruct (Hve a x He Hap) as [_ He']. exists x. split; [|by left].
    pose proof He' as [Ha _]. apply (edge_frame t t' ((p :: anc) ++ (iL ++ iR ++ ids1) ++ ids));
      [done|apply Hs; mem in Ha|mem|exact He'].
  - intros a He. assert (a <> p) as Hap.
    { intros ->. destruct He as (y & (_ & m & Hm & Hy) & Hsub). rewrite (internal_at_inj _ _ _ _ Hm Hn) in Hy.
      destruct Hsub as [[Hyc ->]|[-> Hx]].
      - destruct (frame_children _ _ _ _ _ _ _ _ _ _ _ _ _ _ _ _ _ Hf Hy) as [?|Hin]; [done|]. mem in Hpn Hin.
      - apply HNew in Hx. mem in Hpn. }
    split; [done|]. destruct (Hve a p He Hap) as [_ He']. pose proof He' as [Ha _].
    assert (edge t' (anc ++ (iL ++ iR ++ ids1) ++ p' :: q' :: ids) a p) as He2
      by (apply (edge_frame t t' ((p :: anc) ++ (iL ++ iR ++ ids1) ++ ids));
      [done|apply Hs; mem in Ha|mem|exact He']).
    split; exists p; (split; [done|]); right; (split; [done|]); mem.
  - intros x (y & (_ & m & Hm & Hy) & Hsub). pose proof (Hch m y x Hm Hy Hsub) as Hx.
    rewrite (internal_at_inj _ _ _ _ Hm Hn) in Hy.
    assert (x <> p) as Hxp.
    { intros ->. destruct Hsub as [[Hyc ->]|[-> Hx']].
      - destruct (frame_children _ _ _ _ _ _ _ _ _ _ _ _ _ _ _ _ _ Hf Hy) as [?|Hin]; [done|]. mem in Hpn Hin.
      - apply HNew in Hx'. mem in Hpn. }
    split; [done|]. rewrite elem_of_list_to_set. split; intros HRC; (exists x; split; [|by left]).
    + split; [mem|]. eauto.
    + split; [mem|]. exists nl. split; [done|]. mem in Hx.
  - intros x [[Hx ->]|[-> _]] Hxp; [by left|]. mem in Hc Hroot.
  - intros [[Hx ->]|[-> _]]; [|mem in Hc Hroot]. split; right; (split; [done|]); mem.
Qed.

(** ** One level *)

(** The walk stands below [anc], the replaced subtree [c] has the pages [ids] and
    its replacements [New] are not linked yet. *)
Definition walk (t : BTree) (root : Z) (H : nat) (anc : list Z) (h : nat) (c : Z) (lo hi : bound)
    (kL kR : list leaf_record) (iC ids New X : list Z) (P : gset Z) (n : nat) (fresh : list Z) : Prop :=
  page_size_ok t /\ ctx t root H anc h c lo hi kL kR iC /\ ~ (c ∈ anc ++ iC ++ ids) /\
  (forall a y, edge t ids a y -> y ∈ ids) /\ New ⊆ ids /\
  alloc_ok n t (fresh ++ anc ++ iC ++ ids ++ X) P /\ caches_in t (anc ++ iC ++ ids ++ X) /\
  vpaths t (anc ++ iC ++ ids) root c New.

Lemma vpaths_content t t' S root c New :
  same_content t t' -> vpaths t S root c New -> vpaths t' S root c New.
Proof.
  intros Hsc Hv leaf path. pose proof Hsc as (_ & _ & Hps & Hd & _ & Hp & _). rewrite Hp, Hd.
  intros Hl. destruct (Hv leaf path Hl) as [Hsome Hlk]. split; [done|].
  rewrite <-(map_id path). eapply (linked_map _ _ _ _ id); [|intros x; exact id|exact Hlk].
  intros a x (y & He & Hsub). exists y. split; [|done].
  eapply edge_frame; [done|by apply same_content_at|exact id|exact He].
Qed.

Lemma edge_content t t' S a y : same_content t t' -> edge t' S a y -> edge t S a y.
Proof.
  intros Hsc. apply edge_frame; [|by destruct (same_content_at t t' a Hsc) as (?&?&?)|done].
  by destruct Hsc as (_ & _ & -> & _).
Qed.

(** Taking a page for the walk. *)
Lemma walk_allocate t root H anc h c lo hi kL kR iC ids New X P n fresh :
  walk t root H anc h c lo hi kL kR iC ids New X P (S n) fresh ->
  exists p' t', allocate_page t = (Ok p', t') /\ ~ (p' ∈ P) /\ same_content t t' /\
    walk t' root H anc h c lo hi kL kR iC ids New X P n (p' :: fresh).
Proof.
  intros (Hps & Hctx & Hc & Hcl & HNew & Ha & Hca & Hv).
  destruct (allocate_page_ok _ _ _ _ Ha) as (p' & t' & Hal & HP & Ha' & Hsc).
  exists p', t'. split; [done|]. split; [done|]. split; [done|].
  pose proof Hsc as (_ & _ & Hsz & _). unfold walk, page_size_ok in *. rewrite Hsz. split; [done|].
  split; [eapply ctx_frame; [done| |exact Hctx]; intros; by apply same_content_at|].
  split; [done|]. split; [intros a y He; by apply (Hcl a), (edge_content t t')|]. split; [done|].
  split; [done|].
  split; [by eapply caches_in_step; [apply cow_step_content|]|by eapply vpaths_content].
Qed.

(** The new pages of a walk are unused, and children of its nodes are page ids. *)
Lemma walk_fresh t root H anc h c lo hi kL kR iC ids New X P n fresh p' :
  walk t root H anc h c lo hi kL kR iC ids New X P n fresh -> p' ∈ fresh ->
  ~ (p' ∈ anc ++ iC ++ ids ++ X) /\ dirty_leaves t !! p' = None /\ fresh_leaves t !! p' = None.
Proof.
  intros (Hps & Hctx & Hc & Hcl & HNew & Ha & Hca & Hv) Hp'.
  assert (~ (p' ∈ anc ++ iC ++ ids ++ X)) as Hn.
  { apply alloc_ok_nodup in Ha. apply NoDup_app in Ha as (_ & Hd & _). by apply Hd. }
  split; [done|]. by apply (caches_in_none t _ p' Hca).
Qed.

Lemma walk_u64 t root H anc h c lo hi kL kR iC ids New X P n fresh q :
  walk t root H anc h c lo hi kL kR iC ids New X P n fresh -> q ∈ fresh ++ anc ++ iC ++ ids -> is_u64 q.
Proof.
  intros (_ & _ & _ & _ & _ & Ha & _) Hq. pose proof (alloc_ok_bound _ _ _ _ q Ha) as Hb.
  ospecialize (Hb _); [mem in Hq|]. lia.
Qed.

(** The new pages [W] of this level are written: [p] is freed and the recorded
    paths are renamed. *)
Lemma walk_free t t2 root H p anc h c lo hi kL kR iC ids New X P n W f :
  walk t root H (p :: anc) h c lo hi kL kR iC ids New X P n W ->
  cow_step t t2 W -> same_alloc t t2 -> root_page_id t2 = root_page_id t ->
  dirty_parent_paths t2 = dirty_parent_paths t ->
  (forall paths : gmap Z (list Z), dom (f paths) = dom paths) ->
  exists t3, free_page p t2 = (Ok tt, t3) /\
    let t4 := with_paths f t3 in
    cow_step t t4 W /\ root_page_id t4 = root_page_id t /\ page_size_ok t4 /\
    (forall q, q ∈ (p :: anc) ++ iC ++ ids ++ X -> same_at t t4 q) /\
    (forall q m, internal_at t2 q m -> internal_at t4 q m) /\
    dirty_parent_paths t4 = f (dirty_parent_paths t) /\
    NoDup (W ++ (p :: anc) ++ iC ++ ids) /\
    alloc_ok n t4 (W ++ anc ++ iC ++ ids ++ X) P /\ caches_in t4 (anc ++ iC ++ ids ++ X).
Proof.
  intros Hw Hs2 Hsa Hr Hp Hdom. pose proof Hw as (Hps & Hctx & Hc & Hcl & HNew & Ha & Hca & Hv).
  pose proof (alloc_ok_nodup _ _ _ _ Ha) as Hnd.
  assert (W ++ (p :: anc) ++ iC ++ ids ++ X ≡ₚ p :: W ++ anc ++ iC ++ ids ++ X) as Hperm by solve_Permutation.
  apply (alloc_ok_same _ _ t2) in Ha; [|done]. rewrite Hperm in Ha.
  destruct (free_page_ok _ _ _ _ _ Ha) as (t3 & Hfr & Ha3 & Hc3). exists t3. split; [done|]. intros t4.
  pose proof Hc3 as (F1 & F2 & F3 & F4 & F5 & F6 & F7 & _).
  assert (cow_step t t4 W) as Hstep.
  { rewrite <-(app_nil_r W). apply (cow_step_trans t t2 _ W []); [done|].
    apply (cow_step_trans t2 t3 _ [] []); [by apply cow_step_content|].
    apply cow_step_paths, Hdom. }
  split; [done|]. split; [change (root_page_id t3 = root_page_id t); congruence|].
  split; [unfold page_size_ok in *; destruct Hstep as (_ & -> & _); done|].
  split.
  { intros q Hq. apply (cow_step_at _ _ W); [done|]. intros HW.
    destruct (walk_fresh _ _ _ _ _ _ _ _ _ _ _ _ _ _ _ _ _ q Hw HW) as [Hn _]. done. }
  split.
  { intros q m Hm. change (internal_at t3 q m). apply (internal_at_frame t2); [done|by apply same_content_at|done]. }
  split; [unfold t4; simpl; congruence|].
  split; [rewrite !app_assoc in Hnd; apply NoDup_app in Hnd as (Hnd & _); by rewrite !app_assoc|].
  split; [done|]. intros q Hq. pose proof (caches_in_step _ _ _ _ Hstep Hca q Hq) as Hin.
  destruct (ctx_inv _ _ _ _ _ _ _ _ _ _ _ _ _ Hctx)
    as (lo1 & hi1 & nd & es1 & es2 & ? & ? & ? & ? & ? & ? & ? & _ & (Hn & _) & _).
  assert (q <> p); [|mem in Hin]. intros ->. destruct Hstep as (_ & _ & S1 & S2 & _).
  destruct Hn as (N1 & N2 & _). rewrite S1, S2, N1, N2 in Hq. by destruct Hq as [[? ?]|[? ?]].
Qed.

(** The parent takes the separator and fits. *)
Lemma fit_level_ok t root H p anc h c lo hi kL kR iC l r sep kvs1 kvs2 ids1 ids2 X P n p' nd :
  walk t root H (p :: anc) h c lo hi kL kR iC (ids1 ++ ids2) [l; r] X P n [p'] ->
  rep t h l lo (Some sep) kvs1 ids1 -> rep t h r (Some sep) hi kvs2 ids2 -> blen sep <= K ->
  internal_at t p nd ->
  let n' := internal_upsert (replace_child nd c l) sep r in
  internal_needed n' <= body_capacity (page_size t) ->
  exists t' lo1 hi1 kL1 kR1 kL2 kR2 iC1 ids',
    (do! _ := write_internal p' n' in do! _ := free_page p in
     modify (remap_dirty_parent_paths p p')) t = (Ok tt, t') /\
    walk t' root H anc (S h) p lo1 hi1 kL1 kR1 iC1 ids' [p'] X P n [] /\
    rep t' (S h) p' lo1 hi1 (kL2 ++ (kvs1 ++ kvs2) ++ kR2) ids' /\
    kL1 ++ kL2 = kL /\ kR2 ++ kR1 = kR /\ iC1 ++ ids' ≡ₚ p' :: iC ++ ids1 ++ ids2 /\
    cow_step t t' [p'] /\ root_page_id t' = root_page_id t /\ (hi = None -> hi1 = None /\ last ids' = last ids2).
Proof.
  intros Hw Hl Hr HK Hnd. pose proof Hw as (Hps & Hctx & Hc & Hcl & HNew & Ha & Hca & Hv).
  destruct (ctx_inv _ _ _ _ _ _ _ _ _ _ _ _ _ Hctx)
    as (lo1 & hi1 & m & es1 & es2 & kL1 & kR1 & kL2 & kR2 & iL & iR & iC1 & Hctx1 & Hf & -> & -> & ->).
  pose proof Hf as (Hm & He & HL & HR). 
  rewrite (internal_at_inj _ _ _ _ Hnd Hm). clear Hnd nd. intros n' Hfit.
  destruct (frame_split t h p m es1 es2 lo1 hi1 c lo hi kL2 kR2 iL iR l r sep kvs1 kvs2 ids1 ids2 Hf)
    as (Hseg & _ & Hch); [intros Hin; apply Hc; mem|done..|]. fold n' in Hseg, Hch.
  destruct (walk_fresh _ _ _ _ _ _ _ _ _ _ _ _ _ _ _ _ _ p' Hw) as (Hp'n & Hd & Hfr'); [by left|].
  destruct (write_internal_ok t p' n') as (t2 & Hwr & Hn2 & Hs2 & Hsa2 & Hr2 & Hpa2); try done.
  { apply Forall_forall. intros q Hq. eapply (walk_u64 _ _ _ _ _ _ _ _ _ _ _ _ _ _ _ _ _ q Hw).
    apply (seg_children K _ _ _ _ _ _ _ _ Hseg) in Hq. mem in Hq. }
  destruct (walk_free t t2 root H p anc h c lo hi _ _ (iL ++ iR ++ iC1) (ids1 ++ ids2) _ X P n [p']
    (fun paths : gmap Z (list Z) => map (rename p p') <$> paths) Hw Hs2 Hsa2 Hr2 Hpa2
    (fun paths => dom_fmap_L _ paths))
    as (t3 & Hfp & Hstep & Hroot & Hps4 & Hsame & Hint & Hpath4 & Hnd4 & Ha4 & Hca4).
  set (t4 := with_paths _ t3) in *. pose proof Hstep as (_ & Hsz & Hdl & _).
  assert (rep t4 (S h) p' lo1 hi1 (kL2 ++ (kvs1 ++ kvs2) ++ kR2) (p' :: iL ++ (ids1 ++ ids2) ++ iR)) as Hrep4.
  { exists n', (iL ++ (ids1 ++ ids2) ++ iR). split; [by apply Hint|]. split; [done|].
    eapply seg_frame; [done| |exact Hseg]. intros q Hq. apply Hsame. mem in Hq. }
  exists t4, lo1, hi1, kL1, kR1, kL2, kR2, iC1, (p' :: iL ++ (ids1 ++ ids2) ++ iR).
  split; [unfold bind; rewrite Hwr, Hfp; done|]. split.
  { split; [done|].
    split; [eapply ctx_frame; [done| |exact Hctx1]; intros q Hq; apply Hsame; mem in Hq|].
    split.
    { assert (NoDup (p :: p' :: anc ++ (iL ++ iR ++ iC1) ++ ids1 ++ ids2)) as [Hpn _]%NoDup_cons
        by (eapply NoDup_perm; [|exact Hnd4]; solve_Permutation).
      intros Hin. apply Hpn. mem in Hin. }
    split; [intros a y; by eapply (rep_closed K)|].
    split; [intros q ->%list_elem_of_singleton; by left|].
    split; [eapply alloc_ok_perm; [|done|exact Ha4]; solve_Permutation|].
    split; [eapply caches_in_sub; [|exact Hca4]; intros q Hq; mem in Hq|].
    eapply vpaths_sub; [|eapply (vpaths_up K t t4 root H p anc h c lo hi _ _ (iL ++ iR ++ iC1)
      (ids1 ++ ids2) [l; r] p' n')]; try done.
    - intros q Hq. mem in Hq.
    - intros q Hq. apply Hsame. mem in Hq.
    - by apply Hint.
    - intros m' y x Hm'. rewrite (internal_at_inj _ _ _ _ Hm' Hm). apply Hch. }
  split; [done|]. split; [done|]. split; [done|]. split; [solve_Permutation|]. split; [done|]. split; [done|].
  intros ->. destruct (frame_edge K _ _ _ _ _ _ _ _ _ _ _ _ _ _ Hf) as (-> & _ & ->). split; [done|].
  rewrite <-app_assoc, (app_assoc iL). by eapply (last_edge K).
Qed.

Lemma write_two_ok t p' q' nl nr :
  page_size_ok t -> p' <> q' ->
  Forall (fun c => is_u64 c) (children nl) -> Forall (fun c => is_u64 c) (children nr) ->
  internal_needed nl <= body_capacity (page_size t) -> internal_needed nr <= body_capacity (page_size t) ->
  dirty_leaves t !! p' = None -> fresh_leaves t !! p' = None ->
  dirty_leaves t !! q' = None -> fresh_leaves t !! q' = None ->
  exists t', (do! _ := write_internal p' nl in write_internal q' nr) t = (Ok tt, t') /\
    internal_at t' p' nl /\ internal_at t' q' nr /\ cow_step t t' [q'; p'] /\ same_alloc t t' /\
    root_page_id t' = root_page_id t /\ dirty_parent_paths t' = dirty_parent_paths t.
Proof.
  intros Hps Hne Hcl Hcr Hnl Hnr D1 F1 D2 F2.
  destruct (write_internal_ok t p' nl Hps Hcl Hnl D1 F1) as (t1 & W1 & I1 & S1 & A1 & R1 & P1).
  pose proof S1 as (_ & Z1 & Hd1 & Hf1 & _).
  destruct (write_internal_ok t1 q' nr) as (t2 & W2 & I2 & S2 & A2 & R2 & P2);
    [unfold page_size_ok in *; by rewrite Z1|done|by rewrite Z1|by rewrite Hd1|by rewrite Hf1|].
  exists t2. unfold bind. rewrite W1. split; [done|].
  split; [|split; [done|split]].
  - pose proof S2 as (_ & Z2 & _). apply (internal_at_frame t1); [done| |done].
    apply (cow_step_at _ _ [q']); [done|]. by intros ->%list_elem_of_singleton.
  - eapply cow_step_sub; [|by eapply cow_step_trans]. intros q Hq. mem in Hq.
  - unfold same_alloc in *. intuition congruence.
Qed.

(** Splitting a full node cuts its segment at the promoted separator. *)
Lemma split_node_ok t h n lo hi kvs ids :
  seg (rep t h) (leftmost_child n) (entries n) lo hi kvs ids -> split_room (page_size t) ->
  HEADER_LEN <= body_capacity (page_size t) < internal_needed n ->
  internal_needed n <= body_capacity (page_size t) + K + 12 ->
  exists nl nr k kA kB idsA idsB, split_internal n = Ok (nl, nr, k) /\ blen k <= K /\
    seg (rep t h) (leftmost_child nl) (entries nl) lo (Some k) kA idsA /\
    seg (rep t h) (leftmost_child nr) (entries nr) (Some k) hi kB idsB /\
    kvs = kA ++ kB /\ ids = idsA ++ idsB /\
    internal_needed nl <= body_capacity (page_size t) /\
    internal_needed nr <= body_capacity (page_size t) /\
    (forall q, q ∈ children n <-> q ∈ children nl ++ children nr).
Proof.
  intros Hseg Hroom Hfull Hle.
  assert (entries n <> []) as Hne.
  { unfold internal_needed, HEADER_LEN in *. intros Hnil. rewrite Hnil in *. simpl in *. lia. }
  destruct (internal_split_ok n Hne) as (e1 & k & cm & e2 & He & Hmid & Hsp).
  pose proof (seg_keys _ _ _ _ _ _ _ _ _ Hseg) as [_ Hkeys].
  destruct (split_halves_fit (page_size t) n e1 k cm e2 Hroom) as [Hfl Hfr]; [|done|done|lia|].
  { eapply Forall_impl; [exact Hkeys|]. by intros k' (_ & _ & ?). }
  rewrite He in Hseg. apply seg_app in Hseg as (kA & kB & idsA & idsB & -> & -> & Hk & HA & HB).
  eexists _, _, k, kA, kB, idsA, idsB. split; [exact Hsp|]. split; [done|]. split; [done|].
  split; [done|]. split; [done|]. split; [done|]. split; [done|]. split; [done|].
  intros q. unfold children. cbn [leftmost_child entries]. rewrite He, fmap_app. simpl.
  rewrite !elem_of_cons, !elem_of_app, !elem_of_cons. tauto.
Qed.

(** The parent takes the separator and splits. *)
Lemma split_level_ok t root H p anc h c lo hi kL kR iC l r sep kvs1 kvs2 ids1 ids2 X P n p' q' nd :
  walk t root H (p :: anc) h c lo hi kL kR iC (ids1 ++ ids2) [l; r] X P n [q'; p'] ->
  rep t h l lo (Some sep) kvs1 ids1 -> rep t h r (Some sep) hi kvs2 ids2 -> blen sep <= K ->
  internal_at t p nd -> split_room (page_size t) ->
  let n' := internal_upsert (replace_child nd c l) sep r in
  body_capacity (page_size t) < internal_needed n' ->
  exists nl nr k t' lo1 hi1 kL1 kR1 kA kB iC1 idsA idsB,
    split_internal n' = Ok (nl, nr, k) /\ blen k <= K /\
    (do! _ := write_internal p' nl in do! _ := write_internal q' nr in do! _ := free_page p in
     modify (remap_dirty_parent_paths_split p p' q' nr)) t = (Ok tt, t') /\
    walk t' root H anc (S h) p lo1 hi1 kL1 kR1 iC1 (idsA ++ idsB) [p'; q'] X P n [] /\
    rep t' (S h) p' lo1 (Some k) kA idsA /\ rep t' (S h) q' (Some k) hi1 kB idsB /\
    kL1 ++ kA ++ kB ++ kR1 = kL ++ kvs1 ++ kvs2 ++ kR /\
    iC1 ++ idsA ++ idsB ≡ₚ p' :: q' :: iC ++ ids1 ++ ids2 /\
    cow_step t t' [q'; p'] /\ root_page_id t' = root_page_id t /\ (hi = None -> hi1 = None /\ last idsB = last ids2).
Proof.
  intros Hw Hl Hr HK Hnd Hroom. pose proof Hw as (Hps & Hctx & Hc & Hcl & HNew & Ha & Hca & Hv).
  destruct (ctx_inv _ _ _ _ _ _ _ _ _ _ _ _ _ Hctx)
    as (lo1 & hi1 & m & es1 & es2 & kL1 & kR1 & kL2 & kR2 & iL & iR & iC1 & Hctx1 & Hf & -> & -> & ->).
  pose proof Hf as (Hm & He & HL & HR).
  rewrite (internal_at_inj _ _ _ _ Hnd Hm). clear Hnd nd. intros n' Hfull.
  destruct (frame_split t h p m es1 es2 lo1 hi1 c lo hi kL2 kR2 iL iR l r sep kvs1 kvs2 ids1 ids2 Hf)
    as (Hseg & Hsz & Hch); [intros Hin; apply Hc; mem|done..|]. fold n' in Hseg, Hch, Hsz.
  pose proof Hm as (_ & _ & body & _ & Hlen & (_ & _ & Hneed & _)). rewrite Hlen in Hneed.
  destruct (cap_usize t Hps) as (_ & _ & Hhd).
  destruct (split_node_ok t h n' _ _ _ _ Hseg Hroom) as
    (nl & nr & k & kA & kB & jA & jB & Hsp & Hk & HA & HB & HkAB & HjAB & Hfl & Hfr & Hchs); [lia..|].
  assert (forall q, q ∈ children nl ++ children nr -> is_u64 q) as Hu.
  { intros q Hq%Hchs. apply (seg_children K _ _ _ _ _ _ _ _ Hseg) in Hq.
    eapply (walk_u64 _ _ _ _ _ _ _ _ _ _ _ _ _ _ _ _ _ q Hw). mem in Hq. }
  destruct (walk_fresh _ _ _ _ _ _ _ _ _ _ _ _ _ _ _ _ _ p' Hw) as (Hp'n & D1 & F1); [mem|].
  destruct (walk_fresh _ _ _ _ _ _ _ _ _ _ _ _ _ _ _ _ _ q' Hw) as (Hq'n & D2 & F2); [mem|].
  assert (p' <> q') as Hpq.
  { intros ->. apply alloc_ok_nodup, NoDup_cons in Ha as [Hx _]. apply Hx. by left. }
  destruct (write_two_ok t p' q' nl nr) as (t2 & Hwr & Hn2 & Hn2' & Hs2 & Hsa2 & Hr2 & Hpa2); try done.
  { apply Forall_forall. intros q Hq. apply Hu. mem. }
  { apply Forall_forall. intros q Hq. apply Hu. mem. }
  destruct (walk_free t t2 root H p anc h c lo hi _ _ (iL ++ iR ++ iC1) (ids1 ++ ids2) _ X P n [q'; p']
    (map_imap (fun leaf_id path =>
      Some (remap_path_split p p' q' (list_to_set (children nr)) leaf_id path))) Hw Hs2 Hsa2 Hr2 Hpa2
    (fun paths => dom_imap_some paths _))
    as (t3 & Hfp & Hstep & Hroot & Hps4 & Hsame & Hint & Hpath4 & Hnd4 & Ha4 & Hca4).
  set (t4 := with_paths _ t3) in *. pose proof Hstep as (_ & Hsz4 & Hdl & _).
  assert (forall q, q ∈ jA ++ jB -> same_at t t4 q) as HsAB.
  { intros q Hq. rewrite <-HjAB in Hq. apply Hsame. mem in Hq. }
  assert (rep t4 (S h) p' lo1 (Some k) kA (p' :: jA)) as HrA.
  { exists nl, jA. split; [by apply Hint|]. split; [done|].
    eapply seg_frame; [done| |exact HA]. intros q Hq. apply HsAB. mem. }
  assert (rep t4 (S h) q' (Some k) hi1 kB (q' :: jB)) as HrB.
  { exists nr, jB. split; [by apply Hint|]. split; [done|].
    eapply seg_frame; [done| |exact HB]. intros q Hq. apply HsAB. mem. }
  assert (forall q, q ∈ jA ++ jB -> q ∈ iL ++ (ids1 ++ ids2) ++ iR) as Hj1 by (by rewrite <-HjAB).
  assert (forall q, q ∈ iL ++ (ids1 ++ ids2) ++ iR -> q ∈ jA ++ jB) as Hj2 by (by rewrite <-HjAB).
  exists nl, nr, k, t4, lo1, hi1, kL1, kR1, kA, kB, iC1, (p' :: jA), (q' :: jB).
  split; [done|]. split; [done|].
  split; [revert Hwr; unfold bind; destruct (write_internal p' nl t) as [[[]| |] tw]; [|done..];
    intros ->; by rewrite Hfp|]. split.
  { split; [done|].
    split; [eapply ctx_frame; [done| |exact Hctx1]; intros q Hq; apply Hsame; mem in Hq|].
    split.
    { assert (NoDup (p :: q' :: p' :: anc ++ (iL ++ iR ++ iC1) ++ ids1 ++ ids2)) as [Hpn _]%NoDup_cons
        by (eapply NoDup_perm; [|exact Hnd4]; solve_Permutation).
      intros Hin. apply Hpn. specialize (Hj1 p). mem_norm Hj1. mem in Hin. }
    split.
    { intros a y (Ha' & m' & Hm' & Hy). apply elem_of_app in Ha' as [Ha'|Ha']; apply elem_of_app;
        [left; eapply (rep_closed K _ _ _ _ _ _ _ a y HrA)|right; eapply (rep_closed K _ _ _ _ _ _ _ a y HrB)];
        (split; [done|]); eauto. }
    split; [intros q Hq; mem in Hq|].
    split; [eapply alloc_ok_perm; [|done|exact Ha4]; simpl; rewrite <-(app_assoc jA), (app_assoc jA (q' :: jB));
      rewrite <-(Permutation_middle jA jB q'), <-HjAB; solve_Permutation|].
    split; [eapply caches_in_sub; [|exact Hca4]; intros q Hq; specialize (Hj2 q); mem_norm Hj2; mem in Hq|].
    eapply vpaths_sub; [|eapply (vpaths_up_split t t4 root H p anc h c lo hi _ _ (iL ++ iR ++ iC1)
      (ids1 ++ ids2) [l; r] p' q' nl nr)]; try done.
    - intros q Hq. specialize (Hj2 q). mem_norm Hj2. mem in Hq.
    - intros q Hq. apply Hsame. mem in Hq.
    - by apply Hint.
    - by apply Hint.
    - intros m' y x Hm' Hy Hsub. apply Hchs. rewrite (internal_at_inj _ _ _ _ Hm' Hm) in Hy. by eapply Hch. }
  split; [done|]. split; [done|].
  split; [rewrite (app_assoc kA), <-HkAB, <-!app_assoc; done|].
  split; [simpl; rewrite <-(Permutation_middle jA jB q'), <-HjAB; solve_Permutation|]. split; [done|]. split; [done|].
  intros ->. destruct (frame_edge K _ _ _ _ _ _ _ _ _ _ _ _ _ _ Hf) as (-> & _ & ->). split; [done|].
  assert (last (q' :: jB) = last (q' :: jA ++ jB)) as ->.
  { destruct jB as [|x jB]; [|by rewrite !last_cons, last_app_cons, last_cons].
    exfalso. assert (leftmost_child nr ∈ @nil Z) as Hin by (apply (seg_children K _ _ _ _ _ _ _ _ HB); by left). by apply elem_of_nil in Hin. }
  rewrite <-HjAB, <-app_assoc, (app_assoc iL). by eapply (last_edge K).
Qed.
End split_up.
