(* ===== verification/TreeSplitRoot.v ===== *)
(** * TreeSplitRoot: the whole walk of [propagate_split_up] *)

From S2P Require Import Prelude Keys Errors PageFormat Node Leaf Internal Split Store Overflow Tree TreeWrite TreeRep TreeAlloc TreeCow TreePropagate TreeSplitUp.
From Stdlib Require Import ZArith Lia.
From stdpp Require Import base list strings gmap.

Local Open Scope Z_scope.
Local Open Scope pagedb_scope.

(** Running the first three of four steps. *)
Lemma seq3 {A} (a b c : M unit) (k : M A) t t' :
  (do! _ := a in do! _ := b in c) t = (Ok tt, t') ->
  (do! _ := a in do! _ := b in do! _ := c in k) t = k t'.
Proof.
  unfold bind. destruct (a t) as [[[]| |] ta]; [|done..]. destruct (b ta) as [[[]| |] tb]; [|done..].
  by intros ->.
Qed.

Lemma seq4 {A} (a b c d : M unit) (k : M A) t t' :
  (do! _ := a in do! _ := b in do! _ := c in d) t = (Ok tt, t') ->
  (do! _ := a in do! _ := b in do! _ := c in do! _ := d in k) t = k t'.
Proof.
  unfold bind at 1. intros Hr. unfold bind at 1. destruct (a t) as [[[]| |] ta]; [|done..]. by apply seq3.
Qed.

Section split_root.
Context (K : Z).
Local Abbreviation rep := (rep K).
Local Abbreviation seg := (seg K).
Local Abbreviation ctx := (ctx K).
Local Abbreviation walk := (walk K).
Local Abbreviation split_room := (split_room K).

(** A tree as a walk leaves it: [W] are the pages it has written, and [e] is the
    last leaf if the walk was along the right edge ([hi] is [None]). *)
Definition walked (t t' : BTree) (H0 : nat) (kvs : list leaf_record) (us X W : list Z) (P : gset Z) (n : nat)
    (hi : bound) (e : option Z) : Prop :=
  exists H ids, (H <= S H0)%nat /\ rep t' H (root_page_id t') None None kvs ids /\ ids ≡ₚ W ++ us /\
    (forall q, q ∈ W -> ~ (q ∈ P)) /\ alloc_ok n t' (ids ++ X) P /\ caches_in t' (ids ++ X) /\
    cow_step t t' W /\ paths_ok t' ids (root_page_id t') /\ (hi = None -> last ids = e).

(** The split has reached the root. *)
Lemma new_root_ok t H c lo hi kL kR l r sep kvs1 kvs2 ids1 ids2 X P n :
  walk t (root_page_id t) H [] H c lo hi kL kR [] (ids1 ++ ids2) [l; r] X P (S n) [] ->
  rep t H l lo (Some sep) kvs1 ids1 -> rep t H r (Some sep) hi kvs2 ids2 -> blen sep <= K ->
  split_room (page_size t) ->
  exists W t', propagate_loop [] c l sep r t = (Ok tt, t') /\
    walked t t' H (kL ++ kvs1 ++ kvs2 ++ kR) (ids1 ++ ids2) X W P n hi (last ids2).
Proof.
  intros Hw Hl Hr HK [HK0 Hroom].
  assert (kL = [] /\ kR = [] /\ lo = None /\ hi = None /\ c = root_page_id t) as (-> & -> & -> & -> & Hcr).
  { destruct Hw as (_ & Hctx & _). by inversion Hctx. }
  destruct (walk_allocate K _ _ _ _ _ _ _ _ _ _ _ _ _ _ _ _ _ Hw) as (p' & t1 & Hal & HP & Hsc & Hw1).
  destruct (walk_fresh K _ _ _ _ _ _ _ _ _ _ _ _ _ _ _ _ _ p' Hw1) as (Hp'n & D1 & F1); [by left|].
  pose proof Hsc as (_ & Er & Hsz & _). pose proof Hw1 as (Hps & _ & Hc & Hcl & HNew & Ha & Hca & Hv).
  assert (seg (rep t1 H) l [(sep, r)] None None (kvs1 ++ kvs2) (ids1 ++ ids2)) as Hseg.
  { exists kvs1, kvs2, ids1, ids2. split; [done|]. split; [done|]. split; [done|]. split.
    - eapply rep_frame; [done| |exact Hl]. intros. by apply same_content_at.
    - eapply rep_frame; [done| |exact Hr]. intros. by apply same_content_at. }
  destruct (write_internal_ok t1 p' (mkInternal l [(sep, r)])) as (t2 & Hwr & Hn2 & Hs2 & Hsa2 & Hr2 & Hpa2);
    try done.
  { apply Forall_forall. intros q Hq. eapply (walk_u64 K _ _ _ _ _ _ _ _ _ _ _ _ _ _ _ _ _ q Hw1).
    apply (seg_children K _ _ _ _ _ _ _ _ Hseg) in Hq. mem in Hq. }
  { rewrite Hsz. unfold internal_needed, HEADER_LEN in *. simpl. unfold SEPARATOR_RECORD_OVERHEAD.
    assert (2 * (K + 12) <= body_capacity (page_size t) - 24) by nia. lia. }
  exists [p']. eexists. split.
  { cbn [propagate_loop]. unfold bind. rewrite Hal, Hwr. reflexivity. }
  set (t3 := with_paths _ _). pose proof Hs2 as (Hpg & Hz2 & Hdl2 & _).
  assert (cow_step t1 t3 [p']) as Hstep1.
  { apply (cow_step_trans t1 t2 t3 [p'] []); [done|].
    apply (cow_step_trans t2 (with_root p' t2) t3 [] []); [split; [by right|done]|].
    apply cow_step_paths, dom_fmap_L. }
  assert (cow_step t t3 [p']) as Hstep.
  { apply (cow_step_trans t t1 t3 [] [p']); [by apply cow_step_content|done]. }
  assert (forall q, q ∈ ids1 ++ ids2 -> same_at t1 t3 q) as Hsame.
  { intros q Hq. apply (cow_step_at t1 t3 [p']); [done|].
    intros ->%list_elem_of_singleton. apply Hp'n. mem in Hq. }
  assert (rep t3 (S H) p' None None (kvs1 ++ kvs2) (p' :: ids1 ++ ids2)) as Hrep3.
  { exists (mkInternal l [(sep, r)]), (ids1 ++ ids2). split; [exact Hn2|]. split; [done|].
    eapply seg_frame; [done| |exact Hseg]. intros q Hq. by apply Hsame. }
  exists (S H), (p' :: ids1 ++ ids2). simpl. rewrite app_nil_r. split; [done|]. split; [done|]. split; [done|].
  split; [by intros q ->%list_elem_of_singleton|].
  split; [apply (alloc_ok_same _ t1); [exact Hsa2|exact Ha]|].
  split; [eapply caches_in_sub; [|eapply (caches_in_step t1 t3 [p']); [done|exact Hca]];
    intros q Hq; mem in Hq|]. split; [done|].
  split; [|intros _; rewrite <-(app_nil_r ids2) at 1; by eapply (last_edge K)].
  intros leaf path. simpl. rewrite lookup_fmap, Hpa2, Hdl2. intros (path0 & Hlk & ->)%fmap_Some.
  destruct (Hv leaf path0 Hlk) as [Hsome Hlink]. split; [done|]. split; [done|].
  rewrite <-(map_id path0). eapply (linked_map _ _ _ _ id); [| |exact Hlink].
  - intros a x (y & He & [[_ ->]|[-> _]]); [|exfalso; apply Hc; by apply Hcl in He].
    pose proof He as [Ha' _].
    apply (edge_frame t1 t3 (ids1 ++ ids2)); [done|by apply Hsame|mem|done].
  - rewrite <-Hcr. intros x [[? _]|[_ Hx]]; [done|]. split; [by left|].
    exists (mkInternal l [(sep, r)]). split; [exact Hn2|done].
Qed.

(** The loop of [propagate_split_up] turns the tree with the two halves unlinked
    into a tree again: every allocation it makes is of a page neither in use nor
    protected. *)
Lemma propagate_loop_ok X P n : forall anc t H h c lo hi kL kR iC l r sep kvs1 kvs2 ids1 ids2,
  walk t (root_page_id t) H anc h c lo hi kL kR iC (ids1 ++ ids2) [l; r] X P (2 * length anc + S n) [] ->
  rep t h l lo (Some sep) kvs1 ids1 -> rep t h r (Some sep) hi kvs2 ids2 -> blen sep <= K ->
  split_room (page_size t) ->
  exists W t', propagate_loop anc c l sep r t = (Ok tt, t') /\
    walked t t' H (kL ++ kvs1 ++ kvs2 ++ kR) (iC ++ ids1 ++ ids2) X W P n hi (last ids2).
Proof.
  induction anc as [|p anc IH];
    intros t H h c lo hi kL kR iC l r sep kvs1 kvs2 ids1 ids2 Hw Hl Hr HK Hroom.
  { assert (h = H /\ iC = []) as [-> ->] by (destruct Hw as (_ & Hctx & _); by inversion Hctx).
    by apply (new_root_ok t H c lo hi kL kR l r sep kvs1 kvs2 ids1 ids2 X P n). }
  assert (exists nd, internal_at t p nd) as [nd Hnd].
  { destruct Hw as (_ & Hctx & _).
    destruct (ctx_inv _ _ _ _ _ _ _ _ _ _ _ _ _ Hctx)
      as (lo1 & hi1 & nd & es1 & es2 & ? & ? & ? & ? & ? & ? & ? & _ & (Hn & _) & _). eauto. }
  cbn [propagate_loop length]. unfold bind at 1, gets at 1. rewrite (read_internal_ok t p nd Hnd).
  set (n' := internal_upsert _ _ _).
  replace (2 * length (p :: anc) + S n)%nat with (S (S (2 * length anc + S n))) in Hw by (simpl; lia).
  destruct (walk_allocate K _ _ _ _ _ _ _ _ _ _ _ _ _ _ _ _ _ Hw) as (p' & t1 & Hal & HP & Hsc & Hw1).
  pose proof Hsc as (_ & Er & Hsz & _).
  assert (rep t1 h l lo (Some sep) kvs1 ids1) as Hl1
    by (eapply rep_frame; [done| |exact Hl]; intros; by apply same_content_at).
  assert (rep t1 h r (Some sep) hi kvs2 ids2) as Hr1
    by (eapply rep_frame; [done| |exact Hr]; intros; by apply same_content_at).
  assert (internal_at t1 p nd) as Hnd1 by (apply (internal_at_frame t); [done|by apply same_content_at|done]).
  unfold bind at 1. rewrite Hal. unfold bind at 1, gets. rewrite internal_fits_needed, Hsz.
  destruct (Z.leb_spec (internal_needed n') (body_capacity (page_size t))) as [Hfit|Hfull]; cbn [negb].
  - destruct (fit_level_ok K t1 (root_page_id t) H p anc h c lo hi kL kR iC l r sep kvs1 kvs2 ids1 ids2 X P
      _ p' nd Hw1 Hl1 Hr1 HK Hnd1)
      as (t2 & lo1 & hi1 & kL1 & kR1 & kL2 & kR2 & iC1 & ids' & Hrun & Hw2 & Hrep2 & <- & <- & Hi & Hs2 & Hr2 & He2);
      [by rewrite Hsz|].
    fold n' in Hrun. rewrite (seq3 _ _ _ _ _ _ Hrun).
    destruct Hw2 as (Hps2 & Hctx2 & Hc2 & _ & _ & Ha2 & Hca2 & Hv2).
    destruct (cow_ancestors_ok K (root_page_id t) H X P n anc t2 (S h) p lo1 hi1 kL1 kR1 iC1 p' _ ids' Hps2 Hctx2 Hrep2 Hc2)
      as (root' & W & idsf & t' & Hrun' & Hrepf & Hidsf & HWP & Haf & Hcaf & Hsf & Hrf & Hpf & Hef); [|done..|].
    { eapply alloc_ok_le; [|exact Ha2]. lia. }
    exists (p' :: W), (with_root root' t'). unfold bind. rewrite Hrun'. split; [done|].
    exists H, idsf. rewrite <-!app_assoc in *. split; [lia|]. split; [by apply (rep_frame K t')|].
    split; [rewrite Hidsf, Hi; solve_Permutation|].
    split; [intros q [->|Hq]%elem_of_cons; auto|]. split; [done|]. split; [done|]. split.
    { apply (cow_step_trans t t1 _ [] (p' :: W)); [by apply cow_step_content|].
      by apply (cow_step_trans t1 t2 _ [p'] W). }
    split; [done|]. intros Hn. destruct (He2 Hn) as [Hn1 <-]. by apply Hef.
  - destruct (walk_allocate K _ _ _ _ _ _ _ _ _ _ _ _ _ _ _ _ _ Hw1) as (q' & t1' & Hal' & HP' & Hsc' & Hw1').
    pose proof Hsc' as (_ & Er' & Hsz' & _).
    destruct (split_level_ok K t1' (root_page_id t) H p anc h c lo hi kL kR iC l r sep kvs1 kvs2 ids1 ids2 X P
      _ p' q' nd Hw1')
      as (nl & nr & k & t2 & lo1 & hi1 & kL1 & kR1 & kA & kB & iC1 & idsA & idsB &
          Hsp & Hk & Hrun & Hw2 & HrA & HrB & Hkv & Hi & Hs2 & Hr2 & He2); [| |done| | | |].
    { eapply rep_frame; [done| |exact Hl1]. intros; by apply same_content_at. }
    { eapply rep_frame; [done| |exact Hr1]. intros; by apply same_content_at. }
    { apply (internal_at_frame t1); [done|by apply same_content_at|done]. }
    { by rewrite Hsz', Hsz. }
    { by rewrite Hsz', Hsz. }
    fold n' in Hsp. unfold bind at 1, lift. rewrite Hsp. cbv beta iota zeta.
    unfold bind at 1. rewrite Hal'. rewrite (seq4 _ _ _ _ _ _ _ Hrun).
    assert (root_page_id t2 = root_page_id t) as Hrt by congruence. rewrite <-Hrt in Hw2.
    destruct (IH t2 H (S h) p lo1 hi1 kL1 kR1 iC1 p' q' k kA kB idsA idsB Hw2 HrA HrB Hk)
      as (W & t' & Hrun' & Hf & idsf & Hle & Hrepf & Hidsf & HWP & Haf & Hcaf & Hsf & Hpf & Hef).
    { destruct Hs2 as (_ & -> & _). by rewrite Hsz', Hsz. }
    exists ([q'; p'] ++ W), t'. split; [done|]. exists Hf, idsf. rewrite <-Hkv. split; [done|]. split; [done|].
    split; [rewrite Hidsf, Hi; solve_Permutation|].
    split; [intros q Hq; mem_norm Hq; destruct Hq as [[->|[->|[]]]|Hq]; auto|].
    split; [done|]. split; [done|]. split.
    { apply (cow_step_trans t t1 _ [] _); [by apply cow_step_content|].
      apply (cow_step_trans t1 t1' _ [] _); [by apply cow_step_content|].
      by apply (cow_step_trans t1' t2 _ [q'; p'] W). }
    split; [done|]. intros Hn. destruct (He2 Hn) as [Hn1 <-]. by apply Hef.
Qed.

End split_root.
