(* ===== verification/TreePut.v ===== *)
(** * TreePut: the session invariant and insertion

    [put_at_path] on a session whose pages, caches and recorded paths represent a
    tree leaves such a session, with the one binding changed. *)

From S2P Require Import Prelude Keys Errors PageFormat Node Leaf Internal Split Store Overflow Tree TreeWrite TreeRep TreeAlloc TreeCow TreePropagate TreeSplitUp TreeSplitRoot.
From Stdlib Require Import ZArith Lia.
From stdpp Require Import base list strings gmap sorting.

Local Open Scope Z_scope.
Local Open Scope pagedb_scope.

(** ** The cached leaves of a session *)

(** A page is cached as dirty or as fresh, not both; a fresh leaf has a page of its
    own that is not protected; every dirty leaf is scheduled to be freed once and
    has a recorded path. *)
Definition caches_wf (t : BTree) (ids : list Z) (P : gset Z) : Prop :=
  caches_in t ids /\
  (forall p, is_Some (fresh_leaves t !! p) -> dirty_leaves t !! p = None /\ ~ (p ∈ P)) /\
  scheduled_frees t ≡ₚ (map_to_list (dirty_leaves t)).*1 /\
  dom (dirty_parent_paths t) = dom (dirty_leaves t).

Lemma dom_keys_perm {A B} (m : gmap Z A) (m' : gmap Z B) :
  dom m' = dom m -> (map_to_list m).*1 ≡ₚ (map_to_list m').*1.
Proof.
  intros Hd. apply NoDup_Permutation; [apply NoDup_fst_map_to_list..|]. intros p.
  assert (forall C (x : gmap Z C), p ∈ (map_to_list x).*1 <-> p ∈ dom x) as Hx.
  { intros C x. rewrite elem_of_dom, list_elem_of_fmap. split.
    - intros ([q v] & -> & Hin%elem_of_map_to_list). eauto.
    - intros [v Hv]. exists (p, v). split; [done|]. by apply elem_of_map_to_list. }
  by rewrite !Hx, Hd.
Qed.

(** [swap_remove] takes one element out. *)
Lemma swap_remove_perm {A} (l : list A) pos x :
  l !! pos = Some x -> x :: swap_remove l pos ≡ₚ l.
Proof.
  intros Hp. unfold swap_remove. destruct l as [|y l0 _] using rev_ind; [done|].
  rewrite last_snoc, length_app. simpl. replace (length l0 + 1 - 1)%nat with (length l0) by lia.
  destruct (decide (pos = length l0)) as [->|Hne].
  - rewrite list_lookup_middle in Hp by done. simplify_eq.
    rewrite list_insert_id by (by rewrite list_lookup_middle). rewrite take_app_length. solve_Permutation.
  - assert (pos < length l0)%nat as Hlt.
    { apply lookup_lt_Some in Hp. rewrite length_app in Hp. simpl in Hp. lia. }
    rewrite lookup_app_l in Hp by done. rewrite insert_app_l by done.
    rewrite take_app_length' by (by rewrite length_insert).
    rewrite <-(take_drop_middle l0 pos x Hp) at 2.
    rewrite insert_take_drop by done. solve_Permutation.
Qed.
Lemma swap_remove_value_perm p (l : list Z) : p ∈ l -> p :: swap_remove_value p l ≡ₚ l.
Proof.
  intros Hp. unfold swap_remove_value.
  destruct (list_find_elem_of (fun q => q = p) l p Hp eq_refl) as [[i q] Hf]. rewrite Hf.
  apply list_find_Some in Hf as (Hi & -> & _). by apply swap_remove_perm.
Qed.

Section put.
Context (K : Z).
Local Abbreviation rep := (rep K).
Local Abbreviation ctx := (ctx K).

(** Keys and values small enough against the page for both halves of a split to
    fit. *)
Definition room (ps : Z) : Prop :=
  split_room K ps /\ 2 * (K + inline_value_threshold ps + 4) + 28 <= body_capacity ps /\
  OVERFLOW_REF_ENCODED_SIZE <= inline_value_threshold ps + 2.

Definition small_values (ps : Z) (kvs : list leaf_record) : Prop :=
  Forall (fun r : leaf_record => encoded_size r.2 <= inline_value_threshold ps + 2) kvs.

(** [session t H kvs ids X P n]: the pages [ids] and the cached leaves represent a
    tree of height [H] with the records [kvs]; the pages [X] are used by others,
    those of [P] are never written, and [n] pages can still be allocated. *)
Record session (t : BTree) (H : nat) (kvs : list leaf_record) (ids X : list Z) (P : gset Z)
    (n : nat) : Prop := mkSession {
  session_page_size : page_size_ok t;
  session_room : room (page_size t);
  session_rep : rep t H (root_page_id t) None None kvs ids;
  session_values : small_values (page_size t) kvs;
  session_alloc_ok : alloc_ok n t (ids ++ X) P;
  session_caches : caches_wf t ids P;
  session_paths : paths_ok t ids (root_page_id t);
}.

(** ** Recorded paths *)

Lemma linked_snoc E F path p leaf :
  linked E F path p -> E p leaf -> linked E F (path ++ [p]) leaf.
Proof.
  revert F. induction path as [|q path IH]; intros F; simpl; [done|]. intros [? ?] ?. split; [done|auto].
Qed.

Lemma left_of_hole R lm es1 c lo lo' kL iL :
  left_of K R lm es1 c lo lo' kL iL -> c ∈ lm :: es1.*2.
Proof.
  intros [(-> & -> & _)|(es0 & k & -> & _)]; [by left|]. right. rewrite fmap_app. simpl. mem.
Qed.

Lemma ctx_linked t root H anc h c lo hi kL kR iC S :
  ctx t root H anc h c lo hi kL kR iC -> (forall q, q ∈ anc -> q ∈ S) ->
  linked (edge t S) (eq root) (reverse anc) c.
Proof.
  induction 1 as [|anc h p lo hi n es1 es2 c lo' hi' kL kR iC kL' kR' iL iR Hc IH Hf]; intros HS.
  - done.
  - rewrite reverse_cons. apply linked_snoc; [apply IH; intros q Hq; apply HS; by right|].
    destruct Hf as (Hn & He & HL & _). split; [apply HS; by left|]. exists n. split; [done|].
    apply left_of_hole in HL. unfold children. rewrite He, fmap_app. mem in HL.
Qed.

(** A path to another leaf does not pass through [p], which has no children. *)
Lemma linked_avoid E F path leaf p :
  leaf <> p -> (forall y, ~ E p y) -> linked E F path leaf ->
  linked (fun a x => E a x /\ a <> p /\ x <> p) (fun x => F x /\ x <> p) path leaf.
Proof.
  intros Hne Hp. revert F. induction path as [|a path IH]; intros F; simpl; [done|]. intros [Ha Hl].
  assert (a <> p) as Hap.
  { intros ->. destruct path; simpl in Hl; [by apply Hp in Hl|by destruct Hl as [?%Hp _]]. }
  split; [done|]. eapply (linked_hop _ (fun x => E a x /\ x <> p)); [|by apply IH].
  apply IH in Hl. apply linked_from in Hl. tauto.
Qed.

Lemma paths_ok_frame t t' S root :
  page_size t' = page_size t -> (forall a y, edge t S a y -> same_at t t' a) ->
  (forall p, is_Some (dirty_leaves t !! p) -> is_Some (dirty_leaves t' !! p)) ->
  dirty_parent_paths t' = dirty_parent_paths t -> paths_ok t S root -> paths_ok t' S root.
Proof.
  intros Hps Hsame Hd Hp Hpo leaf path. rewrite Hp. intros Hl. destruct (Hpo leaf path Hl) as [Hsome Hlk].
  split; [by apply Hd|]. rewrite <-(map_id path). eapply (linked_map _ _ _ _ id); [|intros x; exact id|exact Hlk].
  intros a x He. eapply edge_frame; [done|by eapply Hsame|exact id|done].
Qed.

Lemma paths_ok_sub t S S' root :
  (forall q, q ∈ S -> q ∈ S') -> paths_ok t S root -> paths_ok t S' root.
Proof.
  intros HS Hpo leaf path Hl. destruct (Hpo leaf path Hl) as [Hsome Hlk]. split; [done|].
  rewrite <-(map_id path). eapply (linked_map _ _ _ _ id); [|intros x; exact id|exact Hlk].
  intros a x [Ha ?]. split; [by apply HS|done].
Qed.
Lemma caches_wf_sub t us us' P :
  (forall q, q ∈ us -> q ∈ us') -> caches_wf t us P -> caches_wf t us' P.
Proof. intros Hs (Hc & Hr). split; [|done]. intros p Hp. by apply Hs, Hc. Qed.

(** ** One leaf in focus *)

(** The session around one cached leaf: [l] is what the cache holds for [leaf],
    whether or not it fits the page. *)
Definition focus (t : BTree) (H : nat) (anc : list Z) (leaf : Z) (lo hi : bound)
    (kL kR : list leaf_record) (iC : list Z) (fr : bool) (l : Leaf) (X : list Z) (P : gset Z)
    (n : nat) : Prop :=
  page_size_ok t /\ room (page_size t) /\
  ctx t (root_page_id t) H anc 0 leaf lo hi kL kR iC /\
  alloc_ok n t (anc ++ iC ++ leaf :: X) P /\ caches_wf t (anc ++ iC ++ [leaf]) P /\
  paths_ok t (anc ++ iC ++ [leaf]) (root_page_id t) /\
  leaf_at t leaf l /\ (if fr then fresh_leaves t !! leaf = Some l else
    fresh_leaves t !! leaf = None /\ dirty_leaves t !! leaf = Some l).

Lemma focus_leaf_not_in t H anc leaf lo hi kL kR iC fr l X P n q :
  focus t H anc leaf lo hi kL kR iC fr l X P n -> q ∈ anc ++ iC -> q <> leaf.
Proof.
  intros (_ & _ & _ & Ha & _) Hq ->. apply alloc_ok_nodup in Ha. rewrite app_assoc in Ha.
  apply NoDup_app in Ha as (_ & Hd & _). apply (Hd leaf Hq). by left.
Qed.

(** A leaf page has no outgoing edges. *)
Lemma leaf_no_edge t S leaf l y : leaf_at t leaf l -> ~ edge t S leaf y.
Proof. intros Hl (_ & m & Hm & _). by eapply leaf_not_internal. Qed.

(** The clean leaf at the end of a path becomes a dirty one. *)
Lemma ensure_leaf_dirty_ok t H kvs anc leaf lo hi kL kR iC l ids X P n :
  session t H kvs ids X P n -> ctx t (root_page_id t) H anc 0 leaf lo hi kL kR iC ->
  anc ++ iC ++ [leaf] ≡ₚ ids -> leaf_at t leaf l -> fresh_leaves t !! leaf = None ->
  exists t', ensure_leaf_dirty leaf (reverse anc ++ [leaf]) t = (Ok tt, t') /\
    focus t' H anc leaf lo hi kL kR iC false l X P n /\
    bt_pages t' = bt_pages t /\ page_size t' = page_size t.
Proof.
  intros [Hps Hroom Hrep Hsm Ha Hcw Hpo] Hctx Hids Hl Hf. unfold ensure_leaf_dirty.
  assert (forall q, q ∈ ids -> q ∈ anc ++ iC ++ [leaf]) as Hsub by (intros q; by rewrite Hids).
  apply (caches_wf_sub _ _ _ _ Hsub) in Hcw. apply (paths_ok_sub _ _ _ _ Hsub) in Hpo.
  rewrite <-Hids, <-!app_assoc in Ha. simpl in Ha.
  destruct (dirty_leaves t !! leaf) as [l'|] eqn:Hd.
  { exists t. split; [done|]. split; [|done]. split_and!; try done.
    destruct Hl as [?|(_ & body & l0 & _ & _ & _ & ->)]; [congruence|]. by rewrite Hd. }
  destruct Hl as [?|(_ & body & l0 & Hb & Hlen & Hdec & Hlv)]; [congruence|]. rewrite Hd in Hlv. simpl in Hlv. subst l.
  assert (decode_leaf_from_pager t leaf = Ok l0) as Hdl.
  { unfold decode_leaf_from_pager. by rewrite (read_main_page_ok _ _ _ body). }
  unfold bind, gets, modify. rewrite Hdl. eexists. split; [reflexivity|]. split; [|done].
  replace (take _ _) with (reverse anc)
    by (rewrite length_app; simpl; replace (_ + 1 - 1)%nat with (length (reverse anc)) by lia;
        by rewrite take_app_length).
  set (t' := with_paths _ _).
  assert (forall q, q <> leaf -> same_at t t' q) as Hsame.
  { intros q Hq. unfold same_at, t'. simpl. by rewrite lookup_insert_ne. }
  destruct Hcw as (Hc1 & Hc2 & Hc3 & Hc4).
  assert (forall q, q ∈ anc ++ iC -> q <> leaf) as Hne.
  { intros q Hq ->. apply alloc_ok_nodup in Ha. rewrite app_assoc in Ha.
    apply NoDup_app in Ha as (_ & Hdj & _). apply (Hdj leaf Hq). by left. }
  split_and!; try done.
  - apply (ctx_frame K t); [done| |exact Hctx]. intros q Hq. by apply Hsame, Hne.
  - split_and!; simpl.
    + intros p [Hp|Hp]; [|apply Hc1; by right]. unfold t' in Hp. simpl in Hp.
      apply lookup_insert_is_Some' in Hp as [->|Hp]; [mem|apply Hc1; by left].
    + intros p Hp. rewrite lookup_insert_ne; [by apply Hc2|]. intros ->. rewrite Hf in Hp. by destruct Hp.
    + rewrite map_to_list_insert by done. simpl. rewrite <-Hc3. solve_Permutation.
    + by rewrite !dom_insert_L, Hc4.
  - intros p path. unfold t'. simpl. destruct (decide (p = leaf)) as [->|Hpl].
    + rewrite !lookup_insert_eq. intros [= <-]. split; [done|].
      eapply ctx_linked; [apply (ctx_frame K t); [done| |exact Hctx]; intros q Hq; by apply Hsame, Hne|].
      intros q Hq. mem.
    + rewrite !lookup_insert_ne by done. intros Hpl'. destruct (Hpo p path Hpl') as [Hsome Hlk]. split; [done|].
      rewrite <-(map_id path). eapply (linked_map _ _ _ _ id); [|intros x; exact id|exact Hlk].
      intros a x He. apply (edge_frame t t' (anc ++ iC ++ [leaf])); [done| |exact id|exact He]. apply Hsame. unfold id. intros ->.
      destruct He as (_ & m & (_ & _ & b' & Hb' & _) & _). congruence.
  - right. split; [done|]. exists body, l0. split_and!; try done. simpl. by rewrite lookup_insert_eq.
  - simpl. by rewrite lookup_insert_eq.
Qed.

(** Writing through the cached leaf. *)
Lemma focus_set t H anc leaf lo hi kL kR iC fr l l' X P n :
  focus t H anc leaf lo hi kL kR iC fr l X P n ->
  focus (set_cached_leaf leaf fr l' t) H anc leaf lo hi kL kR iC fr l' X P n.
Proof.
  intros Hfo. assert (forall q, q ∈ anc ++ iC -> q <> leaf) as Hne
    by (intros q; by eapply focus_leaf_not_in).
  destruct Hfo as (Hps & Hroom & Hctx & Ha & (Hc1 & Hc2 & Hc3 & Hc4) & Hpo & Hl & Hcache).
  set (t' := set_cached_leaf leaf fr l' t).
  assert (forall q, q <> leaf -> same_at t t' q) as Hsame.
  { intros q Hq. unfold same_at, t', set_cached_leaf. destruct fr; simpl; by rewrite lookup_insert_ne. }
  assert (page_size t' = page_size t /\ root_page_id t' = root_page_id t /\
    dirty_parent_paths t' = dirty_parent_paths t /\ same_alloc t t' /\
    scheduled_frees t' = scheduled_frees t) as (E1 & E2 & E3 & E4 & E5) by (unfold t', set_cached_leaf; by destruct fr).
  assert (forall p, (is_Some (dirty_leaves t' !! p) <-> is_Some (dirty_leaves t !! p)) /\
                    (is_Some (fresh_leaves t' !! p) <-> is_Some (fresh_leaves t !! p))) as Hdom.
  { intros p. destruct (decide (p = leaf)) as [->|Hp].
    - unfold t', set_cached_leaf. destruct fr; simpl; rewrite lookup_insert_eq;
        [rewrite Hcache|destruct Hcache as [_ ->]]; split; split; intros; eauto.
    - destruct (Hsame p Hp) as (_ & -> & ->). done. }
  unfold focus, page_size_ok in *. rewrite E1, E2. split; [done|]. split; [done|].
  split; [apply (ctx_frame K t); [done| |exact Hctx]; intros q Hq; by apply Hsame, Hne|].
  split; [by apply (alloc_ok_same _ t)|]. split.
  { split; [intros p Hp; apply Hc1; by rewrite !(proj1 (Hdom p)), !(proj2 (Hdom p)) in Hp|].
    split; [intros p Hp; apply Hdom, Hc2 in Hp as [Hp HpP]; split; [|done];
      apply eq_None_not_Some; rewrite (proj1 (Hdom p)), Hp; by intros []|].
    assert (dom (dirty_leaves t') = dom (dirty_leaves t)) as Hdd
      by (apply set_eq; intros p; rewrite !elem_of_dom; apply Hdom).
    rewrite E3, E5, Hdd. split; [|done]. rewrite Hc3. apply dom_keys_perm. done. }
  split.
  { apply (paths_ok_frame t t'); [done| |intros p Hp; by apply Hdom|done|done].
    intros a y He. apply Hsame. intros ->. by apply (leaf_no_edge _ _ _ _ _ Hl) in He. }
  unfold t', set_cached_leaf. destruct fr; simpl.
  - rewrite lookup_insert_eq. split; [|done]. left. simpl. by rewrite lookup_insert_eq.
  - rewrite lookup_insert_eq. destruct Hcache as [Hf _]. split; [|done]. right. split; [done|].
    destruct Hl as [?|(_ & body & l0 & Hb & Hlen & Hdec & _)]; [congruence|].
    exists body, l0. simpl. by rewrite lookup_insert_eq.
Qed.

(** A focused leaf that fits is part of a tree. *)
Lemma focus_session t H anc leaf lo hi kL kR iC fr l X P n :
  focus t H anc leaf lo hi kL kR iC fr l X P n -> leaf_wf l -> leaf_fits l (page_size t) = true ->
  blt lo hi -> Forall (fun r : leaf_record => in_range lo hi r.1 /\ blen r.1 <= K) (records l) ->
  small_values (page_size t) (kL ++ records l ++ kR) ->
  exists ids, session t H (kL ++ records l ++ kR) ids X P n /\ ids ≡ₚ anc ++ iC ++ [leaf] /\
    (hi = None -> last ids = Some leaf).
Proof.
  intros (Hps & Hroom & Hctx & Ha & Hcw & Hpo & Hl & Hcache) Hwf Hfit Hb Hf Hsm.
  destruct (ctx_plug K t (root_page_id t) H anc 0 leaf lo hi kL kR iC (records l) [leaf] Hctx)
    as (ids & Hrep & Hids & Hlast).
  { exists l. done. }
  exists ids. split; [|done]. constructor; try done.
  - rewrite Hids, <-!app_assoc. done.
  - eapply caches_wf_sub; [|exact Hcw]. intros q. by rewrite Hids.
  - eapply paths_ok_sub; [|exact Hpo]. intros q. by rewrite Hids.
Qed.

(** Taking the leaf out of its cache: it is no longer dirty, nor scheduled to be
    freed, and the paths recorded for the other leaves do not meet it. *)
Lemma take_cached_leaf_ok t H anc leaf lo hi kL kR iC fr l X P n :
  focus t H anc leaf lo hi kL kR iC fr l X P n ->
  exists t', take_cached_leaf leaf fr t = (Ok l, t') /\
    bt_pages t' = bt_pages t /\ page_size t' = page_size t /\ root_page_id t' = root_page_id t /\
    same_alloc t t' /\ (forall q, q <> leaf -> same_at t t' q) /\ caches_wf t' (anc ++ iC) P /\
    (forall p path, dirty_parent_paths t' !! p = Some path -> is_Some (dirty_leaves t' !! p) /\
       linked (fun a x => edge t (anc ++ iC ++ [leaf]) a x /\ a <> leaf /\ x <> leaf)
         (fun x => root_page_id t = x /\ x <> leaf) path p).
Proof.
  intros (Hps & Hroom & Hctx & Ha & (Hc1 & Hc2 & Hc3 & Hc4) & Hpo & Hl & Hcache).
  assert (forall p path, p <> leaf -> dirty_parent_paths t !! p = Some path ->
    linked (fun a x => edge t (anc ++ iC ++ [leaf]) a x /\ a <> leaf /\ x <> leaf)
         (fun x => root_page_id t = x /\ x <> leaf) path p) as Hav.
  { intros p path Hp Hpath. destruct (Hpo p path Hpath) as [_ Hlk]. apply linked_avoid; try done.
    intros y. by eapply leaf_no_edge. }
  assert (forall p, p ∈ anc ++ iC ++ [leaf] -> p <> leaf -> p ∈ anc ++ iC) as Hmem
    by (intros p Hp Hne; mem in Hp).
  unfold take_cached_leaf, cached_leaf, bind, gets, modify, ret. destruct fr.
  - rewrite Hcache. eexists. split; [reflexivity|]. split_and!; try done.
    + intros q Hq. unfold same_at. simpl. by rewrite lookup_delete_ne.
    + split_and!; simpl; [|intros p Hp; apply Hc2; by apply lookup_delete_is_Some in Hp as [_ ?]|done|done].
      intros p Hp. simpl in Hp.
      assert (p <> leaf).
      { intros ->. rewrite lookup_delete_eq in Hp. destruct Hp as [Hp|[? ?]]; [|done].
        rewrite (proj1 (Hc2 leaf ltac:(eauto))) in Hp. by destruct Hp. }
      apply Hmem; [|done]. apply Hc1. by rewrite lookup_delete_ne in Hp.
    + simpl. intros p path Hpath. destruct (Hpo p path Hpath) as [Hsome _]. split; [done|]. apply Hav; [|done].
      intros ->. rewrite (proj1 (Hc2 leaf ltac:(eauto))) in Hsome. by destruct Hsome.
  - destruct Hcache as [Hf Hd]. rewrite Hd. eexists. split; [reflexivity|]. split_and!; try done.
    + intros q Hq. unfold same_at. simpl. by rewrite lookup_delete_ne.
    + split_and!; simpl.
      * intros p Hp. simpl in Hp. assert (p <> leaf).
        { intros ->. rewrite lookup_delete_eq, Hf in Hp. by destruct Hp as [[? ?]|[? ?]]. }
        apply Hmem; [|done]. apply Hc1. by rewrite lookup_delete_ne in Hp.
      * intros p Hp. split; [rewrite lookup_delete_None; right|]; by apply Hc2.
      * apply (Permutation_cons_inv (a := leaf)).
        rewrite swap_remove_value_perm by (rewrite Hc3, list_elem_of_fmap; exists (leaf, l);
          split; [done|by apply elem_of_map_to_list]).
        rewrite Hc3. rewrite <-(insert_delete_id (dirty_leaves t) leaf l Hd) at 1.
        by rewrite map_to_list_insert by apply lookup_delete_eq.
      * by rewrite !dom_delete_L, Hc4.
    + simpl. intros p path [Hne Hpath]%lookup_delete_Some. rewrite lookup_delete_ne by done.
      destruct (Hpo p path Hpath) as [Hsome _]. split; [done|]. by apply Hav.
Qed.

(** ** Splitting the leaf in focus *)

(** The halves of a leaf, cached as fresh leaves, are subtrees of its range. *)
Lemma halves_rep t lo hi l lh rh sep v rest nl nr :
  records l = records lh ++ records rh -> records lh <> [] -> records rh = (sep, v) :: rest ->
  leaf_wf l -> Forall (fun r : leaf_record => in_range lo hi r.1 /\ blen r.1 <= K) (records l) ->
  leaf_fits lh (page_size t) = true -> leaf_fits rh (page_size t) = true ->
  fresh_leaves t !! nl = Some (unlinked lh) -> fresh_leaves t !! nr = Some (unlinked rh) ->
  rep t 0 nl lo (Some sep) (records lh) [nl] /\ rep t 0 nr (Some sep) hi (records rh) [nr] /\
  blen sep <= K.
Proof.
  intros Hrec Hne Hrh (Hs & _ & _ & Hv) Hf Hfl Hfr Hnl Hnr.
  unfold leaf_sorted in Hs. rewrite Hrec, fmap_app in Hs. apply sorted_app in Hs as (Hs1 & Hs2 & Hlt).
  rewrite Hrec, fmap_app in Hv. apply Forall_app in Hv as [Hv1 Hv2].
  rewrite Hrec in Hf. apply Forall_app in Hf as [Hf1 Hf2].
  pose proof Hf2 as Hsep. rewrite Hrh in Hsep. apply Forall_cons in Hsep as [[[Hsl Hsh] HK] _]. simpl in *.
  split_and!; [|  |done].
  - exists (unlinked lh). split; [by left|]. split; [done|]. split; [done|]. split; [done|]. split; [done|].
    rewrite Forall_forall in Hf1. split.
    + destruct (records lh) as [|[k0 v0] rs]; [done|]. destruct (Hf1 (k0, v0)) as [[Hk0 _] _]; [by left|].
      assert (k0 <ₖ sep) as Hlt0 by (apply Hlt; [by left|rewrite Hrh; by left]).
      destruct lo as [lo|]; [|done]. simpl in *. by eapply key_le_lt_trans.
    + apply Forall_forall. intros r Hr. destruct (Hf1 r Hr) as [[Hlo _] HKr]. split; [|done]. split; [done|].
      simpl. apply Hlt; [by apply list_elem_of_fmap_2|rewrite Hrh; by left].
  - exists (unlinked rh). split; [by left|]. split; [done|]. split; [done|]. split; [done|]. split; [done|].
    rewrite Forall_forall in Hf2. split; [done|].
    apply Forall_forall. intros r Hr. destruct (Hf2 r Hr) as [[_ Hhi] HKr]. split; [|done]. split; [|done].
    simpl. rewrite Hrh in Hr, Hs2. apply StronglySorted_inv in Hs2 as [_ Hall].
    apply elem_of_cons in Hr as [->|Hr]; [apply key_le_refl|]. rewrite Forall_forall in Hall.
    apply key_lt_le, Hall. by apply list_elem_of_fmap_2.
Qed.

(** The two fresh halves are cached and the old leaf's page is freed. *)
Definition link_halves (leaf nl nr : Z) (lh rh : Leaf) : M unit :=
  do! _ := modify (with_fresh (<[nl := unlinked lh]>)) in
  do! _ := modify (with_fresh (<[nr := unlinked rh]>)) in
  free_page leaf.

Lemma link_halves_ok t H anc leaf lo hi kL kR iC fr l X P n t1 t2 t3 nl nr lh rh :
  focus t H anc leaf lo hi kL kR iC fr l X P (S (S n)) ->
  take_cached_leaf leaf fr t = (Ok l, t1) -> allocate_page t1 = (Ok nl, t2) ->
  allocate_page t2 = (Ok nr, t3) ->
  exists t', link_halves leaf nl nr lh rh t3 = (Ok tt, t') /\
    walk K t' (root_page_id t') H anc 0 leaf lo hi kL kR iC ([nl] ++ [nr]) [nl; nr] X P n [] /\
    fresh_leaves t' !! nl = Some (unlinked lh) /\ fresh_leaves t' !! nr = Some (unlinked rh) /\
    bt_pages t' = bt_pages t /\ page_size t' = page_size t /\
    caches_wf t' (anc ++ iC ++ [nl; nr]) P.
Proof.
  intros Hfo Htk Hal1 Hal2.
  assert (forall q, q ∈ anc ++ iC -> q <> leaf) as Hne by (intros q; by eapply focus_leaf_not_in).
  destruct (take_cached_leaf_ok _ _ _ _ _ _ _ _ _ _ _ _ _ _ Hfo)
    as (t1' & Htk' & Hb1 & Hz1 & Hr1 & Hsa1 & Hs1 & Hcw1 & Hpa1).
  rewrite Htk in Htk'. simplify_eq.
  destruct Hfo as (Hps & Hroom & Hctx & Ha & _ & _ & Hl & _).
  apply (alloc_ok_same _ _ t1') in Ha; [|done].
  destruct (allocate_page_ok _ _ _ _ Ha) as (nl' & t2' & Hal1' & HP1 & Ha2 & Hsc2).
  rewrite Hal1 in Hal1'. simplify_eq.
  destruct (allocate_page_ok _ _ _ _ Ha2) as (nr' & t3' & Hal2' & HP2 & Ha3 & Hsc3).
  rewrite Hal2 in Hal2'. simplify_eq.
  assert (nr' :: nl' :: anc ++ iC ++ leaf :: X ≡ₚ leaf :: anc ++ iC ++ [nl'; nr'] ++ X) as Hperm by solve_Permutation.
  pose proof (alloc_ok_nodup _ _ _ _ Ha3) as Hnd. rewrite Hperm in Ha3.
  set (t4 := with_fresh (<[nr' := unlinked rh]>) (with_fresh (<[nl' := unlinked lh]>) t3')).
  apply (alloc_ok_same _ _ t4) in Ha3; [|done].
  destruct (free_page_ok _ _ _ _ _ Ha3) as (t5 & Hfr & Ha5 & Hsc5).
  exists t5. unfold link_halves, bind, modify. fold t4. split; [done|].
  pose proof (same_content_trans _ _ _ Hsc2 Hsc3) as Hsc.
  pose proof Hsc as (A1 & A2 & A3 & A4 & A5 & A6 & A7 & _). pose proof Hsc5 as (B1 & B2 & B3 & B4 & B5 & B6 & B7 & _).
  unfold t4 in B1, B2, B3, B4, B5, B6, B7. cbn in B1, B2, B3, B4, B5, B6, B7.
  rewrite A1 in B1. rewrite A2 in B2. rewrite A3 in B3. rewrite A4 in B4. rewrite A5 in B5.
  rewrite A6 in B6. rewrite A7 in B7.
  assert (nl' <> nr' /\ ~ (nl' ∈ anc ++ iC) /\ ~ (nr' ∈ anc ++ iC)) as (Hnn & Hnl & Hnr).
  { apply NoDup_cons in Hnd as [Hx Hnd]. apply NoDup_cons in Hnd as [Hy _]. mem_norm Hx. mem_norm Hy.
    split; [intros ->; tauto|]. split; mem. }
  assert (forall q, q ∈ anc ++ iC -> same_at t t5 q) as Hsame.
  { intros q Hq. destruct (Hs1 q (Hne q Hq)) as (C1 & C2 & C3). unfold same_at.
    rewrite B1, B4, B7, C1, C3, <-C2. split; [done|]. split; [|done].
    rewrite !lookup_insert_ne; [done|intros ->; done|intros ->; done]. }
  assert (fresh_leaves t5 !! nl' = Some (unlinked lh) /\ fresh_leaves t5 !! nr' = Some (unlinked rh)) as [Hfl Hfr'].
  { rewrite B7. rewrite lookup_insert_eq, lookup_insert_ne, lookup_insert_eq by done. done. }
  assert (caches_wf t5 (anc ++ iC ++ [nl'; nr']) P) as Hcw5.
  { destruct Hcw1 as (Hc1 & Hc2 & Hc3 & Hc4). unfold caches_wf, caches_in. rewrite B4, B5, B6, B7.
    split_and!; [| |done|done].
    - intros p [Hp|Hp]; [specialize (Hc1 p (or_introl Hp)); mem in Hc1|].
      apply lookup_insert_is_Some' in Hp as [->|Hp]; [mem|]. apply lookup_insert_is_Some' in Hp as [->|Hp]; [mem|].
      specialize (Hc1 p (or_intror Hp)). mem in Hc1.
    - intros p Hp. apply lookup_insert_is_Some' in Hp as [<-|Hp]; [split; [by apply (caches_in_none t1' _ _ Hc1)|done]|].
      apply lookup_insert_is_Some' in Hp as [<-|Hp]; [split; [by apply (caches_in_none t1' _ _ Hc1)|done]|]. by apply Hc2. }
  assert (page_size t5 = page_size t) as Hz5 by congruence.
  assert (root_page_id t5 = root_page_id t) as Hr5 by congruence.
  split; [|split_and!; (done || congruence)].
  unfold walk, page_size_ok in *. rewrite Hz5, Hr5. split; [done|].
  split; [by apply (ctx_frame K t)|].
  split.
  { intros Hin. apply (NoDup_perm _ _ Hperm) in Hnd. apply NoDup_cons in Hnd as [Hx _]. apply Hx. mem in Hin. }
  split.
  { intros a y He. exfalso. destruct He as (Hin & m & (Hf & _) & _).
    apply elem_of_app in Hin as [->%list_elem_of_singleton| ->%list_elem_of_singleton]; congruence. }
  split; [done|]. split; [done|].
  split; [eapply caches_in_sub; [|apply Hcw5]; intros q Hq; mem in Hq|].
  intros p path. rewrite B6, B4. intros Hpath. destruct (Hpa1 p path Hpath) as [Hsome Hlk]. split; [done|].
  rewrite <-(map_id path). eapply (linked_map _ _ _ _ id); [| |exact Hlk].
  - intros a x (He & Ha' & Hx). exists x. split; [|by left]. pose proof He as [Hin _].
    apply (edge_frame t t5 (anc ++ iC ++ [leaf])); [done|apply Hsame; mem in Hin| |exact He].
    intros _. mem in Hin.
  - intros x [-> Hx]. left. done.
Qed.

Lemma propagate_split_up_loop anc leaf nl nr sep t :
  propagate_split_up (reverse anc ++ [leaf]) nl nr sep t = propagate_loop anc leaf nl sep nr t.
Proof. unfold propagate_split_up. by rewrite reverse_app, reverse_involutive. Qed.

(** What [put_at_path] does with a leaf that no longer fits. *)
Lemma put_split_ok t H anc leaf lo hi kL kR iC fr l X P n mono lh rh sep v rest :
  focus t H anc leaf lo hi kL kR iC fr l X P (S (S (2 * length anc + S n))) ->
  split_leaf (length (records l)) l mono (page_size t) = Some (Ok (lh, rh, sep)) ->
  records l = records lh ++ records rh -> records lh <> [] -> records rh = (sep, v) :: rest ->
  leaf_wf l -> Forall (fun r : leaf_record => in_range lo hi r.1 /\ blen r.1 <= K) (records l) ->
  leaf_fits lh (page_size t) = true -> leaf_fits rh (page_size t) = true ->
  small_values (page_size t) (kL ++ records l ++ kR) ->
  exists t' H' ids',
    (do! leaf' := take_cached_leaf leaf fr in
     do! new_leaf_page := allocate_page in
     do! '(left_half, right_half, sep_key) := split_leaf_m leaf' mono in
     do! right_page := allocate_page in
     do! _ := modify (with_fresh (<[new_leaf_page := unlinked left_half]>)) in
     do! _ := modify (with_fresh (<[right_page := unlinked right_half]>)) in
     do! _ := free_page leaf in
     do! _ := propagate_split_up (reverse anc ++ [leaf]) new_leaf_page right_page sep_key in
     ret true) t = (Ok true, t') /\
    session t' H' (kL ++ records l ++ kR) ids' X P n /\ (H' <= S H)%nat /\ page_size t' = page_size t /\
    (forall q, q ∈ P \/ q ∈ X -> bt_pages t' !! q = bt_pages t !! q) /\
    (hi = None -> exists r, last ids' = Some r /\ leaf_at t' r (unlinked rh)).
Proof.
  intros Hfo Hsp Hrec Hlne Hrh Hwf Hf Hfl Hfr Hsm.
  destruct (take_cached_leaf_ok _ _ _ _ _ _ _ _ _ _ _ _ _ _ Hfo) as (t1 & Htk & _ & Hz1 & _ & Hsa1 & _).
  pose proof Hfo as (Hps & Hroom & _ & Ha & _). apply (alloc_ok_same _ _ t1) in Ha; [|done].
  destruct (allocate_page_ok _ _ _ _ Ha) as (nl & t2 & Hal1 & HP1 & Ha2 & Hsc2).
  destruct (allocate_page_ok _ _ _ _ Ha2) as (nr & t3 & Hal2 & HP2 & Ha3 & Hsc3).
  destruct (link_halves_ok _ _ _ _ _ _ _ _ _ _ _ _ _ _ t1 t2 t3 nl nr lh rh Hfo Htk Hal1 Hal2)
    as (t4 & Hrun & Hw & Hfnl & Hfnr & Hb4 & Hz4 & Hcw4).
  rewrite <-Hz4 in Hfl, Hfr.
  destruct (halves_rep t4 lo hi l lh rh sep v rest nl nr Hrec Hlne Hrh Hwf Hf Hfl Hfr Hfnl Hfnr)
    as (Hrl & Hrr & HK).
  destruct (propagate_loop_ok K X P n anc t4 H 0 leaf lo hi kL kR iC nl nr sep _ _ [nl] [nr] Hw Hrl Hrr HK)
    as (W & t' & Hprop & H' & ids' & Hle & Hrep & Hids & HWP & Ha' & Hca & Hstep & Hpo & Hedge).
  { rewrite Hz4. apply Hroom. }
  pose proof Hstep as (Hpg & Hz & Hd' & Hf' & Hs' & _ & _ & Hdom').
  exists t', H', ids'. split.
  { unfold bind. rewrite Htk, Hal1. unfold split_leaf_m.
    replace (page_size t2) with (page_size t) by (destruct Hsc2 as (_ & _ & -> & _); congruence). rewrite Hsp, Hal2.
    unfold link_halves, bind in Hrun. cbn [modify] in *. unfold modify in *. rewrite Hrun.
    by rewrite propagate_split_up_loop, Hprop. }
  split.
  { constructor.
    - unfold page_size_ok. rewrite Hz, Hz4. exact Hps.
    - by rewrite Hz, Hz4.
    - rewrite Hrec, <-app_assoc. exact Hrep.
    - by rewrite Hz, Hz4.
    - done.
    - destruct Hcw4 as (C1 & C2 & C3 & C4). unfold caches_wf, caches_in. rewrite Hd', Hf', Hs', Hdom'.
      split_and!; try done. intros p Hp. rewrite Hids. pose proof (C1 p Hp) as Hin.
      assert (p ∈ ids' ++ X) as Hin' by (apply Hca; rewrite Hd', Hf'; done).
      apply elem_of_app in Hin' as [?|HX]; [by rewrite <-Hids|]. exfalso.
      destruct Hw as (_ & _ & _ & _ & _ & Hax & _). apply alloc_ok_nodup in Hax.
      assert (NoDup ((anc ++ iC ++ [nl; nr]) ++ X)) as (_ & Hdj & _)%NoDup_app by (by rewrite <-!app_assoc).
      by apply (Hdj p).
    - done. }
  split; [done|]. split; [congruence|]. split.
  { intros q Hq. rewrite <-Hb4. destruct (Hpg q) as [HW|?]; [|done]. exfalso.
    destruct Hq as [HqP|HqX]; [by apply (HWP q HW)|].
    apply alloc_ok_nodup, NoDup_app in Ha' as (_ & Hdj & _). apply (Hdj q); [|done]. rewrite Hids. mem. }
  intros Hn. exists nr. split; [by apply Hedge|]. left. by rewrite Hf'.
Qed.

(** ** What an upsert does to the leaf in focus *)

Lemma rec_map_context_insert {V} (l1 l l' l2 : list (bytes * V)) q v :
  Forall (fun k => k <ₖ q) l1.*1 -> rec_map l' = <[q := v]> (rec_map l) ->
  rec_map (l1 ++ l' ++ l2) = <[q := v]> (rec_map (l1 ++ l ++ l2)).
Proof.
  intros H1 Hm. rewrite !rec_map_app, Hm, <-insert_union_l. symmetry. apply insert_union_r. by apply rec_map_lt.
Qed.
Lemma rec_map_context_delete {V} (l1 l l' l2 : list (bytes * V)) q :
  Forall (fun k => k <ₖ q) l1.*1 -> Forall (fun k => q <ₖ k) l2.*1 ->
  rec_map l' = delete q (rec_map l) ->
  rec_map (l1 ++ l' ++ l2) = delete q (rec_map (l1 ++ l ++ l2)).
Proof.
  intros H1 H2 Hm. rewrite !rec_map_app, Hm, !delete_union.
  rewrite (delete_id (rec_map l1)), (delete_id (rec_map l2)); [done|by apply rec_map_gt|by apply rec_map_lt].
Qed.

(** Facts about a leaf that hold of its records one by one. *)
Definition record_ok (ps : Z) (lo hi : bound) (r : leaf_record) : Prop :=
  in_range lo hi r.1 /\ blen r.1 <= K /\ value_wf r.2 /\
  encoded_size r.2 <= inline_value_threshold ps + 2.

Lemma upsert_records_ok l q v ps lo hi :
  leaf_wf l -> record_ok ps lo hi (q, v) -> Forall (record_ok ps lo hi) (records l) ->
  let l' := (leaf_upsert l q v).1 in
  leaf_wf l' /\ Forall (record_ok ps lo hi) (records l') /\
  leaf_map l' = <[q := v]> (leaf_map l) /\ (leaf_upsert l q v).2.2 = leaf_map l !! q.
Proof.
  intros (Hs & Hls & Hrs & Hv) Hok Hf l'.
  destruct (leaf_upsert l q v) as [l0 [is_new old]] eqn:Hu. simpl in l'. subst l'.
  destruct (leaf_upsert_spec l q v l0 is_new old Hs Hu) as (Hs' & Hm & Ho & _ & E1 & E2).
  destruct (leaf_upsert_records l q v Hs) as (l1 & l2 & Hr & _ & _ & Hor). rewrite Hu in Hr. simpl in Hr.
  assert (Forall (record_ok ps lo hi) (l1 ++ (q, v) :: l2)) as Hf'.
  { destruct Hor as [Hor|[w Hor]]; rewrite Hor in Hf; apply Forall_app in Hf as [? Hf2];
      apply Forall_app; (split; [done|]); constructor; try done. by apply Forall_cons in Hf2 as [_ ?]. }
  rewrite <-Hr in Hf'. split; [|by split_and!]. unfold leaf_wf. rewrite E1, E2.
  split; [done|]. split; [done|]. split; [done|].
  apply Forall_fmap. eapply Forall_impl; [exact Hf'|]. by intros r (_ & _ & ? & _).
Qed.

Lemma records_fit_one q v ps lo hi :
  room ps -> record_ok ps lo hi (q, v) -> slice_fits [(q, v)] ps = true.
Proof.
  intros ([HK _] & Hroom & Hov) (_ & Hk & _ & He). simpl in *.
  unfold slice_fits. apply Z.leb_le. unfold leaf_needed, records_size, record_size, saturating_sub, HEADER_LEN.
  simpl. pose proof (blen_nonneg q). unfold OVERFLOW_REF_ENCODED_SIZE in Hov. lia.
Qed.

Lemma records_fit_two l q v ps lo hi :
  room ps -> record_ok ps lo hi (q, v) -> Forall (record_ok ps lo hi) (records l) ->
  Forall (fun r => raw_size (q, v) + raw_size r + 28 <= body_capacity ps) (records l).
Proof.
  intros (_ & Hroom & _) (_ & Hk & _ & He) Hf. eapply Forall_impl; [exact Hf|].
  intros r (_ & Hkr & _ & Her). unfold raw_size. simpl in *. lia.
Qed.

(** ** Opening the leaf of a key *)

Lemma session_nodup t H kvs ids X P n : session t H kvs ids X P n -> NoDup ids /\ ~ (0 ∈ ids).
Proof.
  intros [_ _ _ _ Ha _ _]. split.
  - apply alloc_ok_nodup, NoDup_app in Ha. tauto.
  - intros H0. pose proof (alloc_ok_bound _ _ _ _ 0 Ha) as Hb. ospecialize (Hb _); [mem|lia].
Qed.

(** [covers t ids path lo hi]: in the tree of the pages [ids] the path leads to a
    leaf for the keys of [lo, hi). *)
Definition covers (t : BTree) (ids path : list Z) (lo hi : bound) : Prop :=
  exists H anc leaf kL kR iC kvs, path = reverse anc ++ [leaf] /\
    ctx t (root_page_id t) H anc 0 leaf lo hi kL kR iC /\ rep t 0 leaf lo hi kvs [leaf] /\
    anc ++ iC ++ [leaf] ≡ₚ ids.

Lemma records_in_range ps lo hi rs :
  Forall (record_ok ps lo hi) rs -> Forall (fun r : leaf_record => in_range lo hi r.1 /\ blen r.1 <= K) rs.
Proof. intros Hf. eapply Forall_impl; [exact Hf|]. by intros r (? & ? & _). Qed.
Lemma focus_covers t H anc leaf lo hi kL kR iC fr l X P n ids q :
  focus t H anc leaf lo hi kL kR iC fr l X P n -> leaf_wf l -> leaf_fits l (page_size t) = true -> in_range lo hi q ->
  Forall (record_ok (page_size t) lo hi) (records l) -> ids ≡ₚ anc ++ iC ++ [leaf] ->
  covers t ids (reverse anc ++ [leaf]) lo hi.
Proof.
  intros (_ & _ & Hc & _ & _ & _ & Hl & _) Hwf Hfit Hq Hf Hids. exists H, anc, leaf, kL, kR, iC, (records l).
  split; [done|]. split; [done|]. split; [|done]. exists l. split; [done|]. split; [done|]. split; [done|].
  split; [done|]. split; [done|]. split; [by eapply in_range_blt|by eapply records_in_range].
Qed.

(** The last leaf ends with [key]. *)
Definition ends_with (t : BTree) (ids : list Z) (key : bytes) : Prop :=
  exists leaf l, last ids = Some leaf /\ leaf_at t leaf l /\ fst <$> last (records l) = Some key.

Lemma last_max {V} (l l' : list (bytes * V)) q v :
  keys_sorted l'.*1 -> rec_map l' = <[q := v]> (rec_map l) -> (forall k, k ∈ l.*1 -> k <ₖ q) -> fst <$> last l' = Some q.
Proof.
  intros Hs Hm Hlt. assert ((q, v) ∈ l') as Hq by (apply rec_map_Some; [done|]; by rewrite Hm, lookup_insert_eq).
  destruct l' as [|[k w] l' _] using rev_ind; [by apply elem_of_nil in Hq|].
  rewrite last_snoc. simpl. f_equal. destruct (decide (k = q)) as [|Hne]; [done|]. exfalso.
  assert (k <ₖ q) as Hkq.
  { apply Hlt. assert (rec_map l !! k = Some w) as Hk.
    { rewrite <-(lookup_insert_ne _ q k v), <-Hm by done. apply rec_map_Some; [done|]. mem. }
    destruct (decide (k ∈ l.*1)) as [|Hn]; [done|]. apply rec_map_None in Hn. congruence. }
  rewrite fmap_app in Hs. apply sorted_app in Hs as (_ & _ & Hs).
  apply elem_of_app in Hq as [Hq|Hq%list_elem_of_singleton]; [|congruence].
  apply (key_lt_irrefl k). eapply key_lt_trans; [exact Hkq|]. apply Hs; [|by left].
  by apply (list_elem_of_fmap_2 fst _ (q, v)).
Qed.

(** The leaf that covers [q] is found, and cached for writing. *)
Lemma open_leaf_ok t H kvs ids X P n q :
  session t H kvs ids X P n ->
  exists anc leaf lo hi kL kR iC l t1,
    let fr := bool_decide (is_Some (fresh_leaves t !! leaf)) in
    path_to_leaf_for_key t q = Ok (reverse anc ++ [leaf]) /\
    (if fr then ret tt else ensure_leaf_dirty leaf (reverse anc ++ [leaf])) t = (Ok tt, t1) /\
    focus t1 H anc leaf lo hi kL kR iC fr l X P n /\
    bt_pages t1 = bt_pages t /\ page_size t1 = page_size t /\ kvs = kL ++ records l ++ kR /\
    in_range lo hi q /\ length anc = H /\
    leaf_wf l /\ leaf_fits l (page_size t) = true /\
    Forall (record_ok (page_size t) lo hi) (records l) /\
    Forall (fun k => k <ₖ q) kL.*1 /\ Forall (fun k => q <ₖ k) kR.*1 /\ covers t ids (reverse anc ++ [leaf]) lo hi.
Proof.
  intros Hse. destruct (session_nodup _ _ _ _ _ _ _ Hse) as [Hnd H0]. pose proof Hse as [Hps Hroom Hrep Hsm Ha Hcw Hpo].
  destruct (path_to_leaf_ok K t H kvs ids q Hps Hrep Hnd H0)
    as (anc & leaf & lo & hi & kL & kR & iC & l & Hpath & Hctx & Hrl & Hl & Hq & Hk & Hids).
  assert (exists t1, (if bool_decide (is_Some (fresh_leaves t !! leaf)) then ret tt
      else ensure_leaf_dirty leaf (reverse anc ++ [leaf])) t = (Ok tt, t1) /\
    focus t1 H anc leaf lo hi kL kR iC (bool_decide (is_Some (fresh_leaves t !! leaf))) l X P n /\
    bt_pages t1 = bt_pages t /\ page_size t1 = page_size t) as (t1 & Hrun & Hfo & Hb & Hz).
  { case_bool_decide as Hfr.
    - exists t. split; [done|]. split; [|done]. split_and!; try done.
      + rewrite <-Hids, <-!app_assoc in Ha. done.
      + eapply caches_wf_sub; [|exact Hcw]. intros p. by rewrite Hids.
      + eapply paths_ok_sub; [|exact Hpo]. intros p. by rewrite Hids.
      + destruct Hfr as [l' Hfr]. by destruct Hl as [?|[? _]]; [|congruence].
    - apply eq_None_not_Some in Hfr. by apply (ensure_leaf_dirty_ok t H kvs anc leaf lo hi kL kR iC l ids X P n). }
  destruct (ctx_sides K t _ _ _ _ _ _ _ _ _ _ q Hctx Hq) as [HkL HkR].
  pose proof (ctx_height K _ _ _ _ _ _ _ _ _ _ _ Hctx) as Hh.
  pose proof Hrl as (l' & Hl' & Hreq & _ & Hwf & Hfit & _ & Hf).
  assert (l' = l) as ->.
  { destruct Hl as [Hl|(Hn & b & l0 & Hb' & _ & Hd & ->)], Hl' as [Hl'|(Hn' & b' & l0' & Hb2 & _ & Hd' & ->)]; congruence. }
  rewrite <-Hk in Hsm. unfold small_values in Hsm. rewrite !Forall_app in Hsm. destruct Hsm as (_ & Hsm & _).
  exists anc, leaf, lo, hi, kL, kR, iC, l, t1. split_and!; try done; [lia| |by exists H, anc, leaf, kL, kR, iC, (records l)].
  destruct Hwf as (_ & _ & _ & Hv). rewrite Forall_fmap in Hv. rewrite Forall_forall in Hf, Hv, Hsm.
  apply Forall_forall. intros r Hr. destruct (Hf r Hr). split; [done|]. split; [done|]. split; [by apply Hv|by apply Hsm].
Qed.

(** ** Releasing the value that was replaced *)

Lemma free_pages_ok n P : forall ids t us,
  alloc_ok n t (ids ++ us) P ->
  exists t', free_pages ids t = (Ok tt, t') /\ alloc_ok n t' us P /\ same_content t t'.
Proof.
  induction ids as [|p ids IH]; intros t us Ha; simpl in *; [by exists t|].
  destruct (free_page_ok _ _ _ _ _ Ha) as (t1 & Hf & Ha1 & Hc1).
  destruct (IH t1 us Ha1) as (t2 & Hf2 & Ha2 & Hc2).
  exists t2. unfold bind. rewrite Hf. split; [done|]. split; [done|]. by eapply same_content_trans.
Qed.

Lemma focus_content t t' H anc leaf lo hi kL kR iC fr l X X' P n n' :
  same_content t t' -> alloc_ok n' t' (anc ++ iC ++ leaf :: X') P ->
  focus t H anc leaf lo hi kL kR iC fr l X P n -> focus t' H anc leaf lo hi kL kR iC fr l X' P n'.
Proof.
  intros Hsc Ha (Hps & Hroom & Hctx & _ & Hcw & Hpo & Hl & Hc).
  pose proof Hsc as (E1 & E2 & E3 & E4 & E5 & E6 & E7 & _).
  unfold focus, page_size_ok, caches_wf, caches_in in *. rewrite E2, E3, E4, E5, E6, E7.
  split; [done|]. split; [done|].
  split; [apply (ctx_frame K t); [done| |done]; intros; by apply same_content_at|].
  split; [done|]. split; [done|].
  split; [apply (paths_ok_frame t); try done; [intros; by apply same_content_at|by rewrite E4]|].
  split; [apply (leaf_at_frame t); [done|by apply same_content_at|done]|done].
Qed.

(** The pages a stored value owns besides its record. *)
Definition owned (st : Store) (o : option LeafValue) (ids : list Z) : Prop :=
  match o with
  | Some (Leaf.Overflow len root) => exists b, chain st root 1 b ids /\ blen b = len
  | _ => ids = []
  end.

Lemma with_pages_id t : with_pages (fun _ => bt_pages t) t = t.
Proof. by destruct t. Qed.

(** The pages of a released chain, the page taken for a copy included, go back
    to the allocator. *)
Lemma release_ok t us root len ids P n (cleanup : Z -> M unit) :
  alloc_ok (S n) t (ids ++ us) P -> owned (bt_pages t) (Some (Leaf.Overflow len root)) ids ->
  exists t', (do! new_cow_page := allocate_page in
     do! r := on_err (release_chain root new_cow_page) (cleanup new_cow_page) in
     apply_release_result root new_cow_page r) t = (Ok tt, t') /\
    alloc_ok n t' us P /\ same_content t t'.
Proof.
  intros Ha (v & Hch & Hlen).
  destruct (allocate_page_ok _ _ _ _ Ha) as (p & t1 & Hal & HP & Ha1 & Hc1).
  assert (release_chain root p t1 = (Ok (Freed ids), t1)) as Hrel.
  { unfold release_chain. pose proof Hc1 as (-> & _ & -> & _).
    rewrite (release_last _ _ _ _ _ _ _ Hch) by lia. pose proof Hc1 as (<- & _). by rewrite with_pages_id. }
  assert (p :: ids ++ us ≡ₚ ids ++ p :: us) as Hperm by solve_Permutation. rewrite Hperm in Ha1.
  destruct (free_pages_ok _ _ _ _ _ Ha1) as (t2 & Hf2 & Ha2 & Hc2).
  destruct (free_page_ok _ _ _ _ _ Ha2) as (t3 & Hf3 & Ha3 & Hc3).
  exists t3. unfold bind, on_err. rewrite Hal, Hrel. unfold apply_release_result, bind. rewrite Hf2, Hf3.
  split; [done|]. split; [done|]. eapply same_content_trans; [done|]. by eapply same_content_trans.
Qed.
Lemma small_values_of ps lo hi rs kL kR l :
  Forall (record_ok ps lo hi) rs -> small_values ps (kL ++ l ++ kR) -> small_values ps (kL ++ rs ++ kR).
Proof.
  unfold small_values. rewrite !Forall_app. intros Hf (? & _ & ?). split; [done|]. split; [|done].
  eapply Forall_impl; [exact Hf|]. by intros r (_ & _ & _ & ?).
Qed.
Lemma release_replaced_ok t H anc leaf lo hi kL kR iC fr l X P n q o old :
  focus t H anc leaf lo hi kL kR iC fr l (old ++ X) P (S n) -> owned (bt_pages t) o old ->
  exists t', release_replaced leaf fr q o t = (Ok tt, t') /\
    focus t' H anc leaf lo hi kL kR iC fr l X P n /\ same_content t t'.
Proof.
  intros Hfo How. pose proof Hfo as (_ & _ & _ & Ha & _).
  assert (old = [] -> exists t', ret tt t = (Ok tt, t') /\
    focus t' H anc leaf lo hi kL kR iC fr l X P n /\ same_content t t') as Hnil.
  { intros ->. exists t. split; [done|]. split; [|done]. eapply focus_content; [done| |exact Hfo].
    eapply alloc_ok_le; [|exact Ha]. lia. }
  destruct o as [[v|len root]|]; [by apply Hnil| |by apply Hnil].
  assert (anc ++ iC ++ leaf :: old ++ X ≡ₚ old ++ anc ++ iC ++ leaf :: X) as Hperm by solve_Permutation.
  rewrite Hperm in Ha. unfold release_replaced.
  edestruct (release_ok t (anc ++ iC ++ leaf :: X) root len old P n) as (t' & Hrun & Ha' & Hc'); [done|done|].
  exists t'. split; [exact Hrun|]. split; [|done]. by eapply focus_content.
Qed.

(** [put_at_path] on the path of its key: the binding changes, and nothing
    else; pages in use elsewhere and protected pages keep their contents. *)
Lemma put_at_path_ok t H kvs ids X P n q v old :
  session t H kvs ids (old ++ X) P (2 * H + 4 + n) ->
  blen q <= K -> value_wf v -> encoded_size v <= inline_value_threshold (page_size t) + 2 ->
  owned (bt_pages t) (rec_map kvs !! q) old ->
  exists path b t' H' kvs' ids', path_to_leaf_for_key t q = Ok path /\
    put_at_path path q v t = (Ok b, t') /\ session t' H' kvs' ids' X P n /\ (H' <= S H)%nat /\
    rec_map kvs' = <[q := v]> (rec_map kvs) /\ page_size t' = page_size t /\
    (forall p, p ∈ P \/ p ∈ X -> bt_pages t' !! p = bt_pages t !! p) /\
    exists lo hi, in_range lo hi q /\ covers t ids path lo hi /\ (b = false -> covers t' ids' path lo hi) /\
      (hi = None -> (forall k, k ∈ kvs.*1 -> k <ₖ q) -> ends_with t' ids' q).
Proof.
  intros Hse HqK Hv Hev Hno.
  destruct (open_leaf_ok _ _ _ _ _ _ _ q Hse)
    as (anc & leaf & lo & hi & kL & kR & iC & l & t1 & Hpath & Hrun & Hfo & Hb & Hz & -> & Hq & Hh & Hwf & Hfit & Hf & HkL & HkR & Hcov).
  set (fr := bool_decide (is_Some (fresh_leaves t !! leaf))) in *.
  pose proof (session_room _ _ _ _ _ _ _ Hse) as Hroom. pose proof (session_values _ _ _ _ _ _ _ Hse) as Hsm.
  assert (record_ok (page_size t) lo hi (q, v)) as Hok by done.
  destruct (upsert_records_ok l q v (page_size t) lo hi Hwf Hok Hf) as (Hwf' & Hf' & Hm & Hold).
  rewrite rec_map_context in Hno by done.
  assert (cached_leaf leaf fr t1 = (Ok l, t1)) as Hcl.
  { unfold cached_leaf, gets. destruct Hfo as (_ & _ & _ & _ & _ & _ & _ & Hc). destruct fr; [by rewrite Hc|].
    destruct Hc as [_ ->]. done. }
  exists (reverse anc ++ [leaf]). unfold put_at_path, path_leaf. rewrite last_snoc.
  unfold bind at 1, lift. unfold bind at 1, gets at 1. fold fr. unfold bind at 1. rewrite Hrun.
  unfold bind at 1. rewrite Hcl. destruct (leaf_upsert l q v) as [l' [is_new oldv]] eqn:Hu. simpl in Hwf', Hf', Hm, Hold.
  apply (focus_set _ _ _ _ _ _ _ _ _ _ _ l') in Hfo. unfold bind at 1, modify. set (t2 := set_cached_leaf leaf fr l' t1) in *.
  assert (page_size t2 = page_size t) as Hz2 by (rewrite <-Hz; unfold t2, set_cached_leaf; by destruct fr).
  assert (bt_pages t2 = bt_pages t) as Hb2 by (rewrite <-Hb; unfold t2, set_cached_leaf; by destruct fr).
  unfold bind at 1, gets at 1. rewrite Hz2. unfold bind at 1.
  change (rec_map (records l)) with (leaf_map l) in Hno. rewrite <-Hold, <-Hb2 in Hno.
  replace (2 * H + 4 + n)%nat with (S (2 * H + 3 + n)) in Hfo by lia.
  destruct (release_replaced_ok _ _ _ _ _ _ _ _ _ _ _ _ _ _ q oldv old Hfo Hno) as (t3 & Hrel & Hfo3 & Hsc3).
  rewrite Hrel. pose proof (small_values_of _ _ _ _ _ _ _ Hf' Hsm) as Hsm'. clear Hfo.
  pose proof Hsc3 as (E1 & _ & E3 & _). rewrite <-E3 in Hz2. rewrite <-E1 in Hb2.
  pose proof (rec_map_context_insert kL (records l) (records l') kR q v HkL Hm) as Hmap.
  assert ((forall k, k ∈ (kL ++ records l ++ kR).*1 -> k <ₖ q) -> fst <$> last (records l') = Some q) as Hmax.
  { intros Hlt. eapply last_max; [apply Hwf'|exact Hm|]. intros k Hin. apply Hlt. rewrite !fmap_app. mem. }
  destruct (leaf_fits l' (page_size t)) eqn:Hfit'.
  - destruct (focus_session _ _ _ _ _ _ _ _ _ _ _ _ _ _ Hfo3) as (ids' & Hse' & Hids' & Hlast');
      [done|by rewrite Hz2|by eapply in_range_blt|by eapply records_in_range|by rewrite Hz2|].
    exists false, t3, H, (kL ++ records l' ++ kR), ids'. split; [done|]. split; [done|].
    split; [|split; [lia|rewrite Hb2; split; [done|]; split; [done|]; split; [done|]]].
    2: { exists lo, hi. split; [done|]. split; [done|].
         split; [intros _; by eapply focus_covers; [exact Hfo3|rewrite ?Hz2..]|].
         intros Hn Hlt. exists leaf, l'. split; [by apply Hlast'|]. destruct Hfo3 as (_ & _ & _ & _ & _ & _ & ? & _).
         split; [done|]. by apply Hmax. }
    destruct Hse' as [? ? ? ? Ha' ? ?]. constructor; try done. eapply alloc_ok_le; [|exact Ha']. lia.
  - destruct Hwf as (Hs & _).
    pose proof (upsert_feasible l q v (page_size t)) as Hfe. rewrite Hu in Hfe. cbv zeta in Hfe. simpl in Hfe.
    destruct Hfe as (Hs' & s0 & Hin & Hsl & Hsr); [done..|by eapply records_fit_one|by eapply records_fit_two|].
    destruct (split_leaf_feasible (length (records l')) l' (is_monotonic l q) (page_size t) s0 Hs' Hin Hsl Hsr)
      as (lh & rh & sep & Hsp & Hrec & Hne & (v0 & rest & Hrh) & Hfl & Hfr & _); [done|].
    rewrite <-Hz2 in Hsp, Hfl, Hfr, Hsm'.
    destruct (put_split_ok t3 H anc leaf lo hi kL kR iC fr l' X P n (is_monotonic l q) lh rh sep v0 rest)
      as (t' & H' & ids' & Hput & Hse' & Hle & Hz' & Hpg & Hedge); try done.
    { replace (S (S (2 * length anc + S n))) with (2 * H + 3 + n)%nat by lia. done. }
    { by eapply records_in_range. }
    exists true, t', H', (kL ++ records l' ++ kR), ids'. split; [done|]. split; [exact Hput|]. split; [exact Hse'|]. split; [done|].
    split; [done|]. split; [congruence|]. split; [intros p Hp; rewrite <-Hb2; by apply Hpg|].
    exists lo, hi. split; [done|]. split; [done|]. split; [done|]. intros Hn Hlt. destruct (Hedge Hn) as (r & Hr & Hlr).
    exists r, (unlinked rh). split; [done|]. split; [done|]. rewrite <-(Hmax Hlt), Hrec, Hrh. cbn [records unlinked].
    by rewrite last_app_cons, Hrh.
Qed.
End put.
