(* ===== verification/TreeOps.v ===== *)
(** * TreeOps: the B+ tree implements a finite map

    [get], [put] and [delete] on a session against a map from keys to values,
    overflow values included. *)

From S2P Require Import Prelude Keys Errors PageFormat Node Leaf Internal Split Store Overflow Tree TreeWrite TreeRep TreeAlloc TreeCow TreePropagate TreeSplitUp TreeSplitRoot TreePut.
From Stdlib Require Import ZArith Lia.
From stdpp Require Import base list strings gmap.

Local Open Scope Z_scope.
Local Open Scope pagedb_scope.

(** ** Chains of overflow pages from the session's allocator *)

Lemma session_alloc_ok n t us P :
  alloc_ok (S n) t us P ->
  exists p t', session_alloc t = Ok (p, t') /\ ~ (p ∈ P) /\ alloc_ok n t' (p :: us) P /\ same_content t t'.
Proof.
  intros Ha. destruct (allocate_page_ok _ _ _ _ Ha) as (p & t' & Hal & HP & Ha' & Hc).
  exists p, t'. unfold session_alloc. by rewrite Hal.
Qed.

Lemma session_fresh_ids k n t us P :
  alloc_ok (k + n) t us P -> fresh_ids session_alloc k t /\
  (forall p, p ∈ alloc_ids session_alloc k t -> ~ (p ∈ us)).
Proof.
  revert t us. induction k as [|k IH]; intros t us Ha.
  - split; [|intros p []%elem_of_nil]. split; [done|]. split; [constructor|constructor].
  - destruct (session_alloc_ok _ _ _ _ Ha) as (p & t' & Hal & HP & Ha' & Hc).
    destruct (IH t' (p :: us) Ha') as [(Hlen & Hnd & Hf) Hus].
    unfold fresh_ids. cbn [alloc_ids]. rewrite Hal. split.
    + split; [simpl; lia|]. split; [constructor; [intros Hin; apply (Hus p Hin); by left|done]|].
      constructor; [|done]. pose proof (alloc_ok_bound _ _ _ _ p Ha' ltac:(by left)). lia.
    + pose proof (alloc_ok_nodup _ _ _ _ Ha') as [Hp _]%NoDup_cons.
      intros q [->|Hq]%elem_of_cons; [done|]. intros Hin. apply (Hus q Hq). by right.
Qed.

Lemma allocs_ok n P : forall ids t us t', allocs session_alloc t ids t' ->
  alloc_ok (length ids + n) t us P ->
  alloc_ok n t' (ids ++ us) P /\ same_content t t' /\ (forall p, p ∈ ids -> ~ (p ∈ P)).
Proof.
  intros ids t us t' Has. revert us. induction Has as [t|t p t1 ids t2 Hal _ IH]; intros us Ha; simpl in *.
  - split; [done|]. split; [done|]. intros p []%elem_of_nil.
  - destruct (session_alloc_ok _ _ _ _ Ha) as (p' & t1' & Hal' & HP & Ha' & Hc).
    rewrite Hal in Hal'. simplify_eq. destruct (IH _ Ha') as (Ha2 & Hc2 & HP2).
    split; [eapply alloc_ok_perm; [|done|exact Ha2]; solve_Permutation|].
    split; [by eapply same_content_trans|]. intros q [->|Hq]%elem_of_cons; auto.
Qed.

Section ops.
Context (K : Z).
Local Abbreviation session := (session K).
Local Abbreviation room := (room K).

(** A session under writes to pages outside the tree. *)
Lemma session_frame t t' H kvs ids X X' P n n' :
  session t H kvs ids X P n -> page_size t' = page_size t -> root_page_id t' = root_page_id t ->
  dirty_leaves t' = dirty_leaves t -> fresh_leaves t' = fresh_leaves t ->
  scheduled_frees t' = scheduled_frees t -> dirty_parent_paths t' = dirty_parent_paths t ->
  (forall p, p ∈ ids -> bt_pages t' !! p = bt_pages t !! p) -> alloc_ok n' t' (ids ++ X') P ->
  session t' H kvs ids X' P n'.
Proof.
  intros [Hps Hroom Hrep Hsm Ha Hcw Hpo] E1 E2 E3 E4 E5 E6 Hpg Ha'.
  assert (forall p, p ∈ ids -> same_at t t' p) as Hsame.
  { intros p Hp. unfold same_at. rewrite E3, E4. split; [by apply Hpg|done]. }
  constructor; try (unfold page_size_ok; rewrite ?E1, ?E2; done).
  - rewrite E2. by apply (rep_frame K t).
  - unfold caches_wf, caches_in. by rewrite E3, E4, E5, E6.
  - rewrite E2. apply (paths_ok_frame t); try done; [|by rewrite E3]. intros a y [Hin _]. by apply Hsame.
Qed.

(** What [leaf_value_for] stores for a value. *)
Definition stored (st : Store) (v : LeafValue) (value : bytes) (ids : list Z) : Prop :=
  match v with
  | Inline b => b = value /\ ids = []
  | Leaf.Overflow len root => chain st root 1 value ids /\ blen value = len /\ len <= ISIZE_MAX
  end.

Lemma leaf_value_alloc t us P n value :
  page_size_ok t -> room (page_size t) -> alloc_ok (S (S (length value)) + n) t us P ->
  blen value <= ISIZE_MAX -> OVERFLOW_ROOT_HEADER_LEN + ENVELOPE_OVERHEAD < page_size t ->
  exists v st cids t1, leaf_value_for value t = (Ok v, with_pages (fun _ => st) t1) /\
    same_content t t1 /\ alloc_ok n t1 (cids ++ us) P /\ stored st v value cids /\ value_wf v /\
    encoded_size v <= inline_value_threshold (page_size t) + 2 /\
    (forall p, p ∈ P \/ p ∈ us -> st !! p = bt_pages t !! p).
Proof.
  intros Hps Hroom Ha HV Hpsz. unfold leaf_value_for.
  destruct (Z.ltb_spec (inline_value_threshold (page_size t)) (blen value)) as [Hbig|Hsmall].
  - destruct (session_fresh_ids _ _ _ _ _ Ha) as [Hfr Hus].
    destruct (write_chain_spec session_alloc (page_size t) (bt_pages t) t value)
      as (root & st' & t1 & cids & -> & Hch & Hpre & Hals & Hst); [|done|done|].
    { split; [done|]. destruct Hps as [_ ?]. unfold U16_MAX, U32_MAX, ENVELOPE_OVERHEAD, ENVELOPE_HEADER_LEN, TAG_LEN in *. lia. }
    assert (length cids <= S (S (length value)))%nat as Hlen.
    { destruct Hfr as [<- _]. destruct Hpre as [rest ->]. rewrite length_app. lia. }
    destruct (allocs_ok n P cids t us t1 Hals) as (Ha1 & Hsc & HP).
    { eapply alloc_ok_le; [|exact Ha]. lia. }
    assert (root ∈ cids) as Hroot by (destruct Hch as (? & ? & ? & ? & _ & _ & _ & -> & _); by left).
    pose proof (alloc_ok_bound _ _ _ _ root Ha1 ltac:(mem)) as Hb.
    exists (Leaf.Overflow (blen value) root), st', cids, t1. split; [done|]. split; [done|]. split; [done|].
    split; [done|]. split.
    { split; [split; [apply blen_nonneg|unfold ISIZE_MAX in HV; lia]|]. split; [lia|].
      unfold is_reserved, FIRST_ALLOCATABLE_PAGE_ID. apply Z.ltb_ge. lia. }
    split; [apply Hroom|].
    intros p Hp. apply Hst. intros Hc. destruct Hp as [Hp|Hp]; [by apply (HP p Hc)|].
    apply (Hus p); [|done]. destruct Hpre as [rest ->]. mem.
  - exists (Inline value), (bt_pages t), [], t. rewrite with_pages_id. split; [done|]. split; [done|].
    split; [eapply alloc_ok_le; [|exact Ha]; lia|]. split; [done|]. split; [done|]. split; [simpl; lia|done].
Qed.

Lemma leaf_value_for_ok t H kvs ids X P n value :
  session t H kvs ids X P (S (S (length value)) + n) -> blen value <= ISIZE_MAX ->
  OVERFLOW_ROOT_HEADER_LEN + ENVELOPE_OVERHEAD < page_size t ->
  exists v t' cids, leaf_value_for value t = (Ok v, t') /\
    session t' H kvs ids (cids ++ X) P n /\ stored (bt_pages t') v value cids /\ value_wf v /\
    encoded_size v <= inline_value_threshold (page_size t) + 2 /\ page_size t' = page_size t /\
    (forall p, p ∈ P \/ p ∈ X -> bt_pages t' !! p = bt_pages t !! p) /\
    root_page_id t' = root_page_id t /\ (forall p, p ∈ ids -> same_at t t' p) /\
    append_last_key t' = append_last_key t /\ append_cached_path t' = append_cached_path t.
Proof.
  intros Hse HV Hpsz. pose proof Hse as [Hps Hroom Hrep Hsm Ha Hcw Hpo].
  destruct (leaf_value_alloc t (ids ++ X) P n value Hps Hroom Ha HV Hpsz)
    as (v & st & cids & t1 & Hlv & Hsc & Ha1 & Hst & Hwf & Henc & Hpg).
  pose proof Hsc as (E1 & E2 & E3 & E4 & E5 & E6 & E7 & E8 & E9).
  exists v, (with_pages (fun _ => st) t1), cids. split; [done|]. split.
  { eapply session_frame; [exact Hse|done..| |].
    - intros p Hp. simpl. apply Hpg. right. mem.
    - eapply alloc_ok_same; [|eapply alloc_ok_perm; [|done|exact Ha1]]; [done|]. solve_Permutation. }
  split; [done|]. split; [done|]. split; [done|]. split; [done|].
  split; [intros p Hp; simpl; apply Hpg; destruct Hp; [by left|right; mem]|]. split; [done|]. split.
  - intros p Hp. unfold same_at. simpl. rewrite E4, E7. split; [|done]. apply Hpg. right. mem.
  - done.
Qed.

(** ** The map a session holds *)

(** All pages of overflow chains, by key. *)
Definition all_pages (ch : gmap bytes (list Z)) : list Z := concat (map_to_list ch).*2.

Lemma all_pages_insert ch q c : ch !! q = None -> all_pages (<[q := c]> ch) ≡ₚ c ++ all_pages ch.
Proof. intros Hq. unfold all_pages. by rewrite map_to_list_insert. Qed.
Lemma all_pages_delete ch q : all_pages ch ≡ₚ default [] (ch !! q) ++ all_pages (delete q ch).
Proof.
  destruct (ch !! q) as [c|] eqn:Hq; simpl; [|by rewrite delete_id].
  rewrite <-(insert_delete_id ch q c Hq) at 1. apply all_pages_insert, lookup_delete_eq.
Qed.
Lemma all_pages_replace ch q c :
  all_pages (<[q := c]> ch) ≡ₚ c ++ all_pages (delete q ch).
Proof.
  rewrite <-insert_delete_eq. apply all_pages_insert, lookup_delete_eq.
Qed.
Lemma elem_of_all_pages ch q c p : ch !! q = Some c -> p ∈ c -> p ∈ all_pages ch.
Proof. intros Hq Hp. rewrite (all_pages_delete ch q), Hq. simpl. mem. Qed.

(** Each record stores the value [m] has for its key, in the pages [ch] lists. *)
Definition holds (st : Store) (kvs : list leaf_record) (ch : gmap bytes (list Z))
    (m : gmap bytes bytes) : Prop :=
  forall q, match rec_map kvs !! q with
            | None => ch !! q = None /\ m !! q = None
            | Some v => exists b c, ch !! q = Some c /\ m !! q = Some b /\ stored st v b c
            end.

Lemma chain_frame st st' root rc b ids :
  (forall p, p ∈ ids -> st' !! p = st !! p) -> chain st root rc b ids -> chain st' root rc b ids.
Proof.
  intros Hfr (n & d & ds & ids' & Hr & Hc & Hb & -> & Hnd). exists n, d, ds, ids'. split_and!; try done.
  - unfold read_root_page, read_main_page in *. by rewrite Hfr by (by left).
  - eapply chain_tail_frame; [|exact Hc]. intros p Hp. apply Hfr. by right.
Qed.
Lemma stored_frame st st' v b c :
  (forall p, p ∈ c -> st' !! p = st !! p) -> stored st v b c -> stored st' v b c.
Proof. destruct v; simpl; [done|]. intros Hfr [? ?]. split; [by eapply chain_frame|done]. Qed.

Lemma stored_resolve t v b c : stored (bt_pages t) v b c -> resolve_leaf_value t v = Ok b.
Proof.
  destruct v as [b'|len root]; simpl; [by intros [-> _]|]. intros (Hc & <- & HV).
  by rewrite (read_chain_ok _ _ _ _ _ Hc).
Qed.
Lemma stored_owned st v b c : stored st v b c -> owned st (Some v) c.
Proof. destruct v; simpl; [by intros [_ ?]|]. intros (? & ? & _). eauto. Qed.

Lemma holds_resolve t kvs ch m q :
  holds (bt_pages t) kvs ch m -> resolve t (rec_map kvs !! q) = Ok (m !! q).
Proof.
  intros Hh. specialize (Hh q). destruct (rec_map kvs !! q) as [v|]; simpl.
  - destruct Hh as (b & c & _ & -> & Hst). by rewrite (stored_resolve _ _ _ _ Hst).
  - by destruct Hh as [_ ->].
Qed.

(** Setting and removing one binding. *)
Lemma holds_insert st st' kvs kvs' ch m q v b c :
  holds st kvs ch m -> rec_map kvs' = <[q := v]> (rec_map kvs) -> stored st' v b c ->
  (forall p, p ∈ all_pages (delete q ch) -> st' !! p = st !! p) ->
  holds st' kvs' (<[q := c]> ch) (<[q := b]> m).
Proof.
  intros Hh Hm Hst Hfr q'. rewrite Hm. destruct (decide (q' = q)) as [->|Hne].
  - rewrite !lookup_insert_eq. by exists b, c.
  - rewrite !lookup_insert_ne by done. specialize (Hh q'). destruct (rec_map kvs !! q') as [v'|]; [|done].
    destruct Hh as (b' & c' & Hc' & Hm' & Hst'). exists b', c'. split; [done|]. split; [done|].
    eapply stored_frame; [|exact Hst']. intros p Hp. apply Hfr.
    apply (elem_of_all_pages _ q' c'); [by rewrite lookup_delete_ne|done].
Qed.
Lemma holds_delete st st' kvs kvs' ch m q :
  holds st kvs ch m -> rec_map kvs' = delete q (rec_map kvs) ->
  (forall p, p ∈ all_pages (delete q ch) -> st' !! p = st !! p) ->
  holds st' kvs' (delete q ch) (delete q m).
Proof.
  intros Hh Hm Hfr q'. rewrite Hm. destruct (decide (q' = q)) as [->|Hne].
  - rewrite !lookup_delete_eq. done.
  - rewrite !lookup_delete_ne by done. specialize (Hh q'). destruct (rec_map kvs !! q') as [v'|]; [|done].
    destruct Hh as (b' & c' & Hc' & Hm' & Hst'). exists b', c'. split; [done|]. split; [done|].
    eapply stored_frame; [|exact Hst']. intros p Hp. apply Hfr.
    apply (elem_of_all_pages _ q' c'); [by rewrite lookup_delete_ne|done].
Qed.

(** [tree_map t H m X P n]: the session [t] holds the map [m] in a tree of height
    [H]; the pages [X] belong to others, those of [P] are never written, and [n]
    pages can still be allocated. *)
Definition tree_map (t : BTree) (H : nat) (m : gmap bytes bytes) (X : list Z) (P : gset Z)
    (n : nat) : Prop :=
  root_page_id t = 0 /\ m = ∅ /\ page_size_ok t /\ room (page_size t) /\ alloc_ok n t X P /\
    dirty_leaves t = ∅ /\ fresh_leaves t = ∅ /\ scheduled_frees t = [] /\ dirty_parent_paths t = ∅ \/
  exists kvs ids ch, session t H kvs ids (all_pages ch ++ X) P n /\ holds (bt_pages t) kvs ch m.

(** Pages outside the tree keep their contents. *)
Definition untouched (t t' : BTree) (P : gset Z) (X : list Z) : Prop :=
  forall p, p ∈ P \/ p ∈ X -> bt_pages t' !! p = bt_pages t !! p.

Lemma session_X_perm t H kvs ids X X' P n :
  X ≡ₚ X' -> session t H kvs ids X P n -> session t H kvs ids X' P n.
Proof. intros HX [? ? ? ? Ha ? ?]. constructor; try done. by rewrite <-HX. Qed.

Lemma session_root t H kvs ids X P n : session t H kvs ids X P n -> root_page_id t <> 0.
Proof.
  intros Hse Hr. destruct (session_nodup _ _ _ _ _ _ _ _ Hse) as [_ H0].
  destruct Hse as [_ _ Hrep _ _ _ _]. apply rep_head in Hrep as [ids' ->]. apply H0. rewrite Hr. by left.
Qed.

Lemma get_map t H m X P n q : tree_map t H m X P n -> get t q = Ok (m !! q).
Proof.
  intros [(Hr & -> & _)|(kvs & ids & ch & Hse & Hh)].
  - unfold get. by rewrite Hr.
  - destruct (session_nodup _ _ _ _ _ _ _ _ Hse) as [Hnd H0]. destruct Hse as [Hps _ Hrep _ _ _ _].
    rewrite (get_ok K t H kvs ids q Hps Hrep Hnd H0). by eapply holds_resolve.
Qed.

(** Keys and values short enough pass validation. *)
Lemma validate_ok t key value :
  page_size_ok t -> room (page_size t) -> blen key <= K -> blen value <= ISIZE_MAX ->
  validate_insert_record_fits t key value = Ok tt.
Proof.
  intros Hps ([HK0 Hsr] & Hroom & Hov) HK HV. destruct (cap_usize t Hps) as (Hc1 & _ & _).
  pose proof (blen_nonneg key). pose proof (blen_nonneg value).
  assert (2 * (K + 12) <= body_capacity (page_size t) - 24) by (unfold HEADER_LEN in *; nia).
  unfold validate_insert_record_fits, stored_leaf_value_encoded_size.
  assert (exists sz, (if inline_value_threshold (page_size t) <? blen value then Ok OVERFLOW_REF_ENCODED_SIZE
     else ok_or (checked_add 2 (blen value)) PayloadTooLarge) = Ok sz /\
     0 <= sz <= inline_value_threshold (page_size t) + 2) as (sz & -> & Hsz).
  { unfold OVERFLOW_REF_ENCODED_SIZE, ISIZE_MAX in *. destruct (Z.ltb_spec (inline_value_threshold (page_size t)) (blen value)).
    - eexists. split; [done|]. lia.
    - rewrite checked_add_ok by (unfold USIZE_MAX, U64_MAX; lia). eexists. split; [done|]. lia. }
  unfold single_record_fits_encoded, separator_fits, separator_entry_size, SEPARATOR_RECORD_OVERHEAD,
    SLOT_DIRECTORY_ENTRY_SIZE, HEADER_LEN, OVERFLOW_REF_ENCODED_SIZE in *.
  rewrite !(proj2 (Z.ltb_ge U16_MAX (blen key))) by lia. unfold U16_MAX in *.
  repeat (rewrite checked_add_ok by (unfold USIZE_MAX, U64_MAX; lia); simpl).
  rewrite !(proj2 (Z.leb_le _ _)) by lia. done.
Qed.

(** ** Insertion *)

(** A value is stored and put at the path of its key. *)
Lemma put_value_ok t H kvs ids ch m X P n key value :
  session t H kvs ids (all_pages ch ++ X) P (S (S (length value)) + (2 * H + 4 + n)) ->
  holds (bt_pages t) kvs ch m -> blen key <= K -> blen value <= ISIZE_MAX ->
  OVERFLOW_ROOT_HEADER_LEN + ENVELOPE_OVERHEAD < page_size t ->
  exists v t1 path b t' H' kvs' ids' ch', leaf_value_for value t = (Ok v, t1) /\
    path_to_leaf_for_key t1 key = Ok path /\ put_at_path path key v t1 = (Ok b, t') /\
    session t' H' kvs' ids' (all_pages ch' ++ X) P n /\ holds (bt_pages t') kvs' ch' (<[key := value]> m) /\
    (H' <= S H)%nat /\ page_size t' = page_size t /\ untouched t t' P X /\
    root_page_id t1 = root_page_id t /\ page_size t1 = page_size t /\ (forall p, p ∈ ids -> same_at t t1 p) /\
    append_last_key t1 = append_last_key t /\ append_cached_path t1 = append_cached_path t /\
    exists lo hi, in_range lo hi key /\ covers K t1 ids path lo hi /\ (b = false -> covers K t' ids' path lo hi) /\
      (hi = None -> (forall k, k ∈ kvs.*1 -> k <ₖ key) -> ends_with t' ids' key).
Proof.
  intros Hse Hh HK HV Hpsz.
  destruct (leaf_value_for_ok t H kvs ids _ P _ value Hse HV Hpsz)
    as (v & t1 & cids & Hlv & Hse1 & Hst & Hwf & Henc & Hz1 & Hpg1 & Hr1 & Hs1 & Hk1 & Hp1).
  assert (owned (bt_pages t1) (rec_map kvs !! key) (default [] (ch !! key))) as How.
  { specialize (Hh key). destruct (rec_map kvs !! key) as [v0|]; [|by destruct Hh as [-> _]].
    destruct Hh as (b0 & c0 & Hc0 & _ & Hst0). rewrite Hc0. simpl. eapply stored_owned, stored_frame; [|exact Hst0].
    intros p Hp. apply Hpg1. right. apply elem_of_app. left. by eapply elem_of_all_pages. }
  assert (cids ++ all_pages ch ++ X ≡ₚ default [] (ch !! key) ++ cids ++ all_pages (delete key ch) ++ X) as Hperm.
  { rewrite (all_pages_delete ch key). solve_Permutation. }
  apply (session_X_perm _ _ _ _ _ _ _ _ Hperm) in Hse1.
  rewrite <-Hz1 in Henc.
  destruct (put_at_path_ok K t1 H kvs ids _ P n key v _ Hse1 HK Hwf Henc How)
    as (path & b & t' & H' & kvs' & ids' & Hpath & Hput & Hse' & Hle & Hmap & Hz' & Hpg' & Hcov).
  exists v, t1, path, b, t', H', kvs', ids', (<[key := cids]> ch). split; [done|]. split; [done|]. split; [done|].
  split; [eapply session_X_perm; [|exact Hse']; rewrite all_pages_replace; solve_Permutation|]. split.
  { eapply holds_insert; [exact Hh|done| |].
    * eapply stored_frame; [|exact Hst]. intros p Hp. apply Hpg'. right. mem.
    * intros p Hp. rewrite Hpg' by (right; mem). apply Hpg1. right.
      rewrite (all_pages_delete ch key). mem. }
  split; [done|]. split; [rewrite Hz', Hz1; done|]. split; [|done].
  intros p Hp. rewrite Hpg' by (destruct Hp; [by left|right; mem]). apply Hpg1. destruct Hp; [by left|right; mem].
Qed.

(** [put] into a tree that has a root. *)
Lemma put_ok t H kvs ids ch m X P n key value :
  session t H kvs ids (all_pages ch ++ X) P (S (S (length value)) + (2 * H + 4 + n)) ->
  holds (bt_pages t) kvs ch m -> blen key <= K -> blen value <= ISIZE_MAX ->
  OVERFLOW_ROOT_HEADER_LEN + ENVELOPE_OVERHEAD < page_size t ->
  exists t' H', put key value t = (Ok tt, t') /\ tree_map t' H' (<[key := value]> m) X P n /\
    (H' <= S H)%nat /\ page_size t' = page_size t /\ untouched t t' P X.
Proof.
  intros Hse Hh HK HV Hpsz. unfold put, bind at 1, modify at 1.
  set (t0 := invalidate_append_state t).
  assert (session t0 H kvs ids (all_pages ch ++ X) P (S (S (length value)) + (2 * H + 4 + n))) as Hse0.
  { eapply session_frame; [exact Hse|done..|]. by destruct Hse as [? ? ? ? Ha ? ?]. }
  pose proof Hse0 as [Hps0 Hroom0 _ _ _ _ _].
  unfold bind at 1, gets at 1. rewrite validate_ok by done.
  destruct (put_value_ok t0 H kvs ids ch m X P n key value Hse0 Hh HK HV Hpsz)
    as (v & t1 & path & b & t' & H' & kvs' & ids' & ch' & Hlv & Hpath & Hput & Hse' & Hh' & Hle & Hz & Hu & Hr1 & _).
  unfold bind at 1. rewrite Hlv. unfold bind at 1, gets at 1.
  rewrite (proj2 (Z.eqb_neq _ _)) by (rewrite Hr1; by eapply session_root).
  unfold bind at 1, gets. rewrite Hpath. unfold bind. rewrite Hput. exists t', H'. split; [done|].
  split; [right; by exists kvs', ids', ch'|done].
Qed.

Lemma write_leaf_ok t p l :
  page_size_ok t -> leaf_wf l -> leaf_fits l (page_size t) = true ->
  dirty_leaves t !! p = None -> fresh_leaves t !! p = None ->
  exists body, write_leaf p l t = (Ok tt, with_pages (fun _ => <[p := (PageKind.BTreeLeaf, body)]> (bt_pages t)) t) /\
    leaf_at (with_pages (fun _ => <[p := (PageKind.BTreeLeaf, body)]> (bt_pages t)) t) p l.
Proof.
  intros Hps Hwf Hfit Hd Hf. destruct (cap_usize t Hps) as (Hc1 & _ & Hc3). unfold HEADER_LEN in Hc3.
  unfold leaf_fits, slice_fits in Hfit. apply Z.leb_le in Hfit.
  destruct (leaf_encode_ok l (zeros (body_capacity (page_size t))) Hwf) as (b & He & L & Hdec);
    [rewrite blen_zeros; lia..|].
  rewrite blen_zeros in L by lia.
  exists b. unfold write_leaf, write_page, gets, bind. rewrite He, write_main_page_ok by done. split; [done|].
  right. split; [done|]. exists b, l. simpl. rewrite lookup_insert_eq, Hd. done.
Qed.

(** The first record of an empty tree. *)
Lemma put_first_ok t X P n key v :
  page_size_ok t -> room (page_size t) -> alloc_ok (S n) t X P ->
  dirty_leaves t = ∅ -> fresh_leaves t = ∅ -> scheduled_frees t = [] -> dirty_parent_paths t = ∅ ->
  blen key <= K -> value_wf v -> encoded_size v <= inline_value_threshold (page_size t) + 2 ->
  exists root t', put_first key v t = (Ok root, t') /\ session t' 0 [(key, v)] [root] X P n /\ page_size t' = page_size t /\
    (forall p, p ∈ P \/ p ∈ X -> bt_pages t' !! p = bt_pages t !! p).
Proof.
  intros Hps Hroom Ha Hd Hf Hsch Hpa HK Hwf Henc.
  destruct (allocate_page_ok _ _ _ _ Ha) as (root & t1 & Hal & HP & Ha1 & Hsc).
  pose proof Hsc as (E1 & E2 & E3 & E4 & E5 & E6 & E7 & _).
  set (l := (leaf_upsert leaf_new key v).1).
  assert (records l = [(key, v)]) as Hrec by done.
  assert (leaf_wf l) as Hwl.
  { unfold leaf_wf, leaf_sorted. rewrite Hrec. simpl. split_and!; try done; repeat constructor; done. }
  assert (leaf_fits l (page_size t1) = true) as Hfit.
  { unfold leaf_fits. rewrite Hrec, E3. apply (records_fit_one K key v (page_size t) None None); [done|]. done. }
  destruct (write_leaf_ok t1 root l) as (body & Hw & Hl); [|done|done|by rewrite E4, Hd|by rewrite E7, Hf|].
  { unfold page_size_ok. by rewrite E3. }
  set (t2 := with_pages _ _) in *.
  exists root, (with_root root t2). unfold put_first, bind, modify, ret. rewrite Hal. fold l. rewrite Hw. split; [done|]. split.
  - constructor; simpl; rewrite ?E3; try done.
    + unfold page_size_ok. simpl. by rewrite E3.
    + exists l. split; [done|]. split; [done|]. split; [done|]. split; [done|]. split; [by rewrite <-E3|].
      split; [done|]. repeat constructor. done.
    + repeat constructor. done.
    + unfold caches_wf, caches_in. simpl. rewrite E4, E5, E6, E7, Hd, Hf, Hsch, Hpa. split_and!.
      * intros p [[? ?]|[? ?]]; done.
      * by intros p [? ?].
      * by rewrite map_to_list_empty.
      * by rewrite !dom_empty_L.
    + intros leaf path. simpl. by rewrite E6, Hpa.
  - split; [done|]. intros p Hp. simpl. rewrite lookup_insert_ne; [by rewrite E1|]. intros ->.
    destruct Hp as [Hp|Hp]; [done|]. apply alloc_ok_nodup, NoDup_cons in Ha1 as [? _]. done.
Qed.

(** A value is stored as the first record of an empty tree. *)
Lemma put_first_value_ok t X P n key value :
  root_page_id t = 0 -> page_size_ok t -> room (page_size t) -> alloc_ok (S (S (length value)) + S n) t X P ->
  dirty_leaves t = ∅ -> fresh_leaves t = ∅ -> scheduled_frees t = [] -> dirty_parent_paths t = ∅ ->
  blen key <= K -> blen value <= ISIZE_MAX -> OVERFLOW_ROOT_HEADER_LEN + ENVELOPE_OVERHEAD < page_size t ->
  exists v t1 root t' ch, leaf_value_for value t = (Ok v, t1) /\ root_page_id t1 = 0 /\
    put_first key v t1 = (Ok root, t') /\ session t' 0 [(key, v)] [root] (all_pages ch ++ X) P n /\
    holds (bt_pages t') [(key, v)] ch {[ key := value ]} /\ page_size t' = page_size t /\ untouched t t' P X.
Proof.
  intros Hr Hps Hroom Ha Hd Hf Hsch Hpa HK HV Hpsz.
  destruct (leaf_value_alloc t X P (S n) value Hps Hroom Ha HV Hpsz)
    as (v & st & cids & t1 & Hlv & Hsc & Ha1 & Hst & Hwf & Henc & Hpg).
  pose proof Hsc as (E1 & E2 & E3 & E4 & E5 & E6 & E7 & _). set (t2 := with_pages (fun _ => st) t1) in *.
  destruct (put_first_ok t2 (cids ++ X) P n key v) as (root & t3 & Hpf & Hse3 & Hz3 & Hpg3);
    try (unfold t2; simpl; unfold page_size_ok; simpl; rewrite ?E3, ?E4, ?E5, ?E6, ?E7; done).
  exists v, t2, root, t3, {[ key := cids ]}. split; [done|]. split; [unfold t2; simpl; by rewrite E2|].
  split; [done|]. split.
  { eapply session_X_perm; [|exact Hse3]. unfold all_pages. rewrite map_to_list_singleton. simpl. by rewrite app_nil_r. }
  split; [|split; [rewrite Hz3; unfold t2; simpl; by rewrite E3|]].
  - intros q. unfold rec_map. simpl. destruct (decide (q = key)) as [->|Hne].
    + rewrite lookup_insert_eq, !lookup_singleton_eq. exists value, cids. split; [done|]. split; [done|].
      eapply stored_frame; [|exact Hst]. intros p Hp. rewrite Hpg3; [done|]. right. mem.
    + rewrite lookup_insert_ne, lookup_empty, !lookup_singleton_ne by done. done.
  - intros p Hp. rewrite Hpg3 by (destruct Hp; [by left|right; mem]). by apply Hpg.
Qed.

(** [put] on any session. *)
Lemma put_map t H m X P n key value :
  tree_map t H m X P (S (S (length value)) + (2 * H + 4 + n)) ->
  blen key <= K -> blen value <= ISIZE_MAX ->
  OVERFLOW_ROOT_HEADER_LEN + ENVELOPE_OVERHEAD < page_size t ->
  exists t' H', put key value t = (Ok tt, t') /\ tree_map t' H' (<[key := value]> m) X P n /\
    (H' <= S H)%nat /\ page_size t' = page_size t /\ untouched t t' P X.
Proof.
  intros [(Hr & -> & Hps & Hroom & Ha & Hd & Hf & Hsch & Hpa)|(kvs & ids & ch & Hse & Hh)] HK HV Hpsz;
    [|by eapply put_ok].
  unfold put, bind at 1, modify at 1. set (t0 := invalidate_append_state t).
  unfold bind at 1, gets at 1. rewrite validate_ok by done.
  destruct (put_first_value_ok t0 X P n key value) as (v & t1 & root & t3 & ch & Hlv & Hr1 & Hpf & Hse & Hh & Hz & Hu); try done.
  { eapply alloc_ok_le; [|exact Ha]. lia. }
  unfold bind at 1. rewrite Hlv. unfold bind at 1, gets at 1. rewrite Hr1, Z.eqb_refl. unfold bind. rewrite Hpf.
  eexists _, 0%nat. split; [reflexivity|]. split; [|split; [lia|done]]. right. exists [(key, v)], [root], ch. split; [|done].
  eapply session_frame; [exact Hse|done..|]. by destruct Hse as [? ? ? ? Ha' ? ?].
Qed.

(** ** Deletion *)

Lemma leaf_needed_remove rs1 k v rs2 :
  keys_sorted (rs1 ++ (k, v) :: rs2).*1 -> HEADER_LEN <= leaf_needed (rs1 ++ (k, v) :: rs2) ->
  leaf_needed (rs1 ++ rs2) <= leaf_needed (rs1 ++ (k, v) :: rs2).
Proof.
  intros Hs Hh. destruct rs1 as [|a m1].
  - destruct rs2 as [|b m2]; [done|]. pose proof (leaf_needed_mono [(k, v)] (b :: m2) []) as Hm.
    rewrite app_nil_r in Hm. by apply Hm.
  - destruct rs2 as [|b m2 _] using rev_ind.
    + rewrite app_nil_r. by apply (leaf_needed_mono [] (a :: m1) [(k, v)]).
    + unfold leaf_needed. simpl app. rewrite lcp_len_inner. set (pl := lcp_len _).
      pose proof (record_size_bounds pl (k, v) (lcp_len_nonneg _)).
      simpl. rewrite !length_app. simpl. rewrite !records_size_app. simpl.
      rewrite !records_size_app, !length_app. simpl. lia.
Qed.

Lemma remove_records_ok l q ps lo hi :
  leaf_wf l -> leaf_fits l ps = true -> HEADER_LEN <= body_capacity ps ->
  Forall (record_ok K ps lo hi) (records l) ->
  let l' := (leaf_remove l q).1 in
  leaf_wf l' /\ leaf_fits l' ps = true /\ Forall (record_ok K ps lo hi) (records l') /\
  leaf_map l' = delete q (leaf_map l) /\ (leaf_remove l q).2 = leaf_map l !! q.
Proof.
  intros (Hs & Hls & Hrs & Hv) Hfit Hcap Hf l'.
  destruct (leaf_remove l q) as [l0 old] eqn:Hu. simpl in l'. subst l'.
  destruct (leaf_remove_spec l q l0 old Hs Hu) as (Hs' & Hm & Ho & E1 & E2).
  assert (records l0 = records l \/ exists l1 v l2, records l = l1 ++ (q, v) :: l2 /\ records l0 = l1 ++ l2) as Hor.
  { unfold leaf_remove, leaf_position in Hu.
    destruct (position_cases (records l) q Hs) as [(w & l1 & l2 & Hl & _ & _ & Hp)|(l1 & l2 & Hl & _ & _ & Hp)];
      rewrite Hp in Hu; simplify_eq; [|by left].
    right. exists l1, w, l2. split; [done|]. simpl. by rewrite Hl, delete_middle. }
  assert (forall A (R : A -> Prop) (g : leaf_record -> A), Forall R (g <$> records l) -> Forall R (g <$> records l0)) as Hsub.
  { intros A R g HR. destruct Hor as [->|(l1 & v & l2 & Hl & ->)]; [done|]. rewrite Hl, fmap_app in HR.
    rewrite fmap_app. apply Forall_app in HR as [? [_ ?]%Forall_cons]. by apply Forall_app. }
  split; [unfold leaf_wf; rewrite E1, E2; split; [done|];
    split; [done|]; split; [done|]; by apply Hsub|].
  split; [|split; [|done]].
  - unfold leaf_fits, slice_fits in *. apply Z.leb_le in Hfit. apply Z.leb_le.
    destruct Hor as [->|(l1 & v & l2 & Hl & ->)]; [done|]. unfold leaf_sorted in Hs. rewrite Hl in *.
    etrans; [apply (leaf_needed_remove l1 q v l2 Hs)|done]. unfold leaf_needed, HEADER_LEN.
    pose proof (lcp_len_nonneg (l1 ++ (q, v) :: l2)).
    assert (forall pl rs, 0 <= pl -> 0 <= records_size pl rs) as Hrz.
    { intros pl rs Hpl. induction rs as [|r rs IH]; simpl; [done|]. pose proof (record_size_bounds pl r Hpl). lia. }
    specialize (Hrz _ (l1 ++ (q, v) :: l2) H). lia.
  - rewrite <-(list_fmap_id (records l0)). apply (Hsub _ _ id). by rewrite list_fmap_id.
Qed.

(** [delete_at_path] on the path of its key. *)
Lemma delete_at_path_ok t H kvs ids X P n q old :
  session t H kvs ids (old ++ X) P (S n) -> owned (bt_pages t) (rec_map kvs !! q) old ->
  exists path t' kvs' ids', path_to_leaf_for_key t q = Ok path /\
    delete_at_path path q t = (Ok (bool_decide (is_Some (rec_map kvs !! q))), t') /\
    session t' H kvs' ids' X P n /\ rec_map kvs' = delete q (rec_map kvs) /\
    page_size t' = page_size t /\ bt_pages t' = bt_pages t /\
    exists lo hi, in_range lo hi q /\ covers K t ids path lo hi /\ covers K t' ids' path lo hi.
Proof.
  intros Hse How.
  destruct (open_leaf_ok K _ _ _ _ _ _ _ q Hse)
    as (anc & leaf & lo & hi & kL & kR & iC & l & t1 & Hpath & Hrun & Hfo & Hb & Hz & -> & Hq & Hh & Hwf & Hfit & Hf & HkL & HkR & Hcov).
  set (fr := bool_decide (is_Some (fresh_leaves t !! leaf))) in *.
  pose proof Hse as [Hps Hroom _ Hsm _ _ _]. destruct (cap_usize t Hps) as (_ & _ & Hhd).
  destruct (remove_records_ok l q (page_size t) lo hi Hwf Hfit Hhd Hf) as (Hwf' & Hfit' & Hf' & Hm & Hold).
  rewrite rec_map_context in How |- * by done.
  assert (cached_leaf leaf fr t1 = (Ok l, t1)) as Hcl.
  { unfold cached_leaf, gets. destruct Hfo as (_ & _ & _ & _ & _ & _ & _ & Hc). destruct fr; [by rewrite Hc|].
    destruct Hc as [_ ->]. done. }
  exists (reverse anc ++ [leaf]). unfold delete_at_path, path_leaf. rewrite last_snoc.
  unfold bind at 1, lift. unfold bind at 1, gets at 1. fold fr. unfold bind at 1. rewrite Hrun.
  unfold bind at 1. rewrite Hcl. destruct (leaf_remove l q) as [l' removed] eqn:Hu. simpl in Hwf', Hfit', Hf', Hm, Hold.
  apply (focus_set K _ _ _ _ _ _ _ _ _ _ _ l') in Hfo. unfold bind at 1, modify at 1.
  set (t2 := set_cached_leaf leaf fr l' t1) in *.
  assert (page_size t2 = page_size t) as Hz2 by (rewrite <-Hz; unfold t2, set_cached_leaf; by destruct fr).
  assert (bt_pages t2 = bt_pages t) as Hb2 by (rewrite <-Hb; unfold t2, set_cached_leaf; by destruct fr).
  change (rec_map (records l)) with (leaf_map l) in How |- *. rewrite <-Hold, <-Hb2 in How. rewrite <-Hold.
  pose proof (small_values_of K _ _ _ _ _ _ _ Hf' Hsm) as Hsm'.
  pose proof (rec_map_context_delete kL (records l) (records l') kR q HkL HkR Hm) as Hmap.
  assert (forall t3 n3, focus K t3 H anc leaf lo hi kL kR iC fr l' X P n3 -> same_content t2 t3 ->
    exists ids', session t3 H (kL ++ records l' ++ kR) ids' X P n3 /\ page_size t3 = page_size t /\
      bt_pages t3 = bt_pages t /\
      exists lo hi, in_range lo hi q /\ covers K t ids (reverse anc ++ [leaf]) lo hi /\ covers K t3 ids' (reverse anc ++ [leaf]) lo hi) as Hdone.
  { intros t3 n3 Hfo3 (C1 & _ & C3 & _). assert (page_size t3 = page_size t) as Hz3 by congruence.
    destruct (focus_session K _ _ _ _ _ _ _ _ _ _ _ _ _ _ Hfo3) as (ids' & Hse' & Hids' & _);
      [done|by rewrite Hz3|by eapply in_range_blt|by eapply records_in_range|by rewrite Hz3|].
    exists ids'. split; [done|]. split; [done|]. split; [congruence|]. exists lo, hi. split; [done|]. split; [done|].
    by eapply (focus_covers K); [exact Hfo3|rewrite ?Hz3..]. }
  destruct removed as [[v|len root]|].
  - simpl in How. subst old. destruct (Hdone t2 (S n) Hfo) as (ids' & Hse' & ? & ? & ?); [done|].
    exists t2, (kL ++ records l' ++ kR), ids'. split; [done|]. split; [by rewrite bool_decide_true|].
    split; [|done]. destruct Hse' as [? ? ? ? Ha' ? ?]. constructor; try done. eapply alloc_ok_le; [|exact Ha']. lia.
  - pose proof Hfo as (_ & _ & _ & Ha & _).
    assert (anc ++ iC ++ leaf :: old ++ X ≡ₚ old ++ anc ++ iC ++ leaf :: X) as Hperm by solve_Permutation.
    rewrite Hperm in Ha.
    edestruct (release_ok t2 (anc ++ iC ++ leaf :: X) root len old P n) as (t3 & Hrel & Ha3 & Hsc3); [done|done|].
    destruct (Hdone t3 n) as (ids' & Hse' & ? & ? & ?); [by eapply focus_content|done|].
    exists t3, (kL ++ records l' ++ kR), ids'. split; [done|]. split; [|done].
    rewrite bool_decide_true by done. unfold bind in Hrel |- *.
    destruct (allocate_page t2) as [[p| |] ta]; [|done..].
    match type of Hrel with match ?x with _ => _ end = _ => destruct x as [[r| |] tb] eqn:Hoe end; [|done..].
    rewrite Hoe. by rewrite Hrel.
  - simpl in How. subst old. destruct (Hdone t2 (S n) Hfo) as (ids' & Hse' & ? & ? & ?); [done|].
    exists t2, (kL ++ records l' ++ kR), ids'. split; [done|]. split; [done|].
    split; [|done]. destruct Hse' as [? ? ? ? Ha' ? ?]. constructor; try done. eapply alloc_ok_le; [|exact Ha']. lia.
Qed.

Lemma delete_value_ok t H kvs ids ch m X P n key :
  session t H kvs ids (all_pages ch ++ X) P (S n) -> holds (bt_pages t) kvs ch m ->
  exists path t' kvs' ids', path_to_leaf_for_key t key = Ok path /\
    delete_at_path path key t = (Ok (bool_decide (is_Some (m !! key))), t') /\
    session t' H kvs' ids' (all_pages (delete key ch) ++ X) P n /\
    holds (bt_pages t') kvs' (delete key ch) (delete key m) /\
    page_size t' = page_size t /\ bt_pages t' = bt_pages t /\
    exists lo hi, in_range lo hi key /\ covers K t ids path lo hi /\ covers K t' ids' path lo hi.
Proof.
  intros Hse Hh.
  assert (all_pages ch ++ X ≡ₚ default [] (ch !! key) ++ all_pages (delete key ch) ++ X) as Hperm.
  { rewrite (all_pages_delete ch key). solve_Permutation. }
  apply (session_X_perm _ _ _ _ _ _ _ _ Hperm) in Hse.
  assert (owned (bt_pages t) (rec_map kvs !! key) (default [] (ch !! key))) as How.
  { specialize (Hh key). destruct (rec_map kvs !! key) as [v0|]; [|by destruct Hh as [-> _]].
    destruct Hh as (b0 & c0 & Hc0 & _ & Hst0). rewrite Hc0. by eapply stored_owned. }
  destruct (delete_at_path_ok t H kvs ids _ P n key _ Hse How)
    as (path & t' & kvs' & ids' & Hpath & Hdel & Hse' & Hmap & Hz' & Hpg' & Hcov).
  exists path, t', kvs', ids'. split; [done|]. split.
  { rewrite Hdel. do 2 f_equal. apply bool_decide_ext. specialize (Hh key). destruct (rec_map kvs !! key).
    - destruct Hh as (b & c & _ & -> & _). by split; intros; eauto.
    - by destruct Hh as [_ ->]. }
  split; [done|]. split; [|done]. eapply holds_delete; [exact Hh|done|]. intros p _. by rewrite Hpg'.
Qed.

Lemma delete_map t H m X P n key :
  tree_map t H m X P (S n) ->
  exists t', tree_delete key t = (Ok (bool_decide (is_Some (m !! key))), t') /\
    tree_map t' H (delete key m) X P n /\ page_size t' = page_size t /\ bt_pages t' = bt_pages t.
Proof.
  intros [(Hr & -> & Hps & Hroom & Ha & Hd & Hf & Hsch & Hpa)|(kvs & ids & ch & Hse & Hh)];
    unfold tree_delete, bind at 1, modify at 1; set (t0 := invalidate_append_state t);
    unfold bind at 1, gets at 1.
  - rewrite (proj2 (Z.eqb_eq (root_page_id t0) 0)) by done. exists t0. split; [done|]. split; [|done].
    left. rewrite delete_empty. split_and!; try done. eapply alloc_ok_le; [|exact Ha]. lia.
  - assert (session t0 H kvs ids (all_pages ch ++ X) P (S n)) as Hse0.
    { eapply session_frame; [exact Hse|done..|]. by destruct Hse as [? ? ? ? Ha ? ?]. }
    rewrite (proj2 (Z.eqb_neq _ _)) by (by eapply session_root).
    destruct (delete_value_ok t0 H kvs ids ch m X P n key Hse0 Hh)
      as (path & t' & kvs' & ids' & Hpath & Hdel & Hse' & Hh' & Hz' & Hpg' & _).
    unfold bind, gets. rewrite Hpath, Hdel. exists t'. split; [done|].
    split; [|done]. right. by exists kvs', ids', (delete key ch).
Qed.
End ops.
