(* ===== verification/TreeBatch.v ===== *)
(** * TreeBatch: batches and appends

    A batch keeps the path of its last key and reuses it while the separators
    around that leaf cover the next key. *)

From S2P Require Import Prelude Keys Errors PageFormat Node Leaf Internal Split Store Overflow Tree TreeWrite TreeRep TreeAlloc TreeCow TreePropagate TreePut TreeOps.
From Stdlib Require Import ZArith Lia.
From stdpp Require Import base list strings gmap sorting.

Local Open Scope Z_scope.
Local Open Scope pagedb_scope.

Lemma child_index_app es0 k c es2 :
  ~ (c ∈ es0.*2) -> child_index (es0 ++ (k, c) :: es2) c = Some (length es0).
Proof.
  induction es0 as [|[k' c'] es0 IH]; simpl; intros Hc.
  - by rewrite Z.eqb_refl.
  - rewrite (proj2 (Z.eqb_neq _ _)) by set_solver. by rewrite IH by set_solver.
Qed.

Section batch.
Context (K : Z).
Local Abbreviation rep := (rep K).
Local Abbreviation ctx := (ctx K).
Local Abbreviation frame := (frame K).
Local Abbreviation session := (session K).
Local Abbreviation covers := (covers K).

(** ** The path of a covered key *)

(** A node leads every key of a child's range to the child. *)
Lemma frame_child t h p n es1 es2 lo hi c lo' hi' kL kR iL iR kvs ids q :
  frame t h p n es1 es2 lo hi c lo' hi' kL kR iL iR -> rep t h c lo' hi' kvs ids -> in_range lo' hi' q ->
  internal_sorted n /\ child_of n q = c.
Proof.
  intros Hf Hr [Hlo Hhi]. pose proof (frame_plug K _ _ _ _ _ _ _ _ _ _ _ _ _ _ _ _ _ Hf Hr) as (n' & ids' & Hn' & _ & Hs).
  destruct Hf as (Hn & He & HL & HR). rewrite (internal_at_inj _ _ _ _ Hn' Hn) in Hs.
  pose proof Hs as [Hsort _]%seg_keys. split; [done|]. unfold child_of. rewrite He in *. rewrite fmap_app in Hsort.
  apply sorted_app in Hsort as (Hs1 & Hs2 & _). rewrite route_split.
  - destruct HL as [(-> & <- & _)|(es0 & k & -> & _)]; [done|]. by rewrite fmap_last, last_snoc.
  - destruct HL as [(-> & _)|(es0 & k & -> & -> & _)]; [constructor|]. simpl in Hlo. rewrite fmap_app in *.
    apply sorted_app in Hs1 as (_ & _ & Hlt). apply Forall_app. split; [|by repeat constructor].
    apply Forall_forall. intros x Hx. apply key_lt_le. eapply key_lt_le_trans; [|exact Hlo]. apply Hlt; [done|by left].
  - destruct HR as [(-> & _)|(k & c2 & es0 & -> & -> & _)]; [constructor|]. simpl in Hhi. rewrite fmap_cons in *.
    apply StronglySorted_inv in Hs2 as [_ Hall]. constructor; [done|]. eapply Forall_impl; [exact Hall|].
    intros x Hx. by eapply key_lt_trans.
Qed.

(** A descent that follows a context ends up in it. *)
Lemma descend_ctx t root H anc h c lo hi kL kR iC q fuel :
  page_size_ok t -> ctx t root H anc h c lo hi kL kR iC -> forall kvs ids, rep t h c lo hi kvs ids ->
  in_range lo hi q -> NoDup (anc ++ iC ++ ids) -> ~ (0 ∈ anc) -> (length anc <= fuel)%nat ->
  exists seen, seen_rep seen (list_to_set anc) /\
    descend fuel t (pick_child_for q) [] root (seen_new "btree_descent") =
    descend (fuel - length anc) t (pick_child_for q) (reverse anc) c seen.
Proof.
  intros Hps Hc. induction Hc as [|anc h p lo hi n es1 es2 c lo' hi' kL kR iC kL' kR' iL iR Hc IH Hf];
    intros kvs ids Hr Hq Hnd H0 Hfu.
  { exists (seen_new "btree_descent"). split; [apply seen_new_rep|]. by rewrite Nat.sub_0_r. }
  destruct (frame_child _ _ _ _ _ _ _ _ _ _ _ _ _ _ _ _ _ _ Hf Hr Hq) as [Hsort Hch].
  pose proof (frame_plug K _ _ _ _ _ _ _ _ _ _ _ _ _ _ _ _ _ Hf Hr) as Hrp.
  assert (blt lo hi) as Hb by (by eapply rep_blt).
  destruct (frame_sides K _ _ _ _ _ _ _ _ _ _ _ _ _ _ _ q Hf Hq Hb) as (Hqp & _ & _).
  simpl in Hfu. destruct (IH _ _ Hrp Hqp) as (seen & Hseen & ->).
  - eapply NoDup_perm; [|exact Hnd]. solve_Permutation.
  - set_solver.
  - lia.
  - destruct (seen_insert_ok seen _ p Hseen) as (seen' & Hsi & Hseen').
    { set_solver. }
    { rewrite elem_of_list_to_set. simpl in Hnd. apply NoDup_cons in Hnd as [Hnd _]. intros Hin. apply Hnd. mem. }
    exists seen'. split; [done|]. destruct Hf as (Hn & _).
    replace (fuel - length anc)%nat with (S (fuel - length (p :: anc))) by (simpl; lia).
    cbn [descend]. rewrite Hsi. rewrite bool_decide_false by (destruct Hn as [-> _]; by intros [? ?]).
    destruct (read_node_guard_internal t p n Hps Hn) as (body & -> & _ & _ & Hpick).
    rewrite Hpick by done. by rewrite Hch, reverse_cons.
Qed.


Lemma covers_path t H kvs ids X P n path lo hi q :
  session t H kvs ids X P n -> covers t ids path lo hi -> in_range lo hi q -> path_to_leaf_for_key t q = Ok path.
Proof.
  intros Hse (H' & anc & leaf & kL & kR & iC & lkvs & -> & Hc & Hr & Hids) Hq.
  destruct (session_nodup K _ _ _ _ _ _ _ Hse) as [Hnd H0]. pose proof Hse as [Hps _ Hrep _ _ _ _].
  rewrite <-Hids in Hnd, H0. assert (length anc <= nav_fuel t)%nat as Hfu.
  { pose proof (ctx_height K _ _ _ _ _ _ _ _ _ _ _ Hc). destruct (ctx_plug K _ _ _ _ _ _ _ _ _ _ _ _ _ Hc Hr) as (ids2 & Hr2 & Hp2 & _).
    assert (H' <= nav_fuel t)%nat; [|lia]. eapply (rep_fuel K); [exact Hr2|]. by rewrite Hp2. }
  destruct (descend_ctx t _ _ _ _ _ _ _ _ _ _ q (nav_fuel t) Hps Hc _ _ Hr Hq Hnd) as (seen & Hseen & Hd); [set_solver|done|].
  unfold path_to_leaf_for_key. rewrite Hd. destruct Hr as (l & Hl & _).
  destruct (seen_insert_ok seen _ leaf Hseen) as (seen' & Hsi & _).
  { set_solver. }
  { rewrite elem_of_list_to_set. intros Hin. apply NoDup_app in Hnd as (_ & Hd' & _). apply (Hd' leaf Hin). mem. }
  destruct (nav_fuel t - length anc)%nat; simpl; rewrite Hsi; (case_bool_decide as Hfr; [done|]);
    destruct (read_node_guard_leaf t leaf l Hps Hl) as (body & l0 & -> & _); try done; by apply eq_None_not_Some.
Qed.

(** ** The separators around a path *)

Lemma frame_bounds t h p n es1 es2 lo hi c lo' hi' kL kR iL iR kvs ids b :
  page_size_ok t -> frame t h p n es1 es2 lo hi c lo' hi' kL kR iL iR -> rep t h c lo' hi' kvs ids ->
  ~ (c ∈ iL) ->
  exists lo1 hi1, lo' = first_of lo1 lo /\ hi' = first_of hi1 hi /\
    (if leftmost_child n =? c then mkLeafBounds (lower b) (first_of (upper b) (fst <$> head (entries n)))
     else match child_index (entries n) c with
          | Some index => mkLeafBounds (first_of (lower b) (fst <$> entries n !! index))
              (first_of (upper b) (fst <$> entries n !! (index + 1)%nat))
          | None => b
          end) = mkLeafBounds (first_of (lower b) lo1) (first_of (upper b) hi1).
Proof.
  intros Hps (Hn & He & HL & HR) Hr Hc.
  assert (hi' = first_of (fst <$> head es2) hi) as Hhi.
  { by destruct HR as [(-> & -> & _)|(k & c2 & es0 & -> & -> & _)]. }
  destruct HL as [(-> & -> & -> & _)|(es0 & k & -> & -> & _ & Hs)].
  - exists None, (fst <$> head es2). rewrite Z.eqb_refl, He. split; [done|]. split; [done|].
    simpl. by destruct (lower b).
  - exists (Some k), (fst <$> head es2). pose proof (seg_children K _ _ _ _ _ _ _ _ Hs) as Hch.
    rewrite (proj2 (Z.eqb_neq _ _)) by (intros <-; apply Hc, Hch; by left).
    rewrite He, <-app_assoc. simpl. rewrite child_index_app by (intros Hin; apply Hc, Hch; by right).
    split; [done|]. split; [done|]. f_equal.
    + by rewrite lookup_app_r, Nat.sub_diag by lia.
    + rewrite lookup_app_r by lia. replace (length es0 + 1 - length es0)%nat with 1%nat by lia. by destruct es2.
Qed.

Lemma bounds_loop_ok t root H anc h c lo hi kL kR iC :
  page_size_ok t -> ctx t root H anc h c lo hi kL kR iC -> forall kvs ids b, rep t h c lo hi kvs ids ->
  NoDup (anc ++ iC ++ ids) ->
  separator_bounds_loop t anc c b = Ok (mkLeafBounds (first_of (lower b) lo) (first_of (upper b) hi)).
Proof.
  intros Hps Hc. induction Hc as [|anc h p lo hi n es1 es2 c lo' hi' kL kR iC kL' kR' iL iR Hc IH Hf];
    intros kvs ids b Hr Hnd.
  { simpl. destruct b as [[] []]; done. }
  cbn [separator_bounds_loop]. pose proof Hf as (Hn & _).
  destruct (read_node_guard_internal t p n Hps Hn) as (body & -> & _ & Hdec & _). rewrite Hdec.
  destruct (rep_head K _ _ _ _ _ _ _ Hr) as [ids0 Hids].
  assert (~ (c ∈ iL)) as Hci.
  { intros Hin. rewrite Hids in Hnd. simpl in Hnd. apply NoDup_cons in Hnd as [_ Hnd]. apply NoDup_app in Hnd as (_ & _ & Hnd).
    apply NoDup_app in Hnd as (_ & Hd & _). apply (Hd c); [mem|by left]. }
  destruct (frame_bounds _ _ _ _ _ _ _ _ _ _ _ _ _ _ _ _ _ b Hps Hf Hr Hci) as (lo1 & hi1 & -> & -> & ->).
  cbn [lower upper]. pose proof (frame_plug K _ _ _ _ _ _ _ _ _ _ _ _ _ _ _ _ _ Hf Hr) as Hrp.
  assert (forall (a x y : option bytes), first_of (first_of a x) y = first_of a (first_of x y)) as Hassoc by (by intros [] [] []).
  destruct (bool_decide _ && bool_decide _) eqn:Hstop.
  - apply andb_true_iff in Hstop as [H1%bool_decide_eq_true H2%bool_decide_eq_true]. rewrite <-!Hassoc.
    destruct H1 as [x ->], H2 as [y ->]. done.
  - rewrite (IH _ _ _ Hrp); [cbn [lower upper]; by rewrite !Hassoc|]. eapply NoDup_perm; [|exact Hnd]. solve_Permutation.
Qed.

Lemma covers_bounds t H kvs ids X P n path lo hi :
  session t H kvs ids X P n -> covers t ids path lo hi ->
  separator_bounds_for_path t path = Ok (mkLeafBounds lo hi).
Proof.
  intros Hse (H' & anc & leaf & kL & kR & iC & lkvs & -> & Hc & Hr & Hids).
  destruct (session_nodup K _ _ _ _ _ _ _ Hse) as [Hnd _]. pose proof Hse as [Hps _ _ _ _ _ _].
  unfold separator_bounds_for_path. rewrite last_snoc, reverse_snoc, reverse_involutive. simpl tail.
  rewrite (bounds_loop_ok _ _ _ _ _ _ _ _ _ _ _ Hps Hc _ _ _ Hr); [done|]. by rewrite Hids.
Qed.

Lemma bounds_contains_iff lo hi q : bounds_contains (mkLeafBounds lo hi) q = true <-> in_range lo hi q.
Proof.
  unfold bounds_contains, in_range, ge_lo, lt_hi. simpl. rewrite andb_true_iff.
  destruct lo, hi; rewrite ?bytes_leb_le, ?bytes_ltb_lt; tauto.
Qed.

Lemma leaf_at_inj t p l l' : leaf_at t p l -> leaf_at t p l' -> l = l'.
Proof.
  intros [Hl|(Hn & b & l0 & Hb & _ & Hd & ->)] [Hl'|(Hn' & b' & l0' & Hb' & _ & Hd' & ->)]; congruence.
Qed.

(** A page is the root of trees of one height only. *)
Lemma rep_height_fun t : forall h h' p lo hi kvs ids lo' hi' kvs' ids',
  rep t h p lo hi kvs ids -> rep t h' p lo' hi' kvs' ids' -> h = h'.
Proof.
  assert (forall h c es lo hi kvs ids, seg K (rep t h) c es lo hi kvs ids ->
    exists lo1 hi1 kvs1 ids1, rep t h c lo1 hi1 kvs1 ids1) as Hfst.
  { intros h c [|[k c2] es] lo hi kvs ids; simpl; [eauto|]. intros (ka & kb & ia & ib & _ & _ & _ & Ha & _). eauto. }
  induction h as [|h IH]; intros [|h'] p lo hi kvs ids lo' hi' kvs' ids'; [done| | |].
  - intros (l & Hl & _) (n & i & Hn & _). exfalso. by eapply leaf_not_internal.
  - intros (n & i & Hn & _) (l & Hl & _). exfalso. by eapply leaf_not_internal.
  - intros (n & i1 & Hn & -> & Hs) (n' & i2 & Hn' & -> & Hs'). rewrite (internal_at_inj _ _ _ _ Hn' Hn) in Hs'.
    apply Hfst in Hs as (? & ? & ? & ? & Hs). apply Hfst in Hs' as (? & ? & ? & ? & Hs'). f_equal. by eapply IH.
Qed.

(** A page represents one sequence of records with one list of pages. *)
Lemma rep_fun t h : forall p lo hi kvs ids lo' hi' kvs' ids',
  rep t h p lo hi kvs ids -> rep t h p lo' hi' kvs' ids' -> kvs = kvs' /\ ids = ids'.
Proof.
  induction h as [|h IH]; intros p lo hi kvs ids lo' hi' kvs' ids'.
  - intros (l & Hl & <- & -> & _) (l' & Hl' & <- & -> & _). split; [|done]. f_equal. by eapply leaf_at_inj.
  - intros (n & i1 & Hn & -> & Hs) (n' & i2 & Hn' & -> & Hs'). rewrite (internal_at_inj _ _ _ _ Hn' Hn) in Hs'.
    assert (kvs = kvs' /\ i1 = i2) as [-> ->]; [|done]. clear Hn Hn'. revert lo lo' kvs kvs' i1 i2 Hs Hs'.
    generalize (leftmost_child n). induction (entries n) as [|[k c2] es IHes]; intros c lo lo' kvs kvs' i1 i2; simpl.
    + intros Hs Hs'. by eapply IH.
    + intros (ka & kb & ia & ib & -> & -> & _ & Ha & Hb) (ka' & kb' & ia' & ib' & -> & -> & _ & Ha' & Hb').
      destruct (IH _ _ _ _ _ _ _ _ _ Ha Ha') as [-> ->]. by destruct (IHes _ _ _ _ _ _ _ Hb Hb') as [-> ->].
Qed.

(** The last leaf is the one without an upper bound. *)
Lemma covers_edge t H kvs ids X P n path lo :
  session t H kvs ids X P n -> covers t ids path lo None ->
  exists leaf, last path = Some leaf /\ last ids = Some leaf /\ exists lkvs, rep t 0 leaf lo None lkvs [leaf].
Proof.
  intros Hse (H' & anc & leaf & kL & kR & iC & lkvs & -> & Hc & Hr & Hids). exists leaf. rewrite last_snoc.
  split; [done|]. split; [|by exists lkvs].
  destruct (ctx_plug K _ _ _ _ _ _ _ _ _ _ _ _ _ Hc Hr) as (ids2 & Hr2 & _ & Hl2). pose proof Hse as [_ _ Hrep _ _ _ _].
  pose proof (rep_height_fun _ _ _ _ _ _ _ _ _ _ _ _ Hrep Hr2) as <-.
  destruct (rep_fun _ _ _ _ _ _ _ _ _ _ _ Hrep Hr2) as [_ ->]. by apply Hl2.
Qed.

(** ** Reusing a path *)

Lemma covers_frame t t' ids path lo hi :
  page_size t' = page_size t -> root_page_id t' = root_page_id t -> (forall p, p ∈ ids -> same_at t t' p) ->
  covers t ids path lo hi -> covers t' ids path lo hi.
Proof.
  intros Hz Hr Hs (H' & anc & leaf & kL & kR & iC & lkvs & -> & Hc & Hl & Hids).
  exists H', anc, leaf, kL, kR, iC, lkvs. split; [done|]. rewrite Hr. split; [|split; [|done]].
  - apply (ctx_frame K t); [done| |done]. intros q Hq. apply Hs. rewrite <-Hids. mem in Hq.
  - apply (rep_frame K t); [done| |done]. intros q Hq. apply Hs. rewrite <-Hids. mem in Hq.
Qed.
Lemma same_at_sym t t' p : same_at t t' p -> same_at t' t p.
Proof. intros (H1 & H2 & H3). unfold same_at. by rewrite H1, H2, H3. Qed.

(** A path kept from an earlier key, if any, covers what its bounds say. *)
Definition cached_ok (t : BTree) (ids : list Z) (cached : option (list Z * LeafBounds)) : Prop :=
  match cached with
  | Some (path, b) => covers t ids path (lower b) (upper b)
  | None => True
  end.

Lemma reuse_path_ok t H kvs ids X P n cached key :
  session t H kvs ids X P n -> cached_ok t ids cached ->
  exists path b, reuse_path cached key t = Ok (path, b) /\ path_to_leaf_for_key t key = Ok path /\
    covers t ids path (lower b) (upper b).
Proof.
  intros Hse Hc.
  assert (exists path b, (let! path := path_to_leaf_for_key t key in
      let! bounds := separator_bounds_for_path t path in Ok (path, bounds)) = Ok (path, b) /\
    path_to_leaf_for_key t key = Ok path /\ covers t ids path (lower b) (upper b)) as Hnew.
  { destruct (session_nodup K _ _ _ _ _ _ _ Hse) as [Hnd H0]. pose proof Hse as [Hps _ Hrep _ _ _ _].
    destruct (path_to_leaf_ok K t H kvs ids key Hps Hrep Hnd H0)
      as (anc & leaf & lo & hi & kL & kR & iC & l & Hpath & Hctx & Hrl & _ & _ & _ & Hids).
    assert (covers t ids (reverse anc ++ [leaf]) lo hi) as Hcov by (by exists H, anc, leaf, kL, kR, iC, (records l)).
    exists (reverse anc ++ [leaf]), (mkLeafBounds lo hi). rewrite Hpath.
    by rewrite (covers_bounds _ _ _ _ _ _ _ _ _ _ Hse Hcov). }
  destruct cached as [[path b]|]; [|done]. unfold reuse_path. destruct b as [lo hi]. simpl in Hc.
  destruct (bounds_contains (mkLeafBounds lo hi) key) eqn:Hb; [|done]. apply bounds_contains_iff in Hb.
  exists path, (mkLeafBounds lo hi). split; [done|]. split; [|done]. by eapply covers_path.
Qed.

(** ** Batches *)

Local Abbreviation tree_map := (tree_map K).

(** Pages a batch may take, from a tree of height [H]. *)
Fixpoint puts_budget (H : nat) (pairs : list (bytes * bytes)) : nat :=
  match pairs with
  | [] => 0
  | (_, value) :: pairs => S (S (length value)) + (2 * H + 4 + puts_budget (S H) pairs)
  end.
Lemma puts_budget_mono pairs : forall H H', (H <= H')%nat -> (puts_budget H pairs <= puts_budget H' pairs)%nat.
Proof.
  induction pairs as [|[k v] pairs IH]; intros H H' Hle; simpl; [done|]. specialize (IH (S H) (S H')). lia.
Qed.

Definition put_pairs (pairs : list (bytes * bytes)) (m : gmap bytes bytes) : gmap bytes bytes :=
  foldl (fun m r => <[r.1 := r.2]> m) m pairs.
Definition delete_keys (keys : list bytes) (m : gmap bytes bytes) : gmap bytes bytes :=
  foldl (fun m k => delete k m) m keys.

Lemma session_le t H kvs ids X P n n' : (n' <= n)%nat -> session t H kvs ids X P n -> session t H kvs ids X P n'.
Proof. intros Hle [? ? ? ? Ha ? ?]. constructor; try done. by eapply alloc_ok_le. Qed.

Lemma tree_map_invalidate t H m X P n : tree_map t H m X P n -> tree_map (invalidate_append_state t) H m X P n.
Proof.
  intros [(? & ? & ? & ? & ? & ?)|(kvs & ids & ch & Hse & Hh)]; [by left|]. right. exists kvs, ids, ch. split; [|done].
  eapply session_frame; [exact Hse|done..|]. by destruct Hse as [? ? ? ? Ha ? ?].
Qed.

Lemma put_batch_session X P n : forall pairs t H kvs ids ch m cached,
  session t H kvs ids (all_pages ch ++ X) P (puts_budget H pairs + n) -> holds (bt_pages t) kvs ch m ->
  cached_ok t ids cached -> Forall (fun r => blen r.1 <= K /\ blen r.2 <= ISIZE_MAX) pairs ->
  OVERFLOW_ROOT_HEADER_LEN + ENVELOPE_OVERHEAD < page_size t ->
  exists t' H', put_batch_loop pairs cached t = (Ok tt, t') /\ tree_map t' H' (put_pairs pairs m) X P n /\
    (H' <= H + length pairs)%nat /\ page_size t' = page_size t /\ untouched t t' P X.
Proof.
  induction pairs as [|[key value] pairs IH]; intros t H kvs ids ch m cached Hse Hh Hc Hf Hpsz.
  { exists t, H. split; [done|]. split; [right; by exists kvs, ids, ch|]. split; [simpl; lia|]. split; [done|]. by intros p _. }
  apply Forall_cons in Hf as [[HK HV] Hf]. cbn [fst snd] in HK, HV. cbn [puts_budget] in Hse. cbn [put_batch_loop].
  pose proof Hse as [Hps Hroom _ _ _ _ _]. unfold bind at 1, gets at 1. rewrite (validate_ok K) by done.
  unfold bind at 1, gets at 1. rewrite (proj2 (Z.eqb_neq _ _)) by (by eapply session_root).
  destruct (reuse_path_ok t H kvs ids _ P _ cached key Hse Hc) as (path & b & Hre & Hpath & Hcov).
  unfold bind at 1, gets at 1. rewrite Hre.
  destruct (put_value_ok K t H kvs ids ch m X P (puts_budget (S H) pairs + n) key value) 
    as (v & t1 & path' & sp & t' & H' & kvs' & ids' & ch' & Hlv & Hpath' & Hput & Hse' & Hh' & Hle & Hz & Hu & Hr1 & Hz1 & Hs1 & _ & _ & lo & hi & Hq & Hc1 & Hc2 & _); try done.
  { eapply session_le; [|exact Hse]. lia. }
  assert (covers t ids path' lo hi) as Hc1'.
  { apply (covers_frame t1); [done..| |done]. intros p Hp. by apply same_at_sym, Hs1. }
  assert (path' = path) as ->.
  { pose proof (covers_path _ _ _ _ _ _ _ _ _ _ key Hse Hc1' Hq). congruence. }
  assert (lower b = lo /\ upper b = hi) as [Hlo Hhi].
  { pose proof (covers_bounds _ _ _ _ _ _ _ _ _ _ Hse Hc1') as E1.
    rewrite (covers_bounds _ _ _ _ _ _ _ _ _ _ Hse Hcov) in E1. by injection E1. }
  unfold bind at 1. rewrite Hlv. unfold bind at 1. rewrite Hput.
  destruct (IH t' H' kvs' ids' ch' (<[key := value]> m) (if sp then None else Some (path, b))) as (t2 & H2 & Hrun & Htm & Hle2 & Hz2 & Hu2); try done.
  - eapply session_le; [|exact Hse']. pose proof (puts_budget_mono pairs H' (S H) Hle). lia.
  - destruct sp; [done|]. simpl. rewrite Hlo, Hhi. by apply Hc2.
  - by rewrite Hz.
  - exists t2, H2. split; [done|]. split; [done|]. split; [simpl; lia|]. split; [congruence|].
    intros p Hp. rewrite Hu2, Hu; done.
Qed.

Lemma put_batch_map t H m X P n pairs :
  tree_map t H m X P (puts_budget H pairs + n) -> Forall (fun r => blen r.1 <= K /\ blen r.2 <= ISIZE_MAX) pairs ->
  OVERFLOW_ROOT_HEADER_LEN + ENVELOPE_OVERHEAD < page_size t ->
  exists t' H', put_batch pairs t = (Ok tt, t') /\ tree_map t' H' (put_pairs pairs m) X P n /\
    (H' <= H + length pairs)%nat /\ page_size t' = page_size t /\ untouched t t' P X.
Proof.
  intros Htm Hf Hpsz. unfold put_batch, bind at 1, modify at 1. set (t0 := invalidate_append_state t).
  assert (tree_map t0 H m X P (puts_budget H pairs + n)) as Htm0 by (by apply tree_map_invalidate).
  clear Htm. change (page_size t) with (page_size t0) in *. change (untouched t) with (untouched t0).
  destruct pairs as [|[key value] pairs].
  { exists t0, H. split; [done|]. split; [done|]. split; [simpl; lia|]. split; [done|]. by intros p _. }
  destruct Htm0 as [Hl|(kvs & ids & ch & Hse & Hh)]; [|by apply (put_batch_session X P n _ t0 H kvs ids ch m None)].
  pose proof Hl as (Hr & -> & Hps & Hroom & _). cbn [put_batch_loop]. apply Forall_cons in Hf as [[HK HV] Hf].
  unfold bind at 1, gets at 1. rewrite (validate_ok K) by done. unfold bind at 1, gets at 1. rewrite Hr, Z.eqb_refl.
  cbn [puts_budget] in Hl.
  destruct (put_map K t0 H ∅ X P (puts_budget (S H) pairs + n) key value) as (t1 & H1 & Hput & Htm1 & Hle & Hz1 & Hu1); try done.
  { left. by rewrite !Nat.add_assoc in *. }
  unfold bind at 1. rewrite Hput. destruct Htm1 as [(_ & Hbad & _)|(kvs & ids & ch & Hse & Hh)].
  { by apply insert_non_empty in Hbad. }
  destruct (put_batch_session X P n pairs t1 H1 kvs ids ch (<[key := value]> ∅) None) as (t2 & H2 & Hrun & Htm & Hle2 & Hz2 & Hu2); try done.
  - eapply session_le; [|exact Hse]. pose proof (puts_budget_mono pairs H1 (S H) Hle). lia.
  - by rewrite Hz1.
  - exists t2, H2. split; [done|]. split; [done|]. split; [simpl; lia|]. split; [congruence|].
    intros p Hp. rewrite Hu2, Hu1; done.
Qed.
Lemma delete_batch_session X P n : forall keys t H kvs ids ch m cached,
  session t H kvs ids (all_pages ch ++ X) P (length keys + n) -> holds (bt_pages t) kvs ch m ->
  cached_ok t ids cached ->
  exists t', delete_batch_loop keys cached t = (Ok tt, t') /\ tree_map t' H (delete_keys keys m) X P n /\
    root_page_id t' <> 0 /\ page_size t' = page_size t /\ bt_pages t' = bt_pages t.
Proof.
  induction keys as [|key keys IH]; intros t H kvs ids ch m cached Hse Hh Hc.
  { exists t. split; [done|]. split; [right; by exists kvs, ids, ch|]. split; [|done]. by eapply session_root. }
  cbn [delete_batch_loop]. destruct (reuse_path_ok t H kvs ids _ P _ cached key Hse Hc) as (path & b & Hre & Hpath & Hcov).
  unfold bind at 1, gets at 1. rewrite Hre.
  destruct (delete_value_ok K t H kvs ids ch m X P (length keys + n) key Hse Hh)
    as (path' & t' & kvs' & ids' & Hpath' & Hdel & Hse' & Hh' & Hz & Hb & lo & hi & Hq & Hc1 & Hc2).
  assert (path' = path) as -> by congruence.
  assert (lower b = lo /\ upper b = hi) as [Hlo Hhi].
  { pose proof (covers_bounds _ _ _ _ _ _ _ _ _ _ Hse Hc1) as E1.
    rewrite (covers_bounds _ _ _ _ _ _ _ _ _ _ Hse Hcov) in E1. by injection E1. }
  unfold bind at 1. rewrite Hdel.
  destruct (IH t' H kvs' ids' (delete key ch) (delete key m) (Some (path, b))) as (t2 & Hrun & Htm & Hr2 & Hz2 & Hb2); try done.
  { simpl. by rewrite Hlo, Hhi. }
  exists t2. split; [done|]. split; [done|]. split; [done|]. split; congruence.
Qed.

Lemma delete_keys_empty keys : delete_keys keys ∅ = ∅.
Proof. unfold delete_keys. induction keys as [|k keys IH]; [done|]. simpl. by rewrite delete_empty. Qed.

Lemma delete_batch_map t H m X P n keys :
  tree_map t H m X P (length keys + n) ->
  exists t', delete_batch keys t = (Ok tt, t') /\ tree_map t' H (delete_keys keys m) X P n /\
    page_size t' = page_size t /\ bt_pages t' = bt_pages t.
Proof.
  intros Htm%tree_map_invalidate. unfold delete_batch, bind at 1, modify at 1. set (t0 := invalidate_append_state t) in *.
  unfold bind at 1, gets at 1. change (page_size t) with (page_size t0). change (bt_pages t) with (bt_pages t0).
  destruct Htm as [Hl|(kvs & ids & ch & Hse & Hh)].
  - pose proof Hl as (-> & -> & _). rewrite Z.eqb_refl. exists t0. split; [done|]. split; [|done].
    rewrite delete_keys_empty. left. destruct Hl as (? & ? & ? & ? & Ha & ?). do 4 (split; [done|]). split; [|done].
    eapply alloc_ok_le; [|exact Ha]. lia.
  - rewrite (proj2 (Z.eqb_neq _ _)) by (by eapply session_root).
    destruct (delete_batch_session X P n keys t0 H kvs ids ch m None Hse Hh) as (t' & Hrun & Htm & _ & Hz & Hb); [done|].
    by exists t'.
Qed.
End batch.
