(* ===== verification/TreeSpec.v ===== *)
(** * TreeSpec: what the B+ tree promises its callers

    Sequences of [get], [put], [delete], [put_batch] and [delete_batch] behave like
    the same operations on a finite map, and never change a page a reader's snapshot
    may hold. *)

From S2P Require Import Prelude Keys Errors PageFormat Node Leaf Internal Split Store Overflow Tree TreeWrite TreeRep TreeAlloc TreeCow TreePut TreeOps TreeBatch.
From Stdlib Require Import ZArith Lia.
From stdpp Require Import base list strings gmap.

Local Open Scope Z_scope.
Local Open Scope pagedb_scope.

(** ** Operation sequences *)

Inductive tree_op :=
| OpGet (key : bytes)
| OpPut (key value : bytes)
| OpDelete (key : bytes)
| OpPutBatch (pairs : list (bytes * bytes))
| OpDeleteBatch (keys : list bytes).

Inductive op_result :=
| Found (value : option bytes)
| Stored
| Deleted (existed : bool)
| BatchDone.

Definition run_op (o : tree_op) : M op_result :=
  match o with
  | OpGet key => do! r := gets (fun t => get t key) in ret (Found r)
  | OpPut key value => do! _ := put key value in ret Stored
  | OpDelete key => do! b := tree_delete key in ret (Deleted b)
  | OpPutBatch pairs => do! _ := put_batch pairs in ret BatchDone
  | OpDeleteBatch keys => do! _ := delete_batch keys in ret BatchDone
  end.

Fixpoint run_ops (os : list tree_op) : M (list op_result) :=
  match os with
  | [] => ret []
  | o :: os => do! r := run_op o in do! rs := run_ops os in ret (r :: rs)
  end.

(** The same operations on a finite map. *)
Definition spec_op (o : tree_op) (m : gmap bytes bytes) : op_result * gmap bytes bytes :=
  match o with
  | OpGet key => (Found (m !! key), m)
  | OpPut key value => (Stored, <[key := value]> m)
  | OpDelete key => (Deleted (bool_decide (is_Some (m !! key))), delete key m)
  | OpPutBatch pairs => (BatchDone, put_pairs pairs m)
  | OpDeleteBatch keys => (BatchDone, delete_keys keys m)
  end.

Fixpoint spec_ops (os : list tree_op) (m : gmap bytes bytes)
  : list op_result * gmap bytes bytes :=
  match os with
  | [] => ([], m)
  | o :: os => let '(r, m) := spec_op o m in let '(rs, m) := spec_ops os m in (r :: rs, m)
  end.

Definition op_ok (K : Z) (o : tree_op) : Prop :=
  match o with
  | OpPut key value => blen key <= K /\ blen value <= ISIZE_MAX
  | OpPutBatch pairs => Forall (fun r => blen r.1 <= K /\ blen r.2 <= ISIZE_MAX) pairs
  | _ => True
  end.

(** An upper bound on the pages a sequence allocates, from a tree of height [H]. *)
Fixpoint page_budget (H : nat) (os : list tree_op) : nat :=
  match os with
  | [] => 0
  | OpGet _ :: os => page_budget H os
  | OpPut _ value :: os => S (S (length value)) + (2 * H + 4 + page_budget (S H) os)
  | OpDelete _ :: os => S (page_budget H os)
  | OpPutBatch pairs :: os => puts_budget H pairs + page_budget (H + length pairs) os
  | OpDeleteBatch keys :: os => length keys + page_budget H os
  end.

Lemma page_budget_mono os : forall H H', (H <= H')%nat -> (page_budget H os <= page_budget H' os)%nat.
Proof.
  induction os as [|[k|k v|k|ps|ks] os IH]; intros H H' Hle; simpl; [done|by apply IH| | | |].
  - specialize (IH (S H) (S H')). lia.
  - specialize (IH H H' Hle). lia.
  - specialize (IH (H + length ps) (H' + length ps))%nat. pose proof (puts_budget_mono ps H H' Hle). lia.
  - specialize (IH H H' Hle). lia.
Qed.

Section spec.
Context (K : Z).
Local Abbreviation tree_map := (tree_map K).

Lemma tree_map_le t H m X P n n' : (n' <= n)%nat -> tree_map t H m X P n -> tree_map t H m X P n'.
Proof.
  intros Hle [(? & ? & ? & ? & Ha & ?)|(kvs & ids & ch & [? ? ? ? Ha ? ?] & ?)].
  - left. do 4 (split; [done|]). split; [by eapply alloc_ok_le|done].
  - right. exists kvs, ids, ch. split; [|done]. constructor; try done. by eapply alloc_ok_le.
Qed.

Lemma untouched_refl t t' P X : bt_pages t' = bt_pages t -> untouched t t' P X.
Proof. intros Hb p _. by rewrite Hb. Qed.
Lemma untouched_trans t1 t2 t3 P X : untouched t1 t2 P X -> untouched t2 t3 P X -> untouched t1 t3 P X.
Proof. intros H1 H2 p Hp. rewrite H2, H1; done. Qed.

Lemma run_ops_map X P n : forall os t H m,
  tree_map t H m X P (page_budget H os + n) -> Forall (op_ok K) os ->
  OVERFLOW_ROOT_HEADER_LEN + ENVELOPE_OVERHEAD < page_size t ->
  exists t' H', run_ops os t = (Ok (spec_ops os m).1, t') /\
    tree_map t' H' (spec_ops os m).2 X P n /\ untouched t t' P X.
Proof.
  induction os as [|o os IH]; intros t H m Htm Hok Hps.
  { exists t, H. split; [done|]. split; [done|]. by apply untouched_refl. }
  apply Forall_cons in Hok as [Ho Hok].
  assert (exists t1 H1, run_op o t = (Ok (spec_op o m).1, t1) /\
    tree_map t1 H1 (spec_op o m).2 X P (page_budget H1 os + n) /\ page_size t1 = page_size t /\
    untouched t t1 P X) as (t1 & H1 & Hrun & Htm1 & Hz1 & Hu1).
  { destruct o as [key|key value|key|pairs|keys]; simpl in *.
    - exists t, H. unfold bind, gets. rewrite (get_map K t H m X P _ key Htm).
      split; [done|]. split; [done|]. split; [done|]. by apply untouched_refl.
    - destruct Ho as [HK HV].
      destruct (put_map K t H m X P (page_budget (S H) os + n) key value)
        as (t1 & H1 & Hput & Htm1 & Hle & Hz1 & Hu1); [|done..|].
      { eapply tree_map_le; [|exact Htm]. lia. }
      exists t1, H1. unfold bind. rewrite Hput. split; [done|]. split; [|done].
      eapply tree_map_le; [|exact Htm1]. pose proof (page_budget_mono os H1 (S H) Hle). lia.
    - destruct (delete_map K t H m X P (page_budget H os + n) key Htm) as (t1 & Hdel & Htm1 & Hz1 & Hb1).
      exists t1, H. unfold bind. rewrite Hdel. split; [done|]. split; [done|]. split; [done|].
      by apply untouched_refl.
    - destruct (put_batch_map K t H m X P (page_budget (H + length pairs) os + n) pairs)
        as (t1 & H1 & Hput & Htm1 & Hle & Hz1 & Hu1); [|done..|].
      { eapply tree_map_le; [|exact Htm]. lia. }
      exists t1, H1. unfold bind. rewrite Hput. split; [done|]. split; [|done].
      eapply tree_map_le; [|exact Htm1]. pose proof (page_budget_mono os H1 (H + length pairs) Hle). lia.
    - rewrite <-Nat.add_assoc in Htm.
      destruct (delete_batch_map K t H m X P (page_budget H os + n) keys Htm) as (t1 & Hdel & Htm1 & Hz1 & Hb1).
      exists t1, H. unfold bind. rewrite Hdel. split; [done|]. split; [done|]. split; [done|].
      by apply untouched_refl. }
  destruct (IH t1 H1 (spec_op o m).2 Htm1 Hok) as (t2 & H2 & Hrun2 & Htm2 & Hu2); [by rewrite Hz1|].
  exists t2, H2. simpl. destruct (spec_op o m) as [r m1] eqn:Hso. simpl in *.
  destruct (spec_ops os m1) as [rs m2] eqn:Hsos. simpl in *.
  unfold bind. rewrite Hrun, Hrun2. split; [done|]. split; [done|]. by eapply untouched_trans.
Qed.

(** ** Snapshots *)

(** Under [root], the page image [st] holds the map [m], in pages of [P] only. *)
Definition snapshot (st : Store) (root ps : Z) (m : gmap bytes bytes) (P : gset Z) : Prop :=
  root = 0 /\ m = ∅ \/
  let t := btree_open st root 4 ps in
  exists H kvs ids ch, page_size_ok t /\ rep K t H root None None kvs ids /\ NoDup ids /\
    ~ (0 ∈ ids) /\ holds st kvs ch m /\ (forall p, p ∈ ids ++ all_pages ch -> p ∈ P).

Lemma snapshot_get st root next ps m P q :
  snapshot st root ps m P -> get (btree_open st root next ps) q = Ok (m !! q).
Proof.
  intros [[-> ->]|(H & kvs & ids & ch & Hps & Hrep & Hnd & H0 & Hh & _)]; [done|].
  rewrite (get_ok K (btree_open st root next ps) H kvs ids q); [by eapply holds_resolve|done| |done|done].
  by apply (rep_frame K (btree_open st root 4 ps)).
Qed.

Lemma snapshot_frame st st' root ps m P :
  (forall p, p ∈ P -> st' !! p = st !! p) -> snapshot st root ps m P -> snapshot st' root ps m P.
Proof.
  intros Hfr [?|(H & kvs & ids & ch & Hps & Hrep & Hnd & H0 & Hh & HP)]; [by left|]. right.
  exists H, kvs, ids, ch. split_and!; try done.
  - apply (rep_frame K (btree_open st root 4 ps)); [done| |done].
    intros p Hp. split; [|done]. apply Hfr, HP. apply elem_of_app. by left.
  - intros q. specialize (Hh q). destruct (rec_map kvs !! q) as [v|]; [|done].
    destruct Hh as (b & c & Hc & Hm & Hst). exists b, c. split_and!; try done.
    eapply stored_frame; [|exact Hst]. intros p Hp. apply Hfr, HP, elem_of_app. right.
    by eapply elem_of_all_pages.
Qed.

(** A session opened over a page source may reuse the pages of the source's cache
    and those from the reuse threshold on, no others. *)
Lemma open_session_alloc st root next ps thr pool us (P : gset Z) n :
  NoDup (pool ++ us) -> (forall p, p ∈ pool ++ us -> 4 <= p < next) -> 4 <= next ->
  next + Z.of_nat n <= 2 ^ 64 -> (forall p, p ∈ P -> p < thr /\ p < next /\ ~ (p ∈ pool)) ->
  alloc_ok n (btree_open_session st root next ps (mkPageSource thr pool ∅)) us P.
Proof.
  intros Hnd Hb H4 Hn HP. unfold alloc_ok, unused, avail, is_reusable_in_session. simpl. rewrite app_nil_r.
  replace (Z.max next 4) with next by lia. split_and!; try done.
  intros p Hp. destruct (HP p Hp) as (? & ? & ?). split; [done|]. split; [|done].
  rewrite (proj2 (Z.leb_gt _ _)) by done. simpl. apply bool_decide_false. set_solver.
Qed.
End spec.

(** C2: on a session that holds the map [m], any sequence of gets, puts, deletes
    and batches of puts or deletes, with keys of at most [K] bytes, returns exactly
    what the same sequence returns on a finite map, ends in a session that holds the resulting map, and
    leaves every page that is protected or used by others as it was. The premise
    bounds the pages the sequence may allocate and has [room K] of the page size:
    [K] is up to 143 bytes with pages of 4 KiB. *)
Theorem btree_refines_map (K : Z) (os : list tree_op) (t : BTree) (H : nat)
    (m : gmap bytes bytes) (X : list Z) (P : gset Z) (n : nat) :
  tree_map K t H m X P (page_budget H os + n) -> Forall (op_ok K) os ->
  OVERFLOW_ROOT_HEADER_LEN + ENVELOPE_OVERHEAD < page_size t ->
  exists t' H', run_ops os t = (Ok (spec_ops os m).1, t') /\
    tree_map K t' H' (spec_ops os m).2 X P n /\ untouched t t' P X.
Proof. apply run_ops_map. Qed.

(** 512-byte pages, keys of at most 16 bytes: a session on an empty tree. *)
Definition empty_session : BTree := btree_open ∅ 0 4 512.
Definition sample_ops : list tree_op :=
  [OpPut [Byte.x62] (zeros 100); OpPut [Byte.x61] (zeros 100); OpPut [Byte.x63] (zeros 120);
   OpPut [Byte.x64] (zeros 120); OpPut [Byte.x65] (zeros 300); OpGet [Byte.x61];
   OpDelete [Byte.x62]; OpPut [Byte.x61] []; OpGet [Byte.x65]; OpDelete [Byte.x62]].
Definition sample_batches : list tree_op :=
  sample_ops ++
  [OpPutBatch [([Byte.x66], zeros 60); ([Byte.x67], zeros 120); ([Byte.x66], zeros 10)];
   OpDeleteBatch [[Byte.x64]; [Byte.x63]; [Byte.x63]]; OpGet [Byte.x66]; OpGet [Byte.x63]].

Lemma empty_session_map n :
  Z.of_nat n <= 2 ^ 60 -> tree_map 16 empty_session 0 ∅ [] ∅ n.
Proof.
  intros Hn. left. split; [reflexivity|]. split; [reflexivity|].
  split; [split; vm_compute; discriminate|].
  split; [split; [split; vm_compute; discriminate|split; vm_compute; discriminate]|].
  split; [|done]. unfold alloc_ok, unused, avail. simpl. split_and!; try done; try set_solver; try constructor. lia.
Qed.

Lemma btree_refines_map_witness :
  exists t' H', run_ops sample_batches empty_session = (Ok (spec_ops sample_batches ∅).1, t') /\
    tree_map 16 t' H' (spec_ops sample_batches ∅).2 [] ∅ 0 /\
    (spec_ops sample_batches ∅).1 =
      [Stored; Stored; Stored; Stored; Stored; Found (Some (zeros 100)); Deleted true; Stored;
       Found (Some (zeros 300)); Deleted false; BatchDone; BatchDone; Found (Some (zeros 10)); Found None].
Proof.
  destruct (btree_refines_map 16 sample_batches empty_session 0 ∅ [] ∅ 0) as (t' & H' & Hrun & Htm & _).
  - apply empty_session_map. vm_compute. discriminate.
  - repeat constructor; vm_compute; discriminate.
  - vm_compute. reflexivity.
  - exists t', H'. split; [exact Hrun|]. split; [exact Htm|]. vm_compute. reflexivity.
Defined.

(** C3: copy on write. A snapshot all of whose pages are protected reads the
    same, page by page and key by key, after any sequence of operations of a
    write session on the same pages. *)
Theorem snapshot_isolation (K K0 : Z) (os : list tree_op) (t : BTree) (H : nat)
    (m : gmap bytes bytes) (X : list Z) (P : gset Z) (root0 next0 ps0 : Z) (m0 : gmap bytes bytes) :
  tree_map K t H m X P (page_budget H os) -> Forall (op_ok K) os ->
  OVERFLOW_ROOT_HEADER_LEN + ENVELOPE_OVERHEAD < page_size t ->
  snapshot K0 (bt_pages t) root0 ps0 m0 P ->
  exists t', run_ops os t = (Ok (spec_ops os m).1, t') /\
    snapshot K0 (bt_pages t') root0 ps0 m0 P /\
    (forall key, get (btree_open (bt_pages t') root0 next0 ps0) key = Ok (m0 !! key)).
Proof.
  intros Htm Hok Hps Hsn. rewrite <-(Nat.add_0_r (page_budget H os)) in Htm.
  destruct (run_ops_map K X P 0 os t H m Htm Hok Hps) as (t' & H' & Hrun & _ & Hu).
  assert (snapshot K0 (bt_pages t') root0 ps0 m0 P) as Hsn'.
  { eapply snapshot_frame; [|exact Hsn]. intros p Hp. apply Hu. by left. }
  exists t'. split; [done|]. split; [done|]. intros key. by eapply snapshot_get.
Qed.

(** A committed one-leaf tree at page 5, and a writer that may reuse page 4. *)
Definition committed_leaf : Leaf :=
  mkLeaf 0 0 [([Byte.x61], Inline (zeros 100)); ([Byte.x62], Inline (zeros 100));
              ([Byte.x63], Inline (zeros 120))].
Definition committed_body : bytes :=
  match leaf_encode committed_leaf (zeros (body_capacity 512)) with Ok b => b | _ => [] end.
Definition committed_store : Store := {[ 5 := (PageKind.BTreeLeaf, committed_body) ]}.
Definition committed_map : gmap bytes bytes :=
  list_to_map [([Byte.x61], zeros 100); ([Byte.x62], zeros 100); ([Byte.x63], zeros 120)].
Definition writer_session : BTree :=
  btree_open_session committed_store 5 6 512 (mkPageSource 6 [4] ∅).

Lemma committed_body_ok :
  leaf_decode committed_body = Ok committed_leaf /\ blen committed_body = body_capacity 512.
Proof. split; vm_compute; reflexivity. Qed.

Lemma committed_rep t :
  bt_pages t = committed_store -> page_size t = 512 -> dirty_leaves t = ∅ -> fresh_leaves t = ∅ ->
  rep 16 t 0 5 None None (records committed_leaf) [5].
Proof.
  intros Hb Hz Hd Hf. destruct committed_body_ok as [Hdec Hlen].
  exists committed_leaf. split.
  { right. rewrite Hb, Hd, Hf, Hz. split; [done|]. exists committed_body, committed_leaf.
    split; [apply lookup_singleton_eq|]. split; [exact Hlen|]. split; [exact Hdec|].
    by rewrite lookup_empty. }
  split; [done|]. split; [done|]. split.
  { split; [unfold leaf_sorted; simpl; repeat constructor|]. split; [simpl; lia|]. split; [simpl; lia|].
    simpl. repeat constructor. }
  rewrite Hz. split; [vm_compute; reflexivity|]. split; [done|].
  repeat constructor; vm_compute; discriminate.
Qed.

Lemma committed_holds : holds committed_store (records committed_leaf)
  (list_to_map [([Byte.x61], []); ([Byte.x62], []); ([Byte.x63], [])]) committed_map.
Proof.
  intros q. unfold committed_map, rec_map. simpl.
  destruct (decide (q = [Byte.x61])) as [->|H1]; [rewrite !lookup_insert_eq; by eexists _, _|].
  rewrite !(lookup_insert_ne _ [Byte.x61]) by congruence.
  destruct (decide (q = [Byte.x62])) as [->|H2]; [rewrite !lookup_insert_eq; by eexists _, _|].
  rewrite !(lookup_insert_ne _ [Byte.x62]) by congruence.
  destruct (decide (q = [Byte.x63])) as [->|H3]; [rewrite !lookup_insert_eq; by eexists _, _|].
  rewrite !(lookup_insert_ne _ [Byte.x63]) by congruence. done.
Qed.

Lemma writer_session_map n :
  Z.of_nat n <= 2 ^ 60 -> tree_map 16 writer_session 0 committed_map [] {[5]} n.
Proof.
  intros Hn. right. exists (records committed_leaf), [5],
    (list_to_map [([Byte.x61], []); ([Byte.x62], []); ([Byte.x63], [])]).
  split; [|apply committed_holds]. constructor.
  - split; vm_compute; discriminate.
  - split; [split; vm_compute; discriminate|split; vm_compute; discriminate].
  - by apply committed_rep.
  - repeat constructor; vm_compute; discriminate.
  - replace (all_pages _) with ([] : list Z) by (vm_compute; reflexivity).
    apply open_session_alloc; simpl; [|set_solver by lia|lia|lia|set_solver by lia].
    apply (bool_decide_unpack _). vm_compute. exact I.
  - unfold caches_wf, caches_in. simpl. split; [intros p [[? ?]|[? ?]]; done|]. split; [by intros p [? ?]|].
    split; [by rewrite map_to_list_empty|by rewrite !dom_empty_L].
  - intros leaf path. simpl. by rewrite lookup_empty.
Qed.

Lemma snapshot_isolation_witness :
  exists t', run_ops sample_ops writer_session = (Ok (spec_ops sample_ops committed_map).1, t') /\
    snapshot 16 (bt_pages t') 5 512 committed_map {[5]} /\
    get (btree_open (bt_pages t') 5 6 512) [Byte.x62] = Ok (Some (zeros 100)).
Proof.
  destruct (snapshot_isolation 16 16 sample_ops writer_session 0 committed_map [] {[5]} 5 6 512 committed_map)
    as (t' & Hrun & Hsn & Hget).
  - apply writer_session_map. vm_compute. discriminate.
  - repeat constructor; vm_compute; discriminate.
  - vm_compute. reflexivity.
  - right. exists 0%nat, (records committed_leaf), [5],
      (list_to_map [([Byte.x61], []); ([Byte.x62], []); ([Byte.x63], [])]).
    split; [split; vm_compute; discriminate|]. split; [by apply committed_rep|].
    split; [apply (bool_decide_unpack _); vm_compute; exact I|]. split; [set_solver by lia|].
    split; [apply committed_holds|]. intros p Hp.
    replace (all_pages _) with ([] : list Z) in Hp by (vm_compute; reflexivity). set_solver.
  - exists t'. split; [exact Hrun|]. split; [exact Hsn|]. rewrite Hget. vm_compute. reflexivity.
Defined.
