(* ===== verification/TreeScan.v ===== *)
(** * TreeScan: scans over the leaves

    Positions of a subtree with what lies left and right of it, the steps to the
    next and to the previous leaf, and what the scans return: the bindings of
    the map in a range, in key order, in batches and reversed. *)

From S2P Require Import Prelude Keys Errors PageFormat Node Leaf Internal Split Store Overflow Tree TreeWrite TreeRep TreeAlloc TreeCow TreePropagate TreePut TreeOps TreeBatch TreeSpec.
From Stdlib Require Import ZArith Lia.
From stdpp Require Import base list strings gmap sorting.

Local Open Scope Z_scope.
Local Open Scope pagedb_scope.

Section scan.
Context (K : Z).
Local Abbreviation rep := (rep K).
Local Abbreviation frame := (frame K).

(** ** Positions *)

(** [pos t root H anc h c lo hi kL kR iL iR]: as [ctx], with the pages left and
    right of the subtree [c] apart. *)
Inductive pos (t : BTree) (root : Z) (H : nat)
  : list Z -> nat -> Z -> bound -> bound -> list leaf_record -> list leaf_record ->
    list Z -> list Z -> Prop :=
| pos_root : pos t root H [] H root None None [] [] [] []
| pos_child anc h p lo hi n es1 es2 c lo' hi' kL kR iL iR kL' kR' iL' iR' :
    pos t root H anc (S h) p lo hi kL kR iL iR ->
    frame t h p n es1 es2 lo hi c lo' hi' kL' kR' iL' iR' ->
    pos t root H (p :: anc) h c lo' hi' (kL ++ kL') (kR' ++ kR) (iL ++ iL') (iR' ++ iR).

Lemma pos_height t root H anc h c lo hi kL kR iL iR :
  pos t root H anc h c lo hi kL kR iL iR -> (length anc + h = H)%nat.
Proof. induction 1; simpl; lia. Qed.

(** ** Descents from a position *)

(** A choice of children under which [Q] stays true. *)
Definition steers (t : BTree) (pick : bytes -> result Z)
    (Q : bound -> bound -> list leaf_record -> list leaf_record -> list Z -> list Z -> Prop) : Prop :=
  forall h p n body lo hi kL kR iL iR kvs ids,
  internal_at t p n -> internal_decode body = Ok n ->
  (internal_sorted n -> forall q, pick_child_for q body = Ok (child_of n q)) ->
  rep t (S h) p lo hi kvs ids -> Q lo hi kL kR iL iR ->
  exists es1 es2 c lo' hi' kL' kR' iL' iR' kvs' ids', pick body = Ok c /\
    frame t h p n es1 es2 lo hi c lo' hi' kL' kR' iL' iR' /\ rep t h c lo' hi' kvs' ids' /\
    kvs = kL' ++ kvs' ++ kR' /\ ids = p :: iL' ++ ids' ++ iR' /\
    Q lo' hi' (kL ++ kL') (kR' ++ kR) (iL ++ iL') (iR' ++ iR).

Lemma descend_steers t root H pick Q :
  page_size_ok t -> steers t pick Q ->
  forall h fuel anc c lo hi kL kR iL iR kvs ids seen S,
  pos t root H anc h c lo hi kL kR iL iR -> rep t h c lo hi kvs ids -> Q lo hi kL kR iL iR ->
  NoDup ids -> ~ (0 ∈ ids) -> seen_rep seen S -> (forall q, q ∈ ids -> q ∉ S) -> (h <= fuel)%nat ->
  exists anc' leaf lo' hi' kL' kR' iL' iR' l,
    descend fuel t pick (reverse anc) c seen = Ok (reverse anc' ++ [leaf]) /\
    pos t root H anc' 0 leaf lo' hi' kL' kR' iL' iR' /\ rep t 0 leaf lo' hi' (records l) [leaf] /\
    leaf_at t leaf l /\ Q lo' hi' kL' kR' iL' iR' /\
    kL' ++ records l ++ kR' = kL ++ kvs ++ kR /\
    exists mid, anc' = mid ++ anc /\ mid ++ iL' ++ leaf :: iR' ≡ₚ iL ++ ids ++ iR.
Proof.
  intros Hps Hst. induction h as [|h IH];
    intros fuel anc c lo hi kL kR iL iR kvs ids seen S Hpos Hrep HQ Hnd H0 Hseen Hdis Hf;
    destruct (rep_head _ _ _ _ _ _ _ _ Hrep) as [ids0 Hids];
    (destruct (seen_insert_ok seen _ c Hseen) as (seen' & Hsi & Hseen');
      [intros ->; apply H0; rewrite Hids; by left|apply Hdis; rewrite Hids; by left|]).
  - pose proof Hrep as (l & Hl & <- & -> & _).
    exists anc, c, lo, hi, kL, kR, iL, iR, l. split; [|by split_and!; [..|exists []]].
    destruct fuel; simpl; rewrite Hsi; (case_bool_decide as Hfr; [done|]);
      destruct (read_node_guard_leaf t c l Hps Hl) as (body & l0 & -> & _); try done;
      by apply eq_None_not_Some.
  - pose proof Hrep as (n & ids1 & Hn & _ & _).
    destruct (read_node_guard_internal t c n Hps Hn) as (body & Hg & _ & Hd & Hpk).
    destruct (Hst h c n body lo hi kL kR iL iR kvs ids Hn Hd Hpk Hrep HQ)
      as (es1 & es2 & c' & lo' & hi' & kL1 & kR1 & iL1 & iR1 & kvs' & ids' & Hpick & Hfr & Hr & -> & Hi & HQ').
    destruct fuel as [|fuel]; [lia|]. cbn [descend]. rewrite Hsi.
    rewrite bool_decide_false by (destruct Hn as [-> _]; by intros [? ?]).
    rewrite Hg, Hpick. rewrite Hi in *. clear ids0 Hids.
    apply NoDup_cons in Hnd as [Hc Hnd].
    pose proof Hnd as (_ & _ & Hnd2)%NoDup_app. apply NoDup_app in Hnd2 as (Hnd2 & _ & _).
    destruct (IH fuel (c :: anc) c' lo' hi' (kL ++ kL1) (kR1 ++ kR) (iL ++ iL1) (iR1 ++ iR) kvs' ids' seen' ({[c]} ∪ S))
      as (anc' & leaf & lo2 & hi2 & kL2 & kR2 & iL2 & iR2 & l & Hdesc & Hpos' & Hr' & Hl' & HQ2 & Hk & mid & -> & Hp2);
      try done.
    + econstructor; [done|exact Hfr].
    + set_solver.
    + intros q Hq. specialize (Hdis q). set_solver.
    + lia.
    + rewrite reverse_cons in Hdesc.
      exists (mid ++ c :: anc), leaf, lo2, hi2, kL2, kR2, iL2, iR2, l. split_and!; try done.
      * rewrite Hk, <-!app_assoc. done.
      * exists (mid ++ [c]). rewrite <-app_assoc. split; [done|].
        rewrite (Permutation_app_comm mid), <-app_assoc, Hp2. solve_Permutation.
Qed.

Lemma steers_key t q : steers t (pick_child_for q) (fun lo hi _ _ _ _ => in_range lo hi q).
Proof.
  intros h p n body lo hi kL kR iL iR kvs ids Hn _ Hpk Hrep Hq.
  destruct (rep_child K t h p lo hi kvs ids q Hrep Hq)
    as (n' & es1 & es2 & lo' & hi' & kL1 & kR1 & iL1 & iR1 & kvs' & ids' & Hn' & Hs & Hfr & Hr & Hq' & -> & ->).
  rewrite (internal_at_inj _ _ _ _ Hn' Hn) in *. rewrite Hpk by done.
  by eexists _, _, _, _, _, _, _, _, _, _, _.
Qed.

Lemma steers_leftmost t lo0 kL0 iL0 :
  steers t pick_leftmost (fun lo _ kL _ iL _ => lo = lo0 /\ kL = kL0 /\ iL = iL0).
Proof.
  intros h p n body lo hi kL kR iL iR kvs ids Hn Hd _ (n' & ids' & Hn' & -> & Hs) (-> & -> & ->).
  rewrite (internal_at_inj _ _ _ _ Hn' Hn) in *. clear n' Hn'.
  unfold pick_leftmost. rewrite Hd.
  destruct (seg_unplug _ _ _ [] (entries n) _ _ _ _ Hs)
    as (lo' & hi' & kL1 & kR1 & iL1 & iR1 & kvs' & ids1 & HL & HR & Hr & -> & -> & _ & _). simpl in *.
  destruct HL as [(_ & _ & -> & -> & ->)|(es0 & k & Hbad & _)]; [|by destruct es0].
  exists [], (entries n), (leftmost_child n), lo0, hi', [], kR1, [], iR1, kvs', ids1.
  rewrite !app_nil_r. split_and!; try done. split; [done|]. split; [done|]. split; [by left|done].
Qed.

Lemma steers_rightmost t hi0 kR0 iR0 :
  steers t pick_rightmost (fun _ hi _ kR _ iR => hi = hi0 /\ kR = kR0 /\ iR = iR0).
Proof.
  intros h p n body lo hi kL kR iL iR kvs ids Hn Hd _ (n' & ids' & Hn' & -> & Hs) (-> & -> & ->).
  rewrite (internal_at_inj _ _ _ _ Hn' Hn) in *. clear n' Hn'.
  unfold pick_rightmost. rewrite Hd. cbv beta iota.
  rewrite <-(app_nil_r (entries n)) in Hs.
  apply seg_unplug in Hs
    as (lo' & hi' & kL1 & kR1 & iL1 & iR1 & kvs' & ids1 & HL & HR & Hr & -> & -> & _ & _).
  destruct HR as [(_ & -> & -> & ->)|(k & c & es0 & Hbad & _)]; [|done].
  exists (entries n), [], (default (leftmost_child n) (last (entries n).*2)), lo', hi0, kL1, [], iL1, [], kvs', ids1.
  split; [by rewrite fmap_last; destruct (last (entries n)) as [[]|]|].
  split; [split; [done|]; split; [by rewrite app_nil_r|]; split; [done|by left]|]. done.
Qed.

(** ** Siblings under one node *)

(** The hole of a frame is found at its place. *)
Lemma frame_siblings t h p n es1 es2 lo hi c lo' hi' kL kR iL iR :
  frame t h p n es1 es2 lo hi c lo' hi' kL kR iL iR -> ~ (c ∈ iL) ->
  right_sibling_child n c = snd <$> head es2 /\
  (es1 = [] /\ left_sibling_child n c = None \/
   exists es0 k, es1 = es0 ++ [(k, c)] /\
     left_sibling_child n c = Some (default (leftmost_child n) (last es0.*2))).
Proof.
  intros (Hn & He & HL & _) Hc. unfold right_sibling_child, left_sibling_child.
  destruct HL as [(-> & Hl & _)|(es0 & k & -> & _ & _ & Hs)].
  - rewrite Hl, Z.eqb_refl, He. split; [done|by left].
  - pose proof (seg_children _ _ _ _ _ _ _ _ _ Hs) as Hch.
    rewrite (proj2 (Z.eqb_neq _ _)) by (intros <-; apply Hc, Hch; by left).
    rewrite He, <-app_assoc. simpl.
    rewrite child_index_app by (intros Hin; apply Hc, Hch; by right). simpl. split.
    + rewrite lookup_app_r by lia. replace (length es0 + 1 - length es0)%nat with 1%nat by lia.
      by destruct es2.
    + right. exists es0, k. split; [done|]. destruct es0 as [|e es0 _] using rev_ind; [done|].
      rewrite length_app, Nat.add_comm. simpl. rewrite fmap_app, last_app. simpl.
      by rewrite <-app_assoc, lookup_app_r, Nat.sub_diag by lia.
Qed.

(** Moving the hole of a frame one child to the right. *)
Lemma frame_next t h p n es1 es2 lo hi c lo' hi' kL kR iL iR kvs ids :
  frame t h p n es1 es2 lo hi c lo' hi' kL kR iL iR -> rep t h c lo' hi' kvs ids -> ~ (c ∈ iL) ->
  right_sibling_child n c = None /\ hi' = hi /\ kR = [] /\ iR = [] \/
  exists es1' es2' c2 hi2 kR2 iR2 kvs2 ids2, right_sibling_child n c = Some c2 /\
    frame t h p n es1' es2' lo hi c2 hi' hi2 (kL ++ kvs) kR2 (iL ++ ids) iR2 /\
    rep t h c2 hi' hi2 kvs2 ids2 /\ kR = kvs2 ++ kR2 /\ iR = ids2 ++ iR2.
Proof.
  intros Hf Hr Hc. destruct (frame_siblings _ _ _ _ _ _ _ _ _ _ _ _ _ _ _ Hf Hc) as [Hs _].
  destruct Hf as (Hn & He & HL & [(-> & -> & -> & ->)|(k & c2 & es0 & -> & -> & HK & Hseg)]); [by left|].
  right. destruct (seg_unplug _ _ _ [] es0 _ _ _ _ Hseg)
    as (lo2 & hi2 & kL1 & kR2 & iL1 & iR2 & kvs2 & ids2 & HL2 & HR2 & Hr2 & -> & -> & _ & _). simpl in *.
  destruct HL2 as [(_ & _ & -> & -> & ->)|(es3 & k3 & Hbad & _)]; [|by destruct es3].
  exists (es1 ++ [(k, c2)]), es0, c2, hi2, kR2, iR2, kvs2, ids2. split; [done|]. split; [|done].
  split; [done|]. split; [by rewrite <-app_assoc|]. split; [|done].
  right. exists es1, k. split; [done|]. split; [done|]. split; [done|].
  pose proof (seg_plug K (rep t h) _ es1 [] c lo lo' (Some k) (Some k) kL [] iL [] kvs ids HL) as Hp.
  rewrite !app_nil_r in Hp. apply Hp; [by left|done].
Qed.

(** And one to the left. *)
Lemma frame_prev t h p n es1 es2 lo hi c lo' hi' kL kR iL iR kvs ids :
  frame t h p n es1 es2 lo hi c lo' hi' kL kR iL iR -> rep t h c lo' hi' kvs ids -> ~ (c ∈ iL) ->
  left_sibling_child n c = None /\ lo' = lo /\ kL = [] /\ iL = [] \/
  exists es1' es2' c1 lo1 kL1 iL1 kvs1 ids1, left_sibling_child n c = Some c1 /\
    frame t h p n es1' es2' lo hi c1 lo1 lo' kL1 (kvs ++ kR) iL1 (ids ++ iR) /\
    rep t h c1 lo1 lo' kvs1 ids1 /\ kL = kL1 ++ kvs1 /\ iL = iL1 ++ ids1.
Proof.
  intros Hf Hr Hc. destruct (frame_siblings _ _ _ _ _ _ _ _ _ _ _ _ _ _ _ Hf Hc) as [_ Hs].
  destruct Hf as (Hn & He & [(-> & Hl & -> & -> & ->)|(es0 & k & -> & -> & HK & Hseg)] & HR).
  { left. destruct Hs as [[_ ?]|(es3 & k3 & Hbad & _)]; [done|by destruct es3]. }
  destruct Hs as [[Hbad _]|(es3 & k3 & Heq & Hs)]; [by destruct es0|].
  apply app_inj_tail in Heq as [<- _]. right.
  rewrite <-(app_nil_r es0) in Hseg. apply seg_unplug in Hseg
    as (lo1 & hi1 & kL1 & kR1 & iL1 & iR1 & kvs1 & ids1 & HL1 & HR1 & Hr1 & -> & -> & _ & _).
  destruct HR1 as [(_ & -> & -> & ->)|(k1 & c1 & es3 & Hbad & _)]; [|done].
  exists es0, ((k, c) :: es2), (default (leftmost_child n) (last es0.*2)), lo1, kL1, iL1, kvs1, ids1.
  rewrite !app_nil_r. split; [done|]. split; [|done].
  split; [done|]. split; [by rewrite He, <-app_assoc|]. split; [done|].
  right. exists k, c, es2. split; [done|]. split; [done|]. split; [done|].
  apply (seg_plug K (rep t h) c [] es2 c (Some k) (Some k) hi' hi [] kR [] iR kvs ids); [by left|done|done].
Qed.

(** ** The next and the previous leaf *)

(** In the tree of [all] pages below [root], the pages [anc] lead to [leaf], which
    holds [l]; [kL] and [kR] are the records left and right of it. *)
Definition at_leaf (t : BTree) (root : Z) (H : nat) (all : list Z) (anc : list Z) (leaf : Z)
    (lo hi : bound) (kL kR : list leaf_record) (iL iR : list Z) (l : Leaf) : Prop :=
  pos t root H anc 0 leaf lo hi kL kR iL iR /\ rep t 0 leaf lo hi (records l) [leaf] /\
  leaf_at t leaf l /\ anc ++ iL ++ leaf :: iR ≡ₚ all.

Section up.
Context (t : BTree) (root : Z) (H : nat) (all : list Z).
Context (Hps : page_size_ok t) (Hnd : NoDup all) (Hz : ~ (0 ∈ all)) (Hfuel : (H <= nav_fuel t)%nat).

Lemma all_parts anc iL ids iR :
  anc ++ iL ++ ids ++ iR ≡ₚ all ->
  NoDup ids /\ ~ (0 ∈ ids) /\ NoDup iR /\ NoDup iL /\ (forall q, q ∈ ids -> ~ (q ∈ anc) /\ ~ (q ∈ iL) /\ ~ (q ∈ iR)).
Proof.
  intros Hp. assert (NoDup (anc ++ iL ++ ids ++ iR)) as Hn by (by rewrite Hp).
  apply NoDup_app in Hn as (_ & H1 & Hn). apply NoDup_app in Hn as (HL & H2 & Hn).
  apply NoDup_app in Hn as (H3 & H4 & HR).
  split; [done|]. split; [intros H0; apply Hz; rewrite <-Hp; mem|]. split; [done|]. split; [done|].
  intros q Hq. split; [intros Hin; apply (H1 q Hin); mem|]. split; [intros Hin; apply (H2 q Hin); mem|by apply H4].
Qed.

Lemma next_up anc h c lo hi kL kR iL iR kvs ids seen S :
  pos t root H anc h c lo hi kL kR iL iR -> rep t h c lo hi kvs ids ->
  anc ++ iL ++ ids ++ iR ≡ₚ all -> seen_rep seen S -> (forall q, q ∈ iR -> q ∉ S) ->
  sibling_leaf_loop t right_sibling_child pick_leftmost anc c seen = Ok None /\ kR = [] /\ hi = None \/
  exists anc' leaf hi' kR' iL' iR' l,
    sibling_leaf_loop t right_sibling_child pick_leftmost anc c seen = Ok (Some (reverse anc' ++ [leaf])) /\
    at_leaf t root H all anc' leaf hi hi' (kL ++ kvs) kR' iL' iR' l /\ kR = records l ++ kR' /\
    leaf ∈ iR /\ (forall q, q ∈ iR' -> q ∈ iR) /\ (length iR' < length iR)%nat.
Proof.
  intros Hpos. revert kvs ids. induction Hpos as [|anc h p lo hi n es1 es2 c lo' hi' kL kR iL iR kL' kR' iL' iR' Hpos IH Hf];
    intros kvs ids Hr Hall Hseen Hdis; [by left|].
  destruct (rep_head _ _ _ _ _ _ _ _ Hr) as [ids0 Hids].
  assert (~ (c ∈ iL')) as Hc.
  { destruct (all_parts _ _ _ _ Hall) as (_ & _ & _ & _ & Hd). destruct (Hd c) as (_ & Hc & _); [rewrite Hids; by left|].
    intros Hin. apply Hc. mem. }
  destruct (read_node_guard_internal t p n Hps) as (body & Hg & _ & Hdec & _); [by destruct Hf|].
  cbn [sibling_leaf_loop]. rewrite Hg, Hdec.
  destruct (frame_next _ _ _ _ _ _ _ _ _ _ _ _ _ _ _ _ _ Hf Hr Hc)
    as [(-> & -> & -> & ->)|(es1' & es2' & c2 & hi2 & kR2 & iR2 & kvs2 & ids2 & -> & Hf2 & Hr2 & -> & ->)].
  - destruct (IH _ _ (frame_plug _ _ _ _ _ _ _ _ _ _ _ _ _ _ _ _ _ _ Hf Hr))
      as [(? & ? & ?)|(anc' & leaf & hi2 & kR2 & iL2 & iR2 & l & Hl & Hat & -> & Hin & Hsub & Hlen)]; try done.
    + rewrite <-Hall. solve_Permutation.
    + by left.
    + right. exists anc', leaf, hi2, kR2, iL2, iR2, l. split; [done|]. rewrite app_nil_r, app_assoc in Hat. done.
  - right. assert ((p :: anc) ++ (iL ++ iL' ++ ids) ++ ids2 ++ (iR2 ++ iR) ≡ₚ all) as Hall2
      by (rewrite <-Hall; solve_Permutation).
    destruct (all_parts _ _ _ _ Hall2) as (Hn2 & H02 & _ & _ & _).
    destruct (descend_steers t root H pick_leftmost _ Hps (steers_leftmost t hi' (kL ++ kL' ++ kvs) (iL ++ iL' ++ ids))
      h (nav_fuel t) (p :: anc) c2 hi' hi2 (kL ++ kL' ++ kvs) (kR2 ++ kR) (iL ++ iL' ++ ids) (iR2 ++ iR) kvs2 ids2 seen S)
      as (anc' & leaf & lo3 & hi3 & kL3 & kR3 & iL3 & iR3 & l & Hdesc & Hpos' & Hr' & Hl' & (-> & -> & ->) & Hk & mid & -> & Hp2);
      try done.
    + by econstructor.
    + intros q Hq. apply Hdis. mem.
    + apply pos_height in Hpos. lia.
    + assert (mid ++ leaf :: iR3 ≡ₚ ids2 ++ iR2 ++ iR) as Hp3.
      { apply (Permutation_app_inv_l (iL ++ iL' ++ ids)). rewrite <-Hp2. solve_Permutation. }
      exists (mid ++ p :: anc), leaf, hi3, kR3, (iL ++ iL' ++ ids), iR3, l. rewrite Hdesc. split; [done|].
      apply app_inv_head in Hk. rewrite <-!app_assoc in *. split; [|split; [by rewrite Hk|]].
      * split; [done|]. split; [done|]. split; [done|]. rewrite <-Hall2.
        trans ((p :: anc) ++ (iL ++ iL' ++ ids) ++ mid ++ leaf :: iR3); [solve_Permutation|].
        by rewrite Hp3, <-!app_assoc.
      * split; [rewrite <-Hp3; mem|]. split; [intros q Hq; rewrite <-Hp3; mem|].
        apply Permutation_length in Hp3. revert Hp3. rewrite !length_app. simpl. lia.
Qed.

Lemma prev_up anc h c lo hi kL kR iL iR kvs ids seen S :
  pos t root H anc h c lo hi kL kR iL iR -> rep t h c lo hi kvs ids ->
  anc ++ iL ++ ids ++ iR ≡ₚ all -> seen_rep seen S -> (forall q, q ∈ iL -> q ∉ S) ->
  sibling_leaf_loop t left_sibling_child pick_rightmost anc c seen = Ok None /\ kL = [] /\ lo = None \/
  exists anc' leaf lo' kL' iL' iR' l,
    sibling_leaf_loop t left_sibling_child pick_rightmost anc c seen = Ok (Some (reverse anc' ++ [leaf])) /\
    at_leaf t root H all anc' leaf lo' lo kL' (kvs ++ kR) iL' iR' l /\ kL = kL' ++ records l /\
    leaf ∈ iL /\ (forall q, q ∈ iL' -> q ∈ iL) /\ (length iL' < length iL)%nat.
Proof.
  intros Hpos. revert kvs ids. induction Hpos as [|anc h p lo hi n es1 es2 c lo' hi' kL kR iL iR kL' kR' iL' iR' Hpos IH Hf];
    intros kvs ids Hr Hall Hseen Hdis; [by left|].
  destruct (rep_head _ _ _ _ _ _ _ _ Hr) as [ids0 Hids].
  assert (~ (c ∈ iL')) as Hc.
  { destruct (all_parts _ _ _ _ Hall) as (_ & _ & _ & _ & Hd). destruct (Hd c) as (_ & Hc & _); [rewrite Hids; by left|].
    intros Hin. apply Hc. mem. }
  destruct (read_node_guard_internal t p n Hps) as (body & Hg & _ & Hdec & _); [by destruct Hf|].
  cbn [sibling_leaf_loop]. rewrite Hg, Hdec.
  destruct (frame_prev _ _ _ _ _ _ _ _ _ _ _ _ _ _ _ _ _ Hf Hr Hc)
    as [(-> & -> & -> & ->)|(es1' & es2' & c1 & lo1 & kL1 & iL1 & kvs1 & ids1 & -> & Hf1 & Hr1 & -> & ->)].
  - rewrite !app_nil_r in *. destruct (IH _ _ (frame_plug _ _ _ _ _ _ _ _ _ _ _ _ _ _ _ _ _ _ Hf Hr))
      as [(? & ? & ?)|(anc' & leaf & lo2 & kL2 & iL2 & iR2 & l & Hl & Hat & -> & Hin & Hsub & Hlen)]; try done.
    + rewrite <-Hall. solve_Permutation.
    + by left.
    + right. exists anc', leaf, lo2, kL2, iL2, iR2, l. split; [done|]. rewrite app_nil_l, <-app_assoc in Hat. done.
  - right. assert ((p :: anc) ++ (iL ++ iL1) ++ ids1 ++ ((ids ++ iR') ++ iR) ≡ₚ all) as Hall1
      by (rewrite <-Hall; solve_Permutation).
    destruct (all_parts _ _ _ _ Hall1) as (Hn1 & H01 & _ & _ & _).
    destruct (descend_steers t root H pick_rightmost _ Hps
        (steers_rightmost t lo' ((kvs ++ kR') ++ kR) ((ids ++ iR') ++ iR))
      h (nav_fuel t) (p :: anc) c1 lo1 lo' (kL ++ kL1) ((kvs ++ kR') ++ kR) (iL ++ iL1) ((ids ++ iR') ++ iR) kvs1 ids1 seen S)
      as (anc' & leaf & lo3 & hi3 & kL3 & kR3 & iL3 & iR3 & l & Hdesc & Hpos' & Hr' & Hl' & (-> & -> & ->) & Hk & mid & -> & Hp2);
      try done.
    + by econstructor.
    + intros q Hq. apply Hdis. mem.
    + apply pos_height in Hpos. lia.
    + assert (mid ++ iL3 ++ [leaf] ≡ₚ (iL ++ iL1) ++ ids1) as Hp3.
      { apply (Permutation_app_inv_r ((ids ++ iR') ++ iR)). etrans; [|etrans; [exact Hp2|]]; solve_Permutation. }
      exists (mid ++ p :: anc), leaf, lo3, kL3, iL3, ((ids ++ iR') ++ iR), l. rewrite Hdesc. split; [done|].
      rewrite !app_assoc in Hk. do 3 apply app_inv_tail in Hk. rewrite <-!app_assoc in *.
      split; [|split; [done|]].
      * split; [done|]. split; [done|]. split; [done|]. rewrite <-Hall1.
        trans ((p :: anc) ++ (mid ++ iL3 ++ [leaf]) ++ ids ++ iR' ++ iR); [solve_Permutation|].
        rewrite Hp3. solve_Permutation.
      * split; [rewrite <-Hp3; mem|]. split; [intros q Hq; rewrite <-Hp3; mem|].
        apply Permutation_length in Hp3. revert Hp3. rewrite !length_app. simpl. lia.
Qed.

Lemma seen_existing_ok path s S :
  seen_rep s S -> NoDup path -> ~ (0 ∈ path) -> (forall q, q ∈ path -> q ∉ S) ->
  exists s', fold_res seen_insert s path = Ok s' /\ seen_rep s' (list_to_set path ∪ S).
Proof.
  revert s S. induction path as [|p path IH]; intros s S Hs Hn H0 Hd; simpl.
  - exists s. split; [done|]. by rewrite union_empty_l_L.
  - apply NoDup_cons in Hn as [Hp Hn].
    destruct (seen_insert_ok s S p Hs) as (s1 & -> & Hs1); [set_solver|apply Hd; by left|].
    destruct (IH s1 _ Hs1 Hn) as (s2 & He & Hs2); [set_solver|set_solver|].
    exists s2. split; [done|].
    by replace ({[p]} ∪ list_to_set path ∪ S) with (list_to_set path ∪ ({[p]} ∪ S)) by set_solver.
Qed.

(** The detector a sibling step starts with holds the path. *)
Lemma at_leaf_path anc leaf lo hi kL kR iL iR l :
  at_leaf t root H all anc leaf lo hi kL kR iL iR l ->
  exists seen, seen_from_existing "btree_descent" (reverse anc ++ [leaf]) = Ok seen /\
    seen_rep seen (list_to_set (reverse anc ++ [leaf]) ∪ ∅) /\
    (forall q, q ∈ iL ++ iR -> q ∉ (list_to_set (reverse anc ++ [leaf]) ∪ ∅ : gset Z)).
Proof.
  intros (_ & _ & _ & Hp).
  assert (NoDup ((reverse anc ++ [leaf]) ++ iL ++ iR)) as Hn.
  { eapply NoDup_perm; [|exact Hnd]. rewrite <-Hp, reverse_Permutation. solve_Permutation. }
  apply NoDup_app in Hn as (Hn & Hd & _).
  destruct (seen_existing_ok (reverse anc ++ [leaf]) (seen_new "btree_descent") ∅) as (s & Hs & Hrep).
  - apply seen_new_rep.
  - done.
  - intros H0. apply Hz. rewrite <-Hp. rewrite elem_of_app, elem_of_reverse in H0. mem in H0.
  - set_solver.
  - exists s. split; [done|]. split; [done|]. intros q Hq Hin.
    apply elem_of_union in Hin as [Hin|?]; [|set_solver]. rewrite elem_of_list_to_set in Hin. by apply (Hd q Hin).
Qed.

Lemma next_leaf_after_ok anc leaf lo hi kL kR iL iR l :
  at_leaf t root H all anc leaf lo hi kL kR iL iR l ->
  next_leaf_after t (reverse anc ++ [leaf]) = Ok None /\ kR = [] \/
  exists anc' leaf' hi' kR' iL' iR' l',
    next_leaf_after t (reverse anc ++ [leaf]) = Ok (Some (reverse anc' ++ [leaf'])) /\
    at_leaf t root H all anc' leaf' hi hi' (kL ++ records l) kR' iL' iR' l' /\ kR = records l' ++ kR' /\
    leaf' ∈ iR /\ (forall q, q ∈ iR' -> q ∈ iR) /\ (length iR' < length iR)%nat.
Proof.
  intros Hat. pose proof Hat as (Hpos & Hr & Hl & Hp). unfold next_leaf_after, sibling_leaf.
  rewrite length_app, length_reverse. simpl.
  destruct (Nat.ltb_spec (length anc + 1) 2) as [Hlt|Hge].
  { left. split; [done|]. destruct Hpos; [done|simpl in Hlt; lia]. }
  destruct (at_leaf_path _ _ _ _ _ _ _ _ _ Hat) as (seen & -> & Hseen & Hdis).
  rewrite reverse_app, reverse_involutive. simpl.
  destruct (next_up anc 0 leaf lo hi kL kR iL iR (records l) [leaf] seen _ Hpos Hr Hp Hseen) as [(? & ? & ?)|?];
    [|by left|by right].
  intros q Hq. apply Hdis. mem.
Qed.

Lemma prev_leaf_before_ok anc leaf lo hi kL kR iL iR l :
  at_leaf t root H all anc leaf lo hi kL kR iL iR l ->
  prev_leaf_before t (reverse anc ++ [leaf]) = Ok None /\ kL = [] \/
  exists anc' leaf' lo' kL' iL' iR' l',
    prev_leaf_before t (reverse anc ++ [leaf]) = Ok (Some (reverse anc' ++ [leaf'])) /\
    at_leaf t root H all anc' leaf' lo' lo kL' (records l ++ kR) iL' iR' l' /\ kL = kL' ++ records l' /\
    leaf' ∈ iL /\ (forall q, q ∈ iL' -> q ∈ iL) /\ (length iL' < length iL)%nat.
Proof.
  intros Hat. pose proof Hat as (Hpos & Hr & Hl & Hp). unfold prev_leaf_before, sibling_leaf.
  rewrite length_app, length_reverse. simpl.
  destruct (Nat.ltb_spec (length anc + 1) 2) as [Hlt|Hge].
  { left. split; [done|]. destruct Hpos; [done|simpl in Hlt; lia]. }
  destruct (at_leaf_path _ _ _ _ _ _ _ _ _ Hat) as (seen & -> & Hseen & Hdis).
  rewrite reverse_app, reverse_involutive. simpl.
  destruct (prev_up anc 0 leaf lo hi kL kR iL iR (records l) [leaf] seen _ Hpos Hr Hp Hseen) as [(? & ? & ?)|?];
    [|by left|by right].
  intros q Hq. apply Hdis. mem.
Qed.
End up.

(** ** The scan loop visits every leaf from its start on *)

(** What a scan makes of the leaves it visits. *)
Fixpoint fold_leaves {A} (step : A -> Leaf -> result (A * bool)) (acc : A) (ls : list Leaf)
  : result A :=
  match ls with
  | [] => Ok acc
  | l :: ls => let! '(acc, stop) := step acc l in
               if (stop : bool) then Ok acc else fold_leaves step acc ls
  end.

Section loop.
Context (t : BTree) (check : bool) (advance : BTree -> list Z -> result (option (list Z))).
Context (view : Leaf -> list leaf_record).
(** [St path leaf l rest todo]: [path] leads to [leaf]; the leaves after it hold
    [rest] and are among [todo]. *)
Context (St : list Z -> Z -> Leaf -> list leaf_record -> list Z -> Prop).
Context (St_leaf : forall path leaf l rest todo, St path leaf l rest todo ->
  last path = Some leaf /\ leaf_at t leaf l /\ leaf <> 0 /\ ~ (leaf ∈ todo) /\
  (check = true -> leaf_right_sibling l = 0)).
Context (St_next : forall path leaf l rest todo, St path leaf l rest todo ->
  advance t path = Ok None /\ rest = [] \/
  exists path' leaf' l' rest' todo', advance t path = Ok (Some path') /\
    St path' leaf' l' rest' todo' /\ rest = view l' ++ rest' /\ leaf' ∈ todo /\
    (forall q, q ∈ todo' -> q ∈ todo) /\ (length todo' < length todo)%nat).

Lemma scan_loop_ok {A} (step : A -> Leaf -> result (A * bool)) fuel path leaf l rest todo seen S acc :
  St path leaf l rest todo -> seen_rep seen S -> leaf ∉ S -> (forall q, q ∈ todo -> q ∉ S) ->
  (length todo <= fuel)%nat ->
  exists ls, concat (view <$> ls) = view l ++ rest /\
    scan_loop fuel t check advance step path seen acc = fold_leaves step acc ls.
Proof.
  revert path leaf l rest todo seen S acc.
  induction fuel as [|fuel IH]; intros path leaf l rest todo seen S acc Hst Hseen Hl Hd Hf;
    destruct (St_leaf _ _ _ _ _ Hst) as (Hlast & Hat & H0 & Hnt & Hck);
    destruct (seen_insert_ok seen S leaf Hseen H0 Hl) as (seen' & Hsi & Hseen');
    cbn [scan_loop]; unfold path_leaf; rewrite Hlast; cbv beta iota; rewrite Hsi, (read_leaf_ok t leaf l Hat);
    (destruct (St_next _ _ _ _ _ Hst)
      as [(Hadv & ->)|(path' & leaf' & l' & rest' & todo' & Hadv & Hst' & -> & Hin & Hsub & Hlen)]);
    rewrite Hadv.
  1,3: exists [l]; split; [done|]; cbn [fold_leaves]; (destruct (step acc l) as [[acc' []]| |]; [done| |done..]);
    (destruct check; [rewrite Hck by done|]; done).
  - lia.
  - destruct (IH path' leaf' l' rest' todo' seen' ({[leaf]} ∪ S)
      (match step acc l with Ok (a, _) => a | _ => acc end) Hst' Hseen') as (ls & Hc & Hrun).
    + specialize (Hd leaf' Hin). set_solver.
    + intros q Hq. specialize (Hd q (Hsub q Hq)). specialize (Hsub q Hq). set_solver.
    + lia.
    + exists (l :: ls). split; [rewrite fmap_cons; cbn [concat]; by rewrite Hc|]. cbn [fold_leaves].
      destruct (step acc l) as [[acc' []]| |]; [done| |done..].
      destruct check; [rewrite Hck by done|]; done.
Qed.
End loop.

(** A step on a leaf's records that can as well take the records of many leaves
    at once. *)
Definition chunked {A} (f : A -> list leaf_record -> result (A * bool)) : Prop :=
  (forall acc, exists b, f acc [] = Ok (acc, b)) /\
  (forall acc a b, (let! '(x, stop) := f acc a in if (stop : bool) then Ok x else
                    let! '(y, _) := f x b in Ok y) = (let! '(y, _) := f acc (a ++ b) in Ok y)).

Lemma fold_leaves_chunked {A} (f : A -> list leaf_record -> result (A * bool)) view acc ls :
  chunked f ->
  fold_leaves (fun acc l => f acc (view l)) acc ls =
  (let! '(x, _) := f acc (concat (view <$> ls)) in Ok x).
Proof.
  intros [Hnil Happ]. revert acc. induction ls as [|l ls IH]; intros acc; cbn [fold_leaves fmap list_fmap concat].
  - by destruct (Hnil acc) as [b ->].
  - rewrite <-Happ. destruct (f acc (view l)) as [[x []]| |]; [done| |done..]. apply IH.
Qed.

(** ** Scans of a whole tree *)

Lemma pos_ctx t root H anc h c lo hi kL kR iL iR :
  pos t root H anc h c lo hi kL kR iL iR -> exists iC, ctx K t root H anc h c lo hi kL kR iC /\ iC ≡ₚ iL ++ iR.
Proof.
  induction 1 as [|anc h p lo hi n es1 es2 c lo' hi' kL kR iL iR kL' kR' iL' iR' _ (iC & IH & Hi) Hf];
    eexists; (split; [by econstructor|]); [done|]. rewrite Hi. solve_Permutation.
Qed.

(** Every page of a tree is in the page image or in the fresh cache. *)
Lemma rep_pages t h p lo hi kvs ids q :
  rep t h p lo hi kvs ids -> q ∈ ids -> q ∈ dom (bt_pages t) ∪ dom (fresh_leaves t).
Proof.
  revert p lo hi kvs ids. induction h as [|h IH]; intros p lo hi kvs ids; simpl.
  - intros (l & Hl & _ & -> & _) ->%list_elem_of_singleton. rewrite elem_of_union, !elem_of_dom.
    destruct Hl as [->|(_ & body & l0 & -> & _)]; eauto.
  - intros (n & ids' & Hn & -> & Hs) [->|Hq]%elem_of_cons.
    { rewrite elem_of_union, !elem_of_dom. destruct Hn as (_ & _ & body & -> & _). eauto. }
    revert Hs Hq. generalize (leftmost_child n). generalize (entries n). clear n Hn.
    intros es. revert lo kvs ids'. induction es as [|[k c'] es IHes]; intros lo kvs ids' c; simpl; [apply IH|].
    intros (ka & kb & ia & ib & _ & -> & _ & Hr & Hs) [Hq|Hq]%elem_of_app; [by eapply IH|by eapply IHes].
Qed.

Lemma rep_scan_fuel t h p lo hi kvs ids :
  rep t h p lo hi kvs ids -> NoDup ids -> (length ids <= scan_fuel t)%nat.
Proof.
  intros Hr Hnd. unfold scan_fuel.
  assert (length ids <= size (dom (bt_pages t) ∪ dom (fresh_leaves t)))%nat as Hle.
  { rewrite <-(size_list_to_set (C:=gset Z) ids) by done. apply subseteq_size. intros q.
    rewrite elem_of_list_to_set. by eapply rep_pages. }
  rewrite size_union_alt, size_dom in Hle.
  assert (size (dom (fresh_leaves t) ∖ dom (bt_pages t)) <= size (dom (fresh_leaves t)))%nat as Hd
    by (apply subseteq_size; set_solver).
  rewrite size_dom in Hd. lia.
Qed.

Section whole.
Context (t : BTree) (H : nat) (kvs : list leaf_record) (ids : list Z).
Context (Hps : page_size_ok t) (Hrep : rep t H (root_page_id t) None None kvs ids).
Context (Hnd : NoDup ids) (Hz : ~ (0 ∈ ids)).
Local Abbreviation at_leaf := (at_leaf t (root_page_id t) H ids).

Lemma descend_root pick Q :
  steers t pick Q -> Q None None [] [] [] [] ->
  exists anc leaf lo hi kL kR iL iR l,
    descend (nav_fuel t) t pick [] (root_page_id t) (seen_new "btree_descent") = Ok (reverse anc ++ [leaf]) /\
    at_leaf anc leaf lo hi kL kR iL iR l /\ Q lo hi kL kR iL iR /\ kL ++ records l ++ kR = kvs.
Proof.
  intros Hst HQ.
  destruct (descend_steers t (root_page_id t) H pick Q Hps Hst H (nav_fuel t) [] (root_page_id t)
    None None [] [] [] [] kvs ids (seen_new "btree_descent") ∅)
    as (anc & leaf & lo & hi & kL & kR & iL & iR & l & Hd & Hpos & Hr & Hl & HQ' & Hk & mid & -> & Hp); try done.
  - constructor.
  - apply seen_new_rep.
  - by eapply rep_fuel.
  - exists (mid ++ []), leaf, lo, hi, kL, kR, iL, iR, l. rewrite !app_nil_r in *. done.
Qed.

(** The leaf of a key, with smaller keys left of it and greater ones right. *)
Lemma path_to_leaf_at q :
  exists anc leaf lo hi kL kR iL iR l, path_to_leaf_for_key t q = Ok (reverse anc ++ [leaf]) /\
    at_leaf anc leaf lo hi kL kR iL iR l /\ kL ++ records l ++ kR = kvs /\
    Forall (fun k => k <ₖ q) kL.*1 /\ Forall (fun k => q <ₖ k) kR.*1.
Proof.
  destruct (descend_root _ _ (steers_key t q)) as (anc & leaf & lo & hi & kL & kR & iL & iR & l & Hd & Hat & Hq & Hk); [done|].
  exists anc, leaf, lo, hi, kL, kR, iL, iR, l. split; [done|]. split; [done|]. split; [done|].
  destruct Hat as (Hpos & _). destruct (pos_ctx _ _ _ _ _ _ _ _ _ _ _ _ Hpos) as (iC & Hc & _). by eapply ctx_sides.
Qed.

Lemma path_to_rightmost_at :
  exists anc leaf lo kL iL l, path_to_rightmost_leaf t = Ok (reverse anc ++ [leaf]) /\
    at_leaf anc leaf lo None kL [] iL [] l /\ kL ++ records l = kvs.
Proof.
  destruct (descend_root _ _ (steers_rightmost t None [] []))
    as (anc & leaf & lo & hi & kL & kR & iL & iR & l & Hd & Hat & (-> & -> & ->) & Hk); [done|].
  exists anc, leaf, lo, kL, iL, l. by rewrite app_nil_r in Hk.
Qed.

Definition links_zero : Prop := forall p l, p ∈ ids -> leaf_at t p l -> leaf_right_sibling l = 0.

Lemma at_leaf_facts anc leaf lo hi kL kR iL iR l :
  at_leaf anc leaf lo hi kL kR iL iR l ->
  last (reverse anc ++ [leaf]) = Some leaf /\ leaf_at t leaf l /\ leaf <> 0 /\ leaf ∈ ids /\
  ~ (leaf ∈ iL) /\ ~ (leaf ∈ iR) /\ (length iL <= length ids)%nat /\ (length iR <= length ids)%nat.
Proof.
  intros (_ & _ & Hl & Hp).
  destruct (all_parts ids Hnd Hz anc iL [leaf] iR Hp) as (_ & H0 & _ & _ & Hd).
  destruct (Hd leaf) as (_ & ? & ?); [by left|].
  split; [by rewrite last_snoc|]. split; [done|]. split; [intros ->; apply H0; by left|].
  split; [rewrite <-Hp; mem|]. split; [done|]. split; [done|].
  apply Permutation_length in Hp. revert Hp. rewrite !length_app. simpl. lia.
Qed.

Lemma scan_forward {A} check (f : A -> list leaf_record -> result (A * bool)) str q acc :
  chunked f -> (check = true -> links_zero) ->
  exists path front rest, path_to_leaf_for_key t q = Ok path /\ kvs = front ++ rest /\
    Forall (fun k => k <ₖ q) front.*1 /\
    scan_loop (scan_fuel t) t check next_leaf_after (fun acc l => f acc (records l)) path (seen_new str) acc =
      (let! '(x, _) := f acc rest in Ok x).
Proof.
  intros Hf Hlk.
  destruct (path_to_leaf_at q) as (anc & leaf & lo & hi & kL & kR & iL & iR & l & Hpath & Hat & Hk & HkL & _).
  exists (reverse anc ++ [leaf]), kL, (records l ++ kR). split; [done|]. split; [done|]. split; [done|].
  destruct (scan_loop_ok t check next_leaf_after records
    (fun path leaf l rest todo => exists anc lo hi kL iL, path = reverse anc ++ [leaf] /\
       at_leaf anc leaf lo hi kL rest iL todo l)) with (step := fun acc l => f acc (records l))
    (fuel := scan_fuel t) (path := reverse anc ++ [leaf]) (leaf := leaf) (l := l) (rest := kR) (todo := iR)
    (seen := seen_new str) (S := ∅ : gset Z) (acc := acc) as (ls & Hc & ->).
  - intros ? leaf' l' rest' todo (anc' & lo' & hi' & kL' & iL' & -> & Hat').
    destruct (at_leaf_facts _ _ _ _ _ _ _ _ _ Hat') as (? & ? & ? & ? & ? & ? & _). split_and!; try done.
    intros Hck. by apply (Hlk Hck leaf').
  - intros ? leaf' l' rest' todo (anc' & lo' & hi' & kL' & iL' & -> & Hat').
    destruct (next_leaf_after_ok t (root_page_id t) H ids Hps Hnd Hz (rep_fuel _ _ _ _ _ _ _ _ Hrep Hnd) _ _ _ _ _ _ _ _ _ Hat')
      as [?|(anc2 & leaf2 & hi2 & kR2 & iL2 & iR2 & l2 & Hn & Hat2 & -> & ? & ? & ?)]; [by left|right].
    exists (reverse anc2 ++ [leaf2]), leaf2, l2, kR2, iR2. split; [done|]. split; [by eexists _, _, _, _, _|done].
  - by exists anc, lo, hi, kL, iL.
  - apply seen_new_rep.
  - set_solver.
  - set_solver.
  - destruct (at_leaf_facts _ _ _ _ _ _ _ _ _ Hat) as (_ & _ & _ & _ & _ & _ & _ & ?).
    pose proof (rep_scan_fuel _ _ _ _ _ _ _ Hrep Hnd). lia.
  - by rewrite (fold_leaves_chunked f records acc ls Hf), Hc.
Qed.

Lemma scan_backward {A} (f : A -> list leaf_record -> result (A * bool)) str anc leaf lo hi kL kR iL iR l acc :
  chunked f -> at_leaf anc leaf lo hi kL kR iL iR l ->
  scan_loop (scan_fuel t) t false prev_leaf_before (fun acc l => f acc (reverse (records l)))
    (reverse anc ++ [leaf]) (seen_new str) acc =
  (let! '(x, _) := f acc (reverse (kL ++ records l)) in Ok x).
Proof.
  intros Hf Hat.
  destruct (scan_loop_ok t false prev_leaf_before (fun l => reverse (records l))
    (fun path leaf l rest todo => exists anc lo hi kL kR iR, path = reverse anc ++ [leaf] /\
       at_leaf anc leaf lo hi kL kR todo iR l /\ rest = reverse kL)) with (step := fun acc l => f acc (reverse (records l)))
    (fuel := scan_fuel t) (path := reverse anc ++ [leaf]) (leaf := leaf) (l := l) (rest := reverse kL) (todo := iL)
    (seen := seen_new str) (S := ∅ : gset Z) (acc := acc) as (ls & Hc & ->).
  - intros ? leaf' l' rest' todo (anc' & lo' & hi' & kL' & kR' & iR' & -> & Hat' & ->).
    destruct (at_leaf_facts _ _ _ _ _ _ _ _ _ Hat') as (? & ? & ? & ? & ? & ? & _). by split_and!.
  - intros ? leaf' l' rest' todo (anc' & lo' & hi' & kL' & kR' & iR' & -> & Hat' & ->).
    destruct (prev_leaf_before_ok t (root_page_id t) H ids Hps Hnd Hz (rep_fuel _ _ _ _ _ _ _ _ Hrep Hnd) _ _ _ _ _ _ _ _ _ Hat')
      as [[? ->]|(anc2 & leaf2 & lo2 & kL2 & iL2 & iR2 & l2 & Hn & Hat2 & -> & ? & ? & ?)]; [by left|right].
    exists (reverse anc2 ++ [leaf2]), leaf2, l2, (reverse kL2), iL2. split; [done|].
    split; [by eexists _, _, _, _, _, _|]. by rewrite reverse_app.
  - by exists anc, lo, hi, kL, kR, iR.
  - apply seen_new_rep.
  - set_solver.
  - set_solver.
  - destruct (at_leaf_facts _ _ _ _ _ _ _ _ _ Hat) as (_ & _ & _ & _ & _ & _ & ? & _).
    pose proof (rep_scan_fuel _ _ _ _ _ _ _ Hrep Hnd). lia.
  - rewrite (fold_leaves_chunked f (fun l => reverse (records l)) acc ls Hf), Hc. by rewrite reverse_app.
Qed.
End whole.
End scan.
