(* ===== verification/TreeScanOps.v ===== *)
(** * TreeScanOps: what the scans return

    Every scan of a session returns the bindings of its map that lie in the
    range asked for, in key order (or reversed), cut at the limit of a batch. *)

From S2P Require Import Prelude Keys Errors PageFormat Node Leaf Internal Split Store Overflow Tree TreeWrite TreeRep TreeAlloc TreeCow TreePropagate TreePut TreeOps TreeSpec TreeScan.
From Stdlib Require Import ZArith Lia.
From stdpp Require Import base list strings gmap sorting.

Local Open Scope Z_scope.
Local Open Scope pagedb_scope.

#[global] Instance ge_lo_dec lo k : Decision (ge_lo lo k).
Proof. destruct lo; apply _. Defined.
#[global] Instance lt_hi_dec k hi : Decision (lt_hi k hi).
Proof. destruct hi; apply _. Defined.

(** ** The bindings of a map in key order *)

Definition lists (out : list (bytes * bytes)) (m : gmap bytes bytes) : Prop :=
  keys_sorted out.*1 /\ rec_map out = m.

Lemma sorted_cons {V} (x : bytes * V) l :
  keys_sorted (x :: l).*1 <-> keys_sorted l.*1 /\ Forall (fun y : bytes * V => x.1 <ₖ y.1) l.
Proof.
  rewrite fmap_cons. split.
  - intros Hs. inversion Hs as [|? ? Hs' Hall]; subst. by rewrite Forall_fmap in Hall.
  - intros [Hs Hall]. constructor; [done|]. by rewrite Forall_fmap.
Qed.

Lemma sorted_filter {V} (P : bytes * V -> Prop) `{forall x, Decision (P x)} (l : list (bytes * V)) :
  keys_sorted l.*1 -> keys_sorted (filter P l).*1.
Proof.
  induction l as [|x l IH]; [done|]. intros [Hs Hall]%sorted_cons.
  rewrite filter_cons. case_decide; [|by apply IH]. apply sorted_cons. split; [by apply IH|].
  rewrite Forall_forall in Hall |- *. intros y [_ Hy]%list_elem_of_filter. by apply Hall.
Qed.

Lemma lists_filter out m (P : bytes * bytes -> Prop) `{forall x, Decision (P x)} :
  lists out m -> lists (filter P out) (filter P m).
Proof.
  intros [Hs <-]. split; [by apply sorted_filter|]. apply map_eq. intros q. apply option_eq. intros v.
  rewrite rec_map_Some by (by apply sorted_filter). rewrite list_elem_of_filter, map_lookup_filter_Some.
  rewrite rec_map_Some by done. tauto.
Qed.

(** Two listings of a map are the same list. *)
Lemma lists_unique l1 l2 m : lists l1 m -> lists l2 m -> l1 = l2.
Proof.
  intros [S1 <-] [S2 He]. revert l2 S2 He. induction l1 as [|[k v] l1 IH]; intros l2 S2 He.
  - destruct l2 as [|[k v] l2]; [done|]. exfalso.
    assert (rec_map ((k, v) :: l2) !! k = Some v) as Hx by apply lookup_insert_eq. by rewrite He in Hx.
  - destruct l2 as [|[k2 v2] l2].
    { exfalso. assert (rec_map ((k, v) :: l1) !! k = Some v) as Hx by apply lookup_insert_eq. by rewrite <-He in Hx. }
    assert (forall q w, (q, w) ∈ (k, v) :: l1 <-> (q, w) ∈ (k2, v2) :: l2) as Hin.
    { intros q w. by rewrite <-!rec_map_Some, He. }
    apply sorted_cons in S1 as [S1t F1], S2 as [S2t F2]. rewrite Forall_forall in F1, F2.
    assert (k = k2 /\ v = v2) as [-> ->].
    { assert ((k, v) ∈ (k2, v2) :: l2) as H1 by (apply Hin; by left).
      assert ((k2, v2) ∈ (k, v) :: l1) as H2 by (apply Hin; by left).
      apply elem_of_cons in H1 as [[= -> ->]|H1]; [done|]. apply elem_of_cons in H2 as [[= -> ->]|H2]; [done|].
      apply F2 in H1. apply F1 in H2. simpl in *. by destruct (key_lt_not_gt _ _ H1). }
    f_equal. apply IH; [done|done|]. apply map_eq. intros q. apply option_eq. intros w.
    rewrite !rec_map_Some by done. specialize (Hin q w). rewrite !elem_of_cons in Hin.
    split; intros Hq.
    + destruct (proj2 Hin (or_intror Hq)) as [[= -> ->]|?]; [|done]. apply F2 in Hq. by apply key_lt_irrefl in Hq.
    + destruct (proj1 Hin (or_intror Hq)) as [[= -> ->]|?]; [|done]. apply F1 in Hq. by apply key_lt_irrefl in Hq.
Qed.

(** ** The steps on records whose values resolve *)

Section steps.
Context (t : BTree).

Definition resolves (r : leaf_record) (b : bytes * bytes) : Prop :=
  r.1 = b.1 /\ resolve_leaf_value t r.2 = Ok b.2.

Lemma resolves_keys rs bs : Forall2 resolves rs bs -> rs.*1 = bs.*1.
Proof. induction 1 as [|r b rs bs [Hk _] _ IH]; [done|]. by rewrite !fmap_cons, Hk, IH. Qed.

Lemma filter_none {A} (P : A -> Prop) `{forall x, Decision (P x)} l :
  Forall (fun x => ~ P x) l -> filter P l = [].
Proof. induction 1 as [|x l Hx _ IH]; [done|]. by rewrite filter_cons_False. Qed.

(** From the first key past the end on, nothing is in range. *)
Lemma range_past start end_ k (b : bytes) bs :
  end_ ≤ₖ k -> Forall (fun x : bytes * bytes => k <ₖ x.1) bs ->
  Forall (fun x : bytes * bytes => ~ (start ≤ₖ x.1 /\ x.1 <ₖ end_)) ((k, b) :: bs).
Proof.
  intros He Hall. constructor; simpl.
  - intros [_ Hlt]. by apply (key_lt_irrefl k), (key_lt_le_trans _ end_).
  - eapply Forall_impl; [exact Hall|]. intros x Hx [_ Hlt]. apply (key_lt_irrefl k).
    apply (key_lt_trans _ _ _ Hx). by apply (key_lt_le_trans _ end_).
Qed.

Lemma range_step_ok start end_ rs bs :
  Forall2 resolves rs bs -> keys_sorted bs.*1 -> forall out, exists stop,
  range_step t start end_ out rs =
    Ok (out ++ filter (fun x : bytes * bytes => start ≤ₖ x.1 /\ x.1 <ₖ end_) bs, stop).
Proof.
  induction 1 as [|[k v] [k' b] rs bs [Hk Hv] _ IH]; intros Hs out; [exists false; by rewrite app_nil_r|].
  simpl in Hk, Hv. subst k'. apply sorted_cons in Hs as [Hs' Hall]. specialize (IH Hs'). cbn [range_step].
  destruct (bytes_leb end_ k) eqn:He; [apply bytes_leb_le in He|].
  - exists true. rewrite filter_none; [by rewrite app_nil_r|]. by apply range_past.
  - apply not_true_iff_false in He. rewrite bytes_leb_le, key_nle_lt in He.
    destruct (bytes_leb start k) eqn:Hs; [apply bytes_leb_le in Hs|].
    + rewrite Hv. destruct (IH (out ++ [(k, b)])) as [stop ->]. exists stop.
      by rewrite filter_cons_True, <-app_assoc.
    + apply not_true_iff_false in Hs. rewrite bytes_leb_le in Hs. destruct (IH out) as [stop ->]. exists stop.
      rewrite filter_cons_False; [done|]. simpl. tauto.
Qed.

Lemma all_step_ok rs bs :
  Forall2 resolves rs bs -> forall out, all_step t out rs = Ok (out ++ bs, false).
Proof.
  induction 1 as [|[k v] [k' b] rs bs [Hk Hv] _ IH]; intros out; [by rewrite app_nil_r|].
  simpl in Hk, Hv. subst k'. cbn [all_step]. by rewrite Hv, IH, <-app_assoc.
Qed.

Lemma batch_step_ok start limit rs bs :
  Forall2 resolves rs bs -> forall out, (length out <= limit)%nat -> exists stop,
  batch_step t start limit out rs =
    Ok (out ++ take (limit - length out) (filter (fun x : bytes * bytes => start ≤ₖ x.1) bs), stop).
Proof.
  induction 1 as [|[k v] [k' b] rs bs [Hk Hv] _ IH]; intros out Hl;
    [eexists; by rewrite filter_nil, take_nil, app_nil_r|].
  simpl in Hk, Hv. subst k'. cbn [batch_step].
  destruct (bytes_ltb k start) eqn:Hs; [apply bytes_ltb_lt in Hs|].
  { rewrite filter_cons_False by (simpl; by rewrite key_nle_lt). by apply IH. }
  apply not_true_iff_false in Hs. rewrite bytes_ltb_lt, key_nlt_le in Hs.
  rewrite filter_cons_True by done.
  destruct (Nat.eqb_spec (length out) limit) as [He|He].
  - exists true. by rewrite <-He, Nat.sub_diag, app_nil_r.
  - rewrite Hv. destruct (IH (out ++ [(k, b)])) as [stop ->]; [rewrite length_app; simpl; lia|].
    exists stop. rewrite length_app. simpl. destruct (limit - length out)%nat as [|m] eqn:Hm; [lia|].
    replace (limit - (length out + 1))%nat with m by lia. by rewrite <-app_assoc.
Qed.

Lemma rev_step_ok before limit rs bs :
  Forall2 resolves rs bs -> forall out, (length out < limit)%nat -> exists stop,
  rev_step t before limit out rs =
    Ok (out ++ take (limit - length out) (filter (fun x : bytes * bytes => lt_hi x.1 before) bs), stop).
Proof.
  induction 1 as [|[k v] [k' b] rs bs [Hk Hv] _ IH]; intros out Hl;
    [eexists; by rewrite filter_nil, take_nil, app_nil_r|].
  simpl in Hk, Hv. subst k'. cbn [rev_step].
  destruct (match before with Some b0 => bytes_leb b0 k | None => false end) eqn:Hs.
  { rewrite filter_cons_False; [by apply IH|]. destruct before as [b0|]; [|done]. simpl.
    apply bytes_leb_le in Hs. by rewrite key_nlt_le. }
  rewrite filter_cons_True.
  2:{ destruct before as [b0|]; [|done]. simpl. apply not_true_iff_false in Hs.
      by rewrite bytes_leb_le, key_nle_lt in Hs. }
  rewrite Hv, length_app. simpl. destruct (limit - length out)%nat as [|m] eqn:Hm; [lia|].
  destruct (Nat.eqb_spec (length out + 1) limit) as [He|He].
  - exists true. replace m with 0%nat by lia. done.
  - destruct (IH (out ++ [(k, b)])) as [stop ->]; [rewrite length_app; simpl; lia|].
    exists stop. rewrite length_app. simpl.
    replace (limit - (length out + 1))%nat with m by lia. by rewrite <-app_assoc.
Qed.

Lemma keys_step_ok start end_ limit rs bs :
  Forall2 resolves rs bs -> keys_sorted bs.*1 -> forall out, (length out < limit)%nat -> exists stop,
  keys_step start end_ limit out rs =
    (out ++ take (limit - length out)
              (filter (fun x : bytes * bytes => start ≤ₖ x.1 /\ x.1 <ₖ end_) bs).*1, stop).
Proof.
  induction 1 as [|[k v] [k' b] rs bs [Hk Hv] _ IH]; intros Hs out Hl;
    [exists false; by rewrite filter_nil, fmap_nil, take_nil, app_nil_r|].
  simpl in Hk, Hv. subst k'. apply sorted_cons in Hs as [Hs' Hall]. specialize (IH Hs'). cbn [keys_step].
  destruct (bytes_leb end_ k) eqn:He; [apply bytes_leb_le in He|].
  - exists true. rewrite filter_none; [by rewrite fmap_nil, take_nil, app_nil_r|].
    by apply range_past.
  - apply not_true_iff_false in He. rewrite bytes_leb_le, key_nle_lt in He.
    destruct (bytes_leb start k) eqn:Hs; [apply bytes_leb_le in Hs|].
    + rewrite filter_cons_True, fmap_cons by done. rewrite length_app. simpl.
      destruct (limit - length out)%nat as [|m] eqn:Hm; [lia|].
      destruct (Nat.eqb_spec (length out + 1) limit) as [Heq|Hne].
      * exists true. replace m with 0%nat by lia. done.
      * destruct (IH (out ++ [k])) as [stop ->]; [rewrite length_app; simpl; lia|].
        exists stop. rewrite length_app. simpl.
        replace (limit - (length out + 1))%nat with m by lia. by rewrite <-app_assoc.
    + apply not_true_iff_false in Hs. rewrite bytes_leb_le in Hs.
      rewrite filter_cons_False by (simpl; tauto). by apply IH.
Qed.

(** *** Prefixes *)

Lemma starts_with_app k prefix : starts_with k prefix = true <-> exists s, k = prefix ++ s.
Proof.
  unfold starts_with. rewrite bool_decide_eq_true. split.
  - intros Hp. exists (drop (length prefix) k). by rewrite <-Hp at 1; rewrite take_drop.
  - intros [s ->]. by rewrite take_app_length.
Qed.
Lemma prefix_le prefix s : prefix ≤ₖ prefix ++ s.
Proof. rewrite <-(app_nil_r prefix) at 1. unfold key_le. rewrite bytes_compare_app. apply key_nil_le. Qed.
(** The keys with a prefix are an interval that starts at the prefix. *)
Lemma prefix_convex prefix k s : prefix ≤ₖ k -> k ≤ₖ prefix ++ s -> starts_with k prefix = true.
Proof.
  intros H1 H2. unfold starts_with. apply bool_decide_eq_true.
  assert (common_len prefix (prefix ++ s) = length prefix) as Hc.
  { clear. induction prefix as [|x prefix IH]; simpl; [done|]. rewrite decide_True by done. by rewrite IH. }
  destruct (common_len_between _ _ _ H1 H2) as [_ Ht]. rewrite Hc in Ht. by rewrite Ht, firstn_all.
Qed.

Lemma prefix_step_ok prefix rs bs :
  Forall2 resolves rs bs -> keys_sorted bs.*1 -> forall out, exists stop,
  prefix_step t prefix out rs =
    Ok (out ++ filter (fun x : bytes * bytes => starts_with x.1 prefix = true) bs, stop).
Proof.
  induction 1 as [|[k v] [k' b] rs bs [Hk Hv] _ IH]; intros Hs out; [exists false; by rewrite app_nil_r|].
  simpl in Hk, Hv. subst k'. apply sorted_cons in Hs as [Hs' Hall]. specialize (IH Hs'). cbn [prefix_step].
  destruct (bytes_ltb k prefix) eqn:Hlt; [apply bytes_ltb_lt in Hlt|].
  { rewrite filter_cons_False; [by apply IH|]. simpl. rewrite starts_with_app. intros [s ->].
    apply (key_lt_irrefl prefix). eapply key_le_lt_trans; [apply prefix_le|done]. }
  apply not_true_iff_false in Hlt. rewrite bytes_ltb_lt, key_nlt_le in Hlt.
  destruct (starts_with k prefix) eqn:Hp.
  - rewrite Hv. simpl negb. cbv iota. destruct (IH (out ++ [(k, b)])) as [stop ->]. exists stop.
    by rewrite filter_cons_True, <-app_assoc.
  - exists true. simpl negb. cbv iota. rewrite filter_none; [by rewrite app_nil_r|].
    constructor; [simpl; by rewrite Hp|]. eapply Forall_impl; [exact Hall|].
    intros x Hx [s Hxs]%starts_with_app. cbv beta in Hx. rewrite Hxs in Hx.
    by rewrite (prefix_convex prefix k s Hlt (key_lt_le _ _ Hx)) in Hp.
Qed.

(** ** The steps do not see leaf boundaries *)

Lemma chunked_of {A} (f : A -> list leaf_record -> result (A * bool)) (g : A -> leaf_record -> result (A * bool)) :
  (forall acc, f acc [] = Ok (acc, false)) ->
  (forall acc r rs, f acc (r :: rs) = (let! '(x, stop) := g acc r in if (stop : bool) then Ok (x, true) else f x rs)) ->
  chunked f.
Proof.
  intros Hn Hc. split; [eauto|]. intros acc a b. revert acc. induction a as [|r a IH]; intros acc.
  - rewrite Hn. done.
  - rewrite <-app_comm_cons, !Hc. destruct (g acc r) as [[x []]| |]; [done| |done..]. apply IH.
Qed.

Lemma range_chunked start end_ : chunked (range_step t start end_).
Proof.
  apply (chunked_of _ (fun out r => if bytes_leb end_ r.1 then Ok (out, true) else
    if bytes_leb start r.1 then let! val := resolve_leaf_value t r.2 in Ok (out ++ [(r.1, val)], false)
    else Ok (out, false))); [done|].
  intros acc [k v] rs. cbn [range_step fst snd]. destruct (bytes_leb end_ k); [done|].
  destruct (bytes_leb start k); [|done]. by destruct (resolve_leaf_value t v).
Qed.
Lemma all_chunked : chunked (all_step t).
Proof.
  apply (chunked_of _ (fun out r => let! val := resolve_leaf_value t r.2 in Ok (out ++ [(r.1, val)], false))); [done|].
  intros acc [k v] rs. cbn [all_step fst snd]. by destruct (resolve_leaf_value t v).
Qed.
Lemma prefix_chunked prefix : chunked (prefix_step t prefix).
Proof.
  apply (chunked_of _ (fun out r => if bytes_ltb r.1 prefix then Ok (out, false) else
    if negb (starts_with r.1 prefix) then Ok (out, true) else
    let! val := resolve_leaf_value t r.2 in Ok (out ++ [(r.1, val)], false))); [done|].
  intros acc [k v] rs. cbn [prefix_step fst snd]. destruct (bytes_ltb k prefix); [done|].
  destruct (negb _); [done|]. by destruct (resolve_leaf_value t v).
Qed.
Lemma rev_chunked before limit : chunked (rev_step t before limit).
Proof.
  apply (chunked_of _ (fun out r =>
    if match before with Some b => bytes_leb b r.1 | None => false end then Ok (out, false) else
    let! val := resolve_leaf_value t r.2 in
    Ok (out ++ [(r.1, val)], (length (out ++ [(r.1, val)]) =? limit)%nat))); [done|].
  intros acc [k v] rs. cbn [rev_step fst snd]. destruct (match before with Some _ => _ | None => _ end); [done|].
  destruct (resolve_leaf_value t v); [|done..]. by destruct (_ =? _)%nat.
Qed.
Lemma keys_chunked start end_ limit : chunked (fun out rs => Ok (keys_step start end_ limit out rs)).
Proof.
  apply (chunked_of _ (fun out r => if bytes_leb end_ r.1 then Ok (out, true) else
    if bytes_leb start r.1 then Ok (out ++ [r.1], (length (out ++ [r.1]) =? limit)%nat) else Ok (out, false))); [done|].
  intros acc [k v] rs. cbn [keys_step fst snd]. destruct (bytes_leb end_ k); [done|].
  destruct (bytes_leb start k); [|done]. by destruct (_ =? _)%nat.
Qed.

(** A full batch stays as it is. *)
Lemma batch_step_full start limit out rs :
  length out = limit -> exists b, batch_step t start limit out rs = Ok (out, b).
Proof.
  intros Hl. induction rs as [|[k v] rs IH]; cbn [batch_step]; [eauto|].
  destruct (bytes_ltb k start); [done|]. rewrite (proj2 (Nat.eqb_eq _ _)) by done. eauto.
Qed.
Lemma batch_chunked start limit : chunked (batch_step t start limit).
Proof.
  split; [intros acc; cbn [batch_step]; eauto|]. intros acc a b. revert acc.
  induction a as [|[k v] a IH]; intros acc; cbn [batch_step app].
  - destruct (Nat.eqb_spec (length acc) limit) as [He|He]; [|done].
    by destruct (batch_step_full start limit acc b He) as [? ->].
  - destruct (bytes_ltb k start); [apply IH|]. destruct (length acc =? limit)%nat; [done|].
    destruct (resolve_leaf_value t v); [apply IH|done..].
Qed.
End steps.

(** ** The scans of a session *)

Section scans.
Context (K : Z).

(** The records of a session with their values. *)
Lemma rep_bindings t H kvs ids ch m :
  rep K t H (root_page_id t) None None kvs ids -> holds (bt_pages t) kvs ch m ->
  exists bs, Forall2 (resolves t) kvs bs /\ lists bs m.
Proof.
  intros Hrep Hh. destruct (rep_in_order _ _ _ _ _ _ _ _ Hrep) as [Hs _].
  assert (Forall (fun r : leaf_record => exists b, m !! r.1 = Some b /\ resolve_leaf_value t r.2 = Ok b) kvs) as Hall.
  { apply Forall_forall. intros [k v] Hin. apply (rec_map_Some _ _ _ Hs) in Hin. specialize (Hh k).
    rewrite Hin in Hh. destruct Hh as (b & c & _ & Hm & Hst). exists b. split; [done|]. by eapply stored_resolve. }
  assert (exists bs, Forall2 (resolves t) kvs bs /\ Forall (fun b : bytes * bytes => m !! b.1 = Some b.2) bs)
    as (bs & Hbs & Hm).
  { clear -Hall. induction Hall as [|[k v] rs (b & Hm & Hv) _ (bs & IH1 & IH2)]; [by exists []|].
    exists ((k, b) :: bs). split; by constructor. }
  exists bs. split; [done|]. pose proof (resolves_keys t _ _ Hbs) as Hk. split; [by rewrite <-Hk|]. apply map_eq. intros q.
  destruct (rec_map bs !! q) as [b|] eqn:Hq.
  - apply rec_map_Some in Hq; [|by rewrite <-Hk]. rewrite Forall_forall in Hm. symmetry. exact (Hm _ Hq).
  - apply rec_map_None in Hq. rewrite <-Hk in Hq. apply rec_map_None in Hq. specialize (Hh q). rewrite Hq in Hh.
    by destruct Hh as [_ ->].
Qed.

(** The bindings of the records a scan starts with. *)
Lemma resolves_split t front rest bs :
  Forall2 (resolves t) (front ++ rest) bs -> exists b1 b2, bs = b1 ++ b2 /\
    Forall2 (resolves t) front b1 /\ Forall2 (resolves t) rest b2 /\ b1.*1 = front.*1 /\ b2.*1 = rest.*1.
Proof.
  intros (b1 & b2 & H1 & H2 & ->)%Forall2_app_inv_l. exists b1, b2. split_and!; try done;
    symmetry; by eapply resolves_keys.
Qed.

Section one.
Context (t : BTree) (H : nat) (kvs : list leaf_record) (ids : list Z) (bs : list (bytes * bytes)).
Context (Hps : page_size_ok t) (Hrep : rep K t H (root_page_id t) None None kvs ids).
Context (Hnd : NoDup ids) (Hz : ~ (0 ∈ ids)) (Hbs : Forall2 (resolves t) kvs bs).
Context (Hroot : root_page_id t <> 0) (Hsort : keys_sorted bs.*1).

(** A forward scan sees the bindings from its first key on, after some smaller
    ones. *)
Lemma forward_run {A} check (f : A -> list leaf_record -> result (A * bool)) str q acc :
  chunked f -> (check = true -> links_zero t ids) ->
  exists path front rest b1 b2, path_to_leaf_for_key t q = Ok path /\ kvs = front ++ rest /\ bs = b1 ++ b2 /\
    Forall (fun x : bytes * bytes => x.1 <ₖ q) b1 /\ Forall2 (resolves t) rest b2 /\ keys_sorted b2.*1 /\
    scan_loop (scan_fuel t) t check next_leaf_after (fun acc l => f acc (records l)) path (seen_new str) acc =
      (let! '(x, _) := f acc rest in Ok x).
Proof.
  intros Hf Hl. destruct (scan_forward K t H kvs ids Hps Hrep Hnd Hz check f str q acc Hf Hl)
    as (path & front & rest & Hpath & -> & Hfr & Hrun).
  destruct (resolves_split _ _ _ _ Hbs) as (b1 & b2 & -> & H1 & H2 & Hk1 & Hk2).
  exists path, front, rest, b1, b2. split_and!; try done.
  - rewrite <-Hk1 in Hfr. by rewrite Forall_fmap in Hfr.
  - rewrite fmap_app in Hsort. by apply sorted_app in Hsort as (_ & ? & _).
Qed.

Lemma filter_front (P : bytes * bytes -> Prop) `{forall x, Decision (P x)} q b1 b2 :
  Forall (fun x : bytes * bytes => x.1 <ₖ q) b1 -> (forall x, P x -> q ≤ₖ x.1) ->
  filter P (b1 ++ b2) = filter P b2.
Proof.
  intros Hb HP. rewrite filter_app, (filter_none P b1); [done|]. eapply Forall_impl; [exact Hb|].
  intros x Hx HPx. apply (key_lt_irrefl q). eapply key_le_lt_trans; [by apply HP|done].
Qed.

Lemma collect_range_ok start end_ :
  collect_range t start end_ = Ok (filter (fun x : bytes * bytes => start ≤ₖ x.1 /\ x.1 <ₖ end_) bs).
Proof.
  unfold collect_range. rewrite (proj2 (Z.eqb_neq _ _)) by done.
  destruct (forward_run false (range_step t start end_) "btree_scan" start []) as
    (path & front & rest & b1 & b2 & -> & _ & -> & Hb1 & H2 & Hs2 & ->); [apply range_chunked|done|].
  destruct (range_step_ok t start end_ rest b2 H2 Hs2 []) as [stop ->].
  by rewrite (filter_front _ start) by (done || by intros x [? _]).
Qed.

Lemma collect_all_ok : collect_all t = Ok bs.
Proof.
  unfold collect_all. rewrite (proj2 (Z.eqb_neq _ _)) by done.
  destruct (forward_run false (all_step t) "btree_scan" [] []) as
    (path & front & rest & b1 & b2 & -> & _ & -> & Hb1 & H2 & Hs2 & ->); [apply all_chunked|done|].
  rewrite (all_step_ok t rest b2 H2). destruct b1 as [|x b1]; [done|]. exfalso.
  apply Forall_cons in Hb1 as [Hx _]. apply (key_lt_irrefl x.1). eapply key_lt_le_trans; [exact Hx|apply key_nil_le].
Qed.

Lemma scan_prefix_ok prefix :
  scan_prefix t prefix = Ok (filter (fun x : bytes * bytes => starts_with x.1 prefix = true) bs).
Proof.
  unfold scan_prefix. rewrite (proj2 (Z.eqb_neq _ _)) by done.
  destruct (forward_run false (prefix_step t prefix) "btree_scan" prefix []) as
    (path & front & rest & b1 & b2 & -> & _ & -> & Hb1 & H2 & Hs2 & ->); [apply prefix_chunked|done|].
  destruct (prefix_step_ok t prefix rest b2 H2 Hs2 []) as [stop ->].
  rewrite (filter_front _ prefix); [done..|]. intros x [s ->]%starts_with_app. apply prefix_le.
Qed.

Lemma collect_batch_ok start limit :
  collect_batch_from t start limit = Ok (take limit (filter (fun x : bytes * bytes => start ≤ₖ x.1) bs)).
Proof.
  unfold collect_batch_from. rewrite (proj2 (Z.eqb_neq _ _)) by done.
  destruct (Nat.eqb_spec limit 0) as [->|Hl]; [done|]. simpl orb. cbv iota.
  destruct (forward_run false (batch_step t start limit) "btree_scan" start []) as
    (path & front & rest & b1 & b2 & -> & _ & -> & Hb1 & H2 & Hs2 & ->); [apply batch_chunked|done|].
  destruct (batch_step_ok t start limit rest b2 H2 []) as [stop ->]; [simpl; lia|]. simpl length. rewrite Nat.sub_0_r.
  by rewrite (filter_front _ start).
Qed.

Lemma collect_keys_ok start end_ limit :
  links_zero t ids ->
  collect_keys_batch_in_range t start end_ limit =
    Ok (take limit (filter (fun x : bytes * bytes => start ≤ₖ x.1 /\ x.1 <ₖ end_) bs).*1).
Proof.
  intros Hlk. unfold collect_keys_batch_in_range. rewrite (proj2 (Z.eqb_neq _ _)) by done.
  destruct (Nat.eqb_spec limit 0) as [->|Hl]; [done|]. simpl orb. cbv iota.
  destruct (forward_run true (fun out rs => Ok (keys_step start end_ limit out rs)) "leaf_siblings" start []) as
    (path & front & rest & b1 & b2 & -> & _ & -> & Hb1 & H2 & Hs2 & ->); [apply keys_chunked|done|].
  destruct (keys_step_ok t start end_ limit rest b2 H2 Hs2 []) as [stop ->]; [simpl; lia|]. simpl length. rewrite Nat.sub_0_r.
  by rewrite (filter_front _ start) by (done || by intros x [? _]).
Qed.

Lemma collect_rev_ok before limit :
  collect_rev_batch_before t before limit =
    Ok (take limit (reverse (filter (fun x : bytes * bytes => lt_hi x.1 before) bs))).
Proof.
  unfold collect_rev_batch_before. rewrite (proj2 (Z.eqb_neq _ _)) by done.
  destruct (Nat.eqb_spec limit 0) as [->|Hl]; [done|]. simpl orb. cbv iota.
  assert (exists anc leaf lo hi kL kR iL iR l,
    match before with Some b => path_to_leaf_for_key t b | None => path_to_rightmost_leaf t end =
      Ok (reverse anc ++ [leaf]) /\
    at_leaf K t (root_page_id t) H ids anc leaf lo hi kL kR iL iR l /\ (kL ++ records l) ++ kR = kvs /\
    Forall (fun k => ~ lt_hi k before) kR.*1)
    as (anc & leaf & lo & hi & kL & kR & iL & iR & l & -> & Hat & Hk & HkR).
  { destruct before as [b|].
    - destruct (path_to_leaf_at K t H kvs ids Hps Hrep Hnd Hz b)
        as (anc & leaf & lo & hi & kL & kR & iL & iR & l & Hpath & Hat & Hk & _ & HkR).
      exists anc, leaf, lo, hi, kL, kR, iL, iR, l. rewrite <-app_assoc. split_and!; try done.
      eapply Forall_impl; [exact HkR|]. intros k Hk' Hlt. by apply key_lt_not_gt in Hk'.
    - destruct (path_to_rightmost_at K t H kvs ids Hps Hrep Hnd Hz)
        as (anc & leaf & lo & kL & iL & l & Hpath & Hat & Hk).
      exists anc, leaf, lo, None, kL, [], iL, [], l. rewrite app_nil_r. by split_and!. }
  rewrite (scan_backward K t H kvs ids Hps Hrep Hnd Hz (rev_step t before limit) _ _ _ _ _ _ _ _ _ _ _
    (rev_chunked t before limit) Hat).
  rewrite <-Hk in Hbs. destruct (resolves_split _ _ _ _ Hbs) as (b1 & b2 & -> & H1 & _ & _ & Hk2).
  apply Forall2_reverse in H1.
  destruct (rev_step_ok t before limit _ _ H1 []) as [stop ->]; [simpl; lia|]. simpl length. rewrite Nat.sub_0_r.
  rewrite filter_app, (filter_none _ b2), app_nil_r by (rewrite <-Hk2, Forall_fmap in HkR; exact HkR).
  by rewrite filter_reverse.
Qed.

(** [take_prefixed] keeps the batch up to the first key without the prefix. *)
Lemma take_prefixed_ok prefix start l :
  prefix ≤ₖ start -> keys_sorted l.*1 -> Forall (fun x : bytes * bytes => start ≤ₖ x.1) l ->
  take_prefixed prefix l = filter (fun x : bytes * bytes => starts_with x.1 prefix = true) l.
Proof.
  intros Hp. induction l as [|[k v] l IH]; [done|]. intros [Hs Hall]%sorted_cons [Hk Hst]%Forall_cons.
  cbn [take_prefixed]. destruct (starts_with k prefix) eqn:Hw.
  - rewrite filter_cons_True by done. by rewrite IH.
  - rewrite filter_none; [done|]. constructor; [simpl; by rewrite Hw|]. eapply Forall_impl; [exact Hall|].
    intros x Hx [s Hxs]%starts_with_app. cbv beta in Hx. rewrite Hxs in Hx. simpl in Hx, Hk.
    rewrite (prefix_convex prefix k s) in Hw; [done| |by apply key_lt_le]. by eapply key_le_trans.
Qed.

(** The keys with a prefix from [start] on come first among those from [start]
    on. *)
Lemma take_filter_prefix prefix start limit l :
  prefix ≤ₖ start -> keys_sorted l.*1 -> Forall (fun x : bytes * bytes => start ≤ₖ x.1) l ->
  filter (fun x : bytes * bytes => starts_with x.1 prefix = true) (take limit l) =
  take limit (filter (fun x : bytes * bytes => starts_with x.1 prefix = true) l).
Proof.
  intros Hp. revert limit. induction l as [|[k v] l IH]; intros limit Hs Hst; [by destruct limit|].
  pose proof Hs as [Hs' Hall]%sorted_cons. pose proof Hst as [Hk Hst']%Forall_cons.
  destruct limit as [|limit]; [done|]. cbn [firstn].
  destruct (starts_with k prefix) eqn:Hw.
  - rewrite !filter_cons_True by done. cbn [firstn]. by rewrite IH.
  - rewrite !filter_cons_False by (simpl; by rewrite Hw). rewrite IH by done.
    assert (filter (fun x : bytes * bytes => starts_with x.1 prefix = true) l = []) as ->; [|by destruct limit].
    apply filter_none. eapply Forall_impl; [exact Hall|].
    intros x Hx [s Hxs]%starts_with_app. cbv beta in Hx. rewrite Hxs in Hx. simpl in Hx, Hk.
    rewrite (prefix_convex prefix k s) in Hw; [done| |by apply key_lt_le]. by eapply key_le_trans.
Qed.

Lemma collect_prefix_batch_ok prefix start limit :
  prefix ≤ₖ start ->
  collect_prefix_batch_from t prefix start limit =
    Ok (take limit (filter (fun x : bytes * bytes => starts_with x.1 prefix = true)
                      (filter (fun x : bytes * bytes => start ≤ₖ x.1) bs))).
Proof.
  intros Hp. unfold collect_prefix_batch_from. rewrite collect_batch_ok.
  set (l := filter (fun x : bytes * bytes => start ≤ₖ x.1) bs).
  assert (keys_sorted l.*1) as Hs by (by apply sorted_filter).
  assert (Forall (fun x : bytes * bytes => start ≤ₖ x.1) l) as Hst
    by (apply Forall_forall; intros x [? _]%list_elem_of_filter; done).
  rewrite (take_prefixed_ok prefix start); [by rewrite (take_filter_prefix prefix start)|done| |by apply Forall_take].
  rewrite <-(take_drop limit l), fmap_app in Hs. by apply sorted_app in Hs as (? & _ & _).
Qed.

(** The first and the last key, when the outermost leaf has one. *)
Lemma first_key_ok : exists o, first_key t = Ok o /\ (is_Some o -> o = fst <$> head bs).
Proof.
  unfold first_key. rewrite (proj2 (Z.eqb_neq _ _)) by done.
  destruct (path_to_leaf_at K t H kvs ids Hps Hrep Hnd Hz [])
    as (anc & leaf & lo & hi & kL & kR & iL & iR & l & -> & (_ & _ & Hl & _) & Hk & HkL & _).
  unfold path_leaf. rewrite last_snoc. cbv beta iota. rewrite (read_leaf_ok t leaf l Hl).
  eexists. split; [done|]. intros [k Hh].
  assert (kL = []) as ->.
  { destruct kL as [|x kL]; [done|]. rewrite fmap_cons in HkL. apply Forall_cons in HkL as [Hx _]. exfalso.
    apply (key_lt_irrefl x.1). eapply key_lt_le_trans; [exact Hx|apply key_nil_le]. }
  rewrite <-Hk in Hbs. destruct (records l) as [|r rs]; [done|].
  by inversion Hbs as [|? ? ? ? [Hr _]]; subst; simpl; rewrite Hr.
Qed.
Lemma last_key_ok : exists o, last_key t = Ok o /\ (is_Some o -> o = fst <$> last bs).
Proof.
  unfold last_key. rewrite (proj2 (Z.eqb_neq _ _)) by done.
  destruct (path_to_rightmost_at K t H kvs ids Hps Hrep Hnd Hz)
    as (anc & leaf & lo & kL & iL & l & -> & (_ & _ & Hl & _) & Hk).
  unfold path_leaf. rewrite last_snoc. cbv beta iota. rewrite (read_leaf_ok t leaf l Hl).
  eexists. split; [done|]. intros [k Hh]. rewrite <-!fmap_last in *.
  rewrite <-(resolves_keys t _ _ Hbs), <-Hk, fmap_app, last_app. by rewrite Hh.
Qed.
End one.

(** What the scans of [t] return when [bs] are its bindings in key order. *)
Definition scans (t : BTree) (bs : list (bytes * bytes)) : Prop :=
  collect_all t = Ok bs /\
  (forall start end_, collect_range t start end_ =
     Ok (filter (fun x : bytes * bytes => start ≤ₖ x.1 /\ x.1 <ₖ end_) bs)) /\
  (forall start end_, scan_rev t start end_ =
     Ok (reverse (filter (fun x : bytes * bytes => start ≤ₖ x.1 /\ x.1 <ₖ end_) bs))) /\
  (forall prefix, scan_prefix t prefix =
     Ok (filter (fun x : bytes * bytes => starts_with x.1 prefix = true) bs)) /\
  (forall start limit, collect_batch_from t start limit =
     Ok (take limit (filter (fun x : bytes * bytes => start ≤ₖ x.1) bs))) /\
  (forall prefix start limit, prefix ≤ₖ start -> collect_prefix_batch_from t prefix start limit =
     Ok (take limit (filter (fun x : bytes * bytes => starts_with x.1 prefix = true)
                       (filter (fun x : bytes * bytes => start ≤ₖ x.1) bs)))) /\
  (forall before limit, collect_rev_batch_before t before limit =
     Ok (take limit (reverse (filter (fun x : bytes * bytes => lt_hi x.1 before) bs)))) /\
  (exists o, first_key t = Ok o /\ (is_Some o -> o = fst <$> head bs)) /\
  (exists o, last_key t = Ok o /\ (is_Some o -> o = fst <$> last bs)).

Lemma scans_empty t : root_page_id t = 0 -> scans t [].
Proof.
  intros Hr. unfold scans, collect_all, collect_range, scan_rev, scan_prefix, collect_prefix_batch_from, collect_batch_from,
    collect_rev_batch_before, collect_range, first_key, last_key. rewrite Hr.
  split; [done|]. split; [done|]. split; [done|]. split; [done|].
  split; [by intros ? []|]. split; [by intros ? ? []|]. split; [by intros ? []|].
  split; by exists None.
Qed.

Lemma rep_scans t H kvs ids ch m :
  page_size_ok t -> rep K t H (root_page_id t) None None kvs ids -> NoDup ids -> ~ (0 ∈ ids) ->
  holds (bt_pages t) kvs ch m -> exists bs, lists bs m /\ scans t bs.
Proof.
  intros Hps Hrep Hnd Hz Hh. destruct (rep_bindings t H kvs ids ch m Hrep Hh) as (bs & Hbs & Hl).
  assert (root_page_id t <> 0) as Hr.
  { intros Hr. apply rep_head in Hrep as [ids' ->]. apply Hz. rewrite Hr. by left. }
  pose proof Hl as [Hs _]. exists bs. split; [done|].
  split; [by eapply collect_all_ok|].
  assert (forall start end_, collect_range t start end_ = _) as Hcr by (intros; by eapply collect_range_ok).
  split; [exact Hcr|]. split; [intros; unfold scan_rev; by rewrite Hcr|].
  split; [intros; by eapply scan_prefix_ok|]. split; [intros; by eapply collect_batch_ok|].
  split; [intros; by eapply collect_prefix_batch_ok|]. split; [intros; by eapply collect_rev_ok|].
  split; [by eapply first_key_ok|by eapply last_key_ok].
Qed.
End scans.

(** C5: on a session that holds the map [m], every scan returns the bindings of
    [m] it asks for and no others, in key order: the whole tree, a range, a range
    reversed, the keys with a prefix, a batch of at most [limit] bindings from a
    key on (with or without a prefix), and a batch backwards from below a key.
    A first or last key they report is the map's. All of them return, however the leaves lie in the pages and the caches. *)
Theorem scans_exact (K : Z) (t : BTree) (H : nat) (m : gmap bytes bytes) (X : list Z) (P : gset Z)
    (n : nat) :
  tree_map K t H m X P n ->
  exists bs, lists bs m /\ collect_all t = Ok bs /\
    (forall start end_, collect_range t start end_ =
       Ok (filter (fun x : bytes * bytes => start ≤ₖ x.1 /\ x.1 <ₖ end_) bs)) /\
    (forall start end_, scan_rev t start end_ =
       Ok (reverse (filter (fun x : bytes * bytes => start ≤ₖ x.1 /\ x.1 <ₖ end_) bs))) /\
    (forall prefix, scan_prefix t prefix =
       Ok (filter (fun x : bytes * bytes => starts_with x.1 prefix = true) bs)) /\
    (forall start limit, collect_batch_from t start limit =
       Ok (take limit (filter (fun x : bytes * bytes => start ≤ₖ x.1) bs))) /\
    (forall prefix start limit, prefix ≤ₖ start -> collect_prefix_batch_from t prefix start limit =
       Ok (take limit (filter (fun x : bytes * bytes => starts_with x.1 prefix = true)
                         (filter (fun x : bytes * bytes => start ≤ₖ x.1) bs)))) /\
    (forall before limit, collect_rev_batch_before t before limit =
       Ok (take limit (reverse (filter (fun x : bytes * bytes => lt_hi x.1 before) bs)))) /\
    (exists o, first_key t = Ok o /\ (is_Some o -> o = fst <$> head bs)) /\
    (exists o, last_key t = Ok o /\ (is_Some o -> o = fst <$> last bs)).
Proof.
  intros [(Hr & -> & _)|(kvs & ids & ch & Hse & Hh)].
  - exists []. split; [split; [constructor|done]|]. by apply scans_empty.
  - destruct (session_nodup _ _ _ _ _ _ _ _ Hse) as [Hnd H0]. destruct Hse as [Hps _ Hrep _ _ _ _].
    exact (rep_scans K t H kvs ids ch m Hps Hrep Hnd H0 Hh).
Qed.

Lemma scans_exact_witness :
  exists t' bs, run_ops sample_ops empty_session = (Ok (spec_ops sample_ops ∅).1, t') /\
    lists bs (spec_ops sample_ops ∅).2 /\ collect_all t' = Ok bs /\
    collect_range t' [Byte.x62] [Byte.x64; Byte.x00] = Ok [([Byte.x63], zeros 120); ([Byte.x64], zeros 120)].
Proof.
  destruct (run_ops_map 16 [] ∅ 0 sample_ops empty_session 0 ∅) as (t' & H' & Hrun & Htm & _).
  - apply empty_session_map. vm_compute. discriminate.
  - repeat constructor; vm_compute; discriminate.
  - vm_compute. reflexivity.
  - destruct (scans_exact 16 t' H' (spec_ops sample_ops ∅).2 [] ∅ 0 Htm) as (bs & Hl & Hall & _).
    exists t', bs. split; [exact Hrun|]. split; [exact Hl|]. split; [exact Hall|].
    assert (t' = (run_ops sample_ops empty_session).2) as -> by (by rewrite Hrun).
    vm_compute. reflexivity.
Defined.

(** ** The first key *)

(** Enough records for two leaves, then the records of the first one deleted. *)
Definition emptied_ops : list tree_op :=
  [OpPut [Byte.x61] (zeros 100); OpPut [Byte.x62] (zeros 100); OpPut [Byte.x63] (zeros 100);
   OpPut [Byte.x64] (zeros 100); OpPut [Byte.x65] (zeros 100);
   OpPut [Byte.x66] (zeros 100);
   OpDelete [Byte.x61]; OpDelete [Byte.x62]; OpDelete [Byte.x63]; OpDelete [Byte.x64]].

(** C37: [first_key] can miss every key of a tree. There is a sequence of puts and
    deletes on an empty session, all of them of keys and values the tree takes, after
    which the session represents a map that is not empty, every [get] answers from
    that map, and [first_key] answers that there is no key: it looks only at the
    leftmost leaf, and deleting the records of that leaf leaves it empty in the
    tree. *)
Theorem first_key_misses :
  exists os t H rs m, Forall (op_ok 16) os /\ run_ops os empty_session = (Ok rs, t) /\
    spec_ops os ∅ = (rs, m) /\ tree_map 16 t H m [] ∅ 0 /\ m <> ∅ /\
    (forall q, get t q = Ok (m !! q)) /\ first_key t = Ok None.
Proof.
  assert (Forall (op_ok 16) emptied_ops) as Hok by (repeat constructor; vm_compute; discriminate).
  destruct (run_ops_map 16 [] ∅ 0 emptied_ops empty_session 0 ∅) as (t & H & Hrun & Htm & _);
    [apply empty_session_map; vm_compute; discriminate|exact Hok|vm_compute; reflexivity|].
  exists emptied_ops, t, H, (spec_ops emptied_ops ∅).1, (spec_ops emptied_ops ∅).2.
  split; [exact Hok|]. split; [exact Hrun|]. split; [by destruct (spec_ops emptied_ops ∅)|]. split; [exact Htm|].
  split; [|split; [intros q; exact (get_map 16 t H _ [] ∅ 0 q Htm)|]].
  - intros He. assert ((spec_ops emptied_ops ∅).2 !! [Byte.x65] = None) as Hn by (by rewrite He).
    vm_compute in Hn. discriminate.
  - assert (t = (run_ops emptied_ops empty_session).2) as -> by (by rewrite Hrun). vm_compute. reflexivity.
Qed.
