(* ===== verification/TreeAppend.v ===== *)
(** * TreeAppend: appending in key order

    [put_append] takes keys in increasing order: it keeps the last key and the
    path of the rightmost leaf from one call to the next. While the rightmost
    leaf is not empty it accepts exactly the keys above every key of the map; an
    empty rightmost leaf makes it accept keys that no later search finds. *)

From S2P Require Import Prelude Keys Errors PageFormat Node Leaf Internal Split Store Overflow Tree TreeWrite TreeRep TreeAlloc TreeCow TreePropagate TreePut TreeOps TreeBatch TreeSpec TreeScan.
From Stdlib Require Import ZArith Lia.
From stdpp Require Import base list strings gmap sorting.

Local Open Scope Z_scope.
Local Open Scope pagedb_scope.

(** ** The contract *)

(** A key above every key of the map. *)
Definition above (m : gmap bytes bytes) (key : bytes) : bool := bool_decide (map_Forall (fun k _ => k <ₖ key) m).

Definition spec_append (r : bytes * bytes) (m : gmap bytes bytes) : result unit * gmap bytes bytes :=
  if above m r.1 then (Ok tt, <[r.1 := r.2]> m) else (Err AppendNotMonotonic, m).

Fixpoint spec_appends (rs : list (bytes * bytes)) (m : gmap bytes bytes) : list (result unit) * gmap bytes bytes :=
  match rs with
  | [] => ([], m)
  | r :: rs => let '(o, m1) := spec_append r m in let '(os, m2) := spec_appends rs m1 in (o :: os, m2)
  end.

(** The same calls on a session, each one reporting its result. *)
Fixpoint run_appends (rs : list (bytes * bytes)) (t : BTree) : list (result unit) * BTree :=
  match rs with
  | [] => ([], t)
  | r :: rs => let '(o, t1) := put_append r.1 r.2 t in let '(os, t2) := run_appends rs t1 in (o :: os, t2)
  end.

Section append.
Context (K : Z).
Local Abbreviation rep := (rep K).
Local Abbreviation session := (session K).
Local Abbreviation covers := (covers K).
Local Abbreviation tree_map := (tree_map K).

(** ** The rightmost leaf *)

Lemma rightmost_ok t H kvs ids X P n :
  session t H kvs ids X P n ->
  exists path lo leaf l kL, path_to_rightmost_leaf t = Ok path /\ covers t ids path lo None /\
    last path = Some leaf /\ last ids = Some leaf /\ leaf_at t leaf l /\ kL ++ records l = kvs.
Proof.
  intros Hse. destruct (session_nodup K _ _ _ _ _ _ _ Hse) as [Hnd H0]. pose proof Hse as [Hps _ Hrep _ _ _ _].
  destruct (path_to_rightmost_at K t H kvs ids Hps Hrep Hnd H0) as (anc & leaf & lo & kL & iL & l & Hpath & Hat & Hk).
  destruct Hat as (Hpos & Hr & Hl & Hids). apply pos_ctx in Hpos as (iC & Hc & HiC).
  assert (covers t ids (reverse anc ++ [leaf]) lo None) as Hcov.
  { exists H, anc, leaf, kL, [], iC, (records l). split; [done|]. split; [done|]. split; [done|].
    rewrite <-Hids, HiC. solve_Permutation. }
  exists (reverse anc ++ [leaf]), lo, leaf, l, kL. rewrite last_snoc. do 3 (split; [done|]).
  split; [|done]. destruct (covers_edge K _ _ _ _ _ _ _ _ _ Hse Hcov) as (leaf' & Hlast & Hi & _).
  rewrite last_snoc in Hlast. congruence.
Qed.

Lemma ends_with_max t H kvs ids X P n k :
  session t H kvs ids X P n -> ends_with t ids k ->
  fst <$> last kvs = Some k /\ forall path lo q, covers t ids path lo None -> k ≤ₖ q -> in_range lo None q.
Proof.
  intros Hse (leaf & l & Hlast & Hl & Hk). split.
  - destruct (rightmost_ok _ _ _ _ _ _ _ Hse) as (path & lo & leaf' & l' & kL & _ & _ & _ & Hi & Hl' & <-).
    assert (leaf' = leaf) as -> by congruence. rewrite (leaf_at_inj _ _ _ _ Hl' Hl).
    destruct (last (records l)) as [r|] eqn:Hr; [|done]. apply last_Some in Hr as [rs ->]. by rewrite app_assoc, last_snoc.
  - intros path lo q Hc Hq. split; [|done].
    destruct (covers_edge K _ _ _ _ _ _ _ _ _ Hse Hc) as (leaf' & _ & Hi & lkvs & l' & Hl' & <- & _ & _ & _ & _ & Hf).
    assert (leaf' = leaf) as -> by congruence. rewrite (leaf_at_inj _ _ _ _ Hl' Hl) in Hf.
    destruct (last (records l)) as [r|] eqn:Hr; [|done]. apply last_Some_elem_of in Hr. injection Hk as <-.
    rewrite Forall_forall in Hf. destruct (Hf r Hr) as [[Hlo _] _]. destruct lo as [b|]; [|done].
    by eapply key_le_trans.
Qed.

(** ** One append *)

(** The session is appending after [k], the largest key of the tree: what it
    remembers of earlier appends is true. *)
Definition appending (t : BTree) (ids : list Z) (k : bytes) : Prop :=
  ends_with t ids k /\ (append_last_key t = None \/ append_last_key t = Some k) /\
  (forall path, append_cached_path t = Some path -> exists lo, covers t ids path lo None).

Lemma appending_above t H kvs ids X P n ch m k key :
  session t H kvs ids X P n -> holds (bt_pages t) kvs ch m -> ends_with t ids k ->
  above m key = bool_decide (k <ₖ key) /\ (k <ₖ key -> forall q, q ∈ kvs.*1 -> q <ₖ key).
Proof.
  intros Hse Hh He. destruct (ends_with_max _ _ _ _ _ _ _ _ Hse He) as [Hk _]. pose proof Hse as [_ _ Hrep _ _ _ _].
  destruct (rep_in_order K _ _ _ _ _ _ _ Hrep) as [Hs _].
  assert (forall q, is_Some (m !! q) <-> q ∈ kvs.*1) as Hdom.
  { intros q. specialize (Hh q). destruct (rec_map kvs !! q) as [v|] eqn:Hv.
    - destruct Hh as (b & c & _ & -> & _). split; [intros _|by eexists].
      destruct (decide (q ∈ kvs.*1)) as [|Hn]; [done|]. apply rec_map_None in Hn. congruence.
    - destruct Hh as [_ ->]. split; [by intros [? ?]|]. by apply rec_map_None in Hv. }
  assert (forall q, q ∈ kvs.*1 -> q = k \/ q <ₖ k) as Hmax.
  { destruct kvs as [|r rs _] using rev_ind; [done|]. rewrite last_snoc in Hk. injection Hk as <-.
    intros q Hq. rewrite fmap_app in Hq, Hs. apply sorted_app in Hs as (_ & _ & Hlt). apply elem_of_app in Hq as [Hq|Hq].
    - right. apply Hlt; [done|by left].
    - left. by apply list_elem_of_singleton in Hq. }
  assert (k <ₖ key -> forall q, q ∈ kvs.*1 -> q <ₖ key) as Hall.
  { intros Hlt q Hq. destruct (Hmax q Hq) as [->|]; [done|]. by eapply key_lt_trans. }
  split; [|done]. apply bool_decide_ext. split.
  - intros Hm. assert (is_Some (m !! k)) as [b Hb]; [|by apply (Hm k b)]. apply Hdom.
    destruct (last kvs) as [r|] eqn:Hr; [|done]. injection Hk as <-. apply list_elem_of_fmap. exists r.
    split; [done|]. by apply last_Some_elem_of.
  - intros Hlt q b Hb. apply Hall; [done|]. apply Hdom. by exists b.
Qed.

(** The path an append takes, remembered or found again. *)
Lemma append_path_ok t H kvs ids X P n k :
  session t H kvs ids X P n -> appending t ids k ->
  exists path lo leaf l, match append_cached_path t with
      | Some cached => Ok cached
      | None => path_to_rightmost_leaf t
      end = Ok path /\ covers t ids path lo None /\ last path = Some leaf /\ leaf_at t leaf l /\
    fst <$> last (records l) = Some k.
Proof.
  intros Hse ((leaf & l & Hlast & Hl & Hk) & _ & Hc). destruct (append_cached_path t) as [path|].
  - destruct (Hc path eq_refl) as [lo Hcov]. exists path, lo, leaf, l. split; [done|]. split; [done|]. split; [|done].
    destruct (covers_edge K _ _ _ _ _ _ _ _ _ Hse Hcov) as (leaf' & -> & Hi & _). congruence.
  - destruct (rightmost_ok _ _ _ _ _ _ _ Hse) as (path & lo & leaf' & l' & kL & Hpath & Hcov & Hp & Hi & _ & _).
    exists path, lo, leaf, l. split; [done|]. split; [done|]. split; [congruence|done].
Qed.

(** A key that is not above the largest one is refused and nothing changes. *)
Lemma append_refused t H kvs ids ch m X P n k key value :
  session t H kvs ids X P n -> holds (bt_pages t) kvs ch m -> appending t ids k ->
  blen key <= K -> blen value <= ISIZE_MAX -> ~ (k <ₖ key) ->
  put_append key value t = (Err AppendNotMonotonic, t).
Proof.
  intros Hse Hh Hap HK HV Hle. assert (bytes_leb key k = true) as Hleb by (by apply bytes_leb_le, key_nlt_le).
  unfold put_append, bind at 1, gets at 1. pose proof Hap as (_ & [Hn|Hs] & _); [|by rewrite Hs, Hleb].
  rewrite Hn. pose proof Hse as [Hps Hroom _ _ _ _ _]. unfold bind at 1, gets at 1. rewrite (validate_ok K) by done.
  unfold bind at 1, gets at 1. rewrite (proj2 (Z.eqb_neq _ _)) by (by eapply session_root).
  destruct (append_path_ok _ _ _ _ _ _ _ _ Hse Hap) as (path & lo & leaf & l & Hpath & _ & Hlast & Hl & Hk).
  unfold bind at 1, gets at 1. rewrite Hpath. unfold bind at 1, gets at 1. rewrite Hn. unfold max_key_at_path, path_leaf.
  rewrite Hlast. cbv beta iota. rewrite (read_leaf_ok _ _ _ Hl), Hk. by rewrite Hleb.
Qed.

Lemma append_accepted t H kvs ids ch m X P n k key value :
  session t H kvs ids (all_pages ch ++ X) P (S (S (length value)) + (2 * H + 4 + n)) ->
  holds (bt_pages t) kvs ch m -> appending t ids k -> blen key <= K -> blen value <= ISIZE_MAX ->
  OVERFLOW_ROOT_HEADER_LEN + ENVELOPE_OVERHEAD < page_size t -> k <ₖ key ->
  exists t' H' kvs' ids' ch', put_append key value t = (Ok tt, t') /\
    session t' H' kvs' ids' (all_pages ch' ++ X) P n /\ holds (bt_pages t') kvs' ch' (<[key := value]> m) /\
    appending t' ids' key /\ (H' <= S H)%nat /\ page_size t' = page_size t /\ untouched t t' P X.
Proof.
  intros Hse Hh Hap HK HV Hpsz Hlt. pose proof Hse as [Hps Hroom _ _ _ _ _].
  destruct (append_path_ok _ _ _ _ _ _ _ _ Hse Hap) as (path & lo & leaf & l & Hpath & Hcov & Hlast & Hl & Hk).
  pose proof Hap as (He & Hlk & _). destruct (ends_with_max _ _ _ _ _ _ _ _ Hse He) as [_ Hin].
  assert (in_range lo None key) as Hq by (by eapply Hin, key_lt_le).
  assert (bytes_leb key k = false) as Hleb by (by apply bytes_leb_gt).
  set (t0 := with_append (append_last_key t) None t).
  assert (session t0 H kvs ids (all_pages ch ++ X) P (S (S (length value)) + (2 * H + 4 + n))) as Hse0.
  { eapply session_frame; [exact Hse|done..|]. by destruct Hse as [? ? ? ? Ha ? ?]. }
  destruct (put_value_ok K t0 H kvs ids ch m X P n key value Hse0 Hh HK HV Hpsz)
    as (v & t1 & path' & sp & t' & H' & kvs' & ids' & ch' & Hlv & _ & Hput & Hse' & Hh' & Hle & Hz & Hu & Hr1 & Hz1 & Hs1
        & _ & _ & lo' & hi & Hq' & Hc1 & Hc2 & Hend).
  assert (covers t ids path' lo' hi) as Hc0.
  { apply (covers_frame K t1); [done..| |done]. intros p Hp. by apply same_at_sym, Hs1. }
  assert (path' = path) as ->.
  { pose proof (covers_path K _ _ _ _ _ _ _ _ _ _ key Hse Hc0 Hq').
    pose proof (covers_path K _ _ _ _ _ _ _ _ _ _ key Hse Hcov Hq). congruence. }
  assert (hi = None) as ->.
  { pose proof (covers_bounds K _ _ _ _ _ _ _ _ _ _ Hse Hc0) as E1.
    rewrite (covers_bounds K _ _ _ _ _ _ _ _ _ _ Hse Hcov) in E1. by injection E1. }
  exists (with_append (Some key) (if sp then None else Some path) t'), H', kvs', ids', ch'. split.
  { unfold put_append, bind at 1, gets at 1.
    assert (match append_last_key t with Some last => bytes_leb key last | None => false end = false) as ->
      by (by destruct Hlk as [->| ->]).
    unfold bind at 1, gets at 1. rewrite (validate_ok K) by done.
    unfold bind at 1, gets at 1. rewrite (proj2 (Z.eqb_neq _ _)) by (by eapply session_root).
    unfold bind at 1, gets at 1. rewrite Hpath. unfold bind at 1, gets at 1. unfold max_key_at_path, path_leaf.
    rewrite Hlast. cbv beta iota. rewrite (read_leaf_ok _ _ _ Hl), Hk.
    assert (match append_last_key t with Some _ => Ok false | None => let! m0 := Ok (Some k) in
        Ok match m0 with Some max_key => bytes_leb key max_key | None => false end end = Ok (E := PagedbError) false) as ->
      by (destruct Hlk as [->| ->]; by rewrite ?Hleb).
    unfold bind at 1, modify at 1. fold t0. unfold bind at 1. rewrite Hlv. unfold bind at 1. by rewrite Hput. }
  split; [eapply session_frame; [exact Hse'|done..|]; by destruct Hse' as [? ? ? ? Ha ? ?]|]. split; [done|]. split.
  - destruct (appending_above _ _ _ _ _ _ _ _ _ _ key Hse Hh He) as [_ Hall]. split.
    + by apply Hend, Hall.
    + split; [by right|]. intros p. simpl. destruct sp; [done|]. intros [= <-]. exists lo'. apply (covers_frame K t'); [done..|]. by apply Hc2.
  - split; [done|]. split; [done|]. done.
Qed.

(** The first append to an empty tree. *)
Lemma append_first t X P n key value :
  root_page_id t = 0 -> page_size_ok t -> room K (page_size t) -> alloc_ok (S (S (length value)) + S n) t X P ->
  dirty_leaves t = ∅ -> fresh_leaves t = ∅ -> scheduled_frees t = [] -> dirty_parent_paths t = ∅ ->
  append_last_key t = None -> blen key <= K -> blen value <= ISIZE_MAX ->
  OVERFLOW_ROOT_HEADER_LEN + ENVELOPE_OVERHEAD < page_size t ->
  exists t' kvs ids ch, put_append key value t = (Ok tt, t') /\ session t' 0 kvs ids (all_pages ch ++ X) P n /\
    holds (bt_pages t') kvs ch {[ key := value ]} /\ appending t' ids key /\ page_size t' = page_size t /\ untouched t t' P X.
Proof.
  intros Hr Hps Hroom Ha Hd Hf Hsch Hpa Hlk HK HV Hpsz.
  destruct (put_first_value_ok K t X P n key value Hr Hps Hroom Ha Hd Hf Hsch Hpa HK HV Hpsz)
    as (v & t1 & root & t' & ch & Hlv & Hr1 & Hpf & Hse & Hh & Hz & Hu).
  exists (with_append (Some key) (Some [root]) t'), [(key, v)], [root], ch. split.
  { unfold put_append, bind at 1, gets at 1. rewrite Hlk. unfold bind at 1, gets at 1. rewrite (validate_ok K) by done.
    unfold bind at 1, gets at 1. rewrite Hr, Z.eqb_refl. unfold bind at 1. rewrite Hlv. unfold bind at 1. by rewrite Hpf. }
  pose proof Hse as [_ _ Hrep _ _ _ _].
  split; [eapply session_frame; [exact Hse|done..|]; by destruct Hse as [? ? ? ? Ha' ? ?]|]. split; [done|]. split; [|done].
  pose proof Hrep as (l & Hl & Hrec & Hid & _). injection Hid as Hroot. split.
  - exists root, l. split; [done|]. split; [by rewrite Hroot|]. by rewrite Hrec.
  - split; [by right|]. intros path [= <-]. exists None. apply (covers_frame K t'); [done..|].
    exists 0%nat, [], root, [], [], [], [(key, v)]. rewrite Hroot. split; [done|]. split; [constructor|]. by rewrite <-Hroot in *.
Qed.

(** A last key that can be read is in the rightmost leaf. *)
Lemma last_key_ends t H kvs ids X P n k :
  session t H kvs ids X P n -> last_key t = Ok (Some k) -> ends_with t ids k.
Proof.
  intros Hse. destruct (rightmost_ok _ _ _ _ _ _ _ Hse) as (path & lo & leaf & l & kL & Hpath & _ & Hlast & Hi & Hl & _).
  unfold last_key. rewrite (proj2 (Z.eqb_neq _ _)) by (by eapply session_root). rewrite Hpath. unfold path_leaf.
  rewrite Hlast. cbv beta iota. rewrite (read_leaf_ok _ _ _ Hl). intros [= Hk]. by exists leaf, l.
Qed.

(** ** Sequences of appends *)

Lemma spec_appends_first r rs m : above m r.1 = true ->
  spec_appends (r :: rs) m =
    (Ok tt :: (spec_appends rs (<[r.1 := r.2]> m)).1, (spec_appends rs (<[r.1 := r.2]> m)).2).
Proof. intros Ha. simpl. unfold spec_append. rewrite Ha. by destruct (spec_appends rs _). Qed.

Lemma run_appends_session X P n : forall rs t H kvs ids ch m k,
  session t H kvs ids (all_pages ch ++ X) P (puts_budget H rs + n) -> holds (bt_pages t) kvs ch m ->
  appending t ids k -> Forall (fun r => blen r.1 <= K /\ blen r.2 <= ISIZE_MAX) rs ->
  OVERFLOW_ROOT_HEADER_LEN + ENVELOPE_OVERHEAD < page_size t ->
  exists t' H', run_appends rs t = ((spec_appends rs m).1, t') /\ tree_map t' H' (spec_appends rs m).2 X P n /\
    untouched t t' P X.
Proof.
  induction rs as [|[key value] rs IH]; intros t H kvs ids ch m k Hse Hh Hap Hf Hpsz.
  { exists t, H. split; [done|]. split; [right; by exists kvs, ids, ch|]. by intros p _. }
  apply Forall_cons in Hf as [[HK HV] Hf]. cbn [fst snd puts_budget] in *. pose proof Hap as (He & _).
  destruct (appending_above _ _ _ _ _ _ _ _ _ _ key Hse Hh He) as [Hab _]. destruct (decide (k <ₖ key)) as [Hlt|Hn].
  - rewrite spec_appends_first by (simpl; rewrite Hab; by apply bool_decide_true). cbn [run_appends fst snd].
    destruct (append_accepted t H kvs ids ch m X P (puts_budget (S H) rs + n) k key value)
      as (t1 & H1 & kvs1 & ids1 & ch1 & -> & Hse1 & Hh1 & Hap1 & Hle & Hz & Hu); try done.
    { eapply session_le; [|exact Hse]. lia. }
    destruct (IH t1 H1 kvs1 ids1 ch1 (<[key := value]> m) key) as (t' & H' & -> & Htm & Hu'); try done.
    { eapply session_le; [|exact Hse1]. pose proof (puts_budget_mono rs H1 (S H) Hle). lia. }
    { by rewrite Hz. }
    exists t', H'. split; [done|]. split; [done|]. intros p Hp. rewrite Hu', Hu; done.
  - cbn [run_appends spec_appends fst snd]. unfold spec_append. cbn [fst snd]. rewrite Hab, bool_decide_false by done.
    rewrite (append_refused _ _ _ _ _ _ _ _ _ _ key value Hse Hh Hap HK HV Hn).
    destruct (IH t H kvs ids ch m k) as (t' & H' & -> & Htm & Hu'); try done.
    { eapply session_le; [|exact Hse]. pose proof (puts_budget_mono rs H (S H)). lia. }
    exists t', H'. by destruct (spec_appends rs m).
Qed.
End append.

(** C6: on a session that has not appended yet, whose tree is empty or whose
    last key can be read, any sequence of [put_append] calls accepts exactly the
    keys above every key stored so far: each of them is in the map afterwards, a
    refused call changes nothing, and protected pages stay as they were. The
    cached rightmost path never misleads a call. The keys are of at most [K] bytes,
    and [tree_map] has [room K] of the page size: up to 143 bytes with pages of 4 KiB. *)
Theorem appends_refine_map (K : Z) (rs : list (bytes * bytes)) (t : BTree) (H : nat) (m : gmap bytes bytes)
    (X : list Z) (P : gset Z) (n : nat) :
  tree_map K t H m X P (puts_budget H rs + n) -> append_last_key t = None -> append_cached_path t = None ->
  (root_page_id t = 0 \/ exists k, last_key t = Ok (Some k)) ->
  Forall (fun r => blen r.1 <= K /\ blen r.2 <= ISIZE_MAX) rs ->
  OVERFLOW_ROOT_HEADER_LEN + ENVELOPE_OVERHEAD < page_size t ->
  exists t' H', run_appends rs t = ((spec_appends rs m).1, t') /\ tree_map K t' H' (spec_appends rs m).2 X P n /\
    untouched t t' P X.
Proof.
  intros [Hl|(kvs & ids & ch & Hse & Hh)] Hlk Hcp Hlast Hf Hpsz.
  - destruct rs as [|[key value] rs]; [exists t, H; split; [done|]; split; [by left|]; by intros p _|]. destruct Hl as (Hr & -> & Hps & Hroom & Ha & Hd & Hfr & Hsch & Hpa).
    apply Forall_cons in Hf as [[HK HV] Hf]. cbn [fst snd puts_budget] in *.
    destruct (append_first K t X P (puts_budget (S H) rs + n) key value)
      as (t1 & kvs & ids & ch & Hput & Hse & Hh & Hap & Hz & Hu); try done.
    { eapply alloc_ok_le; [|exact Ha]. lia. }
    rewrite spec_appends_first by (simpl; apply bool_decide_true, map_Forall_empty). cbn [run_appends fst snd]. rewrite Hput.
    destruct (run_appends_session K X P n rs t1 0 kvs ids ch {[ key := value ]} key) as (t' & H' & -> & Htm & Hu'); try done.
    { eapply session_le; [|exact Hse]. pose proof (puts_budget_mono rs 0 (S H)). lia. }
    { by rewrite Hz. }
    exists t', H'. split; [done|]. split; [done|]. intros p Hp. rewrite Hu', Hu; done.
  - destruct Hlast as [Hr|[k Hk]]; [by apply (session_root K _ _ _ _ _ _ _ Hse) in Hr|].
    eapply (run_appends_session K X P n rs t H kvs ids ch m k); try done. split; [|split; [by left|by rewrite Hcp]].
    by eapply last_key_ends.
Qed.

Definition sample_appends : list (bytes * bytes) :=
  [([Byte.x61], zeros 100); ([Byte.x62], zeros 120); ([Byte.x62], []); ([Byte.x63], zeros 120); ([Byte.x64], zeros 300);
   ([Byte.x61], zeros 5); ([Byte.x65], zeros 110); ([Byte.x66], zeros 110)].

Lemma appends_refine_map_witness :
  exists t' H', run_appends sample_appends empty_session = ((spec_appends sample_appends ∅).1, t') /\
    tree_map 16 t' H' (spec_appends sample_appends ∅).2 [] ∅ 0 /\
    (spec_appends sample_appends ∅).1 =
      [Ok tt; Ok tt; Err AppendNotMonotonic; Ok tt; Ok tt; Err AppendNotMonotonic; Ok tt; Ok tt].
Proof.
  destruct (appends_refine_map 16 sample_appends empty_session 0 ∅ [] ∅ 0) as (t' & H' & Hrun & Htm & _).
  - apply empty_session_map. vm_compute. discriminate.
  - reflexivity.
  - reflexivity.
  - left. reflexivity.
  - repeat constructor; vm_compute; discriminate.
  - vm_compute. reflexivity.
  - exists t', H'. split; [exact Hrun|]. split; [exact Htm|]. vm_compute. reflexivity.
Defined.

(** ** An empty rightmost leaf *)

(** Six records, then the two of the rightmost leaf deleted. *)
Definition six_records : list (bytes * bytes) :=
  (fun k => ([k], zeros 100)) <$> [Byte.x61; Byte.x62; Byte.x63; Byte.x64; Byte.x65; Byte.x66].
Definition emptied_ops : list tree_op :=
  ((fun r => OpPut r.1 r.2) <$> six_records) ++ (OpDelete <$> [[Byte.x65]; [Byte.x66]]).

(** C38: [put_append] can lose a record. There is a sequence of puts and deletes on an
    empty session, after which the session represents a map [m], and a key at most a
    key of [m], for which [put_append] does not answer [AppendNotMonotonic]: it
    reports success, [get] then does not find the key, and the scan of the tree
    returns its keys out of order. The guard compares with the last key of the
    rightmost leaf, which the deletes have left empty. *)
Theorem append_after_deletes_is_lost :
  exists os t H rs m key value t', Forall (op_ok 16) os /\ run_ops os empty_session = (Ok rs, t) /\
    spec_ops os ∅ = (rs, m) /\ tree_map 16 t H m [] ∅ 0 /\ (exists k, is_Some (m !! k) /\ key ≤ₖ k) /\
    put_append key value t = (Ok tt, t') /\ get t' key = Ok None /\
    exists bs, collect_all t' = Ok bs /\ key ∈ bs.*1 /\ ~ keys_sorted bs.*1.
Proof.
  assert (Forall (op_ok 16) emptied_ops) as Hok by (repeat constructor; vm_compute; discriminate).
  destruct (run_ops_map 16 [] ∅ 0 emptied_ops empty_session 0 ∅) as (t & H & Hrun & Htm & _);
    [apply empty_session_map; vm_compute; discriminate|exact Hok|vm_compute; reflexivity|].
  assert (t = (run_ops emptied_ops empty_session).2) as Ht by (by rewrite Hrun).
  set (key := [Byte.x62; Byte.x62]). set (t' := (put_append key (zeros 10) t).2).
  exists emptied_ops, t, H, (spec_ops emptied_ops ∅).1, (spec_ops emptied_ops ∅).2, key, (zeros 10), t'.
  split; [exact Hok|]. split; [exact Hrun|]. split; [by destruct (spec_ops emptied_ops ∅)|]. split; [exact Htm|].
  split; [exists [Byte.x63]; vm_compute; by split; [eexists|]|]. unfold t'. rewrite Ht.
  split; [vm_compute; reflexivity|]. split; [vm_compute; reflexivity|].
  exists (match collect_all (put_append key (zeros 10) (run_ops emptied_ops empty_session).2).2 with Ok bs => bs | _ => [] end).
  split; [vm_compute; reflexivity|]. split; [apply (bool_decide_unpack _); vm_compute; exact I|].
  match goal with |- ~ keys_sorted ?l => replace l with [[Byte.x61]; [Byte.x62]; [Byte.x63]; [Byte.x64]; key] by (vm_compute; reflexivity) end.
  intros Hs. do 3 (apply StronglySorted_inv in Hs as [Hs _]). apply StronglySorted_inv in Hs as [_ Hs].
  apply Forall_cons in Hs as [Hs _]. vm_compute in Hs. discriminate.
Qed.
