(* ===== verification/TreeFlush.v ===== *)
(** * TreeFlush: materialising the cached leaves

    [flush_dirty_leaves] writes every cached leaf to a page and rewrites the
    branch nodes above the moved ones, deepest level first. The page image alone
    then represents the tree the session had, in pages of its own, and the pages
    handed to the free list are none of them. *)

From S2P Require Import Prelude Keys Errors PageFormat Node Leaf Internal Split Store Overflow Tree TreeWrite TreeRep TreeAlloc TreeCow TreePropagate TreePut TreeOps TreeSpec TreeScan.
From Stdlib Require Import ZArith Lia.
From stdpp Require Import base list strings gmap sorting.

Local Open Scope Z_scope.
Local Open Scope pagedb_scope.

(** ** Renamed pages *)

(** The node with its children renamed. *)
Definition map_children (f : Z -> Z) (n : Internal) : Internal :=
  mkInternal (f (leftmost_child n)) ((fun e : InternalEntry => (e.1, f e.2)) <$> entries n).

Lemma map_children_id n f : (forall c, c ∈ children n -> f c = c) -> map_children f n = n.
Proof.
  destruct n as [lm es]. unfold map_children, children. simpl. intros Hf.
  rewrite Hf by (by left). f_equal. rewrite <-(list_fmap_id es) at 2. apply list_fmap_ext.
  intros i [k c] Hi. simpl. rewrite Hf; [done|]. right. apply list_elem_of_fmap. exists (k, c).
  split; [done|]. by eapply list_elem_of_lookup_2.
Qed.
Lemma map_children_ext n f g : (forall c, c ∈ children n -> f c = g c) -> map_children f n = map_children g n.
Proof.
  destruct n as [lm es]. unfold map_children, children. simpl. intros Hf.
  rewrite Hf by (by left). f_equal. apply list_fmap_ext.
  intros i [k c] Hi. simpl. rewrite Hf; [done|]. right. apply list_elem_of_fmap. exists (k, c).
  split; [done|]. by eapply list_elem_of_lookup_2.
Qed.
Lemma children_map f n : children (map_children f n) = f <$> children n.
Proof. unfold children, map_children. simpl. by rewrite <-!list_fmap_compose. Qed.
Lemma needed_map f n : internal_needed (map_children f n) = internal_needed n.
Proof.
  unfold internal_needed, map_children. cbn [entries]. rewrite length_fmap. f_equal.
  rewrite !entries_size_fmap. by rewrite <-list_fmap_compose.
Qed.

Section flush.
Context (K : Z).
Local Abbreviation rep := (rep K).
Local Abbreviation seg := (seg K).

(** A tree whose pages have moved. *)
Lemma rep_transport t t' f h p lo hi kvs ids :
  page_size t' = page_size t ->
  (forall q l, q ∈ ids -> leaf_at t q l -> leaf_at t' (f q) l) ->
  (forall q n, q ∈ ids -> internal_at t q n -> internal_at t' (f q) (map_children f n)) ->
  rep t h p lo hi kvs ids -> rep t' h (f p) lo hi kvs (f <$> ids).
Proof.
  intros Hps. revert p lo hi kvs ids. induction h as [|h IH]; intros p lo hi kvs ids Hl Hi; simpl.
  - intros (l & Hat & Hr & -> & Hrest). exists l. rewrite Hps.
    split; [apply Hl; [by left|done]|]. done.
  - intros (n & ids' & Hn & -> & Hs). exists (map_children f n), (f <$> ids').
    split; [apply Hi; [by left|done]|]. split; [done|].
    assert (forall q, q ∈ ids' -> q ∈ p :: ids') as Hsub by (intros; by right). revert Hsub. clear Hn.
    destruct n as [c es]. simpl in *. revert c lo kvs Hs. generalize ids' at 1 2 4 as js.
    induction es as [|[k c'] es IHes]; intros js c lo kvs; simpl.
    + intros Hr Hsub. apply IH; [intros; apply Hl; auto|intros; apply Hi; auto|done].
    + intros (ka & kb & ia & ib & -> & -> & HK & Hc & Hs) Hsub.
      exists ka, kb, (f <$> ia), (f <$> ib). rewrite fmap_app. split_and!; try done.
      * apply IH; [intros q l Hq; apply Hl, Hsub; mem|intros q n Hq; apply Hi, Hsub; mem|done].
      * apply IHes; [done|]. intros q Hq. apply Hsub. mem.
Qed.

(** ** Parents and depths *)

(** Every page but the root is the child of exactly one node. *)
Lemma rep_edges t h p lo hi kvs ids :
  rep t h p lo hi kvs ids ->
  exists es : list (Z * Z), p :: es.*2 ≡ₚ ids /\ (forall a y, edge t ids a y -> (a, y) ∈ es).
Proof.
  revert p lo hi kvs ids. induction h as [|h IH]; intros p lo hi kvs ids; simpl.
  - intros (l & Hl & _ & -> & _). exists []. split; [done|].
    intros a y (->%list_elem_of_singleton & m & Hm & _). by destruct (leaf_not_internal t p l m).
  - intros (n & ids' & Hn & -> & Hs).
    assert (exists es : list (Z * Z), children n ++ es.*2 ≡ₚ ids' /\
      (forall a y, edge t ids' a y -> (a, y) ∈ es)) as (es & Hp & He).
    { clear Hn. unfold children. revert lo kvs ids' Hs. generalize (leftmost_child n).
      induction (entries n) as [|[k c'] ens IHe]; intros c lo1 kvs1 ids'; simpl.
      - intros Hr. destruct (IH _ _ _ _ _ Hr) as (es & Hp & He). by exists es.
      - intros (ka & kb & ia & ib & -> & -> & _ & Hc & Hs).
        destruct (IH _ _ _ _ _ Hc) as (es1 & Hp1 & He1). destruct (IHe _ _ _ _ Hs) as (es2 & Hp2 & He2).
        exists (es1 ++ es2). split.
        + rewrite <-Hp1, <-Hp2, fmap_app. solve_Permutation.
        + intros a y (Ha & m & Hm). rewrite elem_of_app. apply elem_of_app in Ha as [Ha|Ha].
          * left. apply He1. split; eauto.
          * right. apply He2. split; eauto. }
    exists (((fun c => (p, c)) <$> children n) ++ es). split.
    + rewrite fmap_app, <-list_fmap_compose. change (snd ∘ (fun c => (p, c))) with (@id Z).
      by rewrite list_fmap_id, Hp.
    + intros a y (Ha & m & Hm & Hy). rewrite elem_of_app. apply elem_of_cons in Ha as [->|Ha].
      * left. rewrite (internal_at_inj _ _ _ _ Hm Hn) in Hy. apply list_elem_of_fmap. by exists y.
      * right. apply He. split; eauto.
Qed.

(** What the nodes above a page look like. *)
Definition tree_edges (E : Z -> Z -> Prop) (root : Z) : Prop :=
  (forall a b y, E a y -> E b y -> a = b) /\ (forall a, ~ E a root).

Lemma rep_tree_edges t h p lo hi kvs ids :
  rep t h p lo hi kvs ids -> NoDup ids -> tree_edges (edge t ids) p.
Proof.
  intros Hr Hnd. destruct (rep_edges _ _ _ _ _ _ _ Hr) as (es & Hp & He).
  assert (NoDup (p :: es.*2)) as [Hnp Hne]%NoDup_cons by (by rewrite Hp). split.
  - intros a b y Ha%He Hb%He. clear -Ha Hb Hne. induction es as [|[c x] es IH]; [set_solver|].
    rewrite fmap_cons in Hne. apply NoDup_cons in Hne as [Hx Hne]. simpl in Hx.
    assert (forall d, (d, x) ∈ es -> False) as Hno.
    { intros d Hd. apply Hx, list_elem_of_fmap. by exists (d, x). }
    apply elem_of_cons in Ha as [Ea|Ha], Hb as [Eb|Hb]; simplify_eq; [done| | |by apply IH];
      exfalso; by eapply Hno.
  - intros a Ha%He. apply Hnp, list_elem_of_fmap. by exists (a, p).
Qed.

(** [at_depth E root d x]: [d] edges lead from [root] to [x]. *)
Inductive at_depth (E : Z -> Z -> Prop) (root : Z) : nat -> Z -> Prop :=
| at_root : at_depth E root 0 root
| at_child d a x : at_depth E root d a -> E a x -> at_depth E root (S d) x.

Lemma at_depth_unique E root d e x :
  tree_edges E root -> at_depth E root d x -> at_depth E root e x -> d = e.
Proof.
  intros [Hu Hr] Hd. revert e. induction Hd as [|d a x Hd IH He]; intros e Hx.
  - inversion Hx; subst; [done|]. by destruct (Hr a).
  - inversion Hx as [|e' b ? Hb Hbx]; subst; [by destruct (Hr a)|].
    rewrite (Hu _ _ _ Hbx He) in Hb. f_equal. by apply IH.
Qed.

(** The nodes of a path that leads to a page, by their depth. *)
Lemma linked_depth E root path leaf :
  linked E (eq root) path leaf ->
  (forall i x, path !! i = Some x -> at_depth E root i x) /\ at_depth E root (length path) leaf.
Proof.
  assert (forall path d (F : Z -> Prop), (forall x, F x -> at_depth E root d x) -> linked E F path leaf ->
    (forall i x, path !! i = Some x -> at_depth E root (d + i) x) /\ at_depth E root (d + length path) leaf) as Hg.
  { induction path0 as [|p path0 IH]; intros d F HF; simpl.
    - intros Hl. split; [done|]. rewrite Nat.add_0_r. by apply HF.
    - intros [Hp Hl]. destruct (IH (S d) (E p)) as [H1 H2]; [|done|].
      { intros x Hx. econstructor; [by apply HF|done]. }
      split; [|by rewrite Nat.add_succ_r].
      intros [|i] x; simpl; [intros [= <-]; rewrite Nat.add_0_r; by apply HF|].
      intros Hx. rewrite Nat.add_succ_r. by apply H1. }
  intros Hl. apply (Hg path 0%nat (eq root)); [|done]. intros x <-. constructor.
Qed.

(** Each node of a path leads to the next, the last one to the leaf. *)
Lemma linked_next E F path leaf i x :
  linked E F path leaf -> path !! i = Some x -> exists y, E x y /\ (path !! S i = Some y \/ y = leaf).
Proof.
  revert F i. induction path as [|p path IH]; intros F i; [done|]. simpl. intros [Hp Hl].
  destruct i as [|i]; simpl; [|by eapply IH]. intros [= ->]. destruct path as [|y path]; simpl in *.
  - exists leaf. auto.
  - exists y. destruct Hl. auto.
Qed.

(** Every page of a tree is a leaf that fits or a branch node. *)
Lemma rep_nodes t h p lo hi kvs ids q :
  rep t h p lo hi kvs ids -> q ∈ ids ->
  (exists l, leaf_at t q l /\ leaf_wf l /\ leaf_fits l (page_size t) = true) \/ (exists n, internal_at t q n).
Proof.
  revert p lo hi kvs ids. induction h as [|h IH]; intros p lo hi kvs ids; simpl.
  - intros (l & Hl & _ & -> & Hwf & Hfit & _) ->%list_elem_of_singleton. left. eauto.
  - intros (n & ids' & Hn & -> & Hs) [->|Hq]%elem_of_cons; [eauto|]. clear Hn.
    revert lo kvs ids' Hs Hq. generalize (leftmost_child n).
    induction (entries n) as [|[k c'] es IHes]; intros c lo1 kvs1 ids'; simpl; [apply IH|].
    intros (ka & kb & ia & ib & -> & -> & _ & Hc & Hs) [Hq|Hq]%elem_of_app; [by eapply IH|by eapply IHes].
Qed.

(** ** Writing the moved pages *)

(** [t'] is [t] with the page [p] written. *)
Definition only_page (t t' : BTree) (p : Z) : Prop :=
  cow_step t t' [p] /\ same_alloc t t' /\ root_page_id t' = root_page_id t /\
  dirty_parent_paths t' = dirty_parent_paths t.

Lemma write_leaf_only t p l :
  page_size_ok t -> leaf_wf l -> leaf_fits l (page_size t) = true ->
  dirty_leaves t !! p = None -> fresh_leaves t !! p = None ->
  exists t', write_leaf p l t = (Ok tt, t') /\ leaf_at t' p l /\ only_page t t' p.
Proof.
  intros Hps Hwf Hfit Hd Hf. destruct (write_leaf_ok t p l Hps Hwf Hfit Hd Hf) as (body & Hw & Hl).
  eexists. split; [exact Hw|]. split; [done|]. split; [|done]. split; [|done].
  intros q. simpl. destruct (decide (q = p)) as [->|Hne]; [left; by left|right]. by rewrite lookup_insert_ne.
Qed.

Definition rng (r : gmap Z Z) : list Z := (map_to_list r).*2.

Lemma rng_insert r x y : r !! x = None -> rng (<[x := y]> r) ≡ₚ y :: rng r.
Proof. intros Hx. unfold rng. by rewrite map_to_list_insert. Qed.
Lemma elem_of_rng r x y : r !! x = Some y -> y ∈ rng r.
Proof. intros Hx. apply list_elem_of_fmap. exists (x, y). split; [done|]. by apply elem_of_map_to_list. Qed.
Lemma redirect_rng r x : x ∈ dom r -> redirect r x ∈ rng r.
Proof. intros [y Hy]%elem_of_dom. unfold redirect. rewrite Hy. by eapply elem_of_rng. Qed.
Lemma redirect_other r x : ~ (x ∈ dom r) -> redirect r x = x.
Proof. intros Hx%not_elem_of_dom. unfold redirect. by rewrite Hx. Qed.
Lemma redirect_insert r x y z : x <> z -> redirect (<[x := y]> r) z = redirect r z.
Proof. intros Hx. unfold redirect. by rewrite lookup_insert_ne. Qed.
Lemma redirect_insert_eq r x y : redirect (<[x := y]> r) x = y.
Proof. unfold redirect. by rewrite lookup_insert_eq. Qed.

Section moving.
(** The session whose dirty leaves are flushed, no leaf of it cached as fresh; the
    pages it uses; the protected pages. *)
Context (t1 : BTree) (us : list Z) (P : gset Z).
Context (Hps1 : page_size_ok t1).

(** Pages written so far: the values of [r]. *)
Record flushing (t : BTree) (r : gmap Z Z) (n : nat) : Prop := mkFlushing {
  fl_size : page_size t = page_size t1;
  fl_root : root_page_id t = root_page_id t1;
  fl_dirty : dirty_leaves t = ∅;
  fl_fresh : fresh_leaves t = ∅;
  fl_paths : dirty_parent_paths t = ∅;
  fl_scheduled : scheduled_frees t = scheduled_frees t1;
  fl_pages : forall q, ~ (q ∈ rng r) -> bt_pages t !! q = bt_pages t1 !! q;
  fl_alloc : alloc_ok n t (rng r ++ us) P;
  fl_unprotected : forall q, q ∈ rng r -> ~ (q ∈ P);
}.

Lemma flushing_size_ok t r n : flushing t r n -> page_size_ok t.
Proof. intros [Hz _ _ _ _ _ _ _ _]. unfold page_size_ok. by rewrite Hz. Qed.

Lemma flush_alloc t r n :
  flushing t r (S n) ->
  exists id t', allocate_page t = (Ok id, t') /\ same_content t t' /\ is_u64 id /\
    ~ (id ∈ rng r) /\ ~ (id ∈ us) /\
    (forall old t'', r !! old = None -> only_page t' t'' id -> flushing t'' (<[old := id]> r) n).
Proof.
  intros [Hz Hr Hd Hf Hp Hs Hpg Ha HP].
  destruct (allocate_page_ok _ _ _ _ Ha) as (id & t' & Hal & HidP & Ha' & Hsc).
  pose proof (alloc_ok_bound _ _ _ _ id Ha' ltac:(by left)) as Hb.
  pose proof (alloc_ok_nodup _ _ _ _ Ha') as [Hin _]%NoDup_cons.
  exists id, t'. split; [done|]. split; [done|]. split; [unfold U64_MAX; lia|].
  split; [intros ?; apply Hin; mem|]. split; [intros ?; apply Hin; mem|].
  intros old t'' Hold ((Hw & W1 & W2 & W3 & W4 & _) & Wa & Wr & Wp).
  pose proof Hsc as (E1 & E2 & E3 & E4 & E5 & E6 & E7 & _).
  pose proof (rng_insert r old id Hold) as Hrng.
  constructor; try congruence.
  - intros q. rewrite Hrng. intros Hq. destruct (Hw q) as [->%list_elem_of_singleton| ->]; [set_solver|].
    rewrite E1. apply Hpg. set_solver.
  - rewrite Hrng. by apply (alloc_ok_same _ t').
  - intros q. rewrite Hrng. intros [->|Hq]%elem_of_cons; [done|by apply HP].
Qed.

(** A page written earlier is not written again. *)
Lemma only_page_keeps t t' t'' r n id q :
  flushing t r n -> same_content t t' -> only_page t' t'' id -> q <> id ->
  (forall l, leaf_at t q l -> leaf_at t'' q l) /\ (forall m, internal_at t q m -> internal_at t'' q m).
Proof.
  intros [Hz _ Hd Hf _ _ _ _ _] Hsc (Hw & _) Hq.
  assert (same_at t t'' q /\ page_size t'' = page_size t) as [Hsame Hpsz].
  { pose proof Hsc as (_ & _ & E3 & _). pose proof Hw as (_ & W1 & _). split; [|congruence].
    destruct (same_content_at _ _ q Hsc) as (S1 & S2 & S3).
    destruct (cow_step_at _ _ _ q Hw) as (C1 & C2 & C3); [by intros ?%list_elem_of_singleton|].
    unfold same_at. split_and!; congruence. }
  split; intros ? Hat; [by apply (leaf_at_frame t)|by apply (internal_at_frame t)].
Qed.

Definition leaves_done (t : BTree) (r : gmap Z Z) : Prop :=
  forall x l, x ∈ dom r -> dirty_leaves t1 !! x = Some l -> leaf_at t (redirect r x) l.
Definition internals_done (t : BTree) (r : gmap Z Z) : Prop :=
  forall x m, x ∈ dom r -> internal_at t1 x m -> internal_at t (redirect r x) (map_children (redirect r) m).

(** One more page moved. *)
Lemma leaves_done_step t t' t'' r n old id :
  flushing t r n -> same_content t t' -> only_page t' t'' id -> ~ (id ∈ rng r) -> r !! old = None ->
  (forall l, dirty_leaves t1 !! old = Some l -> leaf_at t'' id l) ->
  leaves_done t r -> leaves_done t'' (<[old := id]> r).
Proof.
  intros Hfl Hsc Hw Hid Hold Hnew Hd x l. rewrite dom_insert_L. intros Hx Hl.
  destruct (decide (old = x)) as [<-|Hne]; [rewrite redirect_insert_eq; by apply Hnew|].
  assert (x ∈ dom r) as Hxr by set_solver. rewrite redirect_insert by done.
  eapply only_page_keeps; [exact Hfl|exact Hsc|exact Hw| |by apply Hd].
  intros Heq. apply Hid. rewrite <-Heq. by apply redirect_rng.
Qed.
Lemma internals_done_step t t' t'' r n old id :
  flushing t r n -> same_content t t' -> only_page t' t'' id -> ~ (id ∈ rng r) -> r !! old = None ->
  (forall m, internal_at t1 old m -> internal_at t'' id (map_children (redirect (<[old := id]> r)) m)) ->
  (forall x m, x ∈ dom r -> internal_at t1 x m -> ~ (old ∈ children m)) ->
  internals_done t r -> internals_done t'' (<[old := id]> r).
Proof.
  intros Hfl Hsc Hw Hid Hold Hnew Hch Hd x m. rewrite dom_insert_L. intros Hx Hm.
  destruct (decide (old = x)) as [<-|Hne]; [rewrite redirect_insert_eq; by apply Hnew|].
  assert (x ∈ dom r) as Hxr by set_solver. rewrite redirect_insert by done.
  rewrite (map_children_ext m _ (redirect r)).
  - eapply only_page_keeps; [exact Hfl|exact Hsc|exact Hw| |by apply Hd].
    intros Heq. apply Hid. rewrite <-Heq. by apply redirect_rng.
  - intros c Hc. apply redirect_insert. intros <-. by apply (Hch x m).
Qed.

Lemma cow_leaves_ok n : forall ls t r,
  flushing t r (length ls + n) -> leaves_done t r -> NoDup ls.*1 ->
  Forall (fun xl : Z * Leaf => dirty_leaves t1 !! xl.1 = Some xl.2 /\ ~ (xl.1 ∈ dom r) /\ leaf_wf xl.2 /\
            leaf_fits xl.2 (page_size t1) = true) ls ->
  exists t' r', cow_leaves ls r t = (Ok r', t') /\ flushing t' r' n /\ leaves_done t' r' /\
    dom r' = dom r ∪ list_to_set ls.*1.
Proof.
  induction ls as [|[x l] ls IH]; intros t r Hfl Hd Hnd Hls.
  { exists t, r. split; [done|]. split; [done|]. split; [done|]. simpl. set_solver. }
  rewrite fmap_cons in Hnd. apply NoDup_cons in Hnd as [Hx Hnd]. simpl in Hx.
  apply Forall_cons in Hls as [(Hxd & Hxr & Hwf & Hfit) Hls]. simpl in Hxd, Hxr, Hwf, Hfit.
  destruct (flush_alloc _ _ _ Hfl) as (id & t2 & Hal & Hsc & _ & Hid & _ & Hstep).
  pose proof Hsc as (_ & _ & E3 & E4 & _ & _ & E7 & _).
  destruct (write_leaf_only t2 id l) as (t3 & Hw & Hat & Honly).
  { unfold page_size_ok. rewrite E3. by eapply flushing_size_ok. }
  { done. } { by rewrite E3, (fl_size _ _ _ Hfl). }
  { by rewrite E4, (fl_dirty _ _ _ Hfl). } { by rewrite E7, (fl_fresh _ _ _ Hfl). }
  apply not_elem_of_dom in Hxr.
  destruct (IH t3 (<[x := id]> r)) as (t' & r' & Hrun & Hfl' & Hd' & Hdom).
  - by apply Hstep.
  - eapply leaves_done_step; [exact Hfl|exact Hsc|exact Honly|done|done| |done]. intros l' Hl'. congruence.
  - done.
  - apply Forall_forall. intros [y ly] Hy. rewrite Forall_forall in Hls. destruct (Hls _ Hy) as (? & Hyr & ?).
    split; [done|]. split; [|done]. simpl in *. rewrite dom_insert_L. intros [->%elem_of_singleton|?]%elem_of_union; [|done].
    apply Hx, list_elem_of_fmap. by exists (x, ly).
  - exists t', r'. cbn [cow_leaves]. unfold bind. rewrite Hal, Hw, Hrun. split; [done|]. split; [done|]. split; [done|].
    rewrite Hdom, dom_insert_L. clear. simpl. set_solver.
Qed.

(** The nodes [ys] can be moved in this order: each is a node of the tree, not
    moved before, with a child that was, and no node moved with or before it has
    it as a child. *)
Definition movable (done : gset Z) (y : Z) : Prop :=
  y ∈ us /\ ~ (y ∈ done) /\ exists m, internal_at t1 y m /\ (exists c, c ∈ children m /\ c ∈ done) /\
    forall x m', x ∈ {[y]} ∪ done -> internal_at t1 x m' -> ~ (y ∈ children m').

Lemma redirects_child_true r m c : c ∈ children m -> c ∈ dom r -> redirects_child r m = true.
Proof.
  intros Hc Hr. unfold redirects_child. apply existsb_exists. exists c. split; [by apply list_elem_of_In|].
  apply bool_decide_true. by apply elem_of_dom.
Qed.

Lemma cow_internals_ok n : forall ys t r fs,
  (forall q, q ∈ us -> ~ (q ∈ rng r)) ->
  flushing t r (length ys + n) -> leaves_done t r -> internals_done t r ->
  (forall i y, ys !! i = Some y -> movable (dom r ∪ list_to_set (take i ys)) y) ->
  exists t' r', cow_internals ys r fs t = (Ok (r', fs ++ ys), t') /\ flushing t' r' n /\
    leaves_done t' r' /\ internals_done t' r' /\ dom r' = dom r ∪ list_to_set ys.
Proof.
  induction ys as [|y ys IH]; intros t r fs Hus Hfl Hl Hi Hys.
  { exists t, r. rewrite app_nil_r. split; [done|]. split; [done|]. split; [done|]. split; [done|]. simpl. set_solver. }
  destruct (Hys 0%nat y eq_refl) as (Hyus & Hyd & m & Hm & (c & Hc & Hcd) & Hno).
  cbn [firstn list_to_set] in Hyd, Hcd, Hno.
  assert (~ (y ∈ dom r) /\ c ∈ dom r) as [Hyr Hcr] by (clear -Hyd Hcd; set_solver).
  destruct (flush_alloc _ _ _ Hfl) as (id & t2 & Hal & Hsc & Hu64 & Hid & Hidus & Hstep).
  pose proof Hsc as (_ & _ & E3 & E4 & _ & _ & E7 & _).
  assert (read_internal t y = Ok m) as Hread.
  { apply read_internal_ok. apply (internal_at_frame t1); [apply Hfl| |done].
    unfold same_at. rewrite (fl_pages _ _ _ Hfl) by (by apply Hus).
    rewrite (fl_fresh _ _ _ Hfl), (fl_dirty _ _ _ Hfl). by destruct Hm as (-> & -> & _). }
  pose proof Hm as (_ & _ & body & _ & Hlen & (_ & Hu & Hneed & _)).
  destruct (write_internal_ok t2 id (map_children (redirect r) m)) as (t3 & Hw & Hat & Honly1 & Honly2).
  { unfold page_size_ok. rewrite E3. by eapply flushing_size_ok. }
  { rewrite children_map. apply Forall_fmap. rewrite Forall_forall in Hu |- *. intros x Hx. simpl.
    destruct (decide (x ∈ dom r)) as [Hxr|Hxr]; [|rewrite redirect_other by done; by apply Hu].
    pose proof (alloc_ok_bound _ _ _ _ (redirect r x) (fl_alloc _ _ _ Hfl)) as Hb.
    ospecialize (Hb _); [apply elem_of_app; left; by apply redirect_rng|]. unfold U64_MAX. lia. }
  { rewrite needed_map, E3, (fl_size _ _ _ Hfl), <-Hlen. done. }
  { by rewrite E4, (fl_dirty _ _ _ Hfl). } { by rewrite E7, (fl_fresh _ _ _ Hfl). }
  assert (only_page t2 t3 id) as Honly by done.
  pose proof Hyr as Hyn%not_elem_of_dom.
  destruct (IH t3 (<[y := id]> r) (fs ++ [y])) as (t' & r' & Hrun & Hfl' & Hl' & Hi' & Hdom).
  - intros q Hq. rewrite rng_insert by done. intros [->|Hq']%elem_of_cons; [done|by apply (Hus q)].
  - by apply Hstep.
  - eapply leaves_done_step; [exact Hfl|exact Hsc|exact Honly|done|done| |done].
    intros l Hyl. destruct Hm as (_ & Hn & _). congruence.
  - eapply internals_done_step; [exact Hfl|exact Hsc|exact Honly|done|done| | |done].
    + intros m' Hm'. rewrite (internal_at_inj _ _ _ _ Hm' Hm). rewrite (map_children_ext m _ (redirect r)); [done|].
      intros z Hz. apply redirect_insert. intros <-. apply (Hno y m); [clear; set_solver|done|done].
    + intros x m' Hx Hm' Hin. apply (Hno x m'); [clear -Hx; set_solver|done|done].
  - intros i z Hz. specialize (Hys (S i) z Hz). cbn [firstn list_to_set] in Hys.
    replace (dom (<[y := id]> r) ∪ list_to_set (take i ys)) with (dom r ∪ ({[y]} ∪ list_to_set (take i ys)));
      [done|]. rewrite dom_insert_L. clear. set_solver.
  - exists t', r'. cbn [cow_internals]. unfold bind, gets. rewrite Hread.
    rewrite (redirects_child_true r m c) by done. rewrite Hal.
    change (redirect_children r m) with (map_children (redirect r) m). rewrite Hw, Hrun, <-app_assoc.
    split; [done|]. split; [done|]. split; [done|]. split; [done|]. rewrite Hdom, dom_insert_L. clear. simpl. set_solver.
Qed.
End moving.

(** ** The order of the branch nodes *)

Lemma cow_internals_app a b : forall r fs t,
  cow_internals (a ++ b) r fs t =
  bind (cow_internals a r fs) (fun '(r, fs) => cow_internals b r fs) t.
Proof.
  induction a as [|x a IH]; intros r fs t; [done|]. simpl. unfold bind, gets.
  destruct (read_internal t x) as [m| |]; [|done..]. destruct (redirects_child r m); [|by rewrite IH].
  destruct (allocate_page t) as [[id| |] t2]; [|done..].
  destruct (write_internal id (redirect_children r m) t2) as [[[]| |] t3]; [|done..]. by rewrite IH.
Qed.
Lemma cow_levels_concat levels : forall r fs t,
  cow_levels levels r fs t = cow_internals (concat levels) r fs t.
Proof.
  induction levels as [|l levels IH]; intros r fs t; [done|]. cbn [concat cow_levels].
  rewrite cow_internals_app. unfold bind. destruct (cow_internals l r fs t) as [[[r' fs']| |] t']; [|done..].
  apply IH.
Qed.

(** What comes before an element of levels that are listed last level first. *)
Lemma levels_lookup (f : nat -> list Z) N i y :
  concat (f <$> reverse (seq 0 N)) !! i = Some y ->
  exists d j, (d < N)%nat /\ f d !! j = Some y /\
    forall x, x ∈ take i (concat (f <$> reverse (seq 0 N))) <->
      (exists e, (d < e < N)%nat /\ x ∈ f e) \/ x ∈ take j (f d).
Proof.
  revert i. induction N as [|N IH]; intros i; [done|].
  rewrite seq_S, reverse_app, reverse_singleton, fmap_app, concat_app, Nat.add_0_l.
  cbn [fmap list_fmap concat]. rewrite app_nil_r.
  destruct (decide (i < length (f N))%nat) as [Hlt|Hge].
  - rewrite lookup_app_l by done. intros Hy. exists N, i. split; [lia|]. split; [done|]. intros x.
    rewrite take_app_le by lia. split; [auto|]. intros [(e & He & _)|?]; [lia|done].
  - rewrite lookup_app_r by lia. intros Hy. destruct (IH _ Hy) as (d & j & Hd & Hj & Hx).
    exists d, j. split; [lia|]. split; [done|]. intros x. rewrite take_app_ge by lia. rewrite elem_of_app, Hx. split.
    + intros [Hn|[(e & He & ?)|?]]; [left; exists N; split; [lia|done]|left; exists e; split; [lia|done]|by right].
    + intros [(e & He & Hin)|?]; [|auto]. destruct (decide (e = N)) as [->|Hne]; [by left|].
      right. left. exists e. split; [lia|done].
Qed.

Lemma elem_of_internals_at paths d y :
  y ∈ internals_at paths d <-> exists leaf path, paths !! leaf = Some path /\ path !! d = Some y.
Proof.
  unfold internals_at. rewrite merge_sort_Permutation, elem_of_elements, elem_of_list_to_set, list_elem_of_omap.
  split.
  - intros ([leaf path] & Hin%elem_of_map_to_list & Hy). eauto.
  - intros (leaf & path & Hl & Hy). exists (leaf, path). split; [by apply elem_of_map_to_list|done].
Qed.
Lemma internals_at_nodup paths d : NoDup (internals_at paths d).
Proof. unfold internals_at. rewrite merge_sort_Permutation. apply NoDup_elements. Qed.
Lemma max_depth_ge (paths : gmap Z (list Z)) leaf path :
  paths !! leaf = Some path -> (length path <= max_depth paths)%nat.
Proof.
  intros Hl%elem_of_map_to_list. unfold max_depth.
  induction (map_to_list paths) as [|x l IH]; [set_solver|].
  apply elem_of_cons in Hl as [<-|Hl]; simpl; [lia|]. apply IH in Hl. lia.
Qed.

Lemma linked_prev E F path leaf d y :
  linked E F path leaf -> path !! S d = Some y -> exists a, path !! d = Some a /\ E a y.
Proof.
  revert F d. induction path as [|p path IH]; intros F d; [done|]. simpl. intros [Hp Hl] Hy.
  destruct d as [|d]; [|by eapply IH]. exists p. split; [done|]. destruct path as [|q path]; [done|].
  simpl in *. simplify_eq. by destruct Hl.
Qed.
Lemma linked_last E F path leaf :
  linked E F path leaf -> path = [] /\ F leaf \/ exists d a, path !! d = Some a /\ E a leaf.
Proof.
  revert F. induction path as [|p path IH]; intros F; simpl; [by left|]. intros [Hp Hl]. right.
  destruct (IH _ Hl) as [[-> He]|(d & a & Ha & He)]; [by exists 0%nat, p|by exists (S d), a].
Qed.

Section order.
Context (t1 : BTree) (H : nat) (root : Z) (kvs : list leaf_record) (ids : list Z).
Context (Hrep : rep t1 H root None None kvs ids) (Hnd : NoDup ids).
Context (Hpaths : paths_ok t1 ids root).
Context (Hdom : dom (dirty_parent_paths t1) = dom (dirty_leaves t1)).
Local Abbreviation ys := (concat (internals_by_depth_rev (dirty_parent_paths t1))).
Local Abbreviation lv := (internals_at (dirty_parent_paths t1)).

Lemma internals_at_depth d y :
  y ∈ lv d -> at_depth (edge t1 ids) root d y /\ y ∈ ids /\ dirty_leaves t1 !! y = None /\
    (d < max_depth (dirty_parent_paths t1))%nat /\
    exists m, internal_at t1 y m /\ exists c, c ∈ children m /\ (c ∈ lv (S d) \/ c ∈ dom (dirty_leaves t1)).
Proof.
  intros (leaf & path & Hl & Hy)%elem_of_internals_at.
  destruct (Hpaths leaf path Hl) as [Hdl Hlk]. destruct (linked_depth _ _ _ _ Hlk) as [Hd _].
  destruct (linked_next _ _ _ _ _ _ Hlk Hy) as (c & (Hyi & m & Hm & Hc) & Hnext).
  split; [by apply Hd|]. split; [done|]. split; [by destruct Hm as (_ & ? & _)|].
  split; [apply max_depth_ge in Hl; apply lookup_lt_Some in Hy; lia|].
  exists m. split; [done|]. exists c. split; [done|]. destruct Hnext as [Hn| ->]; [left|right; by apply elem_of_dom].
  apply elem_of_internals_at. eauto.
Qed.

Lemma internals_by_depth_movable X i y :
  ys !! i = Some y -> movable t1 (ids ++ X) (dom (dirty_leaves t1) ∪ list_to_set (take i ys)) y.
Proof.
  intros Hy. pose proof (rep_tree_edges _ _ _ _ _ _ _ Hrep Hnd) as Ht.
  destruct (levels_lookup lv (max_depth (dirty_parent_paths t1)) i y Hy) as (d & j & HdN & Hj & Hbefore).
  fold (internals_by_depth_rev (dirty_parent_paths t1)) in Hbefore.
  assert (y ∈ lv d) as Hyd by (by eapply list_elem_of_lookup_2).
  destruct (internals_at_depth d y Hyd) as (Hdy & Hyi & Hyn & _ & m & Hm & c & Hc & Hcd).
  assert (forall x, x ∈ take i ys -> exists e, (d <= e)%nat /\ x ∈ lv e) as Hbf.
  { intros x [(e & He & Hx)|Hx]%Hbefore; [exists e; split; [lia|done]|].
    exists d. split; [done|]. rewrite <-(take_drop j (lv d)). mem. }
  split; [mem|]. split.
  { rewrite elem_of_union, elem_of_list_to_set, elem_of_dom, Hyn. intros [[? ?]|[(e & He & Hx)|Hx]%Hbefore]; [done|..].
    - destruct (internals_at_depth e y Hx) as (Hde & _). pose proof (at_depth_unique _ _ _ _ _ Ht Hdy Hde). lia.
    - pose proof (internals_at_nodup (dirty_parent_paths t1) d) as Hn.
      rewrite <-(take_drop_middle _ _ _ Hj) in Hn. apply NoDup_app in Hn as (_ & Hn & _). apply (Hn y Hx). by left. }
  exists m. split; [done|]. split.
  { exists c. split; [done|]. rewrite elem_of_union, elem_of_list_to_set. destruct Hcd as [Hcl|?]; [right|by left].
    apply Hbefore. left. exists (S d). split; [|done].
    destruct (internals_at_depth _ _ Hcl) as (_ & _ & _ & ? & _). lia. }
  intros x m' Hx Hm' Hin.
  assert (exists e, (d <= e)%nat /\ x ∈ lv e) as (e & Hde & Hxe).
  { rewrite !elem_of_union, elem_of_singleton, elem_of_list_to_set, elem_of_dom in Hx.
    destruct Hx as [->|[[? ?]|Hx]]; [eauto| |by apply Hbf]. destruct Hm' as (_ & ? & _). congruence. }
  destruct (internals_at_depth e x Hxe) as (Hdx & Hxi & _).
  assert (at_depth (edge t1 ids) root (S e) y) as Hdy'.
  { econstructor; [exact Hdx|]. split; [done|]. eauto. }
  pose proof (at_depth_unique _ _ _ _ _ Ht Hdy Hdy'). lia.
Qed.

(** A node whose page is not moved has no child whose page is. *)
Lemma unmoved_children q m c :
  q ∈ ids -> internal_at t1 q m -> c ∈ children m ->
  c ∈ dom (dirty_leaves t1) \/ c ∈ ys -> q ∈ ys.
Proof.
  intros Hq Hm Hc Hmoved. destruct (rep_tree_edges _ _ _ _ _ _ _ Hrep Hnd) as [Hu Hr].
  assert (edge t1 ids q c) as He by (split; eauto).
  assert (forall d x, x ∈ lv d -> x ∈ ys) as Hys.
  { intros d x Hx. destruct (internals_at_depth d x Hx) as (_ & _ & _ & Hd & _).
    apply list_elem_of_In, in_concat. exists (lv d). split; [|by apply list_elem_of_In].
    apply list_elem_of_In, list_elem_of_fmap. exists d. split; [done|]. apply elem_of_reverse, elem_of_seq. lia. }
  assert (exists leaf path d a, dirty_parent_paths t1 !! leaf = Some path /\ path !! d = Some a /\ edge t1 ids a c)
    as (leaf & path & d & a & Hl & Ha & Hac).
  { destruct Hmoved as [Hcd|Hcy].
    - rewrite <-Hdom in Hcd. apply elem_of_dom in Hcd as [path Hl]. destruct (Hpaths c path Hl) as [_ Hlk].
      destruct (linked_last _ _ _ _ Hlk) as [[_ <-]|(d & a & ? & ?)]; [by destruct (Hr q)|by exists c, path, d, a].
    - apply list_elem_of_In, in_concat in Hcy as (lvl & Hlv & Hcy). apply list_elem_of_In, list_elem_of_fmap in Hlv as (d & -> & _).
      apply list_elem_of_In, elem_of_internals_at in Hcy as (leaf & path & Hl & Hy).
      destruct (Hpaths leaf path Hl) as [_ Hlk]. destruct d as [|d].
      + destruct path as [|x path]; [done|]. simpl in Hy, Hlk. simplify_eq. destruct Hlk as [<- _]. by destruct (Hr q).
      + destruct (linked_prev _ _ _ _ _ _ Hlk Hy) as (a & ? & ?). by exists leaf, path, d, a. }
  rewrite (Hu q a c He Hac). eapply (Hys d), elem_of_internals_at. eauto.
Qed.
End order.

(** ** The pages of the flushed tree *)

Lemma redirect_perm r ids :
  NoDup ids -> (forall x, x ∈ dom r -> x ∈ ids) ->
  (redirect r <$> ids) ++ (map_to_list r).*1 ≡ₚ rng r ++ ids.
Proof.
  intros Hnd. induction r as [|x y r Hx IH] using map_ind; intros Hsub.
  - unfold rng. rewrite map_to_list_empty. simpl. rewrite app_nil_r.
    replace (redirect ∅ <$> ids) with ids; [done|]. rewrite <-(list_fmap_id ids) at 1. by apply list_fmap_ext.
  - rewrite rng_insert, map_to_list_insert by done. simpl.
    destruct (list_elem_of_split ids x) as (l1 & l2 & ->); [apply Hsub; rewrite dom_insert_L; set_solver|].
    assert (NoDup (x :: l1 ++ l2)) as [Hxl _]%NoDup_cons by (eapply NoDup_perm; [|exact Hnd]; solve_Permutation).
    assert (forall l : list Z, ~ (x ∈ l) -> redirect (<[x := y]> r) <$> l = redirect r <$> l) as Heq.
    { intros l Hl. apply list_fmap_ext. intros i z Hz. apply redirect_insert. intros ->. apply Hl.
      by eapply list_elem_of_lookup_2. }
    specialize (IH ltac:(intros z Hz; apply Hsub; rewrite dom_insert_L; set_solver)).
    rewrite fmap_app, fmap_cons in IH |- *. rewrite redirect_insert_eq, !Heq by (intros ?; apply Hxl; mem).
    rewrite redirect_other in IH by (by apply not_elem_of_dom).
    trans (y :: ((redirect r <$> l1) ++ x :: (redirect r <$> l2)) ++ (map_to_list r).*1); [solve_Permutation|].
    rewrite IH. done.
Qed.

(** ** Writing the fresh leaves *)

Lemma write_leaves_ok : forall ls t,
  page_size_ok t -> NoDup ls.*1 ->
  Forall (fun xl : Z * Leaf => leaf_wf xl.2 /\ leaf_fits xl.2 (page_size t) = true /\
            dirty_leaves t !! xl.1 = None /\ fresh_leaves t !! xl.1 = None) ls ->
  exists t', write_leaves ls t = (Ok tt, t') /\ cow_step t t' ls.*1 /\ same_alloc t t' /\
    root_page_id t' = root_page_id t /\ dirty_parent_paths t' = dirty_parent_paths t /\
    (forall x l, (x, l) ∈ ls -> leaf_at t' x l).
Proof.
  induction ls as [|[x l] ls IH]; intros t Hps Hnd Hls.
  { exists t. split; [done|]. split; [by split; [auto|]|]. split; [done|]. split; [done|]. split; [done|]. set_solver. }
  rewrite fmap_cons in Hnd. apply NoDup_cons in Hnd as [Hx Hnd]. simpl in Hx.
  apply Forall_cons in Hls as [(Hwf & Hfit & Hd & Hf) Hls]. simpl in Hwf, Hfit, Hd, Hf.
  destruct (write_leaf_only t x l Hps Hwf Hfit Hd Hf) as (t2 & Hw & Hat & Hstep & Hal & Hr & Hp).
  pose proof Hstep as (_ & Hz & Hdd & Hff & _).
  destruct (IH t2) as (t' & Hrun & Hstep' & Hal' & Hr' & Hp' & Hats).
  - unfold page_size_ok. by rewrite Hz.
  - done.
  - by rewrite Hz, Hdd, Hff.
  - exists t'. cbn [write_leaves]. unfold bind. rewrite Hw. split; [done|].
    split; [rewrite fmap_cons; exact (cow_step_trans t t2 t' [x] ls.*1 Hstep Hstep')|].
    split; [unfold same_alloc in *; intuition congruence|]. split; [congruence|]. split; [congruence|].
    intros y ly [[= -> ->]|Hy]%elem_of_cons; [|by apply Hats].
    apply (leaf_at_frame t2); [by destruct Hstep' as (_ & ? & _)|by eapply cow_step_at|done].
Qed.

(** After that the session has no fresh leaves, and the same tree. *)
Lemma write_fresh_ok t H kvs ids X P n drain :
  (forall m : gmap Z Leaf, drain m ≡ₚ map_to_list m) -> session K t H kvs ids X P n ->
  exists t1, write_leaves (drain (fresh_leaves t)) (with_fresh (fun _ => ∅) t) = (Ok tt, t1) /\
    session K t1 H kvs ids X P n /\ fresh_leaves t1 = ∅ /\ page_size t1 = page_size t /\
    dirty_leaves t1 = dirty_leaves t /\
    (forall q, q ∈ P \/ q ∈ X -> bt_pages t1 !! q = bt_pages t !! q).
Proof.
  intros Hdr Hse. destruct (session_nodup _ _ _ _ _ _ _ _ Hse) as [Hnd _].
  pose proof Hse as [Hps Hroom Hrep Hsm Ha (Hc1 & Hc2 & Hc3 & Hc4) Hpo].
  assert (forall x l, (x, l) ∈ drain (fresh_leaves t) <-> fresh_leaves t !! x = Some l) as Hin
    by (intros x l; by rewrite Hdr, elem_of_map_to_list).
  destruct (write_leaves_ok (drain (fresh_leaves t)) (with_fresh (fun _ => ∅) t))
    as (t1 & Hrun & Hstep & Hal & Hr & Hp & Hats).
  { done. }
  { rewrite Hdr. apply NoDup_fst_map_to_list. }
  { apply Forall_forall. intros [x l] Hxl%Hin. simpl.
    destruct (rep_nodes _ _ _ _ _ _ _ x Hrep) as [(l' & Hl' & Hwf & Hfit)|[m Hm]]; [apply Hc1; eauto|..].
    - destruct Hl' as [Hl'|[? _]]; [|congruence]. rewrite Hxl in Hl'. simplify_eq.
      split; [done|]. split; [done|]. split; [|done]. apply Hc2. eauto.
    - destruct Hm as (? & _). congruence. }
  pose proof Hstep as (Hpg & Hz & Hd & Hf & Hs & _). simpl in Hz, Hd, Hf, Hs, Hr, Hp.
  assert (forall q, (exists l, fresh_leaves t !! q = Some l /\ leaf_at t1 q l) \/
    fresh_leaves t !! q = None /\ same_at t t1 q) as Hcase.
  { intros q. destruct (fresh_leaves t !! q) as [l|] eqn:Hq; [left; exists l; split; [done|by apply Hats, Hin]|right].
    split; [done|]. unfold same_at. rewrite Hd, Hf, Hq. split; [|done]. simpl in Hpg.
    destruct (Hpg q) as [Hqx|?]; [|done]. apply list_elem_of_fmap in Hqx as ([x l] & -> & Hx%Hin). simpl in Hq. congruence. }
  exists t1. split; [done|]. split; [|split; [done|split; [done|split; [done|]]]].
  - constructor; try (unfold page_size_ok; rewrite ?Hz; done).
    + rewrite Hr, <-(list_fmap_id ids). apply (rep_transport t t1 id); [done| | |done].
      * intros q l Hq Hl. destruct (Hcase q) as [(l' & Hl' & Hat)|[Hn Hsame]]; [|by apply (leaf_at_frame t)].
        destruct Hl as [Hl|[? _]]; [|congruence]. rewrite Hl' in Hl. by simplify_eq.
      * intros q m Hq Hm. rewrite map_children_id by done. destruct (Hcase q) as [(l' & Hl' & _)|[Hn Hsame]].
        -- destruct Hm as [? _]. congruence.
        -- by apply (internal_at_frame t).
    + by apply (alloc_ok_same _ (with_fresh (fun _ => ∅) t)).
    + unfold caches_wf, caches_in. rewrite Hd, Hf, Hs, Hp. split.
      * intros p [?|[? ?]]; [|done]. apply Hc1. by left.
      * split; [by intros p [? ?]|done].
    + rewrite Hr. apply (paths_ok_frame t); try done; [|by rewrite Hd].
      intros a y (Hai & m & Hm & _). destruct (Hcase a) as [(l' & Hl' & _)|[_ ?]]; [|done]. destruct Hm as [? _]. congruence.
  - intros q Hq. destruct (Hcase q) as [(l & Hl & _)|[_ (Hsame & _)]]; [exfalso|done].
    destruct Hq as [HqP|HqX]; [by apply (Hc2 q); eauto|].
    apply alloc_ok_nodup, NoDup_app in Ha as (_ & Hdj & _). apply (Hdj q); [apply Hc1; eauto|done].
Qed.

(** ** Flushing a session *)

Lemma nodup_before {A} (l : list A) : (forall i y, l !! i = Some y -> ~ (y ∈ take i l)) -> NoDup l.
Proof.
  induction l as [|x l IH] using rev_ind; intros Hl; [constructor|]. apply NoDup_app. split_and!.
  - apply IH. intros i y Hy. pose proof (lookup_lt_Some _ _ _ Hy).
    specialize (Hl i y). rewrite take_app_le in Hl by lia. apply Hl. by apply lookup_app_l_Some.
  - intros y Hy ->%list_elem_of_singleton. specialize (Hl (length l) x).
    rewrite take_app_length in Hl. apply Hl; [by apply list_lookup_middle|done].
  - apply NoDup_singleton.
Qed.

(** The page image alone represents the tree; the pages [scheduled_frees] lists
    are no longer part of it. *)
Record flushed (t : BTree) (H : nat) (kvs : list leaf_record) (ids X : list Z) (P : gset Z) (n : nat)
  : Prop := mkFlushed {
  fd_dirty : dirty_leaves t = ∅;
  fd_fresh : fresh_leaves t = ∅;
  fd_paths : dirty_parent_paths t = ∅;
  fd_rep : rep t H (root_page_id t) None None kvs ids;
  fd_alloc : alloc_ok n t (ids ++ scheduled_frees t ++ X) P;
}.

Lemma keys_of_map {A} (m : gmap Z A) x : x ∈ (map_to_list m).*1 <-> x ∈ dom m.
Proof.
  rewrite elem_of_dom, list_elem_of_fmap. split.
  - intros ([y v] & -> & Hin%elem_of_map_to_list). eauto.
  - intros [v Hv]. exists (x, v). split; [done|]. by apply elem_of_map_to_list.
Qed.

(** The moved pages form the same tree. *)
Lemma moved_rep t1 H kvs ids X P t' r n :
  session K t1 H kvs ids X P n -> fresh_leaves t1 = ∅ -> flushing t1 (ids ++ X) P t' r n ->
  leaves_done t1 t' r -> internals_done t1 t' r ->
  dom r = dom (dirty_leaves t1) ∪ list_to_set (concat (internals_by_depth_rev (dirty_parent_paths t1))) ->
  (forall q, q ∈ ids -> ~ (q ∈ rng r)) ->
  rep t' H (redirect r (root_page_id t1)) None None kvs (redirect r <$> ids).
Proof.
  intros Hse Hf1 Hfl Hl Hi Hdom Hrng. destruct (session_nodup _ _ _ _ _ _ _ _ Hse) as [Hnd _].
  pose proof Hse as [_ _ Hrep _ _ (_ & _ & _ & Hc4) Hpo].
  assert (forall q, q ∈ ids -> dirty_leaves t1 !! q = None -> same_at t1 t' q) as Hsame.
  { intros q Hq Hd. unfold same_at. rewrite (fl_fresh _ _ _ _ _ _ Hfl), (fl_dirty _ _ _ _ _ _ Hfl), Hf1, Hd.
    split; [|done]. apply (fl_pages _ _ _ _ _ _ Hfl). by apply Hrng. }
  apply (rep_transport t1 t' (redirect r)); [apply Hfl| | |done].
  - intros q l Hq Hat. destruct (dirty_leaves t1 !! q) as [l'|] eqn:Hd.
    + replace l with l'; [apply Hl; [|done]; rewrite Hdom; apply elem_of_union_l, elem_of_dom; eauto|].
      destruct Hat as [Hat|(_ & b & l0 & _ & _ & _ & ->)]; [by rewrite Hf1 in Hat|]. by rewrite Hd.
    + assert (~ (q ∈ dom r)) as Hqr.
      { rewrite Hdom, elem_of_union, elem_of_dom, elem_of_list_to_set, Hd. intros [[? ?]|Hy]; [done|].
        apply list_elem_of_lookup_1 in Hy as [i Hy].
        destruct (internals_by_depth_movable t1 H _ kvs ids Hrep Hnd Hpo X i q Hy) as (_ & _ & m & Hm & _).
        by eapply leaf_not_internal. }
      rewrite redirect_other by done. apply (leaf_at_frame t1); [apply Hfl|by apply Hsame|done].
  - intros q m Hq Hm. destruct (decide (q ∈ dom r)) as [Hqr|Hqr]; [by apply Hi|].
    rewrite redirect_other by done. rewrite map_children_id.
    + apply (internal_at_frame t1); [apply Hfl|apply Hsame; [done|by destruct Hm as (_ & ? & _)]|done].
    + intros c Hc. apply redirect_other. intros Hcr. apply Hqr. rewrite Hdom. apply elem_of_union_r, elem_of_list_to_set.
      apply (unmoved_children t1 H _ kvs ids Hrep Hnd Hpo Hc4 q m c Hq Hm Hc).
      rewrite Hdom in Hcr. by rewrite elem_of_union, elem_of_list_to_set in Hcr.
Qed.

(** The pages a flush moves: branch nodes, then dirty leaves. *)
Lemma moved_pages drain t1 H kvs ids X P n :
  (forall m : gmap Z Leaf, drain m ≡ₚ map_to_list m) -> session K t1 H kvs ids X P n ->
  let moved := concat (internals_by_depth_rev (dirty_parent_paths t1)) ++ (drain (dirty_leaves t1)).*1 in
  NoDup moved /\ (forall q, q ∈ moved -> q ∈ ids) /\ (length moved <= length ids)%nat.
Proof.
  intros Hdr Hse moved. destruct (session_nodup _ _ _ _ _ _ _ _ Hse) as [Hnd _].
  pose proof Hse as [_ _ Hrep _ _ (Hc1 & _) Hpo]. subst moved.
  set (ys := concat _). set (D := drain (dirty_leaves t1)).
  pose proof (internals_by_depth_movable t1 H _ kvs ids Hrep Hnd Hpo X) as Hmov. fold ys in Hmov.
  assert (forall q, q ∈ D.*1 <-> q ∈ dom (dirty_leaves t1)) as HD by (intros q; unfold D; by rewrite Hdr, keys_of_map).
  assert (forall y, y ∈ ys -> ~ (y ∈ dom (dirty_leaves t1)) /\ y ∈ ids) as Hys.
  { intros y [i Hy]%list_elem_of_lookup_1. destruct (Hmov i y Hy) as (_ & Hn & m & Hm & _).
    split; [intros Hin; apply Hn; by apply elem_of_union_l|].
    destruct (levels_lookup _ _ _ _ Hy) as (d & j & _ & Hj & _).
    destruct (internals_at_depth t1 _ ids Hpo d y) as (_ & ? & _); [|done]. by eapply list_elem_of_lookup_2. }
  assert (NoDup (ys ++ D.*1)) as Hndm.
  { apply NoDup_app. split_and!.
    - apply nodup_before. intros i y Hy Hin. destruct (Hmov i y Hy) as (_ & Hn & _).
      apply Hn, elem_of_union_r. by apply elem_of_list_to_set.
    - intros y Hy HyD%HD. by destruct (Hys y Hy).
    - unfold D. rewrite Hdr. apply NoDup_fst_map_to_list. }
  assert (forall q, q ∈ ys ++ D.*1 -> q ∈ ids) as Hsub.
  { intros q [Hq|Hq%HD]%elem_of_app; [by apply Hys|]. apply Hc1. left. by apply elem_of_dom. }
  split; [done|]. split; [done|]. by apply submseteq_length, NoDup_submseteq.
Qed.

(** Both loops of a flush, on a session without fresh leaves. *)
Lemma move_pages_ok drain t1 H kvs ids X P n :
  (forall m : gmap Z Leaf, drain m ≡ₚ map_to_list m) ->
  session K t1 H kvs ids X P (length ids + n) -> fresh_leaves t1 = ∅ ->
  let ys := concat (internals_by_depth_rev (dirty_parent_paths t1)) in
  exists t' r, (do! r := cow_leaves (drain (dirty_leaves t1)) ∅ in
      cow_levels (internals_by_depth_rev (dirty_parent_paths t1)) r [])
      (with_paths (fun _ => ∅) (with_dirty (fun _ => ∅) t1)) = (Ok (r, ys), t') /\
    flushing t1 (ids ++ X) P t' r n /\ leaves_done t1 t' r /\ internals_done t1 t' r /\
    dom r = dom (dirty_leaves t1) ∪ list_to_set ys.
Proof.
  intros Hdr Hse Hf1 ys. set (D := drain (dirty_leaves t1)). set (t2 := with_paths _ _).
  destruct (moved_pages drain t1 H kvs ids X P _ Hdr Hse) as (Hndm & Hsubm & Hlen). fold ys D in Hndm, Hsubm, Hlen.
  destruct (session_nodup _ _ _ _ _ _ _ _ Hse) as [Hnd _].
  pose proof Hse as [Hps _ Hrep _ Ha (Hc1 & _ & _ & _) Hpo].
  assert (flushing t1 (ids ++ X) P t2 ∅ (length D + (length ys + n))) as Hfl2.
  { constructor; try done; unfold rng; rewrite map_to_list_empty; [|set_solver].
    apply (alloc_ok_same _ t1); [done|]. eapply alloc_ok_le; [|exact Ha].
    rewrite length_app, length_fmap in Hlen. lia. }
  destruct (cow_leaves_ok t1 (ids ++ X) P Hps (length ys + n) D t2 ∅ Hfl2) as (t3 & r3 & Hrun3 & Hfl3 & Hl3 & Hdom3).
  { intros x l. by rewrite dom_empty_L. }
  { by apply NoDup_app in Hndm as (_ & _ & ?). }
  { apply Forall_forall. intros [x l] Hxl. unfold D in Hxl. rewrite Hdr in Hxl. apply elem_of_map_to_list in Hxl.
    split; [done|]. split; [by rewrite dom_empty_L|]. simpl.
    destruct (rep_nodes _ _ _ _ _ _ _ x Hrep) as [(l' & Hl' & Hwf & Hfit)|[m (_ & ? & _)]]; [apply Hc1; left; eauto| |congruence].
    destruct Hl' as [Hl'|(_ & b & l0 & _ & _ & _ & ->)]; [by rewrite Hf1 in Hl'|]. by rewrite Hxl in Hwf, Hfit. }
  assert (dom r3 = dom (dirty_leaves t1)) as Hdom3'.
  { rewrite Hdom3, dom_empty_L, union_empty_l_L. apply set_eq. intros q. rewrite elem_of_list_to_set.
    unfold D. by rewrite Hdr, keys_of_map. }
  destruct (cow_internals_ok t1 (ids ++ X) P Hps n ys t3 r3 []) as (t4 & r4 & Hrun4 & Hfl4 & Hl4 & Hi4 & Hdom4); try done.
  { intros q Hq Hin. pose proof (alloc_ok_nodup _ _ _ _ (fl_alloc _ _ _ _ _ _ Hfl3)) as (_ & Hdj & _)%NoDup_app.
    by apply (Hdj q). }
  { intros x m Hx Hm. rewrite Hdom3', elem_of_dom in Hx. destruct Hm as (_ & Hn & _). rewrite Hn in Hx. by destruct Hx. }
  { intros i y Hy. rewrite Hdom3'. by apply (internals_by_depth_movable t1 H _ kvs ids Hrep Hnd Hpo X). }
  exists t4, r4. unfold bind. rewrite Hrun3, cow_levels_concat. fold ys. rewrite Hrun4, Hdom4, Hdom3'. done.
Qed.

Lemma flush_ok drain t H kvs ids X P n :
  (forall m : gmap Z Leaf, drain m ≡ₚ map_to_list m) -> session K t H kvs ids X P (length ids + n) ->
  exists t' ids', flush_dirty_leaves drain t = (Ok tt, t') /\ flushed t' H kvs ids' X P n /\
    page_size t' = page_size t /\ (forall q, q ∈ P \/ q ∈ X -> bt_pages t' !! q = bt_pages t !! q).
Proof.
  intros Hdr Hse. destruct (write_fresh_ok t H kvs ids X P _ drain Hdr Hse)
    as (t1 & Hw & Hse1 & Hf1 & Hz1 & Hd1 & Hpg1).
  unfold flush_dirty_leaves, bind at 1, gets at 1, bind at 1, modify at 1. unfold bind at 1. rewrite Hw.
  unfold bind at 1, gets at 1. destruct (session_nodup _ _ _ _ _ _ _ _ Hse1) as [Hnd _].
  pose proof Hse1 as [_ _ Hrep _ Ha (_ & _ & Hc3 & Hc4) _].
  case_bool_decide as Hempty.
  { exists t1, ids. split; [done|]. split; [|done]. rewrite Hempty, map_to_list_empty in Hc3.
    symmetry in Hc3. apply Permutation_nil in Hc3. rewrite Hempty, dom_empty_L in Hc4. apply dom_empty_inv_L in Hc4.
    constructor; try done. rewrite Hc3. eapply alloc_ok_le; [|exact Ha]. lia. }
  clear Hempty. unfold bind at 1, modify at 1, bind at 1, gets at 1, bind at 1, modify at 1.
  cbn [dirty_parent_paths with_dirty].
  destruct (moved_pages drain t1 H kvs ids X P _ Hdr Hse1) as (Hndm & Hsubm & _).
  destruct (move_pages_ok drain t1 H kvs ids X P n Hdr Hse1 Hf1) as (t4 & r & Hrun & Hfl & Hl & Hi & Hdom).
  set (ys := concat _) in *. unfold bind at 1 in Hrun. unfold bind at 1.
  destruct (cow_leaves _ _ _) as [[r3| |] t3]; [|done..]. unfold bind at 1. rewrite Hrun.
  unfold bind at 1, modify at 1.
  set (t5 := match r !! root_page_id t4 with Some new_root => with_root new_root t4 | None => t4 end).
  assert (forall q, q ∈ ids ++ X -> ~ (q ∈ rng r)) as Hrng.
  { intros q Hq Hin. pose proof (alloc_ok_nodup _ _ _ _ (fl_alloc _ _ _ _ _ _ Hfl)) as (_ & Hdj & _)%NoDup_app.
    by apply (Hdj q). }
  assert (rep t4 H (redirect r (root_page_id t1)) None None kvs (redirect r <$> ids)) as Hrep4.
  { eapply moved_rep; [|exact Hf1|exact Hfl|done|done|done|intros q Hq; apply Hrng; mem].
    destruct Hse1 as [? ? ? ? Ha1 ? ?]. constructor; try done. eapply alloc_ok_le; [|exact Ha1]. lia. }
  assert (rng r ++ ids ++ X ≡ₚ ys ++ (redirect r <$> ids) ++ scheduled_frees t1 ++ X) as Hperm.
  { assert (ys ++ scheduled_frees t1 ≡ₚ (map_to_list r).*1) as Hk.
    { apply NoDup_Permutation.
      - eapply NoDup_perm; [|exact Hndm]. rewrite Hdr, Hc3. done.
      - apply NoDup_fst_map_to_list.
      - intros q. rewrite keys_of_map, Hdom, elem_of_app, elem_of_union, elem_of_list_to_set, Hc3, keys_of_map. tauto. }
    rewrite app_assoc, <-(redirect_perm r ids Hnd), <-Hk; [solve_Permutation|].
    intros q Hq. apply Hsubm. rewrite Hdom in Hq. rewrite elem_of_app, Hdr, keys_of_map.
    rewrite elem_of_union, elem_of_list_to_set in Hq. tauto. }
  pose proof Hfl as [Hz Hr4 Hd4 Hf4 Hp4 Hs4 Hpg4 Ha4 HP4]. rewrite Hperm in Ha4.
  assert (alloc_ok n t5 (ys ++ (redirect r <$> ids) ++ scheduled_frees t1 ++ X) P) as Ha5.
  { eapply alloc_ok_same; [|exact Ha4]. unfold t5. by destruct (r !! root_page_id t4). }
  destruct (free_pages_ok _ _ _ _ _ Ha5) as (t6 & Hfree & Ha6 & Hsc6). exists t6, (redirect r <$> ids).
  assert (bt_pages t5 = bt_pages t4 /\ page_size t5 = page_size t4 /\ dirty_leaves t5 = ∅ /\ fresh_leaves t5 = ∅ /\
    dirty_parent_paths t5 = ∅ /\ scheduled_frees t5 = scheduled_frees t1 /\
    root_page_id t5 = redirect r (root_page_id t1)) as (E1 & E2 & E3 & E4 & E5 & E6 & E7).
  { unfold t5, redirect. rewrite Hr4. destruct (r !! root_page_id t1); simpl; by rewrite ?Hr4. }
  pose proof Hsc6 as (B1 & B2 & B3 & B4 & B5 & B6 & B7 & _).
  split; [exact Hfree|]. split; [|split; [congruence|]].
  - constructor; try congruence.
    rewrite B2, E7. apply (rep_frame K t4); [congruence| |done]. intros q _. unfold same_at. split_and!; congruence.
  - intros q Hq. rewrite B1, E1, Hpg4; [by apply Hpg1|]. destruct Hq as [Hq|Hq]; [intros Hin; by apply (HP4 q)|].
    apply Hrng. mem.
Qed.
End flush.

(** ** What a flush publishes *)

Lemma holds_frame st st' kvs ch m :
  (forall p, p ∈ all_pages ch -> st' !! p = st !! p) -> holds st kvs ch m -> holds st' kvs ch m.
Proof.
  intros Hfr Hh q. specialize (Hh q). destruct (rec_map kvs !! q) as [v|]; [|done].
  destruct Hh as (b & c & Hc & Hm & Hst). exists b, c. split; [done|]. split; [done|].
  eapply stored_frame; [|exact Hst]. intros p Hp. apply Hfr. by eapply elem_of_all_pages.
Qed.

(** Handing the freed pages to the caller. *)
Lemma alloc_ok_drain n t us sch P :
  alloc_ok n t (us ++ sch) P -> scheduled_frees t ≡ₚ sch ->
  alloc_ok n (drain_freed t).2 us P /\ NoDup (drain_freed t).1 /\
  (forall p, p ∈ (drain_freed t).1 -> ~ (p ∈ us)).
Proof.
  intros (Hnd & Hb & H4 & Hn & HP) Hs. unfold drain_freed. simpl.
  set (c := match page_source t with Some s => cache s | None => [] end).
  assert (unused t ++ us ++ sch ≡ₚ (freed t ++ freed_reusable t ++ scheduled_frees t) ++ c ++ us) as Hperm.
  { unfold unused, avail. fold c. rewrite Hs. solve_Permutation. }
  assert (unused (with_scheduled [] (with_freed [] [] t)) = c) as Hun
    by (unfold unused, avail; simpl; by rewrite app_nil_r).
  rewrite Hperm in Hnd. apply NoDup_app in Hnd as (Hn1 & Hdj & Hn2). split; [|split; [done|]].
  - unfold alloc_ok. rewrite Hun. simpl. split; [done|].
    split; [intros p Hp; apply Hb; rewrite Hperm; apply elem_of_app; by right|]. split; [done|]. split; [done|].
    intros p Hp. destruct (HP p Hp) as (Hav & Hr & Hlt). split; [|done].
    intros Hin. apply Hav. unfold avail in Hin |- *. simpl in Hin. apply elem_of_app. by right.
  - intros p Hp Hu. apply (Hdj p Hp). mem.
Qed.

(** The state after a flush and the hand-over of the freed pages. *)
Definition published (K : Z) (t t' : BTree) (frees : list Z) (H : nat) (m : gmap bytes bytes)
    (X : list Z) (P : gset Z) (n : nat) : Prop :=
  dirty_leaves t' = ∅ /\ fresh_leaves t' = ∅ /\ tree_map K t' H m X P n /\ untouched t t' P X /\
  NoDup frees /\
  exists used, snapshot K (bt_pages t') (root_page_id t') (page_size t') m used /\
    (forall p, p ∈ frees -> ~ (p ∈ used)).

Lemma flushed_published K t t1 H kvs ids0 ids ch m X P n :
  session K t H kvs ids0 (all_pages ch ++ X) P n -> holds (bt_pages t) kvs ch m ->
  flushed K t1 H kvs ids (all_pages ch ++ X) P n -> page_size t1 = page_size t ->
  (forall q, q ∈ P \/ q ∈ all_pages ch ++ X -> bt_pages t1 !! q = bt_pages t !! q) ->
  published K t (drain_freed t1).2 (drain_freed t1).1 H m X P n.
Proof.
  intros Hse Hh [Fd Ff Fp Frep Falloc] Hz Hpg.
  destruct (alloc_ok_drain n t1 (ids ++ all_pages ch ++ X) (scheduled_frees t1) P) as (Ha' & Hnd & Hdis); [|done|].
  { eapply alloc_ok_perm; [|done|exact Falloc]. solve_Permutation. }
  assert (holds (bt_pages t1) kvs ch m) as Hh1.
  { eapply holds_frame; [|exact Hh]. intros p Hp. apply Hpg. right. mem. }
  pose proof Hse as [Hps Hroom _ Hsm _ _ _]. set (t' := (drain_freed t1).2) in *.
  assert (page_size_ok t') as Hps' by (unfold page_size_ok; simpl; by rewrite Hz).
  assert (rep K t' H (root_page_id t') None None kvs ids) as Hrep'.
  { apply (rep_frame K t1); [done| |exact Frep]. by intros q _. }
  assert (session K t' H kvs ids (all_pages ch ++ X) P n) as Hse1.
  { constructor; try done; simpl; rewrite ?Hz; try done.
    - unfold caches_wf, caches_in. simpl. rewrite Fd, Ff, Fp. split; [intros p [[? ?]|[? ?]]; done|].
      split; [by intros p [? ?]|]. split; [by rewrite map_to_list_empty|by rewrite !dom_empty_L].
    - intros leaf path. simpl. by rewrite Fp. }
  split; [done|]. split; [done|]. split; [right; by exists kvs, ids, ch|].
  split; [intros p Hp; apply Hpg; destruct Hp; [by left|right; mem]|]. split; [done|].
  exists (list_to_set (ids ++ all_pages ch)). split.
  - right. exists H, kvs, ids, ch. split; [done|]. split.
    { apply (rep_frame K t'); [done| |exact Hrep']. intros q _. unfold same_at. simpl. by rewrite Fd, Ff. }
    destruct (session_nodup _ _ _ _ _ _ _ _ Hse1) as [? ?]. split; [done|]. split; [done|]. split; [done|].
    intros p Hp. by apply elem_of_list_to_set.
  - intros p Hp. rewrite elem_of_list_to_set. intros Hin. apply (Hdis p Hp). mem in Hin.
Qed.

Lemma flush_map (K : Z) (drain : gmap Z Leaf -> list (Z * Leaf)) (t : BTree) (H : nat)
    (m : gmap bytes bytes) (X : list Z) (P : gset Z) (n : nat) :
  (forall l : gmap Z Leaf, drain l ≡ₚ map_to_list l) -> tree_map K t H m X P (scan_fuel t + n) ->
  exists t1, flush_dirty_leaves drain t = (Ok tt, t1) /\
    published K t (drain_freed t1).2 (drain_freed t1).1 H m X P n.
Proof.
  intros Hdr [(Hr & -> & Hps & Hroom & Ha & Hd & Hf & Hs & Hp)|(kvs & ids & ch & Hse & Hh)].
  - exists t. split.
    { unfold flush_dirty_leaves, bind, gets, modify. rewrite Hf.
      assert (drain ∅ = []) as -> by (apply Permutation_nil; rewrite Hdr; by rewrite map_to_list_empty).
      simpl. replace (with_fresh (fun _ => ∅) t) with t by (destruct t; simpl in Hf; by subst).
      rewrite Hd. by rewrite bool_decide_true. }
    destruct (alloc_ok_drain (scan_fuel t + n) t X [] P) as (Ha' & Hnd & _); [by rewrite app_nil_r|by rewrite Hs|].
    destruct (drain_freed t) as [fr t'] eqn:Hdf. simpl in Ha', Hnd. unfold drain_freed in Hdf. simplify_eq.
    split; [done|]. split; [done|]. split; [left; simpl; split_and!; try done; eapply alloc_ok_le; [|exact Ha']; lia|].
    split; [done|]. split; [done|]. exists ∅. split; [by left|set_solver].
  - assert (length ids <= scan_fuel t)%nat as Hlen.
    { eapply rep_scan_fuel; [apply Hse|]. by destruct (session_nodup _ _ _ _ _ _ _ _ Hse). }
    assert (forall k, (k <= scan_fuel t + n)%nat -> session K t H kvs ids (all_pages ch ++ X) P k) as Hse'.
    { intros k Hk. destruct Hse as [? ? ? ? Ha ? ?]. constructor; try done. by eapply alloc_ok_le. }
    destruct (flush_ok K drain t H kvs ids _ P n Hdr (Hse' (length ids + n)%nat ltac:(lia))) as (t1 & ids' & Hrun & Hfd & Hz & Hpg).
    exists t1. split; [done|]. exact (flushed_published K t t1 H kvs ids ids' ch m X P n (Hse' n ltac:(lia)) Hh Hfd Hz Hpg).
Qed.

(** C4: flushing a session that holds the map [m] writes every cached leaf and
    moves the branch nodes above them; afterwards nothing is cached, and a reader
    that opens the new root over the page image alone reads exactly [m]. The pages
    handed to the free list, each once, are none of those the new tree uses;
    protected pages and pages in use elsewhere keep their contents, and the session
    goes on from there. [drain] lists the entries of a hash map in any order. *)
Theorem flush_publishes_map (K : Z) (drain : gmap Z Leaf -> list (Z * Leaf)) (t : BTree) (H : nat)
    (m : gmap bytes bytes) (X : list Z) (P : gset Z) (n : nat) :
  (forall l : gmap Z Leaf, drain l ≡ₚ map_to_list l) -> tree_map K t H m X P (scan_fuel t + n) ->
  exists t1, flush_dirty_leaves drain t = (Ok tt, t1) /\
    let '(frees, t') := drain_freed t1 in
    published K t t' frees H m X P n /\
    (forall next key, get (btree_open (bt_pages t') (root_page_id t') next (page_size t')) key = Ok (m !! key)).
Proof.
  intros Hdr Htm. destruct (flush_map K drain t H m X P n Hdr Htm) as (t1 & Hrun & Hpub). exists t1. split; [done|].
  destruct (drain_freed t1) as [fr t']. split; [exact Hpub|]. intros next key.
  destruct Hpub as (_ & _ & _ & _ & _ & used & Hsn & _). by eapply snapshot_get.
Qed.

Lemma flush_publishes_map_witness :
  exists t, run_ops sample_ops empty_session = (Ok (spec_ops sample_ops ∅).1, t) /\
    exists t1, flush_dirty_leaves map_to_list t = (Ok tt, t1) /\
    get (btree_open (bt_pages t1) (root_page_id t1) 4 512) [Byte.x65] = Ok (Some (zeros 300)).
Proof.
  destruct (run_ops_map 16 [] ∅ 1000 sample_ops empty_session 0 ∅) as (t & H' & Hrun & Htm & _).
  - apply empty_session_map. vm_compute. discriminate.
  - repeat constructor; vm_compute; discriminate.
  - vm_compute. reflexivity.
  - assert (t = (run_ops sample_ops empty_session).2) as Ht by (by rewrite Hrun).
    destruct (flush_publishes_map 16 map_to_list t H' (spec_ops sample_ops ∅).2 [] ∅ 0) as (t1 & Hfl & Hpub).
    + reflexivity.
    + eapply tree_map_le; [|exact Htm]. rewrite Ht. apply Nat.leb_le. vm_compute. reflexivity.
    + exists t. split; [exact Hrun|]. exists t1. split; [exact Hfl|].
      destruct (drain_freed t1) as [fr t'] eqn:Hdf. destruct Hpub as [_ Hget].
      assert (t1 = (flush_dirty_leaves map_to_list (run_ops sample_ops empty_session).2).2) as -> by (by rewrite <-Ht, Hfl).
      vm_compute. reflexivity.
Defined.
