(* ===== verification/TreeWalk.v ===== *)
(** * TreeWalk: the walks over every page of a tree

    [src/src/btree/tree/maintenance.rs]: collecting the pages a tree reaches, the
    strict walk that reports the first dangling pointer, and the read-only walk
    that several roots share. *)

From S2P Require Import Prelude Keys Errors PageFormat Node Leaf Internal Split Store Overflow Tree TreeWrite TreeRep TreeAlloc TreeCow TreePropagate TreePut TreeOps TreeSpec TreeFlush.
From Stdlib Require Import ZArith Lia.
From stdpp Require Import base list strings gmap.

Local Open Scope Z_scope.
Local Open Scope pagedb_scope.

Definition reserved_page_referenced (parent child : Z) : PagedbError :=
  corruption (ReservedPageReferenced parent child).
Definition page_kind_aliased (page_id : Z) (walked_as referenced_as : string) : PagedbError :=
  corruption (PageKindAliased page_id walked_as referenced_as).

Definition overflow_roots (leaf : Leaf) : list Z :=
  omap (fun r : leaf_record => match r.2 with Leaf.Overflow _ root => Some root | Inline _ => None end)
    (records leaf).

(** The children to visit, the last one pushed first: a zero child is an absent
    slot. *)
Definition pushed (page_id : Z) (n : Internal) : list (Z * Z) :=
  reverse ((pair page_id) <$> filter (fun c => c <> 0) (children n)).

(** ** The walk over nodes *)

(** The pages visited and the pages collected. *)
Abbreviation marks := (gset Z * gset Z)%type.
Definition mark (p : Z) (m : marks) : marks := ({[p]} ∪ m.1, {[p]} ∪ m.2).

Section walk.
(** What to report for a reserved page, and what a visit does: it returns the
    pages to push, the last one first. *)
Context {E : Type} (reserved : Z -> Z -> E) (visit : Z -> Z -> marks -> res E (list (Z * Z) * marks)).

(** The stack with its top first. Every round marks a page and reads it, so that
    the pages of the image and one more bound them. *)
Fixpoint walk_nodes (fuel : nat) : list (Z * Z) -> marks -> res E marks :=
  fix pop (stack : list (Z * Z)) (m : marks) : res E marks :=
    match stack with
    | [] => Ok m
    | (parent_page_id, page_id) :: stack =>
        if is_reserved page_id then Err (reserved parent_page_id page_id) else
        if bool_decide (page_id ∈ m.1) then pop stack m else
        match fuel with
        | O => Panic
        | S fuel =>
            let! '(children, m) := visit parent_page_id page_id (mark page_id m) in
            walk_nodes fuel (children ++ stack) m
        end
    end.
End walk.

(** ** Collecting *)

Fixpoint collect_chain_loop (fuel : nat) (st : Store) (root : Z) (m : marks) (chain_id : Z)
  : result marks :=
  if chain_id =? 0 then Ok m else
  if is_reserved chain_id then Err (reserved_page_referenced root chain_id) else
  if bool_decide (chain_id ∈ m.1) then Err (overflow_chain_cycle root chain_id) else
  match fuel with
  | O => Panic
  | S fuel =>
      let! body := read_main_page st chain_id PageKind.Overflow in
      let! '(next, _) := decode_overflow body in
      collect_chain_loop fuel st root (mark chain_id m) next
  end.

Definition collect_overflow_chain (st : Store) (leaf_page_id root : Z) (m : marks) : result marks :=
  if is_reserved root then Err (reserved_page_referenced leaf_page_id root) else
  if bool_decide (root ∈ m.1) then Ok m else
  let! info := read_root_page st root in
  collect_chain_loop (S (size st)) st root (mark root m) (next info).

Fixpoint collect_overflow_chains (st : Store) (leaf_page_id : Z) (roots : list Z) (m : marks)
  : result marks :=
  match roots with
  | [] => Ok m
  | root :: roots =>
      let! m := collect_overflow_chain st leaf_page_id root m in
      collect_overflow_chains st leaf_page_id roots m
  end.

Definition collect_node (t : BTree) (parent_page_id page_id : Z) (m : marks) : result (list (Z * Z) * marks) :=
  let! '(body, kind) := read_node_guard t page_id in
  match kind with
  | NodeKind.Leaf =>
      let! leaf := leaf_decode body in
      let! m := collect_overflow_chains (bt_pages t) page_id (overflow_roots leaf) m in
      Ok ([], m)
  | NodeKind.Internal =>
      let! n := internal_decode body in
      Ok (pushed page_id n, m)
  end.

Definition collect_unvisited_page_ids (t : BTree) (visited out : gset Z) : result marks :=
  if root_page_id t =? 0 then Ok (visited, out) else
  walk_nodes reserved_page_referenced (collect_node t) (S (size (bt_pages t))) [(0, root_page_id t)] (visited, out).

Definition collect_all_page_ids (t : BTree) (out : gset Z) : result (gset Z) :=
  let! m := collect_unvisited_page_ids t ∅ out in Ok m.2.

(** ** The first dangling pointer *)

(** What the description says. *)
Inductive Dangling :=
| ReservedChild (parent page_id : Z)
| UnreadableNode (parent page_id : Z) (e : PagedbError)
| BadNodeHeader (page_id parent : Z)
| LeafDecodeFailed (page_id parent : Z)
| InternalDecodeFailed (page_id parent : Z)
| NoOverflowRoot (page_id parent : Z) (key_prefix : bytes)
| OverflowReserved (page_id parent : Z) (key_prefix : bytes) (chain : Z)
| OverflowCycle (page_id parent chain : Z)
| OverflowUnreadable (page_id parent chain : Z) (e : PagedbError).

(** A description found is an early return, so an [Err]. *)
Definition or_dangling {A} (r : result A) (d : PagedbError -> Dangling) : res Dangling A :=
  match r with Ok a => Ok a | Err e => Err (d e) | Panic => Panic end.

Fixpoint dangling_chain_loop (fuel : nat) (st : Store) (page_id parent : Z) (key_prefix : bytes)
    (first : bool) (chain_seen : gset Z) (chain : Z) : res Dangling unit :=
  if chain =? 0 then Ok tt else
  if is_reserved chain then Err (OverflowReserved page_id parent key_prefix chain) else
  if bool_decide (chain ∈ chain_seen) then Err (OverflowCycle page_id parent chain) else
  match fuel with
  | O => Panic
  | S fuel =>
      let '(kind, next_off) := if first then (PageKind.OverflowRoot, 4) else (PageKind.Overflow, 0) in
      let! body := or_dangling (read_main_page st chain kind) (OverflowUnreadable page_id parent chain) in
      if blen body <? next_off + 8 then Ok tt else
      let! next := slice body next_off (next_off + 8) in
      dangling_chain_loop fuel st page_id parent key_prefix false ({[chain]} ∪ chain_seen) (of_le next)
  end.

Definition find_dangling_in_overflow (st : Store) (page_id parent : Z) (key : bytes) (root : Z)
  : res Dangling unit :=
  let key_prefix := take 8 key in
  if root =? 0 then Err (NoOverflowRoot page_id parent key_prefix) else
  dangling_chain_loop (S (size st)) st page_id parent key_prefix true ∅ root.

Fixpoint find_dangling_in_records (st : Store) (page_id parent : Z) (rs : list leaf_record)
  : res Dangling unit :=
  match rs with
  | [] => Ok tt
  | (k, Leaf.Overflow _ root) :: rs =>
      let! _ := find_dangling_in_overflow st page_id parent k root in
      find_dangling_in_records st page_id parent rs
  | (_, Inline _) :: rs => find_dangling_in_records st page_id parent rs
  end.

Definition find_dangling_node (t : BTree) (parent page_id : Z) (m : marks) : res Dangling (list (Z * Z) * marks) :=
  let! '(body, _) := or_dangling (read_main_node (bt_pages t) page_id) (UnreadableNode parent page_id) in
  let! header := or_dangling (read_header body) (fun _ => BadNodeHeader page_id parent) in
  match kind header with
  | NodeKind.Leaf =>
      let! leaf := or_dangling (leaf_decode body) (fun _ => LeafDecodeFailed page_id parent) in
      let! _ := find_dangling_in_records (bt_pages t) page_id parent (records leaf) in
      Ok ([], m)
  | NodeKind.Internal =>
      let! n := or_dangling (internal_decode body) (fun _ => InternalDecodeFailed page_id parent) in
      Ok (pushed page_id n, m)
  end.

Definition find_dangling (t : BTree) : result (option Dangling) :=
  if root_page_id t =? 0 then Ok None else
  match walk_nodes ReservedChild (find_dangling_node t) (S (size (bt_pages t))) [(0, root_page_id t)] (∅, ∅) with
  | Ok _ => Ok None
  | Err d => Ok (Some d)
  | Panic => Panic
  end.

(** ** What the walks find on a sound tree *)

Definition marks_add (l : list Z) (m : marks) : marks := (list_to_set l ∪ m.1, list_to_set l ∪ m.2).

Lemma marks_add_nil m : marks_add [] m = m.
Proof. destruct m. unfold marks_add. simpl. f_equal; set_solver. Qed.
Lemma mark_add p m : mark p m = marks_add [p] m.
Proof. unfold mark, marks_add. simpl. f_equal; set_solver. Qed.
Lemma marks_add_app l1 l2 m : marks_add l1 (marks_add l2 m) = marks_add (l2 ++ l1) m.
Proof. unfold marks_add. simpl. f_equal; set_solver. Qed.
Lemma marks_add_fresh l m (ids : list Z) :
  NoDup (l ++ ids) -> (forall p, p ∈ l ++ ids -> ~ (p ∈ m.1)) -> forall p, p ∈ ids -> ~ (p ∈ (marks_add l m).1).
Proof.
  intros (_ & Hd & _)%NoDup_app Hm p Hp. unfold marks_add. simpl. rewrite elem_of_union, elem_of_list_to_set.
  intros [Hl|Hi]; [by apply (Hd p)|]. apply (Hm p); [mem|done].
Qed.

Lemma not_reserved p : 4 <= p -> is_reserved p = false /\ (p =? 0) = false.
Proof. intros. unfold is_reserved, FIRST_ALLOCATABLE_PAGE_ID. split; [apply Z.ltb_ge|apply Z.eqb_neq]; lia. Qed.

(** The pages of the chains of some records. *)
Definition rec_pages (ch : gmap bytes (list Z)) (kvs : list leaf_record) : list Z :=
  concat ((fun r : leaf_record => default [] (ch !! r.1)) <$> kvs).
Definition recs_stored (st : Store) (ch : gmap bytes (list Z)) (kvs : list leaf_record) : Prop :=
  Forall (fun r : leaf_record => exists b c, ch !! r.1 = Some c /\ stored st r.2 b c) kvs.

Lemma rec_pages_app ch k1 k2 : rec_pages ch (k1 ++ k2) = rec_pages ch k1 ++ rec_pages ch k2.
Proof. unfold rec_pages. by rewrite fmap_app, concat_app. Qed.

Section chains.
Context (st : Store).

Lemma read_chain_page_inv p n d : read_chain_page st p = Ok (n, d) ->
  exists body, read_main_page st p PageKind.Overflow = Ok body /\ decode_overflow body = Ok (n, d).
Proof. unfold read_chain_page. destruct (read_main_page st p PageKind.Overflow) as [body| |]; [eauto|done|done]. Qed.

Lemma chain_ids_size n ds ids : chain_tail st n ds ids -> NoDup ids -> (length ids <= size st)%nat.
Proof.
  intros Hc Hnd. rewrite <-size_dom, <-(size_list_to_set (C:=gset Z) ids) by done.
  apply subseteq_size. intros q. rewrite elem_of_list_to_set. intros Hq.
  pose proof (chain_tail_dom _ _ _ _ Hc) as Hdom. rewrite Forall_forall in Hdom. by apply Hdom.
Qed.

Lemma collect_chain_loop_ok root n ds ids : chain_tail st n ds ids -> forall fuel m,
  NoDup ids -> (forall p, p ∈ ids -> 4 <= p /\ ~ (p ∈ m.1)) -> (length ids <= fuel)%nat ->
  collect_chain_loop fuel st root m n = Ok (marks_add ids m).
Proof.
  induction 1 as [|pid n d ds ids Hz Hr _ IH]; intros fuel m Hnd Hp Hf; [destruct fuel; simpl; by rewrite marks_add_nil|].
  destruct (Hp pid ltac:(by left)) as [H4 Hm]. destruct (not_reserved pid H4) as [E1 E2].
  apply NoDup_cons in Hnd as [Hni Hnd]. destruct fuel as [|fuel]; simpl in Hf; [lia|]. simpl.
  apply read_chain_page_inv in Hr as (body & Hb & Hd). rewrite E1, E2, bool_decide_false, Hb by done. simpl. rewrite Hd. simpl.
  rewrite IH; [|done| |lia].
  - by rewrite mark_add, marks_add_app.
  - intros p Hin. destruct (Hp p ltac:(by right)) as [? ?]. split; [done|]. rewrite mark_add. unfold marks_add. simpl. set_solver.
Qed.

Lemma collect_overflow_chain_ok leaf_id root b ids m :
  chain st root 1 b ids -> (forall p, p ∈ ids -> 4 <= p /\ ~ (p ∈ m.1)) ->
  collect_overflow_chain st leaf_id root m = Ok (marks_add ids m).
Proof.
  intros (n & d & ds & ids' & Hr & Hc & _ & -> & Hnd) Hp. destruct (Hp root ltac:(by left)) as [H4 Hm].
  destruct (not_reserved root H4) as [E1 _]. unfold collect_overflow_chain. rewrite E1, bool_decide_false, Hr by done. cbn -[collect_chain_loop].
  apply NoDup_cons in Hnd as [Hni Hnd].
  rewrite (collect_chain_loop_ok root n ds ids' Hc); [by rewrite mark_add, marks_add_app|done| |].
  - intros p Hin. destruct (Hp p ltac:(by right)) as [? ?]. split; [done|]. rewrite mark_add. unfold marks_add. simpl. set_solver.
  - pose proof (chain_ids_size n ds ids' Hc Hnd). lia.
Qed.

Lemma collect_overflow_chains_ok ch leaf_id rs : forall m,
  recs_stored st ch rs -> NoDup (rec_pages ch rs) -> (forall p, p ∈ rec_pages ch rs -> 4 <= p /\ ~ (p ∈ m.1)) ->
  collect_overflow_chains st leaf_id
    (omap (fun r : leaf_record => match r.2 with Leaf.Overflow _ root => Some root | Inline _ => None end) rs) m =
  Ok (marks_add (rec_pages ch rs) m).
Proof.
  induction rs as [|[k v] rs IH]; intros m Hs Hnd Hp; [simpl; by rewrite marks_add_nil|].
  apply Forall_cons in Hs as [(b & c & Hc & Hst) Hs]. simpl in Hc, Hst.
  assert (rec_pages ch ((k, v) :: rs) = c ++ rec_pages ch rs) as He by (unfold rec_pages; simpl; by rewrite Hc).
  rewrite He in *. pose proof Hnd as (_ & _ & Hnd')%NoDup_app. destruct v as [b0|len root]; simpl in *.
  - destruct Hst as [_ ->]. by apply IH.
  - destruct Hst as (Hch & _). rewrite (collect_overflow_chain_ok leaf_id root b c m Hch) by (intros p Hin; apply Hp; mem).
    simpl. rewrite IH; [by rewrite marks_add_app|done|done|]. intros p Hin. split; [apply Hp; mem|].
    eapply marks_add_fresh; [exact Hnd|intros q Hq; by apply Hp|done].
Qed.
End chains.

(** ** Nodes *)

Lemma pushed_all p n : (forall c, c ∈ children n -> c <> 0) -> pushed p n = reverse (pair p <$> children n).
Proof.
  intros Hc. unfold pushed. do 2 f_equal. revert Hc. induction (children n) as [|c cs IH]; intros Hc; [done|].
  rewrite filter_cons_True by (apply Hc; by left). f_equal. apply IH. intros x Hx. apply Hc. by right.
Qed.

Definition fresh_pages (l : list Z) (m : marks) : Prop := NoDup l /\ forall p, p ∈ l -> 4 <= p /\ ~ (p ∈ m.1).

Lemma fresh_pages_app l1 l2 m : fresh_pages (l1 ++ l2) m -> fresh_pages l1 m /\ fresh_pages l2 (marks_add l1 m).
Proof.
  intros [Hnd Hp]. pose proof Hnd as (Hn1 & _ & Hn2)%NoDup_app. split; (split; [done|]); intros p Hin.
  - apply Hp. mem.
  - split; [apply Hp; mem|]. eapply marks_add_fresh; [exact Hnd|intros q Hq; by apply Hp|done].
Qed.
#[global] Instance fresh_pages_perm : Proper ((≡ₚ) ==> eq ==> iff) fresh_pages.
Proof. intros l l' Hl m ? <-. unfold fresh_pages. by setoid_rewrite Hl. Qed.
Lemma marks_add_perm l l' m : l ≡ₚ l' -> marks_add l m = marks_add l' m.
Proof. intros Hl. unfold marks_add. by rewrite (list_to_set_perm_L l l' Hl). Qed.

Section nodes.
Context (K : Z) (t : BTree) {E : Type} (reserved : Z -> Z -> E) (visit : Z -> Z -> marks -> res E (list (Z * Z) * marks)).
(** The pages the visit of a leaf with some records marks besides the leaf. *)
Context (pg : list leaf_record -> list Z) (good : list leaf_record -> Prop).
Context (pg_app : forall k1 k2, pg (k1 ++ k2) = pg k1 ++ pg k2) (good_app : forall k1 k2, good (k1 ++ k2) -> good k1 /\ good k2).
Context (visit_leaf : forall parent p l m, leaf_at t p l -> good (records l) -> fresh_pages (pg (records l)) m ->
  visit parent p m = Ok ([], marks_add (pg (records l)) m)).
Context (visit_internal : forall parent p n m, internal_at t p n -> visit parent p m = Ok (pushed p n, m)).
Local Abbreviation rep := (rep K t).
Local Abbreviation seg := (seg K).
Local Abbreviation walk := (walk_nodes reserved visit).

Lemma walk_visit fuel parent p stack m :
  4 <= p -> ~ (p ∈ m.1) ->
  walk (S fuel) ((parent, p) :: stack) m =
  (let! '(children, m) := visit parent p (mark p m) in walk fuel (children ++ stack) m).
Proof. intros H4 Hm. destruct (not_reserved p H4) as [E1 _]. simpl. by rewrite E1, bool_decide_false. Qed.

Lemma walk_leaf p l : leaf_at t p l -> good (records l) -> forall fuel parent stack m,
  fresh_pages ([p] ++ pg (records l)) m ->
  walk (S fuel) ((parent, p) :: stack) m = walk fuel stack (marks_add ([p] ++ pg (records l)) m).
Proof.
  intros Hl Hs fuel parent stack m Hfr. apply fresh_pages_app in Hfr as [Hp Hr].
  destruct (proj2 Hp p ltac:(by left)) as [H4 Hm]. rewrite walk_visit by done.
  rewrite (visit_leaf parent p l _ Hl Hs) by (by rewrite mark_add). simpl. by rewrite mark_add, marks_add_app.
Qed.

Lemma walk_seg h p :
  (forall c lo hi kvs ids, rep h c lo hi kvs ids -> good kvs -> forall fuel parent stack m, fresh_pages (ids ++ pg kvs) m ->
    walk (length ids + fuel) ((parent, c) :: stack) m = walk fuel stack (marks_add (ids ++ pg kvs) m)) ->
  forall es c lo hi kvs ids, seg (rep h) c es lo hi kvs ids -> good kvs -> forall fuel stack m, fresh_pages (ids ++ pg kvs) m ->
    walk (length ids + fuel) (reverse (pair p <$> c :: es.*2) ++ stack) m = walk fuel stack (marks_add (ids ++ pg kvs) m).
Proof.
  intros IH. induction es as [|[k c'] es IHes]; intros c lo hi kvs ids Hseg Hs fuel stack m Hfr.
  - simpl in *. by eapply IH.
  - destruct Hseg as (k1 & k2 & i1 & i2 & -> & -> & _ & Hc & Hseg). apply good_app in Hs as [Hs1 Hs2].
    assert ((i1 ++ i2) ++ pg (k1 ++ k2) ≡ₚ (i2 ++ pg k2) ++ (i1 ++ pg k1)) as Hperm by (rewrite pg_app; solve_Permutation).
    rewrite Hperm in Hfr. apply fresh_pages_app in Hfr as [Hf2 Hf1].
    rewrite fmap_cons, reverse_cons, <-app_assoc, length_app.
    replace (length i1 + length i2 + fuel)%nat with (length i2 + (length i1 + fuel))%nat by lia.
    rewrite (IHes c' (Some k) hi k2 i2 Hseg Hs2 _ _ _ Hf2). simpl.
    rewrite (IH c lo (Some k) k1 i1 Hc Hs1 _ _ _ _ Hf1), marks_add_app. by rewrite (marks_add_perm _ _ m Hperm).
Qed.

Lemma walk_rep h : forall p lo hi kvs ids, rep h p lo hi kvs ids -> good kvs ->
  forall fuel parent stack m, fresh_pages (ids ++ pg kvs) m ->
  walk (length ids + fuel) ((parent, p) :: stack) m = walk fuel stack (marks_add (ids ++ pg kvs) m).
Proof.
  induction h as [|h IH]; intros p lo hi kvs ids Hr Hs fuel parent stack m Hfr.
  { destruct Hr as (l & Hl & <- & -> & _). by apply walk_leaf. }
  destruct Hr as (n & ids' & Hn & -> & Hseg).
  change ((p :: ids') ++ pg kvs) with ([p] ++ (ids' ++ pg kvs)) in *.
  apply fresh_pages_app in Hfr as [Hfp Hfr]. destruct (proj2 Hfp p ltac:(by left)) as [H4 Hm].
  rewrite length_cons. simpl Nat.add. rewrite walk_visit, (visit_internal parent p n) by done. cbn -[walk_nodes pushed reverse].
  assert (pushed p n = reverse (pair p <$> children n)) as ->.
  { apply pushed_all. intros c Hc. pose proof (seg_children K t h _ _ _ _ _ _ Hseg c Hc) as Hin.
    destruct (proj2 Hfr c) as [? _]; [mem|lia]. }
  rewrite mark_add. unfold children. rewrite (walk_seg h p IH (entries n) _ lo hi kvs ids' Hseg Hs fuel stack _ Hfr).
  by rewrite marks_add_app.
Qed.
End nodes.

(** ** The visits *)

Section visits.
Context (t : BTree) (ch : gmap bytes (list Z)).
Context (Hps : page_size_ok t) (Hd : dirty_leaves t = ∅) (Hf : fresh_leaves t = ∅).

Lemma leaf_body p l : leaf_at t p l ->
  exists body, read_node_guard t p = Ok (body, NodeKind.Leaf) /\ leaf_decode body = Ok l.
Proof.
  intros Hl. destruct (read_node_guard_leaf t p l Hps Hl) as (body & l0 & Hg & _ & Hdec & _ & Hl0); [by rewrite Hf|].
  rewrite Hd, lookup_empty in Hl0. simpl in Hl0. subst l0. eauto.
Qed.

Lemma read_node_guard_parts p body k : read_node_guard t p = Ok (body, k) ->
  exists k' h, read_main_node (bt_pages t) p = Ok (body, k') /\ read_header body = Ok h /\ kind h = k.
Proof.
  unfold read_node_guard. destruct (read_main_node (bt_pages t) p) as [[b k']| |] eqn:Hm; [|done|done].
  simpl. destruct (read_header b) as [h| |] eqn:Hh; [|done|done]. simpl.
  intros Hr. exists k', h. destruct k'; simpl in Hr; try done; case_bool_decide; simplify_eq/=; done.
Qed.

Lemma collect_node_leaf parent p l m : leaf_at t p l -> recs_stored (bt_pages t) ch (records l) ->
  fresh_pages (rec_pages ch (records l)) m ->
  collect_node t parent p m = Ok ([], marks_add (rec_pages ch (records l)) m).
Proof.
  intros Hl Hs [Hnd Hp]. destruct (leaf_body p l Hl) as (body & Hg & Hdec). unfold collect_node.
  rewrite Hg. simpl. rewrite Hdec. simpl. unfold overflow_roots.
  by rewrite (collect_overflow_chains_ok (bt_pages t) ch p).
Qed.

Lemma collect_node_internal parent p n m : internal_at t p n -> collect_node t parent p m = Ok (pushed p n, m).
Proof.
  intros Hn. destruct (read_node_guard_internal t p n Hps Hn) as (body & Hg & _ & Hdec & _). unfold collect_node.
  rewrite Hg. simpl. by rewrite Hdec.
Qed.

Lemma find_dangling_node_internal parent p n m : internal_at t p n -> find_dangling_node t parent p m = Ok (pushed p n, m).
Proof.
  intros Hn. destruct (read_node_guard_internal t p n Hps Hn) as (body & Hg & _ & Hdec & _).
  destruct (read_node_guard_parts _ _ _ Hg) as (k' & h & Hm & Hh & Hk). unfold find_dangling_node.
  rewrite Hm. simpl. rewrite Hh. simpl. rewrite Hk, Hdec. done.
Qed.
End visits.

Section dangling_chains.
Context (st : Store) (page_id parent : Z) (kp : bytes).

Lemma dangling_chain_tail_ok n ds ids : chain_tail st n ds ids -> forall fuel (seen : gset Z),
  NoDup ids -> (forall p, p ∈ ids -> 4 <= p /\ ~ (p ∈ seen)) -> (length ids <= fuel)%nat ->
  dangling_chain_loop fuel st page_id parent kp false seen n = Ok tt.
Proof.
  induction 1 as [|pid n d ds ids Hz Hr _ IH]; intros fuel seen Hnd Hp Hf; [by destruct fuel|].
  destruct (Hp pid ltac:(by left)) as [H4 Hm]. destruct (not_reserved pid H4) as [E1 E2].
  apply NoDup_cons in Hnd as [Hni Hnd]. destruct fuel as [|fuel]; simpl in Hf; [lia|]. simpl.
  apply read_chain_page_inv in Hr as (body & Hb & Hd). rewrite E1, E2, bool_decide_false, Hb by done. simpl.
  unfold decode_overflow, OVERFLOW_HEADER_LEN in Hd. destruct (blen body <? 12) eqn:Hl; [done|]. apply Z.ltb_ge in Hl.
  rewrite (proj2 (Z.ltb_ge _ _)) by lia. rewrite (slice_ok body 0 8) in Hd by lia.
  rewrite (slice_ok body 0 (0 + 8)) by lia. cbn [bind] in *. rewrite (slice_ok body 8 12) in Hd by lia.
  assert (of_le (sub body 0 (0 + 8 - 0)) = n) as -> by (inv_ok Hd; done).
  apply IH; [done| |lia]. intros p Hin. destruct (Hp p ltac:(by right)) as [? ?]. split; [done|]. set_solver.
Qed.

Lemma dangling_chain_ok root b ids :
  chain st root 1 b ids -> (forall p, p ∈ ids -> 4 <= p) ->
  dangling_chain_loop (S (size st)) st page_id parent kp true ∅ root = Ok tt.
Proof.
  intros (n & d & ds & ids' & Hr & Hc & _ & -> & Hnd) Hp. pose proof (Hp root ltac:(by left)) as H4.
  destruct (not_reserved root H4) as [E1 E2]. apply NoDup_cons in Hnd as [Hni Hnd]. cbn [dangling_chain_loop].
  rewrite E1, E2, bool_decide_false by set_solver. unfold read_root_page in Hr.
  destruct (read_main_page st root PageKind.OverflowRoot) as [body| |]; [|discriminate Hr|discriminate Hr]. cbn [or_dangling].
  destruct (decode_overflow_root body) as [[[rc' n'] d']| |] eqn:Hdec; simplify_eq/=.
  unfold decode_overflow_root in Hdec. change OVERFLOW_ROOT_HEADER_LEN with 16 in Hdec. destruct (blen body <? 16) eqn:Hl; [done|].
  apply Z.ltb_ge in Hl. rewrite (slice_ok body 0 4) in Hdec by lia. rewrite (slice_ok body 4 12), (slice_ok body 12 16) in Hdec by lia.
  rewrite (proj2 (Z.ltb_ge _ _)) by lia. rewrite (slice_ok body 4 (4 + 8)) by lia.
  assert (of_le (sub body 4 (4 + 8 - 4)) = n) as -> by (inv_ok Hdec; done).
  eapply dangling_chain_tail_ok; [exact Hc|done| |by eapply chain_ids_size].
  intros p Hin. split; [apply Hp; by right|set_solver].
Qed.
End dangling_chains.

Lemma find_dangling_in_records_ok st ch page_id parent rs :
  recs_stored st ch rs -> (forall p, p ∈ rec_pages ch rs -> 4 <= p) ->
  find_dangling_in_records st page_id parent rs = Ok tt.
Proof.
  induction rs as [|[k v] rs IH]; intros Hs Hp; [done|].
  apply Forall_cons in Hs as [(b & c & Hc & Hst) Hs]. simpl in Hc, Hst.
  assert (rec_pages ch ((k, v) :: rs) = c ++ rec_pages ch rs) as He by (unfold rec_pages; simpl; by rewrite Hc).
  rewrite He in Hp. destruct v as [b0|len root]; cbn [find_dangling_in_records].
  - apply IH; [done|]. intros p Hin. apply Hp. mem.
  - destruct Hst as (Hch & _). unfold find_dangling_in_overflow. pose proof Hch as (? & ? & ? & ids' & _ & _ & _ & -> & _).
    assert (4 <= root) as H4 by (apply Hp; mem). rewrite (proj2 (Z.eqb_neq _ _)) by lia.
    rewrite (dangling_chain_ok st page_id parent _ root b _ Hch) by (intros p Hin; apply Hp, elem_of_app; by left).
    apply IH; [done|]. intros p Hin. apply Hp. mem.
Qed.

Lemma find_dangling_node_leaf t ch parent p l m :
  page_size_ok t -> dirty_leaves t = ∅ -> fresh_leaves t = ∅ ->
  leaf_at t p l -> recs_stored (bt_pages t) ch (records l) /\ (forall q, q ∈ rec_pages ch (records l) -> 4 <= q) ->
  find_dangling_node t parent p m = Ok ([], m).
Proof.
  intros Hps Hd Hf Hl [Hs Hp]. destruct (leaf_body t Hps Hd Hf p l Hl) as (body & Hg & Hdec).
  destruct (read_node_guard_parts t _ _ _ Hg) as (k' & h & Hm & Hh & Hk). unfold find_dangling_node.
  rewrite Hm. simpl. rewrite Hh. simpl. rewrite Hk, Hdec. simpl. by rewrite (find_dangling_in_records_ok _ ch).
Qed.

(** ** Sound trees *)

Lemma holds_stored st kvs ch m : keys_sorted kvs.*1 -> holds st kvs ch m -> recs_stored st ch kvs.
Proof.
  intros Hso Hh. apply Forall_forall. intros [k v] Hin. specialize (Hh k).
  rewrite (proj2 (rec_map_Some kvs k v Hso) Hin) in Hh. destruct Hh as (b & c & Hc & _ & Hst). by exists b, c.
Qed.

(** The chains of the records are the chains of the map. *)
Lemma all_rec_pages st kvs ch m : keys_sorted kvs.*1 -> holds st kvs ch m -> rec_pages ch kvs ≡ₚ all_pages ch.
Proof.
  revert ch m. induction kvs as [|[k v] kvs IH]; intros ch m Hso Hh.
  - assert (ch = ∅) as -> by (apply map_eq; intros q; specialize (Hh q); unfold rec_map in Hh; simpl in Hh; rewrite lookup_empty in Hh; by destruct Hh as [-> _]).
    unfold all_pages. by rewrite map_to_list_empty.
  - rewrite (all_pages_delete ch k). pose proof Hso as Hnd%sorted_NoDup. rewrite fmap_cons in Hnd. apply NoDup_cons in Hnd as [Hk _].
    change (rec_pages ch ((k, v) :: kvs)) with (default [] (ch !! k) ++ rec_pages ch kvs). apply Permutation_app_head.
    rewrite <-(IH (delete k ch) (delete k m)).
    + unfold rec_pages. erewrite list_fmap_ext; [done|]. intros i [k' v'] Hi. simpl. rewrite lookup_delete_ne; [done|].
      intros ->. apply Hk, list_elem_of_fmap. exists (k', v'). split; [done|by eapply list_elem_of_lookup_2].
    + by inversion Hso.
    + intros q. destruct (decide (q = k)) as [->|Hne].
      * rewrite !lookup_delete_eq. by rewrite (proj1 (rec_map_None kvs k) Hk).
      * rewrite !lookup_delete_ne by done. specialize (Hh q). simpl in Hh. by rewrite lookup_insert_ne in Hh.
Qed.

(** A sound tree in the page image alone: its pages and those of its chains, each
    once and none of them reserved. *)
Definition sound_pages (K : Z) (st : Store) (root ps : Z) (m : gmap bytes bytes) (us : list Z) : Prop :=
  let t := btree_open st root 4 ps in
  exists H kvs ids ch, page_size_ok t /\ rep K t H root None None kvs ids /\ holds st kvs ch m /\
    us ≡ₚ ids ++ all_pages ch /\ NoDup us /\ (forall p, p ∈ us -> 4 <= p).

Lemma rep_ids_size K t h p lo hi kvs ids :
  fresh_leaves t = ∅ -> rep K t h p lo hi kvs ids -> NoDup ids -> (length ids <= size (bt_pages t))%nat.
Proof.
  intros Hf Hr Hnd. rewrite <-size_dom, <-(size_list_to_set (C:=gset Z) ids) by done.
  apply subseteq_size. intros q. rewrite elem_of_list_to_set. intros Hq.
  destruct (rep_nodes K t h p lo hi kvs ids q Hr Hq) as [(l & [Hl|(_ & body & l0 & Hb & _)] & _)|(n & _ & _ & body & Hb & _)];
    [by rewrite Hf in Hl|by eapply elem_of_dom_2..].
Qed.

(** The walks on a sound tree collect exactly its pages and find nothing dangling. *)
Lemma walks_exact K st root next ps m us out :
  sound_pages K st root ps m us ->
  collect_all_page_ids (btree_open st root next ps) out = Ok (list_to_set us ∪ out) /\
  find_dangling (btree_open st root next ps) = Ok None.
Proof.
  intros (H & kvs & ids & ch & Hps & Hr & Hh & Hus & Hnd & H4). set (t := btree_open st root next ps).
  apply (rep_frame K _ t) in Hr; [|done|done].
  pose proof (rep_in_order _ _ _ _ _ _ _ _ Hr) as [Hso _].
  pose proof (holds_stored st kvs ch m Hso Hh) as Hst. pose proof (all_rec_pages st kvs ch m Hso Hh) as Hall.
  assert (us ≡ₚ ids ++ rec_pages ch kvs) as Hus' by (by rewrite Hall). clear Hus. rewrite Hus' in Hnd.
  assert (forall m : marks, m.1 = ∅ -> fresh_pages (ids ++ rec_pages ch kvs) m) as Hfr.
  { intros mk Hm. split; [done|]. intros p Hp. rewrite <-Hus' in Hp. split; [by apply H4|rewrite Hm; set_solver]. }
  assert ((root_page_id t =? 0) = false) as E0.
  { apply Z.eqb_neq. destruct (rep_head _ _ _ _ _ _ _ _ Hr) as [ids' ->]. simpl in *.
    specialize (H4 root). rewrite Hus' in H4. specialize (H4 ltac:(by left)). lia. }
  pose proof Hnd as (Hndi & _ & _)%NoDup_app. pose proof (rep_ids_size K t _ _ _ _ _ _ eq_refl Hr Hndi) as Hsz. simpl in Hsz.
  assert (S (size (bt_pages t)) = length ids + (S (size st) - length ids))%nat as Hfu by (simpl; lia). split.
  - unfold collect_all_page_ids, collect_unvisited_page_ids. rewrite E0, Hfu.
    rewrite (walk_rep K t _ _ (rec_pages ch) (recs_stored st ch)) with (m := (∅, out)) (lo := None) (hi := None) (h := H) (kvs := kvs).
    + destruct (S (size st) - length ids)%nat; simpl; do 2 f_equal; by rewrite (list_to_set_perm_L _ _ Hus').
    + apply rec_pages_app.
    + intros k1 k2. apply Forall_app.
    + intros. by apply collect_node_leaf.
    + intros. by apply collect_node_internal.
    + done.
    + done.
    + by apply Hfr.
  - unfold find_dangling. rewrite E0, Hfu.
    rewrite (walk_rep K t _ _ (fun _ => []) (fun k => recs_stored st ch k /\ forall q, q ∈ rec_pages ch k -> 4 <= q))
      with (m := (∅, ∅)) (lo := None) (hi := None) (h := H) (kvs := kvs).
    + by destruct (S (size st) - length ids)%nat.
    + done.
    + intros k1 k2 [[H1 H2]%Forall_app Hq]. rewrite rec_pages_app in Hq.
      split; (split; [done|]); intros q Hin; apply Hq; mem.
    + intros. rewrite marks_add_nil. by eapply find_dangling_node_leaf.
    + intros. by apply find_dangling_node_internal.
    + done.
    + split; [done|]. intros q Hin. apply H4. rewrite Hus'. mem.
    + rewrite app_nil_r. destruct (Hfr (∅, ∅) eq_refl) as [_ Hp]. split; [done|]. intros p Hin. apply Hp. mem.
Qed.
