(* ===== verification/TreeSource.v ===== *)
(** * TreeSource: what a session does to its page source

    However it ends, an operation of a session takes pages from the cache of its
    page source and from the page counter only, and records those of the cache as
    consumed; nothing returns to the cache. *)

From S2P Require Import Prelude Keys Errors PageFormat Node Leaf Internal Split Store Overflow Tree TreeWrite.
From Stdlib Require Import ZArith Lia.
From stdpp Require Import base list strings gmap.

Local Open Scope Z_scope.
Local Open Scope pagedb_scope.

(** Pages of the cache move to the consumed ones. *)
Definition drawn (s s' : PageSource) : Prop :=
  reuse_threshold s' = reuse_threshold s /\
  exists taken, cache s ≡ₚ taken ++ cache s' /\ consumed s' = list_to_set taken ∪ consumed s.

Definition draws (t t' : BTree) : Prop :=
  next_page_id t <= next_page_id t' /\ page_size t' = page_size t /\
  match page_source t, page_source t' with
  | Some s, Some s' => drawn s s'
  | None, None => True
  | _, _ => False
  end.

Lemma drawn_refl s : drawn s s.
Proof. split; [done|]. exists []. split; [done|]. set_solver. Qed.
Lemma drawn_trans s1 s2 s3 : drawn s1 s2 -> drawn s2 s3 -> drawn s1 s3.
Proof.
  intros (E1 & l1 & H1 & C1) (E2 & l2 & H2 & C2). split; [congruence|]. exists (l1 ++ l2).
  split; [by rewrite H1, H2, app_assoc|]. rewrite C2, C1, list_to_set_app_L. set_solver.
Qed.

Lemma draws_refl t : draws t t.
Proof. split; [done|]. split; [done|]. destruct (page_source t); [apply drawn_refl|done]. Qed.
Lemma draws_same t t' :
  next_page_id t' = next_page_id t -> page_size t' = page_size t -> page_source t' = page_source t -> draws t t'.
Proof. intros E1 E2 E3. destruct (draws_refl t) as (_ & _ & ?). split; [lia|]. split; [done|by rewrite E3]. Qed.
Lemma draws_trans t1 t2 t3 : draws t1 t2 -> draws t2 t3 -> draws t1 t3.
Proof.
  intros (? & ? & H1) (? & ? & H2). split; [lia|]. split; [congruence|].
  destruct (page_source t1), (page_source t2), (page_source t3); try done. by eapply drawn_trans.
Qed.

(** ** Methods *)

Definition drawing {A} (m : M A) : Prop := forall t, draws t (m t).2.

Lemma drawing_ret {A} (a : A) : drawing (ret a).
Proof. intros t. apply draws_refl. Qed.
Lemma drawing_lift {A} (r : result A) : drawing (lift r).
Proof. intros t. apply draws_refl. Qed.
Lemma drawing_gets {A} (f : BTree -> result A) : drawing (gets f).
Proof. intros t. apply draws_refl. Qed.
Lemma drawing_modify f :
  (forall t, next_page_id (f t) = next_page_id t /\ page_size (f t) = page_size t /\ page_source (f t) = page_source t) ->
  drawing (modify f).
Proof. intros Hf t. simpl. by apply draws_same; apply Hf. Qed.
Lemma drawing_bind {A B} (m : M A) (k : A -> M B) :
  drawing m -> (forall a, drawing (k a)) -> drawing (bind m k).
Proof.
  intros Hm Hk t. unfold bind. specialize (Hm t). destruct (m t) as [[a| |] t']; simpl in *; [|done..].
  eapply draws_trans; [done|apply Hk].
Qed.
Lemma drawing_on_err {A} (m : M A) c : drawing m -> drawing c -> drawing (on_err m c).
Proof.
  intros Hm Hc t. unfold on_err. specialize (Hm t). destruct (m t) as [[a|e|] t']; simpl in *; [done| |done].
  specialize (Hc t'). destruct (c t') as [[| |] t'']; simpl in *; by eapply draws_trans.
Qed.

Create HintDb drawing.
#[export] Hint Resolve drawing_ret drawing_lift drawing_gets drawing_on_err draws_refl : drawing.

(** Follows the structure of a method. *)
Ltac drawing :=
  repeat first
    [ progress intros
    | done
    | apply drawing_ret | apply drawing_lift | apply drawing_gets
    | solve [eauto with drawing]
    | apply drawing_bind
    | apply drawing_on_err
    | apply drawing_modify; intros; repeat case_match; done
    | case_match ].

Lemma vec_pop_perm {A} (l : list A) x r : vec_pop l = Some (x, r) -> l ≡ₚ x :: r.
Proof.
  unfold vec_pop. destruct (reverse l) as [|y r'] eqn:E; [done|]. intros [= -> <-].
  by rewrite <-(reverse_Permutation l), E, reverse_Permutation.
Qed.

Lemma allocate_page_draws : drawing allocate_page.
Proof.
  intros t. unfold allocate_page. destruct (vec_pop (freed_reusable t)) as [[id rest]|].
  { case_match; by apply draws_same. }
  destruct (page_source t) as [s|] eqn:Hs; cbn; [|case_match; (split; [simpl; lia|]; split; [done|]; simpl; by rewrite ?Hs)].
  destruct (vec_pop (cache s)) as [[id rest]|] eqn:Hp; cbn.
  - case_match; [|by apply draws_same]. split; [done|]. split; [done|]. rewrite Hs. simpl. split; [done|]. exists [id]. simpl.
    split; [by apply vec_pop_perm|]. set_solver.
  - case_match; (split; [simpl; lia|]; split; [done|]; simpl; rewrite ?Hs; apply drawn_refl).
Qed.
Lemma free_page_draws p : drawing (free_page p).
Proof. intros t. unfold free_page. repeat case_match; by apply draws_same. Qed.
Lemma write_page_draws p k body : drawing (write_page p k body).
Proof. intros t. unfold write_page. repeat case_match; by apply draws_same. Qed.
#[export] Hint Resolve allocate_page_draws free_page_draws write_page_draws : drawing.

Lemma write_internal_draws p n : drawing (write_internal p n).
Proof. unfold write_internal. drawing. Qed.
Lemma write_leaf_draws p l : drawing (write_leaf p l).
Proof. unfold write_leaf. drawing. Qed.
Lemma cow_internal_draws p q c c' : drawing (cow_internal_repointing_child p q c c').
Proof. unfold cow_internal_repointing_child. drawing. Qed.
#[export] Hint Resolve write_internal_draws write_leaf_draws cow_internal_draws : drawing.

Lemma cow_ancestors_draws anc : forall c c', drawing (cow_ancestors anc c c').
Proof. induction anc; simpl; drawing. Qed.
#[export] Hint Resolve cow_ancestors_draws : drawing.
Lemma propagate_loop_draws anc : forall c l s r, drawing (propagate_loop anc c l s r).
Proof. induction anc; simpl; drawing. Qed.
#[export] Hint Resolve propagate_loop_draws : drawing.
Lemma propagate_split_up_draws path l r s : drawing (propagate_split_up path l r s).
Proof. unfold propagate_split_up. drawing. Qed.
Lemma ensure_leaf_dirty_draws p path : drawing (ensure_leaf_dirty p path).
Proof.
  intros t. unfold ensure_leaf_dirty. destruct (dirty_leaves t !! p); [apply draws_refl|].
  match goal with |- draws _ (?m t).2 => assert (drawing m) as Hm; [drawing|apply Hm] end.
Qed.
Lemma free_pages_draws ids : drawing (free_pages ids).
Proof. induction ids; simpl; drawing. Qed.
#[export] Hint Resolve propagate_split_up_draws ensure_leaf_dirty_draws free_pages_draws : drawing.
Lemma apply_release_draws p q r : drawing (apply_release_result p q r).
Proof. unfold apply_release_result. drawing. Qed.
Lemma discard_value_draws v : drawing (discard_uncommitted_value v).
Proof.
  unfold discard_uncommitted_value. destruct v as [[|len root]|]; [drawing| |drawing]. intros t.
  case_match; [apply free_pages_draws|apply draws_refl..].
Qed.
Lemma release_chain_draws root p : drawing (release_chain root p).
Proof. intros t. unfold release_chain. repeat case_match; by apply draws_same. Qed.
#[export] Hint Resolve apply_release_draws discard_value_draws release_chain_draws : drawing.

Lemma session_alloc_draws t p t' : session_alloc t = Ok (p, t') -> draws t t'.
Proof.
  unfold session_alloc. pose proof (allocate_page_draws t) as Hd.
  destruct (allocate_page t) as [[]]; by intros [= -> ->].
Qed.
Lemma write_chain_loop_draws ps fuel : forall st t value p start is_root,
  draws t (write_chain_loop session_alloc ps fuel st t value p start is_root).2.2.
Proof.
  induction fuel as [|fuel IH]; intros st t value p start is_root; cbn [write_chain_loop];
    [apply draws_refl|].
  set (end_ := Z.min _ _).
  destruct (if end_ <? blen value then session_alloc t else Ok (0, t)) as [[nx t1]| |] eqn:Ha;
    [|apply draws_refl..].
  assert (draws t t1) as Hd.
  { destruct (end_ <? blen value); [by eapply session_alloc_draws|]. simplify_eq. apply draws_refl. }
  destruct (write_overflow_page _ _ _ _ _ _ _ _); [|done..].
  destruct (nx =? 0); [done|]. eapply draws_trans; [done|]. apply IH.
Qed.
Lemma leaf_value_for_draws value : drawing (leaf_value_for value).
Proof.
  intros t. unfold leaf_value_for. case_match; [|apply draws_refl].
  enough (draws t (write_chain session_alloc (page_size t) (bt_pages t) t value).2.2) as Hd
    by (by destruct (write_chain _ _ _ _ _) as [r [st t']]).
  unfold write_chain. destruct (session_alloc t) as [[p t1]| |] eqn:Ha; [|apply draws_refl..].
  eapply draws_trans; [by eapply session_alloc_draws|].
  pose proof (write_chain_loop_draws (page_size t) (S (length value)) (bt_pages t) t1 value p 0 true) as Hl.
  by destruct (write_chain_loop _ _ _ _ _ _ _ _ _) as [r [st' t2]].
Qed.
#[export] Hint Resolve leaf_value_for_draws : drawing.

(** ** The operations of a session *)

Lemma cached_leaf_draws p b : drawing (cached_leaf p b).
Proof. apply drawing_gets. Qed.
Lemma set_cached_leaf_draws p b l : drawing (modify (set_cached_leaf p b l)).
Proof. apply drawing_modify. intros t. by destruct b. Qed.
Lemma take_cached_leaf_draws p b : drawing (take_cached_leaf p b).
Proof. unfold take_cached_leaf. drawing. Qed.
Lemma split_leaf_draws l b : drawing (split_leaf_m l b).
Proof. intros t. apply draws_refl. Qed.
#[export] Hint Resolve cached_leaf_draws set_cached_leaf_draws take_cached_leaf_draws split_leaf_draws : drawing.

Lemma release_replaced_draws p b key v : drawing (release_replaced p b key v).
Proof. unfold release_replaced. drawing. Qed.
#[export] Hint Resolve release_replaced_draws : drawing.
Lemma put_at_path_draws path key v : drawing (put_at_path path key v).
Proof. unfold put_at_path. drawing. Qed.
Lemma put_first_draws key v : drawing (put_first key v).
Proof. unfold put_first. drawing. Qed.
Lemma delete_at_path_draws path key : drawing (delete_at_path path key).
Proof. unfold delete_at_path. drawing. Qed.
#[export] Hint Resolve put_at_path_draws put_first_draws delete_at_path_draws : drawing.

Lemma put_draws key value : drawing (put key value).
Proof. unfold put. drawing. Qed.
Lemma put_append_draws key value : drawing (put_append key value).
Proof. unfold put_append. drawing. Qed.
Lemma tree_delete_draws key : drawing (tree_delete key).
Proof. unfold tree_delete. drawing. Qed.
#[export] Hint Resolve put_draws put_append_draws tree_delete_draws : drawing.

Lemma put_batch_loop_draws pairs : forall cached, drawing (put_batch_loop pairs cached).
Proof. induction pairs; simpl; drawing. Qed.
Lemma delete_batch_loop_draws keys : forall cached, drawing (delete_batch_loop keys cached).
Proof. induction keys; simpl; drawing. Qed.
#[export] Hint Resolve put_batch_loop_draws delete_batch_loop_draws : drawing.
Lemma put_batch_draws pairs : drawing (put_batch pairs).
Proof. unfold put_batch. drawing. Qed.
Lemma delete_batch_draws keys : drawing (delete_batch keys).
Proof. unfold delete_batch. drawing. Qed.
#[export] Hint Resolve put_batch_draws delete_batch_draws : drawing.
Lemma delete_range_loop_draws fuel : forall c e r, drawing (delete_range_loop fuel c e r).
Proof. induction fuel; simpl; drawing. Qed.
#[export] Hint Resolve delete_range_loop_draws : drawing.
Lemma delete_range_draws fuel s e : drawing (delete_range fuel s e).
Proof. unfold delete_range. drawing. Qed.
#[export] Hint Resolve delete_range_draws : drawing.

Lemma write_leaves_draws ls : drawing (write_leaves ls).
Proof. induction ls; simpl; drawing. Qed.
Lemma cow_leaves_draws ls : forall r, drawing (cow_leaves ls r).
Proof. induction ls; simpl; drawing. Qed.
Lemma cow_internals_draws ps : forall r fs, drawing (cow_internals ps r fs).
Proof. induction ps; simpl; drawing. Qed.
#[export] Hint Resolve write_leaves_draws cow_leaves_draws cow_internals_draws : drawing.
Lemma cow_levels_draws ls : forall r fs, drawing (cow_levels ls r fs).
Proof. induction ls; simpl; drawing. Qed.
#[export] Hint Resolve cow_levels_draws : drawing.
Lemma flush_draws drain : drawing (flush_dirty_leaves drain).
Proof. unfold flush_dirty_leaves. drawing. Qed.
#[export] Hint Resolve flush_draws : drawing.
