(* ===== verification/BulkLoad.v ===== *)
(** * BulkLoad: building a dense tree from sorted records

    The push-style loader: records are packed into leaves, and branch nodes are
    emitted bottom up, one node under construction per level. *)

From S2P Require Import Prelude Keys Errors PageFormat Node Leaf Internal Split Store Overflow Tree TreeWrite TreeRep TreeAlloc TreeCow TreePropagate TreeSplitUp TreePut TreeOps TreeSpec TreeScan TreeFlush.
From Stdlib Require Import ZArith Lia.
From stdpp Require Import base list strings gmap sorting.

Local Open Scope Z_scope.
Local Open Scope pagedb_scope.

(** ** One level of branch nodes *)

(** A child and the first key below it. *)
Abbreviation Child := (Z * bytes)%type.

Record LevelAccum := mkLevel {
  la_children : list Child;
  la_used : Z;
  la_total : Z;
}.

Definition level_new : LevelAccum := mkLevel [] HEADER_LEN 0.

Definition sole_child (a : LevelAccum) : option Z :=
  if la_total a =? 1 then fst <$> head (la_children a) else None.

(** Whether the child was taken, and the level after. *)
Definition try_push (a : LevelAccum) (child : Child) (body_cap : Z) : result (bool * LevelAccum) :=
  match la_children a with
  | [] => Ok (true, mkLevel [child] (la_used a) (la_total a + 1))
  | _ =>
      let! entry_size := separator_entry_size (blen child.2) in
      let! needed := ok_or (checked_add (la_used a) entry_size) PayloadTooLarge in
      if body_cap <? needed then
        if (length (la_children a) =? 1)%nat then Err PayloadTooLarge else Ok (false, a)
      else Ok (true, mkLevel (la_children a ++ [child]) needed (la_total a + 1))
  end.

Definition restart (a : LevelAccum) (child : Child) : LevelAccum :=
  mkLevel [child] HEADER_LEN (la_total a + 1).

(** The node under construction with its separator, and the level left empty. *)
Definition take_node (a : LevelAccum) : option (Internal * bytes) * LevelAccum :=
  match la_children a with
  | [] => (None, a)
  | (leftmost, separator) :: rest =>
      (Some (mkInternal leftmost ((fun c : Child => (c.2, c.1)) <$> rest), separator),
       mkLevel [] HEADER_LEN (la_total a))
  end.

(** ** The loader *)

(** [alternate_flush_path] only says where pages over the dirty budget are flushed
    to, and is left out with the budget. *)
Record BulkLoader := mkLoader {
  tree : BTree;
  body_cap : Z;
  inline_threshold : Z;
  last_key : option bytes;
  leaf_records : list leaf_record;
  leaf_used : Z;
  leaf_page_id : option Z;
  left_sibling : Z;
  leaf_count : Z;
  first_leaf_page_id : Z;
  levels : list LevelAccum;
}.

Definition with_tree (t : BTree) (b : BulkLoader) : BulkLoader :=
  mkLoader t (body_cap b) (inline_threshold b) (last_key b) (leaf_records b) (leaf_used b)
    (leaf_page_id b) (left_sibling b) (leaf_count b) (first_leaf_page_id b) (levels b).
Definition with_leaf (rs : list leaf_record) (used : Z) (b : BulkLoader) : BulkLoader :=
  mkLoader (tree b) (body_cap b) (inline_threshold b) (last_key b) rs used
    (leaf_page_id b) (left_sibling b) (leaf_count b) (first_leaf_page_id b) (levels b).
Definition with_last_key (k : bytes) (b : BulkLoader) : BulkLoader :=
  mkLoader (tree b) (body_cap b) (inline_threshold b) (Some k) (leaf_records b) (leaf_used b)
    (leaf_page_id b) (left_sibling b) (leaf_count b) (first_leaf_page_id b) (levels b).
Definition with_leaf_page_id (p : option Z) (b : BulkLoader) : BulkLoader :=
  mkLoader (tree b) (body_cap b) (inline_threshold b) (last_key b) (leaf_records b) (leaf_used b)
    p (left_sibling b) (leaf_count b) (first_leaf_page_id b) (levels b).
Definition with_levels (ls : list LevelAccum) (b : BulkLoader) : BulkLoader :=
  mkLoader (tree b) (body_cap b) (inline_threshold b) (last_key b) (leaf_records b) (leaf_used b)
    (leaf_page_id b) (left_sibling b) (leaf_count b) (first_leaf_page_id b) ls.
(** The leaf at [page_id] has been written. *)
Definition leaf_written (page_id : Z) (b : BulkLoader) : BulkLoader :=
  mkLoader (tree b) (body_cap b) (inline_threshold b) (last_key b) (leaf_records b) HEADER_LEN
    (leaf_page_id b) page_id (leaf_count b + 1)
    (if leaf_count b =? 0 then page_id else first_leaf_page_id b) (levels b).

Definition loader_new (t : BTree) : BulkLoader :=
  mkLoader t (body_capacity (page_size t)) (inline_value_threshold (page_size t))
    None [] HEADER_LEN None 0 0 0 [].

Definition bulk_loader (t : BTree) : result BulkLoader :=
  if negb (root_page_id t =? 0) then Err (Io "bulk_load: tree must be empty") else Ok (loader_new t).

(** A method of the loader: a result and the loader it leaves behind. *)
Definition L (A : Type) : Type := BulkLoader -> result A * BulkLoader.
Definition lret {A} (a : A) : L A := fun b => (Ok a, b).
Definition lbind {A B} (m : L A) (k : A -> L B) : L B :=
  fun b => match m b with
           | (Ok a, b) => k a b
           | (Err e, b) => (Err e, b)
           | (Panic, b) => (Panic, b)
           end.
Definition lgets {A} (f : BulkLoader -> result A) : L A := fun b => (f b, b).
Definition lmodify (f : BulkLoader -> BulkLoader) : L unit := fun b => (Ok tt, f b).
(** A method of the tree. *)
Definition on_tree {A} (m : M A) : L A :=
  fun b => let '(r, t) := m (tree b) in (r, with_tree t b).

Notation "'lo!' x ':=' c 'in' k" := (lbind c (fun x => k))
  (at level 10, x name, c at level 100, k at level 200,
   format "'[v' 'lo!'  x  ':='  c  'in' '/' k ']'") : pagedb_scope.
Notation "'lo!' ' p ':=' c 'in' k" := (lbind c (fun p => k))
  (at level 10, p strict pattern, c at level 100, k at level 200,
   format "'[v' 'lo!'  ' p  ':='  c  'in' '/' k ']'") : pagedb_scope.

(** Offers [child] to internal level [level] and up. Every round is one level
    further up, and the first level past the last takes its child, so one round
    more than there are levels is enough. *)
Fixpoint push_child (fuel : nat) (level : nat) (child : Child) : L unit :=
  lo! _ := lmodify (fun b => with_levels (levels b ++ replicate (S level - length (levels b)) level_new) b) in
  lo! accum := lgets (fun b => Ok (default level_new (levels b !! level))) in
  lo! '(taken, accum) := lgets (fun b => try_push accum child (body_cap b)) in
  if (taken : bool) then lmodify (fun b => with_levels (<[level := accum]> (levels b)) b)
  else
    match take_node accum with
    | (None, _) => lgets (fun _ => Err (Io "bulk load: a full internal level held no node"))
    | (Some (n, separator), accum) =>
        lo! _ := lmodify (fun b => with_levels (<[level := restart accum child]> (levels b)) b) in
        lo! page_id := on_tree allocate_page in
        lo! _ := on_tree (write_internal page_id n) in
        match fuel with
        | O => lgets (fun _ => Panic)
        | S fuel => push_child fuel (S level) (page_id, separator)
        end
    end.

Definition push_fuel (b : BulkLoader) : nat := S (length (levels b)).

Definition close_leaf (more_records : bool) : L unit :=
  lo! reserved := lgets (fun b => Ok (leaf_page_id b)) in
  lo! _ := lmodify (with_leaf_page_id None) in
  lo! page_id := match reserved with Some p => lret p | None => on_tree allocate_page end in
  lo! right_sibling :=
    if more_records then
      lo! next := on_tree allocate_page in
      lo! _ := lmodify (with_leaf_page_id (Some next)) in lret next
    else lret 0 in
  lo! rs := lgets (fun b => Ok (leaf_records b)) in
  lo! _ := lmodify (fun b => with_leaf [] (leaf_used b) b) in
  let first_key := default [] (fst <$> head rs) in
  lo! left := lgets (fun b => Ok (left_sibling b)) in
  lo! _ := on_tree (write_leaf page_id (mkLeaf left right_sibling rs)) in
  lo! _ := lmodify (leaf_written page_id) in
  fun b => push_child (push_fuel b) 0 (page_id, first_key) b.

Definition leaf_record_cost (key_len : Z) (value : LeafValue) : result Z :=
  ok_or (size ← checked_add 2 2; size ← checked_add size key_len; checked_add size (encoded_size value))
    PayloadTooLarge.

Definition projected_encoded_size (b : BulkLoader) (key : bytes) (cost : Z) : result Z :=
  let! uncompressed := ok_or (checked_add (leaf_used b) cost) PayloadTooLarge in
  match head (leaf_records b) with
  | None => Ok uncompressed
  | Some (first_key, _) =>
      let prefix_len := Z.of_nat (common_len first_key key) in
      let! saving := ok_or (checked_mul (Z.of_nat (length (leaf_records b))) prefix_len) PayloadTooLarge in
      ok_or (checked_sub uncompressed saving) PayloadTooLarge
  end.

Definition stored_value (value : bytes) : L LeafValue := fun b =>
  if inline_threshold b <? blen value then
    let '(r, (st, t)) :=
      write_chain session_alloc (page_size (tree b)) (bt_pages (tree b)) (tree b) value in
    (let! root := r in Ok (Leaf.Overflow (blen value) root), with_tree (with_pages (fun _ => st) t) b)
  else (Ok (Inline value), b).

Definition append_record (key value : bytes) : L unit :=
  lo! stored := stored_value value in
  lo! cost := lgets (fun _ => leaf_record_cost (blen key) stored) in
  lo! projected := lgets (fun b => projected_encoded_size b key cost) in
  lo! full := lgets (fun b => Ok ((body_cap b <? projected) && negb (bool_decide (leaf_records b = [])))) in
  lo! _ := if (full : bool) then close_leaf true else lret tt in
  lo! used := lgets (fun b => ok_or (checked_add (leaf_used b) cost) PayloadTooLarge) in
  lmodify (fun b => with_leaf (leaf_records b ++ [(key, stored)]) used (with_last_key key b)).

(** The whole batch is checked before any of it is written. *)
Fixpoint validate_order (prior : option bytes) (batch : list (bytes * bytes)) : result unit :=
  match batch with
  | [] => Ok tt
  | (key, _) :: batch =>
      if match prior with Some last => bytes_leb key last | None => false end
      then Err BulkLoadNotMonotonic else validate_order (Some key) batch
  end.

Definition prevalidate (b : BulkLoader) (batch : list (bytes * bytes)) : result unit :=
  let! _ := validate_order (last_key b) batch in
  fold_res (fun _ r => validate_insert_record_fits (tree b) r.1 r.2) tt batch.

Fixpoint append_records (batch : list (bytes * bytes)) : L unit :=
  match batch with
  | [] => lret tt
  | (key, value) :: batch => lo! _ := append_record key value in append_records batch
  end.

Definition push_batch (batch : list (bytes * bytes)) : L unit :=
  lo! _ := lgets (fun b => prevalidate b batch) in append_records batch.

Definition push_one (key value : bytes) : L unit :=
  lo! _ := lgets (fun b =>
    if match last_key b with Some last => bytes_leb key last | None => false end
    then Err BulkLoadNotMonotonic else Ok tt) in
  lo! _ := lgets (fun b => validate_insert_record_fits (tree b) key value) in
  append_record key value.

(** The walk of [finish] over the levels. Every level has fewer children than the
    one below, so there are at most as many as leaves. *)
Fixpoint finish_levels (fuel : nat) (level : nat) : L unit := fun b =>
  match levels b !! level with
  | None => (Err (Io "bulk load: internal levels ended without a root"), b)
  | Some a =>
      match sole_child a with
      | Some page_id => (Ok tt, with_tree (with_root page_id (tree b)) b)
      | None =>
          match take_node a with
          | (None, _) => (Err (Io "bulk load: internal levels ended without a root"), b)
          | (Some (n, separator), a) =>
              (lo! _ := lmodify (fun b => with_levels (<[level := a]> (levels b)) b) in
               lo! page_id := on_tree allocate_page in
               lo! _ := on_tree (write_internal page_id n) in
               lo! _ := (fun b => push_child (push_fuel b) (S level) (page_id, separator) b) in
               match fuel with
               | O => lgets (fun _ => Panic)
               | S fuel => finish_levels fuel (S level)
               end) b
          end
      end
  end.

Definition finish : L unit :=
  lo! rs := lgets (fun b => Ok (leaf_records b)) in
  lo! _ := if bool_decide (rs = []) then lret tt else close_leaf false in
  lo! count := lgets (fun b => Ok (leaf_count b)) in
  if count =? 0 then lret tt else
  if count =? 1 then lmodify (fun b => with_tree (with_root (first_leaf_page_id b) (tree b)) b) else
  finish_levels (Z.to_nat count) 0.

(** ** Loading the tree of a transaction *)

Definition BULK_LOAD_BATCH_MAX_RECORDS : nat := Z.to_nat 8192.
Definition BULK_LOAD_BATCH_MAX_BYTES : Z := 32 * 1024 * 1024.

(** The stream of records, an element of which may be an error of its source;
    [batch] is pending. *)
Fixpoint load_stream (stream : list (result (bytes * bytes))) (batch : list (bytes * bytes))
    (batch_bytes : Z) : L unit :=
  match stream with
  | [] => if bool_decide (batch = []) then lret tt else push_batch batch
  | record :: stream =>
      lo! '(key, value) := lgets (fun _ => record) in
      lo! record_bytes := lgets (fun _ => ok_or (checked_add (blen key) (blen value)) PayloadTooLarge) in
      let exceeds_bytes := match checked_add batch_bytes record_bytes with
                           | Some total => BULK_LOAD_BATCH_MAX_BYTES <? total
                           | None => true
                           end in
      if negb (bool_decide (batch = [])) &&
         ((length batch =? BULK_LOAD_BATCH_MAX_RECORDS)%nat || exceeds_bytes)
      then lo! _ := push_batch batch in load_stream stream [(key, value)] record_bytes
      else
        lo! batch_bytes := lgets (fun _ => ok_or (checked_add batch_bytes record_bytes) PayloadTooLarge) in
        load_stream stream (batch ++ [(key, value)]) batch_bytes
  end.

Definition bulk_load_sorted_unique (stream : list (result (bytes * bytes))) : M unit := fun t =>
  match bulk_loader t with
  | Ok b => let '(r, b) := (lo! _ := load_stream stream [] 0 in finish) b in (r, tree b)
  | Err e => (Err e, t)
  | Panic => (Panic, t)
  end.

(** ** Subtrees under construction *)

Section load.
Context (K : Z).
Local Abbreviation rep := (rep K).
Local Abbreviation seg := (seg K).

(** [bsub t h p k kvs ids]: the pages [ids] are a tree rooted at [p] of the records
    [kvs], the first key [k], whatever the range it is put in. *)
Definition bsub (t : BTree) (h : nat) (p : Z) (k : bytes) (kvs : list leaf_record) (ids : list Z) : Prop :=
  head kvs.*1 = Some k /\
  forall lo hi, Forall (fun r : leaf_record => in_range lo hi r.1) kvs -> rep t h p lo hi kvs ids.

(** The children of a level, one after the other. *)
Fixpoint kids (t : BTree) (h : nat) (cs : list Child) (kvs : list leaf_record) (ids : list Z) : Prop :=
  match cs with
  | [] => kvs = [] /\ ids = []
  | (c, k) :: cs => exists kv1 kv2 id1 id2, kvs = kv1 ++ kv2 /\ ids = id1 ++ id2 /\
                      bsub t h c k kv1 id1 /\ kids t h cs kv2 id2
  end.

Lemma bsub_frame t t' h p k kvs ids :
  page_size t' = page_size t -> (forall q, q ∈ ids -> same_at t t' q) ->
  bsub t h p k kvs ids -> bsub t' h p k kvs ids.
Proof. intros Hps Hs [Hk Hr]. split; [done|]. intros lo hi Hf. by apply (rep_frame K t), Hr. Qed.
Lemma kids_frame t t' h cs kvs ids :
  page_size t' = page_size t -> (forall q, q ∈ ids -> same_at t t' q) ->
  kids t h cs kvs ids -> kids t' h cs kvs ids.
Proof.
  intros Hps. revert kvs ids. induction cs as [|[c k] cs IH]; intros kvs ids Hs; simpl; [done|].
  intros (kv1 & kv2 & id1 & id2 & -> & -> & Hb & Hk). exists kv1, kv2, id1, id2. split; [done|]. split; [done|].
  split; [apply (bsub_frame t); [done|intros; apply Hs; mem|done]|apply IH; [intros; apply Hs; mem|done]].
Qed.
Lemma kids_snoc t h cs c k kvs ids kv1 id1 :
  kids t h cs kvs ids -> bsub t h c k kv1 id1 -> kids t h (cs ++ [(c, k)]) (kvs ++ kv1) (ids ++ id1).
Proof.
  revert kvs ids. induction cs as [|[c' k'] cs IH]; intros kvs ids; simpl.
  - intros [-> ->] Hb. exists kv1, [], id1, []. rewrite !app_nil_r. done.
  - intros (kva & kvb & ida & idb & -> & -> & Hb' & Hk) Hb. exists kva, (kvb ++ kv1), ida, (idb ++ id1).
    rewrite !app_assoc. split; [done|]. split; [done|]. split; [done|]. by apply IH.
Qed.

Lemma sorted_head_le {V} (l : list (bytes * V)) k r : keys_sorted l.*1 -> head l.*1 = Some k -> r ∈ l -> k ≤ₖ r.1.
Proof.
  destruct l as [|x l]; [done|]. rewrite fmap_cons. intros Hs [= <-] [->|Hr]%elem_of_cons; [apply key_le_refl|].
  apply StronglySorted_inv in Hs as [_ Hall]. rewrite Forall_fmap, Forall_forall in Hall. by apply key_lt_le, Hall.
Qed.

(** The children of a level are those of a node over them. *)
Lemma kids_seg t h c k cs kvs ids lo hi :
  kids t h ((c, k) :: cs) kvs ids -> keys_sorted kvs.*1 ->
  Forall (fun r : leaf_record => in_range lo hi r.1 /\ blen r.1 <= K) kvs ->
  seg (rep t h) c ((fun x : Child => (x.2, x.1)) <$> cs) lo hi kvs ids.
Proof.
  revert c k kvs ids lo. induction cs as [|[c2 k2] cs IH]; intros c k kvs ids lo.
  - intros (kv1 & kv2 & id1 & id2 & -> & -> & [_ Hr] & [-> ->]) _ Hf. rewrite !app_nil_r in *.
    apply Hr. eapply Forall_impl; [exact Hf|]. by intros r [? _].
  - intros (kv1 & kv2 & id1 & id2 & -> & -> & [_ Hr] & Hk) Hs Hf. rewrite fmap_cons. cbn [fst snd].
    rewrite fmap_app in Hs. apply sorted_app in Hs as (_ & Hs2 & Hlt). apply Forall_app in Hf as [Hf1 Hf2].
    assert (head kv2.*1 = Some k2) as Hh.
    { destruct Hk as (kva & kvb & _ & _ & -> & _ & [Hh _] & _). by destruct kva. }
    assert (exists r2, r2 ∈ kv2 /\ r2.1 = k2) as (r2 & Hr2 & Hk2).
    { destruct kv2 as [|r2 kv2]; [done|]. exists r2. split; [by left|]. by injection Hh. }
    rewrite Forall_forall in Hf1, Hf2.
    exists kv1, kv2, id1, id2. split; [done|]. split; [done|].
    split; [rewrite <-Hk2; by apply Hf2|]. split.
    + apply Hr. apply Forall_forall. intros r Hin. destruct (Hf1 r Hin) as [[? _] _]. split; [done|]. simpl.
      apply Hlt; [by apply list_elem_of_fmap_2|]. rewrite <-Hk2. by apply list_elem_of_fmap_2.
    + apply (IH c2 k2); [done|done|]. apply Forall_forall. intros r Hin. destruct (Hf2 r Hin) as [[_ ?] ?].
      split; [|done]. split; [|done]. simpl. by eapply sorted_head_le.
Qed.

Lemma kids_node t h p c k cs kvs ids :
  kids t h ((c, k) :: cs) kvs ids -> keys_sorted kvs.*1 -> Forall (fun r : leaf_record => blen r.1 <= K) kvs ->
  internal_at t p (mkInternal c ((fun x : Child => (x.2, x.1)) <$> cs)) -> bsub t (S h) p k kvs (p :: ids).
Proof.
  intros Hk Hs Hf Hn. split.
  - destruct Hk as (kva & kvb & _ & _ & -> & _ & [Hh _] & _). by destruct kva.
  - intros lo hi Hr. eexists _, ids. split; [exact Hn|]. split; [done|]. eapply kids_seg; [done|done|].
    rewrite Forall_forall in Hf, Hr |- *. auto.
Qed.

(** ** Levels under construction *)

(** What a level's own fields say of it. *)
Definition sep_size (cs : list Child) : Z := foldr (fun (c : Child) acc => blen c.2 + 12 + acc) 0 cs.
Definition level_ok (cap : Z) (a : LevelAccum) : Prop :=
  la_used a = HEADER_LEN + sep_size (tail (la_children a)) /\
  la_used a <= cap /\ la_children a <> [].

(** The levels from height [h] up: higher ones hold earlier records. *)
Fixpoint lvls (t : BTree) (cap : Z) (h : nat) (ls : list LevelAccum) (kvs : list leaf_record) (ids : list Z)
  : Prop :=
  match ls with
  | [] => kvs = [] /\ ids = []
  | a :: ls => exists kvh kvl idh idl, kvs = kvh ++ kvl /\ ids = idh ++ idl /\
                 lvls t cap (S h) ls kvh idh /\ kids t h (la_children a) kvl idl /\ level_ok cap a
  end.

(** The children a level has seen: those it holds and those of the nodes it
    emitted, each of at least two children. *)
Fixpoint counts (ls : list LevelAccum) : Prop :=
  match ls with
  | [] => True
  | a :: ls => match ls with
               | [] => la_total a = Z.of_nat (length (la_children a))
               | b :: _ => 1 <= la_total b /\
                           2 * la_total b <= la_total a - Z.of_nat (length (la_children a))
               end /\ counts ls
  end.

Definition total_of (ls : list LevelAccum) : Z := from_option la_total 0 (head ls).

Lemma lvls_frame t t' cap h ls kvs ids :
  page_size t' = page_size t -> (forall q, q ∈ ids -> same_at t t' q) ->
  lvls t cap h ls kvs ids -> lvls t' cap h ls kvs ids.
Proof.
  intros Hps. revert h kvs ids. induction ls as [|a ls IH]; intros h kvs ids Hs; simpl; [done|].
  intros (kvh & kvl & idh & idl & -> & -> & Hl & Hk & Ha). exists kvh, kvl, idh, idl.
  split; [done|]. split; [done|]. split; [apply IH; [intros; apply Hs; mem|done]|]. split; [|done].
  apply (kids_frame t); [done|intros; apply Hs; mem|done].
Qed.

Lemma counts_length ls : counts ls -> Forall (fun a => la_children a <> []) ls -> Z.of_nat (length ls) <= total_of ls.
Proof.
  induction ls as [|a ls IH]; [done|]. intros [Ha Hc] [Hne Hf]%Forall_cons. specialize (IH Hc Hf).
  unfold total_of in *. simpl. destruct ls as [|b ls]; simpl in *.
  - rewrite Ha. destruct (la_children a); [done|]. simpl. lia.
  - lia.
Qed.

(** *** Writing a node *)

(** A session that caches nothing. *)
Definition quiet (t : BTree) : Prop :=
  dirty_leaves t = ∅ /\ fresh_leaves t = ∅ /\ scheduled_frees t = [] /\ dirty_parent_paths t = ∅ /\
  root_page_id t = 0.

(** [t'] extends [t] by pages that are neither of [us] nor of [P]. *)
Definition extends (us : list Z) (P : gset Z) (t t' : BTree) : Prop :=
  page_size t' = page_size t /\ quiet t' /\
  (forall q, q ∈ P \/ q ∈ us -> bt_pages t' !! q = bt_pages t !! q).

Lemma extends_same us P t t' q : quiet t -> extends us P t t' -> q ∈ us -> same_at t t' q.
Proof.
  intros (Hd & Hf & _) (_ & (Hd' & Hf' & _) & Hpg) Hq. unfold same_at. rewrite Hd, Hf, Hd', Hf'.
  split; [apply Hpg; by right|done].
Qed.
Lemma extends_trans us us' P t1 t2 t3 :
  (forall q, q ∈ us -> q ∈ us') -> extends us P t1 t2 -> extends us' P t2 t3 -> extends us P t1 t3.
Proof.
  intros Hs (Hz1 & _ & Hp1) (Hz2 & Hq2 & Hp2). split; [congruence|]. split; [done|].
  intros q Hq. rewrite Hp2; [by apply Hp1|]. destruct Hq; [by left|right; by apply Hs].
Qed.
Lemma extends_sub us us' P t1 t2 : (forall q, q ∈ us -> q ∈ us') -> extends us' P t1 t2 -> extends us P t1 t2.
Proof. intros Hs (Hz & Hq & Hp). split; [done|]. split; [done|]. intros q [Hq'|Hq']; apply Hp; auto. Qed.
Lemma extends_refl us P t : quiet t -> extends us P t t.
Proof. done. Qed.

Lemma alloc_extends n t us P :
  quiet t -> alloc_ok (S n) t us P ->
  exists p t', allocate_page t = (Ok p, t') /\ alloc_ok n t' (p :: us) P /\ ~ (p ∈ P) /\
    extends us P t t' /\ is_u64 p.
Proof.
  intros (Q1 & Q2 & Q3 & Q4 & Q5) Ha.
  destruct (allocate_page_ok _ _ _ _ Ha) as (p & t' & Hal & HP & Ha' & (E1 & E2 & E3 & E4 & E5 & E6 & E7 & _)).
  exists p, t'. split; [done|]. split; [done|]. split; [done|].
  split; [|pose proof (alloc_ok_bound _ _ _ _ p Ha' ltac:(by left)); unfold U64_MAX; lia].
  split; [done|]. split; [unfold quiet; rewrite E2, E4, E5, E6, E7; done|]. intros q _. by rewrite E1.
Qed.

(** A page in use only here is written. *)
Lemma only_page_extends n t t' us P p :
  quiet t -> alloc_ok n t (p :: us) P -> ~ (p ∈ P) -> only_page t t' p ->
  extends us P t t' /\ alloc_ok n t' (p :: us) P.
Proof.
  intros (Q1 & Q2 & Q3 & Q4 & Q5) Ha HP ((Hw & W1 & W2 & W3 & W4 & _) & Wa & Wr & Wp).
  split; [|by apply (alloc_ok_same _ t)]. split; [done|]. split; [unfold quiet; rewrite W2, W3, W4, Wr, Wp; done|].
  intros q Hq. destruct (Hw q) as [->%list_elem_of_singleton|?]; [|done]. exfalso.
  apply alloc_ok_nodup, NoDup_cons in Ha as [? _]. tauto.
Qed.

Lemma sep_size_app a b : sep_size (a ++ b) = sep_size a + sep_size b.
Proof. unfold sep_size. induction a as [|x a IH]; simpl; [done|]. rewrite IH. lia. Qed.
Lemma node_needed c cs :
  internal_needed (mkInternal c ((fun x : Child => (x.2, x.1)) <$> cs)) = HEADER_LEN + sep_size cs.
Proof.
  unfold internal_needed, sep_size. cbn [entries]. rewrite length_fmap.
  induction cs as [|x cs IH]; [done|]. rewrite fmap_cons. simpl. unfold SEPARATOR_RECORD_OVERHEAD. lia.
Qed.
Lemma kids_children t h cs kvs ids c : kids t h cs kvs ids -> c ∈ cs.*1 -> c ∈ ids.
Proof.
  revert kvs ids. induction cs as [|[c' k'] cs IH]; intros kvs ids; simpl; [set_solver|].
  intros (kv1 & kv2 & id1 & id2 & -> & -> & [_ Hr] & Hk) [->|Hc]%elem_of_cons.
  - destruct (rep_head K t h c' None None kv1 id1) as [ids' ->]; [apply Hr; by apply Forall_forall|]. set_solver.
  - specialize (IH _ _ Hk Hc). mem.
Qed.

Section push.
Context (ps : Z) (P : gset Z).
Context (Hps : HEADER_LEN + ENVELOPE_OVERHEAD <= ps <= U16_MAX + ENVELOPE_OVERHEAD) (Hroom : room K ps).
Local Abbreviation cap := (body_capacity ps).

Lemma room_entry k : blen k <= K ->
  separator_entry_size (blen k) = Ok (blen k + 12) /\ HEADER_LEN + blen k + 12 <= cap /\ cap <= U16_MAX.
Proof.
  intros Hk. destruct Hroom as ([HK0 Hsr] & _). pose proof (blen_nonneg k).
  assert (cap <= U16_MAX) by (unfold body_capacity; lia).
  assert (HEADER_LEN + K + 12 <= cap) by (unfold HEADER_LEN in *; nia).
  unfold separator_entry_size, SEPARATOR_RECORD_OVERHEAD, SLOT_DIRECTORY_ENTRY_SIZE, HEADER_LEN, U16_MAX in *.
  rewrite (proj2 (Z.ltb_ge _ _)) by lia.
  repeat (rewrite checked_add_ok by (unfold USIZE_MAX, U64_MAX; lia); simpl). split; [|lia].
  f_equal. lia.
Qed.

(** A full level is written as a node. *)
Lemma emit_node_ok b h c k cs kvs ids us m :
  quiet (tree b) -> page_size (tree b) = ps -> kids (tree b) h ((c, k) :: cs) kvs ids ->
  keys_sorted kvs.*1 -> Forall (fun r : leaf_record => blen r.1 <= K) kvs ->
  HEADER_LEN + sep_size cs <= cap -> alloc_ok (S m) (tree b) (ids ++ us) P ->
  exists p t', (lo! page_id := on_tree allocate_page in
      lo! _ := on_tree (write_internal page_id (mkInternal c ((fun x : Child => (x.2, x.1)) <$> cs))) in
      lret page_id) b = (Ok p, with_tree t' b) /\
    bsub t' (S h) p k kvs (p :: ids) /\ alloc_ok m t' (p :: ids ++ us) P /\ extends (ids ++ us) P (tree b) t'.
Proof.
  intros Hq Hz Hk Hs HK Hn Ha. destruct (alloc_extends m _ _ _ Hq Ha) as (p & t1 & Hal & Ha1 & HP & He1 & _).
  pose proof He1 as (Hz1 & Hq1 & _). pose proof Hq1 as (Hd1 & Hf1 & _).
  destruct (write_internal_ok t1 p (mkInternal c ((fun x : Child => (x.2, x.1)) <$> cs))) as (t2 & Hw & Hat & Hw1 & Hw2).
  { unfold page_size_ok. by rewrite Hz1, Hz. }
  { apply Forall_forall. intros x Hx. assert (x ∈ ids) as Hxi.
    { eapply kids_children; [exact Hk|]. unfold children in Hx. simpl in Hx. rewrite <-list_fmap_compose in Hx. exact Hx. }
    pose proof (alloc_ok_bound _ _ _ _ x Ha) as Hb. ospecialize (Hb _); [mem|]. unfold U64_MAX. lia. }
  { by rewrite node_needed, Hz1, Hz. }
  { by rewrite Hd1. } { by rewrite Hf1. }
  assert (only_page t1 t2 p) as Hw' by done.
  destruct (only_page_extends _ _ _ _ _ _ Hq1 Ha1 HP Hw') as [He2 Ha2].
  assert (extends (ids ++ us) P (tree b) t2) as He by (eapply extends_trans; [|exact He1|exact He2]; auto).
  exists p, t2. unfold lbind, on_tree. rewrite Hal. cbn [tree with_tree]. rewrite Hw. split; [done|]. split; [|done].
  eapply kids_node; [|done|done|done]. apply (kids_frame (tree b)); [apply He| |exact Hk].
  intros q Hq'. eapply extends_same; [done|exact He|mem].
Qed.

Lemma emit_then {A} nd (kont : Z -> L A) b p b' :
  (lo! page_id := on_tree allocate_page in
   lo! _ := on_tree (write_internal page_id nd) in lret page_id) b = (Ok p, b') ->
  (lo! page_id := on_tree allocate_page in
   lo! _ := on_tree (write_internal page_id nd) in kont page_id) b = kont p b'.
Proof.
  unfold lbind. destruct (on_tree allocate_page b) as [[q| |] b1]; [|done..].
  destruct (on_tree (write_internal q nd) b1) as [[[]| |] b2]; [|done..]. unfold lret. by intros [= -> ->].
Qed.

Lemma with_levels_id b : with_levels (levels b) b = b.
Proof. by destruct b. Qed.

(** A level past the last takes its first child. *)
Lemma push_child_top fuel b child :
  push_child fuel (length (levels b)) child b =
  (Ok tt, with_levels (levels b ++ [mkLevel [child] HEADER_LEN 1]) b).
Proof.
  destruct fuel; cbn [push_child]; unfold lbind, lmodify, lgets; cbn [levels with_levels];
    (replace (S (length (levels b)) - length (levels b))%nat with 1%nat by lia); cbn [replicate];
    rewrite list_lookup_middle by done; cbn; rewrite insert_app_r_alt, Nat.sub_diag by lia; done.
Qed.

(** One round on an existing level. *)
Lemma push_child_round fuel pre a ls b child :
  levels b = pre ++ a :: ls ->
  push_child fuel (length pre) child b =
  match try_push a child (body_cap b) with
  | Ok (true, a') => (Ok tt, with_levels (pre ++ a' :: ls) b)
  | Ok (false, a') =>
      match take_node a' with
      | (None, _) => (Err (Io "bulk load: a full internal level held no node"), b)
      | (Some (nd, separator), a') =>
          (lo! page_id := on_tree allocate_page in
           lo! _ := on_tree (write_internal page_id nd) in
           match fuel with
           | O => lgets (fun _ => Panic)
           | S fuel => push_child fuel (S (length pre)) (page_id, separator)
           end) (with_levels (pre ++ restart a' child :: ls) b)
      end
  | Err e => (Err e, b)
  | Panic => (Panic, b)
  end.
Proof.
  intros Hlv. assert (forall x, <[length pre := x]> (pre ++ a :: ls) = pre ++ x :: ls) as Hins.
  { intros x. by rewrite insert_app_r_alt, Nat.sub_diag by lia. }
  assert (with_levels (levels b ++ replicate (S (length pre) - length (levels b)) level_new) b = b) as Hid.
  { rewrite Hlv, length_app. simpl length. replace (S (length pre) - (length pre + S (length ls)))%nat with 0%nat by lia.
    simpl replicate. rewrite app_nil_r, <-Hlv. apply with_levels_id. }
  destruct fuel; cbn [push_child]; unfold lbind at 1, lmodify at 1; rewrite Hid; unfold lbind at 1, lgets at 1;
    rewrite Hlv, list_lookup_middle by done; change (default level_new (Some a)) with a; unfold lbind at 1, lgets at 1;
    (destruct (try_push a child (body_cap b)) as [[[] a']| |]; [| |done..]);
    [unfold lmodify; by rewrite Hlv, Hins| |unfold lmodify; by rewrite Hlv, Hins|];
    (destruct (take_node a') as [[[nd separator]|] a2]; [|done]);
    unfold lbind at 1, lmodify at 1; rewrite Hlv, Hins; done.
Qed.

Lemma push_top_ok n fuel b c k kv1 id1 us :
  quiet (tree b) -> bsub (tree b) (length (levels b)) c k kv1 id1 -> HEADER_LEN <= cap ->
  alloc_ok n (tree b) (id1 ++ us) P ->
  exists t' ls' ids', push_child fuel (length (levels b)) (c, k) b =
      (Ok tt, with_levels (levels b ++ ls') (with_tree t' b)) /\
    lvls t' cap (length (levels b)) ls' kv1 ids' /\ counts ls' /\ total_of ls' = 1 /\
    alloc_ok n t' (ids' ++ us) P /\ extends us P (tree b) t'.
Proof.
  intros Hq Hb Hcap Ha. rewrite push_child_top.
  exists (tree b), [mkLevel [(c, k)] HEADER_LEN 1], id1. split; [by destruct b|]. split.
  { exists [], kv1, [], id1. split; [done|]. split; [done|]. split; [done|]. split; [|done].
    exists kv1, [], id1, []. by rewrite !app_nil_r. }
  split; [done|]. split; [done|]. split; [done|]. by apply extends_refl.
Qed.

(** What pushing a child with [fuel] rounds left does to the levels [ls] above [pre]. *)
Definition push_spec (fuel : nat) : Prop := forall pre ls b c k kvs ids kv1 id1 us n,
  levels b = pre ++ ls -> quiet (tree b) -> page_size (tree b) = ps -> body_cap b = cap ->
  lvls (tree b) cap (length pre) ls kvs ids -> counts ls -> bsub (tree b) (length pre) c k kv1 id1 ->
  keys_sorted (kvs ++ kv1).*1 -> Forall (fun r : leaf_record => blen r.1 <= K) (kvs ++ kv1) ->
  alloc_ok (length ls + n) (tree b) (ids ++ id1 ++ us) P -> (length ls <= fuel)%nat ->
  exists t' ls' ids', push_child fuel (length pre) (c, k) b = (Ok tt, with_levels (pre ++ ls') (with_tree t' b)) /\
    lvls t' cap (length pre) ls' (kvs ++ kv1) ids' /\ counts ls' /\ total_of ls' = total_of ls + 1 /\
    alloc_ok n t' (ids' ++ us) P /\ extends us P (tree b) t'.

(** The children of a level are written as a node, and the node is pushed to the
    level above. *)
Lemma emit_push_ok fuel pre a ls b c k cs kvh idh kvl idl us n :
  push_spec fuel -> levels b = pre ++ a :: ls -> quiet (tree b) -> page_size (tree b) = ps -> body_cap b = cap ->
  lvls (tree b) cap (S (length pre)) ls kvh idh -> counts ls -> kids (tree b) (length pre) ((c, k) :: cs) kvl idl ->
  HEADER_LEN + sep_size cs <= cap -> keys_sorted (kvh ++ kvl).*1 ->
  Forall (fun r : leaf_record => blen r.1 <= K) (kvh ++ kvl) ->
  alloc_ok (S (length ls + n)) (tree b) (idh ++ idl ++ us) P -> (length ls <= fuel)%nat ->
  exists p t1 t2 ls2 ids2,
    (lo! page_id := on_tree allocate_page in
     lo! _ := on_tree (write_internal page_id (mkInternal c ((fun x : Child => (x.2, x.1)) <$> cs))) in
     lret page_id) b = (Ok p, with_tree t1 b) /\
    push_child fuel (S (length pre)) (p, k) (with_tree t1 b) =
      (Ok tt, with_levels (pre ++ a :: ls2) (with_tree t2 b)) /\
    lvls t2 cap (S (length pre)) ls2 (kvh ++ kvl) ids2 /\ counts ls2 /\ total_of ls2 = total_of ls + 1 /\
    alloc_ok n t2 (ids2 ++ us) P /\ extends us P (tree b) t2.
Proof.
  intros IH Hlv Hq Hz Hcap Hl Hc Hk Hsz Hs HK Ha Hf.
  pose proof Hs as Hs'. rewrite fmap_app in Hs'. apply sorted_app in Hs' as (_ & Hsl & _).
  pose proof HK as HK'. apply Forall_app in HK' as [_ HKl].
  destruct (emit_node_ok b (length pre) c k cs kvl idl (idh ++ us) (length ls + n))
    as (p & t1 & Hemit & Hbs & Ha1 & Hext); try done.
  { eapply alloc_ok_perm; [|done|exact Ha]. solve_Permutation. }
  destruct (IH (pre ++ [a]) ls (with_tree t1 b) p k kvh idh kvl (p :: idl) us n)
    as (t2 & ls2 & ids2 & Hrun & Hl2 & Hc2 & Ht2 & Ha2 & Hext2); rewrite ?length_app, ?Nat.add_1_r; try done; try apply Hext.
  - cbn [levels with_tree]. by rewrite <-app_assoc.
  - destruct Hext as [E _]. cbn [tree with_tree]. by rewrite E.
  - apply (lvls_frame (tree b)); [apply Hext| |done]. intros q Hq'. eapply extends_same; [done|exact Hext|mem].
  - cbn [tree with_tree]. eapply alloc_ok_perm; [|done|exact Ha1]. solve_Permutation.
  - rewrite length_app, Nat.add_1_r in Hrun, Hl2. exists p, t1, t2, ls2, ids2. split; [done|].
    split; [rewrite Hrun, <-app_assoc; done|]. split; [done|]. split; [done|]. split; [done|]. split; [done|].
    eapply extends_trans; [|eapply extends_sub; [|exact Hext]|exact Hext2]; intros q Hq'; [done|mem].
Qed.

(** A child that still fits the node under construction. *)
Lemma level_add t h a ls c k kvs ids kv1 id1 :
  lvls t cap h (a :: ls) kvs ids -> counts (a :: ls) -> bsub t h c k kv1 id1 -> la_used a + (blen k + 12) <= cap ->
  let a' := mkLevel (la_children a ++ [(c, k)]) (la_used a + (blen k + 12)) (la_total a + 1) in
  lvls t cap h (a' :: ls) (kvs ++ kv1) (ids ++ id1) /\ counts (a' :: ls).
Proof.
  intros (kvh & kvl & idh & idl & -> & -> & Hl & Hkids & (Hu & Hle & Hne)) [Hc1 Hc2] Hb Hfit. split.
  - exists kvh, (kvl ++ kv1), idh, (idl ++ id1). rewrite <-!app_assoc. split; [done|]. split; [done|]. split; [done|].
    split; [cbn [la_children]; by apply kids_snoc|]. split; [|split; [done|]]; cbn [la_used la_children].
    + destruct (la_children a) as [|x cs]; [done|]. cbn [app tail] in *. rewrite sep_size_app. simpl. rewrite Hu. lia.
    + by destruct (la_children a).
  - split; [|done]. destruct ls as [|a2 ls]; cbn [la_total la_children] in *; rewrite length_app; simpl in *; lia.
Qed.

(** A level that emitted its node, of at least two children, and starts over. *)
Lemma level_restart t t' h a ls ls2 c k kvh ids2 kv1 id1 cs :
  counts (a :: ls) -> la_children a = cs -> (2 <= length cs)%nat ->
  lvls t' cap (S h) ls2 kvh ids2 -> counts ls2 -> total_of ls2 = total_of ls + 1 -> 0 <= total_of ls ->
  bsub t h c k kv1 id1 -> page_size t' = page_size t -> (forall q, q ∈ id1 -> same_at t t' q) -> HEADER_LEN <= cap ->
  let a' := mkLevel [(c, k)] HEADER_LEN (la_total a + 1) in
  lvls t' cap h (a' :: ls2) (kvh ++ kv1) (ids2 ++ id1) /\ counts (a' :: ls2).
Proof.
  intros [Hc _] Hcs H2 Hl2 Hc2 Ht2 Ht0 Hb Hz Hsame Hcap. split.
  - exists kvh, kv1, ids2, id1. split; [done|]. split; [done|]. split; [done|]. split; [|done].
    exists kv1, [], id1, []. rewrite !app_nil_r. split; [done|]. split; [done|]. split; [|done]. by apply (bsub_frame t).
  - split; [|done]. rewrite Hcs in Hc. unfold total_of in Ht2, Ht0. destruct ls2 as [|b2 ls2].
    { destruct ls as [|b0 ls]; simpl in Ht2, Ht0; lia. }
    destruct ls as [|b0 ls]; cbn [head from_option length la_total la_children] in *; lia.
Qed.

Lemma sep_size_nonneg cs : 0 <= sep_size cs.
Proof. unfold sep_size. induction cs as [|x cs IH]; simpl; [done|]. pose proof (blen_nonneg x.2). lia. Qed.
Lemma bsub_key t h c k kv1 id1 kvs :
  bsub t h c k kv1 id1 -> Forall (fun r : leaf_record => blen r.1 <= K) (kvs ++ kv1) -> blen k <= K.
Proof.
  intros [Hh _] HK. destruct kv1 as [|r kv1]; [done|]. simpl in Hh. simplify_eq. rewrite Forall_app, Forall_cons in HK. tauto.
Qed.

Lemma push_child_ok fuel : push_spec fuel.
Proof.
  induction fuel as [|fuel IH]; intros pre ls b c k kvs ids kv1 id1 us n Hlv Hq Hz Hcap Hl Hc Hb Hs HK Ha Hf;
    destruct (room_entry k (bsub_key _ _ _ _ _ _ _ Hb HK)) as (Hent & Hfit & Hu16); pose proof (blen_nonneg k) as Hk0;
    (destruct ls as [|a ls];
      [destruct Hl as [-> ->]; rewrite app_nil_r in Hlv; rewrite <-Hlv in *; apply (push_top_ok n _ b c k kv1 id1 us); (done || lia)|]).
  { simpl in Hf. lia. }
  rewrite (push_child_round _ _ _ _ _ _ Hlv). pose proof Hl as (kvh & kvl & idh & idl & -> & -> & Hlh & Hkids & (Hu & Hle & Hne)).
  unfold try_push. destruct (la_children a) as [|[c1 k1] cs] eqn:Hcs; [done|]. cbn [fst snd]. rewrite Hent.
  pose proof (sep_size_nonneg cs). cbn [tail] in Hu.
  rewrite checked_add_ok by (unfold USIZE_MAX, U64_MAX, U16_MAX, HEADER_LEN in *; lia).
  cbn [ok_or]. rewrite Hcap. destruct (Z.ltb_spec cap (la_used a + (blen k + 12))) as [Hfull|Hroom'].
  - destruct cs as [|x2 cs]; [exfalso; change (sep_size []) with 0 in Hu; lia|].
    cbn [length Nat.eqb]. unfold take_node. rewrite Hcs. set (a' := restart _ _).
    rewrite fmap_app in Hs. apply sorted_app in Hs as (Hsh & _ & _). apply Forall_app in HK as [HKh _].
    destruct (emit_push_ok fuel pre a' ls (with_levels (pre ++ a' :: ls) b) c1 k1 (x2 :: cs) kvh idh kvl idl (id1 ++ us) n)
      as (p & t1 & t2 & ls2 & ids2 & Hemit & Hpush & Hl2 & Hc2 & Ht2 & Ha2 & Hext); try done; [by destruct Hc|lia| |simpl in Hf; lia|].
    { cbn [tree with_levels]. rewrite <-app_assoc in Ha. exact Ha. }
    rewrite (emit_then _ (fun page_id => push_child fuel (S (length pre)) (page_id, k1)) _ _ _ Hemit), Hpush.
    assert (0 <= total_of ls) as Ht0.
    { destruct Hc as [Hc _]. unfold total_of. destruct ls; simpl; [done|]. lia. }
    destruct (level_restart (tree b) t2 (length pre) a ls ls2 c k (kvh ++ kvl) ids2 kv1 id1 ((c1, k1) :: x2 :: cs)) as [Hl' Hc']; try done.
    { simpl. lia. } { apply Hext. } { intros q Hq'. eapply extends_same; [done|exact Hext|mem]. } { lia. }
    exists t2, (a' :: ls2), (ids2 ++ id1). split; [done|]. split; [done|]. split; [done|]. split; [done|].
    split; [by rewrite <-app_assoc|]. eapply extends_sub; [|exact Hext]. intros q Hq'. mem in Hq'.
  - destruct (level_add (tree b) (length pre) a ls c k (kvh ++ kvl) (idh ++ idl) kv1 id1 Hl Hc Hb Hroom') as [Hl' Hc'].
    rewrite Hcs in Hl', Hc'. eexists (tree b), (_ :: ls), _. split; [by destruct b|]. split; [exact Hl'|]. split; [exact Hc'|].
    split; [done|]. split; [|by apply extends_refl]. rewrite <-!app_assoc in *. eapply alloc_ok_le; [|exact Ha]. lia.
Qed.
End push.

(** *** Closing the levels *)

Lemma total_pos cap ls : counts ls -> Forall (level_ok cap) ls -> ls <> [] -> 1 <= total_of ls.
Proof.
  intros Hc Hf Hne. assert (Z.of_nat (length ls) <= total_of ls) as H.
  { apply counts_length; [done|]. eapply Forall_impl; [exact Hf|]. by intros a (_ & _ & ?). }
  destruct ls; [done|]. simpl in H. lia.
Qed.
Lemma lvls_ok t cap h ls kvs ids : lvls t cap h ls kvs ids -> Forall (level_ok cap) ls.
Proof.
  revert h kvs ids. induction ls as [|a ls IH]; intros h kvs ids; [constructor|].
  intros (kvh & kvl & idh & idl & _ & _ & Hl & _ & Ha). constructor; eauto.
Qed.

(** The one child of the top level is the root of everything. *)
Lemma lvls_sole t cap h a ls kvs ids :
  lvls t cap h (a :: ls) kvs ids -> counts (a :: ls) -> la_total a = 1 ->
  exists c k, sole_child a = Some c /\ la_children a = [(c, k)] /\ ls = [] /\ bsub t h c k kvs ids.
Proof.
  intros (kvh & kvl & idh & idl & -> & -> & Hl & Hk & Ha) [Hc _] Ht. pose proof Ha as (_ & _ & Hne).
  destruct ls as [|b ls]; [|exfalso; lia]. destruct Hl as [-> ->].
  destruct (la_children a) as [|[c k] [|x cs]] eqn:Hcs; [done| |simpl in Hc; lia].
  destruct Hk as (kv1 & kv2 & id1 & id2 & -> & -> & Hb & [-> ->]). exists c, k. unfold sole_child. rewrite Ht, Hcs.
  rewrite !app_nil_r. done.
Qed.

Lemma finish_levels_ok ps P n :
  HEADER_LEN + ENVELOPE_OVERHEAD <= ps <= U16_MAX + ENVELOPE_OVERHEAD -> room K ps ->
  forall fuel pre ls b kvs ids us,
  levels b = pre ++ ls -> ls <> [] -> quiet (tree b) -> page_size (tree b) = ps -> body_cap b = body_capacity ps ->
  lvls (tree b) (body_capacity ps) (length pre) ls kvs ids -> counts ls ->
  keys_sorted kvs.*1 -> Forall (fun r : leaf_record => blen r.1 <= K) kvs ->
  (Z.to_nat (total_of ls) <= S fuel)%nat ->
  alloc_ok (Z.to_nat (total_of ls) * Z.to_nat (total_of ls) + n) (tree b) (ids ++ us) P ->
  exists b' t' h root k ids', finish_levels fuel (length pre) b = (Ok tt, b') /\ tree b' = with_root root t' /\
    bsub t' h root k kvs ids' /\ alloc_ok n t' (ids' ++ us) P /\ extends us P (tree b) t'.
Proof.
  intros Hps Hroom. induction fuel as [|fuel IH]; intros pre ls b kvs ids us Hlv Hne Hq Hz Hcap Hl Hc Hs HK Hf Ha;
    pose proof (total_pos _ _ Hc (lvls_ok _ _ _ _ _ _ Hl) Hne) as Ht; (destruct ls as [|a ls]; [done|]);
    unfold total_of in Hf, Ha, Ht; cbn [head from_option] in Hf, Ha, Ht; cbn [finish_levels]; rewrite Hlv, list_lookup_middle by done.
  all: destruct (decide (la_total a = 1)) as [H1|H1];
    [destruct (lvls_sole _ _ _ _ _ _ _ Hl Hc H1) as (c & k & -> & _ & _ & Hb); exists (with_tree (with_root c (tree b)) b), (tree b);
     exists (length pre), c, k, ids; split; [done|]; split; [done|]; split; [done|];
     split; [eapply alloc_ok_le; [|exact Ha]; lia|by apply extends_refl]|].
  { lia. }
  unfold sole_child. rewrite (proj2 (Z.eqb_neq _ _) H1).
  destruct Hl as (kvh & kvl & idh & idl & -> & -> & Hl & Hk & (Hu & Hle & Hch)). unfold take_node.
  destruct (la_children a) as [|[c1 k1] cs] eqn:Hcs; [done|].
  set (a0 := mkLevel [] HEADER_LEN (la_total a)). unfold lbind at 1, lmodify at 1.
  replace (<[length pre := a0]> (levels b)) with (pre ++ a0 :: ls)
    by (rewrite Hlv, insert_app_r_alt, Nat.sub_diag by lia; done).
  set (b1 := with_levels (pre ++ a0 :: ls) b).
  assert (0 <= total_of ls /\ Z.of_nat (length ls) <= total_of ls /\ total_of ls + 1 < la_total a) as (Htl & Hlen & Hdec).
  { destruct Hc as [Hc1 Hc2]. pose proof (counts_length ls Hc2) as Hcl. ospecialize (Hcl _).
    { eapply Forall_impl; [exact (lvls_ok _ _ _ _ _ _ Hl)|]. by intros x (_ & _ & ?). }
    rewrite Hcs in Hc1. unfold total_of in *. destruct ls as [|b0 ls]; cbn [head from_option length] in *; lia. }
  set (T := Z.to_nat (la_total a)) in *. set (T' := Z.to_nat (total_of ls + 1)).
  destruct (emit_push_ok ps P Hps (push_fuel b1) pre a0 ls b1 c1 k1 cs kvh idh kvl idl us (T' * T' + n))
    as (p & t1 & t2 & ls2 & ids2 & Hemit & Hpush & Hl2 & Hc2 & Ht2 & Ha2 & Hext); try done.
  { by apply push_child_ok. } { by destruct Hc. } { cbn [tail] in Hu. lia. }
  { cbn [tree with_levels]. rewrite <-app_assoc in Ha. eapply alloc_ok_le; [|exact Ha].
    assert (T' <= T - 1 /\ length ls <= T - 2 /\ 2 <= T)%nat as (? & ? & ?) by lia. nia. }
  { unfold push_fuel, b1. cbn [levels with_levels]. rewrite length_app. simpl. lia. }
  rewrite (emit_then _ (fun page_id => lo! _ := (fun b => push_child (push_fuel b) (S (length pre)) (page_id, k1) b) in
    finish_levels fuel (S (length pre))) b1 p _ Hemit).
  unfold lbind at 1. change (push_fuel (with_tree t1 b1)) with (push_fuel b1). rewrite Hpush.
  set (b2 := with_levels _ _). destruct (IH (pre ++ [a0]) ls2 b2 (kvh ++ kvl) ids2 us)
    as (b' & t3 & h & root & k & ids' & Hfin & Hb' & Hbs' & Ha3 & Hext3);
    rewrite ?length_app, ?Nat.add_1_r; try done; try apply Hext.
  { cbn [levels b2 with_levels]. by rewrite <-app_assoc. }
  { intros ->. change (total_of []) with 0 in Ht2. lia. }
  { destruct Hext as [E _]. cbn [tree with_tree with_levels b2 b1] in *. by rewrite E. }
  { rewrite Ht2. lia. }
  { rewrite Ht2. exact Ha2. }
  rewrite length_app, Nat.add_1_r in Hfin. exists b', t3, h, root, k, ids'. rewrite Hfin. split; [done|]. split; [done|].
  split; [done|]. split; [done|]. eapply extends_trans; [|exact Hext|exact Hext3]. done.
Qed.
End load.
