(* ===== verification/BulkLoadSpec.v ===== *)
(** * BulkLoadSpec: a bulk load builds the map of its records

    The leaves of a load: how their size is projected, what the loader holds after
    every record, and the tree left when the load finishes. *)

From S2P Require Import Prelude Keys Errors PageFormat Node Leaf Internal Split Store Overflow Tree TreeWrite TreeRep TreeAlloc TreeCow TreePropagate TreeSplitUp TreePut TreeOps TreeSpec TreeScan TreeFlush BulkLoad.
From Stdlib Require Import ZArith Lia.
From stdpp Require Import base list strings gmap sorting.

Local Open Scope Z_scope.
Local Open Scope pagedb_scope.

(** ** The size of the leaf under construction *)

(** What the records take before their common prefix is factored out. *)
Definition cost_of (r : leaf_record) : Z := 4 + blen r.1 + encoded_size r.2.
Definition costs (rs : list leaf_record) : Z := foldr (fun r acc => cost_of r + acc) 0 rs.

Lemma costs_snoc rs r : costs (rs ++ [r]) = costs rs + cost_of r.
Proof. unfold costs. induction rs as [|x rs IH]; simpl; [lia|]. rewrite IH. lia. Qed.

Lemma records_size_costs pl rs :
  0 <= pl -> Forall (fun r : leaf_record => pl <= blen r.1) rs ->
  records_size pl rs = costs rs - Z.of_nat (length rs) * (pl + 2).
Proof.
  intros Hpl. unfold records_size, costs. induction 1 as [|r rs Hr Hrs IH]; [done|]. simpl. rewrite IH.
  unfold record_size, cost_of, saturating_sub. destruct r as [k v]. simpl in *. lia.
Qed.

(** Sorted records share the prefix their first and last keys share. *)
Lemma leaf_needed_costs rs :
  keys_sorted rs.*1 ->
  leaf_needed rs = HEADER_LEN + costs rs - (Z.of_nat (length rs) - 1) * lcp_len rs.
Proof.
  intros Hs. unfold leaf_needed. rewrite records_size_costs; [lia|apply lcp_len_nonneg|].
  exact (lcp_len_keys rs Hs).
Qed.

Lemma lcp_len_snoc k0 v0 rs k v : lcp_len (((k0, v0) :: rs) ++ [(k, v)]) = Z.of_nat (common_len k0 k).
Proof. unfold lcp_len. simpl. destruct (rs ++ [(k, v)]) as [|r l] eqn:He; [by destruct rs|]. rewrite <-He, last_snoc. done. Qed.

Lemma leaf_needed_length rs : keys_sorted rs.*1 -> HEADER_LEN + Z.of_nat (length rs) * 4 <= leaf_needed rs.
Proof.
  intros Hs. unfold leaf_needed. pose proof (lcp_len_nonneg rs). set (pl := lcp_len rs) in *.
  assert (Z.of_nat (length rs) * 2 <= records_size pl rs); [|lia].
  clearbody pl. induction rs as [|r rs IH]; [done|]. change (records_size pl (r :: rs)) with (record_size pl r + records_size pl rs).
  assert (2 <= record_size pl r); [|simpl length; rewrite fmap_cons in Hs; apply StronglySorted_inv in Hs as [Hs _]; specialize (IH Hs); lia].
  unfold record_size, saturating_sub. assert (0 <= encoded_size r.2) by (rewrite <-blen_value_bytes; apply blen_nonneg). lia.
Qed.
Lemma costs_length rs : Z.of_nat (length rs) * 4 <= costs rs.
Proof.
  unfold costs. induction rs as [|r rs IH]; [done|]. simpl. unfold cost_of at 1.
  assert (0 <= encoded_size r.2) by (rewrite <-blen_value_bytes; apply blen_nonneg). pose proof (blen_nonneg r.1). lia.
Qed.

(** The running size of the leaf is the size it would be encoded to. *)
Lemma projected_exact b k v :
  leaf_used b = HEADER_LEN + costs (leaf_records b) -> keys_sorted (leaf_records b ++ [(k, v)]).*1 ->
  0 <= costs (leaf_records b) <= 2 ^ 40 -> blen k <= U16_MAX -> encoded_size v <= 2 ^ 40 ->
  projected_encoded_size b k (cost_of (k, v)) = Ok (leaf_needed (leaf_records b ++ [(k, v)])).
Proof.
  intros Hu Hs Hc Hk Hv. rewrite (leaf_needed_costs _ Hs), costs_snoc, length_app.
  pose proof (blen_nonneg k). assert (0 <= encoded_size v) by (destruct v as [x|]; simpl; [pose proof (blen_nonneg x); lia|done]).
  unfold projected_encoded_size. rewrite Hu.
  assert (cost_of (k, v) = 4 + blen k + encoded_size v) as Hco by done. unfold HEADER_LEN, U16_MAX in *.
  rewrite checked_add_ok by (unfold USIZE_MAX, U64_MAX; lia). cbn [ok_or].
  destruct (leaf_records b) as [|[k0 v0] rs] eqn:Hrs.
  - cbn. f_equal. lia.
  - rewrite lcp_len_snoc in *. cbn [head option_bind ok_or]. pose proof (common_len_le_r k0 k) as Hcl.
    pose proof (leaf_needed_length _ Hs) as Hn. rewrite (leaf_needed_costs _ Hs), lcp_len_snoc, costs_snoc, length_app in Hn.
    pose proof (costs_length ((k0, v0) :: rs)) as Hl. set (L := length ((k0, v0) :: rs)) in *.
    unfold HEADER_LEN in *. cbn [length] in *. set (C := common_len k0 k) in *.
    assert (Z.of_nat C <= 65535) by (unfold blen in Hk; lia).
    unfold checked_mul. rewrite (proj2 (Z.leb_le _ _)) by (unfold USIZE_MAX, U64_MAX; nia). cbn [ok_or].
    rewrite checked_sub_ok by lia. cbn [ok_or]. f_equal. lia.
Qed.

(** ** What the loader holds *)

Section loading.
Context (K ps : Z) (P : gset Z) (X : list Z) (t0 : BTree).
Context (Hps : HEADER_LEN + ENVELOPE_OVERHEAD <= ps <= U16_MAX + ENVELOPE_OVERHEAD) (Hroom : room K ps).
Local Abbreviation cap := (body_capacity ps).

(** A record that fits a leaf of its own. *)
Definition good_record (r : leaf_record) : Prop :=
  blen r.1 <= K /\ value_wf r.2 /\ encoded_size r.2 <= inline_value_threshold ps + 2.

(** The records [recs] have been pushed: [kvd] are in leaves written, the others
    wait in the leaf under construction; their values are those of [m], their
    overflow chains [ch]. *)
Record loading (b : BulkLoader) (kvd : list leaf_record) (ids : list Z) (recs : list leaf_record)
    (ch : gmap bytes (list Z)) (m : gmap bytes bytes) (n : nat) : Prop := mkLoading {
  ld_recs : recs = kvd ++ leaf_records b;
  ld_sorted : keys_sorted recs.*1;
  ld_good : Forall good_record recs;
  ld_last : BulkLoad.last_key b = last recs.*1;
  ld_size : page_size (tree b) = ps;
  ld_cap : body_cap b = cap /\ inline_threshold b = inline_value_threshold ps;
  ld_levels : lvls K (tree b) cap 0 (levels b) kvd ids;
  ld_counts : counts (levels b);
  ld_total : leaf_count b = total_of (levels b) /\ total_of (levels b) <= Z.of_nat (length kvd);
  ld_used : leaf_used b = HEADER_LEN + costs (leaf_records b);
  ld_fits : leaf_needed (leaf_records b) <= cap;
  ld_left : is_u64 (left_sibling b);
  ld_page : forall p, leaf_page_id b = Some p -> ~ (p ∈ P);
  ld_first : leaf_count b = 1 ->
    exists k, from_option la_children [] (head (levels b)) = [(first_leaf_page_id b, k)];
  ld_alloc : alloc_ok n (tree b) (ids ++ option_list (leaf_page_id b) ++ all_pages ch ++ X) P;
  ld_holds : holds (bt_pages (tree b)) recs ch m;
  ld_extends : extends X P t0 (tree b);
}.

Lemma loading_new n :
  quiet t0 -> page_size t0 = ps -> alloc_ok n t0 X P -> loading (loader_new t0) [] [] [] ∅ ∅ n.
Proof.
  intros Hq Hz Ha. constructor; try done; cbn [loader_new leaf_page_id tree option_list app].
  - constructor.
  - simpl. by rewrite Hz.
  - simpl. unfold leaf_needed. simpl. unfold HEADER_LEN, body_capacity in *. lia.
Qed.

(** A run of good records is a leaf. *)
Lemma leaf_bsub t p left right rs k :
  page_size t = ps -> leaf_at t p (mkLeaf left right rs) -> is_u64 left -> is_u64 right ->
  keys_sorted rs.*1 -> Forall good_record rs -> leaf_needed rs <= cap -> head rs.*1 = Some k ->
  bsub K t 0 p k rs [p].
Proof.
  intros Hz Hl Hlw Hrw Hs Hg Hn Hk. split; [done|]. intros lo hi Hr. exists (mkLeaf left right rs).
  split; [done|]. split; [done|]. split; [done|]. split; [|split; [|split]].
  - unfold leaf_wf, leaf_sorted. simpl. split; [done|]. split; [done|]. split; [done|].
    rewrite Forall_fmap. eapply Forall_impl; [exact Hg|]. by intros r (_ & ? & _).
  - unfold leaf_fits, slice_fits. apply Z.leb_le. by rewrite Hz.
  - destruct rs as [|r rs]; [done|]. apply Forall_cons in Hr as [Hr _]. by eapply in_range_blt.
  - rewrite Forall_forall in Hr, Hg |- *. intros r Hin. split; [by apply Hr|by apply Hg].
Qed.

(** The page of the next leaf: the one reserved, or a new one. *)
Lemma take_page_ok b reserved us n :
  quiet (tree b) -> (forall p, reserved = Some p -> ~ (p ∈ P)) -> alloc_ok (S n) (tree b) (option_list reserved ++ us) P ->
  exists p t', match reserved with Some p => lret p | None => on_tree allocate_page end b = (Ok p, with_tree t' b) /\
    alloc_ok n t' (p :: us) P /\ ~ (p ∈ P) /\ extends us P (tree b) t'.
Proof.
  intros Hq HP Ha. destruct reserved as [p|].
  - exists p, (tree b). split; [by destruct b|]. split; [eapply alloc_ok_le; [|exact Ha]; lia|].
    split; [by apply HP|by apply extends_refl].
  - destruct (alloc_extends _ _ _ _ Hq Ha) as (p & t' & Hal & Ha' & HPp & He & _). exists p, t'.
    unfold on_tree. rewrite Hal. done.
Qed.
(** The page of the leaf after it, if there is one. *)
Lemma reserve_page_ok b more us n :
  quiet (tree b) -> leaf_page_id b = None -> alloc_ok (S n) (tree b) us P ->
  exists nx t', (if (more : bool) then
      lo! next := on_tree allocate_page in
      lo! _ := lmodify (with_leaf_page_id (Some next)) in lret next
    else lret 0) b = (Ok (default 0 nx), with_leaf_page_id nx (with_tree t' b)) /\
    is_u64 (default 0 nx) /\ alloc_ok n t' (option_list nx ++ us) P /\ (forall p, nx = Some p -> ~ (p ∈ P)) /\
    extends us P (tree b) t'.
Proof.
  intros Hq Hn Ha. destruct more.
  - destruct (alloc_extends _ _ _ _ Hq Ha) as (p & t' & Hal & Ha' & HPp & He & Hu). exists (Some p), t'.
    unfold lbind, on_tree. rewrite Hal. split; [done|]. split; [done|]. split; [done|]. split; [|done]. by intros ? [= <-].
  - exists None, (tree b). split; [destruct b; simpl in Hn; subst; done|]. split; [done|].
    split; [eapply alloc_ok_le; [|exact Ha]; lia|]. split; [done|by apply extends_refl].
Qed.

(** The leaf is written to its page. *)
Lemma write_leaf_extends t p left right rs k us n :
  quiet t -> page_size t = ps -> alloc_ok n t (p :: us) P -> ~ (p ∈ P) -> is_u64 left -> is_u64 right ->
  keys_sorted rs.*1 -> Forall good_record rs -> leaf_needed rs <= cap -> head rs.*1 = Some k ->
  exists t', write_leaf p (mkLeaf left right rs) t = (Ok tt, t') /\ bsub K t' 0 p k rs [p] /\ alloc_ok n t' (p :: us) P /\ extends us P t t'.
Proof.
  intros Hq Hz Ha HP Hl Hr Hs Hg Hn Hk. pose proof Hq as (Hd & Hf & _).
  destruct (write_leaf_only t p (mkLeaf left right rs)) as (t' & Hw & Hat & Ho).
  { unfold page_size_ok. by rewrite Hz. }
  { unfold leaf_wf, leaf_sorted. simpl. split; [done|]. split; [done|]. split; [done|].
    rewrite Forall_fmap. eapply Forall_impl; [exact Hg|]. by intros r (_ & ? & _). }
  { unfold leaf_fits, slice_fits. apply Z.leb_le. by rewrite Hz. }
  { by rewrite Hd. } { by rewrite Hf. }
  destruct (only_page_extends _ _ _ _ _ _ Hq Ha HP Ho) as [He Ha'].
  exists t'. split; [done|]. split; [|done]. eapply leaf_bsub; try done. destruct He as [-> _]. done.
Qed.

Lemma levels_nil t h ls kvs ids : lvls K t cap h ls kvs ids -> counts ls -> total_of ls = 0 -> ls = [].
Proof.
  intros Hl Hc H0. destruct (decide (ls = [])) as [|Hne]; [done|].
  pose proof (total_pos _ _ Hc (lvls_ok _ _ _ _ _ _ _ Hl) Hne). lia.
Qed.
Lemma push_first fuel b child ls t :
  levels b = [] -> push_child fuel 0 child b = (Ok tt, with_levels ls (with_tree t b)) ->
  ls = [mkLevel [child] HEADER_LEN 1].
Proof.
  intros Hnil Hrun. pose proof (push_child_top fuel b child) as Htop. rewrite Hnil in Htop. simpl length in Htop.
  rewrite Hrun in Htop. by apply (f_equal (fun x => levels x.2)) in Htop.
Qed.

Lemma close_leaf_ok b more kvd ids recs ch m n :
  loading b kvd ids recs ch m (length (levels b) + S (S n)) -> leaf_records b <> [] ->
  exists b' ids', close_leaf more b = (Ok tt, b') /\ loading b' recs ids' recs ch m n /\ leaf_records b' = [].
Proof.
  intros Hld Hne. destruct Hld as [Hrec Hs Hg Hlast Hz [Hcap Hthr] Hl Hc [Ht Htn] Hu Hfit Hleft Hpage Hfst Ha Hh Hext].
  assert (quiet (tree b)) as Hq by apply Hext.
  unfold close_leaf. unfold lbind at 1, lgets at 1. unfold lbind at 1, lmodify at 1.
  set (b1 := with_leaf_page_id None b).
  destruct (take_page_ok b1 (leaf_page_id b) (ids ++ all_pages ch ++ X) (length (levels b) + S n)) as (p & t1 & Hp & Ha1 & HP1 & He1); try done.
  { eapply alloc_ok_le; [|eapply alloc_ok_perm; [|done|exact Ha]]; [lia|]. solve_Permutation. }
  unfold lbind at 1. rewrite Hp. 
  destruct (reserve_page_ok (with_tree t1 b1) more (p :: ids ++ all_pages ch ++ X) (length (levels b) + n))
    as (nx & t2 & Hnx & Hu2 & Ha2 & HP2 & He2); [apply He1|done|eapply alloc_ok_le; [|exact Ha1]; lia|].
  unfold lbind at 1. rewrite Hnx. unfold lbind at 1, lgets at 1. unfold lbind at 1, lmodify at 1.
  unfold lbind at 1, lgets at 1. cbn [leaf_records left_sibling leaf_used with_leaf with_leaf_page_id with_tree b1].
  destruct (leaf_records b) as [|[k v] rs] eqn:Hrs; [done|]. cbn [head option_fmap option_map fst default].
  assert (keys_sorted ((k, v) :: rs).*1) as Hsl.
  { rewrite Hrec, fmap_app in Hs. by apply sorted_app in Hs as (_ & ? & _). }
  assert (Forall good_record ((k, v) :: rs)) as Hgl by (rewrite Hrec, Forall_app in Hg; tauto).
  destruct (write_leaf_extends t2 p (left_sibling b) (default 0 nx) ((k, v) :: rs) k
    (option_list nx ++ ids ++ all_pages ch ++ X) (length (levels b) + n)) as (t3 & Hw & Hb & Ha3 & He3); try done.
  { apply He2. }
  { destruct He1 as [E1 _], He2 as [E2 _]. cbn [tree with_tree] in E2. rewrite E2, E1. done. }
  { eapply alloc_ok_perm; [|done|exact Ha2]. solve_Permutation. }
  unfold lbind at 1, on_tree at 1. cbn [tree with_leaf with_leaf_page_id with_tree]. rewrite Hw.
  unfold lbind at 1, lmodify at 1. set (b3 := leaf_written p _).
  assert (extends (ids ++ all_pages ch ++ X) P (tree b) t3) as He.
  { eapply extends_trans; [|eapply extends_trans; [|exact He1|exact He2]|exact He3]; intros q Hq'; mem in Hq'. }
  destruct (push_child_ok K ps P Hps Hroom (push_fuel b3) [] (levels b) b3 p k kvd ids ((k, v) :: rs) [p]
    (option_list nx ++ all_pages ch ++ X) n) as (t4 & ls' & ids' & Hrun & Hl' & Hc' & Ht' & Ha4 & He4); try done.
  { apply He3. }
  { destruct He as [E _]. cbn [tree b3 leaf_written with_tree]. by rewrite E. }
  { apply (lvls_frame K (tree b)); [apply He| |done]. intros q Hq'. eapply extends_same; [done|exact He|mem]. }
  { by rewrite <-Hrec. }
  { rewrite <-Hrec. eapply Forall_impl; [exact Hg|]. by intros r (? & _). }
  { eapply alloc_ok_perm; [|done|exact Ha3]. solve_Permutation. }
  { unfold push_fuel. simpl. lia. }
  change (default [] (fst <$> Some (k, v))) with k. rewrite <-Hrec in Hl'. cbn [length app] in Hrun, Hl'.
  exists (with_levels ls' (with_tree t4 b3)), ids'. split; [exact Hrun|]. split; [|done].
  assert (extends (all_pages ch ++ X) P (tree b) t4) as Hef.
  { eapply extends_trans; [|eapply extends_sub; [|exact He]|exact He4]; intros q Hq'; mem in Hq'. }
  constructor; cbn [leaf_records levels leaf_page_id leaf_count leaf_used left_sibling tree body_cap first_leaf_page_id
    BulkLoad.last_key with_levels with_tree b3 leaf_written with_leaf with_leaf_page_id b1]; rewrite ?app_nil_r; try done.
  - destruct Hef as [E _]. by rewrite E.
  - rewrite Ht', Ht, Hrec, length_app. split; [done|]. simpl. lia.
  - unfold leaf_needed. simpl. unfold HEADER_LEN, body_capacity in *. lia.
  - pose proof (alloc_ok_bound _ _ _ _ p Ha1 ltac:(by left)). unfold U64_MAX. lia.
  - intros H0. assert (levels b = []) as Hnil by (eapply levels_nil; [exact Hl|done|lia]).
    rewrite (push_first _ b3 (p, k) ls' t4 Hnil Hrun), (proj2 (Z.eqb_eq (leaf_count b) 0)) by lia. by exists k.
  - eapply holds_frame; [|exact Hh]. intros q Hq'. apply Hef. right. mem.
  - eapply extends_trans; [|exact Hext|exact Hef]. intros q Hq'. mem in Hq'.
Qed.
End loading.

(** ** Pushing a record *)

Section push_record.
Context (K ps : Z) (P : gset Z).
Context (Hps : HEADER_LEN + ENVELOPE_OVERHEAD <= ps <= U16_MAX + ENVELOPE_OVERHEAD) (Hroom : room K ps).
Local Abbreviation cap := (body_capacity ps).
Local Abbreviation loading := (loading K ps P).
Local Abbreviation good_record := (good_record K ps).

Lemma loading_frame X t0 b kvd ids recs ch m n X' t' n' :
  loading X t0 b kvd ids recs ch m n -> extends (ids ++ all_pages ch) P (tree b) t' ->
  alloc_ok n' t' (ids ++ option_list (leaf_page_id b) ++ all_pages ch ++ X') P ->
  loading X' t' (with_tree t' b) kvd ids recs ch m n'.
Proof.
  intros [Hrec Hs Hg Hlast Hz Hcap Hl Hc Ht Hu Hfit Hleft Hpage Hfst Ha Hh Hext] He Ha'.
  assert (quiet (tree b)) as Hq by apply Hext. constructor; try done.
  - destruct He as [E _]. cbn [tree with_tree]. by rewrite E.
  - apply (lvls_frame K (tree b)); [apply He| |done]. intros q Hq'. eapply extends_same; [done|exact He|mem].
  - eapply holds_frame; [|exact Hh]. intros q Hq'. apply He. right. mem.
  - apply extends_refl, He.
Qed.

Lemma costs_bound rs : keys_sorted rs.*1 -> Forall good_record rs -> leaf_needed rs <= cap -> 0 <= costs rs <= 2 ^ 40.
Proof.
  intros Hs Hg Hn. pose proof (costs_length rs). split; [lia|].
  pose proof (leaf_needed_length rs Hs) as Hl. pose proof (leaf_needed_costs rs Hs) as Hc. pose proof (lcp_len_nonneg rs).
  assert (cap <= U16_MAX /\ K <= U16_MAX) as [Hcap HK].
  { destruct Hroom as ([HK0 Hsr] & _). assert (cap <= U16_MAX) by (unfold body_capacity; lia).
    split; [done|]. unfold HEADER_LEN in *. nia. }
  destruct rs as [|r rs]; [done|]. pose proof (lcp_len_keys _ Hs) as Hk. apply Forall_cons in Hk as [Hk _].
  apply Forall_cons in Hg as [(Hr & _) _]. unfold U16_MAX, HEADER_LEN in *.
  set (N := Z.of_nat (length (r :: rs))) in *. set (C := costs _) in *. set (Q := lcp_len _) in *. nia.
Qed.

Lemma record_cost_ok key v : blen key <= U16_MAX -> encoded_size v <= 2 ^ 40 ->
  leaf_record_cost (blen key) v = Ok (cost_of (key, v)).
Proof.
  intros Hk Hv. unfold leaf_record_cost, cost_of, U16_MAX in *. cbn [fst snd].
  repeat (rewrite checked_add_ok by (unfold USIZE_MAX, U64_MAX; lia); simpl). done.
Qed.

(** The record joins the leaf under construction. *)
Lemma loading_append X t0 t1 b kvd ids recs ch m key v value cids n :
  loading (cids ++ X) t1 b kvd ids recs ch m n -> extends X P t0 t1 -> good_record (key, v) ->
  stored (bt_pages t1) v value cids -> (forall k, k ∈ recs.*1 -> k <ₖ key) ->
  leaf_needed (leaf_records b ++ [(key, v)]) <= cap ->
  loading X t0 (with_leaf (leaf_records b ++ [(key, v)]) (leaf_used b + cost_of (key, v)) (with_last_key key b))
    kvd ids (recs ++ [(key, v)]) (<[key := cids]> ch) (<[key := value]> m) n.
Proof.
  intros [Hrec Hs Hg Hlast Hz Hcap Hl Hc Ht Hu Hfit Hleft Hpage Hfst Ha Hh Hext] He Hgr Hst Hlt Hn.
  assert (Forall (fun k => k <ₖ key) recs.*1) as Hlt' by by apply Forall_forall.
  assert (rec_map recs !! key = None) as Hnone by by apply rec_map_lt.
  assert (ch !! key = None) as Hch by (pose proof (Hh key) as Hk; rewrite Hnone in Hk; apply Hk).
  constructor; cbn [leaf_records levels leaf_page_id leaf_count leaf_used left_sibling tree body_cap first_leaf_page_id
    BulkLoad.last_key with_leaf with_last_key]; try done.
  - rewrite Hrec. by rewrite app_assoc.
  - rewrite fmap_app. apply sorted_app. split; [done|]. split; [repeat constructor|].
    intros x y Hx ->%list_elem_of_singleton. by apply Hlt.
  - apply Forall_app. split; [done|]. apply Forall_cons. split; [done|constructor].
  - by rewrite fmap_last, last_snoc.
  - rewrite Hu, costs_snoc. lia.
  - eapply alloc_ok_perm; [|done|exact Ha]. rewrite all_pages_insert by done. solve_Permutation.
  - eapply holds_insert; [exact Hh| |eapply stored_frame; [|exact Hst]|].
    + rewrite rec_map_middle by done. by rewrite app_nil_r.
    + intros p Hp. apply Hext. right. mem.
    + done.
  - eapply extends_trans; [|exact He|exact Hext]. intros q Hq. mem in Hq.
Qed.

Lemma append_used_ok X t0 b kvd ids recs ch m n key v :
  loading X t0 b kvd ids recs ch m n -> blen key <= U16_MAX -> encoded_size v <= 2 ^ 40 ->
  checked_add (leaf_used b) (cost_of (key, v)) = Some (leaf_used b + cost_of (key, v)).
Proof.
  intros [-> Hs Hg _ _ _ _ _ _ Hu Hfit _ _ _ _ _ _] Hk Hv. apply checked_add_ok.
  rewrite fmap_app in Hs. apply sorted_app in Hs as (_ & Hs & _). apply Forall_app in Hg as [_ Hg].
  pose proof (costs_bound _ Hs Hg Hfit). rewrite Hu. unfold cost_of, HEADER_LEN, U16_MAX, USIZE_MAX, U64_MAX in *. simpl. lia.
Qed.

(** The leaf is closed when the record no longer fits it. *)
Lemma make_room_ok X t1 b kvd ids recs ch m key v n :
  loading X t1 b kvd ids recs ch m (length (levels b) + S (S n)) -> good_record (key, v) ->
  exists b' kvd' ids',
    (if ((cap <? leaf_needed (leaf_records b ++ [(key, v)])) && negb (bool_decide (leaf_records b = []))) : bool
     then close_leaf true else lret tt) b = (Ok tt, b') /\
    loading X t1 b' kvd' ids' recs ch m n /\ leaf_needed (leaf_records b' ++ [(key, v)]) <= cap.
Proof.
  intros Hld Hgr. assert (leaf_needed [(key, v)] <= cap) as Hone.
  { apply Z.leb_le. apply (records_fit_one K key v ps None None Hroom). destruct Hgr as (? & ? & ?). done. }
  destruct (Z.ltb_spec cap (leaf_needed (leaf_records b ++ [(key, v)]))) as [Hbig|Hsmall]; simpl.
  - rewrite bool_decide_eq_false_2 by (intros Hnil; rewrite Hnil in Hbig; simpl in Hbig; lia). simpl.
    destruct (close_leaf_ok K ps P X t1 Hps Hroom b true kvd ids recs ch m n Hld) as (b' & ids' & Hcl & Hld' & Hnil).
    { intros Hnil; rewrite Hnil in Hbig; simpl in Hbig; lia. }
    exists b', recs, ids'. rewrite Hnil. done.
  - exists b, kvd, ids. split; [done|]. split; [|done]. destruct Hld. constructor; try done.
    eapply alloc_ok_le; [|done]. lia.
Qed.

Lemma stored_value_ok b value v t' :
  page_size (tree b) = ps -> inline_threshold b = inline_value_threshold ps ->
  leaf_value_for value (tree b) = (Ok v, t') -> stored_value value b = (Ok v, with_tree t' b).
Proof.
  intros Hz Ht. unfold leaf_value_for, stored_value. rewrite Hz, Ht. destruct (_ <? _).
  - destruct (write_chain _ _ _ _ _) as [[root| |] [st t]]; [|done..]. by intros [= <- <-].
  - intros [= <- <-]. by destruct b.
Qed.

Lemma append_record_ok X t0 b kvd ids recs ch m key value n :
  loading X t0 b kvd ids recs ch m (S (S (length value)) + (length (levels b) + S (S n))) ->
  blen key <= K -> blen value <= ISIZE_MAX -> OVERFLOW_ROOT_HEADER_LEN + ENVELOPE_OVERHEAD < ps ->
  (forall k, k ∈ recs.*1 -> k <ₖ key) ->
  exists b' kvd' ids' v ch', append_record key value b = (Ok tt, b') /\
    loading X t0 b' kvd' ids' (recs ++ [(key, v)]) ch' (<[key := value]> m) n.
Proof.
  intros Hld HK HV Hov Hlt. pose proof Hld as [Hrec Hs Hg Hlast Hz Hcap Hl Hc Ht Hu Hfit Hleft Hpage Hfst Ha Hh Hext].
  assert (quiet (tree b)) as (Q1 & Q2 & Q3 & Q4 & Q5) by apply Hext.
  destruct (leaf_value_alloc K (tree b) _ P _ value ltac:(unfold page_size_ok; by rewrite Hz) ltac:(by rewrite Hz) Ha HV
    ltac:(by rewrite Hz)) as (v & st & cids & t1 & Hlv & Hsc & Ha1 & Hst & Hwf & Henc & Hpg).
  pose proof Hsc as (E1 & E2 & E3 & E4 & E5 & E6 & E7 & _). set (t2 := with_pages (fun _ => st) t1) in *.
  assert (extends (ids ++ option_list (leaf_page_id b) ++ all_pages ch ++ X) P (tree b) t2) as He.
  { split; [done|]. split; [|done]. unfold quiet. simpl. by rewrite E2, E4, E5, E6, E7. }
  assert (loading (cids ++ X) t2 (with_tree t2 b) kvd ids recs ch m (length (levels b) + S (S n))) as Hld2.
  { eapply loading_frame; [exact Hld|eapply extends_sub; [|exact He]; intros q Hq; mem in Hq|].
    eapply alloc_ok_same; [|eapply alloc_ok_perm; [|done|exact Ha1]]; [done|]. solve_Permutation. }
  assert (good_record (key, v)) as Hgr by (split; [done|]; split; [done|]; simpl; by rewrite <-Hz).
  assert (keys_sorted (leaf_records b ++ [(key, v)]).*1) as Hsk.
  { rewrite fmap_app. apply sorted_app. rewrite Hrec, fmap_app in Hs. apply sorted_app in Hs as (_ & ? & _).
    split; [done|]. split; [repeat constructor|]. intros x y Hx ->%list_elem_of_singleton. apply Hlt.
    rewrite Hrec, fmap_app. mem. }
  assert (keys_sorted (leaf_records b).*1) as Hsl by (rewrite fmap_app in Hsk; by apply sorted_app in Hsk as (? & _)).
  pose proof (costs_bound (leaf_records b) Hsl ltac:(rewrite Hrec, Forall_app in Hg; tauto) Hfit) as Hcb.
  assert (encoded_size v <= 2 ^ 40 /\ blen key <= U16_MAX) as [Hev Hku].
  { pose proof Hroom as ([HK0 Hsr] & Hr2 & _). assert (cap <= U16_MAX) by (unfold body_capacity; lia).
    rewrite Hz in Henc. unfold U16_MAX, HEADER_LEN in *. split; nia. }
  destruct (make_room_ok (cids ++ X) t2 (with_tree t2 b) kvd ids recs ch m key v n Hld2 Hgr) as (b' & kvd' & ids' & Hmr & Hld3 & Hfit3).
  exists (with_leaf (leaf_records b' ++ [(key, v)]) (leaf_used b' + cost_of (key, v)) (with_last_key key b')), kvd', ids', v, (<[key := cids]> ch).
  split.
  - unfold append_record. unfold lbind at 1. rewrite (stored_value_ok _ _ _ _ Hz (proj2 Hcap) Hlv). unfold lbind at 1, lgets at 1. fold t2.
    rewrite record_cost_ok by done. unfold lbind at 1, lgets at 1. rewrite projected_exact by done.
    unfold lbind at 1, lgets at 1. cbn [body_cap leaf_records with_tree] in *. rewrite (proj1 Hcap). unfold lbind at 1. rewrite Hmr.
    unfold lbind, lgets, lmodify. rewrite (append_used_ok _ _ _ _ _ _ _ _ _ _ _ Hld3 Hku Hev). done.
  - eapply loading_append; try done. eapply extends_trans; [|exact Hext|exact He]. intros q Hq. mem in Hq.
Qed.
(** ** Batches *)

Definition pair_ok (r : bytes * bytes) : Prop := blen r.1 <= K /\ blen r.2 <= ISIZE_MAX.

(** Pages a batch may take when [N] records are loaded in all. *)
Definition batch_budget (N : nat) (batch : list (bytes * bytes)) : nat :=
  sum_list_with (fun r => length r.2 + N + 4)%nat batch.

Lemma loading_levels X t0 b kvd ids recs ch m n :
  loading X t0 b kvd ids recs ch m n -> (length (levels b) <= length recs)%nat.
Proof.
  intros [-> _ _ _ _ _ Hl Hc [_ Ht] _ _ _ _ _ _ _ _]. rewrite length_app.
  pose proof (counts_length (levels b) Hc) as Hcl. ospecialize (Hcl _); [|lia].
  eapply Forall_impl; [exact (lvls_ok _ _ _ _ _ _ _ Hl)|]. by intros x (_ & _ & ?).
Qed.
Lemma loading_le X t0 b kvd ids recs ch m n n' :
  (n' <= n)%nat -> loading X t0 b kvd ids recs ch m n -> loading X t0 b kvd ids recs ch m n'.
Proof. intros Hle [? ? ? ? ? ? ? ? ? ? ? ? ? ? ? ? ?]. constructor; try done. by eapply alloc_ok_le. Qed.

Lemma append_records_ok X t0 N n : OVERFLOW_ROOT_HEADER_LEN + ENVELOPE_OVERHEAD < ps ->
  forall batch b pushed kvd ids recs ch,
  loading X t0 b kvd ids recs ch (rec_map pushed) (batch_budget N batch + n) -> recs.*1 = pushed.*1 ->
  keys_sorted (pushed ++ batch).*1 -> Forall pair_ok batch -> (length (pushed ++ batch) <= N)%nat ->
  exists b' kvd' ids' recs' ch', append_records batch b = (Ok tt, b') /\
    loading X t0 b' kvd' ids' recs' ch' (rec_map (pushed ++ batch)) n /\ recs'.*1 = (pushed ++ batch).*1.
Proof.
  intros Hov. induction batch as [|[key value] batch IH]; intros b pushed kvd ids recs ch Hld Hk Hs Hf HN.
  { exists b, kvd, ids, recs, ch. rewrite app_nil_r. done. }
  apply Forall_cons in Hf as [[Hkl Hvl] Hf]. pose proof (loading_levels _ _ _ _ _ _ _ _ _ Hld) as Hlev.
  assert (length recs = length pushed) as Hlen by (by rewrite <-(length_fmap fst recs), Hk, length_fmap).
  rewrite length_app in HN. simpl in HN.
  assert (forall k, k ∈ pushed.*1 -> k <ₖ key) as Hlt.
  { intros k Hin. rewrite fmap_app in Hs. apply sorted_app in Hs as (_ & _ & H). apply H; [done|]. by left. }
  destruct (append_record_ok X t0 b kvd ids recs ch (rec_map pushed) key value (batch_budget N batch + n))
    as (b1 & kvd1 & ids1 & v & ch1 & Hap & Hld1); [|done|done|done|by rewrite Hk|].
  { eapply loading_le; [|exact Hld]. simpl. lia. }
  destruct (IH b1 (pushed ++ [(key, value)]) kvd1 ids1 (recs ++ [(key, v)]) ch1) as (b2 & kvd2 & ids2 & recs2 & ch2 & Hrun & Hld2 & Hk2).
  - rewrite rec_map_middle by (apply rec_map_lt; by apply Forall_forall). by rewrite app_nil_r.
  - by rewrite !fmap_app, Hk.
  - by rewrite <-app_assoc.
  - done.
  - rewrite !length_app. simpl. lia.
  - exists b2, kvd2, ids2, recs2, ch2. rewrite <-app_assoc in Hk2, Hld2. split; [|done].
    cbn [append_records]. unfold lbind. by rewrite Hap.
Qed.

Lemma validate_order_ok prior batch :
  keys_sorted (option_list prior ++ batch.*1) -> validate_order prior batch = Ok tt.
Proof.
  revert prior. induction batch as [|[k v] batch IH]; intros prior Hs; [done|]. cbn [validate_order].
  rewrite fmap_cons in Hs. cbn [fst] in Hs. destruct prior as [l|]; cbn [option_list app] in Hs.
  - apply StronglySorted_inv in Hs as [Hs Hl]. apply Forall_cons in Hl as [Hl _].
    destruct (bytes_leb k l) eqn:Hle; [|by apply IH]. apply bytes_leb_le in Hle.
    exfalso. by apply key_nle_lt in Hl.
  - by apply IH.
Qed.
Lemma sorted_last_app {V} (l1 l2 : list (bytes * V)) :
  keys_sorted (l1 ++ l2).*1 -> keys_sorted (option_list (last l1.*1) ++ l2.*1).
Proof.
  destruct l1 as [|r l1 _] using rev_ind; [done|]. rewrite fmap_last, last_snoc. cbn [option_fmap option_map fmap option_list].
  rewrite <-app_assoc, fmap_app. intros Hs. by apply sorted_app in Hs as (_ & ? & _).
Qed.

Lemma push_batch_ok X t0 N n batch b pushed kvd ids recs ch :
  OVERFLOW_ROOT_HEADER_LEN + ENVELOPE_OVERHEAD < ps ->
  loading X t0 b kvd ids recs ch (rec_map pushed) (batch_budget N batch + n) -> recs.*1 = pushed.*1 ->
  keys_sorted (pushed ++ batch).*1 -> Forall pair_ok batch -> (length (pushed ++ batch) <= N)%nat ->
  exists b' kvd' ids' recs' ch', push_batch batch b = (Ok tt, b') /\
    loading X t0 b' kvd' ids' recs' ch' (rec_map (pushed ++ batch)) n /\ recs'.*1 = (pushed ++ batch).*1.
Proof.
  intros Hov Hld Hk Hs Hf HN. assert (prevalidate b batch = Ok tt) as Hv.
  { destruct Hld as [_ _ _ Hlast Hz _ _ _ _ _ _ _ _ _ _ _ _]. unfold prevalidate.
    rewrite validate_order_ok by (rewrite Hlast, Hk; by apply sorted_last_app). clear -Hf Hz Hps Hroom.
    induction Hf as [|r batch [Hk Hv] _ IH]; [done|]. cbn [fold_res].
    rewrite (validate_ok K); [done| | |done|done]; [unfold page_size_ok|]; by rewrite Hz. }
  unfold push_batch, lbind at 1, lgets. rewrite Hv. by eapply append_records_ok.
Qed.

Lemma batch_budget_app N b1 b2 : batch_budget N (b1 ++ b2) = (batch_budget N b1 + batch_budget N b2)%nat.
Proof. unfold batch_budget. induction b1 as [|r b1 IH]; simpl; [done|]. rewrite IH. lia. Qed.

(** The stream is cut into batches, and all of it is pushed. *)
Lemma load_stream_ok X t0 N n : OVERFLOW_ROOT_HEADER_LEN + ENVELOPE_OVERHEAD < ps ->
  forall stream batch batch_bytes b pushed kvd ids recs ch,
  loading X t0 b kvd ids recs ch (rec_map pushed) (batch_budget N (batch ++ stream) + n) -> recs.*1 = pushed.*1 ->
  keys_sorted (pushed ++ batch ++ stream).*1 -> Forall pair_ok (batch ++ stream) ->
  (length (pushed ++ batch ++ stream) <= N)%nat -> (batch = [] -> batch_bytes = 0) ->
  exists b' kvd' ids' recs' ch', load_stream (Ok <$> stream) batch batch_bytes b = (Ok tt, b') /\
    loading X t0 b' kvd' ids' recs' ch' (rec_map (pushed ++ batch ++ stream)) n /\
    recs'.*1 = (pushed ++ batch ++ stream).*1.
Proof.
  intros Hov. induction stream as [|[key value] stream IH];
    intros batch batch_bytes b pushed kvd ids recs ch Hld Hk Hs Hf HN H0.
  { rewrite app_nil_r in *. cbn [load_stream fmap list_fmap]. destruct batch as [|r batch].
    - rewrite bool_decide_eq_true_2 by done. exists b, kvd, ids, recs, ch. rewrite app_nil_r. done.
    - rewrite bool_decide_eq_false_2 by done. by apply (push_batch_ok X t0 N n (r :: batch) b pushed kvd ids recs ch). }
  rewrite fmap_cons. cbn [load_stream]. unfold lbind at 1, lgets at 1. unfold lbind at 1, lgets at 1.
  assert (pair_ok (key, value)) as [HK HV] by (apply Forall_app in Hf as [_ Hf]; by apply Forall_cons in Hf as [? _]).
  assert (K <= U16_MAX) as HKu.
  { destruct Hroom as ([HK0 Hsr] & _). assert (cap <= U16_MAX) by (unfold body_capacity; lia). unfold HEADER_LEN in *. nia. }
  cbn [fst snd] in HK, HV. unfold ISIZE_MAX, U16_MAX in *.
  rewrite (checked_add_ok (blen key)) by (unfold USIZE_MAX, U64_MAX; lia). cbn [ok_or].
  set (rb := blen key + blen value). destruct (negb (bool_decide (batch = [])) && _) eqn:Hfull.
  - rewrite batch_budget_app, <-Nat.add_assoc in Hld. rewrite app_assoc in Hs, HN. apply Forall_app in Hf as [Hf1 Hf2].
    destruct (push_batch_ok X t0 N (batch_budget N ((key, value) :: stream) + n) batch b pushed kvd ids recs ch)
      as (b1 & kvd1 & ids1 & recs1 & ch1 & Hpb & Hld1 & Hk1); try done.
    { rewrite fmap_app in Hs. by apply sorted_app in Hs as (? & _). }
    { rewrite length_app in HN. lia. }
    unfold lbind. rewrite Hpb. rewrite app_assoc.
    by apply (IH [(key, value)] rb b1 (pushed ++ batch) kvd1 ids1 recs1 ch1).
  - assert (checked_add batch_bytes rb = Some (batch_bytes + rb)) as Hadd.
    { destruct batch as [|r batch].
      - rewrite (H0 eq_refl). apply checked_add_ok. unfold rb, USIZE_MAX, U64_MAX. lia.
      - rewrite bool_decide_eq_false_2 in Hfull by done. cbn [negb andb] in Hfull. apply orb_false_iff in Hfull as [_ Hex].
        unfold checked_add in *. by destruct (_ <=? _). }
    unfold lbind at 1, lgets at 1. rewrite Hadd. cbn [ok_or]. change ((key, value) :: stream) with ([(key, value)] ++ stream) in *.
    rewrite (app_assoc batch) in *. apply (IH (batch ++ [(key, value)]) _ b pushed kvd ids recs ch); try done.
    intros Hnil. by destruct batch.
Qed.

(** ** Finishing *)

(** A finished subtree is the tree of a session. *)
Lemma bsub_session t h root k recs ids ch X n :
  quiet t -> page_size t = ps -> bsub K t h root k recs ids -> Forall good_record recs ->
  alloc_ok n t (ids ++ all_pages ch ++ X) P -> session K (with_root root t) h recs ids (all_pages ch ++ X) P n.
Proof.
  intros (Hd & Hf & Hsch & Hpa & _) Hz [_ Hb] Hg Ha. constructor; cbn [page_size with_root root_page_id]; rewrite ?Hz; try done.
  - unfold page_size_ok. simpl. by rewrite Hz.
  - apply (rep_frame K t); [done| |apply Hb; by apply Forall_forall]. done.
  - eapply Forall_impl; [exact Hg|]. by intros r (_ & _ & ?).
  - unfold caches_wf, caches_in. simpl. rewrite Hd, Hf, Hsch, Hpa. split_and!.
    + intros p [[? ?]|[? ?]]; done.
    + by intros p [? ?].
    + by rewrite map_to_list_empty.
    + by rewrite !dom_empty_L.
  - intros leaf path. simpl. by rewrite Hpa.
Qed.

Lemma alloc_ok_forget n t us us' : alloc_ok n t (us ++ us') P -> alloc_ok n t us' P.
Proof.
  intros (Hnd & Hb & Hn & Hn2 & HP). split; [|split; [|done]].
  - rewrite NoDup_app in *. destruct Hnd as (? & Hd & Hnd). split; [done|].
    apply NoDup_app in Hnd as (_ & _ & ?). split; [|done]. intros x Hx Hin. apply (Hd x Hx). mem.
  - intros p Hp. apply Hb. mem in Hp.
Qed.

(** With no record left to write. *)
Lemma finish_closed X t0 b ids recs ch m N n :
  loading X t0 b recs ids recs ch m (N * N + n) -> (length recs <= N)%nat ->
  exists b' H, (if leaf_count b =? 0 then lret tt else
     if leaf_count b =? 1 then lmodify (fun b => with_tree (with_root (first_leaf_page_id b) (tree b)) b) else
     finish_levels (Z.to_nat (leaf_count b)) 0) b = (Ok tt, b') /\
    tree_map K (tree b') H m X P n /\ page_size (tree b') = ps /\ untouched t0 (tree b') P X.
Proof.
  intros Hld HN. pose proof (loading_levels _ _ _ _ _ _ _ _ _ Hld) as Hlev.
  destruct Hld as [Hrec Hs Hg Hlast Hz [Hcap Hthr] Hl Hc [Ht Htn] Hu Hfit Hleft Hpage Hfst Ha Hh Hext].
  assert (quiet (tree b)) as Hq by apply Hext. pose proof (lvls_ok _ _ _ _ _ _ _ Hl) as Hlo.
  assert (alloc_ok (N * N + n) (tree b) (ids ++ all_pages ch ++ X) P) as Ha'.
  { apply (alloc_ok_forget _ _ (option_list (leaf_page_id b))). eapply alloc_ok_perm; [|done|exact Ha]. solve_Permutation. }
  destruct (levels b) as [|a ls] eqn:Hls.
  - assert (leaf_count b = 0) as -> by done. exists b, 0%nat. split; [done|]. split; [|split; [done|]].
    + destruct Hl as [-> ->]. left. destruct Hq as (Hd & Hf & Hsch & Hpa & Hr). split; [done|]. split.
      { apply map_eq. intros q. destruct (Hh q) as [_ ->]. by rewrite lookup_empty. }
      split; [unfold page_size_ok; by rewrite Hz|]. split; [by rewrite Hz|]. split; [|done].
      eapply alloc_ok_le; [|apply (alloc_ok_forget _ _ (all_pages ch)); exact Ha']. lia.
    + intros p Hp. by apply Hext.
  - pose proof (total_pos _ _ Hc Hlo ltac:(done)) as Hpos. rewrite <-Ht in Hpos. rewrite (proj2 (Z.eqb_neq _ _)) by lia.
    destruct (Z.eqb_spec (leaf_count b) 1) as [H1|H1].
    + destruct (lvls_sole _ _ _ _ _ _ _ _ Hl Hc) as (c & k & _ & Hch & _ & Hb); [rewrite <-H1, Ht; done|].
      destruct (Hfst H1) as [k' Hk']. simpl in Hk'. rewrite Hch in Hk'. injection Hk' as -> <-.
      eexists _, 0%nat. split; [reflexivity|]. split; [right; exists recs, ids, ch; split; [|exact Hh]|split; [done|]].
      * eapply bsub_session; try done. eapply alloc_ok_le; [|exact Ha']. lia.
      * intros p Hp. by apply Hext.
    + destruct (finish_levels_ok K ps P n Hps Hroom (Z.to_nat (leaf_count b)) [] (a :: ls) b recs ids (all_pages ch ++ X))
        as (b' & t' & h & root & k & ids' & Hfin & Hb' & Hbs & Ha2 & He); try done.
      { eapply Forall_impl; [exact Hg|]. by intros r (? & _). }
      { rewrite Ht. lia. }
      { eapply alloc_ok_le; [|exact Ha']. nia. }
      exists b', h. split; [exact Hfin|]. rewrite Hb'. pose proof He as (Hz' & Hq' & Hpg).
      split; [right; exists recs, ids', ch; split; [by eapply bsub_session; [| | | |]; rewrite ?Hz'|]|split; [simpl; by rewrite Hz'|]].
      * eapply holds_frame; [|exact Hh]. intros q Hq2. apply He. right. mem.
      * intros p Hp. destruct Hext as (_ & _ & Hpg0). simpl. rewrite Hpg; [by apply Hpg0|]. destruct Hp; [by left|right; mem].
Qed.

Lemma finish_ok X t0 b kvd ids recs ch m N n :
  loading X t0 b kvd ids recs ch m (N * N + N + 2 + n) -> (length recs <= N)%nat ->
  exists b' H, finish b = (Ok tt, b') /\
    tree_map K (tree b') H m X P n /\ page_size (tree b') = ps /\ untouched t0 (tree b') P X.
Proof.
  intros Hld HN. pose proof (loading_levels _ _ _ _ _ _ _ _ _ Hld) as Hlev.
  unfold finish. unfold lbind at 1, lgets at 1. destruct (bool_decide (leaf_records b = [])) eqn:Hnil.
  - apply bool_decide_eq_true_1 in Hnil. assert (recs = kvd) as -> by (destruct Hld as [-> _ _ _ _ _ _ _ _ _ _ _ _ _ _ _ _]; by rewrite Hnil, app_nil_r).
    apply (finish_closed X t0 b ids kvd ch m N n); [|done]. eapply loading_le; [|exact Hld]. lia.
  - apply bool_decide_eq_false_1 in Hnil.
    destruct (close_leaf_ok K ps P X t0 Hps Hroom b false kvd ids recs ch m (N * N + n)) as (b1 & ids1 & Hcl & Hld1 & _); [|done|].
    { eapply loading_le; [|exact Hld]. lia. }
    unfold lbind at 1. rewrite Hcl. by apply (finish_closed X t0 b1 ids1 recs ch m N n).
Qed.
End push_record.

(** Pages a load may take. *)
Definition load_budget (kvs : list (bytes * bytes)) : nat :=
  let N := length kvs in (batch_budget N kvs + (N * N + N + 2))%nat.

Lemma bulk_load_map (K : Z) (kvs : list (bytes * bytes)) (t : BTree) (X : list Z) (P : gset Z) (n H : nat) :
  tree_map K t H ∅ X P (load_budget kvs + n) -> root_page_id t = 0 ->
  keys_sorted kvs.*1 -> Forall (fun r => blen r.1 <= K /\ blen r.2 <= ISIZE_MAX) kvs ->
  OVERFLOW_ROOT_HEADER_LEN + ENVELOPE_OVERHEAD < page_size t ->
  exists t' H', bulk_load_sorted_unique (Ok <$> kvs) t = (Ok tt, t') /\
    tree_map K t' H' (rec_map kvs) X P n /\ untouched t t' P X.
Proof.
  intros Htm Hr Hs Hf Hov.
  assert (page_size_ok t /\ room K (page_size t) /\ alloc_ok (load_budget kvs + n) t X P /\ quiet t) as (Hps & Hroom & Ha & Hq).
  { destruct Htm as [(_ & _ & ? & ? & ? & ? & ? & ? & ?)|(kv & ids & ch & Hse & _)]; [done|]. by apply session_root in Hse. }
  set (N := length kvs). unfold load_budget in Ha. fold N in Ha. rewrite <-Nat.add_assoc in Ha.
  destruct (load_stream_ok K (page_size t) P Hps Hroom X t N (N * N + N + 2 + n) Hov kvs [] 0 (loader_new t) [] [] [] [] ∅)
    as (b1 & kvd & ids & recs & ch & Hls & Hld & Hk); try done.
  { by apply loading_new. }
  destruct (finish_ok K (page_size t) P Hps Hroom X t b1 kvd ids recs ch (rec_map kvs) N n) as (b' & H' & Hfin & Htm' & Hz' & Hun).
  { done. }
  { rewrite <-(length_fmap fst recs), Hk, length_fmap. done. }
  exists (tree b'), H'. unfold bulk_load_sorted_unique, bulk_loader. rewrite Hr. cbn [Z.eqb negb].
  unfold lbind. rewrite Hls, Hfin. done.
Qed.

(** C7: bulk load. Loading any records with strictly increasing keys into an empty
    tree succeeds, whatever their values, and leaves a tree that holds exactly the
    map of the records and is a sound tree for every later operation; pages of
    others and protected pages are not written. The keys are of at most [K] bytes,
    and [tree_map] has [room K] of the page size: up to 143 bytes with pages of
    4 KiB. The premise leaves page numbers enough for the load. *)
Theorem bulk_load_builds_map (K : Z) (kvs : list (bytes * bytes)) (t : BTree) (X : list Z) (P : gset Z) (n H : nat) :
  tree_map K t H ∅ X P (load_budget kvs + n) -> root_page_id t = 0 ->
  keys_sorted kvs.*1 -> Forall (fun r => blen r.1 <= K /\ blen r.2 <= ISIZE_MAX) kvs ->
  OVERFLOW_ROOT_HEADER_LEN + ENVELOPE_OVERHEAD < page_size t ->
  exists t' H', bulk_load_sorted_unique (Ok <$> kvs) t = (Ok tt, t') /\
    tree_map K t' H' (rec_map kvs) X P n /\ untouched t t' P X /\
    (forall key, get t' key = Ok (rec_map kvs !! key)).
Proof.
  intros Htm Hr Hs Hf Hov. destruct (bulk_load_map K kvs t X P n H Htm Hr Hs Hf Hov) as (t' & H' & Hrun & Htm' & Hu).
  exists t', H'. split; [done|]. split; [done|]. split; [done|]. intros key. by eapply get_map.
Qed.

(** Records for several leaves, one of them with its value in an overflow chain. *)
Definition sample_records : list (bytes * bytes) :=
  [([Byte.x61], zeros 100); ([Byte.x62], zeros 100); ([Byte.x63], zeros 300); ([Byte.x64], zeros 110);
   ([Byte.x65], zeros 110); ([Byte.x66], zeros 110); ([Byte.x67], zeros 110); ([Byte.x68], zeros 110)].

Lemma bulk_load_builds_map_witness :
  exists t' H', bulk_load_sorted_unique (Ok <$> sample_records) empty_session = (Ok tt, t') /\
    tree_map 16 t' H' (rec_map sample_records) [] ∅ 0 /\ get t' [Byte.x63] = Ok (Some (zeros 300)) /\
    size (bt_pages t') = 5%nat.
Proof.
  destruct (bulk_load_builds_map 16 sample_records empty_session [] ∅ 0 0) as (t' & H' & Hrun & Htm & _ & Hget).
  - apply empty_session_map. vm_compute. discriminate.
  - reflexivity.
  - repeat constructor.
  - repeat constructor; vm_compute; discriminate.
  - vm_compute. reflexivity.
  - exists t', H'. split; [exact Hrun|]. split; [exact Htm|]. split; [rewrite (Hget [Byte.x63]); vm_compute; reflexivity|].
    assert (t' = (bulk_load_sorted_unique (Ok <$> sample_records) empty_session).2) as -> by (by rewrite Hrun).
    vm_compute. reflexivity.
Defined.

(** ** A batch out of order *)

Lemma validate_order_sorted prior batch :
  validate_order prior batch = Ok tt \/ validate_order prior batch = Err BulkLoadNotMonotonic.
Proof.
  revert prior. induction batch as [|[k v] batch IH]; intros prior; simpl; [by left|].
  destruct (match prior with Some l => bytes_leb k l | None => false end); [by right|apply IH].
Qed.
Lemma validate_order_iff prior batch :
  validate_order prior batch = Ok tt -> keys_sorted (option_list prior ++ batch.*1).
Proof.
  revert prior. induction batch as [|[k v] batch IH]; intros prior; cbn [validate_order].
  - intros _. rewrite app_nil_r. destruct prior; repeat constructor.
  - rewrite fmap_cons. cbn [fst]. destruct prior as [l|]; [|intros H; by apply IH in H].
    destruct (bytes_leb k l) eqn:Hle; [done|]. intros H. apply IH in H. cbn [option_list app] in *.
    assert (l <ₖ k) as Hlt by (apply key_nle_lt; rewrite <-bytes_leb_le; by rewrite Hle).
    constructor; [done|]. apply Forall_cons. split; [done|].
    apply StronglySorted_inv in H as [_ H]. eapply Forall_impl; [exact H|]. intros x Hx. by eapply key_lt_trans.
Qed.

Lemma validate_no_panic t k v : validate_insert_record_fits t k v <> Panic.
Proof.
  unfold validate_insert_record_fits, stored_leaf_value_encoded_size, ok_or.
  repeat case_match; simplify_eq/=; done.
Qed.

(** C25: a batch is checked as a whole. If its keys do not continue those already
    pushed in strictly increasing order, or a record of it fits no leaf, the batch
    is refused and the loader is left as it was: no page is allocated or written
    and no record of the batch is kept. *)
Theorem bad_batch_changes_nothing (b : BulkLoader) (batch : list (bytes * bytes)) :
  (~ keys_sorted (option_list (BulkLoad.last_key b) ++ batch.*1) ->
   push_batch batch b = (Err BulkLoadNotMonotonic, b)) /\
  (forall r e, r ∈ batch -> validate_insert_record_fits (tree b) r.1 r.2 = Err e ->
   exists e', push_batch batch b = (Err e', b)).
Proof.
  split.
  - intros Hns. unfold push_batch, lbind, lgets, prevalidate.
    destruct (validate_order_sorted (BulkLoad.last_key b) batch) as [H|H]; [by apply validate_order_iff in H|]. by rewrite H.
  - intros r e Hr He. unfold push_batch, lbind, lgets, prevalidate.
    destruct (validate_order_sorted (BulkLoad.last_key b) batch) as [H|H]; rewrite H; [|by eexists].
    assert (exists e', fold_res (fun _ r => validate_insert_record_fits (tree b) r.1 r.2) tt batch = Err e') as [e' ->]; [|by eexists].
    clear H. induction batch as [|x batch IH]; [by apply elem_of_nil in Hr|].
    cbn [fold_res]. destruct (validate_insert_record_fits (tree b) x.1 x.2) as [[]|e'|] eqn:Hx; [|by eexists|].
    + apply elem_of_cons in Hr as [->|Hr]; [congruence|by apply IH].
    + by apply validate_no_panic in Hx.
Qed.

Lemma bad_batch_changes_nothing_witness :
  push_batch [([Byte.x61], []); ([Byte.x63], []); ([Byte.x62], [])] (loader_new empty_session)
    = (Err BulkLoadNotMonotonic, loader_new empty_session) /\
  exists e, push_batch [([Byte.x61], []); (zeros 460, [])] (loader_new empty_session) = (Err e, loader_new empty_session).
Proof.
  split.
  - apply bad_batch_changes_nothing. intros Hs. apply StronglySorted_inv in Hs as [Hs _].
    apply StronglySorted_inv in Hs as [_ Hs]. apply Forall_cons in Hs as [Hs _]. vm_compute in Hs. discriminate.
  - apply (proj2 (bad_batch_changes_nothing (loader_new empty_session) _) (zeros 460, []) PayloadTooLarge).
    + apply list_elem_of_further, list_elem_of_here.
    + vm_compute. reflexivity.
Defined.

(** ** Links between leaves *)

Lemma sample_records_ok : keys_sorted sample_records.*1 /\ Forall (fun r => blen r.1 <= 16 /\ blen r.2 <= ISIZE_MAX) sample_records.
Proof. split; repeat constructor; vm_compute; discriminate. Qed.

(** The height of a tree is bounded by its pages. *)
Lemma tree_map_height K t H m X P n : tree_map K t H m X P n -> root_page_id t <> 0 -> (H <= nav_fuel t)%nat.
Proof.
  intros [(Hr & _)|(kvs & ids & ch & Hse & _)] Hne; [done|].
  destruct (session_nodup _ _ _ _ _ _ _ _ Hse) as [Hnd _]. eapply rep_fuel; [apply Hse|done].
Qed.

(** C39: a tree that answers every read can make [delete_range] report corruption.
    There are records with increasing keys, loaded in bulk into an empty session, and
    one put after the load, such that once the session is flushed its tree represents
    the map of the records with the put, [get] answers every key from that map, and
    [delete_range] over all keys fails with [leaf_sibling_mismatch]: the leaf moved by
    the put leaves its left neighbour linked to its old page. *)
Theorem bulk_links_go_stale :
  exists kvs key value t1 t2 t3 H m a b c, keys_sorted kvs.*1 /\
    bulk_load_sorted_unique (Ok <$> kvs) empty_session = (Ok tt, t1) /\ put key value t1 = (Ok tt, t2) /\
    flush_dirty_leaves map_to_list t2 = (Ok tt, t3) /\ m = <[key := value]> (rec_map kvs) /\
    tree_map 16 (drain_freed t3).2 H m [] ∅ 0 /\
    (forall q, get (drain_freed t3).2 q = Ok (m !! q)) /\
    (delete_range 10 [] [Byte.xff] (drain_freed t3).2).1 = Err (leaf_sibling_mismatch a b c).
Proof.
  destruct sample_records_ok as [Hs Hf].
  destruct (bulk_load_map 16 sample_records empty_session [] ∅ 2000 0) as (t1 & H1 & Hb & Htm1 & _);
    [apply empty_session_map; vm_compute; discriminate|reflexivity|exact Hs|exact Hf|vm_compute; reflexivity|].
  assert (t1 = (bulk_load_sorted_unique (Ok <$> sample_records) empty_session).2) as Ht1 by (by rewrite Hb).
  assert (H1 <= 100)%nat as HH.
  { etrans; [eapply tree_map_height; [exact Htm1|]|]; rewrite Ht1; [vm_compute; discriminate|]. apply Nat.leb_le. vm_compute. reflexivity. }
  destruct (put_map 16 t1 H1 (rec_map sample_records) [] ∅ 1000 [Byte.x68] (zeros 20)) as (t2 & H2 & Hp & Htm2 & _).
  { eapply tree_map_le; [|exact Htm1]. change (length (zeros 20)) with 20%nat. lia. }
  { vm_compute. discriminate. } { vm_compute. discriminate. } { rewrite Ht1. vm_compute. reflexivity. }
  assert (t2 = (put [Byte.x68] (zeros 20) t1).2) as Ht2 by (by rewrite Hp). rewrite Ht1 in Ht2.
  destruct (flush_map 16 map_to_list t2 H2 (<[ [Byte.x68] := zeros 20 ]> (rec_map sample_records)) [] ∅ 0) as (t3 & Hfl & Hpub).
  { done. } { eapply tree_map_le; [|exact Htm2]. rewrite Ht2. apply Nat.leb_le. vm_compute. reflexivity. }
  assert (t3 = (flush_dirty_leaves map_to_list t2).2) as Ht3 by (by rewrite Hfl). rewrite Ht2 in Ht3.
  destruct Hpub as (_ & _ & Htm3 & _).
  exists sample_records, [Byte.x68], (zeros 20), t1, t2, t3, H2. eexists _, 6, 7, (Some 9).
  split; [exact Hs|]. split; [exact Hb|]. split; [exact Hp|]. split; [exact Hfl|]. split; [reflexivity|]. split; [exact Htm3|].
  split; [intros q; exact (get_map 16 _ H2 _ [] ∅ 0 q Htm3)|]. rewrite Ht3. vm_compute. reflexivity.
Qed.
