(* ===== verification/FreeList.v ===== *)
(** * FreeList: the durable chain of free pages

    [src/src/pager/freelist/]: the layout of one chain page, writing a chain
    prefix onto a retained tail, choosing the pages that host the chain, and the
    readers over the tortoise-and-hare cursor. The debug assertions of the
    source are kept: a failed one is [Panic]. *)

From S2P Require Import Prelude Errors PageFormat Store.
From Stdlib Require Import ZArith Lia.
From stdpp Require Import base list strings gmap.

Local Open Scope Z_scope.
Local Open Scope pagedb_scope.

(** ** [layout.rs] *)

(** A [(commit_id, page_id)] pair. *)
Abbreviation entry := (Z * Z)%type.

Definition ENTRY_LEN : Z := 16.
Definition PAGE_HEADER_LEN : Z := 36.
Definition CHAIN_METADATA_CID : Z := 0.

Definition chain_capacity (page_size : Z) : Z :=
  (body_capacity page_size - PAGE_HEADER_LEN) / ENTRY_LEN.

Record ChainPageHeader := mkChainPageHeader {
  cp_next : Z;
  cp_count : Z;
  suffix_entries : Z;
  suffix_max_cid : Z;
  suffix_min_cid : Z;
}.

Definition decode_chain_header (body : bytes) : result ChainPageHeader :=
  if blen body <? PAGE_HEADER_LEN
  then Err (catalog_row_invalid "freelist chain page shorter than its header") else
  let! next_b := slice body 0 8 in
  let next := of_le next_b in
  let! cnt_b := slice body 8 12 in
  let count := of_le cnt_b in
  if (blen body - PAGE_HEADER_LEN) / ENTRY_LEN <? count
  then Err (catalog_row_invalid "freelist chain page entry count exceeds capacity") else
  let! suffix_b := slice body 12 20 in
  let suffix_entries := of_le suffix_b in
  let! max_cid_b := slice body 20 28 in
  let suffix_max_cid := of_le max_cid_b in
  let! min_cid_b := slice body 28 36 in
  let suffix_min_cid := of_le min_cid_b in
  if suffix_entries <? count
  then Err (catalog_row_invalid
              "freelist chain page suffix total is below its own entry count") else
  Ok (mkChainPageHeader next count suffix_entries suffix_max_cid suffix_min_cid).

Definition encode_chain_header (body : bytes) (header : ChainPageHeader) : result bytes :=
  let! count := try_u32 (cp_count header) "free-list chunk_len overflow" in
  let! body := copy_at body 0 (le64 (cp_next header)) in
  let! body := copy_at body 8 (le32 count) in
  let! body := copy_at body 12 (le64 (suffix_entries header)) in
  let! body := copy_at body 20 (le64 (suffix_max_cid header)) in
  copy_at body 28 (le64 (suffix_min_cid header)).

Definition decode_entry (body : bytes) (index : Z) : result entry :=
  let offset := PAGE_HEADER_LEN + index * ENTRY_LEN in
  if blen body <? offset + ENTRY_LEN
  then Err (catalog_row_invalid "freelist chain page entry runs past the page body") else
  let! slot := slice body offset (offset + ENTRY_LEN) in
  let! cid_b := slice slot 0 8 in
  let! pid_b := slice slot 8 16 in
  Ok (of_le cid_b, of_le pid_b).

(** ** [read.rs]: summaries, tails and the cursor *)

Record ChainSummary := mkChainSummary {
  entries_total : Z;
  max_cid : Z;
  min_cid : Z;
}.

Definition default_summary : ChainSummary := mkChainSummary 0 0 U64_MAX.

Record ChainTail := mkChainTail {
  tail_head : Z;
  tail_summary : ChainSummary;
}.

Definition EMPTY : ChainTail := mkChainTail 0 default_summary.

Definition header_summary (header : ChainPageHeader) : ChainSummary :=
  mkChainSummary (suffix_entries header) (suffix_max_cid header) (suffix_min_cid header).

Definition read_chain_summary (st : Store) (head : Z) : result ChainSummary :=
  if head =? 0 then Ok default_summary else
  let! body := read_main_page st head PageKind.Free in
  let! header := decode_chain_header body in
  Ok (header_summary header).

Record ChainWalk := mkChainWalk {
  tortoise : Z;
  hare : Z;
  walk_entries : list entry;
  last_summary : ChainSummary;
}.

Definition new_walk (head : Z) : ChainWalk := mkChainWalk head head [] default_summary.

Definition read_chain_link (st : Store) (page_id : Z) : result Z :=
  let! body := read_main_page st page_id PageKind.Free in
  let! header := decode_chain_header body in
  Ok (cp_next header).

(** [for _ in 0..2 { if hare == 0 { break } hare = read_chain_link(hare)? }] *)
Fixpoint advance_hare (n : nat) (st : Store) (hare : Z) : result Z :=
  match n with
  | O => Ok hare
  | S n =>
      if hare =? 0 then Ok hare else
      let! hare_next := read_chain_link st hare in
      advance_hare n st hare_next
  end.

Definition advance (st : Store) (w : ChainWalk) : result (option Z * ChainWalk) :=
  let page_id := tortoise w in
  if page_id =? 0 then Ok (None, mkChainWalk (tortoise w) (hare w) [] (last_summary w)) else
  let! body := read_main_page st page_id PageKind.Free in
  let! header := decode_chain_header body in
  let! es := traverse (fun index => decode_entry body (Z.of_nat index))
               (seq 0 (Z.to_nat (cp_count header))) in
  let next := cp_next header in
  let! hare := advance_hare 2 st (hare w) in
  if negb (hare =? 0) && (hare =? next) then Err (page_chain_cycle "free_list" hare) else
  Ok (Some page_id, mkChainWalk next hare es (header_summary header)).

Record ChainPrefix := mkChainPrefix {
  prefix_entries : list entry;
  prefix_chain_pages : list Z;
  prefix_tail : ChainTail;
}.

(** The loops over [advance] take one more turn than the image has pages at
    most: [walk_terminates] below. *)
Fixpoint read_prefix_loop (fuel : nat) (st : Store) (w : ChainWalk) (es : list entry)
    (chain_pages : list Z) (max_pages : Z) : result (ChainWalk * list entry * list Z) :=
  if negb (Z.of_nat (length chain_pages) <? max_pages) then Ok (w, es, chain_pages) else
  match fuel with
  | O => Panic
  | S fuel =>
      let! '(visited, w) := advance st w in
      match visited with
      | None => Ok (w, es, chain_pages)
      | Some page_id =>
          read_prefix_loop fuel st w (es ++ walk_entries w) (chain_pages ++ [page_id]) max_pages
      end
  end.

Definition read_chain_prefix (st : Store) (head max_pages : Z) : result ChainPrefix :=
  let! '(walk, es, chain_pages) :=
    read_prefix_loop (S (size st)) st (new_walk head) [] [] max_pages in
  let tail := tortoise walk in
  let! summary := read_chain_summary st tail in
  Ok (mkChainPrefix es chain_pages (mkChainTail tail summary)).

Definition read_chain (st : Store) (head : Z) : result (list entry * list Z) :=
  let! prefix := read_chain_prefix st head USIZE_MAX in
  let! _ := assert_ (tail_head (prefix_tail prefix) =? 0) in
  Ok (prefix_entries prefix, prefix_chain_pages prefix).

Definition count_chain (st : Store) (head : Z) : result Z :=
  let! summary := read_chain_summary st head in Ok (entries_total summary).

(** [entries.iter().filter(|(cid, _)| *cid >= floor).count()] *)
Definition stuck (floor : Z) (es : list entry) : Z :=
  Z.of_nat (length (filter (fun e => floor <= e.1) es)).

Fixpoint count_floor_loop (fuel : nat) (st : Store) (w : ChainWalk) (floor total : Z)
  : result Z :=
  match fuel with
  | O => Panic
  | S fuel =>
      let! '(visited, w) := advance st w in
      match visited with
      | None => Ok total
      | Some _ =>
          let summary := last_summary w in
          if max_cid summary <? floor then Ok total else
          if floor <=? min_cid summary
          then Ok (saturating_add total (entries_total summary)) else
          count_floor_loop fuel st w floor
            (saturating_add total (stuck floor (walk_entries w)))
      end
  end.

Definition count_at_or_above_floor (st : Store) (head floor : Z) : result Z :=
  count_floor_loop (S (size st)) st (new_walk head) floor 0.

(** ** [budget.rs] *)

Definition SCAN_PAGES : Z := 64.
Definition TAIL_COMPACT_PAGES : Z := 4.
Definition WINDOW_PAGES : Z := SCAN_PAGES + TAIL_COMPACT_PAGES.

(** ** [write.rs] *)

(** [iter().max()] and [iter().min()] *)
Definition iter_max (l : list Z) : option Z :=
  match l with [] => None | x :: l => Some (fold_left Z.max l x) end.
Definition iter_min (l : list Z) : option Z :=
  match l with [] => None | x :: l => Some (fold_left Z.min l x) end.

(** [&entries[lo..hi]] *)
Definition slice_entries (es : list entry) (lo hi : Z) : result (list entry) :=
  if (0 <=? lo) && (lo <=? hi) && (hi <=? Z.of_nat (length es))
  then Ok (take (Z.to_nat (hi - lo)) (drop (Z.to_nat lo) es)) else Panic.

(** The entries of one page, from slot [j] on. *)
Fixpoint write_entries (body : bytes) (j : Z) (chunk : list entry) : result bytes :=
  match chunk with
  | [] => Ok body
  | (cid, pid) :: chunk =>
      let off := PAGE_HEADER_LEN + j * ENTRY_LEN in
      let! body := copy_at body off (le64 cid) in
      let! body := copy_at body (off + 8) (le64 pid) in
      write_entries body (j + 1) chunk
  end.

(** [chunk_starts]: where the chunk of each page starts. *)
Fixpoint chunk_starts (cap len cursor : Z) (chain_pages : list Z) : list Z :=
  match chain_pages with
  | [] => []
  | _ :: ps => cursor :: chunk_starts cap len (Z.min (cursor + cap) len) ps
  end.

(** The body of the loop of [write_chain], for one page. *)
Definition write_chain_page (page_size : Z) (st : Store) (es : list entry)
    (sfx : ChainSummary) (page_id start next : Z) : result (Store * ChainSummary) :=
  let cap := chain_capacity page_size in
  let! chunk := slice_entries es start (Z.min (start + cap) (Z.of_nat (length es))) in
  let sfx_entries := saturating_add (entries_total sfx) (Z.of_nat (length chunk)) in
  let sfx_max := match iter_max (chunk.*1) with
                 | Some page_max => Z.max page_max (max_cid sfx) | None => max_cid sfx end in
  let sfx_min := match iter_min (chunk.*1) with
                 | Some page_min => Z.min page_min (min_cid sfx) | None => min_cid sfx end in
  let body := zeros (body_capacity page_size) in
  let! body := encode_chain_header body
    (mkChainPageHeader next (Z.of_nat (length chunk)) sfx_entries sfx_max sfx_min) in
  let! body := write_entries body 0 chunk in
  let! st := write_main_page page_size st page_id PageKind.Free body in
  Ok (st, mkChainSummary sfx_entries sfx_max sfx_min).

(** [for (i, &page_id) in chain_pages.iter().enumerate().rev()]: the last page
    first, each page linked to its successor or to the tail. *)
Fixpoint write_chain_pages (page_size : Z) (st : Store) (es : list entry) (tail : ChainTail)
    (pages : list (Z * Z)) : result (Store * ChainSummary) :=
  match pages with
  | [] => Ok (st, tail_summary tail)
  | (page_id, start) :: later =>
      let! '(st, sfx) := write_chain_pages page_size st es tail later in
      let next := match later with (p, _) :: _ => p | [] => tail_head tail end in
      write_chain_page page_size st es sfx page_id start next
  end.

Definition write_chain (page_size : Z) (st : Store) (chain_pages : list Z)
    (es : list entry) (tail : ChainTail) : result (Z * Store) :=
  match es with
  | [] => Ok (tail_head tail, st)
  | _ =>
      let cap := chain_capacity page_size in
      let len := Z.of_nat (length es) in
      let! _ := assert_ (len <=? Z.of_nat (length chain_pages) * cap) in
      let starts := chunk_starts cap len 0 chain_pages in
      let! '(st, _) := write_chain_pages page_size st es tail (zip chain_pages starts) in
      Ok (match chain_pages with p :: _ => p | [] => tail_head tail end, st)
  end.

(** [usize::div_ceil]; a zero divisor panics. *)
Definition div_ceil (a b : Z) : result Z :=
  if b =? 0 then Panic else Ok ((a + b - 1) / b).

(** The host selection of [rewrite_chain]. Every turn adds a chain page and no
    more pages are needed than there are entries, which bounds the turns. *)
Fixpoint carve_loop (fuel : nat) (cap total : Z) (carved : gset Z) (chain_pages hosts : list Z)
    (next : Z) : result (gset Z * list Z * Z) :=
  match fuel with
  | O => Panic
  | S fuel =>
      let remaining := total - Z.of_nat (size carved) in
      let! need := if remaining =? 0 then Ok 0 else div_ceil remaining cap in
      if need <=? Z.of_nat (length chain_pages) then Ok (carved, chain_pages, next) else
      match (if 1 <? remaining then hosts else []) with
      | h :: hosts => carve_loop fuel cap total ({[h]} ∪ carved) (chain_pages ++ [h]) hosts next
      | [] =>
          if next =? U64_MAX then Panic else
          carve_loop fuel cap total carved (chain_pages ++ [next]) hosts (next + 1)
      end
  end.

Definition rewrite_chain (page_size : Z) (st : Store) (es : list entry)
    (host_candidates : list Z) (next_page : Z) (tail : ChainTail)
  : result (Z * Z * Store) :=
  let cap := chain_capacity page_size in
  let total := Z.of_nat (length es) in
  let! '(carved, chain_pages, next) :=
    carve_loop (S (length es)) cap total ∅ [] host_candidates next_page in
  let es := filter (fun e => ~ (e.2 ∈ carved)) es in
  let! '(head, st) := write_chain page_size st chain_pages es tail in
  Ok (head, next, st).

(** ** Codec of one page *)

Definition is_entry (e : entry) : Prop := is_u64 e.1 /\ is_u64 e.2.

Definition header_ok (body : bytes) (h : ChainPageHeader) : Prop :=
  is_u64 (cp_next h) /\ is_u64 (suffix_entries h) /\ is_u64 (suffix_max_cid h) /\
  is_u64 (suffix_min_cid h) /\ 0 <= cp_count h <= suffix_entries h /\ is_u32 (cp_count h) /\
  PAGE_HEADER_LEN + ENTRY_LEN * cp_count h <= blen body.

Lemma encode_chain_header_ok body h :
  header_ok body h ->
  exists body', encode_chain_header body h = Ok body' /\ blen body' = blen body /\
    decode_chain_header body' = Ok h /\
    (forall o n, PAGE_HEADER_LEN <= o -> 0 <= n -> sub body' o n = sub body o n).
Proof.
  unfold header_ok, PAGE_HEADER_LEN, ENTRY_LEN. destruct h as [nx cnt se mx mn]; simpl.
  intros (Hn & Hse & Hmx & Hmn & Hc & Hc32 & Hb).
  unfold encode_chain_header; simpl. rewrite try_u32_ok by done.
  do 5 write_field. eexists. split; [done|]. split; [lia|]. split.
  - unfold decode_chain_header, PAGE_HEADER_LEN, ENTRY_LEN.
    rewrite (proj2 (Z.ltb_ge _ _)) by lia. read_fields.
    rewrite (proj2 (Z.ltb_ge _ _)) by (apply Z.div_le_lower_bound; lia).
    by rewrite (proj2 (Z.ltb_ge _ _)) by lia.
  - intros. by read_sub.
Qed.

Lemma write_entries_ok chunk : forall body j,
  0 <= j -> Forall is_entry chunk ->
  PAGE_HEADER_LEN + ENTRY_LEN * (j + Z.of_nat (length chunk)) <= blen body ->
  exists body', write_entries body j chunk = Ok body' /\ blen body' = blen body /\
    (forall i e, chunk !! i = Some e -> decode_entry body' (j + Z.of_nat i) = Ok e) /\
    (forall o n, 0 <= o -> 0 <= n -> o + n <= PAGE_HEADER_LEN + ENTRY_LEN * j ->
       sub body' o n = sub body o n).
Proof.
  unfold PAGE_HEADER_LEN, ENTRY_LEN.
  induction chunk as [|[cid pid] chunk IH]; intros body j Hj HF Hb; cbn [write_entries].
  { exists body. by split_and!. }
  inversion HF as [|? ? [Hcid Hpid] HF']; subst; simpl in *.
  unfold PAGE_HEADER_LEN, ENTRY_LEN. do 2 write_field.
  destruct (IH buf0 (j + 1)) as (body' & -> & Hl & Hd & Hf); [lia|done|lia|].
  eexists. split; [done|]. split; [lia|]. split.
  - intros [|i] e He; simpl in He.
    + injection He as <-. replace (j + Z.of_nat 0) with j by lia.
      unfold decode_entry, PAGE_HEADER_LEN, ENTRY_LEN.
      rewrite (proj2 (Z.ltb_ge _ _)) by lia. rewrite slice_ok by lia.
      replace (36 + j * 16 + 16 - (36 + j * 16)) with 16 by lia.
      rewrite !slice_ok by (rewrite ?blen_sub; lia). norm_lit.
      rewrite !sub_sub by lia. rewrite Z.add_0_r.
      rewrite (Hf _ 8), (Hf _ 8) by lia. read_sub. by rewrite !of_le64 by lia.
    + replace (j + Z.of_nat (S i)) with (j + 1 + Z.of_nat i) by lia. by apply Hd.
  - intros. rewrite Hf by lia. by read_sub.
Qed.

Lemma decode_chain_header_ext body body' :
  blen body' = blen body -> sub body' 0 36 = sub body 0 36 ->
  decode_chain_header body' = decode_chain_header body.
Proof.
  intros Hl Hs. unfold decode_chain_header, PAGE_HEADER_LEN. rewrite Hl.
  destruct (Z.ltb_spec (blen body) 36); [done|].
  rewrite !slice_ok by lia. norm_lit.
  by rewrite !(sub_nested_eq body' body 0 36) by (done || lia).
Qed.

Lemma decode_chain_header_no_panic body : decode_chain_header body <> Panic.
Proof.
  unfold decode_chain_header, PAGE_HEADER_LEN.
  destruct (Z.ltb_spec (blen body) 36); [done|].
  rewrite !slice_ok by lia. by repeat case_match.
Qed.

Lemma decode_chain_header_inv body h :
  decode_chain_header body = Ok h -> is_u64 (cp_next h) /\ 0 <= cp_count h /\
    PAGE_HEADER_LEN + ENTRY_LEN * cp_count h <= blen body.
Proof.
  unfold decode_chain_header, PAGE_HEADER_LEN, ENTRY_LEN.
  destruct (Z.ltb_spec (blen body) 36); [done|].
  rewrite !slice_ok by lia. norm_lit. intros Hd. inv_ok Hd.
  split; [by apply (of_le_bound _ 8), blen_sub; lia|].
  pose proof (of_le_bound (sub body 8 4) 4 (blen_sub body 8 4 ltac:(lia) ltac:(lia) ltac:(lia))).
  split; [lia|]. rewrite Z.add_comm. 
  pose proof (Z.mul_div_le (blen body - 36) 16). lia.
Qed.

(** Within the entry count, decoding an entry succeeds. *)
Lemma decode_entry_ok body index :
  0 <= index -> PAGE_HEADER_LEN + ENTRY_LEN * (index + 1) <= blen body ->
  exists e, decode_entry body index = Ok e.
Proof.
  unfold decode_entry, PAGE_HEADER_LEN, ENTRY_LEN. intros.
  rewrite (proj2 (Z.ltb_ge _ _)) by lia. rewrite slice_ok by lia.
  rewrite !slice_ok by (rewrite ?blen_sub; lia). eauto.
Qed.

Lemma decode_entry_no_panic body index : 0 <= index -> decode_entry body index <> Panic.
Proof.
  unfold decode_entry, PAGE_HEADER_LEN, ENTRY_LEN. intros.
  destruct (Z.ltb_spec (blen body) (36 + index * 16 + 16)); [done|].
  rewrite slice_ok by lia. by rewrite !slice_ok by (rewrite ?blen_sub; lia).
Qed.

(** ** Termination of the cursor on any page image *)

Lemma read_chain_link_inv st p n : read_chain_link st p = Ok n -> p ∈ dom st.
Proof.
  unfold read_chain_link. intros H. inv_ok H.
  apply elem_of_dom. eexists. by apply read_main_page_inv.
Qed.

Lemma read_chain_link_no_panic st p : read_chain_link st p <> Panic.
Proof.
  unfold read_chain_link. destruct (read_main_page _ _ _) eqn:E; [|done|].
  - pose proof (decode_chain_header_no_panic a). by destruct (decode_chain_header a).
  - by apply read_main_page_no_panic in E.
Qed.

Section floyd.
Context (st : Store) (head : Z).

(** The [i]th page from the head; the end of the chain stays where it is. *)
Fixpoint orbit (i : nat) : option Z :=
  match i with
  | O => Some head
  | S i =>
      match orbit i with
      | Some p =>
          if p =? 0 then Some 0
          else match read_chain_link st p with Ok n => Some n | _ => None end
      | None => None
      end
  end.

(** The cursor after [i] successful calls of [advance]. *)
Definition walk_inv (i : nat) (w : ChainWalk) : Prop :=
  orbit i = Some (tortoise w) /\ orbit (2 * i) = Some (hare w) /\
  (forall j, (j < i)%nat -> exists p, orbit j = Some p /\ p <> 0 /\ p ∈ dom st) /\
  (forall j p, (0 < j <= i)%nat -> orbit j = Some p -> orbit (2 * j) = Some p -> p = 0).

Lemma walk_inv_new : walk_inv 0 (new_walk head).
Proof. split_and!; try done; lia. Qed.

Lemma orbit_hare n i h h' :
  orbit i = Some h -> advance_hare n st h = Ok h' -> orbit (n + i) = Some h'.
Proof.
  revert i h; induction n as [|n IH]; intros i h Hi Hh; cbn [advance_hare] in Hh.
  { by injection Hh as <-. }
  assert (forall m, orbit m = Some 0 -> orbit (S m) = Some 0) as H0
    by (intros m Hm; simpl; by rewrite Hm).
  destruct (Z.eqb_spec h 0) as [->|Hne].
  - injection Hh as <-. clear IH. induction (S n) as [|m IH]; [done|]. by apply H0.
  - destruct (read_chain_link st h) eqn:El; [|done..].
    replace (S n + i)%nat with (n + S i)%nat by lia. eapply IH; [|done].
    simpl. by rewrite Hi, (proj2 (Z.eqb_neq _ _)), El by done.
Qed.

Lemma advance_inv w pid w' :
  advance st w = Ok (Some pid, w') ->
  pid = tortoise w /\ pid <> 0 /\ read_chain_link st pid = Ok (tortoise w') /\
  advance_hare 2 st (hare w) = Ok (hare w') /\ (hare w' = tortoise w' -> hare w' = 0).
Proof.
  unfold advance. intros H. cbn [advance_hare] in *.
  destruct (Z.eqb_spec (tortoise w) 0); [done|].
  destruct (read_main_page st (tortoise w) PageKind.Free) eqn:Er; [|done..].
  destruct (decode_chain_header a) eqn:Ed; [|done..].
  destruct (traverse _ _); [|done..]. unfold read_chain_link at 1.
  match goal with |- context [?x = Ok (hare w')] => destruct x as [h| |]; [|done..] end.
  destruct (negb (h =? 0) && (h =? cp_next a0)) eqn:Ec; [done|].
  injection H as <- <-. simpl. rewrite Er, Ed. split_and!; try done. intros ->.
  propify. lia.
Qed.

Lemma advance_None w w' : advance st w = Ok (None, w') -> tortoise w' = 0.
Proof.
  unfold advance. destruct (Z.eqb_spec (tortoise w) 0).
  - by intros [= <-].
  - intros H. inv_ok H.
Qed.

Lemma walk_inv_step i w pid w' :
  walk_inv i w -> advance st w = Ok (Some pid, w') -> walk_inv (S i) w'.
Proof.
  intros (Ht & Hh & Hv & Hm) (-> & Hne & Hl & Hh2 & Hc)%advance_inv.
  assert (orbit (S i) = Some (tortoise w')) as Ht'.
  { simpl. by rewrite Ht, (proj2 (Z.eqb_neq _ _)), Hl by done. }
  assert (orbit (2 * S i) = Some (hare w')) as Hh'.
  { replace (2 * S i)%nat with (2 + 2 * i)%nat by lia. by eapply orbit_hare. }
  split; [done|]. split; [done|]. split.
  - intros j Hj. destruct (decide (j = i)) as [->|]; [|apply Hv; lia].
    eauto using read_chain_link_inv.
  - intros j p Hj Hp Hp2. destruct (decide (j = S i)) as [->|]; [|apply (Hm j); done || lia].
    rewrite Ht' in Hp. rewrite Hh' in Hp2. simplify_eq. by rewrite <- Hc by congruence.
Qed.

(** A repeated page makes the rest of the orbit periodic. *)
Lemma orbit_shift a b : orbit a = orbit b -> forall k, orbit (k + a) = orbit (k + b).
Proof. intros H k; induction k as [|k IH]; simpl; [done|]. by rewrite IH. Qed.

Lemma orbit_period a p n i :
  orbit a = orbit (p + a) -> (a <= i)%nat -> orbit i = orbit (n * p + i).
Proof.
  intros Hp Hi. induction n as [|n IH]; simpl; [done|]. rewrite IH.
  pose proof (orbit_shift _ _ Hp (n * p + i - a)) as H.
  replace (n * p + i - a + a)%nat with (n * p + i)%nat in H by lia. rewrite H. f_equal. lia.
Qed.

(** Floyd: as many pages as the image holds cannot all be passed. *)
Lemma walk_inv_bound i w : walk_inv i w -> (i <= size st)%nat.
Proof.
  intros (_ & _ & Hv & Hm). destruct (decide (i <= size st)%nat) as [|Hgt]; [done|].
  exfalso. set (ps := (fun j => default 0 (orbit j)) <$> seq 0 i).
  assert (~ NoDup ps) as Hdup.
  { intros Hnd. assert (length ps <= size st)%nat; [|unfold ps in *;
      rewrite length_fmap, length_seq in *; lia].
    rewrite <- (size_dom (D := gset Z)), <- (size_list_to_set (C := gset Z)) by (exact Hnd).
    apply subseteq_size. intros p. rewrite elem_of_list_to_set. unfold ps.
    intros (j & -> & Hj)%list_elem_of_fmap. apply elem_of_seq in Hj.
    destruct (Hv j) as (p & -> & _ & Hd); [lia|done]. }
  apply Hdup, NoDup_alt. intros a b x Ha Hb. unfold ps in Ha, Hb.
  rewrite list_lookup_fmap_Some in Ha, Hb.
  destruct Ha as (a' & -> & Ha), Hb as (b' & Hx & Hb).
  apply lookup_seq in Ha as [-> Ha], Hb as [-> Hb]. simpl in *.
  destruct (Hv a Ha) as (pa & Ea & Hpa & _), (Hv b Hb) as (pb & Eb & _).
  rewrite Ea, Eb in Hx. simpl in Hx. subst pb.
  assert (forall a b p, (a < b < i)%nat -> orbit a = Some p -> orbit b = Some p -> False) as Hlt;
    [|destruct (Nat.lt_total a b) as [|[|]]; [exfalso|done|exfalso]; eauto].
  clear -Hv Hm. intros a b p Hab Ea Eb.
  set (q := (b - a)%nat). set (n := (a / q + 1)%nat).
  assert (a <= n * q <= b)%nat as Hn.
  { unfold n. pose proof (Nat.div_mod_eq a q). pose proof (Nat.mod_upper_bound a q). lia. }
  assert (0 < n * q)%nat by (unfold n; lia).
  destruct (Hv (n * q)%nat) as (x & Ex & Hx & _); [lia|]. apply Hx.
  apply (Hm (n * q)%nat); [lia|done|]. rewrite <- Ex.
  replace (n * q + (n * q + 0))%nat with (n * q + n * q)%nat by lia. symmetry.
  apply (orbit_period a); [|lia]. rewrite Ea, <- Eb. f_equal. lia.
Qed.
End floyd.

Lemma advance_hare_no_panic n st h : advance_hare n st h <> Panic.
Proof.
  revert h; induction n as [|n IH]; intros h; cbn [advance_hare]; [done|].
  case_match; [done|]. pose proof (read_chain_link_no_panic st h).
  by destruct (read_chain_link st h).
Qed.

Lemma advance_no_panic st w : advance st w <> Panic.
Proof.
  unfold advance. case_match; [done|].
  pose proof (read_main_page_no_panic st (tortoise w) PageKind.Free).
  destruct (read_main_page _ _ _) as [body| |]; [|done..].
  pose proof (decode_chain_header_no_panic body).
  destruct (decode_chain_header body) as [h| |]; [|done..].
  pose proof (traverse_not_Panic (fun index => decode_entry body (Z.of_nat index))
    (seq 0 (Z.to_nat (cp_count h)))) as Ht.
  destruct (traverse _ _); [|done|by destruct Ht; [apply Forall_forall; intros;
    apply decode_entry_no_panic; lia|]].
  pose proof (advance_hare_no_panic 2 st (hare w)).
  destruct (advance_hare _ _ _); [|done..]. by case_match.
Qed.

Lemma read_prefix_loop_total st head i w fuel es ps m :
  walk_inv st head i w -> (size st < fuel + i)%nat ->
  read_prefix_loop fuel st w es ps m <> Panic.
Proof.
  revert i w es ps; induction fuel as [|fuel IH]; intros i w es ps Hw Hf;
    cbn [read_prefix_loop]; (case_match; [done|]).
  { apply walk_inv_bound in Hw. lia. }
  pose proof (advance_no_panic st w). destruct (advance st w) as [[[pid|] w']| |] eqn:Ea; [|done..].
  eapply (IH (S i)); [by eapply walk_inv_step|lia].
Qed.

Lemma count_floor_loop_total st head i w fuel floor total :
  walk_inv st head i w -> (size st < fuel + i)%nat ->
  count_floor_loop fuel st w floor total <> Panic.
Proof.
  revert i w total; induction fuel as [|fuel IH]; intros i w total Hw Hf; cbn [count_floor_loop].
  { apply walk_inv_bound in Hw. lia. }
  pose proof (advance_no_panic st w). destruct (advance st w) as [[[pid|] w']| |] eqn:Ea; [|done..].
  case_match; [done|]. case_match; [done|].
  eapply (IH (S i)); [by eapply walk_inv_step|lia].
Qed.

Lemma read_chain_summary_no_panic st head : read_chain_summary st head <> Panic.
Proof.
  unfold read_chain_summary. case_match; [done|].
  pose proof (read_main_page_no_panic st head PageKind.Free).
  destruct (read_main_page _ _ _) as [body| |]; [|done..].
  pose proof (decode_chain_header_no_panic body). by destruct (decode_chain_header body).
Qed.

Lemma read_prefix_loop_pages st head i fuel w es ps m w' es' ps' :
  walk_inv st head i w -> length ps = i ->
  read_prefix_loop fuel st w es ps m = Ok (w', es', ps') ->
  (tortoise w' = 0 \/ m <= Z.of_nat (length ps')) /\ (length ps' <= size st)%nat.
Proof.
  revert i w es ps; induction fuel as [|fuel IH]; intros i w es ps Hw Hl; cbn [read_prefix_loop];
    (destruct (Z.ltb_spec (Z.of_nat (length ps)) m); simpl;
      [|intros [= <- <- <-]; apply walk_inv_bound in Hw; split; [auto|lia]]); [done|].
  destruct (advance st w) as [[[pid|] w1]| |] eqn:Ea; [|intros [= <- <- <-]|done..].
  - eapply (IH (S i)); [by eapply walk_inv_step|rewrite length_app; simpl; lia].
  - apply walk_inv_bound in Hw. apply advance_None in Ea. split; [auto|lia].
Qed.

Lemma read_chain_prefix_total st head m : read_chain_prefix st head m <> Panic.
Proof.
  unfold read_chain_prefix.
  pose proof (read_prefix_loop_total st head 0 (new_walk head) (S (size st)) [] [] m
    (walk_inv_new st head) ltac:(lia)).
  destruct (read_prefix_loop _ _ _ _ _ _) as [[[w es] ps]| |]; [|done..].
  pose proof (read_chain_summary_no_panic st (tortoise w)).
  by destruct (read_chain_summary _ _).
Qed.

Lemma read_free_chain_total st head :
  Z.of_nat (size st) < USIZE_MAX -> read_chain st head <> Panic.
Proof.
  intros Hs. unfold read_chain. pose proof (read_chain_prefix_total st head USIZE_MAX) as Hp.
  destruct (read_chain_prefix _ _ _) as [p| |] eqn:E; [|done..].
  unfold read_chain_prefix in E.
  destruct (read_prefix_loop _ _ _ _ _ _) as [[[w es] ps]| |] eqn:El; [|done..].
  apply (read_prefix_loop_pages _ head 0) in El as [[Ht|Hm] Hl]; [| |apply walk_inv_new|done].
  - destruct (read_chain_summary _ _); [|done..]. injection E as <-. simpl. by rewrite Ht.
  - lia.
Qed.

Lemma count_floor_total st head floor : count_at_or_above_floor st head floor <> Panic.
Proof. apply (count_floor_loop_total st head 0); [apply walk_inv_new|lia]. Qed.

(** ** Chains in the page image *)

(** What a page's suffix summary has to say about the entries from it on. *)
Definition summary_of (es : list entry) : ChainSummary :=
  mkChainSummary (Z.of_nat (length es)) (foldr Z.max 0 es.*1) (foldr Z.min U64_MAX es.*1).

Definition chain_page (st : Store) (pid next : Z) (chunk : list entry) (sfx : ChainSummary)
  : Prop :=
  exists body, st !! pid = Some (PageKind.Free, body) /\
    decode_chain_header body =
      Ok (mkChainPageHeader next (Z.of_nat (length chunk)) (entries_total sfx)
            (max_cid sfx) (min_cid sfx)) /\
    (forall i e, chunk !! i = Some e -> decode_entry body (Z.of_nat i) = Ok e).

(** The entries of the pages of a chain. *)
Definition all_entries (links : list (Z * list entry)) : list entry := concat links.*2.

(** [chain st head links]: from [head] the pages of [links], in order, each with
    its entries, up to the end of the chain; every summary exact. *)
Fixpoint chain (st : Store) (head : Z) (links : list (Z * list entry)) : Prop :=
  match links with
  | [] => head = 0
  | (pid, chunk) :: rest =>
      head = pid /\ pid <> 0 /\ (pid ∉ rest.*1) /\
      exists next, chain_page st pid next chunk (summary_of (chunk ++ all_entries rest)) /\
        chain st next rest
  end.

(** The page id at position [i]; past the end it is the terminator. *)
Definition link_id (links : list (Z * list entry)) (i : nat) : Z := default 0 (links.*1 !! i).

Lemma chain_head st head links : chain st head links -> head = link_id links 0.
Proof. destruct links as [|[pid chunk] rest]; simpl; [done|]. by intros [-> _]. Qed.

Lemma chain_NoDup st head links : chain st head links -> NoDup links.*1 /\ 0 ∉ links.*1.
Proof.
  revert head; induction links as [|[pid chunk] rest IH]; intros head; simpl.
  - intros _. split; [constructor|apply not_elem_of_nil].
  - intros (-> & Hne & Hni & next & _ & Hc). destruct (IH _ Hc) as [Hnd H0].
    split; [by constructor|]. rewrite not_elem_of_cons. naive_solver.
Qed.

Lemma chain_drop st head links i :
  chain st head links -> chain st (link_id links i) (drop i links).
Proof.
  revert head links; induction i as [|i IH]; intros head links Hc.
  { rewrite drop_0. by rewrite <- (chain_head st head). }
  destruct links as [|[pid chunk] rest]; [done|].
  destruct Hc as (-> & _ & _ & next & _ & Hc). by apply (IH next).
Qed.

Lemma free_chain_frame st st' head links :
  (forall p, p ∈ links.*1 -> st' !! p = st !! p) -> chain st head links -> chain st' head links.
Proof.
  revert head; induction links as [|[pid chunk] rest IH]; intros head Hf; simpl; [done|].
  intros (-> & Hne & Hni & next & (body & Hb & Hd) & Hc). split_and!; try done.
  exists next. split.
  - exists body. split; [|done]. rewrite Hf; [done|]. simpl. left.
  - apply IH; [|done]. intros p Hp. apply Hf. simpl. by right.
Qed.

Lemma chain_size st head links : chain st head links -> (length links <= size st)%nat.
Proof.
  intros Hc. rewrite <- (length_fmap fst), <- (size_dom (D := gset Z)).
  rewrite <- (size_list_to_set (C := gset Z)) by (by eapply chain_NoDup).
  apply subseteq_size. intros p. rewrite elem_of_list_to_set.
  revert head Hc; induction links as [|[pid chunk] rest IH]; intros head; simpl.
  - intros _ []%not_elem_of_nil.
  - intros (-> & _ & _ & next & (body & Hb & _) & Hc) [->|Hp]%elem_of_cons; [|by eapply IH].
    by apply elem_of_dom_2 in Hb.
Qed.

(** ** Reading a chain *)

Lemma chain_page_read st pid next chunk sfx :
  chain_page st pid next chunk sfx ->
  read_chain_link st pid = Ok next /\ (pid <> 0 -> read_chain_summary st pid = Ok sfx).
Proof.
  intros (body & Hb & Hd & _). unfold read_chain_link, read_chain_summary.
  rewrite (read_main_page_ok _ _ PageKind.Free _ eq_refl Hb), Hd. split; [done|].
  intros Hne. rewrite (proj2 (Z.eqb_neq _ _)) by done. by destruct sfx.
Qed.

Lemma traverse_seq {E A} (f : nat -> res E A) (l : list A) :
  (forall i x, l !! i = Some x -> f i = Ok x) -> traverse f (seq 0 (length l)) = Ok l.
Proof.
  intros Hf. apply traverse_Ok, Forall2_same_length_lookup_2; [apply length_seq|].
  intros i x y [-> _]%lookup_seq Hy. by apply Hf.
Qed.

Section reading.
Context (st : Store) (head : Z) (links : list (Z * list entry)).
Context (Hc : chain st head links).

Lemma chain_lookup i pid chunk :
  links !! i = Some (pid, chunk) ->
  pid = link_id links i /\ pid <> 0 /\
  chain_page st pid (link_id links (S i)) chunk (summary_of (all_entries (drop i links))).
Proof.
  intros Hi. pose proof (chain_drop _ _ _ i Hc) as Hd.
  rewrite (drop_S _ _ _ Hi) in Hd |- *. destruct Hd as (<- & Hne & _ & next & Hp & Hn).
  split_and!; [done|done|]. apply chain_head in Hn. subst next.
  replace (link_id links (S i)) with (link_id (drop (S i) links) 0); [done|].
  unfold link_id. by rewrite fmap_drop, lookup_drop, Nat.add_0_r.
Qed.

Lemma link_id_zero i : link_id links i = 0 <-> links !! i = None.
Proof.
  destruct (links !! i) as [[pid chunk]|] eqn:Hi.
  - apply chain_lookup in Hi as (<- & Hne & _). naive_solver.
  - unfold link_id. by rewrite list_lookup_fmap, Hi.
Qed.

Lemma link_id_inj i j : link_id links i = link_id links j -> link_id links i <> 0 -> i = j.
Proof.
  pose proof (proj1 (chain_NoDup _ _ _ Hc)) as Hnd. unfold link_id.
  destruct (links.*1 !! i) as [p|] eqn:Hi, (links.*1 !! j) as [q|] eqn:Hj; simpl; try done.
  intros -> _. eapply NoDup_lookup; eauto.
Qed.

Lemma link_step i : link_id links i <> 0 ->
  read_chain_link st (link_id links i) = Ok (link_id links (S i)).
Proof.
  rewrite link_id_zero. destruct (links !! i) as [[pid chunk]|] eqn:Hi; [|done].
  apply chain_lookup in Hi as (<- & Hne & Hp). intros _. by eapply chain_page_read.
Qed.

Lemma hare_step n i :
  advance_hare n st (link_id links i) = Ok (link_id links (n + i)).
Proof.
  revert i; induction n as [|n IH]; intros i; cbn [advance_hare]; [done|].
  destruct (Z.eqb_spec (link_id links i) 0) as [H0|H0].
  - rewrite H0. f_equal. symmetry. rewrite link_id_zero in *.
    apply lookup_ge_None_2. apply lookup_ge_None_1 in H0. lia.
  - rewrite link_step by done. rewrite IH. do 2 f_equal. lia.
Qed.

(** The cursor in front of page [i]. *)
Definition walk_at (i : nat) (w : ChainWalk) : Prop :=
  tortoise w = link_id links i /\ hare w = link_id links (2 * i).

Lemma advance_end i w : walk_at i w -> links !! i = None ->
  exists w', advance st w = Ok (None, w') /\ walk_at i w'.
Proof.
  intros [Ht Hh] Hi. apply link_id_zero in Hi. unfold advance.
  rewrite Ht, Hi. simpl. eexists. split; [done|]. split; simpl; [done|]. done.
Qed.

Lemma advance_ok i w pid chunk :
  walk_at i w -> links !! i = Some (pid, chunk) ->
  exists w', advance st w = Ok (Some pid, w') /\ walk_at (S i) w' /\ walk_entries w' = chunk /\
    last_summary w' = summary_of (all_entries (drop i links)).
Proof.
  intros [Ht Hh] Hi. destruct (chain_lookup _ _ _ Hi) as (Hid & Hne & body & Hb & Hd & He).
  unfold advance. rewrite Ht, <- Hid, (proj2 (Z.eqb_neq _ _)) by done.
  rewrite (read_main_page_ok _ _ PageKind.Free _ eq_refl Hb), Hd. cbn [cp_count].
  rewrite Nat2Z.id, traverse_seq by done. rewrite Hh, hare_step. cbn [cp_next].
  destruct (_ && _)%bool eqn:Ecyc.
  { propify. destruct Ecyc as [Hn0 Heq]. propify. apply link_id_inj in Heq; [lia|done]. }
  eexists. split; [done|]. split_and!; try done.
  unfold walk_at. simpl. split; [done|]. f_equal. lia.
Qed.

Lemma read_summary_at i :
  read_chain_summary st (link_id links i) = Ok (summary_of (all_entries (drop i links))).
Proof.
  destruct (links !! i) as [[pid chunk]|] eqn:Hi.
  - destruct (chain_lookup _ _ _ Hi) as (<- & Hne & Hp). by apply (chain_page_read _ _ _ _ _ Hp).
  - pose proof Hi as H0. apply link_id_zero in H0. rewrite H0.
    apply lookup_ge_None_1 in Hi. by rewrite drop_ge by lia.
Qed.

Lemma read_prefix_loop_ok fuel i w es ps m :
  walk_at i w -> length ps = i -> (i <= m)%nat -> (i <= length links < fuel + i)%nat ->
  exists w', read_prefix_loop fuel st w es ps (Z.of_nat m) =
      Ok (w', es ++ all_entries (take (m - i) (drop i links)),
          ps ++ (take (m - i) (drop i links)).*1) /\
    tortoise w' = link_id links m.
Proof.
  revert i w es ps; induction fuel as [|fuel IH]; intros i w es ps Hw Hl Him Hf;
    cbn [read_prefix_loop]; (destruct (Z.ltb_spec (Z.of_nat (length ps)) (Z.of_nat m)); simpl;
      [|exists w; replace (m - i)%nat with 0%nat by lia; rewrite take_0;
        unfold all_entries; simpl; rewrite !app_nil_r; split; [done|];
        replace m with i by lia; apply Hw]).
  { lia. }
  destruct (links !! i) as [[pid chunk]|] eqn:Hi.
  - destruct (advance_ok _ _ _ _ Hw Hi) as (w1 & -> & Hw1 & -> & _).
    destruct (IH (S i) w1 (es ++ chunk) (ps ++ [pid])) as (w' & -> & Ht);
      [done|rewrite length_app; simpl; lia|lia|apply lookup_lt_Some in Hi; lia|].
    exists w'. split; [|done]. rewrite (drop_S _ _ _ Hi).
    replace (m - i)%nat with (S (m - S i)) by lia. simpl.
    by rewrite <- !app_assoc.
  - destruct (advance_end _ _ Hw Hi) as (w' & -> & Ht & _). exists w'.
    apply lookup_ge_None_1 in Hi as Hge. rewrite drop_ge by done. rewrite take_nil.
    unfold all_entries. simpl. rewrite !app_nil_r. split; [done|].
    rewrite Ht. apply link_id_zero in Hi. rewrite Hi. symmetry.
    apply link_id_zero, lookup_ge_None_2. lia.
Qed.
End reading.

Lemma read_chain_prefix_ok st head links (m : nat) :
  chain st head links ->
  read_chain_prefix st head (Z.of_nat m) =
    Ok (mkChainPrefix (all_entries (take m links)) (take m links).*1
          (mkChainTail (link_id links m) (summary_of (all_entries (drop m links))))).
Proof.
  intros Hc. unfold read_chain_prefix.
  destruct (read_prefix_loop_ok _ _ _ Hc (S (size st)) 0 (new_walk head) [] [] m)
    as (w' & -> & ->); [|done|lia|pose proof (chain_size _ _ _ Hc); lia|].
  - pose proof (chain_head _ _ _ Hc). done.
  - rewrite (read_summary_at _ _ _ Hc). by rewrite Nat.sub_0_r, drop_0.
Qed.

Lemma read_free_chain_ok st head links :
  chain st head links -> Z.of_nat (size st) < USIZE_MAX ->
  read_chain st head = Ok (all_entries links, links.*1).
Proof.
  intros Hc Hs. unfold read_chain. pose proof (chain_size _ _ _ Hc) as Hl.
  assert (length links <= Z.to_nat USIZE_MAX)%nat as Hm.
  { apply Nat2Z.inj_le. rewrite Z2Nat.id by done. lia. }
  rewrite <- (Z2Nat.id USIZE_MAX) by done.
  rewrite (read_chain_prefix_ok _ _ _ _ Hc). cbn [prefix_tail tail_head].
  rewrite (proj2 (link_id_zero _ _ _ Hc _)) by (by apply lookup_ge_None_2).
  cbn [assert_ Z.eqb prefix_entries prefix_chain_pages]. by rewrite firstn_all2.
Qed.

Lemma stuck_app floor es1 es2 : stuck floor (es1 ++ es2) = stuck floor es1 + stuck floor es2.
Proof. unfold stuck. rewrite filter_app, length_app. lia. Qed.

Lemma stuck_bounds floor es : 0 <= stuck floor es <= Z.of_nat (length es).
Proof. unfold stuck. pose proof (length_filter (fun e : entry => floor <= e.1) es). lia. Qed.

Lemma stuck_below floor es : max_cid (summary_of es) < floor -> stuck floor es = 0.
Proof.
  unfold stuck, summary_of; simpl. induction es as [|e es IH]; intros H; [done|].
  rewrite fmap_cons in H. cbn [foldr] in H. rewrite filter_cons_False by lia. apply IH. lia.
Qed.

Lemma stuck_above floor es :
  floor <= min_cid (summary_of es) -> stuck floor es = Z.of_nat (length es).
Proof.
  unfold stuck, summary_of; simpl. induction es as [|e es IH]; intros H; [done|].
  rewrite fmap_cons in H. cbn [foldr] in H. rewrite filter_cons_True by lia.
  cbn [length]. rewrite !Nat2Z.inj_succ, IH; lia.
Qed.

Lemma all_entries_S links i pid chunk :
  links !! i = Some (pid, chunk) ->
  all_entries (drop i links) = chunk ++ all_entries (drop (S i) links).
Proof. intros Hi. by rewrite (drop_S _ _ _ Hi). Qed.

Lemma count_floor_loop_ok st head links floor fuel : forall i w total,
  chain st head links ->
  walk_at links i w -> (i <= length links < fuel + i)%nat -> 0 <= total ->
  total + Z.of_nat (length (all_entries (drop i links))) <= U64_MAX ->
  count_floor_loop fuel st w floor total =
    Ok (total + stuck floor (all_entries (drop i links))).
Proof.
  induction fuel as [|fuel IH]; intros i w total Hc Hw Hf H0 Hmax; [lia|].
  cbn [count_floor_loop]. destruct (links !! i) as [[pid chunk]|] eqn:Hi.
  - destruct (advance_ok _ _ _ Hc _ _ _ _ Hw Hi) as (w1 & -> & Hw1 & He & Hs). rewrite Hs.
    pose proof (stuck_bounds floor (all_entries (drop i links))).
    destruct (Z.ltb_spec (max_cid (summary_of (all_entries (drop i links)))) floor).
    { rewrite stuck_below by done. f_equal. lia. }
    destruct (Z.leb_spec floor (min_cid (summary_of (all_entries (drop i links))))).
    { rewrite stuck_above by done. unfold saturating_add, summary_of. simpl. f_equal. lia. }
    rewrite (all_entries_S _ _ _ _ Hi), length_app in Hmax.
    rewrite (all_entries_S _ _ _ _ Hi), stuck_app, He.
    pose proof (stuck_bounds floor chunk). unfold saturating_add. rewrite Z.min_l by lia.
    rewrite (IH (S i)); try done; [f_equal; lia| |lia|lia].
    apply lookup_lt_Some in Hi. lia.
  - destruct (advance_end _ _ _ Hc _ _ Hw Hi) as (w' & -> & _).
    apply lookup_ge_None_1 in Hi. rewrite drop_ge by done. unfold stuck. simpl. f_equal. lia.
Qed.

Lemma count_floor_ok st head links floor :
  chain st head links -> Z.of_nat (length (all_entries links)) <= U64_MAX ->
  count_at_or_above_floor st head floor = Ok (stuck floor (all_entries links)).
Proof.
  intros Hc Hmax. unfold count_at_or_above_floor.
  rewrite (count_floor_loop_ok st head links floor _ 0); try done.
  - pose proof (chain_head _ _ _ Hc). done.
  - pose proof (chain_size _ _ _ Hc). lia.
Qed.

(** ** Writing a chain *)

Lemma iter_max_foldr l d :
  match iter_max l with Some m => Z.max m d | None => d end = foldr Z.max d l.
Proof.
  destruct l as [|x l]; simpl; [done|]. revert x.
  induction l as [|y l IH]; intros x; simpl; [done|]. rewrite IH. lia.
Qed.

Lemma iter_min_foldr l d :
  match iter_min l with Some m => Z.min m d | None => d end = foldr Z.min d l.
Proof.
  destruct l as [|x l]; simpl; [done|]. revert x.
  induction l as [|y l IH]; intros x; simpl; [done|]. rewrite IH. lia.
Qed.

Lemma foldr_max_bounds l : Forall (fun z => is_u64 z) l -> is_u64 (foldr Z.max 0 l).
Proof. induction 1; cbn [foldr]; lia. Qed.
Lemma foldr_min_bounds l : Forall (fun z => is_u64 z) l -> is_u64 (foldr Z.min U64_MAX l).
Proof. induction 1; cbn [foldr]; unfold U64_MAX in *; lia. Qed.

Lemma entries_cids es : Forall is_entry es -> Forall (fun z => is_u64 z) es.*1.
Proof. intros H. apply Forall_fmap. eapply Forall_impl; [done|]. by intros e []. Qed.

(** The pages of a fresh prefix with their chunks. *)
Fixpoint chunks (cap : nat) (pages : list Z) (es : list entry) : list (Z * list entry) :=
  match pages with
  | [] => []
  | p :: ps => (p, take cap es) :: chunks cap ps (drop cap es)
  end.

Lemma chunks_pages cap pages es : (chunks cap pages es).*1 = pages.
Proof. revert es; induction pages; intros; simpl; [done|]. by f_equal. Qed.

Lemma chunks_entries cap pages es :
  (length es <= length pages * cap)%nat -> all_entries (chunks cap pages es) = es.
Proof.
  revert es; induction pages as [|p ps IH]; intros es Hl; unfold all_entries; simpl in *.
  { destruct es; simpl in *; [done|lia]. }
  unfold all_entries in IH. rewrite IH; [apply take_drop|]. rewrite length_drop. lia.
Qed.

Section writing.
Context (page_size : Z).
Local Abbreviation cap := (chain_capacity page_size).
Context (Hcap : 0 < cap) (Hps : body_capacity page_size <= U32_MAX).

Lemma cap_fits : PAGE_HEADER_LEN + ENTRY_LEN * cap <= body_capacity page_size.
Proof.
  revert Hcap. unfold chain_capacity, PAGE_HEADER_LEN, ENTRY_LEN. intros.
  pose proof (Z.mul_div_le (body_capacity page_size - 36) 16). lia.
Qed.

Lemma slice_chunk es start :
  0 <= start <= Z.of_nat (length es) ->
  slice_entries es start (Z.min (start + cap) (Z.of_nat (length es))) =
    Ok (take (Z.to_nat cap) (drop (Z.to_nat start) es)).
Proof.
  intros. unfold slice_entries. rewrite !(proj2 (Z.leb_le _ _)) by lia. simpl. f_equal.
  destruct (Z.min_spec (start + cap) (Z.of_nat (length es))) as [[_ ->]|[? ->]].
  - f_equal. lia.
  - rewrite !firstn_all2; [done| |]; rewrite length_drop; lia.
Qed.

Lemma write_chain_page_ok st es sfx pid start next rest :
  0 <= start <= Z.of_nat (length es) -> Forall is_entry es ->
  chain st next rest -> sfx = summary_of (all_entries rest) -> Forall is_entry (all_entries rest) ->
  is_u64 next -> pid <> 0 -> ~ (pid ∈ rest.*1) ->
  let chunk := take (Z.to_nat cap) (drop (Z.to_nat start) es) in
  Z.of_nat (length (chunk ++ all_entries rest)) <= U64_MAX ->
  exists body, write_chain_page page_size st es sfx pid start next =
      Ok (<[pid := (PageKind.Free, body)]> st, summary_of (chunk ++ all_entries rest)) /\
    chain (<[pid := (PageKind.Free, body)]> st) pid ((pid, chunk) :: rest).
Proof.
  intros Hst Hes Hc -> Hrest Hnext Hne Hni chunk Hmax. pose proof cap_fits as Hfit.
  assert (Forall is_entry chunk) as Hch by (by apply Forall_take, Forall_drop).
  assert (length chunk <= Z.to_nat cap)%nat as Hlc by (unfold chunk; rewrite length_take; lia).
  unfold write_chain_page. rewrite slice_chunk by done. fold chunk.
  rewrite iter_max_foldr, iter_min_foldr. rewrite length_app in Hmax. cbn [summary_of entries_total max_cid min_cid].
  unfold saturating_add. rewrite Z.min_l by lia.
  rewrite <- !foldr_app, <- fmap_app.
  replace (Z.of_nat (length (all_entries rest)) + Z.of_nat (length chunk))
    with (Z.of_nat (length (chunk ++ all_entries rest))) by (rewrite length_app; lia).
  assert (Forall (fun z => is_u64 z) (chunk ++ all_entries rest).*1) as Hcids
    by (apply entries_cids, Forall_app; done).
  pose proof (foldr_max_bounds _ Hcids). pose proof (foldr_min_bounds _ Hcids).
  unfold PAGE_HEADER_LEN, ENTRY_LEN in Hfit. unfold U32_MAX in Hps. unfold U64_MAX in Hmax.
  assert (blen (zeros (body_capacity page_size)) = body_capacity page_size) as Hz
    by (apply blen_zeros; lia).
  match goal with |- context [encode_chain_header _ ?h] =>
    destruct (encode_chain_header_ok (zeros (body_capacity page_size)) h)
      as (b1 & -> & Hl1 & Hd1 & _) end.
  { unfold header_ok, PAGE_HEADER_LEN, ENTRY_LEN. simpl. rewrite Hz. rewrite length_app.
    repeat split; try lia. }
  destruct (write_entries_ok chunk b1 0) as (b2 & -> & Hl2 & Hd2 & Hf2);
    [lia|done|unfold PAGE_HEADER_LEN, ENTRY_LEN; lia|].
  rewrite write_main_page_ok by (done || lia). exists b2. split; [done|].
  split_and!; [done..|]. exists next. split.
  - exists b2. rewrite lookup_insert_eq. split; [done|]. split; [|done].
    rewrite (decode_chain_header_ext b1 b2), Hd1; [done|done|]. apply Hf2; done.
  - eapply free_chain_frame; [|exact Hc]. intros p Hp. rewrite lookup_insert_ne; [done|].
    by intros ->.
Qed.

Definition first_page (pages : list Z) (tail : ChainTail) : Z :=
  match pages with p :: _ => p | [] => tail_head tail end.

Context (st : Store) (tail : ChainTail) (tlinks : list (Z * list entry)).
Context (Htail : chain st (tail_head tail) tlinks)
  (Hsum : tail_summary tail = summary_of (all_entries tlinks))
  (Hth : is_u64 (tail_head tail)) (Hte : Forall is_entry (all_entries tlinks)).

Definition fresh_pages (pages : list Z) : Prop :=
  NoDup pages /\ Forall (fun p => 0 < p < 2 ^ 64) pages /\
  Forall (fun p => ~ (p ∈ tlinks.*1)) pages.

Lemma all_entries_app l1 l2 : all_entries (l1 ++ l2) = all_entries l1 ++ all_entries l2.
Proof. unfold all_entries. by rewrite fmap_app, concat_app. Qed.

Lemma all_entries_cons p chunk l : all_entries ((p, chunk) :: l) = chunk ++ all_entries l.
Proof. done. Qed.

Lemma chunks_entries_ok (n : nat) pages es :
  Forall is_entry es -> Forall is_entry (all_entries (chunks n pages es)) /\
  (length (all_entries (chunks n pages es)) <= length es)%nat.
Proof.
  revert es; induction pages as [|p ps IH]; intros es Hes; simpl; [split; [constructor|lia]|].
  destruct (IH (drop n es)) as [H1 H2]; [by apply Forall_drop|].
  rewrite all_entries_cons, Forall_app, length_app, length_take. rewrite length_drop in H2.
  split; [split; [by apply Forall_take|done]|lia].
Qed.

Lemma write_chain_pages_ok es pages : forall cursor,
  0 <= cursor <= Z.of_nat (length es) -> Forall is_entry es -> fresh_pages pages ->
  Z.of_nat (length es + length (all_entries tlinks)) <= U64_MAX ->
  let links := chunks (Z.to_nat cap) pages (drop (Z.to_nat cursor) es) ++ tlinks in
  exists st', write_chain_pages page_size st es tail
      (zip pages (chunk_starts cap (Z.of_nat (length es)) cursor pages)) =
      Ok (st', summary_of (all_entries links)) /\
    chain st' (first_page pages tail) links /\
    (forall p, ~ (p ∈ pages) -> st' !! p = st !! p).
Proof.
  induction pages as [|p ps IH]; intros cursor Hcur Hes Hfr Hmax; cbn [chunks chunk_starts zip write_chain_pages].
  { exists st. simpl. by rewrite Hsum. }
  destruct Hfr as (Hnd & Hu & Hdis). inversion Hnd as [|? ? Hnp Hnd']; subst.
  apply Forall_cons in Hu as [Hp Hu], Hdis as [Hpt Hdis].
  destruct (IH (Z.min (cursor + cap) (Z.of_nat (length es)))) as (st1 & Heq & Hc1 & Hf1);
    [lia|done|done|done|]. clear IH.
  replace (drop (Z.to_nat (Z.min (cursor + cap) (Z.of_nat (length es)))) es)
    with (drop (Z.to_nat cap) (drop (Z.to_nat cursor) es)) in Heq, Hc1.
  2:{ rewrite drop_drop. destruct (Z.min_spec (cursor + cap) (Z.of_nat (length es))) as [[_ ->]|[? ->]].
      - f_equal. lia. - rewrite !drop_ge; [done|lia..]. }
  cbn [zip_with]. rewrite Heq.
  set (rest := chunks (Z.to_nat cap) ps (drop (Z.to_nat cap) (drop (Z.to_nat cursor) es)) ++ tlinks) in *.
  assert (rest.*1 = ps ++ tlinks.*1) as Hpages by (unfold rest; by rewrite fmap_app, chunks_pages).
  destruct (chunks_entries_ok (Z.to_nat cap) ps (drop (Z.to_nat cap) (drop (Z.to_nat cursor) es)))
    as [Hce Hcl]; [by apply Forall_drop, Forall_drop|].
  assert (all_entries rest = all_entries (chunks (Z.to_nat cap) ps
    (drop (Z.to_nat cap) (drop (Z.to_nat cursor) es))) ++ all_entries tlinks) as Hre
    by (unfold rest; by rewrite all_entries_app).
  match goal with |- context [write_chain_page _ _ _ _ _ _ ?n] =>
    assert (n = first_page ps tail) as -> by (by destruct ps) end.
  destruct (write_chain_page_ok st1 es (summary_of (all_entries rest)) p cursor
    (first_page ps tail) rest) as (body & Hw & Hc); try done.
  - rewrite Hre. by apply Forall_app.
  - destruct ps; simpl; [done|]. apply Forall_cons in Hu as [? _]. lia.
  - lia.
  - rewrite Hpages, elem_of_app. naive_solver.
  - rewrite Hre, !length_app, length_take. rewrite !length_drop in *. lia.
  - rewrite Hw. eexists. split; [done|]. split; [done|].
    intros q Hq. rewrite not_elem_of_cons in Hq. rewrite lookup_insert_ne by naive_solver.
    apply Hf1. naive_solver.
Qed.

(** The new chain is the entries on the fresh pages, followed by the tail. *)
Lemma write_chain_ok es pages :
  Forall is_entry es -> fresh_pages pages ->
  Z.of_nat (length es) <= Z.of_nat (length pages) * cap ->
  Z.of_nat (length es + length (all_entries tlinks)) <= U64_MAX ->
  exists head st' links, write_chain page_size st pages es tail = Ok (head, st') /\
    chain st' head links /\ all_entries links = es ++ all_entries tlinks /\
    links.*1 = (match es with [] => [] | _ => pages end) ++ tlinks.*1 /\
    (forall p, ~ (p ∈ pages) -> st' !! p = st !! p).
Proof.
  intros Hes Hfr Hl Hmax. destruct es as [|e es'] eqn:He.
  { exists (tail_head tail), st, tlinks. by split_and!. }
  rewrite <- He in *. assert (write_chain page_size st pages es tail =
    let! _ := assert_ (Z.of_nat (length es) <=? Z.of_nat (length pages) * cap) in
    let starts := chunk_starts cap (Z.of_nat (length es)) 0 pages in
    let! '(st, _) := write_chain_pages page_size st es tail (zip pages starts) in
    Ok (first_page pages tail, st)) as -> by (by rewrite He).
  rewrite (proj2 (Z.leb_le _ _)) by done. cbn [assert_].
  destruct (write_chain_pages_ok es pages 0) as (st' & -> & Hc & Hf); [lia|done..|].
  simpl in Hc. rewrite drop_0 in Hc.
  exists (first_page pages tail), st', (chunks (Z.to_nat cap) pages es ++ tlinks).
  split_and!; try done.
  - rewrite all_entries_app, chunks_entries; [done|]. nia.
  - by rewrite fmap_app, chunks_pages.
Qed.
End writing.

(** ** Choosing the host pages *)

Lemma div_ceil_le a b n : 0 < b -> (a + b - 1) / b <= n -> a <= n * b.
Proof.
  intros Hb Hn. pose proof (Z.mul_div_le (a + b - 1) b Hb).
  pose proof (Z.mod_pos_bound (a + b - 1) b Hb). pose proof (Z.div_mod (a + b - 1) b).
  nia.
Qed.

Lemma div_ceil_bound a b : 0 < b -> 0 <= a -> (a + b - 1) / b <= a.
Proof.
  intros Hb Ha. destruct (decide (a = 0)) as [->|]; [rewrite Z.div_small; lia|].
  apply Z.div_le_upper_bound; nia.
Qed.

(** Hosts [cs'] are carved in order, then [fs'] taken from the cursor, until the
    remaining entries fit. *)
Lemma carve_loop_ok cap total fuel : forall cs fs hosts carved pages next,
  0 < cap -> carved = list_to_set cs -> NoDup (cs ++ hosts) ->
  pages ≡ₚ cs ++ fs -> (cs = [] \/ Z.of_nat (length cs) < total) -> 0 <= total ->
  (total - Z.of_nat (length cs) + cap - 1) / cap - Z.of_nat (length pages) < Z.of_nat fuel ->
  (0 < fuel)%nat -> next + Z.of_nat fuel <= U64_MAX ->
  exists cs' fs' hosts' pages', hosts = cs' ++ hosts' /\
    carve_loop fuel cap total carved pages hosts next =
      Ok (list_to_set (cs ++ cs'), pages', next + Z.of_nat (length fs')) /\
    pages' ≡ₚ (cs ++ cs') ++ (fs ++ fs') /\ fs' = seqZ next (Z.of_nat (length fs')) /\
    (length fs' <= fuel)%nat /\
    (cs ++ cs' = [] \/ Z.of_nat (length (cs ++ cs')) < total) /\
    total - Z.of_nat (length (cs ++ cs')) <= Z.of_nat (length pages') * cap.
Proof.
  induction fuel as [|fuel IH]; intros cs fs hosts carved pages next Hcap -> Hnd Hp Hcs Ht Hf H0f Hnx.
  { lia. }
  cbn [carve_loop]. rewrite size_list_to_set by (by apply NoDup_app in Hnd as [? _]).
  remember (total - Z.of_nat (length cs)) as rem eqn:Hrem.
  assert ((if rem =? 0 then Ok 0 else div_ceil rem cap) =
    @Ok PagedbError _ ((rem + cap - 1) / cap)) as ->.
  { unfold div_ceil. rewrite (proj2 (Z.eqb_neq cap 0)) by lia.
    destruct (Z.eqb_spec rem 0) as [->|]; [|done]. by rewrite Z.div_small by lia. }
  destruct (Z.leb_spec ((rem + cap - 1) / cap) (Z.of_nat (length pages))) as [Hle|Hgt].
  { exists [], [], hosts, pages. rewrite !app_nil_r. simpl. rewrite Z.add_0_r.
    split_and!; try done; [lia|]. rewrite <- Hrem. by apply div_ceil_le. }
  destruct (if 1 <? rem then hosts else []) as [|h hs] eqn:Eh.
  - rewrite (proj2 (Z.eqb_neq next U64_MAX)) by lia.
    destruct (IH cs (fs ++ [next]) hosts (list_to_set cs) (pages ++ [next]) (next + 1))
      as (cs' & fs' & hosts' & pages' & Hh & Hw & Hp' & Hfs & Hlf & Hlt & Hfit); try done.
    + rewrite Hp. solve_Permutation.
    + rewrite length_app, <- Hrem. simpl. lia.
    + lia.
    + lia.
    + exists cs', (next :: fs'), hosts', pages'. rewrite Hw. split_and!; try done.
      * do 2 f_equal. simpl. lia.
      * rewrite Hp'. solve_Permutation.
      * cbn [length]. rewrite seqZ_cons by lia. f_equal. rewrite Hfs at 1. f_equal; lia.
      * simpl. lia.
  - destruct (Z.ltb_spec 1 rem); [subst hosts|done].
    destruct (IH (cs ++ [h]) fs hs ({[h]} ∪ list_to_set cs) (pages ++ [h]) next)
      as (cs' & fs' & hosts' & pages' & Hh & Hw & Hp' & Hfs & Hlf & Hlt & Hfit); try done.
    + rewrite list_to_set_app_L. simpl. set_solver.
    + by rewrite <- app_assoc.
    + rewrite Hp. solve_Permutation.
    + right. rewrite length_app. simpl. lia.
    + rewrite !length_app. simpl.
      assert ((rem - 1 + cap - 1) / cap <= (rem + cap - 1) / cap) by (apply Z.div_le_mono; lia).
      replace (total - Z.of_nat (length cs + 1) + cap - 1) with (rem - 1 + cap - 1) by lia. lia.
    + lia.
    + lia.
    + exists (h :: cs'), fs', hosts', pages'. rewrite <- app_assoc in *. simpl in *.
      split_and!; try done; [by rewrite Hh|rewrite Hp'; solve_Permutation|lia].
Qed.

(** ** Rewriting a prefix *)

(** The list [rewrite_chain] supersedes: the chain of the pages being replaced
    followed by the retained tail. No host is one of its pages, nothing is listed
    twice or both listed and a page of the tail, and every page it names lies below
    the cursor. The pages being replaced may be among the entries, as freed pages. *)
Record supersedes (st : Store) (old_head : Z) (olinks tlinks : list (Z * list entry))
    (es : list entry) (hosts : list Z) (next_page : Z) : Prop :=
  mk_supersedes {
    su_chain : chain st old_head (olinks ++ tlinks);
    su_hosts : Forall (fun p => p ∉ olinks.*1) hosts;
    su_distinct : NoDup (es.*2 ++ (all_entries tlinks).*2 ++ tlinks.*1);
    su_below : Forall (fun p => p < next_page) (es.*2 ++ (all_entries tlinks).*2 ++ olinks.*1);
  }.

(** What the doc comment of [rewrite_chain] asks of its callers: the tail is a
    chain whose summary is the one named, the host candidates are pages of the
    entries and no pages of the tail or of the pages being replaced, and every page
    in use lies below the cursor. *)
Record rewrite_pre (page_size : Z) (st : Store) (es : list entry) (hosts : list Z)
    (next_page : Z) (tail : ChainTail) (tlinks : list (Z * list entry))
    (old_head : Z) (olinks : list (Z * list entry)) : Prop :=
  mk_rewrite_pre {
    rp_cap : 0 < chain_capacity page_size;
    rp_size : body_capacity page_size <= U32_MAX;
    rp_tail : chain st (tail_head tail) tlinks;
    rp_sum : tail_summary tail = summary_of (all_entries tlinks);
    rp_es : Forall is_entry es;
    rp_tes : Forall is_entry (all_entries tlinks);
    rp_old : supersedes st old_head olinks tlinks es hosts next_page;
    rp_hosts : NoDup hosts;
    rp_sub : hosts ⊆ es.*2;
    rp_dis : Forall (fun p => ~ (p ∈ tlinks.*1)) hosts;
    rp_below : Forall (fun p => 0 < p < next_page) (hosts ++ tlinks.*1);
    rp_next : 0 < next_page;
    rp_room : next_page + Z.of_nat (length es) < U64_MAX;
    rp_total : Z.of_nat (length es + length (all_entries tlinks)) <= U64_MAX;
  }.

Lemma carved_pids (es : list entry) (cs : list Z) :
  NoDup es.*2 -> NoDup cs -> cs ⊆ es.*2 ->
  es.*2 ≡ₚ cs ++ (filter (fun e => ~ (e.2 ∈ (list_to_set cs : gset Z))) es).*2.
Proof.
  intros Hes Hcs Hsub. apply NoDup_Permutation; [done|apply NoDup_app; split_and!|].
  - done.
  - intros p Hp (e & -> & [He _]%list_elem_of_filter)%list_elem_of_fmap.
    apply He. by apply elem_of_list_to_set.
  - eapply sublist_NoDup; [exact Hes|]. apply fmap_sublist, sublist_filter.
  - intros p. rewrite elem_of_app. split.
    + intros (e & -> & He)%list_elem_of_fmap.
      destruct (decide (e.2 ∈ cs)) as [|Hni]; [by left|right].
      apply list_elem_of_fmap. exists e. split; [done|]. apply list_elem_of_filter.
      by rewrite elem_of_list_to_set.
    + intros [Hp|(e & -> & [_ He]%list_elem_of_filter)%list_elem_of_fmap]; [by apply Hsub|].
      apply list_elem_of_fmap. eauto.
Qed.

Lemma rewrite_chain_ok page_size st es hosts next_page tail tlinks old_head olinks :
  rewrite_pre page_size st es hosts next_page tail tlinks old_head olinks ->
  exists head next st' links carved pages,
    rewrite_chain page_size st es hosts next_page tail = Ok (head, next, st') /\
    chain st' head links /\
    all_entries links = filter (fun e => ~ (e.2 ∈ (list_to_set carved : gset Z))) es
                          ++ all_entries tlinks /\
    links.*1 = pages ++ tlinks.*1 /\
    es.*2 ≡ₚ carved ++ (filter (fun e => ~ (e.2 ∈ (list_to_set carved : gset Z))) es).*2 /\
    pages ≡ₚ carved ++ seqZ next_page (next - next_page) /\
    carved ⊆ hosts /\ next_page <= next <= next_page + Z.of_nat (S (length es)) /\
    (forall p, ~ (p ∈ pages) -> st' !! p = st !! p).
Proof.
  intros [Hcap Hps Hc Hsum Hes Htes [_ _ [Hpid _]%NoDup_app _] Hnd Hsub Hdis Hbel Hnp Hroom Htot].
  unfold rewrite_chain. destruct (decide (es = [])) as [->|Hne].
  { exists (tail_head tail), next_page, st, tlinks, [], []. simpl.
    split_and!; try done; [by rewrite Z.sub_diag|apply list_subseteq_nil|simpl; lia]. }
  pose proof (div_ceil_bound (Z.of_nat (length es)) (chain_capacity page_size) Hcap ltac:(lia)) as Hneed.
  destruct (carve_loop_ok (chain_capacity page_size) (Z.of_nat (length es)) (S (length es))
    [] [] hosts ∅ [] next_page) as (cs & fs & hosts' & pages & Hh & -> & Hp & Hfs & Hlf & Hlt & Hfit);
    [done|done|done|done|by left|lia|cbn [length]; rewrite !Z.sub_0_r; lia|lia|lia|].
  simpl in Hp, Hlt, Hfit |- *. rewrite Hh in Hnd, Hdis, Hbel, Hsub.
  apply NoDup_app in Hnd as (Hndc & _). apply Forall_app in Hdis as [Hdis _].
  rewrite <- app_assoc in Hbel. apply Forall_app in Hbel as [Hbc [_ Hbt]%Forall_app].
  assert (cs ⊆ es.*2) as Hcs by (intros p ?; apply Hsub, elem_of_app; by left).
  pose proof (carved_pids es cs Hpid Hndc Hcs) as Hperm.
  set (kept := filter (fun e => ~ (e.2 ∈ (list_to_set cs : gset Z))) es) in *.
  assert (length es = length cs + length kept)%nat as Hlen.
  { rewrite <- (length_fmap snd es), Hperm, length_app, length_fmap. done. }
  destruct (write_chain_ok page_size Hcap Hps st tail tlinks Hc Hsum) with (es := kept) (pages := pages)
    as (head & st' & links & -> & Hc' & He & Hl & Hf).
  - destruct tlinks as [|[p c] tl]; simpl in Hc; [lia|]. destruct Hc as [-> _].
    apply Forall_cons in Hbt as [Hpb _]. cbn in Hpb. unfold U64_MAX in *. lia.
  - done.
  - apply Forall_forall. intros e [_ He]%list_elem_of_filter. by eapply Forall_forall in Hes.
  - split_and!.
    + rewrite Hp. apply NoDup_app. split_and!; [done| |rewrite Hfs; apply NoDup_seqZ].
      intros p Hpc. rewrite Hfs. rewrite elem_of_seqZ.
      rewrite Forall_forall in Hbc. apply Hbc in Hpc. lia.
    + rewrite Hp, Hfs. unfold U64_MAX in *. apply Forall_app. split.
      * eapply Forall_impl; [exact Hbc|]. simpl. lia.
      * apply Forall_forall. intros p. rewrite elem_of_seqZ. lia.
    + rewrite Hp, Hfs. apply Forall_app. split; [done|]. apply Forall_forall.
      intros p. rewrite elem_of_seqZ. rewrite Forall_forall in Hbt. intros ? Hpt.
      apply Hbt in Hpt. lia.
  - lia.
  - lia.
  - exists head, (next_page + Z.of_nat (length fs)), st', links, cs, pages.
    split_and!; try done; [|rewrite Hp, Z.add_simpl_l, <- Hfs; done|
      intros p ?; rewrite Hh; apply elem_of_app; by left|lia|lia].
    rewrite Hl. destruct kept eqn:Ek; [|done]. exfalso. simpl in Hlen.
    destruct Hlt as [->|]; [|lia]. by destruct es.
Qed.

(** ** Properties *)

(** The pages listed afterwards and the pages of the new chain are distinct. *)
Lemma rewrite_distinct (es kept : list entry) (tes tpages pages : list Z) (next n : Z) :
  kept.*2 ++ pages ≡ₚ es.*2 ++ seqZ next n ->
  NoDup (es.*2 ++ tes ++ tpages) -> Forall (fun p => p < next) (es.*2 ++ tes ++ tpages) ->
  NoDup ((kept.*2 ++ tes) ++ pages ++ tpages).
Proof.
  intros Hp Hnd Hb. rewrite Forall_forall in Hb.
  assert (es.*2 ++ seqZ next n ++ tes ++ tpages ≡ₚ (kept.*2 ++ tes) ++ pages ++ tpages) as Hq.
  { rewrite (assoc_L app), <- Hp. solve_Permutation. }
  rewrite <- Hq, (assoc_L app), (comm app es.*2), <- (assoc_L app).
  apply NoDup_app. split_and!; [apply NoDup_seqZ| |done].
  intros p Hpn Hin. apply elem_of_seqZ in Hpn. apply Hb in Hin. lia.
Qed.

(** C12: rewriting a prefix of the free list loses no page and names none twice.
    On entries naming distinct pages, hosts among them that are no page of the
    superseded chain, and a tail that is a chain, [rewrite_chain] returns; the
    chain it publishes reads back as the entries whose pages were not carved,
    followed by the tail's entries, on new pages followed by the tail's pages;
    the pages still listed together with the new chain pages are exactly the
    pages listed before together with the pages taken from the cursor; no page
    is listed twice, or both listed and a page of the chain; and no page but the
    new chain pages is written, none of which is a page of the superseded chain,
    which reads back afterwards as before. The published summaries are exact. *)
Theorem freelist_rewrite page_size st es hosts next_page tail tlinks old_head olinks :
  rewrite_pre page_size st es hosts next_page tail tlinks old_head olinks ->
  exists head next st' kept pages,
    rewrite_chain page_size st es hosts next_page tail = Ok (head, next, st') /\
    kept `sublist_of` es /\
    kept.*2 ++ pages ≡ₚ es.*2 ++ seqZ next_page (next - next_page) /\
    NoDup ((kept ++ all_entries tlinks).*2 ++ pages ++ tlinks.*1) /\
    Forall (fun p => (p ∈ hosts \/ next_page <= p < next) /\ p ∉ (olinks ++ tlinks).*1) pages /\
    (forall p, ~ (p ∈ pages) -> st' !! p = st !! p) /\
    (Z.of_nat (size st') < USIZE_MAX ->
       read_chain st' head = Ok (kept ++ all_entries tlinks, pages ++ tlinks.*1) /\
       read_chain st' old_head = Ok (all_entries (olinks ++ tlinks), (olinks ++ tlinks).*1)) /\
    count_chain st' head = Ok (Z.of_nat (length (kept ++ all_entries tlinks))) /\
    (forall floor, count_at_or_above_floor st' head floor =
       Ok (stuck floor (kept ++ all_entries tlinks))).
Proof.
  intros Hpre. pose proof (rp_old _ _ _ _ _ _ _ _ _ Hpre) as [Hold Hho Hdi Hbe].
  pose proof (rp_total _ _ _ _ _ _ _ _ _ Hpre) as Htot.
  pose proof (rp_below _ _ _ _ _ _ _ _ _ Hpre) as [_ Htb]%Forall_app.
  destruct (rewrite_chain_ok _ _ _ _ _ _ _ _ _ Hpre) as
    (head & next & st' & links & cs & pages & -> & Hc & He & Hl & Hperm & Hp & Hcs & [Hn _] & Hf).
  set (kept := filter _ es) in *.
  assert (kept.*2 ++ pages ≡ₚ es.*2 ++ seqZ next_page (next - next_page)) as Hpp
    by (rewrite Hp, Hperm; solve_Permutation).
  assert (Forall (fun p => (p ∈ hosts \/ next_page <= p < next) /\ p ∉ (olinks ++ tlinks).*1) pages) as Hnew.
  { pose proof (rp_dis _ _ _ _ _ _ _ _ _ Hpre) as Hdt. rewrite fmap_app, Hp.
    rewrite !Forall_forall in *. intros p [Hh%Hcs|Hs]%elem_of_app.
    - split; [by left|]. rewrite elem_of_app. naive_solver.
    - apply elem_of_seqZ in Hs. split; [lia|]. intros [Ho|Ht]%elem_of_app.
      + specialize (Hbe p ltac:(rewrite !elem_of_app; auto)). simpl in Hbe. lia.
      + apply Htb in Ht. lia. }
  exists head, next, st', kept, pages. split; [done|]. split; [apply sublist_filter|].
  split; [done|]. split; [|split; [done|split; [done|split; [|split]]]].
  - rewrite fmap_app. eapply rewrite_distinct; [done..|].
    rewrite !Forall_app in *. destruct Hbe as (? & ? & _). split_and!; [done..|].
    eapply Forall_impl; [exact Htb|]. simpl. lia.
  - intros Hsz. split; [rewrite (read_free_chain_ok _ _ _ Hc) by done; by rewrite He, Hl|].
    apply read_free_chain_ok; [|done]. eapply free_chain_frame; [|exact Hold].
    intros p Hpo. apply Hf. intros Hpn. rewrite Forall_forall in Hnew. by apply (Hnew p Hpn).
  - unfold count_chain. pose proof (read_summary_at _ _ _ Hc 0) as Hs.
    rewrite <- (chain_head _ _ _ Hc) in Hs. by rewrite Hs, drop_0, He.
  - intros floor. rewrite <- He. apply count_floor_ok; [done|].
    rewrite He, length_app. assert (length kept <= length es)%nat by apply length_filter. lia.
Qed.

(** The window the write path loads is exact. From a chain,
    [read_chain_prefix] returns the entries and the page ids of its first
    [max_pages] pages, and as the tail the chain of the remaining pages together
    with the exact summary of what they hold. *)
Theorem freelist_window st head links (max_pages : nat) :
  chain st head links ->
  exists prefix, read_chain_prefix st head (Z.of_nat max_pages) = Ok prefix /\
    prefix_entries prefix = all_entries (take max_pages links) /\
    prefix_chain_pages prefix = (take max_pages links).*1 /\
    chain st (tail_head (prefix_tail prefix)) (drop max_pages links) /\
    tail_summary (prefix_tail prefix) = summary_of (all_entries (drop max_pages links)).
Proof.
  intros Hc. rewrite (read_chain_prefix_ok _ _ _ _ Hc). eexists. split; [done|].
  split; [done|]. split; [done|]. split; [|done]. by eapply chain_drop.
Qed.

(** A chain of two pages, two entries to a page. *)
Definition sample_store : Store :=
  match write_chain 116 ∅ [5; 6] [(9, 20); (0, 21); (4, 22)] EMPTY with
  | Ok (_, st) => st
  | _ => ∅
  end.
Definition sample_links : list (Z * list entry) := [(5, [(9, 20); (0, 21)]); (6, [(4, 22)])].

Lemma sample_chain : chain sample_store 5 sample_links.
Proof.
  split_and!; [done|done|by apply (bool_decide_unpack _); vm_compute|]. exists 6. split.
  - eexists. split; [by vm_compute|]. split; [by vm_compute|].
    intros [|[|[|]]] e [= <-]; by vm_compute.
  - split_and!; [done|done|apply not_elem_of_nil|]. exists 0. split; [|done].
    eexists. split; [by vm_compute|]. split; [by vm_compute|].
    intros [|[|]] e [= <-]; by vm_compute.
Qed.

(** The second page of the chain is retained; the first is replaced and listed
    as free, and page 20 is the host. *)
Lemma freelist_rewrite_witness :
  exists (head next : Z) (st' : Store) (kept : list entry) (pages : list Z),
    rewrite_chain 116 sample_store [(9, 20); (0, 21); (12, 5)] [21; 20] 30
      (mkChainTail 6 (summary_of [(4, 22)])) = Ok (head, next, st') /\
    kept.*2 ++ pages ≡ₚ [20; 21; 5] ++ seqZ 30 (next - 30) /\
    read_chain st' 5 = Ok ([(9, 20); (0, 21); (4, 22)], [5; 6]).
Proof.
  destruct (freelist_rewrite 116 sample_store [(9, 20); (0, 21); (12, 5)] [21; 20] 30
              (mkChainTail 6 (summary_of [(4, 22)])) [(6, [(4, 22)])] 5 [(5, [(9, 20); (0, 21)])])
    as (head & next & st' & kept & pages & Hr & _ & Hp & _ & _ & _ & Hread & _).
  - constructor; try done.
    + exact (chain_drop sample_store 5 sample_links 1 sample_chain).
    + repeat (apply Forall_cons; split; [split; simpl; lia|]). by apply Forall_nil.
    + repeat (apply Forall_cons; split; [split; simpl; lia|]). by apply Forall_nil.
    + constructor; [exact sample_chain|apply (bool_decide_unpack _); by vm_compute..].
    + apply (bool_decide_unpack _). by vm_compute.
    + simpl. set_solver.
    + apply (bool_decide_unpack _). by vm_compute.
    + apply (bool_decide_unpack _). by vm_compute.
  - exists head, next, st', kept, pages. split; [exact Hr|]. split; [exact Hp|].
    apply Hread. assert (rewrite_chain 116 sample_store [(9, 20); (0, 21); (12, 5)] [21; 20] 30
      (mkChainTail 6 (summary_of [(4, 22)])) = Ok (head, next, st')) as Hr' by exact Hr.
    vm_compute in Hr'. injection Hr' as _ _ <-. by vm_compute.
Defined.

Lemma freelist_window_witness :
  exists prefix, read_chain_prefix sample_store 5 (Z.of_nat 1) = Ok prefix /\
    prefix_entries prefix = [(9, 20); (0, 21)] /\ prefix_chain_pages prefix = [5].
Proof.
  destruct (freelist_window sample_store 5 sample_links 1 sample_chain)
    as (prefix & Hp & He & Hc & _).
  exists prefix. split; [exact Hp|]. split; [exact He|exact Hc].
Defined.

(** C24: the cursor terminates on every page image. Whatever the pages hold, a
    cycle included, a bounded or unbounded walk returns a value or an error after
    at most one more call of [advance] than the image has pages; so does the
    count of the stuck entries. *)
Theorem freelist_walk_terminates st head max_pages floor :
  read_chain_prefix st head max_pages <> Panic /\
  count_at_or_above_floor st head floor <> Panic /\
  count_chain st head <> Panic.
Proof.
  split; [apply read_chain_prefix_total|]. split; [apply count_floor_total|].
  unfold count_chain. pose proof (read_chain_summary_no_panic st head).
  by destruct (read_chain_summary _ _).
Qed.
