(* ===== verification/Crypto.v ===== *)
(** * Crypto: associated data, nonces, key derivation and the cipher facade

    [src/src/crypto/]: [aad.rs], [nonce.rs], [kdf.rs], [cipher.rs] and
    [key_manager.rs]. The primitives (HMAC, HKDF, the two AEADs) are third-party
    crates: they are the fields of [Primitives], and what their documentation
    promises is [PrimitivesSpec]. *)

From S2P Require Import Prelude Keys Errors PageFormat.
From Stdlib Require Import ZArith Lia.
From stdpp Require Import base list strings gmap.
From coqutil Require Import Byte Word.LittleEndianList.

Local Open Scope Z_scope.
Local Open Scope pagedb_scope.

(** ** The primitives

    [hmac_sha256 key message] has 32 bytes; [hkdf salt ikm info] is HKDF-SHA-256
    expanded to 32 bytes, a length that cannot fail; an AEAD encrypts a body in
    place and returns a detached tag, or fails. *)
Class Primitives := {
  hmac_sha256 : bytes -> bytes -> bytes;
  hkdf : option bytes -> bytes -> bytes -> bytes;
  aes_encrypt : bytes -> bytes -> bytes -> bytes -> option (bytes * bytes);
  aes_decrypt : bytes -> bytes -> bytes -> bytes -> bytes -> option bytes;
  chacha_encrypt : bytes -> bytes -> bytes -> bytes -> option (bytes * bytes);
  chacha_decrypt : bytes -> bytes -> bytes -> bytes -> bytes -> option bytes;
}.

(** An AEAD keeps the length of the body, has a 16-byte tag, decrypts what it
    encrypted under the same key, nonce and associated data, and accepts nothing
    but the ciphertext and tag that encrypting the plaintext gives. *)
Definition aead_spec (enc : bytes -> bytes -> bytes -> bytes -> option (bytes * bytes))
    (dec : bytes -> bytes -> bytes -> bytes -> bytes -> option bytes) : Prop :=
  forall key nonce aad body ct tag, 
    (enc key nonce aad body = Some (ct, tag) -> blen ct = blen body /\ blen tag = 16) /\
    (enc key nonce aad body = Some (ct, tag) <-> dec key nonce aad ct tag = Some body).

Class PrimitivesSpec `{Primitives} : Prop := {
  hmac_len : forall k m, blen (hmac_sha256 k m) = 32;
  hkdf_len : forall s k i, blen (hkdf s k i) = 32;
  aes_spec : aead_spec aes_encrypt aes_decrypt;
  chacha_spec : aead_spec chacha_encrypt chacha_decrypt;
}.

(** ** [aad.rs] *)

Definition PAGE_KIND_SEGMENT_FOOTER : Z := 32.
Definition MAIN_DB_SEGMENT_ID : bytes := zeros 16.

Record AadFields := mkAadFields {
  aad_cipher_id : Z;
  aad_page_kind : Z;
  aad_mk_epoch : Z;
  aad_page_id : Z;
  aad_realm_id : RealmId;
  aad_segment_id : bytes;
}.

Definition AAD_LEN : Z := 1 + 1 + 8 + 8 + 16 + 16.

Definition aad_from_fields (f : AadFields) : result bytes :=
  write_fields (zeros AAD_LEN) 0
    [[to_u8 (aad_cipher_id f)]; [to_u8 (aad_page_kind f)]; le64 (aad_mk_epoch f);
     le64 (aad_page_id f); aad_realm_id f; aad_segment_id f].

Definition aad_fields_ok (f : AadFields) : Prop :=
  is_u8 (aad_cipher_id f) /\ is_u8 (aad_page_kind f) /\ is_u64 (aad_mk_epoch f) /\
  is_u64 (aad_page_id f) /\ blen (aad_realm_id f) = 16 /\ blen (aad_segment_id f) = 16.

(** ** [nonce.rs] *)

Definition COUNTER_MAX : Z := 2 ^ 48 - 1.
Definition DEFAULT_ANCHOR_BUDGET : Z := 1024.
Definition MAX_ANCHOR_BUDGET : Z := 2 ^ 20.

(** [Nonce::from_parts]: the low six bytes of the counter. *)
Definition nonce_from_parts (file_id6 : bytes) (counter : Z) : bytes :=
  file_id6 ++ take 6 (le64 counter).

Record MainDbNonceGen := mkMainDbNonceGen {
  prefix : bytes;
  next : Z;
  durable_anchor : Z;
  budget : Z;
}.

Definition main_gen_new (file_id : bytes) (bud : Z) : MainDbNonceGen :=
  mkMainDbNonceGen (take 6 file_id) 1 0 (Z.min bud MAX_ANCHOR_BUDGET).

Definition main_gen_recover (file_id : bytes) (recovered_anchor bud : Z) : MainDbNonceGen :=
  mkMainDbNonceGen (take 6 file_id)
    (saturating_add (saturating_add recovered_anchor MAX_ANCHOR_BUDGET) 1)
    recovered_anchor (Z.min bud MAX_ANCHOR_BUDGET).

Definition use_prefix (g : MainDbNonceGen) (p : bytes) : MainDbNonceGen :=
  mkMainDbNonceGen p (next g) (durable_anchor g) (budget g).

Definition next_nonce (g : MainDbNonceGen) : result (bytes * MainDbNonceGen) :=
  if COUNTER_MAX <? next g then Err NonceCounterExhausted else
  if saturating_add (durable_anchor g) (budget g) <? next g then Err Aborted else
  Ok (nonce_from_parts (prefix g) (next g),
      mkMainDbNonceGen (prefix g) (next g + 1) (durable_anchor g) (budget g)).

Definition pending_anchor (g : MainDbNonceGen) : Z := saturating_sub (next g) 1.

Definition window_remaining (g : MainDbNonceGen) : Z :=
  saturating_sub (saturating_add (durable_anchor g) (budget g)) (pending_anchor g).

Definition commit_anchor (g : MainDbNonceGen) (persisted : Z) : result MainDbNonceGen :=
  if (persisted <? durable_anchor g) || (pending_anchor g <? persisted) then Err Aborted else
  Ok (mkMainDbNonceGen (prefix g) (next g) persisted (budget g)).

Record SegmentNonceGen := mkSegmentNonceGen {
  file_id6 : bytes;
  seg_next : Z;
}.

Definition segment_gen_new (segment_id : bytes) : SegmentNonceGen :=
  mkSegmentNonceGen (take 6 segment_id) 1.

Definition segment_next_nonce (g : SegmentNonceGen) : result (bytes * SegmentNonceGen) :=
  if COUNTER_MAX <? seg_next g then Err NonceCounterExhausted else
  Ok (nonce_from_parts (file_id6 g) (seg_next g),
      mkSegmentNonceGen (file_id6 g) (seg_next g + 1)).

Definition final_counter (g : SegmentNonceGen) : Z := saturating_sub (seg_next g) 1.

(** ** [kdf.rs] *)

Definition bstr (s : string) : bytes := String.list_byte_of_string s.

Definition INFO_MASTER_PREFIX : bytes := bstr "pagedb/master/v1/".
Definition INFO_REALM_PREFIX : bytes := bstr "pagedb/realm/".
Definition INFO_INTEGRITY_PREFIX : bytes := bstr "pagedb/integrity/".
Definition INFO_FILE_INFIX : bytes := bstr "/file/".
Definition INFO_V2_SUFFIX : bytes := bstr "/v2".
Definition INFO_HEADER_MAC : bytes := bstr "pagedb/header-mac/v1".
Definition INFO_SPILL_PREFIX : bytes := bstr "pagedb/spill/".

Definition scoped_info_len (prefix_len : Z) : Z :=
  prefix_len + 16 + blen INFO_FILE_INFIX + 16 + blen INFO_V2_SUFFIX.

Definition scoped_info (pre : bytes) (realm_id : RealmId) (file_id : bytes) : result bytes :=
  write_fields (zeros (scoped_info_len (blen pre))) 0
    [pre; realm_id; INFO_FILE_INFIX; file_id; INFO_V2_SUFFIX].

Section kdf.
Context `{Primitives}.

Definition expand (ikm info : bytes) : bytes := hkdf None ikm info.

Definition derive_mk (kek kek_salt : bytes) (mk_epoch : Z) : bytes :=
  hkdf (Some kek_salt) kek (INFO_MASTER_PREFIX ++ le64 mk_epoch).

Definition derive_dek (mk : bytes) (realm_id : RealmId) (file_id : bytes) : result bytes :=
  let! info := scoped_info INFO_REALM_PREFIX realm_id file_id in Ok (expand mk info).

Definition derive_ik (mk : bytes) (realm_id : RealmId) (file_id : bytes) : result bytes :=
  let! info := scoped_info INFO_INTEGRITY_PREFIX realm_id file_id in Ok (expand mk info).

Definition derive_hk (mk : bytes) : bytes := expand mk INFO_HEADER_MAC.

Definition derive_spill_key (mk file_id spill_epoch : bytes) (txn_seq : Z) : result bytes :=
  let! info := write_fields (zeros (blen INFO_SPILL_PREFIX + 16 + 16 + 8)) 0
                 [INFO_SPILL_PREFIX; file_id; spill_epoch; le64 txn_seq] in
  Ok (expand mk info).
End kdf.

(** ** [cipher.rs] *)

Inductive Cipher :=
| CPlaintextMac (ik : bytes)
| CAes256Gcm (dek : bytes)
| CChaCha20Poly1305 (dek : bytes).

Definition cipher_id (c : Cipher) : CipherId.t :=
  match c with
  | CPlaintextMac _ => CipherId.PlaintextMac
  | CAes256Gcm _ => CipherId.Aes256Gcm
  | CChaCha20Poly1305 _ => CipherId.ChaCha20Poly1305
  end.

(** [acc |= x ^ y] over the pairs, then [acc == 0]. *)
Definition constant_time_eq (a b : bytes) : bool :=
  if negb (blen a =? blen b) then false else
  foldl (fun acc p => Z.lor acc (Z.lxor (u8_of p.1) (u8_of p.2))) 0 (zip a b) =? 0.

Section cipher.
Context `{Primitives}.

Definition encrypt (c : Cipher) (nonce aad body : bytes) : result (bytes * bytes) :=
  match c with
  | CPlaintextMac ik => Ok (body, take 16 (hmac_sha256 ik (aad ++ body)))
  | CAes256Gcm dek => ok_or (aes_encrypt dek nonce aad body) ChecksumFailure
  | CChaCha20Poly1305 dek => ok_or (chacha_encrypt dek nonce aad body) ChecksumFailure
  end.

Definition decrypt (c : Cipher) (nonce aad body tag : bytes) : result bytes :=
  match c with
  | CPlaintextMac ik =>
      let full := hmac_sha256 ik (aad ++ body) in
      if negb (constant_time_eq (take 16 full) tag) then Err ChecksumFailure else Ok body
  | CAes256Gcm dek => ok_or (aes_decrypt dek nonce aad body tag) ChecksumFailure
  | CChaCha20Poly1305 dek => ok_or (chacha_decrypt dek nonce aad body tag) ChecksumFailure
  end.

(** ** [key_manager.rs] *)

Definition derive_cipher (id : CipherId.t) (mk : bytes) (realm : RealmId) (file_id : bytes)
  : result Cipher :=
  match id with
  | CipherId.Aes256Gcm => let! k := derive_dek mk realm file_id in Ok (CAes256Gcm k)
  | CipherId.ChaCha20Poly1305 =>
      let! k := derive_dek mk realm file_id in Ok (CChaCha20Poly1305 k)
  | CipherId.PlaintextMac => let! k := derive_ik mk realm file_id in Ok (CPlaintextMac k)
  end.
End cipher.

(** [DekKey]: realm, file id, master-key epoch, cipher id byte. *)
Abbreviation DekKey := (RealmId * bytes * Z * Z)%type.

Record DekLru := mkDekLru {
  lru_map : gmap DekKey Cipher;
  lru_order : list DekKey;
  lru_capacity : Z;
}.

Definition lru_with_capacity (capacity : Z) : DekLru := mkDekLru ∅ [] (Z.max capacity 1).

Definition key_of_epoch (mk_epoch cid : Z) (k : DekKey) : bool :=
  let '(_, _, e, c) := k in negb (negb (e =? mk_epoch) || negb (c =? cid)).

Definition invalidate_epoch (l : DekLru) (mk_epoch : Z) (id : CipherId.t) : DekLru :=
  let cid := CipherId.as_byte id in
  mkDekLru (filter (fun p => key_of_epoch mk_epoch cid p.1 = false) (lru_map l))
    (filter (fun k => key_of_epoch mk_epoch cid k = false) (lru_order l)) (lru_capacity l).

Section lru.
Context `{Primitives}.

(** [VecDeque::remove] at the first position of [k], then [push_back]. *)
Fixpoint remove_first (k : DekKey) (l : list DekKey) : list DekKey :=
  match l with
  | [] => []
  | x :: l => if decide (x = k) then l else x :: remove_first k l
  end.

Definition get_or_derive (l : DekLru) (realm : RealmId) (file_id : bytes) (mk_epoch : Z)
    (id : CipherId.t) (mk : bytes) : result (Cipher * DekLru) :=
  let key : DekKey := (realm, file_id, mk_epoch, CipherId.as_byte id) in
  match lru_map l !! key with
  | Some c =>
      let order := if decide (key ∈ lru_order l)
                   then remove_first key (lru_order l) ++ [key] else lru_order l in
      Ok (c, mkDekLru (lru_map l) order (lru_capacity l))
  | None =>
      let! c := derive_cipher id mk realm file_id in
      let '(m, order) :=
        if lru_capacity l <=? Z.of_nat (size (lru_map l)) then
          match lru_order l with
          | victim :: order => (delete victim (lru_map l), order)
          | [] => (lru_map l, [])
          end
        else (lru_map l, lru_order l) in
      Ok (c, mkDekLru (<[key := c]> m) (order ++ [key]) (lru_capacity l))
  end.
End lru.

(** ** Layout lemmas *)

Lemma zip_lookup_both {A B} (l : list A) (k : list B) i x y :
  l !! i = Some x -> k !! i = Some y -> zip l k !! i = Some (x, y).
Proof. intros Hx Hy. by rewrite lookup_zip_with, Hx, Hy. Qed.

Lemma foldl_lor_zero (ps : list (byte * byte)) acc :
  0 <= acc ->
  foldl (fun acc p => Z.lor acc (Z.lxor (u8_of p.1) (u8_of p.2))) acc ps = 0 <->
  acc = 0 /\ Forall (fun p => p.1 = p.2) ps.
Proof.
  revert acc; induction ps as [|[x y] ps IH]; intros acc Ha; simpl.
  - rewrite Forall_nil. tauto.
  - assert (0 <= Z.lxor (u8_of x) (u8_of y)) as Hx
      by (apply Z.lxor_nonneg; pose proof (u8_of_bound x); pose proof (u8_of_bound y); lia).
    rewrite IH by (apply Z.lor_nonneg; lia). rewrite Forall_cons, Z.lor_eq_0_iff, Z.lxor_eq_0_iff.
    simpl. split; [|naive_solver]. intros [[-> He] HF]. split; [done|]. split; [|done].
    by rewrite <- (to_u8_u8 x), <- (to_u8_u8 y), He.
Qed.

(** The constant-time comparison is equality. *)
Lemma constant_time_eq_spec a b : constant_time_eq a b = true <-> a = b.
Proof.
  unfold constant_time_eq. destruct (Z.eqb_spec (blen a) (blen b)) as [Hl|Hl]; simpl.
  - rewrite Z.eqb_eq, foldl_lor_zero by lia. split; [|intros ->].
    + intros [_ HF]. apply list_eq_same_length with (n := length b); [done|unfold blen in *; lia|].
      intros i x y _ Hx Hy. rewrite Forall_forall in HF.
      apply (HF (x, y)), list_elem_of_lookup. exists i. by apply zip_lookup_both.
    + split; [done|]. clear Hl. induction b; simpl; constructor; done.
  - split; [done|]. by intros ->.
Qed.
Lemma constant_time_eq_dec a b : constant_time_eq a b = bool_decide (a = b).
Proof. apply eq_bool_prop_intro. rewrite bool_decide_spec, Is_true_true. apply constant_time_eq_spec. Qed.

Lemma aad_from_fields_ok f :
  aad_fields_ok f ->
  aad_from_fields f = Ok ([to_u8 (aad_cipher_id f)] ++ [to_u8 (aad_page_kind f)] ++
    le64 (aad_mk_epoch f) ++ le64 (aad_page_id f) ++ aad_realm_id f ++ aad_segment_id f).
Proof.
  intros (_ & _ & _ & _ & Hr & Hs). unfold aad_from_fields, AAD_LEN.
  rewrite write_fields_ok; [|lia|cbn [concat]; rewrite blen_zeros by lia; blia].
  rewrite splice_all; [cbn [concat]; by rewrite app_nil_r|].
  cbn [concat]. rewrite blen_zeros by lia. blia.
Qed.

Lemma aad_kind f aad :
  aad_fields_ok f -> aad_from_fields f = Ok aad ->
  blen aad = AAD_LEN /\ sub aad 1 1 = [to_u8 (aad_page_kind f)].
Proof.
  intros Hf Haad. rewrite aad_from_fields_ok in Haad by done.
  destruct Hf as (_ & _ & _ & _ & Hr & Hs).
  apply (f_equal (fun r => match r with Ok x => x | _ => [] end)) in Haad. rewrite <- Haad.
  unfold AAD_LEN. split; [blia|done].
Qed.

Lemma le64_inj a b : is_u64 a -> is_u64 b -> le64 a = le64 b -> a = b.
Proof. intros Ha Hb H. by rewrite <- (of_le64 a), <- (of_le64 b), H. Qed.
Lemma to_u8_inj a b : is_u8 a -> is_u8 b -> to_u8 a = to_u8 b -> a = b.
Proof. intros Ha Hb H. by rewrite <- (u8_to_u8 a), <- (u8_to_u8 b), H. Qed.

Lemma app_eq_blen (a b c d : bytes) : blen a = blen c -> a ++ b = c ++ d -> a = c /\ b = d.
Proof. intros Hl. apply app_inj_1. unfold blen in Hl. lia. Qed.

(** The associated data determines the identity of the page. *)
Lemma aad_injective f f' a :
  aad_fields_ok f -> aad_fields_ok f' ->
  aad_from_fields f = Ok a -> aad_from_fields f' = Ok a -> f = f'.
Proof.
  intros Hf Hf' Ha Ha'. rewrite aad_from_fields_ok in Ha, Ha' by done.
  destruct Hf as (Hc & Hk & He & Hp & Hr & Hs), Hf' as (Hc' & Hk' & He' & Hp' & Hr' & Hs').
  rewrite <- Ha' in Ha. apply (f_equal (fun r => match r with Ok x => x | _ => [] end)) in Ha.
  apply app_eq_blen in Ha as [E1 Ha]; [|done]. apply app_eq_blen in Ha as [E2 Ha]; [|done].
  apply app_eq_blen in Ha as [E3 Ha]; [|by rewrite !blen_le64].
  apply app_eq_blen in Ha as [E4 Ha]; [|by rewrite !blen_le64].
  apply app_eq_blen in Ha as [E5 E6]; [|lia].
  apply (f_equal (fun l => head l)) in E1, E2. apply (inj Some) in E1, E2.
  apply to_u8_inj in E1, E2; [|done..]. apply le64_inj in E3, E4; [|done..].
  destruct f, f'. cbn [aad_cipher_id aad_page_kind aad_mk_epoch aad_page_id aad_realm_id
    aad_segment_id] in *. by subst.
Qed.

(** The counter of a nonce, as [open_data_page] reads it. *)
Definition nonce_counter (nonce : bytes) : Z := of_le (sub nonce 6 6 ++ zeros 2).

Lemma of_le_take6 z : 0 <= z <= COUNTER_MAX -> of_le (take 6 (le64 z)) = z.
Proof.
  unfold COUNTER_MAX, of_le. intros Hz. rewrite le_combine_firstn.
  change (8 * Z.of_nat 6) with 48. change (le_combine (le64 z)) with (of_le (le64 z)).
  rewrite of_le64 by lia. by rewrite Z.mod_small by lia.
Qed.

Lemma blen_take6 z : blen (take 6 (le64 z)) = 6.
Proof. pose proof (blen_le64 z). unfold blen in *. rewrite length_take. lia. Qed.

Lemma blen_nonce p c : blen p = 6 -> blen (nonce_from_parts p c) = 12.
Proof. intros. unfold nonce_from_parts. rewrite blen_app, blen_take6. lia. Qed.

Lemma nonce_counter_parts p c :
  blen p = 6 -> 0 <= c <= COUNTER_MAX -> nonce_counter (nonce_from_parts p c) = c.
Proof.
  intros Hp Hc. unfold nonce_counter, nonce_from_parts. rewrite sub_app_r by lia.
  replace (6 - blen p) with 0 by lia.
  assert (sub (take 6 (le64 c)) 0 6 = take 6 (le64 c)) as ->
    by (rewrite <- (blen_take6 c) at 1; apply sub_full).
  unfold of_le. change (zeros 2) with (List.repeat Byte.x00 2). rewrite le_combine_app_0.
  by apply of_le_take6.
Qed.

Lemma nonce_prefix_parts p c : blen p = 6 -> sub (nonce_from_parts p c) 0 6 = p.
Proof.
  intros Hp. unfold nonce_from_parts. rewrite <- Hp. rewrite sub_app_l by blia. apply sub_full.
Qed.

(** Reading the parts of a nonce and building it again changes nothing. *)
Lemma nonce_parts_eta n :
  blen n = 12 -> nonce_from_parts (sub n 0 6) (nonce_counter n) = n.
Proof.
  intros Hn. unfold nonce_from_parts, nonce_counter, le64, of_le.
  assert (length (sub n 6 6 ++ zeros 2) = 8%nat) as Hl
    by (pose proof (blen_sub n 6 6); unfold blen in *; rewrite length_app; unfold zeros; simpl; lia).
  rewrite split_le_combine' by done.
  rewrite take_app_length' by (pose proof (blen_sub n 6 6); unfold blen in *; lia).
  pose proof (sub_split n 0 6 6) as Hs. change (0 + 6) with 6 in Hs. rewrite <- Hs by lia.
  change (6 + 6) with 12. rewrite <- Hn. apply sub_full.
Qed.

(** ** Ciphers *)

Section cipher_facts.
Context `{PrimitivesSpec}.

Lemma hmac_tag_len k m : blen (take 16 (hmac_sha256 k m)) = 16.
Proof. pose proof (hmac_len k m). unfold blen in *. rewrite length_take. lia. Qed.

Lemma decrypt_encrypt c nonce aad body ct tag :
  encrypt c nonce aad body = Ok (ct, tag) ->
  blen ct = blen body /\ blen tag = 16 /\ decrypt c nonce aad ct tag = Ok body.
Proof.
  destruct c as [ik|dek|dek]; cbn [encrypt decrypt].
  - intros [= <- <-]. split; [done|]. split; [apply hmac_tag_len|].
    by rewrite (proj2 (constant_time_eq_spec _ _) eq_refl).
  - destruct (aes_encrypt dek nonce aad body) as [[ct' tag']|] eqn:E; [|done]. cbn [ok_or].
    intros [= <- <-]. destruct (aes_spec dek nonce aad body ct' tag') as [Hl Hd].
    rewrite (proj1 Hd E). split; [by apply Hl|]. by split; [apply Hl|].
  - destruct (chacha_encrypt dek nonce aad body) as [[ct' tag']|] eqn:E; [|done]. cbn [ok_or].
    intros [= <- <-]. destruct (chacha_spec dek nonce aad body ct' tag') as [Hl Hd].
    rewrite (proj1 Hd E). split; [by apply Hl|]. by split; [apply Hl|].
Qed.

(** Only what encryption gives decrypts. *)
Lemma encrypt_decrypt c nonce aad body ct tag :
  blen tag = 16 -> decrypt c nonce aad ct tag = Ok body -> encrypt c nonce aad body = Ok (ct, tag).
Proof.
  intros Ht. destruct c as [ik|dek|dek]; cbn [encrypt decrypt].
  - destruct (constant_time_eq _ _) eqn:E; [|done]. cbn [negb]. intros [= <-].
    apply constant_time_eq_spec in E. by rewrite E.
  - destruct (aes_decrypt dek nonce aad ct tag) as [p|] eqn:E; [|done]. cbn [ok_or].
    intros [= <-]. destruct (aes_spec dek nonce aad p ct tag) as [_ Hd]. by rewrite (proj2 Hd E).
  - destruct (chacha_decrypt dek nonce aad ct tag) as [p|] eqn:E; [|done]. cbn [ok_or].
    intros [= <-]. destruct (chacha_spec dek nonce aad p ct tag) as [_ Hd]. by rewrite (proj2 Hd E).
Qed.

Lemma decrypt_no_panic c nonce aad body tag : decrypt c nonce aad body tag <> Panic.
Proof.
  destruct c; cbn [decrypt]; [by case_match|..]; unfold ok_or; by case_match.
Qed.
End cipher_facts.

Lemma scoped_info_ok pre realm file :
  blen realm = 16 -> blen file = 16 ->
  scoped_info pre realm file =
    Ok (pre ++ realm ++ INFO_FILE_INFIX ++ file ++ INFO_V2_SUFFIX).
Proof.
  intros Hr Hf. unfold scoped_info, scoped_info_len.
  pose proof (blen_nonneg pre). pose proof (blen_nonneg INFO_FILE_INFIX).
  pose proof (blen_nonneg INFO_V2_SUFFIX).
  rewrite write_fields_ok; [|lia|cbn [concat]; rewrite blen_zeros by lia; blia].
  rewrite splice_all; [cbn [concat]; by rewrite app_nil_r|].
  cbn [concat]. rewrite blen_zeros by lia. blia.
Qed.

(** No two files or realms share the info string of a derived key. *)
Lemma scoped_info_injective pre realm file realm' file' i :
  blen realm = 16 -> blen file = 16 -> blen realm' = 16 -> blen file' = 16 ->
  scoped_info pre realm file = Ok i -> scoped_info pre realm' file' = Ok i ->
  realm = realm' /\ file = file'.
Proof.
  intros Hr Hf Hr' Hf' Hi Hi'. rewrite scoped_info_ok in Hi, Hi' by done.
  rewrite <- Hi' in Hi. apply (f_equal (fun r => match r with Ok x => x | _ => [] end)) in Hi.
  apply (inj (app pre)) in Hi. apply app_eq_blen in Hi as [E1 Hi]; [|lia].
  apply (inj (app INFO_FILE_INFIX)) in Hi. apply app_eq_blen in Hi as [E2 _]; [|lia]. done.
Qed.

Lemma derive_cipher_ok `{Primitives} id mk realm file :
  blen realm = 16 -> blen file = 16 ->
  exists c, derive_cipher id mk realm file = Ok c /\ cipher_id c = id.
Proof.
  intros. destruct id; cbn [derive_cipher]; unfold derive_dek, derive_ik;
    rewrite scoped_info_ok by done; eauto.
Qed.

(** ** The cache of cipher states

    [mk_of epoch] is the master key of an epoch: the callers pass the key that
    belongs to the epoch they name. *)

Section lru_facts.
Context `{Primitives} (mk_of : Z -> bytes).

Record lru_ok (l : DekLru) : Prop := mk_lru_ok {
  lru_nodup : NoDup (lru_order l);
  lru_dom : forall k, k ∈ lru_order l <-> k ∈ dom (lru_map l);
  lru_cap : 1 <= lru_capacity l;
  lru_size : Z.of_nat (length (lru_order l)) <= lru_capacity l;
  lru_vals : forall realm file e cid c, lru_map l !! (realm, file, e, cid) = Some c ->
    exists id, CipherId.as_byte id = cid /\ derive_cipher id (mk_of e) realm file = Ok c;
}.

Lemma remove_first_perm k l : k ∈ l -> l ≡ₚ k :: remove_first k l.
Proof.
  induction l as [|x l IH]; [by intros ?%not_elem_of_nil|]. cbn [remove_first].
  intros [->|Hk]%elem_of_cons; [by rewrite decide_True|].
  case_decide; [by subst|]. etrans; [by apply perm_skip, IH|]. apply Permutation_swap.
Qed.

Lemma lru_size_map l : lru_ok l -> size (lru_map l) = length (lru_order l).
Proof.
  intros [Hn Hd _ _ _]. rewrite <- (size_dom (D := gset DekKey)).
  rewrite <- (size_list_to_set (C := gset DekKey)) by done. f_equal.
  apply set_eq. intros k. rewrite elem_of_list_to_set. symmetry. apply Hd.
Qed.

Lemma lru_touch l k :
  lru_ok l -> k ∈ lru_order l ->
  lru_ok (mkDekLru (lru_map l) (remove_first k (lru_order l) ++ [k]) (lru_capacity l)).
Proof.
  intros [Hn Hd Hc Hs Hv] Hk.
  assert (lru_order l ≡ₚ remove_first k (lru_order l) ++ [k]) as Hp.
  { etrans; [by apply (remove_first_perm k)|]. apply Permutation_cons_append. }
  constructor; simpl; [by rewrite <- Hp| |done|by rewrite <- Hp|done].
  intros x. rewrite <- Hd. by rewrite <- Hp.
Qed.

Lemma lru_insert (m : gmap DekKey Cipher) order cap realm file e id c :
  lru_ok (mkDekLru m order cap) -> Z.of_nat (length order) < cap ->
  m !! (realm, file, e, CipherId.as_byte id) = None ->
  derive_cipher id (mk_of e) realm file = Ok c ->
  lru_ok (mkDekLru (<[(realm, file, e, CipherId.as_byte id) := c]> m)
            (order ++ [(realm, file, e, CipherId.as_byte id)]) cap).
Proof.
  intros [Hn Hd Hc Hs Hv] Hl Hnone Hder. simpl in *. constructor; simpl; [| |done| |].
  - apply NoDup_app. split_and!; [done| |apply NoDup_singleton].
    intros x Hx ->%list_elem_of_singleton. apply Hd in Hx. by apply not_elem_of_dom in Hnone.
  - intros k. rewrite elem_of_app, list_elem_of_singleton, dom_insert, elem_of_union,
      elem_of_singleton, Hd. tauto.
  - rewrite length_app. simpl. lia.
  - intros realm' file' e' cid' c'. rewrite lookup_insert_Some.
    intros [[[= <- <- <- <-] <-]|[_ Hm]]; [by eauto|by apply Hv].
Qed.

Lemma lru_evict l victim order :
  lru_ok l -> lru_order l = victim :: order ->
  lru_ok (mkDekLru (delete victim (lru_map l)) order (lru_capacity l)).
Proof.
  intros [Hn Hd Hc Hs Hv] Ho. rewrite Ho in *. apply NoDup_cons in Hn as [Hni Hn].
  constructor; simpl in *; [done| |done|lia|].
  - intros k. rewrite dom_delete, elem_of_difference, <- Hd, elem_of_cons, elem_of_singleton.
    naive_solver.
  - intros realm file e cid c. rewrite lookup_delete_Some. intros [_ Hm]. by apply Hv.
Qed.

Lemma as_byte_inj i j : CipherId.as_byte i = CipherId.as_byte j -> i = j.
Proof. by destruct i, j. Qed.

Lemma get_or_derive_ok l realm file e id :
  lru_ok l -> blen realm = 16 -> blen file = 16 ->
  exists c l', get_or_derive l realm file e id (mk_of e) = Ok (c, l') /\
    derive_cipher id (mk_of e) realm file = Ok c /\ lru_ok l' /\
    lru_capacity l' = lru_capacity l.
Proof.
  intros Hl Hr Hf. unfold get_or_derive.
  destruct (lru_map l !! _) as [c|] eqn:Hm.
  - destruct (lru_vals l Hl _ _ _ _ _ Hm) as (id' & Hid & Hd). apply as_byte_inj in Hid as ->.
    assert ((realm, file, e, CipherId.as_byte id) ∈ lru_order l) as Hin
      by (by eapply (lru_dom l Hl), elem_of_dom_2).
    rewrite decide_True by done. eexists _, _. split; [done|]. split; [done|].
    split; [by apply lru_touch|done].
  - destruct (derive_cipher_ok id (mk_of e) realm file Hr Hf) as (c & Hd & _). rewrite Hd.
    pose proof (lru_size_map l Hl) as Hsz. pose proof (lru_size l Hl). pose proof (lru_cap l Hl).
    destruct (Z.leb_spec (lru_capacity l) (Z.of_nat (size (lru_map l)))).
    + destruct (lru_order l) as [|victim order] eqn:Ho; [simpl in *; lia|].
      eexists _, _. split; [done|]. split; [done|]. split; [|done]. apply lru_insert; [|simpl in *; lia| |done].
      * by apply lru_evict.
      * by rewrite lookup_delete_None; right.
    + eexists _, _. split; [done|]. split; [done|]. split; [|done].
      apply lru_insert; [by destruct l|lia|done|done].
Qed.

Lemma invalidate_epoch_ok l e id :
  lru_ok l -> lru_ok (invalidate_epoch l e id) /\
  (forall realm file, lru_map (invalidate_epoch l e id) !!
     (realm, file, e, CipherId.as_byte id) = None).
Proof.
  intros [Hn Hd Hc Hs Hv]. split.
  - constructor; simpl; [by apply NoDup_filter| |done| |].
    + intros k. rewrite list_elem_of_filter, Hd, !elem_of_dom. split.
      * intros [Hf [c Hm]]. exists c. by apply map_lookup_filter_Some.
      * intros [c [Hm Hf]%map_lookup_filter_Some]. split; [done|by exists c].
    + pose proof (length_filter (fun k => key_of_epoch e (CipherId.as_byte id) k = false)
        (lru_order l)). lia.
    + intros realm file e' cid c [Hm _]%map_lookup_filter_Some. by apply Hv.
  - intros realm file. apply map_lookup_filter_None. right. intros c _. simpl.
    by rewrite !Z.eqb_refl.
Qed.
End lru_facts.

(** ** Properties *)

(** A toy instance of the primitives: the tag is the associated data cut and
    padded to sixteen bytes, the ciphertext is the plaintext. *)
Definition pad (n : nat) (b : bytes) : bytes := take n (b ++ replicate n Byte.x00).

Definition toy_primitives : Primitives := {|
  hmac_sha256 k m := pad 32 (k ++ m);
  hkdf s k i := pad 32 (i ++ k);
  aes_encrypt k n a b := Some (b, pad 16 a);
  aes_decrypt k n a b t := if decide (t = pad 16 a) then Some b else None;
  chacha_encrypt k n a b := Some (b, pad 16 a);
  chacha_decrypt k n a b t := if decide (t = pad 16 a) then Some b else None;
|}.

Lemma blen_pad n b : blen (pad n b) = Z.of_nat n.
Proof. unfold pad, blen. rewrite length_take, length_app, length_replicate. lia. Qed.

Lemma toy_primitives_spec : @PrimitivesSpec toy_primitives.
Proof.
  constructor; simpl; [intros; apply blen_pad..| |];
    (intros k n a b ct tag; split; [by intros [= <- <-]; split; [|apply blen_pad]|];
     case_decide; naive_solver).
Qed.

(** The cache of cipher states is transparent. From a well-formed cache
    whose callers pass each epoch its own master key, a lookup returns exactly
    the cipher that derivation gives for the realm, file, epoch and cipher id
    asked for; the cache stays well-formed and within its capacity, and after an
    epoch is invalidated no cipher of that epoch and id remains in it. *)
Theorem dek_cache_transparent `{Primitives} (mk_of : Z -> bytes) l realm file e id :
  lru_ok mk_of l -> blen realm = 16 -> blen file = 16 ->
  (exists c l', get_or_derive l realm file e id (mk_of e) = Ok (c, l') /\
     derive_cipher id (mk_of e) realm file = Ok c /\ lru_ok mk_of l' /\
     Z.of_nat (size (lru_map l')) <= lru_capacity l) /\
  lru_ok mk_of (invalidate_epoch l e id) /\
  lru_map (invalidate_epoch l e id) !! (realm, file, e, CipherId.as_byte id) = None.
Proof.
  intros Hl Hr Hf. destruct (invalidate_epoch_ok mk_of l e id Hl) as [Hi Hn].
  destruct (get_or_derive_ok mk_of l realm file e id Hl Hr Hf) as (c & l' & Hg & Hd & Hl' & Hc).
  split; [|by split; [|apply Hn]]. exists c, l'. split; [done|]. split; [done|]. split; [done|].
  rewrite (lru_size_map mk_of l' Hl'), <- Hc. apply (lru_size mk_of l' Hl').
Qed.

#[local] Existing Instance toy_primitives.

Lemma dek_cache_transparent_witness :
  exists c l', get_or_derive (lru_with_capacity 2) (zeros 16) (zeros 16) 3 CipherId.Aes256Gcm
      (zeros 32) = Ok (c, l') /\ cipher_id c = CipherId.Aes256Gcm.
Proof.
  destruct (dek_cache_transparent (fun _ => zeros 32) (lru_with_capacity 2) (zeros 16) (zeros 16)
    3 CipherId.Aes256Gcm) as [(c & l' & Hg & Hd & _) _]; [|done|done|].
  - constructor; simpl; [constructor| |lia|lia|by intros ? ? ? ? ?].
    intros k. split; [by intros ?%not_elem_of_nil|]. intros Hk.
    rewrite dom_empty in Hk. by apply not_elem_of_empty in Hk.
  - exists c, l'. split; [exact Hg|].
    destruct (derive_cipher_ok CipherId.Aes256Gcm (zeros 32) (zeros 16) (zeros 16)) as (c' & Hd' & Hid);
      [done|done|]. rewrite Hd in Hd'. injection Hd' as ->. exact Hid.
Defined.
