(* ===== verification/DataPage.v ===== *)
(** * DataPage: the encrypted page envelope

    [src/src/pager/format/data_page.rs]: sealing a body into a page, opening it
    again, and the cleartext fields of the envelope. *)

From S2P Require Import Prelude Keys Errors PageFormat Crypto.
From Stdlib Require Import ZArith Lia.
From stdpp Require Import base list strings.
From coqutil Require Import Byte.

Local Open Scope Z_scope.
Local Open Scope pagedb_scope.

Definition OFF_CIPHER_ID : Z := 0.
Definition OFF_PAGE_KIND : Z := 1.
Definition OFF_FLAGS : Z := 2.
Definition OFF_MK_EPOCH : Z := 4.
Definition OFF_NONCE : Z := 12.

(** [body] and [body_mut]: the bytes between the header and the tag. *)
Definition page_body (page : bytes) : result bytes :=
  slice page ENVELOPE_HEADER_LEN (blen page - TAG_LEN).

Definition set_page_body (page new_body : bytes) : result bytes :=
  copy_at page ENVELOPE_HEADER_LEN new_body.

Section envelope.
Context `{Primitives}.

Definition seal_data_page (page_buf : bytes) (page_kind : PageKind.t) (flags mk_epoch : Z)
    (nonce aad : bytes) (cipher : Cipher) : result bytes :=
  if blen page_buf <? ENVELOPE_OVERHEAD + 1 then Err PayloadTooLarge else
  let body_end := blen page_buf - TAG_LEN in
  let! body := slice page_buf ENVELOPE_HEADER_LEN body_end in
  let! '(ct, tag) := encrypt cipher nonce aad body in
  let! page_buf := copy_at page_buf ENVELOPE_HEADER_LEN ct in
  let! page_buf := copy_at page_buf body_end tag in
  let! page_buf := copy_at page_buf OFF_CIPHER_ID [to_u8 (CipherId.as_byte (cipher_id cipher))] in
  let! page_buf := copy_at page_buf OFF_PAGE_KIND [to_u8 (PageKind.as_byte page_kind)] in
  let! page_buf := copy_at page_buf OFF_FLAGS (le16 flags) in
  let! page_buf := copy_at page_buf OFF_MK_EPOCH (le64 mk_epoch) in
  copy_at page_buf OFF_NONCE nonce.

Definition extract_page_header_ids (page_buf : bytes) : result (CipherId.t * Z) :=
  if blen page_buf <? ENVELOPE_OVERHEAD + 1 then Err PayloadTooLarge else
  let! b := byte_at page_buf OFF_CIPHER_ID in
  let! id := CipherId.from_byte (u8_of b) in
  let! mk_buf := slice page_buf OFF_MK_EPOCH (OFF_MK_EPOCH + 8) in
  Ok (id, of_le mk_buf).

Definition extract_page_kind (page_buf : bytes) : result PageKind.t :=
  if blen page_buf <=? OFF_PAGE_KIND then Err PayloadTooLarge else
  let! b := byte_at page_buf OFF_PAGE_KIND in
  PageKind.from_byte (u8_of b).

Record SealStamp := mkSealStamp {
  identity : bytes;
  counter : Z;
  stamp_mk_epoch : Z;
  stamp_cipher_id : CipherId.t;
}.

Definition read_seal_stamp (page_buf : bytes) : result SealStamp :=
  let! '(id, mk_epoch) := extract_page_header_ids page_buf in
  let! ident := slice page_buf OFF_NONCE (OFF_NONCE + 6) in
  let! cnt := slice page_buf (OFF_NONCE + 6) (OFF_NONCE + 12) in
  Ok (mkSealStamp ident (of_le (cnt ++ zeros 2)) mk_epoch id).

(** The page with its body decrypted in place, and the authenticated kind. *)
Definition open_data_page (page_buf expected_aad : bytes) (cipher : Cipher)
  : result (bytes * PageKind.t) :=
  if blen page_buf <? ENVELOPE_OVERHEAD + 1 then Err PayloadTooLarge else
  let! c := byte_at page_buf OFF_CIPHER_ID in
  let! id := CipherId.from_byte (u8_of c) in
  let! k := byte_at page_buf OFF_PAGE_KIND in
  let! page_kind := PageKind.from_byte (u8_of k) in
  let! nonce_buf := slice page_buf OFF_NONCE (OFF_NONCE + 12) in
  let nonce := nonce_from_parts (sub nonce_buf 0 6) (nonce_counter nonce_buf) in
  if negb (bool_decide (cipher_id cipher = id)) then Err ChecksumFailure else
  let! a := byte_at expected_aad 1 in
  if negb (bool_decide (k = a)) then Err ChecksumFailure else
  let body_end := blen page_buf - TAG_LEN in
  let! tag := slice page_buf body_end (body_end + TAG_LEN) in
  let! body := slice page_buf ENVELOPE_HEADER_LEN body_end in
  let! plain := decrypt cipher nonce expected_aad body tag in
  let! page_buf := copy_at page_buf ENVELOPE_HEADER_LEN plain in
  Ok (page_buf, page_kind).
End envelope.

(** ** The bytes of a page *)

Definition envelope (cid kind : byte) (flags epoch nonce ct tag : bytes) : bytes :=
  concat [[cid]; [kind]; flags; epoch; nonce; ct; tag].

Lemma envelope_split page :
  ENVELOPE_OVERHEAD + 1 <= blen page ->
  exists cid kind, sub page 0 1 = [cid] /\ sub page 1 1 = [kind] /\
    page = envelope cid kind (sub page 2 2) (sub page 4 8) (sub page 12 12)
             (sub page 24 (blen page - 40)) (sub page (blen page - 16) 16).
Proof.
  unfold ENVELOPE_OVERHEAD, ENVELOPE_HEADER_LEN, TAG_LEN. intros Hn.
  assert (forall o, 0 <= o < blen page -> exists x, sub page o 1 = [x]) as Hb.
  { intros o Ho. pose proof (blen_sub page o 1 ltac:(lia) ltac:(lia) ltac:(lia)) as Hl.
    destruct (sub page o 1) as [|x [|y l]]; [done|by exists x|]. unfold blen in Hl. simpl in Hl. lia. }
  destruct (Hb 0) as [cid Hc]; [lia|]. destruct (Hb 1) as [kind Hk]; [lia|].
  exists cid, kind. split; [done|]. split; [done|]. unfold envelope. cbn [concat].
  rewrite <- Hc, <- Hk, app_nil_r.
  rewrite <- (sub_full page) at 1.
  assert (forall o m k, 0 <= o -> 0 <= m -> 0 <= k -> o + (m + k) <= blen page ->
    sub page o (m + k) = sub page o m ++ sub page (o + m) k) as Hs
    by (intros; apply sub_split; lia).
  replace (blen page) with (1 + (1 + (2 + (8 + (12 + ((blen page - 40) + 16)))))) at 1 by lia.
  do 6 (rewrite Hs at 1 by lia). do 6 f_equal; f_equal; lia.
Qed.

Section facts.
Context `{PrimitivesSpec}.

Lemma blen_envelope cid kind flags epoch nonce ct tag :
  blen flags = 2 -> blen epoch = 8 -> blen nonce = 12 -> blen tag = 16 ->
  blen (envelope cid kind flags epoch nonce ct tag) = blen ct + 40.
Proof. intros. unfold envelope. cbn [concat]. blia. Qed.

Lemma envelope_fields cid kind flags epoch nonce ct tag :
  blen flags = 2 -> blen epoch = 8 -> blen nonce = 12 -> blen tag = 16 ->
  let p := envelope cid kind flags epoch nonce ct tag in
  sub p 0 1 = [cid] /\ sub p 1 1 = [kind] /\ sub p 2 2 = flags /\ sub p 4 8 = epoch /\
  sub p 12 12 = nonce /\ sub p 24 (blen ct) = ct /\ sub p (24 + blen ct) 16 = tag.
Proof.
  intros Hf He Hn Ht p. unfold p, envelope. rewrite <- (app_nil_r (concat _)).
  split_and!; eapply sub_field; try (instantiate (1 := 0%nat); done);
    try (instantiate (1 := 1%nat); done); try (instantiate (1 := 2%nat); done);
    try (instantiate (1 := 3%nat); done); try (instantiate (1 := 4%nat); done);
    try (instantiate (1 := 5%nat); done); try (instantiate (1 := 6%nat); done);
    cbn [concat take]; blia.
Qed.

(** Sealing writes the envelope around what the cipher returns. *)
Lemma seal_data_page_eq page kind flags epoch nonce aad c body :
  blen page = blen body + 40 -> 1 <= blen body -> sub page 24 (blen body) = body ->
  blen nonce = 12 ->
  seal_data_page page kind flags epoch nonce aad c =
    let! '(ct, tag) := encrypt c nonce aad body in
    Ok (envelope (to_u8 (CipherId.as_byte (cipher_id c))) (to_u8 (PageKind.as_byte kind))
          (le16 flags) (le64 epoch) nonce ct tag).
Proof.
  intros Hn Hb Hbody Hnonce.
  unfold seal_data_page, ENVELOPE_OVERHEAD, ENVELOPE_HEADER_LEN, TAG_LEN, OFF_CIPHER_ID,
    OFF_PAGE_KIND, OFF_FLAGS, OFF_MK_EPOCH, OFF_NONCE.
  rewrite (proj2 (Z.ltb_ge _ _)) by lia. rewrite slice_ok by lia.
  replace (blen page - 16 - 24) with (blen body) by lia. rewrite Hbody.
  destruct (encrypt c nonce aad body) as [[ct tag]| |] eqn:E; [|done..].
  apply decrypt_encrypt in E as (Hct & Htag & _).
  do 7 write_field. f_equal.
  destruct (envelope_split buf5) as (x & y & Hx & Hy & ->);
    [unfold ENVELOPE_OVERHEAD, ENVELOPE_HEADER_LEN, TAG_LEN; lia|].
  replace (blen buf5 - 40) with (blen ct) by lia. replace (blen buf5 - 16) with (blen page - 16) by lia.
  revert Hx Hy. rewrite Htag in *. rewrite Hnonce in *. read_sub. by intros [= <-] [= <-].
Qed.

(** Opening an envelope checks its cleartext header and decrypts. *)
Lemma open_envelope cid kind flags epoch nonce ct tag aad c :
  blen flags = 2 -> blen epoch = 8 -> blen nonce = 12 -> blen tag = 16 -> 1 <= blen ct ->
  2 <= blen aad ->
  open_data_page (envelope cid kind flags epoch nonce ct tag) aad c =
    let! id := CipherId.from_byte (u8_of cid) in
    let! page_kind := PageKind.from_byte (u8_of kind) in
    if negb (bool_decide (cipher_id c = id)) then Err ChecksumFailure else
    if negb (bool_decide (sub aad 1 1 = [kind])) then Err ChecksumFailure else
    let! plain := decrypt c nonce aad ct tag in
    Ok (envelope cid kind flags epoch nonce plain tag, page_kind).
Proof.
  intros Hf He Hn Ht Hct Ha.
  destruct (envelope_fields cid kind flags epoch nonce ct tag Hf He Hn Ht)
    as (F0 & F1 & _ & _ & Fn & Fc & Ft).
  pose proof (blen_envelope cid kind flags epoch nonce ct tag Hf He Hn Ht) as Hl.
  set (p := envelope cid kind flags epoch nonce ct tag) in *.
  unfold open_data_page, ENVELOPE_OVERHEAD, ENVELOPE_HEADER_LEN, TAG_LEN, OFF_CIPHER_ID,
    OFF_PAGE_KIND, OFF_NONCE.
  rewrite (proj2 (Z.ltb_ge _ _)) by lia.
  rewrite (byte_at_sub _ 0 cid), (byte_at_sub _ 1 kind) by (done || lia).
  destruct (CipherId.from_byte _) as [id| |]; [|done..].
  destruct (PageKind.from_byte _) as [pk| |]; [|done..].
  rewrite slice_ok by lia. change (12 + 12 - 12) with 12. rewrite Fn, nonce_parts_eta by done.
  destruct (bool_decide _); [|done]. cbn [negb].
  assert (exists a, sub aad 1 1 = [a]) as [a Hab].
  { pose proof (blen_sub aad 1 1 ltac:(lia) ltac:(lia) ltac:(lia)) as Hs.
    destruct (sub aad 1 1) as [|x [|]]; unfold blen in Hs; simpl in Hs; [lia|by exists x|lia]. }
  rewrite (byte_at_sub _ 1 a) by (done || lia). rewrite Hab.
  assert (bool_decide (kind = a) = bool_decide ([a] = [kind])) as ->
    by (apply bool_decide_ext; naive_solver).
  destruct (bool_decide ([a] = [kind])); [|done]. cbn [negb].
  rewrite !slice_ok by lia. replace (blen p - 16 + 16 - (blen p - 16)) with 16 by lia.
  replace (blen p - 16) with (24 + blen ct) by lia. rewrite Ft.
  replace (24 + blen ct - 24) with (blen ct) by lia. rewrite Fc.
  destruct (decrypt c nonce aad ct tag) as [plain| |] eqn:E; [|done..].
  apply encrypt_decrypt in E; [|done]. apply decrypt_encrypt in E as (Hlen & _ & _).
  rewrite copy_at_ok by lia. f_equal. f_equal. unfold p, envelope. cbn [concat].
  replace ([cid] ++ [kind] ++ flags ++ epoch ++ nonce ++ ct ++ tag ++ [])
    with ((([cid] ++ [kind] ++ flags ++ epoch ++ nonce) ++ ct) ++ (tag ++ []))
    by (by rewrite <- !app_assoc).
  rewrite splice_app_l by blia. rewrite splice_app_suffix by blia. by rewrite <- !app_assoc.
Qed.

Lemma envelope_body cid kind flags epoch nonce ct tag :
  blen flags = 2 -> blen epoch = 8 -> blen nonce = 12 -> blen tag = 16 ->
  page_body (envelope cid kind flags epoch nonce ct tag) = Ok ct.
Proof.
  intros. destruct (envelope_fields cid kind flags epoch nonce ct tag)
    as (_ & _ & _ & _ & _ & Fb & _); [done..|].
  unfold page_body, ENVELOPE_HEADER_LEN, TAG_LEN. rewrite blen_envelope by done.
  pose proof (blen_nonneg ct). rewrite slice_ok by (rewrite ?blen_envelope by done; lia).
  replace (blen ct + 40 - 16 - 24) with (blen ct) by lia. by rewrite Fb.
Qed.

Lemma envelope_kind cid kind flags epoch nonce ct tag :
  blen flags = 2 -> blen epoch = 8 -> blen nonce = 12 -> blen tag = 16 ->
  extract_page_kind (envelope cid kind flags epoch nonce ct tag) = PageKind.from_byte (u8_of kind).
Proof.
  intros. destruct (envelope_fields cid kind flags epoch nonce ct tag) as (_ & F1 & _); [done..|].
  pose proof (blen_nonneg ct).
  unfold extract_page_kind, OFF_PAGE_KIND. rewrite blen_envelope by done.
  rewrite (proj2 (Z.leb_gt _ _)) by lia. by rewrite (byte_at_sub _ 1 kind) by (done || lia).
Qed.

Lemma envelope_stamp cid kind flags epoch pre cnt ct tag :
  blen flags = 2 -> is_u64 epoch -> blen pre = 6 -> 0 <= cnt <= COUNTER_MAX -> blen tag = 16 ->
  1 <= blen ct ->
  read_seal_stamp (envelope cid kind flags (le64 epoch) (nonce_from_parts pre cnt) ct tag) =
    let! id := CipherId.from_byte (u8_of cid) in Ok (mkSealStamp pre cnt epoch id).
Proof.
  intros Hf He Hp Hc Ht Hct. pose proof (blen_le64 epoch). pose proof (blen_nonce pre cnt Hp).
  destruct (envelope_fields cid kind flags (le64 epoch) (nonce_from_parts pre cnt) ct tag)
    as (F0 & _ & _ & Fe & Fn & _); [done..|].
  unfold read_seal_stamp, extract_page_header_ids, ENVELOPE_OVERHEAD, ENVELOPE_HEADER_LEN,
    TAG_LEN, OFF_CIPHER_ID, OFF_MK_EPOCH, OFF_NONCE. rewrite blen_envelope by done.
  rewrite (proj2 (Z.ltb_ge _ _)) by lia. rewrite (byte_at_sub _ 0 cid) by (done || lia).
  destruct (CipherId.from_byte _); [|done..].
  rewrite !slice_ok by (rewrite ?blen_envelope by done; lia).
  change (4 + 8 - 4) with 8. change (12 + 6 - 12) with 6. change (12 + 12 - (12 + 6)) with 6.
  rewrite Fe, of_le64 by done.
  rewrite <- (sub_sub _ 12 12 0 6), <- (sub_sub _ 12 12 6 6), Fn by lia.
  rewrite nonce_prefix_parts by done. do 2 f_equal. by apply (nonce_counter_parts pre cnt).
Qed.

(** A page that opens is the seal of what it opens to. *)
Lemma open_data_page_inv page aad c opened kind :
  2 <= blen aad -> open_data_page page aad c = Ok (opened, kind) ->
  exists body, page_body opened = Ok body /\ blen opened = blen page /\
    sub aad 1 1 = [to_u8 (PageKind.as_byte kind)] /\
    seal_data_page opened kind (of_le (sub page 2 2)) (of_le (sub page 4 8)) (sub page 12 12)
      aad c = Ok page.
Proof.
  intros Ha Ho. destruct (Z.ltb_spec (blen page) (ENVELOPE_OVERHEAD + 1)) as [Hs|Hs].
  { unfold open_data_page in Ho. by rewrite (proj2 (Z.ltb_lt _ _)) in Ho by done. }
  destruct (envelope_split page) as (cid & kb & _ & _ & Hp); [lia|].
  unfold ENVELOPE_OVERHEAD, ENVELOPE_HEADER_LEN, TAG_LEN in Hs.
  assert (forall o n, 0 <= o -> 0 <= n -> o + n <= blen page -> blen (sub page o n) = n) as Hsub
    by (intros; by apply blen_sub).
  rewrite Hp in Ho. rewrite open_envelope in Ho by (rewrite ?Hsub by lia; lia).
  destruct (CipherId.from_byte (u8_of cid)) as [id| |] eqn:Hcid; [|done..].
  destruct (PageKind.from_byte (u8_of kb)) as [pk| |] eqn:Hkb; [|done..].
  case_bool_decide as Hid; [|done]. case_bool_decide as Hak; [|done]. cbn [negb] in Ho.
  destruct (decrypt _ _ _ _ _) as [plain| |] eqn:Hd; [|done..].
  injection Ho as <- <-. apply encrypt_decrypt in Hd; [|rewrite Hsub; lia].
  pose proof (decrypt_encrypt _ _ _ _ _ _ Hd) as (Hlen & _ & _).
  apply PageKind.from_byte_inv in Hkb as Hkk. apply CipherId.cipher_from_byte_inv in Hcid as Hcc.
  exists plain. rewrite envelope_body by (rewrite ?Hsub; lia). split; [done|].
  rewrite blen_envelope by (rewrite ?Hsub; lia). rewrite Hsub in Hlen by lia. split; [lia|].
  rewrite <- Hkk, to_u8_u8. split; [done|].
  destruct (envelope_fields cid kb (sub page 2 2) (sub page 4 8) (sub page 12 12) plain
    (sub page (blen page - 16) 16)) as (_ & _ & _ & _ & _ & Fb & _); [rewrite ?Hsub; lia..|].
  rewrite (seal_data_page_eq _ pk _ _ _ _ _ plain);
    [|rewrite blen_envelope by (rewrite ?Hsub; lia); lia|lia|done|rewrite Hsub; lia].
  rewrite Hd. rewrite le16_of_le, le64_of_le by (rewrite Hsub; lia).
  rewrite Hid, <- Hcc, <- Hkk, !to_u8_u8. by rewrite <- Hp.
Qed.

Lemma open_data_page_no_panic page aad c : 2 <= blen aad -> open_data_page page aad c <> Panic.
Proof.
  intros Ha. destruct (Z.ltb_spec (blen page) (ENVELOPE_OVERHEAD + 1)) as [Hs|Hs].
  { unfold open_data_page. by rewrite (proj2 (Z.ltb_lt _ _)) by done. }
  destruct (envelope_split page) as (cid & kb & _ & _ & Hp); [lia|].
  unfold ENVELOPE_OVERHEAD, ENVELOPE_HEADER_LEN, TAG_LEN in Hs. rewrite Hp.
  assert (forall o n, 0 <= o -> 0 <= n -> o + n <= blen page -> blen (sub page o n) = n) as Hsub
    by (intros; by apply blen_sub).
  rewrite open_envelope by (rewrite ?Hsub by lia; lia).
  pose proof (CipherId.cipher_from_byte_no_panic (u8_of cid)).
  pose proof (PageKind.from_byte_no_panic (u8_of kb)).
  destruct (CipherId.from_byte _); [|done..]. destruct (PageKind.from_byte _); [|done..].
  case_match; [done|]. case_match; [done|].
  pose proof (decrypt_no_panic c (sub page 12 12) aad (sub page 24 (blen page - 40))
    (sub page (blen page - 16) 16)). by destruct (decrypt _ _ _ _ _).
Qed.
End facts.

(** ** Properties *)

(** C14: a sealed page opens to its plaintext. Sealing a page whose body is
    [body] either returns the error of the cipher or a page that opens, under the
    same cipher and associated data, to the same body and kind, and whose
    cleartext envelope records the cipher, the epoch, and the identity prefix and
    counter of the nonce. The associated data names the kind. *)
Theorem data_page_roundtrip `{PrimitivesSpec} page kind flags epoch pre cnt f aad c body :
  blen page = blen body + 40 -> 1 <= blen body -> page_body page = Ok body ->
  is_u64 epoch -> blen pre = 6 -> 0 <= cnt <= COUNTER_MAX ->
  aad_fields_ok f -> aad_from_fields f = Ok aad -> aad_page_kind f = PageKind.as_byte kind ->
  let nonce := nonce_from_parts pre cnt in
  match encrypt c nonce aad body with
  | Ok _ =>
      exists sealed opened, seal_data_page page kind flags epoch nonce aad c = Ok sealed /\
        blen sealed = blen page /\
        open_data_page sealed aad c = Ok (opened, kind) /\ page_body opened = Ok body /\
        extract_page_kind sealed = Ok kind /\
        read_seal_stamp sealed = Ok (mkSealStamp pre cnt epoch (cipher_id c))
  | Err e => seal_data_page page kind flags epoch nonce aad c = Err e
  | Panic => False
  end.
Proof.
  intros Hl Hb Hpb Hep Hpre Hcnt Hf Haad Hk nonce.
  assert (blen nonce = 12) as Hn by (by apply blen_nonce).
  destruct (aad_kind f aad Hf Haad) as [Hal Hak]. unfold AAD_LEN in Hal. rewrite Hk in Hak.
  assert (sub page 24 (blen body) = body) as Hsub.
  { revert Hpb. unfold page_body, ENVELOPE_HEADER_LEN, TAG_LEN. rewrite slice_ok by lia.
    replace (blen page - 16 - 24) with (blen body) by lia. by intros [= ->]. }
  rewrite (seal_data_page_eq page kind flags epoch nonce aad c body) by done.
  destruct (encrypt c nonce aad body) as [[ct tag]|e|] eqn:E; [|done|by destruct c;
    cbn [encrypt] in E; unfold ok_or in E; repeat case_match].
  apply decrypt_encrypt in E as (Hct & Htag & Hdec).
  pose proof (blen_le16 flags). pose proof (blen_le64 epoch).
  eexists _, (envelope _ _ (le16 flags) (le64 epoch) nonce body tag).
  split; [done|]. split; [rewrite blen_envelope by done; lia|].
  rewrite open_envelope by (done || lia). rewrite envelope_body, envelope_kind by done.
  unfold nonce in *. rewrite envelope_stamp by (done || lia).
  rewrite !u8_to_u8 by (apply PageKind.as_byte_u8 || apply CipherId.cipher_as_byte_u8).
  rewrite CipherId.cipher_from_as_byte, PageKind.from_as_byte.
  rewrite !bool_decide_eq_true_2 by done. cbn [negb]. by rewrite Hdec.
Qed.

(** C15: opening is exact. Whatever the bytes, [open_data_page] returns a result
    or an error; when it returns a page, the kind is the one the associated data
    names and the bytes are exactly what sealing the returned plaintext under the
    given cipher and associated data writes, with the flags, epoch and nonce
    found in the envelope: no other page opens. *)
Theorem data_page_open_exact `{PrimitivesSpec} page f aad c :
  aad_fields_ok f -> aad_from_fields f = Ok aad ->
  open_data_page page aad c <> Panic /\
  (forall opened kind, open_data_page page aad c = Ok (opened, kind) ->
     PageKind.as_byte kind = aad_page_kind f /\
     exists body, page_body opened = Ok body /\ blen opened = blen page /\
       seal_data_page opened kind (of_le (sub page 2 2)) (of_le (sub page 4 8))
         (sub page 12 12) aad c = Ok page).
Proof.
  intros Hf Haad. destruct (aad_kind f aad Hf Haad) as [Hal Hak]. unfold AAD_LEN in Hal.
  split; [apply open_data_page_no_panic; lia|]. intros opened kind Ho.
  apply open_data_page_inv in Ho as (body & Hb & Hl & Hk & Hs); [|lia].
  split; [|by exists body]. rewrite Hak in Hk. destruct Hf as (_ & Hu & _).
  apply (f_equal head) in Hk. apply (inj Some) in Hk. apply to_u8_inj in Hk; [done|done|].
  apply PageKind.as_byte_u8.
Qed.

#[local] Existing Instance toy_primitives.
#[local] Existing Instance toy_primitives_spec.

Definition sample_aad : AadFields :=
  mkAadFields 1 (PageKind.as_byte PageKind.BTreeLeaf) 7 42 (zeros 16) MAIN_DB_SEGMENT_ID.

Lemma data_page_roundtrip_witness :
  exists sealed opened aad, aad_from_fields sample_aad = Ok aad /\
    seal_data_page (zeros 64) PageKind.BTreeLeaf 0 7 (nonce_from_parts (zeros 6) 9) aad
      (CAes256Gcm (zeros 32)) = Ok sealed /\
    open_data_page sealed aad (CAes256Gcm (zeros 32)) = Ok (opened, PageKind.BTreeLeaf).
Proof.
  destruct (data_page_roundtrip (zeros 64) PageKind.BTreeLeaf 0 7 (zeros 6) 9 sample_aad
    (match aad_from_fields sample_aad with Ok a => a | _ => [] end) (CAes256Gcm (zeros 32))
    (zeros 24)) as (sealed & opened & Hs & _ & Ho & _); try done.
  eexists sealed, opened, _. split; [reflexivity|]. split; [exact Hs|exact Ho].
Defined.

Lemma data_page_open_exact_witness :
  exists page opened aad, aad_from_fields sample_aad = Ok aad /\
    open_data_page page aad (CAes256Gcm (zeros 32)) = Ok (opened, PageKind.BTreeLeaf) /\
    exists body, page_body opened = Ok body.
Proof.
  pose (aad := match aad_from_fields sample_aad with Ok a => a | _ => [] end).
  pose (page := match seal_data_page (zeros 64) PageKind.BTreeLeaf 0 7
    (nonce_from_parts (zeros 6) 9) aad (CAes256Gcm (zeros 32)) with Ok p => p | _ => [] end).
  destruct (data_page_open_exact page sample_aad aad (CAes256Gcm (zeros 32))) as [_ He]; [done|done|].
  pose (opened := match open_data_page page aad (CAes256Gcm (zeros 32)) with
                  | Ok (p, _) => p | _ => [] end).
  destruct (He opened PageKind.BTreeLeaf) as (_ & body & Hb & _); [by vm_compute|].
  exists page, opened, aad. split; [by vm_compute|]. split; [by vm_compute|]. exists body. exact Hb.
Defined.
