(* ===== verification/StructuralHeader.v ===== *)
(** * StructuralHeader: the cleartext headers with their MAC

    [src/src/pager/format/structural_header.rs]: the A/B header of [main.db] and
    the header of a segment file, field by field, with the HMAC over everything
    but its last sixteen bytes. *)

From S2P Require Import Prelude Keys Errors PageFormat Crypto.
From Stdlib Require Import ZArith Lia.
From stdpp Require Import base list strings.
From coqutil Require Import Byte.

Local Open Scope Z_scope.
Local Open Scope pagedb_scope.

Definition MAGIC_MAIN : bytes := bstr "PAGEDB" ++ zeros 2.
Definition MAGIC_SEGMENT : bytes := bstr "PAGESEG" ++ zeros 1.
Definition MAIN_FIELDS_END : Z := 201.
Definition SEGMENT_FIELDS_END : Z := 76.
Definition MAC_LEN : Z := 16.
Definition MAIN_FORMAT_VERSION : Z := 1.
Definition SEGMENT_FORMAT_VERSION : Z := 1.
Definition KNOWN_MAIN_HEADER_FLAGS : Z := 0.

Record MainDbHeaderFields := mkMainDbHeaderFields {
  format_version : Z;
  hdr_cipher_id : Z;
  page_size_log2 : Z;
  flags : Z;
  file_id : bytes;
  kek_salt : bytes;
  mk_epoch : Z;
  seq : Z;
  active_root_page_id : Z;
  active_root_txn_id : Z;
  counter_anchor : Z;
  commit_id : CommitId;
  free_list_root : bytes;
  catalog_root : bytes;
  apply_journal_root_page_id : Z;
  apply_journal_root_version : Z;
  commit_history_root_page_id : Z;
  commit_history_root_version : Z;
  restore_mode : Z;
  next_page_id : Z;
  commit_retain_policy_tag : Z;
  commit_retain_policy_value : Z;
  realm_id : RealmId;
}.

Record SegmentHeaderFields := mkSegmentHeaderFields {
  sh_format_version : Z;
  sh_cipher_id : Z;
  segment_kind : Z;
  segment_id : bytes;
  parent_file_id : bytes;
  sh_realm_id : RealmId;
  sh_mk_epoch : Z;
  sh_page_size_log2 : Z;
  sh_flags : Z;
}.

Definition validate_page_size_log2 (log2 : Z) : result Z :=
  if (12 <=? log2) && (log2 <=? 16) then Ok (Z.shiftl 1 log2) else Err Unsupported.

(** [iter().all(|b| *b == 0)] *)
Definition all_zero (b : bytes) : bool := forallb (fun x => u8_of x =? 0) b.

(** The reading helpers [u16_le], [u32_le], [u64_le] and [arr16] at an offset,
    and [bytes[o]]. *)
Definition u16_le (b : bytes) (o : Z) : result Z := let! s := slice b o (o + 2) in Ok (of_le s).
Definition u32_le (b : bytes) (o : Z) : result Z := let! s := slice b o (o + 4) in Ok (of_le s).
Definition u64_le (b : bytes) (o : Z) : result Z := let! s := slice b o (o + 8) in Ok (of_le s).
Definition arr16 (b : bytes) (o : Z) : result bytes := slice b o (o + 16).
Definition u8_at (b : bytes) (o : Z) : result Z := let! x := byte_at b o in Ok (u8_of x).

(** The runs of fields of [encode_main_db_header], before and after the seven
    reserved bytes at 161. *)
Definition main_fields_front (f : MainDbHeaderFields) : list bytes :=
  [MAGIC_MAIN; le16 (format_version f); [to_u8 (hdr_cipher_id f)]; [to_u8 (page_size_log2 f)];
   le32 (flags f); file_id f; kek_salt f; le64 (mk_epoch f); le64 (seq f);
   le64 (active_root_page_id f); le64 (active_root_txn_id f); le64 (counter_anchor f);
   le64 (commit_id f); free_list_root f; catalog_root f; le64 (apply_journal_root_page_id f);
   le64 (apply_journal_root_version f); le64 (commit_history_root_page_id f);
   le64 (commit_history_root_version f); [to_u8 (restore_mode f)]].
Definition main_fields_back (f : MainDbHeaderFields) : list bytes :=
  [le64 (next_page_id f); [to_u8 (commit_retain_policy_tag f)];
   le64 (commit_retain_policy_value f); realm_id f].

Definition segment_fields (f : SegmentHeaderFields) : list bytes :=
  [MAGIC_SEGMENT; le16 (sh_format_version f); [to_u8 (sh_cipher_id f)]; [to_u8 (segment_kind f)];
   segment_id f; parent_file_id f; sh_realm_id f; le64 (sh_mk_epoch f);
   [to_u8 (sh_page_size_log2 f)]; [to_u8 (sh_flags f)]].

Section headers.
Context `{Primitives}.

Definition mac_hk (hk data : bytes) : bytes := take (Z.to_nat MAC_LEN) (hmac_sha256 hk data).

Definition encode_main_db_header (f : MainDbHeaderFields) (hk : bytes) (page_size : Z)
  : result bytes :=
  let! size := validate_page_size_log2 (page_size_log2 f) in
  if negb (size =? page_size) then Err Unsupported else
  if page_size <? MAIN_FIELDS_END + MAC_LEN then Err Unsupported else
  let buf := zeros page_size in
  let! buf := write_fields buf 0 (main_fields_front f) in
  let! buf := write_fields buf 168 (main_fields_back f) in
  let! data := slice buf 0 (page_size - MAC_LEN) in
  copy_at buf (page_size - MAC_LEN) (mac_hk hk data).

Definition authenticate_main_db_header (b hk : bytes) (page_size : Z) : result unit :=
  if negb (blen b =? page_size) || (page_size <? MAIN_FIELDS_END + MAC_LEN)
  then Err Unsupported else
  let! magic := slice b 0 8 in
  if negb (bool_decide (magic = MAGIC_MAIN))
  then Err (structural_header_invalid "main.db" "magic") else
  let! reserved := slice b 161 168 in
  if negb (all_zero reserved)
  then Err (structural_header_invalid "main.db" "reserved_bytes") else
  let! tail := slice b MAIN_FIELDS_END (page_size - MAC_LEN) in
  if negb (all_zero tail)
  then Err (structural_header_invalid "main.db" "unused_tail") else
  let! data := slice b 0 (page_size - MAC_LEN) in
  let! mac := slice b (page_size - MAC_LEN) page_size in
  if negb (constant_time_eq (mac_hk hk data) mac)
  then Err (structural_header_invalid "main.db" "hk_mac") else
  let! version := u16_le b 8 in
  if negb (version =? MAIN_FORMAT_VERSION)
  then Err (FormatVersionUnsupported version MAIN_FORMAT_VERSION) else Ok tt.

Definition decode_main_db_header (b hk : bytes) (page_size : Z) : result MainDbHeaderFields :=
  let! _ := authenticate_main_db_header b hk page_size in
  let! version := u16_le b 8 in
  let! cid := u8_at b 10 in
  let! log2 := u8_at b 11 in
  let! fl := u32_le b 12 in
  let unknown_flags := Z.land fl (Z.lxor U32_MAX KNOWN_MAIN_HEADER_FLAGS) in
  if negb (unknown_flags =? 0) then Err (HeaderCapabilityUnsupported unknown_flags) else
  let! fid := arr16 b 16 in
  let! salt := arr16 b 32 in
  let! epoch := u64_le b 48 in
  let! sq := u64_le b 56 in
  let! root := u64_le b 64 in
  let! root_txn := u64_le b 72 in
  let! anchor := u64_le b 80 in
  let! cmt := u64_le b 88 in
  let! flr := arr16 b 96 in
  let! cat := arr16 b 112 in
  let! ajp := u64_le b 128 in
  let! ajv := u64_le b 136 in
  let! chp := u64_le b 144 in
  let! chv := u64_le b 152 in
  let! restore := u8_at b 160 in
  let! npid := u64_le b 168 in
  let! tag := u8_at b 176 in
  let! value := u64_le b 177 in
  let! realm := arr16 b 185 in
  Ok (mkMainDbHeaderFields version cid log2 fl fid salt epoch sq root root_txn anchor cmt flr cat
        ajp ajv chp chv restore npid tag value realm).

Definition encode_segment_header (f : SegmentHeaderFields) (hk : bytes) (page_size : Z)
  : result bytes :=
  let! size := validate_page_size_log2 (sh_page_size_log2 f) in
  if negb (size =? page_size) then Err Unsupported else
  if page_size <? SEGMENT_FIELDS_END + MAC_LEN then Err Unsupported else
  let! buf := write_fields (zeros page_size) 0 (segment_fields f) in
  let! data := slice buf 0 (page_size - MAC_LEN) in
  copy_at buf (page_size - MAC_LEN) (mac_hk hk data).

Definition decode_segment_header (b hk : bytes) (page_size : Z) : result SegmentHeaderFields :=
  if negb (blen b =? page_size) || (page_size <? SEGMENT_FIELDS_END + MAC_LEN)
  then Err Unsupported else
  let! magic := slice b 0 8 in
  if negb (bool_decide (magic = MAGIC_SEGMENT))
  then Err (structural_header_invalid "segment" "magic") else
  let! tail := slice b 70 (page_size - MAC_LEN) in
  if negb (all_zero tail)
  then Err (structural_header_invalid "segment" "unused_tail") else
  let! data := slice b 0 (page_size - MAC_LEN) in
  let! mac := slice b (page_size - MAC_LEN) page_size in
  if negb (constant_time_eq (mac_hk hk data) mac)
  then Err (structural_header_invalid "segment" "hk_mac") else
  let! version := u16_le b 8 in
  if negb (version =? SEGMENT_FORMAT_VERSION)
  then Err (FormatVersionUnsupported version SEGMENT_FORMAT_VERSION) else
  let! cid := u8_at b 10 in
  let! kind := u8_at b 11 in
  let! sid := arr16 b 12 in
  let! pid := arr16 b 28 in
  let! realm := arr16 b 44 in
  let! epoch := u64_le b 60 in
  let! log2 := u8_at b 68 in
  let! fl := u8_at b 69 in
  Ok (mkSegmentHeaderFields version cid kind sid pid realm epoch log2 fl).
End headers.

(** ** Layout *)

Definition main_header_ok (f : MainDbHeaderFields) : Prop :=
  is_u16 (format_version f) /\ is_u8 (hdr_cipher_id f) /\ is_u8 (page_size_log2 f) /\
  is_u32 (flags f) /\ blen (file_id f) = 16 /\ blen (kek_salt f) = 16 /\
  is_u64 (mk_epoch f) /\ is_u64 (seq f) /\ is_u64 (active_root_page_id f) /\
  is_u64 (active_root_txn_id f) /\ is_u64 (counter_anchor f) /\ is_u64 (commit_id f) /\
  blen (free_list_root f) = 16 /\ blen (catalog_root f) = 16 /\
  is_u64 (apply_journal_root_page_id f) /\ is_u64 (apply_journal_root_version f) /\
  is_u64 (commit_history_root_page_id f) /\ is_u64 (commit_history_root_version f) /\
  is_u8 (restore_mode f) /\ is_u64 (next_page_id f) /\ is_u8 (commit_retain_policy_tag f) /\
  is_u64 (commit_retain_policy_value f) /\ blen (realm_id f) = 16.

(** The bytes of a header page but for its MAC. *)
Definition main_layout (f : MainDbHeaderFields) (page_size : Z) : list bytes :=
  main_fields_front f ++ [zeros 7] ++ main_fields_back f ++ [zeros (page_size - 217)].

Definition main_widths (page_size : Z) : list Z :=
  [8; 2; 1; 1; 4; 16; 16; 8; 8; 8; 8; 8; 8; 16; 16; 8; 8; 8; 8; 1; 7; 8; 1; 8; 16; page_size - 217].

Lemma all_zero_zeros n : all_zero (zeros n) = true.
Proof. unfold all_zero, zeros. induction (Z.to_nat n); simpl; done. Qed.

Lemma all_zero_inv b : all_zero b = true -> b = zeros (blen b).
Proof.
  unfold all_zero, zeros, blen. rewrite Nat2Z.id.
  induction b as [|x b IH]; simpl; [done|]. rewrite andb_true_iff, Z.eqb_eq. intros [Hx Hb].
  rewrite <- IH by done. f_equal. rewrite <- (to_u8_u8 x), Hx. done.
Qed.

Lemma blen_magic_main : blen MAGIC_MAIN = 8. Proof. done. Qed.
Lemma blen_magic_segment : blen MAGIC_SEGMENT = 8. Proof. done. Qed.
Lemma blen_zeros7 : blen (zeros 7) = 7. Proof. done. Qed.
#[export] Hint Rewrite blen_zeros7 blen_magic_main blen_magic_segment : blen.

Lemma blen_front f : main_header_ok f -> blen (concat (main_fields_front f)) = 161.
Proof. unfold main_header_ok. intros. destruct_and!. unfold main_fields_front. cbn [concat]. blia. Qed.
Lemma blen_back f : main_header_ok f -> blen (concat (main_fields_back f)) = 33.
Proof. unfold main_header_ok. intros. destruct_and!. unfold main_fields_back. cbn [concat]. blia. Qed.

Lemma main_layout_eq f ps :
  concat (main_layout f ps) =
    concat (main_fields_front f) ++ zeros 7 ++ concat (main_fields_back f) ++ zeros (ps - 217).
Proof. unfold main_layout. rewrite !concat_app. cbn [concat]. by rewrite !app_nil_r. Qed.

Lemma blen_main_layout f ps :
  main_header_ok f -> 217 <= ps -> blen (concat (main_layout f ps)) = ps - 16.
Proof.
  intros Hf Hps. rewrite main_layout_eq, !blen_app, blen_front, blen_back, !blen_zeros by (done || lia).
  lia.
Qed.

Section facts.
Context `{PrimitivesSpec}.

Lemma blen_mac hk d : blen (mac_hk hk d) = 16.
Proof. apply hmac_tag_len. Qed.

Lemma encode_main_db_header_eq f hk ps :
  main_header_ok f -> validate_page_size_log2 (page_size_log2 f) = Ok ps ->
  encode_main_db_header f hk ps =
    Ok (concat (main_layout f ps) ++ mac_hk hk (concat (main_layout f ps))).
Proof.
  intros Hf Hv. unfold encode_main_db_header. rewrite Hv, Z.eqb_refl. cbn [negb].
  assert (4096 <= ps) as Hps.
  { revert Hv. unfold validate_page_size_log2. case_match; [|done]. intros [= <-]. propify.
    rewrite Z.shiftl_1_l. change 4096 with (2 ^ 12). apply Z.pow_le_mono_r; lia. }
  unfold MAIN_FIELDS_END, MAC_LEN. rewrite (proj2 (Z.ltb_ge _ _)) by lia.
  pose proof (blen_front f Hf) as HF. pose proof (blen_back f Hf) as HB.
  rewrite write_fields_ok by (rewrite ?blen_zeros; lia).
  rewrite splice_zeros by lia. rewrite HF.
  rewrite write_fields_ok by (rewrite ?blen_app, ?blen_zeros; lia).
  replace (ps - 161) with (7 + (33 + (ps - 201))) by lia. rewrite !zeros_app by lia.
  rewrite app_assoc.
  rewrite splice_middle by (rewrite ?blen_app, ?blen_zeros; lia).
  replace (ps - 201) with ((ps - 217) + 16) by lia. rewrite zeros_app by lia.
  replace ((concat (main_fields_front f) ++ zeros 7) ++ concat (main_fields_back f) ++
    zeros (ps - 217) ++ zeros 16) with (concat (main_layout f ps) ++ zeros 16)
    by (rewrite main_layout_eq; by rewrite <- !app_assoc).
  pose proof (blen_main_layout f ps Hf ltac:(lia)) as HL.
  rewrite slice_ok by (rewrite ?blen_app, ?blen_zeros; lia). rewrite Z.sub_0_r.
  rewrite sub_app_l by lia.
  replace (sub (concat (main_layout f ps)) 0 (ps - 16)) with (concat (main_layout f ps))
    by (rewrite <- HL; by rewrite sub_full).
  rewrite copy_at_ok by (rewrite ?blen_app, ?blen_mac, ?blen_zeros; lia).
  by rewrite splice_app_suffix by (rewrite ?blen_mac, ?blen_zeros; lia).
Qed.

Lemma validate_log2_inv log2 ps :
  validate_page_size_log2 log2 = Ok ps -> 12 <= log2 <= 16 /\ ps = Z.shiftl 1 log2 /\ 4096 <= ps.
Proof.
  unfold validate_page_size_log2. case_match; [|done]. intros [= <-]. propify.
  split; [lia|]. split; [done|].
  rewrite Z.shiftl_1_l. change 4096 with (2 ^ 12). apply Z.pow_le_mono_r; lia.
Qed.
End facts.

(** ** Reading the fields back *)

Lemma of_le_byte x : of_le [x] = u8_of x.
Proof. apply LittleEndianList.le_combine_1. Qed.

Lemma to_u8_of_le s : blen s = 1 -> [to_u8 (of_le s)] = s.
Proof.
  destruct s as [|x [|y s]]; intros Hl; [done| |unfold blen in Hl; simpl in Hl; lia].
  by rewrite of_le_byte, to_u8_u8.
Qed.

Lemma u16_le_ok b o : 0 <= o -> o + 2 <= blen b -> u16_le b o = Ok (of_le (sub b o 2)).
Proof. intros. unfold u16_le. rewrite slice_ok by lia. cbn. do 3 f_equal. lia. Qed.
Lemma u32_le_ok b o : 0 <= o -> o + 4 <= blen b -> u32_le b o = Ok (of_le (sub b o 4)).
Proof. intros. unfold u32_le. rewrite slice_ok by lia. cbn. do 3 f_equal. lia. Qed.
Lemma u64_le_ok b o : 0 <= o -> o + 8 <= blen b -> u64_le b o = Ok (of_le (sub b o 8)).
Proof. intros. unfold u64_le. rewrite slice_ok by lia. cbn. do 3 f_equal. lia. Qed.
Lemma arr16_ok b o : 0 <= o -> o + 16 <= blen b -> arr16 b o = Ok (sub b o 16).
Proof. intros. unfold arr16. rewrite slice_ok by lia. do 2 f_equal. lia. Qed.
Lemma u8_at_ok b o : 0 <= o -> o + 1 <= blen b -> u8_at b o = Ok (of_le (sub b o 1)).
Proof.
  intros. destruct (sub b o 1) as [|x [|y s]] eqn:E;
    pose proof (blen_sub b o 1 ltac:(lia) ltac:(lia) ltac:(lia)) as Hl; rewrite E in Hl;
    [done| |unfold blen in Hl; simpl in Hl; lia].
  unfold u8_at. rewrite (byte_at_sub b o x) by done. cbn. by rewrite of_le_byte.
Qed.

(** The header read at the offsets of the layout. *)
Definition main_fields_of (b : bytes) : MainDbHeaderFields :=
  mkMainDbHeaderFields (of_le (sub b 8 2)) (of_le (sub b 10 1)) (of_le (sub b 11 1))
    (of_le (sub b 12 4)) (sub b 16 16) (sub b 32 16) (of_le (sub b 48 8)) (of_le (sub b 56 8))
    (of_le (sub b 64 8)) (of_le (sub b 72 8)) (of_le (sub b 80 8)) (of_le (sub b 88 8))
    (sub b 96 16) (sub b 112 16) (of_le (sub b 128 8)) (of_le (sub b 136 8))
    (of_le (sub b 144 8)) (of_le (sub b 152 8)) (of_le (sub b 160 1)) (of_le (sub b 168 8))
    (of_le (sub b 176 1)) (of_le (sub b 177 8)) (sub b 185 16).

Lemma of_le_width n b o : 0 <= o -> 0 <= n -> o + n <= blen b -> 0 <= of_le (sub b o n) < 2 ^ (8 * n).
Proof. intros. apply of_le_bound, blen_sub; lia. Qed.

Lemma main_fields_of_ok b : 201 <= blen b -> main_header_ok (main_fields_of b).
Proof.
  intros Hb. unfold main_header_ok, main_fields_of.
  cbn [format_version hdr_cipher_id page_size_log2 flags file_id kek_salt mk_epoch seq
    active_root_page_id active_root_txn_id counter_anchor commit_id free_list_root catalog_root
    apply_journal_root_page_id apply_journal_root_version commit_history_root_page_id
    commit_history_root_version restore_mode next_page_id commit_retain_policy_tag
    commit_retain_policy_value realm_id].
  repeat match goal with |- _ /\ _ => split end;
    first [ apply blen_sub; lia
          | apply (of_le_width 1); lia | apply (of_le_width 2); lia
          | apply (of_le_width 4); lia | apply (of_le_width 8); lia ].
Qed.

Ltac header_field k :=
  match goal with
  | |- context [sub (concat ?fs ++ ?rest) ?o ?n] =>
      rewrite (sub_field fs rest k _ o n eq_refl) by (cbn [take concat]; blia)
  end.

Lemma main_fields_of_layout f ps rest :
  main_header_ok f -> 217 <= ps -> main_fields_of (concat (main_layout f ps) ++ rest) = f.
Proof.
  unfold main_header_ok. intros Hf Hps. destruct_and!.
  unfold main_layout, main_fields_front, main_fields_back, main_fields_of. cbn [app].
  header_field 1%nat. header_field 2%nat. header_field 3%nat. header_field 4%nat. header_field 5%nat. header_field 6%nat.
  header_field 7%nat. header_field 8%nat. header_field 9%nat. header_field 10%nat. header_field 11%nat.
  header_field 12%nat. header_field 13%nat. header_field 14%nat. header_field 15%nat. header_field 16%nat.
  header_field 17%nat. header_field 18%nat. header_field 19%nat. header_field 21%nat. header_field 22%nat.
  header_field 23%nat. header_field 24%nat.
  rewrite !of_le_byte, of_le16, of_le32, !of_le64, !u8_to_u8 by done.
  by destruct f.
Qed.

(** The checks of the layout that do not concern a field. *)
Definition main_frame (b : bytes) (ps : Z) : Prop :=
  blen b = ps /\ 217 <= ps /\ sub b 0 8 = MAGIC_MAIN /\ sub b 161 7 = zeros 7 /\
  sub b 201 (ps - 217) = zeros (ps - 217).

Lemma main_layout_of_fields b ps :
  main_frame b ps -> concat (main_layout (main_fields_of b) ps) = sub b 0 (ps - 16).
Proof.
  intros (Hb & Hps & Hm & Hr & Ht).
  assert (main_layout (main_fields_of b) ps = cut b 0 (main_widths ps)) as ->.
  { unfold main_layout, main_fields_front, main_fields_back, main_widths, main_fields_of.
    cbn [format_version hdr_cipher_id page_size_log2 flags file_id kek_salt mk_epoch seq
      active_root_page_id active_root_txn_id counter_anchor commit_id free_list_root catalog_root
      apply_journal_root_page_id apply_journal_root_version commit_history_root_page_id
      commit_history_root_version restore_mode next_page_id commit_retain_policy_tag
      commit_retain_policy_value realm_id app cut].
    norm_lit. rewrite Hm, Hr, Ht.
    rewrite !to_u8_of_le, le16_of_le, le32_of_le, !le64_of_le by (apply blen_sub; lia). done. }
  rewrite concat_cut; [unfold main_widths; cbn [foldr]; f_equal; lia|lia| |unfold main_widths; cbn [foldr]; lia].
  unfold main_widths. repeat (apply Forall_cons; split; [lia|]). constructor.
Qed.

Lemma all_zero_sub b o n :
  0 <= o -> 0 <= n -> o + n <= blen b -> all_zero (sub b o n) = true <-> sub b o n = zeros n.
Proof.
  intros. split; [|intros ->; apply all_zero_zeros].
  intros Hz. rewrite (all_zero_inv _ Hz) at 1. by rewrite blen_sub by lia.
Qed.

Lemma unknown_flags_0 fl : is_u32 fl -> Z.land fl (Z.lxor U32_MAX KNOWN_MAIN_HEADER_FLAGS) = fl.
Proof.
  intros Hf. change (Z.lxor U32_MAX KNOWN_MAIN_HEADER_FLAGS) with (Z.ones 32).
  rewrite Z.land_ones by lia. by apply Z.mod_small.
Qed.

Section codec.
Context `{PrimitivesSpec}.

Lemma authenticate_main_db_header_spec b hk ps :
  authenticate_main_db_header b hk ps = Ok tt <->
  main_frame b ps /\ mac_hk hk (sub b 0 (ps - 16)) = sub b (ps - 16) 16 /\
  of_le (sub b 8 2) = MAIN_FORMAT_VERSION.
Proof.
  unfold authenticate_main_db_header, main_frame, MAIN_FIELDS_END, MAC_LEN.
  destruct (blen b =? ps) eqn:Hl; propify; cbn [negb orb]; [|split; [done|naive_solver]].
  destruct (ps <? 201 + 16) eqn:Hp; propify; [split; [done|intros ((?&?&_)&_); lia]|].
  rewrite !slice_ok by lia. rewrite u16_le_ok by lia.
  replace (8 - 0) with 8 by lia. replace (168 - 161) with 7 by lia.
  replace (ps - 16 - 201) with (ps - 217) by lia. replace (ps - 16 - 0) with (ps - 16) by lia.
  replace (ps - (ps - 16)) with 16 by lia.
  case_bool_decide as Hm; cbn [negb]; [|split; [done|naive_solver]].
  destruct (all_zero (sub b 161 7)) eqn:Hr; cbn [negb];
    [|split; [done|intros ((?&?&?&Hz&_)&_); apply all_zero_sub in Hz; (congruence || lia)]].
  destruct (all_zero (sub b 201 (ps - 217))) eqn:Ht; cbn [negb];
    [|split; [done|intros ((?&?&?&_&Hz)&_); apply all_zero_sub in Hz; (congruence || lia)]].
  apply all_zero_sub in Hr; [|lia..]. apply all_zero_sub in Ht; [|lia..].
  rewrite constant_time_eq_dec. case_bool_decide as Hmac; cbn [negb]; [|split; [done|naive_solver]].
  destruct (_ =? MAIN_FORMAT_VERSION) eqn:Hv; propify; cbn [negb]; [|split; [done|naive_solver]].
  split; [|done]. intros _. split; [|done]. split; [done|]. split; [lia|done].
Qed.

Lemma decode_main_db_header_spec b hk ps f :
  decode_main_db_header b hk ps = Ok f <->
  authenticate_main_db_header b hk ps = Ok tt /\ flags f = 0 /\ f = main_fields_of b.
Proof.
  unfold decode_main_db_header.
  destruct (authenticate_main_db_header b hk ps) as [[]|e|] eqn:Ha; [|split; [done|intros (?&_); done]..].
  apply authenticate_main_db_header_spec in Ha as ((Hb & Hps & _) & _).
  rewrite u16_le_ok, !u8_at_ok, u32_le_ok, !arr16_ok, !u64_le_ok by lia.
  rewrite unknown_flags_0 by (apply (of_le_width 4); lia). cbn.
  destruct (of_le (sub b 12 4) =? 0) eqn:Hf; propify; cbn [negb].
  - split; [intros [= <-]; done|]. by intros (_ & _ & ->).
  - split; [done|]. intros (_ & Hz & ->). done.
Qed.

Lemma encode_main_authentic f hk ps b :
  main_header_ok f -> encode_main_db_header f hk ps = Ok b ->
  main_frame b ps /\ mac_hk hk (sub b 0 (ps - 16)) = sub b (ps - 16) 16 /\ main_fields_of b = f.
Proof.
  intros Hf He.
  destruct (validate_page_size_log2 (page_size_log2 f)) as [ps'|e|] eqn:Hv;
    [|unfold encode_main_db_header in He; by rewrite Hv in He..].
  assert (ps' = ps) as ->.
  { unfold encode_main_db_header in He. rewrite Hv in He. cbn in He.
    destruct (ps' =? ps) eqn:Hp; [by apply Z.eqb_eq|done]. }
  rewrite (encode_main_db_header_eq f hk ps Hf Hv) in He.
  apply (f_equal (fun r => match r with Ok x => x | _ => [] end)) in He. cbv beta iota in He. subst b.
  apply validate_log2_inv in Hv as (_ & _ & Hps).
  pose proof (blen_main_layout f ps Hf ltac:(lia)) as HL.
  set (m := mac_hk hk _).
  assert (blen m = 16) as Hm by apply blen_mac.
  split; [|split; [|apply main_fields_of_layout; [done|lia]]].
  - split; [rewrite blen_app; lia|]. split; [lia|].
    pose proof Hf as Hf'. unfold main_header_ok in Hf'. destruct_and!.
    unfold main_layout, main_fields_front, main_fields_back. cbn [app].
    split; [by header_field 0%nat|]. split; [by header_field 20%nat|].
    assert (blen (zeros (ps - 217)) = ps - 217) by (apply blen_zeros; lia).
    by header_field 25%nat.
  - rewrite sub_app_l by lia. rewrite sub_app_r by lia. rewrite HL, Z.sub_diag.
    rewrite <- HL, sub_full. rewrite <- Hm. by rewrite sub_full.
Qed.

Lemma canonical_main b hk ps :
  main_frame b ps -> mac_hk hk (sub b 0 (ps - 16)) = sub b (ps - 16) 16 ->
  validate_page_size_log2 (page_size_log2 (main_fields_of b)) = Ok ps ->
  encode_main_db_header (main_fields_of b) hk ps = Ok b.
Proof.
  intros Hfr Hm Hv. pose proof Hfr as (Hb & Hps & _).
  rewrite encode_main_db_header_eq by (done || apply main_fields_of_ok; lia).
  rewrite main_layout_of_fields by done. rewrite Hm. f_equal.
  rewrite <- (sub_full b) at 3. replace (blen b) with (ps - 16 + 16) by lia.
  by rewrite sub_split by lia.
Qed.

End codec.

(** ** The segment header *)

Definition segment_header_ok (f : SegmentHeaderFields) : Prop :=
  is_u16 (sh_format_version f) /\ is_u8 (sh_cipher_id f) /\ is_u8 (segment_kind f) /\
  blen (segment_id f) = 16 /\ blen (parent_file_id f) = 16 /\ blen (sh_realm_id f) = 16 /\
  is_u64 (sh_mk_epoch f) /\ is_u8 (sh_page_size_log2 f) /\ is_u8 (sh_flags f).

Definition segment_layout (f : SegmentHeaderFields) (page_size : Z) : list bytes :=
  segment_fields f ++ [zeros (page_size - 86)].

Definition segment_widths (page_size : Z) : list Z :=
  [8; 2; 1; 1; 16; 16; 16; 8; 1; 1; page_size - 86].

Definition segment_fields_of (b : bytes) : SegmentHeaderFields :=
  mkSegmentHeaderFields (of_le (sub b 8 2)) (of_le (sub b 10 1)) (of_le (sub b 11 1))
    (sub b 12 16) (sub b 28 16) (sub b 44 16) (of_le (sub b 60 8)) (of_le (sub b 68 1))
    (of_le (sub b 69 1)).

Definition segment_frame (b : bytes) (ps : Z) : Prop :=
  blen b = ps /\ 92 <= ps /\ sub b 0 8 = MAGIC_SEGMENT /\ sub b 70 (ps - 86) = zeros (ps - 86).

Lemma blen_segment_fields f : segment_header_ok f -> blen (concat (segment_fields f)) = 70.
Proof. unfold segment_header_ok. intros. destruct_and!. unfold segment_fields. cbn [concat]. blia. Qed.

Lemma segment_layout_eq f ps :
  concat (segment_layout f ps) = concat (segment_fields f) ++ zeros (ps - 86).
Proof. unfold segment_layout. rewrite !concat_app. cbn [concat]. by rewrite !app_nil_r. Qed.

Lemma segment_fields_of_ok b : 92 <= blen b -> segment_header_ok (segment_fields_of b).
Proof.
  intros Hb. unfold segment_header_ok, segment_fields_of.
  cbn [sh_format_version sh_cipher_id segment_kind segment_id parent_file_id sh_realm_id
    sh_mk_epoch sh_page_size_log2 sh_flags].
  repeat match goal with |- _ /\ _ => split end;
    first [ apply blen_sub; lia
          | apply (of_le_width 1); lia | apply (of_le_width 2); lia | apply (of_le_width 8); lia ].
Qed.

Lemma segment_fields_of_layout f ps rest :
  segment_header_ok f -> 92 <= ps -> segment_fields_of (concat (segment_layout f ps) ++ rest) = f.
Proof.
  unfold segment_header_ok. intros Hf Hps. destruct_and!.
  unfold segment_layout, segment_fields, segment_fields_of. cbn [app].
  header_field 1%nat. header_field 2%nat. header_field 3%nat. header_field 4%nat.
  header_field 5%nat. header_field 6%nat. header_field 7%nat. header_field 8%nat.
  header_field 9%nat.
  rewrite !of_le_byte, of_le16, !of_le64, !u8_to_u8 by done.
  by destruct f.
Qed.

Lemma segment_layout_of_fields b ps :
  segment_frame b ps -> concat (segment_layout (segment_fields_of b) ps) = sub b 0 (ps - 16).
Proof.
  intros (Hb & Hps & Hm & Ht).
  assert (segment_layout (segment_fields_of b) ps = cut b 0 (segment_widths ps)) as ->.
  { unfold segment_layout, segment_fields, segment_widths, segment_fields_of.
    cbn [sh_format_version sh_cipher_id segment_kind segment_id parent_file_id sh_realm_id
      sh_mk_epoch sh_page_size_log2 sh_flags app cut].
    norm_lit. rewrite Hm, Ht.
    rewrite !to_u8_of_le, le16_of_le, !le64_of_le by (apply blen_sub; lia). done. }
  rewrite concat_cut; unfold segment_widths; [cbn [foldr]; f_equal; lia|lia| |cbn [foldr]; lia].
  repeat (apply Forall_cons; split; [lia|]). constructor.
Qed.

Section segment_codec.
Context `{PrimitivesSpec}.

Lemma encode_segment_header_eq f hk ps :
  segment_header_ok f -> validate_page_size_log2 (sh_page_size_log2 f) = Ok ps ->
  encode_segment_header f hk ps =
    Ok (concat (segment_layout f ps) ++ mac_hk hk (concat (segment_layout f ps))).
Proof.
  intros Hf Hv. unfold encode_segment_header. rewrite Hv, Z.eqb_refl. cbn [negb].
  apply validate_log2_inv in Hv as (_ & _ & Hps).
  unfold SEGMENT_FIELDS_END, MAC_LEN. rewrite (proj2 (Z.ltb_ge _ _)) by lia.
  pose proof (blen_segment_fields f Hf) as HF.
  rewrite write_fields_ok by (rewrite ?blen_zeros; lia).
  rewrite splice_zeros by lia. rewrite HF.
  replace (ps - 70) with ((ps - 86) + 16) by lia. rewrite zeros_app, app_assoc by lia.
  rewrite <- segment_layout_eq.
  assert (blen (concat (segment_layout f ps)) = ps - 16) as HL
    by (rewrite segment_layout_eq, blen_app, blen_zeros; lia).
  rewrite slice_ok by (rewrite ?blen_app, ?blen_zeros; lia). rewrite Z.sub_0_r.
  rewrite sub_app_l by lia.
  replace (sub (concat (segment_layout f ps)) 0 (ps - 16)) with (concat (segment_layout f ps))
    by (rewrite <- HL; by rewrite sub_full).
  rewrite copy_at_ok by (rewrite ?blen_app, ?blen_mac, ?blen_zeros; lia).
  by rewrite splice_app_suffix by (rewrite ?blen_mac, ?blen_zeros; lia).
Qed.

Lemma decode_segment_header_spec b hk ps f :
  decode_segment_header b hk ps = Ok f <->
  segment_frame b ps /\ mac_hk hk (sub b 0 (ps - 16)) = sub b (ps - 16) 16 /\
  sh_format_version f = SEGMENT_FORMAT_VERSION /\ f = segment_fields_of b.
Proof.
  unfold decode_segment_header, segment_frame, SEGMENT_FIELDS_END, MAC_LEN.
  destruct (blen b =? ps) eqn:Hl; propify; cbn [negb orb]; [|split; [done|naive_solver]].
  destruct (ps <? 76 + 16) eqn:Hp; propify; [split; [done|intros ((?&?&_)&_); lia]|].
  rewrite !slice_ok by lia. rewrite !u16_le_ok, !u8_at_ok, !arr16_ok, !u64_le_ok by lia.
  replace (8 - 0) with 8 by lia. replace (ps - 16 - 0) with (ps - 16) by lia.
  replace (ps - 16 - 70) with (ps - 86) by lia. replace (ps - (ps - 16)) with 16 by lia.
  case_bool_decide as Hm; cbn [negb]; [|split; [done|naive_solver]].
  destruct (all_zero (sub b 70 (ps - 86))) eqn:Ht; cbn [negb];
    [|split; [done|intros ((?&?&?&Hz)&_); apply all_zero_sub in Hz; (congruence || lia)]].
  apply all_zero_sub in Ht; [|lia..].
  rewrite constant_time_eq_dec. case_bool_decide as Hmac; cbn [negb]; [|split; [done|naive_solver]].
  destruct (_ =? SEGMENT_FORMAT_VERSION) eqn:Hv; propify; cbn [negb].
  - split; [|by intros (_ & _ & _ & ->)]. intros [= <-]. split; [|done].
    split; [done|]. split; [lia|done].
  - split; [done|]. intros (_ & _ & Hv' & ->). done.
Qed.

Lemma encode_segment_authentic f hk ps b :
  segment_header_ok f -> validate_page_size_log2 (sh_page_size_log2 f) = Ok ps ->
  encode_segment_header f hk ps = Ok b ->
  segment_frame b ps /\ mac_hk hk (sub b 0 (ps - 16)) = sub b (ps - 16) 16 /\
  segment_fields_of b = f.
Proof.
  intros Hf Hv He. rewrite (encode_segment_header_eq f hk ps Hf Hv) in He.
  apply (f_equal (fun r => match r with Ok x => x | _ => [] end)) in He. cbv beta iota in He. subst b.
  apply validate_log2_inv in Hv as (_ & _ & Hps).
  assert (blen (concat (segment_layout f ps)) = ps - 16) as HL
    by (rewrite segment_layout_eq, blen_app, blen_zeros, blen_segment_fields by (done || lia); lia).
  set (m := mac_hk hk _).
  assert (blen m = 16) as Hm by apply blen_mac.
  split; [|split; [|apply segment_fields_of_layout; [done|lia]]].
  - split; [rewrite blen_app; lia|]. split; [lia|].
    pose proof Hf as Hf'. unfold segment_header_ok in Hf'. destruct_and!.
    unfold segment_layout, segment_fields. cbn [app].
    split; [by header_field 0%nat|].
    assert (blen (zeros (ps - 86)) = ps - 86) by (apply blen_zeros; lia).
    by header_field 10%nat.
  - rewrite sub_app_l by lia. rewrite sub_app_r by lia. rewrite HL, Z.sub_diag.
    rewrite <- HL, sub_full. rewrite <- Hm. by rewrite sub_full.
Qed.

Lemma canonical_segment b hk ps :
  segment_frame b ps -> mac_hk hk (sub b 0 (ps - 16)) = sub b (ps - 16) 16 ->
  validate_page_size_log2 (sh_page_size_log2 (segment_fields_of b)) = Ok ps ->
  encode_segment_header (segment_fields_of b) hk ps = Ok b.
Proof.
  intros Hfr Hm Hv. pose proof Hfr as (Hb & Hps & _).
  rewrite encode_segment_header_eq by (done || apply segment_fields_of_ok; lia).
  rewrite segment_layout_of_fields by done. rewrite Hm. f_equal.
  rewrite <- (sub_full b) at 3. replace (blen b) with (ps - 16 + 16) by lia.
  by rewrite sub_split by lia.
Qed.
End segment_codec.

(** ** Properties *)

(** C20: a main.db header of fields within their widths, of the supported format
    version, with no capability flag set and a page size the format allows, is
    encoded into exactly one page, and decoding that page with the same header
    key gives the same fields back, all twenty-three of them. *)
Theorem main_header_roundtrip `{PrimitivesSpec} (f : MainDbHeaderFields) (hk : bytes) (ps : Z) :
  main_header_ok f -> format_version f = MAIN_FORMAT_VERSION -> flags f = 0 ->
  validate_page_size_log2 (page_size_log2 f) = Ok ps ->
  exists b, encode_main_db_header f hk ps = Ok b /\ blen b = ps /\
    decode_main_db_header b hk ps = Ok f.
Proof.
  intros Hf Hver Hfl Hv.
  destruct (encode_main_db_header f hk ps) as [b|e|] eqn:He;
    [|rewrite encode_main_db_header_eq in He by done; done..].
  exists b. destruct (encode_main_authentic f hk ps b Hf He) as (Hfr & Hm & Hb).
  split; [done|]. split; [apply Hfr|].
  apply decode_main_db_header_spec. split; [|by rewrite Hb].
  apply authenticate_main_db_header_spec. split; [done|]. split; [done|]. by rewrite <- Hver, <- Hb.
Qed.

(** C21: a page that decodes as a main.db header whose recorded page size is the
    size of the page is, byte for byte, the page that encoding the decoded fields
    under the same header key writes: no byte of an accepted header page is
    unauthenticated or carries anything but a field. *)
Theorem main_header_canonical `{PrimitivesSpec} (b hk : bytes) (ps : Z) (f : MainDbHeaderFields) :
  decode_main_db_header b hk ps = Ok f -> validate_page_size_log2 (page_size_log2 f) = Ok ps ->
  main_header_ok f /\ encode_main_db_header f hk ps = Ok b.
Proof.
  intros Hd Hv. apply decode_main_db_header_spec in Hd as (Ha & _ & ->).
  apply authenticate_main_db_header_spec in Ha as (Hfr & Hm & _).
  split; [|by apply canonical_main]. apply main_fields_of_ok. destruct Hfr. lia.
Qed.

(** C30: segment headers round trip and have one encoding: a page decodes to
    the fields [f], with the page size [f] records, exactly when [f] is within its
    widths and of the supported version and the page is the encoding of [f]. *)
Theorem segment_header_exact `{PrimitivesSpec} (b hk : bytes) (ps : Z) (f : SegmentHeaderFields) :
  validate_page_size_log2 (sh_page_size_log2 f) = Ok ps ->
  decode_segment_header b hk ps = Ok f <->
  segment_header_ok f /\ sh_format_version f = SEGMENT_FORMAT_VERSION /\
  encode_segment_header f hk ps = Ok b.
Proof.
  intros Hv. rewrite decode_segment_header_spec. split.
  - intros (Hfr & Hm & Hver & ->). split; [apply segment_fields_of_ok; destruct Hfr; lia|].
    split; [done|]. by apply canonical_segment.
  - intros (Hf & Hver & He). destruct (encode_segment_authentic f hk ps b Hf Hv He) as (Hfr & Hm & Hb).
    done.
Qed.

(** Concrete headers. *)

#[local] Existing Instance toy_primitives.
#[local] Existing Instance toy_primitives_spec.

Definition sample_header : MainDbHeaderFields :=
  mkMainDbHeaderFields 1 1 12 0 (zeros 16) (zeros 16) 0 5 8 3 4096 17 (zeros 16) (zeros 16)
    0 0 0 0 0 40 1 64 (zeros 16).
Definition sample_header_page : bytes :=
  match encode_main_db_header sample_header (zeros 32) 4096 with Ok b => b | _ => [] end.
Definition sample_segment_header : SegmentHeaderFields :=
  mkSegmentHeaderFields 1 1 2 (zeros 16) (zeros 16) (zeros 16) 0 12 0.

Lemma main_header_roundtrip_witness :
  exists b, encode_main_db_header sample_header (zeros 32) 4096 = Ok b /\ blen b = 4096 /\
    decode_main_db_header b (zeros 32) 4096 = Ok sample_header.
Proof.
  apply (main_header_roundtrip sample_header (zeros 32) 4096); [|done..].
  unfold main_header_ok, sample_header. cbn. split_and!; done.
Defined.

Lemma main_header_canonical_witness :
  main_header_ok sample_header /\
  encode_main_db_header sample_header (zeros 32) 4096 = Ok sample_header_page.
Proof.
  apply (main_header_canonical sample_header_page (zeros 32) 4096 sample_header);
    vm_compute; reflexivity.
Defined.

Lemma segment_header_exact_witness :
  exists b, encode_segment_header sample_segment_header (zeros 32) 4096 = Ok b /\
    decode_segment_header b (zeros 32) 4096 = Ok sample_segment_header.
Proof.
  eexists (match encode_segment_header sample_segment_header (zeros 32) 4096 with
           | Ok b => b | _ => [] end).
  split; [vm_compute; reflexivity|].
  apply (segment_header_exact _ (zeros 32) 4096 sample_segment_header); [done|].
  split; [unfold segment_header_ok, sample_segment_header; cbn; split_and!; done|].
  split; [done|vm_compute; reflexivity].
Defined.
