(* ===== verification/Layout.v ===== *)
(** * Layout: records of fixed width

    Many rows of the store are arrays that start out as zeros and have fields copied
    in at constant offsets, with reserved bytes between them. [fill] is that array;
    here is what it holds at a field and between fields, and that an array with the
    same fields and zeros between them is the same array. *)

From S2P Require Import Prelude Keys Errors StructuralHeader.
From Stdlib Require Import ZArith Lia.
From stdpp Require Import base list.
From coqutil Require Import Byte.

Local Open Scope Z_scope.
Local Open Scope pagedb_scope.

(** [let mut out = [0u8; n]; out[o..o + x.len()].copy_from_slice(x); ...] *)
Definition fill (n : Z) (fs : list (Z * bytes)) : bytes :=
  fold_left (fun b f => splice b f.1 f.2) fs (zeros n).
#[global] Arguments fill : simpl never.

(** The same array written down from left to right. *)
Fixpoint laid (at_ n : Z) (fs : list (Z * bytes)) : bytes :=
  match fs with
  | [] => zeros (n - at_)
  | (o, x) :: fs => zeros (o - at_) ++ x ++ laid (o + blen x) n fs
  end.

(** Fields in order that do not overlap and end before [n]. *)
Fixpoint ordered (at_ n : Z) (fs : list (Z * bytes)) : Prop :=
  match fs with
  | [] => at_ <= n
  | (o, x) :: fs => at_ <= o /\ ordered (o + blen x) n fs
  end.

(** The reserved stretches. *)
Fixpoint gaps (at_ n : Z) (fs : list (Z * bytes)) : list (Z * Z) :=
  match fs with
  | [] => [(at_, n - at_)]
  | (o, x) :: fs => (at_, o - at_) :: gaps (o + blen x) n fs
  end.

Fixpoint field_at (fs : list (Z * bytes)) (o : Z) : option bytes :=
  match fs with
  | [] => None
  | (o', x) :: fs => if o =? o' then Some x else field_at fs o
  end.

Section layout.
Implicit Types fs : list (Z * bytes).

Lemma ordered_le n : forall fs at_, ordered at_ n fs -> at_ <= n.
Proof.
  induction fs as [|[o x] fs IH]; cbn; intros at_; [done|]. intros [? ?%IH]. pose proof (blen_nonneg x). lia.
Qed.

Lemma blen_laid n : forall fs at_, ordered at_ n fs -> blen (laid at_ n fs) = n - at_.
Proof.
  induction fs as [|[o x] fs IH]; cbn; intros at_; [intros; apply blen_zeros; lia|]. intros [? Ho].
  rewrite !blen_app, blen_zeros, (IH _ Ho) by lia. lia.
Qed.

Lemma fill_laid_at n : forall fs at_ pre, 0 <= at_ -> blen pre = at_ -> ordered at_ n fs ->
  fold_left (fun b f => splice b f.1 f.2) fs (pre ++ zeros (n - at_)) = pre ++ laid at_ n fs.
Proof.
  induction fs as [|[o x] fs IH]; cbn; intros at_ pre Ha Hp; [done|]. intros [? Ho].
  pose proof (ordered_le _ _ _ Ho). pose proof (blen_nonneg x).
  replace (n - at_) with ((o - at_) + (blen x + (n - (o + blen x)))) by lia. rewrite !zeros_app by lia. rewrite app_assoc.
  rewrite splice_middle by (rewrite ?blen_app, ?blen_zeros by lia; lia). rewrite app_assoc.
  rewrite IH by (done || rewrite ?blen_app, ?blen_zeros by lia; lia). by rewrite <- !app_assoc.
Qed.

Lemma fill_laid n fs : ordered 0 n fs -> fill n fs = laid 0 n fs.
Proof. intros Ho. pose proof (fill_laid_at n fs 0 [] ltac:(lia) eq_refl Ho) as Hl. cbn in Hl. by rewrite Z.sub_0_r in Hl. Qed.

Lemma blen_fill n fs : ordered 0 n fs -> blen (fill n fs) = n.
Proof. intros Ho. rewrite fill_laid, blen_laid by done. lia. Qed.

Lemma ordered_field o x : forall fs at_ n, ordered at_ n fs -> field_at fs o = Some x -> at_ <= o.
Proof.
  induction fs as [|[o' y] fs IH]; cbn; intros at_ n; [done|]. intros [? Ho]. case_match eqn:E; propify; [intros; lia|].
  intros Hf. pose proof (IH _ _ Ho Hf). pose proof (blen_nonneg y). lia.
Qed.

Lemma laid_field n o x : forall fs at_, ordered at_ n fs -> field_at fs o = Some x ->
  sub (laid at_ n fs) (o - at_) (blen x) = x.
Proof.
  induction fs as [|[o' y] fs IH]; cbn; intros at_; [done|]. intros [? Ho]. pose proof (blen_nonneg x). pose proof (blen_nonneg y).
  case_match eqn:E; propify.
  - intros [= ->]. rewrite sub_app_r by (rewrite ?blen_zeros by lia; lia). rewrite blen_zeros by lia.
    replace (o - at_ - (o' - at_)) with 0 by lia. rewrite sub_app_l by lia. apply sub_full.
  - intros Hf. pose proof (ordered_field _ _ _ _ _ Ho Hf).
    rewrite sub_app_r by (rewrite ?blen_zeros by lia; lia). rewrite blen_zeros by lia.
    rewrite sub_app_r by lia. replace (o - at_ - (o' - at_) - blen y) with (o - (o' + blen y)) by lia. by apply IH.
Qed.

Lemma fill_field n fs o k x : ordered 0 n fs -> field_at fs o = Some x -> blen x = k -> sub (fill n fs) o k = x.
Proof. intros Ho Hf <-. rewrite fill_laid by done. pose proof (laid_field n o x fs 0 Ho Hf) as Hl. by rewrite Z.sub_0_r in Hl. Qed.

Lemma laid_gap n o k : 0 <= k -> forall fs at_, ordered at_ n fs -> at_ <= o -> o + k <= n ->
  Forall (fun f => o + k <= f.1 \/ f.1 + blen f.2 <= o) fs -> sub (laid at_ n fs) (o - at_) k = zeros k.
Proof.
  intros Hk. induction fs as [|[o' y] fs IH]; cbn; intros at_; [intros; apply sub_zeros; lia|].
  intros [? Ho] Ha Hn [Hd HF]%Forall_cons. cbn in Hd. pose proof (blen_nonneg y). destruct Hd as [Hd|Hd].
  - rewrite sub_app_l by (rewrite ?blen_zeros by lia; lia). apply sub_zeros; lia.
  - rewrite sub_app_r by (rewrite ?blen_zeros by lia; lia). rewrite blen_zeros by lia.
    rewrite sub_app_r by lia. replace (o - at_ - (o' - at_) - blen y) with (o - (o' + blen y)) by lia. by apply IH.
Qed.

Lemma fill_gap n fs o k : ordered 0 n fs -> 0 <= o -> 0 <= k -> o + k <= n ->
  Forall (fun f => o + k <= f.1 \/ f.1 + blen f.2 <= o) fs -> sub (fill n fs) o k = zeros k.
Proof.
  intros Ho Ha Hk Hn HF. rewrite fill_laid by done. pose proof (laid_gap n o k Hk fs 0 Ho Ha Hn HF) as Hl. by rewrite Z.sub_0_r in Hl.
Qed.

(** An array is its fields and the zeros between them. *)
Lemma laid_of b n : blen b = n -> forall fs at_, 0 <= at_ -> ordered at_ n fs ->
  Forall (fun f => sub b f.1 (blen f.2) = f.2) fs -> Forall (fun g => sub b g.1 g.2 = zeros g.2) (gaps at_ n fs) ->
  laid at_ n fs = sub b at_ (n - at_).
Proof.
  intros Hb. induction fs as [|[o x] fs IH]; cbn; intros at_ Ha.
  { intros Hn _ [Hg _]%Forall_cons. by cbn in Hg. }
  intros [? Ho] [Hx HF]%Forall_cons [Hg HG]%Forall_cons. cbn in Hx, Hg. pose proof (blen_nonneg x). pose proof (ordered_le _ _ _ Ho).
  rewrite (IH (o + blen x) ltac:(lia) Ho HF HG). replace (n - at_) with ((o - at_) + (blen x + (n - (o + blen x)))) by lia.
  rewrite (sub_split b at_) by lia. rewrite Hg. replace (at_ + (o - at_)) with o by lia. rewrite (sub_split b o) by lia. by rewrite Hx.
Qed.

Lemma fill_of b n fs : blen b = n -> ordered 0 n fs ->
  Forall (fun f => sub b f.1 (blen f.2) = f.2) fs -> Forall (fun g => sub b g.1 g.2 = zeros g.2) (gaps 0 n fs) ->
  fill n fs = b.
Proof.
  intros Hb Ho HF HG. rewrite fill_laid by done. rewrite (laid_of b n Hb fs 0) by (done || lia). rewrite Z.sub_0_r, <- Hb. apply sub_full.
Qed.
End layout.

(** Evaluate the reads of the fields of an array. *)
Ltac row_ordered := cbn [ordered]; repeat split; blia.
Ltac row_field :=
  match goal with
  | |- context [sub (fill ?n ?fs) ?o ?k] =>
      first [ erewrite (fill_field n fs o k) by (first [assumption | reflexivity | row_ordered | blia])
            | rewrite (fill_gap n fs o k) by (first [assumption | lia | row_ordered | (repeat (apply Forall_cons; split; [cbn [fst snd]; blia|]); apply Forall_nil; done)]) ]
  end.
