(* ===== verification/Catalog.v ===== *)
(** * Catalog: the rows of the catalog table

    [src/src/catalog/codec.rs]: keys and values of the catalog rows, byte for byte.
    A decoder accepts exactly what the encoder writes, but for quota rows, whose
    unused bytes are not checked. *)

From S2P Require Import Prelude Keys Errors PageFormat StructuralHeader Layout.
From Stdlib Require Import ZArith Lia.
From stdpp Require Import base list strings.
From coqutil Require Import Byte.

Local Open Scope Z_scope.
Local Open Scope pagedb_scope.

Definition MAX_SEGMENT_NAME_LEN : Z := 1024.
Definition REKEY_INTENT_LEN : Z := 64.
Definition REKEY_SEGMENT_PROGRESS_LEN : Z := 20.
Definition SEGMENT_META_LEN : Z := 94.
Definition REALM_QUOTAS_LEN : Z := 33.

Module CatalogRowKind.
Inductive t := Quota | Segment | Counter | RekeyState | CompactionState | RekeySegmentProgress.
Definition as_byte (k : t) : Z :=
  match k with
  | Quota => 0 | Segment => 1 | Counter => 2 | RekeyState => 3 | CompactionState => 7 | RekeySegmentProgress => 8
  end.
End CatalogRowKind.

Module RekeyStage.
Inductive t := Intent | MainPagesTargetReadable | HeaderTargetPublished | MainDone | SegmentsPending.
Definition as_byte (s : t) : Z :=
  match s with
  | Intent => 1 | MainPagesTargetReadable => 2 | HeaderTargetPublished => 3 | MainDone => 4 | SegmentsPending => 5
  end.
Definition from_byte (b : Z) : result t :=
  match b with
  | 1 => Ok Intent | 2 => Ok MainPagesTargetReadable | 3 => Ok HeaderTargetPublished | 4 => Ok MainDone
  | 5 => Ok SegmentsPending | _ => Err (catalog_row_invalid "rekey.stage")
  end.
Lemma stage_from_as s : from_byte (as_byte s) = Ok s.
Proof. by destruct s. Qed.
Lemma stage_as_from b s : from_byte b = Ok s -> b = as_byte s.
Proof. unfold from_byte. intros E. repeat case_match; simplify_eq; done. Qed.
Lemma stage_u8 s : is_u8 (as_byte s).
Proof. by destruct s. Qed.
End RekeyStage.

Record RekeyIntent := mkRekeyIntent {
  source_mk_epoch : Z;
  target_mk_epoch : Z;
  source_cipher_id : Z;
  target_cipher_id : Z;
  same_kek : bool;
  stage : RekeyStage.t;
  source_hk_proof : bytes;
  target_hk_proof : bytes;
}.

Inductive RekeySegmentProgressState := Sealed.
Definition progress_state_from_byte (b : Z) : result RekeySegmentProgressState :=
  match b with 1 => Ok Sealed | _ => Err (catalog_row_invalid "rekey.segment_progress.state") end.

Record RekeySegmentProgress := mkRekeySegmentProgress {
  replacement_segment_id : bytes;
  progress_state : RekeySegmentProgressState;
}.

Inductive SegmentKind := Unspecified.
Definition segment_kind_from_byte (b : Z) : result SegmentKind :=
  match b with 0 => Ok Unspecified | _ => Err Unsupported end.
Definition segment_kind_as_byte (k : SegmentKind) : Z := 0.

Record SegmentMeta := mkSegmentMeta {
  sm_segment_id : bytes;
  sm_segment_kind : SegmentKind;
  sm_realm_id : RealmId;
  sm_parent_file_id : bytes;
  sm_linked_commit : option Z;
  sm_page_count : Z;
  sm_total_bytes : Z;
  sm_final_counter : Z;
  sm_mk_epoch : Z;
  sm_cipher_id : Z;
  sm_format_version : Z;
  sm_evictable : Evictable;
}.

Record RealmQuotas := mkRealmQuotas {
  max_pages : option Z;
  max_dirty_pages : option Z;
  max_scratch_pages : option Z;
  max_segment_bytes : option Z;
}.

(** ** Keys *)

Definition quota_key (realm : RealmId) : bytes := to_u8 (CatalogRowKind.as_byte CatalogRowKind.Quota) :: realm.

Definition segment_key (realm : RealmId) (name : bytes) : result bytes :=
  if MAX_SEGMENT_NAME_LEN <? blen name then Err NameTooLong else
  Ok (to_u8 (CatalogRowKind.as_byte CatalogRowKind.Segment) :: realm ++ name).

Definition SEGMENT_KEY_PREFIX_LEN : Z := 17.
Definition validate_segment_key (key : bytes) (meta : SegmentMeta) : result bytes :=
  if negb (bool_decide (head key = Some (to_u8 (CatalogRowKind.as_byte CatalogRowKind.Segment))))
  then Err (catalog_row_invalid "segment.key.kind") else
  if blen key <? SEGMENT_KEY_PREFIX_LEN then Err (catalog_row_invalid "segment.key.length") else
  let! name := slice key SEGMENT_KEY_PREFIX_LEN (blen key) in
  if MAX_SEGMENT_NAME_LEN <? blen name then Err (catalog_row_invalid "segment.key.name_length") else
  let! realm := slice key 1 SEGMENT_KEY_PREFIX_LEN in
  if negb (bool_decide (realm = sm_realm_id meta)) then Err (catalog_row_invalid "segment.key.realm_id") else
  Ok name.

Definition rekey_state_key : bytes := [to_u8 (CatalogRowKind.as_byte CatalogRowKind.RekeyState)].

Definition rekey_segment_progress_key (old_segment_id : bytes) : bytes :=
  to_u8 (CatalogRowKind.as_byte CatalogRowKind.RekeySegmentProgress) :: old_segment_id.

Definition counter_key (name : bytes) : result bytes :=
  if MAX_SEGMENT_NAME_LEN <? blen name then Err NameTooLong else
  Ok (to_u8 (CatalogRowKind.as_byte CatalogRowKind.Counter) :: name).

(** ** Rekey intents *)

Definition intent_fields (i : RekeyIntent) : list (Z * bytes) :=
    [(0, [to_u8 1]); (1, [to_u8 (RekeyStage.as_byte (stage i))]); (2, [to_u8 (if same_kek i then 1 else 0)]);
     (4, le64 (source_mk_epoch i)); (12, le64 (target_mk_epoch i));
     (20, [to_u8 (source_cipher_id i)]); (21, [to_u8 (target_cipher_id i)]);
     (24, source_hk_proof i); (40, target_hk_proof i)].
Definition encode_rekey_intent (i : RekeyIntent) : bytes := fill REKEY_INTENT_LEN (intent_fields i).

Definition decode_rekey_state (b : bytes) : result RekeyIntent :=
  let framing := Err (catalog_row_invalid "rekey.framing") in
  if negb (blen b =? REKEY_INTENT_LEN) then framing else
  let! version := u8_at b 0 in
  if negb (version =? 1) then framing else
  let! reserved := u8_at b 3 in
  if negb (reserved =? 0) then framing else
  let! reserved := slice b 22 24 in
  if negb (all_zero reserved) then framing else
  let! reserved := slice b 56 (blen b) in
  if negb (all_zero reserved) then framing else
  let! source := u64_le b 4 in
  let! target := u64_le b 12 in
  if (target =? 0) || (target <=? source) then Err (catalog_row_invalid "rekey.epoch_ordering") else
  let! same := u8_at b 2 in
  let! same := match same with 0 => Ok false | 1 => Ok true | _ => Err (catalog_row_invalid "rekey.same_kek") end in
  let! source_cipher := u8_at b 20 in
  let! target_cipher := u8_at b 21 in
  let! _ := CipherId.from_byte source_cipher in
  let! _ := CipherId.from_byte target_cipher in
  if negb (source_cipher =? target_cipher) then Err (RekeyStateInvalid "target_cipher_id") else
  let! source_proof := slice b 24 40 in
  let! target_proof := slice b 40 56 in
  let! s := u8_at b 1 in
  let! s := RekeyStage.from_byte s in
  Ok (mkRekeyIntent source target source_cipher target_cipher same s source_proof target_proof).

(** ** Progress of a segment *)

Definition progress_fields (p : RekeySegmentProgress) : list (Z * bytes) :=
  [(0, [to_u8 1]); (1, [to_u8 (match progress_state p with Sealed => 1 end)]); (4, replacement_segment_id p)].
Definition encode_rekey_segment_progress (p : RekeySegmentProgress) : bytes :=
  fill REKEY_SEGMENT_PROGRESS_LEN (progress_fields p).

Definition decode_rekey_segment_progress (b : bytes) : result RekeySegmentProgress :=
  let framing := Err (catalog_row_invalid "rekey.segment_progress.framing") in
  if negb (blen b =? REKEY_SEGMENT_PROGRESS_LEN) then framing else
  let! version := u8_at b 0 in
  if negb (version =? 1) then framing else
  let! reserved := slice b 2 4 in
  if negb (all_zero reserved) then framing else
  let! id := slice b 4 20 in
  let! s := u8_at b 1 in
  let! s := progress_state_from_byte s in
  Ok (mkRekeySegmentProgress id s).

(** ** Counters *)

Definition encode_counter (value : Z) : bytes := le64 value.
Definition decode_counter (b : bytes) : result Z :=
  if negb (blen b =? 8) then Err (catalog_row_invalid "counter.value") else Ok (of_le b).

(** ** Quotas *)

(** [mask |= 1 << bit] when the cap is there *)
Definition mask_bit (cap : option Z) (bit mask : Z) : Z :=
  match cap with Some _ => Z.lor mask (Z.shiftl 1 bit) | None => mask end.

Definition quota_mask (q : RealmQuotas) : Z :=
  mask_bit (max_segment_bytes q) 3 (mask_bit (max_scratch_pages q) 2
    (mask_bit (max_dirty_pages q) 1 (mask_bit (max_pages q) 0 0))).
Definition encode_realm_quotas (q : RealmQuotas) : bytes :=
  fill REALM_QUOTAS_LEN
    [(0, [to_u8 (quota_mask q)]); (1, le64 (default 0 (max_pages q))); (9, le64 (default 0 (max_dirty_pages q)));
     (17, le64 (default 0 (max_scratch_pages q))); (25, le64 (default 0 (max_segment_bytes q)))].

Definition read_cap (b : bytes) (mask flag off : Z) : result (option Z) :=
  if negb (Z.land mask flag =? 0) then let! v := u64_le b off in Ok (Some v) else Ok None.

Definition decode_realm_quotas (b : bytes) : result RealmQuotas :=
  if negb (blen b =? REALM_QUOTAS_LEN) then Err (catalog_row_invalid "realm_quotas.length") else
  let! mask := u8_at b 0 in
  let! pages := read_cap b mask 1 1 in
  let! dirty := read_cap b mask 2 9 in
  let! scratch := read_cap b mask 4 17 in
  let! segments := read_cap b mask 8 25 in
  Ok (mkRealmQuotas pages dirty scratch segments).

Definition with_max_pages (q : RealmQuotas) (v : Z) : RealmQuotas :=
  mkRealmQuotas (Some v) (max_dirty_pages q) (max_scratch_pages q) (max_segment_bytes q).
Definition with_max_dirty_pages (q : RealmQuotas) (v : Z) : RealmQuotas :=
  mkRealmQuotas (max_pages q) (Some v) (max_scratch_pages q) (max_segment_bytes q).
Definition with_max_scratch_pages (q : RealmQuotas) (v : Z) : RealmQuotas :=
  mkRealmQuotas (max_pages q) (max_dirty_pages q) (Some v) (max_segment_bytes q).
Definition with_max_segment_bytes (q : RealmQuotas) (v : Z) : RealmQuotas :=
  mkRealmQuotas (max_pages q) (max_dirty_pages q) (max_scratch_pages q) (Some v).

(** ** Segments *)

Definition evictable_byte (e : Evictable) : Z := match e with Authoritative => 0 | Replaceable => 1 end.

Definition meta_fields (m : SegmentMeta) : list (Z * bytes) :=
    [(0, sm_segment_id m); (16, [to_u8 (segment_kind_as_byte (sm_segment_kind m))]); (17, sm_realm_id m);
      (33, sm_parent_file_id m)] ++
     match sm_linked_commit m with Some c => [(49, [to_u8 1]); (50, le64 c)] | None => [(49, [to_u8 0])] end ++
     [(58, le64 (sm_page_count m)); (66, le64 (sm_total_bytes m)); (74, le64 (sm_final_counter m));
      (82, le64 (sm_mk_epoch m)); (90, [to_u8 (sm_cipher_id m)]); (91, le16 (sm_format_version m));
      (93, [to_u8 (evictable_byte (sm_evictable m))])].
Definition encode_segment_meta (m : SegmentMeta) : bytes := fill SEGMENT_META_LEN (meta_fields m).

Definition decode_segment_meta (b : bytes) : result SegmentMeta :=
  if negb (blen b =? SEGMENT_META_LEN) then Err (catalog_row_invalid "segment_meta.length") else
  let! id := arr16 b 0 in
  let! kind := u8_at b 16 in
  let! kind := segment_kind_from_byte kind in
  let! realm := arr16 b 17 in
  let! parent := arr16 b 33 in
  let! tag := u8_at b 49 in
  let! linked :=
    match tag with
    | 0 => let! unused := slice b 50 58 in
           if negb (all_zero unused) then Err (catalog_row_invalid "segment_meta.linked_commit") else Ok None
    | 1 => let! c := u64_le b 50 in Ok (Some c)
    | _ => Err (catalog_row_invalid "segment_meta.linked_commit")
    end in
  let! page_count := u64_le b 58 in
  let! total_bytes := u64_le b 66 in
  let! final_counter := u64_le b 74 in
  let! epoch := u64_le b 82 in
  let! cipher := u8_at b 90 in
  let! version := u16_le b 91 in
  let! ev := u8_at b 93 in
  let! evictable := match ev with
                    | 0 => Ok Authoritative | 1 => Ok Replaceable
                    | _ => Err (catalog_row_invalid "segment_meta.evictable")
                    end in
  Ok (mkSegmentMeta id kind realm parent linked page_count total_bytes final_counter epoch cipher version evictable).

(** ** What the codecs promise *)

Class RowCodec (A : Type) := {
  row_encode : A -> bytes;
  row_decode : bytes -> result A;
  row_ok : A -> Prop;
}.

Class RowCodecExact (A : Type) `{RowCodec A} : Prop := {
  row_encoded : forall x, row_ok x -> row_decode (row_encode x) = Ok x;
  row_decoded : forall b x, row_decode b = Ok x -> row_ok x /\ row_encode x = b;
  row_total : forall b, row_decode b <> Panic;
}.

Definition intent_ok (i : RekeyIntent) : Prop :=
  is_u64 (source_mk_epoch i) /\ is_u64 (target_mk_epoch i) /\ source_mk_epoch i < target_mk_epoch i /\
  (exists c, source_cipher_id i = CipherId.as_byte c) /\ target_cipher_id i = source_cipher_id i /\
  blen (source_hk_proof i) = 16 /\ blen (target_hk_proof i) = 16.
Definition progress_ok (p : RekeySegmentProgress) : Prop := blen (replacement_segment_id p) = 16.
Definition meta_ok (m : SegmentMeta) : Prop :=
  blen (sm_segment_id m) = 16 /\ blen (sm_realm_id m) = 16 /\ blen (sm_parent_file_id m) = 16 /\
  (forall c, sm_linked_commit m = Some c -> is_u64 c) /\ is_u64 (sm_page_count m) /\ is_u64 (sm_total_bytes m) /\
  is_u64 (sm_final_counter m) /\ is_u64 (sm_mk_epoch m) /\ is_u8 (sm_cipher_id m) /\ is_u16 (sm_format_version m).
Definition cap_ok (c : option Z) : Prop := forall v, c = Some v -> is_u64 v.
Definition quotas_ok (q : RealmQuotas) : Prop :=
  cap_ok (max_pages q) /\ cap_ok (max_dirty_pages q) /\ cap_ok (max_scratch_pages q) /\ cap_ok (max_segment_bytes q).

#[global] Instance intent_codec : RowCodec RekeyIntent :=
  {| row_encode := encode_rekey_intent; row_decode := decode_rekey_state; row_ok := intent_ok |}.
#[global] Instance progress_codec : RowCodec RekeySegmentProgress :=
  {| row_encode := encode_rekey_segment_progress; row_decode := decode_rekey_segment_progress; row_ok := progress_ok |}.
#[global] Instance meta_codec : RowCodec SegmentMeta :=
  {| row_encode := encode_segment_meta; row_decode := decode_segment_meta; row_ok := meta_ok |}.
#[global] Instance counter_codec : RowCodec Z :=
  {| row_encode := encode_counter; row_decode := decode_counter; row_ok := fun v => is_u64 v |}.

(** Reads of a row of the right length. *)
Ltac row_reads := rewrite ?u8_at_ok, ?u16_le_ok, ?u64_le_ok, ?arr16_ok, ?slice_ok by lia; norm_lit; cbv beta iota.

Lemma byte_sub b o v : 0 <= o -> o + 1 <= blen b -> of_le (sub b o 1) = v -> sub b o 1 = [to_u8 v].
Proof. intros ? ? <-. symmetry. apply to_u8_of_le, blen_sub; lia. Qed.

Lemma flag_byte {E} n (e : E) s : match n with 0 => Ok false | 1 => Ok true | _ => Err e end = Ok s -> n = if s then 1 else 0.
Proof. intros Hm. repeat case_match; simplify_eq; done. Qed.

(** The fields of a row that was decoded are the bytes it was decoded from, and
    the stretches between them are what its checks say. *)
Ltac row_same :=
  repeat (apply Forall_cons; split;
    [cbn [fst snd]; autorewrite with blen;
     rewrite ?to_u8_of_le, ?le16_of_le, ?le64_of_le, ?blen_sub by (first [apply blen_sub; lia | lia]);
     first [reflexivity | apply byte_sub; [lia|lia|first [assumption | congruence]] | idtac]|]);
  try (apply Forall_nil; exact I).
Ltac row_gaps :=
  cbn [gaps]; repeat (apply Forall_cons; split;
    [cbn [fst snd]; autorewrite with blen; rewrite ?blen_sub by lia; norm_lit; try reflexivity; try assumption|]);
  try (apply Forall_nil; exact I).

(** *** Rekey intents *)

Lemma intent_ordered i : blen (source_hk_proof i) = 16 -> blen (target_hk_proof i) = 16 -> ordered 0 64 (intent_fields i).
Proof. intros. unfold intent_fields. row_ordered. Qed.

Lemma intent_encoded i : intent_ok i -> decode_rekey_state (encode_rekey_intent i) = Ok i.
Proof.
  intros (Hs & Ht & Hlt & [c Hc] & Hcc & Hp1 & Hp2). pose proof (intent_ordered i Hp1 Hp2) as Ho.
  unfold decode_rekey_state, encode_rekey_intent, REKEY_INTENT_LEN.
  pose proof (blen_fill _ _ Ho) as Hl. rewrite Hl, Z.eqb_refl. cbn [negb]. row_reads. unfold intent_fields in *. repeat row_field.
  change (of_le [to_u8 1] =? 1) with true. change (of_le (zeros 1) =? 0) with true. rewrite !all_zero_zeros. cbn [negb].
  rewrite !of_le64, !of_le_byte by done. rewrite !u8_to_u8 by (first [apply RekeyStage.stage_u8 | by destruct (same_kek i) | rewrite ?Hcc, Hc; apply CipherId.cipher_as_byte_u8]).
  rewrite (proj2 (Z.eqb_neq _ _)), (proj2 (Z.leb_gt _ _)) by lia. cbn [orb].
  rewrite Hcc, Hc, CipherId.cipher_from_as_byte, Z.eqb_refl, RekeyStage.stage_from_as. cbn [negb].
  destruct i as [? ? ? ? same ? ? ?]. cbn in *. subst. by destruct same.
Qed.

Lemma intent_decoded b i : decode_rekey_state b = Ok i -> intent_ok i /\ encode_rekey_intent i = b.
Proof.
  unfold decode_rekey_state, REKEY_INTENT_LEN. destruct (Z.eqb_spec (blen b) 64) as [Hb|]; [|done]. cbn [negb]. rewrite Hb. row_reads.
  destruct (Z.eqb_spec (of_le (sub b 0 1)) 1) as [Hv|]; [|done]. destruct (Z.eqb_spec (of_le (sub b 3 1)) 0) as [Hr|]; [|done].
  destruct (all_zero (sub b 22 2)) eqn:Hz1; [|done]. destruct (all_zero (sub b 56 8)) eqn:Hz2; [|done]. cbn [negb].
  apply all_zero_sub in Hz1; [|lia..]. apply all_zero_sub in Hz2; [|lia..].
  destruct (Z.eqb_spec (of_le (sub b 12 8)) 0) as [|Hne]; [done|].
  destruct (Z.leb_spec (of_le (sub b 12 8)) (of_le (sub b 4 8))) as [|Hlt]; [done|]. cbn [orb].
  destruct (match of_le (sub b 2 1) with 0 => _ | _ => _ end) as [same| |] eqn:Hsame; [|done..]. apply flag_byte in Hsame.
  destruct (CipherId.from_byte (of_le (sub b 20 1))) as [c| |] eqn:Hc; [|done..]. apply CipherId.cipher_from_byte_inv in Hc.
  destruct (CipherId.from_byte (of_le (sub b 21 1))) as [c'| |] eqn:Hc'; [|done..].
  destruct (Z.eqb_spec (of_le (sub b 20 1)) (of_le (sub b 21 1))) as [Hcc|]; [|done]. cbn [negb].
  destruct (RekeyStage.from_byte (of_le (sub b 1 1))) as [st| |] eqn:Hst; [|done..]. apply RekeyStage.stage_as_from in Hst.
  intros [= <-]. split.
  - unfold intent_ok. cbn. pose proof (of_le_width 8 b 4). pose proof (of_le_width 8 b 12). rewrite !blen_sub by lia.
    split; [lia|]. split; [lia|]. split; [lia|]. split; [by exists c|]. done.
  - apply fill_of; [done|apply intent_ordered; apply blen_sub; lia| |].
    + unfold intent_fields. cbn. row_same.
    + unfold intent_fields. cbn. row_gaps. apply (byte_sub b 3 0) in Hr; [exact Hr|lia..].
Qed.

Lemma intent_total b : decode_rekey_state b <> Panic.
Proof.
  unfold decode_rekey_state, REKEY_INTENT_LEN. destruct (Z.eqb_spec (blen b) 64) as [Hb|]; [|done]. cbn [negb]. rewrite Hb. row_reads.
  pose proof (CipherId.cipher_from_byte_no_panic (of_le (sub b 20 1))). pose proof (CipherId.cipher_from_byte_no_panic (of_le (sub b 21 1))).
  unfold RekeyStage.from_byte. repeat case_match; done.
Qed.

#[global] Instance intent_exact : RowCodecExact RekeyIntent.
Proof. split; [apply intent_encoded|apply intent_decoded|apply intent_total]. Qed.

(** *** Progress of a segment *)

Lemma progress_ordered p : progress_ok p -> ordered 0 20 (progress_fields p).
Proof. unfold progress_ok. intros. unfold progress_fields. row_ordered. Qed.

#[global] Instance progress_exact : RowCodecExact RekeySegmentProgress.
Proof.
  split; cbn [row_ok row_encode row_decode progress_codec].
  - intros p Hp. pose proof (progress_ordered p Hp) as Ho. unfold progress_ok in Hp.
    unfold decode_rekey_segment_progress, encode_rekey_segment_progress, REKEY_SEGMENT_PROGRESS_LEN.
    pose proof (blen_fill _ _ Ho) as Hl. rewrite Hl, Z.eqb_refl. cbn [negb]. row_reads. unfold progress_fields in *. repeat row_field.
    destruct p as [id []]. done.
  - intros b p. unfold decode_rekey_segment_progress, REKEY_SEGMENT_PROGRESS_LEN.
    destruct (Z.eqb_spec (blen b) 20) as [Hb|]; [|done]. cbn [negb]. row_reads.
    destruct (Z.eqb_spec (of_le (sub b 0 1)) 1) as [Hv|]; [|done]. destruct (all_zero (sub b 2 2)) eqn:Hz; [|done]. cbn [negb].
    apply all_zero_sub in Hz; [|lia..]. destruct (progress_state_from_byte _) as [[]| |] eqn:Hs; [|done..].
    assert (of_le (sub b 1 1) = 1) as Hs1 by (unfold progress_state_from_byte in Hs; by repeat case_match).
    intros [= <-]. assert (progress_ok (mkRekeySegmentProgress (sub b 4 16) Sealed)) as Hok by (apply blen_sub; lia).
    split; [done|]. apply fill_of; [done|by apply progress_ordered| |]; unfold progress_fields; cbn; [row_same|row_gaps].
  - intros b. unfold decode_rekey_segment_progress, REKEY_SEGMENT_PROGRESS_LEN.
    destruct (Z.eqb_spec (blen b) 20) as [Hb|]; [|done]. cbn [negb]. row_reads. unfold progress_state_from_byte. by repeat case_match.
Qed.

(** *** Counters *)

#[global] Instance counter_exact : RowCodecExact Z.
Proof.
  split; cbn [row_ok row_encode row_decode counter_codec]; unfold decode_counter, encode_counter.
  - intros v Hv. autorewrite with blen. cbn. by rewrite of_le64.
  - intros b v. destruct (Z.eqb_spec (blen b) 8) as [Hb|]; [|done]. intros [= <-]. split; [|by apply le64_of_le].
    pose proof (of_le_bound b 8 ltac:(lia)). lia.
  - intros b. by case_match.
Qed.

(** *** Segments *)

Lemma meta_ordered m : blen (sm_segment_id m) = 16 -> blen (sm_realm_id m) = 16 -> blen (sm_parent_file_id m) = 16 ->
  ordered 0 94 (meta_fields m).
Proof. intros. unfold meta_fields. destruct (sm_linked_commit m); cbn [app]; row_ordered. Qed.

Lemma meta_encoded m : meta_ok m -> decode_segment_meta (encode_segment_meta m) = Ok m.
Proof.
  intros (H1 & H2 & H3 & H4 & H5 & H6 & H7 & H8 & H9 & H10). pose proof (meta_ordered m H1 H2 H3) as Ho.
  unfold decode_segment_meta, encode_segment_meta, SEGMENT_META_LEN. pose proof (blen_fill _ _ Ho) as Hl. rewrite Hl, Z.eqb_refl. cbn [negb].
  row_reads. unfold meta_fields in *. destruct m as [id [] realm parent linked pc tb fc ep ci fv ev]. cbn in *.
  destruct linked as [c|]; cbn in *; repeat row_field; rewrite ?all_zero_zeros; rewrite !of_le64, of_le16 by auto; cbn [negb];
    rewrite !of_le_byte, (u8_to_u8 ci) by done; by destruct ev.
Qed.

Lemma meta_decoded b m : decode_segment_meta b = Ok m -> meta_ok m /\ encode_segment_meta m = b.
Proof.
  unfold decode_segment_meta, SEGMENT_META_LEN. destruct (Z.eqb_spec (blen b) 94) as [Hb|]; [|done]. cbn [negb]. row_reads.
  destruct (segment_kind_from_byte _) as [[]| |] eqn:Hk; [|done..].
  assert (of_le (sub b 16 1) = 0) as Hk0 by (unfold segment_kind_from_byte in Hk; by repeat case_match).
  destruct (match of_le (sub b 49 1) with 0 => _ | _ => _ end) as [linked| |] eqn:Hl; [|done..].
  destruct (match of_le (sub b 93 1) with 0 => _ | _ => _ end) as [ev| |] eqn:He; [|done..].
  assert (of_le (sub b 93 1) = evictable_byte ev) as Hev by (repeat case_match; by simplify_eq).
  intros [= <-]. pose proof (of_le_width 8 b 50). pose proof (of_le_width 8 b 58). pose proof (of_le_width 8 b 66).
  pose proof (of_le_width 8 b 74). pose proof (of_le_width 8 b 82). pose proof (of_le_width 1 b 90). pose proof (of_le_width 2 b 91).
  assert (match linked with
          | Some c => of_le (sub b 49 1) = 1 /\ c = of_le (sub b 50 8)
          | None => of_le (sub b 49 1) = 0 /\ sub b 50 8 = zeros 8
          end) as Hlk.
  { destruct (of_le (sub b 49 1)) as [|[| |]|] eqn:E; try done; [|by injection Hl as <-].
    destruct (all_zero (sub b 50 8)) eqn:Hz; [|done]. apply all_zero_sub in Hz; [|lia..]. by injection Hl as <-. }
  split.
  - unfold meta_ok. cbn. rewrite !blen_sub by lia. do 3 (split; [done|]). split; [|repeat split; lia].
    destruct linked; [|done]. intros c [= <-]. destruct Hlk as [_ ->]. lia.
  - apply fill_of; [done|apply meta_ordered; apply blen_sub; lia| |]; unfold meta_fields; destruct linked as [c|]; cbn;
      destruct Hlk as [Ht Hc]; subst; [row_same|row_same|row_gaps|row_gaps].
Qed.

Lemma meta_total b : decode_segment_meta b <> Panic.
Proof.
  unfold decode_segment_meta, SEGMENT_META_LEN. destruct (Z.eqb_spec (blen b) 94) as [Hb|]; [|done]. cbn [negb]. row_reads.
  unfold segment_kind_from_byte. repeat case_match; simplify_eq; done.
Qed.

#[global] Instance meta_exact : RowCodecExact SegmentMeta.
Proof. split; [apply meta_encoded|apply meta_decoded|apply meta_total]. Qed.

(** *** Quotas *)

Lemma quotas_encoded q : quotas_ok q -> decode_realm_quotas (encode_realm_quotas q) = Ok q.
Proof.
  intros (H1 & H2 & H3 & H4). unfold decode_realm_quotas, encode_realm_quotas, REALM_QUOTAS_LEN.
  match goal with |- context [fill 33 ?fs] => assert (ordered 0 33 fs) as Ho by row_ordered; pose proof (blen_fill _ _ Ho) as Hl end.
  rewrite Hl, Z.eqb_refl. cbn [negb]. unfold read_cap. row_reads. repeat row_field. rewrite of_le_byte.
  rewrite !of_le64 by (match goal with |- context [default 0 ?o] => destruct o; cbn; [auto|done] end).
  destruct q as [[] [] [] []]; reflexivity.
Qed.

Lemma quotas_decoded b q : decode_realm_quotas b = Ok q -> blen b = 33 /\ quotas_ok q.
Proof.
  unfold decode_realm_quotas, REALM_QUOTAS_LEN. destruct (Z.eqb_spec (blen b) 33) as [Hb|]; [|done]. cbn [negb]. unfold read_cap. row_reads.
  pose proof (of_le_width 8 b 1). pose proof (of_le_width 8 b 9). pose proof (of_le_width 8 b 17). pose proof (of_le_width 8 b 25).
  intros Hq. split; [done|]. destruct (negb (Z.land _ 1 =? 0)), (negb (Z.land _ 2 =? 0)), (negb (Z.land _ 4 =? 0)), (negb (Z.land _ 8 =? 0));
    injection Hq as <-; unfold quotas_ok, cap_ok; cbn; (split; [|split; [|split]]); intros v [= <-]; lia.
Qed.

Lemma quotas_total b : decode_realm_quotas b <> Panic /\ (blen b = 33 -> exists q, decode_realm_quotas b = Ok q).
Proof.
  unfold decode_realm_quotas, REALM_QUOTAS_LEN. destruct (Z.eqb_spec (blen b) 33) as [Hb|]; [|by split]. cbn [negb]. unfold read_cap. row_reads.
  destruct (negb (Z.land _ 1 =? 0)), (negb (Z.land _ 2 =? 0)), (negb (Z.land _ 4 =? 0)), (negb (Z.land _ 8 =? 0));
    (split; [done|intros _; eexists; reflexivity]).
Qed.

(** *** Keys *)

Lemma row_kind_inj k k' : CatalogRowKind.as_byte k = CatalogRowKind.as_byte k' -> k = k'.
Proof. by destruct k, k'. Qed.

Lemma segment_key_inj r r' n n' k : blen r = 16 -> blen r' = 16 -> segment_key r n = Ok k -> segment_key r' n' = Ok k -> r = r' /\ n = n'.
Proof.
  unfold segment_key. intros Hr Hr'. do 2 case_match; try done. intros [= <-] [= E]. symmetry in E. apply app_inj_1 in E; [done|].
  unfold blen in *. lia.
Qed.

Lemma validate_segment_key_ok key m name : blen (sm_realm_id m) = 16 ->
  validate_segment_key key m = Ok name <-> segment_key (sm_realm_id m) name = Ok key.
Proof.
  intros Hr. unfold validate_segment_key, segment_key, SEGMENT_KEY_PREFIX_LEN, MAX_SEGMENT_NAME_LEN. split.
  - destruct key as [|x rest]; [done|]. case_bool_decide as Hx; [|done]. cbn in Hx. injection Hx as ->. cbn [negb].
    destruct (Z.ltb_spec (blen (to_u8 1 :: rest)) 17) as [|Hl]; [done|]. rewrite !slice_ok by lia. cbv beta iota.
    destruct (1024 <? _) eqn:Hn; [done|]. case_bool_decide as Hq; [|done]. cbn [negb]. intros [= <-]. rewrite Hn, <- Hq. do 2 f_equal.
    norm_lit. unfold blen in *. cbn in Hl |- *. unfold sub. norm_lit. cbn [Z.to_nat Pos.to_nat Pos.iter_op Nat.add drop].
    rewrite (firstn_all2 (drop 16 rest)) by (rewrite length_drop; lia). apply take_drop.
  - destruct (1024 <? blen name) eqn:Hn; [done|]. intros [= <-]. cbn [head]. rewrite bool_decide_true by done. cbn [negb].
    assert (forall x, blen (x :: sm_realm_id m ++ name) = 17 + blen name) as Hl by (intros; unfold blen in *; cbn [length]; rewrite length_app; lia).
    pose proof (blen_nonneg name). rewrite Hl, (proj2 (Z.ltb_ge _ _)) by lia. rewrite !slice_ok by (rewrite ?Hl; lia). cbv beta iota.
    assert (forall x, sub (x :: sm_realm_id m ++ name) 17 (17 + blen name - 17) = name) as ->.
    { intros x. change (x :: sm_realm_id m ++ name) with (([x] ++ sm_realm_id m) ++ name).
      rewrite sub_app_r by blia. replace (17 - blen ([x] ++ sm_realm_id m)) with 0 by blia. replace (17 + blen name - 17) with (blen name) by lia. apply sub_full. }
    rewrite Hn. assert (forall x, sub (x :: sm_realm_id m ++ name) 1 (17 - 1) = sm_realm_id m) as ->.
    { intros x. change (x :: sm_realm_id m ++ name) with ([x] ++ sm_realm_id m ++ name). rewrite sub_app_r by blia. rewrite sub_app_l by blia.
      rewrite blen_byte. replace (17 - 1) with (blen (sm_realm_id m)) by lia. apply sub_full. }
    by rewrite bool_decide_true.
Qed.

(** ** Properties *)

(** C22: Each catalog row has one encoding. A segment row, a counter, a rekey intent or
    a segment's rekey progress decodes to a value exactly when it is the encoding of
    that value and the value is within its widths and its rules (an intent moves to
    a later epoch under the same cipher); a quota row decodes back to what was
    encoded; and a segment key names exactly the segment it was made for. *)
Theorem catalog_rows_exact :
  (forall b m, decode_segment_meta b = Ok m <-> meta_ok m /\ b = encode_segment_meta m) /\
  (forall b v, decode_counter b = Ok v <-> is_u64 v /\ b = encode_counter v) /\
  (forall b i, decode_rekey_state b = Ok i <-> intent_ok i /\ b = encode_rekey_intent i) /\
  (forall b p, decode_rekey_segment_progress b = Ok p <-> progress_ok p /\ b = encode_rekey_segment_progress p) /\
  (forall q, quotas_ok q -> decode_realm_quotas (encode_realm_quotas q) = Ok q) /\
  (forall key m name, meta_ok m -> validate_segment_key key m = Ok name <-> segment_key (sm_realm_id m) name = Ok key).
Proof.
  assert (forall A `{RowCodecExact A} b (x : A), row_decode b = Ok x <-> row_ok x /\ b = row_encode x) as Hex.
  { intros A HA HAE b x. split; [intros Hd; destruct (row_decoded b x Hd); auto|]. intros [Hx ->]. by apply row_encoded. }
  split; [exact (Hex SegmentMeta meta_codec meta_exact)|]. split; [exact (Hex Z counter_codec counter_exact)|]. split; [exact (Hex RekeyIntent intent_codec intent_exact)|]. split; [exact (Hex RekeySegmentProgress progress_codec progress_exact)|].
  split; [apply quotas_encoded|]. intros key m name (_ & Hr & _). by apply validate_segment_key_ok.
Qed.

(** C31: Catalog decoders are total and well typed: on any bytes whatever they return an
    error or a value whose identities have sixteen bytes and whose numbers fit their
    widths, and never panic. *)
Theorem catalog_decoders_typed (b : bytes) :
  (decode_segment_meta b <> Panic /\ forall m, decode_segment_meta b = Ok m -> meta_ok m) /\
  (decode_counter b <> Panic /\ forall v, decode_counter b = Ok v -> is_u64 v) /\
  (decode_rekey_state b <> Panic /\ forall i, decode_rekey_state b = Ok i -> intent_ok i) /\
  (decode_rekey_segment_progress b <> Panic /\ forall p, decode_rekey_segment_progress b = Ok p -> progress_ok p) /\
  (decode_realm_quotas b <> Panic /\ forall q, decode_realm_quotas b = Ok q -> quotas_ok q).
Proof.
  assert (forall A `{RowCodecExact A}, row_decode (A := A) b <> Panic /\ forall x : A, row_decode b = Ok x -> row_ok x) as Hty.
  { intros A HA HAE. split; [apply row_total|]. intros x Hd. by destruct (row_decoded b x Hd). }
  split; [exact (Hty SegmentMeta meta_codec meta_exact)|]. split; [exact (Hty Z counter_codec counter_exact)|]. split; [exact (Hty RekeyIntent intent_codec intent_exact)|]. split; [exact (Hty RekeySegmentProgress progress_codec progress_exact)|].
  split; [apply quotas_total|]. intros q Hq. by destruct (quotas_decoded b q Hq).
Qed.

Definition sample_meta : SegmentMeta :=
  mkSegmentMeta (zeros 16) Unspecified (zeros 16) (zeros 16) (Some 42) 100 409600 99 7 1 1 Replaceable.
Definition sample_quotas : RealmQuotas := mkRealmQuotas (Some 1000000) None (Some 64) (Some 10485760).

Lemma catalog_rows_exact_witness :
  decode_segment_meta (encode_segment_meta sample_meta) = Ok sample_meta /\
  decode_realm_quotas (encode_realm_quotas sample_quotas) = Ok sample_quotas /\
  validate_segment_key (to_u8 1 :: zeros 16 ++ [to_u8 104; to_u8 110]) sample_meta = Ok ([to_u8 104; to_u8 110]).
Proof.
  assert (meta_ok sample_meta) as Hm by (unfold meta_ok; cbn; split_and!; try done; intros c [= <-]; done).
  destruct catalog_rows_exact as (H1 & _ & _ & _ & H5 & H6). split; [apply H1; done|]. split.
  - apply H5. unfold quotas_ok, cap_ok. cbn. split_and!; intros v [= <-]; done.
  - apply H6; [exact Hm|reflexivity].
Defined.
