(* ===== verification/Vfs.v ===== *)
(** * Vfs: positional file I/O, logical paths, and the in-memory backend

    [src/src/vfs/traits.rs]: the transfer loops [read_exact_at] and
    [write_all_at] over any backend, their progress checks, and the
    canonicalisation of logical paths; [src/src/vfs/memory.rs]: the reference
    backend, with inodes shared by the handles that name them and the advisory
    lock of each path.

    A backend is an instance of [VfsFile]; what the loops rely on is
    [VfsFileSpec]. The in-memory backend discharges it. An [io::Error] is its
    kind. *)

From S2P Require Import Prelude Keys Errors.
From Stdlib Require Import ZArith Lia Ascii String.
From stdpp Require Import base list gmap strings sorting.
From coqutil Require Import Byte.

Local Open Scope Z_scope.
Local Open Scope pagedb_scope.

Definition vfs_contract_violated (operation detail : string) : PagedbError :=
  VfsContractViolated operation detail.

(** ** Progress checks *)

(** Each returns the advanced offset. *)
Definition checked_transfer_progress (offset transferred remaining : Z)
    (operation offset_label : string) : result Z :=
  if remaining <? transferred
  then Err (vfs_contract_violated operation "reported more bytes than the caller requested")
  else ok_or (checked_add offset transferred) (arithmetic_overflow offset_label).

Definition checked_read_progress (offset read remaining : Z) : result Z :=
  if read =? 0 then Err (Io "UnexpectedEof") else
  checked_transfer_progress offset read remaining "read_at" "positional read offset".

Definition checked_write_progress (offset written remaining : Z) : result Z :=
  if written =? 0 then Err (Io "WriteZero") else
  checked_transfer_progress offset written remaining "write_at" "positional write offset".

(** ** Transfer loops *)

(** [VfsFile]. [F] is an open file with the storage behind it. A read leaves
    the buffer with what it transferred; a write leaves the file with what
    it stored, also when it fails. *)
Class VfsFile (F : Type) := {
  read_at : F -> Z -> bytes -> bytes * result Z;
  write_at : F -> Z -> bytes -> F * result Z;
  write_at_vectored : F -> list (Z * bytes) -> F * result unit;
  sync : F -> F * result unit;
}.

Section transfers.
Context `{VfsFile F}.

(** [read_exact_at]: the buffer it leaves and its result. *)
Fixpoint read_exact_loop (fuel : nat) (file : F) (offset : Z) (buf : bytes) : bytes * result unit :=
  match buf, fuel with
  | [], _ => ([], Ok tt)
  | _, O => (buf, Panic)
  | _, S fuel =>
      match read_at file offset buf with
      | (buf, Ok read) =>
          match checked_read_progress offset read (blen buf) with
          | Ok offset =>
              let '(rest, r) := read_exact_loop fuel file offset (drop (Z.to_nat read) buf) in
              (take (Z.to_nat read) buf ++ rest, r)
          | Err e => (buf, Err e)
          | Panic => (buf, Panic)
          end
      | (buf, Err e) => (buf, Err e)
      | (buf, Panic) => (buf, Panic)
      end
  end.
Definition read_exact_at (file : F) (offset : Z) (buf : bytes) : bytes * result unit :=
  read_exact_loop (length buf) file offset buf.

Fixpoint write_all_loop (fuel : nat) (file : F) (offset : Z) (buf : bytes) : F * result unit :=
  match buf, fuel with
  | [], _ => (file, Ok tt)
  | _, O => (file, Panic)
  | _, S fuel =>
      match write_at file offset buf with
      | (file, Ok written) =>
          match checked_write_progress offset written (blen buf) with
          | Ok offset => write_all_loop fuel file offset (drop (Z.to_nat written) buf)
          | Err e => (file, Err e)
          | Panic => (file, Panic)
          end
      | (file, Err e) => (file, Err e)
      | (file, Panic) => (file, Panic)
      end
  end.
Definition write_all_at (file : F) (offset : Z) (buf : bytes) : F * result unit :=
  write_all_loop (length buf) file offset buf.
End transfers.

(** ** What a file holds *)

(** [Vec::resize(n, 0)] *)
Definition resize (b : bytes) (n : Z) : bytes :=
  if n <=? blen b then take (Z.to_nat n) b else b ++ zeros (n - blen b).

(** The contents after [buf] is stored at [offset]: a gap reads as zeros. *)
Definition write_contents (c : bytes) (offset : Z) (buf : bytes) : bytes :=
  let end_ := offset + blen buf in
  let c := if blen c <? end_ then resize c end_ else c in
  splice c offset buf.

(** Requests of a vectored write that overlap nowhere. *)
Definition disjoint_reqs (reqs : list (Z * bytes)) : Prop :=
  forall i j a b, i <> j -> reqs !! i = Some a -> reqs !! j = Some b ->
    a.1 + blen a.2 <= b.1 \/ b.1 + blen b.2 <= a.1.

(** The contract of a backend: a read transfers a prefix of what is asked for,
    empty only at the end of the file; a write stores a non-empty prefix; a
    vectored write of disjoint requests stores them all; a sync leaves the bytes
    as they are. *)
Class VfsFileSpec (F : Type) `{VfsFile F} := {
  contents : F -> bytes;
  usable : F -> Prop;
  read_at_spec (f : F) (o : Z) (buf : bytes) :
    usable f -> is_u64 o -> buf <> [] ->
    exists n, read_at f o buf = (sub (contents f) o n ++ drop (Z.to_nat n) buf, Ok n) /\
      0 <= n <= blen buf /\ n <= Z.max 0 (blen (contents f) - o) /\
      (o < blen (contents f) -> 0 < n);
  write_at_spec (f : F) (o : Z) (buf : bytes) :
    usable f -> is_u64 o -> o + blen buf <= U64_MAX -> buf <> [] ->
    exists n f', write_at f o buf = (f', Ok n) /\ 0 < n <= blen buf /\ usable f' /\
      contents f' = write_contents (contents f) o (take (Z.to_nat n) buf);
  write_vectored_spec (f : F) (reqs : list (Z * bytes)) :
    usable f -> Forall (fun '(o, b) => 0 <= o /\ o + blen b <= U64_MAX) reqs -> disjoint_reqs reqs ->
    exists f', write_at_vectored f reqs = (f', Ok tt) /\ usable f' /\
      contents f' = foldl (fun c '(o, b) => write_contents c o b) (contents f) reqs;
  sync_spec (f : F) :
    usable f -> exists f', sync f = (f', Ok tt) /\ usable f' /\ contents f' = contents f;
}.

(** ** The in-memory backend *)

Inductive OpenMode := Read | ReadWrite | CreateNew | CreateOrOpen.

Inductive LockState := Free | Exclusive | Shared (n : Z).
Inductive LockKind := KExclusive | KShared.

(** The maps behind their mutexes. An inode is named by a number, as an [Arc]
    names it: a handle keeps its inode when a path moves or goes away. *)
Record MemVfs := mkMemVfs {
  files : gmap string nat;
  locks : gmap string LockState;
  inodes : gmap nat bytes;
  next_inode : nat;
}.

Record MemFile := mkMemFile { mf_inode : nat; mf_writable : bool }.
Record MemLockHandle := mkMemLockHandle { lock_ref : string; lock_kind : LockKind }.

Definition mem_new : MemVfs := mkMemVfs ∅ ∅ ∅ 0.

(** ** Logical paths *)

(** The separators of a logical path: slash and backslash. *)
Definition is_sep (c : ascii) : bool :=
  bool_decide (c = "/"%char) || bool_decide (c = "092"%char).

(** [trim_matches] of the separators. *)
Fixpoint trim_start (l : list ascii) : list ascii :=
  match l with
  | c :: l' => if is_sep c then trim_start l' else l
  | [] => []
  end.
Definition trim_matches (l : list ascii) : list ascii := rev (trim_start (rev (trim_start l))).

(** [split] on the separators: at least one part, parts may be empty. *)
Fixpoint split_sep (l : list ascii) : list (list ascii) :=
  match l with
  | [] => [[]]
  | c :: l =>
      if is_sep c then [] :: split_sep l else
      match split_sep l with
      | p :: ps => (c :: p) :: ps
      | [] => [[c]]
      end
  end.

(** [parts.join("/")] *)
Fixpoint join_slash (ps : list (list ascii)) : list ascii :=
  match ps with
  | [] => []
  | [p] => p
  | p :: ps => p ++ "/"%char :: join_slash ps
  end.

(** A part with no separator parses as [Component::Normal] of itself unless it
    is empty, [.] or [..]. *)
Definition is_plain_path_component (part : list ascii) : bool :=
  negb (bool_decide (":"%char ∈ part)) &&
  negb (bool_decide (part = [])) && negb (bool_decide (part = ["."%char])) &&
  negb (bool_decide (part = ["."%char; "."%char])).

Definition invalid_native_path : PagedbError := Io "InvalidInput".

Definition canonical_native_path (path : string) : result string :=
  let trimmed := trim_matches (list_ascii_of_string path) in
  if bool_decide (trimmed = []) then Ok "/"%string else
  let parts := split_sep trimmed in
  if forallb is_plain_path_component parts
  then Ok (string_of_list_ascii ("/"%char :: join_slash parts))
  else Err invalid_native_path.

(** ** Operations of [MemVfs] *)

Definition set_files (v : MemVfs) (fs : gmap string nat) : MemVfs :=
  mkMemVfs fs (locks v) (inodes v) (next_inode v).
Definition set_locks (v : MemVfs) (ls : gmap string LockState) : MemVfs :=
  mkMemVfs (files v) ls (inodes v) (next_inode v).

Definition mem_open (v : MemVfs) (path : string) (mode : OpenMode) : result (MemFile * MemVfs) :=
  let! path := canonical_native_path path in
  match mode, files v !! path with
  | Read, Some i => Ok (mkMemFile i false, v)
  | (ReadWrite | CreateOrOpen), Some i => Ok (mkMemFile i true, v)
  | (Read | ReadWrite), None => Err (Io "NotFound")
  | CreateNew, Some _ => Err (Io "AlreadyExists")
  | (CreateNew | CreateOrOpen), None =>
      let i := next_inode v in
      Ok (mkMemFile i true,
          mkMemVfs (<[path := i]> (files v)) (locks v) (<[i := []]> (inodes v)) (S i))
  end.

Definition mem_remove (v : MemVfs) (path : string) : result MemVfs :=
  let! path := canonical_native_path path in
  Ok (set_files v (delete path (files v))).

Definition mem_rename (v : MemVfs) (from to : string) : result MemVfs :=
  let! from := canonical_native_path from in
  let! to := canonical_native_path to in
  match files v !! from with
  | None => Err (Io "NotFound")
  | Some i => Ok (set_files v (<[to := i]> (delete from (files v))))
  end.

(** [strip_prefix] *)
Fixpoint strip_prefix (l pre : list ascii) : option (list ascii) :=
  match pre, l with
  | [], _ => Some l
  | p :: pre, c :: l => if bool_decide (p = c) then strip_prefix l pre else None
  | _, [] => None
  end.

Definition ends_with_slash (l : list ascii) : bool :=
  match last l with Some c => bool_decide (c = "/"%char) | None => false end.

Definition string_le (a b : string) : Prop := String.leb a b = true.
#[global] Instance string_le_dec : RelDecision string_le.
Proof. intros a b. unfold string_le. apply _. Defined.

Definition child_name (pre : list ascii) (k : string) : option string :=
  match strip_prefix (list_ascii_of_string k) pre with
  | Some rest => if bool_decide ("/"%char ∈ rest) then None else Some (string_of_list_ascii rest)
  | None => None
  end.

Definition mem_list_dir (v : MemVfs) (path : string) : result (list string) :=
  let! path := canonical_native_path path in
  let p := list_ascii_of_string path in
  let pre := if ends_with_slash p then p else p ++ ["/"%char] in
  Ok (merge_sort string_le (omap (child_name pre) (elements (dom (files v))))).

Definition lookup_or_create_lock (v : MemVfs) (path : string) : LockState * MemVfs :=
  match locks v !! path with
  | Some s => (s, v)
  | None => (Free, set_locks v (<[path := Free]> (locks v)))
  end.

(** The result of the call, and the state after it: a refused lock still
    leaves its entry behind. *)
Definition lock_exclusive (v : MemVfs) (path : string) : MemVfs * result MemLockHandle :=
  match canonical_native_path path with
  | Ok path =>
      let '(s, v) := lookup_or_create_lock v path in
      match s with
      | Free => (set_locks v (<[path := Exclusive]> (locks v)), Ok (mkMemLockHandle path KExclusive))
      | _ => (v, Err AlreadyLocked)
      end
  | Err e => (v, Err e)
  | Panic => (v, Panic)
  end.

Definition lock_shared (v : MemVfs) (path : string) : MemVfs * result MemLockHandle :=
  match canonical_native_path path with
  | Ok path =>
      let '(s, v) := lookup_or_create_lock v path in
      match s with
      | Free => (set_locks v (<[path := Shared 1]> (locks v)), Ok (mkMemLockHandle path KShared))
      | Shared n =>
          if n <? U32_MAX
          then (set_locks v (<[path := Shared (n + 1)]> (locks v)), Ok (mkMemLockHandle path KShared))
          else (v, Panic)
      | Exclusive => (v, Err AlreadyLocked)
      end
  | Err e => (v, Err e)
  | Panic => (v, Panic)
  end.

(** [MemLockHandle::drop] *)
Definition mem_drop_lock (v : MemVfs) (h : MemLockHandle) : MemVfs :=
  match locks v !! lock_ref h with
  | None => v
  | Some s =>
      match lock_kind h, s with
      | KExclusive, Exclusive => set_locks v (<[lock_ref h := Free]> (locks v))
      | KShared, Shared n =>
          if n =? 1 then set_locks v (<[lock_ref h := Free]> (locks v)) else
          if 1 <? n then set_locks v (<[lock_ref h := Shared (n - 1)]> (locks v)) else v
      | _, _ => v
      end
  end.

(** [MemFile]: the handle with the storage it points into. *)
Definition OpenFile : Type := MemVfs * MemFile.

Definition inode_data (v : MemVfs) (f : MemFile) : bytes := default [] (inodes v !! mf_inode f).
Definition set_inode (v : MemVfs) (f : MemFile) (b : bytes) : MemVfs :=
  mkMemVfs (files v) (locks v) (<[mf_inode f := b]> (inodes v)) (next_inode v).

Definition mem_read_at (vf : OpenFile) (offset : Z) (buf : bytes) : bytes * result Z :=
  let '(v, f) := vf in
  let data := inode_data v f in
  if blen data <=? offset then (buf, Ok 0) else
  let available := blen data - offset in
  let n := Z.min (blen buf) available in
  (splice buf 0 (sub data offset n), Ok n).

Definition mem_write_at (vf : OpenFile) (offset : Z) (buf : bytes) : OpenFile * result Z :=
  let '(v, f) := vf in
  if negb (mf_writable f) then (vf, Err ReadOnly) else
  let data := inode_data v f in
  match checked_add offset (blen buf) with
  | None => (vf, Err (Io "InvalidInput"))
  | Some end_ =>
      let data := if blen data <? end_ then resize data end_ else data in
      ((set_inode v f (splice data offset buf), f), Ok (blen buf))
  end.

Definition mem_truncate (vf : OpenFile) (len : Z) : OpenFile * result unit :=
  let '(v, f) := vf in
  if negb (mf_writable f) then (vf, Err ReadOnly) else
  ((set_inode v f (resize (inode_data v f) len), f), Ok tt).

Definition mem_len (vf : OpenFile) : Z := let '(v, f) := vf in blen (inode_data v f).

(** [read_at_vectored] on the requests' offsets and buffers: past the end of the
    file a buffer reads as zeros. *)
Definition mem_read_one (data : bytes) (req : Z * bytes) : bytes :=
  let '(offset, buf) := req in
  let available := saturating_sub (blen data) offset in
  let n := Z.min (blen buf) available in
  let buf := if 0 <? n then splice buf 0 (sub data offset n) else buf in
  take (Z.to_nat n) buf ++ zeros (blen buf - n).
Definition mem_read_at_vectored (vf : OpenFile) (reqs : list (Z * bytes)) : list bytes :=
  let '(v, f) := vf in map (mem_read_one (inode_data v f)) reqs.

(** [write_at_vectored]: every range is computed before the first byte moves. *)
Definition mem_write_at_vectored (vf : OpenFile) (reqs : list (Z * bytes)) : OpenFile * result unit :=
  let '(v, f) := vf in
  if negb (mf_writable f) then (vf, Err ReadOnly) else
  let data := inode_data v f in
  match mapM (fun '(offset, buf) => checked_add offset (blen buf)) reqs with
  | None => (vf, Err (Io "InvalidInput"))
  | Some ends =>
      let max_end := foldr Z.max 0 ends in
      let data := if blen data <? max_end then resize data max_end else data in
      let data := foldl (fun d '(offset, buf) => splice d offset buf) data reqs in
      ((set_inode v f data, f), Ok tt)
  end.

#[global] Instance mem_vfs_file : VfsFile OpenFile :=
  {| read_at := mem_read_at; write_at := mem_write_at; write_at_vectored := mem_write_at_vectored;
     sync := fun vf => (vf, Ok tt) |}.

(** ** Contents *)

(** Both branches of [resize] are one append, for a file that grows. *)
Definition padded (c : bytes) (n : Z) : bytes := c ++ zeros (n - blen c).

Lemma zeros_nonpos n : n <= 0 -> zeros n = [].
Proof. intros. unfold zeros. by replace (Z.to_nat n) with 0%nat by lia. Qed.

Lemma padded_id c n : n <= blen c -> padded c n = c.
Proof. intros. unfold padded. rewrite zeros_nonpos by lia. apply app_nil_r. Qed.

Lemma grow_padded c n : (if blen c <? n then resize c n else c) = padded c n.
Proof.
  destruct (Z.ltb_spec (blen c) n).
  - unfold resize. rewrite (proj2 (Z.leb_gt _ _)) by lia. done.
  - by rewrite padded_id.
Qed.

Lemma blen_padded c n : blen (padded c n) = Z.max (blen c) n.
Proof.
  destruct (Z.le_gt_cases n (blen c)); [rewrite padded_id by done; lia|].
  unfold padded. pose proof (blen_nonneg c). rewrite blen_app, blen_zeros; lia.
Qed.

Lemma padded_padded c n m : n <= m -> padded (padded c n) m = padded c m.
Proof.
  intros Hm. destruct (Z.le_gt_cases n (blen c)) as [H|H]; [by rewrite (padded_id c n)|].
  unfold padded at 1. rewrite blen_padded. unfold padded. pose proof (blen_nonneg c).
  rewrite <- app_assoc, <- zeros_app by lia. do 2 f_equal. lia.
Qed.

Lemma write_contents_eq c o b : write_contents c o b = splice (padded c (o + blen b)) o b.
Proof. unfold write_contents. by rewrite grow_padded. Qed.

Lemma blen_write_contents c o b :
  0 <= o -> blen (write_contents c o b) = Z.max (blen c) (o + blen b).
Proof.
  intros. pose proof (blen_nonneg c). pose proof (blen_nonneg b).
  rewrite write_contents_eq, blen_splice by (rewrite ?blen_padded; lia). rewrite blen_padded. lia.
Qed.

(** What was stored is read back; the rest of the file keeps its bytes. *)
Lemma sub_write_contents_same c o b : 0 <= o -> sub (write_contents c o b) o (blen b) = b.
Proof. intros. rewrite write_contents_eq. apply sub_splice_same; [lia|]. rewrite blen_padded; lia. Qed.

Lemma sub_write_contents_other c o b o' n :
  0 <= o -> 0 <= o' -> 0 <= n -> o' + n <= blen c -> o' + n <= o \/ o + blen b <= o' ->
  sub (write_contents c o b) o' n = sub c o' n.
Proof.
  intros. rewrite write_contents_eq. rewrite sub_splice_disjoint by (rewrite ?blen_padded; lia).
  unfold padded. by rewrite sub_app_l.
Qed.

Lemma padded_write_contents c o b m :
  0 <= o -> o + blen b <= m -> padded (write_contents c o b) m = splice (padded c m) o b.
Proof.
  intros Ho Hm. pose proof (blen_nonneg b). rewrite write_contents_eq.
  rewrite <- (padded_padded c (o + blen b) m) by done.
  set (c' := padded c (o + blen b)).
  assert (o + blen b <= blen c') by (unfold c'; rewrite blen_padded; lia).
  unfold padded. rewrite blen_splice by lia. by rewrite splice_app_l.
Qed.

Lemma write_contents_split c o b n :
  0 <= o -> 0 <= n <= blen b ->
  write_contents (write_contents c o (take (Z.to_nat n) b)) (o + n) (drop (Z.to_nat n) b) =
  write_contents c o b.
Proof.
  intros Ho Hn.
  assert (blen (take (Z.to_nat n) b) = n) as H1 by (apply blen_take; lia).
  assert (blen (drop (Z.to_nat n) b) = blen b - n) as H2 by (apply blen_drop; lia).
  rewrite (write_contents_eq _ (o + n)), H2. replace (o + n + (blen b - n)) with (o + blen b) by lia.
  rewrite padded_write_contents by lia. rewrite write_contents_eq.
  set (c' := padded c (o + blen b)).
  assert (o + blen b <= blen c') by (unfold c'; rewrite blen_padded; lia).
  apply list_eq; intros i.
  rewrite !lookup_splice by (rewrite ?blen_splice by lia; lia). rewrite H1, H2.
  repeat case_decide; try lia; try done.
  - rewrite lookup_drop. f_equal. lia.
  - rewrite lookup_take_lt by lia. done.
Qed.

(** ** The transfer loops on any backend *)

Section transfer_facts.
Context `{VfsFileSpec F}.

Lemma read_progress_ok o n r :
  is_u64 o -> 0 < n <= r -> o + n <= U64_MAX -> checked_read_progress o n r = Ok (o + n).
Proof.
  intros. unfold checked_read_progress, checked_transfer_progress.
  rewrite (proj2 (Z.eqb_neq _ _)) by lia. rewrite (proj2 (Z.ltb_ge _ _)) by lia.
  by rewrite checked_add_ok.
Qed.
Lemma write_progress_ok o n r :
  is_u64 o -> 0 < n <= r -> o + n <= U64_MAX -> checked_write_progress o n r = Ok (o + n).
Proof.
  intros. unfold checked_write_progress, checked_transfer_progress.
  rewrite (proj2 (Z.eqb_neq _ _)) by lia. rewrite (proj2 (Z.ltb_ge _ _)) by lia.
  by rewrite checked_add_ok.
Qed.

(** The bytes of the buffer's range the file has. *)
Definition available (c : bytes) (o : Z) (buf : bytes) : Z :=
  Z.min (blen buf) (Z.max 0 (blen c - o)).

Lemma available_nil c o : available c o [] = 0.
Proof. unfold available. change (blen []) with 0. lia. Qed.

Lemma read_exact_loop_spec fuel f o buf :
  usable f -> 0 <= o -> o + blen buf <= U64_MAX -> (length buf <= fuel)%nat ->
  let n := available (contents f) o buf in
  read_exact_loop fuel f o buf =
    (sub (contents f) o n ++ drop (Z.to_nat n) buf,
     if n =? blen buf then Ok tt else Err (Io "UnexpectedEof")).
Proof.
  intros Hu. revert o buf; induction fuel as [|fuel IH]; intros o buf Ho Hm Hf.
  { destruct buf; [|simpl in Hf; lia]. cbv zeta. by rewrite available_nil. }
  destruct buf as [|x buf0]; [cbv zeta; by rewrite available_nil|].
  set (buf := x :: buf0) in *. cbv zeta. cbn [read_exact_loop].
  assert (0 < blen buf) as Hb by (unfold blen, buf; simpl; lia).
  destruct (read_at_spec f o buf Hu ltac:(unfold U64_MAX in *; lia) ltac:(done))
    as (n & -> & Hn & Hav & Hpos).
  set (buf' := sub (contents f) o n ++ drop (Z.to_nat n) buf).
  assert (blen (sub (contents f) o n) = n) as Hsn.
  { destruct (Z.eq_dec n 0) as [->|]; [done|]. apply blen_sub; lia. }
  assert (blen buf' = blen buf) as Hb'.
  { unfold buf'. rewrite blen_app, Hsn. unfold blen in *. rewrite length_drop. lia. }
  destruct (Z.eq_dec n 0) as [->|Hn0].
  - unfold checked_read_progress. cbn [Z.eqb].
    assert (available (contents f) o buf = 0) as ->.
    { unfold available. lia. }
    rewrite (proj2 (Z.eqb_neq _ _)) by lia. done.
  - rewrite read_progress_ok by (unfold U64_MAX in *; lia).
    assert (take (Z.to_nat n) buf' = sub (contents f) o n) as ->.
    { unfold buf'. rewrite take_app_le by (unfold blen in *; lia). apply firstn_all2. unfold blen in *; lia. }
    assert (drop (Z.to_nat n) buf' = drop (Z.to_nat n) buf) as ->.
    { unfold buf'. rewrite drop_app_ge by (unfold blen in *; lia).
      replace (Z.to_nat n - length (sub (contents f) o n))%nat with 0%nat by (unfold blen in *; lia). done. }
    assert (blen (drop (Z.to_nat n) buf) = blen buf - n) as Hd by (apply blen_drop; lia).
    rewrite IH; [|lia|lia|rewrite length_drop; unfold blen, buf in *; simpl in *; lia].
    assert (available (contents f) (o + n) (drop (Z.to_nat n) buf) = available (contents f) o buf - n) as ->.
    { unfold available. rewrite Hd. lia. }
    set (m := available (contents f) o buf).
    assert (n <= m <= blen buf) as Hm' by (unfold m, available; lia).
    f_equal.
    + rewrite app_assoc, drop_drop. replace (Z.to_nat n + Z.to_nat (m - n))%nat with (Z.to_nat m) by lia.
      rewrite <- sub_split by (unfold m, available; lia). do 2 f_equal. lia.
    + rewrite Hd. replace (m - n =? blen buf - n) with (m =? blen buf); [done|].
      apply eq_true_iff_eq. rewrite !Z.eqb_eq. lia.
Qed.

Lemma write_all_loop_spec fuel f o buf :
  usable f -> 0 <= o -> o + blen buf <= U64_MAX -> (length buf <= fuel)%nat -> buf <> [] ->
  exists f', write_all_loop fuel f o buf = (f', Ok tt) /\ usable f' /\
    contents f' = write_contents (contents f) o buf.
Proof.
  revert f o buf; induction fuel as [|fuel IH]; intros f o buf Hu Ho Hm Hf Hne.
  { destruct buf; simpl in Hf; [done|lia]. }
  destruct buf as [|x buf0]; [done|]. clear Hne.
  set (buf := x :: buf0) in *. cbn [write_all_loop].
  assert (0 < blen buf) as Hb by (unfold blen, buf; simpl; lia).
  destruct (write_at_spec f o buf Hu ltac:(unfold U64_MAX in *; lia) Hm ltac:(done))
    as (n & f1 & -> & Hn & Hu1 & Hc1).
  rewrite write_progress_ok by (unfold U64_MAX in *; lia).
  assert (blen (drop (Z.to_nat n) buf) = blen buf - n) as Hd by (apply blen_drop; lia).
  destruct (decide (drop (Z.to_nat n) buf = [])) as [He|He].
  - rewrite He. exists f1. split; [by destruct fuel|]. split; [done|].
    rewrite Hc1. f_equal. apply firstn_all2. rewrite He in Hd. unfold blen in *. simpl in *. lia.
  - destruct (IH f1 (o + n) (drop (Z.to_nat n) buf)) as (f2 & -> & Hu2 & Hc2); [done|lia|lia| |done|].
    { rewrite length_drop. unfold blen, buf in *; simpl in *; lia. }
    exists f2. split; [done|]. split; [done|].
    rewrite Hc2, Hc1. apply write_contents_split; lia.
Qed.

Lemma write_all_at_spec f o buf :
  usable f -> 0 <= o -> o + blen buf <= U64_MAX -> buf <> [] ->
  exists f', write_all_at f o buf = (f', Ok tt) /\ usable f' /\
    contents f' = write_contents (contents f) o buf.
Proof. intros. by apply write_all_loop_spec. Qed.

Lemma read_exact_at_ok f o buf :
  usable f -> 0 <= o -> o + blen buf <= U64_MAX -> o + blen buf <= blen (contents f) ->
  read_exact_at f o buf = (sub (contents f) o (blen buf), Ok tt).
Proof.
  intros. unfold read_exact_at. rewrite read_exact_loop_spec by done.
  assert (available (contents f) o buf = blen buf) as -> by (unfold available; pose proof (blen_nonneg buf); lia).
  rewrite Z.eqb_refl. rewrite drop_ge by (unfold blen; lia). by rewrite app_nil_r.
Qed.

Lemma read_exact_at_short f o buf :
  usable f -> 0 <= o -> o + blen buf <= U64_MAX -> blen (contents f) < o + blen buf -> buf <> [] ->
  let n := Z.max 0 (blen (contents f) - o) in
  read_exact_at f o buf =
    (sub (contents f) o n ++ drop (Z.to_nat n) buf, Err (Io "UnexpectedEof")).
Proof.
  intros Hu Ho Hm Hs Hne. cbv zeta. unfold read_exact_at. rewrite read_exact_loop_spec by done.
  assert (0 < blen buf) by (destruct buf; [done|unfold blen; simpl; lia]).
  assert (available (contents f) o buf = Z.max 0 (blen (contents f) - o)) as -> by (unfold available; lia).
  rewrite (proj2 (Z.eqb_neq _ _)) by lia. done.
Qed.
End transfer_facts.

(** ** The in-memory backend keeps the contract *)

Lemma splice_front buf s : blen s <= blen buf -> splice buf 0 s = s ++ drop (length s) buf.
Proof. intros. unfold splice. done. Qed.

(** ** Vectored writes *)

Lemma mapM_checked_ends (reqs : list (Z * bytes)) ends :
  mapM (fun '(offset, buf) => checked_add offset (blen buf)) reqs = Some ends ->
  ends = map (fun '(offset, buf) => offset + blen buf) reqs.
Proof.
  intros Hm. apply mapM_Some_1 in Hm. induction Hm as [|[o b] e reqs ends He _ IH]; [done|].
  cbn. rewrite <- IH. unfold checked_add in He. case_match; [|done]. by injection He as <-.
Qed.

Lemma foldr_max_le (l : list Z) x : x ∈ l -> x <= foldr Z.max 0 l.
Proof. induction 1; simpl; lia. Qed.

Lemma foldl_write_padded (reqs : list (Z * bytes)) c m :
  Forall (fun '(o, b) => 0 <= o /\ o + blen b <= m) reqs ->
  padded (foldl (fun c '(o, b) => write_contents c o b) c reqs) m =
  foldl (fun d '(o, b) => splice d o b) (padded c m) reqs.
Proof.
  intros Hr. revert c. induction Hr as [|[o b] reqs [Ho Hb] _ IH]; intros c; [done|].
  cbn [foldl]. rewrite IH. by rewrite padded_write_contents.
Qed.

Lemma blen_foldl_write (reqs : list (Z * bytes)) c :
  Forall (fun '(o, b) => 0 <= o) reqs ->
  blen (foldl (fun c '(o, b) => write_contents c o b) c reqs) =
  Z.max (blen c) (foldr Z.max 0 (map (fun '(o, b) => o + blen b) reqs)).
Proof.
  intros Hr. revert c. induction Hr as [|[o b] reqs Ho _ IH]; intros c; cbn [foldl foldr map].
  - pose proof (blen_nonneg c). lia.
  - rewrite IH, blen_write_contents by done. lia.
Qed.

Lemma mem_vectored_contents v f reqs ends :
  mf_writable f = true -> Forall (fun '(o, _) => 0 <= o) reqs ->
  mapM (fun '(offset, buf) => checked_add offset (blen buf)) reqs = Some ends ->
  mem_write_at_vectored (v, f) reqs =
    ((set_inode v f (foldl (fun c '(o, b) => write_contents c o b) (inode_data v f) reqs), f), Ok tt).
Proof.
  intros Hw Hr Hm. unfold mem_write_at_vectored. rewrite Hw, Hm. cbn [negb].
  rewrite (mapM_checked_ends _ _ Hm). rewrite grow_padded.
  rewrite <- foldl_write_padded.
  - rewrite padded_id; [done|]. rewrite blen_foldl_write by done. lia.
  - apply Forall_forall. intros [o b] Hin. split; [by eapply (proj1 (Forall_forall _ _) Hr) in Hin|].
    apply foldr_max_le. apply list_elem_of_fmap. by exists (o, b).
Qed.

Lemma inode_data_set v f f' b :
  mf_inode f' = mf_inode f -> inode_data (set_inode v f b) f' = b.
Proof. intros Hi. unfold inode_data, set_inode. cbn. by rewrite Hi, lookup_insert_eq. Qed.

Lemma checked_ends (reqs : list (Z * bytes)) :
  Forall (fun '(o, b) => 0 <= o /\ o + blen b <= U64_MAX) reqs ->
  mapM (fun '(offset, buf) => checked_add offset (blen buf)) reqs =
    Some (map (fun '(o, b) => o + blen b) reqs).
Proof.
  induction 1 as [|[o b] reqs [Ho Hb] _ IH]; [done|]. cbn [mapM map].
  rewrite checked_add_ok by done. cbn. by rewrite IH.
Qed.

#[global] Program Instance mem_vfs_file_spec : VfsFileSpec OpenFile := {|
  contents := fun vf => inode_data (fst vf) (snd vf);
  usable := fun vf => mf_writable (snd vf) = true /\ blen (inode_data (fst vf) (snd vf)) <= U64_MAX;
|}.
Next Obligation.
  intros [v f] o buf [Hw Hl] Ho Hne. cbn [fst snd] in *. unfold read_at; cbn.
  assert (0 < blen buf) by (destruct buf; [done|unfold blen; simpl; lia]).
  pose proof (blen_nonneg (inode_data v f)).
  destruct (Z.leb_spec (blen (inode_data v f)) o).
  - exists 0. split; [done|]. lia.
  - exists (Z.min (blen buf) (blen (inode_data v f) - o)). split; [|lia].
    set (n := Z.min _ _).
    assert (blen (sub (inode_data v f) o n) = n) as Hn by (apply blen_sub; lia).
    rewrite splice_front by lia. do 3 f_equal. unfold blen in Hn. lia.
Qed.
Next Obligation.
  intros [v f] o buf [Hw Hl] Ho Hm Hne. cbn [fst snd] in *. unfold write_at; cbn.
  assert (0 < blen buf) by (destruct buf; [done|unfold blen; simpl; lia]).
  rewrite Hw. cbn [negb]. rewrite checked_add_ok by done.
  eexists _, _. split; [reflexivity|]. split; [lia|].
  assert (inode_data (set_inode v f (splice (if blen (inode_data v f) <? o + blen buf
    then resize (inode_data v f) (o + blen buf) else inode_data v f) o buf)) f =
    write_contents (inode_data v f) o buf) as Hd.
  { unfold inode_data at 1, set_inode. cbn. by rewrite lookup_insert_eq. }
  cbn [fst snd]. rewrite Hd. rewrite (firstn_all2 buf) by (unfold blen; lia). split; [|done].
  split; [done|]. rewrite blen_write_contents by lia. lia.
Qed.
Next Obligation.
  intros [v f] reqs [Hw Hl] Hr _. cbn [fst snd] in *.
  assert (Forall (fun '(o, _) => 0 <= o) reqs) as H0 by (eapply Forall_impl; [exact Hr|]; by intros [o b] [? _]).
  eexists. split; [eapply mem_vectored_contents; [done|done|by apply checked_ends]|]. cbn [fst snd].
  rewrite inode_data_set by done. split; [|done]. split; [done|]. rewrite blen_foldl_write by done.
  apply Z.max_lub; [done|]. clear -Hr. induction Hr as [|[o b] reqs [Ho Hb] _ IH]; simpl; [done|lia].
Qed.
Next Obligation. intros [v f] Hu. by exists (v, f). Qed.

Lemma sequential_writes v f (reqs : list (Z * bytes)) :
  mf_writable f = true ->
  Forall (fun '(o, b) => 0 <= o /\ o + blen b <= U64_MAX) reqs ->
  let after := foldl (fun v '(o, b) => fst (fst (mem_write_at (v, f) o b))) v reqs in
  foldl (fun vf '(o, b) => fst (mem_write_at vf o b)) (v, f) reqs = (after, f) /\
  foldl (fun c '(o, b) => write_contents c o b) (inode_data v f) reqs = inode_data after f.
Proof.
  intros Hw Hr. revert v. induction Hr as [|[o b] reqs [Ho Hb] _ IH]; intros v; [done|].
  cbn [foldl].
  assert (mem_write_at (v, f) o b =
    ((set_inode v f (write_contents (inode_data v f) o b), f), Ok (blen b))) as ->.
  { unfold mem_write_at. rewrite Hw. cbn [negb]. by rewrite checked_add_ok. }
  cbn [fst]. destruct (IH (set_inode v f (write_contents (inode_data v f) o b))) as [H1 H2].
  split; [done|]. rewrite <- H2. by rewrite inode_data_set.
Qed.

(** ** Paths *)

Lemma list_ascii_roundtrip l : list_ascii_of_string (string_of_list_ascii l) = l.
Proof. apply list_ascii_of_string_of_list_ascii. Qed.

Definition no_sep (p : list ascii) : Prop := Forall (fun c => is_sep c = false) p.

Lemma split_sep_ne l : split_sep l <> [].
Proof. destruct l; simpl; [done|]. repeat case_match; done. Qed.

Lemma split_sep_no_sep l : Forall no_sep (split_sep l).
Proof.
  induction l as [|c l IH]; simpl; [repeat constructor|].
  destruct (is_sep c) eqn:Hc; [constructor; [constructor|done]|].
  destruct (split_sep l) as [|p ps]; [repeat constructor; done|].
  apply Forall_cons in IH as [Hp Hps]. constructor; [by constructor|done].
Qed.

Lemma split_sep_app p l :
  no_sep p -> split_sep (p ++ "/"%char :: l) = p :: split_sep l.
Proof. induction 1 as [|c p Hc _ IH]; simpl; [done|]. by rewrite Hc, IH. Qed.

Lemma split_sep_single p : no_sep p -> split_sep p = [p].
Proof. induction 1 as [|c p Hc _ IH]; simpl; [done|]. by rewrite Hc, IH. Qed.

Lemma split_join ps : ps <> [] -> Forall no_sep ps -> split_sep (join_slash ps) = ps.
Proof.
  intros Hne Hps. induction Hps as [|p ps Hp Hps IH]; [done|].
  destruct ps as [|q ps]; [by apply split_sep_single|].
  change (join_slash (p :: q :: ps)) with (p ++ "/"%char :: join_slash (q :: ps)).
  rewrite split_sep_app by done. by rewrite IH.
Qed.

(** Joined plain parts have no separator at either end. *)
Lemma trim_start_id l : (forall c l', l = c :: l' -> is_sep c = false) -> trim_start l = l.
Proof. destruct l as [|c l]; [done|]. intros Hc. simpl. by rewrite (Hc c l eq_refl). Qed.

Lemma join_head ps c l :
  Forall (fun p => no_sep p /\ p <> []) ps -> join_slash ps = c :: l -> is_sep c = false.
Proof.
  intros Hps Hj. destruct ps as [|p ps]; [done|]. apply Forall_cons in Hps as [[Hp Hne] _].
  destruct p as [|a p]; [done|]. apply Forall_cons in Hp as [Ha _].
  destruct ps; simpl in Hj; by injection Hj as <- _.
Qed.

Lemma join_last ps c l :
  Forall (fun p => no_sep p /\ p <> []) ps -> join_slash ps = l ++ [c] -> is_sep c = false.
Proof.
  intros Hps. revert l. induction Hps as [|p ps [Hp Hne] Hps IH]; intros l Hj.
  - by destruct l.
  - destruct ps as [|q ps].
    + simpl in Hj. subst p. apply Forall_app in Hp as [_ Hc]. by apply Forall_cons in Hc as [? _].
    + change (join_slash (p :: q :: ps)) with (p ++ "/"%char :: join_slash (q :: ps)) in Hj.
      destruct (join_slash (q :: ps)) as [|x y] eqn:E.
      { exfalso. apply Forall_cons in Hps as [[_ Hq] _].
        destruct q; [done|]. by destruct ps. }
      destruct (@exists_last _ (x :: y) ltac:(done)) as (y' & z & Hz). rewrite Hz in *.
      rewrite app_comm_cons, app_assoc in Hj. apply app_inj_tail in Hj as [_ ->].
      by apply (IH y').
Qed.

Lemma trim_join ps :
  Forall (fun p => no_sep p /\ p <> []) ps -> trim_matches ("/"%char :: join_slash ps) = join_slash ps.
Proof.
  intros Hps. unfold trim_matches. simpl.
  rewrite (trim_start_id (join_slash ps)) by (intros; by eapply join_head).
  rewrite trim_start_id; [apply rev_involutive|].
  intros c l' Hr. eapply (join_last ps c (rev l')); [done|].
  rewrite <- (rev_involutive (join_slash ps)), Hr. done.
Qed.

Lemma plain_ne p : is_plain_path_component p = true -> p <> [].
Proof. unfold is_plain_path_component. intros Hp ->. by rewrite !andb_true_iff in Hp; destruct_and!. Qed.

(** ** Locks *)

#[global] Instance LockKind_eq_dec : EqDecision LockKind.
Proof. solve_decision. Defined.
#[global] Instance LockState_eq_dec : EqDecision LockState.
Proof. solve_decision. Defined.
#[global] Instance MemLockHandle_eq_dec : EqDecision MemLockHandle.
Proof. solve_decision. Defined.

(** The file system with the handles outstanding on it: any interleaving of
    acquisitions, refused ones included, and drops. *)
Inductive lock_step : MemVfs * list MemLockHandle -> MemVfs * list MemLockHandle -> Prop :=
| step_exclusive v hs path v' h :
    lock_exclusive v path = (v', Ok h) -> lock_step (v, hs) (v', h :: hs)
| step_exclusive_refused v hs path v' e :
    lock_exclusive v path = (v', Err e) -> lock_step (v, hs) (v', hs)
| step_shared v hs path v' h :
    lock_shared v path = (v', Ok h) -> lock_step (v, hs) (v', h :: hs)
| step_shared_refused v hs path v' e :
    lock_shared v path = (v', Err e) -> lock_step (v, hs) (v', hs)
| step_drop v hs1 h hs2 :
    lock_step (v, hs1 ++ h :: hs2) (mem_drop_lock v h, hs1 ++ hs2).

Definition holders (hs : list MemLockHandle) (p : string) (k : LockKind) : Z :=
  Z.of_nat (length (filter (fun h => h = mkMemLockHandle p k) hs)).

Definition lock_entry_ok (s : option LockState) (ex sh : Z) : Prop :=
  match s with
  | None | Some Free => ex = 0 /\ sh = 0
  | Some Exclusive => ex = 1 /\ sh = 0
  | Some (Shared n) => ex = 0 /\ sh = n /\ 1 <= n
  end.

Definition locks_ok (st : MemVfs * list MemLockHandle) : Prop :=
  forall p, lock_entry_ok (locks (fst st) !! p) (holders (snd st) p KExclusive)
    (holders (snd st) p KShared).

Lemma holders_cons h hs p k :
  holders (h :: hs) p k = (if decide (h = mkMemLockHandle p k) then 1 else 0) + holders hs p k.
Proof. unfold holders. rewrite filter_cons. case_decide; simpl; lia. Qed.

Lemma holders_middle hs1 h hs2 p k : holders (hs1 ++ h :: hs2) p k = holders (h :: hs1 ++ hs2) p k.
Proof.
  unfold holders. f_equal. apply Permutation_length, filter_Permutation. symmetry.
  apply Permutation_middle.
Qed.

Lemma holders_nonneg hs p k : 0 <= holders hs p k.
Proof. unfold holders. lia. Qed.

Lemma create_lock_ok v hs path s v' :
  lookup_or_create_lock v path = (s, v') -> locks_ok (v, hs) ->
  locks_ok (v', hs) /\ locks v' !! path = Some s.
Proof.
  unfold lookup_or_create_lock. intros Hl Hok. destruct (locks v !! path) as [s0|] eqn:E.
  - by injection Hl as <- <-.
  - injection Hl as <- <-. split; [|by cbn; rewrite lookup_insert_eq].
    intros p. specialize (Hok p). cbn [fst snd locks set_locks] in *.
    destruct (decide (p = path)) as [->|]; [rewrite lookup_insert_eq; by rewrite E in Hok|].
    by rewrite lookup_insert_ne.
Qed.

(** Replacing the entry of one path along with its holders. *)
Lemma locks_ok_update v hs path s hs' :
  locks_ok (v, hs) ->
  lock_entry_ok (Some s) (holders hs' path KExclusive) (holders hs' path KShared) ->
  (forall p k, p <> path -> holders hs' p k = holders hs p k) ->
  locks_ok (set_locks v (<[path := s]> (locks v)), hs').
Proof.
  intros Hok Hs Hother p. specialize (Hok p). cbn [fst snd locks set_locks] in *.
  destruct (decide (p = path)) as [->|Hne]; [by rewrite lookup_insert_eq|].
  rewrite lookup_insert_ne, !Hother by done. done.
Qed.

Lemma holders_cons_ne p path k k' hs :
  p <> path -> holders (mkMemLockHandle path k :: hs) p k' = holders hs p k'.
Proof. intros. rewrite holders_cons. rewrite decide_False by congruence. done. Qed.

Lemma holders_cons_eq path k k' hs :
  holders (mkMemLockHandle path k :: hs) path k' = (if decide (k = k') then 1 else 0) + holders hs path k'.
Proof.
  rewrite holders_cons. destruct (decide (k = k')) as [->|]; [by rewrite decide_True|].
  by rewrite decide_False by congruence.
Qed.

Lemma lock_exclusive_ok v hs path v' r :
  lock_exclusive v path = (v', r) -> locks_ok (v, hs) ->
  locks_ok (v', match r with Ok h => h :: hs | _ => hs end).
Proof.
  unfold lock_exclusive. intros Hl Hok. destruct (canonical_native_path path) as [p|e|];
    [|by injection Hl as <- <-..].
  destruct (lookup_or_create_lock v p) as [s v1] eqn:E.
  destruct (create_lock_ok v hs p s v1 E Hok) as [Hok1 Hs]. pose proof (Hok1 p) as Hp.
  cbn [fst snd] in Hp. rewrite Hs in Hp.
  destruct s; injection Hl as <- <-; [|done..].
  apply (locks_ok_update v1 hs); [done| |intros; by apply holders_cons_ne].
  rewrite !holders_cons_eq. repeat case_decide; try done; cbn in *; lia.
Qed.

Lemma lock_shared_ok v hs path v' r :
  lock_shared v path = (v', r) -> locks_ok (v, hs) ->
  locks_ok (v', match r with Ok h => h :: hs | _ => hs end).
Proof.
  unfold lock_shared. intros Hl Hok. destruct (canonical_native_path path) as [p|e|];
    [|by injection Hl as <- <-..].
  destruct (lookup_or_create_lock v p) as [s v1] eqn:E.
  destruct (create_lock_ok v hs p s v1 E Hok) as [Hok1 Hs]. pose proof (Hok1 p) as Hp.
  cbn [fst snd] in Hp. rewrite Hs in Hp.
  destruct s as [| |n]; [| by injection Hl as <- <-|destruct (n <? U32_MAX)];
    injection Hl as <- <-; try done;
    (apply (locks_ok_update v1 hs); [done| |intros; by apply holders_cons_ne]);
    rewrite !holders_cons_eq; repeat case_decide; try done; cbn in *; lia.
Qed.

Lemma drop_lock_ok v hs1 h hs2 :
  locks_ok (v, hs1 ++ h :: hs2) -> locks_ok (mem_drop_lock v h, hs1 ++ hs2).
Proof.
  intros Hok. destruct h as [p k].
  assert (locks_ok (v, mkMemLockHandle p k :: hs1 ++ hs2)) as Hok'.
  { intros q. specialize (Hok q). cbn [fst snd] in *. by rewrite !holders_middle in Hok. }
  clear Hok. pose proof (Hok' p) as Hp. cbn [fst snd] in Hp. rewrite !holders_cons_eq in Hp.
  pose proof (holders_nonneg (hs1 ++ hs2) p KExclusive).
  pose proof (holders_nonneg (hs1 ++ hs2) p KShared).
  unfold mem_drop_lock. cbn [lock_ref lock_kind].
  destruct (locks v !! p) as [[| |n]|], k; repeat case_decide; try done; cbn in Hp; try lia;
    [|destruct (Z.eqb_spec n 1); [|destruct (Z.ltb_spec 1 n); [|lia]]];
    (eapply locks_ok_update; [exact Hok'|cbn; lia|]);
    intros; by rewrite holders_cons_ne.
Qed.

Lemma lock_step_ok st st' : lock_step st st' -> locks_ok st -> locks_ok st'.
Proof.
  intros [v hs path v' h Hs|v hs path v' e Hs|v hs path v' h Hs|v hs path v' e Hs|v hs1 h hs2] Hok.
  - by apply (lock_exclusive_ok v hs path v' (Ok h)).
  - by apply (lock_exclusive_ok v hs path v' (Err e)).
  - by apply (lock_shared_ok v hs path v' (Ok h)).
  - by apply (lock_shared_ok v hs path v' (Err e)).
  - by apply drop_lock_ok.
Qed.

Lemma locks_reachable st : rtc lock_step (mem_new, []) st -> locks_ok st.
Proof.
  intros Hr. assert (locks_ok (mem_new, [])) as H0 by (intros p; cbn; by rewrite lookup_empty).
  revert H0. induction Hr as [st|st1 st2 st3 Hs _ IH]; [done|]. intros H1.
  by apply IH, (lock_step_ok st1).
Qed.

(** ** Properties *)

(** C32: over any backend that keeps the positional I/O contract, however it
    chunks the transfers, [write_all_at] succeeds and stores the whole buffer: the
    range reads back with [read_exact_at], every earlier range disjoint from
    it keeps its bytes and the file grows to its end only; and a read past the
    end fails with end-of-file after transferring exactly the bytes there are
    from its offset on, none when it starts past the end. *)
Theorem transfers_exact `{VfsFileSpec F} (f : F) (o : Z) (b buf : bytes) :
  usable f -> 0 <= o -> o + blen b <= U64_MAX -> b <> [] ->
  exists f', write_all_at f o b = (f', Ok tt) /\
    blen (contents f') = Z.max (blen (contents f)) (o + blen b) /\
    (blen buf = blen b -> read_exact_at f' o buf = (b, Ok tt)) /\
    (forall o', 0 <= o' -> o' + blen buf <= U64_MAX ->
      (o' + blen buf <= blen (contents f) -> o' + blen buf <= o \/ o + blen b <= o' ->
       read_exact_at f' o' buf = read_exact_at f o' buf) /\
      (buf <> [] -> blen (contents f') < o' + blen buf ->
       let n := Z.max 0 (blen (contents f') - o') in
       read_exact_at f' o' buf =
         (sub (contents f') o' n ++ drop (Z.to_nat n) buf, Err (Io "UnexpectedEof")))).
Proof.
  intros Hu Ho Hm Hne. destruct (write_all_at_spec f o b Hu Ho Hm Hne) as (f' & Hw & Hu' & Hc).
  exists f'. split; [done|].
  assert (blen (contents f') = Z.max (blen (contents f)) (o + blen b)) as Hl
    by (rewrite Hc; by apply blen_write_contents).
  split; [done|]. split.
  - intros Hb. rewrite read_exact_at_ok by (done || lia). rewrite Hb, Hc.
    by rewrite sub_write_contents_same.
  - pose proof (blen_nonneg buf). intros o' Ho' Hm'. split.
    + intros Hin Hd. rewrite !read_exact_at_ok by (done || lia).
      rewrite Hc. by rewrite sub_write_contents_other by lia.
    + intros Hb Hs. by apply read_exact_at_short.
Qed.

(** A vectored write to an in-memory file leaves the bytes that writing its
    requests one after the other, in order, leaves. *)
Theorem mem_vectored_is_sequential (v : MemVfs) (f : MemFile) (reqs : list (Z * bytes)) :
  mf_writable f = true ->
  Forall (fun '(o, b) => 0 <= o /\ o + blen b <= U64_MAX) reqs ->
  exists v1 v2, mem_write_at_vectored (v, f) reqs = ((v1, f), Ok tt) /\
    foldl (fun vf '(o, b) => fst (mem_write_at vf o b)) (v, f) reqs = (v2, f) /\
    inode_data v1 f = inode_data v2 f.
Proof.
  intros Hw Hr. destruct (sequential_writes v f reqs Hw Hr) as [H1 H2].
  eexists _, _. split; [|split; [exact H1|]].
  - eapply mem_vectored_contents; [done| |by apply checked_ends].
    eapply Forall_impl; [exact Hr|]. by intros [o b] [Ho _].
  - rewrite <- H2. by apply inode_data_set.
Qed.

(** A canonical path is a fixed point of canonicalisation, is the root or a
    slash-separated run of plain components, and no component is empty, [.],
    [..], contains a colon or a separator: no logical path escapes the root. *)
Theorem canonical_path_stable (p q : string) :
  canonical_native_path p = Ok q ->
  canonical_native_path q = Ok q /\
  (q = "/"%string \/ exists parts, parts <> [] /\
    list_ascii_of_string q = "/"%char :: join_slash parts /\
    Forall (fun part => is_plain_path_component part = true /\ no_sep part) parts).
Proof.
  unfold canonical_native_path. intros Hc. case_bool_decide as Ht.
  { injection Hc as <-. split; [done|by left]. }
  destruct (forallb _ _) eqn:Hf; [|done].
  set (parts := split_sep _) in *.
  assert (q = string_of_list_ascii ("/"%char :: join_slash parts)) as -> by congruence. clear Hc.
  assert (parts <> []) as Hne by apply split_sep_ne.
  assert (Forall (fun part => is_plain_path_component part = true /\ no_sep part) parts) as Hp.
  { apply Forall_and. split; [|apply split_sep_no_sep].
    apply Forall_forall. rewrite forallb_forall in Hf. intros x Hx. apply Hf.
    by apply list_elem_of_In. }
  assert (Forall (fun part => no_sep part /\ part <> []) parts) as Hp'.
  { eapply Forall_impl; [exact Hp|]. intros x [Hx Hs]. split; [done|by apply plain_ne]. }
  assert (Forall no_sep parts) as Hns by (eapply Forall_impl; [exact Hp|]; by intros ? []).
  split; [|right; exists parts; rewrite list_ascii_roundtrip; done].
  rewrite list_ascii_roundtrip, trim_join by done. rewrite split_join by done.
  rewrite Hf. case_bool_decide as He; [|done].
  exfalso. destruct parts as [|x ps]; [done|]. apply Forall_cons in Hp' as [[_ Hx] _].
  destruct x; [done|]. by destruct ps.
Qed.

(** In every interleaving of lock acquisitions, refused ones included,
    and handle drops, a path with an exclusive handle has no other handle, and a
    path with none is free: an exclusive acquisition of it succeeds. *)
Theorem mem_locks_exclusive (v : MemVfs) (hs : list MemLockHandle) (p : string) :
  rtc lock_step (mem_new, []) (v, hs) -> canonical_native_path p = Ok p ->
  (holders hs p KExclusive = 0 \/ holders hs p KExclusive = 1 /\ holders hs p KShared = 0) /\
  (holders hs p KExclusive = 0 -> holders hs p KShared = 0 ->
   exists v', lock_exclusive v p = (v', Ok (mkMemLockHandle p KExclusive))).
Proof.
  intros Hr Hp. apply locks_reachable in Hr. specialize (Hr p). cbn [fst snd] in Hr. split.
  - destruct (locks v !! p) as [[| |n]|]; cbn in Hr; lia.
  - intros H1 H2. unfold lock_exclusive, lookup_or_create_lock. rewrite Hp.
    destruct (locks v !! p) as [[| |n]|]; cbn in Hr; try lia; by eexists.
Qed.

(** Renaming a path moves its inode: a handle opened before the rename
    still reads and writes the file, and what it writes is what a handle opened
    at the new name reads, while the old name is gone. *)
Theorem mem_rename_keeps_handles (v : MemVfs) (from to : string) (i : nat) (o : Z) (b : bytes) :
  canonical_native_path from = Ok from -> canonical_native_path to = Ok to -> from <> to ->
  files v !! from = Some i -> is_u64 o -> o + blen b <= U64_MAX ->
  exists v', mem_rename v from to = Ok v' /\
    (let h := mkMemFile i true in
     forall buf, mem_read_at (v', h) o buf = mem_read_at (v, h) o buf) /\
    mem_open v' from ReadWrite = Err (Io "NotFound") /\
    (let h := mkMemFile i true in
     exists v2, mem_write_at (v', h) o b = ((v2, h), Ok (blen b)) /\
       mem_open v2 to Read = Ok (mkMemFile i false, v2) /\
       forall buf, blen buf = blen b -> buf <> [] ->
         mem_read_at (v2, mkMemFile i false) o buf = (b, Ok (blen b))).
Proof.
  intros Hf Ht Hne Hi Ho Hm. unfold mem_rename. rewrite Hf, Ht, Hi. eexists. split; [reflexivity|].
  split; [done|]. split.
  { unfold mem_open. rewrite Hf. cbn. rewrite lookup_insert_ne, lookup_delete_eq by done. done. }
  cbv zeta. unfold mem_write_at. cbn [mf_writable negb]. rewrite checked_add_ok by done.
  eexists. split; [reflexivity|]. split.
  { unfold mem_open. rewrite Ht. cbn. by rewrite lookup_insert_eq. }
  intros buf Hb Hbn. unfold mem_read_at.
  set (v2 := set_inode _ _ _).
  assert (inode_data v2 (mkMemFile i false) = write_contents (inode_data v (mkMemFile i true)) o b) as ->
    by (unfold v2; by rewrite inode_data_set).
  assert (0 < blen b) by (rewrite <- Hb; destruct buf; [done|unfold blen; simpl; lia]).
  rewrite blen_write_contents by lia. rewrite (proj2 (Z.leb_gt _ _)) by lia.
  rewrite Z.min_l by lia. rewrite Hb, sub_write_contents_same by lia. rewrite splice_all by lia. done.
Qed.

Definition sample_vfs : MemVfs :=
  mkMemVfs {[ "/main.db"%string := 0%nat ]} ∅ {[ 0%nat := zeros 8 ]} 1.

Lemma transfers_exact_witness :
  exists f', write_all_at (sample_vfs, mkMemFile 0 true) 4 (zeros 8) = (f', Ok tt) /\
    read_exact_at f' 4 (zeros 8) = (zeros 8, Ok tt).
Proof.
  destruct (transfers_exact (F := OpenFile) (sample_vfs, mkMemFile 0 true) 4 (zeros 8) (zeros 8))
    as (f' & Hw & _ & Hr & _); [done|done|done|done|].
  exists f'. split; [exact Hw|by apply Hr].
Defined.

Lemma mem_vectored_is_sequential_witness :
  exists v1 v2, mem_write_at_vectored (sample_vfs, mkMemFile 0 true) [(20, zeros 4); (2, zeros 3)] =
      ((v1, mkMemFile 0 true), Ok tt) /\
    foldl (fun vf '(o, b) => fst (mem_write_at vf o b)) (sample_vfs, mkMemFile 0 true)
      [(20, zeros 4); (2, zeros 3)] = (v2, mkMemFile 0 true) /\
    inode_data v1 (mkMemFile 0 true) = inode_data v2 (mkMemFile 0 true).
Proof.
  apply (mem_vectored_is_sequential sample_vfs (mkMemFile 0 true)); [done|].
  apply Forall_cons; split; [split; done|]. apply Forall_cons; split; [split; done|]. constructor.
Defined.

Lemma canonical_path_stable_witness :
  canonical_native_path "seg\00ff//"%string = Ok "/seg/00ff"%string /\
  canonical_native_path "/seg/00ff"%string = Ok "/seg/00ff"%string.
Proof.
  split; [vm_compute; reflexivity|].
  apply (canonical_path_stable "seg\00ff//"%string); vm_compute; reflexivity.
Defined.

Lemma mem_locks_exclusive_witness :
  exists v h, rtc lock_step (mem_new, []) (v, [h]) /\
    holders [h] "/.writer.lock" KExclusive = 1 /\ holders [h] "/.writer.lock" KShared = 0.
Proof.
  exists (fst (lock_exclusive mem_new ".writer.lock")), (mkMemLockHandle "/.writer.lock" KExclusive).
  assert (rtc lock_step (mem_new, [])
    (fst (lock_exclusive mem_new ".writer.lock"), [mkMemLockHandle "/.writer.lock" KExclusive])) as Hr.
  { apply rtc_once. apply (step_exclusive mem_new [] ".writer.lock"). vm_compute; reflexivity. }
  split; [exact Hr|].
  destruct (mem_locks_exclusive _ _ "/.writer.lock" Hr ltac:(vm_compute; reflexivity)) as [[H0|H1] _];
    [vm_compute in H0; discriminate H0|exact H1].
Defined.

Lemma mem_rename_keeps_handles_witness :
  exists v', mem_rename sample_vfs "/main.db" "/old.db" = Ok v' /\
    mem_open v' "/main.db" ReadWrite = Err (Io "NotFound").
Proof.
  destruct (mem_rename_keeps_handles sample_vfs "/main.db" "/old.db" 0 0 (zeros 4))
    as (v' & Hr & _ & Hn & _); [vm_compute; reflexivity|vm_compute; reflexivity|done|done|done|done|].
  exists v'. split; [exact Hr|exact Hn].
Defined.
