(* ===== verification/OsLock.v ===== *)
(** * OsLock: the two-layer lock of the native file systems

    [src/src/vfs/oslock.rs]: a lock is an entry of a process-wide table and one
    operating-system lock shared by the holders in the process. Acquisition
    suspends while a blocking task takes the operating-system lock; other tasks
    and other processes run meanwhile. The suspended future can be dropped: the
    blocking task is then detached and still runs, and the descriptor it returns
    is closed with nobody having used it.

    The operating system is a parameter: an instance of [OsLocks]. What the two
    kinds of advisory lock the code uses are documented to do is stated
    separately: [OsLocksSpec] for the locks of an open file description
    ([F_OFD_SETLK] on Linux, [LockFileEx] on Windows), [ProcessLocksSpec] for the
    locks of a process ([F_SETLK], on the other Unix systems). *)

From S2P Require Import Prelude Keys Errors Vfs.
From Stdlib Require Import ZArith Lia.
From stdpp Require Import base functions list gmap strings.

Local Open Scope Z_scope.
Local Open Scope pagedb_scope.

(** ** The operating system *)

(** [OsLock::try_acquire] opens the lock file in a process and asks for the
    lock: the descriptor that has it, or none when it is refused and the
    descriptor closed again. Dropping an [OsLock] closes its descriptor. *)
Class OsLocks (O : Type) := {
  os_try_acquire : O -> string -> nat -> LockKind -> option nat * O;
  os_close : O -> nat -> O;
}.

Definition compatible (a b : LockKind) : Prop := a = KShared /\ b = KShared.

(** Locks owned by the open file description: two descriptors conflict even
    within one process, and closing one releases its own lock only. *)
Class OsLocksSpec (O : Type) `{OsLocks O} := {
  os_held : O -> nat -> option (string * LockKind);
  os_grant_spec o key p k fd o' :
    os_try_acquire o key p k = (Some fd, o') ->
    os_held o fd = None /\
    (forall fd' k', os_held o fd' = Some (key, k') -> compatible k k') /\
    (forall fd', os_held o' fd' = <[fd := Some (key, k)]> (os_held o) fd');
  os_refuse_spec o key p k o' :
    os_try_acquire o key p k = (None, o') -> forall fd', os_held o' fd' = os_held o fd';
  os_close_spec o fd fd' : os_held (os_close o fd) fd' = <[fd := None]> (os_held o) fd';
}.

(** Locks owned by the process: a request conflicts with other processes only,
    and closing any descriptor of a file drops the process's lock on it. *)
Class ProcessLocksSpec (O : Type) `{OsLocks O} := {
  pl_held : O -> string -> nat -> option LockKind;
  pl_file : O -> nat -> option (string * nat);
  pl_grant_spec o key p k :
    (forall q k', q <> p -> pl_held o key q = Some k' -> compatible k k') ->
    exists fd o', os_try_acquire o key p k = (Some fd, o') /\ pl_file o' fd = Some (key, p) /\
      forall key' q, pl_held o' key' q =
        if decide (key' = key /\ q = p) then Some k else pl_held o key' q;
  pl_close_spec o fd key p :
    pl_file o fd = Some (key, p) -> forall key' q,
    pl_held (os_close o fd) key' q =
      if decide (key' = key /\ q = p) then None else pl_held o key' q;
}.

(** ** One lock domain of a process *)

Record EntryState := mkEntryState {
  mode : LockState;
  os : option nat; (* the descriptor of the [OsLock] *)
}.

Definition entry_new : EntryState := mkEntryState Free None.

Definition try_join (s : EntryState) (kind : LockKind) : result (bool * EntryState) :=
  match kind, mode s with
  | _, Free => Ok (false, s)
  | KShared, Shared n =>
      if n <? U32_MAX then Ok (true, mkEntryState (Shared (n + 1)) (os s)) else Panic
  | _, _ => Err AlreadyLocked
  end.

Definition install (s : EntryState) (kind : LockKind) (fd : nat) : EntryState :=
  mkEntryState (match kind with KExclusive => Exclusive | KShared => Shared 1 end) (Some fd).

Definition leave (s : EntryState) (kind : LockKind) : EntryState :=
  let m := match kind, mode s with
           | KShared, Shared n => if 1 <? n then Shared (n - 1) else Free
           | _, _ => Free
           end in
  mkEntryState m (match m with Free => None | _ => os s end).

(** ** Acquisition as it interleaves *)

(** The acquirer holding an entry's gate: it wants [want], and its blocking task
    has, or has not yet, returned a descriptor. *)
Record Pending := mkPending { want : LockKind; granted : option nat }.

Record Domain := mkDomain { entry : EntryState; gate : option Pending }.
Definition domain_new : Domain := mkDomain entry_new None.

Record Handle := mkHandle { h_proc : nat; h_key : string; h_kind : LockKind }.

(** [detached]: the blocking tasks still to run whose future was dropped;
    [closing]: the descriptors such tasks returned, not closed yet. *)
Record Sys (O : Type) := mkSys {
  table : gmap (nat * string) Domain;
  os_state : O;
  handles : list Handle;
  detached : list Handle;
  closing : list nat;
}.
Arguments mkSys {O} table os_state handles detached closing.
Arguments table {O} s.
Arguments os_state {O} s.
Arguments handles {O} s.
Arguments detached {O} s.
Arguments closing {O} s.

Definition sys_new {O} (o : O) : Sys O := mkSys ∅ o [] [] [].

(** [LOCK_TABLE.entry(key).or_insert_with(..)] *)
Definition domain {O} (s : Sys O) (p : nat) (key : string) : Domain :=
  default domain_new (table s !! (p, key)).

Section steps.
Context {O : Type} `{OsLocks O}.

Definition set_domain (s : Sys O) (p : nat) (key : string) (d : Domain) : gmap (nat * string) Domain :=
  <[(p, key) := d]> (table s).

(** Assigning [None] or another value to [state.os] drops the descriptor in it. *)
Definition replace_os (o : O) (old new : option nat) : O :=
  match old with
  | Some fd => if bool_decide (new = Some fd) then o else os_close o fd
  | None => o
  end.

(** The pieces of [acquire] between its suspension points, the drop of its
    future before and after its blocking task returned, the detached tasks, and
    the drop of a handle. *)
Inductive os_step : Sys O -> Sys O -> Prop :=
| acquire_join s p key kind e :
    gate (domain s p key) = None ->
    try_join (entry (domain s p key)) kind = Ok (true, e) ->
    os_step s (mkSys (set_domain s p key (mkDomain e None)) (os_state s)
                 (mkHandle p key kind :: handles s) (detached s) (closing s))
| acquire_wait s p key kind e :
    gate (domain s p key) = None ->
    try_join (entry (domain s p key)) kind = Ok (false, e) ->
    os_step s (mkSys (set_domain s p key (mkDomain e (Some (mkPending kind None))))
                 (os_state s) (handles s) (detached s) (closing s))
| acquire_grant s p key kind fd o :
    gate (domain s p key) = Some (mkPending kind None) ->
    os_try_acquire (os_state s) key p kind = (Some fd, o) ->
    os_step s (mkSys (set_domain s p key (mkDomain (entry (domain s p key))
                        (Some (mkPending kind (Some fd))))) o (handles s) (detached s) (closing s))
| acquire_refuse s p key kind o :
    gate (domain s p key) = Some (mkPending kind None) ->
    os_try_acquire (os_state s) key p kind = (None, o) ->
    os_step s (mkSys (set_domain s p key (mkDomain (entry (domain s p key)) None)) o
                 (handles s) (detached s) (closing s))
| acquire_install s p key kind fd :
    gate (domain s p key) = Some (mkPending kind (Some fd)) ->
    os_step s
      (let e := install (entry (domain s p key)) kind fd in
       mkSys (set_domain s p key (mkDomain e None))
         (replace_os (os_state s) (os (entry (domain s p key))) (os e))
         (mkHandle p key kind :: handles s) (detached s) (closing s))
| future_dropped s p key kind :
    gate (domain s p key) = Some (mkPending kind None) ->
    os_step s (mkSys (set_domain s p key (mkDomain (entry (domain s p key)) None)) (os_state s)
                 (handles s) (mkHandle p key kind :: detached s) (closing s))
| granted_dropped s p key kind fd :
    gate (domain s p key) = Some (mkPending kind (Some fd)) ->
    os_step s (mkSys (set_domain s p key (mkDomain (entry (domain s p key)) None))
                 (os_close (os_state s) fd) (handles s) (detached s) (closing s))
| detached_grant s p key kind ts1 ts2 fd o :
    detached s = ts1 ++ mkHandle p key kind :: ts2 ->
    os_try_acquire (os_state s) key p kind = (Some fd, o) ->
    os_step s (mkSys (table s) o (handles s) (ts1 ++ ts2) (fd :: closing s))
| detached_refuse s p key kind ts1 ts2 o :
    detached s = ts1 ++ mkHandle p key kind :: ts2 ->
    os_try_acquire (os_state s) key p kind = (None, o) ->
    os_step s (mkSys (table s) o (handles s) (ts1 ++ ts2) (closing s))
| detached_lost s t ts1 ts2 :
    detached s = ts1 ++ t :: ts2 ->
    os_step s (mkSys (table s) (os_state s) (handles s) (ts1 ++ ts2) (closing s))
| detached_close s fd fs1 fs2 :
    closing s = fs1 ++ fd :: fs2 ->
    os_step s (mkSys (table s) (os_close (os_state s) fd) (handles s) (detached s) (fs1 ++ fs2))
| handle_dropped s p key kind hs1 hs2 :
    handles s = hs1 ++ mkHandle p key kind :: hs2 ->
    os_step s
      (let e := leave (entry (domain s p key)) kind in
       mkSys (set_domain s p key (mkDomain e (gate (domain s p key))))
         (replace_os (os_state s) (os (entry (domain s p key))) (os e)) (hs1 ++ hs2)
         (detached s) (closing s)).

(** Two live handles on one file, in whatever processes, are both shared. *)
Definition exclusion (s : Sys O) : Prop :=
  forall hs1 a hs2 b hs3, handles s = hs1 ++ a :: hs2 ++ b :: hs3 -> h_key a = h_key b ->
    h_kind a = KShared /\ h_kind b = KShared.
End steps.

(** ** Who owns which descriptor *)

(** The descriptor of a domain, with the kind of lock it has. *)
Definition desc (d : Domain) : option (nat * LockKind) :=
  match mode (entry d) with
  | Exclusive => (fun fd => (fd, KExclusive)) <$> os (entry d)
  | Shared _ => (fun fd => (fd, KShared)) <$> os (entry d)
  | Free => match gate d with Some (mkPending k (Some fd)) => Some (fd, k) | _ => None end
  end.

(** [D]: the descriptors of the domains; [cl]: those being closed; [held]: what
    the operating system has. *)
Record fds_ok (D : nat * string -> option (nat * LockKind)) (cl : list nat)
    (held : nat -> option (string * LockKind)) : Prop := mk_fds_ok {
  fo_held pk fd k : D pk = Some (fd, k) -> held fd = Some (pk.2, k);
  fo_inj pk pk' fd k k' : D pk = Some (fd, k) -> D pk' = Some (fd, k') -> pk = pk';
  fo_nodup : NoDup cl;
  fo_apart fd pk k : fd ∈ cl -> D pk = Some (fd, k) -> False;
  fo_open fd : fd ∈ cl -> held fd <> None;
  fo_all fd key k : held fd = Some (key, k) -> fd ∈ cl \/ exists p, D (p, key) = Some (fd, k);
  fo_compatible fd fd' key k k' :
    fd <> fd' -> held fd = Some (key, k) -> held fd' = Some (key, k') -> compatible k k';
}.

Lemma fds_ok_ext D D' cl held held' :
  (forall pk, D' pk = D pk) -> (forall fd, held' fd = held fd) -> fds_ok D cl held -> fds_ok D' cl held'.
Proof.
  intros HD Hh [H1 H2 H3 H4 H5 H6 H7]. constructor; try done; intros *; rewrite ?HD, ?Hh; eauto.
  intros Hf. destruct (H6 _ _ _ Hf) as [|[p Hp]]; [by left|right; exists p; by rewrite HD].
Qed.

(** Taking a lock: only compatible ones are there. *)
Lemma held_insert_compatible (held : nat -> option (string * LockKind)) fd key k :
  held fd = None -> (forall fd' k', held fd' = Some (key, k') -> compatible k k') ->
  (forall fd fd' key k k', fd <> fd' -> held fd = Some (key, k) -> held fd' = Some (key, k') -> compatible k k') ->
  forall fd1 fd2 key' k1 k2, fd1 <> fd2 -> <[fd := Some (key, k)]> held fd1 = Some (key', k1) ->
  <[fd := Some (key, k)]> held fd2 = Some (key', k2) -> compatible k1 k2.
Proof.
  intros Hn Hc Hold fd1 fd2 key' k1 k2 Hne.
  destruct (decide (fd = fd1)) as [<-|], (decide (fd = fd2)) as [<-|]; try done;
    rewrite ?fn_lookup_insert, ?fn_lookup_insert_ne by done.
  - intros [= <- <-] H2. by eapply Hc.
  - intros H1 [= <- <-]. destruct (Hc _ _ H1). by split.
  - by apply Hold.
Qed.

Lemma fds_ok_grant D cl held pk fd k :
  fds_ok D cl held -> D pk = None -> held fd = None ->
  (forall fd' k', held fd' = Some (pk.2, k') -> compatible k k') ->
  fds_ok (<[pk := Some (fd, k)]> D) cl (<[fd := Some (pk.2, k)]> held).
Proof.
  intros [H1 H2 H3 H4 H5 H6 H7] HD Hn Hc.
  assert (forall pk' fd' k', D pk' = Some (fd', k') -> fd <> fd') as Hne.
  { intros pk' fd' k' Hd <-. apply H1 in Hd. congruence. }
  constructor.
  - intros pk' fd' k'. destruct (decide (pk = pk')) as [<-|Hp].
    + rewrite fn_lookup_insert. intros [= <- <-]. by rewrite fn_lookup_insert.
    + rewrite fn_lookup_insert_ne by done. intros Hd. rewrite fn_lookup_insert_ne by (by eapply Hne). by apply H1.
  - intros pk1 pk2 fd' k1 k2. destruct (decide (pk = pk1)) as [<-|], (decide (pk = pk2)) as [<-|];
      rewrite ?fn_lookup_insert, ?fn_lookup_insert_ne by done; try done.
    + intros [= <- <-] Hd. by apply Hne in Hd.
    + intros Hd [= <- <-]. by apply Hne in Hd.
    + by apply H2.
  - done.
  - intros fd' pk' k' Hcl. destruct (decide (pk = pk')) as [<-|].
    + rewrite fn_lookup_insert. intros [= <- <-]. by apply (H5 fd).
    + rewrite fn_lookup_insert_ne by done. by apply H4.
  - intros fd' Hcl. destruct (decide (fd = fd')) as [<-|]; [by rewrite fn_lookup_insert|].
    rewrite fn_lookup_insert_ne by done. by apply H5.
  - intros fd' key k'. destruct (decide (fd = fd')) as [<-|].
    + rewrite fn_lookup_insert. intros [= <- <-]. right. exists pk.1. destruct pk. by rewrite fn_lookup_insert.
    + rewrite fn_lookup_insert_ne by done. intros Hh. destruct (H6 _ _ _ Hh) as [|[p Hp]]; [by left|right].
      exists p. rewrite fn_lookup_insert_ne; [done|]. intros ->. congruence.
  - by apply held_insert_compatible.
Qed.

Lemma held_delete_compatible (held : nat -> option (string * LockKind)) fd :
  (forall fd fd' key k k', fd <> fd' -> held fd = Some (key, k) -> held fd' = Some (key, k') -> compatible k k') ->
  forall fd1 fd2 key k1 k2, fd1 <> fd2 -> <[fd := None]> held fd1 = Some (key, k1) ->
  <[fd := None]> held fd2 = Some (key, k2) -> compatible k1 k2.
Proof.
  intros Hold fd1 fd2 key k1 k2 Hne.
  destruct (decide (fd = fd1)) as [<-|], (decide (fd = fd2)) as [<-|];
    rewrite ?fn_lookup_insert, ?fn_lookup_insert_ne by done; try done. by apply Hold.
Qed.

Lemma fds_ok_release D cl held pk fd k :
  fds_ok D cl held -> D pk = Some (fd, k) -> fds_ok (<[pk := None]> D) cl (<[fd := None]> held).
Proof.
  intros [H1 H2 H3 H4 H5 H6 H7] HD. constructor.
  - intros pk' fd' k'. destruct (decide (pk = pk')) as [<-|Hp]; [by rewrite fn_lookup_insert|].
    rewrite fn_lookup_insert_ne by done. intros Hd. rewrite fn_lookup_insert_ne; [by apply H1|].
    intros <-. by apply Hp, (H2 _ _ _ _ _ HD Hd).
  - intros pk1 pk2 fd' k1 k2. destruct (decide (pk = pk1)) as [<-|], (decide (pk = pk2)) as [<-|];
      rewrite ?fn_lookup_insert, ?fn_lookup_insert_ne by done; try done. by apply H2.
  - done.
  - intros fd' pk' k' Hcl. destruct (decide (pk = pk')) as [<-|]; [by rewrite fn_lookup_insert|].
    rewrite fn_lookup_insert_ne by done. by apply H4.
  - intros fd' Hcl. rewrite fn_lookup_insert_ne; [by apply H5|]. intros <-. by apply (H4 fd pk k).
  - intros fd' key k'. destruct (decide (fd = fd')) as [<-|]; [by rewrite fn_lookup_insert|].
    rewrite fn_lookup_insert_ne by done. intros Hh. destruct (H6 _ _ _ Hh) as [|[p Hp]]; [by left|right].
    exists p. rewrite fn_lookup_insert_ne; [done|]. intros ->. congruence.
  - by apply held_delete_compatible.
Qed.

Lemma fds_ok_open D cl held key fd k :
  fds_ok D cl held -> held fd = None ->
  (forall fd' k', held fd' = Some (key, k') -> compatible k k') ->
  fds_ok D (fd :: cl) (<[fd := Some (key, k)]> held).
Proof.
  intros [H1 H2 H3 H4 H5 H6 H7] Hn Hc.
  assert (forall pk' fd' k', D pk' = Some (fd', k') -> fd <> fd') as Hne.
  { intros pk' fd' k' Hd <-. apply H1 in Hd. congruence. }
  constructor.
  - intros pk' fd' k' Hd. rewrite fn_lookup_insert_ne by (by eapply Hne). by apply H1.
  - done.
  - constructor; [|done]. intros Hin. by apply (H5 fd).
  - intros fd' pk' k' [->|Hcl]%elem_of_cons Hd; [by apply Hne in Hd|by eapply H4].
  - intros fd' Hcl. destruct (decide (fd = fd')) as [<-|]; [by rewrite fn_lookup_insert|].
    rewrite fn_lookup_insert_ne by done. apply H5. set_solver.
  - intros fd' key' k'. destruct (decide (fd = fd')) as [<-|]; [left; by left|].
    rewrite fn_lookup_insert_ne by done. intros [|?]%H6; [left; by right|by right].
  - by apply held_insert_compatible.
Qed.

Lemma fds_ok_close D fs1 fs2 held fd :
  fds_ok D (fs1 ++ fd :: fs2) held -> fds_ok D (fs1 ++ fs2) (<[fd := None]> held).
Proof.
  intros [H1 H2 H3 H4 H5 H6 H7]. rewrite <- Permutation_middle in H3. apply NoDup_cons in H3 as [Hni H3].
  constructor.
  - intros pk' fd' k' Hd. rewrite fn_lookup_insert_ne; [by apply H1|]. intros <-. eapply H4; [|exact Hd]. set_solver.
  - done.
  - done.
  - intros fd' pk' k' Hcl. apply H4. set_solver.
  - intros fd' Hcl. rewrite fn_lookup_insert_ne by set_solver. apply H5. set_solver.
  - intros fd' key k'. destruct (decide (fd = fd')) as [<-|]; [by rewrite fn_lookup_insert|].
    rewrite fn_lookup_insert_ne by done. intros Hh. destruct (H6 _ _ _ Hh); [left; set_solver|by right].
  - by apply held_delete_compatible.
Qed.

(** ** The invariant *)

Section invariant.
Context {O : Type} `{OsLocksSpec O}.

Definition count (hs : list Handle) (p : nat) (key : string) (k : LockKind) : Z :=
  Z.of_nat (length (filter (fun h => h_proc h = p /\ h_key h = key /\ h_kind h = k) hs)).

Definition descs (s : Sys O) (pk : nat * string) : option (nat * LockKind) := desc (domain s pk.1 pk.2).

(** An entry has a descriptor exactly when it has holders, and its gate is taken
    only while it has none. *)
Definition domain_ok (d : Domain) : Prop :=
  (mode (entry d) = Free <-> os (entry d) = None) /\ (gate d <> None -> mode (entry d) = Free).

Record sys_ok (s : Sys O) : Prop := mk_sys_ok {
  ok_entries p key :
    lock_entry_ok (Some (mode (entry (domain s p key))))
      (count (handles s) p key KExclusive) (count (handles s) p key KShared);
  ok_domain p key : domain_ok (domain s p key);
  ok_fds : fds_ok (descs s) (closing s) (os_held (os_state s));
}.

Lemma domain_set (s : Sys O) p key d (o : O) hs ts cl q key' :
  domain (mkSys (set_domain s p key d) o hs ts cl) q key' =
    if decide (q = p /\ key' = key) then d else domain s q key'.
Proof.
  unfold domain, set_domain. cbn. case_decide as Hd.
  - destruct Hd as [-> ->]. by rewrite lookup_insert_eq.
  - rewrite lookup_insert_ne by (intros [= <- <-]; tauto). done.
Qed.

Lemma descs_set (s : Sys O) p key d (o : O) hs ts cl pk :
  descs (mkSys (set_domain s p key d) o hs ts cl) pk = <[(p, key) := desc d]> (descs s) pk.
Proof.
  unfold descs at 1. rewrite domain_set. destruct pk as [q key']. cbn. case_decide as Hd.
  - destruct Hd as [-> ->]. by rewrite fn_lookup_insert.
  - rewrite fn_lookup_insert_ne; [done|]. intros [= <- <-]. tauto.
Qed.

Lemma descs_same (s : Sys O) p key d pk :
  desc d = desc (domain s p key) -> <[(p, key) := desc d]> (descs s) pk = descs s pk.
Proof.
  intros Hd. destruct (decide ((p, key) = pk)) as [<-|]; [|by rewrite fn_lookup_insert_ne].
  by rewrite fn_lookup_insert.
Qed.

Lemma count_cons h hs p key k :
  count (h :: hs) p key k =
    (if decide (h_proc h = p /\ h_key h = key /\ h_kind h = k) then 1 else 0) + count hs p key k.
Proof. unfold count. rewrite filter_cons. case_decide; simpl; lia. Qed.

Lemma count_middle hs1 h hs2 p key k : count (hs1 ++ h :: hs2) p key k = count (h :: hs1 ++ hs2) p key k.
Proof.
  unfold count. f_equal. apply Permutation_length, filter_Permutation. symmetry.
  apply Permutation_middle.
Qed.
Lemma count_none hs p key k :
  Forall (fun h => h_key h <> key) hs -> count hs p key k = 0.
Proof.
  induction 1 as [|h hs Hh _ IH]; [done|]. rewrite count_cons, IH.
  rewrite decide_False; [done|]. tauto.
Qed.
Lemma count_nonneg hs p key k : 0 <= count hs p key k.
Proof. unfold count. lia. Qed.

Lemma count_other p key kind hs q key' k :
  ~ (q = p /\ key' = key) -> count (mkHandle p key kind :: hs) q key' k = count hs q key' k.
Proof. intros Hn. rewrite count_cons. rewrite decide_False; [done|]. cbn. intros (-> & -> & _). tauto. Qed.
Lemma count_this p key kind hs k :
  count (mkHandle p key kind :: hs) p key k = (if decide (kind = k) then 1 else 0) + count hs p key k.
Proof.
  rewrite count_cons. cbn. destruct (decide (kind = k)) as [->|]; [by rewrite decide_True|].
  rewrite decide_False; [done|]. by intros (_ & _ & ->).
Qed.

(** A step that replaces one domain: the invariant is to be shown for it alone. *)
Lemma sys_ok_update s p key d o hs ts cl :
  sys_ok s ->
  lock_entry_ok (Some (mode (entry d))) (count hs p key KExclusive) (count hs p key KShared) ->
  domain_ok d ->
  (forall q key' k, ~ (q = p /\ key' = key) -> count hs q key' k = count (handles s) q key' k) ->
  fds_ok (<[(p, key) := desc d]> (descs s)) cl (os_held o) ->
  sys_ok (mkSys (set_domain s p key d) o hs ts cl).
Proof.
  intros [He Hdom _] Hd1 Hd2 Hcount Hf. constructor; cbn [os_state handles closing].
  - intros q key'. rewrite domain_set. case_decide as Hqk; [by destruct Hqk as [-> ->]|].
    rewrite !Hcount by done. apply He.
  - intros q key'. rewrite domain_set. case_decide; [done|apply Hdom].
  - eapply fds_ok_ext; [|done|exact Hf]. intros pk. apply descs_set.
Qed.

(** A step that replaces no descriptor. *)
Lemma sys_ok_same s p key d hs ts :
  sys_ok s ->
  lock_entry_ok (Some (mode (entry d))) (count hs p key KExclusive) (count hs p key KShared) ->
  domain_ok d ->
  (forall q key' k, ~ (q = p /\ key' = key) -> count hs q key' k = count (handles s) q key' k) ->
  desc d = desc (domain s p key) ->
  sys_ok (mkSys (set_domain s p key d) (os_state s) hs ts (closing s)).
Proof.
  intros Hok ? ? ? Hd. apply sys_ok_update; try done.
  eapply fds_ok_ext; [|done|apply (ok_fds s Hok)]. intros pk. by apply descs_same.
Qed.

(** A pending acquirer finds the entry free. *)
Lemma gate_free s p key pd : sys_ok s -> gate (domain s p key) = Some pd ->
  mode (entry (domain s p key)) = Free /\ os (entry (domain s p key)) = None.
Proof.
  intros Hok Hg. destruct (ok_domain s Hok p key) as [Hos Hm]. rewrite Hg in Hm.
  specialize (Hm ltac:(done)). split; [done|by apply Hos].
Qed.

Lemma join_ok s p key kind e :
  sys_ok s -> gate (domain s p key) = None ->
  try_join (entry (domain s p key)) kind = Ok (true, e) ->
  sys_ok (mkSys (set_domain s p key (mkDomain e None)) (os_state s) (mkHandle p key kind :: handles s)
            (detached s) (closing s)).
Proof.
  intros Hok Hg Ht. pose proof (ok_entries s Hok p key) as He. destruct (ok_domain s Hok p key) as [Hos _].
  assert (exists n, kind = KShared /\ mode (entry (domain s p key)) = Shared n /\
    e = mkEntryState (Shared (n + 1)) (os (entry (domain s p key)))) as (n & -> & Hm & ->).
  { unfold try_join in Ht. destruct kind, (mode (entry (domain s p key))); try done.
    destruct (n <? U32_MAX); [|done]. injection Ht as <-. eauto. }
  rewrite Hm in He, Hos. cbn in He.
  apply sys_ok_same; [done|..].
  - rewrite !count_this. repeat case_decide; try done. cbn. lia.
  - split; [|done]. cbn. by split; [|intros Hn%Hos].
  - intros. by apply count_other.
  - unfold desc. cbn. by rewrite Hm.
Qed.

Lemma wait_ok s p key kind e :
  sys_ok s -> gate (domain s p key) = None ->
  try_join (entry (domain s p key)) kind = Ok (false, e) ->
  sys_ok (mkSys (set_domain s p key (mkDomain e (Some (mkPending kind None)))) (os_state s) (handles s)
            (detached s) (closing s)).
Proof.
  intros Hok Hg Ht.
  assert (mode (entry (domain s p key)) = Free /\ e = entry (domain s p key)) as [Hm ->].
  { unfold try_join in Ht. destruct kind, (mode (entry (domain s p key))); try done;
      try (by injection Ht as <-). by destruct (n <? U32_MAX). }
  apply sys_ok_same; try done.
  - apply (ok_entries s Hok).
  - split; [|done]. apply (ok_domain s Hok).
  - unfold desc. cbn. by rewrite Hm, Hg.
Qed.

Lemma grant_ok s p key kind fd o :
  sys_ok s -> gate (domain s p key) = Some (mkPending kind None) ->
  os_try_acquire (os_state s) key p kind = (Some fd, o) ->
  sys_ok (mkSys (set_domain s p key (mkDomain (entry (domain s p key))
    (Some (mkPending kind (Some fd))))) o (handles s) (detached s) (closing s)).
Proof.
  intros Hok Hg Ht. destruct (gate_free _ _ _ _ Hok Hg) as [Hm _].
  apply os_grant_spec in Ht as (Hn & Hc & Hh). apply sys_ok_update; try done.
  - apply (ok_entries s Hok).
  - split; [apply (ok_domain s Hok)|done].
  - eapply fds_ok_ext; [done|exact Hh|]. unfold desc. cbn. rewrite Hm.
    apply (fds_ok_grant _ _ _ (p, key)); try done; [apply (ok_fds s Hok)|].
    unfold descs, desc. cbn. by rewrite Hm, Hg.
Qed.

(** The gate released with no descriptor to give back. *)
Lemma ungate_ok s p key kind o ts :
  sys_ok s -> gate (domain s p key) = Some (mkPending kind None) ->
  (forall fd, os_held o fd = os_held (os_state s) fd) ->
  sys_ok (mkSys (set_domain s p key (mkDomain (entry (domain s p key)) None)) o (handles s) ts (closing s)).
Proof.
  intros Hok Hg Hh. destruct (gate_free _ _ _ _ Hok Hg) as [Hm _]. apply sys_ok_update; try done.
  - apply (ok_entries s Hok).
  - split; [apply (ok_domain s Hok)|done].
  - eapply fds_ok_ext; [|exact Hh|apply (ok_fds s Hok)]. intros pk. apply descs_same.
    unfold desc. cbn. by rewrite Hm, Hg.
Qed.

Lemma install_ok s p key kind fd :
  sys_ok s -> gate (domain s p key) = Some (mkPending kind (Some fd)) ->
  sys_ok (let e := install (entry (domain s p key)) kind fd in
    mkSys (set_domain s p key (mkDomain e None))
      (replace_os (os_state s) (os (entry (domain s p key))) (os e))
      (mkHandle p key kind :: handles s) (detached s) (closing s)).
Proof.
  intros Hok Hg. destruct (gate_free _ _ _ _ Hok Hg) as [Hm Ho]. cbv zeta. rewrite Ho. cbn [replace_os].
  pose proof (ok_entries s Hok p key) as He. rewrite Hm in He. cbn in He.
  apply sys_ok_same; [done|..].
  - rewrite !count_this. destruct kind; repeat case_decide; try done; cbn; lia.
  - by destruct kind.
  - intros. by apply count_other.
  - unfold desc. rewrite Hm, Hg. by destruct kind.
Qed.

Lemma granted_dropped_ok s p key kind fd :
  sys_ok s -> gate (domain s p key) = Some (mkPending kind (Some fd)) ->
  sys_ok (mkSys (set_domain s p key (mkDomain (entry (domain s p key)) None))
    (os_close (os_state s) fd) (handles s) (detached s) (closing s)).
Proof.
  intros Hok Hg. destruct (gate_free _ _ _ _ Hok Hg) as [Hm _]. apply sys_ok_update; try done.
  - apply (ok_entries s Hok).
  - split; [apply (ok_domain s Hok)|done].
  - eapply fds_ok_ext; [done|apply os_close_spec|]. unfold desc. cbn. rewrite Hm.
    apply (fds_ok_release _ _ _ (p, key) fd kind); [apply (ok_fds s Hok)|].
    unfold descs, desc. cbn. by rewrite Hm, Hg.
Qed.

(** A step of a detached task leaves the table alone. *)
Lemma task_ok s o ts cl :
  sys_ok s -> fds_ok (descs s) cl (os_held o) -> sys_ok (mkSys (table s) o (handles s) ts cl).
Proof. intros [He Hd _] Hf. by constructor. Qed.

Lemma detached_grant_ok s p key kind ts fd o :
  sys_ok s -> os_try_acquire (os_state s) key p kind = (Some fd, o) ->
  sys_ok (mkSys (table s) o (handles s) ts (fd :: closing s)).
Proof.
  intros Hok Ht. apply os_grant_spec in Ht as (Hn & Hc & Hh). apply task_ok; [done|].
  eapply fds_ok_ext; [done|exact Hh|]. apply fds_ok_open; [apply (ok_fds s Hok)|done..].
Qed.

Lemma detached_close_ok s fd fs1 fs2 :
  sys_ok s -> closing s = fs1 ++ fd :: fs2 ->
  sys_ok (mkSys (table s) (os_close (os_state s) fd) (handles s) (detached s) (fs1 ++ fs2)).
Proof.
  intros Hok Hcl. pose proof (ok_fds s Hok) as Hf. rewrite Hcl in Hf. apply task_ok; [done|].
  eapply fds_ok_ext; [done|apply os_close_spec|]. by apply fds_ok_close.
Qed.

(** A handle leaves the entry as the last of its holders or with some left. *)
Lemma leave_cases s p key kind hs1 hs2 :
  sys_ok s -> handles s = hs1 ++ mkHandle p key kind :: hs2 ->
  let d := domain s p key in let e := leave (entry d) kind in
  gate d = None /\ lock_entry_ok (Some (mode e)) (count (hs1 ++ hs2) p key KExclusive) (count (hs1 ++ hs2) p key KShared) /\
  exists fd, os (entry d) = Some fd /\ desc d = Some (fd, kind) /\
    (e = mkEntryState Free None \/
     exists n, kind = KShared /\ mode (entry d) = Shared n /\ e = mkEntryState (Shared (n - 1)) (Some fd)).
Proof.
  intros Hok Hh. cbv zeta. pose proof (ok_entries s Hok p key) as He.
  destruct (ok_domain s Hok p key) as [Hos Hg].
  rewrite Hh, !count_middle, !count_this in He.
  pose proof (count_nonneg (hs1 ++ hs2) p key KExclusive).
  pose proof (count_nonneg (hs1 ++ hs2) p key KShared).
  assert (mode (entry (domain s p key)) <> Free) as Hf.
  { intros Hf. rewrite Hf in He. destruct kind; repeat case_decide; try done; cbn in He; lia. }
  assert (gate (domain s p key) = None) as Hg0 by (destruct (gate _); [by destruct Hf; apply Hg|done]).
  destruct (os (entry (domain s p key))) as [fd|] eqn:Ho; [|by destruct Hf; apply Hos].
  split; [done|]. unfold leave, desc. rewrite Ho.
  destruct (mode (entry (domain s p key))) as [| |n] eqn:Hm; [done|..];
    destruct kind; repeat case_decide; try done; cbn in He; try lia.
  - split; [cbn; lia|]. exists fd. split; [done|]. split; [done|]. by left.
  - destruct (Z.ltb_spec 1 n); (split; [cbn; lia|]); exists fd; (split; [done|]); (split; [done|]).
    + right. by exists n.
    + by left.
Qed.

Lemma leave_ok s p key kind hs1 hs2 :
  sys_ok s -> handles s = hs1 ++ mkHandle p key kind :: hs2 ->
  sys_ok (let e := leave (entry (domain s p key)) kind in
    mkSys (set_domain s p key (mkDomain e (gate (domain s p key))))
      (replace_os (os_state s) (os (entry (domain s p key))) (os e)) (hs1 ++ hs2) (detached s) (closing s)).
Proof.
  intros Hok Hh. destruct (leave_cases s p key kind hs1 hs2 Hok Hh) as (Hg & He & fd & Ho & Hd & Hc).
  assert (forall q key' k, ~ (q = p /\ key' = key) ->
    count (hs1 ++ hs2) q key' k = count (handles s) q key' k) as Hco.
  { intros. rewrite Hh, count_middle. by rewrite count_other. }
  cbv zeta. rewrite Hg, Ho.
  destruct Hc as [E|(n & -> & Hm & E)]; rewrite E in *; unfold replace_os; cbn [os] in *.
  - rewrite bool_decide_eq_false_2 by done. apply sys_ok_update; try done.
    eapply fds_ok_ext; [done|apply os_close_spec|].
    eapply (fds_ok_release _ _ _ (p, key)); [apply (ok_fds s Hok)|exact Hd].
  - rewrite bool_decide_eq_true_2 by done. by apply sys_ok_same.
Qed.

Lemma os_step_ok s s' : os_step s s' -> sys_ok s -> sys_ok s'.
Proof.
  intros Hs Hok. destruct Hs.
  - by apply join_ok.
  - by apply wait_ok.
  - by apply grant_ok.
  - eapply ungate_ok; [done..|]. by eapply os_refuse_spec.
  - by apply install_ok.
  - by eapply ungate_ok.
  - by eapply granted_dropped_ok.
  - by eapply detached_grant_ok.
  - apply task_ok; [done|]. eapply fds_ok_ext; [done|by eapply os_refuse_spec|apply (ok_fds s Hok)].
  - apply task_ok; [done|apply (ok_fds s Hok)].
  - by apply detached_close_ok.
  - by apply leave_ok.
Qed.

Lemma os_reachable (o : O) s :
  (forall fd, os_held o fd = None) -> rtc os_step (sys_new o) s -> sys_ok s.
Proof.
  intros Ho Hr. assert (sys_ok (sys_new o)) as H1.
  { constructor; [done|by split|]. cbn. constructor; [done|done|apply NoDup_nil_2| |set_solver| |]; intros *; rewrite ?Ho; set_solver. }
  revert H1. induction Hr as [|s1 s2 s3 Hs _ IH]; [done|]. intros H1. by apply IH, (os_step_ok s1).
Qed.

(** The holders of an entry are shared, or one is alone. *)
Lemma handle_desc s p key k :
  sys_ok s -> mkHandle p key k ∈ handles s -> exists fd, desc (domain s p key) = Some (fd, k).
Proof.
  intros Hok (hs1 & hs2 & Hh)%list_elem_of_split.
  destruct (leave_cases s p key k hs1 hs2 Hok Hh) as (_ & _ & fd & _ & Hd & _). eauto.
Qed.

Lemma exclusive_alone s p key hs1 hs2 hs3 :
  sys_ok s -> handles s = hs1 ++ mkHandle p key KExclusive :: hs2 ++ mkHandle p key KExclusive :: hs3 ->
  False.
Proof.
  intros Hok Hh. pose proof (ok_entries s Hok p key) as He.
  rewrite Hh, !count_middle, !count_this, app_assoc, !count_middle, !count_this in He.
  pose proof (count_nonneg ((hs1 ++ hs2) ++ hs3) p key KExclusive).
  destruct (mode (entry (domain s p key))); repeat case_decide; try done; cbn in He; lia.
Qed.

Lemma exclusion_ok s : sys_ok s -> exclusion s.
Proof.
  intros Hok hs1 [p ka a] hs2 [q kb b] hs3 Hh Hk. cbn in *. subst kb. rename ka into key.
  destruct (handle_desc s p key a Hok) as [fa Ha]; [rewrite Hh; set_solver|].
  destruct (handle_desc s q key b Hok) as [fb Hb]; [rewrite Hh; set_solver|].
  pose proof (ok_fds s Hok) as Hf. destruct (decide (p = q)) as [<-|Hpq].
  - rewrite Ha in Hb. injection Hb as <- <-. destruct a; [|done]. exfalso. by eapply exclusive_alone.
  - assert (fa <> fb) as Hne.
    { intros <-. destruct Hpq. pose proof (fo_inj _ _ _ Hf (p, key) (q, key) fa a b Ha Hb). congruence. }
    by apply (fo_compatible _ _ _ Hf fa fb key); [|apply (fo_held _ _ _ Hf (p, key))|apply (fo_held _ _ _ Hf (q, key))].
Qed.

(** With nobody holding or acquiring a file, only a detached task may have it. *)
Lemma not_left_locked s key fd k :
  sys_ok s -> (forall p, gate (domain s p key) = None) -> Forall (fun h => h_key h <> key) (handles s) ->
  os_held (os_state s) fd = Some (key, k) -> fd ∈ closing s.
Proof.
  intros Hok Hg Hn Hh. destruct (fo_all _ _ _ (ok_fds s Hok) fd key k Hh) as [|[p Hp]]; [done|exfalso].
  unfold descs, desc in Hp. cbn in Hp. rewrite Hg in Hp. pose proof (ok_entries s Hok p key) as He.
  rewrite !(count_none _ _ _ _ Hn) in He. destruct (mode (entry (domain s p key))); cbn in He; [done|lia|lia].
Qed.
End invariant.

(** ** Systems that behave as documented *)

(** A table of descriptors, numbered as they are opened. *)
Record FdTable := mkFdTable { fds : gmap nat (string * nat * LockKind); fd_next : nat }.

Definition others_allow (t : FdTable) (key : string) (skip : nat -> bool) (k : LockKind) : bool :=
  bool_decide (map_Forall (fun _ '(key', q, k') =>
    key' = key -> skip q = false -> k = KShared /\ k' = KShared) (fds t)).

Definition fd_open (t : FdTable) (key : string) (p : nat) (k : LockKind) : option nat * FdTable :=
  (Some (fd_next t), mkFdTable (<[fd_next t := (key, p, k)]> (fds t)) (S (fd_next t))).

(** Locks of descriptions: every descriptor of the file counts, and the number
    given out is not in use. *)
Definition fd_free (t : FdTable) : bool := bool_decide (fds t !! fd_next t = None).
Definition OfdOs : Type := FdTable.
#[global] Instance ofd_os : OsLocks OfdOs := {|
  os_try_acquire t key p k :=
    if fd_free t && others_allow t key (fun _ => false) k then fd_open t key p k else (None, t);
  os_close t fd := mkFdTable (delete fd (fds t)) (fd_next t);
|}.

Definition ofd_held (t : OfdOs) (fd : nat) : option (string * LockKind) :=
  (fun '(key, _, k) => (key, k)) <$> fds t !! fd.

#[global] Program Instance ofd_os_spec : OsLocksSpec OfdOs := {| os_held := ofd_held |}.
Next Obligation.
  intros t key p k fd t' Ht. cbn in Ht. destruct (fd_free t && _) eqn:Hf; [|done].
  apply andb_true_iff in Hf as [Hfr Ha]. apply bool_decide_eq_true in Hfr, Ha. injection Ht as <- <-.
  unfold ofd_held. rewrite Hfr. split; [done|]. split.
  - intros fd' k'. destruct (fds t !! fd') as [[[key' q] k2]|] eqn:Hl; [|done].
    intros [= -> ->]. by apply (Ha _ _ Hl).
  - intros fd'. cbn. destruct (decide (fd_next t = fd')) as [<-|].
    + by rewrite lookup_insert_eq, fn_lookup_insert.
    + by rewrite lookup_insert_ne, fn_lookup_insert_ne by done.
Qed.
Next Obligation.
  intros t key p k t' Ht fd. cbn in Ht. destruct (fd_free t && _); [done|]. by injection Ht as <-.
Qed.
Next Obligation.
  intros t fd fd'. unfold ofd_held. cbn. destruct (decide (fd = fd')) as [<-|].
  - by rewrite lookup_delete_eq, fn_lookup_insert.
  - by rewrite lookup_delete_ne, fn_lookup_insert_ne by done.
Qed.

(** Locks of processes: who holds what, and the file and process of each
    descriptor. *)
Record SetlkOs := mkSetlkOs {
  sl_locks : gmap (string * nat) LockKind;
  sl_files : gmap nat (string * nat);
  sl_next : nat;
}.
#[global] Instance setlk_os : OsLocks SetlkOs := {|
  os_try_acquire t key p k :=
    if bool_decide (map_Forall (fun kp k' => kp.1 = key -> kp.2 <> p -> k = KShared /\ k' = KShared) (sl_locks t))
    then (Some (sl_next t), mkSetlkOs (<[(key, p) := k]> (sl_locks t))
                              (<[sl_next t := (key, p)]> (sl_files t)) (S (sl_next t)))
    else (None, mkSetlkOs (delete (key, p) (sl_locks t)) (sl_files t) (sl_next t));
  os_close t fd :=
    match sl_files t !! fd with
    | Some kp => mkSetlkOs (delete kp (sl_locks t)) (delete fd (sl_files t)) (sl_next t)
    | None => t
    end;
|}.

#[global] Program Instance setlk_os_spec : ProcessLocksSpec SetlkOs := {|
  pl_held t key p := sl_locks t !! (key, p);
  pl_file t fd := sl_files t !! fd;
|}.
Next Obligation.
  intros t key p k Hc. eexists _, _. cbn. rewrite bool_decide_eq_true_2; [split; [done|]|].
  - split; [by cbn; rewrite lookup_insert_eq|]. intros key' q. cbn. case_decide as Hd.
    + destruct Hd as [-> ->]. by rewrite lookup_insert_eq.
    + rewrite lookup_insert_ne; [done|]. intros [= <- <-]. tauto.
  - intros [key' q] k' Hl Hk Hq. cbn in *. subst key'. by eapply Hc.
Qed.
Next Obligation.
  intros t fd key p Hf key' q. cbn in *. rewrite Hf. cbn. case_decide as Hd.
  - destruct Hd as [-> ->]. by rewrite lookup_delete_eq.
  - rewrite lookup_delete_ne; [done|]. intros [= <- <-]. tauto.
Qed.

(** ** Properties *)

(** C23: over any operating system whose advisory locks belong to open file
    descriptions, as on Linux and Windows, in every interleaving of acquisitions
    by any number of processes, their suspensions, refusals and dropped futures,
    the blocking tasks those leave behind, and drops of handles, an exclusive
    lock is the only lock: two live handles on one file are both shared. And a
    file nobody holds or is acquiring is not left locked, but for descriptors
    that detached tasks are about to close. *)
Theorem native_lock_exclusion {O : Type} `{OsLocksSpec O} (o : O) (s : Sys O) :
  (forall fd, os_held o fd = None) -> rtc os_step (sys_new o) s ->
  exclusion s /\
  (forall key, (forall p, gate (domain s p key) = None) ->
     Forall (fun h => h_key h <> key) (handles s) ->
     forall fd k, os_held (os_state s) fd = Some (key, k) -> fd ∈ closing s).
Proof.
  intros Ho Hr. apply (os_reachable o) in Hr as Hok; [|done]. split; [by apply exclusion_ok|].
  intros key Hg Hn fd k. by apply not_left_locked.
Qed.

Definition fd_new : OfdOs := mkFdTable ∅ 0.

(** A future dropped while its task runs, a shared lock taken meanwhile and
    joined, the detached task granted the lock beside it. *)
Section sample_trace.
Let k : string := "k"%string.
Let h : Handle := mkHandle 1 k KShared.
Let at_ (d : Domain) : gmap (nat * string) Domain := {[ (1%nat, k) := d ]}.
Let fd0 : OfdOs := mkFdTable {[ 0%nat := (k, 1%nat, KShared) ]} 1.
Definition sample_states : list (Sys OfdOs) :=
  [ mkSys (at_ (mkDomain entry_new (Some (mkPending KShared None)))) fd_new [] [] [];
    mkSys (at_ domain_new) fd_new [] [h] [];
    mkSys (at_ (mkDomain entry_new (Some (mkPending KShared None)))) fd_new [] [h] [];
    mkSys (at_ (mkDomain entry_new (Some (mkPending KShared (Some 0%nat))))) fd0 [] [h] [];
    mkSys (at_ (mkDomain (mkEntryState (Shared 1) (Some 0%nat)) None)) fd0 [h] [h] [];
    mkSys (at_ (mkDomain (mkEntryState (Shared 2) (Some 0%nat)) None)) fd0 [h; h] [h] [] ].
Definition sample_end : Sys OfdOs :=
  mkSys (at_ (mkDomain (mkEntryState (Shared 2) (Some 0%nat)) None))
    (mkFdTable (<[1%nat := (k, 1%nat, KShared)]> (fds fd0)) 2) [h; h] [] [1%nat].
End sample_trace.

Lemma sample_reachable : rtc os_step (sys_new fd_new) sample_end.
Proof.
  eapply rtc_l with (y := nth 0 sample_states sample_end).
  { exact (acquire_wait (sys_new fd_new) 1 "k" KShared entry_new eq_refl eq_refl). }
  eapply rtc_l with (y := nth 1 sample_states sample_end).
  { exact (future_dropped (nth 0 sample_states sample_end) 1 "k" KShared eq_refl). }
  eapply rtc_l with (y := nth 2 sample_states sample_end).
  { exact (acquire_wait (nth 1 sample_states sample_end) 1 "k" KShared entry_new eq_refl eq_refl). }
  eapply rtc_l with (y := nth 3 sample_states sample_end).
  { apply (acquire_grant (nth 2 sample_states sample_end) 1 "k" KShared 0); [done|]. by vm_compute. }
  eapply rtc_l with (y := nth 4 sample_states sample_end).
  { exact (acquire_install (nth 3 sample_states sample_end) 1 "k" KShared 0 eq_refl). }
  eapply rtc_l with (y := nth 5 sample_states sample_end).
  { exact (acquire_join (nth 4 sample_states sample_end) 1 "k" KShared (mkEntryState (Shared 2) (Some 0%nat)) eq_refl eq_refl). }
  apply rtc_once.
  apply (detached_grant (nth 5 sample_states sample_end) 1 "k" KShared [] [] 1); [done|]. by vm_compute.
Qed.

Lemma native_lock_exclusion_witness :
  length (handles sample_end) = 2%nat /\ closing sample_end = [1%nat] /\ exclusion sample_end.
Proof.
  split; [reflexivity|]. split; [reflexivity|].
  apply (native_lock_exclusion fd_new sample_end); [|exact sample_reachable].
  intros fd. unfold os_held. cbn. unfold ofd_held. cbn. by rewrite lookup_empty.
Defined.

(** ** Locks of a process

    The doc comment of the module says that one descriptor to a file means an
    early close cannot drop an [F_SETLK] lock. A dropped future leaves a second
    descriptor. *)

Section process_locks.
Context {O : Type} `{ProcessLocksSpec O}.
Implicit Types s : Sys O.

Definition unlocked_by_others (o : O) (key : string) (p : nat) : Prop :=
  forall q, q <> p -> pl_held o key q = None.

(** An acquisition runs through when no other process has the file locked. *)
Lemma acquire_through s p key :
  domain s p key = domain_new -> unlocked_by_others (os_state s) key p ->
  exists s', rtc os_step s s' /\ handles s' = mkHandle p key KExclusive :: handles s /\
    detached s' = detached s /\ (forall q, q <> p -> domain s' q key = domain s q key) /\
    unlocked_by_others (os_state s') key p.
Proof.
  intros Hd Hu. destruct (pl_grant_spec (os_state s) key p KExclusive) as (fd & o & Ht & _ & Hh).
  { intros q k' Hq. by rewrite Hu. }
  eexists. split; [|split; [|split; [|split]]].
  - eapply rtc_l; [apply (acquire_wait s p key KExclusive entry_new); by rewrite Hd|].
    eapply rtc_l; [eapply (acquire_grant _ p key KExclusive);
      [unfold domain, set_domain; cbn; by rewrite lookup_insert_eq|exact Ht]|].
    eapply rtc_l; [eapply (acquire_install _ p key KExclusive);
      unfold domain, set_domain; cbn; by rewrite lookup_insert_eq|]. apply rtc_refl.
  - done.
  - done.
  - intros q Hq. unfold domain, set_domain. cbn. by rewrite !lookup_insert_ne by (intros [= ?]; done).
  - intros q Hq. cbn. unfold domain, set_domain. cbn. rewrite !lookup_insert_eq. cbn.
    rewrite Hh, decide_False by tauto. by apply Hu.
Qed.

(** A detached task of the process drops its lock. *)
Lemma detached_unlocks s p key kind :
  detached s = [mkHandle p key kind] -> unlocked_by_others (os_state s) key p ->
  exists s', rtc os_step s s' /\ handles s' = handles s /\
    (forall q, domain s' q key = domain s q key) /\ forall q, pl_held (os_state s') key q = None.
Proof.
  intros Hd Hu. destruct (pl_grant_spec (os_state s) key p kind) as (fd & o & Ht & Hf & Hh).
  { intros q k' Hq. by rewrite Hu. }
  eexists. split; [|split; [|split]].
  - eapply rtc_l; [eapply (detached_grant s p key kind []); [exact Hd|exact Ht]|].
    eapply rtc_l; [by eapply (detached_close _ fd [])|]. apply rtc_refl.
  - done.
  - done.
  - intros q. cbn. rewrite (pl_close_spec _ _ _ _ Hf), Hh.
    destruct (decide (key = key /\ q = p)) as [|Hq]; [done|]. apply Hu. tauto.
Qed.
End process_locks.

(** C40: over any operating system whose advisory locks belong to processes, as
    [F_SETLK] on Unix systems other than Linux, the writer lock can be held
    twice: from a state with nothing locked there are steps of two processes that
    end with two exclusive handles on one file. The future of an acquisition is
    dropped, a second acquisition of the process succeeds, and then the blocking
    task of the first opens the file and closes it again. *)
Theorem process_locks_lost {O : Type} `{ProcessLocksSpec O} (o : O) (key : string) :
  (forall p, pl_held o key p = None) ->
  exists s, rtc os_step (sys_new o) s /\
    handles s = [mkHandle 2 key KExclusive; mkHandle 1 key KExclusive] /\ ~ exclusion s.
Proof.
  intros Ho.
  set (s1 := mkSys (<[(1%nat, key) := domain_new]> (<[(1%nat, key) := mkDomain entry_new
    (Some (mkPending KExclusive None))]> ∅)) o [] [mkHandle 1 key KExclusive] []).
  assert (rtc os_step (sys_new o) s1) as H1.
  { eapply rtc_l; [by apply (acquire_wait _ 1 key KExclusive entry_new)|].
    assert (domain_new = mkDomain (entry (mkDomain entry_new (Some (mkPending KExclusive None)))) None) as Hd by done.
    unfold s1. rewrite Hd. eapply rtc_l; [|apply rtc_refl].
    pose proof (future_dropped (mkSys (set_domain (sys_new o) 1 key (mkDomain entry_new
      (Some (mkPending KExclusive None)))) o [] [] []) 1 key KExclusive) as Hs.
    unfold domain, set_domain in Hs. cbn in Hs. rewrite lookup_insert_eq in Hs. by apply Hs. }
  destruct (acquire_through s1 1 key) as (s2 & H2 & Hh2 & Hd2 & Hq2 & Hu2).
  { unfold domain, s1. cbn. by rewrite lookup_insert_eq. }
  { intros q _. apply Ho. }
  destruct (detached_unlocks s2 1 key KExclusive Hd2 Hu2) as (s3 & H3 & Hh3 & Hq3 & Hu3).
  destruct (acquire_through s3 2 key) as (s4 & H4 & Hh4 & _).
  { rewrite Hq3, Hq2 by done. unfold domain, s1. cbn. by rewrite !lookup_insert_ne. }
  { intros q _. apply Hu3. }
  rewrite Hh3, Hh2 in Hh4. exists s4. split; [by do 3 (etrans; [done|])|]. split; [done|].
  intros Hx. by destruct (Hx [] _ [] _ [] Hh4).
Qed.

Definition setlk_new : SetlkOs := mkSetlkOs ∅ ∅ 0.

Lemma process_locks_lost_witness :
  exists s : Sys SetlkOs, rtc os_step (sys_new setlk_new) s /\
    handles s = [mkHandle 2 "w" KExclusive; mkHandle 1 "w" KExclusive] /\ ~ exclusion s.
Proof. apply (process_locks_lost setlk_new "w"). done. Defined.
