(* ===== verification/HeaderSlots.v ===== *)
(** * HeaderSlots: the A/B header of [main.db]

    [src/src/pager/header.rs], [src/src/pager/anchor.rs],
    [src/src/pager/core/header_binding.rs],
    [src/src/txn/db/open/header_probe.rs] and the slot selection of
    [src/src/txn/db/open/existing.rs]: two header pages written in turn, the
    authenticated one with the greater sequence wins at open, and the anchor of
    the nonce counter refreshed through them. Files are any backend of [VfsFile]. *)

From Stdlib Require Import ZArith Lia.
From stdpp Require Import base list strings.
From coqutil Require Import Byte.
From S2P Require Import Prelude Keys Errors PageFormat Crypto StructuralHeader Vfs.

Local Open Scope Z_scope.
Local Open Scope pagedb_scope.

Inductive ActiveSlot := SlotA | SlotB.

Definition slot_page_id (s : ActiveSlot) : Z := match s with SlotA => 0 | SlotB => 1 end.
Definition other (s : ActiveSlot) : ActiveSlot := match s with SlotA => SlotB | SlotB => SlotA end.

(** Why [commit_header] failed, split by what the file can now hold. *)
Inductive HeaderWriteError :=
| NotStarted (cause : PagedbError)
| OutcomeUnknown (cause : PagedbError).

(** [impl From<HeaderWriteError> for PagedbError] *)
Definition header_write_cause (e : HeaderWriteError) : PagedbError :=
  match e with NotStarted c | OutcomeUnknown c => c end.

Record HeaderCursor := mkHeaderCursor { hc_slot : ActiveSlot; hc_seq : Z }.

Definition next_seq (c : HeaderCursor) : result Z :=
  ok_or (checked_add (hc_seq c) 1) (arithmetic_overflow "header sequence").

(** ** Probing the cleartext *)

Definition declared_page_size (slot : bytes) : result (option Z) :=
  if blen slot <? 12 then Ok None else
  let! magic := slice slot 0 8 in
  if negb (bool_decide (magic = MAGIC_MAIN)) then Ok None else
  let! log2 := u8_at slot 11 in
  if (12 <=? log2) && (log2 <=? 16) then Ok (Some (Z.shiftl 1 log2)) else Ok None.

Definition check_page_size (slot_a slot_b : bytes) (supplied : Z) : result unit :=
  let! a := declared_page_size slot_a in
  let! stored := match a with Some s => Ok (Some s) | None => declared_page_size slot_b end in
  match stored with
  | None => Ok tt
  | Some stored => if stored =? supplied then Ok tt else Err (PageSizeMismatch stored supplied)
  end.

Definition declared_format_version (slot : bytes) : result (option Z) :=
  if blen slot <? 10 then Ok None else
  let! magic := slice slot 0 8 in
  if negb (bool_decide (magic = MAGIC_MAIN)) then Ok None else
  let! v := u16_le slot 8 in Ok (Some v).

Definition check_format_version (slot_a slot_b : bytes) : result unit :=
  let! a := declared_format_version slot_a in
  let! stored := match a with Some s => Ok (Some s) | None => declared_format_version slot_b end in
  match stored with
  | None => Ok tt
  | Some stored =>
      if stored =? MAIN_FORMAT_VERSION then Ok tt
      else Err (FormatVersionUnsupported stored MAIN_FORMAT_VERSION)
  end.

Definition framed (slot : bytes) (page_size : Z) : result bool :=
  if negb (blen slot =? page_size) then Ok false else
  let! magic := slice slot 0 8 in
  if negb (bool_decide (magic = MAGIC_MAIN)) then Ok false else
  let! reserved := slice slot 161 168 in
  if negb (all_zero reserved) then Ok false else
  let! tail := slice slot MAIN_FIELDS_END (page_size - MAC_LEN) in
  Ok (all_zero tail).

Definition unverifiable_header_cause (slot_a slot_b : bytes) (page_size : Z) : result PagedbError :=
  if negb (MAIN_FIELDS_END + MAC_LEN <? page_size)
  then Ok (corruption HeaderUnverifiable) else
  let! a := framed slot_a page_size in
  let! ours := (if a then Ok true else framed slot_b page_size) in
  Ok (if ours : bool then KeyMismatch else corruption HeaderUnverifiable).

(** ** Slots of a file *)

Section slots.
Context `{Primitives}.

Definition authenticate_slot (slot hk : bytes) (page_size : Z) : result (option MainDbHeaderFields) :=
  match decode_main_db_header slot hk page_size with
  | Ok fields => Ok (Some fields)
  | Err (HeaderCapabilityUnsupported u) => Err (HeaderCapabilityUnsupported u)
  | Err _ => Ok None
  | Panic => Panic
  end.

Definition authenticate_slot_with_kek (slot kek : bytes) (page_size : Z)
  : result (option (MainDbHeaderFields * bytes)) :=
  if blen slot <? 56 then Ok None else
  let! salt := slice slot 32 48 in
  let! epoch := slice slot 48 56 in
  let mk := derive_mk kek salt (of_le epoch) in
  let hk := derive_hk mk in
  let! r := authenticate_slot slot hk page_size in
  Ok (option_map (fun fields => (fields, hk)) r).

(** [try_decode] of the opener: the fields with whether the primary key opened
    them, or the capability refusal of a slot a key did open. *)
Definition try_decode (kek : bytes) (counterpart : option bytes) (page_size : Z) (buf : bytes)
  : result (option (MainDbHeaderFields * bool) * option PagedbError) :=
  match authenticate_slot_with_kek buf kek page_size with
  | Ok (Some (fields, _)) => Ok (Some (fields, true), None)
  | Err e => Ok (None, Some e)
  | Panic => Panic
  | Ok None =>
      match counterpart with
      | None => Ok (None, None)
      | Some c =>
          match authenticate_slot_with_kek buf c page_size with
          | Ok (Some (fields, _)) => Ok (Some (fields, false), None)
          | Ok None => Ok (None, None)
          | Err e => Ok (None, Some e)
          | Panic => Panic
          end
      end
  end.

(** The slot rule: both verified, the greater sequence; one verified, that
    one; none, why. *)
Definition select_slot (kek : bytes) (counterpart : option bytes) (page_size : Z)
    (buf_a buf_b : bytes) : result (MainDbHeaderFields * ActiveSlot * bool) :=
  let! _ := check_page_size buf_a buf_b page_size in
  let! _ := check_format_version buf_a buf_b in
  let! '(a, a_capability) := try_decode kek counterpart page_size buf_a in
  let! '(b, b_capability) := try_decode kek counterpart page_size buf_b in
  match a_capability, b_capability with
  | Some e, _ | None, Some e => Err e
  | None, None =>
      match a, b with
      | Some (fa, pa), Some (fb, pb) =>
          if seq fb <=? seq fa then Ok (fa, SlotA, pa) else Ok (fb, SlotB, pb)
      | Some (fa, pa), None => Ok (fa, SlotA, pa)
      | None, Some (fb, pb) => Ok (fb, SlotB, pb)
      | None, None => let! e := unverifiable_header_cause buf_a buf_b page_size in Err e
      end
  end.
End slots.

Section files.
Context `{Primitives} {F : Type} `{VfsFile F}.

Definition read_header_slot (file : F) (offset : Z) (buf : bytes) : bytes * result unit :=
  match read_exact_at file offset buf with
  | (buf, Err (Io "UnexpectedEof"%string)) => (buf, Ok tt)
  | r => r
  end.

(** The opener up to the checks of what the selected header says:
    [rejects_unpromoted] is the capability of the mode. *)
Definition open_slots (file : F) (kek : bytes) (counterpart : option bytes) (page_size : Z)
    (realm : RealmId) (rejects_unpromoted : bool)
  : result (MainDbHeaderFields * ActiveSlot * bool) :=
  let '(buf_a, r) := read_header_slot file 0 (zeros page_size) in
  let! _ := r in
  let '(buf_b, r) := read_header_slot file page_size (zeros page_size) in
  let! _ := r in
  let! '((fields, slot), primary) := select_slot kek counterpart page_size buf_a buf_b in
  if negb (bool_decide (realm_id fields = realm))
  then Err (RealmMismatch (realm_id fields) realm) else
  if rejects_unpromoted && negb (restore_mode fields =? 0)
  then Err RestoredNotPromoted else Ok (fields, slot, primary).

(** [bootstrap_header] on the file [CreateNew] gave. The directory sync is left
    out. *)
Definition bootstrap_header (file : F) (hk : bytes) (initial : MainDbHeaderFields) (page_size : Z)
  : F * result unit :=
  match encode_main_db_header initial hk page_size with
  | Err e => (file, Err e)
  | Panic => (file, Panic)
  | Ok b =>
      match write_all_at file 0 b with
      | (file, Ok _) =>
          match write_all_at file page_size (zeros page_size) with
          | (file, Ok _) => sync file
          | r => r
          end
      | r => r
      end
  end.

(** [commit_header]; [opened] is the outcome of opening the file for writing. *)
Definition commit_header (file : F) (opened : result unit) (hk : bytes)
    (fields : MainDbHeaderFields) (previous : ActiveSlot) (page_size : Z)
  : F * res HeaderWriteError ActiveSlot :=
  let next := other previous in
  match encode_main_db_header fields hk page_size with
  | Err e => (file, Err (NotStarted e))
  | Panic => (file, Panic)
  | Ok b =>
      let offset := saturating_mul (slot_page_id next) page_size in
      match opened with
      | Err e => (file, Err (NotStarted e))
      | Panic => (file, Panic)
      | Ok _ =>
          match write_all_at file offset b with
          | (file, Err e) => (file, Err (OutcomeUnknown e))
          | (file, Panic) => (file, Panic)
          | (file, Ok _) =>
              match sync file with
              | (file, Err e) => (file, Err (OutcomeUnknown e))
              | (file, Panic) => (file, Panic)
              | (file, Ok _) => (file, Ok next)
              end
          end
      end
  end.

(** [fields] with another anchor and sequence. *)
Definition set_anchor_seq (f : MainDbHeaderFields) (anchor sq : Z) : MainDbHeaderFields :=
  mkMainDbHeaderFields (format_version f) (hdr_cipher_id f) (page_size_log2 f) (flags f)
    (file_id f) (kek_salt f) (mk_epoch f) sq (active_root_page_id f) (active_root_txn_id f)
    anchor (commit_id f) (free_list_root f) (catalog_root f) (apply_journal_root_page_id f)
    (apply_journal_root_version f) (commit_history_root_page_id f)
    (commit_history_root_version f) (restore_mode f) (next_page_id f)
    (commit_retain_policy_tag f) (commit_retain_policy_value f) (realm_id f).

Definition refresh_anchor (file : F) (opened : result unit) (hk : bytes) (cursor : HeaderCursor)
    (anchor page_size : Z) : F * result HeaderCursor :=
  let offset := saturating_mul (slot_page_id (hc_slot cursor)) page_size in
  let '(buf, r) := read_header_slot file offset (zeros page_size) in
  match r with
  | Err e => (file, Err e)
  | Panic => (file, Panic)
  | Ok _ =>
      match decode_main_db_header buf hk page_size with
      | Err e => (file, Err e)
      | Panic => (file, Panic)
      | Ok fields =>
          if anchor <? counter_anchor fields
          then (file, Err (structural_header_invalid "main.db" "counter_anchor")) else
          match next_seq cursor with
          | Err e => (file, Err e)
          | Panic => (file, Panic)
          | Ok sq =>
              let fields := set_anchor_seq fields anchor sq in
              match commit_header file opened hk fields (hc_slot cursor) page_size with
              | (file, Ok slot) => (file, Ok (mkHeaderCursor slot (seq fields)))
              | (file, Err e) => (file, Err (header_write_cause e))
              | (file, Panic) => (file, Panic)
              end
          end
      end
  end.

(** [Pager::refresh_main_anchor] of a pager with a live header bound. *)
Definition refresh_main_anchor (file : F) (opened : result unit) (hk : bytes)
    (cursor : HeaderCursor) (g : MainDbNonceGen) (page_size : Z)
  : F * result (MainDbNonceGen * HeaderCursor) :=
  let anchor := pending_anchor g in
  match refresh_anchor file opened hk cursor anchor page_size with
  | (file, Ok next) =>
      (file, let! g := commit_anchor g anchor in Ok (g, next))
  | (file, Err e) => (file, Err e)
  | (file, Panic) => (file, Panic)
  end.
End files.

(** ** What the slots hold *)

Definition slot_off (ps : Z) (s : ActiveSlot) : Z := slot_page_id s * ps.
Definition slot_bytes (c : bytes) (ps : Z) (s : ActiveSlot) : bytes := sub c (slot_off ps s) ps.

(** The cleartext the probes look at is that of a supported header. *)
Definition probe_prefix (x : bytes) (ps : Z) : Prop :=
  blen x = ps /\ sub x 0 8 = MAGIC_MAIN /\ sub x 8 2 = le16 MAIN_FORMAT_VERSION /\
  exists log2, sub x 11 1 = [to_u8 log2] /\ validate_page_size_log2 log2 = Ok ps.

(** [t] has at each place the byte of [old] or of [new]: what a write of
    [new] over [old] that stopped half-way can leave, in any order. *)
Definition torn (old new t : bytes) : Prop :=
  length t = length new /\ forall i, t !! i = old !! i \/ t !! i = new !! i.

Section header_files.
Context `{PrimitivesSpec}.

Definition hk_of (kek : bytes) (h : MainDbHeaderFields) : bytes :=
  derive_hk (derive_mk kek (kek_salt h) (mk_epoch h)).

Definition header_valid (h : MainDbHeaderFields) (ps : Z) : Prop :=
  main_header_ok h /\ format_version h = MAIN_FORMAT_VERSION /\ flags h = 0 /\
  validate_page_size_log2 (page_size_log2 h) = Ok ps.

(** A slot that loses against a header of sequence [sq]. *)
Definition inferior (kek : bytes) (cp : option bytes) (ps : Z) (x : bytes) (sq : Z) : Prop :=
  try_decode kek cp ps x = Ok (None, None) \/
  exists g p, try_decode kek cp ps x = Ok (Some (g, p), None) /\ seq g < sq.

(** The header [h] stands in slot [cur], whatever the other slot holds. *)
Record base_file (c : bytes) (kek : bytes) (ps : Z) (cur : ActiveSlot)
    (h : MainDbHeaderFields) : Prop := mk_base_file {
  hf_len : 2 * ps <= blen c;
  hf_valid : header_valid h ps;
  hf_active : encode_main_db_header h (hk_of kek h) ps = Ok (slot_bytes c ps cur);
  hf_probe : probe_prefix (slot_bytes c ps SlotA) ps;
}.

(** The file's authoritative header is [h], in slot [cur]. *)
Record header_file (c : bytes) (kek : bytes) (cp : option bytes) (ps : Z) (cur : ActiveSlot)
    (h : MainDbHeaderFields) : Prop := mk_header_file {
  hf_base : base_file c kek ps cur h;
  hf_other : inferior kek cp ps (slot_bytes c ps (other cur)) (seq h);
}.

Lemma page_size_bounds log2 ps : validate_page_size_log2 log2 = Ok ps -> 4096 <= ps <= 65536.
Proof.
  unfold validate_page_size_log2. destruct (_ && _) eqn:Hb; [|done]. intros [= <-]. propify.
  rewrite Z.shiftl_1_l. split; [change 4096 with (2 ^ 12)|change 65536 with (2 ^ 16)];
    apply Z.pow_le_mono_r; lia.
Qed.

Lemma valid_bounds h ps : header_valid h ps -> 4096 <= ps <= 65536.
Proof. intros (_ & _ & _ & Hv). by eapply page_size_bounds. Qed.

Lemma encoded_decodes h hk ps b :
  header_valid h ps -> encode_main_db_header h hk ps = Ok b -> decode_main_db_header b hk ps = Ok h.
Proof.
  intros (Hok & Hver & Hfl & Hlog) He. destruct (encode_main_authentic h _ ps b Hok He) as (Hfr & Hm & Hb).
  apply decode_main_db_header_spec. split; [|by rewrite Hb].
  apply authenticate_main_db_header_spec. split; [done|]. split; [done|]. by rewrite <- Hver, <- Hb.
Qed.

(** An encoded header decodes under the key derived from its own salt and epoch. *)
Lemma encoded_authenticates kek h ps b :
  header_valid h ps -> encode_main_db_header h (hk_of kek h) ps = Ok b ->
  authenticate_slot_with_kek b kek ps = Ok (Some (h, hk_of kek h)).
Proof.
  intros Hv He. pose proof (valid_bounds h ps Hv) as Hps.
  destruct (encode_main_authentic h _ ps b (proj1 Hv) He) as ((Hbl & _) & _ & Hb).
  unfold authenticate_slot_with_kek.
  rewrite (proj2 (Z.ltb_ge _ _)) by lia. rewrite !slice_ok by lia.
  change (48 - 32) with 16. change (56 - 48) with 8.
  assert (sub b 32 16 = kek_salt h) as -> by (by rewrite <- Hb).
  assert (of_le (sub b 48 8) = mk_epoch h) as -> by (by rewrite <- Hb).
  fold (hk_of kek h). unfold authenticate_slot.
  by rewrite (encoded_decodes h (hk_of kek h) ps b).
Qed.

Lemma encoded_try_decode kek cp h ps b :
  header_valid h ps -> encode_main_db_header h (hk_of kek h) ps = Ok b ->
  try_decode kek cp ps b = Ok (Some (h, true), None).
Proof. intros Hv He. unfold try_decode. by rewrite (encoded_authenticates kek h ps b). Qed.

Lemma encoded_len kek h ps b :
  header_valid h ps -> encode_main_db_header h (hk_of kek h) ps = Ok b -> blen b = ps.
Proof. intros (Hok & _) He. by destruct (encode_main_authentic h _ ps b Hok He) as ((Hb & _) & _). Qed.

Lemma encoded_probe kek h ps b :
  header_valid h ps -> encode_main_db_header h (hk_of kek h) ps = Ok b -> probe_prefix b ps.
Proof.
  intros Hv He. pose proof (valid_bounds h ps Hv) as Hps. destruct Hv as (Hok & Hver & Hfl & Hlog).
  destruct (encode_main_authentic h _ ps b Hok He) as ((Hbl & _ & Hmag & _) & _ & Hb).
  assert (0 <= page_size_log2 h < 2 ^ 8) by apply Hok.
  split; [done|]. split; [done|]. split.
  - assert (of_le (sub b 8 2) = format_version h) as Hf by (by rewrite <- Hb).
    rewrite <- Hver, <- Hf. symmetry. apply le16_of_le, blen_sub; lia.
  - exists (page_size_log2 h). split; [|done].
    assert (of_le (sub b 11 1) = page_size_log2 h) as <- by (by rewrite <- Hb).
    symmetry. apply to_u8_of_le, blen_sub; lia.
Qed.

(** The probes accept whatever follows such a prefix. *)
Lemma probe_page_size x y ps : probe_prefix x ps -> check_page_size x y ps = Ok tt.
Proof.
  intros (Hl & Hm & _ & log2 & Hb & Hv). pose proof (page_size_bounds _ _ Hv).
  unfold check_page_size, declared_page_size.
  rewrite (proj2 (Z.ltb_ge _ _)) by lia. rewrite slice_ok by lia. change (8 - 0) with 8.
  rewrite Hm, bool_decide_true by done. cbn [negb]. rewrite u8_at_ok by lia. rewrite Hb, of_le_byte.
  unfold validate_page_size_log2 in Hv.
  destruct ((12 <=? log2) && (log2 <=? 16)) eqn:E; [|done]. injection Hv as <-. propify.
  rewrite u8_to_u8 by lia. rewrite !(proj2 (Z.leb_le _ _)) by lia. cbn [andb]. by rewrite Z.eqb_refl.
Qed.

Lemma probe_version x y ps : probe_prefix x ps -> check_format_version x y = Ok tt.
Proof.
  intros (Hl & Hm & Hver & log2 & Hb & Hv). pose proof (page_size_bounds _ _ Hv).
  unfold check_format_version, declared_format_version.
  rewrite (proj2 (Z.ltb_ge _ _)) by lia. rewrite slice_ok by lia. change (8 - 0) with 8.
  rewrite Hm, bool_decide_true by done. cbn [negb]. rewrite u16_le_ok by lia. rewrite Hver.
  rewrite of_le16 by done. by rewrite Z.eqb_refl.
Qed.

(** The rule picks the authoritative header. *)
Lemma select_authoritative c kek cp ps cur h :
  header_file c kek cp ps cur h ->
  select_slot kek cp ps (slot_bytes c ps SlotA) (slot_bytes c ps SlotB) = Ok (h, cur, true).
Proof.
  intros [[Hl Hv Ha Hp] Ho]. unfold select_slot.
  rewrite (probe_page_size _ _ ps Hp), (probe_version _ _ ps Hp).
  pose proof (encoded_try_decode kek cp h ps _ Hv Ha) as Hd.
  destruct cur; cbn [other] in Ho; rewrite Hd; destruct Ho as [->|(g & p & -> & Hlt)]; try done.
  - by rewrite (proj2 (Z.leb_le _ _)) by lia.
  - by rewrite (proj2 (Z.leb_gt _ _)) by lia.
Qed.

(** ** Writing a slot *)

Lemma slot_bytes_write_same c ps s t :
  0 <= ps -> blen t = ps -> slot_bytes (write_contents c (slot_off ps s) t) ps s = t.
Proof.
  intros Hps Ht. unfold slot_bytes.
  pose proof (sub_write_contents_same c (slot_off ps s) t) as Hs. rewrite Ht in Hs.
  apply Hs. unfold slot_off. destruct s; cbn [slot_page_id]; lia.
Qed.

Lemma slot_bytes_write_other c ps s t :
  0 <= ps -> blen t = ps -> 2 * ps <= blen c ->
  slot_bytes (write_contents c (slot_off ps s) t) ps (other s) = slot_bytes c ps (other s).
Proof.
  intros Hps Ht Hc. unfold slot_bytes, slot_off.
  apply sub_write_contents_other; destruct s; cbn [slot_page_id other]; lia.
Qed.

Lemma other_other s : other (other s) = s.
Proof. by destruct s. Qed.

Lemma write_slot_len c ps s t :
  0 <= ps -> blen t = ps -> 2 * ps <= blen c ->
  blen (write_contents c (slot_off ps s) t) = blen c.
Proof.
  intros Hps Ht Hc. unfold slot_off. rewrite blen_write_contents; destruct s; cbn [slot_page_id other]; lia.
Qed.

(** Replacing the losing slot by the encoding of a header of greater sequence
    makes that header authoritative. *)
Lemma write_next c kek cp ps cur h h' b :
  base_file c kek ps cur h -> header_valid h' ps -> seq h < seq h' ->
  encode_main_db_header h' (hk_of kek h') ps = Ok b ->
  header_file (write_contents c (slot_off ps (other cur)) b) kek cp ps (other cur) h'.
Proof.
  intros [Hl Hv Ha Hp] Hv' Hlt Hb. pose proof (valid_bounds _ _ Hv) as Hps.
  pose proof (encoded_len _ _ _ _ Hv' Hb) as Hbl.
  constructor; [constructor; [|done|..]|].
  - rewrite write_slot_len by lia. lia.
  - by rewrite slot_bytes_write_same by lia.
  - destruct cur; cbn [other].
    + pose proof (slot_bytes_write_other c ps SlotB b) as Hs. cbn [other] in Hs. by rewrite Hs by lia.
    + rewrite slot_bytes_write_same by lia. by eapply (encoded_probe kek h').
  - rewrite slot_bytes_write_other by lia. rewrite other_other. right. exists h, true.
    split; [|done]. by apply encoded_try_decode.
Qed.

Lemma torn_sub old new t o n :
  torn old new t -> blen old = blen new -> 0 <= o -> 0 <= n -> o + n <= blen new ->
  sub old o n = sub new o n -> sub t o n = sub new o n.
Proof.
  intros [Hl Ht] Hlen Ho Hn Hon Heq. apply list_eq. intros i. rewrite !lookup_sub by lia.
  case_decide; [|done]. destruct (Ht (Z.to_nat o + i)%nat) as [->| ->]; [|done].
  apply (f_equal (fun l => l !! i)) in Heq. rewrite !lookup_sub in Heq by lia.
  by rewrite !decide_True in Heq by done.
Qed.

(** A torn write over such a prefix keeps it: the two pages agree there. *)
Lemma torn_probe old new t ps :
  probe_prefix old ps -> probe_prefix new ps -> torn old new t -> probe_prefix t ps.
Proof.
  intros (Hl1 & Hm1 & Hv1 & l1 & Hb1 & Hp1) (Hl2 & Hm2 & Hv2 & l2 & Hb2 & Hp2) Ht.
  pose proof (page_size_bounds _ _ Hp2).
  assert (l1 = l2) as ->.
  { apply validate_log2_inv in Hp1 as (? & Hs1 & _). apply validate_log2_inv in Hp2 as (? & Hs2 & _).
    rewrite Hs1, !Z.shiftl_1_l in Hs2. apply Z.pow_inj_r in Hs2; lia. }
  split; [destruct Ht as [Hl _]; unfold blen in *; lia|].
  split; [rewrite <- Hm2; eapply torn_sub; [done|lia..|congruence]|].
  split; [rewrite <- Hv2; eapply torn_sub; [done|lia..|congruence]|].
  exists l2. split; [|done]. rewrite <- Hb2. eapply torn_sub; [done|lia..|congruence].
Qed.

(** Whatever a write of the next header leaves in its slot, the header of the
    other slot still stands. *)
Lemma write_torn_base c kek ps cur h h' b t :
  base_file c kek ps cur h -> header_valid h' ps ->
  encode_main_db_header h' (hk_of kek h') ps = Ok b ->
  torn (slot_bytes c ps (other cur)) b t ->
  base_file (write_contents c (slot_off ps (other cur)) t) kek ps cur h /\
  slot_bytes (write_contents c (slot_off ps (other cur)) t) ps (other cur) = t.
Proof.
  intros [Hl Hv Ha Hp] Hv' Hb Ht. pose proof (valid_bounds _ _ Hv) as Hps.
  pose proof (encoded_len _ _ _ _ Hv' Hb) as Hbl.
  assert (blen t = ps) as Htl by (destruct Ht as [Hl' _]; unfold blen in *; lia).
  assert (slot_bytes (write_contents c (slot_off ps (other cur)) t) ps cur = slot_bytes c ps cur) as Hcur.
  { pose proof (slot_bytes_write_other c ps (other cur) t) as Hs. rewrite other_other in Hs. by apply Hs; lia. }
  split; [|by rewrite slot_bytes_write_same by lia]. constructor; [|done|..].
  - rewrite write_slot_len by lia. done.
  - by rewrite Hcur.
  - destruct cur; [by rewrite Hcur|]. cbn [other] in *. rewrite slot_bytes_write_same by lia.
    eapply (torn_probe _ b); [exact Hp|by eapply (encoded_probe kek h')|exact Ht].
Qed.

(** What it leaves being the old bytes, the new ones, or a mix that does not
    verify, one of the two headers is authoritative. *)
Lemma write_torn c kek cp ps cur h h' b t :
  header_file c kek cp ps cur h -> header_valid h' ps -> seq h < seq h' ->
  encode_main_db_header h' (hk_of kek h') ps = Ok b ->
  torn (slot_bytes c ps (other cur)) b t ->
  t = slot_bytes c ps (other cur) \/ t = b \/ try_decode kek cp ps t = Ok (None, None) ->
  let c' := write_contents c (slot_off ps (other cur)) t in
  header_file c' kek cp ps cur h \/ t = b /\ header_file c' kek cp ps (other cur) h'.
Proof.
  intros [Hf Ho] Hv' Hlt Hb Ht Hcase. cbv zeta.
  destruct (decide (t = b)) as [->|Hne]; [right; split; [done|by eapply write_next]|left].
  destruct (write_torn_base c kek ps cur h h' b t Hf Hv' Hb Ht) as [Hf' Hs].
  constructor; [done|]. rewrite Hs.
  destruct Hcase as [->|[->|Hn]]; [exact Ho|by destruct Hne|by left].
Qed.
End header_files.

(** ** The operations on a file *)

Section header_ops.
Context `{PrimitivesSpec} {F : Type} `{VfsFileSpec F}.

Lemma read_slot_ok (f : F) ps s :
  usable f -> 4096 <= ps <= 65536 -> 2 * ps <= blen (contents f) ->
  read_header_slot f (slot_off ps s) (zeros ps) = (slot_bytes (contents f) ps s, Ok tt).
Proof.
  intros Hu Hps Hl. unfold read_header_slot, slot_bytes.
  assert (blen (zeros ps) = ps) as Hz by (apply blen_zeros; lia).
  rewrite read_exact_at_ok; [by rewrite Hz|done|..]; unfold slot_off, U64_MAX;
    destruct s; cbn [slot_page_id]; lia.
Qed.

Lemma open_slots_ok (f : F) kek cp ps cur h rej :
  usable f -> header_file (contents f) kek cp ps cur h ->
  (rej = true -> restore_mode h = 0) ->
  open_slots f kek cp ps (realm_id h) rej = Ok (h, cur, true).
Proof.
  intros Hu Hf Hr. pose proof Hf as [[Hl Hv _ _] _]. pose proof (valid_bounds _ _ Hv) as Hps.
  unfold open_slots. pose proof (read_slot_ok f ps SlotA Hu Hps Hl) as HA.
  pose proof (read_slot_ok f ps SlotB Hu Hps Hl) as HB. unfold slot_off in HA, HB.
  cbn [slot_page_id] in HA, HB. rewrite Z.mul_0_l in HA. rewrite Z.mul_1_l in HB. rewrite HA, HB.
  rewrite (select_authoritative _ _ _ _ _ _ Hf). rewrite bool_decide_true by done. cbn [negb].
  destruct rej; [|done]. by rewrite Hr.
Qed.

Lemma slot_off_sat ps s : 4096 <= ps <= 65536 -> saturating_mul (slot_page_id s) ps = slot_off ps s.
Proof. intros. unfold saturating_mul, slot_off, U64_MAX. destruct s; cbn [slot_page_id]; lia. Qed.

Lemma commit_header_ok (f : F) kek cp ps cur h h' :
  usable f -> base_file (contents f) kek ps cur h -> header_valid h' ps -> seq h < seq h' ->
  exists f' b, commit_header f (Ok tt) (hk_of kek h') h' cur ps = (f', Ok (other cur)) /\
    usable f' /\ encode_main_db_header h' (hk_of kek h') ps = Ok b /\
    contents f' = write_contents (contents f) (slot_off ps (other cur)) b /\
    header_file (contents f') kek cp ps (other cur) h'.
Proof.
  intros Hu Hf Hv' Hlt. pose proof (valid_bounds _ _ Hv') as Hps.
  destruct (encode_main_db_header h' (hk_of kek h') ps) as [b|e|] eqn:Hb;
    [|destruct Hv' as (Hok & _ & _ & Hlog); rewrite encode_main_db_header_eq in Hb by done; done..].
  pose proof (encoded_len _ _ _ _ Hv' Hb) as Hbl.
  unfold commit_header. rewrite Hb, slot_off_sat by done.
  destruct (write_all_at_spec f (slot_off ps (other cur)) b) as (f1 & -> & Hu1 & Hc1);
    [done|unfold slot_off; destruct cur; cbn [slot_page_id other]; lia|
     unfold slot_off, U64_MAX; destruct cur; cbn [slot_page_id other]; lia|
     intros ->; unfold blen in Hbl; simpl in Hbl; lia|].
  destruct (sync_spec f1 Hu1) as (f2 & -> & Hu2 & Hc2).
  exists f2, b. split; [done|]. split; [done|]. split; [done|].
  rewrite Hc2, Hc1. split; [done|]. by eapply write_next.
Qed.

(** A header write that fails before its first byte leaves the file alone. *)
Lemma commit_header_not_started (f : F) opened hk h' cur ps f' e :
  commit_header f opened hk h' cur ps = (f', Err (NotStarted e)) -> f' = f.
Proof.
  unfold commit_header. destruct (encode_main_db_header h' hk ps); [|intros [= <- _]; done|done].
  destruct opened; [|intros [= <- _]; done|done].
  destruct (write_all_at f _ a) as [f1 [?|?|]]; [|done|done].
  destruct (sync f1) as [f2 [?|?|]]; done.
Qed.

Lemma set_anchor_seq_valid h ps anchor sq :
  header_valid h ps -> is_u64 anchor -> is_u64 sq -> header_valid (set_anchor_seq h anchor sq) ps.
Proof.
  unfold header_valid, main_header_ok, set_anchor_seq. cbn. intros. destruct_and!. split_and!; done.
Qed.

Lemma refresh_anchor_ok (f : F) kek cp ps cur h anchor :
  usable f -> base_file (contents f) kek ps cur h -> is_u64 anchor ->
  counter_anchor h <= anchor -> seq h + 1 <= U64_MAX ->
  let h' := set_anchor_seq h anchor (seq h + 1) in
  exists f', refresh_anchor f (Ok tt) (hk_of kek h) (mkHeaderCursor cur (seq h)) anchor ps =
      (f', Ok (mkHeaderCursor (other cur) (seq h + 1))) /\
    usable f' /\ header_file (contents f') kek cp ps (other cur) h'.
Proof.
  intros Hu Hf Ha Hge Hsq. cbv zeta. pose proof Hf as [Hl Hv Hact _].
  pose proof (valid_bounds _ _ Hv) as Hps. assert (is_u64 (seq h)) as Hs by apply Hv.
  unfold refresh_anchor. cbn [hc_slot hc_seq]. rewrite slot_off_sat, read_slot_ok by done.
  assert (decode_main_db_header (slot_bytes (contents f) ps cur) (hk_of kek h) ps = Ok h) as ->
    by (by apply encoded_decodes).
  rewrite (proj2 (Z.ltb_ge _ _)) by done. unfold next_seq. cbn [hc_seq].
  rewrite checked_add_ok by done. cbn [ok_or].
  destruct (commit_header_ok f kek cp ps cur h (set_anchor_seq h anchor (seq h + 1)))
    as (f' & b & Hc & Hu' & _ & _ & Hf'); [done|done| |cbn; lia|].
  { apply set_anchor_seq_valid; [done|done|]. unfold U64_MAX in *. lia. }
  change (hk_of kek (set_anchor_seq h anchor (seq h + 1))) with (hk_of kek h) in Hc.
  rewrite Hc. by exists f'.
Qed.

(** The refusals of [refresh_anchor] on a header that stands. *)
Lemma refresh_anchor_refused (f : F) kek ps cur h anchor :
  usable f -> base_file (contents f) kek ps cur h ->
  anchor < counter_anchor h \/ U64_MAX < seq h + 1 ->
  refresh_anchor f (Ok tt) (hk_of kek h) (mkHeaderCursor cur (seq h)) anchor ps =
    (f, Err (if anchor <? counter_anchor h then structural_header_invalid "main.db" "counter_anchor"
             else arithmetic_overflow "header sequence")).
Proof.
  intros Hu [Hl Hv Hact _] Hbad. pose proof (valid_bounds _ _ Hv) as Hps.
  unfold refresh_anchor. cbn [hc_slot]. rewrite slot_off_sat, read_slot_ok by done.
  rewrite (encoded_decodes h _ ps _ Hv Hact).
  destruct (Z.ltb_spec anchor (counter_anchor h)) as [|Hge]; [done|].
  unfold next_seq. cbn [hc_seq]. by rewrite checked_add_none by (unfold USIZE_MAX; lia).
Qed.

(** ** A fresh store *)

Lemma zero_slot_unverified kek cp ps :
  4096 <= ps <= 65536 -> try_decode kek cp ps (zeros ps) = Ok (None, None).
Proof.
  intros Hps. assert (forall k, authenticate_slot_with_kek (zeros ps) k ps = Ok None) as Hz.
  { intros k. unfold authenticate_slot_with_kek.
    assert (blen (zeros ps) = ps) as Hz by (apply blen_zeros; lia).
    rewrite (proj2 (Z.ltb_ge _ _)) by lia. rewrite !slice_ok by lia.
    unfold authenticate_slot, decode_main_db_header, authenticate_main_db_header.
    rewrite Hz, Z.eqb_refl. unfold MAIN_FIELDS_END, MAC_LEN. rewrite (proj2 (Z.ltb_ge _ _)) by lia.
    cbn [negb orb]. rewrite slice_ok by lia.
    rewrite sub_zeros by lia. by rewrite bool_decide_false. }
  unfold try_decode. rewrite Hz. destruct cp; [by rewrite Hz|done].
Qed.

Lemma bootstrap_ok (f : F) kek cp ps h :
  usable f -> contents f = [] -> header_valid h ps ->
  exists f', bootstrap_header f (hk_of kek h) h ps = (f', Ok tt) /\ usable f' /\
    header_file (contents f') kek cp ps SlotA h.
Proof.
  intros Hu Hc Hv. pose proof (valid_bounds _ _ Hv) as Hps. unfold bootstrap_header.
  destruct (encode_main_db_header h (hk_of kek h) ps) as [b|e|] eqn:Hb;
    [|destruct Hv as (Hok & _ & _ & Hlog); rewrite encode_main_db_header_eq in Hb by done; done..].
  pose proof (encoded_len _ _ _ _ Hv Hb) as Hbl.
  assert (blen (zeros ps) = ps) as Hz by (apply blen_zeros; lia).
  destruct (write_all_at_spec f 0 b) as (f1 & -> & Hu1 & Hc1);
    [done|lia|unfold U64_MAX; lia|intros ->; unfold blen in Hbl; simpl in Hbl; lia|].
  destruct (write_all_at_spec f1 ps (zeros ps)) as (f2 & -> & Hu2 & Hc2);
    [done|lia|unfold U64_MAX; lia|intros He; rewrite He in Hz; unfold blen in Hz; simpl in Hz; lia|].
  destruct (sync_spec f2 Hu2) as (f3 & -> & Hu3 & Hc3).
  exists f3. split; [done|]. split; [done|]. rewrite Hc3, Hc2, Hc1, Hc.
  assert (write_contents [] 0 b = b) as Hw.
  { unfold write_contents. change (blen []) with 0. rewrite Z.add_0_l, (proj2 (Z.ltb_lt _ _)) by lia.
    unfold resize. change (blen []) with 0. rewrite (proj2 (Z.leb_gt _ _)) by lia.
    apply splice_all. rewrite app_nil_l, blen_zeros; lia. }
  rewrite Hw.
  assert (write_contents b ps (zeros ps) = b ++ zeros ps) as ->.
  { unfold write_contents. rewrite Hz, (proj2 (Z.ltb_lt _ _)) by lia.
    unfold resize. rewrite (proj2 (Z.leb_gt _ _)) by lia. apply splice_app_suffix; [done|].
    rewrite Hz, blen_zeros; lia. }
  assert (slot_bytes (b ++ zeros ps) ps SlotA = b) as HA.
  { unfold slot_bytes, slot_off. cbn [slot_page_id]. rewrite sub_app_l by lia. rewrite <- Hbl. apply sub_full. }
  assert (slot_bytes (b ++ zeros ps) ps SlotB = zeros ps) as HB.
  { unfold slot_bytes, slot_off. cbn [slot_page_id]. rewrite sub_app_r by lia.
    replace (1 * ps - blen b) with 0 by lia. rewrite <- Hz at 2. apply sub_full. }
  constructor; [constructor; [rewrite blen_app; lia|done|..]|].
  - by rewrite HA.
  - rewrite HA. by eapply encoded_probe.
  - cbn [other]. rewrite HB. left. by apply zero_slot_unverified.
Qed.
End header_ops.

(** ** Properties *)

(** C11: committing a header is atomic against a crash. From a file whose
    authoritative header is [h], writing a header [h'] of greater sequence succeeds
    and the next open reads [h'] from the other slot; and if the write stops
    half-way, leaving in the target slot any mixture of old and new bytes that
    is one of the two or does not verify under the keys at hand, the next
    open reads [h] or [h'], and [h'] only when the whole page landed. In no case does an
    open refuse, although its probes read the torn slot unauthenticated. *)
Theorem header_commit_atomic `{PrimitivesSpec} {F : Type} `{VfsFileSpec F}
    (f : F) (kek : bytes) (cp : option bytes) (ps : Z) (cur : ActiveSlot)
    (h h' : MainDbHeaderFields) :
  usable f -> header_file (contents f) kek cp ps cur h -> header_valid h' ps ->
  seq h < seq h' -> realm_id h' = realm_id h ->
  (exists f', commit_header f (Ok tt) (hk_of kek h') h' cur ps = (f', Ok (other cur)) /\
     open_slots f' kek cp ps (realm_id h) false = Ok (h', other cur, true)) /\
  (exists b, encode_main_db_header h' (hk_of kek h') ps = Ok b /\
     forall t f', torn (slot_bytes (contents f) ps (other cur)) b t ->
       t = slot_bytes (contents f) ps (other cur) \/ t = b \/
         try_decode kek cp ps t = Ok (None, None) ->
       usable f' -> contents f' = write_contents (contents f) (slot_off ps (other cur)) t ->
       open_slots f' kek cp ps (realm_id h) false =
         if decide (t = b) then Ok (h', other cur, true) else Ok (h, cur, true)).
Proof.
  intros Hu Hf Hv' Hlt Hr.
  destruct (commit_header_ok f kek cp ps cur h h' Hu (hf_base _ _ _ _ _ _ Hf) Hv' Hlt)
    as (f1 & b & Hc & Hu1 & Hb & _ & Hf1).
  split; [exists f1; split; [done|]; rewrite <- Hr; by apply open_slots_ok|].
  exists b. split; [done|]. intros t f' Ht Hcase Hu' Hc'.
  destruct (decide (t = b)) as [->|Hne].
  - rewrite <- Hr. apply open_slots_ok; [done| |done]. rewrite Hc'. by eapply write_next, Hb; [apply Hf|..].
  - apply open_slots_ok; [done| |done]. rewrite Hc'.
    by destruct (write_torn _ _ _ _ _ _ _ _ _ Hf Hv' Hlt Hb Ht Hcase) as [?|[? _]].
Qed.

(** C27: an anchor refresh publishes nothing. On a freshly created store, and
    after any header write, refreshing the anchor succeeds, moves the cursor
    to the other slot and the next sequence, and the next open reads the same header
    with the new anchor and sequence and every other field unchanged; an anchor below
    the recorded one is refused and the file is left as it was. *)
Theorem anchor_refresh_publishes_nothing `{PrimitivesSpec} {F : Type} `{VfsFileSpec F}
    (f : F) (kek : bytes) (cp : option bytes) (ps : Z) (cur : ActiveSlot)
    (h : MainDbHeaderFields) (anchor : Z) :
  usable f -> header_file (contents f) kek cp ps cur h -> is_u64 anchor ->
  seq h + 1 <= U64_MAX ->
  if anchor <? counter_anchor h
  then refresh_anchor f (Ok tt) (hk_of kek h) (mkHeaderCursor cur (seq h)) anchor ps =
         (f, Err (structural_header_invalid "main.db" "counter_anchor"))
  else exists f',
    refresh_anchor f (Ok tt) (hk_of kek h) (mkHeaderCursor cur (seq h)) anchor ps =
      (f', Ok (mkHeaderCursor (other cur) (seq h + 1))) /\
    open_slots f' kek cp ps (realm_id h) false =
      Ok (set_anchor_seq h anchor (seq h + 1), other cur, true).
Proof.
  intros Hu Hf Ha Hs. destruct (Z.ltb_spec anchor (counter_anchor h)) as [Hlt|Hge].
  - rewrite refresh_anchor_refused; [|done|apply Hf|by left]. by rewrite (proj2 (Z.ltb_lt _ _)).
  - destruct (refresh_anchor_ok f kek cp ps cur h anchor Hu (hf_base _ _ _ _ _ _ Hf) Ha Hge Hs)
      as (f' & Hr & Hu' & Hf').
    exists f'. split; [done|]. by apply (open_slots_ok f' kek cp ps (other cur)
      (set_anchor_seq h anchor (seq h + 1)) false).
Qed.

(** Creating a store and opening it gives the initial header from slot A,
    under whatever counterpart key; and until a second header is written, losing
    slot B, which the file then holds as zeros, loses nothing. *)
Theorem bootstrap_then_open `{PrimitivesSpec} {F : Type} `{VfsFileSpec F}
    (f : F) (kek : bytes) (cp : option bytes) (ps : Z) (h : MainDbHeaderFields) :
  usable f -> contents f = [] -> header_valid h ps ->
  exists f', bootstrap_header f (hk_of kek h) h ps = (f', Ok tt) /\
    header_file (contents f') kek cp ps SlotA h /\
    open_slots f' kek cp ps (realm_id h) false = Ok (h, SlotA, true).
Proof.
  intros Hu Hc Hv. destruct (bootstrap_ok f kek cp ps h Hu Hc Hv) as (f' & Hb & Hu' & Hf).
  exists f'. split; [done|]. split; [done|]. by apply open_slots_ok.
Qed.

(** ** Concrete files *)

#[local] Existing Instance toy_primitives.
#[local] Existing Instance toy_primitives_spec.

Definition empty_file : OpenFile :=
  (mkMemVfs {[ "/main.db"%string := 0%nat ]} ∅ {[ 0%nat := [] ]} 1, mkMemFile 0 true).

Lemma sample_header_valid : header_valid sample_header 4096.
Proof. split; [unfold main_header_ok, sample_header; cbn; split_and!; done|done]. Qed.

Lemma sample_file :
  exists f' : OpenFile, usable f' /\ header_file (contents f') (zeros 32) None 4096 SlotA sample_header.
Proof.
  destruct (bootstrap_ok empty_file (zeros 32) None 4096 sample_header) as (f' & _ & Hu & Hf);
    [done|done|apply sample_header_valid|]. by exists f'.
Qed.

Lemma bootstrap_then_open_witness :
  exists f', bootstrap_header empty_file (hk_of (zeros 32) sample_header) sample_header 4096 =
    (f', Ok tt) /\ open_slots f' (zeros 32) None 4096 (zeros 16) false = Ok (sample_header, SlotA, true).
Proof.
  destruct (bootstrap_then_open empty_file (zeros 32) None 4096 sample_header) as (f' & Hb & _ & Ho);
    [done|done|apply sample_header_valid|]. exists f'. split; [exact Hb|exact Ho].
Defined.

Lemma header_commit_atomic_witness :
  exists f f' : OpenFile,
    commit_header f (Ok tt) (hk_of (zeros 32) (set_anchor_seq sample_header 4096 6))
      (set_anchor_seq sample_header 4096 6) SlotA 4096 = (f', Ok SlotB) /\
    open_slots f' (zeros 32) None 4096 (zeros 16) false =
      Ok (set_anchor_seq sample_header 4096 6, SlotB, true).
Proof.
  destruct sample_file as (f & Hu & Hf). exists f.
  destruct (header_commit_atomic f (zeros 32) None 4096 SlotA sample_header
    (set_anchor_seq sample_header 4096 6)) as [(f' & Hc & Ho) _];
    [exact Hu|exact Hf|by apply set_anchor_seq_valid, conj; [apply sample_header_valid|..]|done|done|].
  exists f'. split; [exact Hc|exact Ho].
Defined.

Lemma anchor_refresh_publishes_nothing_witness :
  exists f f' : OpenFile,
    refresh_anchor f (Ok tt) (hk_of (zeros 32) sample_header) (mkHeaderCursor SlotA 5) 5000 4096 =
      (f', Ok (mkHeaderCursor SlotB 6)) /\
    open_slots f' (zeros 32) None 4096 (zeros 16) false =
      Ok (set_anchor_seq sample_header 5000 6, SlotB, true).
Proof.
  destruct sample_file as (f & Hu & Hf). exists f.
  pose proof (anchor_refresh_publishes_nothing f (zeros 32) None 4096 SlotA sample_header 5000
    Hu Hf ltac:(done) ltac:(done)) as Hr.
  destruct Hr as (f' & Hr & Ho). exists f'. split; [exact Hr|exact Ho].
Defined.
