(* ===== verification/NonceSafety.v ===== *)
(** * NonceSafety: no nonce of [main.db] is issued twice

    The counter of [src/src/crypto/nonce.rs], the header it is anchored in
    ([src/src/pager/header.rs], [src/src/pager/anchor.rs]) and its recovery at open
    ([src/src/txn/db/open/existing.rs], [src/src/pager/core/header_binding.rs])
    composed into one system, with header writes that are interrupted, and crashes
    and reopens at any point. *)

From Stdlib Require Import ZArith Lia.
From stdpp Require Import base list strings relations.
From coqutil Require Import Byte.
From S2P Require Import Prelude Keys Errors PageFormat Crypto StructuralHeader Vfs HeaderSlots.

Local Open Scope Z_scope.
Local Open Scope pagedb_scope.

(** The file and, in memory, the generator and the cursor; with every nonce ever
    issued for the file. *)
Record NonceState (F : Type) := mkNonceState {
  n_file : F;
  n_gen : MainDbNonceGen;
  n_cursor : HeaderCursor;
  n_issued : list bytes;
}.
Arguments mkNonceState {F} n_file n_gen n_cursor n_issued.
Arguments n_file {F} n.
Arguments n_gen {F} n.
Arguments n_cursor {F} n.
Arguments n_issued {F} n.

Section system.
Context `{PrimitivesSpec} {F : Type} `{VfsFileSpec F}.

(** The store: its keys, page size and identity. *)
Variable kek : bytes.
Variable cp : option bytes.
Variable ps : Z.
Variable fid : bytes.
Variable realm : RealmId.

(** A header this writer may write next: of the store, one sequence past the
    cursor, anchored at the last nonce issued. *)
Definition next_header (st : NonceState F) (h : MainDbHeaderFields) : Prop :=
  header_valid h ps /\ file_id h = fid /\ realm_id h = realm /\
  next_seq (n_cursor st) = Ok (seq h) /\ counter_anchor h = pending_anchor (n_gen st).

Inductive nonce_step : NonceState F -> NonceState F -> Prop :=
| issue st n g :
    next_nonce (n_gen st) = Ok (n, g) ->
    nonce_step st (mkNonceState (n_file st) g (n_cursor st) (n :: n_issued st))
| header_written st h f slot g :
    (* a commit: the header, then the acknowledgement *)
    next_header st h ->
    commit_header (n_file st) (Ok tt) (hk_of kek h) h (hc_slot (n_cursor st)) ps = (f, Ok slot) ->
    commit_anchor (n_gen st) (counter_anchor h) = Ok g ->
    nonce_step st (mkNonceState f g (mkHeaderCursor slot (seq h)) (n_issued st))
| header_torn st h b t f :
    (* a header write that stopped: whatever the slot now holds, nothing is
       acknowledged; the writer may go on, or crash *)
    next_header st h ->
    encode_main_db_header h (hk_of kek h) ps = Ok b ->
    torn (slot_bytes (contents (n_file st)) ps (other (hc_slot (n_cursor st)))) b t ->
    t = slot_bytes (contents (n_file st)) ps (other (hc_slot (n_cursor st))) \/ t = b \/
      try_decode kek cp ps t = Ok (None, None) ->
    usable f ->
    contents f = write_contents (contents (n_file st)) (slot_off ps (other (hc_slot (n_cursor st)))) t ->
    nonce_step st (mkNonceState f (n_gen st) (n_cursor st) (n_issued st))
| anchor_refreshed st h f g c :
    (* the header the cursor names is [h] *)
    base_file (contents (n_file st)) kek ps (hc_slot (n_cursor st)) h ->
    refresh_main_anchor (n_file st) (Ok tt) (hk_of kek h) (n_cursor st) (n_gen st) ps = (f, Ok (g, c)) ->
    nonce_step st (mkNonceState f g c (n_issued st))
| reopened st h slot primary bud :
    (* a crash, or a close, and an open with whatever budget *)
    open_slots (n_file st) kek cp ps realm false = Ok (h, slot, primary) ->
    is_u64 bud ->
    nonce_step st (mkNonceState (n_file st) (main_gen_recover (file_id h) (counter_anchor h) bud)
                     (mkHeaderCursor slot (seq h)) (n_issued st)).

(** A store just created with the header [h] in slot A. *)
Definition created (st : NonceState F) (h : MainDbHeaderFields) : Prop :=
  usable (n_file st) /\ header_file (contents (n_file st)) kek cp ps SlotA h /\
  file_id h = fid /\ realm_id h = realm /\ counter_anchor h = 0 /\
  (exists bud, is_u64 bud /\ n_gen st = main_gen_new fid bud) /\
  n_cursor st = mkHeaderCursor SlotA (seq h) /\ n_issued st = [].

(** ** The invariant *)

(** A header an open can select belongs to the store and is anchored at [a] or
    above. *)
Definition selectable (h : MainDbHeaderFields) (a : Z) : Prop :=
  file_id h = fid /\ realm_id h = realm /\ a <= counter_anchor h < U64_MAX.

(** The cursor's header stands; the other slot loses against it, or holds a later
    header that was never acknowledged. *)
Definition disk_ok (c : bytes) (cur : HeaderCursor) (a : Z) : Prop :=
  exists h, base_file c kek ps (hc_slot cur) h /\ seq h = hc_seq cur /\ selectable h a /\
    (header_file c kek cp ps (hc_slot cur) h \/
     exists g, header_file c kek cp ps (other (hc_slot cur)) g /\ seq h < seq g /\ selectable g a).

Definition gen_ok (g : MainDbNonceGen) : Prop :=
  prefix g = take 6 fid /\ 0 <= durable_anchor g <= pending_anchor g /\ 1 <= next g <= U64_MAX /\
  0 <= budget g <= MAX_ANCHOR_BUDGET.

(** Every nonce issued has a counter behind the generator, and within reach of the
    durable anchor. *)
Definition issued_ok (g : MainDbNonceGen) (l : list bytes) : Prop :=
  exists cs, l = map (nonce_from_parts (take 6 fid)) cs /\ NoDup cs /\
    Forall (fun c => 0 <= c <= COUNTER_MAX /\ c < next g /\
              c <= durable_anchor g + MAX_ANCHOR_BUDGET) cs.

Definition nonce_inv (st : NonceState F) : Prop :=
  usable (n_file st) /\ disk_ok (contents (n_file st)) (n_cursor st) (durable_anchor (n_gen st)) /\
  gen_ok (n_gen st) /\ issued_ok (n_gen st) (n_issued st).

Lemma issued_mono g g' l :
  next g <= next g' -> durable_anchor g <= durable_anchor g' -> issued_ok g l -> issued_ok g' l.
Proof.
  intros Hn Hd (cs & Hl & Hnd & Hcs). exists cs. split; [done|]. split; [done|].
  eapply Forall_impl; [exact Hcs|]. cbn. lia.
Qed.

Lemma issue_inv st n g :
  nonce_inv st -> next_nonce (n_gen st) = Ok (n, g) ->
  nonce_inv (mkNonceState (n_file st) g (n_cursor st) (n :: n_issued st)).
Proof.
  intros (Hu & Hd & (Hp & Ha & Hn & Hb) & (cs & Hl & Hnd & Hcs)) Hi. unfold next_nonce in Hi.
  destruct (Z.ltb_spec COUNTER_MAX (next (n_gen st))); [done|].
  destruct (Z.ltb_spec (saturating_add (durable_anchor (n_gen st)) (budget (n_gen st))) (next (n_gen st)));
    [done|].
  injection Hi as <- <-. unfold saturating_add, pending_anchor, saturating_sub in *.
  split; [done|]. split; [done|]. split.
  { split; [done|]. unfold pending_anchor, saturating_sub, COUNTER_MAX, U64_MAX in *. cbn. lia. }
  exists (next (n_gen st) :: cs). cbn [n_gen n_issued map next durable_anchor]. split; [by rewrite Hp, Hl|].
  split.
  - apply NoDup_cons. split; [|done]. intros Hin.
    eapply Forall_forall in Hcs; [|exact Hin]. cbn in Hcs. lia.
  - apply Forall_cons. split; [lia|]. eapply Forall_impl; [exact Hcs|]. cbn. lia.
Qed.

Lemma next_seq_inv c sq : next_seq c = Ok sq -> sq = hc_seq c + 1 /\ hc_seq c + 1 <= U64_MAX.
Proof.
  unfold next_seq, checked_add. destruct (Z.leb_spec (hc_seq c + 1) USIZE_MAX); [|done].
  intros [= <-]. done.
Qed.

Lemma commit_anchor_inv g a g' :
  commit_anchor g a = Ok g' ->
  durable_anchor g <= a <= pending_anchor g /\
  g' = mkMainDbNonceGen (prefix g) (next g) a (budget g).
Proof.
  unfold commit_anchor. destruct (_ || _) eqn:E; [done|]. intros [= <-]. propify. destruct_and!. split; [lia|done].
Qed.

Lemma commit_anchor_gen g a g' : gen_ok g -> commit_anchor g a = Ok g' -> gen_ok g'.
Proof.
  intros (Hp & Ha & Hn & Hb) Hc. apply commit_anchor_inv in Hc as (? & ->).
  split; [done|]. unfold pending_anchor in *. cbn in *. lia.
Qed.

Lemma written_inv st h f slot g :
  nonce_inv st -> next_header st h ->
  commit_header (n_file st) (Ok tt) (hk_of kek h) h (hc_slot (n_cursor st)) ps = (f, Ok slot) ->
  commit_anchor (n_gen st) (counter_anchor h) = Ok g ->
  nonce_inv (mkNonceState f g (mkHeaderCursor slot (seq h)) (n_issued st)).
Proof.
  intros (Hu & (h0 & Hb & Hsq & _ & _) & Hg & Hi) (Hv & Hfid & Hre & Hns & Han) Hw Hc.
  apply next_seq_inv in Hns as [Hns _].
  destruct (commit_header_ok (n_file st) kek cp ps (hc_slot (n_cursor st)) h0 h)
    as (f1 & b & Hw' & Hu' & _ & _ & Hf); [done|done|done|lia|].
  rewrite Hw in Hw'. injection Hw' as <- ->.
  pose proof (commit_anchor_inv _ _ _ Hc) as (Hbd & Hg').
  split; [done|]. split; [|split; [by eapply commit_anchor_gen|]].
  - exists h. cbn [n_file n_cursor n_gen hc_slot hc_seq]. split; [apply Hf|]. split; [done|].
    split; [|by left]. split; [done|]. split; [done|]. rewrite Hg'. cbn.
    destruct Hg as (_ & _ & Hn & _). unfold pending_anchor, saturating_sub in *. lia.
  - eapply issued_mono; [..|exact Hi]; rewrite Hg'; cbn; lia.
Qed.

Lemma torn_inv st h b t f :
  nonce_inv st -> next_header st h ->
  encode_main_db_header h (hk_of kek h) ps = Ok b ->
  torn (slot_bytes (contents (n_file st)) ps (other (hc_slot (n_cursor st)))) b t ->
  t = slot_bytes (contents (n_file st)) ps (other (hc_slot (n_cursor st))) \/ t = b \/
    try_decode kek cp ps t = Ok (None, None) ->
  usable f ->
  contents f = write_contents (contents (n_file st)) (slot_off ps (other (hc_slot (n_cursor st)))) t ->
  nonce_inv (mkNonceState f (n_gen st) (n_cursor st) (n_issued st)).
Proof.
  intros (Hu & (h0 & Hb & Hsq & Hsel & Hoth) & Hg & Hi) (Hv & Hfid & Hre & Hns & Han) He Ht Hcase Hu' Hc.
  apply next_seq_inv in Hns as [Hns _].
  split; [done|]. split; [|split; done]. cbn [n_file n_cursor n_gen]. rewrite Hc.
  destruct (write_torn_base _ _ _ _ _ _ _ _ Hb Hv He Ht) as [Hb' Hs].
  exists h0. split; [done|]. split; [done|]. split; [done|].
  destruct (decide (t = b)) as [->|Hne].
  - right. exists h. split; [eapply write_next; [exact Hb|exact Hv|lia|exact He]|]. split; [lia|].
    split; [done|]. split; [done|]. rewrite Han. destruct Hg as (_ & Ha & Hn & _).
    unfold pending_anchor, saturating_sub in *. lia.
  - destruct Hcase as [Heq|[?|Hno]]; [|done|left; constructor; [done|]; rewrite Hs; by left].
    destruct Hoth as [Hf|(g & Hf & Hlt & Hselg)].
    + left. constructor; [done|]. rewrite Hs, Heq. apply Hf.
    + right. exists g. split; [|done]. pose proof Hf as [[Hl Hvg Hag Hpg] Hog].
      constructor; [constructor; [apply Hb'|done| |apply Hb']|].
      * rewrite Hs. by rewrite <- Heq in Hag.
      * rewrite other_other. right. exists h0, true. split; [|done].
        apply encoded_try_decode; [apply Hb|apply Hb'].
Qed.

Lemma refreshed_inv st h f g c :
  nonce_inv st -> base_file (contents (n_file st)) kek ps (hc_slot (n_cursor st)) h ->
  refresh_main_anchor (n_file st) (Ok tt) (hk_of kek h) (n_cursor st) (n_gen st) ps = (f, Ok (g, c)) ->
  nonce_inv (mkNonceState f g c (n_issued st)).
Proof.
  intros (Hu & (h0 & Hb0 & Hsq & Hsel & Hoth) & Hg & Hi) Hb Hr.
  assert (h0 = h) as ->.
  { pose proof (encoded_try_decode kek cp h ps _ (hf_valid _ _ _ _ _ Hb) (hf_active _ _ _ _ _ Hb)) as Hd1.
    pose proof (encoded_try_decode kek cp h0 ps _ (hf_valid _ _ _ _ _ Hb0) (hf_active _ _ _ _ _ Hb0)) as Hd2.
    rewrite Hd1 in Hd2. by injection Hd2 as ->. }
  unfold refresh_main_anchor in Hr. set (a := pending_anchor (n_gen st)) in *.
  replace (n_cursor st) with (mkHeaderCursor (hc_slot (n_cursor st)) (seq h)) in Hr
    by (rewrite Hsq; by destruct (n_cursor st)).
  assert (0 <= a < U64_MAX) as Ha.
  { destruct Hg as (_ & ? & ? & _). unfold a, pending_anchor, saturating_sub. lia. }
  assert (counter_anchor h <= a /\ seq h + 1 <= U64_MAX) as [Hge Hs].
  { destruct (Z.lt_ge_cases a (counter_anchor h)) as [|]; [|destruct (Z.lt_ge_cases U64_MAX (seq h + 1))]; [..|lia];
      rewrite refresh_anchor_refused in Hr by (done || lia); done. }
  destruct (refresh_anchor_ok (n_file st) kek cp ps (hc_slot (n_cursor st)) h a)
    as (f' & Hr' & Hu' & Hf'); [done|done|unfold U64_MAX in *; lia|done|done|].
  rewrite Hr' in Hr. destruct (commit_anchor (n_gen st) a) as [g'|e|] eqn:Hc; [|done..].
  injection Hr as <- <- <-. pose proof (commit_anchor_inv _ _ _ Hc) as (Hbd & Hg').
  split; [done|]. split; [|split; [by eapply commit_anchor_gen|]].
  - eexists. cbn [n_file n_cursor n_gen hc_slot hc_seq]. split; [apply Hf'|]. split; [done|].
    split; [|left; exact Hf']. destruct Hsel as (? & ? & _). split; [done|]. split; [done|]. rewrite Hg'. cbn. lia.
  - eapply issued_mono; [..|exact Hi]; rewrite Hg'; cbn; lia.
Qed.

Lemma reopened_inv st h slot primary bud :
  nonce_inv st -> open_slots (n_file st) kek cp ps realm false = Ok (h, slot, primary) -> is_u64 bud ->
  nonce_inv (mkNonceState (n_file st) (main_gen_recover (file_id h) (counter_anchor h) bud)
    (mkHeaderCursor slot (seq h)) (n_issued st)).
Proof.
  intros (Hu & (h0 & Hb & Hsq & Hsel & Hoth) & Hg & (cs & Hl & Hnd & Hcs)) Ho Hbud.
  assert (header_file (contents (n_file st)) kek cp ps slot h /\ selectable h (durable_anchor (n_gen st)))
    as [Hf (Hfid & Hre & Ha)].
  { destruct Hoth as [Hf|(g & Hf & Hlt & Hselg)].
    - pose proof (open_slots_ok (n_file st) kek cp ps _ h0 false Hu Hf ltac:(done)) as Ho'.
      destruct Hsel as (? & Hre & ?). rewrite Hre, Ho in Ho'. by injection Ho' as -> -> ->.
    - pose proof (open_slots_ok (n_file st) kek cp ps _ g false Hu Hf ltac:(done)) as Ho'.
      destruct Hselg as (? & Hre & ?). rewrite Hre, Ho in Ho'. by injection Ho' as -> -> ->. }
  split; [done|]. split; [|split].
  - exists h. split; [apply Hf|]. split; [done|]. split; [|by left]. split; [done|]. split; [done|]. cbn. lia.
  - destruct Hg as (_ & Hga & _). unfold main_gen_recover, gen_ok. cbn. rewrite Hfid. split; [done|].
    unfold pending_anchor, saturating_sub, saturating_add, U64_MAX, MAX_ANCHOR_BUDGET in *. cbn in *. lia.
  - exists cs. split; [done|]. split; [done|]. eapply Forall_impl; [exact Hcs|]. cbn.
    unfold saturating_add, U64_MAX, COUNTER_MAX, MAX_ANCHOR_BUDGET in *. lia.
Qed.

Lemma created_inv st h : created st h -> nonce_inv st.
Proof.
  intros (Hu & Hf & Hfid & Hre & Ha & (bud & Hbud & Hg) & Hc & Hi). split; [done|].
  rewrite Hg, Hc. split; [|split].
  - exists h. cbn [hc_slot hc_seq]. split; [apply Hf|]. split; [done|]. split; [|by left].
    split; [done|]. split; [done|]. rewrite Ha. done.
  - unfold gen_ok, main_gen_new, pending_anchor, saturating_sub, MAX_ANCHOR_BUDGET, U64_MAX. cbn.
    split; [done|]. lia.
  - rewrite Hi. exists []. split; [done|]. split; [constructor|constructor].
Qed.

Lemma nonce_step_inv st st' : nonce_step st st' -> nonce_inv st -> nonce_inv st'.
Proof.
  intros [] Hi.
  - by apply issue_inv.
  - by eapply written_inv.
  - by eapply torn_inv.
  - by eapply refreshed_inv.
  - by eapply reopened_inv.
Qed.

Lemma reachable_inv st0 h st : created st0 h -> rtc nonce_step st0 st -> nonce_inv st.
Proof.
  intros Hc Hr. apply created_inv in Hc. revert Hc.
  induction Hr as [|s1 s2 s3 Hs _ IH]; [done|]. intros Hi. by apply IH, (nonce_step_inv s1).
Qed.
End system.

Lemma nonces_distinct p cs :
  blen p = 6 -> NoDup cs -> Forall (fun c => 0 <= c <= COUNTER_MAX) cs ->
  NoDup (map (nonce_from_parts p) cs).
Proof.
  intros Hp Hnd Hcs. induction Hnd as [|c cs Hin _ IH]; cbn; [constructor|].
  apply Forall_cons in Hcs as [Hc Hcs]. apply NoDup_cons. split; [|by apply IH].
  intros Hm. apply list_elem_of_fmap in Hm as (c' & He & Hin').
  eapply Forall_forall in Hcs; [|exact Hin']. apply (f_equal nonce_counter) in He.
  rewrite !nonce_counter_parts in He by done. by subst.
Qed.

(** C10: from the creation of a store on, through any sequence of nonces issued,
    headers committed, anchors refreshed, header writes interrupted at any
    byte, crashes and reopens with any budgets, no nonce is issued twice under the file's
    identity; and acknowledging the pending anchor always reopens the window,
    until the counter itself is exhausted. *)
Theorem main_nonces_unique `{PrimitivesSpec} {F : Type} `{VfsFileSpec F}
    (kek : bytes) (cp : option bytes) (ps : Z) (fid : bytes) (realm : RealmId)
    (st0 st : NonceState F) (h : MainDbHeaderFields) :
  created kek cp ps fid realm st0 h -> rtc (nonce_step kek cp ps fid realm) st0 st ->
  NoDup (n_issued st) /\
  exists g, commit_anchor (n_gen st) (pending_anchor (n_gen st)) = Ok g /\
    (next (n_gen st) <= COUNTER_MAX -> 0 < budget (n_gen st) ->
     exists n g', next_nonce g = Ok (n, g')).
Proof.
  intros Hc Hr. pose proof (reachable_inv _ _ _ _ _ _ _ _ Hc Hr) as (_ & _ & Hg & (cs & -> & Hnd & Hcs)).
  split.
  - apply nonces_distinct; [|done|eapply Forall_impl; [exact Hcs|]; cbn; lia].
    destruct Hc as (_ & Hf & <- & _).
    assert (blen (file_id h) = 16) as Hl by apply Hf.
    apply (blen_take _ 6). lia.
  - destruct Hg as (_ & Ha & Hn & Hb). unfold commit_anchor.
    rewrite !(proj2 (Z.ltb_ge _ _)) by lia. cbn [orb]. eexists. split; [done|]. intros Hx Hbud.
    unfold next_nonce. cbn. rewrite (proj2 (Z.ltb_ge _ _)) by lia.
    unfold pending_anchor, saturating_sub, saturating_add, COUNTER_MAX, U64_MAX in *.
    rewrite (proj2 (Z.ltb_ge _ _)) by lia. by eexists _, _.
Qed.

#[local] Existing Instance toy_primitives.
#[local] Existing Instance toy_primitives_spec.

Lemma main_nonces_unique_witness :
  exists (st0 st : NonceState OpenFile),
    rtc (nonce_step (zeros 32) None 4096 (zeros 16) (zeros 16)) st0 st /\
    length (n_issued st) = 1%nat /\ NoDup (n_issued st).
Proof.
  set (h := set_anchor_seq sample_header 0 1).
  destruct (bootstrap_ok empty_file (zeros 32) None 4096 h) as (f & _ & Hu & Hf);
    [done|done|by apply set_anchor_seq_valid, conj; [apply sample_header_valid|..]|].
  set (st0 := mkNonceState f (main_gen_new (zeros 16) 1024) (mkHeaderCursor SlotA 1) []).
  set (n := nonce_from_parts (zeros 6) 1).
  set (st1 := mkNonceState f (mkMainDbNonceGen (zeros 6) 2 0 1024) (mkHeaderCursor SlotA 1) [n]).
  set (st2 := mkNonceState f (main_gen_recover (zeros 16) 0 8) (mkHeaderCursor SlotA 1) [n]).
  assert (rtc (nonce_step (zeros 32) None 4096 (zeros 16) (zeros 16)) st0 st2) as Hr.
  { eapply (rtc_l _ _ st1); [apply (issue (zeros 32) None 4096 (zeros 16) (zeros 16) st0 n); done|].
    eapply rtc_l; [|apply rtc_refl].
    apply (reopened (zeros 32) None 4096 (zeros 16) (zeros 16) st1 h SlotA true 8); [|done].
    apply (open_slots_ok f (zeros 32) None 4096 SlotA h false Hu Hf). done. }
  exists st0, st2. split; [exact Hr|]. split; [done|].
  apply (main_nonces_unique (zeros 32) None 4096 (zeros 16) (zeros 16) st0 st2 h); [|exact Hr].
  split; [exact Hu|]. split; [exact Hf|]. split; [done|]. split; [done|]. split; [done|].
  split; [exists 1024; split; done|]. split; done.
Defined.
