(* ===== verification/TxnState.v ===== *)
(** * TxnState: the state of a database handle

    [src/src/txn/db/core.rs], [pending.rs], [reader.rs], [txn/policy.rs],
    [options.rs]: the writer's state and the part of it a candidate commit
    advances, the published snapshot, tracked readers, the stall policy, poisoned
    handles, and the rows of the commit history. *)

From S2P Require Import Prelude Keys Errors PageFormat Node Store Overflow FreeList Layout StructuralHeader HeaderSlots Tree TreeWrite.
From Stdlib Require Import ZArith Lia.
From stdpp Require Import base list strings gmap.

Local Open Scope Z_scope.
Local Open Scope pagedb_scope.

(** ** Options *)

Inductive RetainPolicy :=
| Count (n : Z)
| Age (seconds : Z)
| Unbounded
| Disabled.

#[global] Instance RetainPolicy_eq_dec : EqDecision RetainPolicy.
Proof. solve_decision. Defined.

Definition RETAIN_POLICY_TAG_DISABLED : Z := 3.

Definition encode_retain_policy (policy : RetainPolicy) : Z * Z :=
  match policy with
  | Count n => (0, n)
  | Age d => (1, d)
  | Unbounded => (2, 0)
  | Disabled => (RETAIN_POLICY_TAG_DISABLED, 0)
  end.

Definition history_rows_abandoned (retain_tag history_root_page_id : Z) : bool :=
  (retain_tag =? RETAIN_POLICY_TAG_DISABLED) && negb (history_root_page_id =? 0).

Inductive ReaderStallPolicy := AbortOldest | Reject | StallUnbounded.

Definition page_size_log2 (page_size : Z) : result Z :=
  match page_size with
  | 4096 => Ok 12 | 8192 => Ok 13 | 16384 => Ok 14 | 32768 => Ok 15 | 65536 => Ok 16
  | _ => Err Unsupported
  end.

(** ** Rows of the commit history *)

Record CommitHistoryMeta := mkCommitHistoryMeta {
  hm_active_root_page_id : Z;
  hm_catalog_root_page_id : Z;
  hm_free_list_root_page_id : Z;
  hm_next_page_id : Z;
  hm_unix_seconds : Z;
}.

Definition encode_commit_meta (m : CommitHistoryMeta) : bytes :=
  le64 (hm_active_root_page_id m) ++ le64 (hm_catalog_root_page_id m) ++ le64 (hm_free_list_root_page_id m) ++
  le64 (hm_next_page_id m) ++ le64 (hm_unix_seconds m).

Definition decode_commit_meta (b : bytes) : result CommitHistoryMeta :=
  if blen b <? 40 then Err (catalog_row_invalid "commit_history.meta") else
  let! active := u64_le b 0 in
  let! catalog := u64_le b 8 in
  let! free_list := u64_le b 16 in
  let! next := u64_le b 24 in
  let! seconds := u64_le b 32 in
  Ok (mkCommitHistoryMeta active catalog free_list next seconds).

(** [u64::to_be_bytes] and [from_be_bytes] *)
Definition be64 (z : Z) : bytes := reverse (le64 z).
Definition of_be (b : bytes) : Z := of_le (reverse b).

Definition history_row_commit (key : bytes) : result Z :=
  if negb (blen key =? 8) then Err (catalog_row_invalid "commit_history.key") else Ok (of_be key).

(** ** Roots in the header *)

Definition encode_root_ref (page_id txn_id : Z) : bytes := le64 page_id ++ le64 txn_id.
Definition encode_free_list_root (head_page_id : Z) : bytes := le64 head_page_id ++ zeros 8.
Definition decode_free_list_root (raw : bytes) : Z := of_le (take 8 raw).

(** ** The writer *)

Record WriterState := mkWriterState {
  ws_root_page_id : Z;
  ws_next_page_id : Z;
  ws_latest_commit_id : Z;
  ws_catalog_root_page_id : Z;
  ws_catalog_root_txn_id : Z;
  ws_free_list_root_page_id : Z;
  ws_free_list_entries : option Z;
  ws_commit_history_root_page_id : Z;
  ws_commit_history_root_version : Z;
  ws_commit_history_count : option Z;
  ws_pending_apply_journal_id : bytes;
  ws_restore_mode : Z;
  ws_commit_retain_policy_tag : Z;
  ws_commit_retain_policy_value : Z;
}.

Record PendingWriterState := mkPendingWriterState {
  pw_next_page_id : Z;
  pw_commit_history_root_page_id : Z;
  pw_commit_history_root_version : Z;
  pw_commit_history_count : option Z;
}.

Definition capture (state : WriterState) : PendingWriterState :=
  mkPendingWriterState (ws_next_page_id state) (ws_commit_history_root_page_id state)
    (ws_commit_history_root_version state) (ws_commit_history_count state).

Definition publish (p : PendingWriterState) (s : WriterState) : WriterState :=
  mkWriterState (ws_root_page_id s) (pw_next_page_id p) (ws_latest_commit_id s)
    (ws_catalog_root_page_id s) (ws_catalog_root_txn_id s) (ws_free_list_root_page_id s)
    (ws_free_list_entries s) (pw_commit_history_root_page_id p) (pw_commit_history_root_version p)
    (pw_commit_history_count p) (ws_pending_apply_journal_id s) (ws_restore_mode s)
    (ws_commit_retain_policy_tag s) (ws_commit_retain_policy_value s).

Definition pending_with_next (next : Z) (p : PendingWriterState) : PendingWriterState :=
  mkPendingWriterState next (pw_commit_history_root_page_id p) (pw_commit_history_root_version p)
    (pw_commit_history_count p).
Definition pending_with_count (count : option Z) (p : PendingWriterState) : PendingWriterState :=
  mkPendingWriterState (pw_next_page_id p) (pw_commit_history_root_page_id p)
    (pw_commit_history_root_version p) count.

(** ** Readers *)

Record ReaderSnapshot := mkReaderSnapshot {
  rs_commit_id : Z;
  rs_root_page_id : Z;
  rs_next_page_id : Z;
  rs_catalog_root_page_id : Z;
  rs_free_list_root_page_id : Z;
  rs_free_list_entries : option Z;
  rs_commit_history_root_page_id : Z;
  rs_history_rows_abandoned : bool;
}.

(** The moment a reader began only feeds the statistics. *)
Record TrackedReader := mkTrackedReader {
  tr_entry_id : Z;
  tr_commit_id : CommitId;
  tr_root_page_id : Z;
  tr_next_page_id : Z;
  tr_catalog_root_page_id : Z;
  tr_non_abortable : bool;
}.

Definition snapshot_of (s : WriterState) : ReaderSnapshot :=
  mkReaderSnapshot (ws_latest_commit_id s) (ws_root_page_id s) (ws_next_page_id s)
    (ws_catalog_root_page_id s) (ws_free_list_root_page_id s) (ws_free_list_entries s)
    (ws_commit_history_root_page_id s)
    (history_rows_abandoned (ws_commit_retain_policy_tag s) (ws_commit_history_root_page_id s)).

Inductive HandlePoison :=
| Unpublished (commit : CommitId)
| HeaderOutcomeUnknown (commit : CommitId) (source : PagedbError).

(** ** The handle *)

(** What does not change while a handle is open. *)
Record DbConfig := mkDbConfig {
  dc_page_size : Z;
  dc_realm_id : RealmId;
  dc_cipher_id : Z;
  dc_flags : Z;
  dc_file_id : bytes;
  dc_kek_salt : bytes;
  dc_mk_epoch : Z;
  dc_retain : RetainPolicy;
  dc_stall_threshold : Z;
}.

(** [db_pages] are the pages a restart finds; while no write transaction is open
    they are the ones the pager shows. [db_header] is the header a restart
    selects, [db_cursor] its slot and sequence. *)
Record Db := mkDb {
  db_config : DbConfig;
  db_pages : Store;
  db_header : MainDbHeaderFields;
  db_cursor : HeaderCursor;
  db_stall_policy : ReaderStallPolicy;
  db_writer : WriterState;
  db_readers : list TrackedReader;
  db_reader_seq : Z;
  db_aborted : gset Z;
  db_snapshot : ReaderSnapshot;
  db_poisoned : option HandlePoison;
}.

Definition with_disk (pages : Store) (h : MainDbHeaderFields) (c : HeaderCursor) (d : Db) : Db :=
  mkDb (db_config d) pages h c (db_stall_policy d) (db_writer d) (db_readers d) (db_reader_seq d)
    (db_aborted d) (db_snapshot d) (db_poisoned d).
Definition with_writer (w : WriterState) (d : Db) : Db :=
  mkDb (db_config d) (db_pages d) (db_header d) (db_cursor d) (db_stall_policy d) w (db_readers d)
    (db_reader_seq d) (db_aborted d) (db_snapshot d) (db_poisoned d).
Definition with_readers (rs : list TrackedReader) (sq : Z) (d : Db) : Db :=
  mkDb (db_config d) (db_pages d) (db_header d) (db_cursor d) (db_stall_policy d) (db_writer d) rs sq
    (db_aborted d) (db_snapshot d) (db_poisoned d).
Definition with_aborted (a : gset Z) (d : Db) : Db :=
  mkDb (db_config d) (db_pages d) (db_header d) (db_cursor d) (db_stall_policy d) (db_writer d)
    (db_readers d) (db_reader_seq d) a (db_snapshot d) (db_poisoned d).
Definition with_snapshot (s : ReaderSnapshot) (d : Db) : Db :=
  mkDb (db_config d) (db_pages d) (db_header d) (db_cursor d) (db_stall_policy d) (db_writer d)
    (db_readers d) (db_reader_seq d) (db_aborted d) s (db_poisoned d).

Definition db_page_size (d : Db) : Z := dc_page_size (db_config d).
Definition db_retain (d : Db) : RetainPolicy := dc_retain (db_config d).

Definition set_reader_stall_policy (policy : ReaderStallPolicy) (d : Db) : Db :=
  mkDb (db_config d) (db_pages d) (db_header d) (db_cursor d) policy (db_writer d)
    (db_readers d) (db_reader_seq d) (db_aborted d) (db_snapshot d) (db_poisoned d).

Definition ensure_usable (d : Db) : result unit :=
  match db_poisoned d with
  | Some (Unpublished commit) => Err (DurablyCommittedButUnpublished commit)
  | Some (HeaderOutcomeUnknown commit source) => Err (CommitOutcomeUnknown commit source)
  | None => Ok tt
  end.

(** The first poison stands. *)
Definition poison_with (p : HandlePoison) (d : Db) : Db :=
  mkDb (db_config d) (db_pages d) (db_header d) (db_cursor d) (db_stall_policy d) (db_writer d)
    (db_readers d) (db_reader_seq d) (db_aborted d) (db_snapshot d)
    (match db_poisoned d with None => Some p | Some q => Some q end).
Definition poison (commit : CommitId) : Db -> Db := poison_with (Unpublished commit).

Definition publish_snapshot (state : WriterState) : Db -> Db := with_snapshot (snapshot_of state).

(** ** Read transactions *)

(** [rt_cached_root] is the guard on the root page with its kind. *)
Record ReadTxn := mkReadTxn {
  rt_commit_id : CommitId;
  rt_root_page_id : Z;
  rt_next_page_id : Z;
  rt_catalog_root_page_id : Z;
  rt_entry_id : Z;
  rt_cached_root : option (bytes * NodeKind.t);
}.

Definition register_read (commit : CommitId) (root next catalog : Z) (non_abortable : bool) (d : Db)
  : ReadTxn * Db :=
  let entry_id := db_reader_seq d in
  (mkReadTxn commit root next catalog entry_id None,
   with_readers (db_readers d ++ [mkTrackedReader entry_id commit root next catalog non_abortable])
     (entry_id + 1) d).

Definition register_snapshot (non_abortable : bool) (d : Db) : ReadTxn * Db :=
  let snap := db_snapshot d in
  register_read (rs_commit_id snap) (rs_root_page_id snap) (rs_next_page_id snap)
    (rs_catalog_root_page_id snap) non_abortable d.

Definition begin_read (d : Db) : result (ReadTxn * Db) :=
  let! _ := ensure_usable d in Ok (register_snapshot false d).
Definition begin_read_non_abortable (d : Db) : result (ReadTxn * Db) :=
  let! _ := ensure_usable d in Ok (register_snapshot true d).

Definition latest_commit (d : Db) : CommitId := rs_commit_id (db_snapshot d).

Definition history_disabled (d : Db) : bool := bool_decide (db_retain d = Disabled).

(** [pages] is what the pager shows. *)
Definition begin_read_at (pages : Store) (commit : CommitId) (d : Db) : result (ReadTxn * Db) :=
  let! _ := ensure_usable d in
  let snap := db_snapshot d in
  if commit =? rs_commit_id snap then Ok (register_snapshot false d) else
  let history_root := if history_disabled d || rs_history_rows_abandoned snap then 0
                      else rs_commit_history_root_page_id snap in
  if history_root =? 0 then Err (CommitGone commit (rs_commit_id snap)) else
  let tree := btree_open pages history_root (rs_next_page_id snap) (db_page_size d) in
  let! row := get tree (be64 commit) in
  match row with
  | Some value =>
      let! meta := decode_commit_meta value in
      Ok (register_read commit (hm_active_root_page_id meta) (hm_next_page_id meta)
            (hm_catalog_root_page_id meta) false d)
  | None =>
      let! key := first_key tree in
      let! oldest := match key with
                     | Some key => if negb (blen key =? 8) then Err (catalog_row_invalid "commit_history.key")
                                   else Ok (of_be key)
                     | None => Ok (rs_commit_id snap)
                     end in
      Err (CommitGone commit oldest)
  end.

(** The position of the reader, if it is tracked. *)
Definition unregister_read (entry_id : Z) (d : Db) : Db :=
  match list_find (fun r => tr_entry_id r = entry_id) (db_readers d) with
  | Some (pos, _) => with_readers (swap_remove (db_readers d) pos) (db_reader_seq d) d
  | None => d
  end.

Definition take_reader_abort (entry_id : Z) (d : Db) : bool * Db :=
  (bool_decide (entry_id ∈ db_aborted d), with_aborted (db_aborted d ∖ {[entry_id]}) d).

Definition check_abort (r : ReadTxn) (d : Db) : result unit * Db :=
  let '(taken, d) := take_reader_abort (rt_entry_id r) d in
  (if taken then Err Aborted else Ok tt, d).

Definition read_tree (pages : Store) (d : Db) (r : ReadTxn) : BTree :=
  btree_open pages (rt_root_page_id r) (rt_next_page_id r) (db_page_size d).
Definition read_catalog_tree (pages : Store) (d : Db) (r : ReadTxn) : BTree :=
  btree_open pages (rt_catalog_root_page_id r) (rt_next_page_id r) (db_page_size d).

Definition get_with_cached_root (t : BTree) (key : bytes) (body : bytes) (kind : NodeKind.t)
  : result (option bytes) :=
  if root_page_id t =? 0 then Ok None else get_from_node t key (root_page_id t) body kind.

Definition with_cached_root (c : bytes * NodeKind.t) (r : ReadTxn) : ReadTxn :=
  mkReadTxn (rt_commit_id r) (rt_root_page_id r) (rt_next_page_id r) (rt_catalog_root_page_id r)
    (rt_entry_id r) (Some c).

(** [ReadTxn::get]; the root stays pinned once it has been read. *)
Definition read_get (pages : Store) (key : bytes) (r : ReadTxn) (d : Db)
  : result (option bytes) * ReadTxn * Db :=
  let '(ok, d) := check_abort r d in
  match ok with
  | Err e => (Err e, r, d)
  | Panic => (Panic, r, d)
  | Ok _ =>
      if rt_root_page_id r =? 0 then (Ok None, r, d) else
      let tree := read_tree pages d r in
      match (match rt_cached_root r with Some c => Ok c | None => read_node_guard tree (rt_root_page_id r) end) with
      | Err e => (Err e, r, d)
      | Panic => (Panic, r, d)
      | Ok (body, kind) =>
          (get_with_cached_root tree key body kind, with_cached_root (body, kind) r, d)
      end
  end.

(** ** The stall policy *)

(** [readers.iter().map(|r| r.commit_id.0).min()] *)
Definition min_reader (d : Db) : option Z := iter_min (tr_commit_id <$> db_readers d).

(** [min_by_key]: the first of the smallest. *)
Fixpoint min_by_commit (rs : list TrackedReader) : option TrackedReader :=
  match rs with
  | [] => None
  | r :: rs =>
      match min_by_commit rs with
      | Some r' => Some (if tr_commit_id r' <? tr_commit_id r then r' else r)
      | None => Some r
      end
  end.

Definition evaluate_stall_policy (deferred_free_count : Z) (d : Db) : result unit * Db :=
  if deferred_free_count <=? dc_stall_threshold (db_config d) then (Ok tt, d) else
  match db_stall_policy d with
  | StallUnbounded => (Ok tt, d)
  | policy =>
      match min_reader d with
      | None => (Ok tt, d)
      | Some oldest_commit =>
          let backlog := Err (DeferredFreeBacklog deferred_free_count oldest_commit) in
          match policy with
          | Reject => (backlog, d)
          | _ =>
              match min_by_commit (filter (fun r => tr_non_abortable r = false) (db_readers d)) with
              | Some v => (Ok tt, with_aborted ({[tr_entry_id v]} ∪ db_aborted d) d)
              | None => (backlog, d)
              end
          end
      end
  end.

(** ** Retained history *)

Definition proves_unreadable_pages (e : PagedbError) : bool :=
  match e with
  | ChecksumFailure | IllegalPageKind | Corruption _ | MissingPersistedKey _ _ => true
  | Io "UnexpectedEof" => true
  | _ => false
  end.

Definition oldest_retained_history_commit (pages : Store) (ps root next : Z) : result (option Z) :=
  if root =? 0 then Ok None else
  let hist := btree_open pages root next ps in
  let! key := first_key hist in
  match key with
  | None => Ok None
  | Some key => let! c := history_row_commit key in Ok (Some c)
  end.

Definition history_rows_gone (d : Db) : bool :=
  history_disabled d ||
  history_rows_abandoned (ws_commit_retain_policy_tag (db_writer d)) (ws_commit_history_root_page_id (db_writer d)).

Definition history_reclamation_bound (d : Db) : result (option Z) :=
  let state := db_writer d in
  if history_rows_abandoned (ws_commit_retain_policy_tag state) (ws_commit_history_root_page_id state)
  then Ok None else
  match oldest_retained_history_commit (db_pages d) (db_page_size d)
          (ws_commit_history_root_page_id state) (ws_next_page_id state) with
  | Ok oldest =>
      let rekeyed := 0 <? dc_mk_epoch (db_config d) in
      Ok ((fun commit => if rekeyed then commit else saturating_add commit 1) <$> oldest)
  | Err e => if history_disabled d && proves_unreadable_pages e then Ok (Some 0) else Err e
  | Panic => Panic
  end.

(** [reclamation_floor], over the reader pin it scans first. *)
Definition reclamation_floor (d : Db) : result Z :=
  let! history_bound := history_reclamation_bound d in
  Ok (Z.min (default U64_MAX (min_reader d)) (default U64_MAX history_bound)).
