(* ===== verification/TxnWrite.v ===== *)
(** * TxnWrite: the write transaction

    [src/src/txn/write/txn.rs], [counter.rs]: beginning a transaction (the
    reclamation floor, the window of the free list, the sessions of both trees),
    the operations on data and catalog with the mark of an unfinished mutation, and
    aborting. The image and the page source the trees share are handed from one to
    the other. The spill files are left out. *)

From S2P Require Import Prelude Keys Errors PageFormat Node Store Overflow FreeList Catalog HeaderSlots Tree TreeWrite TxnState.
From Stdlib Require Import ZArith Lia.
From stdpp Require Import base list strings gmap.

Local Open Scope Z_scope.
Local Open Scope pagedb_scope.

Inductive SegmentSideEffect :=
| Promote (segment_id : bytes)
| Tombstone (segment_id : bytes) (tombstone_commit_id : option Z).

Record WriteTxn := mkWriteTxn {
  btree : BTree;
  catalog_tree : BTree;
  pending_segments : list SegmentSideEffect;
  mutation_pending : bool;
  free_set_loaded : list entry;
  old_chain_pages : list Z;
  retained_tail : ChainTail;
  reader_floor : Z;
}.

Definition with_trees (t c : BTree) (w : WriteTxn) : WriteTxn :=
  mkWriteTxn t c (pending_segments w) (mutation_pending w) (free_set_loaded w) (old_chain_pages w)
    (retained_tail w) (reader_floor w).
Definition with_segments (l : list SegmentSideEffect) (w : WriteTxn) : WriteTxn :=
  mkWriteTxn (btree w) (catalog_tree w) l (mutation_pending w) (free_set_loaded w) (old_chain_pages w)
    (retained_tail w) (reader_floor w).
Definition with_mark (b : bool) (w : WriteTxn) : WriteTxn :=
  mkWriteTxn (btree w) (catalog_tree w) (pending_segments w) b (free_set_loaded w) (old_chain_pages w)
    (retained_tail w) (reader_floor w).

(** ** Methods of the transaction *)

Definition T (A : Type) : Type := WriteTxn -> result A * WriteTxn.

Definition tret {A} (a : A) : T A := fun w => (Ok a, w).
Definition tlift {A} (r : result A) : T A := fun w => (r, w).
Definition tbind {A B} (m : T A) (k : A -> T B) : T B :=
  fun w => match m w with
           | (Ok a, w) => k a w
           | (Err e, w) => (Err e, w)
           | (Panic, w) => (Panic, w)
           end.
Definition tmodify (f : WriteTxn -> WriteTxn) : T unit := fun w => (Ok tt, f w).

Notation "'act!' x ':=' c 'in' k" := (tbind c (fun x => k))
  (at level 10, x name, c at level 100, k at level 200,
   format "'[v' 'act!'  x  ':='  c  'in' '/' k ']'") : pagedb_scope.

(** The trees of a transaction have one pager and one page source: [dst] with
    both as [src] left them. *)
Definition share (src dst : BTree) : BTree :=
  with_source (page_source src) (with_pages (fun _ => bt_pages src) dst).

(** A method of the data tree. The data tree always has the shared state. *)
Definition on_main {A} (m : M A) : T A := fun w =>
  let '(r, t) := m (btree w) in (r, with_trees t (catalog_tree w) w).
(** A method of the catalog tree. *)
Definition on_catalog {A} (m : M A) : T A := fun w =>
  let '(r, c) := m (share (btree w) (catalog_tree w)) in (r, with_trees (share c (btree w)) c w).

(** ** [begin] *)

Definition begin_txn (d : Db) : result WriteTxn :=
  let! _ := ensure_usable d in
  let guard := db_writer d in
  let reuse_threshold := ws_next_page_id guard in
  let! history_bound := history_reclamation_bound d in
  let floor := Z.min (default U64_MAX (min_reader d)) (default U64_MAX history_bound) in
  let! window := read_chain_prefix (db_pages d) (ws_free_list_root_page_id guard) WINDOW_PAGES in
  let pool := (filter (fun e : entry => e.1 < floor) (prefix_entries window)).*2 in
  let source := mkPageSource reuse_threshold pool ∅ in
  let tree root := btree_open_session (db_pages d) root (ws_next_page_id guard) (db_page_size d) source in
  Ok (mkWriteTxn (tree (ws_root_page_id guard)) (tree (ws_catalog_root_page_id guard)) [] false
        (prefix_entries window) (prefix_chain_pages window) (prefix_tail window)
        (default U64_MAX (min_reader d))).

(** ** The mark of an unfinished mutation *)

Definition ensure_mutations_finished : T unit := fun w =>
  (if mutation_pending w then Err WriteTxnInterrupted else Ok tt, w).

Definition start_mutation : T unit :=
  act! _ := ensure_mutations_finished in tmodify (with_mark true).

Definition start_insert (key value : bytes) : T unit :=
  act! _ := ensure_mutations_finished in
  act! _ := (fun w => (validate_insert_record_fits (btree w) key value, w)) in
  tmodify (with_mark true).

(** [let outcome = m; self.finish_mutation(&outcome); outcome] *)
Definition finish_mutation {A} (m : T A) : T A := fun w =>
  let '(outcome, w) := m w in
  (outcome, match outcome with Ok _ | Err AppendNotMonotonic => with_mark false w | _ => w end).

(** ** The data tree *)

(** The methods that take [&self]. *)
Definition reading {A} (f : BTree -> result A) : T A :=
  act! _ := ensure_mutations_finished in fun w => (f (btree w), w).

Definition txn_get (key : bytes) : T (option bytes) := reading (fun t => get t key).
Definition txn_get_range (key : bytes) (offset len : Z) : T (option bytes) :=
  reading (fun t => get_range t key offset len).
Definition txn_scan (start end_ : bytes) : T (list (bytes * bytes)) := reading (fun t => collect_range t start end_).
Definition txn_scan_from (start : bytes) (limit : nat) : T (list (bytes * bytes)) :=
  reading (fun t => collect_batch_from t start limit).
Definition txn_scan_prefix (prefix : bytes) : T (list (bytes * bytes)) := reading (fun t => scan_prefix t prefix).
Definition txn_scan_prefix_from (prefix start : bytes) (limit : nat) : T (list (bytes * bytes)) :=
  reading (fun t => collect_prefix_batch_from t prefix start limit).
Definition txn_scan_rev (start end_ : bytes) : T (list (bytes * bytes)) := reading (fun t => scan_rev t start end_).
Definition txn_scan_rev_from (before : option bytes) (limit : nat) : T (list (bytes * bytes)) :=
  reading (fun t => collect_rev_batch_before t before limit).
Definition txn_first_key : T (option bytes) := reading first_key.
Definition txn_last_key : T (option bytes) := reading last_key.

Definition txn_put (key value : bytes) : T unit :=
  act! _ := start_insert key value in finish_mutation (on_main (put key value)).
Definition txn_put_append (key value : bytes) : T unit :=
  act! _ := start_insert key value in finish_mutation (on_main (put_append key value)).
Definition txn_delete (key : bytes) : T bool :=
  act! _ := start_mutation in finish_mutation (on_main (tree_delete key)).

(** Every pair is validated before the first one is applied. *)
Fixpoint validate_pairs (t : BTree) (pairs : list (bytes * bytes)) : result unit :=
  match pairs with
  | [] => Ok tt
  | (key, value) :: pairs => let! _ := validate_insert_record_fits t key value in validate_pairs t pairs
  end.
Definition txn_put_batch (pairs : list (bytes * bytes)) : T unit :=
  act! _ := ensure_mutations_finished in
  act! _ := (fun w => (validate_pairs (btree w) pairs, w)) in
  act! _ := start_mutation in finish_mutation (on_main (put_batch pairs)).
Definition txn_delete_batch (keys : list bytes) : T unit :=
  act! _ := start_mutation in finish_mutation (on_main (delete_batch keys)).
Definition txn_delete_range (fuel : nat) (start end_ : bytes) : T Z :=
  act! _ := start_mutation in finish_mutation (on_main (delete_range fuel start end_)).

(** ** The catalog tree *)

Definition sync_allocator_to_catalog : T unit := tmodify (fun w =>
  let shared := Z.max (next_page_id (btree w)) (next_page_id (catalog_tree w)) in
  with_trees (btree w) (set_next_page_id shared (catalog_tree w)) w).
Definition sync_allocator_from_catalog : T unit := tmodify (fun w =>
  with_trees (set_next_page_id (next_page_id (catalog_tree w)) (btree w)) (catalog_tree w) w).

Definition catalog_get (key : bytes) : T (option bytes) := on_catalog (gets (fun t => get t key)).

Definition write_catalog_row (key value : bytes) : T unit :=
  act! _ := sync_allocator_to_catalog in
  act! _ := start_mutation in
  act! _ := finish_mutation (on_catalog (put key value)) in
  sync_allocator_from_catalog.

Section catalog.
Context (cfg : DbConfig).

(** [CounterRef]. Its write leaves the mark set on every error. *)
Definition counter_read (key : bytes) : T Z :=
  act! _ := ensure_mutations_finished in
  act! row := catalog_get key in
  match row with Some v => tlift (decode_counter v) | None => tret 0 end.
Definition counter_write (key : bytes) (value : Z) : T unit :=
  act! _ := sync_allocator_to_catalog in
  act! _ := tmodify (with_mark true) in
  act! _ := on_catalog (put key (encode_counter value)) in
  act! _ := tmodify (with_mark false) in
  sync_allocator_from_catalog.

(** [WriteTxn::counter] *)
Definition counter (name : bytes) : T bytes :=
  act! _ := ensure_mutations_finished in tlift (counter_key name).
Definition counter_get (name : bytes) : T Z :=
  act! key := counter name in counter_read key.
Definition counter_set (name : bytes) (value : Z) : T unit :=
  act! key := counter name in
  act! current := counter_read key in
  if value <? current then tlift (Err Aborted) else counter_write key value.
Definition counter_increment_by (name : bytes) (delta : Z) : T Z :=
  act! key := counter name in
  act! current := counter_read key in
  act! next := tlift (ok_or (checked_add current delta) NonceCounterExhausted) in
  act! _ := counter_write key next in
  tret next.

Fixpoint sum_segment_bytes (rows : list (bytes * bytes)) (committed : Z) : result Z :=
  match rows with
  | [] => Ok committed
  | (_, v) :: rows =>
      let! meta := decode_segment_meta v in
      sum_segment_bytes rows (saturating_add committed (sm_total_bytes meta))
  end.

Definition enforce_segment_bytes_quota (realm : RealmId) (new_bytes delta_remove_bytes : Z) : T unit :=
  act! row := catalog_get (quota_key realm) in
  act! quotas := tlift (match row with
                        | Some v => decode_realm_quotas v
                        | None => Ok (mkRealmQuotas None None None None)
                        end) in
  match max_segment_bytes quotas with
  | None => tret tt
  | Some limit =>
      act! rows := on_catalog (gets (fun t => scan_prefix t (to_u8 1 :: realm))) in
      act! committed := tlift (sum_segment_bytes rows 0) in
      let after_remove := saturating_sub committed delta_remove_bytes in
      let projected := saturating_add after_remove new_bytes in
      if limit <? projected then tlift (Err (Quota realm SegmentBytes projected limit)) else tret tt
  end.

Definition refuse_segment_from_another_epoch (meta : SegmentMeta) : T unit :=
  if negb (sm_mk_epoch meta =? dc_mk_epoch cfg)
  then tlift (Err (SegmentEpochStale (sm_mk_epoch meta) (dc_mk_epoch cfg))) else tret tt.

Definition push_segment (s : SegmentSideEffect) : T unit :=
  tmodify (fun w => with_segments (pending_segments w ++ [s]) w).

Definition link_segment (name : bytes) (meta : SegmentMeta) : T unit :=
  act! _ := ensure_mutations_finished in
  act! _ := refuse_segment_from_another_epoch meta in
  act! key := tlift (segment_key (dc_realm_id cfg) name) in
  act! row := catalog_get key in
  match row with
  | Some _ => tlift (Err AlreadyLinked)
  | None =>
      act! _ := enforce_segment_bytes_quota (sm_realm_id meta) (sm_total_bytes meta) 0 in
      act! _ := write_catalog_row key (encode_segment_meta meta) in
      push_segment (Promote (sm_segment_id meta))
  end.

Definition unlink_segment (name : bytes) : T unit :=
  act! _ := ensure_mutations_finished in
  act! key := tlift (segment_key (dc_realm_id cfg) name) in
  act! row := catalog_get key in
  act! value := tlift (ok_or row NotLinked) in
  act! meta := tlift (decode_segment_meta value) in
  act! _ := sync_allocator_to_catalog in
  act! _ := start_mutation in
  act! removed := finish_mutation (on_catalog (tree_delete key)) in
  act! _ := sync_allocator_from_catalog in
  if negb removed then tlift (Err NotLinked) else
  push_segment (Tombstone (sm_segment_id meta) None).

Definition replace_segment (name : bytes) (new_meta : SegmentMeta) : T unit :=
  act! _ := ensure_mutations_finished in
  act! _ := refuse_segment_from_another_epoch new_meta in
  act! key := tlift (segment_key (dc_realm_id cfg) name) in
  act! row := catalog_get key in
  act! existing := tlift (ok_or row NotLinked) in
  act! old_meta := tlift (decode_segment_meta existing) in
  act! _ := enforce_segment_bytes_quota (sm_realm_id new_meta) (sm_total_bytes new_meta) (sm_total_bytes old_meta) in
  act! _ := write_catalog_row key (encode_segment_meta new_meta) in
  act! _ := push_segment (Tombstone (sm_segment_id old_meta) None) in
  push_segment (Promote (sm_segment_id new_meta)).
End catalog.
