(* ===== verification/TxnCommit.v ===== *)
(** * TxnCommit: committing a write transaction

    [src/src/txn/write/commit.rs], [txn/db/catalog/history.rs],
    [history_policy.rs], the publication of [txn/db/core.rs] and [guards.rs]: the
    trees are materialized, the commit gets its history row, the window of the free
    list is rewritten, the pages are flushed, the header is written, and the new
    state is published. What the clock, the files and the environment answer is an
    argument ([Env]). *)

From S2P Require Import Prelude Keys Errors PageFormat Node Leaf Store Overflow FreeList StructuralHeader HeaderSlots Tree TreeWrite TreeWalk TxnState TxnWrite.
From Stdlib Require Import ZArith Lia.
From stdpp Require Import base list strings gmap.

Local Open Scope Z_scope.
Local Open Scope pagedb_scope.

(** ** What the environment answers *)

(** The flush of the main file: its result, the pages it left durable, and the
    header as the refreshes of the anchor left it. *)
Record FlushOutcome := mkFlushOutcome {
  fo_result : result unit;
  fo_pages : Store;
  fo_anchor : Z;
  fo_cursor : HeaderCursor;
}.

(** The header write: done, never begun, or failed with the new header durable
    after all or not. *)
Inductive HeaderOutcome :=
| HeaderWritten
| HeaderNotStarted (e : PagedbError)
| HeaderUnknown (e : PagedbError) (landed : bool).

Record Env := mkEnv {
  env_unix_seconds : Z;
  env_invariant_checks : bool;
  env_drain : gmap Z Leaf -> list (Z * Leaf);
  env_flush : FlushOutcome;
  env_pending_anchor : Z;
  env_header : HeaderOutcome;
  env_commit_anchor : result unit;
  env_reconcile : result unit;
}.

(** The image and the page source the trees share. *)
Record Shared := mkShared {
  sh_pages : Store;
  sh_cache : list Z;
  sh_consumed : gset Z;
}.

Definition shared_of (t : BTree) : Shared :=
  match page_source t with
  | Some s => mkShared (bt_pages t) (cache s) (consumed s)
  | None => mkShared (bt_pages t) [] ∅
  end.

(** ** The commit history *)

Definition HISTORY_PRUNE_BATCH : nat := 512.

(** The rounds of the loops over batches are bounded by [fuel]. *)
Fixpoint count_history_rows (fuel : nat) (tree : BTree) (total : Z) (cursor : bytes) : result Z :=
  match fuel with
  | O => Panic
  | S fuel =>
      let! batch := collect_batch_from tree cursor HISTORY_PRUNE_BATCH in
      match last batch with
      | None => Ok total
      | Some (last_key, _) =>
          let total := saturating_add total (Z.of_nat (length batch)) in
          if (length batch <? HISTORY_PRUNE_BATCH)%nat then Ok total
          else count_history_rows fuel tree total (last_key ++ [Byte.x00])
      end
  end.

Definition pinned (min_pinned : option Z) (commit : Z) : bool :=
  match min_pinned with Some min => min <=? commit | None => false end.

(** One batch of the oldest rows; [true] when the walk is over. *)
Fixpoint prune_rows (batch : list (bytes * bytes)) (excess : Z) (min_pinned : option Z) (deleted : Z)
  : M (Z * bool) :=
  match batch with
  | [] => ret (deleted, false)
  | (key, _) :: batch =>
      if excess <=? deleted then ret (deleted, true) else
      do! commit := lift (history_row_commit key) in
      if pinned min_pinned commit then ret (deleted, true) else
      do! removed := tree_delete key in
      prune_rows batch excess min_pinned (if (removed : bool) then saturating_add deleted 1 else deleted)
  end.

Fixpoint prune_oldest_history_rows (fuel : nat) (excess : Z) (min_pinned : option Z) (deleted : Z)
    (cursor : bytes) : M Z :=
  if excess <=? deleted then ret deleted else
  match fuel with
  | O => lift Panic
  | S fuel =>
      let want := Nat.min (Z.to_nat (excess - deleted)) HISTORY_PRUNE_BATCH in
      do! batch := gets (fun t => collect_batch_from t cursor want) in
      match last batch with
      | None => ret deleted
      | Some (last_key, _) =>
          let exhausted := (length batch <? want)%nat in
          do! '(deleted, stop) := prune_rows batch excess min_pinned deleted in
          if (stop : bool) then ret deleted else
          if exhausted then ret deleted else
          prune_oldest_history_rows fuel excess min_pinned deleted (last_key ++ [Byte.x00])
      end
  end.

(** One batch of rows that may be too old. *)
Fixpoint prune_aged_rows (batch : list (bytes * bytes)) (key : bytes) (threshold : Z)
    (min_pinned : option Z) (deleted : Z) : M (Z * bool) :=
  match batch with
  | [] => ret (deleted, false)
  | (k, v) :: batch =>
      if bool_decide (k = key) then ret (deleted, true) else
      do! cid := lift (history_row_commit k) in
      if pinned min_pinned cid then ret (deleted, true) else
      do! meta := lift (decode_commit_meta v) in
      if threshold <=? hm_unix_seconds meta then ret (deleted, true) else
      do! removed := tree_delete k in
      prune_aged_rows batch key threshold min_pinned
        (if (removed : bool) then saturating_add deleted 1 else deleted)
  end.

Fixpoint prune_aged (fuel : nat) (key : bytes) (threshold : Z) (min_pinned : option Z) (deleted : Z)
    (cursor : bytes) : M Z :=
  match fuel with
  | O => lift Panic
  | S fuel =>
      do! batch := gets (fun t => collect_batch_from t cursor HISTORY_PRUNE_BATCH) in
      match last batch with
      | None => ret deleted
      | Some (last_key, _) =>
          let exhausted := (length batch <? HISTORY_PRUNE_BATCH)%nat in
          do! '(deleted, stop) := prune_aged_rows batch key threshold min_pinned deleted in
          if (stop : bool) then ret deleted else
          if exhausted then ret deleted else
          prune_aged fuel key threshold min_pinned deleted (last_key ++ [Byte.x00])
      end
  end.

Definition bump (c : Z) (was_new : bool) : Z := if was_new then saturating_add c 1 else c.

(** The pruning of one policy: the number of rows it leaves, where it is known. *)
Definition prune_history (fuel : nat) (policy : RetainPolicy) (now : Z) (min_pinned : option Z)
    (key : bytes) (was_new : bool) (count : option Z) : M (option Z) :=
  match policy with
  | Unbounded => ret (if was_new then Some (saturating_add (default 0 count) 1) else count)
  | Count n =>
      do! total := gets (fun t => match count with
                                  | Some cached => Ok (bump cached was_new)
                                  | None => count_history_rows fuel t 0 []
                                  end) in
      let excess := saturating_sub total n in
      do! deleted := if excess =? 0 then ret 0
                     else prune_oldest_history_rows fuel excess min_pinned 0 [] in
      ret (Some (saturating_sub total deleted))
  | Age duration =>
      let threshold := saturating_sub now duration in
      do! deleted := prune_aged fuel key threshold min_pinned 0 [] in
      ret ((fun c => saturating_sub (bump c was_new) deleted) <$> count)
  | Disabled => ret count
  end.

Section history.
Context (e : Env) (d : Db).

(** The rows of a store are commits it has made. *)
Definition history_fuel (new_commit_id : Z) : nat := S (S (Z.to_nat new_commit_id)).

Definition write_commit_history_entry (sh : Shared) (state : PendingWriterState) (new_commit_id : Z)
    (meta : CommitHistoryMeta) : result (list Z * PendingWriterState * Shared) :=
  let min_pinned := min_reader d in
  let hist_tree := btree_open_session (sh_pages sh) (pw_commit_history_root_page_id state)
                     (pw_next_page_id state) (db_page_size d)
                     (mkPageSource 0 (sh_cache sh) (sh_consumed sh)) in
  let key := be64 new_commit_id in
  let value := encode_commit_meta meta in
  let '(r, hist_tree) :=
    (do! old := gets (fun t => get t key) in
     let was_new := negb (bool_decide (is_Some old)) in
     do! _ := put key value in
     do! count := prune_history (history_fuel new_commit_id) (db_retain d) (env_unix_seconds e) min_pinned key
                    was_new (pw_commit_history_count state) in
     do! _ := flush_dirty_leaves (env_drain e) in
     ret count) hist_tree in
  let! count := r in
  let '(freed, hist_tree) := drain_freed hist_tree in
  Ok (filter (fun p => 4 <= p) freed,
      mkPendingWriterState (Z.max (next_page_id hist_tree) (pw_next_page_id state))
        (root_page_id hist_tree) new_commit_id count,
      shared_of hist_tree).

(** The row of the commit before, where the history has lost it. *)
Definition write_missing_row (sh : Shared) (state : PendingWriterState) (previous : WriterState) (unix_seconds : Z)
  : result (list Z * PendingWriterState * Shared) :=
  if negb (pw_commit_history_root_page_id state =? 0) && negb (ws_latest_commit_id previous =? 0) then
    let history := btree_open (sh_pages sh) (pw_commit_history_root_page_id state)
                     (pw_next_page_id state) (db_page_size d) in
    let! row := get history (be64 (ws_latest_commit_id previous)) in
    match row with
    | Some _ => Ok ([], state, sh)
    | None =>
        write_commit_history_entry sh state (ws_latest_commit_id previous)
          (mkCommitHistoryMeta (ws_root_page_id previous) (ws_catalog_root_page_id previous)
             (ws_free_list_root_page_id previous) (ws_next_page_id previous) unix_seconds)
    end
  else Ok ([], state, sh).

Definition write_commit_history_rows (sh : Shared) (state : PendingWriterState) (previous : WriterState)
    (new_commit_id : Z) (meta : CommitHistoryMeta) : result (list Z * PendingWriterState * Shared) :=
  let! '(freed, state, sh) := write_missing_row sh state previous (hm_unix_seconds meta) in
  let! '(more, state, sh) := write_commit_history_entry sh state new_commit_id meta in
  Ok (freed ++ more, state, sh).

Definition droppable_history_pages (pages : Store) (root next : Z) : result (gset Z) :=
  match collect_all_page_ids (btree_open pages root next (db_page_size d)) ∅ with
  | Ok ids => Ok ids
  | Err er => if proves_unreadable_pages er then Ok ∅ else Err er
  | Panic => Panic
  end.

Definition drop_commit_history (pages : Store) (state : PendingWriterState)
  : result (list Z * PendingWriterState) :=
  let root := pw_commit_history_root_page_id state in
  if root =? 0 then Ok ([], state) else
  let! ids := droppable_history_pages pages root (pw_next_page_id state) in
  Ok (elements ids, mkPendingWriterState (pw_next_page_id state) 0 0 (Some 0)).
End history.

(** ** The candidate *)

(** All trees written to the image, the pages freed and reused, and the new
    entries of the window. *)
Record Candidate := mkCandidate {
  ca_shared : Shared;
  ca_root : Z;
  ca_catalog_root : Z;
  ca_pending : PendingWriterState;
  ca_entries : list entry;
  ca_hosts : list Z;
}.

(** Both trees are materialized before freed pages are accounted. *)
Definition materialize (e : Env) : T unit :=
  act! _ := on_main (flush_dirty_leaves (env_drain e)) in
  act! _ := sync_allocator_to_catalog in
  act! _ := on_catalog (flush_dirty_leaves (env_drain e)) in
  sync_allocator_from_catalog.

Definition commit_history (e : Env) (d : Db) (sh : Shared) (pending : PendingWriterState)
    (new_commit_id : Z) (meta : CommitHistoryMeta) : result (list Z * PendingWriterState * Shared) :=
  let! '(dropped, pending) :=
    if history_rows_gone d then drop_commit_history d (sh_pages sh) pending else Ok ([], pending) in
  if history_disabled d then Ok (dropped, pending, sh) else
  let! '(freed, pending, sh) := write_commit_history_rows e d sh pending (db_writer d) new_commit_id meta in
  Ok (dropped ++ freed, pending, sh).

Definition candidate (e : Env) (w : WriteTxn) (d : Db) : result Candidate :=
  let guard := db_writer d in
  let new_commit_id := ws_latest_commit_id guard + 1 in
  let '(r, w) := materialize e w in
  let! _ := r in
  let new_root := root_page_id (btree w) in
  let new_catalog_root := root_page_id (catalog_tree w) in
  let pending := pending_with_next
    (Z.max (next_page_id (btree w)) (next_page_id (catalog_tree w))) (capture guard) in
  let meta := mkCommitHistoryMeta new_root new_catalog_root (ws_free_list_root_page_id guard)
                (pw_next_page_id pending) (env_unix_seconds e) in
  let! '(hist_freed, pending, sh) :=
    commit_history e d (shared_of (btree w)) pending new_commit_id meta in
  let all_freed := filter (fun p => 4 <= p)
    ((drain_freed (btree w)).1 ++ (drain_freed (catalog_tree w)).1 ++ hist_freed) in
  let consumed := sh_consumed sh in
  let prior_free := filter (fun en : entry => ~ (en.2 ∈ consumed)) (free_set_loaded w) in
  let hosts := filter (fun p => ~ (p ∈ consumed)) (sh_cache sh) in
  let entries := prior_free ++ (pair new_commit_id <$> all_freed) ++
                 (pair CHAIN_METADATA_CID <$> old_chain_pages w) in
  Ok (mkCandidate sh new_root new_catalog_root pending entries hosts).

(** ** The opt-in structural invariant *)

Inductive FreedPageInvariantViolation :=
| DanglingPointer (commit_id : Z) (tree_name : string) (root : Z) (description : Dangling)
| Traversal (commit_id : Z) (tree_name : string) (root : Z) (error : PagedbError)
| ReachableFreed (commit_id page_id : Z).

Fixpoint walk_roots (pages : Store) (ps next commit_id : Z) (roots : list (string * Z)) (reachable : gset Z)
  : res FreedPageInvariantViolation (gset Z) :=
  match roots with
  | [] => Ok reachable
  | (tree_name, root) :: roots =>
      let tree := btree_open pages root next ps in
      match find_dangling tree with
      | Ok (Some description) => Err (DanglingPointer commit_id tree_name root description)
      | Ok None =>
          match collect_all_page_ids tree reachable with
          | Ok reachable => walk_roots pages ps next commit_id roots reachable
          | Err error => Err (Traversal commit_id tree_name root error)
          | Panic => Panic
          end
      | Err _ | Panic => Panic
      end
  end.

Definition assert_freed_pages_unreachable (pages : Store) (ps : Z) (roots : list (string * Z)) (next : Z)
    (freed : gset Z) (commit_id : Z) : res FreedPageInvariantViolation unit :=
  let! reachable := walk_roots pages ps next commit_id (filter (fun r => r.2 <> 0) roots) ∅ in
  match filter (fun p => p ∈ freed) (elements reachable) with
  | [] => Ok tt
  | page_id :: _ => Err (ReachableFreed commit_id page_id)
  end.

(** ** The header *)

Definition commit_fields (e : Env) (d : Db) (c : Candidate) (new_free_list_root new_next new_seq : Z)
  : result MainDbHeaderFields :=
  let guard := db_writer d in
  let cfg := db_config d in
  let new_commit_id := ws_latest_commit_id guard + 1 in
  let '(policy_tag, policy_value) := encode_retain_policy (db_retain d) in
  let! log2 := page_size_log2 (db_page_size d) in
  Ok (mkMainDbHeaderFields MAIN_FORMAT_VERSION (dc_cipher_id cfg) log2 (dc_flags cfg) (dc_file_id cfg)
        (dc_kek_salt cfg) (dc_mk_epoch cfg) new_seq (ca_root c) new_commit_id (env_pending_anchor e)
        new_commit_id (encode_free_list_root new_free_list_root)
        (encode_root_ref (ca_catalog_root c) new_commit_id) 0 0
        (pw_commit_history_root_page_id (ca_pending c)) (pw_commit_history_root_version (ca_pending c))
        (ws_restore_mode guard) new_next policy_tag policy_value (dc_realm_id cfg)).

(** The writer's state once the header is durable. *)
Definition committed_state (d : Db) (c : Candidate) (new_free_list_root new_free_list_entries new_next : Z)
  : WriterState :=
  let guard := publish (pending_with_next new_next (ca_pending c)) (db_writer d) in
  let new_commit_id := ws_latest_commit_id (db_writer d) + 1 in
  let '(policy_tag, policy_value) := encode_retain_policy (db_retain d) in
  mkWriterState (ca_root c) (ws_next_page_id guard) new_commit_id (ca_catalog_root c) new_commit_id
    new_free_list_root (Some new_free_list_entries) (ws_commit_history_root_page_id guard)
    (ws_commit_history_root_version guard) (ws_commit_history_count guard)
    (ws_pending_apply_journal_id guard) (ws_restore_mode guard) policy_tag policy_value.

(** ** Publication *)

Definition finish_durable_commit (e : Env) (state : WriterState) (commit : CommitId) (d : Db) : result unit * Db :=
  match env_commit_anchor e with
  | Err _ => (Err (DurablyCommittedButUnpublished commit), poison commit d)
  | Panic => (Panic, d)
  | Ok _ =>
      match env_reconcile e with
      | Ok _ => (Ok tt, publish_snapshot state d)
      | Err _ => (Err (DurablyCommittedButUnpublished commit), poison commit d)
      | Panic => (Panic, d)
      end
  end.

(** From the header write on. *)
Definition write_header (e : Env) (fields : MainDbHeaderFields) (state : WriterState) (commit : CommitId) (d : Db)
  : result CommitId * Db :=
  let cursor := mkHeaderCursor (other (hc_slot (db_cursor d))) (StructuralHeader.seq fields) in
  match env_header e with
  | HeaderNotStarted er => (Err er, d)
  | HeaderUnknown er landed =>
      (Err (CommitOutcomeUnknown commit er),
       poison_with (HeaderOutcomeUnknown commit er)
         (if landed then with_disk (db_pages d) fields cursor d else d))
  | HeaderWritten =>
      let d := with_writer state (with_disk (db_pages d) fields cursor d) in
      match finish_durable_commit e state commit d with
      | (Ok _, d) => (Ok commit, d)
      | (Err _, d) => (Err (DurablyCommittedButUnpublished commit), d)
      | (Panic, d) => (Panic, d)
      end
  end.

(** ** [commit_body] *)

(** The flush leaves durable pages and a refreshed header, whatever it returns. *)
Definition flush_main (e : Env) (d : Db) : result unit * Db :=
  let f := env_flush e in
  (fo_result f,
   with_disk (fo_pages f) (set_anchor_seq (db_header d) (fo_anchor f) (hc_seq (fo_cursor f))) (fo_cursor f) d).

Notation "'try!' x ':=' c 'or' d 'in' k" :=
  (match c with Ok x => k | Err er => (Err er, d) | Panic => (Panic, d) end)
  (at level 10, x name, c at level 100, d at level 9, k at level 200,
   format "'[v' 'try!'  x  ':='  c  'or'  d  'in' '/' k ']'") : pagedb_scope.
Notation "'try!' ' p ':=' c 'or' d 'in' k" :=
  (match c with Ok p => k | Err er => (Err er, d) | Panic => (Panic, d) end)
  (at level 10, p strict pattern, c at level 100, d at level 9, k at level 200,
   format "'[v' 'try!'  ' p  ':='  c  'or'  d  'in' '/' k ']'") : pagedb_scope.

(** From the new entries of the free list on. *)
Definition publish_candidate (e : Env) (w : WriteTxn) (c : Candidate) (d : Db) : result CommitId * Db :=
  let new_commit_id := ws_latest_commit_id (db_writer d) + 1 in
  let pages := sh_pages (ca_shared c) in
  let roots := [("data"%string, ca_root c); ("catalog"%string, ca_catalog_root c);
                ("commit-history"%string, pw_commit_history_root_page_id (ca_pending c))] in
  try! _ := (if env_invariant_checks e then
               match assert_freed_pages_unreachable pages (db_page_size d) roots (pw_next_page_id (ca_pending c))
                       (list_to_set (ca_entries c).*2) new_commit_id with
               | Ok _ => Ok tt
               | Err _ | Panic => Panic
               end
             else Ok tt) or d in
  try! '(new_free_list_root, new_next, pages) :=
    rewrite_chain (db_page_size d) pages (ca_entries c) (ca_hosts c) (pw_next_page_id (ca_pending c))
      (retained_tail w) or d in
  try! new_free_list_entries := count_chain pages new_free_list_root or d in
  let '(r, d) := flush_main e d in
  try! _ := r or d in
  try! new_seq := next_seq (db_cursor d) or d in
  try! fields := commit_fields e d c new_free_list_root new_next new_seq or d in
  write_header e fields (committed_state d c new_free_list_root new_free_list_entries new_next) new_commit_id d.

Definition commit (e : Env) (w : WriteTxn) (d : Db) : result CommitId * Db :=
  if mutation_pending w then (Err WriteTxnInterrupted, d) else
  try! c := candidate e w d or d in
  try! tail_stuck := count_at_or_above_floor (sh_pages (ca_shared c)) (tail_head (retained_tail w)) (reader_floor w) or d in
  let window_stuck := stuck (reader_floor w) (ca_entries c) in
  let '(r, d) := evaluate_stall_policy (saturating_add tail_stuck window_stuck) d in
  try! _ := r or d in
  publish_candidate e w c d.

(** Aborting drops the transaction with its image: the handle is as it was. *)
Definition abort (w : WriteTxn) (d : Db) : Db := d.

(** The pages the flush must make durable, against the environment's answer. *)
Definition candidate_pages (e : Env) (w : WriteTxn) (d : Db) : result Store :=
  let! c := candidate e w d in
  let! '(_, _, pages) :=
    rewrite_chain (db_page_size d) (sh_pages (ca_shared c)) (ca_entries c) (ca_hosts c)
      (pw_next_page_id (ca_pending c)) (retained_tail w) in
  Ok pages.
