(* ===== verification/TxnOpen.v ===== *)
(** * TxnOpen: creating a store and opening it again

    [src/src/txn/db/open/create.rs], [existing.rs], [recovery.rs]: the state of a
    fresh store, the state rebuilt from the selected header, and the free list as
    opening settles it. Resuming a rekey or an apply, repairing segment files and
    the check of the counter rows are left out. *)

From S2P Require Import Prelude Keys Errors PageFormat Node Store Overflow FreeList StructuralHeader HeaderSlots Tree TreeWrite TxnState.
From Stdlib Require Import ZArith Lia.
From stdpp Require Import base list strings gmap.

Local Open Scope Z_scope.
Local Open Scope pagedb_scope.

(** ** A fresh store *)

Definition initial_header (cfg : DbConfig) : result MainDbHeaderFields :=
  let! log2 := page_size_log2 (dc_page_size cfg) in
  Ok (mkMainDbHeaderFields MAIN_FORMAT_VERSION (dc_cipher_id cfg) log2 0 (dc_file_id cfg) (dc_kek_salt cfg)
        0 1 0 0 0 0 (zeros 16) (zeros 16) 0 0 0 0 0 4 0 0 (dc_realm_id cfg)).

(** ** The state a header describes *)

Definition writer_of_header (f : MainDbHeaderFields) : WriterState :=
  mkWriterState (active_root_page_id f) (StructuralHeader.next_page_id f) (commit_id f)
    (of_le (take 8 (catalog_root f))) (of_le (drop 8 (catalog_root f)))
    (decode_free_list_root (free_list_root f)) None
    (commit_history_root_page_id f) (commit_history_root_version f) None
    (le64 (apply_journal_root_page_id f) ++ le64 (apply_journal_root_version f))
    (restore_mode f) (commit_retain_policy_tag f) (commit_retain_policy_value f).

(** Opening takes the page size, the realm and the options; the rest is the header's. *)
Definition opened_config (cfg : DbConfig) (f : MainDbHeaderFields) : DbConfig :=
  mkDbConfig (dc_page_size cfg) (dc_realm_id cfg) (hdr_cipher_id f) (flags f) (file_id f) (kek_salt f) (mk_epoch f)
    (dc_retain cfg) (dc_stall_threshold cfg).

(** [open_existing_inner_with_counterpart], after the slot selection. *)
Definition open_state (cfg : DbConfig) (pages : Store) (f : MainDbHeaderFields) (slot : ActiveSlot) : Db :=
  let writer := writer_of_header f in
  mkDb (opened_config cfg f) pages f (mkHeaderCursor slot (StructuralHeader.seq f)) AbortOldest writer [] 0 ∅
    (snapshot_of writer) None.

(** ** The free list *)

(** [ChainWalk::advance] to the end. *)
Fixpoint walk_to_end (fuel : nat) (st : Store) (w : ChainWalk) : result unit :=
  match fuel with
  | O => Panic
  | S fuel =>
      let! '(visited, w) := advance st w in
      match visited with Some _ => walk_to_end fuel st w | None => Ok tt end
  end.

Definition writer_with_free_list (root : Z) (entries : option Z) (s : WriterState) : WriterState :=
  mkWriterState (ws_root_page_id s) (ws_next_page_id s) (ws_latest_commit_id s) (ws_catalog_root_page_id s)
    (ws_catalog_root_txn_id s) root entries (ws_commit_history_root_page_id s)
    (ws_commit_history_root_version s) (ws_commit_history_count s) (ws_pending_apply_journal_id s)
    (ws_restore_mode s) (ws_commit_retain_policy_tag s) (ws_commit_retain_policy_value s).

Definition drop_unreadable_free_list (d : Db) : Db :=
  let head := ws_free_list_root_page_id (db_writer d) in
  if head =? 0 then d else
  match walk_to_end (S (size (db_pages d))) (db_pages d) (new_walk head) with
  | Err e =>
      if proves_unreadable_pages e then
        let state := writer_with_free_list 0 (Some 0) (db_writer d) in
        publish_snapshot state (with_writer state d)
      else d
  | _ => d
  end.

Definition snapshot_with_entries (entries : option Z) (s : ReaderSnapshot) : ReaderSnapshot :=
  mkReaderSnapshot (rs_commit_id s) (rs_root_page_id s) (rs_next_page_id s) (rs_catalog_root_page_id s)
    (rs_free_list_root_page_id s) entries (rs_commit_history_root_page_id s) (rs_history_rows_abandoned s).

Definition publish_free_list_count (d : Db) : Db :=
  let state := db_writer d in
  let entries := match count_chain (db_pages d) (ws_free_list_root_page_id state) with
                 | Ok n => Some n | _ => None end in
  with_snapshot (snapshot_with_entries entries (db_snapshot d))
    (with_writer (writer_with_free_list (ws_free_list_root_page_id state) entries state) d).

(** ** Opening *)

Definition fresh_writer (f : MainDbHeaderFields) : WriterState :=
  mkWriterState 0 4 0 0 0 0 (Some 0) 0 0 (Some 0) (zeros 16) (restore_mode f) (commit_retain_policy_tag f)
    (commit_retain_policy_value f).

Definition create_db (cfg : DbConfig) : result Db :=
  let! h := initial_header cfg in
  let state := fresh_writer h in
  Ok (publish_snapshot state (with_writer state (open_state cfg ∅ h SlotA))).

(** Opening the files a handle leaves behind, however it ended, under [cfg]. *)
Definition reopen (cfg : DbConfig) (d : Db) : Db :=
  publish_free_list_count (drop_unreadable_free_list
    (open_state cfg (db_pages d) (db_header d) (hc_slot (db_cursor d)))).
