(* ===== verification/TxnShare.v ===== *)
(** * TxnShare: two trees over one page image

    The data tree and the catalog tree of a transaction draw pages from one source
    and write to one image. Each keeps its map while the other is changed. *)

From S2P Require Import Prelude Keys Errors PageFormat Node Leaf Internal Split Store Overflow Tree TreeWrite TreeRep TreeAlloc TreeCow TreePropagate TreePut TreeOps TreeBatch TreeSpec TreeFlush TreeSource TxnState TxnWrite.
From Stdlib Require Import ZArith Lia.
From stdpp Require Import base list strings gmap.

Local Open Scope Z_scope.
Local Open Scope pagedb_scope.

Abbreviation kv := (gmap bytes bytes).

(** ** Allocation *)

Lemma alloc_ok_room n n' t us P : alloc_ok n t us P -> next_page_id t + Z.of_nat n' <= 2 ^ 64 -> alloc_ok n' t us P.
Proof. unfold alloc_ok. intros (? & ? & ? & ? & ?) ?. split_and!; done. Qed.

(** Distinct page ids below the counter are at most as many. *)
Lemma bounded_length (l : list Z) a n : NoDup l -> 0 <= a -> (forall p, p ∈ l -> a <= p < n) -> Z.of_nat (length l) <= Z.max 0 (n - a).
Proof.
  intros Hnd Ha Hb. assert (length l <= length (seqZ a (n - a)))%nat as Hl.
  { apply submseteq_length, NoDup_submseteq; [done|]. intros p Hp%Hb. apply elem_of_seqZ. lia. }
  rewrite length_seqZ in Hl. lia.
Qed.
Lemma alloc_ok_length n t us P : alloc_ok n t us P -> Z.of_nat (length us) <= next_page_id t.
Proof.
  intros (Hnd & Hb & H4 & _). apply NoDup_app in Hnd as (_ & _ & Hnd).
  pose proof (bounded_length us 4 (next_page_id t) Hnd ltac:(lia)) as Hl. ospecialize (Hl _); [|lia].
  intros p Hp. apply Hb. mem.
Qed.

Section share.
Context (K : Z).

(** ** One tree, its allocation aside *)

(** The session [t] holds [m] in the pages [us]. *)
Definition part (t : BTree) (m : kv) (us : list Z) (P : gset Z) : Prop :=
  page_size_ok t /\ room K (page_size t) /\
  (root_page_id t = 0 /\ m = ∅ /\ us = [] /\ dirty_leaves t = ∅ /\ fresh_leaves t = ∅ /\
     scheduled_frees t = [] /\ dirty_parent_paths t = ∅ \/
   exists H kvs ids ch, us = ids ++ all_pages ch /\ rep K t H (root_page_id t) None None kvs ids /\
     small_values (page_size t) kvs /\ caches_wf t ids P /\ paths_ok t ids (root_page_id t) /\
     holds (bt_pages t) kvs ch m).

Lemma part_of_tree_map t H m X P n : tree_map K t H m X P n ->
  exists us, part t m us P /\ alloc_ok n t (us ++ X) P.
Proof.
  intros [(? & -> & ? & ? & Ha & ? & ? & ? & ?)|(kvs & ids & ch & [? ? ? ? Ha ? ?] & Hh)].
  - exists []. split; [|done]. split; [done|]. split; [done|]. by left.
  - exists (ids ++ all_pages ch). split; [|by rewrite <-app_assoc]. split; [done|]. split; [done|].
    right. by exists H, kvs, ids, ch.
Qed.

Lemma tree_map_of_part t m us X P n : part t m us P -> alloc_ok n t (us ++ X) P ->
  exists H, (H <= length us)%nat /\ tree_map K t H m X P n.
Proof.
  intros (Hps & Hroom & [(? & -> & -> & ? & ? & ? & ?)|(H & kvs & ids & ch & -> & Hr & ? & ? & ? & ?)]) Ha.
  - exists 0%nat. split; [done|]. left. done.
  - rewrite <-app_assoc in Ha. exists H. split.
    + pose proof (alloc_ok_nodup _ _ _ _ Ha) as (Hnd & _)%NoDup_app.
      destruct (rep_height K t H _ _ _ _ _ Hr Hnd) as (ps & <- & Hnp & Hin). rewrite length_app.
      assert (length ps <= length ids)%nat; [|lia]. apply submseteq_length, NoDup_submseteq; [done|]. naive_solver.
    + right. exists kvs, ids, ch. split; [|done]. by constructor.
Qed.

(** The tree does not depend on pages of others nor on the allocation state. *)
Lemma part_frame t t' m us P P' :
  part t m us P -> page_size t' = page_size t -> root_page_id t' = root_page_id t ->
  dirty_leaves t' = dirty_leaves t -> fresh_leaves t' = fresh_leaves t ->
  scheduled_frees t' = scheduled_frees t -> dirty_parent_paths t' = dirty_parent_paths t ->
  (forall p, p ∈ us -> bt_pages t' !! p = bt_pages t !! p) -> P' ⊆ P -> part t' m us P'.
Proof.
  intros (Hps & Hroom & Hc) E1 E2 E3 E4 E5 E6 Hpg HP. unfold part, page_size_ok. rewrite E1, E2, E3, E4, E5, E6.
  split; [done|]. split; [done|]. destruct Hc as [Hc|(H & kvs & ids & ch & -> & Hr & ? & Hcw & Hpo & Hh)]; [by left|right].
  assert (forall p, p ∈ ids -> same_at t t' p) as Hsame.
  { intros p Hp. unfold same_at. rewrite E3, E4. split; [apply Hpg; mem|done]. }
  exists H, kvs, ids, ch. split; [done|]. split; [by apply (rep_frame K t)|]. split; [done|]. split; [|split].
  - destruct Hcw as (? & Hc2 & ? & ?). unfold caches_wf, caches_in. rewrite E3, E4, E5, E6. split; [done|].
    split; [|done]. intros p Hp. destruct (Hc2 p Hp). split; [done|]. set_solver.
  - apply (paths_ok_frame t); try done; [|by rewrite E3]. intros a y [Hin _]. by apply Hsame.
  - eapply holds_frame; [|exact Hh]. intros p Hp. apply Hpg. mem.
Qed.

Lemma part_get t m us P key : part t m us P -> NoDup us -> ~ (0 ∈ us) -> get t key = Ok (m !! key).
Proof.
  intros (Hps & _ & [(Hr & -> & _)|(H & kvs & ids & ch & -> & Hr & _ & _ & _ & Hh)]) Hnd H0.
  - unfold get. by rewrite Hr.
  - apply NoDup_app in Hnd as (Hnd & _). rewrite (get_ok K t H kvs ids key Hps Hr Hnd); [by eapply holds_resolve|].
    intros ?. apply H0. mem.
Qed.

(** ** An operation on a map *)

(** [m] answers [a] and takes the map [m1] to [m2], with at most [cost] new pages. *)
Definition refines {A} (m : M A) (a : A) (m1 m2 : kv) (cost : nat -> nat) : Prop :=
  forall t H X P n, tree_map K t H m1 X P (cost H + n) -> OVERFLOW_ROOT_HEADER_LEN + ENVELOPE_OVERHEAD < page_size t ->
  exists t' H', m t = (Ok a, t') /\ tree_map K t' H' m2 X P n /\ page_size t' = page_size t /\ untouched t t' P X.

Definition monotone (cost : nat -> nat) : Prop := forall H H', (H <= H')%nat -> (cost H <= cost H')%nat.

Lemma put_refines key value m : blen key <= K -> blen value <= ISIZE_MAX ->
  refines (put key value) tt m (<[key := value]> m) (fun H => S (S (length value)) + (2 * H + 4))%nat.
Proof.
  intros HK HV t H X P n Htm Hps. rewrite <-Nat.add_assoc in Htm.
  destruct (put_map K t H m X P n key value Htm HK HV Hps) as (t' & H' & ? & ? & _ & ? & ?). by exists t', H'.
Qed.
Lemma delete_refines key m :
  refines (tree_delete key) (bool_decide (is_Some (m !! key))) m (delete key m) (fun _ => 1%nat).
Proof.
  intros t H X P n Htm Hps. destruct (delete_map K t H m X P n key Htm) as (t' & ? & ? & ? & Hb).
  exists t', H. split; [done|]. split; [done|]. split; [done|]. by apply untouched_refl.
Qed.
Lemma put_batch_refines pairs m : Forall (fun r => blen r.1 <= K /\ blen r.2 <= ISIZE_MAX) pairs ->
  refines (put_batch pairs) tt m (put_pairs pairs m) (fun H => puts_budget H pairs).
Proof.
  intros Hf t H X P n Htm Hps.
  destruct (put_batch_map K t H m X P n pairs Htm Hf Hps) as (t' & H' & ? & ? & _ & ? & ?). by exists t', H'.
Qed.
Lemma delete_batch_refines keys m :
  refines (delete_batch keys) tt m (delete_keys keys m) (fun _ => length keys).
Proof.
  intros t H X P n Htm Hps. destruct (delete_batch_map K t H m X P n keys Htm) as (t' & ? & ? & ? & Hb).
  exists t', H. split; [done|]. split; [done|]. split; [done|]. by apply untouched_refl.
Qed.

(** An operation on one tree of a transaction; [X] are the pages of everything else. *)
Lemma refines_part {A} (op : M A) a m1 m2 cost t us X P :
  refines op a m1 m2 cost -> monotone cost -> drawing op -> part t m1 us P -> alloc_ok 0 t (us ++ X) P ->
  OVERFLOW_ROOT_HEADER_LEN + ENVELOPE_OVERHEAD < page_size t ->
  next_page_id t + Z.of_nat (cost (length us)) <= 2 ^ 64 ->
  exists t' us', op t = (Ok a, t') /\ part t' m2 us' P /\ alloc_ok 0 t' (us' ++ X) P /\ page_size t' = page_size t /\
    (forall p, p ∈ P \/ p ∈ X -> bt_pages t' !! p = bt_pages t !! p) /\ draws t t'.
Proof.
  intros Hop Hmono Hd Hp Ha Hps Hn.
  destruct (tree_map_of_part t m1 us X P (cost (length us) + 0)%nat Hp) as (H & HH & Htm).
  { eapply alloc_ok_room; [exact Ha|lia]. }
  destruct (Hop t H X P 0%nat) as (t' & H' & Hrun & Htm' & Hz & Hu); [|done|].
  { eapply tree_map_le; [|exact Htm]. specialize (Hmono _ _ HH). lia. }
  destruct (part_of_tree_map _ _ _ _ _ _ Htm') as (us' & Hp' & Ha'). exists t', us'.
  split; [done|]. split; [done|]. split; [done|]. split; [done|]. split; [done|].
  specialize (Hd t). by rewrite Hrun in Hd.
Qed.

(** ** Trees on disk *)

(** Under [root] the image holds [m] in the pages [us]. *)
Definition sound (st : Store) (root ps : Z) (m : kv) (us : list Z) : Prop :=
  part (btree_open st root 4 ps) m us ∅.

Lemma caches_wf_none t ids P :
  dirty_leaves t = ∅ -> fresh_leaves t = ∅ -> scheduled_frees t = [] -> dirty_parent_paths t = ∅ ->
  caches_wf t ids P.
Proof.
  intros Hd Hf Hs Hp. unfold caches_wf, caches_in. rewrite Hd, Hf, Hs, Hp.
  split; [intros p [[? ?]|[? ?]]; done|]. split; [by intros p [? ?]|].
  split; [by rewrite map_to_list_empty|by rewrite !dom_empty_L].
Qed.

Lemma sound_part t m us P :
  sound (bt_pages t) (root_page_id t) (page_size t) m us ->
  dirty_leaves t = ∅ -> fresh_leaves t = ∅ -> scheduled_frees t = [] -> dirty_parent_paths t = ∅ ->
  part t m us P.
Proof.
  intros (Hps & Hroom & Hc) Hd Hf Hs Hp. split; [done|]. split; [done|]. simpl in Hc.
  destruct Hc as [Hc|(H & kvs & ids & ch & -> & Hr & ? & _ & _ & Hh)]; [left; naive_solver|right].
  exists H, kvs, ids, ch. split; [done|]. split.
  { apply (rep_frame K (btree_open (bt_pages t) (root_page_id t) 4 (page_size t))); [done| |done].
    intros p _. unfold same_at. simpl. by rewrite Hd, Hf. }
  split; [done|]. split; [by apply caches_wf_none|]. split; [|done]. intros leaf path. by rewrite Hp.
Qed.

Lemma sound_frame st st' root ps m us :
  (forall p, p ∈ us -> st' !! p = st !! p) -> sound st root ps m us -> sound st' root ps m us.
Proof. intros Hf Hs. by eapply part_frame; [exact Hs|..]. Qed.

Lemma sound_snapshot st root ps m us :
  sound st root ps m us -> NoDup us -> ~ (0 ∈ us) -> snapshot K st root ps m (list_to_set us).
Proof.
  intros (Hps & _ & [(? & -> & _)|(H & kvs & ids & ch & -> & Hr & _ & _ & _ & Hh)]) Hnd H0; [by left|right].
  exists H, kvs, ids, ch. apply NoDup_app in Hnd as (Hnd & _). split; [done|]. split; [done|]. split; [done|].
  split; [intros ?; apply H0; mem|]. split; [done|]. intros p. by rewrite elem_of_list_to_set.
Qed.

Lemma sound_nothing st ps : page_size_ok (btree_open st 0 4 ps) -> room K ps -> sound st 0 ps ∅ [].
Proof. intros. split; [done|]. split; [done|]. by left. Qed.

Lemma flush_empty drain t :
  (forall l : gmap Z Leaf, drain l ≡ₚ map_to_list l) -> dirty_leaves t = ∅ -> fresh_leaves t = ∅ ->
  flush_dirty_leaves drain t = (Ok tt, t).
Proof.
  intros Hdr Hd Hf. unfold flush_dirty_leaves, bind, gets, modify. rewrite Hf.
  assert (drain ∅ = []) as -> by (apply Permutation_nil; rewrite Hdr; by rewrite map_to_list_empty).
  simpl. replace (with_fresh (fun _ => ∅) t) with t by (destruct t; simpl in Hf; by subst).
  rewrite Hd. by rewrite bool_decide_true.
Qed.

(** After a flush the image alone holds the map; what the tree gave up is
    scheduled to be freed. *)
Lemma flush_part drain t m us X P :
  (forall l : gmap Z Leaf, drain l ≡ₚ map_to_list l) -> part t m us P -> alloc_ok 0 t (us ++ X) P ->
  next_page_id t + Z.of_nat (length us) <= 2 ^ 64 ->
  exists t' us', flush_dirty_leaves drain t = (Ok tt, t') /\
    sound (bt_pages t') (root_page_id t') (page_size t') m us' /\
    alloc_ok 0 t' (us' ++ scheduled_frees t' ++ X) P /\ page_size t' = page_size t /\
    (forall p, p ∈ P \/ p ∈ X -> bt_pages t' !! p = bt_pages t !! p) /\ draws t t' /\
    next_page_id t' <= next_page_id t + Z.of_nat (length us).
Proof.
  intros Hdr (Hps & Hroom & [(Hr & -> & -> & Hd & Hf & Hs & Hp)|(H & kvs & ids & ch & -> & Hr & Hsm & Hcw & Hpo & Hh)]) Ha Hn.
  { exists t, []. rewrite flush_empty by done. rewrite Hs, Hr. split; [done|]. split; [by apply sound_nothing|].
    split; [done|]. split; [done|]. split; [done|]. split; [apply draws_refl|simpl; lia]. }
  rewrite <-app_assoc in Ha. rewrite length_app in Hn |- *. set (n := Z.to_nat (2 ^ 64 - next_page_id t - Z.of_nat (length ids))).
  destruct (flush_ok K drain t H kvs ids (all_pages ch ++ X) P n Hdr) as (t' & ids' & Hrun & [Fd Ff Fp Frep Fa] & Hz & Hpg).
  { constructor; try done. eapply alloc_ok_room; [exact Ha|lia]. }
  exists t', (ids' ++ all_pages ch). split; [done|]. split.
  - unfold sound, part, page_size_ok. simpl. rewrite Hz. split; [done|]. split; [done|]. right.
    exists H, kvs, ids', ch. split; [done|]. split.
    { apply (rep_frame K t'); [done| |exact Frep]. intros q _. unfold same_at. simpl. by rewrite Fd, Ff. }
    split; [done|]. split; [by apply caches_wf_none|]. split; [intros leaf path; simpl; by rewrite lookup_empty|].
    eapply holds_frame; [|exact Hh]. intros p Hp. apply Hpg. right. mem.
  - split; [eapply alloc_ok_le; [|eapply alloc_ok_perm; [|done|exact Fa]; solve_Permutation]; lia|]. split; [done|].
    split; [intros p Hp; apply Hpg; destruct Hp; [by left|right; mem]|].
    pose proof (flush_draws drain t) as Hdw. rewrite Hrun in Hdw. split; [done|].
    destruct Fa as (_ & _ & _ & Hfn & _). unfold n in Hfn. lia.
Qed.

(** ** Both trees of a transaction *)

(** [t] and [c] hold [mt] and [mc] in the image and with the source [t] has; [X]
    are pages of others. *)
Record joint (t c : BTree) (mt mc : kv) (ut uc X : list Z) (P : gset Z) : Prop := mkJoint {
  joint_main : part t mt ut P;
  joint_catalog : part (share t c) mc uc P;
  joint_alloc : alloc_ok 0 t (ut ++ uc ++ freed c ++ freed_reusable c ++ X) P;
  joint_reserved : forall p, p ∈ P -> ~ (p ∈ freed_reusable c);
  joint_next : next_page_id c <= next_page_id t;
  joint_sizes : page_size c = page_size t;
  joint_overflow : OVERFLOW_ROOT_HEADER_LEN + ENVELOPE_OVERHEAD < page_size t;
}.

(** The allocation state passes from [t] to [c]. *)
Lemma alloc_handover n t c us X P :
  alloc_ok n t (us ++ freed c ++ freed_reusable c ++ X) P -> page_source c = page_source t ->
  next_page_id c = next_page_id t -> (forall p, p ∈ P -> ~ (p ∈ freed_reusable c)) ->
  alloc_ok n c (us ++ freed t ++ freed_reusable t ++ X) P.
Proof.
  intros (Hnd & Hb & H4 & Hn & HP) Es En Hr. unfold alloc_ok. rewrite En.
  set (s := match page_source t with Some s => cache s | None => [] end).
  assert (unused c ++ us ++ freed t ++ freed_reusable t ++ X ≡ₚ unused t ++ us ++ freed c ++ freed_reusable c ++ X) as Hperm.
  { unfold unused, avail. rewrite Es. fold s. solve_Permutation. }
  split; [by rewrite Hperm|]. split; [intros p; rewrite Hperm; apply Hb|]. split; [done|]. split; [done|].
  intros p Hp. destruct (HP p Hp) as (Hav & Hre & Hlt). unfold avail, is_reusable_in_session in *. rewrite Es. fold s in Hav |- *.
  split; [|done]. rewrite elem_of_app in Hav |- *. specialize (Hr p Hp). tauto.
Qed.

Lemma joint_run_main {A} (op : M A) a m1 m2 cost t c mc ut uc X P :
  refines op a m1 m2 cost -> monotone cost -> drawing op -> joint t c m1 mc ut uc X P ->
  next_page_id t + Z.of_nat (cost (length ut)) <= 2 ^ 64 ->
  exists t' ut', op t = (Ok a, t') /\ joint t' c m2 mc ut' uc X P /\ draws t t' /\
    (forall p, p ∈ P \/ p ∈ X -> bt_pages t' !! p = bt_pages t !! p).
Proof.
  intros Hop Hmono Hd [Hm Hc Ha Hr Hnx Hsz Hov] Hn.
  destruct (refines_part op a m1 m2 cost t ut _ P Hop Hmono Hd Hm Ha Hov Hn)
    as (t' & ut' & Hrun & Hp' & Ha' & Hz & Hu & Hdr).
  exists t', ut'. split; [done|]. split; [|split; [done|intros p Hp; apply Hu; destruct Hp; [by left|right; mem]]].
  destruct Hdr as (Hle & _). constructor; try done; [|lia|congruence|congruence].
  eapply part_frame; [exact Hc|done..| |done]. intros p Hp. simpl. apply Hu. right. mem.
Qed.

(** The catalog tree as [sync_allocator_to_catalog] and a method call leave it. *)
Definition to_catalog (t c : BTree) : BTree := share t (set_next_page_id (Z.max (next_page_id t) (next_page_id c)) c).
(** And the data tree after [sync_allocator_from_catalog]. *)
Definition from_catalog (c t : BTree) : BTree := set_next_page_id (next_page_id c) (share c t).

Lemma to_catalog_fields t c : next_page_id c <= next_page_id t ->
  next_page_id (to_catalog t c) = next_page_id t /\ page_source (to_catalog t c) = page_source t /\
  freed (to_catalog t c) = freed c /\ freed_reusable (to_catalog t c) = freed_reusable c /\
  page_size (to_catalog t c) = page_size c /\ bt_pages (to_catalog t c) = bt_pages t /\
  same_content (share t c) (to_catalog t c).
Proof.
  intros Hle. unfold to_catalog, set_next_page_id. destruct (Z.ltb_spec (next_page_id c) (next_page_id t `max` next_page_id c));
    simpl; split_and!; try done; try lia.
Qed.
Lemma from_catalog_fields t c : next_page_id t <= next_page_id c ->
  next_page_id (from_catalog c t) = next_page_id c /\ page_source (from_catalog c t) = page_source c /\
  freed (from_catalog c t) = freed t /\ freed_reusable (from_catalog c t) = freed_reusable t /\
  page_size (from_catalog c t) = page_size t /\ bt_pages (from_catalog c t) = bt_pages c /\
  same_content (share c t) (from_catalog c t).
Proof.
  intros Hle. unfold from_catalog, set_next_page_id. simpl.
  destruct (Z.ltb_spec (next_page_id t) (next_page_id c)); simpl; split_and!; try done; lia.
Qed.

Lemma part_same_content t t' m us P : part t m us P -> same_content t t' -> part t' m us P.
Proof. intros Hp (E1 & E2 & E3 & E4 & E5 & E6 & E7 & _). eapply part_frame; [exact Hp|done..|by rewrite E1|done]. Qed.

Lemma joint_to_catalog t c mt mc ut uc X P : joint t c mt mc ut uc X P ->
  let c1 := to_catalog t c in
  part c1 mc uc P /\ alloc_ok 0 c1 (uc ++ ut ++ freed t ++ freed_reusable t ++ X) P /\
  OVERFLOW_ROOT_HEADER_LEN + ENVELOPE_OVERHEAD < page_size c1.
Proof.
  intros [Hm Hc Ha Hr Hnx Hsz Hov] c1. subst c1.
  destruct (to_catalog_fields t c Hnx) as (En & Es & Ef & Efr & Ez & Eb & Hsc).
  split; [by eapply part_same_content|]. split; [|by rewrite Ez, Hsz].
  assert (alloc_ok 0 (to_catalog t c) ((ut ++ uc) ++ freed t ++ freed_reusable t ++ X) P) as Ha1.
  { apply alloc_handover; [rewrite Ef, Efr; by rewrite <-app_assoc|done|done|by rewrite Efr]. }
  eapply alloc_ok_perm; [|done|exact Ha1]. solve_Permutation.
Qed.

Lemma joint_run_catalog {A} (op : M A) a m1 m2 cost t c mt ut uc X P :
  refines op a m1 m2 cost -> monotone cost -> drawing op -> joint t c mt m1 ut uc X P ->
  next_page_id t + Z.of_nat (cost (length uc)) <= 2 ^ 64 ->
  exists c' uc', op (to_catalog t c) = (Ok a, c') /\ joint (from_catalog c' t) c' mt m2 ut uc' X P /\
    draws t (from_catalog c' t) /\
    (forall p, p ∈ P \/ p ∈ X -> bt_pages (from_catalog c' t) !! p = bt_pages t !! p).
Proof.
  intros Hop Hmono Hd Hj Hn. destruct (joint_to_catalog _ _ _ _ _ _ _ _ Hj) as (Hp1 & Ha1 & Hov1).
  destruct Hj as [Hm Hc Ha Hr Hnx Hsz Hov].
  destruct (to_catalog_fields t c Hnx) as (En & Es & Ef & Efr & Ez & Eb & Hsc).
  destruct (refines_part op a m1 m2 cost _ uc _ P Hop Hmono Hd Hp1 Ha1 Hov1) as (c' & uc' & Hrun & Hp' & Ha' & Hz & Hu & Hdr);
    [by rewrite En|].
  pose proof Hdr as (Hle & _ & Hsrc). rewrite En in Hle. destruct (from_catalog_fields t c' Hle) as (Fn & Fs & Ff & Ffr & Fz & Fb & Fsc).
  exists c', uc'. split; [done|]. split; [|split].
  - constructor.
    + eapply part_same_content; [|exact Fsc]. eapply part_frame; [exact Hm|done..| |done]. intros p Hp. simpl.
      rewrite <-Eb. apply Hu. right. mem.
    + eapply part_frame; [exact Hp'|done..| |done]. intros p _. simpl. by rewrite Fb.
    + assert (alloc_ok 0 (from_catalog c' t) ((ut ++ uc') ++ freed c' ++ freed_reusable c' ++ X) P) as Ha2;
        [|by rewrite <-app_assoc in Ha2].
      apply alloc_handover; [|done|done|].
      * rewrite Ff, Ffr. eapply alloc_ok_perm; [|done|exact Ha']. solve_Permutation.
      * intros p Hp. rewrite Ffr. destruct Ha as (_ & _ & _ & _ & HP). destruct (HP p Hp) as [Hav _].
        intros ?. apply Hav. unfold avail. mem.
    + intros p Hp Hin. destruct Ha' as (_ & _ & _ & _ & HP). destruct (HP p Hp) as [Hav _]. apply Hav. unfold avail. mem.
    + lia.
    + congruence.
    + by rewrite Fz.
  - split; [lia|]. split; [done|]. by rewrite Fs, <-Es.
  - intros p Hp. rewrite Fb, <-Eb. apply Hu. destruct Hp; [by left|right; mem].
Qed.

Lemma joint_pages t c mt mc ut uc X P : joint t c mt mc ut uc X P ->
  NoDup ut /\ NoDup uc /\ ~ (0 ∈ ut) /\ ~ (0 ∈ uc) /\ Z.of_nat (length ut) <= next_page_id t /\
  Z.of_nat (length uc) <= next_page_id t.
Proof.
  intros [_ _ Ha _ _ _ _]. pose proof (alloc_ok_length _ _ _ _ Ha) as Hl. rewrite !length_app in Hl.
  pose proof (alloc_ok_nodup _ _ _ _ Ha) as Hnd. apply NoDup_app in Hnd as (? & _ & Hnd). apply NoDup_app in Hnd as (? & _).
  assert (forall p, p ∈ ut \/ p ∈ uc -> 4 <= p) as Hb.
  { intros p Hp. apply (alloc_ok_bound _ _ _ _ p) in Ha; [lia|]. destruct Hp; mem. }
  split_and!; try done; try lia; intros Hz.
  - specialize (Hb 0 ltac:(by left)). lia.
  - specialize (Hb 0 ltac:(by right)). lia.
Qed.
End share.
