(* ===== verification/TxnOps.v ===== *)
(** * TxnOps: a write transaction implements two finite maps

    The operations of a transaction against a view of it: the data, the catalog and
    the segment files to promote or to tombstone. *)

From S2P Require Import Prelude Keys Errors PageFormat Node Leaf Internal Split Store Overflow FreeList Layout Catalog Tree TreeWrite TreeRep TreeAlloc TreeCow TreePropagate TreePut TreeOps TreeBatch TreeSpec TreeScan TreeScanOps TreeFlush TreeSource TxnState TxnWrite TxnShare.
From Stdlib Require Import ZArith Lia.
From stdpp Require Import base list strings gmap sorting.

Local Open Scope Z_scope.
Local Open Scope pagedb_scope.

(** ** The bindings of a map in key order *)

Definition bindings (m : kv) : list (bytes * bytes) :=
  merge_sort (fun x y => x.1 ≤ₖ y.1) (map_to_list m).

(** ** Operations *)

Inductive txn_op :=
| TxGet (key : bytes)
| TxScan (start end_ : bytes)
| TxScanRev (start end_ : bytes)
| TxScanFrom (start : bytes) (limit : nat)
| TxScanPrefix (prefix : bytes)
| TxPut (key value : bytes)
| TxDelete (key : bytes)
| TxPutBatch (pairs : list (bytes * bytes))
| TxDeleteBatch (keys : list bytes)
| TxCounterGet (name : bytes)
| TxCounterSet (name : bytes) (value : Z)
| TxCounterIncrement (name : bytes) (delta : Z)
| TxLink (name : bytes) (meta : SegmentMeta)
| TxUnlink (name : bytes)
| TxReplace (name : bytes) (meta : SegmentMeta).

Inductive txn_reply :=
| RUnit
| RFound (value : option bytes)
| RRows (rows : list (bytes * bytes))
| RExisted (b : bool)
| RNumber (z : Z).

Definition tmap {A B} (f : A -> B) (m : T A) : T B := act! a := m in tret (f a).
Definition RDone (_ : unit) : txn_reply := RUnit.

Definition run_txn_op (cfg : DbConfig) (o : txn_op) : T txn_reply :=
  match o with
  | TxGet key => tmap RFound (txn_get key)
  | TxScan start end_ => tmap RRows (txn_scan start end_)
  | TxScanRev start end_ => tmap RRows (txn_scan_rev start end_)
  | TxScanFrom start limit => tmap RRows (txn_scan_from start limit)
  | TxScanPrefix prefix => tmap RRows (txn_scan_prefix prefix)
  | TxPut key value => tmap RDone (txn_put key value)
  | TxDelete key => tmap RExisted (txn_delete key)
  | TxPutBatch pairs => tmap RDone (txn_put_batch pairs)
  | TxDeleteBatch keys => tmap RDone (txn_delete_batch keys)
  | TxCounterGet name => tmap RNumber (counter_get name)
  | TxCounterSet name value => tmap RDone (counter_set name value)
  | TxCounterIncrement name delta => tmap RNumber (counter_increment_by name delta)
  | TxLink name meta => tmap RDone (link_segment cfg name meta)
  | TxUnlink name => tmap RDone (unlink_segment cfg name)
  | TxReplace name meta => tmap RDone (replace_segment cfg name meta)
  end.

(** ** The view of a transaction *)

Record View := mkView {
  v_data : kv;
  v_catalog : kv;
  v_segments : list SegmentSideEffect;
}.
Definition on_data (m : kv) (v : View) : View := mkView m (v_catalog v) (v_segments v).
Definition on_rows (c : kv) (v : View) : View := mkView (v_data v) c (v_segments v).
Definition on_segments (l : list SegmentSideEffect) (v : View) : View :=
  mkView (v_data v) (v_catalog v) (v_segments v ++ l).

Definition spec_counter (c : kv) (name : bytes) : result (bytes * Z) :=
  let! key := counter_key name in
  match c !! key with
  | Some row => let! n := decode_counter row in Ok (key, n)
  | None => Ok (key, 0)
  end.

(** The bytes the segments of a realm take, and the quota they may take. *)
Definition spec_segment_bytes (c : kv) (realm : RealmId) : result Z :=
  sum_segment_bytes (filter (fun x : bytes * bytes => starts_with x.1 (to_u8 1 :: realm) = true) (bindings c)) 0.
Definition spec_quota (c : kv) (realm : RealmId) (new_bytes removed : Z) : result unit :=
  let! quotas := match c !! quota_key realm with
                 | Some v => decode_realm_quotas v
                 | None => Ok (mkRealmQuotas None None None None)
                 end in
  match max_segment_bytes quotas with
  | None => Ok tt
  | Some limit =>
      let! committed := spec_segment_bytes c realm in
      let projected := saturating_add (saturating_sub committed removed) new_bytes in
      if limit <? projected then Err (Quota realm SegmentBytes projected limit) else Ok tt
  end.

Definition spec_epoch (cfg : DbConfig) (meta : SegmentMeta) : result unit :=
  if sm_mk_epoch meta =? dc_mk_epoch cfg then Ok tt
  else Err (SegmentEpochStale (sm_mk_epoch meta) (dc_mk_epoch cfg)).

(** The new view, and the reply; an error leaves the view as it is. *)
Definition spec_txn_op (cfg : DbConfig) (o : txn_op) (v : View) : result (txn_reply * View) :=
  let m := v_data v in
  let c := v_catalog v in
  match o with
  | TxGet key => Ok (RFound (m !! key), v)
  | TxScan start end_ => Ok (RRows (filter (fun x : bytes * bytes => start ≤ₖ x.1 /\ x.1 <ₖ end_) (bindings m)), v)
  | TxScanRev start end_ =>
      Ok (RRows (reverse (filter (fun x : bytes * bytes => start ≤ₖ x.1 /\ x.1 <ₖ end_) (bindings m))), v)
  | TxScanFrom start limit => Ok (RRows (take limit (filter (fun x : bytes * bytes => start ≤ₖ x.1) (bindings m))), v)
  | TxScanPrefix prefix =>
      Ok (RRows (filter (fun x : bytes * bytes => starts_with x.1 prefix = true) (bindings m)), v)
  | TxPut key value => Ok (RUnit, on_data (<[key := value]> m) v)
  | TxDelete key => Ok (RExisted (bool_decide (is_Some (m !! key))), on_data (delete key m) v)
  | TxPutBatch pairs => Ok (RUnit, on_data (put_pairs pairs m) v)
  | TxDeleteBatch keys => Ok (RUnit, on_data (delete_keys keys m) v)
  | TxCounterGet name => let! '(_, n) := spec_counter c name in Ok (RNumber n, v)
  | TxCounterSet name value =>
      let! '(key, n) := spec_counter c name in
      if value <? n then Err Aborted else Ok (RUnit, on_rows (<[key := encode_counter value]> c) v)
  | TxCounterIncrement name delta =>
      let! '(key, n) := spec_counter c name in
      let! next := ok_or (checked_add n delta) NonceCounterExhausted in
      Ok (RNumber next, on_rows (<[key := encode_counter next]> c) v)
  | TxLink name meta =>
      let! _ := spec_epoch cfg meta in
      let! key := segment_key (dc_realm_id cfg) name in
      match c !! key with
      | Some _ => Err AlreadyLinked
      | None =>
          let! _ := spec_quota c (sm_realm_id meta) (sm_total_bytes meta) 0 in
          Ok (RUnit, on_segments [Promote (sm_segment_id meta)] (on_rows (<[key := encode_segment_meta meta]> c) v))
      end
  | TxUnlink name =>
      let! key := segment_key (dc_realm_id cfg) name in
      let! row := ok_or (c !! key) NotLinked in
      let! meta := decode_segment_meta row in
      Ok (RUnit, on_segments [Tombstone (sm_segment_id meta) None] (on_rows (delete key c) v))
  | TxReplace name meta =>
      let! _ := spec_epoch cfg meta in
      let! key := segment_key (dc_realm_id cfg) name in
      let! row := ok_or (c !! key) NotLinked in
      let! old := decode_segment_meta row in
      let! _ := spec_quota c (sm_realm_id meta) (sm_total_bytes meta) (sm_total_bytes old) in
      Ok (RUnit, on_segments [Tombstone (sm_segment_id old) None; Promote (sm_segment_id meta)]
                   (on_rows (<[key := encode_segment_meta meta]> c) v))
  end.

(** Keys of at most [K] bytes, values that fit memory. *)
Definition txn_op_ok (K : Z) (cfg : DbConfig) (o : txn_op) : Prop :=
  match o with
  | TxPut key value => blen key <= K /\ blen value <= ISIZE_MAX
  | TxPutBatch pairs => Forall (fun r => blen r.1 <= K /\ blen r.2 <= ISIZE_MAX) pairs
  | TxCounterSet name _ | TxCounterIncrement name _ => 1 + blen name <= K
  | TxLink name meta | TxReplace name meta =>
      1 + blen (dc_realm_id cfg) + blen name <= K /\ meta_ok meta
  | _ => True
  end.

(** The pages an operation may take, from trees of at most [n] pages. *)
Definition txn_op_cost (o : txn_op) (n : nat) : nat :=
  match o with
  | TxPut _ value => S (S (length value)) + (2 * n + 4)
  | TxDelete _ | TxUnlink _ => 1
  | TxPutBatch pairs => puts_budget n pairs
  | TxDeleteBatch keys => length keys
  | TxCounterSet _ _ | TxCounterIncrement _ _ => 10 + (2 * n + 4)
  | TxLink _ _ | TxReplace _ _ => 96 + (2 * n + 4)
  | _ => 0
  end.

(** ** Listings *)

#[local] Instance row_le_trans : Transitive (fun x y : bytes * bytes => x.1 ≤ₖ y.1).
Proof. intros x y z. apply key_le_trans. Qed.
#[local] Instance row_le_total : Total (fun x y : bytes * bytes => x.1 ≤ₖ y.1).
Proof.
  intros x y. destruct (key_trichotomy x.1 y.1) as [?|[->|?]];
    [left; by apply key_lt_le|left; apply key_le_refl|right; by apply key_lt_le].
Qed.

Lemma rows_strict (l : list (bytes * bytes)) :
  StronglySorted (fun x y : bytes * bytes => x.1 ≤ₖ y.1) l -> NoDup l.*1 -> keys_sorted l.*1.
Proof.
  induction 1 as [|x l _ IH Hx]; [constructor|]. rewrite fmap_cons. intros [Hni Hnd]%NoDup_cons.
  apply sorted_cons. split; [by apply IH|]. rewrite Forall_forall in Hx |- *. intros y Hy.
  pose proof (Hx y Hy) as Hle. apply key_le_lteq in Hle as [?|He]; [done|]. exfalso. apply Hni. rewrite He.
  apply list_elem_of_fmap. by exists y.
Qed.
Lemma bindings_lists m : lists (bindings m) m.
Proof.
  assert (bindings m ≡ₚ map_to_list m) as Hp by apply merge_sort_Permutation.
  assert (NoDup (bindings m).*1) as Hnd by (rewrite Hp; apply NoDup_fst_map_to_list). split.
  - apply rows_strict; [apply StronglySorted_merge_sort; apply _|done].
  - unfold rec_map. rewrite (list_to_map_proper _ (map_to_list m)); [apply list_to_map_to_list|done|done].
Qed.
Lemma bindings_unique bs m : lists bs m -> bs = bindings m.
Proof. intros Hl. eapply lists_unique; [exact Hl|apply bindings_lists]. Qed.

(** ** The state of a transaction *)

Section txn.
Context (K : Z).

Record txn_holds (w : WriteTxn) (v : View) (ut uc X : list Z) (P : gset Z) : Prop := mkTxnHolds {
  th_joint : joint K (btree w) (catalog_tree w) (v_data v) (v_catalog v) ut uc X P;
  th_mark : mutation_pending w = false;
  th_segments : pending_segments w = v_segments v;
}.

(** What [begin] has read of the free list. *)
Definition same_window (w w' : WriteTxn) : Prop :=
  free_set_loaded w' = free_set_loaded w /\ old_chain_pages w' = old_chain_pages w /\
  retained_tail w' = retained_tail w /\ reader_floor w' = reader_floor w.

Definition txn_moves (w w' : WriteTxn) (X : list Z) (P : gset Z) : Prop :=
  same_window w w' /\ draws (btree w) (btree w') /\
  (forall p, p ∈ P \/ p ∈ X -> bt_pages (btree w') !! p = bt_pages (btree w) !! p).

(** Without a change to the trees; [acts]: with at most [cost] new pages. *)
Definition quiet {A} (m : T A) (v : View) (r : result A) (v' : View) : Prop :=
  forall w ut uc X P, txn_holds w v ut uc X P ->
  exists w', m w = (r, w') /\ txn_holds w' v' ut uc X P /\ same_window w w' /\ btree w' = btree w.

Definition acts {A} (m : T A) (v : View) (r : result A) (v' : View) (cost : nat -> nat) : Prop :=
  forall w ut uc X P, txn_holds w v ut uc X P ->
  next_page_id (btree w) + Z.of_nat (cost (Z.to_nat (next_page_id (btree w)))) <= 2 ^ 64 ->
  exists w' ut' uc', m w = (r, w') /\ txn_holds w' v' ut' uc' X P /\ txn_moves w w' X P.

Lemma same_window_refl w : same_window w w.
Proof. done. Qed.
Lemma same_window_trans w1 w2 w3 : same_window w1 w2 -> same_window w2 w3 -> same_window w1 w3.
Proof. unfold same_window. intuition congruence. Qed.
Lemma txn_moves_same w w' X P : same_window w w' -> btree w' = btree w -> txn_moves w w' X P.
Proof. intros Hw E. split; [done|]. rewrite E. split; [apply draws_refl|done]. Qed.
Lemma txn_moves_trans w1 w2 w3 X P : txn_moves w1 w2 X P -> txn_moves w2 w3 X P -> txn_moves w1 w3 X P.
Proof.
  intros (? & ? & H1) (? & ? & H2). split; [by eapply same_window_trans|]. split; [by eapply draws_trans|].
  intros p Hp. by rewrite H2, H1.
Qed.

Lemma quiet_acts {A} (m : T A) v r v' cost : quiet m v r v' -> acts m v r v' cost.
Proof.
  intros Hm w ut uc X P Hw _. destruct (Hm w ut uc X P Hw) as (w' & ? & ? & ? & ?). exists w', ut, uc.
  split; [done|]. split; [done|]. by apply txn_moves_same.
Qed.
Lemma quiet_ret {A} (a : A) v : quiet (tret a) v (Ok a) v.
Proof. intros w ut uc X P Hw. by exists w. Qed.
Lemma quiet_lift {A} (r : result A) v : quiet (tlift r) v r v.
Proof. intros w ut uc X P Hw. by exists w. Qed.

Definition rbind {A B} (r : result A) (k : A -> result B) : result B :=
  match r with Ok a => k a | Err e => Err e | Panic => Panic end.

Lemma quiet_bind {A B} (m : T A) (k : A -> T B) v r (r' : A -> result B) v' :
  quiet m v r v -> (forall a, r = Ok a -> quiet (k a) v (r' a) v') -> (v' = v \/ exists a, r = Ok a) ->
  quiet (tbind m k) v (rbind r r') v'.
Proof.
  intros Hm Hk Hv w ut uc X P Hw. destruct (Hm w ut uc X P Hw) as (w1 & Hr & Hw1 & Hs1 & Hb1). unfold tbind. rewrite Hr.
  destruct r as [a|e|]; simpl; [|destruct Hv as [->|[? ?]]; [by exists w1|done]..].
  destruct (Hk a eq_refl w1 ut uc X P Hw1) as (w2 & Hr2 & Hw2 & Hs2 & Hb2). exists w2.
  split; [done|]. split; [done|]. split; [by eapply same_window_trans|congruence].
Qed.
Lemma quiet_then {A B} (m : T A) (k : A -> T B) v a v1 r v2 :
  quiet m v (Ok a) v1 -> quiet (k a) v1 r v2 -> quiet (tbind m k) v r v2.
Proof.
  intros Hm Hk w ut uc X P Hw. destruct (Hm w ut uc X P Hw) as (w1 & Hr & Hw1 & Hs1 & Hb1). unfold tbind. rewrite Hr.
  destruct (Hk w1 ut uc X P Hw1) as (w2 & Hr2 & Hw2 & Hs2 & Hb2). exists w2.
  split; [done|]. split; [done|]. split; [by eapply same_window_trans|congruence].
Qed.
Lemma acts_bind_quiet {A B} (m : T A) (k : A -> T B) v a v1 b v2 cost :
  acts m v (Ok a) v1 cost -> quiet (k a) v1 (Ok b) v2 -> acts (tbind m k) v (Ok b) v2 cost.
Proof.
  intros Hm Hk w ut uc X P Hw Hn. destruct (Hm w ut uc X P Hw Hn) as (w1 & ut' & uc' & Hr & Hw1 & Hm1).
  unfold tbind. rewrite Hr. destruct (Hk w1 ut' uc' X P Hw1) as (w2 & Hr2 & Hw2 & Hs2 & Hb2). exists w2, ut', uc'.
  split; [done|]. split; [done|]. eapply txn_moves_trans; [done|]. by apply txn_moves_same.
Qed.

(** ** Reading *)

Lemma share_back t c : share (share t c) t = t.
Proof. by destruct t. Qed.
Lemma share_twice t c : share t (share t c) = share t c.
Proof. done. Qed.

Lemma part_scans t m us P : part K t m us P -> NoDup us -> ~ (0 ∈ us) -> scans t (bindings m).
Proof.
  intros (Hps & _ & [(Hr & -> & _)|(H & kvs & ids & ch & -> & Hr & _ & _ & _ & Hh)]) Hnd H0; [by apply scans_empty|].
  apply NoDup_app in Hnd as (Hnd & _).
  destruct (rep_scans K t H kvs ids ch m Hps Hr Hnd) as (bs & Hl & Hs); [intros ?; apply H0; mem|done|].
  by rewrite <-(bindings_unique bs m).
Qed.

(** What the session and the catalog answer. *)
Definition answers (t : BTree) (m : kv) : Prop :=
  (forall key, get t key = Ok (m !! key)) /\ scans t (bindings m).

Lemma part_answers t m us P : part K t m us P -> NoDup us -> ~ (0 ∈ us) -> answers t m.
Proof. intros Hp Hnd H0. split; [intros key; by eapply part_get|by eapply part_scans]. Qed.

Lemma txn_answers w v ut uc X P : txn_holds w v ut uc X P ->
  answers (btree w) (v_data v) /\ answers (share (btree w) (catalog_tree w)) (v_catalog v).
Proof.
  intros [Hj _ _]. pose proof (joint_pages _ _ _ _ _ _ _ _ _ Hj) as (? & ? & ? & ? & _).
  destruct Hj as [Hm Hc _ _ _ _ _]. split; by eapply part_answers.
Qed.

Lemma quiet_finished v : quiet ensure_mutations_finished v (Ok tt) v.
Proof.
  intros w ut uc X P Hw. exists w. unfold ensure_mutations_finished. by rewrite (th_mark _ _ _ _ _ _ Hw).
Qed.

Lemma quiet_reading {A} (f : BTree -> result A) v r :
  (forall t, answers t (v_data v) -> f t = r) -> quiet (reading f) v r v.
Proof.
  intros Hf w ut uc X P Hw. exists w. unfold reading, tbind, ensure_mutations_finished.
  rewrite (th_mark _ _ _ _ _ _ Hw). destruct (txn_answers w v ut uc X P Hw) as [Hm _]. by rewrite (Hf _ Hm).
Qed.

Lemma quiet_catalog {A} (f : BTree -> result A) v r :
  (forall t, answers t (v_catalog v) -> f t = r) -> quiet (on_catalog (gets f)) v r v.
Proof.
  intros Hf w ut uc X P Hw. destruct (txn_answers w v ut uc X P Hw) as [_ Hc].
  unfold on_catalog, gets. rewrite (Hf _ Hc), share_back. eexists. split; [done|]. split; [|done].
  destruct Hw as [[? ? ? ? ? ? ?] ? ?]. constructor; [|done|done]. constructor; try done.
Qed.

Lemma quiet_get key v : quiet (catalog_get key) v (Ok (v_catalog v !! key)) v.
Proof. apply quiet_catalog. intros t [Hg _]. apply Hg. Qed.

(** ** Writing *)

Lemma room_cost (cost : nat -> nat) t (us : list Z) : monotone cost -> Z.of_nat (length us) <= next_page_id t ->
  next_page_id t + Z.of_nat (cost (Z.to_nat (next_page_id t))) <= 2 ^ 64 ->
  next_page_id t + Z.of_nat (cost (length us)) <= 2 ^ 64.
Proof. intros Hc Hl Hn. pose proof (Hc (length us) (Z.to_nat (next_page_id t)) ltac:(lia)). lia. Qed.

Lemma with_mark_same b w : mutation_pending w = b -> with_mark b w = w.
Proof. intros <-. by destruct w. Qed.

Lemma acts_main {A} (op : M A) a v m2 cost :
  refines K op a (v_data v) m2 cost -> monotone cost -> drawing op ->
  acts (act! _ := start_mutation in finish_mutation (on_main op)) v (Ok a) (on_data m2 v) cost.
Proof.
  intros Hop Hmono Hd w ut uc X P [Hj Hmk Hsg] Hn.
  pose proof (joint_pages _ _ _ _ _ _ _ _ _ Hj) as (_ & _ & _ & _ & Hl & _).
  destruct (joint_run_main K op a _ m2 cost _ _ _ _ _ _ _ Hop Hmono Hd Hj) as (t' & ut' & Hrun & Hj' & Hdr & Hu);
    [by apply room_cost|].
  unfold tbind, start_mutation, ensure_mutations_finished, tmodify, finish_mutation, on_main, tbind. rewrite Hmk. simpl. rewrite Hrun.
  eexists _, ut', uc. split; [done|]. split; [by constructor|]. split; [done|]. by split.
Qed.

(** A catalog operation between the hand-overs of the allocator. *)
Definition catalog_write {A} (op : M A) : T A :=
  act! _ := sync_allocator_to_catalog in
  act! _ := start_mutation in
  act! a := finish_mutation (on_catalog op) in
  act! _ := sync_allocator_from_catalog in tret a.

Lemma acts_catalog {A} (op : M A) a v m2 cost :
  refines K op a (v_catalog v) m2 cost -> monotone cost -> drawing op ->
  acts (catalog_write op) v (Ok a) (on_rows m2 v) cost.
Proof.
  intros Hop Hmono Hd w ut uc X P [Hj Hmk Hsg] Hn.
  pose proof (joint_pages _ _ _ _ _ _ _ _ _ Hj) as (_ & _ & _ & _ & _ & Hl).
  destruct (joint_run_catalog K op a _ m2 cost _ _ _ _ _ _ _ Hop Hmono Hd Hj) as (c' & uc' & Hrun & Hj' & Hdr & Hu);
    [by apply room_cost|]. unfold to_catalog in Hrun.
  unfold catalog_write, tbind, sync_allocator_to_catalog, start_mutation, ensure_mutations_finished, tmodify, finish_mutation,
    on_catalog, sync_allocator_from_catalog, tbind, tret. cbn [mutation_pending with_trees]. rewrite Hmk. cbn [btree catalog_tree with_mark with_trees].
  rewrite Hrun. eexists _, ut, uc'. split; [done|]. cbn. split; [by constructor|]. split; [done|]. by split.
Qed.

(** The same, written out. *)
Lemma catalog_write_then {A B} (op : M A) (k : A -> T B) w :
  (act! _ := sync_allocator_to_catalog in
   act! _ := start_mutation in
   act! a := finish_mutation (on_catalog op) in
   act! _ := sync_allocator_from_catalog in k a) w = tbind (catalog_write op) k w.
Proof.
  unfold catalog_write, tbind, sync_allocator_to_catalog, sync_allocator_from_catalog, tmodify, tret.
  destruct (start_mutation _) as [[| |] w1]; [|done..]. by destruct (finish_mutation _ w1) as [[| |] w2].
Qed.
Lemma write_catalog_row_eq key value w : write_catalog_row key value w = catalog_write (put key value) w.
Proof.
  unfold write_catalog_row, catalog_write, tbind, sync_allocator_to_catalog, sync_allocator_from_catalog, tmodify, tret.
  destruct (start_mutation _) as [[| |] w1]; [|done..]. by destruct (finish_mutation _ w1) as [[[]| |] w2].
Qed.
Lemma counter_write_eq key value w w' : mutation_pending w = false ->
  catalog_write (put key (encode_counter value)) w = (Ok tt, w') -> counter_write key value w = (Ok tt, w').
Proof.
  intros Hmk. unfold counter_write, catalog_write, tbind, sync_allocator_to_catalog, sync_allocator_from_catalog,
    start_mutation, ensure_mutations_finished, finish_mutation, tmodify, tret, tbind. cbn [mutation_pending with_trees]. rewrite Hmk.
  destruct (on_catalog _ _) as [[[]| |] w2]; [done| |done]. by destruct e.
Qed.

(** ** The operations *)

Definition spec_reply {A} (r : result (A * View)) : result A := rbind r (fun x => Ok x.1).
Definition spec_view {A} (v : View) (r : result (A * View)) : View :=
  match r with Ok (_, v') => v' | _ => v end.

(** [m] does what [spec] says. *)
Definition does {A} (m : T A) (v : View) (spec : result (A * View)) (cost : nat -> nat) : Prop :=
  acts m v (spec_reply spec) (spec_view v spec) cost.

Lemma does_tmap {A B} (f : A -> B) (m : T A) v spec spec' cost :
  does m v spec cost -> spec' = rbind spec (fun x => Ok (f x.1, x.2)) -> does (tmap f m) v spec' cost.
Proof.
  intros Hm -> w ut uc X P Hw Hn. destruct (Hm w ut uc X P Hw Hn) as (w' & ut' & uc' & Hr & Hw' & Hmv). exists w', ut', uc'.
  unfold tmap, tbind. rewrite Hr. by destruct spec as [[a v']| |].
Qed.
Lemma does_quiet {A} (m : T A) v r cost : quiet m v r v -> does m v (rbind r (fun a => Ok (a, v))) cost.
Proof. intros Hm. apply (quiet_acts _ _ _ _ cost) in Hm. unfold does. by destruct r. Qed.
(** A read in front. *)
Lemma does_read {A B} (m : T A) (k : A -> T B) v r spec cost :
  quiet m v r v ->
  match r with Ok a => does (k a) v spec cost | Err e => spec = Err e | Panic => spec = Panic end ->
  does (tbind m k) v spec cost.
Proof.
  intros Hm Hk w ut uc X P Hw Hn. destruct (Hm w ut uc X P Hw) as (w1 & Hr & Hw1 & Hs1 & Hb1). unfold tbind. rewrite Hr.
  destruct r as [a|e|]; simpl; [|subst; exists w1, ut, uc; split; [done|]; split; [done|]; by apply txn_moves_same..].
  destruct (Hk w1 ut uc X P Hw1) as (w2 & ut' & uc' & Hr2 & Hw2 & Hm2); [by rewrite Hb1|]. exists w2, ut', uc'.
  split; [done|]. split; [done|]. eapply txn_moves_trans; [by apply txn_moves_same|done].
Qed.
Lemma does_ok {A} (m : T A) v a v' cost : acts m v (Ok a) v' cost -> does m v (Ok (a, v')) cost.
Proof. done. Qed.

Lemma quiet_push l v : quiet (push_segment l) v (Ok tt) (on_segments [l] v).
Proof.
  intros w ut uc X P [[? ? ? ? ? ? ?] Hmk Hsg]. eexists. split; [done|]. split; [|done].
  constructor; [by constructor|done|]. simpl. by rewrite Hsg.
Qed.

Lemma mono_put n : monotone (fun H => n + (2 * H + 4))%nat.
Proof. intros H H'. lia. Qed.

Lemma mono_const n : monotone (fun _ => n).
Proof. by intros H H'. Qed.

Lemma acts_catalog_put key value v n :
  blen key <= K -> blen value <= ISIZE_MAX -> (S (S (length value)) <= n)%nat ->
  acts (catalog_write (put key value)) v (Ok tt) (on_rows (<[key := value]> (v_catalog v)) v)
    (fun H => n + (2 * H + 4))%nat.
Proof.
  intros HK HV Hn. apply acts_catalog; [|apply mono_put|apply put_draws].
  intros t H X P m Htm Hps. destruct (put_refines K key value (v_catalog v) HK HV t H X P m) as (t' & H' & ?); [|done|by exists t', H'].
  eapply tree_map_le; [|exact Htm]. lia.
Qed.
Lemma acts_put_row key value v n :
  blen key <= K -> blen value <= ISIZE_MAX -> (S (S (length value)) <= n)%nat ->
  acts (write_catalog_row key value) v (Ok tt) (on_rows (<[key := value]> (v_catalog v)) v)
    (fun H => n + (2 * H + 4))%nat.
Proof.
  intros HK HV Hn w ut uc X P Hw Hr. rewrite write_catalog_row_eq. exact (acts_catalog_put key value v n HK HV Hn w ut uc X P Hw Hr).
Qed.
Lemma acts_counter_write key value v :
  blen key <= K ->
  acts (counter_write key value) v (Ok tt) (on_rows (<[key := encode_counter value]> (v_catalog v)) v)
    (fun H => 10 + (2 * H + 4))%nat.
Proof.
  intros HK w ut uc X P Hw Hr.
  destruct (acts_catalog_put key (encode_counter value) v 10 HK ltac:(done) ltac:(done) w ut uc X P Hw Hr)
    as (w' & ut' & uc' & Hrun & Hw' & Hm).
  exists w', ut', uc'. split; [|done]. apply counter_write_eq; [by destruct Hw|done].
Qed.

Lemma quiet_counter_read key v :
  quiet (counter_read key) v (match v_catalog v !! key with Some r => decode_counter r | None => Ok 0 end) v.
Proof.
  eapply (quiet_bind _ _ _ (Ok tt) (fun _ => _)); [apply quiet_finished| |by left]. intros _ _. simpl.
  eapply (quiet_bind _ _ _ (Ok _) (fun _ => _)); [apply quiet_get| |by left]. intros row [= <-].
  destruct (v_catalog v !! key); [apply quiet_lift|apply quiet_ret].
Qed.
Lemma quiet_counter name v : quiet (counter name) v (counter_key name) v.
Proof.
  eapply (quiet_bind _ _ _ (Ok tt) (fun _ => _)); [apply quiet_finished| |by left]. intros _ _. apply quiet_lift.
Qed.

Lemma quiet_quota v realm new_bytes removed :
  quiet (enforce_segment_bytes_quota realm new_bytes removed) v (spec_quota (v_catalog v) realm new_bytes removed) v.
Proof.
  unfold enforce_segment_bytes_quota, spec_quota.
  eapply (quiet_bind _ _ _ (Ok _) (fun _ => _)); [apply quiet_get| |by left]. intros row [= <-].
  eapply quiet_bind; [apply quiet_lift| |by left]. intros quotas _.
  destruct (max_segment_bytes quotas) as [limit|]; [|apply quiet_ret].
  eapply (quiet_bind _ _ _ (Ok _) (fun _ => _)); [apply quiet_catalog| |by left].
  { intros t [_ (_ & _ & _ & Hs & _)]. apply Hs. }
  intros rows [= <-]. eapply quiet_bind; [apply quiet_lift| |by left]. intros committed _. cbv zeta.
  destruct (_ <? _); [apply quiet_lift|apply quiet_ret].
Qed.

Lemma quiet_epoch cfg meta v : quiet (refuse_segment_from_another_epoch cfg meta) v (spec_epoch cfg meta) v.
Proof.
  unfold refuse_segment_from_another_epoch, spec_epoch. destruct (_ =? _); [apply quiet_ret|apply quiet_lift].
Qed.

Lemma txn_validates w v ut uc X P key value : txn_holds w v ut uc X P -> blen key <= K -> blen value <= ISIZE_MAX ->
  validate_insert_record_fits (btree w) key value = Ok tt.
Proof. intros [[(Hps & Hroom & _) _ _ _ _ _ _] _ _] HK HV. by apply (validate_ok K). Qed.

Lemma put_does key value v : blen key <= K -> blen value <= ISIZE_MAX ->
  does (txn_put key value) v (Ok (tt, on_data (<[key := value]> (v_data v)) v)) (txn_op_cost (TxPut key value)).
Proof.
  intros HK HV w ut uc X P Hw Hn.
  destruct (acts_main _ _ v _ _ (put_refines K key value (v_data v) HK HV) (mono_put _) (put_draws _ _) w ut uc X P Hw Hn)
    as (w' & ut' & uc' & Hrun & Hw' & Hm).
  exists w', ut', uc'. split; [|done]. simpl. rewrite <-Hrun.
  unfold txn_put, start_insert, start_mutation, tbind, ensure_mutations_finished. rewrite (th_mark _ _ _ _ _ _ Hw).
  by rewrite (txn_validates w v ut uc X P key value Hw HK HV).
Qed.

Lemma validate_pairs_ok w v ut uc X P pairs : txn_holds w v ut uc X P ->
  Forall (fun r => blen r.1 <= K /\ blen r.2 <= ISIZE_MAX) pairs -> validate_pairs (btree w) pairs = Ok tt.
Proof.
  intros Hw. induction 1 as [|[key value] pairs [HK HV] _ IH]; [done|]. simpl in *.
  by rewrite (txn_validates w v ut uc X P key value Hw HK HV).
Qed.
Lemma put_batch_does pairs v : Forall (fun r => blen r.1 <= K /\ blen r.2 <= ISIZE_MAX) pairs ->
  does (txn_put_batch pairs) v (Ok (tt, on_data (put_pairs pairs (v_data v)) v)) (txn_op_cost (TxPutBatch pairs)).
Proof.
  intros Hf w ut uc X P Hw Hn.
  destruct (acts_main _ _ v _ _ (put_batch_refines K pairs (v_data v) Hf) (fun H H' => puts_budget_mono pairs H H') (put_batch_draws _) w ut uc X P Hw Hn)
    as (w' & ut' & uc' & Hrun & Hw' & Hm).
  exists w', ut', uc'. split; [|done]. simpl. rewrite <-Hrun.
  unfold txn_put_batch, tbind at 1 2, ensure_mutations_finished. rewrite (th_mark _ _ _ _ _ _ Hw).
  by rewrite (validate_pairs_ok w v ut uc X P pairs Hw Hf).
Qed.

Lemma does_counter {A} name v (k : bytes -> Z -> T A) spec cost :
  match spec_counter (v_catalog v) name with
  | Ok (key, n) => counter_key name = Ok key -> does (k key n) v spec cost
  | Err e => spec = Err e
  | Panic => spec = Panic
  end ->
  does (act! key := counter name in act! n := counter_read key in k key n) v spec cost.
Proof.
  unfold spec_counter. intros Hk. eapply does_read; [apply quiet_counter|].
  destruct (counter_key name) as [key| |]; [|done..]. eapply does_read; [apply quiet_counter_read|].
  destruct (v_catalog v !! key) as [row|]; [|by apply Hk]. destruct (decode_counter row); [|done..]. by apply Hk.
Qed.

Lemma counter_key_len name key : counter_key name = Ok key -> blen key = 1 + blen name.
Proof. unfold counter_key. case_match; [done|]. intros [= <-]. unfold blen. simpl. lia. Qed.
Lemma segment_key_len realm name key : segment_key realm name = Ok key -> blen key = 1 + blen realm + blen name.
Proof. unfold segment_key. case_match; [done|]. intros [= <-]. unfold blen. simpl. rewrite length_app. lia. Qed.

Lemma counter_get_does name v cost :
  does (counter_get name) v (rbind (spec_counter (v_catalog v) name) (fun x => Ok (x.2, v))) cost.
Proof.
  unfold counter_get. eapply does_read; [apply quiet_counter|]. unfold spec_counter.
  destruct (counter_key name) as [key| |]; [|done..]. cbn [rbind].
  replace (rbind _ _) with (rbind (match v_catalog v !! key with Some r => decode_counter r | None => Ok 0 end) (fun n => Ok (n, v)));
    [apply does_quiet, quiet_counter_read|]. destruct (v_catalog v !! key); [|done]. by destruct (decode_counter _).
Qed.
Lemma counter_set_does name value v : 1 + blen name <= K ->
  does (counter_set name value) v
    (rbind (spec_counter (v_catalog v) name) (fun x =>
       if value <? x.2 then Err Aborted else Ok (tt, on_rows (<[x.1 := encode_counter value]> (v_catalog v)) v)))
    (txn_op_cost (TxCounterSet name value)).
Proof.
  intros HK. apply does_counter. destruct (spec_counter _ _) as [[key n]| |]; [|done..]. intros Hk%counter_key_len. cbn [rbind fst snd].
  destruct (value <? n); [apply (does_quiet _ _ (Err _)), quiet_lift|]. apply does_ok, acts_counter_write. lia.
Qed.
Lemma counter_increment_does name delta v : 1 + blen name <= K ->
  does (counter_increment_by name delta) v
    (rbind (spec_counter (v_catalog v) name) (fun x =>
       rbind (ok_or (checked_add x.2 delta) NonceCounterExhausted) (fun n =>
         Ok (n, on_rows (<[x.1 := encode_counter n]> (v_catalog v)) v))))
    (txn_op_cost (TxCounterIncrement name delta)).
Proof.
  intros HK. apply does_counter. destruct (spec_counter _ _) as [[key n]| |]; [|done..]. intros Hk%counter_key_len. cbn [rbind fst snd].
  eapply does_read; [apply quiet_lift|]. destruct (ok_or _ _) as [n'| |]; [|done..]. cbn [rbind].
  apply does_ok. eapply acts_bind_quiet; [apply acts_counter_write; lia|apply quiet_ret].
Qed.

Lemma meta_len meta : meta_ok meta -> length (encode_segment_meta meta) = 94%nat.
Proof.
  intros (H1 & H2 & H3 & _). pose proof (blen_fill _ _ (meta_ordered meta H1 H2 H3)) as Hl.
  unfold blen, encode_segment_meta, SEGMENT_META_LEN in *. lia.
Qed.
Lemma acts_put_meta key meta v : meta_ok meta -> blen key <= K ->
  acts (write_catalog_row key (encode_segment_meta meta)) v (Ok tt)
    (on_rows (<[key := encode_segment_meta meta]> (v_catalog v)) v) (fun H => 96 + (2 * H + 4))%nat.
Proof.
  intros Hm HK. pose proof (meta_len meta Hm) as Hl. apply acts_put_row; [done| |by rewrite Hl].
  unfold blen. rewrite Hl. done.
Qed.

(** The reply of [spec_txn_op] is a unit. *)
Definition as_unit (r : result (txn_reply * View)) : result (unit * View) := rbind r (fun x => Ok (tt, x.2)).

Lemma link_does cfg name meta v : txn_op_ok K cfg (TxLink name meta) ->
  does (link_segment cfg name meta) v (as_unit (spec_txn_op cfg (TxLink name meta) v)) (txn_op_cost (TxLink name meta)).
Proof.
  intros [HK Hm]. unfold link_segment, as_unit. cbn [spec_txn_op].
  eapply does_read; [apply quiet_finished|]. cbv beta iota.
  eapply does_read; [apply quiet_epoch|]. destruct (spec_epoch cfg meta); [|done..].
  eapply does_read; [apply quiet_lift|]. destruct (segment_key (dc_realm_id cfg) name) as [key| |] eqn:Hk; [|done..].
  apply segment_key_len in Hk. eapply does_read; [apply quiet_get|]. cbv beta iota.
  destruct (v_catalog v !! key); [apply (does_quiet _ _ (Err _)), quiet_lift|].
  eapply does_read; [apply quiet_quota|]. destruct (spec_quota _ _ _ _); [|done..].
  eapply acts_bind_quiet; [apply acts_put_meta; [done|lia]|apply quiet_push].
Qed.

Lemma replace_does cfg name meta v : txn_op_ok K cfg (TxReplace name meta) ->
  does (replace_segment cfg name meta) v (as_unit (spec_txn_op cfg (TxReplace name meta) v)) (txn_op_cost (TxReplace name meta)).
Proof.
  intros [HK Hm]. unfold replace_segment, as_unit. cbn [spec_txn_op].
  eapply does_read; [apply quiet_finished|]. cbv beta iota.
  eapply does_read; [apply quiet_epoch|]. destruct (spec_epoch cfg meta); [|done..].
  eapply does_read; [apply quiet_lift|]. destruct (segment_key (dc_realm_id cfg) name) as [key| |] eqn:Hk; [|done..].
  apply segment_key_len in Hk. eapply does_read; [apply quiet_get|]. cbv beta iota.
  eapply does_read; [apply quiet_lift|]. destruct (ok_or (v_catalog v !! key) NotLinked) as [row| |]; [|done..].
  eapply does_read; [apply quiet_lift|]. destruct (decode_segment_meta row) as [old| |]; [|done..].
  eapply does_read; [apply quiet_quota|]. destruct (spec_quota _ _ _ _); [|done..].
  eapply acts_bind_quiet; [apply acts_put_meta; [done|lia]|].
  eapply quiet_then; [apply quiet_push|].
  replace (on_segments [_; _] _) with (on_segments [Promote (sm_segment_id meta)] (on_segments [Tombstone (sm_segment_id old) None]
    (on_rows (<[key:=encode_segment_meta meta]> (v_catalog v)) v))) by (unfold on_segments; simpl; by rewrite <-app_assoc).
  apply quiet_push.
Qed.

Lemma unlink_does cfg name v :
  does (unlink_segment cfg name) v (as_unit (spec_txn_op cfg (TxUnlink name) v)) (txn_op_cost (TxUnlink name)).
Proof.
  unfold unlink_segment, as_unit. cbn [spec_txn_op].
  eapply does_read; [apply quiet_finished|]. cbv beta iota.
  eapply does_read; [apply quiet_lift|]. destruct (segment_key (dc_realm_id cfg) name) as [key| |]; [|done..].
  eapply does_read; [apply quiet_get|]. cbv beta iota.
  eapply does_read; [apply quiet_lift|]. destruct (v_catalog v !! key) as [row|] eqn:Hrow; [|done..]. cbn [ok_or].
  eapply does_read; [apply quiet_lift|]. destruct (decode_segment_meta row) as [meta| |]; [|done..].
  apply does_ok. intros w ut uc X P Hw Hn. rewrite (catalog_write_then (tree_delete key)). revert w ut uc X P Hw Hn.
  change (acts (act! removed := catalog_write (tree_delete key) in
    if negb removed then tlift (Err NotLinked) else push_segment (Tombstone (sm_segment_id meta) None)) v (Ok tt)
    (on_segments [Tombstone (sm_segment_id meta) None] (on_rows (delete key (v_catalog v)) v)) (fun _ => 1%nat)).
  eapply acts_bind_quiet; [eapply acts_catalog; [apply delete_refines|apply mono_const|apply tree_delete_draws]|].
  rewrite Hrow. apply quiet_push.
Qed.

Lemma scan_does {A} (f : BTree -> result A) v a cost :
  (forall t, answers t (v_data v) -> f t = Ok a) -> does (reading f) v (Ok (a, v)) cost.
Proof. intros Hf. apply (does_quiet _ _ (Ok a)). by apply quiet_reading. Qed.

(** Every operation of a transaction does what it does to the view. *)
Lemma txn_op_does cfg o v : txn_op_ok K cfg o -> does (run_txn_op cfg o) v (spec_txn_op cfg o v) (txn_op_cost o).
Proof.
  intros Hok. destruct o; cbn [run_txn_op].
  - eapply does_tmap; [eapply scan_does; intros t [Hg _]; apply Hg|done].
  - eapply does_tmap; [eapply scan_does; intros t [_ (_ & Hs & _)]; apply Hs|done].
  - eapply does_tmap; [eapply scan_does; intros t [_ (_ & _ & Hs & _)]; apply Hs|done].
  - eapply does_tmap; [eapply scan_does; intros t [_ (_ & _ & _ & _ & Hs & _)]; apply Hs|done].
  - eapply does_tmap; [eapply scan_does; intros t [_ (_ & _ & _ & Hs & _)]; apply Hs|done].
  - destruct Hok. eapply does_tmap; [by apply put_does|done].
  - eapply does_tmap; [apply does_ok, acts_main; [apply delete_refines|apply mono_const|apply tree_delete_draws]|done].
  - eapply does_tmap; [by apply put_batch_does|done].
  - eapply does_tmap; [apply does_ok, acts_main; [apply delete_batch_refines|apply mono_const|apply delete_batch_draws]|done].
  - eapply does_tmap; [apply counter_get_does|]. cbn [spec_txn_op]. by destruct (spec_counter _ _) as [[]| |].
  - eapply does_tmap; [by apply counter_set_does|]. cbn [spec_txn_op]. destruct (spec_counter _ _) as [[]| |]; [|done..]. simpl. by case_match.
  - eapply does_tmap; [by apply counter_increment_does|]. cbn [spec_txn_op]. destruct (spec_counter _ _) as [[]| |]; [|done..]. simpl.
    by destruct (ok_or _ _).
  - eapply does_tmap; [by apply link_does|]. unfold as_unit.
    cbn [spec_txn_op]. repeat (case_match; try done).
  - eapply does_tmap; [by apply unlink_does|]. unfold as_unit.
    cbn [spec_txn_op]. repeat (case_match; try done).
  - eapply does_tmap; [by apply replace_does|]. unfold as_unit.
    cbn [spec_txn_op]. repeat (case_match; try done).
Qed.
End txn.
