(* ===== verification/TxnHistory.v ===== *)
(** * TxnHistory: the commit history of a store

    The rows a commit writes to the history tree, and those the retention policy
    prunes. *)

From S2P Require Import Prelude Keys Errors PageFormat Node Leaf Internal Split Store Overflow FreeList Layout StructuralHeader Tree TreeWrite TreeRep TreeAlloc TreeCow TreePropagate TreePut TreeOps TreeBatch TreeSpec TreeScan TreeScanOps TreeFlush TreeWalk TreeSource TxnState TxnWrite TxnCommit TxnShare TxnOps.
From Stdlib Require Import ZArith Lia.
From stdpp Require Import base list strings gmap sorting.

Local Open Scope Z_scope.
Local Open Scope pagedb_scope.

(** ** What is kept *)

(** The length of the longest prefix all of whose elements satisfy [p]. *)
Fixpoint run {A} (p : A -> bool) (l : list A) : nat :=
  match l with
  | [] => 0
  | x :: l => if p x then S (run p l) else 0
  end.

Definition unpinned (min_pinned : option Z) (row : bytes * bytes) : bool :=
  match history_row_commit row.1 with Ok c => negb (pinned min_pinned c) | _ => false end.

Definition aged (key : bytes) (threshold : Z) (min_pinned : option Z) (row : bytes * bytes) : bool :=
  negb (bool_decide (row.1 = key)) && unpinned min_pinned row &&
  match decode_commit_meta row.2 with Ok meta => hm_unix_seconds meta <? threshold | _ => false end.

(** The rows a policy keeps of [m]: the oldest ones go first, and none a reader
    pins. *)
Definition kept_rows (policy : RetainPolicy) (now : Z) (min_pinned : option Z) (key : bytes) (m : kv)
  : list (bytes * bytes) :=
  let rows := bindings m in
  match policy with
  | Count n => drop (Nat.min (Z.to_nat (Z.of_nat (size m) - n)) (run (unpinned min_pinned) rows)) rows
  | Age duration => drop (run (aged key (saturating_sub now duration) min_pinned) rows) rows
  | Unbounded | Disabled => rows
  end.

(** ** Runs *)

Lemma run_le {A} (p : A -> bool) l : (run p l <= length l)%nat.
Proof. induction l as [|x l IH]; simpl; [done|]. destruct (p x); lia. Qed.
Lemma run_app {A} (p : A -> bool) l1 l2 :
  run p (l1 ++ l2) = if (run p l1 <? length l1)%nat then run p l1 else (length l1 + run p l2)%nat.
Proof.
  induction l1 as [|x l1 IH]; simpl; [done|]. destruct (p x); simpl; [|done]. rewrite IH.
  destruct (Nat.ltb_spec (run p l1) (length l1)), (Nat.ltb_spec (S (run p l1)) (S (length l1))); try lia.
Qed.

(** ** Rows *)

Definition row_ok (L : Z) (row : bytes * bytes) : Prop :=
  exists c, row.1 = be64 c /\ 0 <= c <= L /\ blen row.2 = 40.
Definition rows_ok (m : kv) (L : Z) : Prop := forall k v, m !! k = Some v -> row_ok L (k, v).

Lemma be64_len c : blen (be64 c) = 8.
Proof. unfold blen, be64. rewrite length_reverse. done. Qed.
Lemma row_commit L row : row_ok L row -> exists c, history_row_commit row.1 = Ok c.
Proof. intros (c & -> & _). unfold history_row_commit. rewrite be64_len. simpl. eauto. Qed.
Lemma row_meta L row : row_ok L row -> exists meta, decode_commit_meta row.2 = Ok meta.
Proof.
  intros (c & _ & _ & Hl). unfold decode_commit_meta, u64_le. rewrite Hl. simpl.
  unfold slice. rewrite Hl. simpl. eauto.
Qed.

(** The first key after [a]. *)
Lemma key_succ a b : a <ₖ b -> a ++ [Byte.x00] ≤ₖ b.
Proof.
  revert b. induction a as [|x a IH]; intros [|y b]; unfold key_lt, key_le; simpl; try done.
  - intros _. pose proof (u8_of_bound y). destruct (u8_of y); [by destruct b|done|lia].
  - destruct (u8_of x ?= u8_of y); [apply IH|done|done].
Qed.

Section rows.
Context (K : Z).

Lemma tree_map_answers t H m X P n : tree_map K t H m X P n -> answers t m.
Proof.
  intros Htm. destruct (part_of_tree_map K t H m X P n Htm) as (us & Hp & Ha).
  pose proof (alloc_ok_nodup _ _ _ _ Ha) as (Hnd & _)%NoDup_app. eapply part_answers; [exact Hp|done|].
  intros Hz. pose proof (alloc_ok_bound _ _ _ _ 0 Ha ltac:(mem)). lia.
Qed.

Lemma sorted_bindings rows : keys_sorted rows.*1 -> bindings (rec_map rows) = rows.
Proof. intros Hs. symmetry. by apply bindings_unique. Qed.

Lemma filter_from cursor (rows : list (bytes * bytes)) : Forall (fun x => cursor ≤ₖ x.1) rows ->
  filter (fun x : bytes * bytes => cursor ≤ₖ x.1) rows = rows.
Proof. induction 1 as [|x l Hx _ IH]; [done|]. rewrite filter_cons_True by done. by f_equal. Qed.

(** A batch from a cursor below all rows. *)
Lemma batch_rows t H rows X P n cursor limit :
  tree_map K t H (rec_map rows) X P n -> keys_sorted rows.*1 -> Forall (fun x => cursor ≤ₖ x.1) rows ->
  collect_batch_from t cursor limit = Ok (take limit rows).
Proof.
  intros Htm Hs Hc. destruct (tree_map_answers _ _ _ _ _ _ Htm) as [_ (_ & _ & _ & _ & Hb & _)].
  rewrite Hb, sorted_bindings by done. by rewrite filter_from.
Qed.

Lemma after_batch (batch rest : list (bytes * bytes)) k v :
  keys_sorted (batch ++ rest).*1 -> last batch = Some (k, v) -> Forall (fun x => k ++ [Byte.x00] ≤ₖ x.1) rest.
Proof.
  intros Hs Hl. apply last_Some in Hl as [l ->]. apply Forall_forall. intros x Hx. apply key_succ.
  rewrite <-app_assoc, fmap_app in Hs. apply sorted_app in Hs as (_ & Hs & _). simpl in Hs.
  apply (sorted_cons (k, v) rest) in Hs as [_ Hall]. rewrite Forall_forall in Hall. by apply Hall.
Qed.

Lemma delete_row t H (row : bytes * bytes) rows X P n :
  tree_map K t H (rec_map (row :: rows)) X P (S n) -> keys_sorted (row :: rows).*1 ->
  exists t', tree_delete row.1 t = (Ok true, t') /\ tree_map K t' H (rec_map rows) X P n /\
    page_size t' = page_size t /\ bt_pages t' = bt_pages t.
Proof.
  intros Htm Hs. destruct (delete_map K t H _ X P n row.1 Htm) as (t' & Hd & Htm' & Hz & Hb). exists t'.
  destruct row as [k v]. unfold rec_map in *. simpl in *. rewrite lookup_insert_eq in Hd. rewrite bool_decide_true in Hd by eauto.
  split; [done|]. split; [|done]. rewrite delete_insert_id in Htm'; [done|]. apply not_elem_of_list_to_map.
  apply sorted_NoDup in Hs. by apply NoDup_cons in Hs as [? _].
Qed.
Lemma sorted_tail (row : bytes * bytes) rows : keys_sorted (row :: rows).*1 -> keys_sorted rows.*1.
Proof. intros Hs. by apply sorted_cons in Hs as [? _]. Qed.

(** ** The oldest rows *)

Lemma prune_rows_ok L excess mp X P n : forall batch rest t H deleted,
  tree_map K t H (rec_map (batch ++ rest)) X P (length batch + n) -> keys_sorted (batch ++ rest).*1 ->
  Forall (row_ok L) batch -> 0 <= deleted -> deleted + Z.of_nat (length batch) <= U64_MAX ->
  let k := Nat.min (Z.to_nat (excess - deleted)) (run (unpinned mp) batch) in
  exists t', prune_rows batch excess mp deleted t = (Ok (deleted + Z.of_nat k, (k <? length batch)%nat), t') /\
    tree_map K t' H (rec_map (drop k batch ++ rest)) X P n /\ page_size t' = page_size t /\ bt_pages t' = bt_pages t.
Proof.
  induction batch as [|row batch IH]; intros rest t H deleted Htm Hs Hok Hd0 Hmax; cbv zeta.
  { exists t. simpl. rewrite Nat.min_0_r, Z.add_0_r. done. }
  apply Forall_cons in Hok as [Hrow Hok]. destruct (row_commit L row Hrow) as [c Hc].
  destruct row as [key value]. cbn [prune_rows run]. cbn [fst] in Hc. rewrite Hc.
  assert (unpinned mp (key, value) = negb (pinned mp c)) as -> by (unfold unpinned; cbn [fst]; by rewrite Hc).
  destruct (Z.leb_spec excess deleted) as [He|He].
  { replace (Z.to_nat (excess - deleted)) with 0%nat by lia. exists t. simpl. rewrite Z.add_0_r. split; [done|].
    split; [|done]. eapply tree_map_le; [|exact Htm]. simpl. lia. }
  unfold bind at 1, lift at 1. destruct (pinned mp c) eqn:Hp; simpl negb; cbv iota.
  { rewrite Nat.min_0_r. exists t. simpl. rewrite Z.add_0_r. split; [done|].
    split; [|done]. eapply tree_map_le; [|exact Htm]. simpl. lia. }
  destruct (delete_row t H (key, value) (batch ++ rest) X P (length batch + n) Htm Hs) as (t1 & Hdel & Htm1 & Hz1 & Hb1).
  cbn [fst] in Hdel. unfold bind at 1. rewrite Hdel. simpl length in Hmax.
  unfold saturating_add. rewrite Z.min_l by lia.
  destruct (IH rest t1 H (deleted + 1) Htm1) as (t' & Hr & Htm' & Hz & Hb); [by eapply sorted_tail|done|lia|lia|].
  exists t'. rewrite Hr. replace (Z.to_nat (excess - deleted)) with (S (Z.to_nat (excess - (deleted + 1)))) by lia.
  rewrite <-Nat.succ_min_distr. split; [do 3 f_equal; lia|]. split; [done|]. split; congruence.
Qed.

Lemma last_take_None {A} (l : list A) n : (0 < n)%nat -> last (take n l) = None -> l = [].
Proof. intros Hn Hl. destruct l as [|x l]; [done|]. destruct n as [|n]; [lia|]. by apply last_None in Hl. Qed.

Lemma prune_oldest_ok L excess mp X P n : forall fuel rows t H deleted cursor,
  tree_map K t H (rec_map rows) X P (length rows + n) -> keys_sorted rows.*1 -> Forall (row_ok L) rows ->
  Forall (fun x => cursor ≤ₖ x.1) rows -> (length rows < fuel)%nat ->
  0 <= deleted -> deleted + Z.of_nat (length rows) <= U64_MAX ->
  let k := Nat.min (Z.to_nat (excess - deleted)) (run (unpinned mp) rows) in
  exists t', prune_oldest_history_rows fuel excess mp deleted cursor t = (Ok (deleted + Z.of_nat k), t') /\
    tree_map K t' H (rec_map (drop k rows)) X P n /\ page_size t' = page_size t /\ bt_pages t' = bt_pages t.
Proof.
  induction fuel as [|fuel IH]; intros rows t H deleted cursor Htm Hs Hok Hc Hf Hd0 Hmax; [lia|]. cbv zeta.
  cbn [prune_oldest_history_rows]. destruct (Z.leb_spec excess deleted) as [He|He].
  { replace (Z.to_nat (excess - deleted)) with 0%nat by lia. exists t. simpl. rewrite Z.add_0_r. split; [done|].
    split; [|done]. eapply tree_map_le; [|exact Htm]. lia. }
  set (want := Nat.min (Z.to_nat (excess - deleted)) HISTORY_PRUNE_BATCH).
  assert (0 < want)%nat as Hw by (unfold want, HISTORY_PRUNE_BATCH; lia).
  unfold bind at 1, gets at 1. rewrite (batch_rows t H rows X P _ cursor want Htm Hs Hc).
  destruct (last (take want rows)) as [[lk lv]|] eqn:Hl.
  2: { apply last_take_None in Hl as ->; [|done]. exists t. simpl. rewrite Nat.min_0_r, Z.add_0_r. done. }
  rewrite <-(take_drop want rows) in Htm, Hs, Hok. apply Forall_app in Hok as [Hok1 Hok2].
  pose proof (length_take rows want) as Hlt. pose proof (length_drop rows want) as Hld.
  destruct (prune_rows_ok L excess mp X P (length (drop want rows) + n) (take want rows) (drop want rows) t H deleted)
    as (t1 & Hr & Htm1 & Hz1 & Hb1); [|done|done|done|lia|].
  { eapply tree_map_le; [|exact Htm]. rewrite length_app. lia. }
  unfold bind at 1. rewrite Hr. pose proof (run_le (unpinned mp) (take want rows)) as Hrl.
  assert (run (unpinned mp) rows = _) as Hrun by (rewrite <-(take_drop want rows) at 1; apply run_app). rewrite Hrun.
  set (k1 := run (unpinned mp) (take want rows)) in *.
  destruct (Nat.ltb_spec k1 (length (take want rows))) as [Hlt1|Hge1].
  - rewrite (proj2 (Nat.ltb_lt _ _)) by lia. exists t1. split; [done|]. rewrite Nat.min_r in Htm1 by lia. rewrite Nat.min_r by lia.
    split; [|done]. eapply tree_map_le; [|replace (drop k1 rows) with (drop k1 (take want rows) ++ drop want rows); [exact Htm1|]]; [lia|].
    rewrite <-drop_app_le by lia. by rewrite take_drop.
  - assert (k1 = length (take want rows)) as Hk1 by lia. rewrite Nat.min_r in Htm1, Hr |- * by lia.
    rewrite (proj2 (Nat.ltb_ge _ _)) by lia. rewrite Hk1, drop_all in Htm1. simpl in Htm1.
    destruct (Nat.ltb_spec (length (take want rows)) want) as [Hex|Hex].
    + exists t1. rewrite (drop_ge rows want) in Htm1 |- * by lia. simpl run. rewrite Nat.add_0_r, Nat.min_r by lia.
      split; [by rewrite Hk1|]. rewrite drop_ge by lia. split; [|done]. eapply tree_map_le; [|exact Htm1]. lia.
    + rewrite fmap_app in Hs. apply sorted_app in Hs as Hs'. rewrite <-fmap_app in Hs.
      destruct (IH (drop want rows) t1 H (deleted + Z.of_nat k1) (lk ++ [Byte.x00])) as (t2 & Hr2 & Htm2 & Hz2 & Hb2);
        [exact Htm1|apply Hs'|done|by eapply after_batch|lia|lia|lia|].
      exists t2. rewrite Hr2. split; [do 2 f_equal; lia|]. split; [|split; congruence].
      rewrite drop_drop in Htm2. replace (Nat.min _ _) with (want + Nat.min (Z.to_nat (excess - (deleted + Z.of_nat k1)))
        (run (unpinned mp) (drop want rows)))%nat by lia. done.
Qed.

(** ** Rows that are too old *)

Lemma prune_aged_rows_ok L key threshold mp X P n : forall batch rest t H deleted,
  tree_map K t H (rec_map (batch ++ rest)) X P (length batch + n) -> keys_sorted (batch ++ rest).*1 ->
  Forall (row_ok L) batch -> 0 <= deleted -> deleted + Z.of_nat (length batch) <= U64_MAX ->
  let k := run (aged key threshold mp) batch in
  exists t', prune_aged_rows batch key threshold mp deleted t = (Ok (deleted + Z.of_nat k, (k <? length batch)%nat), t') /\
    tree_map K t' H (rec_map (drop k batch ++ rest)) X P n /\ page_size t' = page_size t /\ bt_pages t' = bt_pages t.
Proof.
  induction batch as [|row batch IH]; intros rest t H deleted Htm Hs Hok Hd0 Hmax; cbv zeta.
  { exists t. simpl. rewrite Z.add_0_r. done. }
  apply Forall_cons in Hok as [Hrow Hok]. destruct (row_commit L row Hrow) as [c Hc]. destruct (row_meta L row Hrow) as [meta Hm].
  destruct row as [k v]. cbn [prune_aged_rows run]. cbn [fst snd] in Hc, Hm.
  assert (aged key threshold mp (k, v) = negb (bool_decide (k = key)) && negb (pinned mp c) && (hm_unix_seconds meta <? threshold)) as ->
    by (unfold aged, unpinned; cbn [fst snd]; by rewrite Hc, Hm).
  assert (tree_map K t H (rec_map (((k, v) :: batch) ++ rest)) X P n) as Hstop.
  { eapply tree_map_le; [|exact Htm]. lia. }
  destruct (bool_decide (k = key)); simpl negb; cbn [andb]; [exists t; rewrite Z.add_0_r; done|].
  unfold bind at 1, lift at 1. rewrite Hc. destruct (pinned mp c); simpl negb; cbn [andb]; [exists t; rewrite Z.add_0_r; done|].
  unfold bind at 1, lift at 1. rewrite Hm. rewrite Z.ltb_antisym.
  destruct (Z.leb_spec threshold (hm_unix_seconds meta)) as [Ht|Ht]; simpl negb; [exists t; rewrite Z.add_0_r; done|]. clear Hstop.
  destruct (delete_row t H (k, v) (batch ++ rest) X P (length batch + n) Htm Hs) as (t1 & Hdel & Htm1 & Hz1 & Hb1).
  cbn [fst] in Hdel. unfold bind at 1. rewrite Hdel. simpl length in Hmax.
  unfold saturating_add. rewrite Z.min_l by lia.
  destruct (IH rest t1 H (deleted + 1) Htm1) as (t' & Hr & Htm' & Hz & Hb); [by eapply sorted_tail|done|lia|lia|].
  exists t'. rewrite Hr. split; [do 3 f_equal; lia|]. split; [done|]. split; congruence.
Qed.

Lemma prune_aged_ok L key threshold mp X P n : forall fuel rows t H deleted cursor,
  tree_map K t H (rec_map rows) X P (length rows + n) -> keys_sorted rows.*1 -> Forall (row_ok L) rows ->
  Forall (fun x => cursor ≤ₖ x.1) rows -> (length rows < fuel)%nat ->
  0 <= deleted -> deleted + Z.of_nat (length rows) <= U64_MAX ->
  let k := run (aged key threshold mp) rows in
  exists t', prune_aged fuel key threshold mp deleted cursor t = (Ok (deleted + Z.of_nat k), t') /\
    tree_map K t' H (rec_map (drop k rows)) X P n /\ page_size t' = page_size t /\ bt_pages t' = bt_pages t.
Proof.
  induction fuel as [|fuel IH]; intros rows t H deleted cursor Htm Hs Hok Hc Hf Hd0 Hmax; [lia|]. cbv zeta.
  cbn [prune_aged]. set (want := HISTORY_PRUNE_BATCH). assert (0 < want)%nat as Hw by (unfold want, HISTORY_PRUNE_BATCH; lia).
  unfold bind at 1, gets at 1. rewrite (batch_rows t H rows X P _ cursor want Htm Hs Hc).
  destruct (last (take want rows)) as [[lk lv]|] eqn:Hl.
  2: { apply last_take_None in Hl as ->; [|done]. exists t. simpl. rewrite Z.add_0_r. done. }
  rewrite <-(take_drop want rows) in Htm, Hs, Hok. apply Forall_app in Hok as [Hok1 Hok2].
  pose proof (length_take rows want) as Hlt. pose proof (length_drop rows want) as Hld.
  destruct (prune_aged_rows_ok L key threshold mp X P (length (drop want rows) + n) (take want rows) (drop want rows) t H deleted)
    as (t1 & Hr & Htm1 & Hz1 & Hb1); [|done|done|done|lia|].
  { eapply tree_map_le; [|exact Htm]. rewrite length_app. lia. }
  unfold bind at 1. rewrite Hr. pose proof (run_le (aged key threshold mp) (take want rows)) as Hrl.
  assert (run (aged key threshold mp) rows = _) as Hrun by (rewrite <-(take_drop want rows) at 1; apply run_app). rewrite Hrun.
  set (k1 := run (aged key threshold mp) (take want rows)) in *.
  destruct (Nat.ltb_spec k1 (length (take want rows))) as [Hlt1|Hge1].
  - exists t1. split; [done|].
    split; [|done]. eapply tree_map_le; [|replace (drop k1 rows) with (drop k1 (take want rows) ++ drop want rows); [exact Htm1|]]; [lia|].
    rewrite <-drop_app_le by lia. by rewrite take_drop.
  - assert (k1 = length (take want rows)) as Hk1 by lia. rewrite Hk1, drop_all in Htm1. simpl in Htm1.
    destruct (Nat.ltb_spec (length (take want rows)) want) as [Hex|Hex].
    + exists t1. rewrite (drop_ge rows want) in Htm1 |- * by lia. simpl run. rewrite Nat.add_0_r.
      split; [by rewrite Hk1|]. rewrite drop_ge by lia. split; [|done]. eapply tree_map_le; [|exact Htm1]. lia.
    + rewrite fmap_app in Hs. apply sorted_app in Hs as Hs'. rewrite <-fmap_app in Hs.
      destruct (IH (drop want rows) t1 H (deleted + Z.of_nat k1) (lk ++ [Byte.x00])) as (t2 & Hr2 & Htm2 & Hz2 & Hb2);
        [exact Htm1|apply Hs'|done|by eapply after_batch|lia|lia|lia|].
      exists t2. rewrite Hr2. split; [do 2 f_equal; lia|]. split; [|split; congruence].
      rewrite drop_drop in Htm2. replace (length (take want rows)) with want by lia. done.
Qed.

(** ** All rows *)

Lemma count_rows_ok X P n t H : forall fuel (front rows : list (bytes * bytes)) total cursor,
  tree_map K t H (rec_map (front ++ rows)) X P n -> keys_sorted (front ++ rows).*1 ->
  Forall (fun x => cursor ≤ₖ x.1) rows -> Forall (fun x => ~ cursor ≤ₖ x.1) front -> (length rows < fuel)%nat ->
  0 <= total -> total + Z.of_nat (length rows) <= U64_MAX ->
  count_history_rows fuel t total cursor = Ok (total + Z.of_nat (length rows)).
Proof.
  induction fuel as [|fuel IH]; intros front rows total cursor Htm Hs Hc Hfr Hf Ht0 Hmax; [lia|].
  cbn [count_history_rows]. set (want := HISTORY_PRUNE_BATCH). assert (0 < want)%nat as Hw by (unfold want, HISTORY_PRUNE_BATCH; lia).
  assert (collect_batch_from t cursor want = Ok (take want rows)) as Hb.
  { destruct (tree_map_answers _ _ _ _ _ _ Htm) as [_ (_ & _ & _ & _ & Hb & _)]. rewrite Hb, sorted_bindings by done.
    rewrite filter_app, (filter_from cursor rows) by done.
    replace (filter _ front) with (@nil (bytes * bytes)); [done|]. symmetry. clear -Hfr.
    induction Hfr; [done|]. by rewrite filter_cons_False. }
  rewrite Hb. destruct (last (take want rows)) as [[lk lv]|] eqn:Hl.
  2: { apply last_take_None in Hl as ->; [|done]. simpl. f_equal. lia. }
  pose proof (length_take rows want) as Hlt. pose proof (length_drop rows want) as Hld.
  unfold saturating_add. rewrite Z.min_l by lia.
  destruct (Nat.ltb_spec (length (take want rows)) want) as [Hex|Hex]; [f_equal; lia|].
  pose proof (take_drop want rows) as Htd. rewrite <-Htd, app_assoc in Htm, Hs.
  rewrite (IH (front ++ take want rows) (drop want rows)); [f_equal; lia|done|done| | |lia|lia|lia].
  - rewrite <-app_assoc, fmap_app in Hs. apply sorted_app in Hs as (_ & Hs & _). by eapply after_batch.
  - apply last_Some in Hl as [l Hl]. rewrite Hl in Hs. apply Forall_forall. intros x Hx.
    rewrite key_nle_lt. eapply (key_le_lt_trans _ lk).
    + rewrite Hl, app_assoc in Hx. apply elem_of_app in Hx as [Hx|Hx%list_elem_of_singleton]; [|subst; apply key_le_refl].
      apply key_lt_le. rewrite app_assoc, <-app_assoc, fmap_app in Hs. apply sorted_app in Hs as (_ & _ & Hs). apply Hs.
      * apply list_elem_of_fmap. by exists x.
      * simpl. left.
    + clear. induction lk as [|b lk IH]; [done|]. unfold key_lt. simpl. by rewrite Z.compare_refl.
Qed.

Definition count_ok (policy : RetainPolicy) (count : option Z) (n : nat) : Prop :=
  match policy with
  | Count _ | Age _ => forall c, count = Some c -> c = Z.of_nat n
  | _ => True
  end.

Lemma bindings_length m : length (bindings m) = size m.
Proof. unfold bindings. by rewrite merge_sort_Permutation, length_map_to_list. Qed.
Lemma bindings_rec m : rec_map (bindings m) = m.
Proof. apply bindings_lists. Qed.
Lemma bindings_rows_ok m L : rows_ok m L -> Forall (row_ok L) (bindings m).
Proof.
  intros Hr. apply Forall_forall. intros [k v] Hin. apply Hr. destruct (bindings_lists m) as [Hs <-].
  by apply rec_map_Some.
Qed.

Lemma kept_sorted policy now mp key m : keys_sorted (kept_rows policy now mp key m).*1.
Proof.
  destruct (bindings_lists m) as [Hs _]. unfold kept_rows. destruct policy; [| |done|done]; rewrite fmap_drop; by apply sorted_drop.
Qed.

Lemma prune_history_ok L policy now mp key was_new count fuel m t H X P n :
  tree_map K t H m X P (size m + n) -> rows_ok m L -> (size m < fuel)%nat -> Z.of_nat (size m) <= U64_MAX ->
  (forall k, policy = Count k -> 0 <= k) -> count_ok policy ((fun c => bump c was_new) <$> count) (size m) ->
  exists t' count', prune_history fuel policy now mp key was_new count t = (Ok count', t') /\
    tree_map K t' H (rec_map (kept_rows policy now mp key m)) X P n /\
    count_ok policy count' (length (kept_rows policy now mp key m)) /\
    page_size t' = page_size t /\ bt_pages t' = bt_pages t.
Proof.
  intros Htm Hr Hf Hmax Hpos Hcnt. pose proof (bindings_lists m) as [Hs _]. pose proof (bindings_rec m) as Hm.
  pose proof (bindings_length m) as Hlen. pose proof (bindings_rows_ok m L Hr) as Hok.
  assert (Forall (fun x : bytes * bytes => [] ≤ₖ x.1) (bindings m)) as Hcur by (apply Forall_forall; intros; apply key_nil_le).
  unfold kept_rows. destruct policy as [k|duration| |]; cbn [prune_history].
  - specialize (Hpos k eq_refl).
    assert (match count with Some cached => Ok (bump cached was_new) | None => count_history_rows fuel t 0 [] end
      = Ok (Z.of_nat (size m))) as Htot.
    { destruct count as [c|]; simpl in Hcnt; [f_equal; by apply Hcnt|].
      rewrite (count_rows_ok X P (size m + n) t H fuel [] (bindings m) 0 []); simpl; try done; rewrite ?Hlen, ?Hm; try done; lia. }
    unfold bind at 1, gets at 1. rewrite Htot. cbv beta iota.
    set (excess := saturating_sub (Z.of_nat (size m)) k).
    assert (Z.to_nat excess = Z.to_nat (Z.of_nat (size m) - k)) as He by (unfold excess, saturating_sub; lia).
    set (j := Nat.min _ _).
    assert (exists t', (if excess =? 0 then ret 0 else prune_oldest_history_rows fuel excess mp 0 []) t = (Ok (Z.of_nat j), t') /\
      tree_map K t' H (rec_map (drop j (bindings m))) X P n /\ page_size t' = page_size t /\ bt_pages t' = bt_pages t)
      as (t' & Hrun & Htm' & Hz & Hb).
    { destruct (Z.eqb_spec excess 0) as [E|E].
      - exists t. assert (j = 0)%nat as -> by (unfold j; lia). rewrite drop_0, Hm. split; [done|]. split; [|done].
        eapply tree_map_le; [|exact Htm]. lia.
      - rewrite <-Hlen in Htm.
        destruct (prune_oldest_ok L excess mp X P n fuel (bindings m) t H 0 []) as (t' & Hr' & Htm' & ?); [by rewrite Hm|done..|lia|done|lia|].
        exists t'. rewrite Z.sub_0_r, He in Hr', Htm'. fold j in Hr', Htm'. by rewrite Hr'. }
    unfold bind at 1. rewrite Hrun. exists t', (Some (saturating_sub (Z.of_nat (size m)) (Z.of_nat j))). split; [done|].
    split; [done|]. split; [|done]. intros c [= <-]. rewrite length_drop, Hlen. unfold saturating_sub. lia.
  - set (threshold := saturating_sub now duration). set (j := run _ _).
    rewrite <-Hlen in Htm.
    destruct (prune_aged_ok L key threshold mp X P n fuel (bindings m) t H 0 []) as (t' & Hr' & Htm' & Hz & Hb);
      [by rewrite Hm|done..|lia|done|lia|]. fold j in Hr', Htm'. unfold bind at 1. rewrite Hr'.
    exists t', ((fun c => saturating_sub (bump c was_new) (0 + Z.of_nat j)) <$> count). split; [done|]. split; [done|]. split; [|done].
    intros c. destruct count as [c0|]; [|done]. intros [= <-]. rewrite (Hcnt _ eq_refl).
    rewrite length_drop, Hlen. unfold saturating_sub. lia.
  - rewrite Hm. eexists t, _. split; [done|]. split; [|done]. eapply tree_map_le; [|exact Htm]. lia.
  - rewrite Hm. eexists t, _. split; [done|]. split; [|done]. eapply tree_map_le; [|exact Htm]. lia.
Qed.
End rows.

(** ** The page source *)

Lemma prune_rows_draws excess mp batch : forall deleted, drawing (prune_rows batch excess mp deleted).
Proof. induction batch as [|[key v] batch IH]; simpl; drawing. Qed.
#[export] Hint Resolve prune_rows_draws : drawing.
Lemma prune_oldest_draws excess mp fuel : forall deleted cursor, drawing (prune_oldest_history_rows fuel excess mp deleted cursor).
Proof. induction fuel; simpl; drawing. Qed.
Lemma prune_aged_rows_draws key threshold mp batch : forall deleted, drawing (prune_aged_rows batch key threshold mp deleted).
Proof. induction batch as [|[k v] batch IH]; simpl; drawing. Qed.
#[export] Hint Resolve prune_oldest_draws prune_aged_rows_draws : drawing.
Lemma prune_aged_draws key threshold mp fuel : forall deleted cursor, drawing (prune_aged fuel key threshold mp deleted cursor).
Proof. induction fuel; simpl; drawing. Qed.
#[export] Hint Resolve prune_aged_draws : drawing.
Lemma prune_history_draws fuel policy now mp key was_new count : drawing (prune_history fuel policy now mp key was_new count).
Proof. unfold prune_history. drawing. Qed.
#[export] Hint Resolve prune_history_draws : drawing.

(** ** How many rows *)

Lemma rows_ok_weaken m L L' : rows_ok m L -> L <= L' -> rows_ok m L'.
Proof. intros Hr Hle k v Hk. destruct (Hr k v Hk) as (c & ? & ? & ?). exists c. split; [done|]. split; [lia|done]. Qed.

Lemma rows_ok_size m L : rows_ok m L -> -1 <= L -> Z.of_nat (size m) <= L + 1.
Proof.
  intros Hr HL. rewrite <-length_map_to_list, <-(length_fmap fst).
  assert (length (map_to_list m).*1 <= length (be64 <$> seqZ 0 (L + 1)))%nat as Hl.
  { apply submseteq_length, NoDup_submseteq; [apply NoDup_fst_map_to_list|].
    intros k ([k' v] & -> & Hin%elem_of_map_to_list)%list_elem_of_fmap. destruct (Hr _ _ Hin) as (c & E & Hc & _).
    simpl in *. apply list_elem_of_fmap. exists c. split; [done|]. apply elem_of_seqZ. lia. }
  rewrite (length_fmap be64), length_seqZ in Hl. lia.
Qed.

Lemma rows_ok_insert m L c v : rows_ok m L -> 0 <= c -> L <= c -> blen v = 40 -> rows_ok (<[be64 c := v]> m) c.
Proof.
  intros Hr Hc Hle Hv k v' Hk. destruct (decide (k = be64 c)) as [->|Hne].
  - rewrite lookup_insert_eq in Hk. simplify_eq. exists c. split; [done|]. split; [lia|done].
  - rewrite lookup_insert_ne in Hk by done. by eapply rows_ok_weaken.
Qed.

Lemma kept_rows_ok policy now mp key m L : rows_ok m L -> rows_ok (rec_map (kept_rows policy now mp key m)) L.
Proof.
  intros Hr k v Hk. apply rec_map_Some in Hk; [|apply kept_sorted].
  assert ((k, v) ∈ bindings m) as Hin.
  { unfold kept_rows in Hk. destruct policy; [| |done|done]; (eapply elem_of_sublist; [exact Hk|apply sublist_drop]). }
  apply Hr. destruct (bindings_lists m) as [Hs <-]. by apply rec_map_Some.
Qed.

Lemma kept_rows_size policy now mp key m :
  size (rec_map (kept_rows policy now mp key m) : kv) = length (kept_rows policy now mp key m).
Proof. rewrite <-bindings_length, sorted_bindings; [done|apply kept_sorted]. Qed.

Lemma encode_meta_len m : length (encode_commit_meta m) = 40%nat.
Proof. done. Qed.

(** ** One row *)

Section entry.
Context (K : Z) (e : Env) (d : Db).
Context (HK : 8 <= K) (Hov : OVERFLOW_ROOT_HEADER_LEN + ENVELOPE_OVERHEAD < db_page_size d).
Context (Hdrain : forall l : gmap Z Leaf, env_drain e l ≡ₚ map_to_list l).
Context (Hcount : forall k, db_retain d = Count k -> 0 <= k).

(** The cache and the pages [us] in use are distinct and below the counter. *)
Definition shared_ok (sh : Shared) (next : Z) (us : list Z) : Prop :=
  NoDup (sh_cache sh ++ us) /\ (forall p, p ∈ sh_cache sh ++ us -> 4 <= p < next) /\ 4 <= next.

Definition shared_draws (sh sh' : Shared) : Prop :=
  exists taken, sh_cache sh ≡ₚ taken ++ sh_cache sh' /\ sh_consumed sh' = list_to_set taken ∪ sh_consumed sh.

Lemma shared_alloc sh root next us n :
  shared_ok sh next us -> next + Z.of_nat n <= 2 ^ 64 ->
  alloc_ok n (btree_open_session (sh_pages sh) root next (db_page_size d) (mkPageSource 0 (sh_cache sh) (sh_consumed sh))) us ∅.
Proof.
  intros (Hnd & Hb & H4) Hn. unfold alloc_ok, unused, avail. simpl. rewrite app_nil_r.
  replace (Z.max next 4) with next by lia. by split_and!; try set_solver.
Qed.

(** The pages of a tree opened for the history hold the rows [m]. *)
Record history_ok (pages : Store) (root : Z) (m : kv) (us : list Z) (L : Z) (count : option Z) : Prop := mkHistoryOk {
  ho_sound : sound K pages root (db_page_size d) m us;
  ho_rows : rows_ok m L;
  ho_count : count_ok (db_retain d) count (size m);
}.

(** The rows after a commit's row has been written. *)
Definition next_rows (m : kv) (cid : Z) (meta : CommitHistoryMeta) : kv :=
  rec_map (kept_rows (db_retain d) (env_unix_seconds e) (min_reader d) (be64 cid) (<[be64 cid := encode_commit_meta meta]> m)).

Definition entry_program (new_commit_id : Z) (meta : CommitHistoryMeta) (count : option Z) : M (option Z) :=
  let key := be64 new_commit_id in
  do! old := gets (fun t => get t key) in
  let was_new := negb (bool_decide (is_Some old)) in
  do! _ := put key (encode_commit_meta meta) in
  do! count := prune_history (history_fuel new_commit_id) (db_retain d) (env_unix_seconds e) (min_reader d) key was_new count in
  do! _ := flush_dirty_leaves (env_drain e) in
  ret count.

Lemma entry_draws cid meta count : drawing (entry_program cid meta count).
Proof. unfold entry_program. drawing. Qed.

Lemma entry_program_ok t m us X L cid meta count :
  part K t m us ∅ -> alloc_ok 0 t (us ++ X) ∅ -> page_size t = db_page_size d ->
  rows_ok m L -> L <= cid -> 0 <= cid -> count_ok (db_retain d) count (size m) ->
  6 * next_page_id t + 2 * cid + 200 <= 2 ^ 64 ->
  exists t' us' count', entry_program cid meta count t = (Ok count', t') /\
    sound K (bt_pages t') (root_page_id t') (page_size t') (next_rows m cid meta) us' /\
    alloc_ok 0 t' (us' ++ scheduled_frees t' ++ X) ∅ /\ page_size t' = page_size t /\
    (forall p, p ∈ X -> bt_pages t' !! p = bt_pages t !! p) /\
    count_ok (db_retain d) count' (size (next_rows m cid meta)) /\
    next_page_id t' <= 6 * next_page_id t + 2 * cid + 200.
Proof.
  intros Hp Ha Hz Hr HL Hc Hcnt Hroom. pose proof (alloc_ok_length _ _ _ _ Ha) as Hlu. rewrite length_app in Hlu.
  set (m1 := <[be64 cid := encode_commit_meta meta]> m).
  assert (rows_ok m1 cid) as Hr1 by (by apply (rows_ok_insert m L)). pose proof (rows_ok_size m1 cid Hr1 ltac:(lia)) as Hsz.
  set (n := Z.to_nat (2 ^ 64 - next_page_id t - 46 - 2 * Z.of_nat (length us) - Z.of_nat (size m1))).
  destruct (tree_map_of_part K t m us X ∅ (46 + 2 * length us + size m1 + n) Hp) as (H & HH & Htm).
  { eapply alloc_ok_room; [exact Ha|]. lia. }
  unfold entry_program. cbv zeta. unfold bind at 1, gets at 1. destruct (tree_map_answers K _ _ _ _ _ _ Htm) as [Hg _]. rewrite Hg.
  destruct (put_map K t H m X ∅ (size m1 + n) (be64 cid) (encode_commit_meta meta)) as (t1 & H1 & Hput & Htm1 & HH1 & Hz1 & Hu1).
  { eapply tree_map_le; [|exact Htm]. rewrite encode_meta_len. lia. }
  { by rewrite be64_len. }
  { done. }
  { by rewrite Hz. }
  fold m1 in Htm1. unfold bind at 1. rewrite Hput.
  destruct (prune_history_ok K cid (db_retain d) (env_unix_seconds e) (min_reader d) (be64 cid)
    (negb (bool_decide (is_Some (m !! be64 cid)))) count (history_fuel cid) m1 t1 H1 X ∅ n)
    as (t2 & count' & Hpr & Htm2 & Hcnt2 & Hz2 & Hb2); [done|done|unfold history_fuel; lia|unfold U64_MAX; lia|done| |].
  { assert (forall c, c = Z.of_nat (size m) -> bump c (negb (bool_decide (is_Some (m !! be64 cid)))) = Z.of_nat (size m1)) as Hbump.
    { intros c ->. unfold bump, m1. destruct (m !! be64 cid) as [v|] eqn:Hm.
      - rewrite bool_decide_true by eauto. simpl. by rewrite map_size_insert_Some by eauto.
      - rewrite bool_decide_false by (by intros [? ?]). simpl. rewrite map_size_insert_None by done.
        unfold m1 in Hsz. rewrite map_size_insert_None in Hsz by done. unfold saturating_add, U64_MAX. lia. }
    unfold count_ok in *. destruct (db_retain d); try done; intros c; (destruct count as [c0|]; [|done]); simpl; intros [= <-]; by apply Hbump, Hcnt. }
  unfold bind at 1. rewrite Hpr. destruct (part_of_tree_map K _ _ _ _ _ _ Htm2) as (us2 & Hp2 & Ha2).
  pose proof (alloc_ok_length _ _ _ _ Ha2) as Hl2. rewrite length_app in Hl2. destruct (id Ha2) as (_ & _ & _ & Hn2 & _).
  destruct (flush_part K (env_drain e) t2 _ us2 X ∅ Hdrain Hp2) as (t3 & us3 & Hfl & Hsd & Ha3 & Hz3 & Hu3 & _ & Hn3).
  { eapply alloc_ok_le; [|exact Ha2]. lia. }
  { lia. }
  unfold bind at 1. rewrite Hfl. exists t3, us3, count'. split; [done|]. split; [done|]. split; [done|]. split; [congruence|].
  split; [intros p Hin; rewrite Hu3, Hb2, Hu1; auto|]. split; [|lia]. unfold next_rows. fold m1. by rewrite kept_rows_size.
Qed.

Lemma filter_all4 (l : list Z) : (forall p, p ∈ l -> 4 <= p) -> filter (fun p => 4 <= p) l = l.
Proof.
  induction l as [|x l IH]; [done|]. intros Hl. rewrite filter_cons_True by (apply Hl; by left). f_equal. apply IH.
  intros p Hp. apply Hl. by right.
Qed.

Lemma write_entry_ok sh state m us X L cid meta :
  shared_ok sh (pw_next_page_id state) (us ++ X) ->
  history_ok (sh_pages sh) (pw_commit_history_root_page_id state) m us L (pw_commit_history_count state) ->
  L <= cid -> 0 <= cid -> 6 * pw_next_page_id state + 2 * cid + 200 <= 2 ^ 64 ->
  exists freed state' sh' us', write_commit_history_entry e d sh state cid meta = Ok (freed, state', sh') /\
    history_ok (sh_pages sh') (pw_commit_history_root_page_id state') (next_rows m cid meta) us' cid
      (pw_commit_history_count state') /\
    shared_ok sh' (pw_next_page_id state') (us' ++ freed ++ X) /\ shared_draws sh sh' /\
    (forall p, p ∈ X -> sh_pages sh' !! p = sh_pages sh !! p) /\
    pw_next_page_id state <= pw_next_page_id state' <= 6 * pw_next_page_id state + 2 * cid + 200.
Proof.
  intros Hsh [Hsd Hr Hcnt] HL Hc Hroom. set (t := btree_open_session (sh_pages sh) (pw_commit_history_root_page_id state)
    (pw_next_page_id state) (db_page_size d) (mkPageSource 0 (sh_cache sh) (sh_consumed sh))).
  assert (next_page_id t = pw_next_page_id state) as Hnx.
  { destruct Hsh as (_ & _ & H4). simpl. lia. }
  assert (part K t m us ∅) as Hp by (by apply sound_part).
  assert (alloc_ok 0 t (us ++ X) ∅) as Ha by (apply shared_alloc; [done|lia]).
  rewrite <-Hnx in Hroom.
  destruct (entry_program_ok t m us X L cid meta (pw_commit_history_count state) Hp Ha eq_refl Hr HL Hc Hcnt Hroom)
    as (t' & us' & count' & Hrun & Hsd' & Ha' & Hz' & Hu' & Hcnt' & Hn').
  pose proof (entry_draws cid meta (pw_commit_history_count state) t) as (Hle & _ & Hsrc). rewrite Hrun in Hle, Hsrc. cbn [snd] in Hle, Hsrc.
  unfold write_commit_history_entry. cbv zeta. fold t.
  change ((do! old := _ in _) t) with (entry_program cid meta (pw_commit_history_count state) t). rewrite Hrun. unfold drain_freed.
  set (freed' := freed t' ++ freed_reusable t' ++ scheduled_frees t').
  destruct (page_source t') as [s'|] eqn:Es; [|done]. cbn [page_source t btree_open_session] in Hsrc.
  destruct Hsrc as (_ & taken & Hcache & Hcons). cbn [cache consumed] in Hcache, Hcons.
  assert (unused t' ++ us' ++ scheduled_frees t' ++ X ≡ₚ cache s' ++ us' ++ freed' ++ X) as Hperm.
  { unfold unused, avail, freed'. rewrite Es. solve_Permutation. }
  destruct Ha' as (Hnd & Hb & H4 & _). rewrite Hperm in Hnd.
  rewrite filter_all4; [|intros p Hin; apply (Hb p); rewrite Hperm; mem].
  eexists freed', _, _, us'. split; [reflexivity|]. cbn [pw_next_page_id pw_commit_history_root_page_id pw_commit_history_count].
  replace (Z.max _ _) with (next_page_id t') by (cbn [next_page_id with_scheduled with_freed]; lia).
  unfold shared_of. cbn [page_source with_scheduled with_freed]. rewrite Es. cbn [sh_pages sh_cache sh_consumed bt_pages root_page_id with_scheduled with_freed].
  split; [|split; [|split; [|split; [done|lia]]]].
  - constructor; [by rewrite Hz' in Hsd'|apply kept_rows_ok, (rows_ok_insert m L); done|done].
  - split; [done|]. split; [|done]. intros p Hin. apply (Hb p). by rewrite Hperm.
  - by exists taken.
Qed.

Lemma shared_draws_refl sh : shared_draws sh sh.
Proof. exists []. split; [done|]. set_solver. Qed.
Lemma shared_draws_trans sh1 sh2 sh3 : shared_draws sh1 sh2 -> shared_draws sh2 sh3 -> shared_draws sh1 sh3.
Proof.
  intros (l1 & H1 & C1) (l2 & H2 & C2). exists (l1 ++ l2). split; [by rewrite H1, H2, app_assoc|].
  rewrite C2, C1, list_to_set_app_L. set_solver.
Qed.

Lemma history_get pages root m us L count next key :
  history_ok pages root m us L count -> NoDup us -> ~ (0 ∈ us) ->
  get (btree_open pages root next (db_page_size d)) key = Ok (m !! key).
Proof.
  intros [Hsd _ _] Hnd H0. eapply (part_get K _ m us ∅); [|done|done]. by apply sound_part.
Qed.

Lemma history_grow pages root m us L L' count : history_ok pages root m us L count -> L <= L' -> history_ok pages root m us L' count.
Proof. intros [? ? ?] ?. constructor; [done|by eapply rows_ok_weaken|done]. Qed.

(** What a step of the history leaves: [wrote sh state freed state' sh' m' us' L grow]. *)
Definition wrote (sh : Shared) (state : PendingWriterState) (X freed : list Z) (state' : PendingWriterState) (sh' : Shared)
    (m' : kv) (us' : list Z) (L limit : Z) : Prop :=
  history_ok (sh_pages sh') (pw_commit_history_root_page_id state') m' us' L (pw_commit_history_count state') /\
  shared_ok sh' (pw_next_page_id state') (us' ++ freed ++ X) /\ shared_draws sh sh' /\
  (forall p, p ∈ X -> sh_pages sh' !! p = sh_pages sh !! p) /\
  pw_next_page_id state <= pw_next_page_id state' <= limit.

Lemma shared_ok_use sh next us X : shared_ok sh next (us ++ X) -> NoDup us /\ ~ (0 ∈ us) /\ 4 <= next.
Proof.
  intros (Hnd & Hb & H4). apply NoDup_app in Hnd as (_ & _ & Hnd). apply NoDup_app in Hnd as (Hnd & _). split; [done|]. split; [|done].
  intros Hz. specialize (Hb 0 ltac:(mem)). lia.
Qed.

Lemma write_missing_ok sh state m us X previous seconds :
  shared_ok sh (pw_next_page_id state) (us ++ X) -> 0 <= ws_latest_commit_id previous ->
  history_ok (sh_pages sh) (pw_commit_history_root_page_id state) m us (ws_latest_commit_id previous) (pw_commit_history_count state) ->
  6 * pw_next_page_id state + 2 * ws_latest_commit_id previous + 200 <= 2 ^ 64 ->
  exists freed state' sh' m' us', write_missing_row e d sh state previous seconds = Ok (freed, state', sh') /\
    wrote sh state X freed state' sh' m' us' (ws_latest_commit_id previous)
      (6 * pw_next_page_id state + 2 * ws_latest_commit_id previous + 200) /\
    (m !! be64 (ws_latest_commit_id previous) <> None -> m' = m).
Proof.
  intros Hsh HL Hho Hroom. destruct (shared_ok_use _ _ _ _ Hsh) as (Hnd & H0 & H4). unfold write_missing_row.
  rewrite (history_get _ _ m us _ _ _ _ Hho Hnd H0).
  assert (forall r : result (list Z * PendingWriterState * Shared), r = Ok ([], state, sh) -> exists freed state' sh' m' us', r = Ok (freed, state', sh') /\
    wrote sh state X freed state' sh' m' us' (ws_latest_commit_id previous)
      (6 * pw_next_page_id state + 2 * ws_latest_commit_id previous + 200) /\
    (m !! be64 (ws_latest_commit_id previous) <> None -> m' = m)) as Hsame.
  { intros r ->. exists [], state, sh, m, us. split; [done|]. split; [|done]. split; [done|]. split; [done|].
    split; [apply shared_draws_refl|]. split; [done|lia]. }
  destruct (negb _ && negb _); [|by apply Hsame]. destruct (m !! be64 _) as [row|]; [by apply Hsame|].
  destruct (write_entry_ok sh state m us X (ws_latest_commit_id previous) (ws_latest_commit_id previous) (mkCommitHistoryMeta (ws_root_page_id previous) (ws_catalog_root_page_id previous)
    (ws_free_list_root_page_id previous) (ws_next_page_id previous) seconds) Hsh Hho ltac:(lia) HL ltac:(lia))
    as (freed1 & state1 & sh1 & us1 & Hw & Hrest). eexists freed1, state1, sh1, _, us1. split; [exact Hw|]. split; [exact Hrest|done].
Qed.

(** Both rows a commit may write. *)
Lemma write_rows_ok sh state m us X previous meta :
  shared_ok sh (pw_next_page_id state) (us ++ X) -> 0 <= ws_latest_commit_id previous ->
  history_ok (sh_pages sh) (pw_commit_history_root_page_id state) m us (ws_latest_commit_id previous) (pw_commit_history_count state) ->
  40 * (pw_next_page_id state + ws_latest_commit_id previous + 100) <= 2 ^ 64 ->
  let cid := ws_latest_commit_id previous + 1 in
  exists freed state' sh' m' us', write_commit_history_rows e d sh state previous cid meta = Ok (freed, state', sh') /\
    wrote sh state X freed state' sh' m' us' cid (40 * (pw_next_page_id state + ws_latest_commit_id previous + 100)) /\
    (m !! be64 (ws_latest_commit_id previous) <> None -> m' = next_rows m cid meta).
Proof.
  intros Hsh HL Hho Hroom cid. set (L := ws_latest_commit_id previous) in *. destruct (shared_ok_use _ _ _ _ Hsh) as (_ & _ & H4).
  destruct (write_missing_ok sh state m us X previous (hm_unix_seconds meta) Hsh HL Hho ltac:(fold L; lia))
    as (freed1 & state1 & sh1 & m1 & us1 & Hw1 & (Hho1 & Hsh1 & Hd1 & Hp1 & Hn1) & Hm1). fold L in Hho1, Hn1, Hm1.
  destruct (write_entry_ok sh1 state1 m1 us1 (freed1 ++ X) L cid meta Hsh1 Hho1 ltac:(lia) ltac:(lia) ltac:(lia))
    as (freed2 & state2 & sh2 & us2 & Hw2 & Hho2 & Hsh2 & Hd2 & Hp2 & Hn2).
  eexists (freed1 ++ freed2), state2, sh2, _, us2. unfold write_commit_history_rows. rewrite Hw1, Hw2. split; [done|].
  split; [|intros Hin; by rewrite (Hm1 Hin)]. split; [exact Hho2|]. split; [|split; [by eapply shared_draws_trans|]].
  - destruct Hsh2 as (Hnd2 & Hb2 & H42).
    assert (sh_cache sh2 ++ us2 ++ (freed1 ++ freed2) ++ X ≡ₚ sh_cache sh2 ++ us2 ++ freed2 ++ freed1 ++ X) as Hperm by solve_Permutation.
    split; [by rewrite Hperm|]. split; [intros p; rewrite Hperm; apply Hb2|done].
  - split; [intros p Hp; rewrite Hp2, Hp1; [done|done|mem]|]. lia.
Qed.

(** ** Dropping the history *)

Lemma sound_no_root st ps m us : sound K st 0 ps m us -> ~ (0 ∈ us) -> m = ∅ /\ us = [].
Proof.
  intros (_ & _ & [(_ & ? & ? & _)|(H & kvs & ids & ch & -> & Hr & _)]) Hz; [done|]. exfalso. apply Hz.
  apply rep_head in Hr as [ids' ->]. simpl. mem.
Qed.

Lemma sound_sound_pages st root ps m us :
  sound K st root ps m us -> root <> 0 -> NoDup us -> (forall p, p ∈ us -> 4 <= p) -> sound_pages K st root ps m us.
Proof.
  intros (Hps & _ & [(? & _)|(H & kvs & ids & ch & -> & Hr & _ & _ & _ & Hh)]) Hne Hnd H4; [done|].
  exists H, kvs, ids, ch. by split_and!.
Qed.

Lemma drop_history_ok sh state m us X L :
  shared_ok sh (pw_next_page_id state) (us ++ X) ->
  history_ok (sh_pages sh) (pw_commit_history_root_page_id state) m us L (pw_commit_history_count state) ->
  exists freed state', drop_commit_history d (sh_pages sh) state = Ok (freed, state') /\ freed ≡ₚ us /\
    history_ok (sh_pages sh) (pw_commit_history_root_page_id state') ∅ [] L (pw_commit_history_count state') /\
    pw_commit_history_root_page_id state' = 0 /\ pw_next_page_id state' = pw_next_page_id state.
Proof.
  intros Hsh [Hsd Hr Hcnt]. destruct (shared_ok_use _ _ _ _ Hsh) as (Hnd & H0 & H4). unfold drop_commit_history.
  assert (rows_ok ∅ L) as Hr0 by (intros k v Hk; by rewrite lookup_empty in Hk).
  assert (sound K (sh_pages sh) 0 (db_page_size d) ∅ []) as Hs0 by (destruct Hsd as (? & ? & _); by apply sound_nothing).
  destruct (Z.eqb_spec (pw_commit_history_root_page_id state) 0) as [E|E].
  - rewrite E in Hsd. destruct (sound_no_root _ _ _ _ Hsd H0) as [-> ->]. exists [], state. split; [done|]. split; [done|].
    rewrite E. split; [|done]. by constructor.
  - unfold droppable_history_pages. destruct (walks_exact K (sh_pages sh) (pw_commit_history_root_page_id state)
      (pw_next_page_id state) (db_page_size d) m us ∅) as [-> _].
    { apply sound_sound_pages; try done. intros p Hp. destruct Hsh as (_ & Hb & _). apply Hb. mem. }
    eexists _, _. split; [reflexivity|]. rewrite union_empty_r_L. split; [by apply elements_list_to_set|].
    split; [|done]. constructor; [done|done|]. unfold count_ok. destruct (db_retain d); try done; by intros c [= <-].
Qed.

(** ** The history of a commit *)

Lemma commit_history_ok sh pending m us X meta :
  shared_ok sh (pw_next_page_id pending) (us ++ X) -> 0 <= ws_latest_commit_id (db_writer d) ->
  history_ok (sh_pages sh) (pw_commit_history_root_page_id pending) m us (ws_latest_commit_id (db_writer d)) (pw_commit_history_count pending) ->
  40 * (pw_next_page_id pending + ws_latest_commit_id (db_writer d) + 100) <= 2 ^ 64 ->
  let cid := ws_latest_commit_id (db_writer d) + 1 in
  exists freed pending' sh' m' us', commit_history e d sh pending cid meta = Ok (freed, pending', sh') /\
    wrote sh pending X freed pending' sh' m' us' cid (40 * (pw_next_page_id pending + ws_latest_commit_id (db_writer d) + 100)) /\
    (db_retain d = Disabled -> sh' = sh /\ pw_commit_history_root_page_id pending' = 0) /\
    (history_rows_gone d = false -> m !! be64 (ws_latest_commit_id (db_writer d)) <> None -> m' = next_rows m cid meta).
Proof.
  intros Hsh HL Hho Hroom cid. unfold commit_history.
  assert (exists dropped pending1 m1 us1,
    (if history_rows_gone d then drop_commit_history d (sh_pages sh) pending else Ok ([], pending)) = Ok (dropped, pending1) /\
    shared_ok sh (pw_next_page_id pending1) (us1 ++ dropped ++ X) /\
    history_ok (sh_pages sh) (pw_commit_history_root_page_id pending1) m1 us1 (ws_latest_commit_id (db_writer d)) (pw_commit_history_count pending1) /\
    (history_rows_gone d = true -> pw_commit_history_root_page_id pending1 = 0) /\ (history_rows_gone d = false -> m1 = m) /\
    pw_next_page_id pending1 = pw_next_page_id pending) as (dropped & pending1 & m1 & us1 & -> & Hsh1 & Hho1 & Hz1 & Hm1 & Hn1).
  { destruct (history_rows_gone d); [|by exists [], pending, m, us].
    destruct (drop_history_ok sh pending m us X _ Hsh Hho) as (freed & state' & -> & Hf & Hho' & Hz & Hn).
    exists freed, state', ∅, []. split; [done|]. split; [|done]. rewrite Hn. destruct Hsh as (Hnd & Hb & H4). simpl.
    split; [by rewrite Hf|]. split; [intros p; rewrite Hf; apply Hb|done]. }
  destruct (shared_ok_use _ _ _ _ Hsh1) as (_ & _ & H4). rewrite <-Hn1 in Hroom |- *.
  destruct (history_disabled d) eqn:Hdis.
  - apply bool_decide_eq_true in Hdis as Hdis'. exists dropped, pending1, sh, m1, us1. split; [done|]. split; [|split].
    + split; [apply (history_grow _ _ _ _ _ cid _ Hho1); lia|]. split; [done|]. split; [apply shared_draws_refl|]. split; [done|lia].
    + intros _. split; [done|]. apply Hz1. unfold history_rows_gone. by rewrite Hdis.
    + unfold history_rows_gone. by rewrite Hdis.
  - destruct (write_rows_ok sh pending1 m1 us1 (dropped ++ X) (db_writer d) meta Hsh1 HL Hho1 Hroom)
      as (freed & pending2 & sh2 & m2 & us2 & Hw & (Hho2 & Hsh2 & Hd2 & Hp2 & Hn2) & Hm2). fold cid in Hw. rewrite Hw.
    exists (dropped ++ freed), pending2, sh2, m2, us2. split; [done|]. split; [|split].
    + split; [done|]. split; [|split; [done|split; [intros p Hp; apply Hp2; mem|lia]]].
      destruct Hsh2 as (Hnd2 & Hb2 & H42).
      assert (sh_cache sh2 ++ us2 ++ (dropped ++ freed) ++ X ≡ₚ sh_cache sh2 ++ us2 ++ freed ++ dropped ++ X) as Hperm by solve_Permutation.
      split; [by rewrite Hperm|]. split; [intros p; rewrite Hperm; apply Hb2|done].
    + intros E. apply bool_decide_eq_false in Hdis. done.
    + intros Hg Hin. rewrite (Hm1 Hg) in Hm2. by apply Hm2.
Qed.
End entry.
