(* ===== verification/TxnRetention.v ===== *)
(** * TxnRetention: what the commit history retains

    One row written to the commit history, seen from outside: which rows a policy
    leaves, and that a row a reader pins is always one of them. *)

From S2P Require Import Prelude Keys Errors PageFormat Node Leaf Split Store Overflow FreeList StructuralHeader HeaderSlots Tree TreeWrite TreePut TreeScan TreeScanOps TxnState TxnWrite TxnCommit TxnOpen TxnShare TxnOps TxnHistory.
From Stdlib Require Import ZArith Lia.
From stdpp Require Import base list strings gmap.

Local Open Scope Z_scope.
Local Open Scope pagedb_scope.

Lemma run_keeps {A} (p : A -> bool) l x : forall n, x ∈ l -> p x = false -> (n <= run p l)%nat -> x ∈ drop n l.
Proof.
  induction l as [|y l IH]; intros n Hx Hp Hn; [by apply elem_of_nil in Hx|]. destruct n as [|n]; [done|]. simpl in *.
  destruct (p y) eqn:Hy; [|lia]. apply elem_of_cons in Hx as [->|Hx]; [congruence|]. apply IH; [done|done|lia].
Qed.

Lemma history_row_commit_be64 c : is_u64 c -> history_row_commit (be64 c) = Ok c.
Proof.
  intros Hc. unfold history_row_commit. rewrite be64_len. simpl. f_equal. unfold of_be, be64. rewrite reverse_involutive.
  by apply of_le64.
Qed.

(** No policy takes a row a reader pins. *)
Lemma kept_pinned policy now r key m c v : is_u64 c -> r <= c -> m !! be64 c = Some v ->
  rec_map (kept_rows policy now (Some r) key m) !! be64 c = Some v.
Proof.
  intros Hc Hle Hv. destruct (bindings_lists m) as [Hs Hm].
  assert (unpinned (Some r) (be64 c, v) = false) as Hun.
  { unfold unpinned. cbn [fst]. rewrite history_row_commit_be64 by done. simpl. by rewrite (proj2 (Z.leb_le _ _)). }
  rewrite <-Hm in Hv at 1. apply rec_map_Some in Hv; [|done]. apply rec_map_Some; [apply kept_sorted|].
  unfold kept_rows. destruct policy; try done; (eapply run_keeps; [done| |]); [exact Hun|lia| |done].
  unfold aged. by rewrite Hun, andb_false_r.
Qed.

(** With no reader a count is kept to the row. *)
Lemma run_all {A} (p : A -> bool) l : Forall (fun x => p x = true) l -> run p l = length l.
Proof. induction 1 as [|x l Hx _ IH]; simpl; [done|]. by rewrite Hx, IH. Qed.

Lemma kept_count n now key m L : rows_ok m L -> 0 <= n ->
  Z.of_nat (length (kept_rows (Count n) now None key m)) = Z.min (Z.of_nat (size m)) n.
Proof.
  intros Hr Hn. unfold kept_rows. rewrite run_all, length_drop, bindings_length; [lia|].
  eapply Forall_impl; [exact (bindings_rows_ok m L Hr)|]. intros row Hrow. destruct (row_commit L row Hrow) as [c Hc].
  unfold unpinned. by rewrite Hc.
Qed.

(** C13: writing the row of a commit leaves exactly the rows the policy keeps. On a
    sound history whose rows are those of earlier commits, the call always succeeds;
    the tree it leaves holds the old rows and the new one less the oldest rows the
    policy lets go, and their count is known where the policy needs it. The pages of
    the new tree, those freed and those of everything else are distinct, and nothing
    outside the history is touched. No row a reader pins is pruned, and with no
    reader a policy that keeps [n] rows keeps [n] exactly once there are that many. *)
Theorem history_retention_exact K e d sh state m us X L cid meta :
  8 <= K -> OVERFLOW_ROOT_HEADER_LEN + ENVELOPE_OVERHEAD < db_page_size d ->
  (forall l : gmap Z Leaf, env_drain e l ≡ₚ map_to_list l) -> (forall n, db_retain d = Count n -> 0 <= n) ->
  shared_ok sh (pw_next_page_id state) (us ++ X) ->
  history_ok K d (sh_pages sh) (pw_commit_history_root_page_id state) m us L (pw_commit_history_count state) ->
  L <= cid -> 0 <= cid -> 6 * pw_next_page_id state + 2 * cid + 200 <= 2 ^ 64 ->
  let rows := <[be64 cid := encode_commit_meta meta]> m in
  let kept : kv := rec_map (kept_rows (db_retain d) (env_unix_seconds e) (min_reader d) (be64 cid) rows) in
  exists freed state' sh' us', write_commit_history_entry e d sh state cid meta = Ok (freed, state', sh') /\
    history_ok K d (sh_pages sh') (pw_commit_history_root_page_id state') kept us' cid (pw_commit_history_count state') /\
    shared_ok sh' (pw_next_page_id state') (us' ++ freed ++ X) /\
    (forall p, p ∈ X -> sh_pages sh' !! p = sh_pages sh !! p) /\
    (forall r c v, min_reader d = Some r -> r <= c -> is_u64 c -> rows !! be64 c = Some v -> kept !! be64 c = Some v) /\
    (forall n, db_retain d = Count n -> min_reader d = None -> Z.of_nat (size kept) = Z.min (Z.of_nat (size rows)) n).
Proof.
  intros HK Hov Hdr Hcount Hsh Hho HL Hc Hroom rows kept.
  destruct (write_entry_ok K e d HK Hov Hdr Hcount sh state m us X L cid meta Hsh Hho HL Hc Hroom)
    as (freed & state' & sh' & us' & Hw & Hho' & Hsh' & _ & Hsame & _).
  exists freed, state', sh', us'. split; [done|]. split; [done|]. split; [done|]. split; [done|]. split.
  - intros r c v Hr Hle Hu Hv. unfold kept. rewrite Hr. by apply kept_pinned.
  - intros n Hn Hr. unfold kept. rewrite kept_rows_size, Hn, Hr. eapply kept_count; [|by apply Hcount].
    apply (rows_ok_insert m L); [apply Hho|done|done|done].
Qed.

(** The first commit of a store that keeps two. *)
Definition sample_env : Env :=
  mkEnv 9 true map_to_list (mkFlushOutcome (Ok tt) ∅ 0 (mkHeaderCursor SlotA 1)) 1 HeaderWritten (Ok tt) (Ok tt).
Definition sample_meta : CommitHistoryMeta := mkCommitHistoryMeta 4 0 0 5 9.

Lemma history_retention_exact_witness :
  exists d freed state' sh' us',
    create_db (mkDbConfig 4096 (zeros 16) 1 0 (zeros 16) (zeros 16) 0 (Count 2) 100) = Ok d /\
    write_commit_history_entry sample_env d (mkShared ∅ [] ∅) (capture (db_writer d)) 1 sample_meta = Ok (freed, state', sh') /\
    history_ok 64 d (sh_pages sh') (pw_commit_history_root_page_id state')
      (rec_map (kept_rows (Count 2) 9 None (be64 1) (<[be64 1 := encode_commit_meta sample_meta]> ∅))) us' 1
      (pw_commit_history_count state').
Proof.
  eexists. match goal with |- context [create_db ?cfg = Ok ?d] => assert (create_db cfg = Ok _) as Hd by reflexivity end.
  match type of Hd with _ = Ok ?d =>
    destruct (history_retention_exact 64 sample_env d (mkShared ∅ [] ∅) (capture (db_writer d)) ∅ [] [] 0 1 sample_meta)
      as (freed & state' & sh' & us' & H1 & H2 & _) end.
  - lia.
  - by vm_compute.
  - done.
  - intros n Hn. injection Hn as <-. lia.
  - split; [apply NoDup_nil_2|]. split; [|done]. intros p Hp. by apply elem_of_nil in Hp.
  - constructor; [| |by intros c [= <-]].
    + apply sound_nothing; [by vm_compute|by vm_compute].
    + intros k v Hk. by rewrite lookup_empty in Hk.
  - lia.
  - lia.
  - by vm_compute.
  - exists freed, state', sh', us'. split; [exact Hd|]. split; [exact H1|exact H2].
Defined.
