(* ===== verification/TxnInv.v ===== *)
(** * TxnInv: what a store keeps between and during transactions

    The three trees and the chain of the free list in the page image, the pages each
    of them uses, the snapshots of the readers, and a write transaction over them. *)

From S2P Require Import Prelude Keys Errors PageFormat Node Leaf Internal Split Store Overflow FreeList Layout StructuralHeader HeaderSlots Tree TreeWrite TreeRep TreeAlloc TreeCow TreePropagate TreePut TreeOps TreeBatch TreeSpec TreeScan TreeScanOps TreeFlush TreeWalk TreeSource TxnState TxnWrite TxnCommit TxnOpen TxnShare TxnOps TxnHistory.
From Stdlib Require Import ZArith Lia.
From stdpp Require Import base list strings gmap.

Local Open Scope Z_scope.
Local Open Scope pagedb_scope.

(** ** The store on disk *)

(** Which pages are used for what. *)
Record Disk := mkDisk {
  dk_data : list Z;
  dk_catalog : list Z;
  dk_history : list Z;
  dk_rows : kv;
  dk_links : list (Z * list entry);
}.

Definition tracked (D : Disk) : list Z :=
  dk_data D ++ dk_catalog D ++ dk_history D ++ (dk_links D).*1 ++ (all_entries (dk_links D)).*2.

Section inv.
Context (K : Z).

(** The image holds what the writer's state [s] describes: the data [m], the
    catalog [c], the history and the free list. *)
Record disk_ok (ps : Z) (pages : Store) (s : WriterState) (m c : kv) (D : Disk) : Prop := mkDiskOk {
  do_data : sound K pages (ws_root_page_id s) ps m (dk_data D);
  do_catalog : sound K pages (ws_catalog_root_page_id s) ps c (dk_catalog D);
  do_history : sound K pages (ws_commit_history_root_page_id s) ps (dk_rows D) (dk_history D);
  do_rows : rows_ok (dk_rows D) (ws_latest_commit_id s);
  do_chain : FreeList.chain pages (ws_free_list_root_page_id s) (dk_links D);
  do_nodup : NoDup (tracked D);
  do_bounds : forall p, p ∈ tracked D -> 4 <= p < ws_next_page_id s;
  do_next : 4 <= ws_next_page_id s;
  do_latest : 0 <= ws_latest_commit_id s;
  do_cids : forall en, en ∈ all_entries (dk_links D) -> 0 <= en.1 <= ws_latest_commit_id s;
  do_tag : ws_commit_retain_policy_tag s = RETAIN_POLICY_TAG_DISABLED -> ws_commit_history_root_page_id s = 0;
}.

(** A reader's snapshot is in pages the free list does not hand out to writers as
    long as the reader is there. *)
Record reader_ok (ps : Z) (pages : Store) (s : WriterState) (D : Disk) (r : TrackedReader) (m c : kv) (used : gset Z) : Prop :=
  mkReaderOk {
  ro_data : snapshot K pages (tr_root_page_id r) ps m used;
  ro_catalog : snapshot K pages (tr_catalog_root_page_id r) ps c used;
  ro_commit : tr_commit_id r <= ws_latest_commit_id s;
  ro_bounds : forall p, p ∈ used -> 4 <= p < ws_next_page_id s;
  ro_history : forall p, p ∈ used -> ~ (p ∈ dk_history D);
  ro_chain : forall p, p ∈ used -> ~ (p ∈ (dk_links D).*1);
  ro_entries : forall cid p, p ∈ used -> (cid, p) ∈ all_entries (dk_links D) -> tr_commit_id r < cid;
}.

(** ** The window of the free list *)

Definition window_pages : nat := Z.to_nat WINDOW_PAGES.
Definition window (D : Disk) : list entry := all_entries (take window_pages (dk_links D)).
Definition tail_links (D : Disk) : list (Z * list entry) := drop window_pages (dk_links D).

(** The pages a transaction may reuse, and those of everything but its trees. *)
Definition pool (floor : Z) (D : Disk) : list Z := (filter (fun en : entry => en.1 < floor) (window D)).*2.
Definition others (floor : Z) (D : Disk) : list Z :=
  (dk_links D).*1 ++ (filter (fun en : entry => ~ en.1 < floor) (window D)).*2 ++ (all_entries (tail_links D)).*2.

Lemma entries_window (D : Disk) : all_entries (dk_links D) = window D ++ all_entries (tail_links D).
Proof.
  unfold window, tail_links, all_entries. rewrite <-(take_drop window_pages (dk_links D)) at 1.
  by rewrite fmap_app, concat_app.
Qed.
Lemma filter_split {A} (P : A -> Prop) `{forall x, Decision (P x)} (l : list A) :
  l ≡ₚ filter P l ++ filter (fun x => ~ P x) l.
Proof.
  induction l as [|x l IH]; [done|]. destruct (decide (P x)).
  - rewrite filter_cons_True, filter_cons_False by tauto. simpl. by constructor.
  - rewrite filter_cons_False, filter_cons_True by tauto. rewrite <-Permutation_middle. by constructor.
Qed.

Lemma tracked_pool floor D :
  tracked D ≡ₚ pool floor D ++ dk_data D ++ dk_catalog D ++ dk_history D ++ others floor D.
Proof.
  unfold tracked, pool, others. rewrite entries_window, fmap_app, (filter_split (fun en : entry => en.1 < floor) (window D)) at 1.
  rewrite fmap_app. solve_Permutation.
Qed.

(** ** A write transaction *)

Record txn_inv (ps : Z) (pages : Store) (D : Disk) (P : gset Z) (w : WriteTxn) (v : View) (floor : Z) (ut uc : list Z) : Prop :=
  mkTxnInv {
  ti_holds : txn_holds K w v ut uc (dk_history D ++ others floor D) P;
  ti_size : page_size (btree w) = ps;
  ti_loaded : free_set_loaded w = window D;
  ti_chain : old_chain_pages w = (take window_pages (dk_links D)).*1;
  ti_tail : retained_tail w = mkChainTail (link_id (dk_links D) window_pages) (summary_of (all_entries (tail_links D)));
  ti_source : exists s taken, page_source (btree w) = Some s /\ pool floor D ≡ₚ taken ++ cache s /\ consumed s = list_to_set taken;
  ti_same : forall p, p ∈ P \/ p ∈ dk_history D ++ others floor D -> bt_pages (btree w) !! p = pages !! p;
  ti_protected : forall p, p ∈ dk_data D ++ dk_catalog D ++ dk_history D ++ (dk_links D).*1 -> p ∈ P;
  ti_reserved : forall p, p ∈ P -> 4 <= p;
}.

(** ** Beginning a transaction *)

Lemma fold_min_le l : forall x y, y = x \/ y ∈ l -> fold_left Z.min l x <= y.
Proof.
  induction l as [|z l IH]; intros x y; simpl; [intros [->|Hy]; [done|by apply elem_of_nil in Hy]|].
  intros [->|[->|Hy]%elem_of_cons].
  - etrans; [apply (IH (x `min` z) (x `min` z)); by left|lia].
  - etrans; [apply (IH (x `min` z) (x `min` z)); by left|lia].
  - apply IH. by right.
Qed.
Lemma min_reader_le d r : r ∈ db_readers d -> default U64_MAX (min_reader d) <= tr_commit_id r.
Proof.
  intros Hr. unfold min_reader, iter_min. destruct (tr_commit_id <$> db_readers d) as [|x l] eqn:E.
  - apply (list_elem_of_fmap_2 tr_commit_id) in Hr. rewrite E in Hr. by apply elem_of_nil in Hr.
  - apply fold_min_le. apply (list_elem_of_fmap_2 tr_commit_id) in Hr. rewrite E in Hr. by apply elem_of_cons in Hr.
Qed.

Lemma sound_answers st root next ps m us :
  sound K st root ps m us -> NoDup us -> ~ (0 ∈ us) -> answers (btree_open st root next ps) m.
Proof. intros Hs Hnd H0. eapply (part_answers K _ m us ∅); [by apply sound_part|done|done]. Qed.

Lemma disk_use ps pages s m c D : disk_ok ps pages s m c D ->
  (NoDup (dk_data D) /\ ~ (0 ∈ dk_data D)) /\ (NoDup (dk_catalog D) /\ ~ (0 ∈ dk_catalog D)) /\
  (NoDup (dk_history D) /\ ~ (0 ∈ dk_history D)).
Proof.
  intros [_ _ _ _ _ Hnd Hb _ _ _ _]. unfold tracked in Hnd, Hb.
  assert (forall p, p ∈ dk_data D \/ p ∈ dk_catalog D \/ p ∈ dk_history D -> p <> 0) as Hz.
  { intros p Hp ->. ospecialize (Hb 0 _); [|lia]. destruct Hp as [?|[?|?]]; mem. }
  apply NoDup_app in Hnd as (? & _ & Hnd). apply NoDup_app in Hnd as (? & _ & Hnd). apply NoDup_app in Hnd as (? & _ & _).
  split_and!; try done; intros Hin; (eapply (Hz 0); [|done]); eauto.
Qed.

(** The history never keeps a transaction from beginning. *)
Lemma history_bound_ok d m c D :
  disk_ok (db_page_size d) (db_pages d) (db_writer d) m c D -> exists b, history_reclamation_bound d = Ok b.
Proof.
  intros Hd. pose proof (disk_use _ _ _ _ _ _ Hd) as (_ & _ & Hnd & H0). destruct Hd as [_ _ Hs Hr _ _ _ _ _ _ _].
  unfold history_reclamation_bound, oldest_retained_history_commit. destruct (history_rows_abandoned _ _); [eauto|].
  destruct (_ =? 0); [eauto|].
  destruct (sound_answers _ _ (ws_next_page_id (db_writer d)) _ _ _ Hs Hnd H0) as [_ (_ & _ & _ & _ & _ & _ & _ & (o & -> & Ho) & _)].
  destruct o as [key|]; [|eauto]. specialize (Ho ltac:(eauto)). destruct (head (bindings (dk_rows D))) as [[k v]|] eqn:Hh; [|done].
  simplify_eq/=. apply head_Some in Hh as [l Hl].
  destruct (bindings_lists (dk_rows D)) as [Hso Hm]. destruct (Hr k v) as (cid & Hk & _).
  { rewrite <-Hm at 1. apply rec_map_Some; [done|]. rewrite Hl. left. }
  cbn [fst] in Hk. subst k. unfold history_row_commit. rewrite be64_len. simpl. eauto.
Qed.

Lemma begin_ok d m c D (U : gset Z) :
  db_poisoned d = None -> disk_ok (db_page_size d) (db_pages d) (db_writer d) m c D ->
  OVERFLOW_ROOT_HEADER_LEN + ENVELOPE_OVERHEAD < db_page_size d -> ws_next_page_id (db_writer d) <= 2 ^ 64 ->
  exists w floor P, begin_txn d = Ok w /\
    txn_inv (db_page_size d) (db_pages d) D P w (mkView m c []) floor (dk_data D) (dk_catalog D) /\
    (forall r, r ∈ db_readers d -> floor <= tr_commit_id r) /\
    (forall p, p ∈ U -> 4 <= p < ws_next_page_id (db_writer d) -> ~ (p ∈ pool floor D) -> p ∈ P).
Proof.
  intros Hpo Hd Hov Hn64. destruct (history_bound_ok d m c D Hd) as [b Hb]. set (s := db_writer d) in *.
  set (floor := Z.min (default U64_MAX (min_reader d)) (default U64_MAX b)).
  set (P := list_to_set (dk_data D ++ dk_catalog D ++ dk_history D ++ (dk_links D).*1) ∪
    filter (fun p => 4 <= p < ws_next_page_id s /\ ~ (p ∈ pool floor D)) U).
  unfold begin_txn, ensure_usable. rewrite Hpo, Hb. fold s. fold floor.
  pose proof (do_chain _ _ _ _ _ _ Hd) as Hch. fold s in Hch.
  assert (WINDOW_PAGES = Z.of_nat window_pages) as Hwp by done. rewrite Hwp.
  rewrite (read_chain_prefix_ok _ _ _ _ Hch). cbn [prefix_entries prefix_chain_pages prefix_tail].
  pose proof (tracked_pool floor D) as Htr. pose proof Hd as [Hs1 Hs2 Hs3 _ _ Hnd Hbd H4 _ _ _].
  rewrite Htr in Hnd. fold s in Hbd, H4.
  assert (forall p, p ∈ P -> p < ws_next_page_id s /\ ~ (p ∈ pool floor D)) as HP.
  { intros p [Hp|Hp]%elem_of_union; [|apply elem_of_filter in Hp as [[? ?] _]; split; [lia|done]].
    rewrite elem_of_list_to_set in Hp. split.
    - apply (Hbd p). unfold tracked. mem in Hp.
    - apply NoDup_app in Hnd as (_ & Hdj & _). intros Hin. apply (Hdj p Hin). unfold others. mem in Hp. }
  assert (forall root, alloc_ok 0 (btree_open_session (db_pages d) root (ws_next_page_id s) (db_page_size d)
    (mkPageSource (ws_next_page_id s) (pool floor D) ∅)) (dk_data D ++ dk_catalog D ++ dk_history D ++ others floor D) P) as Ha.
  { intros root. apply open_session_alloc; [done| |done|lia|].
    - intros p Hp. apply Hbd. rewrite Htr. done.
    - intros p Hp. destruct (HP p Hp) as [? ?]. split_and!; done. }
  eexists _, floor, P. split; [reflexivity|]. split; [|split].
  - constructor; cbn [btree catalog_tree free_set_loaded old_chain_pages retained_tail]; try done.
    + constructor; [|done|done]. cbn [v_data v_catalog btree catalog_tree]. constructor; try done.
      * by apply sound_part.
      * by apply sound_part.
      * intros p _. apply not_elem_of_nil.
    + eexists _, []. split; [reflexivity|]. done.
    + intros p Hp. apply elem_of_union. left. by apply elem_of_list_to_set.
    + intros p [Hp|Hp]%elem_of_union; [|apply elem_of_filter in Hp as [[? ?] _]; lia].
      rewrite elem_of_list_to_set in Hp. apply (Hbd p). unfold tracked. mem in Hp.
  - intros r Hr. pose proof (min_reader_le d r Hr). unfold floor. lia.
  - intros p Hp H4p Hni. apply elem_of_union. right. by apply elem_of_filter.
Qed.

(** ** The operations of a transaction *)

Lemma source_moves (l : list Z) t t' :
  draws t t' -> (exists s taken, page_source t = Some s /\ l ≡ₚ taken ++ cache s /\ consumed s = list_to_set taken) ->
  exists s taken, page_source t' = Some s /\ l ≡ₚ taken ++ cache s /\ consumed s = list_to_set taken.
Proof.
  intros (_ & _ & Hsrc) (s & taken & E & Hl & Hc). rewrite E in Hsrc. destruct (page_source t') as [s'|]; [|done].
  destruct Hsrc as (_ & more & Hm & Hc'). exists s', (taken ++ more). split; [done|]. split; [by rewrite Hl, Hm, app_assoc|].
  rewrite Hc', Hc, list_to_set_app_L. set_solver.
Qed.

Lemma txn_op_inv ps pages D P w v floor ut uc cfg o :
  txn_inv ps pages D P w v floor ut uc -> txn_op_ok K cfg o ->
  next_page_id (btree w) + Z.of_nat (txn_op_cost o (Z.to_nat (next_page_id (btree w)))) <= 2 ^ 64 ->
  exists w' ut' uc', run_txn_op cfg o w = (spec_reply (spec_txn_op cfg o v), w') /\
    txn_inv ps pages D P w' (spec_view v (spec_txn_op cfg o v)) floor ut' uc'.
Proof.
  intros [Hh Hz Hl Hc Ht Hs Hsame Hp Hr] Hok Hn.
  destruct (txn_op_does K cfg o v Hok w ut uc _ P Hh Hn) as (w' & ut' & uc' & Hrun & Hh' & (E1 & E2 & E3 & _) & Hd & Hu).
  exists w', ut', uc'. split; [done|]. constructor; try done; try congruence.
  - destruct Hd as (_ & -> & _). done.
  - by eapply source_moves.
  - intros p Hin. rewrite Hu by done. by apply Hsame.
Qed.
End inv.
