(* ===== verification/TxnPublish.v ===== *)
(** * TxnPublish: what a commit leaves on disk

    A candidate commit holds the maps of the transaction in pages of its own, and
    the free list it publishes names every page it gave up; whatever the
    environment answers, a restart finds the state before or the state after. *)

From S2P Require Import Prelude Keys Errors PageFormat Node Leaf Internal Split Store Overflow FreeList Layout StructuralHeader HeaderSlots Tree TreeWrite TreeRep TreeAlloc TreeCow TreePropagate TreePut TreeOps TreeBatch TreeSpec TreeScan TreeScanOps TreeFlush TreeWalk TreeSource TxnState TxnWrite TxnCommit TxnOpen TxnShare TxnOps TxnHistory TxnInv.
From Stdlib Require Import ZArith Lia.
From stdpp Require Import base list strings gmap.

Local Open Scope Z_scope.
Local Open Scope pagedb_scope.

(** Membership in a concatenation. *)
Local Ltac in_app Hp := rewrite !elem_of_app in Hp; rewrite !elem_of_app; tauto.

Section publish.
Context (K : Z).

(** ** Both trees in the image *)

Definition freed_all (t : BTree) : list Z := freed t ++ freed_reusable t ++ scheduled_frees t.

(** The trees of [w] are in the image alone, in the pages [ut] and [uc]; [X] are
    pages of others. *)
Record settled (ps : Z) (w : WriteTxn) (m c : kv) (ut uc X : list Z) (P : gset Z) (pages : Store) (pool : list Z) (limit : Z) : Prop :=
  mkSettled {
  se_data : sound K (bt_pages (btree w)) (root_page_id (btree w)) ps m ut;
  se_catalog : sound K (bt_pages (btree w)) (root_page_id (catalog_tree w)) ps c uc;
  se_source : exists s taken, page_source (btree w) = Some s /\ pool ≡ₚ taken ++ cache s /\ consumed s = list_to_set taken /\
    NoDup (cache s ++ ut ++ uc ++ freed_all (btree w) ++ freed_all (catalog_tree w) ++ X) /\
    (forall p, p ∈ cache s ++ ut ++ uc ++ freed_all (btree w) ++ freed_all (catalog_tree w) ++ X -> 4 <= p < next_page_id (btree w)) /\
    (forall p, p ∈ P -> ~ (p ∈ cache s) /\ p < next_page_id (btree w));
  se_next : next_page_id (catalog_tree w) = next_page_id (btree w);
  se_limit : 4 <= next_page_id (btree w) <= limit;
  se_same : forall p, p ∈ P \/ p ∈ X -> bt_pages (btree w) !! p = pages !! p;
}.

Lemma materialize_ok e ps w v ut uc X P pages pool :
  (forall l : gmap Z Leaf, env_drain e l ≡ₚ map_to_list l) ->
  txn_holds K w v ut uc X P -> page_size (btree w) = ps -> next_page_id (btree w) <= 2 ^ 62 ->
  (exists s taken, page_source (btree w) = Some s /\ pool ≡ₚ taken ++ cache s /\ consumed s = list_to_set taken) ->
  (forall p, p ∈ P \/ p ∈ X -> bt_pages (btree w) !! p = pages !! p) ->
  exists w' ut' uc', materialize e w = (Ok tt, w') /\
    settled ps w' (v_data v) (v_catalog v) ut' uc' X P pages pool (3 * next_page_id (btree w)) /\ same_window w w'.
Proof.
  intros Hdr [Hj Hmk Hsg] Hz Hn Hsrc Hsame. pose proof (joint_pages _ _ _ _ _ _ _ _ _ Hj) as (_ & _ & _ & _ & Hlt & Hlc).
  destruct Hj as [Hm Hc Ha Hr Hnx Hsz Hov]. set (t := btree w) in *. set (c := catalog_tree w) in *.
  destruct (flush_part K (env_drain e) t _ ut _ P Hdr Hm Ha ltac:(lia)) as (t1 & ut1 & Hf1 & Hs1 & Ha1 & Hz1 & Hu1 & Hd1 & Hn1).
  assert (next_page_id c <= next_page_id t1) as Hnx1 by (destruct Hd1; lia).
  destruct (to_catalog_fields t1 c Hnx1) as (En & Es & Ef & Efr & Ez & Eb & Hsc).
  assert (part K (to_catalog t1 c) (v_catalog v) uc P) as Hc1.
  { eapply part_same_content; [|exact Hsc]. eapply part_frame; [exact Hc|done..| |done]. intros p Hp. simpl. apply Hu1. right. mem. }
  assert (alloc_ok 0 (to_catalog t1 c) (uc ++ ut1 ++ scheduled_frees t1 ++ freed t1 ++ freed_reusable t1 ++ X) P) as Hac.
  { eapply alloc_ok_perm; [|done|apply (alloc_handover 0 t1 (to_catalog t1 c) (ut1 ++ scheduled_frees t1 ++ uc) X P)];
      [solve_Permutation| |done|done|by rewrite Efr].
    rewrite Ef, Efr. eapply alloc_ok_perm; [|done|exact Ha1]. solve_Permutation. }
  destruct (flush_part K (env_drain e) (to_catalog t1 c) _ uc _ P Hdr Hc1 Hac) as (c2 & uc2 & Hf2 & Hs2 & Ha2 & Hz2 & Hu2 & Hd2 & Hn2);
    [rewrite En; lia|].
  pose proof Hd2 as (Hle2 & _ & Hsrc2). rewrite En in Hle2, Hn2. destruct (from_catalog_fields t1 c2 Hle2) as (Fn & Fs & Ff & Ffr & Fz & Fb & Fsc).
  unfold materialize, tbind, on_main, sync_allocator_to_catalog, tmodify, on_catalog, sync_allocator_from_catalog, tmodify.
  fold t. rewrite Hf1. cbn [btree catalog_tree with_trees]. fold c. change (share t1 (set_next_page_id _ c)) with (to_catalog t1 c).
  rewrite Hf2. cbn [btree catalog_tree with_trees]. change (set_next_page_id _ (share c2 t1)) with (from_catalog c2 t1).
  eexists _, ut1, uc2. split; [reflexivity|]. split; [|done]. pose proof Fsc as (_ & Fr & _ & _ & Fsch & _).
  assert (draws t c2) as Hd02.
  { destruct Hd1 as (? & ? & Hs01). split; [lia|]. split; [congruence|]. rewrite Es in Hsrc2.
    destruct (page_source t), (page_source t1), (page_source c2); try done. by eapply drawn_trans. }
  constructor; cbn [btree catalog_tree with_trees].
  - rewrite Fb, Fr. simpl. rewrite Hz1, Hz in Hs1. eapply sound_frame; [|exact Hs1]. intros p Hp. rewrite Hu2, Eb; [done|right; mem].
  - rewrite Fb. rewrite Hz2, Ez, Hsz, Hz in Hs2. done.
  - destruct (source_moves pool t c2 Hd02 Hsrc) as (s & taken & E & Hpl & Hco). exists s, taken. rewrite Fs, Fn. split; [done|].
    split; [done|]. split; [done|]. unfold freed_all. rewrite Ff, Ffr, Fsch. simpl.
    destruct Ha2 as (Hnd & Hb & H4 & _ & HP).
    assert (cache s ++ ut1 ++ uc2 ++ (freed t1 ++ freed_reusable t1 ++ scheduled_frees t1) ++ (freed c2 ++ freed_reusable c2 ++ scheduled_frees c2) ++ X
      ≡ₚ unused c2 ++ uc2 ++ scheduled_frees c2 ++ ut1 ++ scheduled_frees t1 ++ freed t1 ++ freed_reusable t1 ++ X) as Hperm.
    { unfold unused, avail. rewrite E. solve_Permutation. }
    split; [by rewrite Hperm|]. split; [intros p; rewrite Hperm; apply Hb|].
    intros p Hp. destruct (HP p Hp) as (Hav & _ & Hlp). split; [|done]. intros Hin. apply Hav. unfold avail. rewrite E. mem.
  - by rewrite Fn.
  - rewrite Fn. destruct Ha2 as (_ & _ & H4 & _). split; [done|]. lia.
  - intros p Hp. rewrite Fb, Hu2, Eb, Hu1; [by apply Hsame|..]; destruct Hp as [Hp|Hp]; try (by left); right; mem.
Qed.

(** ** The entries of the window *)

Lemma pids_inj (es : list entry) a b : NoDup es.*2 -> a ∈ es -> b ∈ es -> a.2 = b.2 -> a = b.
Proof.
  intros Hnd [i Hi]%list_elem_of_lookup_1 [j Hj]%list_elem_of_lookup_1 E.
  assert (i = j) as ->; [|by simplify_eq]. eapply NoDup_lookup; [exact Hnd| |];
    rewrite list_lookup_fmap; [by rewrite Hi|rewrite Hj; simpl; by rewrite E].
Qed.

(** What is left of the window once the pages of [taken] are used. *)
Lemma prior_free_perm (es : list entry) floor (taken cache : list Z) :
  NoDup es.*2 -> (filter (fun en : entry => en.1 < floor) es).*2 ≡ₚ taken ++ cache ->
  (filter (fun en : entry => ~ (en.2 ∈ (list_to_set taken : gset Z))) es).*2 ≡ₚ
    cache ++ (filter (fun en : entry => ~ en.1 < floor) es).*2.
Proof.
  intros Hnd Hp. assert (forall Q (H : forall en : entry, Decision (Q en)), NoDup (filter Q es).*2) as Hndf.
  { intros Q HQ. eapply sublist_NoDup; [exact Hnd|]. apply fmap_sublist, sublist_filter. }
  assert (NoDup (taken ++ cache)) as Hndp by (rewrite <-Hp; apply Hndf).
  apply NoDup_app in Hndp as (_ & Hdj & Hndc).
  assert (forall p, p ∈ taken ++ cache <-> exists en, p = en.2 /\ en.1 < floor /\ en ∈ es) as Hin.
  { intros p. rewrite <-Hp, list_elem_of_fmap. split; [intros (en & -> & [? ?]%list_elem_of_filter); eauto|].
    intros (en & -> & ? & ?). exists en. split; [done|]. by apply list_elem_of_filter. }
  apply NoDup_Permutation; [apply Hndf|apply NoDup_app; split; [done|split; [|apply Hndf]]|].
  - intros p Hc (en & -> & [Hge He]%list_elem_of_filter)%list_elem_of_fmap.
    destruct (proj1 (Hin en.2)) as (en' & E & Hlt & He'); [apply elem_of_app; by right|].
    rewrite (pids_inj es en en' Hnd He He' E) in Hge. done.
  - intros p. rewrite elem_of_app, !list_elem_of_fmap. split.
    + intros (en & -> & [Hni He]%list_elem_of_filter). rewrite elem_of_list_to_set in Hni.
      destruct (decide (en.1 < floor)) as [Hlt|Hge].
      * left. pose proof (proj2 (Hin en.2) ltac:(by exists en)) as Hor. by apply elem_of_app in Hor as [?|?].
      * right. exists en. split; [done|]. by apply list_elem_of_filter.
    + intros [Hc|(en & -> & [Hge He]%list_elem_of_filter)].
      * destruct (proj1 (Hin p)) as (en & -> & Hlt & He); [apply elem_of_app; by right|]. exists en. split; [done|].
        apply list_elem_of_filter. split; [|done]. rewrite elem_of_list_to_set. intros Ht. by apply (Hdj en.2).
      * exists en. split; [done|]. apply list_elem_of_filter. split; [|done]. rewrite elem_of_list_to_set. intros Ht.
        destruct (proj1 (Hin en.2)) as (en' & E & Hlt & He'); [apply elem_of_app; by left|].
        rewrite (pids_inj es en en' Hnd He He' E) in Hge. done.
Qed.

Lemma filter_not_in (l : list Z) (A : gset Z) : (forall p, p ∈ l -> ~ (p ∈ A)) -> filter (fun p => ~ (p ∈ A)) l = l.
Proof.
  induction l as [|x l IH]; [done|]. intros Hl. rewrite filter_cons_True by (apply Hl; by left). f_equal. apply IH.
  intros p Hp. apply Hl. by right.
Qed.

(** ** The candidate *)

(** [L] is the last commit, [pages] the image a restart finds, [P] the pages that
    must not change. *)
Record cand_ok (ps : Z) (policy : RetainPolicy) (pages : Store) (D : Disk) (P : gset Z) (L : Z) (v : View) (tail : Z)
    (ca : Candidate) (ut uc uh : list Z) (mh : kv) : Prop := mkCandOk {
  co_data : sound K (sh_pages (ca_shared ca)) (ca_root ca) ps (v_data v) ut;
  co_catalog : sound K (sh_pages (ca_shared ca)) (ca_catalog_root ca) ps (v_catalog v) uc;
  co_history : sound K (sh_pages (ca_shared ca)) (pw_commit_history_root_page_id (ca_pending ca)) ps mh uh;
  co_rows : rows_ok mh (L + 1);
  co_count : count_ok policy (pw_commit_history_count (ca_pending ca)) (size mh);
  co_chain : FreeList.chain (sh_pages (ca_shared ca)) tail (tail_links D);
  co_nodup : NoDup ((ca_entries ca).*2 ++ ut ++ uc ++ uh ++ (tail_links D).*1 ++ (all_entries (tail_links D)).*2);
  co_bounds : forall p, p ∈ (ca_entries ca).*2 ++ ut ++ uc ++ uh ++ (tail_links D).*1 ++ (all_entries (tail_links D)).*2 ->
    4 <= p < pw_next_page_id (ca_pending ca);
  co_hosts : NoDup (ca_hosts ca) /\ ca_hosts ca ⊆ (ca_entries ca).*2 /\ (forall p, p ∈ P -> ~ (p ∈ ca_hosts ca));
  co_limit : 4 <= pw_next_page_id (ca_pending ca) <= 2 ^ 56;
  co_cids : forall en, en ∈ ca_entries ca -> 0 <= en.1 <= L + 1;
  co_origin : forall en, en ∈ ca_entries ca -> en ∈ window D \/ en.1 = L + 1 \/ en.2 ∈ (dk_links D).*1;
  co_same : forall p, p ∈ P -> ~ (p ∈ dk_history D) -> sh_pages (ca_shared ca) !! p = pages !! p;
  co_disabled : policy = Disabled -> (forall p, p ∈ P -> sh_pages (ca_shared ca) !! p = pages !! p) /\
    pw_commit_history_root_page_id (ca_pending ca) = 0;
  co_below : forall p, p ∈ P -> p < pw_next_page_id (ca_pending ca);
  co_used : forall p, p ∈ P -> ~ (p ∈ dk_history D) -> ~ (p ∈ uh);
}.

(** The image and the source after both trees are written, with every page that
    must not change accounted for. *)
Lemma settled_shared ps w m c ut uc X P pages pool limit uh :
  settled ps w m c ut uc (uh ++ X) P pages pool limit -> (forall p, p ∈ P -> 4 <= p) ->
  exists Y taken, shared_ok (shared_of (btree w)) (next_page_id (btree w)) (uh ++ Y) /\
    pool ≡ₚ taken ++ sh_cache (shared_of (btree w)) /\ sh_consumed (shared_of (btree w)) = list_to_set taken /\
    sh_pages (shared_of (btree w)) = bt_pages (btree w) /\
    (exists extra, Y = (ut ++ uc ++ freed_all (btree w) ++ freed_all (catalog_tree w) ++ X) ++ extra) /\
    (forall p, p ∈ P -> p ∈ uh \/ p ∈ Y) /\ (forall p, p ∈ P -> ~ (p ∈ sh_cache (shared_of (btree w)))).
Proof.
  intros [_ _ (s & taken & E & Hpl & Hco & Hnd & Hb & HP) _ H4 _] HP4.
  set (Y0 := ut ++ uc ++ freed_all (btree w) ++ freed_all (catalog_tree w) ++ X).
  set (known := cache s ++ uh ++ Y0). set (extra := elements (P ∖ list_to_set known)).
  assert (shared_of (btree w) = mkShared (bt_pages (btree w)) (cache s) (consumed s)) as -> by (unfold shared_of; by rewrite E).
  cbn [sh_cache sh_consumed sh_pages]. exists (Y0 ++ extra), taken.
  assert (cache s ++ ut ++ uc ++ freed_all (btree w) ++ freed_all (catalog_tree w) ++ uh ++ X ≡ₚ known) as Hperm.
  { unfold known, Y0. solve_Permutation. }
  assert (forall p, p ∈ extra <-> p ∈ P /\ ~ (p ∈ known)) as Hex.
  { intros p. unfold extra. rewrite elem_of_elements, elem_of_difference, elem_of_list_to_set. done. }
  split; [|split; [done|split; [done|split; [done|split; [by exists extra|split]]]]].
  - assert (cache s ++ uh ++ Y0 ++ extra = known ++ extra) as Hk by (unfold known; by rewrite <-!app_assoc).
    unfold shared_ok. cbn [sh_cache]. rewrite Hk. split; [|split; [|lia]].
    + apply NoDup_app. split; [by rewrite <-Hperm|]. split; [|apply NoDup_elements]. intros p Hp Hx. by apply Hex in Hx as [_ ?].
    + intros p [Hp|Hp]%elem_of_app; [apply Hb; by rewrite Hperm|]. apply Hex in Hp as [Hp _]. split; [by apply HP4|by apply HP].
  - intros p Hp. destruct (decide (p ∈ known)) as [Hk|Hk].
    + unfold known in Hk. apply elem_of_app in Hk as [Hk|Hk]; [by apply HP in Hk|].
      apply elem_of_app in Hk as [Hk|Hk]; [by left|right; mem].
    + right. apply elem_of_app. right. by apply Hex.
  - intros p Hp. by apply HP.
Qed.

(** The new entries name the pages that are left in the cache, those not yet
    reusable, the freed ones and the superseded chain. *)
Lemma new_entries_pids D floor taken cache frees cid :
  NoDup (window D).*2 -> pool floor D ≡ₚ taken ++ cache ->
  (filter (fun en : entry => ~ (en.2 ∈ (list_to_set taken : gset Z))) (window D) ++ (pair cid <$> frees) ++
     (pair CHAIN_METADATA_CID <$> (take window_pages (dk_links D)).*1)).*2 ≡ₚ
  cache ++ frees ++ (take window_pages (dk_links D)).*1 ++ (filter (fun en : entry => ~ en.1 < floor) (window D)).*2.
Proof.
  intros Hnd Hp. rewrite !fmap_app, (prior_free_perm (window D) floor taken cache Hnd Hp), <-!list_fmap_compose.
  change (snd ∘ pair cid) with (fun x : Z => x). change (snd ∘ pair CHAIN_METADATA_CID) with (fun x : Z => x).
  rewrite !list_fmap_id. solve_Permutation.
Qed.

Lemma disk_window ps pages st m c D : disk_ok K ps pages st m c D -> NoDup (window D).*2 /\
  FreeList.chain pages (link_id (dk_links D) window_pages) (tail_links D).
Proof.
  intros [_ _ _ _ Hch Hnd _ _ _ _ _]. split; [|by eapply chain_drop].
  unfold tracked in Hnd. rewrite !NoDup_app in Hnd. destruct Hnd as (_ & _ & _ & _ & _ & _ & _ & _ & Hnd).
  rewrite entries_window, fmap_app, NoDup_app in Hnd. tauto.
Qed.

Lemma links_split D : (dk_links D).*1 = (take window_pages (dk_links D)).*1 ++ (tail_links D).*1.
Proof. unfold tail_links. by rewrite <-fmap_app, take_drop. Qed.

Lemma candidate_ok e d w v m0 c0 D P floor ut uc :
  (forall l : gmap Z Leaf, env_drain e l ≡ₚ map_to_list l) -> 8 <= K ->
  OVERFLOW_ROOT_HEADER_LEN + ENVELOPE_OVERHEAD < db_page_size d -> (forall k, db_retain d = Count k -> 0 <= k) ->
  disk_ok K (db_page_size d) (db_pages d) (db_writer d) m0 c0 D ->
  count_ok (db_retain d) (ws_commit_history_count (db_writer d)) (size (dk_rows D)) ->
  txn_inv K (db_page_size d) (db_pages d) D P w v floor ut uc ->
  next_page_id (btree w) <= 2 ^ 48 -> ws_latest_commit_id (db_writer d) <= 2 ^ 48 ->
  exists ca ut' uc' uh' mh', candidate e w d = Ok ca /\
    cand_ok (db_page_size d) (db_retain d) (db_pages d) D P (ws_latest_commit_id (db_writer d)) v
      (tail_head (retained_tail w)) ca ut' uc' uh' mh'.
Proof.
  intros Hdr HK Hov Hcount Hd Hcnt [Hh Hz Hl Hch Ht Hsrc Hsame Hprot Hres] Hn HL.
  pose proof (disk_window _ _ _ _ _ _ Hd) as [Hndw Htail]. pose proof Hd as [_ _ Hdh Hrows _ _ _ _ HL0 Hcids _].
  destruct (materialize_ok e (db_page_size d) w v ut uc _ P (db_pages d) (pool floor D) Hdr Hh Hz ltac:(lia) Hsrc Hsame)
    as (w' & ut' & uc' & Hmat & Hse & (El & Ec & Et & _)).
  set (L := ws_latest_commit_id (db_writer d)) in *.
  destruct (settled_shared _ _ _ _ _ _ _ _ _ _ _ (dk_history D) Hse Hres) as (Y & taken & Hsh & Hpl & Hco & Hpg & (extra & HY) & HPY & HPc).
  pose proof Hse as [Hsd1 Hsd2 _ Hnc [Hn4 Hnl] Hsm].
  set (pending := pending_with_next (Z.max (next_page_id (btree w')) (next_page_id (catalog_tree w'))) (capture (db_writer d))).
  assert (pw_next_page_id pending = next_page_id (btree w')) as Hpn by (unfold pending; simpl; lia). rewrite <-Hpn in Hsh, Hnl, Hn4.
  set (meta := mkCommitHistoryMeta (root_page_id (btree w')) (root_page_id (catalog_tree w'))
    (ws_free_list_root_page_id (db_writer d)) (pw_next_page_id pending) (env_unix_seconds e)).
  destruct (commit_history_ok K e d HK Hov Hdr Hcount (shared_of (btree w')) pending (dk_rows D) (dk_history D) Y meta Hsh HL0)
    as (freed & pending' & sh' & mh' & uh' & Hhist & ([Hhs Hhr Hhc] & Hsh' & (more & Hmore & Hcon) & Hpg' & Hnx') & Hdis & _).
  { constructor; [|done|done]. simpl. rewrite Hpg. eapply sound_frame; [|exact Hdh]. intros p Hp. apply Hsm. right. mem. }
  { fold L. lia. }
  fold L in Hhist, Hhr, Hnx'. unfold candidate. rewrite Hmat. cbv beta iota zeta. fold L. fold pending. fold meta. rewrite Hhist. cbv beta iota.
  change ((drain_freed (btree w')).1) with (freed_all (btree w')). change ((drain_freed (catalog_tree w')).1) with (freed_all (catalog_tree w')).
  set (frees := freed_all (btree w') ++ freed_all (catalog_tree w') ++ freed).
  assert (pool floor D ≡ₚ (taken ++ more) ++ sh_cache sh') as Hpl' by (rewrite Hpl, Hmore; by rewrite app_assoc).
  assert (sh_consumed sh' = list_to_set (taken ++ more)) as Hcon' by (rewrite Hcon, Hco, list_to_set_app_L; set_solver).
  destruct Hsh' as (Hnd' & Hb' & H4').
  assert (forall p, p ∈ sh_cache sh' -> ~ (p ∈ sh_consumed sh')) as Hhosts.
  { intros p Hp. rewrite Hcon', elem_of_list_to_set. intros Hin.
    assert (NoDup (pool floor D)) as Hndp. { eapply sublist_NoDup; [exact Hndw|]. apply fmap_sublist, sublist_filter. }
    rewrite Hpl' in Hndp. apply NoDup_app in Hndp as (_ & Hdj & _). by apply (Hdj p). }
  rewrite (filter_all4 frees); [|intros p Hp; apply (Hb' p); unfold frees in Hp; rewrite HY; in_app Hp].
  rewrite (filter_not_in (sh_cache sh')) by done. rewrite Hcon', El, Ec, Hl, Hch.
  set (es := filter _ (window D) ++ _).
  assert (es.*2 ≡ₚ sh_cache sh' ++ frees ++ (take window_pages (dk_links D)).*1 ++ (filter (fun en : entry => ~ en.1 < floor) (window D)).*2) as Hes.
  { by apply new_entries_pids. }
  assert (es.*2 ++ ut' ++ uc' ++ uh' ++ (tail_links D).*1 ++ (all_entries (tail_links D)).*2 ++ extra ≡ₚ
    sh_cache sh' ++ uh' ++ freed ++ Y) as Hall.
  { rewrite Hes, HY. unfold frees, others. rewrite (links_split D). solve_Permutation. }
  assert (forall p, p ∈ P -> ~ (p ∈ dk_history D) -> p ∈ Y) as HPY'.
  { intros p Hp Hni. destruct (HPY p Hp); [done|done]. }
  rewrite <-Hall in Hnd'.
  eexists (mkCandidate _ _ _ _ es _), ut', uc', uh', mh'. split; [reflexivity|].
  constructor; cbn [ca_shared ca_root ca_catalog_root ca_pending ca_entries ca_hosts].
  - eapply sound_frame; [|exact Hsd1]. intros p Hp. rewrite Hpg', Hpg; [done|]. rewrite HY. mem.
  - eapply sound_frame; [|exact Hsd2]. intros p Hp. rewrite Hpg', Hpg; [done|]. rewrite HY. mem.
  - done.
  - done.
  - done.
  - rewrite Ht. cbn [tail_head]. eapply free_chain_frame; [|exact Htail]. intros p Hp.
    assert (p ∈ (dk_links D).*1) as Hp' by (rewrite links_split; mem).
    rewrite Hpg', Hpg; [apply Hsm; right; unfold others; mem|]. rewrite HY. unfold others. mem.
  - rewrite !app_assoc in Hnd'. rewrite !app_assoc. by apply NoDup_app in Hnd' as (? & _).
  - intros p Hp. apply Hb'. rewrite <-Hall. in_app Hp.
  - split; [|split].
    + rewrite Hall in Hnd'. by apply NoDup_app in Hnd' as (? & _).
    + intros p Hp. rewrite Hes. mem.
    + intros p Hp Hin. apply (HPc p Hp). rewrite Hmore. mem.
  - split; [lia|]. lia.
  - intros en Hen. unfold es in Hen. apply elem_of_app in Hen as [[_ Hen]%list_elem_of_filter|Hen].
    + assert (en ∈ all_entries (dk_links D)) as Hin by (rewrite entries_window; mem). apply Hcids in Hin. lia.
    + apply elem_of_app in Hen as [(p & -> & _)%list_elem_of_fmap|(p & -> & _)%list_elem_of_fmap]; simpl; unfold CHAIN_METADATA_CID; lia.
  - intros en Hen. unfold es in Hen. apply elem_of_app in Hen as [[_ Hen]%list_elem_of_filter|Hen]; [by left|right].
    apply elem_of_app in Hen as [(p & -> & _)%list_elem_of_fmap|(p & -> & Hp)%list_elem_of_fmap]; [by left|right].
    simpl. rewrite links_split. mem.
  - intros p Hp Hni. rewrite Hpg' by (by apply HPY'). rewrite Hpg. apply Hsm. by left.
  - intros Hpol. destruct (Hdis Hpol) as [-> ->]. split; [|done]. intros p Hp. rewrite Hpg. apply Hsm. by left.
  - intros p Hp. destruct Hse as [_ _ (? & ? & _ & _ & _ & _ & _ & HPn) _ _ _]. destruct (HPn p Hp). lia.
  - intros p Hp Hni. specialize (HPY' p Hp Hni).
    rewrite Hall in Hnd'. apply NoDup_app in Hnd' as (_ & _ & Hnd'). apply NoDup_app in Hnd' as (_ & Hdj & _).
    intros Hu. apply (Hdj p Hu). mem.
Qed.

(** ** The new chain *)

(** Writing the window of the free list leaves a store that holds the candidate. *)
Record rewritten (ps : Z) (policy : RetainPolicy) (pages : Store) (D : Disk) (P : gset Z) (L : Z) (v : View) (ca : Candidate)
    (head next : Z) (pages' : Store) (D' : Disk) : Prop := mkRewritten {
  rw_disk : forall s', ws_root_page_id s' = ca_root ca -> ws_catalog_root_page_id s' = ca_catalog_root ca ->
    ws_commit_history_root_page_id s' = pw_commit_history_root_page_id (ca_pending ca) ->
    ws_free_list_root_page_id s' = head -> ws_next_page_id s' = next -> ws_latest_commit_id s' = L + 1 ->
    (ws_commit_retain_policy_tag s' = RETAIN_POLICY_TAG_DISABLED -> policy = Disabled) ->
    disk_ok K ps pages' s' (v_data v) (v_catalog v) D';
  rw_count : count_ok policy (pw_commit_history_count (ca_pending ca)) (size (dk_rows D'));
  rw_same : forall p, p ∈ P -> ~ (p ∈ dk_history D) -> pages' !! p = pages !! p;
  rw_disabled : policy = Disabled -> forall p, p ∈ P -> pages' !! p = pages !! p;
  rw_next : next <= 2 ^ 64;
  rw_readers : forall s s' r m c used, reader_ok K ps pages s D r m c used -> ws_latest_commit_id s = L ->
    ws_latest_commit_id s' = L + 1 -> ws_next_page_id s' = next -> (forall p, p ∈ used -> p ∈ P) ->
    reader_ok K ps pages' s' D' r m c used;
}.

(** A commit calls [rewrite_chain] as its caller must: no host is a page of the
    chain the published header names. *)
Lemma cand_supersedes ps policy pages D P L v tail ca ut uc uh mh s m0 c0 :
  cand_ok ps policy pages D P L v tail ca ut uc uh mh -> disk_ok K ps pages s m0 c0 D ->
  (forall p, p ∈ (dk_links D).*1 -> p ∈ P) ->
  supersedes (sh_pages (ca_shared ca)) (ws_free_list_root_page_id s) (take window_pages (dk_links D))
    (tail_links D) (ca_entries ca) (ca_hosts ca) (pw_next_page_id (ca_pending ca)).
Proof.
  intros Hc Hd HP. destruct (co_hosts _ _ _ _ _ _ _ _ _ _ _ _ _ Hc) as (_ & _ & Hh).
  pose proof (do_nodup _ _ _ _ _ _ _ Hd) as Hnd.
  assert (take window_pages (dk_links D) ++ tail_links D = dk_links D) as Hsplit by apply take_drop.
  assert (forall p, p ∈ (take window_pages (dk_links D)).*1 -> p ∈ (dk_links D).*1) as Htk.
  { intros p Hp. rewrite <-Hsplit, fmap_app. mem. }
  constructor.
  - rewrite Hsplit. eapply free_chain_frame; [|exact (do_chain _ _ _ _ _ _ _ Hd)].
    intros p Hp. apply (co_same _ _ _ _ _ _ _ _ _ _ _ _ _ Hc); [by apply HP|]. intros Hin.
    unfold tracked in Hnd. apply NoDup_app in Hnd as (_ & _ & Hnd). apply NoDup_app in Hnd as (_ & _ & Hnd).
    apply NoDup_app in Hnd as (_ & Hdj & _). apply (Hdj p Hin). mem.
  - apply Forall_forall. intros p Hp Hin. by apply (Hh p); [apply HP, Htk|].
  - pose proof (co_nodup _ _ _ _ _ _ _ _ _ _ _ _ _ Hc) as Hn.
    eapply (sublist_NoDup _ ((ca_entries ca).*2 ++ (all_entries (tail_links D)).*2 ++ (tail_links D).*1 ++ ut ++ uc ++ uh)).
    + rewrite (Permutation_app_comm (all_entries _).*2). revert Hn. intros Hn. eapply NoDup_Permutation_proper; [|exact Hn]. solve_Permutation.
    + rewrite (assoc_L app (all_entries _).*2). apply sublist_app; [done|]. by apply sublist_inserts_r.
  - apply Forall_forall. intros p Hp. rewrite !elem_of_app in Hp. destruct Hp as [Hp|[Hp|Hp]].
    + apply (co_bounds _ _ _ _ _ _ _ _ _ _ _ _ _ Hc). mem.
    + apply (co_bounds _ _ _ _ _ _ _ _ _ _ _ _ _ Hc). mem.
    + apply (co_below _ _ _ _ _ _ _ _ _ _ _ _ _ Hc). by apply HP, Htk.
Qed.

Lemma cand_rewrite_pre ps policy pages D P L v tail ca ut uc uh mh s m0 c0 :
  cand_ok ps policy pages D P L v (tail_head tail) ca ut uc uh mh ->
  disk_ok K ps pages s m0 c0 D -> ws_latest_commit_id s = L -> L <= 2 ^ 48 ->
  tail_summary tail = summary_of (all_entries (tail_links D)) -> 0 < chain_capacity ps -> body_capacity ps <= U32_MAX ->
  (forall p, p ∈ (dk_links D).*1 -> p ∈ P) ->
  rewrite_pre ps (sh_pages (ca_shared ca)) (ca_entries ca) (ca_hosts ca) (pw_next_page_id (ca_pending ca)) tail (tail_links D)
    (ws_free_list_root_page_id s) (take window_pages (dk_links D)).
Proof.
  intros Hc Hd EL HL Hsum Hcap Hsz HPl. pose proof (co_nodup _ _ _ _ _ _ _ _ _ _ _ _ _ Hc) as Hnd.
  pose proof (co_bounds _ _ _ _ _ _ _ _ _ _ _ _ _ Hc) as Hb. destruct (co_limit _ _ _ _ _ _ _ _ _ _ _ _ _ Hc) as [H4 Hlim].
  destruct (co_hosts _ _ _ _ _ _ _ _ _ _ _ _ _ Hc) as (Hh1 & Hh2 & _).
  set (l := ut ++ uc ++ uh ++ (tail_links D).*1 ++ (all_entries (tail_links D)).*2) in *.
  assert (forall p, p ∈ (tail_links D).*1 \/ p ∈ (all_entries (tail_links D)).*2 -> p ∈ l) as Hl by (intros p [?|?]; unfold l; mem).
  assert (Z.of_nat (length ((ca_entries ca).*2 ++ l)) <= pw_next_page_id (ca_pending ca)) as Hlen.
  { pose proof (bounded_length _ 4 _ Hnd ltac:(lia) Hb). lia. }
  unfold l in Hlen. rewrite !length_app, !length_fmap in Hlen.
  constructor; try done.
  - by destruct Hc.
  - apply Forall_forall. intros en Hen. destruct (co_cids _ _ _ _ _ _ _ _ _ _ _ _ _ Hc en Hen). 
    assert (en.2 ∈ (ca_entries ca).*2) as Hp by (apply list_elem_of_fmap; eauto). specialize (Hb en.2 ltac:(mem)).
    split; split; unfold U64_MAX; lia.
  - apply Forall_forall. intros en Hen. destruct (do_cids _ _ _ _ _ _ _ Hd en) as [? ?]; [rewrite entries_window; mem|].
    assert (en.2 ∈ (all_entries (tail_links D)).*2) as Hp by (apply list_elem_of_fmap; eauto).
    specialize (Hb en.2 ltac:(apply elem_of_app; right; auto)). split; split; unfold U64_MAX; lia.
  - by eapply cand_supersedes.
  - apply Forall_forall. intros p Hp Hin. apply NoDup_app in Hnd as (_ & Hdj & _). apply (Hdj p); auto.
  - apply Forall_forall. intros p [Hp|Hp]%elem_of_app; specialize (Hb p).
    + ospecialize (Hb _); [apply elem_of_app; left; auto|lia].
    + ospecialize (Hb _); [apply elem_of_app; right; auto|lia].
  - lia.
  - unfold U64_MAX. lia.
  - unfold U64_MAX. lia.
Qed.

Lemma count_chain_ok st head links : FreeList.chain st head links ->
  count_chain st head = Ok (Z.of_nat (length (all_entries links))).
Proof.
  intros Hc. unfold count_chain. pose proof (read_summary_at _ _ _ Hc 0) as Hs.
  rewrite <-(chain_head _ _ _ Hc) in Hs. by rewrite Hs, drop_0.
Qed.

Lemma rewrite_cand_ok ps policy pages D P L v tail ca ut uc uh mh s m0 c0 :
  cand_ok ps policy pages D P L v (tail_head tail) ca ut uc uh mh ->
  disk_ok K ps pages s m0 c0 D -> ws_latest_commit_id s = L -> L <= 2 ^ 48 ->
  tail_summary tail = summary_of (all_entries (tail_links D)) -> 0 < chain_capacity ps -> body_capacity ps <= U32_MAX ->
  (forall p, p ∈ (dk_links D).*1 -> p ∈ P) ->
  exists head next pages' D', rewrite_chain ps (sh_pages (ca_shared ca)) (ca_entries ca) (ca_hosts ca)
      (pw_next_page_id (ca_pending ca)) tail = Ok (head, next, pages') /\
    (exists n, count_chain pages' head = Ok n) /\ rewritten ps policy pages D P L v ca head next pages' D'.
Proof.
  intros Hc Hd EL HL Hsum Hcap Hsz HPl.
  pose proof (cand_rewrite_pre _ _ _ _ _ _ _ _ _ _ _ _ _ _ _ _ Hc Hd EL HL Hsum Hcap Hsz HPl) as Hpre.
  destruct (rewrite_chain_ok _ _ _ _ _ _ _ _ _ Hpre) as (head & next & pages' & links & carved & ps' & Hrw & Hch & Hent & Hlk & Hes & Hps' & Hcar & [Hnx Hnx'] & Hfr).
  pose proof (rp_room _ _ _ _ _ _ _ _ _ Hpre) as Hroom.
  destruct Hc as [C1 C2 C3 C4 C5 C6 Hnd Hb (_ & _ & HPh) [H4 _] Hcid Horg Hsm Hdis Hbel Hus].
  set (n1 := pw_next_page_id (ca_pending ca)) in *. set (kept := filter _ (ca_entries ca)) in *.
  assert (forall p, p ∈ ps' -> p ∈ (ca_entries ca).*2 /\ p ∈ ca_hosts ca \/ n1 <= p < next) as Hpin.
  { intros p. rewrite Hps', elem_of_app, elem_of_seqZ. intros [Hp|Hp]; [left|right; lia]. split; [rewrite Hes; mem|by apply Hcar]. }
  assert (forall p, p ∈ P -> ~ (p ∈ ps')) as HPn.
  { intros p Hp Hin. apply Hpin in Hin as [[_ ?]|?]; [by apply (HPh p)|]. specialize (Hbel p Hp). lia. }
  assert (forall p, p ∈ ut ++ uc ++ uh -> pages' !! p = sh_pages (ca_shared ca) !! p) as Htrees.
  { intros p Hp. apply Hfr. intros Hin. apply Hpin in Hin as [[Hin _]|?].
    - apply NoDup_app in Hnd as (_ & Hdj & _). apply (Hdj p Hin). in_app Hp.
    - specialize (Hb p). ospecialize (Hb _); [in_app Hp|]. lia. }
  assert (forall en, en ∈ kept -> en ∈ ca_entries ca) as Hkept by (intros en [_ ?]%list_elem_of_filter; done).
  set (D' := mkDisk ut uc uh mh links).
  assert (tracked D' ≡ₚ ((ca_entries ca).*2 ++ ut ++ uc ++ uh ++ (tail_links D).*1 ++ (all_entries (tail_links D)).*2) ++ seqZ n1 (next - n1)) as Htr.
  { unfold tracked, D'. cbn [dk_data dk_catalog dk_history dk_links]. rewrite Hlk, Hent, fmap_app, Hes, Hps'. solve_Permutation. }
  exists head, next, pages', D'. split; [done|]. split; [eexists; by apply count_chain_ok|]. constructor.
  - intros s' E1 E2 E3 E4 E5 E6 E7. constructor; unfold D'; cbn [dk_data dk_catalog dk_history dk_rows dk_links]; rewrite ?E1, ?E2, ?E3, ?E4, ?E5, ?E6.
    + eapply sound_frame; [|exact C1]. intros p Hp. apply Htrees. mem.
    + eapply sound_frame; [|exact C2]. intros p Hp. apply Htrees. mem.
    + eapply sound_frame; [|exact C3]. intros p Hp. apply Htrees. mem.
    + done.
    + done.
    + fold D'. rewrite Htr. apply NoDup_app. split; [done|]. split; [|apply NoDup_seqZ].
      intros p Hp%Hb. rewrite elem_of_seqZ. lia.
    + fold D'. intros p. rewrite Htr, elem_of_app, elem_of_seqZ. intros [Hp%Hb|Hp]; lia.
    + lia.
    + pose proof (do_latest _ _ _ _ _ _ _ Hd). lia.
    + intros en. rewrite Hent. intros [Hen|Hen]%elem_of_app; [by apply Hcid, Hkept|].
      destruct (do_cids _ _ _ _ _ _ _ Hd en) as [? ?]; [rewrite entries_window; mem|]. lia.
    + intros Htag. by apply Hdis, E7.
  - done.
  - intros p Hp Hni. rewrite Hfr by (by apply HPn). by apply Hsm.
  - intros Hpol p Hp. rewrite Hfr by (by apply HPn). by apply Hdis.
  - unfold U64_MAX in Hroom. lia.
  - intros s1 s' r m c used [R1 R2 R3 R4 R5 R6 R7] EL1 EL' En Hsub.
    assert (forall p, p ∈ used -> pages' !! p = pages !! p) as Hsame.
    { intros p Hp. rewrite Hfr by (apply HPn; by apply Hsub). apply Hsm; auto. }
    constructor; unfold D'; cbn [dk_history dk_links].
    + by eapply snapshot_frame.
    + by eapply snapshot_frame.
    + lia.
    + intros p Hp. rewrite En. specialize (R4 p Hp). specialize (Hbel p (Hsub p Hp)). lia.
    + intros p Hp. apply Hus; auto.
    + intros p Hp. rewrite Hlk. intros [Hin|Hin]%elem_of_app; [by apply (HPn p (Hsub p Hp))|].
      apply (R6 p Hp). rewrite links_split. mem.
    + intros cid p Hp. rewrite Hent. intros [Hen|Hen]%elem_of_app; [|apply (R7 cid p Hp); rewrite entries_window; mem].
      apply Hkept, Horg in Hen as [Hen|[Hen|Hen]]; cbn [fst snd] in Hen.
      * apply (R7 cid p Hp). rewrite entries_window. mem.
      * lia.
      * exfalso. by apply (R6 p Hp).
Qed.

(** ** The structural check *)

Lemma walk_roots_ok pages ps next cid (U : list Z) roots : forall R,
  Forall (fun r : string * Z => exists m us, sound_pages K pages r.2 ps m us /\ us ⊆ U) roots ->
  exists R', walk_roots pages ps next cid roots R = Ok R' /\ (forall p, p ∈ R' -> p ∈ R \/ p ∈ U).
Proof.
  induction roots as [|[name root] roots IH]; intros R Hf; [exists R; split; [done|]; by left|].
  apply Forall_cons in Hf as [(m & us & Hs & Hus) Hf]. cbn [walk_roots fst snd] in *.
  destruct (walks_exact K pages root next ps m us R Hs) as [-> ->]. destruct (IH (list_to_set us ∪ R) Hf) as (R' & -> & HR').
  exists R'. split; [done|]. intros p Hp. apply HR' in Hp as [[Hp|Hp]%elem_of_union|Hp]; [|by left|by right].
  right. apply Hus. by apply elem_of_list_to_set in Hp.
Qed.

Lemma check_ok ps policy pages D P L v tail ca ut uc uh mh :
  cand_ok ps policy pages D P L v tail ca ut uc uh mh ->
  assert_freed_pages_unreachable (sh_pages (ca_shared ca)) ps
    [("data"%string, ca_root ca); ("catalog"%string, ca_catalog_root ca);
     ("commit-history"%string, pw_commit_history_root_page_id (ca_pending ca))]
    (pw_next_page_id (ca_pending ca)) (list_to_set (ca_entries ca).*2) (L + 1) = Ok tt.
Proof.
  intros [C1 C2 C3 _ _ _ Hnd Hb _ _ _ _ _ _ _ _]. unfold assert_freed_pages_unreachable.
  assert (forall root m us, sound K (sh_pages (ca_shared ca)) root ps m us -> root <> 0 -> us ⊆ ut ++ uc ++ uh -> NoDup us ->
    exists m us, sound_pages K (sh_pages (ca_shared ca)) root ps m us /\ us ⊆ ut ++ uc ++ uh) as Hone.
  { intros root m us Hs Hr Hsub Hn. exists m, us. split; [|done]. apply sound_sound_pages; try done.
    intros p Hp%Hsub. apply (Hb p). in_app Hp. }
  assert (NoDup ut /\ NoDup uc /\ NoDup uh) as (N1 & N2 & N3) by (rewrite !NoDup_app in Hnd; tauto).
  destruct (walk_roots_ok (sh_pages (ca_shared ca)) ps (pw_next_page_id (ca_pending ca)) (L + 1) (ut ++ uc ++ uh)
    (filter (fun r : string * Z => r.2 <> 0) [("data"%string, ca_root ca); ("catalog"%string, ca_catalog_root ca);
     ("commit-history"%string, pw_commit_history_root_page_id (ca_pending ca))]) ∅) as (R & -> & HR).
  - apply Forall_forall. intros [name root] [Hr Hin]%list_elem_of_filter. cbn [snd] in *.
    rewrite !elem_of_cons in Hin. destruct Hin as [[= -> ->]|[[= -> ->]|[[= -> ->]|Hin]]]; [..|by apply elem_of_nil in Hin].
    + eapply Hone; [exact C1|done| |done]. intros p Hp. mem.
    + eapply Hone; [exact C2|done| |done]. intros p Hp. mem.
    + eapply Hone; [exact C3|done| |done]. intros p Hp. mem.
  - destruct (filter _ (elements R)) as [|p l] eqn:E; [done|]. exfalso.
    assert (p ∈ filter (fun p => p ∈ (list_to_set (ca_entries ca).*2 : gset Z)) (elements R)) as Hp by (rewrite E; left).
    apply list_elem_of_filter in Hp as [Hf Hin]. rewrite elem_of_list_to_set in Hf. rewrite elem_of_elements in Hin.
    apply HR in Hin as [Hin|Hin]; [by apply elem_of_empty in Hin|].
    apply NoDup_app in Hnd as (_ & Hdj & _). apply (Hdj p Hf). in_app Hin.
Qed.
End publish.
