(* ===== verification/TxnSpec.v ===== *)
(** * TxnSpec: what a store promises its users

    A store with its open transactions as one system, and the specification it
    implements: readers see the maps committed when they began, the writer sees its
    own changes, a commit replaces the committed maps at once or not at all, and a
    restart finds the last committed ones. *)

From S2P Require Import Prelude Keys Errors PageFormat Node Leaf Store FreeList StructuralHeader HeaderSlots Catalog Tree TreeWrite TreePut TxnState TxnWrite TxnCommit TxnOpen TxnShare TxnOps.
From Stdlib Require Import ZArith Lia.
From stdpp Require Import base list strings gmap.

Local Open Scope Z_scope.
Local Open Scope pagedb_scope.

(** ** The system *)

(** The handle, the write transaction if one is open, and the read transactions by
    their entry ids. *)
Record Sys := mkSys {
  sys_db : Db;
  sys_txn : option WriteTxn;
  sys_readers : gmap Z ReadTxn;
}.

(** What the pager shows. *)
Definition sys_pages (s : Sys) : Store :=
  match sys_txn s with Some w => bt_pages (btree w) | None => db_pages (sys_db s) end.

Inductive input :=
| IBeginRead (non_abortable : bool)
| IRead (id : Z) (key : bytes)
| IEndRead (id : Z)
| IBegin
| IOp (o : txn_op)
| ICommit (e : Env)
| IAbort
| IReopen (cfg : DbConfig).

Inductive outcome :=
| OReader (r : result Z)
| OValue (r : result (option bytes))
| OBegan (r : result unit)
| OReply (r : result txn_reply)
| OCommitted (r : result CommitId)
| ODone.

(** One call. A writer waits for the lock while a transaction is open; calls on a
    transaction that is not open do not type check. *)
Definition sys_step (i : input) (s : Sys) : option (outcome * Sys) :=
  let d := sys_db s in
  match i with
  | IBeginRead non_abortable =>
      match (if non_abortable then begin_read_non_abortable d else begin_read d) with
      | Ok (rt, d) => Some (OReader (Ok (rt_entry_id rt)), mkSys d (sys_txn s) (<[rt_entry_id rt := rt]> (sys_readers s)))
      | Err e => Some (OReader (Err e), s)
      | Panic => Some (OReader Panic, s)
      end
  | IRead id key =>
      rt ← sys_readers s !! id;
      let '(r, rt, d) := read_get (sys_pages s) key rt d in
      Some (OValue r, mkSys d (sys_txn s) (<[id := rt]> (sys_readers s)))
  | IEndRead id =>
      _ ← sys_readers s !! id;
      Some (ODone, mkSys (unregister_read id d) (sys_txn s) (delete id (sys_readers s)))
  | IBegin =>
      match sys_txn s with
      | Some _ => None
      | None =>
          match begin_txn d with
          | Ok w => Some (OBegan (Ok tt), mkSys d (Some w) (sys_readers s))
          | Err e => Some (OBegan (Err e), s)
          | Panic => Some (OBegan Panic, s)
          end
      end
  | IOp o =>
      w ← sys_txn s;
      let '(r, w) := run_txn_op (db_config d) o w in
      Some (OReply r, mkSys d (Some w) (sys_readers s))
  | ICommit e =>
      w ← sys_txn s;
      let '(r, d) := commit e w d in
      Some (OCommitted r, mkSys d None (sys_readers s))
  | IAbort =>
      w ← sys_txn s;
      Some (ODone, mkSys (abort w d) None (sys_readers s))
  | IReopen cfg => Some (ODone, mkSys (reopen cfg d) None ∅)
  end.

Fixpoint sys_run (ins : list input) (s : Sys) : option (list outcome * Sys) :=
  match ins with
  | [] => Some ([], s)
  | i :: ins =>
      '(o, s) ← sys_step i s;
      '(os, s) ← sys_run ins s;
      Some (o :: os, s)
  end.

(** ** The specification *)

(** The committed maps and the number of the commit, the maps each reader has
    pinned, the view of the open write transaction, the readers told to give up,
    and whether the handle refuses new transactions. *)
Record Abs := mkAbs {
  a_data : kv;
  a_catalog : kv;
  a_commit : CommitId;
  a_readers : gmap Z (kv * kv);
  a_txn : option View;
  a_aborted : gset Z;
  a_poisoned : bool;
}.

Definition a_with_readers (rs : gmap Z (kv * kv)) (a : Abs) : Abs :=
  mkAbs (a_data a) (a_catalog a) (a_commit a) rs (a_txn a) (a_aborted a) (a_poisoned a).
Definition a_with_txn (t : option View) (a : Abs) : Abs :=
  mkAbs (a_data a) (a_catalog a) (a_commit a) (a_readers a) t (a_aborted a) (a_poisoned a).
Definition a_with_aborted (ab : gset Z) (a : Abs) : Abs :=
  mkAbs (a_data a) (a_catalog a) (a_commit a) (a_readers a) (a_txn a) ab (a_poisoned a).
Definition a_poison (a : Abs) : Abs :=
  mkAbs (a_data a) (a_catalog a) (a_commit a) (a_readers a) (a_txn a) (a_aborted a) true.
(** The view of the transaction becomes the committed state. *)
Definition a_install (v : View) (a : Abs) : Abs :=
  mkAbs (v_data v) (v_catalog v) (a_commit a + 1) (a_readers a) (a_txn a) (a_aborted a) (a_poisoned a).
(** The transaction is over; the stall policy may have told a reader to give up. *)
Definition a_ended (ab : gset Z) (a : Abs) : Abs := a_with_aborted ab (a_with_txn None a).

Definition pinned_now (a : Abs) : kv * kv := (a_data a, a_catalog a).

(** The errors a commit may fail with before its header is written: what the flush
    or the header write says, a backlog of pages readers hold back, and a header
    sequence that has run out. *)
Definition commit_refused (e : Env) (er : PagedbError) : Prop :=
  fo_result (env_flush e) = Err er \/ env_header e = HeaderNotStarted er \/
  (exists n c, er = DeferredFreeBacklog n c) \/ er = arithmetic_overflow "header sequence".

(** At most one reader is told to give up. *)
Definition gave_up (a : Abs) (ab : gset Z) : Prop :=
  ab = a_aborted a \/ exists id, is_Some (a_readers a !! id) /\ ab = {[id]} ∪ a_aborted a.

Section spec.
Context (cfg : DbConfig).

Inductive astep : input -> outcome -> Abs -> Abs -> Prop :=
| a_begin_read nb id a :
    a_poisoned a = false -> a_readers a !! id = None ->
    astep (IBeginRead nb) (OReader (Ok id)) a (a_with_readers (<[id := pinned_now a]> (a_readers a)) a)
| a_begin_read_refused nb er a :
    a_poisoned a = true -> astep (IBeginRead nb) (OReader (Err er)) a a
| a_read id key m c a :
    a_readers a !! id = Some (m, c) -> ~ (id ∈ a_aborted a) ->
    astep (IRead id key) (OValue (Ok (m !! key))) a a
| a_read_aborted id key m c a :
    a_readers a !! id = Some (m, c) -> id ∈ a_aborted a ->
    astep (IRead id key) (OValue (Err Aborted)) a (a_with_aborted (a_aborted a ∖ {[id]}) a)
| a_end_read id a :
    astep (IEndRead id) ODone a (a_with_readers (delete id (a_readers a)) a)
| a_begin a :
    a_poisoned a = false -> a_txn a = None ->
    astep IBegin (OBegan (Ok tt)) a (a_with_txn (Some (mkView (a_data a) (a_catalog a) [])) a)
| a_begin_refused er a :
    a_poisoned a = true -> astep IBegin (OBegan (Err er)) a a
| a_op o v a :
    a_txn a = Some v ->
    astep (IOp o) (OReply (spec_reply (spec_txn_op cfg o v))) a
      (a_with_txn (Some (spec_view v (spec_txn_op cfg o v))) a)
| a_commit_ok e v ab a :
    a_txn a = Some v -> gave_up a ab ->
    env_header e = HeaderWritten ->
    astep (ICommit e) (OCommitted (Ok (a_commit a + 1))) a (a_ended ab (a_install v a))
| a_commit_refused e er v ab a :
    a_txn a = Some v -> gave_up a ab -> commit_refused e er ->
    astep (ICommit e) (OCommitted (Err er)) a (a_ended ab a)
| a_commit_unpublished e v ab a :
    a_txn a = Some v -> gave_up a ab -> env_header e = HeaderWritten ->
    astep (ICommit e) (OCommitted (Err (DurablyCommittedButUnpublished (a_commit a + 1)))) a
      (a_poison (a_ended ab (a_install v a)))
| a_commit_unknown e er (landed : bool) v ab a :
    a_txn a = Some v -> gave_up a ab -> env_header e = HeaderUnknown er landed ->
    astep (ICommit e) (OCommitted (Err (CommitOutcomeUnknown (a_commit a + 1) er))) a
      (a_poison (a_ended ab (if landed then a_install v a else a)))
| a_abort a :
    astep IAbort ODone a (a_with_txn None a)
| a_reopen cfg' a :
    astep (IReopen cfg') ODone a (mkAbs (a_data a) (a_catalog a) (a_commit a) ∅ None ∅ false).
End spec.

(** A call the interface allows: reads go to open readers, changes to the open
    write transaction, and there is one write transaction at a time. *)
Definition enabled (i : input) (a : Abs) : Prop :=
  match i with
  | IRead id _ | IEndRead id => is_Some (a_readers a !! id)
  | IBegin => a_txn a = None
  | IOp _ | ICommit _ | IAbort => is_Some (a_txn a)
  | IBeginRead _ | IReopen _ => True
  end.

(** The configuration in force. Opening again takes new options; the identity of the
    store stays. *)
Definition config_after (i : input) (cfg : DbConfig) : DbConfig :=
  match i with
  | IReopen cfg' =>
      mkDbConfig (dc_page_size cfg') (dc_realm_id cfg') (dc_cipher_id cfg) (dc_flags cfg) (dc_file_id cfg) (dc_kek_salt cfg)
        (dc_mk_epoch cfg) (dc_retain cfg') (dc_stall_threshold cfg')
  | _ => cfg
  end.

Inductive atrace : DbConfig -> list input -> list outcome -> Abs -> Abs -> Prop :=
| atrace_nil cfg a : atrace cfg [] [] a a
| atrace_cons cfg i ins o os a a1 a2 :
    astep cfg i o a a1 -> atrace (config_after i cfg) ins os a1 a2 -> atrace cfg (i :: ins) (o :: os) a a2.

(** A fresh store. *)
Definition a_fresh : Abs := mkAbs ∅ ∅ 0 ∅ None ∅ false.

(** ** What is asked of a call *)

(** The page numbers and commit numbers of a store below which no count overflows:
    an exabyte of pages. *)
Definition PAGE_LIMIT : Z := 2 ^ 48.

(** The environment keeps its contract with a commit: the flush reports success only
    when every page of the candidate is durable, and when it fails it has written
    pages of the candidate only. The flush and the header write may fail. *)
Definition env_ok (e : Env) (w : WriteTxn) (d : Db) : Prop :=
  (forall l : gmap Z Leaf, env_drain e l ≡ₚ map_to_list l) /\
  env_commit_anchor e <> Panic /\ env_reconcile e <> Panic /\
  match fo_result (env_flush e) with
  | Ok _ => forall pages, candidate_pages e w d = Ok pages -> fo_pages (env_flush e) = pages
  | Err _ => forall pages, candidate_pages e w d = Ok pages ->
      forall p, pages !! p = db_pages d !! p -> fo_pages (env_flush e) !! p = db_pages d !! p
  | Panic => False
  end.

(** A configuration under which keys of at most [K] bytes fit. *)
Definition config_ok (K : Z) (cfg : DbConfig) : Prop :=
  8 <= K /\ (exists log2, page_size_log2 (dc_page_size cfg) = Ok log2) /\
  room K (dc_page_size cfg) /\ (forall k, dc_retain cfg = Count k -> 0 <= k).

Definition input_ok (K : Z) (s : Sys) (i : input) : Prop :=
  match i with
  | IOp o => forall w, sys_txn s = Some w ->
      txn_op_ok K (db_config (sys_db s)) o /\
      next_page_id (btree w) + Z.of_nat (txn_op_cost o (Z.to_nat (next_page_id (btree w)))) <= 2 ^ 64
  | ICommit e => forall w, sys_txn s = Some w ->
      env_ok e w (sys_db s) /\ next_page_id (btree w) <= PAGE_LIMIT /\
      ws_latest_commit_id (db_writer (sys_db s)) <= PAGE_LIMIT
  | IBegin => ws_next_page_id (db_writer (sys_db s)) <= PAGE_LIMIT
  | IReopen cfg => config_ok K cfg /\ dc_page_size cfg = db_page_size (sys_db s) /\
      dc_realm_id cfg = dc_realm_id (db_config (sys_db s))
  | _ => True
  end.

(** A commit of a store with a commit history that has changed pages and not the
    header. It may have overwritten pages of the history the header still names,
    since pages of the history are reused at once. *)
Definition tears (i : input) (s s' : Sys) : bool :=
  match i with
  | ICommit _ =>
      negb (bool_decide (db_retain (sys_db s) = Disabled)) &&
      (commit_id (db_header (sys_db s')) =? commit_id (db_header (sys_db s))) &&
      negb (bool_decide (db_pages (sys_db s') = db_pages (sys_db s)))
  | _ => false
  end.

(** Every call of the sequence is made on a state it is in order on; once the history
    is torn, no write transaction begins. *)
Fixpoint inputs_ok (K : Z) (torn : bool) (s : Sys) (ins : list input) : Prop :=
  match ins with
  | [] => True
  | i :: ins =>
      input_ok K s i /\ (torn = true -> i <> IBegin) /\
      match sys_step i s with Some (_, s') => inputs_ok K (torn || tears i s s') s' ins | None => True end
  end.
