(* ===== verification/TxnTrace.v ===== *)
(** * TxnTrace: a store implements its specification

    Every sequence of calls on a store answers what the specification answers. *)

From S2P Require Import Prelude Keys Errors PageFormat Node Leaf Internal Split Store Overflow FreeList Layout Catalog StructuralHeader HeaderSlots Tree TreeWrite TreeRep TreeAlloc TreeCow TreePropagate TreePut TreeOps TreeBatch TreeSpec TreeScan TreeScanOps TreeFlush TreeWalk TreeSource TxnState TxnWrite TxnCommit TxnOpen TxnShare TxnOps TxnHistory TxnInv TxnPublish TxnSpec.
From Stdlib Require Import ZArith Lia.
From stdpp Require Import base list strings gmap.

Local Open Scope Z_scope.
Local Open Scope pagedb_scope.

(** The part of the writer's state a header describes. *)
Definition same_core (s s' : WriterState) : Prop :=
  ws_root_page_id s' = ws_root_page_id s /\ ws_next_page_id s' = ws_next_page_id s /\
  ws_latest_commit_id s' = ws_latest_commit_id s /\ ws_catalog_root_page_id s' = ws_catalog_root_page_id s /\
  ws_free_list_root_page_id s' = ws_free_list_root_page_id s /\
  ws_commit_history_root_page_id s' = ws_commit_history_root_page_id s /\
  ws_commit_retain_policy_tag s' = ws_commit_retain_policy_tag s.

Section trace.
Context (K : Z).

Lemma disk_core ps pages s s' m c D : same_core s s' -> disk_ok K ps pages s m c D -> disk_ok K ps pages s' m c D.
Proof.
  intros (E1 & E2 & E3 & E4 & E5 & E6 & E7) [? ? ? ? ? ? ? ? ? ? ?]. by constructor; rewrite ?E1, ?E2, ?E3, ?E4, ?E5, ?E6, ?E7.
Qed.
Lemma reader_core ps pages s s' D r m c used :
  same_core s s' -> reader_ok K ps pages s D r m c used -> reader_ok K ps pages s' D r m c used.
Proof. intros (E1 & E2 & E3 & _) [? ? ? ? ? ? ?]. by constructor; rewrite ?E2, ?E3. Qed.

Lemma disk_frame ps pages pages' s m c D :
  (forall p, p ∈ dk_data D ++ dk_catalog D ++ dk_history D ++ (dk_links D).*1 -> pages' !! p = pages !! p) ->
  disk_ok K ps pages s m c D -> disk_ok K ps pages' s m c D.
Proof.
  intros Hf [H1 H2 H3 ? H5 ? ? ? ? ? ?]. constructor; try done.
  - eapply sound_frame; [|exact H1]. intros p Hp. apply Hf. mem.
  - eapply sound_frame; [|exact H2]. intros p Hp. apply Hf. mem.
  - eapply sound_frame; [|exact H3]. intros p Hp. apply Hf. mem.
  - eapply free_chain_frame; [|exact H5]. intros p Hp. apply Hf. mem.
Qed.
Lemma reader_frame ps pages pages' s D r m c used :
  (forall p, p ∈ used -> pages' !! p = pages !! p) ->
  reader_ok K ps pages s D r m c used -> reader_ok K ps pages' s D r m c used.
Proof. intros Hf [H1 H2 ? ? ? ? ?]. constructor; try done; by eapply snapshot_frame. Qed.

(** ** The invariant *)

(** The snapshot [r] and the transaction [rt] of one reader. *)
Record follows (pages : Store) (ps : Z) (r : TrackedReader) (rt : ReadTxn) (id : Z) : Prop := mkFollows {
  fw_id : rt_entry_id rt = id;
  fw_tracked : tr_entry_id r = id;
  fw_root : tr_root_page_id r = rt_root_page_id rt;
  fw_cached : forall g, rt_cached_root rt = Some g ->
    rt_root_page_id rt <> 0 /\ read_node_guard (btree_open pages (rt_root_page_id rt) 4 ps) (rt_root_page_id rt) = Ok g;
}.

(** [W] is the state the header on disk describes. *)
Record base_ok (d : Db) (W : WriterState) (m c : kv) (readers : gmap Z ReadTxn) (pins : gmap Z (kv * kv)) (U : gset Z) (D : Disk)
  : Prop := mkBaseOk {
  bo_config : config_ok K (db_config d);
  bo_disk : disk_ok K (db_page_size d) (db_pages d) W m c D;
  bo_readers : forall r, r ∈ db_readers d -> exists m c used,
    reader_ok K (db_page_size d) (db_pages d) W D r m c used /\ used ⊆ U;
  bo_pins : forall id, match readers !! id, pins !! id with
    | Some rt, Some (m, c) => exists r used, r ∈ db_readers d /\ used ⊆ U /\
        reader_ok K (db_page_size d) (db_pages d) W D r m c used /\ follows (db_pages d) (db_page_size d) r rt id
    | None, None => True
    | _, _ => False
    end;
  bo_ids : NoDup (tr_entry_id <$> db_readers d);
  bo_known : forall r, r ∈ db_readers d -> is_Some (readers !! tr_entry_id r) /\ tr_entry_id r < db_reader_seq d;
}.

(** The handle agrees with what is on disk. *)
Record live_ok (d : Db) (W : WriterState) (D : Disk) : Prop := mkLiveOk {
  lo_writer : same_core W (db_writer d);
  lo_count : count_ok (db_retain d) (ws_commit_history_count (db_writer d)) (size (dk_rows D));
}.
Definition snapshot_current (d : Db) (W : WriterState) : Prop :=
  rs_commit_id (db_snapshot d) = ws_latest_commit_id W /\ rs_root_page_id (db_snapshot d) = ws_root_page_id W /\
  rs_catalog_root_page_id (db_snapshot d) = ws_catalog_root_page_id W.

(** The state and the disk without the commit history. *)
Definition forget_history (s : WriterState) : WriterState :=
  mkWriterState (ws_root_page_id s) (ws_next_page_id s) (ws_latest_commit_id s) (ws_catalog_root_page_id s)
    (ws_catalog_root_txn_id s) (ws_free_list_root_page_id s) (ws_free_list_entries s) 0 (ws_commit_history_root_version s)
    (ws_commit_history_count s) (ws_pending_apply_journal_id s) (ws_restore_mode s) (ws_commit_retain_policy_tag s)
    (ws_commit_retain_policy_value s).
Definition without_history (D : Disk) : Disk := mkDisk (dk_data D) (dk_catalog D) [] ∅ (dk_links D).

(** What of the state on disk is still there: the history is not once it is torn. *)
Definition described (torn : bool) (h : MainDbHeaderFields) : WriterState :=
  if torn then forget_history (writer_of_header h) else writer_of_header h.

Record sys_ok (torn : bool) (s : Sys) (a : Abs) (U : gset Z) (D : Disk) : Prop := mkSysOk {
  so_base : base_ok (sys_db s) (described torn (db_header (sys_db s))) (a_data a) (a_catalog a) (sys_readers s) (a_readers a) U D;
  so_identity : opened_config (db_config (sys_db s)) (db_header (sys_db s)) = db_config (sys_db s);
  so_commit : commit_id (db_header (sys_db s)) = a_commit a;
  so_aborted : db_aborted (sys_db s) = a_aborted a;
  so_live : if a_poisoned a then db_poisoned (sys_db s) <> None else
    db_poisoned (sys_db s) = None /\ snapshot_current (sys_db s) (writer_of_header (db_header (sys_db s))) /\
    (torn = false -> live_ok (sys_db s) (writer_of_header (db_header (sys_db s))) D);
  so_txn : match sys_txn s, a_txn a with
    | Some w, Some v => a_poisoned a = false /\ torn = false /\ exists P floor ut uc, U ⊆ P /\
        txn_inv K (db_page_size (sys_db s)) (db_pages (sys_db s)) D P w v floor ut uc
    | None, None => True
    | _, _ => False
    end;
}.

(** ** Sizes *)

Lemma config_sizes cfg : config_ok K cfg ->
  OVERFLOW_ROOT_HEADER_LEN + ENVELOPE_OVERHEAD < dc_page_size cfg /\ 0 < chain_capacity (dc_page_size cfg) /\
  body_capacity (dc_page_size cfg) <= U32_MAX /\ (forall st root, page_size_ok (btree_open st root 4 (dc_page_size cfg))).
Proof.
  intros (_ & (log2 & Hlog) & _). unfold TxnState.page_size_log2 in Hlog.
  assert (dc_page_size cfg ∈ [4096; 8192; 16384; 32768; 65536]) as Hin.
  { rewrite !elem_of_cons. repeat (case_match; simplify_eq); tauto. }
  rewrite !elem_of_cons in Hin. unfold page_size_ok. simpl.
  destruct Hin as [->|[->|[->|[->|[->|Hin]]]]]; [..|by apply elem_of_nil in Hin]; split_and!; try done; intros; split; done.
Qed.

(** ** Readers *)

Lemma snapshot_mono st root ps m (P P' : gset Z) : P ⊆ P' -> snapshot K st root ps m P -> snapshot K st root ps m P'.
Proof. intros Hs [?|(H & kvs & ids & ch & ? & ? & ? & ? & ? & HP)]; [by left|right]. exists H, kvs, ids, ch. split_and!; try done. set_solver. Qed.

Lemma snapshot_zero st ps m P : snapshot K st 0 ps m P -> m = ∅.
Proof.
  intros [[_ ?]|(H & kvs & ids & ch & _ & Hr & _ & Hz & _)]; [done|]. apply rep_head in Hr as [ids' ->]. exfalso. apply Hz. by left.
Qed.
Lemma snapshot_root st root ps m P : snapshot K st root ps m P -> root = 0 \/ root ∈ P.
Proof.
  intros [[? _]|(H & kvs & ids & ch & _ & Hr & _ & _ & _ & HP)]; [by left|right]. apply rep_head in Hr as [ids' ->]. apply HP. left.
Qed.

(** A reader of the current state. *)
Lemma current_reader ps pages W m c D r :
  disk_ok K ps pages W m c D -> tr_root_page_id r = ws_root_page_id W -> tr_catalog_root_page_id r = ws_catalog_root_page_id W ->
  tr_commit_id r = ws_latest_commit_id W ->
  reader_ok K ps pages W D r m c (list_to_set (dk_data D ++ dk_catalog D)).
Proof.
  intros Hd E1 E2 E3. pose proof (disk_use K _ _ _ _ _ _ Hd) as ([N1 Z1] & [N2 Z2] & _).
  destruct Hd as [S1 S2 _ _ _ Hnd Hb _ _ _ _]. unfold tracked in Hnd, Hb.
  assert (forall p, p ∈ (list_to_set (dk_data D ++ dk_catalog D) : gset Z) -> p ∈ dk_data D ++ dk_catalog D) as Hin
    by (intros p; by rewrite elem_of_list_to_set).
  assert (forall p, p ∈ dk_data D ++ dk_catalog D -> ~ (p ∈ dk_history D ++ (dk_links D).*1 ++ (all_entries (dk_links D)).*2)) as Hdj.
  { rewrite app_assoc in Hnd. by apply NoDup_app in Hnd as (_ & ? & _). }
  constructor; rewrite ?E1, ?E2, ?E3.
  - eapply snapshot_mono; [|by apply sound_snapshot]. intros p. rewrite !elem_of_list_to_set. intros ?. mem.
  - eapply snapshot_mono; [|by apply sound_snapshot]. intros p. rewrite !elem_of_list_to_set. intros ?. mem.
  - lia.
  - intros p Hp%Hin. apply Hb. rewrite !elem_of_app in Hp. rewrite !elem_of_app. tauto.
  - intros p Hp%Hin Hh. apply (Hdj p Hp). mem.
  - intros p Hp%Hin Hh. apply (Hdj p Hp). mem.
  - intros cid p Hp%Hin Hh. exfalso. apply (Hdj p Hp). rewrite !elem_of_app. right. right. apply list_elem_of_fmap. by exists (cid, p).
Qed.

Lemma base_weaken d W m c readers pins U U' D : U ⊆ U' -> base_ok d W m c readers pins U D -> base_ok d W m c readers pins U' D.
Proof.
  intros HU [? ? Hr Hp ? ?]. constructor; try done.
  - intros r Hin. destruct (Hr r Hin) as (m' & c' & used & ? & ?). exists m', c', used. split; [done|]. set_solver.
  - intros id. specialize (Hp id). destruct (readers !! id), (pins !! id) as [[? ?]|]; try done.
    destruct Hp as (r' & used & ? & ? & ? & ?). exists r', used. split_and!; try done. set_solver.
Qed.

Lemma base_fresh_id d W m c readers pins U D : base_ok d W m c readers pins U D ->
  readers !! db_reader_seq d = None /\ pins !! db_reader_seq d = None.
Proof.
  intros [_ _ _ Hp _ Hk]. specialize (Hp (db_reader_seq d)).
  destruct (readers !! _) as [rt|], (pins !! _) as [[? ?]|]; try done. exfalso.
  destruct Hp as (r & used & Hr & _ & _ & [_ Hid _ _]). apply Hk in Hr as [_ Hlt]. lia.
Qed.

Lemma register_ok d W m c readers pins U D nb :
  base_ok d W m c readers pins U D -> snapshot_current d W ->
  let '(rt, d') := register_snapshot nb d in
  rt_entry_id rt = db_reader_seq d /\
  base_ok d' W m c (<[db_reader_seq d := rt]> readers) (<[db_reader_seq d := (m, c)]> pins)
    (U ∪ list_to_set (dk_data D ++ dk_catalog D)) D.
Proof.
  intros Hbase (E1 & E2 & E3). destruct (base_fresh_id _ _ _ _ _ _ _ _ Hbase) as [Hf _].
  unfold register_snapshot, register_read. rewrite E1, E2, E3. split; [done|]. set (U' := U ∪ _).
  set (tr := mkTrackedReader _ _ _ _ _ _). pose proof (base_weaken _ _ _ _ _ _ U U' _ ltac:(set_solver) Hbase) as [Hc Hd Hr Hp Hids Hk].
  assert (reader_ok K (db_page_size d) (db_pages d) W D tr m c (list_to_set (dk_data D ++ dk_catalog D))) as Htr by (by apply current_reader).
  constructor; cbn [db_config with_readers db_readers db_pages db_reader_seq]; try done.
  - intros r [Hin|Hin%list_elem_of_singleton]%elem_of_app; [by apply Hr|]. subst r. exists m, c, (list_to_set (dk_data D ++ dk_catalog D)).
    split; [exact Htr|set_solver].
  - intros id. destruct (decide (id = db_reader_seq d)) as [->|Hne].
    + rewrite !lookup_insert_eq. exists tr, (list_to_set (dk_data D ++ dk_catalog D)). split; [apply elem_of_app; right; by left|].
      split; [set_solver|]. split; [exact Htr|]. by constructor.
    + rewrite !lookup_insert_ne by done. specialize (Hp id). destruct (readers !! id), (pins !! id) as [[? ?]|]; try done.
      destruct Hp as (r' & used & ? & ? & ? & ?). exists r', used. split; [mem|done].
  - rewrite fmap_app, NoDup_app. split; [done|]. split; [|apply NoDup_singleton]. intros id Hin Hid%list_elem_of_singleton.
    apply list_elem_of_fmap in Hin as (r & -> & Hin). apply Hk in Hin as [_ ?]. simpl in Hid. lia.
  - intros r [Hin|Hin%list_elem_of_singleton]%elem_of_app.
    + apply Hk in Hin as [? ?]. rewrite lookup_insert_ne by lia. split; [done|lia].
    + subst r. cbn [tr_entry_id tr]. rewrite lookup_insert_eq. split; [eauto|lia].
Qed.

(** ** Reading through a snapshot *)

Lemma read_guard_frame st st' root root' n n' ps p : st' !! p = st !! p ->
  read_node_guard (btree_open st' root' n' ps) p = read_node_guard (btree_open st root n ps) p.
Proof. intros E. unfold read_node_guard, read_main_node. simpl. by rewrite E. Qed.

(** [read_get] once the abort flag has been looked at. *)
Lemma snapshot_read st root next ps m P key : root <> 0 -> snapshot K st root ps m P ->
  exists body kind, read_node_guard (btree_open st root next ps) root = Ok (body, kind) /\
    get_with_cached_root (btree_open st root next ps) key body kind = Ok (m !! key).
Proof.
  intros Hr Hs. pose proof (snapshot_get K st root next ps m P key Hs) as Hg. unfold get in Hg. simpl in Hg.
  rewrite (proj2 (Z.eqb_neq root 0)) in Hg by done. rewrite lookup_empty in Hg.
  destruct (read_node_guard _ root) as [[body kind]| |]; [|done..]. exists body, kind. split; [done|].
  unfold get_with_cached_root. simpl. by rewrite (proj2 (Z.eqb_neq root 0)) by done.
Qed.

Lemma read_get_ok d pages ps r rt id m c used W D key :
  db_page_size d = ps -> reader_ok K ps (db_pages d) W D r m c used -> follows (db_pages d) ps r rt id ->
  (forall p, p ∈ used -> pages !! p = db_pages d !! p) ->
  exists rt', follows (db_pages d) ps r rt' id /\
    read_get pages key rt d =
      (if decide (id ∈ db_aborted d) then Err Aborted else Ok (m !! key), rt', with_aborted (db_aborted d ∖ {[id]}) d).
Proof.
  intros Hps [R1 _ _ _ _ _ _] Hfw Hsame. pose proof Hfw as [E1 E2 E3 E4]. unfold read_get, check_abort, take_reader_abort. rewrite E1.
  case_decide as Hab; [rewrite bool_decide_true by done; by exists rt|]. rewrite bool_decide_false by done. rewrite E3 in R1.
  destruct (Z.eqb_spec (rt_root_page_id rt) 0) as [Hz|Hz].
  { exists rt. split; [done|]. rewrite Hz in R1. by rewrite (snapshot_zero _ _ _ _ R1), lookup_empty. }
  assert (snapshot K pages (rt_root_page_id rt) ps m used) as R1' by (by eapply snapshot_frame).
  destruct (snapshot_read _ _ (rt_next_page_id rt) _ _ _ key Hz R1') as (body & kind & Hrd & Hg).
  assert (pages !! rt_root_page_id rt = db_pages d !! rt_root_page_id rt) as Er.
  { destruct (snapshot_root _ _ _ _ _ R1); [done|by apply Hsame]. }
  assert (match rt_cached_root rt with Some c => Ok c | None =>
    read_node_guard (btree_open pages (rt_root_page_id rt) (rt_next_page_id rt) ps) (rt_root_page_id rt) end = Ok (body, kind)) as Hgd.
  { destruct (rt_cached_root rt) as [g|] eqn:Ec; [|done]. destruct (E4 g eq_refl) as [_ Hg4].
    rewrite (read_guard_frame (db_pages d) pages (rt_root_page_id rt) (rt_root_page_id rt) 4 (rt_next_page_id rt)) in Hrd by done.
    rewrite <-Hrd. symmetry. exact Hg4. }
  exists (with_cached_root (body, kind) rt). split.
  - constructor; try done. simpl. intros g [= <-]. split; [done|]. rewrite <-Hrd. symmetry. by apply read_guard_frame.
  - unfold read_tree. cbn [db_config with_aborted db_page_size]. unfold db_page_size in Hps |- *. cbn [db_config with_aborted]. rewrite Hps, Hgd.
    by rewrite Hg.
Qed.

(** ** Leaving *)

Lemma unregister_ok d W m c readers pins U D id rt :
  base_ok d W m c readers pins U D -> readers !! id = Some rt ->
  base_ok (unregister_read id d) W m c (delete id readers) (delete id pins) U D /\
  (exists rs, unregister_read id d = with_readers rs (db_reader_seq d) d).
Proof.
  intros [Hc Hd Hr Hp Hids Hk] Hrt. pose proof (Hp id) as Hpid. rewrite Hrt in Hpid. destruct (pins !! id) as [[m' c']|]; [|done].
  destruct Hpid as (r & used & Hin & _ & _ & [_ Hid _ _]). unfold unregister_read.
  destruct (list_find_elem_of (fun r => tr_entry_id r = id) (db_readers d) r Hin Hid) as [[pos x] Hfind]. rewrite Hfind.
  apply list_find_Some in Hfind as (Hx & Hxid & _). split; [|eauto]. pose proof (swap_remove_perm _ _ _ Hx) as Hperm. symmetry in Hperm.
  set (rs := swap_remove (db_readers d) pos) in *. rewrite Hperm in Hids. rewrite fmap_cons, NoDup_cons in Hids. destruct Hids as [Hni Hids].
  assert (forall r', r' ∈ rs -> r' ∈ db_readers d) as Hsub by (intros r' ?; rewrite Hperm; by right).
  constructor; cbn [db_config with_readers db_readers db_pages db_reader_seq]; try done.
  - intros r' Hr'. apply Hr. auto.
  - intros id'. destruct (decide (id' = id)) as [->|Hne]; [by rewrite !lookup_delete_eq|]. rewrite !lookup_delete_ne by done.
    specialize (Hp id'). destruct (readers !! id'), (pins !! id') as [[? ?]|]; try done.
    destruct Hp as (r' & used' & Hr' & ? & ? & Hf). exists r', used'. split; [|done]. rewrite Hperm in Hr'.
    apply elem_of_cons in Hr' as [->|?]; [|done]. exfalso. destruct Hf as [_ ? _ _]. congruence.
  - intros r' Hr'. destruct (Hk r' (Hsub r' Hr')) as [Hs ?]. split; [|done]. rewrite lookup_delete_ne; [done|].
    intros He. apply Hni. rewrite Hxid, He. apply list_elem_of_fmap. eauto.
Qed.

(** ** Committing *)

(** Readers and their guards on new pages. *)
Lemma base_move d d' W W' m c m' c' readers pins U D D' :
  base_ok d W m c readers pins U D ->
  db_config d' = db_config d -> db_readers d' = db_readers d -> db_reader_seq d' = db_reader_seq d ->
  disk_ok K (db_page_size d) (db_pages d') W' m' c' D' ->
  (forall r m c used, reader_ok K (db_page_size d) (db_pages d) W D r m c used -> used ⊆ U ->
     reader_ok K (db_page_size d) (db_pages d') W' D' r m c used) ->
  (forall p, p ∈ U -> ~ (p ∈ dk_history D) -> db_pages d' !! p = db_pages d !! p) ->
  base_ok d' W' m' c' readers pins U D'.
Proof.
  intros [Hc _ Hr Hp Hids Hk] E1 E2 E3 Hd' Hro Hsame. assert (db_page_size d' = db_page_size d) as Ez by (unfold db_page_size; by rewrite E1).
  constructor; rewrite ?E1, ?E2, ?E3, ?Ez; try done.
  - intros r Hin. destruct (Hr r Hin) as (m1 & c1 & used & ? & ?). exists m1, c1, used. eauto.
  - intros id. specialize (Hp id). destruct (readers !! id) as [rt|], (pins !! id) as [[m1 c1]|]; try done.
    destruct Hp as (r & used & Hin & HU & Hok & [F1 F2 F3 F4]). exists r, used. split; [done|]. split; [done|]. split; [by apply Hro|].
    constructor; try done. intros g Hg. destruct (F4 g Hg) as [Hz Hg4]. split; [done|]. rewrite <-Hg4. apply read_guard_frame.
    pose proof (ro_data _ _ _ _ _ _ _ _ _ Hok) as Hs. rewrite F3 in Hs. destruct (snapshot_root _ _ _ _ _ Hs) as [?|Hin']; [done|].
    apply Hsame; [by apply HU|]. by apply (ro_history _ _ _ _ _ _ _ _ _ Hok).
Qed.

(** The old state on pages that have kept everything protected. *)
Lemma base_keep d d' W m c readers pins U D P :
  base_ok d W m c readers pins U D ->
  db_config d' = db_config d -> db_readers d' = db_readers d -> db_reader_seq d' = db_reader_seq d -> U ⊆ P ->
  (forall p, p ∈ dk_data D ++ dk_catalog D ++ dk_history D ++ (dk_links D).*1 -> p ∈ P) ->
  (forall p, p ∈ P -> db_pages d' !! p = db_pages d !! p) -> base_ok d' W m c readers pins U D.
Proof.
  intros Hb E1 E2 E3 HU HP Hsame. eapply base_move; [exact Hb|done..| | |].
  - eapply disk_frame; [|apply Hb]. auto.
  - intros r m1 c1 used Hok Hs. eapply reader_frame; [|exact Hok]. set_solver.
  - set_solver.
Qed.

(** Pages of the trees and of the chain are not pages of the history. *)
Lemma disk_apart ps pages W m c D p : disk_ok K ps pages W m c D ->
  p ∈ dk_data D ++ dk_catalog D ++ (dk_links D).*1 -> ~ (p ∈ dk_history D).
Proof.
  intros [_ _ _ _ _ Hnd _ _ _ _ _] Hp Hh. unfold tracked in Hnd. rewrite app_assoc in Hnd. apply NoDup_app in Hnd as (_ & Hdj & Hnd).
  apply NoDup_app in Hnd as (_ & Hdj' & _). rewrite !elem_of_app in Hp. destruct Hp as [Hp|[Hp|Hp]].
  - apply (Hdj p); mem.
  - apply (Hdj p); mem.
  - apply (Hdj' p Hh). mem.
Qed.

Lemma disk_torn ps pages pages' W m c D : disk_ok K ps pages W m c D -> page_size_ok (btree_open pages' 0 4 ps) -> room K ps ->
  (forall p, p ∈ dk_data D ++ dk_catalog D ++ (dk_links D).*1 -> pages' !! p = pages !! p) ->
  disk_ok K ps pages' (forget_history W) m c (without_history D).
Proof.
  intros [H1 H2 H3 ? H5 Hnd Hb ? ? ? ?] Hz Hroom Hf. unfold tracked in *. constructor; unfold tracked;
    cbn [forget_history without_history dk_data dk_catalog dk_history dk_rows dk_links ws_root_page_id ws_next_page_id ws_latest_commit_id
         ws_catalog_root_page_id ws_free_list_root_page_id ws_commit_history_root_page_id ws_commit_retain_policy_tag]; try done.
  - eapply sound_frame; [|exact H1]. intros p Hp. apply Hf. mem.
  - eapply sound_frame; [|exact H2]. intros p Hp. apply Hf. mem.
  - by apply sound_nothing.
  - eapply free_chain_frame; [|exact H5]. intros p Hp. apply Hf. mem.
  - eapply sublist_NoDup; [exact Hnd|]. repeat (apply sublist_app; [done|]). apply sublist_inserts_l. done.
  - intros p Hp. apply Hb. simpl in Hp. rewrite !elem_of_app in *. tauto.
Qed.

(** The old state without its history, on pages that have kept everything else. *)
Lemma base_torn d d' W m c readers pins U D P :
  base_ok d W m c readers pins U D ->
  db_config d' = db_config d -> db_readers d' = db_readers d -> db_reader_seq d' = db_reader_seq d -> U ⊆ P ->
  (forall p, p ∈ dk_data D ++ dk_catalog D ++ dk_history D ++ (dk_links D).*1 -> p ∈ P) ->
  (forall p, p ∈ P -> ~ (p ∈ dk_history D) -> db_pages d' !! p = db_pages d !! p) ->
  base_ok d' (forget_history W) m c readers pins U (without_history D).
Proof.
  intros Hb E1 E2 E3 HU HP Hsame. destruct (config_sizes _ (bo_config _ _ _ _ _ _ _ _ Hb)) as (_ & _ & _ & Hz).
  pose proof (bo_config _ _ _ _ _ _ _ _ Hb) as (_ & _ & Hroom & _). eapply base_move; [exact Hb|done..| | |].
  - eapply disk_torn; [apply Hb|apply Hz|done|]. intros p Hp. apply Hsame; [|by eapply disk_apart; [apply Hb|]].
    apply HP. rewrite !elem_of_app in *. tauto.
  - intros r m1 c1 used [R1 R2 R3 R4 R5 R6 R7] Hs.
    assert (forall p, p ∈ used -> db_pages d' !! p = db_pages d !! p) as Hu by (intros p Hp; apply Hsame; [by apply HU, Hs|by apply R5]).
    constructor; try done; [by eapply snapshot_frame..|]. intros p _ Hin. by apply elem_of_nil in Hin.
  - intros p Hp. apply Hsame. by apply HU.
Qed.

(** The stall policy. *)
Lemma stall_ok d n : exists r ab, evaluate_stall_policy n d = (r, with_aborted ab d) /\
  (r = Ok tt \/ exists c, r = Err (DeferredFreeBacklog n c)) /\
  (ab = db_aborted d \/ exists v, v ∈ db_readers d /\ ab = {[tr_entry_id v]} ∪ db_aborted d).
Proof.
  unfold evaluate_stall_policy.
  assert (with_aborted (db_aborted d) d = d) as Hid by (by destruct d).
  destruct (_ <=? _); [exists (Ok tt), (db_aborted d); rewrite Hid; auto|].
  destruct (db_stall_policy d); (destruct (min_reader d) as [oldest|]; [|exists (Ok tt), (db_aborted d); rewrite Hid; auto]).
  - destruct (min_by_commit _) as [v|] eqn:Hv.
    + exists (Ok tt), ({[tr_entry_id v]} ∪ db_aborted d). split; [done|]. split; [by left|]. right. exists v. split; [|done].
      assert (forall l v, min_by_commit l = Some v -> v ∈ l) as Hmin.
      { clear. induction l as [|x l IH]; intros v; simpl; [done|]. destruct (min_by_commit l) as [y|]; [|intros [= ->]; left].
        case_match; intros [= ->]; [right; by apply IH|left]. }
      apply Hmin in Hv. by apply list_elem_of_filter in Hv as [_ ?].
    + eexists _, (db_aborted d). rewrite Hid. split; [done|]. split; [right; eauto|by left].
  - eexists _, (db_aborted d). rewrite Hid. split; [done|]. split; [right; eauto|by left].
  - exists (Ok tt), (db_aborted d). rewrite Hid. auto.
Qed.

(** What a commit computes before anything is durable. *)
Record prepared (e : Env) (d : Db) (w : WriteTxn) (D : Disk) (P : gset Z) (v : View) (ca : Candidate) (head next : Z)
    (pages' : Store) (D' : Disk) : Prop := mkPrepared {
  pp_candidate : candidate e w d = Ok ca;
  pp_rewrite : rewrite_chain (db_page_size d) (sh_pages (ca_shared ca)) (ca_entries ca) (ca_hosts ca)
    (pw_next_page_id (ca_pending ca)) (retained_tail w) = Ok (head, next, pages');
  pp_count : exists n, count_chain pages' head = Ok n;
  pp_stuck : exists k, count_at_or_above_floor (sh_pages (ca_shared ca)) (tail_head (retained_tail w)) (reader_floor w) = Ok k;
  pp_check : assert_freed_pages_unreachable (sh_pages (ca_shared ca)) (db_page_size d)
    [("data"%string, ca_root ca); ("catalog"%string, ca_catalog_root ca);
     ("commit-history"%string, pw_commit_history_root_page_id (ca_pending ca))]
    (pw_next_page_id (ca_pending ca)) (list_to_set (ca_entries ca).*2) (ws_latest_commit_id (db_writer d) + 1) = Ok tt;
  pp_done : rewritten K (db_page_size d) (db_retain d) (db_pages d) D P (ws_latest_commit_id (db_writer d)) v ca head next pages' D';
}.

Lemma prepare_ok e d w v W m c readers pins U D P floor ut uc :
  base_ok d W m c readers pins U D -> live_ok d W D ->
  txn_inv K (db_page_size d) (db_pages d) D P w v floor ut uc ->
  (forall l : gmap Z Leaf, env_drain e l ≡ₚ map_to_list l) ->
  next_page_id (btree w) <= PAGE_LIMIT -> ws_latest_commit_id (db_writer d) <= PAGE_LIMIT ->
  exists ca head next pages' D', prepared e d w D P v ca head next pages' D'.
Proof.
  intros [Hcfg Hdisk _ _ _ _] [Hcore Hcnt] Hti Hdr Hn HL. unfold PAGE_LIMIT in *.
  destruct (config_sizes _ Hcfg) as (Hov & Hcap & Hsz & _). pose proof Hcfg as (HK & _ & _ & Hcount).
  assert (disk_ok K (db_page_size d) (db_pages d) (db_writer d) m c D) as Hd by (by eapply disk_core).
  destruct (candidate_ok K e d w v m c D P floor ut uc Hdr HK Hov Hcount Hd Hcnt Hti Hn HL) as (ca & ut' & uc' & uh' & mh' & Hca & Hco).
  pose proof (ti_tail _ _ _ _ _ _ _ _ _ _ Hti) as Ht.
  destruct (rewrite_cand_ok K _ _ _ _ _ _ _ (retained_tail w) _ _ _ _ _ (db_writer d) m c Hco Hd eq_refl HL) as (head & next & pages' & D' & Hrw & Hn' & Hdone);
    [by rewrite Ht|done|done|intros p Hp; apply (ti_protected _ _ _ _ _ _ _ _ _ _ Hti); mem|].
  exists ca, head, next, pages', D'. constructor; try done.
  - eexists. apply (count_floor_ok _ _ (tail_links D)); [by destruct Hco|].
    pose proof (bounded_length _ 4 _ (co_nodup _ _ _ _ _ _ _ _ _ _ _ _ _ _ Hco) ltac:(lia) (co_bounds _ _ _ _ _ _ _ _ _ _ _ _ _ _ Hco)) as Hl.
    rewrite !length_app, !length_fmap in Hl. pose proof (co_limit _ _ _ _ _ _ _ _ _ _ _ _ _ _ Hco). unfold U64_MAX. lia.
  - by eapply check_ok.
Qed.

(** ** The header of a commit *)

Lemma sound_root st root ps m us : sound K st root ps m us -> root = 0 \/ root ∈ us.
Proof.
  intros (_ & _ & [(? & _)|(H & kvs & ids & ch & -> & Hr & _)]); [by left|right]. apply rep_head in Hr as [ids' ->]. simpl. mem.
Qed.

Lemma disk_roots ps pages s m c D : disk_ok K ps pages s m c D -> ws_next_page_id s <= 2 ^ 64 ->
  is_u64 (ws_catalog_root_page_id s) /\ is_u64 (ws_free_list_root_page_id s).
Proof.
  intros [_ S2 _ _ Hch _ Hb _ _ _ _] Hn. unfold tracked in Hb. split.
  - destruct (sound_root _ _ _ _ _ S2) as [->|Hin]; [done|]. specialize (Hb (ws_catalog_root_page_id s) ltac:(mem)). lia.
  - destruct (dk_links D) as [|[pid chunk] links]; simpl in Hch; [by rewrite Hch|]. destruct Hch as [-> _].
    specialize (Hb pid). ospecialize (Hb _); [rewrite !elem_of_app; simpl; rewrite !elem_of_cons; tauto|]. lia.
Qed.

Lemma commit_fields_ok e d ca head n next sq :
  config_ok K (db_config d) -> is_u64 (ca_catalog_root ca) -> is_u64 head ->
  exists fields, commit_fields e d ca head next sq = Ok fields /\
    same_core (committed_state d ca head n next) (writer_of_header fields) /\
    commit_id fields = ws_latest_commit_id (db_writer d) + 1 /\ opened_config (db_config d) fields = db_config d.
Proof.
  intros (_ & (log2 & Hlog) & _) Hu1 Hu2. unfold commit_fields, db_page_size.
  destruct (encode_retain_policy (db_retain d)) as [tag val] eqn:Ep. rewrite Hlog. eexists. split; [reflexivity|]. split; [|split; [done|by destruct (db_config d)]].
  unfold same_core, committed_state, writer_of_header, encode_root_ref, encode_free_list_root, decode_free_list_root. rewrite Ep. cbn.
  split_and!; try done; rewrite take_app_length' by done; by apply of_le64.
Qed.

(** ** The outcomes of a commit *)

Section commit.
Context (s : Sys) (a : Abs) (U : gset Z) (D : Disk) (w : WriteTxn) (v : View) (P : gset Z) (floor : Z) (ut uc : list Z).
Local Abbreviation d := (sys_db s).
Local Abbreviation W := (writer_of_header (db_header (sys_db s))).
Context (Hbase : base_ok d W (a_data a) (a_catalog a) (sys_readers s) (a_readers a) U D).
Context (Hident : opened_config (db_config d) (db_header d) = db_config d).
Context (Hcommit : commit_id (db_header d) = a_commit a) (Haborted : db_aborted d = a_aborted a).
Context (Hpoison : a_poisoned a = false) (Hfree : db_poisoned d = None) (Hpub : snapshot_current d W) (Hlive : live_ok d W D).
Context (HU : U ⊆ P) (Hti : txn_inv K (db_page_size d) (db_pages d) D P w v floor ut uc).
Context (Hv : a_txn a = Some v).

(** The parts of the handle a commit leaves alone. *)
Definition same_handle (d' : Db) : Prop :=
  db_config d' = db_config d /\ db_readers d' = db_readers d /\ db_reader_seq d' = db_reader_seq d /\
  opened_config (db_config d) (db_header d') = db_config d.

Lemma latest_commit_eq : ws_latest_commit_id (db_writer d) = a_commit a.
Proof. destruct Hlive as [(_ & _ & E & _) _]. rewrite E. exact Hcommit. Qed.

Lemma stall_gave_up ab :
  (ab = db_aborted d \/ exists r, r ∈ db_readers d /\ ab = {[tr_entry_id r]} ∪ db_aborted d) -> gave_up a ab.
Proof.
  intros [->|(r & Hr & ->)]; [by left|right]. exists (tr_entry_id r). rewrite Haborted. split; [|done].
  destruct Hbase as [_ _ _ Hp _ Hk]. apply Hk in Hr as [[rt Hrt] _]. specialize (Hp (tr_entry_id r)). rewrite Hrt in Hp.
  destruct (a_readers a !! _) as [[? ?]|]; [eauto|done].
Qed.

(** The state before the commit, on pages that kept what is protected. *)
Lemma kept_base d' : same_handle d' -> (forall p, p ∈ P -> db_pages d' !! p = db_pages d !! p) ->
  base_ok d' W (a_data a) (a_catalog a) (sys_readers s) (a_readers a) U D.
Proof.
  intros (E1 & E2 & E3 & _) Hsame. eapply (base_keep d); [exact Hbase|done|done|done|exact HU| |done].
  exact (ti_protected _ _ _ _ _ _ _ _ _ _ Hti).
Qed.

Lemma kept_ok d' ab : same_handle d' -> db_writer d' = db_writer d -> db_snapshot d' = db_snapshot d -> db_poisoned d' = None ->
  db_aborted d' = ab -> writer_of_header (db_header d') = W -> (forall p, p ∈ P -> db_pages d' !! p = db_pages d !! p) ->
  sys_ok false (mkSys d' None (sys_readers s)) (a_ended ab a) U D.
Proof.
  intros Hh E1 E2 E3 E4 E5 Hsame. pose proof (kept_base d' Hh Hsame) as Hb. destruct Hh as (C1 & _ & _ & C4).
  constructor; cbn [sys_db sys_readers sys_txn a_data a_catalog a_readers a_commit a_aborted a_poisoned a_txn a_ended a_with_aborted a_with_txn]; try done.
  - unfold described. by rewrite E5.
  - by rewrite C1.
  - rewrite <-Hcommit. change (commit_id (db_header d')) with (ws_latest_commit_id (writer_of_header (db_header d'))). by rewrite E5.
  - rewrite Hpoison. split; [done|]. rewrite E5. unfold snapshot_current. rewrite E2. split; [done|]. intros _.
    destruct Hlive as [L1 L2]. constructor; rewrite E1; [done|]. unfold db_retain. rewrite C1. exact L2.
Qed.

Lemma kept_poisoned_ok d' ab : same_handle d' -> db_poisoned d' <> None -> db_aborted d' = ab ->
  writer_of_header (db_header d') = W -> (forall p, p ∈ P -> db_pages d' !! p = db_pages d !! p) ->
  sys_ok false (mkSys d' None (sys_readers s)) (a_poison (a_ended ab a)) U D.
Proof.
  intros Hh E3 E4 E5 Hsame. pose proof (kept_base d' Hh Hsame) as Hb. destruct Hh as (C1 & _ & _ & C4).
  constructor; cbn [sys_db sys_readers sys_txn a_data a_catalog a_readers a_commit a_aborted a_poisoned a_txn a_ended a_with_aborted a_with_txn a_poison]; try done.
  - unfold described. by rewrite E5.
  - by rewrite C1.
  - rewrite <-Hcommit. change (commit_id (db_header d')) with (ws_latest_commit_id (writer_of_header (db_header d'))). by rewrite E5.
Qed.

(** A commit that failed with its pages written, whether or not it has poisoned the
    handle: the history is torn if there is one. *)
Definition failed (poisoned : bool) (ab : gset Z) : Abs := if poisoned then a_poison (a_ended ab a) else a_ended ab a.

Lemma torn_ok d' (po : bool) ab : same_handle d' -> (po = false -> db_snapshot d' = db_snapshot d) ->
  (if po then db_poisoned d' <> None else db_poisoned d' = None) -> db_aborted d' = ab ->
  writer_of_header (db_header d') = W -> (forall p, p ∈ P -> ~ (p ∈ dk_history D) -> db_pages d' !! p = db_pages d !! p) ->
  sys_ok true (mkSys d' None (sys_readers s)) (failed po ab) U (without_history D).
Proof.
  intros (C1 & C2 & C3 & C4) E2 E3 E4 E5 Hsame.
  assert (base_ok d' (forget_history W) (a_data a) (a_catalog a) (sys_readers s) (a_readers a) U (without_history D)) as Hb.
  { eapply (base_torn d); [exact Hbase|done|done|done|exact HU| |done]. exact (ti_protected _ _ _ _ _ _ _ _ _ _ Hti). }
  constructor; unfold failed; destruct po;
    cbn [sys_db sys_readers sys_txn a_data a_catalog a_readers a_commit a_aborted a_poisoned a_txn a_ended a_with_aborted a_with_txn a_poison]; try done;
    try (by unfold described; rewrite E5); try (by rewrite C1);
    try (rewrite <-Hcommit; change (commit_id (db_header d')) with (ws_latest_commit_id (writer_of_header (db_header d'))); by rewrite E5).
  rewrite Hpoison. split; [done|]. unfold snapshot_current. by rewrite E5, E2.
Qed.

Lemma failed_ok d' (po : bool) ab : same_handle d' -> (po = false -> db_writer d' = db_writer d /\ db_snapshot d' = db_snapshot d) ->
  (if po then db_poisoned d' <> None else db_poisoned d' = None) -> db_aborted d' = ab ->
  writer_of_header (db_header d') = W -> (forall p, p ∈ P -> ~ (p ∈ dk_history D) -> db_pages d' !! p = db_pages d !! p) ->
  (db_retain d = Disabled -> forall p, p ∈ P -> db_pages d' !! p = db_pages d !! p) ->
  forall e, exists D1, sys_ok (tears (ICommit e) s (mkSys d' None (sys_readers s))) (mkSys d' None (sys_readers s)) (failed po ab) U D1.
Proof.
  intros Hh E2 E3 E4 E5 Hsame Hdis e. unfold tears. cbn [sys_db].
  assert (commit_id (db_header d') = commit_id (db_header d)) as Hcid.
  { change (ws_latest_commit_id (writer_of_header (db_header d')) = ws_latest_commit_id W). by rewrite E5. }
  rewrite Hcid, Z.eqb_refl.
  assert ((forall p, p ∈ P -> db_pages d' !! p = db_pages d !! p) ->
    exists D1, sys_ok false (mkSys d' None (sys_readers s)) (failed po ab) U D1) as Hkept.
  { intros Hp. exists D. unfold failed. destruct po; [by apply kept_poisoned_ok|]. destruct (E2 eq_refl). by apply kept_ok. }
  destruct (decide (db_retain d = Disabled)) as [Hr|Hr]; [rewrite bool_decide_true by done; auto|rewrite bool_decide_false by done].
  destruct (decide (db_pages d' = db_pages d)) as [Hp|Hp]; [rewrite bool_decide_true by done|rewrite bool_decide_false by done]; simpl.
  - apply Hkept. by rewrite Hp.
  - exists (without_history D). apply torn_ok; try done. intros Hpo. by apply E2.
Qed.

(** The state after it. *)
Context (e : Env) (ca : Candidate) (head next : Z) (pages' : Store) (D' : Disk).
Context (Hprep : prepared e d w D P v ca head next pages' D').

Lemma new_disk n : disk_ok K (db_page_size d) pages' (committed_state d ca head n next) (v_data v) (v_catalog v) D'.
Proof.
  destruct Hprep as [_ _ _ _ _ [Hd _ _ _ _ _]]. unfold committed_state. destruct (encode_retain_policy (db_retain d)) as [tag val] eqn:Ep.
  apply Hd; try done. cbn. intros ->. unfold encode_retain_policy in Ep. destruct (db_retain d); by simplify_eq/=.
Qed.

Lemma new_base d' n : same_handle d' -> db_pages d' = pages' -> same_core (committed_state d ca head n next) (writer_of_header (db_header d')) ->
  base_ok d' (writer_of_header (db_header d')) (v_data v) (v_catalog v) (sys_readers s) (a_readers a) U D'.
Proof.
  intros (E1 & E2 & E3 & _) Ep Hcore. pose proof (new_disk n) as Hd. pose proof Hcore as (_ & En & EL & _).
  destruct Hprep as [_ _ _ _ _ [_ _ Hsame _ _ Hro]]. eapply (base_move d); [exact Hbase|done|done|done| | |].
  - rewrite Ep. by eapply disk_core.
  - intros r m c used Hok Hus. rewrite Ep. destruct Hlive as [(_ & _ & EL0 & _) _].
    apply (Hro W); [done|done| | |set_solver].
    + rewrite EL. unfold committed_state. by destruct (encode_retain_policy (db_retain d)).
    + rewrite En. unfold committed_state. by destruct (encode_retain_policy (db_retain d)).
  - intros p Hp Hni. rewrite Ep. apply Hsame; [by apply HU|done].
Qed.

Lemma new_poisoned_ok d' n ab : same_handle d' -> db_pages d' = pages' ->
  same_core (committed_state d ca head n next) (writer_of_header (db_header d')) ->
  commit_id (db_header d') = a_commit a + 1 -> db_poisoned d' <> None -> db_aborted d' = ab ->
  sys_ok false (mkSys d' None (sys_readers s)) (a_poison (a_ended ab (a_install v a))) U D'.
Proof.
  intros Hh Ep Hcore Hc Hpo Hab. pose proof (new_base d' n Hh Ep Hcore) as Hb. destruct Hh as (C1 & _ & _ & C4).
  constructor; cbn [sys_db sys_readers sys_txn a_data a_catalog a_readers a_commit a_aborted a_poisoned a_txn a_ended a_with_aborted a_with_txn a_poison a_install]; try done.
  by rewrite C1.
Qed.

Lemma new_ok d' n ab : same_handle d' -> db_pages d' = pages' ->
  same_core (committed_state d ca head n next) (writer_of_header (db_header d')) ->
  commit_id (db_header d') = a_commit a + 1 -> db_poisoned d' = None -> db_aborted d' = ab ->
  db_writer d' = committed_state d ca head n next -> db_snapshot d' = snapshot_of (committed_state d ca head n next) ->
  sys_ok false (mkSys d' None (sys_readers s)) (a_ended ab (a_install v a)) U D'.
Proof.
  intros Hh Ep Hcore Hc Hpo Hab Hw Hs. pose proof (new_base d' n Hh Ep Hcore) as Hb. destruct Hh as (C1 & _ & _ & C4).
  constructor; cbn [sys_db sys_readers sys_txn a_data a_catalog a_readers a_commit a_aborted a_poisoned a_txn a_ended a_with_aborted a_with_txn a_install]; try done; [by rewrite C1|].
  rewrite Hpoison. split; [done|]. destruct Hcore as (E1 & E2 & E3 & E4 & E5 & E6 & E7). split; [|intros _; constructor].
  - unfold snapshot_current. rewrite Hs. cbn [snapshot_of rs_commit_id rs_root_page_id rs_catalog_root_page_id]. by rewrite E1, E3, E4.
  - rewrite Hw. unfold same_core. by rewrite E1, E2, E3, E4, E5, E6, E7.
  - rewrite Hw. unfold db_retain. rewrite C1. destruct Hprep as [_ _ _ _ _ [_ Hcnt _ _ _ _]]. unfold committed_state.
    by destruct (encode_retain_policy (db_retain d)).
Qed.

(** Nothing is torn when the header has landed. *)
Lemma landed_whole e1 d' : commit_id (db_header d') = a_commit a + 1 -> tears (ICommit e1) s (mkSys d' None (sys_readers s)) = false.
Proof.
  intros Hc. unfold tears. cbn [sys_db]. rewrite Hc, Hcommit. rewrite (proj2 (Z.eqb_neq _ _)) by lia. by rewrite andb_false_r.
Qed.

Lemma same_pages : db_retain d = Disabled -> forall p, p ∈ P -> pages' !! p = db_pages d !! p.
Proof. intros Hdis. destruct Hprep as [_ _ _ _ _ [_ _ _ Hs _ _]]. by apply Hs. Qed.

Lemma other_pages p : p ∈ P -> ~ (p ∈ dk_history D) -> pages' !! p = db_pages d !! p.
Proof. destruct Hprep as [_ _ _ _ _ [_ _ Hs _ _ _]]. by apply Hs. Qed.

Lemma candidate_pages_eq : candidate_pages e w d = Ok pages'.
Proof. destruct Hprep as [H1 H2 _ _ _ _]. unfold candidate_pages. rewrite H1. cbn beta iota. by rewrite H2. Qed.

(** One outcome of the commit. *)
Definition outcome_ok (rd : result CommitId * Db) : Prop :=
  exists a' D1, astep (db_config d) (ICommit e) (OCommitted rd.1) a a' /\
    sys_ok (tears (ICommit e) s (mkSys rd.2 None (sys_readers s))) (mkSys rd.2 None (sys_readers s)) a' U D1.

(** The header was not written. *)
Lemma unwritten_ok r d' (po : bool) ab : same_handle d' -> (po = false -> db_writer d' = db_writer d /\ db_snapshot d' = db_snapshot d) ->
  (if po then db_poisoned d' <> None else db_poisoned d' = None) -> db_aborted d' = ab ->
  writer_of_header (db_header d') = W -> (forall p, pages' !! p = db_pages d !! p -> db_pages d' !! p = db_pages d !! p) ->
  astep (db_config d) (ICommit e) (OCommitted r) a (failed po ab) -> outcome_ok (r, d').
Proof.
  intros Hh E2 E3 E4 E5 Hp Hst. destruct (failed_ok d' po ab Hh E2 E3 E4 E5) with (e := e) as [D1 Hok]; [| |by exists (failed po ab), D1].
  - intros p HpP Hni. by apply Hp, other_pages.
  - intros Hdis p HpP. by apply Hp, same_pages.
Qed.

(** It was. *)
Lemma written_ok r d' a' : commit_id (db_header d') = a_commit a + 1 -> astep (db_config d) (ICommit e) (OCommitted r) a a' ->
  sys_ok false (mkSys d' None (sys_readers s)) a' U D' -> outcome_ok (r, d').
Proof. intros Hc Hst Hok. exists a', D'. split; [done|]. by rewrite landed_whole. Qed.

(** From the header write on; [d1] is the handle after the flush. *)
Lemma write_header_cases d1 ab fields n :
  same_handle d1 -> db_writer d1 = db_writer d -> db_snapshot d1 = db_snapshot d -> db_poisoned d1 = None ->
  db_aborted d1 = ab -> gave_up a ab -> writer_of_header (db_header d1) = W -> db_pages d1 = pages' ->
  env_commit_anchor e <> Panic -> env_reconcile e <> Panic ->
  same_core (committed_state d ca head n next) (writer_of_header fields) -> commit_id fields = a_commit a + 1 ->
  opened_config (db_config d) fields = db_config d ->
  outcome_ok (write_header e fields (committed_state d ca head n next) (a_commit a + 1) d1).
Proof.
  intros Hh E1 E2 E3 E4 Hga E5 Ep Hna Hnr Hcore Hcid Hid. unfold write_header. destruct (id Hh) as (H1 & H2 & H3 & _).
  assert (forall d', db_config d' = db_config d1 -> db_readers d' = db_readers d1 -> db_reader_seq d' = db_reader_seq d1 -> db_header d' = fields -> same_handle d') as Hnew.
  { intros d' C1 C2 C3 C4. unfold same_handle. rewrite C1, C2, C3, C4. done. }
  destruct (env_header e) as [|er|er landed] eqn:Ehd.
  - unfold finish_durable_commit. destruct (env_commit_anchor e) as [[]|ea|] eqn:Ea; [| |done].
    + destruct (env_reconcile e) as [[]|ea|] eqn:Er; [| |done].
      * eapply written_ok; [done|by eapply a_commit_ok|]. by eapply (new_ok _ n).
      * eapply written_ok; [done|by eapply a_commit_unpublished|]. eapply (new_poisoned_ok _ n); try done. cbn. by destruct (db_poisoned d1).
    + eapply written_ok; [done|by eapply a_commit_unpublished|]. eapply (new_poisoned_ok _ n); try done. cbn. by destruct (db_poisoned d1).
  - apply (unwritten_ok _ _ false ab); try done; [by intros p; rewrite Ep|].
    eapply a_commit_refused; [done|exact Hga|]. right. by left.
  - destruct landed.
    + eapply written_ok; [done|by eapply (a_commit_unknown _ _ _ true)|]. eapply (new_poisoned_ok _ n); try done. cbn. by destruct (db_poisoned d1).
    + apply (unwritten_ok _ _ true ab); try done; [cbn; by destruct (db_poisoned d1)|cbn; by intros p; rewrite Ep|].
      by eapply (a_commit_unknown _ _ _ false).
Qed.

Lemma publish_cases ab : env_ok e w d -> gave_up a ab -> outcome_ok (publish_candidate e w ca (with_aborted ab d)).
Proof.
  intros (_ & Hna & Hnr & Hfl) Hga. pose proof Hprep as [_ Hrw [n Hn] _ Hck Hdone]. unfold publish_candidate.
  cbn [db_writer with_aborted]. change (db_page_size (with_aborted ab d)) with (db_page_size d). rewrite Hck, Hrw.
  assert ((if env_invariant_checks e then Ok tt else Ok tt) = @Ok PagedbError unit tt) as -> by (by destruct (env_invariant_checks e)).
  cbv beta iota. rewrite Hn. unfold flush_main. set (d2 := with_disk _ _ _ (with_aborted ab d)).
  assert (same_handle d2) as Hh by done. destruct (fo_result (env_flush e)) as [[]|er|] eqn:Ef; [| |done].
  - specialize (Hfl pages' candidate_pages_eq). unfold next_seq. destruct (checked_add _ _) as [sq|] eqn:Hsq; cbn [ok_or].
    + destruct (disk_roots _ _ _ _ _ _ (new_disk n)) as [Hu1 Hu2].
      { unfold committed_state. destruct (encode_retain_policy (db_retain d)). cbn. by destruct Hdone. }
      assert (is_u64 (ca_catalog_root ca) /\ is_u64 head) as [Hc Hf].
      { revert Hu1 Hu2. unfold committed_state. by destruct (encode_retain_policy (db_retain d)). }
      destruct (commit_fields_ok e d2 ca head n next sq) as (fields & -> & Hcore & Hcid & Hid); [apply Hbase|done|done|].
      change (db_writer d2) with (db_writer d) in Hcid. rewrite latest_commit_eq in Hcid |- *.
      by apply (write_header_cases d2 ab).
    + apply (unwritten_ok _ _ false ab); try done; [cbn; by intros p; rewrite Hfl|].
      eapply a_commit_refused; [done|exact Hga|by right; right; right].
  - apply (unwritten_ok _ _ false ab); try done; [cbn; by apply Hfl, candidate_pages_eq|].
    eapply a_commit_refused; [done|exact Hga|by left].
Qed.

Lemma commit_cases : env_ok e w d -> outcome_ok (commit e w d).
Proof.
  intros Henv. pose proof Hprep as [Hca _ _ [k Hk] _ _]. unfold commit.
  rewrite (th_mark _ _ _ _ _ _ _ (ti_holds _ _ _ _ _ _ _ _ _ _ Hti)), Hca, Hk.
  destruct (stall_ok d (saturating_add k (stuck (reader_floor w) (ca_entries ca)))) as (r & ab & -> & Hr & Hab).
  apply stall_gave_up in Hab. destruct Hr as [->|[c0 ->]]; [by apply publish_cases|].
  apply (unwritten_ok _ _ false ab); try done.
  eapply a_commit_refused; [done|exact Hab|right; right; left; eauto].
Qed.
End commit.

Lemma commit_config e w d : db_config (commit e w d).2 = db_config d.
Proof.
  unfold commit, publish_candidate, flush_main, write_header, finish_durable_commit, evaluate_stall_policy.
  repeat (case_match; simplify_eq/=; try done).
Qed.

(** ** One call *)

Definition step_ok (torn : bool) (i : input) (s : Sys) (a : Abs) : Prop :=
  match sys_step i s with
  | Some (o, s') => exists a' U D, astep (db_config (sys_db s)) i o a a' /\ sys_ok (torn || tears i s s') s' a' U D /\
      db_config (sys_db s') = config_after i (db_config (sys_db s))
  | None => ~ enabled i a
  end.

Lemma commit_step_ok e torn s a U D : sys_ok torn s a U D -> input_ok K s (ICommit e) -> step_ok torn (ICommit e) s a.
Proof.
  intros [Hb Hi Hc Hab Hl Ht] Hin. unfold step_ok. simpl in *. destruct (sys_txn s) as [w|], (a_txn a) as [v|] eqn:Hv; try done; simpl.
  - destruct (Hin w eq_refl) as (Henv & Hn & HL). destruct Ht as (Hpo & -> & P & floor & ut & uc & HU & Hti). rewrite Hpo in Hl.
    destruct Hl as (Hfree & Hpub & Hl). specialize (Hl eq_refl).
    destruct (prepare_ok e _ w v _ _ _ _ _ U D P floor ut uc Hb Hl Hti) as (ca & head & next & pages' & D' & Hp); [apply Henv|done|done|].
    pose proof (commit_config e w (sys_db s)) as Hcfg.
    destruct (commit_cases s a U D w v P floor ut uc Hb Hi Hc Hab Hpo Hfree Hpub Hl HU Hti Hv e ca head next pages' D' Hp Henv) as (a' & D1 & Hst & Hok).
    destruct (commit e w (sys_db s)) as [r d']. simpl in *. eauto 10.
  - apply is_Some_None.
Qed.

Lemma poisoned_refused d : db_poisoned d <> None -> exists er, ensure_usable d = Err er.
Proof. unfold ensure_usable. destruct (db_poisoned d) as [[]|]; eauto. done. Qed.

Lemma begin_step_ok s a U D : sys_ok false s a U D -> input_ok K s IBegin -> step_ok false IBegin s a.
Proof.
  intros [Hb Hi Hc Hab Hl Ht] Hn. unfold step_ok. simpl in *. destruct (sys_txn s) as [w|] eqn:Hsw, (a_txn a) as [v|] eqn:Hv; try done; simpl.
  destruct (a_poisoned a) eqn:Hpo.
  { destruct (poisoned_refused _ Hl) as [er He]. unfold begin_txn. rewrite He. simpl.
    exists a, U, D. split; [by apply a_begin_refused|]. split; [|done]. constructor; try done; [by rewrite Hpo|by rewrite Hsw, Hv]. }
  destruct Hl as (Hfree & Hpub & Hl). specialize (Hl eq_refl). pose proof (config_sizes _ (bo_config _ _ _ _ _ _ _ _ Hb)) as (Hov & _). pose proof (lo_writer _ _ _ Hl) as Hcore.
  destruct (begin_ok K (sys_db s) (a_data a) (a_catalog a) D U Hfree) as (w & floor & P & -> & Hti & Hfl & HP).
  { eapply disk_core; [exact Hcore|apply Hb]. } { done. } { unfold PAGE_LIMIT in Hn. lia. }
  assert (forall r m c used, r ∈ db_readers (sys_db s) -> reader_ok K (db_page_size (sys_db s)) (db_pages (sys_db s)) (writer_of_header (db_header (sys_db s))) D r m c used ->
    used ⊆ U -> used ⊆ U ∩ P) as Hsub.
  { intros r m c used Hr [_ _ _ R4 _ _ R7] HU p Hp. apply elem_of_intersection. split; [by apply HU|]. destruct Hcore as (_ & En & _).
    apply HP; [by apply HU|rewrite En; by apply R4|]. intros Hin. unfold pool in Hin. apply list_elem_of_fmap in Hin as ([cid q] & -> & Hq).
    apply list_elem_of_filter in Hq as [Hlt Hq]. specialize (Hfl r Hr). ospecialize (R7 cid _ Hp _); [rewrite entries_window; mem|]. simpl in *. lia. }
  eexists _, (U ∩ P), D. split; [by apply a_begin|]. split; [|done].
  constructor; cbn [sys_db sys_txn sys_readers a_data a_catalog a_readers a_commit a_aborted a_poisoned a_txn a_with_txn]; try done.
  - destruct Hb as [? ? Hr Hp ? ?]. constructor; try done.
    + intros r Hin. destruct (Hr r Hin) as (m & c & used & ? & ?). exists m, c, used. eauto.
    + intros id. specialize (Hp id). destruct (_ !! id), (a_readers a !! id) as [[? ?]|]; try done.
      destruct Hp as (r' & used & ? & ? & ? & ?). exists r', used. eauto 10.
  - by rewrite Hpo.
  - split; [done|]. split; [done|]. exists P, floor, (dk_data D), (dk_catalog D). split; [set_solver|done].
Qed.

Lemma op_step_ok o torn s a U D : sys_ok torn s a U D -> input_ok K s (IOp o) -> step_ok torn (IOp o) s a.
Proof.
  intros [Hb Hi Hc Hab Hl Ht] Hin. unfold step_ok. simpl in *. destruct (sys_txn s) as [w|], (a_txn a) as [v|] eqn:Hv; try done; simpl; [|apply is_Some_None].
  destruct Ht as (Hpo & -> & P & floor & ut & uc & HU & Hti). destruct (Hin w eq_refl) as (Hok & Hn).
  destruct (txn_op_inv K _ _ _ _ _ _ _ _ _ (db_config (sys_db s)) o Hti Hok Hn) as (w' & ut' & uc' & -> & Hti').
  eexists _, U, D. split; [by apply a_op|]. split; [|done].
  constructor; cbn [sys_db sys_txn sys_readers a_data a_catalog a_readers a_commit a_aborted a_poisoned a_txn a_with_txn]; try done.
  split; [done|]. split; [done|]. eauto 10.
Qed.

(** A change of the readers alone. *)
Lemma readers_step_ok torn s a U U' D rs seq ab readers pins :
  sys_ok torn s a U D -> (forall P w v floor ut uc, txn_inv K (db_page_size (sys_db s)) (db_pages (sys_db s)) D P w v floor ut uc -> U ⊆ P -> U' ⊆ P) ->
  base_ok (with_aborted ab (with_readers rs seq (sys_db s))) (described torn (db_header (sys_db s))) (a_data a) (a_catalog a) readers pins U' D ->
  sys_ok torn (mkSys (with_aborted ab (with_readers rs seq (sys_db s))) (sys_txn s) readers) (a_with_aborted ab (a_with_readers pins a)) U' D.
Proof.
  intros [Hb Hi Hc Hab Hl Ht] HU' Hb'. constructor; cbn [sys_db sys_txn sys_readers a_data a_catalog a_readers a_commit a_aborted a_poisoned a_txn a_with_aborted a_with_readers]; try done.
  - destruct (a_poisoned a); [done|]. destruct Hl as (? & ? & Hl). split; [done|]. split; [done|]. intros Ht0. by destruct (Hl Ht0).
  - destruct (sys_txn s) as [w|], (a_txn a) as [v|]; try done. destruct Ht as (? & ? & P & floor & ut & uc & HU & Hti). split; [done|]. split; [done|].
    exists P, floor, ut, uc. split; [by eapply HU'|done].
Qed.

Lemma with_aborted_same d : with_aborted (db_aborted d) d = d.
Proof. by destruct d. Qed.
Lemma with_readers_same d : with_readers (db_readers d) (db_reader_seq d) d = d.
Proof. by destruct d. Qed.
Lemma a_same_aborted a pins : a_with_aborted (a_aborted a) (a_with_readers pins a) = a_with_readers pins a.
Proof. by destruct a. Qed.
Lemma a_same_readers a ab : a_with_aborted ab (a_with_readers (a_readers a) a) = a_with_aborted ab a.
Proof. by destruct a. Qed.

Lemma begin_read_step_ok nb torn s a U D : sys_ok torn s a U D -> step_ok torn (IBeginRead nb) s a.
Proof.
  intros Hok. pose proof Hok as [Hb Hi Hc Hab Hl Ht]. unfold step_ok, sys_step. cbv zeta.
  assert ((if nb then begin_read_non_abortable (sys_db s) else begin_read (sys_db s)) =
    let! _ := ensure_usable (sys_db s) in Ok (register_snapshot nb (sys_db s))) as -> by (by destruct nb).
  destruct (a_poisoned a) eqn:Hpo.
  { destruct (poisoned_refused _ Hl) as [er ->]. simpl. exists a, U, D. split; [by apply a_begin_read_refused|]. by rewrite orb_false_r. }
  destruct Hl as (Hfree & Hpub & _). unfold ensure_usable. rewrite Hfree. cbn beta iota.
  assert (snapshot_current (sys_db s) (described torn (db_header (sys_db s)))) as Hpub' by (by destruct torn).
  pose proof (register_ok _ _ _ _ _ _ _ _ nb Hb Hpub') as Hreg. unfold register_snapshot, register_read in *. cbv zeta in *.
  destruct Hreg as [_ Hb']. cbn [rt_entry_id]. destruct (base_fresh_id _ _ _ _ _ _ _ _ Hb) as [_ Hf].
  eexists _, _, D. split; [by apply (a_begin_read _ nb)|]. split; [|done]. cbn [tears]. rewrite orb_false_r.
  rewrite <-a_same_aborted. rewrite <-(with_aborted_same (with_readers _ _ (sys_db s))). cbn [db_aborted with_readers]. rewrite Hab.
  eapply readers_step_ok; [exact Hok| |rewrite <-Hab; by rewrite (with_aborted_same (with_readers _ _ (sys_db s)))].
  intros P w v floor ut uc Hti HU p [Hp|Hp]%elem_of_union; [by apply HU|]. rewrite elem_of_list_to_set in Hp.
  apply (ti_protected _ _ _ _ _ _ _ _ _ _ Hti). rewrite !elem_of_app in Hp. rewrite !elem_of_app. tauto.
Qed.

Lemma end_read_step_ok id torn s a U D : sys_ok torn s a U D -> step_ok torn (IEndRead id) s a.
Proof.
  intros Hok. pose proof Hok as [Hb Hi Hc Hab Hl Ht]. unfold step_ok, sys_step. cbv zeta.
  pose proof (bo_pins _ _ _ _ _ _ _ _ Hb id) as Hp. destruct (sys_readers s !! id) as [rt|] eqn:Hrt; simpl.
  - destruct (unregister_ok _ _ _ _ _ _ _ _ id rt Hb Hrt) as [Hb' [rs Hrs]]. eexists _, U, D. split; [apply a_end_read|].
    rewrite Hrs in Hb' |- *. split; [|done]. rewrite orb_false_r.
    rewrite <-a_same_aborted. rewrite <-(with_aborted_same (with_readers _ _ (sys_db s))). cbn [db_aborted with_readers]. rewrite Hab.
    eapply readers_step_ok; [exact Hok|done|rewrite <-Hab; by rewrite (with_aborted_same (with_readers _ _ (sys_db s)))].
  - destruct (a_readers a !! id) as [[? ?]|] eqn:Ha; [done|]. apply is_Some_None.
Qed.

Lemma sys_pages_same torn s a U D p : sys_ok torn s a U D -> p ∈ U -> sys_pages s !! p = db_pages (sys_db s) !! p.
Proof.
  intros [_ _ _ _ _ Ht] Hp. unfold sys_pages. destruct (sys_txn s) as [w|]; [|done]. destruct (a_txn a) as [v|]; [|done].
  destruct Ht as (_ & _ & P & floor & ut & uc & HU & Hti). apply (ti_same _ _ _ _ _ _ _ _ _ _ Hti). left. by apply HU.
Qed.

(** One reader's transaction changes, its snapshot does not. *)
Lemma base_reader d W m c readers pins U D id rt rt' mp cp r used ab :
  base_ok d W m c readers pins U D -> readers !! id = Some rt -> pins !! id = Some (mp, cp) ->
  r ∈ db_readers d -> used ⊆ U -> reader_ok K (db_page_size d) (db_pages d) W D r mp cp used ->
  follows (db_pages d) (db_page_size d) r rt' id -> base_ok (with_aborted ab d) W m c (<[id := rt']> readers) pins U D.
Proof.
  intros [? ? Hr Hp ? Hk] Hrt Hpin Hin HU Hro Hfw. constructor; try done.
  - intros id'. destruct (decide (id' = id)) as [->|Hne]; [|rewrite lookup_insert_ne by done; apply Hp].
    rewrite lookup_insert_eq, Hpin. exists r, used. done.
  - intros r' Hr'. destruct (Hk r' Hr') as [Hs ?]. split; [|done]. destruct (decide (tr_entry_id r' = id)) as [->|Hne].
    + rewrite lookup_insert_eq. eauto.
    + by rewrite lookup_insert_ne.
Qed.

Lemma read_step_ok id key torn s a U D : sys_ok torn s a U D -> step_ok torn (IRead id key) s a.
Proof.
  intros Hok. pose proof Hok as [Hb Hi Hc Hab Hl Ht]. unfold step_ok, sys_step. cbv zeta.
  pose proof (bo_pins _ _ _ _ _ _ _ _ Hb id) as Hp. destruct (sys_readers s !! id) as [rt|] eqn:Hrt.
  2:{ destruct (a_readers a !! id) as [[? ?]|] eqn:Ha; [done|]. simpl. rewrite Ha. apply is_Some_None. }
  destruct (a_readers a !! id) as [[mp cp]|] eqn:Ha; [|done]. destruct Hp as (r & used & Hr & HU & Hro & Hfw).
  destruct (read_get_ok (sys_db s) (sys_pages s) _ r rt id mp cp used _ D key eq_refl Hro Hfw) as (rt' & Hfw' & Hrd).
  { intros p Hp. eapply sys_pages_same; [done|]. by apply HU. }
  change (mbind ?f (Some rt)) with (f rt). cbv beta. rewrite Hrd, Hab. clear Hrd.
  assert (forall ab, sys_ok torn (mkSys (with_aborted ab (sys_db s)) (sys_txn s) (<[id:=rt']> (sys_readers s))) (a_with_aborted ab a) U D) as Hnew.
  { intros ab. rewrite <-a_same_readers. rewrite <-(with_readers_same (sys_db s)). eapply readers_step_ok; [exact Hok|done|].
    rewrite with_readers_same. by eapply base_reader. }
  case_decide as Hd.
  - eexists _, U, D. split; [by eapply a_read_aborted|]. split; [|done]. cbn [tears]. rewrite orb_false_r. apply Hnew.
  - eexists _, U, D. split; [by eapply a_read|]. split; [|done]. cbn [tears]. rewrite orb_false_r. replace (a_aborted a ∖ {[id]}) with (a_aborted a) by set_solver.
    specialize (Hnew (a_aborted a)). by destruct a.
Qed.

Lemma abort_step_ok torn s a U D : sys_ok torn s a U D -> step_ok torn IAbort s a.
Proof.
  intros [Hb Hi Hc Hab Hl Ht]. unfold step_ok, sys_step. cbv zeta.
  destruct (sys_txn s) as [w|], (a_txn a) as [v|] eqn:Hv; try done; simpl; [|rewrite Hv; apply is_Some_None].
  exists (a_with_txn None a), U, D. split; [apply a_abort|]. split; [|done]. rewrite orb_false_r. by constructor.
Qed.

(** ** Opening *)

Lemma walk_to_end_ok st head links fuel : FreeList.chain st head links ->
  forall i w, walk_at links i w -> (length links - i < fuel)%nat -> walk_to_end fuel st w = Ok tt.
Proof.
  intros Hc. induction fuel as [|fuel IH]; intros i w Hw Hf; [lia|]. cbn [walk_to_end].
  destruct (links !! i) as [[pid chunk]|] eqn:Hi.
  - destruct (advance_ok _ _ _ Hc _ _ _ _ Hw Hi) as (w1 & -> & Hw1 & _). cbn beta iota. apply (IH (S i)); [done|].
    apply lookup_lt_Some in Hi. lia.
  - by destruct (advance_end _ _ _ Hc _ _ Hw Hi) as (w' & -> & _).
Qed.

Lemma free_list_kept d links : FreeList.chain (db_pages d) (ws_free_list_root_page_id (db_writer d)) links ->
  drop_unreadable_free_list d = d.
Proof.
  intros Hc. unfold drop_unreadable_free_list. destruct (_ =? 0); [done|].
  rewrite (walk_to_end_ok _ _ _ _ Hc 0); [done| |pose proof (chain_size _ _ _ Hc); lia].
  split; by rewrite (chain_head _ _ _ Hc).
Qed.

Lemma reopen_step_ok cfg torn s a U D : sys_ok torn s a U D -> input_ok K s (IReopen cfg) -> step_ok torn (IReopen cfg) s a.
Proof.
  intros [Hb Hi Hc Hab Hl Ht] (Hcfg & Hps & _). unfold step_ok, sys_step, reopen. cbv zeta.
  assert (FreeList.chain (db_pages (sys_db s)) (ws_free_list_root_page_id (writer_of_header (db_header (sys_db s)))) (dk_links D)) as Hch
    by (pose proof (do_chain _ _ _ _ _ _ _ (bo_disk _ _ _ _ _ _ _ _ Hb)) as Hd; by destruct torn).
  rewrite (free_list_kept _ (dk_links D)) by exact Hch. eexists _, ∅, D. split; [apply a_reopen|].
  split; [|unfold config_after; by rewrite <-Hi]. cbn [tears]. rewrite orb_false_r.
  constructor; try done.
  - cbn. destruct Hb as [_ Hd _ _ _ _]. constructor; try done.
    + unfold db_page_size. cbn. by rewrite Hps.
    + intros r Hr. by apply elem_of_nil in Hr.
    + apply NoDup_nil_2.
    + intros r Hr. by apply elem_of_nil in Hr.
  - split; [done|]. split; [done|]. intros _. constructor; try done. unfold count_ok. by destruct (db_retain _).
Qed.

Lemma create_ok cfg : config_ok K cfg ->
  exists d, create_db cfg = Ok d /\ sys_ok false (mkSys d None ∅) a_fresh ∅ (mkDisk [] [] [] ∅ []).
Proof.
  intros Hcfg. pose proof (config_sizes _ Hcfg) as (_ & _ & _ & Hz). pose proof Hcfg as (_ & (log2 & Hlog) & Hroom & _).
  unfold create_db, initial_header. rewrite Hlog. eexists. split; [reflexivity|].
  assert (sound K ∅ 0 (dc_page_size cfg) ∅ []) as He by (by apply sound_nothing). constructor; try done.
  - constructor; try done.
    + constructor; try done; try apply NoDup_nil_2; intros ? Hin; by apply elem_of_nil in Hin.
    + intros r Hr. by apply elem_of_nil in Hr.
    + apply NoDup_nil_2.
    + intros r Hr. by apply elem_of_nil in Hr.
  - split; [done|]. split; [done|]. intros _. constructor; try done. unfold count_ok. destruct (db_retain _); try done; by intros c [= <-].
Qed.

(** ** Sequences of calls *)

Lemma sys_step_ok i torn s a U D : sys_ok torn s a U D -> input_ok K s i -> (torn = true -> i <> IBegin) -> step_ok torn i s a.
Proof.
  intros Hok Hin Hto. destruct i.
  - by eapply begin_read_step_ok.
  - by eapply read_step_ok.
  - by eapply end_read_step_ok.
  - destruct torn; [by specialize (Hto eq_refl)|]. by eapply begin_step_ok.
  - by eapply op_step_ok.
  - by eapply commit_step_ok.
  - by eapply abort_step_ok.
  - by eapply reopen_step_ok.
Qed.

Definition run_ok (ins : list input) (s : Sys) (a : Abs) : Prop :=
  match sys_run ins s with
  | Some (os, _) => exists a', atrace (db_config (sys_db s)) ins os a a'
  | None => exists done_ins i rest os a', ins = done_ins ++ i :: rest /\
      atrace (db_config (sys_db s)) done_ins os a a' /\ ~ enabled i a'
  end.

Lemma sys_run_ok ins : forall torn s a U D, sys_ok torn s a U D -> inputs_ok K torn s ins -> run_ok ins s a.
Proof.
  unfold run_ok. induction ins as [|i ins IH]; intros torn s a U D Hok Hin; [exists a; constructor|]. destruct Hin as (Hi & Hto & Hin).
  pose proof (sys_step_ok i torn s a U D Hok Hi Hto) as Hst. unfold step_ok in Hst. cbn [sys_run].
  destruct (sys_step i s) as [[o s1]|] eqn:Hs; simpl.
  - destruct Hst as (a1 & U1 & D1 & Hst & Hok1 & Hcfg). specialize (IH _ s1 a1 U1 D1 Hok1 Hin). rewrite Hcfg in IH.
    destruct (sys_run ins s1) as [[os s2]|]; simpl.
    + destruct IH as [a2 IH]. exists a2. by econstructor.
    + destruct IH as (dn & j & rest & os & a2 & -> & IH & Hd). exists (i :: dn), j, rest, (o :: os), a2. split; [done|]. split; [|done].
      by econstructor.
  - exists [], i, ins, [], a. split; [done|]. split; [constructor|done].
Qed.
End trace.
