(* ===== verification/TxnStore.v ===== *)
(** * TxnStore: the theorem on a store and its transactions

    The end of the development on transactions: any sequence of calls on a fresh
    store answers as the specification of [TxnSpec] does. *)

From S2P Require Import Prelude Keys Errors PageFormat Node Leaf Split Store Overflow FreeList StructuralHeader HeaderSlots Catalog Tree TreeWrite TreePut TxnState TxnWrite TxnCommit TxnOpen TxnShare TxnOps TxnSpec TxnTrace.
From Stdlib Require Import ZArith Lia.
From stdpp Require Import base list strings gmap.

Local Open Scope Z_scope.
Local Open Scope pagedb_scope.

(** C1: a store is its specification. From a fresh store, take any sequence of
    calls: read transactions of the current commit begin, read and end; a write
    transaction begins, reads, scans, puts, deletes, counts, links segments, commits
    or aborts; the store is opened again under a new configuration. Then every answer
    is one the specification allows: a reader sees the maps that were committed when
    it began, whatever the writer does meanwhile; the writer sees the committed maps
    with its own changes; a commit replaces the committed maps as a whole or, where
    its flush or header write fails, leaves them as they were, with or without a
    commit history; a handle whose commit could not be published refuses transactions
    until the store is opened again, and opening finds the last durable maps. The run
    only stops at a call the interface does not have, such as a read through a reader
    that has ended.

    What is asked of the calls is [inputs_ok]: keys of at most [K] bytes, where
    [room K] holds of the page size (up to 143 bytes with pages of 4 KiB); page and
    commit numbers within [PAGE_LIMIT]; an environment that keeps its contract
    ([env_ok]); and no further write transaction once a commit of a store with a
    commit history has failed with pages written ([tears]): its readers, new readers
    and later openings are covered, its next commit is not. *)
Theorem store_refines_spec K cfg d ins :
  config_ok K cfg -> create_db cfg = Ok d -> inputs_ok K false (mkSys d None ∅) ins ->
  match sys_run ins (mkSys d None ∅) with
  | Some (os, _) => exists a, atrace (db_config d) ins os a_fresh a
  | None => exists before i after os a,
      ins = before ++ i :: after /\ atrace (db_config d) before os a_fresh a /\ ~ enabled i a
  end.
Proof.
  intros Hcfg Hd Hin. destruct (create_ok K cfg Hcfg) as (d' & Hd' & Hok). rewrite Hd in Hd'. injection Hd' as <-.
  exact (sys_run_ok K ins _ _ _ _ _ Hok Hin).
Qed.

(** ** An example *)

(** A store that retains the last eight commits. *)
Definition example_config : DbConfig := mkDbConfig 4096 (zeros 16) 1 0 (zeros 16) (zeros 16) 0 (Count 8) 100.
Definition example_env (h : HeaderOutcome) (pages : Store) : Env :=
  mkEnv 0 true map_to_list (mkFlushOutcome (Ok tt) pages 0 (mkHeaderCursor SlotA 1)) 1 h (Ok tt) (Ok tt).
(** An environment in which everything succeeds, but for the header write. *)
Definition calm (h : HeaderOutcome) (w : WriteTxn) (d : Db) : Env :=
  example_env h (match candidate_pages (example_env h ∅) w d with Ok pages => pages | _ => ∅ end).

Lemma example_env_pages h w d pages : candidate_pages (example_env h pages) w d = candidate_pages (example_env h ∅) w d.
Proof. reflexivity. Qed.

Lemma calm_ok h w d : env_ok (calm h w d) w d.
Proof.
  split; [done|]. split; [done|]. split; [done|]. simpl. intros pages Hp. unfold calm in Hp.
  rewrite example_env_pages in Hp. by rewrite Hp.
Qed.

(** Calls to make one after the other; a commit meets a calm environment. *)
Inductive call := Call (i : input) | Commit (h : HeaderOutcome) | Reopen.

Definition input_of (c : call) (s : Sys) : input :=
  match c, sys_txn s with
  | Call i, _ => i
  | Commit h, Some w => ICommit (calm h w (sys_db s))
  | Commit _, None => IAbort
  | Reopen, _ => IReopen example_config
  end.
Definition after (s : Sys) (i : input) : Sys := match sys_step i s with Some (_, s) => s | None => s end.
Fixpoint script (cs : list call) (s : Sys) : list input :=
  match cs with [] => [] | c :: cs => input_of c s :: script cs (after s (input_of c s)) end.

(** A test for [input_ok] on the calls of the example. *)
Definition ready (K : Z) (torn : bool) (c : call) (s : Sys) : bool :=
  let next := match sys_txn s with Some w => next_page_id (btree w) | None => ws_next_page_id (db_writer (sys_db s)) end in
  match c with
  | Call (IBeginRead _) | Call (IRead _ _) | Call (IEndRead _) | Call IAbort => true
  | Call IBegin => negb torn && (ws_next_page_id (db_writer (sys_db s)) <=? PAGE_LIMIT)
  | Call (IOp o) =>
      match o with
      | TxPut key value => (blen key <=? K) && (blen value <=? ISIZE_MAX)
      | TxDelete _ => true
      | TxCounterIncrement name _ => 1 + blen name <=? K
      | _ => false
      end && (next + Z.of_nat (txn_op_cost o (Z.to_nat next)) <=? 2 ^ 64)
  | Call (ICommit _) | Call (IReopen _) => false
  | Commit _ => (next <=? PAGE_LIMIT) && (ws_latest_commit_id (db_writer (sys_db s)) <=? PAGE_LIMIT)
  | Reopen => (db_page_size (sys_db s) =? 4096) && bool_decide (dc_realm_id (db_config (sys_db s)) = zeros 16)
  end.
Fixpoint all_ready (K : Z) (torn : bool) (cs : list call) (s : Sys) : bool :=
  match cs with
  | [] => true
  | c :: cs =>
      let i := input_of c s in
      ready K torn c s && all_ready K (torn || tears i s (after s i)) cs (after s i)
  end.

Section ready.
Context (K : Z) (Hcfg : config_ok K example_config).

Lemma ready_ok torn c s : ready K torn c s = true -> input_ok K s (input_of c s) /\ (torn = true -> input_of c s <> IBegin).
Proof.
  unfold input_of, ready. cbv zeta. destruct c as [i|h|].
  - destruct i as [| | | |o| | |]; try done.
    + intros [Ht Hn]%andb_prop. apply negb_true_iff in Ht. split; [by apply Z.leb_le|congruence].
    + intros [Ho Hn]%andb_prop. split; [|done]. intros w Hw. rewrite Hw in Hn. apply Z.leb_le in Hn.
      split; [|done]. unfold txn_op_ok. destruct o; try done.
      * apply andb_prop in Ho as [? ?]. by rewrite <-!Z.leb_le.
      * by apply Z.leb_le.
  - intros [Hn Hl]%andb_prop. destruct (sys_txn s) as [w|] eqn:Hw; [|done]. split; [|done].
    unfold input_ok. rewrite Hw. intros w' [= <-]. apply Z.leb_le in Hn, Hl. split; [by apply calm_ok|done].
  - intros [Hz Hr]%andb_prop. apply Z.eqb_eq in Hz. apply bool_decide_eq_true in Hr. split; [|done]. split; [done|].
    split; [by rewrite Hz|by rewrite Hr].
Qed.

Lemma all_ready_ok cs : forall torn s, all_ready K torn cs s = true -> inputs_ok K torn s (script cs s).
Proof.
  induction cs as [|c cs IH]; intros torn s; [done|]. cbn [all_ready script inputs_ok]. cbv zeta.
  intros [Hc Hcs]%andb_prop. apply IH in Hcs. apply ready_ok in Hc as [Hc Ht]. split; [done|]. split; [done|].
  set (rest := script cs _) in *. unfold after in Hcs. by destruct (sys_step _ s) as [[? ?]|].
Qed.
End ready.

Definition example_key : bytes := [Byte.x61; Byte.x62].
Definition example_db : Db := match create_db example_config with Ok d => d | _ => open_state example_config ∅ sample_header SlotA end.
(** A reader keeps its value while the writer deletes the key; the commit fails at its
    header, and the store opened again has the value. *)
Definition example_script : list call :=
  [Call IBegin; Call (IOp (TxPut example_key [Byte.x01])); Call (IOp (TxCounterIncrement example_key 7)); Commit HeaderWritten;
   Call (IBeginRead false); Call IBegin; Call (IOp (TxDelete example_key)); Call (IRead 0 example_key);
   Commit (HeaderNotStarted PayloadTooLarge); Call (IRead 0 example_key); Reopen; Call (IBeginRead false); Call (IRead 0 example_key)].
Definition example_calls : list input := script example_script (mkSys example_db None ∅).
Definition example_outcomes : list outcome :=
  [OBegan (Ok tt); OReply (Ok RUnit); OReply (Ok (RNumber 7)); OCommitted (Ok 1);
   OReader (Ok 0); OBegan (Ok tt); OReply (Ok (RExisted true)); OValue (Ok (Some [Byte.x01]));
   OCommitted (Err PayloadTooLarge); OValue (Ok (Some [Byte.x01])); ODone; OReader (Ok 0); OValue (Ok (Some [Byte.x01]))].

Lemma store_refines_spec_witness :
  exists s a, sys_run example_calls (mkSys example_db None ∅) = Some (example_outcomes, s) /\
    atrace (db_config example_db) example_calls example_outcomes a_fresh a.
Proof.
  assert (config_ok 64 example_config) as Hcfg.
  { split; [lia|]. split; [by exists 12|]. split; [by vm_compute|]. intros k [= <-]. done. }
  assert (inputs_ok 64 false (mkSys example_db None ∅) example_calls) as Hin
    by (apply (all_ready_ok 64 Hcfg); vm_compute; reflexivity).
  assert (fst <$> sys_run example_calls (mkSys example_db None ∅) = Some example_outcomes) as Hrun by (vm_compute; reflexivity).
  pose proof (store_refines_spec 64 example_config example_db example_calls Hcfg eq_refl Hin) as Hspec.
  destruct (sys_run example_calls (mkSys example_db None ∅)) as [[os s]|]; [|done]. injection Hrun as ->.
  destruct Hspec as [a Ha]. by exists s, a.
Defined.
