(* ===== verification/TxnFindings.v ===== *)
(** * TxnFindings: two ways in which retained commits are lost

    Both are about the commit history, and both are about stores that satisfy the
    invariant of [TxnInv.disk_ok]: a commit that fails after its flush can leave the
    history tree of the last durable header changed, and pruning that empties the
    first leaf of the history can make the store forget that the other rows hold
    pages back. *)

From S2P Require Import Prelude Keys Errors PageFormat Node Leaf Internal Split Store Overflow FreeList StructuralHeader HeaderSlots Tree TreeWrite TreeRep TreePut TreeOps TreeWalk TxnState TxnWrite TxnCommit TxnOpen TxnShare TxnHistory TxnInv TxnSpec.
From Stdlib Require Import ZArith Lia.
From stdpp Require Import base list strings gmap sorting.

Local Open Scope Z_scope.
Local Open Scope pagedb_scope.

(** ** Stores with a history *)

Definition kept_config (keep : Z) : DbConfig := mkDbConfig 4096 (zeros 16) 1 0 (zeros 16) (zeros 16) 0 (Count keep) 100.

(** The header of a store of 20 pages after commit [commit]. *)
Definition kept_header (commit root history keep : Z) : MainDbHeaderFields :=
  let '(tag, value) := encode_retain_policy (Count keep) in
  mkMainDbHeaderFields MAIN_FORMAT_VERSION 1 12 0 (zeros 16) (zeros 16) 0 1 root commit 0 commit (zeros 16) (zeros 16)
    0 0 history commit 0 20 tag value (zeros 16).

(** The row of a commit whose data tree has the root [root]. *)
Definition meta_of (root c : Z) : CommitHistoryMeta := mkCommitHistoryMeta root 0 0 20 c.
Definition history_row (root c : Z) : bytes * bytes := (be64 c, encode_commit_meta (meta_of root c)).

(** Records with their values in the leaf. *)
Definition inline (rs : list (bytes * bytes)) : list leaf_record := prod_map id Inline <$> rs.

(** The pages of a leaf and of a branch node. *)
Definition leaf_page (l : Leaf) : PageKind.t * bytes :=
  (PageKind.BTreeLeaf, match leaf_encode l (zeros (body_capacity 4096)) with Ok b => b | _ => [] end).
Definition internal_page (n : Internal) : PageKind.t * bytes :=
  (PageKind.BTreeInternal, match internal_encode n (zeros (body_capacity 4096)) with Ok b => b | _ => [] end).

Definition kept_env (pages : Store) : Env :=
  mkEnv 0 false map_to_list (mkFlushOutcome (Ok tt) pages 0 (mkHeaderCursor SlotA 1)) 1 HeaderWritten (Ok tt) (Ok tt).
(** A commit in which nothing fails. *)
Definition calm_commit (w : WriteTxn) (d : Db) : result CommitId * Db :=
  let pages := match candidate_pages (kept_env ∅) w d with Ok pages => pages | _ => ∅ end in
  commit (kept_env pages) w d.

(** What the history of a handle says of a commit. *)
Definition retained (d : Db) (c : Z) : result (option bytes) :=
  get (btree_open (db_pages d) (ws_commit_history_root_page_id (db_writer d)) (ws_next_page_id (db_writer d)) (db_page_size d)) (be64 c).

(** A transaction commits, power fails when the flush is done and the header is not
    written, and the store is opened again. *)
Definition lose_power (d : Db) : result Db :=
  let! w := begin_txn d in
  let! pages := candidate_pages (kept_env ∅) w d in
  Ok (reopen (db_config d) (with_disk pages (db_header d) (db_cursor d) d)).

(** A transaction that puts one record. *)
Definition put_and_commit (key value : bytes) (d : Db) : result (result CommitId * Db) :=
  let! w := begin_txn d in
  let '(r, w) := txn_put key value w in
  let! _ := r in
  Ok (calm_commit w d).

(** The pages the next transaction may reuse. *)
Definition pool_of (d : Db) : list Z :=
  match begin_txn d with
  | Ok w => match page_source (btree w) with Some s => cache s | None => [] end
  | _ => []
  end.

(** The pages from the root of the history to the row of a commit. *)
Definition history_path (d : Db) (c : Z) : result (list Z) :=
  path_to_leaf_for_key (btree_open (db_pages d) (ws_commit_history_root_page_id (db_writer d)) (ws_next_page_id (db_writer d)) (db_page_size d)) (be64 c).

(** ** Sound stores *)

Lemma page_4096 st root : page_size_ok (btree_open st root 4 4096).
Proof. split; vm_compute; discriminate. Qed.
Lemma room_4096 : room 64 4096.
Proof. by vm_compute. Qed.
Lemma kept_config_ok keep : 0 <= keep -> config_ok 64 (kept_config keep).
Proof. intros Hk. split; [lia|]. split; [by exists 12|]. split; [apply room_4096|]. by intros k [= <-]. Qed.

Lemma leaf_page_at st root p l :
  leaf_wf l -> leaf_fits l 4096 = true -> st !! p = Some (leaf_page l) -> leaf_at (btree_open st root 4 4096) p l.
Proof.
  intros Hwf Hfit Hst. right. split; [done|]. unfold leaf_fits, slice_fits in Hfit. apply Z.leb_le in Hfit.
  destruct (leaf_encode_ok l (zeros (body_capacity 4096)) Hwf) as (b & He & L & Hd); [done|done|].
  exists b, l. unfold leaf_page in Hst. rewrite He in Hst. by rewrite blen_zeros in L by done.
Qed.

Lemma internal_page_at st root p n :
  Forall (fun c => is_u64 c) (children n) -> internal_needed n <= body_capacity 4096 ->
  st !! p = Some (internal_page n) -> internal_at (btree_open st root 4 4096) p n.
Proof.
  intros Hc Hn Hst. split; [done|]. split; [done|].
  destruct (internal_encode_layout n (zeros (body_capacity 4096))) as (b & He & L & Hl); [done|done|done|].
  exists b. unfold internal_page in Hst. rewrite He in Hst. by rewrite blen_zeros in L by done.
Qed.

Lemma holds_inline st rs : holds st (inline rs) ((fun _ => []) <$> rec_map rs) (rec_map rs).
Proof.
  intros q. unfold inline, rec_map. rewrite list_to_map_fmap, !lookup_fmap.
  destruct (list_to_map rs !! q) as [b|]; [|done]. by exists b, [].
Qed.
Lemma all_pages_inline (m : kv) : all_pages ((fun _ => []) <$> m) = [].
Proof.
  unfold all_pages. rewrite map_to_list_fmap. induction (map_to_list m) as [|[k v] l IH]; [done|exact IH].
Qed.

Lemma sound_inline st root h rs ids :
  rep 64 (btree_open st root 4 4096) h root None None (inline rs) ids -> small_values 4096 (inline rs) ->
  sound 64 st root 4096 (rec_map rs) ids.
Proof.
  intros Hr Hsm. split; [apply page_4096|]. split; [apply room_4096|]. right.
  exists h, (inline rs), ids, ((fun _ => []) <$> rec_map rs). rewrite all_pages_inline, app_nil_r. split; [done|].
  split; [done|]. split; [done|]. split; [by apply caches_wf_none|]. split; [done|apply holds_inline].
Qed.

Lemma inline_values_wf rs : Forall value_wf (inline rs).*2.
Proof. unfold inline. induction rs as [|r rs IH]; [constructor|]. by constructor. Qed.
Lemma inline_leaf_wf ls rs l : is_u64 ls -> is_u64 rs -> keys_sorted l.*1 -> leaf_wf (mkLeaf ls rs (inline l)).
Proof.
  intros ? ? Hs. split; [|split; [done|split; [done|apply inline_values_wf]]]. unfold leaf_sorted. cbn [records].
  replace (inline l).*1 with l.*1; [done|]. unfold inline. induction l as [|[k v] l IH]; [done|]. simpl. f_equal. apply IH.
  by apply StronglySorted_inv in Hs as [? _].
Qed.

(** Rows of a history. *)
Lemma rows_in (rs : list (bytes * bytes)) L : Forall (row_ok L) rs -> rows_ok (rec_map rs) L.
Proof.
  intros Hf k v Hm. apply elem_of_list_to_map_2 in Hm. by eapply Forall_forall in Hf.
Qed.
Lemma history_row_ok L root c : 0 <= c <= L -> row_ok L (history_row root c).
Proof. intros Hc. by exists c. Qed.

(** ** A commit that is not made leaves its row *)

(** 85 rows fill a leaf. *)
Definition full_rows : list (bytes * bytes) := history_row 0 <$> seqZ 1 85.
Definition full_history : Store := {[ 10 := leaf_page (mkLeaf 0 0 (inline full_rows)) ]}.
Definition full_store : Db := open_state (kept_config 1000) full_history (kept_header 85 0 10 1000) SlotA.

Definition torn_test (x : result Db) : bool :=
  match x with
  | Ok d =>
      (ws_latest_commit_id (db_writer d) =? 85) && (ws_next_page_id (db_writer d) =? 20) &&
      match retained d 86 with Ok (Some _) => true | _ => false end &&
      match history_path d 86 with Ok ids => bool_decide (last ids = Some 21) | _ => false end
  | _ => false
  end.

Lemma torn_test_inv x : torn_test x = true ->
  exists d row ids, x = Ok d /\ ws_latest_commit_id (db_writer d) = 85 /\ retained d 86 = Ok (Some row) /\
    ws_next_page_id (db_writer d) = 20 /\ history_path d 86 = Ok ids /\ last ids = Some 21.
Proof.
  destruct x as [d| |]; try done. unfold torn_test.
  intros [[[H1%Z.eqb_eq H2%Z.eqb_eq]%andb_prop H3]%andb_prop H4]%andb_prop.
  destruct (retained d 86) as [[row|]| |] eqn:?; try done. destruct (history_path d 86) as [ids| |] eqn:?; try done.
  apply bool_decide_eq_true in H4. by exists d, row, ids.
Qed.

Lemma full_rows_sorted : keys_sorted full_rows.*1.
Proof. apply Sorted_StronglySorted; [exact key_lt_trans|]. repeat constructor. Qed.

Lemma full_store_ok :
  disk_ok 64 4096 (db_pages full_store) (db_writer full_store) ∅ ∅ (mkDisk [] [] [10] (rec_map full_rows) []).
Proof.
  assert (sound 64 full_history 0 4096 ∅ []) as He by (apply sound_nothing; [apply page_4096|apply room_4096]).
  constructor; try done.
  - apply (sound_inline full_history 10 0).
    + exists (mkLeaf 0 0 (inline full_rows)). split; [|split; [done|split; [done|split; [|split; [|split; [done|]]]]]].
      * apply leaf_page_at; [by apply inline_leaf_wf; [..|exact full_rows_sorted]|vm_compute; reflexivity|apply lookup_singleton_eq].
      * by apply inline_leaf_wf; [..|exact full_rows_sorted].
      * vm_compute. reflexivity.
      * apply Forall_fmap, Forall_fmap, Forall_forall. intros c _. simpl. split; [done|]. rewrite be64_len. lia.
    + apply Forall_fmap, Forall_fmap, Forall_forall. intros c _. vm_compute. discriminate.
  - apply rows_in, Forall_fmap, Forall_forall. intros c Hc%elem_of_seqZ. apply history_row_ok.
    change (ws_latest_commit_id (db_writer full_store)) with 85. lia.
  - apply NoDup_singleton.
  - intros p ->%list_elem_of_singleton. change (ws_next_page_id (db_writer full_store)) with 20. lia.
  - intros en Hen. by apply elem_of_nil in Hen.
Qed.

(** C33: a commit that stops after its flush can change the history of the store.
    There is a sound store that retains its commits and, opened on it, a transaction
    whose commit is cut off between flush and header, such that the store opened again
    is at the same commit as before but its history has a row for the commit after it,
    in a page past the end of the store, which later transactions hand out. The
    history tree is opened with a reuse threshold of zero, so the pages its
    copy-on-write frees are written again in the same commit, before the header that
    frees them is durable. *)
Theorem uncommitted_row_survives :
  exists d m c D d' row ids p,
    config_ok 64 (db_config d) /\ writer_of_header (db_header d) = db_writer d /\
    disk_ok 64 (db_page_size d) (db_pages d) (db_writer d) m c D /\
    lose_power d = Ok d' /\ ws_latest_commit_id (db_writer d') = ws_latest_commit_id (db_writer d) /\
    retained d' (ws_latest_commit_id (db_writer d) + 1) = Ok (Some row) /\
    history_path d' (ws_latest_commit_id (db_writer d) + 1) = Ok ids /\ last ids = Some p /\
    ws_next_page_id (db_writer d') <= p.
Proof.
  destruct (torn_test_inv (lose_power full_store)) as (d' & row & ids & Hl & Hc & Hr & Hn & Hp & Hlast); [vm_compute; reflexivity|].
  exists full_store, ∅, ∅, (mkDisk [] [] [10] (rec_map full_rows) []), d', row, ids, 21.
  split; [by apply kept_config_ok|]. split; [done|]. split; [exact full_store_ok|]. split; [done|].
  change (ws_latest_commit_id (db_writer full_store)) with 85. split; [done|]. split; [done|]. split; [done|]. split; [done|].
  rewrite Hn. lia.
Qed.

(** ** Pruning the first leaf *)

(** Commit 2, whose data is in page 13; the history has a leaf for each commit. *)
Definition first_leaf : Leaf := mkLeaf 0 11 (inline [history_row 0 1]).
Definition second_leaf : Leaf := mkLeaf 10 0 (inline [history_row 13 2]).
Definition history_root : Internal := mkInternal 10 [(be64 2, 11)].
Definition data_leaf : Leaf := mkLeaf 0 0 (inline [([Byte.x61], [Byte.x01])]).
Definition split_history : Store :=
  {[ 10 := leaf_page first_leaf; 11 := leaf_page second_leaf; 12 := internal_page history_root; 13 := leaf_page data_leaf ]}.
Definition split_store : Db := open_state (kept_config 2) split_history (kept_header 2 13 12 2) SlotA.

Definition pruned_test (x : result (result CommitId * Db)) : bool :=
  match x with
  | Ok (Ok c, d) =>
      (c =? 3) && match retained d 2 with Ok (Some row) => bool_decide (row = encode_commit_meta (meta_of 13 2)) | _ => false end &&
      match history_reclamation_bound d with Ok None => true | _ => false end && bool_decide (13 ∈ pool_of d)
  | _ => false
  end.

Lemma pruned_test_inv x : pruned_test x = true ->
  exists d, x = Ok (Ok 3, d) /\ retained d 2 = Ok (Some (encode_commit_meta (meta_of 13 2))) /\
    history_reclamation_bound d = Ok None /\ 13 ∈ pool_of d.
Proof.
  destruct x as [[[c|er|] d]| |]; try done. unfold pruned_test.
  intros [[[->%Z.eqb_eq H2]%andb_prop H3]%andb_prop H4%bool_decide_eq_true]%andb_prop. exists d.
  destruct (retained d 2) as [[row|]| |]; try done. apply bool_decide_eq_true in H2. subst row.
  by destruct (history_reclamation_bound d) as [[]| |].
Qed.

Definition split_rows : list (bytes * bytes) := [history_row 0 1; history_row 13 2].
Definition split_disk : Disk := mkDisk [13] [] [12; 10; 11] (rec_map split_rows) [].

(** A leaf of one record. *)
Lemma single_leaf_rep st root p ls rs k v lo hi :
  is_u64 ls -> is_u64 rs -> st !! p = Some (leaf_page (mkLeaf ls rs (inline [(k, v)]))) ->
  leaf_fits (mkLeaf ls rs (inline [(k, v)])) 4096 = true -> blt lo hi -> in_range lo hi k -> blen k <= 64 ->
  rep 64 (btree_open st root 4 4096) 0 p lo hi (inline [(k, v)]) [p].
Proof.
  intros Hl Hr Hst Hfit Hb Hin Hk. exists (mkLeaf ls rs (inline [(k, v)])).
  assert (leaf_wf (mkLeaf ls rs (inline [(k, v)]))) as Hwf by (apply inline_leaf_wf; [done|done|repeat constructor]).
  split; [by apply leaf_page_at|]. split; [done|]. split; [done|]. split; [done|]. split; [done|]. split; [done|].
  by apply Forall_singleton.
Qed.

Lemma split_store_ok : disk_ok 64 4096 (db_pages split_store) (db_writer split_store) {[ [Byte.x61] := [Byte.x01] ]} ∅ split_disk.
Proof.
  constructor; try done.
  - change ({[ [Byte.x61] := [Byte.x01] ]} : kv) with (rec_map [([Byte.x61], [Byte.x01])]). apply (sound_inline _ 13 0).
    + apply (single_leaf_rep _ _ _ 0 0); try done; vm_compute; done.
    + apply Forall_singleton. vm_compute. discriminate.
  - apply sound_nothing; [apply page_4096|apply room_4096].
  - apply (sound_inline _ 12 1).
    + exists history_root, [10; 11]. split; [|split; [done|]].
      * apply internal_page_at; [repeat constructor; vm_compute; done|vm_compute; discriminate|vm_compute; reflexivity].
      * exists (inline [history_row 0 1]), (inline [history_row 13 2]), [10], [11].
        split; [done|]. split; [done|]. split; [vm_compute; discriminate|]. split.
        -- apply (single_leaf_rep _ _ _ 0 11); try done; vm_compute; done.
        -- apply (single_leaf_rep _ _ _ 10 0); try done; vm_compute; done.
    + repeat constructor; vm_compute; discriminate.
  - apply rows_in. change (ws_latest_commit_id (db_writer split_store)) with 2.
    repeat (apply Forall_cons; split; [apply history_row_ok; lia|]). by apply Forall_nil.
  - apply (bool_decide_unpack _). vm_compute. exact I.
  - change (ws_next_page_id (db_writer split_store)) with 20. intros p Hp.
    assert (Forall (fun p => 4 <= p < 20) (tracked split_disk)) as Hf by (repeat constructor; vm_compute; done).
    by eapply Forall_forall in Hf.
  - intros en Hen. by apply elem_of_nil in Hen.
Qed.

(** C34: pruning can make the store forget what its history holds back. There is a
    sound store that retains its last two commits, and a transaction on it that puts
    one record and commits, such that afterwards the row of the commit before is still
    retained and says that its data has the root [p], nothing bounds the reuse of
    pages, and [p] is in the pool of the next write transaction. The oldest retained
    commit is read off the first leaf of the history tree, and a leaf that pruning has
    emptied stays in the tree. *)
Theorem retained_commit_recycled :
  exists d m c D key value d' meta p,
    config_ok 64 (db_config d) /\ db_retain d = Count 2 /\ writer_of_header (db_header d) = db_writer d /\
    disk_ok 64 (db_page_size d) (db_pages d) (db_writer d) m c D /\
    put_and_commit key value d = Ok (Ok (ws_latest_commit_id (db_writer d) + 1), d') /\
    retained d' (ws_latest_commit_id (db_writer d)) = Ok (Some (encode_commit_meta meta)) /\
    hm_active_root_page_id meta = p /\ p ∈ dk_data D /\
    history_reclamation_bound d' = Ok None /\ p ∈ pool_of d'.
Proof.
  destruct (pruned_test_inv (put_and_commit [Byte.x61] [Byte.x02] split_store)) as (d' & Hc & Hr & Hb & Hp); [vm_compute; reflexivity|].
  exists split_store, {[ [Byte.x61] := [Byte.x01] ]}, ∅, split_disk, [Byte.x61], [Byte.x02], d', (meta_of 13 2), 13.
  split; [by apply kept_config_ok|]. split; [done|]. split; [done|]. split; [exact split_store_ok|]. split; [exact Hc|].
  split; [exact Hr|]. split; [done|]. split; [by left|]. by split.
Qed.
