(* ===== verification/PageCache.v ===== *)
(** * PageCache: the bounded page cache with SIEVE eviction

    Models [src/pager/cache/]: a slab of nodes, a hash map from page keys to slab
    slots, a doubly linked list of the clean entries threaded through the slab,
    the eviction hand, the set of dirty keys and the latched fault. Every
    operation is the code's, with the state it leaves behind when it reports a
    fault half way. [debug] is [cfg!(debug_assertions)]; the iteration order of
    the hash map is the parameter [iter], and its allocated capacity an argument
    of the operations that read it. *)

From S2P Require Import Prelude Keys Errors PageFormat.
From Stdlib Require Import ZArith Lia.
From stdpp Require Import base list strings gmap sorting.

Local Open Scope Z_scope.
Local Open Scope pagedb_scope.

(** ** Data *)

Inductive FileKey := Main | ApplyJournal (id : bytes).
#[global] Instance FileKey_eq_dec : EqDecision FileKey.
Proof. solve_decision. Defined.
#[global] Program Instance FileKey_countable : Countable FileKey :=
  inj_countable' (fun f => match f with Main => None | ApplyJournal id => Some id end)
    (fun o => match o with None => Main | Some id => ApplyJournal id end) _.
Next Obligation. by intros []. Qed.

Abbreviation Key := (FileKey * Z)%type.

(** A decrypted page. [page_ptr] is the address of its [Arc], which is what
    [Arc::ptr_eq] compares; the memo of the extent check is left out, the cache
    never reads it. *)
Record Page := mkPage {
  page_ptr : Z;
  page_bytes : bytes;
  kind_byte : Z;
  realm_id_bytes : option bytes;
}.
#[global] Instance Page_eq_dec : EqDecision Page.
Proof. solve_decision. Defined.

Definition new_with_meta (ptr : Z) (b : bytes) (kind : Z) (realm : bytes) : Page :=
  mkPage ptr b kind (Some realm).
Definition ptr_eq (p q : Page) : bool := page_ptr p =? page_ptr q.

Record CacheFault := mkFault {
  operation : string;
  detail : string;
  fault_slot : option nat;
}.

Definition SLOT_EMPTY := "slot holds no entry".
Definition SLOT_HOLDS_OTHER_KEY := "slot holds another key".
Definition NO_VICTIM := "evictable count is positive with no victim".
Definition RELEASE_WITHOUT_PIN := "release without a pin".
Definition DIRTY_NOT_RESIDENT := "dirty page not resident".
Definition EVICTABLE_COUNT_DRIFTED := "evictable count differs from the live entries".
Definition OVER_BUDGET := "entries exceed capacity while one is evictable".
Definition LIST_LINK_BROKEN := "list link disagrees with the slot it names".
Definition MAP_SLOT_DISAGREES := "map entry disagrees with the slot".
Definition LIVE_SLOTS_DRIFTED := "live slots differ from the map".
Definition NODE_ALREADY_LINKED := "node is already on the list".
Definition LIST_MEMBERSHIP_DRIFTED := "list membership disagrees with the dirty marker".
Definition DISCARD_DIRTY := "discard_dirty".

Record Node := mkNode {
  node_key : Key;
  node_page : Page;
  pins : Z;
  visited : bool;
  linked : bool;
  prev : option nat;
  next : option nat;
}.
#[global] Instance Node_eq_dec : EqDecision Node.
Proof. solve_decision. Defined.

Record PageCache := mkCache {
  capacity : Z;
  cmap : gmap Key nat;
  slab : list (option Node);
  free : list nat;
  list_head : option nat;
  list_tail : option nat;
  hand : option nat;
  dirty : gset Key;
  evictable : Z;
  fault : option CacheFault;
}.

Definition with_capacity (cap : Z) : PageCache :=
  mkCache (Z.max cap 1) ∅ [] [] None None None ∅ 0 None.

(** Field updates. *)
Definition set_page (p : Page) (n : Node) : Node :=
  mkNode (node_key n) p (pins n) (visited n) (linked n) (prev n) (next n).
Definition set_pins (k : Z) (n : Node) : Node :=
  mkNode (node_key n) (node_page n) k (visited n) (linked n) (prev n) (next n).
Definition set_visited (b : bool) (n : Node) : Node :=
  mkNode (node_key n) (node_page n) (pins n) b (linked n) (prev n) (next n).
Definition set_links (b : bool) (p q : option nat) (n : Node) : Node :=
  mkNode (node_key n) (node_page n) (pins n) (visited n) b p q.
Definition set_prev (p : option nat) (n : Node) : Node := set_links (linked n) p (next n) n.
Definition set_next (q : option nat) (n : Node) : Node := set_links (linked n) (prev n) q n.

Definition set_cmap (m : gmap Key nat) (c : PageCache) : PageCache :=
  mkCache (capacity c) m (slab c) (free c) (list_head c) (list_tail c) (hand c) (dirty c) (evictable c) (fault c).
Definition set_slab (s : list (option Node)) (c : PageCache) : PageCache :=
  mkCache (capacity c) (cmap c) s (free c) (list_head c) (list_tail c) (hand c) (dirty c) (evictable c) (fault c).
Definition set_free (f : list nat) (c : PageCache) : PageCache :=
  mkCache (capacity c) (cmap c) (slab c) f (list_head c) (list_tail c) (hand c) (dirty c) (evictable c) (fault c).
Definition set_head (h : option nat) (c : PageCache) : PageCache :=
  mkCache (capacity c) (cmap c) (slab c) (free c) h (list_tail c) (hand c) (dirty c) (evictable c) (fault c).
Definition set_tail (t : option nat) (c : PageCache) : PageCache :=
  mkCache (capacity c) (cmap c) (slab c) (free c) (list_head c) t (hand c) (dirty c) (evictable c) (fault c).
Definition set_hand (h : option nat) (c : PageCache) : PageCache :=
  mkCache (capacity c) (cmap c) (slab c) (free c) (list_head c) (list_tail c) h (dirty c) (evictable c) (fault c).
Definition set_dirty (d : gset Key) (c : PageCache) : PageCache :=
  mkCache (capacity c) (cmap c) (slab c) (free c) (list_head c) (list_tail c) (hand c) d (evictable c) (fault c).
Definition set_evictable (n : Z) (c : PageCache) : PageCache :=
  mkCache (capacity c) (cmap c) (slab c) (free c) (list_head c) (list_tail c) (hand c) (dirty c) n (fault c).
Definition set_fault (f : option CacheFault) (c : PageCache) : PageCache :=
  mkCache (capacity c) (cmap c) (slab c) (free c) (list_head c) (list_tail c) (hand c) (dirty c) (evictable c) f.

(** ** Operations on the cache *)

Definition C (A : Type) : Type := PageCache -> res CacheFault A * PageCache.

Definition cret {A} (a : A) : C A := fun c => (Ok a, c).
Definition cfail {A} (e : CacheFault) : C A := fun c => (Err e, c).
Definition cbind {A B} (m : C A) (k : A -> C B) : C B := fun c =>
  match m c with
  | (Ok a, c') => k a c'
  | (Err e, c') => (Err e, c')
  | (Panic, c') => (Panic, c')
  end.
Definition cgets {A} (f : PageCache -> A) : C A := fun c => (Ok (f c), c).
Definition cmodify (f : PageCache -> PageCache) : C unit := fun c => (Ok tt, f c).

Notation "'with!' x ':=' m 'in' k" := (cbind m (fun x => k))
  (at level 10, x binder, m at level 100, k at level 200) : pagedb_scope.
Notation "'with!' ' p ':=' m 'in' k" := (cbind m (fun x => match x with p => k end))
  (at level 10, p strict pattern, m at level 100, k at level 200) : pagedb_scope.

Definition cache_len (c : PageCache) : Z := Z.of_nat (size (cmap c)).

Definition check_usable : C unit := fun c =>
  match fault c with Some f => (Err f, c) | None => (Ok tt, c) end.

Definition latch (f : CacheFault) (c : PageCache) : PageCache := set_fault (Some f) c.

(** Run [body] unless a fault is latched, and latch the fault it reports. *)
Definition guarded {A} (body : C A) : C A :=
  with! _ := check_usable in
  fun c => match body c with
           | (Err f, c') => (Err f, latch f c')
           | r => r
           end.

(** The result of a call is dropped, as in [let _ = ...]. *)
Definition ignore {A} (body : C A) : C unit := fun c =>
  match body c with
  | (Panic, c') => (Panic, c')
  | (_, c') => (Ok tt, c')
  end.

Definition get_node (idx : nat) (op : string) : C Node := fun c =>
  match slab c !! idx with
  | Some (Some n) => (Ok n, c)
  | _ => (Err (mkFault op SLOT_EMPTY (Some idx)), c)
  end.
Definition keyed_node (idx : nat) (key : Key) (op : string) : C Node :=
  with! n := get_node idx op in
  if bool_decide (node_key n = key) then cret n else cfail (mkFault op SLOT_HOLDS_OTHER_KEY (Some idx)).
Definition put_node (idx : nat) (n : Node) : C unit := cmodify (fun c => set_slab (<[idx := Some n]> (slab c)) c).
Definition update_node (idx : nat) (op : string) (f : Node -> Node) : C unit :=
  with! n := get_node idx op in put_node idx (f n).

Definition is_evictable (n : Node) (d : gset Key) : bool := (pins n =? 0) && negb (bool_decide (node_key n ∈ d)).

Definition one_less (count : Z) (op : string) : C Z :=
  match checked_sub count 1 with
  | Some n => cret n
  | None => cfail (mkFault op EVICTABLE_COUNT_DRIFTED None)
  end.
Definition take_evictable (op : string) : C unit :=
  with! n := cgets evictable in with! n := one_less n op in cmodify (set_evictable n).
Definition add_evictable : C unit := cmodify (fun c => set_evictable (saturating_add (evictable c) 1) c).

(** ** The list of clean entries *)

Definition unlink_node (prv nxt : option nat) (op : string) : C unit :=
  with! _ := match prv with
             | Some p => update_node p op (set_next nxt)
             | None => cmodify (set_tail nxt)
             end in
  match nxt with
  | Some n => update_node n op (set_prev prv)
  | None => cmodify (set_head prv)
  end.

Definition unlink_from_list (idx : nat) (op : string) : C unit :=
  with! n := get_node idx op in
  if negb (linked n) then cret tt else
  with! _ := put_node idx (set_links false None None n) in
  with! _ := cmodify (fun c => if bool_decide (hand c = Some idx) then set_hand (next n) c else c) in
  unlink_node (prev n) (next n) op.

Definition link_as_head (idx : nat) (op : string) : C unit :=
  with! old_head := cgets list_head in
  with! n := get_node idx op in
  if linked n then cfail (mkFault op NODE_ALREADY_LINKED (Some idx)) else
  with! _ := put_node idx (set_links true old_head None n) in
  with! _ := match old_head with
             | Some h => update_node h op (set_next (Some idx))
             | None => cmodify (set_tail (Some idx))
             end in
  cmodify (set_head (Some idx)).

(** ** Slots *)

Definition alloc_node (n : Node) (op : string) : C nat := fun c =>
  match last (free c) with
  | None => (Ok (length (slab c)), set_slab (slab c ++ [Some n]) c)
  | Some idx =>
      let c := set_free (take (length (free c) - 1) (free c)) c in
      match slab c !! idx with
      | None => (Err (mkFault op SLOT_EMPTY (Some idx)), c)
      | Some (Some _) => (Err (mkFault op SLOT_HOLDS_OTHER_KEY (Some idx)), c)
      | Some None => (Ok idx, set_slab (<[idx := Some n]> (slab c)) c)
      end
  end.

Definition free_node (idx : nat) (op : string) : C unit :=
  with! _ := get_node idx op in
  cmodify (fun c => set_free (free c ++ [idx]) (set_slab (<[idx := None]> (slab c)) c)).

Section cache.
(** Whether debug assertions are compiled in, and the order in which the hash
    map is iterated. *)
Context (debug : bool) (iter : gmap Key nat -> list (Key * nat)).

(** ** Eviction *)

Fixpoint count_candidates (es : list (Key * nat)) (op : string) (candidates : Z) : C Z :=
  match es with
  | [] => cret candidates
  | (_, idx) :: es =>
      with! n := get_node idx op in
      with! d := cgets dirty in
      count_candidates es op (if is_evictable n d then saturating_add candidates 1 else candidates)
  end.

Definition check_evictable_count (op : string) : C unit :=
  with! m := cgets cmap in
  with! candidates := count_candidates (iter m) op 0 in
  with! n := cgets evictable in
  if candidates =? n then cret tt else cfail (mkFault op EVICTABLE_COUNT_DRIFTED None).

Fixpoint check_members (es : list (Key * nat)) (op : string) : C unit :=
  match es with
  | [] => cret tt
  | (key, idx) :: es =>
      with! n := get_node idx op in
      with! d := cgets dirty in
      if Bool.eqb (linked n) (bool_decide (key ∈ d)) then cfail (mkFault op LIST_MEMBERSHIP_DRIFTED (Some idx))
      else check_members es op
  end.

Definition check_list_membership (op : string) : C unit :=
  with! m := cgets cmap in check_members (iter m) op.

(** The walk of the hand, at most [steps] iterations. *)
Fixpoint evict_walk (steps : nat) (cur : option nat) : C unit :=
  let op := "evict_one" in
  match steps with
  | O => cfail (mkFault op NO_VICTIM None)
  | S steps =>
      match cur with
      | None => with! t := cgets list_tail in evict_walk steps t
      | Some idx =>
          with! n := get_node idx op in
          with! d := cgets dirty in
          if debug && bool_decide (node_key n ∈ d) then cfail (mkFault op LIST_MEMBERSHIP_DRIFTED (Some idx)) else
          if negb (is_evictable n d) then evict_walk steps (next n) else
          if visited n then
            with! _ := put_node idx (set_visited false n) in evict_walk steps (next n)
          else
            with! _ := unlink_node (prev n) (next n) op in
            with! _ := cmodify (set_hand (next n)) in
            with! _ := cmodify (fun c => set_cmap (delete (node_key n) (cmap c)) c) in
            with! _ := free_node idx op in
            take_evictable op
      end
  end.

Definition evict_one : C unit :=
  with! c := cgets id in
  let list_len := saturating_sub (cache_len c) (Z.of_nat (size (dirty c))) in
  let max_steps := saturating_mul (saturating_add list_len 1) 2 in
  evict_walk (Z.to_nat max_steps) (match hand c with Some h => Some h | None => list_tail c end).

Fixpoint trim_loop (fuel : nat) (target : Z) : C unit :=
  match fuel with
  | O => fun c => (Panic, c)
  | S fuel =>
      with! c := cgets id in
      if (target <? cache_len c) && (0 <? evictable c) then
        with! _ := evict_one in trim_loop fuel target
      else cret tt
  end.

Definition trim_to (target : Z) : C unit :=
  let op := "trim_to" in
  with! _ := if debug then with! _ := check_evictable_count op in check_list_membership op else cret tt in
  with! m := cgets cmap in
  trim_loop (S (size m)) target.

Definition check_within_budget (op : string) : C unit :=
  with! c := cgets id in
  if debug && (capacity c <? cache_len c) && (0 <? evictable c)
  then cfail (mkFault op OVER_BUDGET None) else cret tt.

(** ** Lookup and insertion *)

Definition cache_get (key : Key) : C (option Page) :=
  guarded (
    with! m := cgets cmap in
    match m !! key with
    | None => cret None
    | Some idx =>
        with! n := keyed_node idx key "get" in
        with! _ := put_node idx (set_visited true n) in
        cret (Some (node_page n))
    end).

Definition get_dirty (key : Key) : C (option Page) :=
  with! page := cache_get key in
  with! d := cgets dirty in
  if bool_decide (page = None) && bool_decide (key ∈ d) then
    let f := mkFault "get_dirty" DIRTY_NOT_RESIDENT None in
    with! _ := cmodify (latch f) in cfail f
  else cret page.

(** Add a pin to the entry at [idx] and return it. *)
Definition pin_resident (idx : nat) (key : Key) (op : string) : C Node :=
  with! n := keyed_node idx key op in
  with! d := cgets dirty in
  with! _ := if is_evictable n d then take_evictable op else cret tt in
  let n := set_pins (Z.min (pins n + 1) U32_MAX) n in
  with! _ := put_node idx n in cret n.

Definition get_and_pin (key : Key) : C (option (Page * nat)) :=
  guarded (
    with! m := cgets cmap in
    match m !! key with
    | None => cret None
    | Some idx =>
        with! n := pin_resident idx key "get_and_pin" in
        with! _ := put_node idx (set_visited true n) in
        cret (Some (node_page n, idx))
    end).

Definition unpin_at (idx : nat) (key : Key) : C unit :=
  let op := "unpin_at" in
  ignore (guarded (
    with! n := keyed_node idx key op in
    if pins n =? 0 then cfail (mkFault op RELEASE_WITHOUT_PIN (Some idx)) else
    let n := set_pins (pins n - 1) n in
    with! _ := put_node idx n in
    with! d := cgets dirty in
    with! _ := if is_evictable n d then
                 with! _ := add_evictable in
                 with! c := cgets id in
                 if capacity c <? cache_len c then trim_to (capacity c) else cret tt
               else cret tt in
    check_within_budget op)).

(** Splice a new entry in as the newest, after a trim if the cache is full. *)
Definition insert_new (key : Key) (page : Page) (p : Z) (op : string) : C nat :=
  with! c := cgets id in
  with! _ := if capacity c <=? cache_len c then trim_to (saturating_sub (capacity c) 1) else cret tt in
  with! idx := alloc_node (mkNode key page p false false None None) op in
  with! _ := link_as_head idx op in
  with! _ := cmodify (fun c => set_cmap (<[key := idx]> (cmap c)) c) in
  with! d := cgets dirty in
  with! _ := if (p =? 0) && negb (bool_decide (key ∈ d)) then add_evictable else cret tt in
  cret idx.

Definition cache_insert (key : Key) (page : Page) : C unit :=
  let op := "insert" in
  guarded (
    with! m := cgets cmap in
    match m !! key with
    | Some idx => with! n := keyed_node idx key op in put_node idx (set_page page n)
    | None => with! _ := insert_new key page 0 op in cret tt
    end).

Definition insert_and_pin (key : Key) (page : Page) : C (Page * nat) :=
  let op := "insert_and_pin" in
  guarded (
    with! m := cgets cmap in
    match m !! key with
    | Some idx =>
        with! n := pin_resident idx key op in
        with! _ := put_node idx (set_visited true n) in
        cret (node_page n, idx)
    | None => with! idx := insert_new key page 1 op in cret (page, idx)
    end).

(** ** Returning index memory *)

Definition retarget_list_links (from to : nat) (prv nxt : option nat) (op : string) : C unit :=
  let broken := mkFault op LIST_LINK_BROKEN (Some from) in
  with! _ := match prv with
             | Some p =>
                 with! neighbour := get_node p op in
                 if bool_decide (next neighbour = Some from) then put_node p (set_next (Some to) neighbour)
                 else cfail broken
             | None =>
                 with! t := cgets list_tail in
                 if bool_decide (t = Some from) then cmodify (set_tail (Some to)) else cfail broken
             end in
  with! _ := match nxt with
             | Some n =>
                 with! neighbour := get_node n op in
                 if bool_decide (prev neighbour = Some from) then put_node n (set_prev (Some to) neighbour)
                 else cfail broken
             | None =>
                 with! h := cgets list_head in
                 if bool_decide (h = Some from) then cmodify (set_head (Some to)) else cfail broken
             end in
  cmodify (fun c => if bool_decide (hand c = Some from) then set_hand (Some to) c else c).

Definition move_node (from to : nat) (op : string) : C unit :=
  with! n := get_node from op in
  with! _ := if linked n then retarget_list_links from to (prev n) (next n) op else cret tt in
  with! m := cgets cmap in
  with! _ := if bool_decide (m !! node_key n = Some from)
             then cmodify (set_cmap (<[node_key n := to]> m))
             else cfail (mkFault op MAP_SLOT_DISAGREES (Some from)) in
  with! s := cgets slab in
  let moved := default None (s !! from) in
  with! _ := cmodify (set_slab (<[from := None]> s)) in
  with! s := cgets slab in
  match s !! to with
  | None => cfail (mkFault op SLOT_EMPTY (Some to))
  | Some (Some _) => cfail (mkFault op SLOT_HOLDS_OTHER_KEY (Some to))
  | Some None => cmodify (set_slab (<[to := moved]> s))
  end.

(** The lowest slot from [low] on that is free, at most [high]. *)
Fixpoint skip_live (fuel : nat) (s : list (option Node)) (low high : nat) : nat :=
  match fuel with
  | O => low
  | S fuel =>
      if bool_decide (low < high)%nat && match s !! low with Some (Some _) => true | _ => false end
      then skip_live fuel s (S low) high else low
  end.

(** The slots below [n], highest first. *)
Fixpoint compact_loop (n low : nat) (op : string) : C unit :=
  match n with
  | O => cret tt
  | S high =>
      with! s := cgets slab in
      match s !! high with
      | Some (Some nd) =>
          if 0 <? pins nd then cret tt else
          let low := skip_live (high - low) s low high in
          if bool_decide (high <= low)%nat then cret tt else
          with! _ := move_node high low op in compact_loop high low op
      | _ => compact_loop high low op
      end
  end.

Definition compact_high_slots (op : string) : C unit :=
  with! s := cgets slab in compact_loop (length s) 0 op.

(** One above the highest live slot. *)
Definition live_extent (s : list (option Node)) : nat :=
  match list_find is_Some (reverse s) with
  | Some (i, _) => length s - i
  | None => 0
  end.
Definition free_slots (s : list (option Node)) : list nat :=
  reverse (filter (fun i => s !! i = Some None) (seq 0 (length s))).

(** [map_cap] is the capacity the hash map reports. *)
Definition reclaim_index_memory (map_cap : Z) : C unit :=
  let op := "reclaim_index_memory" in
  with! c := cgets id in
  let bound := saturating_mul (capacity c) 2 in
  if (map_cap <=? bound) && (Z.of_nat (length (slab c)) <=? bound) then cret tt else
  with! _ := compact_high_slots op in
  with! _ := cmodify (fun c => set_slab (take (live_extent (slab c)) (slab c)) c) in
  with! _ := cmodify (fun c => set_free (free_slots (slab c)) c) in
  with! c := cgets id in
  if saturating_add (Z.of_nat (length (free c))) (cache_len c) =? Z.of_nat (length (slab c))
  then cret tt else cfail (mkFault op LIVE_SLOTS_DRIFTED None).

Definition settle_batch (map_cap : Z) (op : string) : C unit :=
  with! c := cgets id in
  with! _ := trim_to (capacity c) in
  with! _ := reclaim_index_memory map_cap in
  check_within_budget op.

(** ** Dirty pages *)

Definition mark_dirty (key : Key) : C unit :=
  let op := "mark_dirty" in
  guarded (
    with! m := cgets cmap in
    match m !! key with
    | None => cfail (mkFault op DIRTY_NOT_RESIDENT None)
    | Some idx =>
        with! n := keyed_node idx key op in
        with! d := cgets dirty in
        with! _ := if is_evictable n d then take_evictable op else cret tt in
        with! _ := cmodify (fun c => set_dirty ({[ key ]} ∪ dirty c) c) in
        unlink_from_list idx op
    end).

Definition clear_dirty (key : Key) : C unit :=
  let op := "clear_dirty" in
  guarded (
    with! d := cgets dirty in
    if negb (bool_decide (key ∈ d)) then cret tt else
    with! m := cgets cmap in
    match m !! key with
    | None => cfail (mkFault op DIRTY_NOT_RESIDENT None)
    | Some idx =>
        with! n := keyed_node idx key op in
        let unpinned := pins n =? 0 in
        with! _ := link_as_head idx op in
        with! _ := cmodify (fun c => set_dirty (dirty c ∖ {[ key ]}) c) in
        if unpinned then add_evictable else cret tt
    end).

Definition dirty_len (c : PageCache) : Z := Z.of_nat (size (dirty c)).

(** The dirty page ids of one file, ascending. *)
Definition dirty_for_file (file : FileKey) (c : PageCache) : list Z :=
  merge_sort Z.le (snd <$> filter (fun k : Key => k.1 = file) (elements (dirty c))).

Fixpoint finish_loop (file : FileKey) (gathered : list (Z * Page)) : C unit :=
  match gathered with
  | [] => cret tt
  | (pid, snapshot) :: gathered =>
      with! current := cache_get (file, pid) in
      with! _ := match current with
                 | Some page => if ptr_eq page snapshot then clear_dirty (file, pid) else cret tt
                 | None => cret tt
                 end in
      finish_loop file gathered
  end.

Definition finish_flush (map_cap : Z) (file : FileKey) (gathered : list (Z * Page)) : C unit :=
  with! _ := finish_loop file gathered in
  guarded (settle_batch map_cap "finish_flush").

Definition remove_unpinned_entry (key : Key) (idx : nat) (op : string) : C unit :=
  with! n := keyed_node idx key op in
  with! d := cgets dirty in
  let was_evictable := is_evictable n d in
  with! _ := cmodify (fun c => set_cmap (delete key (cmap c)) c) in
  with! _ := unlink_from_list idx op in
  with! _ := free_node idx op in
  if was_evictable then take_evictable op else cret tt.

Definition discard_dirty_entry (key : Key) : C unit :=
  guarded (
    with! m := cgets cmap in
    match m !! key with
    | None => cfail (mkFault DISCARD_DIRTY DIRTY_NOT_RESIDENT None)
    | Some idx =>
        with! n := keyed_node idx key DISCARD_DIRTY in
        with! _ := if 0 <? pins n then link_as_head idx DISCARD_DIRTY
                   else remove_unpinned_entry key idx DISCARD_DIRTY in
        cmodify (fun c => set_dirty (dirty c ∖ {[ key ]}) c)
    end).

Fixpoint discard_loop (file : FileKey) (pids : list Z) : C unit :=
  match pids with
  | [] => cret tt
  | pid :: pids => with! _ := discard_dirty_entry (file, pid) in discard_loop file pids
  end.

Definition discard_dirty (map_cap : Z) (file : FileKey) : C unit :=
  ignore (
    with! pids := cgets (dirty_for_file file) in
    with! _ := discard_loop file pids in
    guarded (settle_batch map_cap DISCARD_DIRTY)).

Fixpoint clear_loop (keep_dirty : bool) (entries : list (Key * nat)) : C unit :=
  let op := "clear_file" in
  match entries with
  | [] => cret tt
  | (key, idx) :: entries =>
      with! n := keyed_node idx key op in
      with! d := cgets dirty in
      if 0 <? pins n then clear_loop keep_dirty entries else
      if keep_dirty && bool_decide (key ∈ d) then clear_loop keep_dirty entries else
      with! _ := remove_unpinned_entry key idx op in
      with! _ := if keep_dirty then cret tt else cmodify (fun c => set_dirty (dirty c ∖ {[ key ]}) c) in
      clear_loop keep_dirty entries
  end.

Definition clear_file_entries (file : FileKey) (keep_dirty : bool) : C unit :=
  guarded (
    with! m := cgets cmap in
    clear_loop keep_dirty (filter (fun e : Key * nat => e.1.1 = file) (iter m))).
Definition clear_file (file : FileKey) : C unit := clear_file_entries file false.
Definition clear_clean_file (file : FileKey) : C unit := clear_file_entries file true.
End cache.
