(* ===== verification/PageCacheList.v ===== *)
(** * PageCacheList: the list threaded through the slab of the page cache

    The doubly linked list of clean entries as the sequence of slots it visits,
    and what linking, unlinking and moving a node do to that sequence. *)

From S2P Require Import Prelude Keys Errors PageFormat PageCache.
From Stdlib Require Import ZArith Lia.
From stdpp Require Import base list strings gmap sorting.

Local Open Scope Z_scope.
Local Open Scope pagedb_scope.

(** ** Running operations *)

Lemma cbind_ret {A B} (a : A) (k : A -> C B) c : cbind (cret a) k c = k a c.
Proof. done. Qed.
Lemma cbind_gets {A B} (f : PageCache -> A) (k : A -> C B) c : cbind (cgets f) k c = k (f c) c.
Proof. done. Qed.
Lemma cbind_modify {B} f (k : unit -> C B) c : cbind (cmodify f) k c = k tt (f c).
Proof. done. Qed.
Lemma cbind_ok {A B} (m : C A) (k : A -> C B) c a c' : m c = (Ok a, c') -> cbind m k c = k a c'.
Proof. unfold cbind. by intros ->. Qed.
Lemma cbind_node {B} i op (k : Node -> C B) c n :
  slab c !! i = Some (Some n) -> cbind (get_node i op) k c = k n c.
Proof. unfold cbind, get_node. by intros ->. Qed.
Lemma cbind_put {B} i n (k : unit -> C B) c :
  cbind (put_node i n) k c = k tt (set_slab (<[i := Some n]> (slab c)) c).
Proof. done. Qed.
Lemma keyed_node_ok i k op c n : slab c !! i = Some (Some n) -> node_key n = k -> keyed_node i k op c = (Ok n, c).
Proof. intros Hi Hk. unfold keyed_node. rewrite (cbind_node _ _ _ _ _ Hi). by rewrite bool_decide_true. Qed.
Lemma update_node_ok i op f c n :
  slab c !! i = Some (Some n) -> update_node i op f c = (Ok tt, set_slab (<[i := Some (f n)]> (slab c)) c).
Proof. intros Hi. unfold update_node. by rewrite (cbind_node _ _ _ _ _ Hi). Qed.
Lemma cbind_assoc {A B D} (m : C A) (k : A -> C B) (k' : B -> C D) c :
  cbind (cbind m k) k' c = cbind m (fun a => cbind (k a) k') c.
Proof. unfold cbind. destruct (m c) as [[|e|] c']; done. Qed.

(** Steps that need no fact about the cache. *)
Ltac crun := repeat first
  [rewrite cbind_assoc | rewrite cbind_ret | rewrite cbind_gets | rewrite cbind_modify | rewrite cbind_put]; cbv beta.

(** ** What an entry is apart from its place in the list *)

Definition core (n : Node) : Key * Page * Z := (node_key n, node_page n, pins n).
Definition cores (sl : list (option Node)) : list (option (Key * Page * Z)) := fmap (M := option) core <$> sl.

Lemma cores_lookup sl i n : sl !! i = Some (Some n) -> cores sl !! i = Some (Some (core n)).
Proof. intros H. unfold cores. by rewrite list_lookup_fmap, H. Qed.
Lemma cores_node sl i x : cores sl !! i = Some (Some x) -> exists n, sl !! i = Some (Some n) /\ core n = x.
Proof.
  unfold cores. rewrite list_lookup_fmap. destruct (sl !! i) as [[n|]|]; [|done..]. intros [= <-]. by exists n.
Qed.
Lemma cores_None sl i : cores sl !! i = Some None <-> sl !! i = Some None.
Proof. unfold cores. rewrite list_lookup_fmap. by destruct (sl !! i) as [[n|]|]. Qed.
Lemma cores_insert sl i o : cores (<[i := o]> sl) = <[i := core <$> o]> (cores sl).
Proof. unfold cores. by rewrite list_fmap_insert. Qed.
Lemma cores_same sl i n n' : sl !! i = Some (Some n) -> core n' = core n -> cores (<[i := Some n']> sl) = cores sl.
Proof. intros Hi Hc. rewrite cores_insert. apply list_insert_id. rewrite (cores_lookup _ _ _ Hi). simpl. by rewrite Hc. Qed.

(** ** The list *)

(** The node at [i] is on the list after [p] and before [s]. *)
Definition between (sl : list (option Node)) (p : list nat) (i : nat) (s : list nat) : Prop :=
  exists n, sl !! i = Some (Some n) /\ linked n = true /\ prev n = last p /\ next n = head s.

(** The nodes of [q] are on the list in that order, the others are off it. *)
Record chained (sl : list (option Node)) (q : list nat) : Prop := mkChained {
  ch_nodup : NoDup q;
  ch_on : forall p i s, q = p ++ i :: s -> between sl p i s;
  ch_only : forall i n, sl !! i = Some (Some n) -> linked n = true -> i ∈ q;
}.

Lemma chained_in sl q i : chained sl q -> i ∈ q -> exists n, sl !! i = Some (Some n) /\ linked n = true.
Proof.
  intros Hc (p & s & Heq)%list_elem_of_split. destruct (ch_on _ _ Hc _ _ _ Heq) as (n & ? & ? & _). by exists n.
Qed.

Lemma chained_linked sl q i n : chained sl q -> sl !! i = Some (Some n) -> (linked n = true <-> i ∈ q).
Proof.
  intros Hc Hi. split; [by eapply ch_only|]. intros (n' & Hi' & Hl)%(chained_in _ _ _ Hc). congruence.
Qed.

(** A change that leaves the links of a node alone leaves the list alone. *)
Lemma chained_put sl q i n n' :
  chained sl q -> sl !! i = Some (Some n) -> linked n' = linked n -> prev n' = prev n -> next n' = next n ->
  chained (<[i := Some n']> sl) q.
Proof.
  intros [Hnd Hon Honly] Hi Hl Hp Hn. pose proof (lookup_lt_Some _ _ _ Hi) as Hlt. constructor; [done| |].
  - intros p j s Hq. destruct (Hon _ _ _ Hq) as (m & Hj & ? & ? & ?). destruct (decide (i = j)) as [<-|Hne].
    + exists n'. rewrite list_lookup_insert_eq by done. assert (m = n) as -> by congruence. split_and!; congruence.
    + exists m. by rewrite list_lookup_insert_ne.
  - intros j m Hj. destruct (decide (i = j)) as [<-|Hne].
    + rewrite list_lookup_insert_eq in Hj by done. injection Hj as <-. rewrite Hl. by apply Honly.
    + rewrite list_lookup_insert_ne in Hj by done. by apply Honly.
Qed.

(** Storing a node that is off the list, over a slot that is. *)
Lemma chained_off sl q i n' :
  chained sl q -> ~ (i ∈ q) -> (forall n, n' = Some n -> linked n = false) -> chained (<[i := n']> sl) q.
Proof.
  intros [Hnd Hon Honly] Hi Hl. constructor; [done| |].
  - intros p j s Hq. destruct (Hon _ _ _ Hq) as (m & Hj & ? & ? & ?). exists m. rewrite list_lookup_insert_ne; [done|].
    intros ->. apply Hi. rewrite Hq. apply elem_of_app. right. by left.
  - intros j m Hj Hlm. destruct (decide (i = j)) as [<-|Hne].
    + pose proof (lookup_lt_Some _ _ _ Hj) as Hlt. rewrite length_insert in Hlt.
      rewrite list_lookup_insert_eq in Hj by done. injection Hj as ->. by rewrite (Hl m eq_refl) in Hlm.
    + rewrite list_lookup_insert_ne in Hj by done. by eapply Honly.
Qed.

(** ** Setting one link *)

(** Give the last node of [p] the successor [o], as a change of the slab. *)
Definition relink_next (o : option nat) (p : list nat) (sl : list (option Node)) : list (option Node) :=
  match last p with
  | Some a => match sl !! a with Some (Some n) => <[a := Some (set_next o n)]> sl | _ => sl end
  | None => sl
  end.
Definition relink_prev (o : option nat) (s : list nat) (sl : list (option Node)) : list (option Node) :=
  match head s with
  | Some a => match sl !! a with Some (Some n) => <[a := Some (set_prev o n)]> sl | _ => sl end
  | None => sl
  end.

Lemma relink_next_cores o p sl : cores (relink_next o p sl) = cores sl.
Proof. unfold relink_next. repeat case_match; try done. by eapply cores_same. Qed.
Lemma relink_prev_cores o s sl : cores (relink_prev o s sl) = cores sl.
Proof. unfold relink_prev. repeat case_match; try done. by eapply cores_same. Qed.

Lemma relink_next_lookup o p sl j :
  relink_next o p sl !! j = if decide (last p = Some j) then fmap (M := option) (set_next o) <$> sl !! j else sl !! j.
Proof.
  unfold relink_next. destruct (last p) as [a|]; [|by rewrite decide_False].
  destruct (decide (Some a = Some j)) as [[= <-]|Hne].
  - destruct (sl !! a) as [[n|]|] eqn:Ha; [|by rewrite Ha..].
    rewrite list_lookup_insert_eq; [done|by eapply lookup_lt_Some].
  - destruct (sl !! a) as [[n|]|] eqn:Ha; [|done..]. rewrite list_lookup_insert_ne; [done|]. by intros ->.
Qed.
Lemma relink_prev_lookup o s sl j :
  relink_prev o s sl !! j = if decide (head s = Some j) then fmap (M := option) (set_prev o) <$> sl !! j else sl !! j.
Proof.
  unfold relink_prev. destruct (head s) as [a|]; [|by rewrite decide_False].
  destruct (decide (Some a = Some j)) as [[= <-]|Hne].
  - destruct (sl !! a) as [[n|]|] eqn:Ha; [|by rewrite Ha..].
    rewrite list_lookup_insert_eq; [done|by eapply lookup_lt_Some].
  - destruct (sl !! a) as [[n|]|] eqn:Ha; [|done..]. rewrite list_lookup_insert_ne; [done|]. by intros ->.
Qed.

(** The nodes of [p] are linked to each other, and the last of them to [rest]. *)
Definition front (sl : list (option Node)) (p rest : list nat) : Prop :=
  forall p1 j p2, p = p1 ++ j :: p2 -> between sl p1 j (p2 ++ rest).
(** The nodes of [s] are linked to each other, and the first of them to [pre]. *)
Definition back (sl : list (option Node)) (pre s : list nat) : Prop :=
  forall s1 j s2, s = s1 ++ j :: s2 -> between sl (pre ++ s1) j s2.

Lemma front_of sl p rest : (forall p1 i s, p ++ rest = p1 ++ i :: s -> between sl p1 i s) -> front sl p rest.
Proof. intros H p1 j p2 ->. apply H. by rewrite <-app_assoc. Qed.
Lemma back_of sl pre s : (forall p1 i s1, pre ++ s = p1 ++ i :: s1 -> between sl p1 i s1) -> back sl pre s.
Proof. intros H s1 j s2 ->. apply H. by rewrite app_assoc. Qed.
Lemma front_back sl p s : front sl p s -> back sl p s -> forall p1 i s1, p ++ s = p1 ++ i :: s1 -> between sl p1 i s1.
Proof.
  intros Hf Hb p1 i s1 [(k & -> & Hk)|(k & -> & Hk)]%app_eq_inv.
  - destruct k as [|x k].
    + simpl in Hk. subst s. rewrite <-(app_nil_r p1). rewrite app_nil_r in Hb. by apply (Hb [] i s1).
    + injection Hk as -> ->. by apply Hf.
  - by apply Hb.
Qed.

Lemma between_ext sl sl' p i s : sl' !! i = sl !! i -> between sl p i s -> between sl' p i s.
Proof. intros He (n & ?). exists n. by rewrite He. Qed.

Lemma front_frame sl sl' p rest : (forall j, j ∈ p -> sl' !! j = sl !! j) -> front sl p rest -> front sl' p rest.
Proof. intros He Hf p1 j p2 Hp. eapply between_ext; [|by apply Hf]. apply He. rewrite Hp. apply elem_of_app. right. by left. Qed.
Lemma back_frame sl sl' pre s : (forall j, j ∈ s -> sl' !! j = sl !! j) -> back sl pre s -> back sl' pre s.
Proof. intros He Hf p1 j p2 Hp. eapply between_ext; [|by apply Hf]. apply He. rewrite Hp. apply elem_of_app. right. by left. Qed.

Lemma last_in {A} (l : list A) x : last l = Some x -> x ∈ l.
Proof. by apply last_Some_elem_of. Qed.
Lemma head_in {A} (l : list A) x : head l = Some x -> x ∈ l.
Proof. destruct l; [done|]. intros [= ->]. by left. Qed.

Lemma front_relink sl p rest rest' :
  NoDup p -> front sl p rest -> front (relink_next (head rest') p sl) p rest'.
Proof.
  intros Hnd Hf p1 j p2 ->. destruct (Hf p1 j p2 eq_refl) as (n & Hj & Hl & Hp & Hn).
  destruct p2 as [|x p2].
  - exists (set_next (head rest') n). rewrite relink_next_lookup, decide_True by (by rewrite last_snoc). by rewrite Hj.
  - exists n. rewrite relink_next_lookup, decide_False; [done|]. rewrite last_app. intros Hlast.
    apply NoDup_app in Hnd as (_ & _ & Hnd). apply NoDup_cons in Hnd as [Hnd _]. apply Hnd.
    rewrite last_cons_cons in Hlast. destruct (last (x :: p2)) as [y|] eqn:Hy; [|by apply last_None in Hy].
    injection Hlast as ->. by apply last_in.
Qed.

Lemma back_relink sl pre pre' s :
  NoDup s -> back sl pre s -> back (relink_prev (last pre') s sl) pre' s.
Proof.
  intros Hnd Hb s1 j s2 ->. destruct (Hb s1 j s2 eq_refl) as (n & Hj & Hl & Hp & Hn).
  destruct s1 as [|x s1].
  - exists (set_prev (last pre') n). rewrite relink_prev_lookup, decide_True by done. rewrite Hj, app_nil_r. done.
  - exists n. rewrite relink_prev_lookup, decide_False.
    + rewrite last_app in Hp |- *. split; [done|]. split; [done|]. split; [|done].
      destruct (last (x :: s1)) eqn:Hx; [done|]. by apply last_None in Hx.
    + simpl. intros [= ->]. simpl in Hnd. apply NoDup_cons in Hnd as [Hnd _]. apply Hnd, elem_of_app. right. by left.
Qed.

(** Relinking one side leaves the nodes of the other alone. *)
Lemma relink_next_other o p sl j : ~ (j ∈ p) -> relink_next o p sl !! j = sl !! j.
Proof. intros Hj. rewrite relink_next_lookup, decide_False; [done|]. by intros ?%last_in. Qed.
Lemma relink_prev_other o s sl j : ~ (j ∈ s) -> relink_prev o s sl !! j = sl !! j.
Proof. intros Hj. rewrite relink_prev_lookup, decide_False; [done|]. by intros ?%head_in. Qed.

Lemma relink_next_linked o p sl j n :
  relink_next o p sl !! j = Some (Some n) -> exists n0, sl !! j = Some (Some n0) /\ linked n0 = linked n /\ visited n0 = visited n.
Proof.
  rewrite relink_next_lookup. case_decide; [|by eauto]. destruct (sl !! j) as [[m|]|]; [|done..].
  intros [= <-]. by exists m.
Qed.
Lemma relink_prev_linked o s sl j n :
  relink_prev o s sl !! j = Some (Some n) -> exists n0, sl !! j = Some (Some n0) /\ linked n0 = linked n /\ visited n0 = visited n.
Proof.
  rewrite relink_prev_lookup. case_decide; [|by eauto]. destruct (sl !! j) as [[m|]|]; [|done..].
  intros [= <-]. by exists m.
Qed.

Lemma NoDup_sides {A} (p : list A) i s :
  NoDup (p ++ i :: s) -> NoDup p /\ NoDup s /\ ~ (i ∈ p) /\ ~ (i ∈ s) /\ (forall j, j ∈ p -> ~ (j ∈ s)).
Proof.
  intros (Hp & Hd & [Hi Hs]%NoDup_cons)%NoDup_app. split_and!; try done.
  - intros Hin. apply (Hd _ Hin). by left.
  - intros j Hj Hjs. apply (Hd _ Hj). by right.
Qed.

(** ** Unlinking *)

(** The slab after [unlink_node] around a node between [p] and [s]. *)
Definition bridged (p s : list nat) (sl : list (option Node)) : list (option Node) :=
  relink_prev (last p) s (relink_next (head s) p sl).

Lemma bridged_cores p s sl : cores (bridged p s sl) = cores sl.
Proof. unfold bridged. by rewrite relink_prev_cores, relink_next_cores. Qed.
Lemma bridged_other p s sl j : ~ (j ∈ p) -> ~ (j ∈ s) -> bridged p s sl !! j = sl !! j.
Proof. intros. unfold bridged. by rewrite relink_prev_other, relink_next_other. Qed.
Lemma bridged_linked p s sl j n :
  bridged p s sl !! j = Some (Some n) -> exists n0, sl !! j = Some (Some n0) /\ linked n0 = linked n.
Proof.
  intros (n1 & (n0 & ? & ? & _)%relink_next_linked & ? & _)%relink_prev_linked. exists n0. split; congruence.
Qed.

(** Nodes that are between [p] and [s] or alone are off the list afterwards. *)
Lemma bridged_chained p i s sl :
  NoDup (p ++ i :: s) -> front sl p (i :: s) -> back sl (p ++ [i]) s ->
  (forall j n, sl !! j = Some (Some n) -> linked n = true -> j ∈ p ++ s) ->
  chained (bridged p s sl) (p ++ s).
Proof.
  intros Hnd Hf Hb Honly. destruct (NoDup_sides _ _ _ Hnd) as (Hp & Hs & Hip & His & Hps). constructor.
  - apply NoDup_app. split_and!; done.
  - apply front_back; unfold bridged.
    + apply (front_frame (relink_next (head s) p sl)); [|by apply (front_relink _ _ (i :: s))].
      intros j Hj. apply relink_prev_other. by apply Hps.
    + apply (back_relink _ (p ++ [i])); [done|]. eapply back_frame; [|exact Hb].
      intros j Hj. apply relink_next_other. intros Hjp. by apply (Hps j).
  - intros j n (n0 & Hj & Hl)%bridged_linked Hln. eapply Honly; [exact Hj|congruence].
Qed.

Lemma unlink_node_ok c p i s op :
  front (slab c) p (i :: s) -> back (slab c) (p ++ [i]) s -> NoDup (p ++ i :: s) ->
  list_tail c = head (p ++ i :: s) -> list_head c = last (p ++ i :: s) ->
  exists c', unlink_node (last p) (head s) op c = (Ok tt, c') /\ slab c' = bridged p s (slab c) /\
    list_tail c' = head (p ++ s) /\ list_head c' = last (p ++ s) /\ hand c' = hand c /\ capacity c' = capacity c /\
    cmap c' = cmap c /\ free c' = free c /\ dirty c' = dirty c /\ evictable c' = evictable c /\ fault c' = fault c.
Proof.
  intros Hf Hb Hnd Ht Hh. destruct (NoDup_sides _ _ _ Hnd) as (Hp & Hs & Hip & His & Hps). unfold unlink_node.
  assert (exists c1, (match last p with Some p0 => update_node p0 op (set_next (head s)) | None => cmodify (set_tail (head s)) end) c
      = (Ok tt, c1) /\ slab c1 = relink_next (head s) p (slab c) /\ list_tail c1 = head (p ++ s) /\
      list_head c1 = list_head c /\ hand c1 = hand c /\ capacity c1 = capacity c /\ cmap c1 = cmap c /\ free c1 = free c /\
      dirty c1 = dirty c /\ evictable c1 = evictable c /\ fault c1 = fault c) as (c1 & Hr1 & Hs1 & Ht1 & Hh1 & Hrest1).
  { destruct p as [|a p _] using rev_ind; [by eexists|]. rewrite last_snoc.
    destruct (Hf p a []) as (n & Ha & _); [done|]. rewrite (update_node_ok _ _ _ _ _ Ha). eexists. split; [done|].
    unfold relink_next. rewrite last_snoc, Ha. split; [done|]. simpl. split; [|done]. rewrite Ht. by destruct p. }
  rewrite (cbind_ok _ _ _ _ _ Hr1). unfold bridged. rewrite <-Hs1.
  destruct Hrest1 as (E1 & E2 & E3 & E4 & E5 & E6 & E7).
  destruct s as [|b s].
  - eexists. split; [done|]. unfold relink_prev. simpl. rewrite app_nil_r in Ht1 |- *. split_and!; done.
  - destruct (Hb [] b s) as (n & Hn & _); [done|]. change (head (b :: s)) with (Some b). cbv iota.
    assert (slab c1 !! b = Some (Some n)) as Hn1.
    { rewrite Hs1, relink_next_other; [done|]. intros Hbp. apply (Hps b Hbp). by left. }
    rewrite (update_node_ok _ _ _ _ _ Hn1). eexists. split; [done|]. unfold relink_prev.
    change (head (b :: s)) with (Some b). cbv iota. rewrite Hn1.
    split; [done|]. simpl. split; [done|]. split; [|done]. rewrite Hh1, Hh, !last_app, last_cons_cons.
    by destruct (last (b :: s)) eqn:Hl; [|apply last_None in Hl].
Qed.

Lemma relink_next_insert o p sl i x : ~ (i ∈ p) -> relink_next o p (<[i := x]> sl) = <[i := x]> (relink_next o p sl).
Proof.
  intros Hi. unfold relink_next. destruct (last p) as [a|] eqn:Ha; [|done]. apply last_in in Ha.
  assert (i <> a) by (by intros ->). rewrite list_lookup_insert_ne by done.
  destruct (sl !! a) as [[n|]|]; [|done..]. by rewrite list_insert_insert_ne by done.
Qed.
Lemma relink_prev_insert o s sl i x : ~ (i ∈ s) -> relink_prev o s (<[i := x]> sl) = <[i := x]> (relink_prev o s sl).
Proof.
  intros Hi. unfold relink_prev. destruct (head s) as [a|] eqn:Ha; [|done]. apply head_in in Ha.
  assert (i <> a) by (by intros ->). rewrite list_lookup_insert_ne by done.
  destruct (sl !! a) as [[n|]|]; [|done..]. by rewrite list_insert_insert_ne by done.
Qed.
Lemma bridged_insert p s sl i x :
  ~ (i ∈ p) -> ~ (i ∈ s) -> bridged p s (<[i := x]> sl) = <[i := x]> (bridged p s sl).
Proof. intros. unfold bridged. by rewrite relink_next_insert, relink_prev_insert. Qed.

(** Taking the node at [i] off the list, whatever is stored in its slot. *)
Lemma chained_remove sl p i s x :
  chained sl (p ++ i :: s) -> (forall n, x = Some n -> linked n = false) ->
  chained (<[i := x]> (bridged p s sl)) (p ++ s) /\
  front (<[i := x]> sl) p (i :: s) /\ back (<[i := x]> sl) (p ++ [i]) s.
Proof.
  intros [Hnd Hon Honly] Hx. destruct (NoDup_sides _ _ _ Hnd) as (Hp & Hs & Hip & His & Hps).
  assert (front (<[i := x]> sl) p (i :: s)) as Hf.
  { apply (front_frame sl); [|by apply front_of]. intros j Hj. apply list_lookup_insert_ne. by intros ->. }
  assert (back (<[i := x]> sl) (p ++ [i]) s) as Hb.
  { apply (back_frame sl); [|apply back_of; by rewrite <-app_assoc]. intros j Hj. apply list_lookup_insert_ne. by intros ->. }
  split; [|done]. rewrite <-bridged_insert by done. apply (bridged_chained _ i); try done.
  intros j n Hj Hl. destruct (decide (i = j)) as [<-|Hne].
  - pose proof (lookup_lt_Some _ _ _ Hj) as Hlt. rewrite length_insert in Hlt.
    rewrite list_lookup_insert_eq in Hj by done. injection Hj as ->. by rewrite (Hx n eq_refl) in Hl.
  - rewrite list_lookup_insert_ne in Hj by done. pose proof (Honly _ _ Hj Hl) as Hin.
    apply elem_of_app in Hin as [?|Hin]; apply elem_of_app; [by left|]. apply elem_of_cons in Hin as [->|?]; [done|by right].
Qed.

(** The list of a cache. *)
Record listed (c : PageCache) (q : list nat) : Prop := mkListed {
  li_chained : chained (slab c) q;
  li_tail : list_tail c = head q;
  li_head : list_head c = last q;
  li_hand : forall h, hand c = Some h -> h ∈ q;
}.

(** Two caches that differ in the list only. *)
Definition relisted (c c' : PageCache) : Prop :=
  cores (slab c') = cores (slab c) /\ capacity c' = capacity c /\ cmap c' = cmap c /\ free c' = free c /\
  dirty c' = dirty c /\ evictable c' = evictable c /\ fault c' = fault c.

Lemma unlink_from_list_ok c p i s op :
  listed c (p ++ i :: s) -> exists c', unlink_from_list i op c = (Ok tt, c') /\ listed c' (p ++ s) /\ relisted c c'.
Proof.
  intros [Hch Ht Hh Hha]. destruct (ch_on _ _ Hch p i s eq_refl) as (n & Hi & Hl & Hp & Hn).
  unfold unlink_from_list. rewrite (cbind_node _ _ _ _ _ Hi), Hl. cbn [negb]. crun. rewrite Hp, Hn.
  destruct (chained_remove _ _ _ _ (Some (set_links false None None n)) Hch) as (Hch' & Hf & Hb); [by intros ? [= <-]|].
  match goal with |- context [if ?b then ?x else ?y] => set (c1 := if b then x else y) end.
  assert (slab c1 = <[i := Some (set_links false None None n)]> (slab c) /\ list_tail c1 = list_tail c /\
    list_head c1 = list_head c /\ relisted c c1 /\ (forall h, hand c1 = Some h -> h ∈ p ++ s)) as (Hs1 & Ht1 & Hh1 & Hr1 & Hha1).
  { assert (cores (<[i := Some (set_links false None None n)]> (slab c)) = cores (slab c)) as Hco by (by eapply cores_same).
    unfold c1. case_bool_decide as Hhand; simpl in Hhand; (split; [done|]); (split; [done|]); (split; [done|]);
      (split; [by unfold relisted|]); simpl; intros h Hhd.
    - apply elem_of_app. right. by apply head_in.
    - pose proof (Hha h Hhd) as Hin. apply elem_of_app in Hin as [?|[->|?]%elem_of_cons]; apply elem_of_app; [by left|done|by right]. }
  destruct (NoDup_sides _ _ _ (ch_nodup _ _ Hch)) as (_ & _ & Hip & His & _).
  destruct (unlink_node_ok c1 p i s op) as (c' & Hrun & Hs' & Ht' & Hh' & Hha' & Hrest); rewrite ?Hs1, ?Ht1, ?Hh1; try done.
  { apply Hch. }
  exists c'. split; [done|]. rewrite Hs1, bridged_insert in Hs' by done. split.
  - constructor; [by rewrite Hs'|done|done|]. intros h. rewrite Hha'. apply Hha1.
  - destruct Hr1 as (E1 & E2 & E3 & E4 & E5 & E6 & E7), Hrest as (F1 & F2 & F3 & F4 & F5 & F6).
    split; [|by split_and!; congruence]. rewrite Hs', <-bridged_insert, <-Hs1, bridged_cores by done. done.
Qed.

Lemma unlink_off_list c q i op n :
  listed c q -> slab c !! i = Some (Some n) -> ~ (i ∈ q) -> unlink_from_list i op c = (Ok tt, c).
Proof.
  intros [Hch _ _ _] Hi Hq. unfold unlink_from_list. rewrite (cbind_node _ _ _ _ _ Hi).
  destruct (linked n) eqn:Hl; [|done]. by apply (ch_only _ _ Hch _ _ Hi) in Hl.
Qed.

(** ** Linking *)

Lemma link_as_head_ok c q i op n :
  listed c q -> slab c !! i = Some (Some n) -> ~ (i ∈ q) ->
  exists c', link_as_head i op c = (Ok tt, c') /\ listed c' (q ++ [i]) /\ relisted c c'.
Proof.
  intros [Hch Ht Hh Hha] Hi Hq. pose proof Hch as [Hnd Hon Honly].
  assert (linked n = false) as Hl by (destruct (linked n) eqn:E; [exfalso; by eapply Hq, Honly|done]).
  unfold link_as_head. crun. rewrite (cbind_node _ _ _ _ _ Hi), Hl. crun. rewrite Hh.
  set (n' := set_links true (last q) None n). set (sl1 := <[i := Some n']> (slab c)).
  set (c1 := set_slab sl1 c). pose proof (lookup_lt_Some _ _ _ Hi) as Hlt.
  assert (exists c2, (match last q with Some h => update_node h op (set_next (Some i)) | None => cmodify (set_tail (Some i)) end) c1
      = (Ok tt, c2) /\ slab c2 = relink_next (Some i) q sl1 /\ list_tail c2 = head (q ++ [i]) /\ hand c2 = hand c /\
      capacity c2 = capacity c /\ cmap c2 = cmap c /\ free c2 = free c /\ dirty c2 = dirty c /\ evictable c2 = evictable c /\
      fault c2 = fault c) as (c2 & Hr2 & Hs2 & Ht2 & Hha2 & Hrest).
  { destruct q as [|a q _] using rev_ind; [by eexists|]. rewrite last_snoc. destruct (Hon q a []) as (na & Ha & _); [done|].
    assert (slab c1 !! a = Some (Some na)) as Ha1.
    { simpl. unfold sl1. rewrite list_lookup_insert_ne; [done|]. intros ->. apply Hq. apply elem_of_app. right. by left. }
    rewrite (update_node_ok _ _ _ _ _ Ha1). eexists. split; [done|]. unfold relink_next. rewrite last_snoc.
    simpl in Ha1. rewrite Ha1. split; [done|]. simpl. split; [|done]. rewrite Ht. by destruct q. }
  rewrite (cbind_ok _ _ _ _ _ Hr2). eexists. split; [done|]. split.
  - constructor; simpl; [|done|by rewrite last_snoc|].
    2: { intros h. rewrite Hha2. intros Hin%Hha. apply elem_of_app. by left. }
    rewrite Hs2. assert (front sl1 q []) as Hf.
    { apply (front_frame (slab c)); [|apply front_of; by rewrite app_nil_r]. intros j Hj. apply list_lookup_insert_ne. by intros ->. }
    constructor.
    + apply NoDup_app. split_and!; [done| |by repeat constructor; intros ?%not_elem_of_nil].
      intros j Hj ->%list_elem_of_singleton. done.
    + apply front_back; [by apply (front_relink _ _ [] [i])|]. intros s1 j s2 Hs. symmetry in Hs.
      destruct s1 as [|? [|??]]; simplify_eq/=. exists n'. rewrite relink_next_other by done. rewrite app_nil_r.
      unfold sl1. by rewrite list_lookup_insert_eq.
    + intros j m (m0 & Hj & Hlm & _)%relink_next_linked Hm. destruct (decide (i = j)) as [<-|Hne].
      { apply elem_of_app. right. by left. }
      unfold sl1 in Hj. rewrite list_lookup_insert_ne in Hj by done. apply elem_of_app. left. eapply Honly; [exact Hj|congruence].
  - split; [|done]. simpl. rewrite Hs2, relink_next_cores. by eapply cores_same.
Qed.

(** ** Moving a node to another slot *)

(** The slab once the neighbours of the node between [p] and [s] name the slot [to]. *)
Definition redirected (to : nat) (p s : list nat) (sl : list (option Node)) : list (option Node) :=
  relink_prev (Some to) s (relink_next (Some to) p sl).

Lemma retarget_ok c p from s to op :
  listed c (p ++ from :: s) ->
  exists c', retarget_list_links from to (last p) (head s) op c = (Ok tt, c') /\
    slab c' = redirected to p s (slab c) /\ list_tail c' = head (p ++ to :: s) /\ list_head c' = last (p ++ to :: s) /\
    (forall h, hand c' = Some h -> h ∈ p ++ to :: s) /\
    capacity c' = capacity c /\ cmap c' = cmap c /\ free c' = free c /\ dirty c' = dirty c /\ evictable c' = evictable c /\
    fault c' = fault c.
Proof.
  intros [[Hnd Hon Honly] Ht Hh Hha]. destruct (NoDup_sides _ _ _ Hnd) as (Hp & Hs & Hip & His & Hps).
  unfold retarget_list_links.
  match goal with |- context [cbind ?m _ c] => assert (exists c1, m c = (Ok tt, c1) /\ slab c1 = relink_next (Some to) p (slab c) /\
    list_tail c1 = head (p ++ to :: s) /\ list_head c1 = list_head c /\ hand c1 = hand c /\ capacity c1 = capacity c /\
    cmap c1 = cmap c /\ free c1 = free c /\ dirty c1 = dirty c /\ evictable c1 = evictable c /\ fault c1 = fault c)
    as (c1 & Hr1 & Hs1 & Ht1 & Hh1 & Hha1 & Hrest1) end.
  { destruct p as [|a p _] using rev_ind.
    - change (last []) with (@None nat). cbv iota. crun. rewrite Ht. rewrite bool_decide_true by done. by eexists.
    - rewrite last_snoc. destruct (Hon p a (from :: s)) as (n & Ha & _ & _ & Hn); [by rewrite <-app_assoc|].
      rewrite (cbind_node _ _ _ _ _ Ha), bool_decide_true by done. eexists. split; [done|].
      unfold relink_next. rewrite last_snoc, Ha. split; [done|]. simpl. split; [|done]. rewrite Ht. by destruct p. }
  rewrite (cbind_ok _ _ _ _ _ Hr1). destruct Hrest1 as (E2 & E3 & E4 & E5 & E6 & E7).
  match goal with |- context [cbind ?m _ c1] => assert (exists c2, m c1 = (Ok tt, c2) /\ slab c2 = relink_prev (Some to) s (slab c1) /\
    list_head c2 = last (p ++ to :: s) /\ list_tail c2 = list_tail c1 /\ hand c2 = hand c1 /\ capacity c2 = capacity c1 /\
    cmap c2 = cmap c1 /\ free c2 = free c1 /\ dirty c2 = dirty c1 /\ evictable c2 = evictable c1 /\ fault c2 = fault c1)
    as (c2 & Hr2 & Hs2 & Hh2 & Ht2 & Hha2 & Hrest2) end.
  { destruct s as [|b s].
    - change (head []) with (@None nat). cbv iota. crun. rewrite Hh1, Hh, last_snoc, bool_decide_true by done. eexists. split; [done|].
      split; [by unfold relink_prev|]. split; [|done]. by rewrite last_snoc.
    - change (head (b :: s)) with (Some b). cbv iota.
      destruct (Hon (p ++ [from]) b s) as (n & Hb & _ & Hpr & _); [by rewrite <-app_assoc|]. rewrite last_snoc in Hpr.
      assert (slab c1 !! b = Some (Some n)) as Hb1.
      { rewrite Hs1, relink_next_other; [done|]. intros Hbp. apply (Hps b Hbp). by left. }
      rewrite (cbind_node _ _ _ _ _ Hb1), bool_decide_true by done. eexists. split; [done|]. unfold relink_prev.
      change (head (b :: s)) with (Some b). cbv iota. rewrite Hb1. split; [done|]. split; [|done].
      simpl. rewrite Hh1, Hh, !last_app, !last_cons_cons. done. }
  rewrite (cbind_ok _ _ _ _ _ Hr2). destruct Hrest2 as (F2 & F3 & F4 & F5 & F6 & F7). unfold redirected. rewrite <-Hs1, <-Hs2.
  eexists. split; [done|]. rewrite Hha2, Hha1. split; [by case_bool_decide|].
  split; [case_bool_decide; simpl; congruence|]. split; [case_bool_decide; simpl; congruence|].
  split; [|case_bool_decide; simpl; split_and!; congruence].
  intros h. case_bool_decide as Hhd; simpl; [intros [= <-]; apply elem_of_app; right; by left|].
  rewrite Hha2, Hha1. intros Hin. pose proof (Hha h Hin) as Hq.
  apply elem_of_app in Hq as [?|[->|?]%elem_of_cons]; apply elem_of_app; [by left|done|by right; right].
Qed.

Lemma redirected_cores to p s sl : cores (redirected to p s sl) = cores sl.
Proof. unfold redirected. by rewrite relink_prev_cores, relink_next_cores. Qed.
Lemma redirected_other to p s sl j : ~ (j ∈ p) -> ~ (j ∈ s) -> redirected to p s sl !! j = sl !! j.
Proof. intros. unfold redirected. by rewrite relink_prev_other, relink_next_other. Qed.
Lemma redirected_linked to p s sl j n :
  redirected to p s sl !! j = Some (Some n) -> exists n0, sl !! j = Some (Some n0) /\ linked n0 = linked n.
Proof.
  intros (n1 & (n0 & ? & ? & _)%relink_next_linked & ? & _)%relink_prev_linked. exists n0. split; congruence.
Qed.

Lemma chained_move sl p from s to n :
  chained sl (p ++ from :: s) -> sl !! from = Some (Some n) -> sl !! to = Some None ->
  chained (<[to := Some n]> (<[from := None]> (redirected to p s sl))) (p ++ to :: s).
Proof.
  intros Hch Hfr Hto. pose proof Hch as [Hnd Hon Honly]. destruct (NoDup_sides _ _ _ Hnd) as (Hp & Hs & Hip & His & Hps).
  assert (~ (to ∈ p ++ from :: s)) as Htq by (intros (m & ? & _)%(chained_in _ _ _ Hch); congruence).
  assert (~ (to ∈ p)) as Htp by (intros ?; apply Htq, elem_of_app; by left).
  assert (~ (to ∈ s)) as Hts by (intros ?; apply Htq, elem_of_app; right; by right).
  assert (from <> to) as Hne by congruence.
  set (sl' := <[to := _]> _).
  assert (forall j, j <> from -> j <> to -> sl' !! j = redirected to p s sl !! j) as Hsame.
  { intros j ??. unfold sl'. by rewrite !list_lookup_insert_ne. }
  constructor.
  - apply NoDup_app. split; [done|]. split.
    + intros j Hj [->|?]%elem_of_cons; [done|]. by apply (Hps j).
    + by apply NoDup_cons.
  - assert (front sl' p (to :: s)) as Hf.
    { apply (front_frame (relink_next (head (to :: s)) p sl)).
      - intros j Hj. rewrite Hsame by (intros ->; done). apply relink_prev_other. by apply Hps.
      - apply (front_relink _ _ (from :: s)); [done|]. by apply front_of. }
    assert (back sl' (p ++ [to]) s) as Hb.
    { apply (back_frame (relink_prev (last (p ++ [to])) s (relink_next (Some to) p sl))).
      - intros j Hj. rewrite Hsame by (intros ->; done). by rewrite last_snoc.
      - apply (back_relink _ (p ++ [from])); [done|]. apply (back_frame sl); [|apply back_of; by rewrite <-app_assoc].
        intros j Hj. apply relink_next_other. intros Hjp. by apply (Hps j). }
    apply front_back; [done|]. intros s1 j s2 Hs1. destruct s1 as [|x s1]; injection Hs1 as <- ->.
    + destruct (Hon p from s2 eq_refl) as (n0 & Hn0 & ? & ? & ?). assert (n0 = n) as -> by congruence. exists n.
      unfold sl'. rewrite list_lookup_insert_eq, app_nil_r; [done|]. rewrite length_insert, <-(length_fmap (fmap (M := option) core)).
      change (fmap _ <$> _) with (cores (redirected to p s2 sl)). rewrite redirected_cores. unfold cores. rewrite length_fmap.
      by eapply lookup_lt_Some.
    + replace (p ++ to :: s1) with ((p ++ [to]) ++ s1) by (by rewrite <-app_assoc). by apply Hb.
  - intros j m Hj Hl. destruct (decide (j = to)) as [->|Hjt]; [apply elem_of_app; right; by left|].
    destruct (decide (j = from)) as [->|Hjf].
    + unfold sl' in Hj. rewrite list_lookup_insert_ne in Hj by done. apply list_lookup_insert_Some in Hj. naive_solver.
    + rewrite Hsame in Hj by done. destruct (redirected_linked _ _ _ _ _ _ Hj) as (m0 & Hj0 & Hl0).
      pose proof (Honly j m0 Hj0 ltac:(congruence)) as Hq.
      apply elem_of_app in Hq as [?|[->|?]%elem_of_cons]; apply elem_of_app; [by left|done|by right; right].
Qed.
