(* ===== verification/PageCacheInv.v ===== *)
(** * PageCacheInv: the invariant of the page cache

    The map, the slab, the free slots, the list, the dirty set and the count of
    evictable entries agree. Every operation keeps this, so no operation ever
    reports a fault. *)

From S2P Require Import Prelude Keys Errors PageFormat PageCache PageCacheList.
From Stdlib Require Import ZArith Lia.
From stdpp Require Import base list strings gmap sorting.

Local Open Scope Z_scope.
Local Open Scope pagedb_scope.

(** ** The map and the slab *)

Abbreviation slots := (list (option (Key * Page * Z))).

Definition mapped (m : gmap Key nat) (cs : slots) : Prop :=
  forall k i, m !! k = Some i <-> exists pg p, cs !! i = Some (Some (k, pg, p)).
Definition freed (cs : slots) (fr : list nat) : Prop :=
  NoDup fr /\ forall i, i ∈ fr <-> cs !! i = Some None.

(** The pages in the cache with their pin counts. *)
Definition entries_of (m : gmap Key nat) (cs : slots) : gmap Key (Page * Z) :=
  omap (fun i => match cs !! i with Some (Some (_, pg, p)) => Some (pg, p) | _ => None end) m.
Definition entries (c : PageCache) : gmap Key (Page * Z) := entries_of (cmap c) (cores (slab c)).

Section mapped.
Context (m : gmap Key nat) (cs : slots) (Hm : mapped m cs).

Lemma entries_Some k pg p :
  entries_of m cs !! k = Some (pg, p) <-> exists i, m !! k = Some i /\ cs !! i = Some (Some (k, pg, p)).
Proof.
  unfold entries_of. rewrite lookup_omap. split.
  - destruct (m !! k) as [i|] eqn:Hk; [|done]. simpl. pose proof Hk as (pg' & p' & Hc)%Hm. rewrite Hc.
    intros [= <- <-]. by exists i.
  - intros (i & -> & Hc). simpl. by rewrite Hc.
Qed.
Lemma entries_None k : entries_of m cs !! k = None <-> m !! k = None.
Proof.
  destruct (m !! k) as [i|] eqn:Hk.
  - pose proof Hk as (pg & p & Hc)%Hm. split; [|done]. intros Hn.
    assert (entries_of m cs !! k = Some (pg, p)) by (apply entries_Some; by exists i). congruence.
  - split; [done|]. intros _. unfold entries_of. by rewrite lookup_omap, Hk.
Qed.
Lemma entries_dom : dom (entries_of m cs) = dom m.
Proof.
  apply set_eq. intros k. rewrite !elem_of_dom, <-!not_eq_None_Some. by rewrite entries_None.
Qed.
Lemma entries_size : size (entries_of m cs) = size m.
Proof. by rewrite <-!size_dom, entries_dom. Qed.
Lemma mapped_inj k k' i : m !! k = Some i -> m !! k' = Some i -> k = k'.
Proof. intros (pg & p & Hc)%Hm (pg' & p' & Hc')%Hm. congruence. Qed.

(** Two caches hold the same pages if they map the same keys to the same contents. *)
Lemma entries_eq m' cs' E :
  mapped m' cs' ->
  (forall k pg p, E !! k = Some (pg, p) <-> exists i, m' !! k = Some i /\ cs' !! i = Some (Some (k, pg, p))) ->
  entries_of m' cs' = E.
Proof using.
  clear m cs Hm. intros Hm HE. apply map_eq. intros k. apply option_eq. intros [pg p].
  rewrite HE. unfold entries_of. rewrite lookup_omap. split.
  - destruct (m' !! k) as [i|] eqn:Hk; [|done]. simpl. pose proof Hk as (pg' & p' & Hc)%Hm. rewrite Hc.
    intros [= <- <-]. by exists i.
  - intros (i & -> & Hc). simpl. by rewrite Hc.
Qed.

Lemma mapped_remove k i :
  m !! k = Some i -> mapped (delete k m) (<[i := None]> cs) /\
  entries_of (delete k m) (<[i := None]> cs) = delete k (entries_of m cs).
Proof.
  intros Hk. pose proof Hk as (pg0 & p0 & Hc0)%Hm.
  assert (forall k' j pg p, (<[i := None]> cs) !! j = Some (Some (k', pg, p)) <->
    k' <> k /\ cs !! j = Some (Some (k', pg, p))) as Hl.
  { intros k' j pg p. destruct (decide (i = j)) as [<-|Hne].
    - rewrite list_lookup_insert_eq by (by eapply lookup_lt_Some). split; [done|]. intros [? ?]. congruence.
    - rewrite list_lookup_insert_ne by done. split; [|naive_solver]. intros Hj. split; [|done]. intros ->.
      assert (m !! k = Some j) by (apply Hm; eauto). congruence. }
  assert (mapped (delete k m) (<[i := None]> cs)) as Hm'.
  { intros k' j. rewrite lookup_delete_Some, (Hm k' j). setoid_rewrite Hl. naive_solver. }
  split; [done|]. apply entries_eq; [done|]. intros k' pg p. rewrite lookup_delete_Some, entries_Some.
  setoid_rewrite lookup_delete_Some. setoid_rewrite Hl. naive_solver.
Qed.

Lemma mapped_update k i pg p :
  m !! k = Some i -> mapped m (<[i := Some (k, pg, p)]> cs) /\
  entries_of m (<[i := Some (k, pg, p)]> cs) = <[k := (pg, p)]> (entries_of m cs).
Proof.
  intros Hk. pose proof Hk as (pg0 & p0 & Hc0)%Hm.
  assert (forall k' j pg' p', (<[i := Some (k, pg, p)]> cs) !! j = Some (Some (k', pg', p')) <->
    (j = i /\ k' = k /\ pg' = pg /\ p' = p) \/ (j <> i /\ cs !! j = Some (Some (k', pg', p')))) as Hl.
  { intros k' j pg' p'. destruct (decide (i = j)) as [<-|Hne].
    - rewrite list_lookup_insert_eq by (by eapply lookup_lt_Some). naive_solver.
    - rewrite list_lookup_insert_ne by done. naive_solver. }
  assert (mapped m (<[i := Some (k, pg, p)]> cs)) as Hm'.
  { intros k' j. rewrite (Hm k' j). setoid_rewrite Hl. split.
    - intros (pg' & p' & Hj). destruct (decide (j = i)) as [->|Hne]; [|by eauto].
      assert (k' = k) as -> by congruence. eauto 10.
    - intros (pg' & p' & [(-> & -> & -> & ->)|[_ ?]]); eauto. }
  split; [done|]. apply entries_eq; [done|]. intros k' pg' p'. rewrite lookup_insert_Some, entries_Some.
  setoid_rewrite Hl. split.
  - intros [[<- [= <- <-]]|[Hne (j & Hj & Hcj)]]; [by eauto 10|]. exists j. split; [done|]. right. split; [|done].
    intros ->. congruence.
  - intros (j & Hj & [(-> & -> & -> & ->)|[Hne Hcj]]); [by left|]. right. split; [|by eauto]. intros <-. congruence.
Qed.

(** A new entry in a free slot, or in a slot added at the end. *)
Lemma mapped_add k i pg p cs' :
  m !! k = None -> (cs' = <[i := Some (k, pg, p)]> cs /\ cs !! i = Some None \/ cs' = cs ++ [Some (k, pg, p)] /\ i = length cs) ->
  mapped (<[k := i]> m) cs' /\ entries_of (<[k := i]> m) cs' = <[k := (pg, p)]> (entries_of m cs).
Proof.
  intros Hk Hcs.
  assert (forall k' j pg' p', cs' !! j = Some (Some (k', pg', p')) <->
    (j = i /\ k' = k /\ pg' = pg /\ p' = p) \/ (j <> i /\ cs !! j = Some (Some (k', pg', p')))) as Hl.
  { intros k' j pg' p'. destruct Hcs as [[-> Hi]|[-> ->]].
    - destruct (decide (i = j)) as [<-|Hne].
      + rewrite list_lookup_insert_eq by (by eapply lookup_lt_Some). naive_solver.
      + rewrite list_lookup_insert_ne by done. naive_solver.
    - destruct (decide (j = length cs)) as [->|Hne].
      + rewrite lookup_app_r, Nat.sub_diag by lia. simpl. naive_solver.
      + rewrite lookup_app_Some. split.
        * intros [?|[Hge Hj]]; [by right|]. destruct (j - length cs)%nat eqn:E; [lia|done].
        * intros [[? _]|[_ ?]]; [done|by left]. }
  assert (forall k' j pg' p', cs !! j = Some (Some (k', pg', p')) -> j <> i /\ k' <> k) as Hold.
  { intros k' j pg' p' Hj. split.
    - intros ->. destruct Hcs as [[_ Hi]|[_ ->]]; [congruence|]. apply lookup_lt_Some in Hj. lia.
    - intros ->. assert (m !! k = Some j) by (apply Hm; eauto). congruence. }
  assert (mapped (<[k := i]> m) cs') as Hm'.
  { intros k' j. rewrite lookup_insert_Some, (Hm k' j). setoid_rewrite Hl. naive_solver. }
  split; [done|]. apply entries_eq; [done|]. intros k' pg' p'. rewrite lookup_insert_Some, entries_Some.
  setoid_rewrite lookup_insert_Some. setoid_rewrite Hl. naive_solver.
Qed.

Lemma mapped_move k pg p from to :
  cs !! from = Some (Some (k, pg, p)) -> cs !! to = Some None ->
  mapped (<[k := to]> m) (<[to := Some (k, pg, p)]> (<[from := None]> cs)) /\
  entries_of (<[k := to]> m) (<[to := Some (k, pg, p)]> (<[from := None]> cs)) = entries_of m cs.
Proof.
  intros Hfr Hto. assert (from <> to) as Hne by congruence. assert (m !! k = Some from) as Hk by (apply Hm; eauto).
  assert (forall k' j pg' p', (<[to := Some (k, pg, p)]> (<[from := None]> cs)) !! j = Some (Some (k', pg', p')) <->
    (j = to /\ k' = k /\ pg' = pg /\ p' = p) \/ (j <> to /\ k' <> k /\ cs !! j = Some (Some (k', pg', p')))) as Hl.
  { intros k' j pg' p'. pose proof (lookup_lt_Some _ _ _ Hto). destruct (decide (to = j)) as [<-|Hjt].
    - rewrite list_lookup_insert_eq by (by rewrite length_insert). naive_solver.
    - rewrite list_lookup_insert_ne by done. destruct (decide (from = j)) as [<-|Hjf].
      + rewrite list_lookup_insert_eq by (by eapply lookup_lt_Some). naive_solver.
      + rewrite list_lookup_insert_ne by done. split; [|naive_solver]. intros Hj. right. split; [done|]. split; [|done].
        intros ->. assert (m !! k = Some j) by (apply Hm; eauto). congruence. }
  assert (forall k' j pg' p', cs !! j = Some (Some (k', pg', p')) -> j <> to) as Hold by (intros; congruence).
  assert (mapped (<[k := to]> m) (<[to := Some (k, pg, p)]> (<[from := None]> cs))) as Hm'.
  { intros k' j. rewrite lookup_insert_Some, (Hm k' j). setoid_rewrite Hl. naive_solver. }
  split; [done|]. apply entries_eq; [done|]. intros k' pg' p'. rewrite entries_Some.
  setoid_rewrite lookup_insert_Some. setoid_rewrite Hl. split.
  - intros (j & Hj & Hcj). destruct (decide (k' = k)) as [->|Hkk].
    + assert (j = from) as -> by congruence. assert (pg' = pg /\ p' = p) as [-> ->] by (split; congruence). eauto 10.
    + exists j. split; [by right|]. right. split; [by eapply Hold|done].
  - intros (j & Hj & [(-> & -> & -> & ->)|(Hjt & Hkk & Hcj)]); [by exists from|]. exists j. split; [|done]. apply Hm. eauto.
Qed.
End mapped.

(** ** Counting the evictable entries *)

Definition candidate (d : gset Key) (e : Key * (Page * Z)) : Prop := e.2.2 = 0 /\ e.1 ∉ d.
#[global] Instance candidate_dec d e : Decision (candidate d e).
Proof. apply _. Defined.

Definition count (d : gset Key) (E : gmap Key (Page * Z)) : nat := size (filter (candidate d) E).

Lemma count_split d E k e :
  E !! k = Some e ->
  count d E = (count d (delete k E) + if bool_decide (candidate d (k, e)) then 1 else 0)%nat.
Proof.
  intros Hk. unfold count. rewrite map_filter_delete. case_bool_decide as Hc.
  - assert (filter (candidate d) E !! k = Some e) as Hf by (by apply map_lookup_filter_Some).
    rewrite map_size_delete_Some by eauto. assert (size (filter (candidate d) E) <> 0%nat); [|lia].
    intros Hz%map_size_empty_inv. by rewrite Hz in Hf.
  - rewrite map_size_delete_None; [lia|]. apply map_lookup_filter_None. right. intros e' He'. by simplify_eq.
Qed.
Lemma count_add d E k e :
  E !! k = None -> count d (<[k := e]> E) = (count d E + if bool_decide (candidate d (k, e)) then 1 else 0)%nat.
Proof.
  intros Hk. rewrite (count_split d (<[k := e]> E) k e) by (by rewrite lookup_insert_eq).
  by rewrite delete_insert_id.
Qed.
Lemma count_ext d d' E : (forall k, k ∈ dom E -> k ∈ d <-> k ∈ d') -> count d E = count d' E.
Proof.
  intros Hd. unfold count. f_equal. apply map_filter_ext. intros k e He. unfold candidate. simpl.
  apply elem_of_dom_2 in He. naive_solver.
Qed.
Lemma count_pos d E : (0 < count d E)%nat -> exists k pg, E !! k = Some (pg, 0) /\ k ∉ d.
Proof.
  unfold count. intros Hp. destruct (map_choose (filter (candidate d) E)) as (k & [pg p] & Hk).
  { intros He. rewrite He, map_size_empty in Hp. lia. }
  apply map_lookup_filter_Some in Hk as [Hk [Hc1 Hc2]]. simpl in *. subst p. by exists k, pg.
Qed.
Lemma count_le d E : (count d E <= size E)%nat.
Proof. apply map_subseteq_size, map_filter_subseteq. Qed.

(** ** The invariant *)

Definition SLAB_MAX : Z := 2 ^ 62.

Record inv (c : PageCache) (q : list nat) : Prop := mkInv {
  inv_listed : listed c q;
  inv_mapped : mapped (cmap c) (cores (slab c));
  inv_freed : freed (cores (slab c)) (free c);
  inv_dirty : dirty c ⊆ dom (cmap c);
  inv_clean : forall k i, cmap c !! k = Some i -> (i ∈ q <-> k ∉ dirty c);
  inv_count : evictable c = Z.of_nat (count (dirty c) (entries c));
  inv_pins : forall k pg p, entries c !! k = Some (pg, p) -> 0 <= p <= U32_MAX;
  inv_cap : 1 <= capacity c;
  inv_room : Z.of_nat (length (slab c)) <= SLAB_MAX;
  inv_fault : fault c = None;
}.

Lemma cores_length sl : length (cores sl) = length sl.
Proof. apply length_fmap. Qed.

(** The number of entries is bounded by the slab. *)
Lemma mapped_values m cs : mapped m cs -> NoDup (map_to_list m).*2.
Proof.
  intros Hm. apply NoDup_fmap_2_strong; [|apply NoDup_map_to_list].
  intros [k i] [k' i'] Hk%elem_of_map_to_list Hk'%elem_of_map_to_list. simpl. intros ->. f_equal. by eapply mapped_inj.
Qed.
Lemma mapped_bound m cs : mapped m cs -> (size m <= length cs)%nat.
Proof.
  intros Hm. rewrite <-(length_map_to_list m), <-(length_fmap snd), <-(length_seq (length cs) 0).
  apply submseteq_length, NoDup_submseteq; [by eapply mapped_values|].
  intros i ([k j] & -> & Hk%elem_of_map_to_list)%list_elem_of_fmap. apply Hm in Hk as (pg & p & Hc).
  apply elem_of_seq. apply lookup_lt_Some in Hc. simpl. lia.
Qed.

Section inv.
Context (c : PageCache) (q : list nat) (Hinv : inv c q).

Lemma inv_node k i : cmap c !! k = Some i -> exists n, slab c !! i = Some (Some n) /\ node_key n = k /\
  entries c !! k = Some (node_page n, pins n) /\ cores (slab c) !! i = Some (Some (k, node_page n, pins n)).
Proof.
  intros Hk. pose proof Hk as (pg & p & Hc)%(inv_mapped _ _ Hinv). pose proof Hc as (n & Hi & Hn)%cores_node.
  unfold core in Hn. injection Hn as Hkey <- <-. exists n. split; [done|]. split; [done|]. split; [|done].
  apply entries_Some; [apply Hinv|]. by exists i.
Qed.
Lemma inv_slot i n : slab c !! i = Some (Some n) -> cmap c !! node_key n = Some i.
Proof. intros Hi. apply (inv_mapped _ _ Hinv). apply cores_lookup in Hi. unfold core in Hi. eauto. Qed.
Lemma inv_entry k pg p : entries c !! k = Some (pg, p) -> exists i n, cmap c !! k = Some i /\
  slab c !! i = Some (Some n) /\ node_key n = k /\ node_page n = pg /\ pins n = p.
Proof.
  intros (i & Hk & Hc)%entries_Some; [|apply Hinv]. destruct (inv_node _ _ Hk) as (n & Hi & Hkey & _ & Hc').
  exists i, n. split_and!; congruence.
Qed.
Lemma inv_len : cache_len c = Z.of_nat (size (entries c)).
Proof. unfold cache_len, entries. by rewrite entries_size by apply Hinv. Qed.
Lemma inv_len_room : cache_len c <= SLAB_MAX.
Proof.
  unfold cache_len. pose proof (mapped_bound _ _ (inv_mapped _ _ Hinv)) as Hb. rewrite cores_length in Hb.
  pose proof (inv_room _ _ Hinv). lia.
Qed.
Lemma inv_evictable_le : 0 <= evictable c <= cache_len c.
Proof. rewrite (inv_count _ _ Hinv), inv_len. pose proof (count_le (dirty c) (entries c)). lia. Qed.

Lemma is_evictable_candidate i n :
  slab c !! i = Some (Some n) ->
  is_evictable n (dirty c) = bool_decide (candidate (dirty c) (node_key n, (node_page n, pins n))).
Proof.
  intros Hi. unfold is_evictable, candidate. simpl. apply eq_true_iff_eq.
  rewrite andb_true_iff, negb_true_iff, bool_decide_eq_false, bool_decide_eq_true, Z.eqb_eq. done.
Qed.

(** The list holds the clean entries. *)
Lemma inv_list_len : length q = (size (cmap c) - size (dirty c))%nat.
Proof.
  set (F := filter (fun e : Key * nat => e.1 ∉ dirty c) (cmap c)).
  assert (mapped (cmap c) (cores (slab c))) as Hm by apply Hinv.
  assert (forall i, i ∈ q <-> exists k, F !! k = Some i) as HF.
  { intros i. unfold F. setoid_rewrite map_lookup_filter_Some. simpl. split.
    - intros Hi. destruct (chained_in _ _ _ (li_chained _ _ (inv_listed _ _ Hinv)) Hi) as (n & Hn & _).
      exists (node_key n). pose proof (inv_slot _ _ Hn) as Hk. split; [done|]. by apply (inv_clean _ _ Hinv _ _ Hk).
    - intros (k & Hk & Hd). by apply (inv_clean _ _ Hinv _ _ Hk). }
  assert (q ≡ₚ (map_to_list F).*2) as ->.
  { apply NoDup_Permutation.
    - apply (li_chained _ _ (inv_listed _ _ Hinv)).
    - apply NoDup_fmap_2_strong; [|apply NoDup_map_to_list]. intros [k i] [k' i'] Hk Hk'. simpl. intros ->.
      apply elem_of_map_to_list, map_lookup_filter_Some in Hk as [Hk _], Hk' as [Hk' _]. f_equal.
      exact (mapped_inj _ _ Hm _ _ _ Hk Hk').
    - intros i. rewrite HF, list_elem_of_fmap. setoid_rewrite <-elem_of_map_to_list. split.
      + intros (k & Hk). by exists (k, i).
      + intros ([k j] & -> & Hk). by exists k. }
  rewrite length_fmap, length_map_to_list, <-!size_dom.
  assert (dom F = dom (cmap c) ∖ dirty c) as ->.
  { apply set_eq. intros k. rewrite elem_of_difference, !elem_of_dom. unfold F, is_Some. setoid_rewrite map_lookup_filter_Some.
    simpl. naive_solver. }
  by apply size_difference, Hinv.
Qed.
End inv.
