(* ===== verification/PageCacheEvict.v ===== *)
(** * PageCacheEvict: the SIEVE hand finds a victim

    While an entry is clean and unpinned the walk of the hand evicts one within
    two passes over the list and two wraps, the bound the code allows it, and the
    trims built on it end with the cache in budget. *)

From S2P Require Import Prelude Keys Errors PageFormat PageCache PageCacheList PageCacheInv.
From Stdlib Require Import ZArith Lia.
From stdpp Require Import base list strings gmap sorting.

Local Open Scope Z_scope.
Local Open Scope pagedb_scope.

(** What eviction may do: some clean unpinned entries leave, nothing else changes. *)
Record trimmed (c c' : PageCache) : Prop := mkTrimmed {
  tr_sub : entries c' ⊆ entries c;
  tr_keep : forall k pg p, entries c !! k = Some (pg, p) -> p <> 0 \/ k ∈ dirty c -> entries c' !! k = Some (pg, p);
  tr_slots : cmap c' ⊆ cmap c;
  tr_dirty : dirty c' = dirty c;
  tr_cap : capacity c' = capacity c;
  tr_slab : length (slab c') = length (slab c);
}.

Lemma trimmed_refl c : trimmed c c.
Proof. by constructor. Qed.
Lemma trimmed_trans c1 c2 c3 : trimmed c1 c2 -> trimmed c2 c3 -> trimmed c1 c3.
Proof.
  intros [A1 A2 A3 A4 A5 A6] [B1 B2 B3 B4 B5 B6]. constructor; try congruence; try by etrans.
  intros k pg p Hk Hp. apply B2; [by apply A2|]. by rewrite A4.
Qed.

Lemma freed_add cs fr i x : freed cs fr -> cs !! i = Some (Some x) -> freed (<[i := None]> cs) (fr ++ [i]).
Proof.
  intros [Hnd Hf] Hi. split.
  - apply NoDup_app. split; [done|]. split; [|repeat constructor; by intros ?%not_elem_of_nil].
    intros j Hj%Hf ->%list_elem_of_singleton. congruence.
  - intros j. rewrite elem_of_app, list_elem_of_singleton, Hf. destruct (decide (i = j)) as [<-|Hne].
    + rewrite list_lookup_insert_eq by (by eapply lookup_lt_Some). naive_solver.
    + rewrite list_lookup_insert_ne by done. naive_solver.
Qed.

Lemma take_evictable_ok op c : 0 < evictable c -> take_evictable op c = (Ok tt, set_evictable (evictable c - 1) c).
Proof.
  intros He. unfold take_evictable, one_less, checked_sub. crun. by rewrite (proj2 (Z.leb_le _ _)) by lia.
Qed.

Lemma elem_of_skip {A} (p s : list A) i j : j <> i -> j ∈ p ++ s <-> j ∈ p ++ i :: s.
Proof. intros Hne. rewrite !elem_of_app, elem_of_cons. naive_solver. Qed.

Lemma free_node_ok i op c n :
  slab c !! i = Some (Some n) ->
  free_node i op c = (Ok tt, set_free (free c ++ [i]) (set_slab (<[i := None]> (slab c)) c)).
Proof. intros Hi. unfold free_node. by rewrite (cbind_node _ _ _ _ _ Hi). Qed.

(** ** Evicting the node under the hand *)

Lemma evict_node_ok c p i s n op :
  inv c (p ++ i :: s) -> slab c !! i = Some (Some n) -> is_evictable n (dirty c) = true ->
  exists c', (with! _ := unlink_node (prev n) (next n) op in
      with! _ := cmodify (set_hand (next n)) in
      with! _ := cmodify (fun c => set_cmap (delete (node_key n) (cmap c)) c) in
      with! _ := free_node i op in
      take_evictable op) c = (Ok tt, c') /\
    inv c' (p ++ s) /\ trimmed c c' /\ evictable c' = evictable c - 1 /\ cache_len c' = cache_len c - 1.
Proof.
  intros Hinv Hi Hev. pose proof Hinv as [[Hch Ht Hh Hha] Hm Hfr Hd Hcl Hct Hpi Hcap Hroom Hfa].
  destruct (ch_on _ _ Hch p i s eq_refl) as (n0 & Hi0 & _ & Hp & Hn). assert (n0 = n) as -> by congruence. rewrite Hp, Hn.
  destruct (chained_remove _ _ _ _ None Hch) as (Hch' & _); [done|].
  destruct (NoDup_sides _ _ _ (ch_nodup _ _ Hch)) as (_ & _ & Hip & His & _).
  destruct (unlink_node_ok c p i s op) as (c1 & Hrun & Hs1 & Ht1 & Hh1 & Hha1 & E1 & E2 & E3 & E4 & E5 & E6); try done.
  { apply front_of, Hch. } { apply back_of. rewrite <-app_assoc. apply Hch. } { apply Hch. }
  rewrite (cbind_ok _ _ _ _ _ Hrun). crun. set (k := node_key n).
  pose proof (inv_slot _ _ Hinv _ _ Hi) as Hk. fold k in Hk.
  destruct (inv_node _ _ Hinv _ _ Hk) as (n1 & Hi1 & _ & Hent & Hcore). assert (n1 = n) as -> by congruence.
  rewrite (is_evictable_candidate _ i n Hi) in Hev. apply bool_decide_eq_true in Hev. fold k in Hev.
  destruct (mapped_remove _ _ Hm _ _ Hk) as [Hm' He'].
  pose proof (count_split (dirty c) _ _ _ Hent) as Hcnt. rewrite bool_decide_true in Hcnt by done.
  assert (bridged p s (slab c) !! i = Some (Some n)) as Hib by (by rewrite bridged_other).
  assert (cores (<[i := None]> (bridged p s (slab c))) = <[i := None]> (cores (slab c))) as Hco
    by (by rewrite cores_insert, bridged_cores).
  set (c2 := set_cmap _ _).
  assert (slab c2 !! i = Some (Some n)) as Hi2 by (simpl; by rewrite Hs1).
  rewrite (cbind_ok _ _ _ _ _ (free_node_ok _ _ _ _ Hi2)). rewrite take_evictable_ok by (simpl; rewrite E5, Hct, Hcnt; lia).
  eexists. split; [reflexivity|]. destruct Hev as [Hev0 Hevd]. simpl in Hev0, Hevd.
  assert (entries (set_evictable (evictable c - 1) (set_free (free c ++ [i]) (set_slab (<[i := None]> (bridged p s (slab c)))
    (set_cmap (delete k (cmap c)) c)))) = delete k (entries c)) as HE by (unfold entries; simpl; by rewrite Hco).
  assert (length (<[i := None]> (bridged p s (slab c))) = length (slab c)) as Hlen.
  { by rewrite <-(cores_length (<[i := None]> _)), Hco, length_insert, cores_length. }
  split; [constructor; simpl|].
  - constructor; simpl; [by rewrite Hs1|done|done|]. intros h Hhd. apply elem_of_app. right. by apply head_in.
  - by rewrite E2, Hs1, Hco.
  - rewrite Hs1, Hco, E3. by eapply freed_add.
  - rewrite E4, E2, dom_delete_L. intros k' Hk'. apply elem_of_difference. split; [by apply Hd|].
    intros ->%elem_of_singleton. done.
  - intros k' j. rewrite E2, E4, lookup_delete_Some. intros [Hne Hj]. rewrite <-(Hcl _ _ Hj). apply elem_of_skip.
    intros ->. apply Hne. exact (mapped_inj _ _ Hm _ _ _ Hk Hj).
  - unfold entries in *. simpl in *. rewrite E5, E4, Hs1, E2, HE, Hct, Hcnt. lia.
  - unfold entries in *. simpl in *. rewrite E2, Hs1, HE. intros k' pg' p' [_ Hk']%lookup_delete_Some. by eapply Hpi.
  - by rewrite E1.
  - rewrite Hs1, Hlen. done.
  - by rewrite E6.
  - split; [|split; [simpl; by rewrite E5|]].
    + constructor; simpl; unfold entries in *; simpl in *; rewrite ?Hs1, ?E2, ?HE, ?E4, ?E1; try done.
      * apply delete_subseteq.
      * intros k' pg' p' Hk' Hpr. rewrite lookup_delete_ne; [done|]. intros <-.
        assert (p' = 0) by congruence. destruct Hpr; done.
      * apply delete_subseteq.
    + unfold cache_len. simpl. rewrite E2. rewrite map_size_delete_Some by (by exists i).
      assert (size (cmap c) <> 0%nat); [|lia]. intros Hz%map_size_empty_inv. by rewrite Hz in Hk.
Qed.

(** ** The walk *)

(** Setting a visited bit. *)
Definition aged (c c' : PageCache) : Prop :=
  cores (slab c') = cores (slab c) /\ list_tail c' = list_tail c /\ list_head c' = list_head c /\ hand c' = hand c /\
  capacity c' = capacity c /\ cmap c' = cmap c /\ free c' = free c /\ dirty c' = dirty c /\ evictable c' = evictable c /\
  fault c' = fault c.

Lemma aged_entries c c' : aged c c' -> entries c' = entries c.
Proof. intros (E1 & _ & _ & _ & _ & E2 & _). unfold entries. by rewrite E1, E2. Qed.

Lemma inv_aged c c' q : inv c q -> aged c c' -> chained (slab c') q -> inv c' q.
Proof.
  intros [[Hch Ht Hh Hha] Hm Hfr Hd Hcl Hct Hpi Hcap Hroom Hfa] Ha Hch'. pose proof (aged_entries _ _ Ha) as HE.
  destruct Ha as (E1 & E2 & E3 & E4 & E5 & E6 & E7 & E8 & E9 & E10).
  constructor; rewrite ?HE, ?E1, ?E5, ?E6, ?E7, ?E8, ?E9, ?E10; try done.
  - constructor; rewrite ?E2, ?E3, ?E4; done.
  - by rewrite <-cores_length, E1, cores_length.
Qed.

Lemma aged_trimmed c c' : aged c c' -> trimmed c c'.
Proof.
  intros Ha. pose proof (aged_entries _ _ Ha) as HE. destruct Ha as (E1 & _ & _ & _ & E5 & E6 & _ & E8 & _).
  constructor; rewrite ?HE, ?E5, ?E6, ?E8; try done. by rewrite <-cores_length, E1, cores_length.
Qed.

Lemma visit_ok c q i n b :
  inv c q -> slab c !! i = Some (Some n) ->
  let c' := set_slab (<[i := Some (set_visited b n)]> (slab c)) c in inv c' q /\ aged c c'.
Proof.
  intros Hinv Hi c'. assert (aged c c') as Ha.
  { unfold aged. simpl. split; [by eapply cores_same|done]. }
  split; [|done]. apply (inv_aged c); [done|done|]. eapply chained_put; [apply Hinv|done..].
Qed.

(** No candidate among the nodes [s] is unvisited. *)
Definition all_visited (c : PageCache) (s : list nat) (b : bool) : Prop :=
  forall i n, i ∈ s -> slab c !! i = Some (Some n) -> is_evictable n (dirty c) = true -> visited n = b.
(** Visited bits are only cleared. *)
Definition cleared (c c' : PageCache) : Prop :=
  forall i n', slab c' !! i = Some (Some n') ->
    exists n, slab c !! i = Some (Some n) /\ core n = core n' /\ (visited n' = true -> visited n = true).

Lemma cleared_refl c : cleared c c.
Proof. intros i n Hi. by exists n. Qed.
Lemma cleared_trans c1 c2 c3 : cleared c1 c2 -> cleared c2 c3 -> cleared c1 c3.
Proof.
  intros H1 H2 i n3 (n2 & (n1 & ? & ? & ?)%H1 & ? & ?)%H2. exists n1. split; [done|]. split; [congruence|]. auto.
Qed.
Lemma cleared_evictable c c' n n' : dirty c' = dirty c -> core n = core n' -> is_evictable n' (dirty c') = is_evictable n (dirty c).
Proof. intros -> [= E1 E2 E3]. unfold is_evictable. by rewrite E1, E3. Qed.
Lemma cleared_unvisited c c' s : dirty c' = dirty c -> cleared c c' -> all_visited c s false -> all_visited c' s false.
Proof.
  intros Hd Hc Ha i n' Hi Hn' He. destruct (Hc i n' Hn') as (n & Hn & Hco & Hv).
  destruct (visited n') eqn:E; [|done]. rewrite <-(Hv eq_refl). eapply Ha; [done..|].
  by rewrite <-(cleared_evictable _ _ _ _ Hd Hco).
Qed.
Lemma aged_trans c1 c2 c3 : aged c1 c2 -> aged c2 c3 -> aged c1 c3.
Proof. unfold aged. intuition congruence. Qed.

(** One entry is evicted. *)
Definition evicted (c : PageCache) (r : res CacheFault unit * PageCache) : Prop :=
  exists c', r = (Ok tt, c') /\ (exists q', inv c' q') /\ trimmed c c' /\ evictable c' = evictable c - 1 /\
    cache_len c' = cache_len c - 1.
(** The hand passed the nodes [s1] and goes on with [steps] steps at [s2]; their
    candidates were all visited and are not any more. *)
Definition passed (debug : bool) (steps : nat) (q s1 s2 : list nat) (c : PageCache)
    (r : res CacheFault unit * PageCache) : Prop :=
  exists c', r = evict_walk debug steps (head s2) c' /\ inv c' q /\ aged c c' /\ cleared c c' /\
    all_visited c s1 true /\ all_visited c' s1 false.

Lemma evicted_aged c c1 r : aged c c1 -> evicted c1 r -> evicted c r.
Proof.
  intros Ha (c' & Hr & Hq & Htr & He & Hl). exists c'. split; [done|]. split; [done|].
  split; [eapply trimmed_trans; [by apply aged_trimmed|done]|].
  destruct Ha as (_ & _ & _ & _ & _ & Em & _ & _ & Ee & _). unfold cache_len in *. by rewrite <-Ee, <-Em.
Qed.

Lemma passed_cons debug steps q i s1 s2 c c1 r :
  ~ (i ∈ s1) -> aged c c1 -> cleared c c1 -> all_visited c [i] true -> all_visited c1 [i] false ->
  (forall j, j <> i -> slab c1 !! j = slab c !! j) -> passed debug steps q s1 s2 c1 r -> passed debug steps q (i :: s1) s2 c r.
Proof.
  intros Hi1 Ha1 Hc1 Hv1 Hv1' Hother (c' & Hr & Hi' & Ha' & Hc' & Hv & Hv'). exists c'. split; [done|]. split; [done|].
  split; [by eapply aged_trans|]. split; [by eapply cleared_trans|]. split; intros j m Hj Hm He; apply elem_of_cons in Hj as [->|Hj].
  - eapply Hv1; [by left|done..].
  - assert (j <> i) by (by intros ->). eapply Hv; [done| |]; [by rewrite Hother|].
    by destruct Ha1 as (_ & _ & _ & _ & _ & _ & _ & -> & _).
  - eapply (cleared_unvisited c1 c' [i]); [|done|done|by left|done|done].
    by destruct Ha' as (_ & _ & _ & _ & _ & _ & _ & -> & _).
  - by eapply Hv'.
Qed.

(** Passing a visited candidate clears its bit. *)
Lemma visit_clears c q i n :
  inv c q -> slab c !! i = Some (Some n) -> visited n = true ->
  let c' := set_slab (<[i := Some (set_visited false n)]> (slab c)) c in
  inv c' q /\ aged c c' /\ cleared c c' /\ all_visited c [i] true /\ all_visited c' [i] false /\
  (forall j, j <> i -> slab c' !! j = slab c !! j).
Proof.
  intros Hinv Hi Hvis c'. destruct (visit_ok c _ i n false Hinv Hi) as [Hinv1 Ha1]. split; [done|]. split; [done|].
  pose proof (lookup_lt_Some _ _ _ Hi) as Hlt. split_and!.
  - intros j m. simpl. intros Hj. destruct (decide (i = j)) as [<-|Hne].
    + rewrite list_lookup_insert_eq in Hj by done. injection Hj as <-. by exists n.
    + rewrite list_lookup_insert_ne in Hj by done. by exists m.
  - intros j m ->%list_elem_of_singleton Hm _. congruence.
  - intros j m ->%list_elem_of_singleton Hm _. simpl in Hm. rewrite list_lookup_insert_eq in Hm by done. by injection Hm as <-.
  - intros j Hne. simpl. by rewrite list_lookup_insert_ne.
Qed.

(** A pass over the nodes [s1] evicts a candidate or gets behind them. *)
Lemma walk_pass debug : forall s1 s2 p c steps,
  inv c (p ++ s1 ++ s2) -> (length s1 <= steps)%nat ->
  let r := evict_walk debug steps (head (s1 ++ s2)) c in
  evicted c r \/ passed debug (steps - length s1) (p ++ s1 ++ s2) s1 s2 c r.
Proof.
  induction s1 as [|i s1 IH]; intros s2 p c steps Hinv Hle r.
  { right. exists c. rewrite Nat.sub_0_r. split; [done|]. split; [done|]. split; [by unfold aged|].
    split; [apply cleared_refl|]. split; by intros ? ? ?%not_elem_of_nil. }
  destruct steps as [|steps]; [simpl in Hle; lia|]. simpl in Hle. cbn [app] in *. unfold r. clear r.
  change (head (i :: s1 ++ s2)) with (Some i). pose proof (inv_listed _ _ Hinv) as [Hch _ _ _].
  destruct (ch_on _ _ Hch p i (s1 ++ s2) eq_refl) as (n & Hi & _ & _ & Hn).
  cbn [evict_walk]. rewrite (cbind_node _ _ _ _ _ Hi). crun. rewrite Hn.
  assert (node_key n ∉ dirty c) as Hnd.
  { apply (inv_clean _ _ Hinv _ _ (inv_slot _ _ Hinv _ _ Hi)). apply elem_of_app. right. by left. }
  assert (~ (i ∈ s1)) as Hi1.
  { destruct (NoDup_sides _ _ _ (ch_nodup _ _ Hch)) as (_ & _ & _ & Hx & _). intros ?. apply Hx, elem_of_app. by left. }
  rewrite (bool_decide_false (node_key n ∈ dirty c)), andb_false_r by done.
  assert (forall c1, inv c1 (p ++ i :: s1 ++ s2) -> aged c c1 -> cleared c c1 -> all_visited c [i] true -> all_visited c1 [i] false ->
    (forall j, j <> i -> slab c1 !! j = slab c !! j) -> let r := evict_walk debug steps (head (s1 ++ s2)) c1 in
    evicted c r \/ passed debug (S steps - length (i :: s1)) (p ++ i :: s1 ++ s2) (i :: s1) s2 c r) as Hgo.
  { intros c1 Hinv1 Ha1 Hc1 Hv1 Hv1' Hother r. replace (p ++ i :: s1 ++ s2) with ((p ++ [i]) ++ s1 ++ s2) in * by (by rewrite <-app_assoc).
    destruct (IH s2 (p ++ [i]) c1 steps Hinv1) as [He|Hp]; [lia| |].
    - left. by eapply evicted_aged.
    - right. by eapply passed_cons. }
  destruct (is_evictable n (dirty c)) eqn:Hev; cbn [negb].
  - destruct (visited n) eqn:Hvis.
    + rewrite cbind_put. destruct (visit_clears c _ i n Hinv Hi Hvis) as (? & ? & ? & ? & ? & ?). by apply Hgo.
    + left. rewrite <-Hn. destruct (evict_node_ok c p i (s1 ++ s2) n "evict_one" Hinv Hi Hev) as (c' & Hrun & Hinv' & Hrest).
      exists c'. split; [exact Hrun|]. split; [by eexists|done].
  - apply Hgo; [done|by unfold aged|apply cleared_refl| | |done];
      intros j m ->%list_elem_of_singleton Hm He; congruence.
Qed.

(** A candidate among the nodes the hand passes has to be visited. *)
Lemma passed_candidate debug steps q s1 s2 c r i n :
  passed debug steps q s1 s2 c r -> i ∈ s1 -> slab c !! i = Some (Some n) -> is_evictable n (dirty c) = true -> visited n = true.
Proof. intros (c' & _ & _ & _ & _ & Hv & _). by apply Hv. Qed.

(** The same candidate after a pass. *)
Lemma aged_node c c' i n :
  aged c c' -> slab c !! i = Some (Some n) -> is_evictable n (dirty c) = true ->
  exists n', slab c' !! i = Some (Some n') /\ is_evictable n' (dirty c') = true.
Proof.
  intros Ha Hi He. pose proof Ha as (E1 & _ & _ & _ & _ & _ & _ & E8 & _). apply cores_lookup in Hi as Hc. rewrite <-E1 in Hc.
  apply cores_node in Hc as (n' & Hi' & Hco). exists n'. split; [done|]. by rewrite (cleared_evictable c c' n n').
Qed.

(** Wrapping from the newest entry to the oldest. *)
Lemma walk_wrap debug steps c q : inv c q -> evict_walk debug (S steps) None c = evict_walk debug steps (head q) c.
Proof. intros Hinv. cbn [evict_walk]. crun. by rewrite (li_tail _ _ (inv_listed _ _ Hinv)). Qed.

(** Two passes and two wraps are enough, wherever the hand starts. *)
Lemma walk_evicts debug c p s i n steps :
  inv c (p ++ s) -> i ∈ p ++ s -> slab c !! i = Some (Some n) -> is_evictable n (dirty c) = true ->
  steps = (2 * (length (p ++ s) + 1))%nat -> evicted c (evict_walk debug steps (head s) c).
Proof.
  intros Hinv Hin Hi Hev ->. rewrite length_app.
  (* to the end of the list *)
  pose proof (walk_pass debug s [] p c) as H1. rewrite !app_nil_r in H1. edestruct H1 as [He|(c1 & -> & Hinv1 & Ha1 & Hc1 & _ & Hv1)];
    [exact Hinv| |exact He|]; [lia|]. clear H1. eapply (evicted_aged _ c1); [done|].
  destruct (aged_node _ _ _ _ Ha1 Hi Hev) as (n1 & Hi1 & Hev1).
  match goal with |- context [evict_walk _ ?k] => replace k with (S (length p + (length s + length p + 1)))%nat by lia end.
  change (head []) with (@None nat). rewrite (walk_wrap _ _ _ _ Hinv1).
  (* over the part before the hand *)
  destruct (walk_pass debug p s [] c1 (length p + (length s + length p + 1)) Hinv1)
    as [He|(c2 & Hr2 & Hinv2 & Ha2 & Hc2 & _ & Hv2)]; [lia|done|]. cbn [app] in *. rewrite Hr2. eapply (evicted_aged _ c2); [done|].
  destruct (aged_node _ _ _ _ Ha2 Hi1 Hev1) as (n2 & Hi2 & Hev2).
  match goal with |- context [evict_walk _ ?k] => replace k with (length s + S (length p))%nat by lia end.
  (* the part after it again *)
  pose proof (walk_pass debug s [] p c2 (length s + S (length p))) as H3. rewrite !app_nil_r in H3.
  destruct H3 as [He|Hp3]; [done|lia|done|]. assert (dirty c2 = dirty c1) as Hd21 by (by destruct Ha2 as (_ & _ & _ & _ & _ & _ & _ & -> & _)).
  pose proof (cleared_unvisited _ _ _ Hd21 Hc2 Hv1) as Hv12. apply elem_of_app in Hin as [Hin|Hin].
  2: { pose proof (passed_candidate _ _ _ _ _ _ _ _ _ Hp3 Hin Hi2 Hev2). by rewrite (Hv12 _ _ Hin Hi2 Hev2) in *. }
  destruct Hp3 as (c3 & -> & Hinv3 & Ha3 & Hc3 & _ & _). eapply (evicted_aged _ c3); [done|].
  destruct (aged_node _ _ _ _ Ha3 Hi2 Hev2) as (n3 & Hi3 & Hev3).
  match goal with |- context [evict_walk _ ?k] => replace k with (S (length p)) by lia end.
  change (head []) with (@None nat). rewrite (walk_wrap _ _ _ _ Hinv3).
  (* and the part before it again *)
  destruct (walk_pass debug p s [] c3 (length p) Hinv3) as [He|Hp4]; [lia|done|]. exfalso.
  assert (dirty c3 = dirty c2) as Hd32 by (by destruct Ha3 as (_ & _ & _ & _ & _ & _ & _ & -> & _)).
  pose proof (cleared_unvisited _ _ _ Hd32 Hc3 Hv2) as Hv23.
  pose proof (passed_candidate _ _ _ _ _ _ _ _ _ Hp4 Hin Hi3 Hev3). by rewrite (Hv23 _ _ Hin Hi3 Hev3) in *.
Qed.

(** ** Trims *)

Lemma evict_one_ok debug c q : inv c q -> 0 < evictable c -> evicted c (evict_one debug c).
Proof.
  intros Hinv Hpos. unfold evict_one. crun. unfold id.
  pose proof (inv_list_len _ _ Hinv) as Hlen. pose proof (inv_len_room _ _ Hinv) as Hroom.
  assert (size (dirty c) <= size (cmap c))%nat as Hds.
  { rewrite <-size_dom. apply subseteq_size, Hinv. }
  assert (Z.to_nat (saturating_mul (saturating_add (saturating_sub (cache_len c) (Z.of_nat (size (dirty c)))) 1) 2) =
    2 * (length q + 1))%nat as ->.
  { unfold saturating_mul, saturating_add, saturating_sub, U64_MAX, cache_len, SLAB_MAX in *. lia. }
  destruct (count_pos (dirty c) (entries c)) as (k & pg & Hk & Hd); [rewrite (inv_count _ _ Hinv) in Hpos; lia|].
  destruct (inv_entry _ _ Hinv _ _ _ Hk) as (i & n & Hi & Hn & Hkey & _ & Hp).
  assert (i ∈ q) as Hiq by (by apply (inv_clean _ _ Hinv _ _ Hi)).
  assert (is_evictable n (dirty c) = true) as Hev.
  { unfold is_evictable. rewrite Hp, Hkey. simpl. by rewrite bool_decide_false. }
  pose proof (inv_listed _ _ Hinv) as [_ Ht _ Hha]. destruct (hand c) as [h|].
  - destruct (list_elem_of_split _ _ (Hha h eq_refl)) as (p & s & ->). by eapply (walk_evicts debug c p (h :: s)).
  - rewrite Ht. by eapply (walk_evicts debug c [] q).
Qed.

Lemma trim_loop_ok debug target : forall fuel c q,
  inv c q -> (size (cmap c) < fuel)%nat ->
  exists c' q', trim_loop debug fuel target c = (Ok tt, c') /\ inv c' q' /\ trimmed c c' /\
    (cache_len c' <= target \/ evictable c' = 0).
Proof.
  induction fuel as [|fuel IH]; intros c q Hinv Hfu; [lia|]. cbn [trim_loop]. crun. unfold id.
  pose proof (inv_evictable_le _ _ Hinv) as Hev.
  destruct ((target <? cache_len c) && (0 <? evictable c)) eqn:Hgo.
  - apply andb_true_iff in Hgo as [H1%Z.ltb_lt H2%Z.ltb_lt].
    destruct (evict_one_ok debug c q Hinv H2) as (c1 & Hr & [q1 Hinv1] & Htr1 & He1 & Hl1). rewrite (cbind_ok _ _ _ _ _ Hr).
    destruct (IH c1 q1 Hinv1) as (c' & q' & Hrun & Hinv' & Htr & Hend); [unfold cache_len in *; lia|].
    exists c', q'. split; [done|]. split; [done|]. split; [by eapply trimmed_trans|done].
  - exists c, q. split; [done|]. split; [done|]. split; [apply trimmed_refl|].
    apply andb_false_iff in Hgo as [?%Z.ltb_ge|?%Z.ltb_ge]; lia.
Qed.

(** The recounts of debug builds agree. *)
Definition ev_key (d : gset Key) (E : gmap Key (Page * Z)) (k : Key) : Prop :=
  match E !! k with Some e => candidate d (k, e) | None => False end.
#[global] Instance ev_key_dec d E k : Decision (ev_key d E k).
Proof. unfold ev_key. destruct (E !! k); apply _. Defined.

Lemma count_keys d E ks :
  NoDup ks -> (forall k, k ∈ ks <-> is_Some (E !! k)) -> length (filter (ev_key d E) ks) = count d E.
Proof.
  intros Hnd Hks. unfold count. rewrite <-length_map_to_list, <-(length_fmap fst (map_to_list _)). apply Permutation_length, NoDup_Permutation.
  - by apply NoDup_filter.
  - apply NoDup_fst_map_to_list.
  - intros k. rewrite list_elem_of_filter, Hks, list_elem_of_fmap. unfold ev_key. split.
    + intros [Hc [e He]]. rewrite He in Hc. exists (k, e). split; [done|]. apply elem_of_map_to_list. by apply map_lookup_filter_Some.
    + intros ([k' e] & -> & He%elem_of_map_to_list). apply map_lookup_filter_Some in He as [He Hc]. simpl. rewrite He. by eauto.
Qed.

Lemma count_candidates_ok c q op : inv c q -> forall es a,
  Forall (fun e : Key * nat => cmap c !! e.1 = Some e.2) es -> 0 <= a -> a + Z.of_nat (length es) <= U64_MAX ->
  count_candidates es op a c = (Ok (a + Z.of_nat (length (filter (ev_key (dirty c) (entries c)) es.*1))), c).
Proof.
  intros Hinv. induction es as [|[k i] es IH]; intros a Hf Ha Hb.
  { simpl. unfold cret. do 2 f_equal. lia. }
  apply Forall_cons in Hf as [Hk Hf]. simpl in Hk, Hb. cbn [count_candidates].
  destruct (inv_node _ _ Hinv _ _ Hk) as (n & Hi & Hkey & Hent & _). rewrite (cbind_node _ _ _ _ _ Hi). crun.
  rewrite (is_evictable_candidate _ _ _ Hi), Hkey, fmap_cons, filter_cons. simpl fst.
  assert (ev_key (dirty c) (entries c) k <-> candidate (dirty c) (k, (node_page n, pins n))) as He by (unfold ev_key; by rewrite Hent).
  case_bool_decide as Hc.
  - rewrite decide_True by (by apply He). unfold saturating_add. rewrite IH; [|done|lia|lia]. f_equal. f_equal. simpl length. lia.
  - rewrite decide_False by (by rewrite He). apply IH; [done|lia|lia].
Qed.

Lemma check_members_ok c q op : inv c q -> forall es,
  Forall (fun e : Key * nat => cmap c !! e.1 = Some e.2) es -> check_members es op c = (Ok tt, c).
Proof.
  intros Hinv. induction es as [|[k i] es IH]; intros Hf; [done|]. apply Forall_cons in Hf as [Hk Hf]. simpl in Hk.
  cbn [check_members]. destruct (inv_node _ _ Hinv _ _ Hk) as (n & Hi & Hkey & _). rewrite (cbind_node _ _ _ _ _ Hi). crun.
  pose proof (chained_linked _ _ _ _ (li_chained _ _ (inv_listed _ _ Hinv)) Hi) as Hl. rewrite (inv_clean _ _ Hinv _ _ Hk) in Hl.
  case_bool_decide; destruct (linked n); simpl; try (by apply IH); naive_solver.
Qed.

Section trim.
Context (debug : bool) (iter : gmap Key nat -> list (Key * nat)) (iter_ok : forall m, iter m ≡ₚ map_to_list m).

Lemma iter_in m : Forall (fun e : Key * nat => m !! e.1 = Some e.2) (iter m).
Proof. apply Forall_forall. intros [k i]. rewrite iter_ok. apply elem_of_map_to_list. Qed.

Lemma debug_checks_ok c q op :
  inv c q -> (with! _ := check_evictable_count iter op in check_list_membership iter op) c = (Ok tt, c).
Proof.
  intros Hinv. unfold check_evictable_count, check_list_membership. crun.
  pose proof (inv_len_room _ _ Hinv) as Hroom.
  rewrite (cbind_ok _ _ _ _ _ (count_candidates_ok c q op Hinv _ 0 (iter_in _) ltac:(lia)
    ltac:(rewrite iter_ok, length_map_to_list; unfold cache_len, SLAB_MAX, U64_MAX in *; lia))).
  crun. rewrite count_keys.
  - rewrite (inv_count _ _ Hinv), Z.add_0_l, Z.eqb_refl. crun. apply (check_members_ok c q); [done|]. apply iter_in.
  - rewrite iter_ok. apply NoDup_fst_map_to_list.
  - intros k. rewrite iter_ok. unfold entries. rewrite <-elem_of_dom, entries_dom by apply Hinv. rewrite elem_of_dom.
    rewrite list_elem_of_fmap. split.
    + intros ([k' i] & -> & Hk%elem_of_map_to_list). by exists i.
    + intros [i Hk]. exists (k, i). split; [done|]. by apply elem_of_map_to_list.
Qed.

(** A trim ends within the target, or with nothing left to evict. *)
Lemma trim_to_ok c q target :
  inv c q -> exists c' q', trim_to debug iter target c = (Ok tt, c') /\ inv c' q' /\ trimmed c c' /\
    (cache_len c' <= target \/ evictable c' = 0).
Proof.
  intros Hinv. unfold trim_to.
  assert ((if debug then with! _ := check_evictable_count iter "trim_to" in check_list_membership iter "trim_to" else cret tt) c
    = (Ok tt, c)) as Hd by (destruct debug; [by eapply debug_checks_ok|done]).
  rewrite (cbind_ok _ _ _ _ _ Hd). crun. eapply trim_loop_ok; [exact Hinv|lia].
Qed.

Lemma check_within_budget_ok c op :
  cache_len c <= capacity c \/ evictable c <= 0 -> check_within_budget debug op c = (Ok tt, c).
Proof.
  intros Hb. unfold check_within_budget. crun. unfold id.
  destruct (debug && (capacity c <? cache_len c) && (0 <? evictable c)) eqn:E; [|done].
  apply andb_true_iff in E as [[_ ?%Z.ltb_lt]%andb_true_iff ?%Z.ltb_lt]. lia.
Qed.
End trim.
