(* ===== verification/PageCacheOps.v ===== *)
(** * PageCacheOps: what each operation of the page cache does

    Each operation, on a cache that satisfies the invariant, succeeds, keeps the
    invariant and changes the entries as stated. *)

From S2P Require Import Prelude Keys Errors PageFormat PageCache PageCacheList PageCacheInv PageCacheEvict.
From Stdlib Require Import ZArith Lia.
From stdpp Require Import base list strings gmap sorting.

Local Open Scope Z_scope.
Local Open Scope pagedb_scope.

Lemma guarded_ok {A} (body : C A) c a c' : fault c = None -> body c = (Ok a, c') -> guarded body c = (Ok a, c').
Proof. intros Hf Hb. unfold guarded, cbind, check_usable. by rewrite Hf, Hb. Qed.
Lemma ignore_ok (body : C unit) c c' : body c = (Ok tt, c') -> ignore body c = (Ok tt, c').
Proof. unfold ignore. by intros ->. Qed.

(** ** Changing a node in place *)

Lemma inv_update c q k i n n' e :
  inv c q -> cmap c !! k = Some i -> slab c !! i = Some (Some n) -> node_key n' = k ->
  linked n' = linked n -> prev n' = prev n -> next n' = next n -> 0 <= pins n' <= U32_MAX ->
  e = Z.of_nat (count (dirty c) (<[k := (node_page n', pins n')]> (entries c))) ->
  let c' := set_evictable e (set_slab (<[i := Some n']> (slab c)) c) in
  inv c' q /\ entries c' = <[k := (node_page n', pins n')]> (entries c).
Proof.
  intros Hinv Hk Hi Hkey Hl Hp Hn Hpi He c'. pose proof Hinv as [[Hch Ht Hh Hha] Hm Hfr Hd Hcl Hct Hpin Hcap Hroom Hfa].
  destruct (mapped_update _ _ Hm k i (node_page n') (pins n') Hk) as [Hm' HE].
  assert (cores (<[i := Some n']> (slab c)) = <[i := Some (k, node_page n', pins n')]> (cores (slab c))) as Hco
    by (rewrite cores_insert; unfold core; simpl; by rewrite Hkey).
  assert (entries c' = <[k := (node_page n', pins n')]> (entries c)) as HE' by (unfold entries; simpl; by rewrite Hco).
  split; [|done]. constructor; rewrite ?HE'; simpl; rewrite ?Hco; try done.
  - constructor; simpl; [by eapply chained_put|done..].
  - destruct Hfr as [Hnd Hf]. split; [done|]. intros j. rewrite Hf. destruct (decide (i = j)) as [<-|Hne].
    + apply cores_lookup in Hi. rewrite Hi, list_lookup_insert_eq by (by eapply lookup_lt_Some). done.
    + by rewrite list_lookup_insert_ne.
  - intros k' pg p. rewrite lookup_insert_Some. intros [[_ [= <- <-]]|[_ Hk']]; [done|by eapply Hpin].
  - by rewrite length_insert.
Qed.

(** Counting after a change of one entry. *)
Lemma count_update c k e e' :
  entries c !! k = Some e ->
  (count (dirty c) (<[k := e']> (entries c)) + (if bool_decide (candidate (dirty c) (k, e)) then 1 else 0) =
   count (dirty c) (entries c) + (if bool_decide (candidate (dirty c) (k, e')) then 1 else 0))%nat.
Proof.
  intros Hk. rewrite (count_split _ (entries c) k e Hk), (count_split _ (<[k := e']> (entries c)) k e') by (by rewrite lookup_insert_eq).
  rewrite delete_insert_eq. lia.
Qed.

Lemma set_evictable_slab sl c : set_evictable (evictable c) (set_slab sl c) = set_slab sl c.
Proof. by destruct c. Qed.

(** ** Lookups *)

Lemma cache_get_ok c q k :
  inv c q -> exists c', cache_get k c = (Ok (fst <$> entries c !! k), c') /\ inv c' q /\ aged c c'.
Proof.
  intros Hinv. unfold cache_get. destruct (cmap c !! k) as [i|] eqn:Hk.
  - destruct (inv_node _ _ Hinv _ _ Hk) as (n & Hi & Hkey & He & _). destruct (visit_ok c q i n true Hinv Hi) as [Hinv' Ha].
    eexists. split; [|done]. apply guarded_ok; [apply Hinv|]. crun. rewrite Hk.
    rewrite (cbind_ok _ _ _ _ _ (keyed_node_ok _ _ _ _ _ Hi Hkey)). crun. by rewrite He.
  - exists c. split; [|split; [done|by unfold aged]]. apply guarded_ok; [apply Hinv|]. crun. rewrite Hk.
    unfold entries. by rewrite (proj2 (entries_None _ _ (inv_mapped _ _ Hinv) k) Hk).
Qed.

Lemma get_dirty_ok c q k :
  inv c q -> exists c', get_dirty k c = (Ok (fst <$> entries c !! k), c') /\ inv c' q /\ aged c c'.
Proof.
  intros Hinv. destruct (cache_get_ok c q k Hinv) as (c' & Hg & Hinv' & Ha). exists c'. split; [|done].
  unfold get_dirty. rewrite (cbind_ok _ _ _ _ _ Hg). crun. case_bool_decide as Hn; [|done]. simpl.
  rewrite bool_decide_false; [done|]. intros Hd%(inv_dirty _ _ Hinv'). pose proof Ha as (_ & _ & _ & _ & _ & Em & _).
  rewrite Em, <-(entries_dom _ (cores (slab c))), elem_of_dom in Hd by apply Hinv. destruct Hd as [e He].
  unfold entries in Hn. by rewrite He in Hn.
Qed.

(** ** Pins *)

(** The pin count of an entry changes, nothing else does. *)
Record repinned (c c' : PageCache) (k : Key) (p : Z) : Prop := mkRepinned {
  rp_entries : exists pg, fst <$> entries c !! k = Some pg /\ entries c' = <[k := (pg, p)]> (entries c);
  rp_slots : cmap c' = cmap c;
  rp_dirty : dirty c' = dirty c;
  rp_cap : capacity c' = capacity c;
  rp_slab : length (slab c') = length (slab c);
}.

Lemma is_evictable_entry c q k i n :
  inv c q -> cmap c !! k = Some i -> slab c !! i = Some (Some n) ->
  is_evictable n (dirty c) = bool_decide (candidate (dirty c) (k, (node_page n, pins n))).
Proof.
  intros Hinv Hk Hi. rewrite (is_evictable_candidate c i n Hi).
  destruct (inv_node _ _ Hinv _ _ Hk) as (n0 & Hi0 & <- & _). by assert (n0 = n) as -> by congruence.
Qed.

Lemma pin_resident_ok c q k i n op :
  inv c q -> cmap c !! k = Some i -> slab c !! i = Some (Some n) ->
  exists c' n', pin_resident i k op c = (Ok n', c') /\ slab c' !! i = Some (Some n') /\ node_page n' = node_page n /\
    inv c' q /\ repinned c c' k (Z.min (pins n + 1) U32_MAX) /\
    evictable c' = (if is_evictable n (dirty c) then evictable c - 1 else evictable c).
Proof.
  intros Hinv Hk Hi. destruct (inv_node _ _ Hinv _ _ Hk) as (n0 & Hi0 & Hkey & He & _). assert (n0 = n) as -> by congruence.
  set (n' := set_pins (Z.min (pins n + 1) U32_MAX) n).
  pose proof (inv_pins _ _ Hinv _ _ _ He) as Hpr. assert (0 < pins n') as Hpos by (simpl; unfold U32_MAX in *; lia).
  pose proof (count_update c k _ (node_page n', pins n') He) as Hcu.
  rewrite <-(is_evictable_entry c q k i n Hinv Hk Hi) in Hcu.
  rewrite (bool_decide_false (candidate _ (k, (node_page n', pins n')))) in Hcu by (intros [Hz _]; simpl in Hz; simpl in Hpos; lia).
  destruct (inv_update c q k i n n' (if is_evictable n (dirty c) then evictable c - 1 else evictable c))
    as [Hinv' HE]; try done; [simpl; unfold U32_MAX in *; lia|rewrite (inv_count _ _ Hinv); destruct (is_evictable n (dirty c)); lia|].
  exists (set_evictable (if is_evictable n (dirty c) then evictable c - 1 else evictable c) (set_slab (<[i := Some n']> (slab c)) c)), n'.
  split.
  { unfold pin_resident. rewrite (cbind_ok _ _ _ _ _ (keyed_node_ok _ _ _ _ _ Hi Hkey)). crun.
    destruct (is_evictable n (dirty c)) eqn:Hev.
    - rewrite (cbind_ok _ _ _ _ _ (take_evictable_ok op c ltac:(rewrite (inv_count _ _ Hinv); lia))). crun. reflexivity.
    - crun. by rewrite set_evictable_slab. }
  split; [simpl; apply list_lookup_insert_eq; by eapply lookup_lt_Some|]. split; [done|]. split; [done|]. split; [|done].
  constructor; [exists (node_page n); rewrite He; done|done..|]. apply length_insert.
Qed.

Lemma get_and_pin_ok c q k :
  inv c q ->
  match entries c !! k with
  | None => get_and_pin k c = (Ok None, c)
  | Some (pg, p) => exists i c', cmap c !! k = Some i /\ get_and_pin k c = (Ok (Some (pg, i)), c') /\ inv c' q /\
      repinned c c' k (Z.min (p + 1) U32_MAX) /\ evictable c' <= evictable c
  end.
Proof.
  intros Hinv. destruct (entries c !! k) as [[pg p]|] eqn:He.
  - destruct (inv_entry _ _ Hinv _ _ _ He) as (i & n & Hk & Hi & Hkey & Hpg & Hp).
    destruct (pin_resident_ok c q k i n "get_and_pin" Hinv Hk Hi) as (c1 & n1 & Hpin & Hi1 & Hpg1 & Hinv1 & Hr1 & Hev1).
    destruct (visit_ok c1 q i n1 true Hinv1 Hi1) as [Hinv' Ha]. exists i. eexists. split; [done|]. split.
    { unfold get_and_pin. apply guarded_ok; [apply Hinv|]. crun. rewrite Hk, (cbind_ok _ _ _ _ _ Hpin). crun.
      rewrite Hpg1, Hpg. reflexivity. }
    split; [done|]. subst p. destruct Hr1 as [Hen Hsl Hdi Hca Hle]. pose proof (aged_entries _ _ Ha) as HE.
    split; [|simpl; destruct (is_evictable n (dirty c)); lia].
    constructor; [by rewrite HE|done..|]. simpl. by rewrite length_insert.
  - unfold get_and_pin. apply guarded_ok; [apply Hinv|]. crun. unfold entries in He.
    by rewrite (proj1 (entries_None _ _ (inv_mapped _ _ Hinv) k) He).
Qed.

(** ** Insertion *)

Lemma chained_snoc sl q n : chained sl q -> linked n = false -> chained (sl ++ [Some n]) q.
Proof.
  intros [Hnd Hon Honly] Hl. constructor; [done| |].
  - intros p i s Hq. destruct (Hon _ _ _ Hq) as (m & Hi & ?). exists m. split; [|done]. by apply lookup_app_l_Some.
  - intros i m [Hi|[_ Hi]]%lookup_app_Some Hm; [by eapply Honly|]. apply list_lookup_singleton_Some in Hi as [_ [= <-]]. congruence.
Qed.

Lemma last_split {A} (l : list A) x : last l = Some x -> l = take (length l - 1) l ++ [x].
Proof.
  intros [l' ->]%last_Some. rewrite length_app. simpl. replace (length l' + 1 - 1)%nat with (length l') by lia.
  by rewrite take_app_length.
Qed.

Lemma alloc_node_ok c q n op :
  inv c q -> linked n = false ->
  exists i c', alloc_node n op c = (Ok i, c') /\ slab c' !! i = Some (Some n) /\ listed c' q /\ ~ (i ∈ q) /\
    freed (cores (slab c')) (free c') /\ (length (slab c') <= S (length (slab c)))%nat /\
    (cores (slab c') = <[i := Some (core n)]> (cores (slab c)) /\ cores (slab c) !! i = Some None \/
     cores (slab c') = cores (slab c) ++ [Some (core n)] /\ i = length (cores (slab c))) /\
    cmap c' = cmap c /\ dirty c' = dirty c /\ evictable c' = evictable c /\ capacity c' = capacity c /\ fault c' = fault c.
Proof.
  intros Hinv Hl. pose proof Hinv as [[Hch Ht Hh Hha] Hm [Hfn Hff] _ _ _ _ _ _ _]. unfold alloc_node.
  assert (forall i, i ∈ q -> exists m, slab c !! i = Some (Some m)) as Hlive by (intros i (m & ? & _)%(chained_in _ _ _ Hch); eauto).
  destruct (last (free c)) as [i|] eqn:Hlast.
  - pose proof (last_split _ _ Hlast) as Hsplit. set (fr := take _ (free c)) in *. rewrite Hsplit in Hfn.
    assert (cores (slab c) !! i = Some None) as Hci by (apply Hff, last_in, Hlast).
    pose proof (proj1 (cores_None _ _) Hci) as Hi. simpl. rewrite Hi. exists i. eexists. split; [done|]. simpl.
    pose proof (lookup_lt_Some _ _ _ Hi) as Hlt. assert (~ (i ∈ q)) as Hiq by (intros [m ?]%Hlive; congruence).
    split; [by apply list_lookup_insert_eq|]. split.
    { constructor; simpl; [|done..]. by apply chained_off; [done|done|intros ? [= <-]]. }
    split; [done|]. rewrite cores_insert. simpl. split; [|split; [rewrite length_insert; lia|split; [by left|done]]].
    apply NoDup_app in Hfn as (Hn1 & Hn2 & _). split; [done|]. intros j. destruct (decide (i = j)) as [<-|Hne].
    + rewrite list_lookup_insert_eq by (by rewrite cores_length). split; [|done]. intros Hj. destruct (Hn2 _ Hj). by left.
    + rewrite list_lookup_insert_ne by done. rewrite <-Hff, Hsplit, elem_of_app, list_elem_of_singleton. naive_solver.
  - apply last_None in Hlast. rewrite Hlast in *. exists (length (slab c)). eexists. split; [done|]. simpl.
    assert (~ (length (slab c) ∈ q)) as Hiq by (intros [m Hx%lookup_lt_Some]%Hlive; lia).
    split; [by rewrite lookup_app_r, Nat.sub_diag by lia|]. split; [constructor; simpl; [by apply chained_snoc|done..]|].
    split; [done|]. assert (cores (slab c ++ [Some n]) = cores (slab c) ++ [Some (core n)]) as Hco by (unfold cores; by rewrite fmap_app).
    rewrite Hco, Hlast. split; [|split; [rewrite length_app; simpl; lia|split; [right; by rewrite cores_length|done]]].
    split; [constructor|]. intros j. split; [by intros ?%not_elem_of_nil|].
    intros [Hj%Hff|[_ Hj%list_lookup_singleton_Some]]%lookup_app_Some; [done|naive_solver].
Qed.

(** A node just stored is linked and named by the map. *)
Lemma inv_added c c1 q k i pg p n :
  inv c q -> entries c !! k = None -> slab c1 !! i = Some (Some n) -> core n = (k, pg, p) -> 0 <= p <= U32_MAX ->
  listed c1 (q ++ [i]) -> freed (cores (slab c1)) (free c1) -> Z.of_nat (length (slab c1)) <= SLAB_MAX ->
  (cores (slab c1) = <[i := Some (core n)]> (cores (slab c)) /\ cores (slab c) !! i = Some None \/
   cores (slab c1) = cores (slab c) ++ [Some (core n)] /\ i = length (cores (slab c))) ->
  dirty c1 = dirty c -> capacity c1 = capacity c -> fault c1 = fault c ->
  let c2 := set_evictable (evictable c + if p =? 0 then 1 else 0) (set_cmap (<[k := i]> (cmap c)) c1) in
  inv c2 (q ++ [i]) /\ entries c2 = <[k := (pg, p)]> (entries c).
Proof.
  intros Hinv Hk Hi Hcore Hp Hli Hfr Hroom Hcs Ed Ec Ef c2. rewrite Hcore in Hcs.
  pose proof Hinv as [_ Hm _ Hd Hcl Hct Hpi Hcap _ Hfa].
  assert (cmap c !! k = None) as Hk0 by (by apply (entries_None _ _ Hm)).
  assert (k ∉ dirty c) as Hkd by (intros [? ?]%Hd%elem_of_dom; congruence).
  destruct (mapped_add _ _ Hm k i pg p (cores (slab c1)) Hk0 Hcs) as [Hm' HE].
  assert (entries c2 = <[k := (pg, p)]> (entries c)) as HE' by done.
  split; [|done]. constructor; rewrite ?HE'; simpl; rewrite ?Ed, ?Ec, ?Ef; try done.
  - destruct Hli. by constructor.
  - rewrite dom_insert_L. set_solver.
  - intros k' j. rewrite lookup_insert_Some, elem_of_app, list_elem_of_singleton. intros [[<- <-]|[Hne Hj]].
    + split; [done|by right].
    + rewrite <-(Hcl _ _ Hj). split; [|by left]. intros [?|Heq]; [done|]. exfalso. rewrite Heq in Hj.
      destruct (inv_node _ _ Hinv _ _ Hj) as (n0 & _ & _ & _ & Hc0).
      destruct Hcs as [[_ Hx]|[_ Hx]]; [congruence|]. apply lookup_lt_Some in Hc0. lia.
  - rewrite count_add by done. rewrite Hct. unfold candidate. simpl.
    destruct (Z.eqb_spec p 0); [rewrite bool_decide_true by done|rewrite bool_decide_false by (by intros [? _])]; lia.
  - intros k' pg' p'. rewrite lookup_insert_Some. intros [[_ [= <- <-]]|[_ Hk']]; [done|by eapply Hpi].
Qed.

Section ops.
Context (debug : bool) (iter : gmap Key nat -> list (Key * nat)) (iter_ok : forall m, iter m ≡ₚ map_to_list m).

Lemma trimmed_None c c' k : trimmed c c' -> entries c !! k = None -> entries c' !! k = None.
Proof. intros Ht Hk. eapply lookup_weaken_None; [exact Hk|apply Ht]. Qed.

(** A full cache is trimmed to make room for one more entry. *)
Lemma room_for_ok c q :
  inv c q -> exists c1 q1, (if capacity c <=? cache_len c then trim_to debug iter (saturating_sub (capacity c) 1) else cret tt) c
      = (Ok tt, c1) /\ inv c1 q1 /\ trimmed c c1 /\ (cache_len c1 < capacity c \/ evictable c1 = 0).
Proof.
  intros Hinv. destruct (Z.leb_spec (capacity c) (cache_len c)).
  - destruct (trim_to_ok debug iter iter_ok c q (saturating_sub (capacity c) 1) Hinv) as (c1 & q1 & Hr & Hinv1 & Ht & Hb).
    exists c1, q1. split; [done|]. split; [done|]. split; [done|]. pose proof (inv_cap _ _ Hinv). unfold saturating_sub in Hb. lia.
  - exists c, q. split; [done|]. split; [done|]. split; [apply trimmed_refl|by left].
Qed.

(** An entry is added after a trim. *)
Record added (c c' : PageCache) (k : Key) (i : nat) (e : Page * Z) : Prop := mkAdded {
  ad_trim : exists c1 q1, inv c1 q1 /\ trimmed c c1 /\ entries c' = <[k := e]> (entries c1) /\ cmap c' = <[k := i]> (cmap c1);
  ad_dirty : dirty c' = dirty c;
  ad_cap : capacity c' = capacity c;
  ad_slab : (length (slab c') <= S (length (slab c)))%nat;
}.

Lemma insert_new_ok c q k pg p op :
  inv c q -> entries c !! k = None -> 0 <= p <= 1 -> Z.of_nat (length (slab c)) < SLAB_MAX ->
  exists i c' q', insert_new debug iter k pg p op c = (Ok i, c') /\ inv c' q' /\ added c c' k i (pg, p) /\
    (cache_len c' <= capacity c' \/ evictable c' = if p =? 0 then 1 else 0).
Proof.
  intros Hinv Hk Hp Hroom. unfold insert_new. crun. unfold id.
  destruct (room_for_ok c q Hinv) as (c1 & q1 & Hr1 & Hinv1 & Ht1 & Hb1). rewrite (cbind_ok _ _ _ _ _ Hr1).
  pose proof (trimmed_None _ _ _ Ht1 Hk) as Hk1. pose proof Ht1 as [_ _ _ Hd1 Hc1 Hs1].
  destruct (alloc_node_ok c1 q1 (mkNode k pg p false false None None) op Hinv1 eq_refl)
    as (i & c2 & Hr2 & Hi2 & Hl2 & Hiq & Hf2 & Hlen2 & Hcs2 & Em2 & Ed2 & Ee2 & Ec2 & Ef2).
  rewrite (cbind_ok _ _ _ _ _ Hr2). destruct (link_as_head_ok c2 q1 i op _ Hl2 Hi2 Hiq) as (c3 & Hr3 & Hl3 & Hre3).
  rewrite (cbind_ok _ _ _ _ _ Hr3). crun. destruct Hre3 as (F1 & F2 & F3 & F4 & F5 & F6 & F7).
  assert (exists n3, slab c3 !! i = Some (Some n3) /\ core n3 = (k, pg, p)) as (n3 & Hi3 & Hn3).
  { apply cores_lookup in Hi2. rewrite <-F1 in Hi2. by apply cores_node in Hi2. }
  assert (Z.of_nat (length (slab c3)) <= SLAB_MAX) as Hroom3.
  { rewrite <-cores_length, F1, cores_length. lia. }
  destruct (inv_added c1 c3 q1 k i pg p n3) as [Hinv' HE']; try done; try (by congruence).
  { unfold U32_MAX. lia. } { by rewrite F1, Hn3. }
  assert (k ∉ dirty c1) as Hkd.
  { intros [? Hx]%(inv_dirty _ _ Hinv1)%elem_of_dom. unfold entries in Hk1.
    rewrite (entries_None _ _ (inv_mapped _ _ Hinv1)) in Hk1. congruence. }
  set (c4 := set_evictable (evictable c1 + if p =? 0 then 1 else 0) (set_cmap (<[k := i]> (cmap c1)) c3)) in *.
  exists i, c4, (q1 ++ [i]). split; [|split; [done|split]].
  - simpl dirty. rewrite F5, Ed2, (bool_decide_false (k ∈ dirty c1)), andb_true_r by done. unfold c4.
    rewrite F3, Em2. destruct (p =? 0).
    + unfold add_evictable. crun. simpl. pose proof (inv_evictable_le _ _ Hinv1) as He. pose proof (inv_len_room _ _ Hinv1) as Hlr.
      rewrite F6, Ee2. unfold saturating_add. rewrite Z.min_l; [done|]. unfold SLAB_MAX, U64_MAX in *. lia.
    + crun. rewrite Z.add_0_r, <-Ee2, <-F6. by destruct c3.
  - constructor; simpl; [by exists c1, q1|congruence..|]. rewrite <-cores_length, F1, cores_length. lia.
  - assert (cache_len c4 = cache_len c1 + 1) as Hl4.
    { unfold cache_len. simpl. rewrite map_size_insert_None; [lia|]. by apply (entries_None _ _ (inv_mapped _ _ Hinv1)). }
    assert (capacity c4 = capacity c) as Hc4 by (simpl; congruence). rewrite Hl4, Hc4.
    destruct Hb1 as [?|He]; [left; lia|right]. simpl. by rewrite He.
Qed.

(** [insert] replaces a resident page and adds an entry for a new one. *)
Lemma cache_insert_ok c q k pg :
  inv c q -> Z.of_nat (length (slab c)) < SLAB_MAX ->
  exists c' q', cache_insert debug iter k pg c = (Ok tt, c') /\ inv c' q' /\
    match entries c !! k with
    | Some (_, p) => entries c' = <[k := (pg, p)]> (entries c) /\ cmap c' = cmap c /\ dirty c' = dirty c /\
        capacity c' = capacity c /\ length (slab c') = length (slab c) /\ evictable c' = evictable c
    | None => exists i, added c c' k i (pg, 0) /\ (cache_len c' <= capacity c' \/ evictable c' = 1)
    end.
Proof.
  intros Hinv Hroom. unfold cache_insert. destruct (entries c !! k) as [[pg0 p]|] eqn:He.
  - destruct (inv_entry _ _ Hinv _ _ _ He) as (i & n & Hk & Hi & Hkey & Hpg & Hp).
    destruct (inv_update c q k i n (set_page pg n) (evictable c)) as [Hinv' HE]; try done.
    { rewrite <-Hp in He. apply (inv_pins _ _ Hinv _ _ _ He). }
    { pose proof (count_update c k _ (pg, p) He) as Hcu. simpl. rewrite Hp, (inv_count _ _ Hinv). f_equal.
      assert (bool_decide (candidate (dirty c) (k, (pg0, p))) = bool_decide (candidate (dirty c) (k, (pg, p)))) as E
        by (by apply bool_decide_ext). rewrite E in Hcu. lia. }
    rewrite set_evictable_slab in Hinv', HE. eexists _, q. split; [|split; [exact Hinv'|]].
    + apply guarded_ok; [apply Hinv|]. crun. rewrite Hk. rewrite (cbind_ok _ _ _ _ _ (keyed_node_ok _ _ _ _ _ Hi Hkey)).
      reflexivity.
    + simpl in HE. rewrite Hp in HE. rewrite HE. split_and!; try done. simpl. apply length_insert.
  - destruct (insert_new_ok c q k pg 0 "insert" Hinv He) as (i & c' & q' & Hr & Hinv' & Had & Hb); [lia|done|].
    exists c', q'. split; [|split; [done|by exists i]]. apply guarded_ok; [apply Hinv|]. crun. unfold entries in He.
    rewrite (proj1 (entries_None _ _ (inv_mapped _ _ Hinv) k) He). by rewrite (cbind_ok _ _ _ _ _ Hr).
Qed.

Lemma insert_and_pin_ok c q k pg :
  inv c q -> Z.of_nat (length (slab c)) < SLAB_MAX ->
  exists i c' q', inv c' q' /\
    match entries c !! k with
    | Some (pg0, p) => insert_and_pin debug iter k pg c = (Ok (pg0, i), c') /\ cmap c !! k = Some i /\
        repinned c c' k (Z.min (p + 1) U32_MAX) /\ evictable c' <= evictable c
    | None => insert_and_pin debug iter k pg c = (Ok (pg, i), c') /\ added c c' k i (pg, 1) /\
        (cache_len c' <= capacity c' \/ evictable c' = 0)
    end.
Proof.
  intros Hinv Hroom. unfold insert_and_pin. destruct (entries c !! k) as [[pg0 p]|] eqn:He.
  - destruct (inv_entry _ _ Hinv _ _ _ He) as (i & n & Hk & Hi & Hkey & Hpg & Hp).
    destruct (pin_resident_ok c q k i n "insert_and_pin" Hinv Hk Hi) as (c1 & n1 & Hpin & Hi1 & Hpg1 & Hinv1 & Hr1 & Hev1).
    destruct (visit_ok c1 q i n1 true Hinv1 Hi1) as [Hinv' Ha]. exists i. eexists _, q. split; [exact Hinv'|]. split.
    { apply guarded_ok; [apply Hinv|]. crun. rewrite Hk, (cbind_ok _ _ _ _ _ Hpin). crun. rewrite Hpg1, Hpg. reflexivity. }
    split; [done|]. subst p. destruct Hr1 as [Hen Hsl Hdi Hca Hle]. pose proof (aged_entries _ _ Ha) as HE.
    split; [|simpl; destruct (is_evictable n (dirty c)); lia]. constructor; [by rewrite HE|done..|]. simpl. by rewrite length_insert.
  - destruct (insert_new_ok c q k pg 1 "insert_and_pin" Hinv He) as (i & c' & q' & Hr & Hinv' & Had & Hb); [lia|done|].
    exists i, c', q'. split; [done|]. split; [|done]. apply guarded_ok; [apply Hinv|]. crun. unfold entries in He.
    rewrite (proj1 (entries_None _ _ (inv_mapped _ _ Hinv) k) He). by rewrite (cbind_ok _ _ _ _ _ Hr).
Qed.

End ops.

(** ** Dirty pages *)

(** The list and the dirty set change together. *)
Lemma inv_relist c c' q q' :
  inv c q -> listed c' q' -> cores (slab c') = cores (slab c) -> cmap c' = cmap c -> free c' = free c ->
  capacity c' = capacity c -> fault c' = fault c -> dirty c' ⊆ dom (cmap c) ->
  (forall k i, cmap c !! k = Some i -> (i ∈ q' <-> k ∉ dirty c')) ->
  evictable c' = Z.of_nat (count (dirty c') (entries c)) ->
  inv c' q' /\ entries c' = entries c /\ length (slab c') = length (slab c).
Proof.
  intros Hinv Hl E1 E2 E3 E4 E5 Hd Hcl Hct. assert (entries c' = entries c) as HE by (unfold entries; by rewrite E1, E2).
  assert (length (slab c') = length (slab c)) as Hlen by (by rewrite <-cores_length, E1, cores_length).
  split; [|done]. destruct Hinv as [_ Hm Hfr _ _ _ Hpi Hcap Hroom Hfa].
  constructor; rewrite ?HE, ?E1, ?E2, ?E3, ?E4, ?E5, ?Hlen; done.
Qed.

Lemma count_marked d E k : is_Some (E !! k) -> count ({[ k ]} ∪ d) E = count d (delete k E).
Proof.
  intros [e He]. rewrite (count_split _ E k e He), bool_decide_false by (intros [_ Hk]; set_solver). rewrite Nat.add_0_r.
  apply count_ext. intros k' Hk'. rewrite dom_delete in Hk'. set_solver.
Qed.
Lemma count_unmarked d E k pg p :
  E !! k = Some (pg, p) -> count (d ∖ {[ k ]}) E = (count d (delete k E) + if (p =? 0)%Z then 1 else 0)%nat.
Proof.
  intros He. rewrite (count_split _ E k _ He). f_equal.
  - apply count_ext. intros k' Hk'. rewrite dom_delete in Hk'. set_solver.
  - unfold candidate. simpl. destruct (Z.eqb_spec p 0); [rewrite bool_decide_true by set_solver|rewrite bool_decide_false by tauto]; done.
Qed.

Lemma mark_dirty_ok c q k pg p :
  inv c q -> entries c !! k = Some (pg, p) ->
  exists c' q', mark_dirty k c = (Ok tt, c') /\ inv c' q' /\ entries c' = entries c /\ cmap c' = cmap c /\
    dirty c' = {[ k ]} ∪ dirty c /\ capacity c' = capacity c /\ length (slab c') = length (slab c) /\
    evictable c' = (if bool_decide (candidate (dirty c) (k, (pg, p))) then evictable c - 1 else evictable c).
Proof.
  intros Hinv He. destruct (inv_entry _ _ Hinv _ _ _ He) as (i & n & Hk & Hi & Hkey & Hpg & Hp).
  pose proof (count_split (dirty c) _ _ _ He) as Hcs. pose proof (inv_count _ _ Hinv) as Hct.
  pose proof (count_marked (dirty c) (entries c) k (ex_intro _ _ He)) as Hcm.
  pose proof (is_evictable_entry c q k i n Hinv Hk Hi) as Hev. rewrite Hpg, Hp in Hev.
  set (e' := if bool_decide (candidate (dirty c) (k, (pg, p))) then evictable c - 1 else evictable c).
  set (c1 := set_dirty ({[ k ]} ∪ dirty c) (set_evictable e' c)).
  assert (forall c2, unlink_from_list i "mark_dirty" c1 = (Ok tt, c2) -> mark_dirty k c = (Ok tt, c2)) as Hrun.
  { intros c2 Hu. apply guarded_ok; [apply Hinv|]. crun. rewrite Hk.
    rewrite (cbind_ok _ _ _ _ _ (keyed_node_ok _ _ _ _ _ Hi Hkey)). crun. rewrite Hev. rewrite <-Hu. unfold c1, e'. case_bool_decide.
    - rewrite (cbind_ok _ _ _ _ _ (take_evictable_ok "mark_dirty" c ltac:(lia))). by crun.
    - crun. by destruct c. }
  assert (forall c2 q', unlink_from_list i "mark_dirty" c1 = (Ok tt, c2) -> listed c2 q' -> relisted c1 c2 ->
    (forall j, j ∈ q' <-> j ∈ q /\ j <> i) ->
    exists c' q', mark_dirty k c = (Ok tt, c') /\ inv c' q' /\ entries c' = entries c /\ cmap c' = cmap c /\
    dirty c' = {[ k ]} ∪ dirty c /\ capacity c' = capacity c /\ length (slab c') = length (slab c) /\ evictable c' = e') as Hfin.
  { intros c2 q' Hu Hl (F1 & F2 & F3 & F4 & F5 & F6 & F7) Hq'.
    destruct (inv_relist c c2 q q' Hinv Hl) as (Hinv' & HE & Hlen); try done.
    - rewrite F5. simpl. apply union_subseteq. split; [|apply Hinv]. apply singleton_subseteq_l, elem_of_dom. by exists i.
    - intros k' j Hj. rewrite Hq', F5. simpl. rewrite (inv_clean _ _ Hinv _ _ Hj), not_elem_of_union, not_elem_of_singleton.
      assert (j <> i <-> k' <> k); [|tauto]. split; [intros Hne ->; congruence|].
      intros Hne ->. apply Hne. exact (mapped_inj _ _ (inv_mapped _ _ Hinv) _ _ _ Hj Hk).
    - rewrite F5, F6. simpl. rewrite Hcm. unfold e'. rewrite Hct. case_bool_decide; lia.
    - exists c2, q'. split; [by apply Hrun|]. split_and!; done. }
  assert (listed c1 q) as Hl1 by (pose proof (inv_listed _ _ Hinv) as []; by constructor).
  destruct (decide (i ∈ q)) as [Hiq|Hiq].
  - destruct (list_elem_of_split _ _ Hiq) as (a & b & ->). destruct (unlink_from_list_ok c1 a i b "mark_dirty" Hl1) as (c2 & Hu & Hl2 & Hr2).
    apply (Hfin c2 (a ++ b)); [done..|]. intros j. destruct (NoDup_sides _ _ _ (ch_nodup _ _ (li_chained _ _ Hl1))) as (_ & _ & Ha & Hb & _).
    destruct (decide (j = i)) as [->|Hne]; [rewrite elem_of_app; tauto|]. rewrite (elem_of_skip a b i j Hne). tauto.
  - apply (Hfin c1 q); [by eapply unlink_off_list|done|by unfold relisted|]. intros j. split; [|tauto]. intros Hj. split; [done|]. by intros ->.
Qed.

(** A dirty entry goes back on the list. *)
Lemma relink_clean c q k i pg p op :
  inv c q -> cmap c !! k = Some i -> entries c !! k = Some (pg, p) -> k ∈ dirty c ->
  exists c1 q', link_as_head i op c = (Ok tt, c1) /\ relisted c c1 /\
    let c' := set_evictable (evictable c + if p =? 0 then 1 else 0) (set_dirty (dirty c ∖ {[ k ]}) c1) in
    inv c' q' /\ entries c' = entries c /\ length (slab c') = length (slab c).
Proof.
  intros Hinv Hk He Hd. destruct (inv_node _ _ Hinv _ _ Hk) as (n & Hi & _).
  assert (~ (i ∈ q)) as Hiq by (intros Hx%(inv_clean _ _ Hinv _ _ Hk); done).
  destruct (link_as_head_ok c q i op n (inv_listed _ _ Hinv) Hi Hiq) as (c1 & Hr & Hl & Hre). exists c1, (q ++ [i]).
  split; [done|]. split; [done|]. destruct Hre as (F1 & F2 & F3 & F4 & F5 & F6 & F7). cbv zeta.
  apply (inv_relist c _ q); try done.
  - destruct Hl. by constructor.
  - simpl. pose proof (inv_dirty _ _ Hinv). set_solver.
  - intros k' j Hj. simpl. rewrite elem_of_app, list_elem_of_singleton, (inv_clean _ _ Hinv _ _ Hj), elem_of_difference, elem_of_singleton.
    assert (j = i <-> k' = k); [|destruct (decide (k' = k)); naive_solver]. split; [|intros ->; congruence].
    intros ->. exact (mapped_inj _ _ (inv_mapped _ _ Hinv) _ _ _ Hj Hk).
  - simpl. rewrite (count_unmarked _ _ _ _ _ He), (inv_count _ _ Hinv), (count_split _ _ _ _ He).
    rewrite bool_decide_false by (by intros [_ ?]). destruct (p =? 0); lia.
Qed.

Lemma clear_dirty_ok c q k :
  inv c q ->
  exists c' q', clear_dirty k c = (Ok tt, c') /\ inv c' q' /\ entries c' = entries c /\ cmap c' = cmap c /\
    dirty c' = dirty c ∖ {[ k ]} /\ capacity c' = capacity c /\ length (slab c') = length (slab c).
Proof.
  intros Hinv. destruct (decide (k ∈ dirty c)) as [Hd|Hd].
  - pose proof (inv_dirty _ _ Hinv _ Hd) as [i Hk]%elem_of_dom. destruct (inv_node _ _ Hinv _ _ Hk) as (n & Hi & Hkey & He & _).
    destruct (relink_clean c q k i _ _ "clear_dirty" Hinv Hk He Hd) as (c1 & q' & Hr & (F1 & F2 & F3 & F4 & F5 & F6 & F7) & Hinv' & HE & Hlen).
    exists (set_evictable (evictable c + if pins n =? 0 then 1 else 0) (set_dirty (dirty c ∖ {[ k ]}) c1)), q'.
    split; [|split_and!; done]. unfold clear_dirty. apply guarded_ok; [apply Hinv|]. crun.
    rewrite bool_decide_true by done. cbn [negb]. crun. rewrite Hk.
    rewrite (cbind_ok _ _ _ _ _ (keyed_node_ok _ _ _ _ _ Hi Hkey)), (cbind_ok _ _ _ _ _ Hr). crun. rewrite F5. destruct (pins n =? 0).
    + unfold add_evictable, cmodify. simpl. rewrite F6. unfold saturating_add. rewrite Z.min_l; [done|].
      pose proof (inv_evictable_le _ _ Hinv). pose proof (inv_len_room _ _ Hinv). unfold SLAB_MAX, U64_MAX in *. lia.
    + rewrite Z.add_0_r, <-F6. by destruct c1.
  - exists c, q. split; [|split_and!; try done; set_solver]. unfold clear_dirty. apply guarded_ok; [apply Hinv|]. crun.
    by rewrite bool_decide_false.
Qed.

(** ** Removal *)

Lemma set_dirty_id c d : d = dirty c -> set_dirty d c = c.
Proof. intros ->. by destruct c. Qed.
Lemma set_evictable_id c e : e = evictable c -> set_evictable e c = c.
Proof. intros ->. by destruct c. Qed.

Lemma remove_unpinned_ok c q k i pg op :
  inv c q -> cmap c !! k = Some i -> entries c !! k = Some (pg, 0) ->
  exists c1 q', remove_unpinned_entry k i op c = (Ok tt, c1) /\
    inv (set_dirty (dirty c ∖ {[ k ]}) c1) q' /\ entries c1 = delete k (entries c) /\ cmap c1 = delete k (cmap c) /\
    dirty c1 = dirty c /\ capacity c1 = capacity c /\ length (slab c1) = length (slab c) /\ evictable c1 <= evictable c.
Proof.
  intros Hinv Hk He. destruct (inv_node _ _ Hinv _ _ Hk) as (n & Hi & Hkey & He' & Hcore). assert (pins n = 0) as Hp by congruence.
  pose proof (is_evictable_entry c q k i n Hinv Hk Hi) as Hev. unfold remove_unpinned_entry.
  rewrite (cbind_ok _ _ _ _ _ (keyed_node_ok _ _ _ _ _ Hi Hkey)). crun. rewrite Hev.
  set (c0 := set_cmap (delete k (cmap c)) c). pose proof Hinv as [[Hch Ht Hh Hha] Hm Hfr Hd Hcl Hct Hpi Hcap Hroom Hfa].
  assert (exists c2 q', unlink_from_list i op c0 = (Ok tt, c2) /\ listed c2 q' /\ relisted c0 c2 /\
    (forall j, j ∈ q' <-> j ∈ q /\ j <> i)) as (c2 & q' & Hu & Hl2 & (F1 & F2 & F3 & F4 & F5 & F6 & F7) & Hq').
  { assert (listed c0 q) as Hl0 by (by constructor). destruct (decide (i ∈ q)) as [Hiq|Hiq].
    - destruct (list_elem_of_split _ _ Hiq) as (a & b & ->). destruct (unlink_from_list_ok c0 a i b op Hl0) as (c2 & ? & ? & ?).
      exists c2, (a ++ b). split_and!; try done. intros j. destruct (NoDup_sides _ _ _ (ch_nodup _ _ Hch)) as (_ & _ & Ha & Hb & _).
      destruct (decide (j = i)) as [->|Hne]; [rewrite elem_of_app; tauto|]. rewrite (elem_of_skip a b i j Hne). tauto.
    - exists c0, q. split; [by eapply unlink_off_list|]. split; [done|]. split; [by unfold relisted|]. intros j. split; [|tauto].
      intros Hj. split; [done|]. by intros ->. }
  rewrite (cbind_ok _ _ _ _ _ Hu).
  assert (exists n2, slab c2 !! i = Some (Some n2)) as [n2 Hi2].
  { simpl in F1. rewrite <-F1 in Hcore. apply cores_node in Hcore as (n2 & ? & _). by exists n2. }
  assert (~ (i ∈ q')) as Hiq' by (rewrite Hq'; tauto). rewrite (cbind_ok _ _ _ _ _ (free_node_ok _ _ _ _ Hi2)).
  destruct (mapped_remove _ _ Hm _ _ Hk) as [Hm' HE]. pose proof (count_split (dirty c) _ _ _ He') as Hcs.
  set (c3 := set_free _ _). simpl in F1, F2, F3, F4, F5, F6, F7.
  assert (cores (<[i := None]> (slab c2)) = <[i := None]> (cores (slab c))) as Hco by (by rewrite cores_insert, F1).
  set (e' := if bool_decide (candidate (dirty c) (k, (node_page n, pins n))) then evictable c - 1 else evictable c).
  exists (set_evictable e' c3), q'. split.
  { unfold e'. case_bool_decide.
    - rewrite take_evictable_ok by (simpl; rewrite F6, Hct; lia). simpl. by rewrite F6.
    - by rewrite set_evictable_id. }
  assert (entries (set_evictable e' c3) = delete k (entries c)) as HE' by (unfold entries; simpl; by rewrite Hco, F3).
  assert (length (<[i := None]> (slab c2)) = length (slab c)) as Hlen by (by rewrite length_insert, <-(cores_length (slab c2)), F1, cores_length).
  split; [|split_and!; try done; simpl; unfold e'; case_bool_decide; lia].
  constructor; simpl; rewrite ?Hco, ?F2, ?F3, ?F4, ?F7; try done.
  - destruct Hl2. constructor; simpl; try done. by apply chained_off.
  - by eapply freed_add.
  - rewrite dom_delete_L. set_solver.
  - intros k' j [Hne Hj]%lookup_delete_Some. rewrite Hq', (Hcl _ _ Hj), elem_of_difference, elem_of_singleton.
    assert (j <> i); [|naive_solver]. intros ->. apply Hne. exact (mapped_inj _ _ Hm _ _ _ Hk Hj).
  - unfold entries in *. simpl in *. rewrite HE'. rewrite <-(count_ext (dirty c)).
    + unfold e'. rewrite Hct. case_bool_decide; lia.
    + intros k'. rewrite dom_delete_L. set_solver.
  - unfold entries in *. simpl in *. rewrite HE'. intros k' pg' p' [_ ?]%lookup_delete_Some. by eapply Hpi.
  - by rewrite Hlen.
Qed.

Lemma discard_dirty_entry_ok c q k pg p :
  inv c q -> entries c !! k = Some (pg, p) -> k ∈ dirty c ->
  exists c' q', discard_dirty_entry k c = (Ok tt, c') /\ inv c' q' /\
    entries c' = (if p =? 0 then delete k (entries c) else entries c) /\
    cmap c' = (if p =? 0 then delete k (cmap c) else cmap c) /\
    dirty c' = dirty c ∖ {[ k ]} /\ capacity c' = capacity c /\ length (slab c') = length (slab c).
Proof.
  intros Hinv He Hd. destruct (inv_entry _ _ Hinv _ _ _ He) as (i & n & Hk & Hi & Hkey & Hpg & Hp).
  pose proof (inv_pins _ _ Hinv _ _ _ He) as Hpos.
  assert (forall c1, (if 0 <? p then link_as_head i DISCARD_DIRTY else remove_unpinned_entry k i DISCARD_DIRTY) c = (Ok tt, c1) ->
    discard_dirty_entry k c = (Ok tt, set_dirty (dirty c1 ∖ {[ k ]}) c1)) as Hrun.
  { intros c1 Hr. apply guarded_ok; [apply Hinv|]. crun. rewrite Hk.
    rewrite (cbind_ok _ _ _ _ _ (keyed_node_ok _ _ _ _ _ Hi Hkey)), Hp. by rewrite (cbind_ok _ _ _ _ _ Hr). }
  destruct (Z.eqb_spec p 0) as [->|Hne].
  - destruct (remove_unpinned_ok c q k i pg DISCARD_DIRTY Hinv Hk He) as (c1 & q' & Hr & Hinv' & HE & Hm & Hdi & Hca & Hlen & _).
    exists (set_dirty (dirty c ∖ {[ k ]}) c1), q'. rewrite (Hrun c1), Hdi by done. by split_and!.
  - destruct (relink_clean c q k i pg p DISCARD_DIRTY Hinv Hk He Hd) as (c1 & q' & Hr & (F1 & F2 & F3 & F4 & F5 & F6 & F7) & Hinv' & HE & Hlen).
    rewrite (proj2 (Z.eqb_neq _ _)), Z.add_0_r, <-F6 in Hinv', HE by done.
    assert (set_evictable (evictable c1) (set_dirty (dirty c ∖ {[ k ]}) c1) = set_dirty (dirty c ∖ {[ k ]}) c1) as Eq by (by destruct c1).
    rewrite Eq in Hinv', HE. exists (set_dirty (dirty c ∖ {[ k ]}) c1), q'. rewrite (Hrun c1), F5.
    + by split_and!.
    + by rewrite (proj2 (Z.ltb_lt _ _)) by lia.
Qed.
