(* ===== verification/PageCacheSettle.v ===== *)
(** * PageCacheSettle: returning the memory of an overgrown page cache

    Compaction moves unpinned nodes to low slots, the slab is cut behind its
    highest live slot and the free slots are listed again. The entries stay, and
    so does the slot of every pinned entry. *)

From S2P Require Import Prelude Keys Errors PageFormat PageCache PageCacheList PageCacheInv PageCacheEvict PageCacheOps.
From Stdlib Require Import ZArith Lia.
From stdpp Require Import base list strings gmap sorting.

Local Open Scope Z_scope.
Local Open Scope pagedb_scope.

(** The invariant without the list of free slots, which compaction lets go stale. *)
Record solid (c : PageCache) (q : list nat) : Prop := mkSolid {
  so_listed : listed c q;
  so_mapped : mapped (cmap c) (cores (slab c));
  so_dirty : dirty c ⊆ dom (cmap c);
  so_clean : forall k i, cmap c !! k = Some i -> (i ∈ q <-> k ∉ dirty c);
  so_count : evictable c = Z.of_nat (count (dirty c) (entries c));
  so_pins : forall k pg p, entries c !! k = Some (pg, p) -> 0 <= p <= U32_MAX;
  so_cap : 1 <= capacity c;
  so_room : Z.of_nat (length (slab c)) <= SLAB_MAX;
  so_fault : fault c = None;
}.

Lemma inv_solid c q : inv c q -> solid c q.
Proof. by intros []. Qed.
Lemma solid_inv c q : solid c q -> freed (cores (slab c)) (free c) -> inv c q.
Proof. by intros []. Qed.

(** The entries stay where their pins hold them. *)
Record settled (c c' : PageCache) : Prop := mkSettled {
  se_entries : entries c' = entries c;
  se_slots : forall k pg p i, entries c !! k = Some (pg, p) -> p <> 0 -> cmap c !! k = Some i -> cmap c' !! k = Some i;
  se_dirty : dirty c' = dirty c;
  se_cap : capacity c' = capacity c;
  se_evictable : evictable c' = evictable c;
  se_len : cache_len c' = cache_len c;
}.

Lemma settled_refl c : settled c c.
Proof. by constructor. Qed.
Lemma settled_trans c1 c2 c3 : settled c1 c2 -> settled c2 c3 -> settled c1 c3.
Proof.
  intros [A1 A2 A3 A4 A5 A6] [B1 B2 B3 B4 B5 B6]. constructor; try congruence.
  intros k pg p i Hk Hp Hi. eapply B2; [by rewrite A1|done|]. by eapply A2.
Qed.

(** ** Moving one node *)

Lemma move_node_ok c q from to n op :
  solid c q -> slab c !! from = Some (Some n) -> pins n = 0 -> slab c !! to = Some None ->
  exists c' q', move_node from to op c = (Ok tt, c') /\ solid c' q' /\ settled c c' /\ free c' = free c /\
    cores (slab c') = <[to := Some (core n)]> (<[from := None]> (cores (slab c))).
Proof.
  intros Hso Hfrom Hpin Hto. pose proof Hso as [Hl Hm Hd Hcl Hct Hpi Hcap Hroom Hfa]. set (k := node_key n).
  pose proof (cores_lookup _ _ _ Hfrom) as Hcf. pose proof (proj2 (cores_None _ _) Hto) as Hct'.
  assert (cmap c !! k = Some from) as Hk by (apply Hm; unfold core in Hcf; eauto).
  destruct (mapped_move _ _ Hm k (node_page n) (pins n) from to Hcf Hct') as [Hm' HE]. assert (from <> to) as Hne by congruence.
  assert (exists c1 q', (if linked n then retarget_list_links from to (prev n) (next n) op else cret tt) c = (Ok tt, c1) /\
      chained (<[to := Some n]> (<[from := None]> (slab c1))) q' /\ slab c1 !! from = Some (Some n) /\ slab c1 !! to = Some None /\
      cores (slab c1) = cores (slab c) /\ list_tail c1 = head q' /\ list_head c1 = last q' /\ (forall h, hand c1 = Some h -> h ∈ q') /\
      (forall j, j ∈ q' <-> j = to /\ from ∈ q \/ j <> from /\ j ∈ q) /\
      capacity c1 = capacity c /\ cmap c1 = cmap c /\ free c1 = free c /\ dirty c1 = dirty c /\ evictable c1 = evictable c /\ fault c1 = fault c)
    as (c1 & q' & Hr1 & Hch1 & Hf1 & Ht1 & Hco1 & Htl & Hhd & Hha & Hq' & E1 & E2 & E3 & E4 & E5 & E6).
  { pose proof Hl as [Hch Ht Hh Hhand]. assert (~ (to ∈ q)) as Htq by (intros (m & ? & _)%(chained_in _ _ _ Hch); congruence).
    destruct (linked n) eqn:Hln.
    - pose proof (ch_only _ _ Hch _ _ Hfrom Hln) as Hfq. destruct (list_elem_of_split _ _ Hfq) as (a & b & ->).
      destruct (ch_on _ _ Hch a from b eq_refl) as (n0 & Hn0 & _ & Hp & Hn). assert (n0 = n) as -> by congruence. rewrite Hp, Hn.
      destruct (NoDup_sides _ _ _ (ch_nodup _ _ Hch)) as (_ & _ & Ha & Hb & _). rewrite elem_of_app, elem_of_cons in Htq.
      destruct (retarget_ok c a from b to op Hl) as (c1 & Hr & Hs1 & Ht1 & Hh1 & Hha1 & Hrest). exists c1, (a ++ to :: b).
      rewrite Hs1. split; [done|]. split; [by apply chained_move|]. rewrite !redirected_other, redirected_cores by tauto.
      split_and!; try done; try apply Hrest. intros j. rewrite !elem_of_app, !elem_of_cons.
      destruct (decide (j = from)) as [->|]; [|destruct (decide (j = to)) as [->|]]; tauto.
    - assert (~ (from ∈ q)) as Hfq by (intros (m & ? & ?)%(chained_in _ _ _ Hch); congruence).
      exists c, q. split; [done|]. split.
      { apply chained_off; [by apply chained_off|done|]. by intros ? [= <-]. }
      split_and!; try done. intros j. destruct (decide (j = from)) as [->|]; tauto. }
  unfold move_node. rewrite (cbind_node _ _ _ _ _ Hfrom), (cbind_ok _ _ _ _ _ Hr1). crun. fold k.
  rewrite E2, (bool_decide_true (cmap c !! k = Some from)) by done. crun. cbn [slab set_slab set_cmap]. rewrite Hf1. cbn [default from_option id].
  rewrite list_lookup_insert_ne, Ht1 by done. unfold cmodify. cbn [slab set_slab set_cmap].
  eexists _, q'. split; [reflexivity|].
  assert (cores (<[to := Some n]> (<[from := None]> (slab c1))) = <[to := Some (core n)]> (<[from := None]> (cores (slab c)))) as Hco
    by (by rewrite !cores_insert, Hco1).
  set (c' := set_slab _ _). assert (entries c' = entries c) as HE' by (unfold entries; simpl; by rewrite Hco).
  assert (cmap c' = <[k := to]> (cmap c)) as Hmap by done.
  split; [|split; [|done]].
  - constructor; rewrite ?HE'; simpl; rewrite ?Hco, ?E1, ?E4, ?E5, ?E6; try done.
    + rewrite dom_insert_L. set_solver.
    + intros k' j. rewrite lookup_insert_Some, Hq'. intros [[<- <-]|[Hkk Hj]].
      * rewrite <-(Hcl _ _ Hk). assert (~ (to ∈ q)); [|naive_solver]. intros (m & ? & _)%(chained_in _ _ _ (li_chained _ _ Hl)). congruence.
      * rewrite <-(Hcl _ _ Hj). assert (j <> from) by (intros ->; apply Hkk; exact (mapped_inj _ _ Hm _ _ _ Hk Hj)).
        assert (j <> to); [|naive_solver]. intros ->. apply Hm in Hj as (? & ? & ?). congruence.
    + by rewrite <-cores_length, Hco, !length_insert, cores_length.
  - constructor; try done.
    + intros k' pg p j He Hp Hj. rewrite Hmap, lookup_insert_ne; [done|]. intros <-.
      apply (entries_Some _ _ Hm) in He as (i & Hi & Hci). unfold core in Hcf. congruence.
    + unfold cache_len. simpl. f_equal. rewrite map_size_insert_Some; [done|by exists from].
Qed.

(** ** Compaction *)

Definition live (sl : list (option Node)) (i : nat) : Prop := exists n, sl !! i = Some (Some n).

Lemma live_cores sl i : live sl i <-> exists x, cores sl !! i = Some (Some x).
Proof.
  split; [intros [n Hn]; exists (core n); by apply cores_lookup|]. intros (x & (n & ? & _)%cores_node). by exists n.
Qed.

Lemma skip_live_ok s high : forall fuel low,
  (high - low <= fuel)%nat -> (forall j, (j < low)%nat -> live s j) ->
  let r := skip_live fuel s low high in
  (forall j, (j < r)%nat -> live s j) /\ ((high <= r)%nat \/ ~ live s r).
Proof.
  induction fuel as [|fuel IH]; intros low Hf Hl; simpl; [split; [done|left; lia]|].
  destruct (s !! low) as [[n|]|] eqn:Hs; rewrite ?andb_true_r, ?andb_false_r.
  2,3: split; [done|]; right; intros [n Hn]; congruence.
  case_bool_decide; [|split; [done|left; lia]]. apply IH; [lia|]. intros j Hj.
  destruct (decide (j = low)) as [->|]; [by exists n|]. apply Hl. lia.
Qed.

(** Nothing is live from [h] on, and below it no slot is free unless a pin holds the top one. *)
Definition compacted (sl : list (option Node)) (h : nat) : Prop :=
  (forall j, (h <= j)%nat -> ~ live sl j) /\
  ((forall j, (j < h)%nat -> live sl j) \/ exists i n, h = S i /\ sl !! i = Some (Some n) /\ 0 < pins n).

Lemma compact_loop_ok op : forall n low c q,
  solid c q -> (n <= length (slab c))%nat -> (forall j, (n <= j)%nat -> ~ live (slab c) j) ->
  (forall j, (j < low)%nat -> live (slab c) j) ->
  exists c' q', compact_loop n low op c = (Ok tt, c') /\ solid c' q' /\ settled c c' /\
    length (slab c') = length (slab c) /\ exists h, compacted (slab c') h.
Proof.
  induction n as [|high IH]; intros low c q Hso Hn Hhi Hlo.
  { exists c, q. split; [done|]. split; [done|]. split; [apply settled_refl|]. split; [done|]. exists 0%nat. split; [done|].
    left. intros j. lia. }
  cbn [compact_loop]. crun. destruct (lookup_lt_is_Some_2 (slab c) high) as [o Ho]; [lia|]. rewrite Ho.
  destruct o as [nd|].
  2: { apply (IH low c q); [done|lia| |done]. intros j Hj. destruct (decide (j = high)) as [->|]; [|apply Hhi; lia].
       intros [n Hl]. congruence. }
  assert (0 <= pins nd) as Hpos.
  { pose proof (cores_lookup _ _ _ Ho) as Hc. eapply (so_pins _ _ Hso (node_key nd) (node_page nd)).
    apply entries_Some; [apply Hso|]. exists high. split; [|done]. apply (so_mapped _ _ Hso). unfold core in Hc. eauto. }
  destruct (Z.ltb_spec 0 (pins nd)).
  { exists c, q. split; [done|]. split; [done|]. split; [apply settled_refl|]. split; [done|]. exists (S high). split; [done|].
    right. by exists high, nd. }
  destruct (skip_live_ok (slab c) high (high - low) low) as [Hlive Hstop]; [lia|done|].
  set (low' := skip_live (high - low) (slab c) low high) in *. case_bool_decide as Hlh.
  { exists c, q. split; [done|]. split; [done|]. split; [apply settled_refl|]. split; [done|]. exists (S high). split; [done|].
    left. intros j Hj. destruct (decide (j = high)) as [->|]; [by exists nd|]. apply Hlive. lia. }
  destruct Hstop as [?|Hfree]; [lia|].
  assert (slab c !! low' = Some None) as Hto.
  { destruct (lookup_lt_is_Some_2 (slab c) low') as [[n|] Hl]; [lia| |done]. destruct Hfree. by exists n. }
  destruct (move_node_ok c q high low' nd op Hso Ho ltac:(lia) Hto) as (c1 & q1 & Hr1 & Hso1 & Hse1 & _ & Hco1).
  rewrite (cbind_ok _ _ _ _ _ Hr1).
  assert (length (slab c1) = length (slab c)) as Hlen by (by rewrite <-cores_length, Hco1, !length_insert, cores_length).
  assert (forall j, live (slab c1) j <-> j = low' \/ j <> high /\ live (slab c) j) as Hl1.
  { intros j. rewrite !live_cores, Hco1. destruct (decide (low' = j)) as [<-|].
    - rewrite list_lookup_insert_eq by (rewrite length_insert, cores_length; lia). split; [by left|]. eauto.
    - rewrite list_lookup_insert_ne by done. destruct (decide (high = j)) as [<-|].
      + rewrite list_lookup_insert_eq by (rewrite cores_length; lia). naive_solver.
      + rewrite list_lookup_insert_ne by done. naive_solver. }
  destruct (IH low' c1 q1 Hso1) as (c' & q' & Hr & Hso' & Hse' & Hlen' & Hh).
  - lia.
  - intros j Hj. rewrite Hl1. intros [->|[Hne Hl]]; [lia|]. apply (Hhi j); [lia|done].
  - intros j Hj. apply Hl1. right. split; [lia|]. by apply Hlive.
  - exists c', q'. split; [done|]. split; [done|]. split; [by eapply settled_trans|]. split; [congruence|done].
Qed.

(** ** Cutting the slab *)

Lemma live_extent_ok sl h : compacted sl h -> live_extent sl = h.
Proof.
  intros [Hhi Hlo]. unfold live_extent.
  assert (h = 0%nat \/ exists i, h = S i /\ live sl i) as [->|(i & -> & Hi)].
  { destruct h as [|i]; [by left|]. right. exists i. split; [done|].
    destruct Hlo as [Hall|(i' & n & [= <-] & Hn & _)]; [apply Hall; lia|by exists n]. }
  - destruct (list_find is_Some (reverse sl)) as [[j o]|] eqn:Hf; [|done]. exfalso.
    apply list_find_Some in Hf as (Hj & [n ->] & _). apply list_elem_of_lookup_2, elem_of_reverse, list_elem_of_lookup_1 in Hj as [i Hi].
    apply (Hhi i); [lia|]. exists n. by rewrite reverse_involutive in Hi.
  - destruct Hi as [n Hn]. pose proof (lookup_lt_Some _ _ _ Hn) as Hlt.
    assert (list_find is_Some (reverse sl) = Some (length sl - S i, Some n)%nat) as ->; [|lia].
    apply list_find_Some. rewrite reverse_lookup by lia. replace (length sl - S (length sl - S i))%nat with i by lia.
    split; [done|]. split; [by eexists|]. intros j y Hj Hlt'. rewrite reverse_lookup in Hj by lia. intros [m ->].
    apply (Hhi (length sl - S j)%nat); [lia|]. by exists m.
Qed.

Lemma free_slots_ok sl : freed (cores sl) (free_slots sl).
Proof.
  split.
  - unfold free_slots. rewrite reverse_Permutation. apply NoDup_filter, NoDup_seq.
  - intros i. unfold free_slots. rewrite elem_of_reverse, list_elem_of_filter, elem_of_seq, cores_None. split; [tauto|].
    intros Hi. split; [done|]. apply lookup_lt_Some in Hi. lia.
Qed.

(** Every slot is free or named by the map. *)
Lemma slots_partition sl m fr : mapped m (cores sl) -> freed (cores sl) fr -> (length fr + size m = length sl)%nat.
Proof.
  intros Hm [Hfn Hff]. rewrite <-(length_seq (length sl) 0), <-(length_map_to_list m), <-(length_fmap snd (map_to_list m)), <-length_app.
  apply Permutation_length, NoDup_Permutation.
  - apply NoDup_app. split; [done|]. split; [|by eapply mapped_values].
    intros i Hi%Hff ([k j] & -> & Hk%elem_of_map_to_list)%list_elem_of_fmap. apply Hm in Hk as (? & ? & ?). simpl in Hi. congruence.
  - apply NoDup_seq.
  - intros i. rewrite elem_of_app, Hff, elem_of_seq, list_elem_of_fmap. split.
    + intros [Hi|([k j] & -> & Hk%elem_of_map_to_list)].
      * apply lookup_lt_Some in Hi. rewrite cores_length in Hi. lia.
      * apply Hm in Hk as (pg & p & Hi%lookup_lt_Some). rewrite cores_length in Hi. simpl. lia.
    + intros [_ Hi]. destruct (lookup_lt_is_Some_2 (cores sl) i) as [[[[k pg] p]|] Ho]; [by rewrite cores_length| |by left].
      right. exists (k, i). split; [done|]. apply elem_of_map_to_list, Hm. eauto.
Qed.

(** A slab cut behind its live slots holds the same. *)
Lemma take_live sl h i n : (forall j, (h <= j)%nat -> ~ live sl j) -> take h sl !! i = Some (Some n) <-> sl !! i = Some (Some n).
Proof.
  intros Hhi. rewrite lookup_take_Some. split; [tauto|]. intros Hi. split; [done|].
  destruct (decide (i < h)%nat); [done|]. destruct (Hhi i); [lia|by exists n].
Qed.

Lemma solid_take c q h :
  solid c q -> (forall j, (h <= j)%nat -> ~ live (slab c) j) ->
  let c' := set_slab (take h (slab c)) c in solid c' q /\ settled c c'.
Proof.
  intros Hso Hhi c'. pose proof Hso as [[[Hnd Hon Honly] Ht Hh Hha] Hm Hd Hcl Hct Hpi Hcap Hroom Hfa].
  assert (forall i k pg p, cores (take h (slab c)) !! i = Some (Some (k, pg, p)) <-> cores (slab c) !! i = Some (Some (k, pg, p))) as Hco.
  { intros i k pg p. split; intros (n & Hn & <-)%cores_node; apply cores_lookup; by apply (take_live _ h). }
  assert (mapped (cmap c) (cores (take h (slab c)))) as Hm' by (intros k i; setoid_rewrite Hco; apply Hm).
  assert (entries c' = entries c) as HE.
  { unfold entries. simpl. apply entries_eq; [done|]. intros k pg p. setoid_rewrite Hco. by apply entries_Some. }
  split; [constructor; rewrite ?HE; simpl; try done|by constructor].
  - constructor; simpl; try done. constructor; [done| |].
    + intros p i s Hq. destruct (Hon _ _ _ Hq) as (n & Hn & ?). exists n. split; [|done]. by apply (take_live _ h).
    + intros i n Hi. apply (take_live _ h _ _ Hhi) in Hi. by eapply Honly.
  - rewrite length_take. lia.
Qed.

Lemma reclaim_index_memory_ok c q map_cap :
  inv c q ->
  exists c' q', reclaim_index_memory map_cap c = (Ok tt, c') /\ inv c' q' /\ settled c c' /\
    (length (slab c') <= length (slab c))%nat /\
    (Z.of_nat (length (slab c)) <= saturating_mul (capacity c) 2 \/ compacted (slab c') (length (slab c'))).
Proof.
  intros Hinv. unfold reclaim_index_memory. crun. unfold id.
  destruct ((map_cap <=? _) && _) eqn:Hb.
  { exists c, q. split; [done|]. split; [done|]. split; [apply settled_refl|]. split; [done|]. left.
    by apply andb_true_iff in Hb as [_ ?%Z.leb_le]. }
  destruct (compact_loop_ok "reclaim_index_memory" (length (slab c)) 0 c q (inv_solid _ _ Hinv))
    as (c1 & q1 & Hr1 & Hso1 & Hse1 & Hlen1 & h & Hcp); [lia| |lia|].
  { intros j Hj [n Hn%lookup_lt_Some]. lia. }
  unfold compact_high_slots. crun. rewrite (cbind_ok _ _ _ _ _ Hr1). crun. unfold id. rewrite (live_extent_ok _ _ Hcp).
  destruct Hcp as [Hhi Hlo]. destruct (solid_take c1 q1 h Hso1 Hhi) as [Hso2 Hse2].
  set (c2 := set_slab (take h (slab c1)) c1) in *. set (c3 := set_free (free_slots (slab c2)) c2).
  assert (inv c3 q1) as Hinv3.
  { apply solid_inv; [|apply free_slots_ok]. destruct Hso2. constructor; try done. destruct so_listed0. by constructor. }
  assert (settled c c3) as Hse3.
  { eapply settled_trans; [exact Hse1|]. eapply settled_trans; [exact Hse2|]. by constructor. }
  exists c3, q1. split; [|split; [done|split; [done|split]]].
  - pose proof (slots_partition (slab c2) (cmap c2) (free_slots (slab c2)) (so_mapped _ _ Hso2) (free_slots_ok _)) as Hpart.
    assert (saturating_add (Z.of_nat (length (free c3))) (cache_len c3) = Z.of_nat (length (slab c3))) as Heq.
    { unfold saturating_add, cache_len. simpl in *. pose proof (inv_room _ _ Hinv3) as Hroom. simpl in Hroom.
      unfold SLAB_MAX, U64_MAX in *. lia. }
    by rewrite Heq, Z.eqb_refl.
  - simpl. rewrite length_take. lia.
  - right. simpl. assert (length (take h (slab c1)) = h) as Hth.
    { rewrite length_take, Nat.min_l; [done|]. destruct h as [|i]; [lia|].
      assert (live (slab c1) i) as [n Hn%lookup_lt_Some]; [|lia].
      destruct Hlo as [Hall|(i' & n & [= <-] & Hn & _)]; [apply Hall; lia|by exists n]. }
    rewrite Hth. split.
    + intros j Hj [n Hn%lookup_lt_Some]. lia.
    + destruct Hlo as [Hall|(i & n & -> & Hn & Hp)].
      * left. intros j Hj. destruct (Hall j Hj) as [n Hn]. exists n. by apply (take_live _ h).
      * right. exists i, n. split; [done|]. split; [|done]. by apply (take_live _ (S i)).
Qed.

(** ** The end of a batch *)

(** Clean unpinned entries may leave; pinned entries keep their slots. *)
Record shrunk (c c' : PageCache) : Prop := mkShrunk {
  sh_sub : entries c' ⊆ entries c;
  sh_keep : forall k pg p, entries c !! k = Some (pg, p) -> p <> 0 \/ k ∈ dirty c -> entries c' !! k = Some (pg, p);
  sh_slots : forall k pg p i, entries c !! k = Some (pg, p) -> p <> 0 -> cmap c !! k = Some i -> cmap c' !! k = Some i;
  sh_dirty : dirty c' = dirty c;
  sh_cap : capacity c' = capacity c;
  sh_slab : (length (slab c') <= length (slab c))%nat;
}.

(** In budget, or nothing to evict. *)
Definition in_budget (c : PageCache) : Prop := cache_len c <= capacity c \/ evictable c = 0.

Lemma trimmed_slots c c' q q' :
  inv c q -> inv c' q' -> trimmed c c' ->
  forall k pg p i, entries c !! k = Some (pg, p) -> p <> 0 -> cmap c !! k = Some i -> cmap c' !! k = Some i.
Proof.
  intros Hinv Hinv' [Hsub Hkeep Hsl _ _ _] k pg p i He Hp Hi.
  pose proof (Hkeep k pg p He (or_introl Hp)) as He'. destruct (inv_entry _ _ Hinv' _ _ _ He') as (j & _ & Hj & _).
  pose proof (lookup_weaken _ _ _ _ Hj Hsl). congruence.
Qed.

Lemma trimmed_shrunk c c' q q' : inv c q -> inv c' q' -> trimmed c c' -> shrunk c c'.
Proof.
  intros Hi Hi' Ht. pose proof (trimmed_slots _ _ _ _ Hi Hi' Ht). destruct Ht as [? ? ? ? ? Hlen]. constructor; try done. by rewrite Hlen.
Qed.

Lemma settle_batch_ok debug iter c q map_cap op :
  (forall m, iter m ≡ₚ map_to_list m) -> inv c q ->
  exists c' q', settle_batch debug iter map_cap op c = (Ok tt, c') /\ inv c' q' /\ shrunk c c' /\ in_budget c'.
Proof.
  intros iter_ok Hinv. unfold settle_batch. crun. unfold id.
  destruct (trim_to_ok debug iter iter_ok c q (capacity c) Hinv) as (c1 & q1 & Hr1 & Hinv1 & Htr & Hb). rewrite (cbind_ok _ _ _ _ _ Hr1).
  destruct (reclaim_index_memory_ok c1 q1 map_cap Hinv1) as (c2 & q2 & Hr2 & Hinv2 & Hse & Hlen & _). rewrite (cbind_ok _ _ _ _ _ Hr2).
  pose proof (trimmed_shrunk _ _ _ _ Hinv Hinv1 Htr) as [A1 A2 A3 A4 A5 A6]. destruct Hse as [B1 B2 B3 B4 B5 B6].
  assert (in_budget c2) as Hbud by (unfold in_budget; rewrite B4, B5, B6, A5; done).
  exists c2, q2. split; [apply check_within_budget_ok; destruct Hbud; [by left|right; lia]|]. split; [done|]. split; [|done].
  constructor; rewrite ?B1; try done; try congruence; try lia.
  intros k pg p i He Hp Hi. eapply B2; [|done|by eapply A3]. apply A2; [done|by left].
Qed.
