(* ===== verification/PageCacheBatch.v ===== *)
(** * PageCacheBatch: releases, flushes, discards and clears of the page cache

    The operations that go over many entries, and the release of a pin, each
    with the set of entries it leaves and the dirty set afterwards. *)

From S2P Require Import Prelude Keys Errors PageFormat PageCache PageCacheList PageCacheInv PageCacheEvict PageCacheOps PageCacheSettle.
From Stdlib Require Import ZArith Lia.
From stdpp Require Import base list strings gmap sorting.

Local Open Scope Z_scope.
Local Open Scope pagedb_scope.

Lemma shrunk_refl c : shrunk c c.
Proof. by constructor. Qed.

Section batch.
Context (debug : bool) (iter : gmap Key nat -> list (Key * nat)) (iter_ok : forall m, iter m ≡ₚ map_to_list m).

(** ** Releasing a pin *)

Lemma unpin_at_ok c q k i pg p :
  inv c q -> in_budget c -> cmap c !! k = Some i -> entries c !! k = Some (pg, p) -> p <> 0 ->
  exists c' q' c1, unpin_at debug iter i k c = (Ok tt, c') /\ inv c' q' /\ in_budget c' /\
    repinned c c1 k (p - 1) /\ inv c1 q /\ shrunk c1 c'.
Proof.
  intros Hinv Hbud Hk He Hp. destruct (inv_entry _ _ Hinv _ _ _ He) as (i' & n & Hk' & Hi & Hkey & Hpg & Hpn).
  assert (i' = i) as -> by congruence. pose proof (inv_pins _ _ Hinv _ _ _ He) as Hpos.
  pose proof (count_update c k _ (pg, p - 1) He) as Hcu.
  rewrite (bool_decide_false (candidate _ (k, (pg, p)))) in Hcu by (by intros [? _]). rewrite Nat.add_0_r in Hcu.
  set (n' := set_pins (p - 1) n). set (ev := bool_decide (candidate (dirty c) (k, (pg, p - 1)))) in *.
  set (c1 := set_evictable (evictable c + if ev then 1 else 0) (set_slab (<[i := Some n']> (slab c)) c)).
  destruct (inv_update c q k i n n' (evictable c + if ev then 1 else 0)) as [Hinv1 HE1]; try done.
  { simpl. lia. } { simpl. rewrite Hpg, Hcu, (inv_count _ _ Hinv). destruct ev; lia. }
  fold c1 in Hinv1, HE1. simpl node_page in HE1. simpl pins in HE1. rewrite Hpg in HE1.
  assert (repinned c c1 k (p - 1)) as Hrp by (constructor; [exists pg; by rewrite He|done..|apply length_insert]).
  assert (is_evictable n' (dirty c) = ev) as Hev.
  { unfold is_evictable, ev, candidate. simpl. rewrite Hkey. apply eq_true_iff_eq.
    rewrite andb_true_iff, negb_true_iff, bool_decide_eq_false, bool_decide_eq_true, Z.eqb_eq. done. }
  assert (exists c' q', (with! _ := if ev then with! _ := add_evictable in with! c := cgets id in
        if capacity c <? cache_len c then trim_to debug iter (capacity c) else cret tt else cret tt in
      check_within_budget debug "unpin_at") (set_slab (<[i := Some n']> (slab c)) c) = (Ok tt, c') /\
      inv c' q' /\ in_budget c' /\ shrunk c1 c') as (c' & q' & Hr & Hinv' & Hb' & Hsh).
  { destruct ev eqn:Eev.
    - unfold add_evictable. crun. unfold id. simpl evictable. unfold saturating_add.
      pose proof (inv_evictable_le _ _ Hinv). pose proof (inv_len_room _ _ Hinv). rewrite Z.min_l by (unfold SLAB_MAX, U64_MAX in *; lia).
      change (set_evictable (evictable c + 1) _) with c1. destruct (Z.ltb_spec (capacity c1) (cache_len c1)).
      + destruct (trim_to_ok debug iter iter_ok c1 q (capacity c1) Hinv1) as (c2 & q2 & Hr2 & Hinv2 & Htr & Hb).
        rewrite (cbind_ok _ _ _ _ _ Hr2). exists c2, q2. rewrite check_within_budget_ok by (destruct Htr as [_ _ _ _ -> _]; destruct Hb; [by left|right; lia]).
        split; [done|]. split; [done|]. split; [by destruct Htr as [_ _ _ _ Hc _]; unfold in_budget; rewrite Hc|].
        by eapply trimmed_shrunk.
      + crun. exists c1, q. rewrite check_within_budget_ok by (left; lia). split; [done|]. split; [done|]. split; [left; lia|apply shrunk_refl].
    - crun. assert (c1 = set_slab (<[i := Some n']> (slab c)) c) as Hc1 by (unfold c1; by rewrite Z.add_0_r, set_evictable_slab).
      rewrite <-Hc1. assert (in_budget c1) as Hb1 by (unfold in_budget, cache_len in *; simpl; by rewrite Z.add_0_r).
      exists c1, q. rewrite check_within_budget_ok by (destruct Hb1; [by left|right; lia]). split; [done|]. split; [done|].
      split; [done|]. apply shrunk_refl. }
  exists c', q', c1. split; [|done]. unfold unpin_at. apply ignore_ok, guarded_ok; [apply Hinv|].
  rewrite (cbind_ok _ _ _ _ _ (keyed_node_ok _ _ _ _ _ Hi Hkey)), Hpn, (proj2 (Z.eqb_neq _ _)) by done. crun. fold n'.
  simpl dirty. by rewrite Hev.
Qed.

(** ** After a flush *)

(** The dirty set once the pages that reached the disk unchanged are clean. *)
Fixpoint flushed (file : FileKey) (gathered : list (Z * Page)) (pages : gmap Key Page) (d : gset Key) : gset Key :=
  match gathered with
  | [] => d
  | (pid, snapshot) :: gathered =>
      flushed file gathered pages
        (if match pages !! (file, pid) with Some page => ptr_eq page snapshot | None => false end then d ∖ {[ (file, pid) ]} else d)
  end.

Lemma finish_loop_ok file : forall gathered c q,
  inv c q -> exists c' q', finish_loop file gathered c = (Ok tt, c') /\ inv c' q' /\ entries c' = entries c /\ cmap c' = cmap c /\
    capacity c' = capacity c /\ length (slab c') = length (slab c) /\
    dirty c' = flushed file gathered (fst <$> entries c) (dirty c).
Proof using.
  clear iter_ok.
  induction gathered as [|[pid snap] gathered IH]; intros c q Hinv; [by exists c, q|]. cbn [finish_loop flushed].
  destruct (cache_get_ok c q (file, pid) Hinv) as (c1 & Hg & Hinv1 & Ha). rewrite (cbind_ok _ _ _ _ _ Hg).
  pose proof (aged_entries _ _ Ha) as HE1. destruct Ha as (Hco & _ & _ & _ & E5 & E6 & _ & E8 & _).
  assert (length (slab c1) = length (slab c)) as Hlen1 by (by rewrite <-cores_length, Hco, cores_length).
  rewrite <-lookup_fmap. set (b := match (fst <$> entries c) !! (file, pid) with Some page => ptr_eq page snap | None => false end).
  assert (exists c2 q2, match (fst <$> entries c) !! (file, pid) with
      | Some page => if ptr_eq page snap then clear_dirty (file, pid) else cret tt | None => cret tt end c1 = (Ok tt, c2) /\
      inv c2 q2 /\ entries c2 = entries c /\ cmap c2 = cmap c /\ capacity c2 = capacity c /\ length (slab c2) = length (slab c) /\
      dirty c2 = if b then dirty c ∖ {[ (file, pid) ]} else dirty c) as (c2 & q2 & Hr2 & Hinv2 & A1 & A2 & A3 & A4 & A5).
  { unfold b. destruct ((fst <$> entries c) !! (file, pid)) as [page|]; [destruct (ptr_eq page snap)|].
    - destruct (clear_dirty_ok c1 q (file, pid) Hinv1) as (c2 & q2 & ? & ? & ? & ? & Hd & ? & ?). exists c2, q2.
      rewrite Hd, E8. split_and!; try done; congruence.
    - exists c1, q. by split_and!.
    - exists c1, q. by split_and!. }
  rewrite (cbind_ok _ _ _ _ _ Hr2). destruct (IH c2 q2 Hinv2) as (c' & q' & Hr & Hinv' & B1 & B2 & B3 & B4 & B5).
  exists c', q'. split; [done|]. rewrite B5, A5, A1. split_and!; try done; congruence.
Qed.

Lemma finish_flush_ok c q map_cap file gathered :
  inv c q -> exists c' q' c1 q1, finish_flush debug iter map_cap file gathered c = (Ok tt, c') /\ inv c' q' /\ in_budget c' /\
    inv c1 q1 /\ entries c1 = entries c /\ cmap c1 = cmap c /\ capacity c1 = capacity c /\ length (slab c1) = length (slab c) /\
    dirty c1 = flushed file gathered (fst <$> entries c) (dirty c) /\ shrunk c1 c'.
Proof.
  intros Hinv. destruct (finish_loop_ok file gathered c q Hinv) as (c1 & q1 & Hr1 & Hinv1 & Hrest).
  destruct (settle_batch_ok debug iter c1 q1 map_cap "finish_flush" iter_ok Hinv1) as (c' & q' & Hr & Hinv' & Hsh & Hb).
  exists c', q', c1, q1. split; [|by destruct Hrest as (? & ? & ? & ? & ?)]. unfold finish_flush. rewrite (cbind_ok _ _ _ _ _ Hr1).
  apply guarded_ok; [apply Hinv1|done].
Qed.

(** ** Discards *)

(** The unpinned entries of [ks] are gone. *)
Definition without (ks : list Key) (E : gmap Key (Page * Z)) : gmap Key (Page * Z) :=
  filter (fun e : Key * (Page * Z) => ~ (e.1 ∈ ks /\ e.2.2 = 0)) E.

Lemma discard_loop_ok file : forall pids c q,
  inv c q -> NoDup pids -> (forall pid, pid ∈ pids -> (file, pid) ∈ dirty c) ->
  exists c' q', discard_loop file pids c = (Ok tt, c') /\ inv c' q' /\ entries c' = without (pair file <$> pids) (entries c) /\
    cmap c' ⊆ cmap c /\ dirty c' = dirty c ∖ list_to_set (pair file <$> pids) /\ capacity c' = capacity c /\
    length (slab c') = length (slab c).
Proof using.
  clear iter_ok.
  induction pids as [|pid pids IH]; intros c q Hinv Hnd Hd.
  { exists c, q. split; [done|]. split; [done|]. split; [|split; [done|split; [set_solver|done]]].
    symmetry. apply map_filter_id. intros k e _ [Hx _]. by apply not_elem_of_nil in Hx. }
  apply NoDup_cons in Hnd as [Hpid Hnd]. cbn [discard_loop]. set (k := (file, pid)).
  assert (k ∈ dirty c) as Hk by (apply Hd; by left).
  assert (exists pg p, entries c !! k = Some (pg, p)) as (pg & p & He).
  { pose proof (inv_dirty _ _ Hinv _ Hk) as [i Hi]%elem_of_dom. destruct (inv_node _ _ Hinv _ _ Hi) as (n & _ & _ & He & _). eauto. }
  destruct (discard_dirty_entry_ok c q k pg p Hinv He Hk) as (c1 & q1 & Hr1 & Hinv1 & A1 & A2 & A3 & A4 & A5).
  rewrite (cbind_ok _ _ _ _ _ Hr1). destruct (IH c1 q1 Hinv1 Hnd) as (c' & q' & Hr & Hinv' & B1 & B2 & B3 & B4 & B5).
  { intros pid' Hin. rewrite A3. apply elem_of_difference. split; [apply Hd; by right|]. intros [= ->]%elem_of_singleton. done. }
  exists c', q'. split; [done|]. split; [done|]. split; [|split; [|split; [|split; congruence]]].
  - rewrite B1, A1. apply map_eq. intros k'. apply option_eq. intros [pg' p']. unfold without. rewrite !map_lookup_filter_Some. simpl.
    fold k. rewrite elem_of_cons. destruct (Z.eqb_spec p 0) as [->|Hp].
    + rewrite lookup_delete_Some. split.
      * intros [[Hne ?] Hx]. split; [done|]. intros [[->|?] ?]; [done|]. tauto.
      * intros [He' Hx]. split; [split; [|done]|tauto]. intros <-. apply Hx. split; [by left|]. rewrite He in He'. by injection He'.
    + split; [|tauto]. intros [He' Hx]. split; [done|]. intros [[->|?] ->]; [|tauto]. rewrite He in He'. by injection He'.
  - etrans; [exact B2|]. rewrite A2. destruct (p =? 0); [apply delete_subseteq|done].
  - rewrite B3, A3. simpl. fold k. set_solver.
Qed.

(** The dirty pages of a file, each once. *)
Lemma dirty_for_file_ok file c :
  NoDup (dirty_for_file file c) /\ forall pid, pid ∈ dirty_for_file file c <-> (file, pid) ∈ dirty c.
Proof using.
  clear iter_ok.
  unfold dirty_for_file. rewrite merge_sort_Permutation. split.
  - apply NoDup_fmap_2_strong; [|apply NoDup_filter, NoDup_elements].
    intros [f1 p1] [f2 p2] [E1 _]%list_elem_of_filter [E2 _]%list_elem_of_filter. simpl in *. congruence.
  - intros pid. rewrite merge_sort_Permutation, list_elem_of_fmap. split.
    + intros ([f p] & -> & [E Hp]%list_elem_of_filter). simpl in *. subst f. by apply elem_of_elements.
    + intros Hp. exists (file, pid). split; [done|]. apply list_elem_of_filter. split; [done|]. by apply elem_of_elements.
Qed.

Lemma discard_dirty_ok c q map_cap file :
  inv c q -> exists c' q' c1 q1, discard_dirty debug iter map_cap file c = (Ok tt, c') /\ inv c' q' /\ in_budget c' /\
    inv c1 q1 /\ entries c1 = without (pair file <$> dirty_for_file file c) (entries c) /\ cmap c1 ⊆ cmap c /\
    dirty c1 = dirty c ∖ list_to_set (pair file <$> dirty_for_file file c) /\ capacity c1 = capacity c /\
    length (slab c1) = length (slab c) /\ shrunk c1 c'.
Proof.
  intros Hinv. destruct (dirty_for_file_ok file c) as [Hnd Hin].
  destruct (discard_loop_ok file (dirty_for_file file c) c q Hinv Hnd) as (c1 & q1 & Hr1 & Hinv1 & Hrest); [by intros pid ?%Hin|].
  destruct (settle_batch_ok debug iter c1 q1 map_cap DISCARD_DIRTY iter_ok Hinv1) as (c' & q' & Hr & Hinv' & Hsh & Hb).
  exists c', q', c1, q1. split; [|by destruct Hrest as (? & ? & ? & ? & ?)]. unfold discard_dirty. apply ignore_ok. crun.
  rewrite (cbind_ok _ _ _ _ _ Hr1). apply guarded_ok; [apply Hinv1|done].
Qed.

(** ** Clears *)

(** Whether a clear takes the entry. *)
Definition goes (keep_dirty : bool) (ks : list Key) (d : gset Key) (e : Key * (Page * Z)) : Prop :=
  e.1 ∈ ks /\ e.2.2 = 0 /\ (keep_dirty = true -> e.1 ∉ d).
#[local] Instance goes_dec keep ks d e : Decision (goes keep ks d e).
Proof. unfold goes. apply _. Defined.

Lemma clear_loop_ok keep : forall es c q,
  inv c q -> NoDup es.*1 -> Forall (fun e : Key * nat => cmap c !! e.1 = Some e.2) es -> 
  exists c' q', clear_loop keep es c = (Ok tt, c') /\ inv c' q' /\ (evictable c' <= evictable c) /\
    entries c' = filter (fun e => ~ goes keep es.*1 (dirty c) e) (entries c) /\ cmap c' ⊆ cmap c /\
    (forall k, k ∈ dirty c' <-> k ∈ dirty c /\ ~ (keep = false /\ k ∈ es.*1 /\ snd <$> entries c !! k = Some 0)) /\
    capacity c' = capacity c /\ length (slab c') = length (slab c).
Proof using.
  clear iter_ok.
  induction es as [|[k i] es IH]; intros c q Hinv Hnd Hf.
  { exists c, q. split; [done|]. split; [done|]. split; [lia|]. split; [|split; [done|split; [|done]]].
    - symmetry. apply map_filter_id. intros k e _ [Hx _]. by apply not_elem_of_nil in Hx.
    - intros k. split; [|tauto]. intros Hk. split; [done|]. intros (_ & Hx & _). by apply not_elem_of_nil in Hx. }
  rewrite fmap_cons in Hnd. apply NoDup_cons in Hnd as [Hk Hnd]. apply Forall_cons in Hf as [Hi Hf]. simpl in Hi, Hk.
  cbn [clear_loop]. destruct (inv_node _ _ Hinv _ _ Hi) as (n & Hn & Hkey & He & _).
  pose proof (inv_pins _ _ Hinv _ _ _ He) as Hpos. rewrite (cbind_ok _ _ _ _ _ (keyed_node_ok _ _ _ _ _ Hn Hkey)). crun.
  assert (~ goes keep [k] (dirty c) (k, (node_page n, pins n)) ->
    exists c' q', clear_loop keep es c = (Ok tt, c') /\ inv c' q' /\ (evictable c' <= evictable c) /\
    entries c' = filter (fun e => ~ goes keep (k :: es.*1) (dirty c) e) (entries c) /\ cmap c' ⊆ cmap c /\
    (forall k', k' ∈ dirty c' <-> k' ∈ dirty c /\ ~ (keep = false /\ k' ∈ k :: es.*1 /\ snd <$> entries c !! k' = Some 0)) /\
    capacity c' = capacity c /\ length (slab c') = length (slab c)) as Hskip.
  { intros Hno. destruct (IH c q Hinv Hnd Hf) as (c' & q' & Hr & Hinv' & Hev & HE & Hm & Hd & Hrest). exists c', q'.
    split; [done|]. split; [done|]. split; [done|]. split; [|split; [done|split; [|done]]].
    - rewrite HE. apply map_filter_ext. intros k' e He'. unfold goes in *. simpl. rewrite elem_of_cons.
      assert (k' = k -> ~ (e.2 = 0 /\ (keep = true -> k' ∉ dirty c))); [|naive_solver]. intros -> Hx. apply Hno. simpl.
      split; [by left|]. rewrite He in He'. injection He' as <-. done.
    - intros k'. rewrite Hd. rewrite elem_of_cons. assert (k' = k -> ~ (keep = false /\ snd <$> entries c !! k' = Some 0)); [|naive_solver].
      intros -> [Hkeep Hx]. apply Hno. rewrite He in Hx. injection Hx as Hx. split; [by left|]. split; [done|]. by rewrite Hkeep. }
  rewrite fmap_cons. simpl fst. destruct (Z.ltb_spec 0 (pins n)).
  { apply Hskip. intros (_ & Hx & _). simpl in Hx. lia. }
  assert (pins n = 0) as Hp0 by lia. rewrite Hp0 in *.
  destruct (keep && bool_decide (k ∈ dirty c)) eqn:Hkd.
  { apply andb_true_iff in Hkd as [-> Hkd%bool_decide_eq_true]. apply Hskip. intros (_ & _ & Hx). by apply Hx. }
  clear Hskip. destruct (remove_unpinned_ok c q k i _ "clear_file" Hinv Hi He) as (c1 & q1 & Hr1 & Hinv1 & A1 & A2 & A3 & A4 & A5 & A6).
  rewrite (cbind_ok _ _ _ _ _ Hr1). set (c2 := set_dirty (dirty c ∖ {[ k ]}) c1) in *.
  assert ((if keep then cret tt else cmodify (fun c => set_dirty (dirty c ∖ {[ k ]}) c)) c1 = (Ok tt, c2)) as Hr2.
  { unfold c2. destruct keep; [|by unfold cmodify; rewrite A3]. simpl in Hkd. apply bool_decide_eq_false in Hkd.
    rewrite set_dirty_id; [done|]. rewrite A3. set_solver. }
  rewrite (cbind_ok _ _ _ _ _ Hr2). destruct (IH c2 q1 Hinv1 Hnd) as (c' & q' & Hr & Hinv' & Hev & HE & Hm & Hd & B4 & B5).
  { apply Forall_forall. intros [k' i'] Hx. rewrite Forall_forall in Hf. pose proof (Hf _ Hx) as Hk'. simpl in *. rewrite A2.
    apply lookup_delete_Some. split; [|done]. intros <-. apply Hk. apply list_elem_of_fmap. by exists (k, i'). }
  simpl evictable in Hev. simpl capacity in B4. simpl slab in B5. simpl dirty in HE, Hd. simpl cmap in Hm.
  change (entries c2) with (entries c1) in HE, Hd. rewrite A1 in HE, Hd.
  exists c', q'. split; [done|]. split; [done|]. split; [lia|]. split; [|split; [|split; [|split; congruence]]].
  - rewrite HE. apply map_eq. intros k'. apply option_eq. intros e. rewrite !map_lookup_filter_Some, lookup_delete_Some.
    unfold goes. simpl. rewrite elem_of_cons, elem_of_difference, elem_of_singleton. split.
    + intros [[Hne He'] Hx]. split; [done|]. intros [[->|Hin] Hy]; [done|]. apply Hx. split; [done|]. naive_solver.
    + intros [He' Hx]. assert (k' <> k) as Hne.
      { intros ->. apply Hx. rewrite He in He'. injection He' as <-. split; [by left|]. split; [done|]. intros ->. simpl in Hkd.
        by apply bool_decide_eq_false in Hkd. }
      split; [done|]. intros [Hin Hy]. apply Hx. split; [by right|]. naive_solver.
  - etrans; [exact Hm|]. rewrite A2. apply delete_subseteq.
  - intros k'. rewrite Hd, elem_of_difference, elem_of_singleton, elem_of_cons. destruct (decide (k' = k)) as [->|Hne].
    + rewrite He. simpl. split; [tauto|]. intros [Hx Hy]. exfalso. destruct keep; [|naive_solver]. simpl in Hkd.
      by apply bool_decide_eq_false in Hkd.
    + rewrite lookup_delete_ne by done. tauto.
Qed.

(** Clearing a file drops its unpinned entries, dirty ones only if asked to. *)
Lemma clear_file_entries_ok c q file keep :
  inv c q -> in_budget c ->
  exists c' q', clear_file_entries iter file keep c = (Ok tt, c') /\ inv c' q' /\ in_budget c' /\
    entries c' = filter (fun e : Key * (Page * Z) => ~ (e.1.1 = file /\ e.2.2 = 0 /\ (keep = true -> e.1 ∉ dirty c))) (entries c) /\
    cmap c' ⊆ cmap c /\
    dirty c' = filter (fun k => ~ (keep = false /\ k.1 = file /\ snd <$> entries c !! k = Some 0)) (dirty c) /\
    capacity c' = capacity c /\ length (slab c') = length (slab c).
Proof.
  intros Hinv Hbud. set (es := filter (fun e : Key * nat => e.1.1 = file) (iter (cmap c))).
  assert (forall k, k ∈ es.*1 <-> k.1 = file /\ is_Some (cmap c !! k)) as Hes.
  { intros k. unfold es. rewrite list_elem_of_fmap. setoid_rewrite list_elem_of_filter. setoid_rewrite iter_ok.
    setoid_rewrite elem_of_map_to_list'. split.
    - intros ([k' i] & -> & Hf & Hk). simpl in *. eauto.
    - intros [Hf [i Hk]]. by exists (k, i). }
  destruct (clear_loop_ok keep es c q Hinv) as (c' & q' & Hr & Hinv' & Hev & HE & Hm & Hd & Hc & Hl).
  { apply NoDup_fmap_2_strong.
    - intros [k1 i1] [k2 i2] H1 H2. unfold es in H1, H2. rewrite list_elem_of_filter, iter_ok, elem_of_map_to_list in H1, H2.
      simpl. intros ->. f_equal. destruct H1 as [_ H1], H2 as [_ H2]. congruence.
    - apply NoDup_filter. rewrite iter_ok. apply NoDup_map_to_list. }
  { apply Forall_forall. intros [k i]. unfold es. rewrite list_elem_of_filter, iter_ok, elem_of_map_to_list. tauto. }
  assert (forall k e, entries c !! k = Some e -> is_Some (cmap c !! k)) as Hres.
  { intros k [pg p] (i & n & ? & _)%(inv_entry _ _ Hinv). by exists i. }
  exists c', q'. split; [apply guarded_ok; [apply Hinv|]; crun; exact Hr|]. split; [done|]. split; [|split; [|split; [done|split; [|done]]]].
  - unfold in_budget in *. rewrite Hc. pose proof (inv_evictable_le _ _ Hinv'). destruct Hbud as [?|?]; [left|right; lia].
    unfold cache_len in *. pose proof (map_subseteq_size _ _ Hm). lia.
  - rewrite HE. apply map_filter_ext. intros k e He. unfold goes. simpl. rewrite Hes. pose proof (Hres _ _ He). tauto.
  - apply set_eq. intros k. rewrite Hd, elem_of_filter, Hes. split; [|intros [Hx Hk]; split; [done|tauto]].
    intros [Hk Hx]. split; [|done]. intros (H1 & H2 & H3). apply Hx. split_and!; try done.
    destruct (entries c !! k) as [e|] eqn:He; [|done]. by eapply Hres.
Qed.
End batch.
