(* ===== verification/PageCacheSpec.v ===== *)
(** * PageCacheSpec: the page cache refines a map from keys to pages

    The pager's uses of the cache, each under one hold of its mutex, and the
    guards that hold pins between them. The abstract state is the pages, the
    dirty keys and the keys of the live guards; an abstract step may evict pages
    that are neither dirty nor guarded. *)

From S2P Require Import Prelude Keys Errors PageFormat PageCache PageCacheList PageCacheInv PageCacheEvict PageCacheOps PageCacheSettle PageCacheBatch.
From Stdlib Require Import ZArith Lia.
From stdpp Require Import base list strings gmap sorting.

Local Open Scope Z_scope.
Local Open Scope pagedb_scope.

(** ** The uses of the cache *)

Inductive cache_op :=
| OpGet (k : Key)
| OpGetDirty (k : Key)
| OpRead (k : Key)
| OpFetch (k : Key) (page : Page)
| OpRelease (j : nat)
| OpMark (j : nat)
| OpWrite (k : Key) (page : Page)
| OpFlushed (map_cap : Z) (file : FileKey) (gathered : list (Z * Page))
| OpDiscard (map_cap : Z) (file : FileKey)
| OpClear (file : FileKey)
| OpClearClean (file : FileKey).

Inductive outcome := Done | Returned (page : option Page).

(** A cache and the guards that hold pins in it, with the slot each one keeps. *)
Record sys := mkSys {
  s_cache : PageCache;
  s_guards : list (Key * nat);
}.

Definition on_cache {A} (m : C A) (s : sys) (out : A -> outcome) (guards : A -> list (Key * nat)) : res CacheFault outcome * sys :=
  match m (s_cache s) with
  | (Ok a, c) => (Ok (out a), mkSys c (guards a))
  | (Err e, c) => (Err e, mkSys c (s_guards s))
  | (Panic, c) => (Panic, mkSys c (s_guards s))
  end.

Section exec.
Context (debug : bool) (iter : gmap Key nat -> list (Key * nat)).

Definition cache_exec (o : cache_op) (s : sys) : res CacheFault outcome * sys :=
  let g := s_guards s in
  match o with
  | OpGet k => on_cache (cache_get k) s Returned (fun _ => g)
  | OpGetDirty k => on_cache (get_dirty k) s Returned (fun _ => g)
  | OpRead k =>
      on_cache (get_and_pin k) s (fun r => Returned (fst <$> r))
        (fun r => match r with Some (_, slot) => (k, slot) :: g | None => g end)
  | OpFetch k page => on_cache (insert_and_pin debug iter k page) s (fun r => Returned (Some r.1)) (fun r => (k, r.2) :: g)
  | OpRelease j =>
      match g !! j with
      | Some (k, slot) => on_cache (unpin_at debug iter slot k) s (fun _ => Done) (fun _ => delete j g)
      | None => (Ok Done, s)
      end
  | OpMark j =>
      match g !! j with
      | Some (k, _) => on_cache (mark_dirty k) s (fun _ => Done) (fun _ => g)
      | None => (Ok Done, s)
      end
  | OpWrite k page =>
      on_cache (with! _ := cache_insert debug iter k page in mark_dirty k) s (fun _ => Done) (fun _ => g)
  | OpFlushed cap file gathered => on_cache (finish_flush debug iter cap file gathered) s (fun _ => Done) (fun _ => g)
  | OpDiscard cap file => on_cache (discard_dirty debug iter cap file) s (fun _ => Done) (fun _ => g)
  | OpClear file => on_cache (clear_file iter file) s (fun _ => Done) (fun _ => g)
  | OpClearClean file => on_cache (clear_clean_file iter file) s (fun _ => Done) (fun _ => g)
  end.

Fixpoint cache_run (os : list cache_op) (s : sys) : res CacheFault (list outcome) * sys :=
  match os with
  | [] => (Ok [], s)
  | o :: os =>
      match cache_exec o s with
      | (Ok out, s1) => match cache_run os s1 with
                        | (Ok outs, s2) => (Ok (out :: outs), s2)
                        | (Err e, s2) => (Err e, s2)
                        | (Panic, s2) => (Panic, s2)
                        end
      | (Err e, s1) => (Err e, s1)
      | (Panic, s1) => (Panic, s1)
      end
  end.
End exec.

(** ** The contract *)

Record astate := mkAState {
  a_pages : gmap Key Page;
  a_dirty : gset Key;
  a_guards : list Key;
}.

(** Pages may leave unless they are dirty or a guard holds them. *)
Record evicts (a a' : astate) : Prop := mkEvicts {
  ev_sub : a_pages a' ⊆ a_pages a;
  ev_keep : forall k page, a_pages a !! k = Some page -> k ∈ a_dirty a \/ k ∈ a_guards a -> a_pages a' !! k = Some page;
  ev_dirty : a_dirty a' = a_dirty a;
  ev_guards : a_guards a' = a_guards a;
}.

Inductive astep : cache_op -> astate -> outcome -> astate -> Prop :=
| step_get k a : astep (OpGet k) a (Returned (a_pages a !! k)) a
| step_get_dirty k a : astep (OpGetDirty k) a (Returned (a_pages a !! k)) a
| step_read_hit k page a :
    a_pages a !! k = Some page ->
    astep (OpRead k) a (Returned (Some page)) (mkAState (a_pages a) (a_dirty a) (k :: a_guards a))
| step_read_miss k a : a_pages a !! k = None -> astep (OpRead k) a (Returned None) a
| step_fetch_resident k page page0 a :
    a_pages a !! k = Some page0 ->
    astep (OpFetch k page) a (Returned (Some page0)) (mkAState (a_pages a) (a_dirty a) (k :: a_guards a))
| step_fetch_new k page a a1 :
    a_pages a !! k = None -> evicts a a1 ->
    astep (OpFetch k page) a (Returned (Some page)) (mkAState (<[k := page]> (a_pages a1)) (a_dirty a) (k :: a_guards a))
| step_release j k a a' :
    a_guards a !! j = Some k -> evicts (mkAState (a_pages a) (a_dirty a) (delete j (a_guards a))) a' ->
    astep (OpRelease j) a Done a'
| step_release_none j a : a_guards a !! j = None -> astep (OpRelease j) a Done a
| step_mark j k a :
    a_guards a !! j = Some k -> is_Some (a_pages a !! k) ->
    astep (OpMark j) a Done (mkAState (a_pages a) ({[ k ]} ∪ a_dirty a) (a_guards a))
| step_mark_none j a : a_guards a !! j = None -> astep (OpMark j) a Done a
| step_write k page a a1 :
    (is_Some (a_pages a !! k) -> a1 = a) -> evicts a a1 ->
    astep (OpWrite k page) a Done (mkAState (<[k := page]> (a_pages a1)) ({[ k ]} ∪ a_dirty a) (a_guards a))
| step_flushed cap file gathered a a' :
    evicts (mkAState (a_pages a) (flushed file gathered (a_pages a) (a_dirty a)) (a_guards a)) a' ->
    astep (OpFlushed cap file gathered) a Done a'
| step_discard cap file a a' :
    evicts (mkAState (filter (fun e : Key * Page => ~ (e.1.1 = file /\ e.1 ∈ a_dirty a /\ ~ (e.1 ∈ a_guards a))) (a_pages a))
                     (filter (fun k => k.1 <> file) (a_dirty a)) (a_guards a)) a' ->
    astep (OpDiscard cap file) a Done a'
| step_clear file a :
    astep (OpClear file) a Done
      (mkAState (filter (fun e : Key * Page => ~ (e.1.1 = file /\ ~ (e.1 ∈ a_guards a))) (a_pages a))
                (filter (fun k => ~ (k.1 = file /\ ~ (k ∈ a_guards a))) (a_dirty a)) (a_guards a))
| step_clear_clean file a :
    astep (OpClearClean file) a Done
      (mkAState (filter (fun e : Key * Page => ~ (e.1.1 = file /\ ~ (e.1 ∈ a_guards a) /\ ~ (e.1 ∈ a_dirty a))) (a_pages a))
                (a_dirty a) (a_guards a)).

Inductive asteps : list cache_op -> astate -> list outcome -> astate -> Prop :=
| steps_nil a : asteps [] a [] a
| steps_cons o os a out a1 outs a2 : astep o a out a1 -> asteps os a1 outs a2 -> asteps (o :: os) a (out :: outs) a2.

(** ** The simulation *)

(** How many of the guards hold the key. *)
Definition held (g : list (Key * nat)) (k : Key) : nat := length (filter (fun e : Key * nat => e.1 = k) g).

(** Every guard finds its entry in its slot, and the pins count the guards. *)
Definition guarded_by (c : PageCache) (g : list (Key * nat)) : Prop :=
  (forall k i, (k, i) ∈ g -> cmap c !! k = Some i) /\
  (forall k pg p, entries c !! k = Some (pg, p) -> p = Z.of_nat (held g k)).

Definition abstract (c : PageCache) (g : list (Key * nat)) : astate := mkAState (fst <$> entries c) (dirty c) g.*1.

Lemma held_in g k : k ∈ g.*1 <-> held g k <> 0%nat.
Proof.
  unfold held. induction g as [|[k' i] g IH]; [by rewrite elem_of_nil|]. rewrite fmap_cons, elem_of_cons, filter_cons. simpl.
  case_decide as Hd; simpl in *; [split; [done|by left]|]. rewrite IH. split; [by intros [->|]|by right].
Qed.
Lemma held_cons g k i k' : held ((k, i) :: g) k' = ((if decide (k = k') then 1 else 0) + held g k')%nat.
Proof. unfold held. rewrite filter_cons. simpl. by destruct (decide (k = k')). Qed.
Lemma held_delete g j k i k' :
  g !! j = Some (k, i) -> held g k' = ((if decide (k = k') then 1 else 0) + held (delete j g) k')%nat.
Proof.
  intros Hj. rewrite <-held_cons with (i := i). unfold held. apply Permutation_length, filter_Permutation.
  by apply delete_Permutation.
Qed.
Lemma held_le g k : (held g k <= length g)%nat.
Proof. apply length_filter. Qed.

(** ** Guards survive *)

Lemma guarded_pinned c g k pg p q : inv c q -> guarded_by c g -> entries c !! k = Some (pg, p) -> (p <> 0 <-> k ∈ g.*1).
Proof. intros Hinv [_ Hp] He. rewrite (Hp _ _ _ He), held_in. lia. Qed.

Lemma guarded_resident c g q k i : inv c q -> guarded_by c g -> (k, i) ∈ g -> exists pg p, entries c !! k = Some (pg, p) /\ p <> 0.
Proof.
  intros Hinv Hg Hi. pose proof Hg as [Hs _]. destruct (inv_node _ _ Hinv _ _ (Hs _ _ Hi)) as (n & _ & _ & He & _).
  exists (node_page n), (pins n). split; [done|]. apply (guarded_pinned c g k _ _ q Hinv Hg He). apply list_elem_of_fmap. by exists (k, i).
Qed.

Lemma guarded_shrunk c c' g q : inv c q -> guarded_by c g -> shrunk c c' -> guarded_by c' g /\ evicts (abstract c g) (abstract c' g).
Proof.
  intros Hinv Hg [Hsub Hkeep Hsl Hd _ _]. pose proof Hg as [Hs Hp]. split; [split|].
  - intros k i Hi. destruct (guarded_resident c g q k i Hinv Hg Hi) as (pg & p & He & Hne). by eapply Hsl; [|done|apply Hs].
  - intros k pg p He. eapply Hp, lookup_weaken; [exact He|done].
  - constructor; simpl; [by apply map_fmap_mono| |done|done]. intros k page. rewrite !lookup_fmap_Some.
    intros ([pg p] & <- & He) Hpr. exists (pg, p). split; [done|]. apply Hkeep; [done|].
    destruct Hpr as [?|Hin]; [by right|left]. by apply (guarded_pinned c g k _ _ q Hinv Hg He).
Qed.

(** The pin count of a key follows the guards. *)
Lemma guarded_repinned c c' g g' k p :
  guarded_by c g -> repinned c c' k p -> (forall k' i, (k', i) ∈ g' -> cmap c !! k' = Some i) ->
  p = Z.of_nat (held g' k) -> (forall k', k' <> k -> held g' k' = held g k') ->
  guarded_by c' g' /\ abstract c' g' = mkAState (fst <$> entries c) (dirty c) g'.*1.
Proof.
  intros [_ Hp] [(pg & Hpg & HE) Hsl Hd _ _] Hg' Hk Hother. split; [split|].
  - intros k' i Hi. rewrite Hsl. by apply Hg'.
  - intros k' pg' p'. rewrite HE, lookup_insert_Some. intros [[<- [= <- <-]]|[Hne He]]; [done|].
    rewrite Hother by done. by eapply Hp.
  - unfold abstract. rewrite Hd, HE, fmap_insert. f_equal. simpl. apply insert_id. by rewrite lookup_fmap.
Qed.

(** The cache and its guards after at most [n] operations. *)
Record sound (n : nat) (s : sys) : Prop := mkSound {
  snd_inv : exists q, inv (s_cache s) q;
  snd_budget : in_budget (s_cache s);
  snd_guarded : guarded_by (s_cache s) (s_guards s);
  snd_slab : (length (slab (s_cache s)) <= n)%nat;
  snd_guards : (length (s_guards s) <= n)%nat;
}.
Definition abs (s : sys) : astate := abstract (s_cache s) (s_guards s).

Lemma abs_lookup s k : a_pages (abs s) !! k = fst <$> entries (s_cache s) !! k.
Proof. apply lookup_fmap. Qed.

(** A step that changes neither entries nor guards. *)
Lemma sound_le n m s : (n <= m)%nat -> sound n s -> sound m s.
Proof. intros Hle []. constructor; (done || lia). Qed.

Lemma sound_aged n s c q : sound n s -> inv c q -> aged (s_cache s) c ->
  sound n (mkSys c (s_guards s)) /\ abs (mkSys c (s_guards s)) = abs s.
Proof.
  intros [_ Hb [Hg1 Hg2] Hl Hgl] Hinv Ha. pose proof (aged_entries _ _ Ha) as HE.
  destruct Ha as (Hco & _ & _ & _ & E5 & E6 & _ & E8 & E9 & _). split.
  - constructor; simpl; [by exists q| | | |lia].
    + unfold in_budget, cache_len in *. by rewrite E5, E6, E9.
    + split; [by rewrite E6|by rewrite HE].
    + rewrite <-cores_length, Hco, cores_length. lia.
  - unfold abs, abstract. simpl. by rewrite HE, E8.
Qed.

Section sim.
Context (debug : bool) (iter : gmap Key nat -> list (Key * nat)) (iter_ok : forall m, iter m ≡ₚ map_to_list m).
Local Abbreviation exec := (cache_exec debug iter).

(** What one operation has to show. *)
Definition simulated (n : nat) (o : cache_op) (s : sys) : Prop :=
  exists out s', exec o s = (Ok out, s') /\ astep o (abs s) out (abs s') /\ sound (S n) s'.

Lemma sim_get n k s : sound n s -> simulated n (OpGet k) s /\ simulated n (OpGetDirty k) s.
Proof.
  intros Hs. destruct (snd_inv _ _ Hs) as [q Hinv]. split.
  - destruct (cache_get_ok _ _ k Hinv) as (c' & Hg & Hinv' & Ha). destruct (sound_aged _ _ _ _ Hs Hinv' Ha) as [Hs' Eq].
    eexists _, _. split; [unfold exec, on_cache; by rewrite Hg|]. split; [|eapply sound_le; [|exact Hs']; lia]. rewrite Eq, <-abs_lookup. constructor.
  - destruct (get_dirty_ok _ _ k Hinv) as (c' & Hg & Hinv' & Ha). destruct (sound_aged _ _ _ _ Hs Hinv' Ha) as [Hs' Eq].
    eexists _, _. split; [unfold exec, on_cache; by rewrite Hg|]. split; [|eapply sound_le; [|exact Hs']; lia]. rewrite Eq, <-abs_lookup. constructor.
Qed.

(** A resident page gets one more pin. *)
Lemma sound_pinned n s c' q k i pg p :
  sound n s -> Z.of_nat n < U32_MAX -> entries (s_cache s) !! k = Some (pg, p) -> cmap (s_cache s) !! k = Some i -> inv c' q ->
  repinned (s_cache s) c' k (Z.min (p + 1) U32_MAX) -> evictable c' <= evictable (s_cache s) ->
  sound (S n) (mkSys c' ((k, i) :: s_guards s)) /\
  abs (mkSys c' ((k, i) :: s_guards s)) = mkAState (a_pages (abs s)) (a_dirty (abs s)) (k :: a_guards (abs s)).
Proof.
  intros [_ Hb Hg Hl Hgl] Hn He Hi Hinv' Hr Hev. pose proof Hg as [Hg1 Hg2]. pose proof (Hg2 _ _ _ He) as Hp.
  pose proof (held_le (s_guards s) k) as Hle.
  destruct (guarded_repinned _ _ _ ((k, i) :: s_guards s) _ _ Hg Hr) as [Hg' Eq].
  - intros k' i' [[= -> ->]|Hin]%elem_of_cons; [done|by apply Hg1].
  - rewrite held_cons, decide_True by done. rewrite Hp, Z.min_l by lia. lia.
  - intros k' Hne. rewrite held_cons, decide_False by done. done.
  - destruct Hr as [_ Hsl Hd Hc Hlen]. split; [|done]. constructor; simpl; [by exists q| |done| |lia].
    + unfold in_budget, cache_len in *. rewrite Hsl, Hc. pose proof (inv_evictable_le _ _ Hinv'). destruct Hb; [by left|right; lia].
    + rewrite Hlen. lia.
Qed.

Lemma sim_read n k s : sound n s -> Z.of_nat n < U32_MAX -> simulated n (OpRead k) s.
Proof.
  intros Hs Hn. destruct (snd_inv _ _ Hs) as [q Hinv]. pose proof (get_and_pin_ok _ _ k Hinv) as Hr.
  destruct (entries (s_cache s) !! k) as [[pg p]|] eqn:He.
  - destruct Hr as (i & c' & Hi & Hr & Hinv' & Hrp & Hev).
    destruct (sound_pinned n s c' q k i pg p Hs Hn He Hi Hinv' Hrp Hev) as [Hs' Eq].
    eexists _, _. split; [unfold exec, cache_exec, on_cache; by rewrite Hr|]. split; [|exact Hs']. rewrite Eq. simpl. constructor.
    by rewrite abs_lookup, He.
  - exists (Returned None), s. split; [unfold exec, cache_exec, on_cache; rewrite Hr; by destruct s|].
    split; [constructor; by rewrite abs_lookup, He|]. destruct Hs. constructor; try done; lia.
Qed.

(** A new entry: the pages that made room for it are evicted. *)
Lemma added_ok c c' g q k i pg p : inv c q -> guarded_by c g -> entries c !! k = None -> added c c' k i (pg, p) ->
  exists a1, evicts (abstract c g) a1 /\ abstract c' g = mkAState (<[k := pg]> (a_pages a1)) (dirty c) g.*1 /\
    held g k = 0%nat /\ (forall k' i', (k', i') ∈ g -> cmap c' !! k' = Some i') /\
    (forall k' pg' p', k' <> k -> entries c' !! k' = Some (pg', p') -> p' = Z.of_nat (held g k')).
Proof using.
  clear iter_ok. intros Hinv Hg Hk [(c1 & q1 & Hinv1 & Htr & HE & Hsl) Hd Hc Hlen].
  pose proof (trimmed_shrunk _ _ _ _ Hinv Hinv1 Htr) as Hsh. destruct (guarded_shrunk _ _ _ _ Hinv Hg Hsh) as [[Hg1 Hg2] Hev].
  assert (held g k = 0%nat) as Hk0.
  { destruct (decide (held g k = 0%nat)) as [|Hne]; [done|]. exfalso. apply held_in in Hne as ([k' i'] & -> & Hin)%list_elem_of_fmap.
    destruct (guarded_resident c g q k' i' Hinv Hg Hin) as (? & ? & ? & _). simpl in Hk. congruence. }
  exists (abstract c1 g). split; [done|]. split; [|split; [done|split]].
  - unfold abstract. rewrite HE, Hd, fmap_insert. done.
  - intros k' i' Hin. rewrite Hsl, lookup_insert_ne; [by apply Hg1|]. intros <-.
    assert (k ∈ g.*1) as Hx%held_in by (apply list_elem_of_fmap; by exists (k, i')). done.
  - intros k' pg' p' Hne. rewrite HE, lookup_insert_ne by done. apply Hg2.
Qed.

Lemma sim_fetch n k page s : sound n s -> Z.of_nat n < U32_MAX -> simulated n (OpFetch k page) s.
Proof.
  intros Hs Hn. destruct (snd_inv _ _ Hs) as [q Hinv]. pose proof (snd_slab _ _ Hs) as Hsl. pose proof (snd_guards _ _ Hs) as Hgl.
  destruct (insert_and_pin_ok debug iter iter_ok _ q k page Hinv) as (i & c' & q' & Hinv' & Hr); [unfold SLAB_MAX, U32_MAX in *; lia|].
  destruct (entries (s_cache s) !! k) as [[pg p]|] eqn:He.
  - destruct Hr as (Hr & Hi & Hrp & Hev). destruct (sound_pinned n s c' q' k i pg p Hs Hn He Hi Hinv' Hrp Hev) as [Hs' Eq].
    exists (Returned (Some pg)), (mkSys c' ((k, i) :: s_guards s)). split; [unfold exec, cache_exec, on_cache; by rewrite Hr|].
    split; [|exact Hs']. rewrite Eq. constructor.
    by rewrite abs_lookup, He.
  - destruct Hr as (Hr & Had & Hb). destruct (added_ok _ _ _ _ _ _ _ _ Hinv (snd_guarded _ _ Hs) He Had) as (a1 & Hev & Eq & Hk0 & Hg1 & Hg2).
    pose proof Had as [(c1 & q1 & _ & _ & HE & Hcm) Hd Hc Hlen].
    exists (Returned (Some page)), (mkSys c' ((k, i) :: s_guards s)). split; [unfold exec, cache_exec, on_cache; by rewrite Hr|]. split.
    + assert (abs (mkSys c' ((k, i) :: s_guards s)) = mkAState (<[k := page]> (a_pages a1)) (a_dirty (abs s)) (k :: a_guards (abs s))) as ->.
      { unfold abs, abstract in Eq |- *. simpl. injection Eq as -> ->. done. }
      apply step_fetch_new; [by rewrite abs_lookup, He|done].
    + constructor; simpl; [by exists q'|done| |lia|lia]. split.
      * intros k' i' [[= -> ->]|Hin]%elem_of_cons; [by rewrite Hcm, lookup_insert_eq|by apply Hg1].
      * intros k' pg' p' He'. rewrite held_cons. destruct (decide (k = k')) as [<-|Hne].
        -- rewrite HE, lookup_insert_eq in He'. injection He' as <- <-. rewrite Hk0. done.
        -- eapply Hg2; [by intros ->|exact He'].
Qed.

Lemma sim_release n j s : sound n s -> simulated n (OpRelease j) s.
Proof.
  intros Hs. destruct (snd_inv _ _ Hs) as [q Hinv]. pose proof (snd_guarded _ _ Hs) as Hg. unfold simulated. cbn [cache_exec].
  destruct (s_guards s !! j) as [[k i]|] eqn:Hj.
  2: { exists Done, s. split; [done|]. split; [constructor; simpl; by rewrite list_lookup_fmap, Hj|]. destruct Hs. constructor; try done; lia. }
  pose proof (list_elem_of_lookup_2 _ _ _ Hj) as Hin. destruct (guarded_resident _ _ _ _ _ Hinv Hg Hin) as (pg & p & He & Hp).
  pose proof Hg as [Hg1 Hg2]. destruct (unpin_at_ok debug iter iter_ok _ q k i pg p Hinv (snd_budget _ _ Hs) (Hg1 _ _ Hin) He Hp)
    as (c' & q' & c1 & Hr & Hinv' & Hb' & Hrp & Hinv1 & Hsh).
  destruct (guarded_repinned _ _ _ (delete j (s_guards s)) _ _ Hg Hrp) as [Hg' Eq].
  - intros k' i' Hin'. apply Hg1. rewrite (delete_Permutation _ _ _ Hj). by right.
  - rewrite (Hg2 _ _ _ He), (held_delete _ _ _ _ k Hj), decide_True by done. lia.
  - intros k' Hne. rewrite (held_delete _ _ _ _ k' Hj), decide_False by done. done.
  - destruct (guarded_shrunk _ _ _ _ Hinv1 Hg' Hsh) as [Hg'' Hev].
    exists Done, (mkSys c' (delete j (s_guards s))). split; [unfold on_cache; by rewrite Hr|]. split.
    + eapply step_release; [simpl; by rewrite list_lookup_fmap, Hj|]. unfold abs in *. simpl. rewrite Eq in Hev.
      by rewrite list_fmap_delete in Hev.
    + destruct Hs as [_ _ _ Hsl Hgl], Hsh as [_ _ _ _ _ Hl], Hrp as [_ _ _ _ Hl1].
      constructor; simpl; [by exists q'|done|done|lia|]. rewrite length_delete by (by exists (k, i)). lia.
Qed.

Lemma sim_mark n j s : sound n s -> simulated n (OpMark j) s.
Proof.
  intros Hs. destruct (snd_inv _ _ Hs) as [q Hinv]. pose proof (snd_guarded _ _ Hs) as Hg. unfold simulated. cbn [cache_exec].
  destruct (s_guards s !! j) as [[k i]|] eqn:Hj.
  2: { exists Done, s. split; [done|]. split; [constructor; simpl; by rewrite list_lookup_fmap, Hj|]. destruct Hs. constructor; try done; lia. }
  destruct (guarded_resident _ _ _ _ _ Hinv Hg (list_elem_of_lookup_2 _ _ _ Hj)) as (pg & p & He & Hp).
  destruct (mark_dirty_ok _ q k pg p Hinv He) as (c' & q' & Hr & Hinv' & HE & Hm & Hd & Hc & Hl & Hev).
  exists Done, (mkSys c' (s_guards s)). split; [unfold on_cache; by rewrite Hr|]. split.
  - assert (abs (mkSys c' (s_guards s)) = mkAState (a_pages (abs s)) ({[ k ]} ∪ a_dirty (abs s)) (a_guards (abs s))) as ->.
    { unfold abs, abstract. simpl. by rewrite HE, Hd. }
    apply step_mark; [simpl; by rewrite list_lookup_fmap, Hj|]. rewrite abs_lookup, He. by eexists.
  - destruct Hs as [_ Hb _ Hsl Hgl]. constructor; simpl; [by exists q'| | |lia|lia].
    + unfold in_budget, cache_len in *. rewrite Hm, Hc. pose proof (inv_evictable_le _ _ Hinv'). destruct Hb as [|Hb]; [by left|right].
      rewrite Hev, Hb in *. case_bool_decide; lia.
    + destruct Hg as [Hg1 Hg2]. split; [by rewrite Hm|by rewrite HE].
Qed.

Lemma sim_write n k page s : sound n s -> Z.of_nat n < U32_MAX -> simulated n (OpWrite k page) s.
Proof.
  intros Hs Hn. destruct (snd_inv _ _ Hs) as [q Hinv]. pose proof (snd_slab _ _ Hs) as Hsl. pose proof (snd_guards _ _ Hs) as Hgl.
  pose proof (snd_guarded _ _ Hs) as Hg. unfold simulated. cbn [cache_exec].
  destruct (cache_insert_ok debug iter iter_ok _ q k page Hinv) as (c1 & q1 & Hr1 & Hinv1 & Hcase); [unfold SLAB_MAX, U32_MAX in *; lia|].
  assert (exists p a1, entries c1 !! k = Some (page, p) /\ (is_Some (a_pages (abs s) !! k) -> a1 = abs s) /\ evicts (abs s) a1 /\
    abstract c1 (s_guards s) = mkAState (<[k := page]> (a_pages a1)) (a_dirty (abs s)) (a_guards (abs s)) /\
    guarded_by c1 (s_guards s) /\ (length (slab c1) <= S n)%nat /\
    (cache_len c1 <= capacity c1 \/ evictable c1 <= if bool_decide (candidate (dirty c1) (k, (page, p))) then 1 else 0))
    as (p & a1 & He1 & Ha1 & Hev & Eq & Hg1 & Hl1 & Hb1).
  { destruct (entries (s_cache s) !! k) as [[pg0 p]|] eqn:He.
    - destruct Hcase as (HE & Hm & Hd & Hc & Hlen & Hevi). exists p, (abs s). rewrite HE, lookup_insert_eq. split; [done|]. split; [done|].
      split; [by constructor|]. split; [unfold abstract; rewrite HE, Hd, fmap_insert; done|]. destruct Hg as [Hg1 Hg2]. split.
      { split; [by rewrite Hm|]. intros k' pg' p'. rewrite HE, lookup_insert_Some. intros [[<- [= <- <-]]|[_ ?]]; by eapply Hg2. }
      split; [lia|]. destruct (snd_budget _ _ Hs) as [Hb|Hb]; [left|right].
      + unfold cache_len in *. by rewrite Hm, Hc.
      + rewrite Hevi, Hb. case_bool_decide; lia.
    - destruct Hcase as (i & Had & Hb). destruct (added_ok _ _ _ _ _ _ _ _ Hinv Hg He Had) as (a1 & Hev & Eq & Hk0 & Hg1 & Hg2).
      pose proof Had as [(c2 & q2 & _ & _ & HE & Hcm) Hd Hc Hlen]. exists 0, a1. rewrite HE, lookup_insert_eq. split; [done|].
      split; [rewrite abs_lookup, He; by intros [? ?]|]. split; [done|]. split; [done|]. split.
      { split; [done|]. intros k' pg' p' He'. destruct (decide (k' = k)) as [->|Hne]; [|by eapply Hg2].
        rewrite HE, lookup_insert_eq in He'. injection He' as <- <-. by rewrite Hk0. }
      split; [lia|]. destruct Hb as [|Hb]; [by left|right]. rewrite Hb, bool_decide_true; [done|]. split; [done|]. simpl. rewrite Hd.
      intros [j Hj]%(inv_dirty _ _ Hinv)%elem_of_dom. destruct (inv_node _ _ Hinv _ _ Hj) as (nd & _ & _ & Hx & _). congruence. }
  destruct (mark_dirty_ok c1 q1 k page p Hinv1 He1) as (c' & q' & Hr & Hinv' & HE & Hm & Hd & Hc & Hl & Hev').
  exists Done, (mkSys c' (s_guards s)). split; [unfold on_cache; by rewrite (cbind_ok _ _ _ _ _ Hr1), Hr|]. split.
  - assert (abs (mkSys c' (s_guards s)) = mkAState (<[k := page]> (a_pages a1)) ({[ k ]} ∪ a_dirty (abs s)) (a_guards (abs s))) as ->.
    { unfold abs, abstract in *. simpl in *. injection Eq as Ep Ed. rewrite HE, Hd. by rewrite Ep, Ed. }
    by apply step_write.
  - destruct Hg1 as [Hg1 Hg2]. constructor; simpl; [by exists q'| | |lia|lia].
    + unfold in_budget, cache_len in *. rewrite Hm, Hc, Hev'. pose proof (inv_evictable_le _ _ Hinv') as Hx. rewrite Hev' in Hx.
      destruct Hb1 as [|Hb1]; [by left|right]. case_bool_decide; lia.
    + split; [by rewrite Hm|by rewrite HE].
Qed.

(** A change of entries that spares the guarded ones, then a trim. *)
Lemma sound_shrunk n s c1 q1 c' q' :
  sound n s -> inv c1 q1 -> inv c' q' -> in_budget c' -> entries c1 ⊆ entries (s_cache s) -> cmap c1 ⊆ cmap (s_cache s) ->
  (forall k pg p, entries (s_cache s) !! k = Some (pg, p) -> p <> 0 -> is_Some (entries c1 !! k)) ->
  length (slab c1) = length (slab (s_cache s)) -> shrunk c1 c' ->
  sound (S n) (mkSys c' (s_guards s)) /\ evicts (abstract c1 (s_guards s)) (abs (mkSys c' (s_guards s))).
Proof using.
  clear iter_ok. intros [[q Hinv] _ Hg Hsl Hgl] Hinv1 Hinv' Hb' HE Hm Hkeep Hl Hsh.
  assert (guarded_by c1 (s_guards s)) as Hg1.
  { pose proof Hg as [Hga Hgb]. split.
    - intros k i Hi. destruct (guarded_resident _ _ _ _ _ Hinv Hg Hi) as (pg & p & He & Hp). destruct (Hkeep _ _ _ He Hp) as [[pg1 p1] He1].
      destruct (inv_entry _ _ Hinv1 _ _ _ He1) as (j & nd & Hj & _). pose proof (lookup_weaken _ _ _ _ Hj Hm) as Hj'.
      rewrite (Hga _ _ Hi) in Hj'. by injection Hj' as ->.
    - intros k pg p He. eapply Hgb, lookup_weaken; [exact He|done]. }
  destruct (guarded_shrunk _ _ _ _ Hinv1 Hg1 Hsh) as [Hg' Hev]. split; [|done]. destruct Hsh as [_ _ _ _ _ Hlen].
  constructor; simpl; [by exists q'|done|done|lia|lia].
Qed.

Lemma sim_flushed n cap file gathered s : sound n s -> simulated n (OpFlushed cap file gathered) s.
Proof.
  intros Hs. destruct (snd_inv _ _ Hs) as [q Hinv].
  destruct (finish_flush_ok debug iter iter_ok _ q cap file gathered Hinv) as (c' & q' & c1 & q1 & Hr & Hinv' & Hb' & Hinv1 & HE & Hm & Hc & Hl & Hd & Hsh).
  destruct (sound_shrunk n s c1 q1 c' q' Hs Hinv1 Hinv' Hb') as [Hs' Hev]; try done.
  { by rewrite HE. } { by rewrite Hm. } { intros k pg p He _. rewrite HE, He. by eexists. }
  exists Done, (mkSys c' (s_guards s)). split; [unfold exec, cache_exec, on_cache; by rewrite Hr|]. split; [|done].
  apply step_flushed. unfold abstract in Hev. by rewrite HE, Hd in Hev.
Qed.

Lemma guarded_unpinned s k e : guarded_by (s_cache s) (s_guards s) -> entries (s_cache s) !! k = Some e ->
  (e.2 = 0 <-> ~ (k ∈ a_guards (abs s))).
Proof using. intros [_ Hp] He. destruct e as [pg p]. simpl. rewrite (Hp _ _ _ He), held_in. lia. Qed.

(** Pages with their pins, filtered, and the pages alone, filtered. *)
Lemma fmap_filter_pages (E : gmap Key (Page * Z)) (P : Key * (Page * Z) -> Prop) (Q : Key * Page -> Prop)
    `{!forall e, Decision (P e), !forall e, Decision (Q e)} :
  (forall k e, E !! k = Some e -> P (k, e) <-> Q (k, e.1)) -> fst <$> filter P E = filter Q (fst <$> E).
Proof using.
  intros HPQ. apply map_eq. intros k. apply option_eq. intros pg. rewrite map_lookup_filter_Some, !lookup_fmap_Some. split.
  - intros (e & <- & [He HP]%map_lookup_filter_Some). split; [by exists e|]. by apply HPQ.
  - intros [(e & <- & He) HQ]. exists e. split; [done|]. apply map_lookup_filter_Some. split; [done|]. by apply HPQ.
Qed.

Lemma sim_discard n cap file s : sound n s -> simulated n (OpDiscard cap file) s.
Proof.
  intros Hs. destruct (snd_inv _ _ Hs) as [q Hinv]. set (c := s_cache s) in *.
  destruct (discard_dirty_ok debug iter iter_ok _ q cap file Hinv) as (c' & q' & c1 & q1 & Hr & Hinv' & Hb' & Hinv1 & HE & Hm & Hd & Hc & Hl & Hsh).
  assert (forall k, k ∈ pair file <$> dirty_for_file file c <-> k.1 = file /\ k ∈ dirty c) as Hks.
  { intros k. rewrite list_elem_of_fmap. destruct (dirty_for_file_ok file c) as [_ Hin]. setoid_rewrite Hin. split.
    - intros (pid & -> & ?). done.
    - intros [Hf Hk]. exists k.2. rewrite <-Hf. by rewrite <-surjective_pairing. }
  destruct (sound_shrunk n s c1 q1 c' q' Hs Hinv1 Hinv' Hb') as [Hs' Hev]; try done.
  { rewrite HE. apply map_filter_subseteq. }
  { intros k pg p He Hp. exists (pg, p). rewrite HE. apply map_lookup_filter_Some. split; [done|]. simpl. tauto. }
  exists Done, (mkSys c' (s_guards s)). split; [unfold exec, cache_exec, on_cache; fold c; by rewrite Hr|]. split; [|done].
  apply step_discard. unfold abstract in Hev. rewrite HE, Hd in Hev.
  assert (fst <$> without (pair file <$> dirty_for_file file c) (entries c) =
    filter (fun e : Key * Page => ~ (e.1.1 = file /\ e.1 ∈ a_dirty (abs s) /\ ~ (e.1 ∈ a_guards (abs s)))) (a_pages (abs s))) as E1.
  { apply fmap_filter_pages. intros k e He. simpl. rewrite Hks, (guarded_unpinned s k e (snd_guarded _ _ Hs) He). tauto. }
  assert (dirty c ∖ list_to_set (pair file <$> dirty_for_file file c) = filter (fun k => k.1 <> file) (a_dirty (abs s))) as E2.
  { apply set_eq. intros k. rewrite elem_of_difference, elem_of_list_to_set, Hks, elem_of_filter. simpl. fold c. tauto. }
  by rewrite E1, E2 in Hev.
Qed.

Lemma sim_clear n file s : sound n s -> simulated n (OpClear file) s /\ simulated n (OpClearClean file) s.
Proof.
  intros Hs. destruct (snd_inv _ _ Hs) as [q Hinv]. set (c := s_cache s) in *.
  assert (forall keep, exists c', clear_file_entries iter file keep c = (Ok tt, c') /\ sound (S n) (mkSys c' (s_guards s)) /\
    abs (mkSys c' (s_guards s)) = mkAState
      (filter (fun e : Key * Page => ~ (e.1.1 = file /\ ~ (e.1 ∈ a_guards (abs s)) /\ (keep = true -> ~ (e.1 ∈ a_dirty (abs s))))) (a_pages (abs s)))
      (filter (fun k => ~ (keep = false /\ k.1 = file /\ ~ (k ∈ a_guards (abs s)))) (a_dirty (abs s))) (a_guards (abs s))) as Hclear.
  { intros keep. destruct (clear_file_entries_ok iter iter_ok c q file keep Hinv (snd_budget _ _ Hs))
      as (c' & q' & Hr & Hinv' & Hb' & HE & Hm & Hd & Hc & Hl).
    destruct (sound_shrunk n s c' q' c' q' Hs Hinv' Hinv' Hb') as [Hs' _]; try done.
    { rewrite HE. apply map_filter_subseteq. }
    { intros k pg p He Hp. exists (pg, p). rewrite HE. apply map_lookup_filter_Some. split; [done|]. simpl. tauto. }
    exists c'. split; [done|]. split; [done|]. unfold abs, abstract. simpl. rewrite HE, Hd. f_equal.
    - apply fmap_filter_pages. intros k e He. simpl. rewrite (guarded_unpinned s k e (snd_guarded _ _ Hs) He). simpl. tauto.
    - apply set_eq. intros k. rewrite !elem_of_filter. fold c. split; intros [Hx Hk]; (split; [|done]); intros (H1 & H2 & H3); apply Hx;
        (split; [done|]; split; [done|]); pose proof (inv_dirty _ _ Hinv _ Hk) as [i Hi]%elem_of_dom;
        destruct (inv_node _ _ Hinv _ _ Hi) as (nd & _ & _ & He & _);
        pose proof (guarded_unpinned s k _ (snd_guarded _ _ Hs) He) as Hu; simpl in Hu; fold c in He.
      + rewrite He. simpl. f_equal. by apply Hu.
      + rewrite He in H3. injection H3 as H3. by apply Hu. }
  split.
  - destruct (Hclear false) as (c' & Hr & Hs' & Eq). exists Done, (mkSys c' (s_guards s)).
    split; [unfold exec, cache_exec, on_cache, clear_file; fold c; by rewrite Hr|]. split; [|done]. rewrite Eq.
    assert (forall a : astate, mkAState (filter (fun e : Key * Page => ~ (e.1.1 = file /\ ~ (e.1 ∈ a_guards a) /\ (false = true -> ~ (e.1 ∈ a_dirty a)))) (a_pages a))
      (filter (fun k => ~ (false = false /\ k.1 = file /\ ~ (k ∈ a_guards a))) (a_dirty a)) (a_guards a) =
      mkAState (filter (fun e : Key * Page => ~ (e.1.1 = file /\ ~ (e.1 ∈ a_guards a))) (a_pages a))
        (filter (fun k => ~ (k.1 = file /\ ~ (k ∈ a_guards a))) (a_dirty a)) (a_guards a)) as ->; [|constructor].
    intros a. f_equal; [apply map_filter_ext; intros; simpl; naive_solver|]. apply set_eq. intros k. rewrite !elem_of_filter. tauto.
  - destruct (Hclear true) as (c' & Hr & Hs' & Eq). exists Done, (mkSys c' (s_guards s)).
    split; [unfold exec, cache_exec, on_cache, clear_clean_file; fold c; by rewrite Hr|]. split; [|done]. rewrite Eq.
    assert (forall a : astate, mkAState (filter (fun e : Key * Page => ~ (e.1.1 = file /\ ~ (e.1 ∈ a_guards a) /\ (true = true -> ~ (e.1 ∈ a_dirty a)))) (a_pages a))
      (filter (fun k => ~ (true = false /\ k.1 = file /\ ~ (k ∈ a_guards a))) (a_dirty a)) (a_guards a) =
      mkAState (filter (fun e : Key * Page => ~ (e.1.1 = file /\ ~ (e.1 ∈ a_guards a) /\ ~ (e.1 ∈ a_dirty a))) (a_pages a))
        (a_dirty a) (a_guards a)) as ->; [|constructor].
    intros a. f_equal; [apply map_filter_ext; intros; simpl; tauto|]. apply set_eq. intros k. rewrite !elem_of_filter. naive_solver.
Qed.

Lemma cache_exec_ok n o s : sound n s -> Z.of_nat n < U32_MAX -> simulated n o s.
Proof.
  intros Hs Hn. destruct o.
  - by apply sim_get.
  - by apply sim_get.
  - by apply sim_read.
  - by apply sim_fetch.
  - by apply sim_release.
  - by apply sim_mark.
  - by apply sim_write.
  - by apply sim_flushed.
  - by apply sim_discard.
  - by apply sim_clear.
  - by apply sim_clear.
Qed.

Lemma cache_run_ok : forall os n s,
  sound n s -> Z.of_nat (n + length os) <= U32_MAX ->
  exists outs s', cache_run debug iter os s = (Ok outs, s') /\ asteps os (abs s) outs (abs s') /\ sound (n + length os) s'.
Proof.
  induction os as [|o os IH]; intros n s Hs Hn.
  { exists [], s. split; [done|]. split; [constructor|]. by rewrite Nat.add_0_r. }
  simpl in Hn. destruct (cache_exec_ok n o s Hs) as (out & s1 & Hr & Hst & Hs1); [lia|].
  destruct (IH (S n) s1 Hs1) as (outs & s' & Hrun & Hsts & Hs'); [lia|]. exists (out :: outs), s'. cbn [cache_run]. rewrite Hr, Hrun.
  split; [done|]. split; [by econstructor|]. simpl. by rewrite Nat.add_succ_r.
Qed.

Lemma sound_empty cap : sound 0 (mkSys (with_capacity cap) []).
Proof using.
  clear iter_ok. constructor; simpl; [|by right| |done|done].
  - exists []. constructor; simpl; try done; try lia.
    + constructor; simpl; try done. constructor; [constructor| |done]. intros p i s Hq. by destruct p.
    + intros k i. split; [done|]. by intros (? & ? & ?).
    + split; [constructor|]. intros i. split; [by intros ?%not_elem_of_nil|done].
  - split; [by intros k i ?%not_elem_of_nil|]. intros k pg p. unfold entries, entries_of. simpl. by rewrite omap_empty, lookup_empty.
Qed.
End sim.

(** C9: the page cache refines a map of pages. Starting empty, any sequence of
    the pager's uses of the cache (fewer than 2^32) runs without a fault, in debug
    and in release builds and whatever order the hash map iterates in; its
    results and its contents are those of the abstract steps, in which a page
    leaves only when it is clean and no guard holds it; the cache ends in
    budget or with nothing to evict; every guard finds its entry in its slot;
    and no invariant of the cache is broken. *)
Theorem cache_refines_pages (debug : bool) (iter : gmap Key nat -> list (Key * nat)) (cap : Z) (os : list cache_op) :
  (forall m, iter m ≡ₚ map_to_list m) -> Z.of_nat (length os) <= U32_MAX ->
  exists outs s', cache_run debug iter os (mkSys (with_capacity cap) []) = (Ok outs, s') /\
    asteps os (mkAState ∅ ∅ []) outs (abs s') /\ in_budget (s_cache s') /\ fault (s_cache s') = None /\
    guarded_by (s_cache s') (s_guards s') /\ exists q, inv (s_cache s') q.
Proof.
  intros Hi Hn. destruct (cache_run_ok debug iter Hi os 0 _ (sound_empty cap) Hn) as (outs & s' & Hr & Hst & [[q Hinv] Hb Hg _ _]).
  exists outs, s'. split; [done|]. split.
  - assert (abs (mkSys (with_capacity cap) []) = mkAState ∅ ∅ []) as <-; [|done].
    unfold abs, abstract, entries, entries_of. simpl. by rewrite omap_empty, fmap_empty.
  - split; [done|]. split; [apply Hinv|]. split; [done|]. by exists q.
Qed.

(** Two entries, a pinned page, writes over budget, a flush, a discard and a clear. *)
Definition sample_page (ptr : Z) : Page := new_with_meta ptr [] 1 (zeros 16).
Definition sample_cache_ops : list cache_op :=
  [OpWrite (Main, 5) (sample_page 1); OpFetch (Main, 6) (sample_page 2); OpFetch (Main, 7) (sample_page 3); OpRelease 1;
   OpGet (Main, 6); OpWrite (Main, 8) (sample_page 4); OpGetDirty (Main, 5); OpFlushed 64 Main [(5, sample_page 1)];
   OpGet (Main, 5); OpGet (Main, 8); OpRead (Main, 7); OpMark 0; OpDiscard 64 Main; OpGet (Main, 8); OpClear Main; OpGet (Main, 7)].

Lemma cache_refines_pages_witness :
  exists outs s', cache_run true map_to_list sample_cache_ops (mkSys (with_capacity 2) []) = (Ok outs, s') /\
    asteps sample_cache_ops (mkAState ∅ ∅ []) outs (abs s') /\
    outs = [Done; Returned (Some (sample_page 2)); Returned (Some (sample_page 3)); Done; Returned None; Done;
            Returned (Some (sample_page 1)); Done; Returned None; Returned (Some (sample_page 4)); Returned (Some (sample_page 3));
            Done; Done; Returned None; Done; Returned (Some (sample_page 3))].
Proof.
  destruct (cache_refines_pages true map_to_list 2 sample_cache_ops) as (outs & s' & Hr & Hst & _).
  - reflexivity.
  - vm_compute. discriminate.
  - exists outs, s'. split; [exact Hr|]. split; [exact Hst|].
    assert ((cache_run true map_to_list sample_cache_ops (mkSys (with_capacity 2) [])).1 = Ok outs) as H by (rewrite Hr; reflexivity).
    vm_compute in H. injection H as <-. reflexivity.
Defined.
