(* ===== verification/Pager.v ===== *)
(** * Pager: pages of files through cache, cipher and nonces

    [src/src/pager/core/]: the state of a [Pager], its keys
    ([txn/db/rekey/keyring.rs]), file handles, the read path (cache hit, cold read
    with the observer's retries, reads past the cache), the write path, the flush
    with its nonces and anchor refreshes, the apply-journal sidecars, and the page
    guards. It composes [PageCache], [DataPage], [Crypto] and [HeaderSlots].

    The file system is a map from paths to files of a [VfsFile] backend, with
    [blank] the file a create makes. A handle is looked up at each use, so the
    cached handles are the entries of that map; what remains of them is their
    generation. Metrics and diagnostics are left out. [debug] and [iter] are the
    build and the hash order of [PageCache]; [map_cap] is the capacity the hash map
    reports. An [Arc] gets the next unused address. *)

From S2P Require Import Prelude Keys Errors PageFormat Hex Crypto DataPage StructuralHeader Vfs HeaderSlots PageCache.
From Stdlib Require Import ZArith Lia.
From stdpp Require Import base list strings gmap.
From coqutil Require Import Byte.

Local Open Scope Z_scope.
Local Open Scope pagedb_scope.

(** ** The keyring *)

Abbreviation EpochKeyring := (gmap (Z * Z) bytes).

Definition keyring_new (epoch : Z) (id : CipherId.t) (mk : bytes) : EpochKeyring :=
  <[(epoch, CipherId.as_byte id) := mk]> ∅.
Definition install (k : EpochKeyring) (epoch : Z) (id : CipherId.t) (mk : bytes) : EpochKeyring :=
  <[(epoch, CipherId.as_byte id) := mk]> k.
Definition lease (k : EpochKeyring) (epoch : Z) (id : CipherId.t) : result bytes :=
  ok_or (k !! (epoch, CipherId.as_byte id)) (MissingPersistedKey epoch (CipherId.as_byte id)).
Definition keyring_remove (k : EpochKeyring) (epoch : Z) (id : CipherId.t) : EpochKeyring :=
  delete (epoch, CipherId.as_byte id) k.

(** ** State *)

Record PagerConfig := mkPagerConfig {
  page_size : Z;
  buffer_pool_pages : Z;
  segment_cache_pages : Z;
  cfg_cipher_id : CipherId.t;
  cfg_mk_epoch : Z;
  main_db_file_id : bytes;
  main_db_path : string;
  anchor_budget : Z;
  dek_lru_capacity : Z;
  observer_retry_count : Z;
}.

Record LiveHeader := mkLiveHeader { lh_hk : bytes; lh_cursor : HeaderCursor }.

Record Pager (F : Type) := mkPager {
  cfg : PagerConfig;
  vfs : gmap string F;
  keyring : EpochKeyring;
  active_epoch : Z;
  read_only : bool;
  handle_generation : Z;
  dek_lru : DekLru;
  main_nonce : MainDbNonceGen;
  live_header : option LiveHeader;
  journal_nonces : gmap bytes SegmentNonceGen;
  buffer_pool : PageCache;
  segment_cache : PageCache;
  next_ptr : Z;
}.
Arguments mkPager {F} _ _ _ _ _ _ _ _ _ _ _ _ _.
Arguments cfg {F} _.
Arguments vfs {F} _.
Arguments keyring {F} _.
Arguments active_epoch {F} _.
Arguments read_only {F} _.
Arguments handle_generation {F} _.
Arguments dek_lru {F} _.
Arguments main_nonce {F} _.
Arguments live_header {F} _.
Arguments journal_nonces {F} _.
Arguments buffer_pool {F} _.
Arguments segment_cache {F} _.
Arguments next_ptr {F} _.

(** A pinned page, and the slot of its cache entry if it is cached. *)
Record PageGuard := mkGuard {
  guard_page : Page;
  guard_key : Key;
  guard_slot : option nat;
}.

(** The kind a read binds: the caller's, or whichever node kind the page names. *)
Inductive KindBinding := Fixed (k : PageKind.t) | NodeKind.

Record RebuildImage := mkRebuildImage {
  image_path : string;
  image_epoch : Z;
  image_cipher : Cipher;
}.

Inductive FlushDest := Live | Path (path : string) | Image (image : RebuildImage).

(** A page read past the cache. *)
Record SealedRead := mkSealedRead {
  sealed_page : bytes;
  sealed_kind : PageKind.t;
  sealed_stamp : SealStamp;
}.

(** ** Operations on a pager *)

Section monad.
Context {F : Type}.

Definition P (A : Type) : Type := Pager F -> result A * Pager F.

Definition pret {A} (a : A) : P A := fun p => (Ok a, p).
Definition lift {A} (r : result A) : P A := fun p => (r, p).
Definition pfail {A} (e : PagedbError) : P A := lift (Err e).
Definition pbind {A B} (m : P A) (k : A -> P B) : P B := fun p =>
  match m p with
  | (Ok a, p') => k a p'
  | (Err e, p') => (Err e, p')
  | (Panic, p') => (Panic, p')
  end.
Definition pgets {A} (f : Pager F -> A) : P A := fun p => (Ok (f p), p).
Definition pmodify (f : Pager F -> Pager F) : P unit := fun p => (Ok tt, f p).

(** Field updates. *)
Definition set_vfs (v : gmap string F) (p : Pager F) : Pager F :=
  mkPager (cfg p) v (keyring p) (active_epoch p) (read_only p) (handle_generation p) (dek_lru p) (main_nonce p)
    (live_header p) (journal_nonces p) (buffer_pool p) (segment_cache p) (next_ptr p).
Definition set_keyring (k : EpochKeyring) (p : Pager F) : Pager F :=
  mkPager (cfg p) (vfs p) k (active_epoch p) (read_only p) (handle_generation p) (dek_lru p) (main_nonce p)
    (live_header p) (journal_nonces p) (buffer_pool p) (segment_cache p) (next_ptr p).
Definition set_active_epoch (e : Z) (p : Pager F) : Pager F :=
  mkPager (cfg p) (vfs p) (keyring p) e (read_only p) (handle_generation p) (dek_lru p) (main_nonce p)
    (live_header p) (journal_nonces p) (buffer_pool p) (segment_cache p) (next_ptr p).
Definition set_access (ro : bool) (generation : Z) (p : Pager F) : Pager F :=
  mkPager (cfg p) (vfs p) (keyring p) (active_epoch p) ro generation (dek_lru p) (main_nonce p)
    (live_header p) (journal_nonces p) (buffer_pool p) (segment_cache p) (next_ptr p).
Definition set_dek_lru (l : DekLru) (p : Pager F) : Pager F :=
  mkPager (cfg p) (vfs p) (keyring p) (active_epoch p) (read_only p) (handle_generation p) l (main_nonce p)
    (live_header p) (journal_nonces p) (buffer_pool p) (segment_cache p) (next_ptr p).
Definition set_main_nonce (g : MainDbNonceGen) (p : Pager F) : Pager F :=
  mkPager (cfg p) (vfs p) (keyring p) (active_epoch p) (read_only p) (handle_generation p) (dek_lru p) g
    (live_header p) (journal_nonces p) (buffer_pool p) (segment_cache p) (next_ptr p).
Definition set_live_header (h : option LiveHeader) (p : Pager F) : Pager F :=
  mkPager (cfg p) (vfs p) (keyring p) (active_epoch p) (read_only p) (handle_generation p) (dek_lru p) (main_nonce p)
    h (journal_nonces p) (buffer_pool p) (segment_cache p) (next_ptr p).
Definition set_journal_nonces (m : gmap bytes SegmentNonceGen) (p : Pager F) : Pager F :=
  mkPager (cfg p) (vfs p) (keyring p) (active_epoch p) (read_only p) (handle_generation p) (dek_lru p) (main_nonce p)
    (live_header p) m (buffer_pool p) (segment_cache p) (next_ptr p).
Definition set_caches (b s : PageCache) (p : Pager F) : Pager F :=
  mkPager (cfg p) (vfs p) (keyring p) (active_epoch p) (read_only p) (handle_generation p) (dek_lru p) (main_nonce p)
    (live_header p) (journal_nonces p) b s (next_ptr p).
Definition set_next_ptr (n : Z) (p : Pager F) : Pager F :=
  mkPager (cfg p) (vfs p) (keyring p) (active_epoch p) (read_only p) (handle_generation p) (dek_lru p) (main_nonce p)
    (live_header p) (journal_nonces p) (buffer_pool p) (segment_cache p) n.

(** [PagerInner::cache_for_key] *)
Definition cache_for_key (file : FileKey) (p : Pager F) : PageCache :=
  match file with Main => buffer_pool p | ApplyJournal _ => segment_cache p end.
Definition set_cache_for_key (file : FileKey) (c : PageCache) (p : Pager F) : Pager F :=
  match file with
  | Main => set_caches c (segment_cache p) p
  | ApplyJournal _ => set_caches (buffer_pool p) c p
  end.

(** [impl From<CacheFault> for PagedbError] *)
Definition fault_error (f : CacheFault) : PagedbError :=
  PageCacheStateInvalid (operation f) (detail f) (Z.of_nat <$> fault_slot f).

Definition map_err {E E' A} (f : E -> E') (r : res E A) : res E' A :=
  match r with Ok a => Ok a | Err e => Err (f e) | Panic => Panic end.

(** One hold of the cache's lock. *)
Definition locked {A} (file : FileKey) (m : C A) : P A := fun p =>
  let '(r, c) := m (cache_for_key file p) in
  (map_err fault_error r, set_cache_for_key file c p).

(** The result of a call as a value, the state kept. *)
Definition attempt {A} (m : P A) : P (result A) := fun p =>
  match m p with
  | (Panic, p') => (Panic, p')
  | (r, p') => (Ok r, p')
  end.

Definition new_arc : P Z := fun p => (Ok (next_ptr p), set_next_ptr (next_ptr p + 1) p).
End monad.

Notation "'run!' x ':=' m 'in' k" := (pbind m (fun x => k))
  (at level 10, x binder, m at level 100, k at level 200) : pagedb_scope.
Notation "'run!' ' p ':=' m 'in' k" := (pbind m (fun x => match x with p => k end))
  (at level 10, p strict pattern, m at level 100, k at level 200) : pagedb_scope.

(** ** Kinds and realms *)

Definition resolve_cached (b : KindBinding) (cached_kind_byte : Z) : result PageKind.t :=
  match b with
  | Fixed k =>
      if negb (cached_kind_byte =? 0) && negb (cached_kind_byte =? PageKind.as_byte k)
      then Err ChecksumFailure else Ok k
  | NodeKind =>
      match PageKind.from_byte cached_kind_byte with
      | Ok PageKind.BTreeLeaf => Ok PageKind.BTreeLeaf
      | Ok PageKind.BTreeInternal => Ok PageKind.BTreeInternal
      | _ => Err ChecksumFailure
      end
  end.

Definition resolve_on_disk (b : KindBinding) (page_buf : bytes) : result PageKind.t :=
  match b with
  | Fixed k => Ok k
  | NodeKind =>
      match extract_page_kind page_buf with
      | Ok PageKind.BTreeLeaf => Ok PageKind.BTreeLeaf
      | Ok PageKind.BTreeInternal => Ok PageKind.BTreeInternal
      | Panic => Panic
      | _ => Err ChecksumFailure
      end
  end.

Definition check_resident_page (page : Page) (realm : RealmId) (b : KindBinding) : result PageKind.t :=
  if negb (bool_decide (realm_id_bytes page = Some realm)) then Err ChecksumFailure
  else resolve_cached b (kind_byte page).

Definition derive_kind_for_flush (file : FileKey) : PageKind.t :=
  match file with Main => PageKind.BTreeLeaf | ApplyJournal _ => PageKind.ApplyJournal end.

(** What a cold read reports when no attempt opened the page. *)
Definition unverified (realm : RealmId) (page_id : Z) (last_err : option PagedbError) : PagedbError :=
  match last_err with
  | Some ChecksumFailure | Some Unsupported => corruption (PageUnverifiable realm None page_id None)
  | Some e => e
  | None => ChecksumFailure
  end.

(** What one attempt of a cold read gives: the decrypted page, or an error worth
    another attempt. *)
Inductive Attempt := Opened (buf : bytes) (kind : PageKind.t) | Retry (e : PagedbError).

Definition journal_path (id : bytes) : string := ("applyjournal/" ++ to_hex_lower id)%string.

Section pager.
Context `{Primitives} {F : Type} `{VfsFile F} (blank : F).
Context (debug : bool) (iter : gmap Key nat -> list (Key * nat)).
Local Abbreviation P := (@P F).
Local Abbreviation Pager := (Pager F).

(** ** Construction, keys and modes: [pager.rs] *)

Definition pager_open (v : gmap string F) (mk : bytes) (c : PagerConfig) : Pager :=
  mkPager c v (keyring_new (cfg_mk_epoch c) (cfg_cipher_id c) mk) (cfg_mk_epoch c) false 0
    (lru_with_capacity (dek_lru_capacity c)) (main_gen_new (main_db_file_id c) (anchor_budget c)) None ∅
    (with_capacity (buffer_pool_pages c)) (with_capacity (segment_cache_pages c)) 0.

Definition set_main_db_path (path : string) (c : PagerConfig) : PagerConfig :=
  mkPagerConfig (page_size c) (buffer_pool_pages c) (segment_cache_pages c) (cfg_cipher_id c) (cfg_mk_epoch c)
    (main_db_file_id c) path (anchor_budget c) (dek_lru_capacity c) (observer_retry_count c).

Definition open_main_view (p : Pager) (image : string) : Pager :=
  let c := set_main_db_path image (cfg p) in
  mkPager c (vfs p) (keyring p) (active_epoch p) true 0
    (lru_with_capacity (dek_lru_capacity c)) (main_gen_new (main_db_file_id c) (anchor_budget c)) None ∅
    (with_capacity (buffer_pool_pages c)) (with_capacity 1) (next_ptr p).

Definition file_identity (p : Pager) (file : FileKey) : bytes :=
  match file with Main => main_db_file_id (cfg p) | ApplyJournal id => id end.

Definition mk_for (epoch : Z) (id : CipherId.t) : P bytes :=
  run! k := pgets keyring in lift (lease k epoch id).

Definition active_mk : P bytes :=
  run! e := pgets active_epoch in run! c := pgets cfg in mk_for e (cfg_cipher_id c).

Definition set_read_only (p : Pager) : Pager := set_access true (handle_generation p) p.

Definition install_mk_epoch (mk : bytes) (epoch : Z) (id : CipherId.t) (p : Pager) : Pager :=
  set_dek_lru (invalidate_epoch (dek_lru p) epoch id) (set_keyring (install (keyring p) epoch id mk) p).

Definition retire_mk_epoch (epoch : Z) (id : CipherId.t) : P unit :=
  run! p := pgets (fun p => p) in
  if (epoch =? active_epoch p) && bool_decide (id = cfg_cipher_id (cfg p))
  then pfail (RekeyStateInvalid "active_epoch_retirement") else
  pmodify (fun p => set_dek_lru (invalidate_epoch (dek_lru p) epoch id)
                      (set_keyring (keyring_remove (keyring p) epoch id) p)).

Definition set_active_mk_epoch (mk : bytes) (epoch : Z) (p : Pager) : Pager :=
  set_active_epoch epoch (install_mk_epoch mk epoch (cfg_cipher_id (cfg p)) p).

(** The key of a page: from the keyring through the cache of derived keys. *)
Definition cipher_for (realm : RealmId) (file : FileKey) (epoch : Z) (id : CipherId.t) : P Cipher :=
  run! mk := mk_for epoch id in
  run! p := pgets (fun p => p) in
  run! '(c, lru) := lift (get_or_derive (dek_lru p) realm (file_identity p file) epoch id mk) in
  run! _ := pmodify (set_dek_lru lru) in
  pret c.

(** ** Files: [handles.rs] *)

(** [Vfs::open] *)
Definition vfs_open (path : string) (mode : OpenMode) : P F :=
  run! v := pgets vfs in
  match mode, v !! path with
  | CreateNew, Some _ => pfail (Io "AlreadyExists")
  | _, Some f => pret f
  | (Read | ReadWrite), None => pfail (Io "NotFound")
  | (CreateNew | CreateOrOpen), None => run! _ := pmodify (set_vfs (<[path := blank]> v)) in pret blank
  end.

(** A call on an open file leaves the file as the call left it, also when it fails. *)
Definition on_file {A} (path : string) (m : F -> F * result A) : P A :=
  run! v := pgets vfs in
  match v !! path with
  | Some f => let '(f, r) := m f in run! _ := pmodify (set_vfs (<[path := f]> v)) in lift r
  | None => pfail (Io "NotFound")
  end.

Definition file_path (p : Pager) (file : FileKey) : string :=
  match file with Main => main_db_path (cfg p) | ApplyJournal id => journal_path id end.

Definition enable_write_access (p : Pager) : Pager := set_access false (handle_generation p + 1) p.
Definition close_main_handle (p : Pager) : Pager := set_access (read_only p) (handle_generation p + 1) p.

Definition open_file_handle (file : FileKey) : P F :=
  run! p := pgets (fun p => p) in
  vfs_open (file_path p file) (if read_only p then Read else CreateOrOpen).

(** ** The live header and the nonce anchor: [header_binding.rs] *)

Definition pager_pending_anchor (p : Pager) : Z := pending_anchor (main_nonce p).

Definition pager_commit_anchor (persisted : Z) : P unit :=
  run! p := pgets (fun p => p) in
  run! g := lift (commit_anchor (main_nonce p) persisted) in
  pmodify (set_main_nonce g).

Definition bind_live_header (hk : bytes) (cursor : HeaderCursor) (p : Pager) : Pager :=
  set_live_header (Some (mkLiveHeader hk cursor)) p.

Definition header_cursor : P HeaderCursor :=
  run! h := pgets live_header in
  lift (ok_or (lh_cursor <$> h) (structural_header_invalid "main.db" "header_cursor")).

Definition note_header_written (cursor : HeaderCursor) (p : Pager) : Pager :=
  match live_header p with
  | Some live => set_live_header (Some (mkLiveHeader (lh_hk live) cursor)) p
  | None => p
  end.

Definition main_anchor_window (p : Pager) : Z := window_remaining (main_nonce p).

Definition refresh_live_anchor : P unit :=
  run! p := pgets (fun p => p) in
  match live_header p with
  | None => pfail Aborted
  | Some live =>
      let anchor := pending_anchor (main_nonce p) in
      run! next := on_file (main_db_path (cfg p)) (fun f =>
        refresh_anchor f (Ok tt) (lh_hk live) (lh_cursor live) anchor (page_size (cfg p))) in
      run! _ := pager_commit_anchor anchor in
      pmodify (note_header_written next)
  end.

Definition recover_main_nonce (recovered_anchor : Z) (p : Pager) : Pager :=
  set_main_nonce (main_gen_recover (main_db_file_id (cfg p)) recovered_anchor (anchor_budget (cfg p))) p.

(** [use_local_nonce_prefix] with the prefix the random source gave. *)
Definition use_local_nonce_prefix (random : result bytes) : P unit :=
  run! pre := lift random in
  pmodify (fun p => set_main_nonce (use_prefix (main_nonce p) pre) p).

(** ** Reads: [read.rs] *)

(** Dropping a guard: [guard.rs]. *)
Definition drop_guard (g : PageGuard) : P unit :=
  match guard_slot g with
  | Some slot => locked (guard_key g).1 (unpin_at debug iter slot (guard_key g))
  | None => pret tt
  end.

Definition body_ref (g : PageGuard) : result bytes := page_body (page_bytes (guard_page g)).
Definition body_slice (g : PageGuard) (start end_ : Z) : result bytes :=
  slice (page_bytes (guard_page g)) (ENVELOPE_HEADER_LEN + start) (ENVELOPE_HEADER_LEN + end_).

(** A resident page, pinned, is checked against the caller's realm and kind; a
    page that fails gives its pin back. *)
Definition guard_resident (key : Key) (page : Page) (slot : nat) (realm : RealmId) (b : KindBinding)
  : P (PageGuard * PageKind.t) :=
  match check_resident_page page realm b with
  | Ok kind => pret (mkGuard page key (Some slot), kind)
  | Err e => run! _ := locked key.1 (unpin_at debug iter slot key) in pfail e
  | Panic => lift Panic
  end.

(** The fast path. *)
Definition read_cached (file : FileKey) (page_id : Z) (realm : RealmId) (b : KindBinding)
  : P (option (PageGuard * PageKind.t)) :=
  run! r := locked file (get_and_pin (file, page_id)) in
  match r with
  | Some (page, slot) => run! g := guard_resident (file, page_id) page slot realm b in pret (Some g)
  | None => pret None
  end.

(** One attempt of a cold read on the file as it is at that time. *)
Definition read_attempt (file : FileKey) (page_id : Z) (realm : RealmId) (b : KindBinding)
    (segment_id : bytes) (offset : Z) (f : F) : P Attempt :=
  run! c := pgets cfg in
  let '(buf, r) := read_exact_at f offset (zeros (page_size c)) in
  run! _ := lift r in
  match extract_page_header_ids buf with
  | Err e => pret (Retry e)
  | Panic => lift Panic
  | Ok (on_disk_cipher_id, on_disk_epoch) =>
      run! auth_kind := lift (resolve_on_disk b buf) in
      run! aad := lift (aad_from_fields (mkAadFields (CipherId.as_byte on_disk_cipher_id)
                          (PageKind.as_byte auth_kind) on_disk_epoch page_id realm segment_id)) in
      run! opened := attempt (
        run! cipher := cipher_for realm file on_disk_epoch on_disk_cipher_id in
        lift (open_data_page buf aad cipher)) in
      match opened with
      | Ok (buf, _) => pret (Opened buf auth_kind)
      | Err ChecksumFailure => pret (Retry ChecksumFailure)
      | Err e => pfail e
      | Panic => lift Panic
      end
  end.

(** The attempts left, with what the last one reported. [others i] is what other
    processes have done to the file by the [i]-th attempt. *)
Fixpoint fetch_loop (others : nat -> F -> F) (file : FileKey) (page_id : Z) (realm : RealmId)
    (b : KindBinding) (segment_id : bytes) (offset : Z) (f : F) (attempts i : nat)
    (last_err : option PagedbError) : P (bytes * PageKind.t) :=
  match attempts with
  | O => pfail (unverified realm page_id last_err)
  | S attempts =>
      run! a := read_attempt file page_id realm b segment_id offset (others i f) in
      match a with
      | Opened buf kind => pret (buf, kind)
      | Retry e => fetch_loop others file page_id realm b segment_id offset f attempts (S i) (Some e)
      end
  end.

(** A miss: the page decrypted from the file, with the generation of the handles
    it was read under. *)
Definition fetch_page (others : nat -> F -> F) (file : FileKey) (page_id : Z) (realm : RealmId)
    (b : KindBinding) (segment_id : bytes) : P (Page * PageKind.t * Z) :=
  run! c := pgets cfg in
  run! offset := lift (page_offset page_id (page_size c) "page read") in
  run! generation := pgets handle_generation in
  run! f := open_file_handle file in
  if observer_retry_count c =? U32_MAX then pfail (arithmetic_overflow "observer retry attempts") else
  run! '(buf, kind) := fetch_loop others file page_id realm b segment_id offset f
                         (Z.to_nat (observer_retry_count c + 1)) 0 None in
  run! ptr := new_arc in
  pret (new_with_meta ptr buf (PageKind.as_byte kind) realm, kind, generation).

(** What was fetched enters the cache, unless the main handle was replaced
    meanwhile; a page that got there first wins and is checked like a hit. *)
Definition cache_fetched (file : FileKey) (page_id : Z) (realm : RealmId) (b : KindBinding)
    (page : Page) (auth_kind : PageKind.t) (generation : Z) : P (PageGuard * PageKind.t) :=
  run! now := pgets handle_generation in
  if bool_decide (file = Main) && negb (now =? generation)
  then pret (mkGuard page (file, page_id) None, auth_kind) else
  run! '(page, slot) := locked file (insert_and_pin debug iter (file, page_id) page) in
  guard_resident (file, page_id) page slot realm b.

Definition read_page (others : nat -> F -> F) (file : FileKey) (page_id : Z) (realm : RealmId)
    (b : KindBinding) (segment_id : bytes) : P (PageGuard * PageKind.t) :=
  run! hit := read_cached file page_id realm b in
  match hit with
  | Some r => pret r
  | None =>
      run! '((page, kind), generation) := fetch_page others file page_id realm b segment_id in
      cache_fetched file page_id realm b page kind generation
  end.

Definition read_main_page (others : nat -> F -> F) (page_id : Z) (realm : RealmId) (expected : PageKind.t)
  : P PageGuard :=
  if negb (PageKind.is_main_db expected) then pfail IllegalPageKind else
  run! '(g, _) := read_page others Main page_id realm (Fixed expected) MAIN_DB_SEGMENT_ID in
  pret g.

Definition read_main_node (others : nat -> F -> F) (page_id : Z) (realm : RealmId) : P (PageGuard * PageKind.t) :=
  read_page others Main page_id realm NodeKind MAIN_DB_SEGMENT_ID.

(** ** Reads past the cache: [sealed.rs] *)

Definition read_sealed (page_id : Z) (realm : RealmId) (b : KindBinding) : P SealedRead :=
  run! c := pgets cfg in
  run! offset := lift (page_offset page_id (page_size c) "sealed page read") in
  run! f := open_file_handle Main in
  let '(page, r) := read_exact_at f offset (zeros (page_size c)) in
  run! _ := lift r in
  let unverifiable := corruption (PageUnverifiable realm None page_id None) in
  match extract_page_header_ids page with
  | Err Unsupported => pfail unverifiable
  | Err e => pfail e
  | Panic => lift Panic
  | Ok (id, epoch) =>
      run! kind := lift (resolve_on_disk b page) in
      run! stamp := lift (read_seal_stamp page) in
      run! aad := lift (aad_from_fields (mkAadFields (CipherId.as_byte id) (PageKind.as_byte kind) epoch
                          page_id realm MAIN_DB_SEGMENT_ID)) in
      run! cipher := cipher_for realm Main epoch id in
      match open_data_page page aad cipher with
      | Ok (page, _) => pret (mkSealedRead page kind stamp)
      | Err ChecksumFailure => pfail unverifiable
      | Err e => pfail e
      | Panic => lift Panic
      end
  end.

Definition read_main_node_sealed (page_id : Z) (realm : RealmId) : P SealedRead := read_sealed page_id realm NodeKind.
Definition read_main_page_sealed (page_id : Z) (realm : RealmId) (kind : PageKind.t) : P SealedRead :=
  read_sealed page_id realm (Fixed kind).

(** ** Writes: [write.rs] *)

Definition write_page (file : FileKey) (page_id : Z) (realm : RealmId) (kind : PageKind.t) (body_plain : bytes)
  : P unit :=
  run! c := pgets cfg in
  if negb (blen body_plain =? page_size c - ENVELOPE_OVERHEAD) then pfail PayloadTooLarge else
  run! buf := lift (copy_at (zeros (page_size c)) ENVELOPE_HEADER_LEN body_plain) in
  run! ptr := new_arc in
  let page := new_with_meta ptr buf (PageKind.as_byte kind) realm in
  locked file (with! _ := cache_insert debug iter (file, page_id) page in mark_dirty (file, page_id)).

Definition write_main_page (page_id : Z) (realm : RealmId) (kind : PageKind.t) (body_plain : bytes) : P unit :=
  if negb (PageKind.is_main_db kind) then pfail IllegalPageKind else
  write_page Main page_id realm kind body_plain.

Definition main_dirty_at_budget (p : Pager) : bool :=
  Z.max (buffer_pool_pages (cfg p)) 1 <=? dirty_len (buffer_pool p).

Definition discard_dirty_main (map_cap : Z) : P unit := locked Main (discard_dirty debug iter map_cap Main).

(** ** Flushes: [flush.rs] *)

Definition flush_nonce_window (file : FileKey) (p : Pager) : Z :=
  match file with Main => main_anchor_window p | ApplyJournal _ => USIZE_MAX end.

Definition next_nonce_for_flush (file : FileKey) : P bytes :=
  run! p := pgets (fun p => p) in
  match file with
  | Main =>
      run! '(n, g) := lift (next_nonce (main_nonce p)) in
      run! _ := pmodify (set_main_nonce g) in pret n
  | ApplyJournal id =>
      let g := default (segment_gen_new id) (journal_nonces p !! id) in
      run! _ := pmodify (set_journal_nonces (<[id := g]> (journal_nonces p))) in
      run! '(n, g) := lift (segment_next_nonce g) in
      run! _ := pmodify (set_journal_nonces (<[id := g]> (journal_nonces p))) in pret n
  end.

Fixpoint issue_nonces (file : FileKey) (n : nat) : P (list bytes) :=
  match n with
  | O => pret []
  | S n => run! x := next_nonce_for_flush file in run! xs := issue_nonces file n in pret (x :: xs)
  end.

(** The nonces of [need] pages, with the anchor refreshed when the window is too
    small. Each round issues at least one. *)
Fixpoint draw_nonces (fuel : nat) (file : FileKey) (need : nat) : P (list bytes) :=
  if (need =? 0)%nat then pret [] else
  match fuel with
  | O => lift Panic
  | S fuel =>
      run! window := pgets (flush_nonce_window file) in
      run! window :=
        (if window <? Z.of_nat need
         then run! _ := refresh_live_anchor in pgets (flush_nonce_window file)
         else pret window) in
      let n := Z.to_nat (Z.max (Z.min window (Z.of_nat need)) 1) in
      run! xs := issue_nonces file n in
      run! ys := draw_nonces fuel file (need - n) in
      pret (xs ++ ys)
  end.

(** The plaintext of each dirty page with its kind, in a buffer of its own. *)
Fixpoint gather (file : FileKey) (ids : list Z) : P (list (Z * PageKind.t * bytes) * list (Z * Page)) :=
  match ids with
  | [] => pret ([], [])
  | pid :: ids =>
      run! found := locked file (get_dirty (file, pid)) in
      run! page := lift (ok_or found (Io "dirty page missing from cache")) in
      run! kind := lift (if negb (kind_byte page =? 0) then PageKind.from_byte (kind_byte page)
                         else Ok (derive_kind_for_flush file)) in
      run! c := pgets cfg in
      run! plain := lift (page_body (page_bytes page)) in
      run! wire := lift (copy_at (zeros (page_size c)) ENVELOPE_HEADER_LEN plain) in
      run! '(prepared, gathered) := gather file ids in
      pret ((pid, kind, wire) :: prepared, (pid, page) :: gathered)
  end.

Fixpoint write_offsets (page_size : Z) (ids : list Z) : result (list Z) :=
  match ids with
  | [] => Ok []
  | pid :: ids =>
      let! o := ok_or (checked_mul pid page_size) (arithmetic_overflow "page write offset") in
      let! os := write_offsets page_size ids in Ok (o :: os)
  end.

Definition seal_one (c : PagerConfig) (epoch : Z) (realm : RealmId) (segment_id : bytes) (cipher : Cipher)
    (prepared : Z * PageKind.t * bytes) (nonce : bytes) : result bytes :=
  let '(pid, kind, wire) := prepared in
  let! aad := aad_from_fields (mkAadFields (CipherId.as_byte (cfg_cipher_id c)) (PageKind.as_byte kind) epoch
                pid realm segment_id) in
  seal_data_page wire kind 0 epoch nonce aad cipher.

Fixpoint seal_all (c : PagerConfig) (epoch : Z) (realm : RealmId) (segment_id : bytes) (cipher : Cipher)
    (prepared : list (Z * PageKind.t * bytes)) (nonces : list bytes) : result (list bytes) :=
  match prepared, nonces with
  | x :: prepared, n :: nonces =>
      let! w := seal_one c epoch realm segment_id cipher x n in
      let! ws := seal_all c epoch realm segment_id cipher prepared nonces in Ok (w :: ws)
  | _, _ => Ok []
  end.

Definition write_and_sync (reqs : list (Z * bytes)) (f : F) : F * result unit :=
  match write_at_vectored f reqs with
  | (f, Ok _) => sync f
  | r => r
  end.

(** Everything up to the durable write: what was gathered, or nothing when no page
    is dirty. *)
Definition flush_write (file : FileKey) (realm : RealmId) (segment_id : bytes) (dest : FlushDest)
  : P (option (list (Z * Page))) :=
  run! p := pgets (fun p => p) in
  if read_only p then pfail ReadOnly else
  run! ids := locked file (with! _ := check_usable in cgets (dirty_for_file file)) in
  if bool_decide (ids = []) then pret None else
  let epoch := match dest with Image image => image_epoch image | _ => active_epoch p end in
  run! '(prepared, gathered) := gather file ids in
  run! offsets := lift (write_offsets (page_size (cfg p)) ids) in
  run! nonces := draw_nonces (length ids) file (length ids) in
  run! cipher := match dest with
                 | Image image => pret (image_cipher image)
                 | _ => cipher_for realm file epoch (cfg_cipher_id (cfg p))
                 end in
  run! wires := lift (seal_all (cfg p) epoch realm segment_id cipher prepared nonces) in
  let reqs := zip offsets wires in
  run! path :=
    match dest with
    | Live => run! _ := open_file_handle file in pret (file_path p file)
    | Path path => run! _ := vfs_open path CreateOrOpen in pret path
    | Image image => run! _ := vfs_open (image_path image) CreateOrOpen in pret (image_path image)
    end in
  run! _ := on_file path (write_and_sync reqs) in
  pret (Some gathered).

Definition flush_file (map_cap : Z) (file : FileKey) (realm : RealmId) (segment_id : bytes) (dest : FlushDest)
  : P unit :=
  run! written := flush_write file realm segment_id dest in
  match written with
  | None => pret tt
  | Some gathered => locked file (finish_flush debug iter map_cap file gathered)
  end.

Definition flush_main (map_cap : Z) (realm : RealmId) : P unit :=
  flush_file map_cap Main realm MAIN_DB_SEGMENT_ID Live.
Definition flush_main_to (map_cap : Z) (realm : RealmId) (dest_path : string) : P unit :=
  flush_file map_cap Main realm MAIN_DB_SEGMENT_ID (Path dest_path).
Definition flush_main_to_image (map_cap : Z) (realm : RealmId) (image : RebuildImage) : P unit :=
  flush_file map_cap Main realm MAIN_DB_SEGMENT_ID (Image image).

Definition rebuild_image (realm : RealmId) (path : string) (epoch : Z) (key : bytes) : P RebuildImage :=
  run! p := pgets (fun p => p) in
  run! cipher := lift (derive_cipher (cfg_cipher_id (cfg p)) key realm (file_identity p Main)) in
  pret (mkRebuildImage path epoch cipher).

Definition reset_main_pages : P unit := locked Main (clear_file iter Main).
Definition evict_clean_main_pages : P unit := locked Main (clear_clean_file iter Main).

(** Rewriting pages into an image: the rest of [write.rs]. *)
Definition reseal_page_to (others : nat -> F -> F) (map_cap : Z) (page_id : Z) (realm : RealmId)
    (expected : PageKind.t) (image : RebuildImage) : P unit :=
  run! g := read_main_page others page_id realm expected in
  run! marked := attempt (locked Main (mark_dirty (Main, page_id))) in
  run! over_budget := pgets main_dirty_at_budget in
  run! _ := drop_guard g in
  run! _ := lift marked in
  if over_budget then flush_main_to_image map_cap realm image else pret tt.

Definition write_blank_free_page_to (map_cap : Z) (page_id : Z) (realm : RealmId) (image : RebuildImage) : P unit :=
  run! c := pgets cfg in
  run! _ := write_main_page page_id realm PageKind.Free (zeros (page_size c - ENVELOPE_OVERHEAD)) in
  run! full := pgets main_dirty_at_budget in
  if full then flush_main_to_image map_cap realm image else pret tt.

(** ** Apply-journal sidecars: [journal.rs] *)

Definition stage_journal_page (journal_id : bytes) (page_id : Z) (realm : RealmId) (body_plain : bytes) : P unit :=
  write_page (ApplyJournal journal_id) page_id realm PageKind.ApplyJournal body_plain.

Definition flush_journal (map_cap : Z) (journal_id : bytes) (realm : RealmId) : P unit :=
  flush_file map_cap (ApplyJournal journal_id) realm journal_id Live.

Definition discard_unflushed_journal (map_cap : Z) (journal_id : bytes) : P unit :=
  let key := ApplyJournal journal_id in
  run! _ := locked key (with! _ := discard_dirty debug iter map_cap key in ignore (clear_file iter key)) in
  pmodify (fun p => set_journal_nonces (delete journal_id (journal_nonces p)) p).

Definition read_journal_page (others : nat -> F -> F) (journal_id : bytes) (page_id : Z) (realm : RealmId)
  : P PageGuard :=
  run! '(g, _) := read_page others (ApplyJournal journal_id) page_id realm (Fixed PageKind.ApplyJournal) journal_id in
  pret g.

Definition remove_journal (journal_id : bytes) : P unit :=
  let key := ApplyJournal journal_id in
  run! _ := locked key (clear_file iter key) in
  run! _ := pmodify (fun p => set_journal_nonces (delete journal_id (journal_nonces p)) p) in
  pmodify (fun p => set_vfs (delete (journal_path journal_id) (vfs p)) p).
End pager.
