(* ===== verification/PagerFile.v ===== *)
(** * PagerFile: what the pager's file operations leave of the pages of a file

    Header writes touch the two slots only; a vectored write of whole pages stores
    each of them and leaves the other pages as they are; sealing and opening of the
    pages of one file. *)

From S2P Require Import Prelude Keys Errors PageFormat Crypto DataPage StructuralHeader Vfs HeaderSlots PageCache Pager.
From Stdlib Require Import ZArith Lia.
From stdpp Require Import base list strings gmap.
From coqutil Require Import Byte.

Local Open Scope Z_scope.
Local Open Scope pagedb_scope.

(** The page [pid] of a file, and that it lies within it. *)
Definition page_at (ps : Z) (c : bytes) (pid : Z) : bytes := sub c (pid * ps) ps.
Definition has_page (ps : Z) (c : bytes) (pid : Z) : Prop := pid * ps + ps <= blen c.
#[global] Instance has_page_dec ps c pid : Decision (has_page ps c pid).
Proof. apply Z.le_dec. Defined.

(** Every page of [c] that satisfies [Q] is as it was. *)
Definition keeps (ps : Z) (Q : Z -> Prop) (c c' : bytes) : Prop :=
  blen c <= blen c' /\ forall pid, 0 <= pid -> Q pid -> has_page ps c pid -> page_at ps c' pid = page_at ps c pid.

Lemma keeps_refl ps Q c : keeps ps Q c c.
Proof. split; [lia|done]. Qed.

Lemma keeps_trans ps Q c1 c2 c3 : keeps ps Q c1 c2 -> keeps ps Q c2 c3 -> keeps ps Q c1 c3.
Proof.
  intros [Hl1 H1] [Hl2 H2]. split; [lia|]. intros pid Hp HQ Hh. rewrite H2; [by apply H1|done|done|].
  unfold has_page in *. lia.
Qed.

Lemma keeps_weaken ps (Q Q' : Z -> Prop) c c' : keeps ps Q c c' -> (forall pid, Q' pid -> Q pid) -> keeps ps Q' c c'.
Proof. intros [Hl H] HQ. split; [done|]. auto. Qed.

Lemma write_keeps ps Q c o b :
  0 <= o -> 0 < ps -> (forall pid, 0 <= pid -> Q pid -> pid * ps + ps <= o \/ o + blen b <= pid * ps) ->
  keeps ps Q c (write_contents c o b).
Proof.
  intros Ho Hps Hd. split; [rewrite blen_write_contents by done; lia|]. intros pid Hp HQ Hh.
  unfold page_at, has_page in *. apply sub_write_contents_other; [done|nia|lia|done|by apply Hd].
Qed.

(** Pages written at their offsets read back; every other page is kept. *)
Definition page_reqs (ps : Z) (ws : list (Z * bytes)) : list (Z * bytes) := map (fun w => (w.1 * ps, w.2)) ws.

Lemma page_reqs_ok ps ws :
  0 < ps -> NoDup ws.*1 -> Forall (fun w => 0 <= w.1 /\ w.1 * ps + ps <= U64_MAX /\ blen w.2 = ps) ws ->
  Forall (fun '(o, b) => 0 <= o /\ o + blen b <= U64_MAX) (page_reqs ps ws) /\ disjoint_reqs (page_reqs ps ws).
Proof.
  intros Hps Hnd Hws. split.
  - apply Forall_forall. intros [o b] ([pid w] & [= -> ->] & Hin)%list_elem_of_fmap.
    rewrite Forall_forall in Hws. destruct (Hws _ Hin) as (H0 & H1 & H2). simpl in *. nia.
  - intros i j a b Hij Ha Hb. unfold page_reqs in *. rewrite list_lookup_fmap in Ha, Hb.
    destruct (ws !! i) as [x|] eqn:Hi; [|done]. destruct (ws !! j) as [y|] eqn:Hj; [|done].
    injection Ha as <-. injection Hb as <-. cbn [fst snd].
    pose proof (Forall_lookup_1 _ _ _ _ Hws Hi) as (_ & _ & ->). pose proof (Forall_lookup_1 _ _ _ _ Hws Hj) as (_ & _ & ->).
    assert (x.1 <> y.1) as Hne.
    { intros He. apply Hij. eapply (NoDup_lookup _ _ _ x.1 Hnd); rewrite list_lookup_fmap; [by rewrite Hi|by rewrite Hj, He]. }
    nia.
Qed.

Lemma write_pages ps ws c :
  0 < ps -> NoDup ws.*1 -> Forall (fun w => 0 <= w.1 /\ blen w.2 = ps) ws ->
  let c' := foldl (fun c '(o, b) => write_contents c o b) c (page_reqs ps ws) in
  keeps ps (fun pid => ~ (pid ∈ ws.*1)) c c' /\
  forall pid w, (pid, w) ∈ ws -> has_page ps c' pid /\ page_at ps c' pid = w.
Proof.
  intros Hps. revert c. induction ws as [|[p w] ws IH]; intros c Hnd Hws; cbn zeta.
  { split; [apply keeps_refl|]. intros pid w []%elem_of_nil. }
  apply NoDup_cons in Hnd as [Hni Hnd]. apply Forall_cons in Hws as [[Hp Hw] Hws]. simpl in Hp, Hw. cbn [page_reqs map foldl fst snd].
  fold (page_reqs ps ws). set (c1 := write_contents c (p * ps) w). destruct (IH c1 Hnd Hws) as [[Hl Hk] Hin]. split.
  - apply keeps_trans with c1.
    + apply write_keeps; [nia|done|]. intros pid Hpid Hne. rewrite fmap_cons, elem_of_cons in Hne. simpl in Hne. rewrite Hw.
      assert (pid <> p) by (intros ->; apply Hne; by left). nia.
    + eapply keeps_weaken; [split; [exact Hl|exact Hk]|]. cbn beta. intros pid Hne Hx. apply Hne. rewrite fmap_cons, elem_of_cons. by right.
  - assert (has_page ps c1 p /\ page_at ps c1 p = w) as [Hh1 Hp1].
    { unfold has_page, page_at, c1. split; [rewrite blen_write_contents by nia; lia|].
      pose proof (sub_write_contents_same c (p * ps) w) as Hs. rewrite Hw in Hs. apply Hs. nia. }
    intros pid w' [[= -> ->]|Hi]%elem_of_cons; [|by apply Hin]. unfold has_page in *. split; [lia|]. by rewrite Hk.
Qed.

(** ** Header writes *)

Section header.
Context `{PrimitivesSpec} {F : Type} `{VfsFileSpec F}.

Definition past_header (pid : Z) : Prop := 2 <= pid.

Lemma commit_header_keeps (f f' : F) hk h cur ps r :
  usable f -> 4096 <= ps <= 65536 -> main_header_ok h ->
  commit_header f (Ok tt) hk h cur ps = (f', r) ->
  usable f' /\ keeps ps past_header (contents f) (contents f') /\ r <> Panic.
Proof.
  intros Hu Hps Hok. unfold commit_header.
  destruct (validate_page_size_log2 (page_size_log2 h)) as [ps'|e|] eqn:Hv.
  2-3: unfold encode_main_db_header; rewrite Hv; intros [= <- <-]; try (by (split; [done|split; [apply keeps_refl|done]])).
  2: { exfalso. revert Hv. unfold validate_page_size_log2. by case_match. }
  destruct (decide (ps' = ps)) as [->|Hne].
  2: { unfold encode_main_db_header. rewrite Hv. cbn [mbind]. rewrite (proj2 (Z.eqb_neq _ _)) by done. cbn [negb].
       intros [= <- <-]. split; [done|]. split; [apply keeps_refl|done]. }
  rewrite (encode_main_db_header_eq h hk ps Hok Hv). set (b := _ ++ _).
  assert (blen b = ps) as Hb.
  { destruct (encode_main_authentic h hk ps b Hok) as ((Hb & _) & _); [|done]. by rewrite (encode_main_db_header_eq h hk ps Hok Hv). }
  rewrite slot_off_sat by done.
  assert (0 <= slot_off ps (other cur) <= 65536) as Hoff by (unfold slot_off; destruct cur; cbn; lia).
  destruct (write_all_at_spec f (slot_off ps (other cur)) b) as (f1 & -> & Hu1 & Hc1); [done|lia|unfold U64_MAX; lia| |].
  { intros Hn. rewrite Hn in Hb. change (blen []) with 0 in Hb. lia. }
  destruct (sync_spec f1 Hu1) as (f2 & -> & Hu2 & Hc2). intros [= <- <-]. split; [done|]. split; [|done].
  rewrite Hc2, Hc1. apply write_keeps; [lia|lia|]. unfold past_header. intros pid _ Hp. right. rewrite Hb.
  unfold slot_off in *. destruct cur; cbn in *; nia.
Qed.
Lemma read_header_slot_total (f : F) ps s :
  usable f -> 4096 <= ps <= 65536 ->
  exists buf, read_header_slot f (slot_off ps s) (zeros ps) = (buf, Ok tt) /\ blen buf = ps.
Proof.
  intros Hu Hps. unfold read_header_slot. assert (blen (zeros ps) = ps) as Hz by (apply blen_zeros; lia).
  assert (0 <= slot_off ps s <= 65536) as Hoff by (unfold slot_off; destruct s; cbn; lia).
  destruct (Z.le_gt_cases (slot_off ps s + ps) (blen (contents f))) as [Hl|Hl].
  - rewrite read_exact_at_ok by (rewrite ?Hz; (done || unfold U64_MAX; lia)). eexists. split; [done|].
    rewrite Hz. apply blen_sub; lia.
  - rewrite read_exact_at_short; [|done|lia|rewrite Hz; unfold U64_MAX; lia|rewrite Hz; lia|intros Hn; rewrite Hn in Hz; change (blen []) with 0 in Hz; lia].
    eexists. split; [done|]. pose proof (blen_nonneg (contents f)). rewrite blen_app, blen_drop by (rewrite ?Hz; lia). rewrite Hz.
    destruct (Z.le_gt_cases (slot_off ps s) (blen (contents f))) as [Hle|Hle].
    + rewrite blen_sub by lia. lia.
    + replace (Z.max 0 (blen (contents f) - slot_off ps s)) with 0 by lia. unfold sub. change (Z.to_nat 0) with 0%nat. rewrite take_0. change (blen []) with 0. lia.
Qed.

Lemma decode_header_no_panic b hk ps : blen b = ps -> 4096 <= ps -> decode_main_db_header b hk ps <> Panic.
Proof.
  intros Hb Hps. assert (authenticate_main_db_header b hk ps <> Panic) as Ha.
  { unfold authenticate_main_db_header, MAIN_FIELDS_END, MAC_LEN. rewrite Hb, Z.eqb_refl. cbn [negb orb].
    rewrite (proj2 (Z.ltb_ge _ _)) by lia. rewrite !slice_ok by lia. rewrite u16_le_ok by lia. by repeat case_match. }
  unfold decode_main_db_header. destruct (authenticate_main_db_header b hk ps); [|done|done].
  rewrite u16_le_ok, !u8_at_ok, u32_le_ok, !arr16_ok, !u64_le_ok by lia. cbn. by repeat case_match.
Qed.

Lemma refresh_anchor_keeps (f f' : F) hk cursor anchor ps r :
  usable f -> 4096 <= ps <= 65536 -> is_u64 anchor -> 0 <= hc_seq cursor ->
  refresh_anchor f (Ok tt) hk cursor anchor ps = (f', r) ->
  usable f' /\ keeps ps past_header (contents f) (contents f') /\ r <> Panic /\ (forall c, r = Ok c -> 0 <= hc_seq c).
Proof.
  intros Hu Hps Han Hseq. unfold refresh_anchor. rewrite slot_off_sat by done.
  destruct (read_header_slot_total f ps (hc_slot cursor) Hu Hps) as (buf & -> & Hb).
  pose proof (decode_header_no_panic buf hk ps Hb ltac:(lia)) as Hnp.
  destruct (decode_main_db_header buf hk ps) as [h|e|] eqn:Hd; [|intros [= <- <-]; split; [done|]; split; [apply keeps_refl|done]|done].
  apply decode_main_db_header_spec in Hd as (_ & _ & ->).
  case_match; [intros [= <- <-]; split; [done|]; split; [apply keeps_refl|done]|].
  unfold next_seq, checked_add. destruct (Z.leb_spec (hc_seq cursor + 1) USIZE_MAX) as [Hs|Hs]; cbn [ok_or].
  2: { intros [= <- <-]. split; [done|]. split; [apply keeps_refl|done]. }
  destruct (commit_header _ _ _ _ _ _) as [f1 r1] eqn:Hc. intros Hr.
  apply commit_header_keeps in Hc as (Hu1 & Hk1 & Hnp1); [|done|done|].
  - destruct r1 as [slot|e|]; injection Hr as <- <-; split_and!; try done. intros c [= <-]. cbn. lia.
  - pose proof (main_fields_of_ok buf ltac:(lia)) as Hok. unfold main_header_ok, set_anchor_seq in *. cbn in *.
    unfold USIZE_MAX, U64_MAX in *. destruct_and!. split_and!; (done || lia).
Qed.
End header.

(** ** Pages at rest *)

Section sealed.
Context `{PrimitivesSpec}.
Context (keys : EpochKeyring) (fid : bytes) (realm : RealmId).

Definition main_aad (id : CipherId.t) (k : PageKind.t) (e pid : Z) : AadFields :=
  mkAadFields (CipherId.as_byte id) (PageKind.as_byte k) e pid realm MAIN_DB_SEGMENT_ID.

(** The bytes of page [pid] open, under the key their envelope names, to the kind
    and body [x]. *)
Definition opens_to (pid : Z) (page : bytes) (x : PageKind.t * bytes) : Prop :=
  exists id e mk c aad opened,
    extract_page_header_ids page = Ok (id, e) /\ keys !! (e, CipherId.as_byte id) = Some mk /\
    derive_cipher id mk realm fid = Ok c /\ cipher_id c = id /\ is_u64 e /\
    aad_from_fields (main_aad id x.1 e pid) = Ok aad /\
    extract_page_kind page = Ok x.1 /\ open_data_page page aad c = Ok (opened, x.1) /\
    page_body opened = Ok x.2 /\ blen opened = blen page.

Lemma main_aad_ok id k e pid : is_u64 e -> is_u64 pid -> blen realm = 16 -> aad_fields_ok (main_aad id k e pid).
Proof.
  intros He Hp Hr. unfold aad_fields_ok, main_aad. cbn. split; [apply CipherId.cipher_as_byte_u8|]. split; [apply PageKind.as_byte_u8|]. done.
Qed.

Lemma envelope_ids cid kind flags epoch nonce ct tag :
  blen flags = 2 -> is_u64 epoch -> blen nonce = 12 -> blen tag = 16 -> 1 <= blen ct ->
  extract_page_header_ids (envelope cid kind flags (le64 epoch) nonce ct tag) =
    let! id := CipherId.from_byte (u8_of cid) in Ok (id, epoch).
Proof.
  intros Hf He Hn Ht Hct. pose proof (blen_le64 epoch).
  destruct (envelope_fields cid kind flags (le64 epoch) nonce ct tag) as (F0 & _ & _ & Fe & _); [done..|].
  unfold extract_page_header_ids, ENVELOPE_OVERHEAD, ENVELOPE_HEADER_LEN, TAG_LEN, OFF_CIPHER_ID, OFF_MK_EPOCH.
  rewrite blen_envelope by done. rewrite (proj2 (Z.ltb_ge _ _)) by lia. rewrite (byte_at_sub _ 0 cid) by (done || lia).
  destruct (CipherId.from_byte _); [|done..]. rewrite slice_ok by (rewrite ?blen_envelope by done; lia).
  change (4 + 8 - 4) with 8. by rewrite Fe, of_le64.
Qed.

(** What a flush seals opens again. *)
Lemma seal_opens wire kind epoch nonce aad c mk id pid body w :
  blen realm = 16 -> is_u64 epoch -> is_u64 pid -> blen nonce = 12 -> 1 <= blen body ->
  blen wire = blen body + 40 -> sub wire 24 (blen body) = body ->
  keys !! (epoch, CipherId.as_byte id) = Some mk -> derive_cipher id mk realm fid = Ok c -> cipher_id c = id ->
  aad_from_fields (main_aad id kind epoch pid) = Ok aad ->
  seal_data_page wire kind 0 epoch nonce aad c = Ok w ->
  blen w = blen wire /\ opens_to pid w (kind, body).
Proof.
  intros Hr He Hp Hn Hb Hl Hs Hk Hc Hid Ha. rewrite (seal_data_page_eq wire kind 0 epoch nonce aad c body) by done.
  destruct (encrypt c nonce aad body) as [[ct tag]|e|] eqn:E; [|done..]. apply decrypt_encrypt in E as (Hct & Htag & Hdec).
  intros [= <-]. pose proof (blen_le16 0). pose proof (blen_le64 epoch). rewrite blen_envelope by done. split; [lia|].
  pose proof (main_aad_ok id kind epoch pid He Hp Hr) as Hok. destruct (aad_kind _ _ Hok Ha) as [Hal Hak]. unfold AAD_LEN in Hal.
  exists id, epoch, mk, c, aad, (envelope (to_u8 (CipherId.as_byte (cipher_id c))) (to_u8 (PageKind.as_byte kind)) (le16 0) (le64 epoch) nonce body tag).
  rewrite envelope_ids, envelope_kind, envelope_body, open_envelope, !blen_envelope by (done || lia).
  rewrite !u8_to_u8 by (apply PageKind.as_byte_u8 || apply CipherId.cipher_as_byte_u8).
  rewrite CipherId.cipher_from_as_byte, PageKind.from_as_byte, Hid. split_and!; try done; try lia.
  rewrite bool_decide_true by done. cbn [negb]. rewrite Hak. rewrite bool_decide_true by done. cbn [negb]. by rewrite Hdec.
Qed.

(** A page does not open under another kind. *)
Lemma opens_only page k k0 id e aad c :
  2 <= blen aad -> sub aad 1 1 = [to_u8 (PageKind.as_byte k)] -> extract_page_header_ids page = Ok (id, e) -> cipher_id c = id ->
  extract_page_kind page = Ok k0 -> k <> k0 -> open_data_page page aad c = Err ChecksumFailure.
Proof.
  intros Ha Hak Hids Hid Hk Hne. unfold extract_page_header_ids in Hids.
  destruct (Z.ltb_spec (blen page) (ENVELOPE_OVERHEAD + 1)) as [|Hl]; [done|].
  destruct (envelope_split page Hl) as (cid & kb & Hc0 & Hk0 & Hpage). unfold ENVELOPE_OVERHEAD, ENVELOPE_HEADER_LEN, TAG_LEN in *.
  assert (forall o n, 0 <= o -> 0 <= n -> o + n <= blen page -> blen (sub page o n) = n) as Hsub by (intros; by apply blen_sub).
  revert Hids. unfold OFF_CIPHER_ID. rewrite (byte_at_sub _ 0 cid) by (done || lia).
  destruct (CipherId.from_byte (u8_of cid)) as [id'| |] eqn:Hcid; [|done..]. rewrite slice_ok by (unfold OFF_MK_EPOCH; lia).
  cbn. intros [= -> _]. revert Hk. unfold extract_page_kind, OFF_PAGE_KIND. rewrite (proj2 (Z.leb_gt _ _)) by lia.
  rewrite (byte_at_sub _ 1 kb) by (done || lia). cbn. intros Hk. rewrite Hpage, open_envelope by (rewrite ?Hsub; lia).
  rewrite Hcid. cbn. rewrite Hk. cbn. rewrite bool_decide_true by done. cbn [negb]. rewrite Hak.
  rewrite bool_decide_false; [done|]. intros [= He]. apply PageKind.from_byte_inv in Hk. rewrite <- He in Hk.
  rewrite u8_to_u8 in Hk by apply PageKind.as_byte_u8. apply Hne. by destruct k, k0.
Qed.
End sealed.
