(* ===== verification/PagerOps.v ===== *)
(** * PagerOps: the pager's operations one at a time

    What key lookup, cold reads, nonce allocation, gathering and sealing do to a
    pager whose keys, configuration and main file are sound. *)

From S2P Require Import Prelude Keys Errors PageFormat Crypto DataPage StructuralHeader Vfs HeaderSlots PageCache PageCacheInv PageCacheOps PageCacheSpec Pager PagerFile.
From Stdlib Require Import ZArith Lia.
From stdpp Require Import base list strings gmap.
From coqutil Require Import Byte.

Local Open Scope Z_scope.
Local Open Scope pagedb_scope.

(** ** Running computations *)

Section runs.
Context {F : Type}.
Local Abbreviation Pager := (Pager F).

Lemma pbind_ok {A B} (m : P A) (k : A -> P B) (p p' : Pager) a : m p = (Ok a, p') -> pbind m k p = k a p'.
Proof. intros Hm. unfold pbind. by rewrite Hm. Qed.
Lemma pbind_err {A B} (m : P A) (k : A -> P B) (p p' : Pager) e : m p = (Err e, p') -> pbind m k p = (Err e, p').
Proof. intros Hm. unfold pbind. by rewrite Hm. Qed.
Lemma pbind_gets {A B} (f : Pager -> A) (k : A -> P B) (p : Pager) : pbind (pgets f) k p = k (f p) p.
Proof. done. Qed.
Lemma pbind_modify {B} (f : Pager -> Pager) (k : unit -> P B) (p : Pager) : pbind (pmodify f) k p = k tt (f p).
Proof. done. Qed.
Lemma pbind_ret {A B} (a : A) (k : A -> P B) (p : Pager) : pbind (pret a) k p = k a p.
Proof. done. Qed.
Lemma pbind_lift {A B} (r : result A) (k : A -> P B) (p : Pager) :
  pbind (lift r) k p = match r with Ok a => k a p | Err e => (Err e, p) | Panic => (Panic, p) end.
Proof. by destruct r. Qed.
Lemma pbind_assoc {A B D} (m : P A) (k : A -> P B) (h : B -> P D) (p : Pager) :
  pbind (pbind m k) h p = pbind m (fun a => pbind (k a) h) p.
Proof. unfold pbind. destruct (m p) as [[a|e|] p']; done. Qed.

Lemma locked_ok {A} file (m : C A) (p : Pager) a c :
  m (cache_for_key file p) = (Ok a, c) -> locked file m p = (Ok a, set_cache_for_key file c p).
Proof. intros Hm. unfold locked. by rewrite Hm. Qed.
End runs.

Ltac prun := repeat first
  [rewrite pbind_gets|rewrite pbind_modify|rewrite pbind_ret|rewrite pbind_assoc].

(** ** A sound pager *)

Section ops.
Context `{PrimitivesSpec} {F : Type} `{VfsFileSpec F}.
Context (realm : RealmId).
Local Abbreviation Pager := (Pager F).

Record config_ok (c : PagerConfig) : Prop := mkConfigOk {
  cf_page : 4096 <= page_size c <= 65536;
  cf_fid : blen (main_db_file_id c) = 16;
  cf_retry : 0 <= observer_retry_count c < U32_MAX;
}.

(** Every cached cipher is the one its key derives. *)
Definition lru_sound (p : Pager) : Prop :=
  forall r f e cid c, lru_map (dek_lru p) !! (r, f, e, cid) = Some c ->
    exists id mk, CipherId.as_byte id = cid /\ keyring p !! (e, cid) = Some mk /\ derive_cipher id mk r f = Ok c.

Definition gen_wf (g : MainDbNonceGen) : Prop := blen (Crypto.prefix g) = 6 /\ is_u64 (Crypto.next g).

Definition main_file (p : Pager) (f : F) : Prop := vfs p !! main_db_path (cfg p) = Some f.

Record static_ok (p : Pager) : Prop := mkStaticOk {
  st_cfg : config_ok (cfg p);
  st_realm : blen realm = 16;
  st_epoch : is_u64 (active_epoch p);
  st_key : is_Some (keyring p !! (active_epoch p, CipherId.as_byte (cfg_cipher_id (cfg p))));
  st_lru : lru_sound p;
  st_gen : gen_wf (main_nonce p);
  st_cursor : forall live, live_header p = Some live -> 0 <= hc_seq (lh_cursor live);
  st_file : exists f, main_file p f /\ usable f;
  st_writable : read_only p = false;
}.

(** What an operation on pages may change besides the cache. *)
Record moved (Q : Z -> Prop) (p p' : Pager) : Prop := mkMoved {
  mv_cfg : cfg p' = cfg p;
  mv_keys : keyring p' = keyring p;
  mv_epoch : active_epoch p' = active_epoch p;
  mv_gen : handle_generation p' = handle_generation p;
  mv_ptr : next_ptr p <= next_ptr p';
  mv_file : forall f, main_file p f -> usable f ->
    exists f', main_file p' f' /\ usable f' /\ keeps (page_size (cfg p)) Q (contents f) (contents f');
}.

Lemma moved_refl Q p : moved Q p p.
Proof. constructor; try done; try lia. intros f Hf Hu. exists f. split; [done|]. split; [done|apply keeps_refl]. Qed.

Lemma moved_trans Q p1 p2 p3 : moved Q p1 p2 -> moved Q p2 p3 -> moved Q p1 p3.
Proof.
  intros [E1 E2 E3 E4 E5 E6] [G1 G2 G3 G4 G5 G6]. constructor; try congruence; [lia|].
  intros f Hf Hu. destruct (E6 f Hf Hu) as (f2 & Hf2 & Hu2 & Hk2). destruct (G6 f2 Hf2 Hu2) as (f3 & Hf3 & Hu3 & Hk3).
  exists f3. split; [done|]. split; [done|]. eapply keeps_trans; [exact Hk2|]. by rewrite E1 in Hk3.
Qed.

Lemma moved_weaken (Q Q' : Z -> Prop) p p' : moved Q p p' -> (forall pid, Q' pid -> Q pid) -> moved Q' p p'.
Proof.
  intros [? ? ? ? ? Hf] HQ. constructor; try done. intros f Hm Hu. destruct (Hf f Hm Hu) as (f' & ? & ? & ?).
  exists f'. split; [done|]. split; [done|]. by eapply keeps_weaken.
Qed.

(** ** Keys *)

Lemma leased_key_ok p r f e id mk :
  lru_sound p -> blen r = 16 -> blen f = 16 -> keyring p !! (e, CipherId.as_byte id) = Some mk ->
  exists c l, get_or_derive (dek_lru p) r f e id mk = Ok (c, l) /\ derive_cipher id mk r f = Ok c /\ lru_sound (set_dek_lru l p).
Proof.
  intros Hl Hr Hf Hk. unfold get_or_derive. destruct (lru_map (dek_lru p) !! _) as [c|] eqn:Hc.
  - destruct (Hl _ _ _ _ _ Hc) as (id' & mk' & Hid & Hk' & Hd). rewrite Hk in Hk'. injection Hk' as <-.
    assert (id' = id) as -> by (by destruct id', id).
    eexists c, _. split; [done|]. split; [done|]. intros r' f' e' cid' c' Hc'. by apply (Hl r' f').
  - destruct (derive_cipher_ok id mk r f Hr Hf) as (c & Hd & _). rewrite Hd. cbn.
    assert (forall m order cap, m ⊆ lru_map (dek_lru p) ->
      lru_sound (set_dek_lru (mkDekLru (<[(r, f, e, CipherId.as_byte id) := c]> m) order cap) p)) as Hs.
    { intros m order cap Hm r' f' e' cid' c'. cbn. rewrite lookup_insert_Some. intros [[[= <- <- <- <-] <-]|[_ Hc']].
      - by exists id, mk.
      - apply (Hl r' f'). by eapply lookup_weaken. }
    destruct (lru_capacity (dek_lru p) <=? Z.of_nat (size (lru_map (dek_lru p)))); [destruct (lru_order (dek_lru p)) as [|v o]|];
      eexists c, _; (split; [done|]); (split; [done|]); apply Hs; [done|apply delete_subseteq|done].
Qed.

(** The pager with another key cache or page address. *)
Lemma static_lru p l : static_ok p -> lru_sound (set_dek_lru l p) -> static_ok (set_dek_lru l p).
Proof. intros [] Hl. by constructor. Qed.
Lemma static_ptr p n : static_ok p -> static_ok (set_next_ptr n p).
Proof. intros []. by constructor. Qed.
Lemma static_caches p b s : static_ok p -> static_ok (set_caches b s p).
Proof. intros []. by constructor. Qed.
Lemma moved_lru Q p l : moved Q p (set_dek_lru l p).
Proof. constructor; try done; try (cbn; lia). intros f Hf Hu. exists f. split; [done|]. split; [done|apply keeps_refl]. Qed.
Lemma moved_ptr Q p n : next_ptr p <= n -> moved Q p (set_next_ptr n p).
Proof. constructor; try done. intros f Hf Hu. exists f. split; [done|]. split; [done|apply keeps_refl]. Qed.

Lemma cipher_for_ok p e id :
  static_ok p ->
  (exists mk c l, keyring p !! (e, CipherId.as_byte id) = Some mk /\ derive_cipher id mk realm (main_db_file_id (cfg p)) = Ok c /\
     cipher_for realm Main e id p = (Ok c, set_dek_lru l p) /\ static_ok (set_dek_lru l p)) \/
  (keyring p !! (e, CipherId.as_byte id) = None /\
   cipher_for realm Main e id p = (Err (MissingPersistedKey e (CipherId.as_byte id)), p)).
Proof.
  intros Hs. unfold cipher_for, mk_for. prun. rewrite pbind_lift. unfold lease.
  destruct (keyring p !! (e, CipherId.as_byte id)) as [mk|] eqn:Hk; cbn [ok_or]; [left|right; done].
  destruct (leased_key_ok p realm (main_db_file_id (cfg p)) e id mk) as (c & l & Hg & Hd & Hl);
    [apply Hs|apply Hs|apply Hs|done|].
  prun. rewrite pbind_lift. unfold file_identity. rewrite Hg. exists mk, c, l. split; [done|]. split; [done|].
  split; [done|]. by apply static_lru.
Qed.

(** ** Cold reads *)

Definition binds (b : KindBinding) (k : PageKind.t) : bool :=
  match b with
  | Fixed k' => bool_decide (k' = k)
  | NodeKind => match k with PageKind.BTreeLeaf | PageKind.BTreeInternal => true | _ => false end
  end.

(** Page [pid] of a main file with the contents [c]. *)
Definition durable (p : Pager) (c : bytes) (pid : Z) (x : PageKind.t * bytes) : Prop :=
  has_page (page_size (cfg p)) c pid /\
  opens_to (keyring p) (main_db_file_id (cfg p)) realm pid (page_at (page_size (cfg p)) c pid) x.

Definition addressable (p : Pager) (pid : Z) : Prop := 0 <= pid /\ pid * page_size (cfg p) + page_size (cfg p) <= U64_MAX.

Lemma addressable_u64 p pid : static_ok p -> addressable p pid -> is_u64 pid.
Proof. intros [[? _ _] _ _ _ _ _ _ _ _] [? ?]. unfold U64_MAX in *. nia. Qed.

Lemma lru_id (p : Pager) : set_dek_lru (dek_lru p) p = p.
Proof. by destruct p. Qed.
Lemma lru_lru (p : Pager) l l' : set_dek_lru l' (set_dek_lru l p) = set_dek_lru l' p.
Proof. done. Qed.

Lemma opened_len page aad c opened k : 2 <= blen aad -> open_data_page page aad c = Ok (opened, k) -> blen opened = blen page.
Proof. intros Ha Ho. by destruct (open_data_page_inv page aad c opened k Ha Ho) as (body & _ & Hl & _). Qed.

Lemma extract_ids_cases page : ENVELOPE_OVERHEAD + 1 <= blen page ->
  extract_page_header_ids page = Err Unsupported \/ exists id e, extract_page_header_ids page = Ok (id, e) /\ is_u64 e.
Proof.
  intros Hl. unfold extract_page_header_ids. rewrite (proj2 (Z.ltb_ge _ _)) by lia.
  unfold ENVELOPE_OVERHEAD, ENVELOPE_HEADER_LEN, TAG_LEN, OFF_CIPHER_ID, OFF_MK_EPOCH in *.
  destruct (envelope_split page) as (cid & kb & Hc & _); [done|]. rewrite (byte_at_sub _ 0 cid) by (done || lia). cbn.
  destruct (CipherId.from_byte (u8_of cid)) as [id|e|] eqn:E.
  - right. rewrite slice_ok by lia. eexists _, _. split; [done|]. apply (of_le_width 8); lia.
  - left. revert E. unfold CipherId.from_byte. repeat case_match; congruence.
  - by apply CipherId.cipher_from_byte_no_panic in E.
Qed.

Lemma extract_kind_cases page : ENVELOPE_OVERHEAD + 1 <= blen page ->
  (exists e, extract_page_kind page = Err e) \/ exists k, extract_page_kind page = Ok k.
Proof.
  intros Hl. destruct (extract_page_kind page) as [k|e|] eqn:E; [right; by exists k|left; by exists e|exfalso].
  revert E. unfold extract_page_kind, OFF_PAGE_KIND. rewrite (proj2 (Z.leb_gt _ _)) by (unfold ENVELOPE_OVERHEAD, ENVELOPE_HEADER_LEN, TAG_LEN in *; lia).
  destruct (envelope_split page Hl) as (cid & kb & _ & Hk & _).
  rewrite (byte_at_sub _ 1 kb) by (done || unfold ENVELOPE_OVERHEAD, ENVELOPE_HEADER_LEN, TAG_LEN in *; lia). cbn.
  apply PageKind.from_byte_no_panic.
Qed.

Lemma resolve_on_disk_cases b page : ENVELOPE_OVERHEAD + 1 <= blen page ->
  resolve_on_disk b page = Err ChecksumFailure \/
  exists k, resolve_on_disk b page = Ok k /\ (b = Fixed k \/ b = NodeKind /\ extract_page_kind page = Ok k /\ binds b k = true).
Proof.
  intros Hl. destruct b as [k|]; cbn [resolve_on_disk]; [right; exists k; auto|].
  destruct (extract_kind_cases page Hl) as [[e ->]|[k ->]]; [by left|].
  destruct k; try (by left); (right; eexists; split; [done|]; right; done).
Qed.

(** An attempt that reads a whole page. *)
Lemma read_attempt_page p pid f :
  static_ok p -> usable f -> addressable p pid -> has_page (page_size (cfg p)) (contents f) pid ->
  let page := page_at (page_size (cfg p)) (contents f) pid in
  blen page = page_size (cfg p) /\
  read_exact_at f (pid * page_size (cfg p)) (zeros (page_size (cfg p))) = (page, Ok tt).
Proof.
  intros Hs Hu [Hp Hm] Hl page. pose proof (cf_page _ (st_cfg _ Hs)) as Hps. unfold has_page in Hl.
  assert (blen (zeros (page_size (cfg p))) = page_size (cfg p)) as Hz by (apply blen_zeros; lia).
  split; [apply blen_sub; nia|]. rewrite read_exact_at_ok by (rewrite ?Hz; (done || nia)). by rewrite Hz.
Qed.

(** The attempt once the page and its kind are known. *)
Lemma read_attempt_open p pid b f id e k :
  static_ok p -> usable f -> addressable p pid -> has_page (page_size (cfg p)) (contents f) pid ->
  let page := page_at (page_size (cfg p)) (contents f) pid in
  extract_page_header_ids page = Ok (id, e) -> is_u64 e -> resolve_on_disk b page = Ok k ->
  exists aad l, aad_from_fields (main_aad realm id k e pid) = Ok aad /\ 2 <= blen aad /\
    sub aad 1 1 = [to_u8 (PageKind.as_byte k)] /\ static_ok (set_dek_lru l p) /\
    read_attempt Main pid realm b MAIN_DB_SEGMENT_ID (pid * page_size (cfg p)) f p =
      (let! mk := lease (keyring p) e id in
       let! c := derive_cipher id mk realm (main_db_file_id (cfg p)) in
       match open_data_page page aad c with
       | Ok (buf, _) => Ok (Opened buf k)
       | Err ChecksumFailure => Ok (Retry ChecksumFailure)
       | Err e => Err e
       | Panic => Panic
       end, set_dek_lru l p).
Proof.
  intros Hs Hu Had Hh page Hids He Hres. destruct (read_attempt_page p pid f Hs Hu Had Hh) as [Hbp Hrd].
  pose proof (main_aad_ok realm id k e pid He (addressable_u64 p pid Hs Had) (st_realm _ Hs)) as Hok.
  destruct (aad_from_fields (main_aad realm id k e pid)) as [aad| |] eqn:Ha; [|by rewrite (aad_from_fields_ok _ Hok) in Ha..].
  destruct (aad_kind _ _ Hok Ha) as [Hal Hak]. unfold AAD_LEN in Hal.
  unfold read_attempt. prun. rewrite Hrd, pbind_lift. fold page. rewrite Hids, pbind_lift, Hres, pbind_lift. fold (main_aad realm id k e pid). rewrite Ha.
  destruct (cipher_for_ok p e id Hs) as [(mk & c & l & Hk & Hd & Hc & Hs')|[Hk Hc]].
  - exists aad, l. split; [done|]. split; [lia|]. split; [done|]. split; [done|]. unfold lease. rewrite Hk. cbn [ok_or mbind]. rewrite Hd.
    pose proof (open_data_page_no_panic page aad c ltac:(lia)) as Hnp.
    rewrite (pbind_ok _ _ p (set_dek_lru l p) (open_data_page page aad c)).
    + destruct (open_data_page page aad c) as [[buf ?]|e0|]; [done| |done]. by destruct e0.
    + unfold attempt. rewrite (pbind_ok _ _ _ _ _ Hc). unfold lift. by destruct (open_data_page page aad c).
  - exists aad, (dek_lru p). rewrite lru_id. split; [done|]. split; [lia|]. split; [done|]. split; [done|]. unfold lease. rewrite Hk. cbn [ok_or mbind].
    erewrite pbind_ok; [|unfold attempt; by rewrite (pbind_err _ _ _ _ _ Hc)]. done.
Qed.

(** One attempt, on whatever the page holds. *)
Lemma read_attempt_total p pid b f :
  static_ok p -> usable f -> addressable p pid ->
  exists r l, read_attempt Main pid realm b MAIN_DB_SEGMENT_ID (pid * page_size (cfg p)) f p = (r, set_dek_lru l p) /\
    static_ok (set_dek_lru l p) /\ r <> Panic /\
    (forall buf k, r = Ok (Opened buf k) -> blen buf = page_size (cfg p)).
Proof.
  intros Hs Hu Had. pose proof (cf_page _ (st_cfg _ Hs)) as Hps.
  destruct (decide (has_page (page_size (cfg p)) (contents f) pid)) as [Hh|Hh].
  2: { destruct Had as [Hp Hm]. assert (blen (zeros (page_size (cfg p))) = page_size (cfg p)) as Hz by (apply blen_zeros; lia).
       unfold has_page in Hh. unfold read_attempt. prun. rewrite read_exact_at_short;
         [|done|nia|rewrite Hz; lia|rewrite Hz; lia|intros Hn; rewrite Hn in Hz; change (blen []) with 0 in Hz; lia].
       rewrite pbind_lift. exists (Err (Io "UnexpectedEof")), (dek_lru p). by rewrite lru_id. }
  destruct (read_attempt_page p pid f Hs Hu Had Hh) as [Hbp Hrd]. set (page := page_at _ _ _) in *.
  assert (ENVELOPE_OVERHEAD + 1 <= blen page) as Hbe by (unfold ENVELOPE_OVERHEAD, ENVELOPE_HEADER_LEN, TAG_LEN; lia).
  destruct (extract_ids_cases page Hbe) as [Hids|(id & e & Hids & He)].
  { exists (Ok (Retry Unsupported)), (dek_lru p). rewrite lru_id. split; [|done]. unfold read_attempt. prun. rewrite Hrd, pbind_lift. by rewrite Hids. }
  destruct (resolve_on_disk_cases b page Hbe) as [Hres|(k & Hres & _)].
  { exists (Err ChecksumFailure), (dek_lru p). rewrite lru_id. split; [|done]. unfold read_attempt. prun. rewrite Hrd, pbind_lift. by rewrite Hids, pbind_lift, Hres. }
  destruct (read_attempt_open p pid b f id e k Hs Hu Had Hh Hids He Hres) as (aad & l & _ & Hal & _ & Hs' & ->).
  eexists _, l. split; [done|]. split; [done|]. fold page. unfold lease.
  destruct (keyring p !! _) as [mk|]; cbn [ok_or mbind]; [|done].
  destruct (derive_cipher_ok id mk realm (main_db_file_id (cfg p)) (st_realm _ Hs) (cf_fid _ (st_cfg _ Hs))) as (c & -> & _).
  pose proof (open_data_page_no_panic page aad c Hal) as Hnp. destruct (open_data_page page aad c) as [[buf k']|e0|] eqn:Ho; [| |done].
  - split; [done|]. intros buf' k0 [= <- _]. rewrite <- Hbp. by eapply opened_len.
  - by destruct e0.
Qed.

(** One attempt on a page at rest. *)
Lemma read_attempt_durable p pid b f x :
  static_ok p -> usable f -> addressable p pid -> durable p (contents f) pid x ->
  exists l, static_ok (set_dek_lru l p) /\
    let r := read_attempt Main pid realm b MAIN_DB_SEGMENT_ID (pid * page_size (cfg p)) f p in
    if binds b x.1
    then exists buf, r = (Ok (Opened buf x.1), set_dek_lru l p) /\ page_body buf = Ok x.2 /\ blen buf = page_size (cfg p)
    else r = (Ok (Retry ChecksumFailure), set_dek_lru l p) \/ r = (Err ChecksumFailure, set_dek_lru l p).
Proof.
  intros Hs Hu Had [Hh (id & e & mk & c & aad & opened & Hids & Hk & Hd & Hid & He & Ha & Hkind & Ho & Hbody & Hlen)].
  destruct (read_attempt_page p pid f Hs Hu Had Hh) as [Hbp Hrd]. set (page := page_at _ _ _) in *.
  assert (forall k, resolve_on_disk b page = Ok k -> binds b x.1 = bool_decide (k = x.1) /\
    exists l, static_ok (set_dek_lru l p) /\ read_attempt Main pid realm b MAIN_DB_SEGMENT_ID (pid * page_size (cfg p)) f p =
      (Ok (if binds b x.1 then Opened opened x.1 else Retry ChecksumFailure), set_dek_lru l p)) as Hgo.
  { intros k Hres. assert (binds b x.1 = bool_decide (k = x.1)) as Hb.
    { destruct b as [k0|]; cbn [resolve_on_disk binds] in *; [by injection Hres as ->|].
      rewrite Hkind in Hres. destruct x.1; try done; injection Hres as <-; by rewrite bool_decide_true. }
    split; [done|]. destruct (read_attempt_open p pid b f id e k Hs Hu Had Hh Hids He Hres) as (aad' & l & Ha' & Hal & Hak & Hs' & ->).
    exists l. split; [done|]. unfold lease. rewrite Hk. cbn [ok_or mbind]. rewrite Hd. fold page. rewrite Hb.
    case_bool_decide as Hkx.
    - subst k. assert (aad' = aad) as -> by congruence. by rewrite Ho.
    - by rewrite (opens_only page k x.1 id e aad' c Hal Hak Hids Hid Hkind Hkx). }
  cbn zeta. destruct (resolve_on_disk b page) as [k|e0|] eqn:Hres.
  - destruct (Hgo k eq_refl) as (_ & l & Hs' & Hr). exists l. split; [done|]. destruct (binds b x.1).
    + exists opened. split; [done|]. split; [done|]. lia.
    + by left.
  - exists (dek_lru p). rewrite lru_id. split; [done|]. destruct b as [k0|]; [done|]. cbn [resolve_on_disk] in Hres. rewrite Hkind in Hres.
    assert (binds NodeKind x.1 = false /\ e0 = ChecksumFailure) as [-> ->] by (cbn; destruct x.1; by simplify_eq). right.
    unfold read_attempt. prun. rewrite Hrd, pbind_lift. fold page. rewrite Hids, pbind_lift. cbn [resolve_on_disk]. rewrite Hkind. by destruct x.1.
  - exfalso. destruct b as [k0|]; [done|]. cbn [resolve_on_disk] in Hres. rewrite Hkind in Hres. by destruct x.1.
Qed.

Definition refusal (pid : Z) (e : PagedbError) : Prop :=
  e = ChecksumFailure \/ e = corruption (PageUnverifiable realm None pid None).

Definition alone : nat -> F -> F := fun _ f => f.

Lemma fetch_loop_ok pid b f : usable f -> forall n i last p,
  static_ok p -> addressable p pid ->
  exists r l, fetch_loop alone Main pid realm b MAIN_DB_SEGMENT_ID (pid * page_size (cfg p)) f n i last p = (r, set_dek_lru l p) /\
    static_ok (set_dek_lru l p) /\ r <> Panic /\ (forall buf k, r = Ok (buf, k) -> blen buf = page_size (cfg p)) /\
    (forall x, durable p (contents f) pid x ->
       if binds b x.1 then (n <> 0)%nat -> exists buf, r = Ok (buf, x.1) /\ page_body buf = Ok x.2
       else last = None \/ last = Some ChecksumFailure -> exists e, r = Err e /\ refusal pid e).
Proof.
  intros Hu. induction n as [|n IH]; intros i last p Hs Had; cbn [fetch_loop].
  { exists (Err (unverified realm pid last)), (dek_lru p). rewrite lru_id. split; [done|]. split; [done|]. split; [done|]. split; [done|].
    intros x _. destruct (binds b x.1); [done|]. intros [->| ->]; eexists; (split; [done|]); [by left|by right]. }
  change (alone i f) with f.
  destruct (read_attempt_total p pid b f Hs Hu Had) as (r & l & Hr & Hs' & Hnp & Hlen).
  destruct r as [[buf k|e]|e|]; [| | |done].
  - rewrite (pbind_ok _ _ _ _ _ Hr). eexists _, l. split; [done|]. split; [done|]. split; [done|].
    split; [intros buf' k' [= <- <-]; by apply (Hlen buf k)|]. intros x Hx.
    destruct (read_attempt_durable p pid b f x Hs Hu Had Hx) as (l' & _ & Hd). cbn zeta in Hd. rewrite Hr in Hd.
    destruct (binds b x.1); [|by destruct Hd as [[=]|[=]]]. intros _. destruct Hd as (buf' & [= <- <-] & Hb & _). by exists buf.
  - rewrite (pbind_ok _ _ _ _ _ Hr).
    destruct (IH (S i) (Some e) (set_dek_lru l p) Hs' Had) as (r' & l' & Hr' & Hs'' & Hnp' & Hlen' & Hx'). rewrite lru_lru in *.
    change (cfg (set_dek_lru l p)) with (cfg p) in *.
    exists r', l'. split; [exact Hr'|]. split; [done|]. split; [done|]. split; [done|]. intros x Hx. specialize (Hx' x Hx).
    destruct (read_attempt_durable p pid b f x Hs Hu Had Hx) as (l0 & _ & Hd). cbn zeta in Hd. rewrite Hr in Hd.
    destruct (binds b x.1); [by destruct Hd as (buf & [=] & _)|]. intros _. apply Hx'. right. by destruct Hd as [[= ->]|[=]].
  - rewrite (pbind_err _ _ _ _ _ Hr). exists (Err e), l. split; [done|]. split; [done|]. split; [done|]. split; [done|]. intros x Hx.
    destruct (read_attempt_durable p pid b f x Hs Hu Had Hx) as (l0 & _ & Hd). cbn zeta in Hd. rewrite Hr in Hd.
    destruct (binds b x.1); [by destruct Hd as (buf & [=] & _)|]. intros _. exists e. split; [done|]. left. by destruct Hd as [[=]|[= ->]].
Qed.

Lemma open_main_handle blank p f : static_ok p -> main_file p f -> open_file_handle blank Main p = (Ok f, p).
Proof.
  intros Hs Hf. unfold open_file_handle. prun. rewrite (st_writable _ Hs). unfold vfs_open, file_path. prun.
  unfold main_file in Hf. by rewrite Hf.
Qed.

(** What a page in memory shows of a page image. *)
Definition shows (ps : Z) (page : Page) (x : PageKind.t * bytes) : Prop :=
  realm_id_bytes page = Some realm /\ kind_byte page = PageKind.as_byte x.1 /\
  page_body (page_bytes page) = Ok x.2 /\ blen (page_bytes page) = ps.

Lemma fetch_page_ok blank p pid b f :
  static_ok p -> addressable p pid -> main_file p f -> usable f ->
  exists r n l, fetch_page blank alone Main pid realm b MAIN_DB_SEGMENT_ID p = (r, set_next_ptr n (set_dek_lru l p)) /\
    static_ok (set_next_ptr n (set_dek_lru l p)) /\ next_ptr p <= n /\ r <> Panic /\
    (forall page k g, r = Ok (page, k, g) -> page_ptr page = next_ptr p /\ n = next_ptr p + 1 /\ g = handle_generation p /\
       exists body, shows (page_size (cfg p)) page (k, body)) /\
    (forall x, durable p (contents f) pid x ->
       if binds b x.1 then exists page g, r = Ok (page, x.1, g) /\ shows (page_size (cfg p)) page x
       else exists e, r = Err e /\ refusal pid e).
Proof.
  intros Hs Had Hf Hu. pose proof (cf_retry _ (st_cfg _ Hs)) as Hrt. pose proof (cf_page _ (st_cfg _ Hs)) as Hps.
  unfold fetch_page. prun. rewrite pbind_lift. unfold page_offset, checked_mul. destruct Had as [Hp Hm].
  rewrite (proj2 (Z.leb_le _ _)) by (unfold USIZE_MAX; lia). cbn [ok_or]. prun.
  rewrite (pbind_ok _ _ _ _ _ (open_main_handle blank p f Hs Hf)). rewrite (proj2 (Z.eqb_neq _ _)) by lia.
  destruct (fetch_loop_ok pid b f Hu (Z.to_nat (observer_retry_count (cfg p) + 1)) 0 None p Hs (conj Hp Hm))
    as (r & l & Hr & Hs' & Hnp & Hlen & Hx).
  destruct r as [[buf k]|e|]; [| |done].
  - rewrite (pbind_ok _ _ _ _ _ Hr). exists (Ok (new_with_meta (next_ptr p) buf (PageKind.as_byte k) realm, k, handle_generation p)), (next_ptr p + 1), l.
    split; [done|]. split; [by apply static_ptr|]. split; [lia|]. split; [done|].
    pose proof (Hlen buf k eq_refl) as Hbl.
    assert (exists body, page_body buf = Ok body) as [body Hbody].
    { unfold page_body, ENVELOPE_HEADER_LEN, TAG_LEN. rewrite slice_ok by lia. by eexists. }
    split; [intros page k' g [= <- <- <-]; split_and!; try done; by exists body|].
    intros x Hd. specialize (Hx x Hd). destruct (binds b x.1).
    + destruct Hx as (buf' & [= <- ->] & Hb); [lia|]. eexists _, _. split; [done|]. done.
    + destruct Hx as (e & [=] & _). by left.
  - rewrite (pbind_err _ _ _ _ _ Hr). exists (Err e), (next_ptr p), l. split; [done|]. split; [by apply static_ptr|]. split; [lia|].
    split; [done|]. split; [done|]. intros x Hd. specialize (Hx x Hd). destruct (binds b x.1).
    + destruct Hx as (buf' & [=] & _). lia.
    + destruct Hx as (e' & [= <-] & He); [by left|]. by exists e.
Qed.

(** ** Nonces *)

(** A step that keeps the caches, and the pages that satisfy [Q]. *)
Definition quiet (Q : Z -> Prop) (p p' : Pager) : Prop :=
  moved Q p p' /\ static_ok p' /\ buffer_pool p' = buffer_pool p /\ segment_cache p' = segment_cache p.

Lemma quiet_refl Q p : static_ok p -> quiet Q p p.
Proof. intros Hs. split; [apply moved_refl|done]. Qed.
Lemma quiet_trans Q p1 p2 p3 : quiet Q p1 p2 -> quiet Q p2 p3 -> quiet Q p1 p3.
Proof.
  intros (M1 & _ & B1 & S1) (M2 & St & B2 & S2). split; [by eapply moved_trans|]. split; [done|]. split; congruence.
Qed.

Lemma quiet_nonce Q p g : static_ok p -> gen_wf g -> quiet Q p (set_main_nonce g p).
Proof.
  intros [] Hg. split; [|split; [by constructor|done]]. constructor; try done; try (cbn; lia).
  intros f Hf Hu. exists f. split; [done|]. split; [done|apply keeps_refl].
Qed.
Lemma quiet_live Q p live : static_ok p -> 0 <= hc_seq (lh_cursor live) -> quiet Q p (set_live_header (Some live) p).
Proof.
  intros [] Hg. split; [|split; [constructor; try done; cbn; by intros ? [= <-]|done]]. constructor; try done; try (cbn; lia).
  intros f Hf Hu. exists f. split; [done|]. split; [done|apply keeps_refl].
Qed.
Lemma quiet_file Q p f f' :
  static_ok p -> main_file p f -> usable f' -> keeps (page_size (cfg p)) Q (contents f) (contents f') ->
  quiet Q p (set_vfs (<[main_db_path (cfg p) := f']> (vfs p)) p).
Proof.
  intros [] Hf Hu Hk. assert (main_file (set_vfs (<[main_db_path (cfg p) := f']> (vfs p)) p) f') as Hf'.
  { unfold main_file. cbn. by rewrite lookup_insert_eq. }
  split; [|split; [constructor; try done; by exists f'|done]]. constructor; try done; try (cbn; lia).
  intros f0 Hf0 _. exists f'. split; [done|]. split; [done|]. unfold main_file in *. by simplify_eq.
Qed.

Lemma pending_u64 g : gen_wf g -> is_u64 (pending_anchor g).
Proof. intros [_ Hn]. unfold pending_anchor, saturating_sub. lia. Qed.

Lemma refresh_live_anchor_ok p :
  static_ok p -> exists r p', refresh_live_anchor p = (r, p') /\ quiet past_header p p' /\ r <> Panic.
Proof.
  intros Hs. unfold refresh_live_anchor. prun. destruct (live_header p) as [live|] eqn:Hl.
  2: { eexists _, _. split; [done|]. split; [by apply quiet_refl|done]. }
  destruct (st_file _ Hs) as (f & Hf & Hu). unfold on_file. prun. unfold main_file in Hf. rewrite Hf.
  destruct (refresh_anchor f _ _ _ _ _) as [f' r] eqn:Hr.
  apply refresh_anchor_keeps in Hr as (Hu' & Hk & Hnp & Hseq); [|done|apply (st_cfg _ Hs)|apply pending_u64, Hs|by apply (st_cursor _ Hs)].
  prun. rewrite pbind_lift. set (p1 := set_vfs _ p). assert (quiet past_header p p1) as Hq1 by (by eapply quiet_file).
  destruct r as [next|e|]; [| |done]; [|exists (Err e), p1; done].
  unfold pager_commit_anchor. prun. rewrite pbind_lift. change (main_nonce p1) with (main_nonce p).
  destruct (commit_anchor (main_nonce p) (pending_anchor (main_nonce p))) as [g|e|] eqn:Hc.
  - prun. unfold pmodify. eexists _, _. split; [done|]. split; [|done].
    assert (gen_wf g) as Hg. { revert Hc. unfold commit_anchor. case_match; [done|]. intros [= <-]. apply Hs. }
    pose proof (quiet_nonce past_header p1 g (proj1 (proj2 Hq1)) Hg) as Hq2.
    unfold note_header_written. change (live_header (set_main_nonce g p1)) with (live_header p). rewrite Hl.
    pose proof (quiet_live past_header (set_main_nonce g p1) (mkLiveHeader (lh_hk live) next) (proj1 (proj2 Hq2)) (Hseq next eq_refl)) as Hq3.
    eapply quiet_trans; [exact Hq1|]. by eapply quiet_trans.
  - exists (Err e), p1. done.
  - exfalso. revert Hc. unfold commit_anchor. by case_match.
Qed.

Lemma nonce_id (p : Pager) : set_main_nonce (main_nonce p) p = p.
Proof. by destruct p. Qed.

Lemma issue_nonces_ok : forall n p, static_ok p ->
  exists r g, issue_nonces Main n p = (r, set_main_nonce g p) /\ gen_wf g /\ r <> Panic /\
    forall ns, r = Ok ns -> length ns = n /\ Forall (fun x => blen x = 12) ns.
Proof.
  induction n as [|n IH]; intros p Hs; cbn [issue_nonces].
  { exists (Ok []), (main_nonce p). rewrite nonce_id. split; [done|]. split; [apply Hs|]. split; [done|]. intros ns [= <-]. done. }
  destruct (st_gen _ Hs) as [Hpre Hnx]. unfold next_nonce_for_flush, next_nonce at 1. prun. rewrite pbind_lift.
  destruct (Z.ltb_spec COUNTER_MAX (Crypto.next (main_nonce p))) as [|Hlt];
    [eexists _, (main_nonce p); rewrite nonce_id; split; [done|]; split; [apply Hs|]; done|].
  destruct (_ <? _); [eexists _, (main_nonce p); rewrite nonce_id; split; [done|]; split; [apply Hs|]; done|]. prun.
  set (g := mkMainDbNonceGen _ _ _ _). assert (gen_wf g) as Hg by (split; [exact Hpre|unfold COUNTER_MAX in *; cbn; lia]).
  destruct (IH (set_main_nonce g p) (proj1 (proj2 (quiet_nonce (fun _ => True) p g Hs Hg)))) as (r & g' & Hr & Hg' & Hnp & Hns).
  destruct r as [ns|e|]; [| |done].
  - rewrite (pbind_ok _ _ _ _ _ Hr). eexists _, g'. split; [done|]. split; [done|]. split; [done|]. intros ns' [= <-].
    destruct (Hns ns eq_refl) as [Hl HF]. split; [simpl; lia|]. constructor; [by apply blen_nonce|done].
  - rewrite (pbind_err _ _ _ _ _ Hr). exists (Err e), g'. done.
Qed.

Lemma draw_nonces_ok : forall fuel need p, static_ok p -> (need <= fuel)%nat ->
  exists r p', draw_nonces fuel Main need p = (r, p') /\ quiet past_header p p' /\ r <> Panic /\
    forall ns, r = Ok ns -> length ns = need /\ Forall (fun x => blen x = 12) ns.
Proof.
  induction fuel as [|fuel IH]; intros need p Hs Hf.
  { assert (need = 0%nat) as -> by lia. exists (Ok []), p. split; [done|]. split; [by apply quiet_refl|]. split; [done|]. by intros ns [= <-]. }
  cbn [draw_nonces]. destruct (Nat.eqb_spec need 0) as [->|Hne].
  { exists (Ok []), p. split; [done|]. split; [by apply quiet_refl|]. split; [done|]. by intros ns [= <-]. }
  prun. assert (exists r1 p1, (if flush_nonce_window Main p <? Z.of_nat need
      then run! _ := refresh_live_anchor in pgets (flush_nonce_window Main) else pret (flush_nonce_window Main p)) p = (r1, p1) /\
      quiet past_header p p1 /\ r1 <> Panic) as (r1 & p1 & Hr1 & Hq1 & Hn1).
  { case_match; [|eexists _, p; split; [done|]; split; [by apply quiet_refl|done]].
    destruct (refresh_live_anchor_ok p Hs) as (r & p' & Hr & Hq & Hn). destruct r as [[]|e|]; [| |done].
    - rewrite (pbind_ok _ _ _ _ _ Hr). by eexists _, p'.
    - rewrite (pbind_err _ _ _ _ _ Hr). by eexists _, p'. }
  destruct r1 as [window|e|]; [rewrite (pbind_ok _ _ _ _ _ Hr1)|rewrite (pbind_err _ _ _ _ _ Hr1); by exists (Err e), p1|done].
  set (n := Z.to_nat _). assert (1 <= n <= need)%nat as Hn by lia.
  destruct (issue_nonces_ok n p1 (proj1 (proj2 Hq1))) as (r2 & g & Hr2 & Hg & Hn2 & Hns).
  pose proof (quiet_nonce past_header p1 g (proj1 (proj2 Hq1)) Hg) as Hq2. pose proof (quiet_trans _ _ _ _ Hq1 Hq2) as Hq.
  destruct r2 as [xs|e|]; [rewrite (pbind_ok _ _ _ _ _ Hr2)|rewrite (pbind_err _ _ _ _ _ Hr2); by eexists (Err e), _|done].
  destruct (IH (need - n)%nat (set_main_nonce g p1) (proj1 (proj2 Hq))) as (r3 & p3 & Hr3 & Hq3 & Hn3 & Hys); [lia|].
  destruct r3 as [ys|e|]; [rewrite (pbind_ok _ _ _ _ _ Hr3)|rewrite (pbind_err _ _ _ _ _ Hr3)|done].
  - exists (Ok (xs ++ ys)), p3. split; [done|]. split; [by eapply quiet_trans|]. split; [done|]. intros ns [= <-].
    destruct (Hns xs eq_refl) as [Hl1 HF1]. destruct (Hys ys eq_refl) as [Hl2 HF2]. split; [rewrite length_app; lia|]. by apply Forall_app.
  - exists (Err e), p3. split; [done|]. split; [by eapply quiet_trans|done].
Qed.
End ops.
