(* ===== verification/PagerFlush.v ===== *)
(** * PagerFlush: a flush makes the dirty pages durable

    Gathering, offsets, nonces, sealing and the vectored write of a flush of the
    main file, composed. *)

From S2P Require Import Prelude Keys Errors PageFormat Crypto DataPage StructuralHeader Vfs HeaderSlots PageCache PageCacheInv PageCacheEvict PageCacheOps PageCacheBatch PageCacheSpec Pager PagerFile PagerOps.
From Stdlib Require Import ZArith Lia.
From stdpp Require Import base list strings gmap.
From coqutil Require Import Byte.

Local Open Scope Z_scope.
Local Open Scope pagedb_scope.

Section flush.
Context `{PrimitivesSpec} {F : Type} `{VfsFileSpec F}.
Context (blank : F) (realm : RealmId).
Local Abbreviation Pager := (Pager F).
Local Abbreviation static_ok := (static_ok realm).
Local Abbreviation shows := (shows realm).

(** The pages of a cache. *)
Definition pages_of (c : PageCache) : gmap Key Page := fst <$> entries c.

(** What is prepared and what is gathered for page [pid]. *)
Definition prepared_ok (ps : Z) (pages : gmap Key Page) (pid : Z) (q : Z * PageKind.t * bytes) (g : Z * Page) : Prop :=
  q.1.1 = pid /\ g.1 = pid /\ pages !! (Main, pid) = Some g.2 /\
  exists x, shows ps g.2 x /\ q.1.2 = x.1 /\ blen q.2 = ps /\ blen x.2 = ps - 40 /\ sub q.2 24 (ps - 40) = x.2.

Lemma shows_body ps page x : 4096 <= ps -> shows ps page x -> blen x.2 = ps - 40.
Proof.
  intros Hps (_ & _ & Hb & Hl). unfold page_body, ENVELOPE_HEADER_LEN, TAG_LEN in Hb. rewrite slice_ok in Hb by lia.
  injection Hb as <-. rewrite blen_sub by lia. lia.
Qed.

Lemma shows_inj ps page x y : shows ps page x -> shows ps page y -> x = y.
Proof.
  intros (_ & Hk & Hb & _) (_ & Hk' & Hb' & _). destruct x as [k b], y as [k' b']. cbn in *.
  rewrite Hb in Hb'. injection Hb' as ->. rewrite Hk in Hk'. by destruct k, k'.
Qed.

Lemma gather_ok : forall ids (p : Pager) q,
  static_ok p -> inv (buffer_pool p) q ->
  (forall pid, pid ∈ ids -> exists page x, pages_of (buffer_pool p) !! (Main, pid) = Some page /\ shows (page_size (cfg p)) page x) ->
  exists prepared gathered c, gather Main ids p = (Ok (prepared, gathered), set_caches c (segment_cache p) p) /\
    inv c q /\ aged (buffer_pool p) c /\
    Forall3 (prepared_ok (page_size (cfg p)) (pages_of (buffer_pool p))) ids prepared gathered.
Proof.
  induction ids as [|pid ids IH]; intros p q Hs Hinv Hres; cbn [gather].
  { exists [], [], (buffer_pool p). split; [by destruct p|]. split; [done|]. split; [done|constructor]. }
  pose proof (cf_page _ (st_cfg _ _ Hs)) as Hps.
  destruct (Hres pid) as (page & x & Hpg & Hx); [by left|]. pose proof (shows_body _ _ _ (proj1 Hps) Hx) as Hbl.
  destruct (get_dirty_ok (buffer_pool p) q (Main, pid) Hinv) as (c1 & Hg & Hinv1 & Ha1).
  unfold pages_of in Hpg. rewrite lookup_fmap in Hpg. rewrite Hpg in Hg.
  rewrite (pbind_ok _ _ _ _ _ (locked_ok Main _ p _ _ Hg)). cbn [set_cache_for_key]. rewrite pbind_lift. cbn [ok_or].
  pose proof Hx as (_ & Hk & Hb & Hl). rewrite Hk. rewrite (proj2 (Z.eqb_neq _ _)) by (by destruct x.1). cbn [negb].
  rewrite PageKind.from_as_byte, pbind_lift. prun. change (cfg (set_caches c1 (segment_cache p) p)) with (cfg p).
  rewrite Hb, !pbind_lift. assert (blen (zeros (page_size (cfg p))) = page_size (cfg p)) as Hz by (apply blen_zeros; lia).
  unfold ENVELOPE_HEADER_LEN. destruct (copy_at_step (E := PagedbError) (zeros (page_size (cfg p))) 24 x.2) as (wire & -> & Hwl & Hws & _);
    [lia|rewrite Hz; lia|].
  destruct (IH (set_caches c1 (segment_cache p) p) q (static_caches _ _ _ _ Hs) Hinv1) as (prepared & gathered & c & Hr & Hinv2 & Ha2 & HF).
  { intros pid' Hin. unfold pages_of. change (buffer_pool (set_caches c1 (segment_cache p) p)) with c1. rewrite (aged_entries _ _ Ha1). apply Hres. by right. }
  rewrite (pbind_ok _ _ _ _ _ Hr). eexists _, _, c. split; [done|]. split; [done|]. split; [by eapply aged_trans|].
  unfold pages_of in *. change (buffer_pool (set_caches c1 (segment_cache p) p)) with c1 in HF. rewrite (aged_entries _ _ Ha1) in HF. constructor; [|done]. split; [done|]. split; [done|].
  split; [by rewrite lookup_fmap|]. exists x. cbn [fst snd]. split; [done|]. split; [done|]. split; [lia|]. split; [done|]. by rewrite <- Hbl.
Qed.

Lemma write_offsets_ok ps : forall ids, 0 < ps -> Forall (fun pid => 0 <= pid /\ pid * ps + ps <= U64_MAX) ids ->
  write_offsets ps ids = Ok (map (fun pid => pid * ps) ids).
Proof.
  intros ids Hps. induction 1 as [|pid ids [Hp Hm] _ IH]; [done|]. cbn [write_offsets map]. unfold checked_mul.
  rewrite (proj2 (Z.leb_le _ _)) by (unfold USIZE_MAX; lia). cbn. by rewrite IH.
Qed.

(** Sealing: each page is what will open to it again. *)
Definition sealed_ok (keys : EpochKeyring) (fid : bytes) (ps : Z) (pid : Z) (g : Z * Page) (w : bytes) : Prop :=
  g.1 = pid /\ blen w = ps /\ exists x, shows ps g.2 x /\ opens_to keys fid realm pid w x.

Lemma seal_all_ok (p : Pager) mk cipher : static_ok p ->
  let e := active_epoch p in let id := cfg_cipher_id (cfg p) in
  keyring p !! (e, CipherId.as_byte id) = Some mk -> derive_cipher id mk realm (main_db_file_id (cfg p)) = Ok cipher ->
  forall ids prepared gathered pages nonces,
  Forall3 (prepared_ok (page_size (cfg p)) pages) ids prepared gathered ->
  Forall (addressable p) ids -> length nonces = length ids -> Forall (fun n => blen n = 12) nonces ->
  let r := seal_all (cfg p) e realm MAIN_DB_SEGMENT_ID cipher prepared nonces in
  r <> Panic /\ forall ws, r = Ok ws ->
    Forall3 (sealed_ok (keyring p) (main_db_file_id (cfg p)) (page_size (cfg p))) ids gathered ws.
Proof.
  intros Hs e id Hk Hd ids prepared gathered pages nonces H3. pose proof (cf_page _ (st_cfg _ _ Hs)) as Hps.
  destruct (derive_cipher_ok id mk realm (main_db_file_id (cfg p)) (st_realm _ _ Hs) (cf_fid _ (st_cfg _ _ Hs))) as (c' & Hd' & Hid).
  assert (c' = cipher) as -> by congruence. revert nonces.
  induction H3 as [|pid [[pid' k] wire] [pid'' page] ids prepared gathered (E1 & E2 & Hpg & x & Hx & Ek & Hwl & Hbl & Hws) H3 IH];
    intros nonces Had Hn HF; cbn zeta.
  { split; [by destruct nonces|]. intros ws Hw. destruct nonces; injection Hw as <-; constructor. }
  cbn in E1, E2, Ek, Hwl, Hws, Hpg, Hx. subst pid' pid'' k. apply Forall_cons in Had as [Ha Had].
  destruct nonces as [|n nonces]; [done|]. apply Forall_cons in HF as [Hn12 HF]. cbn [seal_all seal_one].
  pose proof (main_aad_ok realm id x.1 e pid (st_epoch _ _ Hs) (addressable_u64 _ _ _ Hs Ha) (st_realm _ _ Hs)) as Hok.
  destruct (aad_from_fields (main_aad realm id x.1 e pid)) as [aad| |] eqn:Haad;
    [|by rewrite (aad_from_fields_ok _ Hok) in Haad..].
  rewrite <- Hbl in Hws. pose proof Haad as Haad'. unfold main_aad, id in Haad'. rewrite Haad'. cbn [mbind].
  rewrite (seal_data_page_eq wire x.1 0 e n aad cipher x.2) by (done || lia).
  assert (encrypt cipher n aad x.2 <> Panic) as Henp by (destruct cipher; cbn [encrypt]; unfold ok_or; by repeat case_match).
  destruct (encrypt cipher n aad x.2) as [[ct tag]|e0|] eqn:He; [|split; [done|by intros ws [=]]|done]. cbv beta iota.
  destruct (seal_opens (keyring p) (main_db_file_id (cfg p)) realm wire x.1 e n aad cipher mk id pid x.2
    (envelope (to_u8 (CipherId.as_byte (cipher_id cipher))) (to_u8 (PageKind.as_byte x.1)) (le16 0) (le64 e) n ct tag)) as [Hl Hop];
    [apply Hs|apply Hs|by eapply addressable_u64|done|lia|lia|done|done|done|done|done|
     rewrite (seal_data_page_eq wire x.1 0 e n aad cipher x.2) by (done || lia); by rewrite He|].
  destruct (IH nonces Had ltac:(simpl in Hn; lia) HF) as [Hnp Hws']. destruct (seal_all _ _ _ _ _ _ _) as [ws|e1|] eqn:Hsa;
    [|split; [done|by intros ? [=]]|done].
  split; [done|]. intros ws' [= <-]. constructor; [|by apply Hws']. split; [done|]. split; [by etrans|]. exists x. split; [done|]. by destruct x.
Qed.

Lemma moved_caches Q (p : Pager) b s : moved Q p (set_caches b s p).
Proof. constructor; try done; try (cbn; lia). intros f Hf Hu. exists f. split; [done|]. split; [done|apply keeps_refl]. Qed.

Lemma Forall3_zip ids (gathered : list (Z * Page)) ws keys fid ps :
  Forall3 (sealed_ok keys fid ps) ids gathered ws ->
  (zip ids ws).*1 = ids /\ Forall (fun w => blen w.2 = ps) (zip ids ws) /\
  forall pid page, (pid, page) ∈ gathered -> exists w x, (pid, w) ∈ zip ids ws /\ shows ps page x /\ opens_to keys fid realm pid w x.
Proof.
  induction 1 as [|pid [pid' page] w ids gathered ws (E & Hl & x & Hx & Ho) _ (IH1 & IH2 & IH3)].
  { split; [done|]. split; [done|]. intros ? ? []%elem_of_nil. }
  cbn in E, Hx. subst pid'. cbn [zip_with fmap list_fmap fst]. split; [by f_equal|]. split; [by constructor|].
  intros pid0 page0 [[= -> ->]|Hin]%elem_of_cons.
  - exists w, x. split; [by left|done].
  - destruct (IH3 _ _ Hin) as (w' & x' & Hw & ?). exists w', x'. split; [by right|done].
Qed.

Lemma zip_offsets ps ids (ws : list bytes) : zip (map (fun pid => pid * ps) ids) ws = page_reqs ps (zip ids ws).
Proof. revert ws. induction ids as [|pid ids IH]; intros [|w ws]; try done. simpl. by rewrite IH. Qed.

(** The vectored write of sealed pages into the main file. *)
Lemma write_sealed p f ids gathered ws :
  static_ok p -> main_file p f -> usable f -> NoDup ids -> Forall (addressable p) ids ->
  Forall3 (sealed_ok (keyring p) (main_db_file_id (cfg p)) (page_size (cfg p))) ids gathered ws ->
  exists f', on_file (main_db_path (cfg p)) (write_and_sync (zip (map (fun pid => pid * page_size (cfg p)) ids) ws)) p =
      (Ok tt, set_vfs (<[main_db_path (cfg p) := f']> (vfs p)) p) /\ usable f' /\
    keeps (page_size (cfg p)) (fun pid => ~ (pid ∈ ids)) (contents f) (contents f') /\
    forall pid page, (pid, page) ∈ gathered -> exists x, shows (page_size (cfg p)) page x /\ durable realm p (contents f') pid x.
Proof.
  intros Hs Hf Hu Hnd Had H3. pose proof (cf_page _ (st_cfg _ _ Hs)) as Hps. set (ps := page_size (cfg p)) in *.
  destruct (Forall3_zip _ _ _ _ _ _ H3) as (Hz1 & Hz2 & Hz3). set (zs := zip ids ws) in *.
  assert (Forall (fun w : Z * bytes => 0 <= w.1 /\ w.1 * ps + ps <= U64_MAX /\ blen w.2 = ps) zs) as Hzs.
  { apply Forall_forall. intros [pid w] Hin. pose proof (proj1 (Forall_forall _ _) Hz2 _ Hin) as Hw.
    assert (pid ∈ ids) as Hi by (rewrite <- Hz1; apply list_elem_of_fmap; by exists (pid, w)).
    destruct (proj1 (Forall_forall _ _) Had _ Hi). done. }
  rewrite zip_offsets. fold zs. assert (NoDup zs.*1) as Hnd' by (by rewrite Hz1).
  destruct (page_reqs_ok ps zs ltac:(lia) Hnd' Hzs) as [Hr1 Hr2].
  destruct (write_vectored_spec f (page_reqs ps zs) Hu Hr1 Hr2) as (f1 & Hw & Hu1 & Hc1).
  destruct (sync_spec f1 Hu1) as (f2 & Hsy & Hu2 & Hc2).
  exists f2. unfold on_file. prun. unfold main_file in Hf. rewrite Hf. unfold write_and_sync. rewrite Hw, Hsy. prun. split; [done|].
  split; [done|]. rewrite Hc2, Hc1. destruct (write_pages ps zs (contents f)) as [Hk Hpg]; [lia|done| |].
  { eapply Forall_impl; [exact Hzs|]. cbn. tauto. }
  rewrite Hz1 in Hk. split; [exact Hk|]. intros pid page Hin. destruct (Hz3 _ _ Hin) as (w & x & Hwz & Hx & Ho).
  exists x. split; [done|]. destruct (Hpg _ _ Hwz) as [Hh Hp]. split; [done|]. fold ps. by rewrite Hp.
Qed.

Definition dirty_page (c : PageCache) (pid : Z) : Prop := (Main, pid) ∈ dirty c.

(** What a flush up to its durable write leaves. *)
Definition flush_result (p p' : Pager) (r : result (option (list (Z * Page)))) : Prop :=
  match r with
  | Ok (Some gathered) =>
      moved (fun pid => past_header pid /\ ~ dirty_page (buffer_pool p) pid) p p' /\
      (forall pid page, (pid, page) ∈ gathered <-> dirty_page (buffer_pool p) pid /\ pages_of (buffer_pool p) !! (Main, pid) = Some page) /\
      forall pid page, (pid, page) ∈ gathered -> exists x f', main_file p' f' /\ shows (page_size (cfg p)) page x /\ durable realm p' (contents f') pid x
  | Ok None => moved past_header p p' /\ forall pid, ~ dirty_page (buffer_pool p) pid
  | Err _ => moved past_header p p'
  | Panic => False
  end.

Lemma gathered_exact ps pages ids prepared gathered :
  Forall3 (prepared_ok ps pages) ids prepared gathered ->
  forall pid page, (pid, page) ∈ gathered <-> pid ∈ ids /\ pages !! (Main, pid) = Some page.
Proof.
  induction 1 as [|pid0 q [pid1 page1] ids prepared gathered (_ & E & Hpg & _) _ IH]; intros pid page.
  { rewrite !elem_of_nil. tauto. }
  cbn in E, Hpg. subst pid1. rewrite !elem_of_cons, IH. split.
  - intros [[= -> ->]|[? ?]]; auto.
  - intros [[->|Hin] Hp]; [left; congruence|right; done].
Qed.

(** From the nonces on: the key, the seals and the write. *)
Lemma flush_sealed p ids prepared gathered pages nonces :
  static_ok p -> Forall3 (prepared_ok (page_size (cfg p)) pages) ids prepared gathered -> NoDup ids ->
  Forall (addressable p) ids -> length nonces = length ids -> Forall (fun n => blen n = 12) nonces ->
  exists r p', (run! cipher := cipher_for realm Main (active_epoch p) (cfg_cipher_id (cfg p)) in
    run! wires := lift (seal_all (cfg p) (active_epoch p) realm MAIN_DB_SEGMENT_ID cipher prepared nonces) in
    run! path := run! _ := open_file_handle blank Main in pret (main_db_path (cfg p)) in
    run! _ := on_file path (write_and_sync (zip (map (fun pid => pid * page_size (cfg p)) ids) wires)) in
    pret (Some gathered)) p = (r, p') /\ static_ok p' /\ buffer_pool p' = buffer_pool p /\ segment_cache p' = segment_cache p /\
    match r with
    | Ok o => o = Some gathered /\ moved (fun pid => ~ (pid ∈ ids)) p p' /\
        forall pid page, (pid, page) ∈ gathered -> exists x f', main_file p' f' /\ shows (page_size (cfg p)) page x /\ durable realm p' (contents f') pid x
    | Err _ => moved (fun _ => True) p p'
    | Panic => False
    end.
Proof.
  intros Hs H3 Hnd Had Hn HF.
  destruct (cipher_for_ok realm p (active_epoch p) (cfg_cipher_id (cfg p)) Hs) as [(mk & c & l & Hk & Hd & Hc & Hs1)|[Hk _]].
  2: { destruct (st_key _ _ Hs) as [? ?]. congruence. }
  rewrite (pbind_ok _ _ _ _ _ Hc), pbind_lift.
  destruct (seal_all_ok p mk c Hs Hk Hd ids prepared gathered pages nonces H3 Had Hn HF) as [Hnp Hws].
  destruct (seal_all _ _ _ _ _ _ _) as [ws|e|]; [| |done].
  2: { exists (Err e), (set_dek_lru l p). split; [done|]. split; [done|]. split; [done|]. split; [done|]. apply moved_lru. }
  destruct (st_file _ _ Hs1) as (f & Hf & Hu).
  prun. rewrite (pbind_ok _ _ _ _ _ (open_main_handle realm blank _ f Hs1 Hf)). prun.
  destruct (write_sealed (set_dek_lru l p) f ids gathered ws Hs1 Hf Hu Hnd Had (Hws ws eq_refl)) as (f' & Hw & Hu' & Hkeep & Hdur).
  change (cfg (set_dek_lru l p)) with (cfg p) in *. change (vfs (set_dek_lru l p)) with (vfs p) in *.
  rewrite (pbind_ok _ _ _ _ _ Hw). eexists _, _. split; [done|].
  destruct (quiet_file realm (fun pid => ~ (pid ∈ ids)) (set_dek_lru l p) f f' Hs1 Hf Hu' Hkeep) as (Hm & Hs2 & _ & _).
  split; [exact Hs2|]. split; [done|]. split; [done|]. split; [done|]. split.
  - eapply moved_trans; [apply moved_lru|exact Hm].
  - intros pid page Hin. destruct (Hdur _ _ Hin) as (x & Hx & Hd'). exists x, f'. split; [|done].
    unfold main_file. cbn. by rewrite lookup_insert_eq.
Qed.

Lemma flush_write_ok (p : Pager) q :
  static_ok p -> inv (buffer_pool p) q ->
  (forall pid, dirty_page (buffer_pool p) pid -> past_header pid /\ addressable p pid /\
     exists page x, pages_of (buffer_pool p) !! (Main, pid) = Some page /\ shows (page_size (cfg p)) page x) ->
  exists r p', flush_write blank Main realm MAIN_DB_SEGMENT_ID Live p = (r, p') /\ static_ok p' /\
    inv (buffer_pool p') q /\ aged (buffer_pool p) (buffer_pool p') /\ segment_cache p' = segment_cache p /\ flush_result p p' r.
Proof.
  intros Hs Hinv Hdirty. unfold flush_write. prun. rewrite (st_writable _ _ Hs).
  assert ((with! _ := check_usable in cgets (dirty_for_file Main)) (buffer_pool p) = (Ok (dirty_for_file Main (buffer_pool p)), buffer_pool p)) as Hu0.
  { unfold cbind, check_usable. by rewrite (inv_fault _ _ Hinv). }
  rewrite (pbind_ok _ _ _ _ _ (locked_ok Main _ p _ _ Hu0)). cbn [set_cache_for_key].
  assert (set_caches (buffer_pool p) (segment_cache p) p = p) as -> by (by destruct p).
  destruct (dirty_for_file_ok Main (buffer_pool p)) as [Hnd Hids]. set (ids := dirty_for_file Main (buffer_pool p)) in *.
  case_bool_decide as He.
  { exists (Ok None), p. split; [done|]. split; [done|]. split; [done|]. split; [done|]. split; [done|]. split; [apply moved_refl|].
    intros pid Hd. apply Hids in Hd. by rewrite He in Hd; apply elem_of_nil in Hd. }
  destruct (gather_ok ids p q Hs Hinv) as (prepared & gathered & c & Hg & Hinv1 & Ha & H3).
  { intros pid Hin. apply Hids in Hin. by destruct (Hdirty pid Hin) as (_ & _ & ?). }
  rewrite (pbind_ok _ _ _ _ _ Hg), pbind_lift. set (p1 := set_caches c (segment_cache p) p).
  assert (static_ok p1) as Hs1 by (by apply static_caches).
  assert (Forall (addressable p) ids) as Had by (apply Forall_forall; intros pid Hin; by destruct (Hdirty pid (proj1 (Hids pid) Hin)) as (_ & ? & _)).
  pose proof (cf_page _ (st_cfg _ _ Hs)) as Hps.
  rewrite (write_offsets_ok (page_size (cfg p)) ids ltac:(lia) Had).
  destruct (draw_nonces_ok realm (length ids) (length ids) p1 Hs1 ltac:(lia)) as (rn & p2 & Hr2 & (Hm2 & Hs2 & Hb2 & Hsg2) & Hnp2 & Hns).
  assert (moved past_header p p2) as Hm by (eapply moved_trans; [apply moved_caches|exact Hm2]).
  destruct rn as [nonces|e|]; [rewrite (pbind_ok _ _ _ _ _ Hr2)| |done].
  2: { rewrite (pbind_err _ _ _ _ _ Hr2). exists (Err e), p2. split; [done|]. split; [done|]. rewrite Hb2. split; [done|]. split; [done|]. done. }
  destruct (Hns nonces eq_refl) as [Hn HF]. destruct Hm as [E1 E2 E3 E4 E5 E6].
  destruct (flush_sealed p2 ids prepared gathered (pages_of (buffer_pool p)) nonces) as (r & p3 & Hr & Hs3 & Hb3 & Hsg3 & Hres);
    [done|by rewrite E1|done|unfold addressable in *; by rewrite E1|done|done|]. rewrite E1, E3 in Hr.
  exists r, p3. split; [exact Hr|]. split; [done|]. rewrite Hb3, Hb2, Hsg3, Hsg2. split; [done|]. split; [done|]. split; [done|].
  assert (moved past_header p p2) as Hm by done.
  destruct r as [o|e|]; [|eapply moved_trans; [exact Hm|by eapply moved_weaken]|done].
  destruct Hres as (-> & Hm3 & Hdur). rewrite E1 in Hdur. split; [|split; [|done]].
  - eapply moved_trans; [eapply moved_weaken; [exact Hm|tauto]|]. eapply moved_weaken; [exact Hm3|]. cbn.
    intros pid [_ Hnd'] Hin. apply Hnd'. by apply Hids.
  - intros pid page. rewrite (gathered_exact _ _ _ _ _ H3), Hids. done.
Qed.
End flush.
