(* ===== verification/PagerSpec.v ===== *)
(** * PagerSpec: the pager implements a page image with a durable copy

    The pager with its guards, the reads and the flush under way, one step per hold
    of its locks, against two maps from page ids to kind and body: what readers see
    and what a restart would find. *)

From S2P Require Import Prelude Keys Errors PageFormat Store Crypto DataPage StructuralHeader Vfs HeaderSlots PageCache PageCacheInv PageCacheEvict PageCacheOps PageCacheBatch PageCacheSpec Pager PagerFile PagerOps PagerFlush.
From Stdlib Require Import ZArith Lia.
From stdpp Require Import base list strings gmap relations.
From coqutil Require Import Byte.

Local Open Scope Z_scope.
Local Open Scope pagedb_scope.

(** ** The system *)

(** A read between its miss and its page reaching the cache. *)
Record Fetch := mkFetch {
  ft_pid : Z;
  ft_binding : KindBinding;
  ft_page : Page;
  ft_kind : PageKind.t;
  ft_generation : Z;
}.

Record psys (F : Type) := mkPsys {
  pager : Pager F;
  guards : list PageGuard;
  fetches : list Fetch;
  flight : option (list (Z * Page));
}.
Arguments mkPsys {F} _ _ _ _.
Arguments pager {F} _.
Arguments guards {F} _.
Arguments fetches {F} _.
Arguments flight {F} _.

Inductive pager_op :=
| PWrite (page_id : Z) (kind : PageKind.t) (body : bytes)
| PRead (page_id : Z) (b : KindBinding)
| PFetched (j : nat)
| PRelease (j : nat)
| PFlush
| PFlushed (map_cap : Z)
| PDiscard (map_cap : Z)
| PReset
| PEvict
| PRotate (mk : bytes) (epoch : Z)
| PReopen (hk : bytes) (cursor : HeaderCursor) (anchor : Z)
| PCrash (hk : bytes) (cursor : HeaderCursor) (anchor : Z).

Inductive reply :=
| Done
| Found (kind : PageKind.t) (body : bytes)
| Missed
| Refused (e : PagedbError)
| Panicked.

Section exec.
Context `{Primitives} {F : Type} `{VfsFile F}.
Context (blank : F) (debug : bool) (iter : gmap Key nat -> list (Key * nat)) (realm : RealmId).
Local Abbreviation Pager := (Pager F).
Local Abbreviation psys := (psys F).

Definition with_pager (p : Pager) (s : psys) : psys := mkPsys p (guards s) (fetches s) (flight s).

(** The reply to a call that returns nothing. *)
Definition replied {A} (r : result A) : reply :=
  match r with Ok _ => Done | Err e => Refused e | Panic => Panicked end.
Definition run_unit {A} (m : P A) (s : psys) : reply * psys :=
  let '(r, p) := m (pager s) in (replied r, with_pager p s).

(** A read that ends in a guard. *)
Definition guarded_read (r : result (PageGuard * PageKind.t)) (s : psys) : reply * psys :=
  match r with
  | Ok (g, k) =>
      (match body_ref g with Ok body => Found k body | Err e => Refused e | Panic => Panicked end,
       mkPsys (pager s) (g :: guards s) (fetches s) (flight s))
  | Err e => (Refused e, s)
  | Panic => (Panicked, s)
  end.

Definition legal_binding (b : KindBinding) : bool :=
  match b with Fixed k => PageKind.is_main_db k | NodeKind => true end.

(** A fresh handle on the files: nothing cached, no key derived. *)
Definition reopened (hk : bytes) (cursor : HeaderCursor) (anchor : Z) (p : Pager) : Pager :=
  recover_main_nonce anchor (bind_live_header hk cursor
    (set_keyring (keyring p) (set_active_epoch (active_epoch p) (pager_open (vfs p) [] (cfg p))))).

Definition pexec (o : pager_op) (s : psys) : reply * psys :=
  match o with
  | PWrite pid k body => run_unit (write_main_page debug iter pid realm k body) s
  | PRead pid b =>
      if negb (legal_binding b) then (Refused IllegalPageKind, s) else
      match read_cached debug iter Main pid realm b (pager s) with
      | (Ok (Some r), p) => guarded_read (Ok r) (with_pager p s)
      | (Ok None, p) =>
          match fetch_page blank (fun _ f => f) Main pid realm b MAIN_DB_SEGMENT_ID p with
          | (Ok (page, k, g), p) => (Missed, mkPsys p (guards s) (mkFetch pid b page k g :: fetches s) (flight s))
          | (Err e, p) => (Refused e, with_pager p s)
          | (Panic, p) => (Panicked, with_pager p s)
          end
      | (Err e, p) => (Refused e, with_pager p s)
      | (Panic, p) => (Panicked, with_pager p s)
      end
  | PFetched j =>
      match fetches s !! j with
      | None => (Done, s)
      | Some ft =>
          let '(r, p) := cache_fetched debug iter Main (ft_pid ft) realm (ft_binding ft) (ft_page ft) (ft_kind ft)
                           (ft_generation ft) (pager s) in
          guarded_read r (mkPsys p (guards s) (delete j (fetches s)) (flight s))
      end
  | PRelease j =>
      match guards s !! j with
      | None => (Done, s)
      | Some g =>
          let '(r, p) := drop_guard debug iter g (pager s) in
          (replied r, mkPsys p (delete j (guards s)) (fetches s) (flight s))
      end
  | PFlush =>
      match flush_write blank Main realm MAIN_DB_SEGMENT_ID Live (pager s) with
      | (Ok written, p) => (Done, mkPsys p (guards s) (fetches s) written)
      | (Err e, p) => (Refused e, with_pager p s)
      | (Panic, p) => (Panicked, with_pager p s)
      end
  | PFlushed cap =>
      match flight s with
      | None => (Done, s)
      | Some gathered =>
          let '(r, p) := locked Main (finish_flush debug iter cap Main gathered) (pager s) in
          (replied r, mkPsys p (guards s) (fetches s) None)
      end
  | PDiscard cap => run_unit (discard_dirty_main debug iter cap) s
  | PReset => run_unit (reset_main_pages iter) s
  | PEvict => run_unit (evict_clean_main_pages iter) s
  | PRotate mk e => (Done, with_pager (set_active_mk_epoch mk e (pager s)) s)
  | PReopen hk cursor anchor | PCrash hk cursor anchor => (Done, mkPsys (reopened hk cursor anchor (pager s)) [] [] None)
  end.
End exec.

(** ** The contract *)

(** What readers see, what a restart finds, the pages written since they were last
    made durable, those of them written since the flush under way began, the pages
    guards hold, and the reads under way. *)
Record image := mkImage {
  view : Store;
  saved : Store;
  unsaved : gset Z;
  rewritten : option (gset Z);
  held : list Z;
  pending : list (Z * KindBinding);
}.

Definition hold (pid : Z) (out : reply) (i : image) : image :=
  match out with
  | Found _ _ => mkImage (view i) (saved i) (unsaved i) (rewritten i) (pid :: held i) (pending i)
  | _ => i
  end.
Definition set_pending (l : list (Z * KindBinding)) (i : image) : image :=
  mkImage (view i) (saved i) (unsaved i) (rewritten i) (held i) l.

Definition restrict (X : Z -> Prop) `{forall z, Decision (X z)} (m : Store) : Store := filter (fun e => X e.1) m.

(** The answer to a read of a page that is in view; a page that is not may answer
    anything but a panic. *)
Definition answers (realm : RealmId) (st : Store) (pid : Z) (b : KindBinding) (out : reply) : Prop :=
  match st !! pid with
  | None => out <> Panicked
  | Some _ =>
      match (match b with Fixed k => let! body := Store.read_main_page st pid k in Ok (body, k)
             | NodeKind => Store.read_main_node st pid end) with
      | Ok (body, k) => out = Found k body
      | _ => exists e, out = Refused e /\ (e = IllegalPageKind \/ refusal realm pid e)
      end
  end.

Inductive istep (realm : RealmId) (ps : Z) : image -> pager_op -> reply -> image -> Prop :=
| i_write i pid k body st' :
    Store.write_main_page ps (view i) pid k body = Ok st' ->
    istep realm ps i (PWrite pid k body) Done
      (mkImage st' (saved i) ({[ pid ]} ∪ unsaved i) (union {[ pid ]} <$> rewritten i) (held i) (pending i))
| i_write_refused i pid k body e :
    Store.write_main_page ps (view i) pid k body = Err e -> istep realm ps i (PWrite pid k body) (Refused e) i
| i_hit i pid b out :
    answers realm (view i) pid b out -> out <> Missed -> istep realm ps i (PRead pid b) out (hold pid out i)
| i_miss i pid b : istep realm ps i (PRead pid b) Missed (set_pending ((pid, b) :: pending i) i)
| i_fetched i j pid b out :
    pending i !! j = Some (pid, b) -> answers realm (view i) pid b out -> out <> Missed ->
    istep realm ps i (PFetched j) out (hold pid out (set_pending (delete j (pending i)) i))
| i_fetched_none i j : pending i !! j = None -> istep realm ps i (PFetched j) Done i
| i_release i j :
    istep realm ps i (PRelease j) Done (mkImage (view i) (saved i) (unsaved i) (rewritten i) (delete j (held i)) (pending i))
| i_flush i :
    (* everything unsaved becomes durable *)
    istep realm ps i PFlush Done
      (mkImage (view i) (restrict (.∈ unsaved i) (view i) ∪ saved i) (unsaved i) (Some ∅) (held i) (pending i))
| i_flush_clean i : unsaved i = ∅ -> istep realm ps i PFlush Done i
| i_flush_failed i e : istep realm ps i PFlush (Refused e) i
| i_flushed i cap :
    (* only what was written again meanwhile is still unsaved *)
    istep realm ps i (PFlushed cap) Done
      (mkImage (view i) (saved i) (default (unsaved i) (rewritten i)) None (held i) (pending i))
| i_discard i cap :
    (* unsaved pages go back to their durable copy, but one that a guard holds is
       in view no longer *)
    istep realm ps i (PDiscard cap) Done
      (mkImage (restrict (.∉ unsaved i) (view i) ∪ restrict (fun z => z ∈ unsaved i /\ z ∉ held i) (saved i))
         (saved i) ∅ ((fun _ => ∅) <$> rewritten i) (held i) (pending i))
| i_reset i :
    (* all but the pages guards hold go back to their durable copy *)
    istep realm ps i PReset Done
      (mkImage (restrict (.∈ held i) (view i) ∪ restrict (.∉ held i) (saved i)) (saved i)
         (filter (.∈ held i) (unsaved i)) (filter (.∈ held i) <$> rewritten i) (held i) (pending i))
| i_evict i : istep realm ps i PEvict Done i
| i_rotate i mk e : istep realm ps i (PRotate mk e) Done i
| i_reopen i hk cursor anchor :
    istep realm ps i (PReopen hk cursor anchor) Done (mkImage (saved i) (saved i) ∅ None [] [])
| i_crash i hk cursor anchor st :
    (* a flush under way may have torn the pages it was writing, and no other *)
    st = restrict (fun z => rewritten i <> None \/ z ∉ unsaved i) (saved i) ->
    istep realm ps i (PCrash hk cursor anchor) Done (mkImage st st ∅ None [] []).

(** ** Steps *)

Section steps.
Context `{PrimitivesSpec} {F : Type} `{VfsFileSpec F}.
Context (blank : F) (debug : bool) (iter : gmap Key nat -> list (Key * nat)) (realm : RealmId).
Local Abbreviation psys := (psys F).

(** When a call can be made: a page is not rewritten while a read of it is under
    way (its readers hold their snapshot), one flush runs at a time, a new epoch
    is new. *)
Definition enabled (s : psys) (o : pager_op) : Prop :=
  match o with
  | PWrite pid _ _ => past_header pid /\ addressable (pager s) pid /\ Forall (fun ft => ft_pid ft <> pid) (fetches s)
  | PRead pid _ => addressable (pager s) pid
  | PFlush => flight s = None
  | PRotate mk e => is_u64 e /\ keyring (pager s) !! (e, CipherId.as_byte (cfg_cipher_id (cfg (pager s)))) = None
  | PReopen _ cursor anchor => 0 <= hc_seq cursor /\ is_u64 anchor
  | PCrash _ _ _ => False
  | _ => True
  end.

Inductive pstep : psys -> pager_op -> reply -> psys -> Prop :=
| p_exec s o out s' : enabled s o -> pexec blank debug iter realm o s = (out, s') -> pstep s o out s'
| p_crash s f f' hk cursor anchor :
    (* whatever the crash left of the pages a flush was writing *)
    main_file (pager s) f -> usable f' ->
    keeps (page_size (cfg (pager s))) (fun pid => past_header pid /\ ~ (flight s = None /\ dirty_page (buffer_pool (pager s)) pid))
      (contents f) (contents f') ->
    0 <= hc_seq cursor -> is_u64 anchor ->
    pstep s (PCrash hk cursor anchor) Done
      (mkPsys (reopened hk cursor anchor (set_vfs (<[main_db_path (cfg (pager s)) := f']> (vfs (pager s))) (pager s))) [] [] None).
End steps.
