(* ===== verification/PagerRefine.v ===== *)
(** * PagerRefine: the pager refines its contract

    The relation between the pager with its cache, file and keys and the page image
    of [PagerSpec.v], and its preservation by every step. *)

From S2P Require Import Prelude Keys Errors PageFormat Store Crypto DataPage StructuralHeader Vfs HeaderSlots PageCache PageCacheInv PageCacheEvict PageCacheOps PageCacheSettle PageCacheBatch PageCacheSpec Pager PagerFile PagerOps PagerFlush PagerSpec.
From Stdlib Require Import ZArith Lia.
From stdpp Require Import base list strings gmap relations.
From coqutil Require Import Byte.

Local Open Scope Z_scope.
Local Open Scope pagedb_scope.

(** ** Guards of the cache *)

Definition cguards (gs : list PageGuard) : list (Key * nat) := omap (fun g => pair (guard_key g) <$> guard_slot g) gs.

Definition all_pinned (gs : list PageGuard) : Prop := Forall (fun g => is_Some (guard_slot g)) gs.

Lemma cguards_lookup gs j g : all_pinned gs -> gs !! j = Some g ->
  exists slot, guard_slot g = Some slot /\ cguards gs !! j = Some (guard_key g, slot).
Proof.
  intros Hp. revert j. induction Hp as [|g' gs [slot Hg] Hp IH]; intros [|j]; try done; simpl; rewrite Hg; simpl.
  - intros [= <-]. by exists slot.
  - apply IH.
Qed.
Lemma cguards_delete gs j : all_pinned gs -> cguards (delete j gs) = delete j (cguards gs).
Proof.
  intros Hp. revert j. induction Hp as [|g gs [slot Hg] Hp IH]; intros [|j]; try done; simpl; rewrite Hg; simpl; [done|]. by rewrite <- IH.
Qed.
Lemma cguards_keys gs : all_pinned gs -> (cguards gs).*1 = guard_key <$> gs.
Proof. induction 1 as [|g gs [slot Hg] Hp IH]; [done|]. simpl. rewrite Hg. simpl. f_equal. exact IH. Qed.
Lemma all_pinned_delete gs j : all_pinned gs -> all_pinned (delete j gs).
Proof. intros Hp. by apply Forall_delete. Qed.

Lemma on_cache_inv {A} (m : C A) s out g r s' :
  on_cache m s out g = (Ok r, s') -> exists a c, m (s_cache s) = (Ok a, c) /\ r = out a /\ s' = mkSys c (g a).
Proof. unfold on_cache. destruct (m (s_cache s)) as [[a|e|] c]; [|done..]. intros [= <- <-]. by exists a, c. Qed.

Lemma delete_past {A} (l : list A) j : l !! j = None -> delete j l = l.
Proof. revert j. induction l as [|x l IH]; intros [|j] Hj; try done. simpl. f_equal. by apply IH. Qed.

(** What one abstract step of the cache says. *)
Lemma astep_read k a r a' : astep (OpRead k) a (Returned r) a' ->
  a_pages a !! k = r /\ a_pages a' = a_pages a /\ a_dirty a' = a_dirty a.
Proof. intros Hst. inversion Hst; subst; done. Qed.
Lemma astep_fetch k page a r a' : astep (OpFetch k page) a (Returned (Some r)) a' -> a_dirty a' = a_dirty a /\
  ((a_pages a !! k = Some r /\ a_pages a' = a_pages a) \/
   (a_pages a !! k = None /\ r = page /\ exists a1, evicts a a1 /\ a_pages a' = <[k := page]> (a_pages a1))).
Proof. intros Hst. inversion Hst; subst; (split; [done|]); [by left|right]. eauto 10. Qed.
Lemma astep_write k page a a' : astep (OpWrite k page) a PageCacheSpec.Done a' ->
  exists a1, evicts a a1 /\ a_pages a' = <[k := page]> (a_pages a1) /\ a_dirty a' = {[ k ]} ∪ a_dirty a.
Proof. intros Hst. inversion Hst; subst. eauto. Qed.
Lemma astep_release j k a a' : a_guards a !! j = Some k -> astep (OpRelease j) a PageCacheSpec.Done a' ->
  evicts (mkAState (a_pages a) (a_dirty a) (delete j (a_guards a))) a'.
Proof. intros Hj Hst. inversion Hst; subst; [congruence|congruence]. Qed.

(** ** The relation *)

Section sim.
Context `{PrimitivesSpec} {F : Type} `{VfsFileSpec F}.
Context (blank : F) (debug : bool) (iter : gmap Key nat -> list (Key * nat)) (iter_ok : forall m, iter m ≡ₚ map_to_list m).
Context (realm : RealmId).
Local Abbreviation Pager := (Pager F).
Local Abbreviation psys := (psys F).
Local Abbreviation static_ok := (static_ok realm).
Local Abbreviation shows := (shows realm).
Local Abbreviation durable := (durable realm).

Definition psize (p : Pager) : Z := page_size (cfg p).

(** A read under way carries the durable copy of its page. *)
Definition fetch_ok (p : Pager) (i : image) (ft : Fetch) (y : Z * KindBinding) : Prop :=
  y = (ft_pid ft, ft_binding ft) /\ page_ptr (ft_page ft) < next_ptr p /\ ft_generation ft = handle_generation p /\
  legal_binding (ft_binding ft) = true /\ ~ (ft_pid ft ∈ unsaved i) /\ (exists body, shows (psize p) (ft_page ft) (ft_kind ft, body)) /\
  forall x, saved i !! ft_pid ft = Some x -> shows (psize p) (ft_page ft) x /\ binds (ft_binding ft) x.1 = true.

(** The flush under way: what it gathered is saved, and is what the cache holds of
    every page not written again. *)
Definition flight_ok (p : Pager) (i : image) (G : list (Z * Page)) (X : gset Z) : Prop :=
  X ⊆ unsaved i /\
  (forall pid page, (pid, page) ∈ G -> page_ptr page < next_ptr p /\ exists x, saved i !! pid = Some x /\ shows (psize p) page x) /\
  (forall pid, pid ∈ unsaved i -> pid ∉ X -> exists page, (pid, page) ∈ G /\ pages_of (buffer_pool p) !! (Main, pid) = Some page) /\
  (forall pid page page', pid ∈ X -> (pid, page) ∈ G -> pages_of (buffer_pool p) !! (Main, pid) = Some page' ->
     ~ (page_ptr page' = page_ptr page)).

(** All but the pins of the cache. *)
Record R0 (s : psys) (i : image) : Prop := mkR0 {
  R_static : static_ok (pager s);
  R_dirty : forall k, k ∈ dirty (buffer_pool (pager s)) <-> k.1 = Main /\ k.2 ∈ unsaved i;
  R_written : forall pid, pid ∈ unsaved i -> past_header pid /\ addressable (pager s) pid /\ is_Some (view i !! pid) /\
    is_Some (pages_of (buffer_pool (pager s)) !! (Main, pid));
  R_saved : forall f, main_file (pager s) f -> forall pid x, saved i !! pid = Some x ->
    past_header pid /\ addressable (pager s) pid /\ durable (pager s) (contents f) pid x;
  R_shows : forall pid page x, pages_of (buffer_pool (pager s)) !! (Main, pid) = Some page -> view i !! pid = Some x ->
    shows (psize (pager s)) page x;
  R_clean : forall pid x, pid ∉ unsaved i -> view i !! pid = Some x -> saved i !! pid = Some x;
  R_ptrs : forall k page, pages_of (buffer_pool (pager s)) !! k = Some page ->
    page_ptr page < next_ptr (pager s) /\ blen (page_bytes page) = psize (pager s);
  R_fetch : Forall2 (fetch_ok (pager s) i) (fetches s) (pending i);
  R_flight : match flight s, rewritten i with
             | None, None => True
             | Some G, Some X => flight_ok (pager s) i G X
             | _, _ => False
             end;
}.

Record R (n : nat) (s : psys) (i : image) : Prop := mkR {
  R_core :> R0 s i;
  R_sound : sound n (mkSys (buffer_pool (pager s)) (cguards (guards s)));
  R_pinned : all_pinned (guards s);
  R_held : guard_key <$> guards s = pair Main <$> held i;
}.

Lemma R_le n m s i : (n <= m)%nat -> R n s i -> R m s i.
Proof. intros Hle []. constructor; try done. by eapply sound_le. Qed.

Definition simulates (n : nat) (s : psys) (i : image) (o : pager_op) : Prop :=
  exists out s' i', pexec blank debug iter realm o s = (out, s') /\ istep realm (psize (pager s)) i o out i' /\
    R (S (S n)) s' i' /\ cfg (pager s') = cfg (pager s).

Lemma held_guarded n s i pid : R n s i -> ((Main, pid) ∈ (cguards (guards s)).*1 <-> pid ∈ held i).
Proof.
  intros HR. rewrite cguards_keys by apply HR. rewrite (R_held _ _ _ HR), list_elem_of_fmap. split.
  - intros (z & [= ->] & Hz). done.
  - intros Hz. by exists pid.
Qed.

(** The abstract cache of the system. *)
Lemma abs_pages n s i : R n s i ->
  abs (mkSys (buffer_pool (pager s)) (cguards (guards s))) =
    mkAState (pages_of (buffer_pool (pager s))) (dirty (buffer_pool (pager s))) (pair Main <$> held i).
Proof. intros HR. unfold abs, abstract. simpl. by rewrite cguards_keys, (R_held _ _ _ HR) by apply HR. Qed.

(** Page bodies in view, by the kind a reader binds. *)
Lemma answers_found pid b k body st : legal_binding b = true -> st !! pid = Some (k, body) -> binds b k = true ->
  answers realm st pid b (Found k body).
Proof.
  intros Hb Hv Hk. unfold answers. rewrite Hv. destruct b as [k'|]; cbn in Hb, Hk.
  - apply bool_decide_eq_true in Hk as ->. unfold Store.read_main_page. rewrite Hb, Hv. cbn. by rewrite decide_True.
  - unfold Store.read_main_node. rewrite Hv. by destruct k.
Qed.

Lemma answers_refused pid b k body st e : legal_binding b = true -> st !! pid = Some (k, body) -> binds b k = false ->
  refusal realm pid e -> answers realm st pid b (Refused e).
Proof.
  intros Hb Hv Hk He. unfold answers. rewrite Hv. destruct b as [k'|]; cbn in Hb, Hk.
  - apply bool_decide_eq_false in Hk. unfold Store.read_main_page. rewrite Hb, Hv. cbn. rewrite decide_False by congruence. eauto.
  - unfold Store.read_main_node. rewrite Hv. destruct k; try done; eauto.
Qed.

Lemma answers_total st pid b : ~ answers realm st pid b Panicked.
Proof.
  unfold answers. destruct (st !! pid); [|by intros ?].
  destruct (match b with Fixed k => _ | NodeKind => _ end) as [[body k]|e|]; [done|by intros (? & [=] & _)|by intros (? & [=] & _)].
Qed.

(** A resident page is checked like the page at rest. *)
Lemma check_resident_ok ps page x b : shows ps page x ->
  check_resident_page page realm b = if binds b x.1 then Ok x.1 else Err ChecksumFailure.
Proof.
  intros (Hr & Hk & _). unfold check_resident_page. rewrite Hr, bool_decide_true by done. cbn [negb]. rewrite Hk.
  destruct b as [k|]; cbn [resolve_cached binds].
  - rewrite (proj2 (Z.eqb_neq _ _)) by (by destruct x.1). cbn [negb andb].
    case_bool_decide as Hkx; [subst k; by rewrite Z.eqb_refl|]. rewrite (proj2 (Z.eqb_neq _ _)); [done|]. by destruct k, x.1.
  - rewrite PageKind.from_as_byte. by destruct x.1.
Qed.

(** ** Rebuilding the relation *)

Lemma R_resident s i pid : R0 s i -> pid ∈ unsaved i -> is_Some (pages_of (buffer_pool (pager s)) !! (Main, pid)).
Proof. intros HR Hu. by destruct (R_written _ _ HR pid Hu) as (_ & _ & _ & ?). Qed.

Lemma durable_moved (Q : Z -> Prop) (p p' : Pager) f f' pid x :
  moved Q p p' -> Q pid -> 0 <= pid -> main_file p f -> usable f -> durable p (contents f) pid x ->
  main_file p' f' -> durable p' (contents f') pid x.
Proof.
  intros [E1 E2 _ _ _ E6] HQ Hp Hf Hu [Hh Ho] Hf'. destruct (E6 f Hf Hu) as (f2 & Hf2 & _ & Hl & Hk).
  assert (f2 = f') as -> by (unfold main_file in *; congruence).
  unfold durable. unfold PagerOps.durable. rewrite E1, E2. unfold has_page in *. split; [lia|]. rewrite Hk; done.
Qed.

Lemma R_saved_moved s i p' : R0 s i -> moved past_header (pager s) p' ->
  forall f', main_file p' f' -> forall pid x, saved i !! pid = Some x -> past_header pid /\ addressable p' pid /\ durable p' (contents f') pid x.
Proof.
  intros HR Hm f' Hf' pid x Hs. destruct (st_file _ _ (R_static _ _ HR)) as (f & Hf & Hu).
  destruct (R_saved _ _ HR f Hf pid x Hs) as (Hp & Ha & Hd). split; [done|]. split.
  - unfold addressable in *. by rewrite (mv_cfg _ _ _ Hm).
  - unfold past_header in Hp. eapply (durable_moved _ _ p' f f'); try done. lia.
Qed.

Lemma flight_kept p p' i G X :
  flight_ok p i G X -> psize p' = psize p -> next_ptr p <= next_ptr p' ->
  (forall pid page, pid ∈ unsaved i -> pages_of (buffer_pool p) !! (Main, pid) = Some page ->
     pages_of (buffer_pool p') !! (Main, pid) = Some page) ->
  (forall pid, pid ∈ unsaved i -> is_Some (pages_of (buffer_pool p) !! (Main, pid))) ->
  flight_ok p' i G X.
Proof.
  intros (F1 & F2 & F3 & F4) Hps Hn Hk Hres. split; [done|]. rewrite Hps. split; [|split].
  - intros pid page Hin. destruct (F2 _ _ Hin) as [? ?]. split; [lia|done].
  - intros pid Hu HX. destruct (F3 _ Hu HX) as (page & Hin & Hp). exists page. auto.
  - intros pid page page' HX Hin Hp'. destruct (Hres pid (F1 _ HX)) as [page0 Hp0].
    pose proof (Hk pid page0 (F1 _ HX) Hp0) as Hp1. rewrite Hp1 in Hp'. injection Hp' as ->. by eapply F4.
Qed.

Lemma R0_step s i p' gs' fts' i' :
  R0 s i -> moved past_header (pager s) p' -> static_ok p' -> dirty (buffer_pool p') = dirty (buffer_pool (pager s)) ->
  (forall k page, pages_of (buffer_pool p') !! k = Some page ->
     (page_ptr page < next_ptr p' /\ blen (page_bytes page) = psize p') /\
     forall pid x, k = (Main, pid) -> view i !! pid = Some x -> shows (psize p') page x) ->
  (forall pid page, pid ∈ unsaved i -> pages_of (buffer_pool (pager s)) !! (Main, pid) = Some page ->
     pages_of (buffer_pool p') !! (Main, pid) = Some page) ->
  view i' = view i -> saved i' = saved i -> unsaved i' = unsaved i -> rewritten i' = rewritten i ->
  Forall2 (fetch_ok p' i') fts' (pending i') ->
  R0 (mkPsys p' gs' fts' (flight s)) i'.
Proof.
  intros HR Hm Hst Hdi Hpages Hkeep Ev Es Eu Er Hft.
  assert (forall pid, addressable p' pid <-> addressable (pager s) pid) as Ha by (unfold addressable; by rewrite (mv_cfg _ _ _ Hm)).
  constructor; simpl; try done.
  - intros k. rewrite Hdi, Eu. apply (R_dirty _ _ HR).
  - intros pid. rewrite Eu, Ev, Ha. intros Hu. destruct (R_written _ _ HR pid Hu) as (? & ? & ? & [page Hp]).
    split_and!; try done. exists page. by apply Hkeep.
  - rewrite Es. by apply (R_saved_moved s i).
  - intros pid page x Hp. rewrite Ev. destruct (Hpages _ _ Hp) as [_ Hx]. by apply Hx.
  - intros pid x. rewrite Eu, Ev, Es. apply (R_clean _ _ HR).
  - intros k page Hp. apply (Hpages _ _ Hp).
  - pose proof (R_flight _ _ HR) as Hfl. rewrite Er. destruct (flight s) as [G|], (rewritten i) as [X|]; try done.
    assert (flight_ok p' i G X) as Hfo.
    { eapply (flight_kept (pager s)); [exact Hfl|unfold psize; by rewrite (mv_cfg _ _ _ Hm)|apply Hm|exact Hkeep|]. intros pid. by eapply R_resident. }
    destruct Hfo as (F1 & F2 & F3 & F4). split; [by rewrite Eu|]. rewrite Es, Eu. done.
Qed.

Lemma fetches_kept (p p' : Pager) i i' fts ys :
  moved past_header p p' -> saved i' = saved i -> unsaved i' = unsaved i ->
  Forall2 (fetch_ok p i) fts ys -> Forall2 (fetch_ok p' i') fts ys.
Proof.
  intros Hm Es Eu HF. eapply Forall2_impl; [exact HF|]. intros ft y (E & H1' & H2' & H3' & H4' & H5' & H6').
  unfold fetch_ok, psize. rewrite Es, Eu, (mv_cfg _ _ _ Hm), (mv_gen _ _ _ Hm). pose proof (mv_ptr _ _ _ Hm). split; [done|]. split; [lia|]. done.
Qed.

(** ** Reads *)

Definition sysof (s : psys) : sys := mkSys (buffer_pool (pager s)) (cguards (guards s)).

(** A cache call that keeps the dirty set and the pages, or evicts some. *)
Lemma R_cache m s i c' gs' i' :
  R0 s i -> sound m (mkSys c' (cguards gs')) -> all_pinned gs' -> guard_key <$> gs' = pair Main <$> held i' ->
  dirty c' = dirty (buffer_pool (pager s)) -> pages_of c' ⊆ pages_of (buffer_pool (pager s)) ->
  (forall k page, k ∈ dirty (buffer_pool (pager s)) -> pages_of (buffer_pool (pager s)) !! k = Some page -> pages_of c' !! k = Some page) ->
  view i' = view i -> saved i' = saved i -> unsaved i' = unsaved i -> rewritten i' = rewritten i -> pending i' = pending i ->
  R m (mkPsys (set_caches c' (segment_cache (pager s)) (pager s)) gs' (fetches s) (flight s)) i'.
Proof.
  intros HR Hso Hpi Hk Hd Hsub Hkeep Ev Es Eu Er Ep. set (p' := set_caches _ _ _).
  assert (moved past_header (pager s) p') as Hm by apply moved_caches.
  constructor; try done. eapply (R0_step s i); try done.
  - apply static_caches, HR.
  - intros k page Hp. eapply lookup_weaken in Hp; [|exact Hsub]. split; [by apply (R_ptrs _ _ HR k)|].
    intros pid x -> Hx. by eapply (R_shows _ _ HR).
  - intros pid page Hu Hp. apply Hkeep; [|done]. by apply (R_dirty _ _ HR).
  - rewrite Ep. eapply fetches_kept; [exact Hm|done|done|apply HR].
Qed.

Lemma guard_body (p : Pager) page : static_ok p -> blen (page_bytes page) = psize p -> exists body, page_body (page_bytes page) = Ok body.
Proof.
  intros Hs Hl. pose proof (cf_page _ (st_cfg _ _ Hs)). unfold psize in Hl. unfold page_body, ENVELOPE_HEADER_LEN, TAG_LEN. rewrite slice_ok by lia. by eexists.
Qed.

Lemma check_resident_total page b : check_resident_page page realm b <> Panic.
Proof.
  unfold check_resident_page, resolve_cached. case_match; [done|]. destruct b; [by case_match|].
  pose proof (PageKind.from_byte_no_panic (kind_byte page)). repeat case_match; done.
Qed.

(** A page just pinned is handed out, or refused and unpinned. *)
Lemma guard_resident_sim n s i pid b page slot :
  R0 s i -> all_pinned (guards s) -> guard_key <$> guards s = pair Main <$> held i -> Z.of_nat n < U32_MAX -> legal_binding b = true ->
  forall c, sound n (mkSys c ((Main, pid, slot) :: cguards (guards s))) ->
  dirty c = dirty (buffer_pool (pager s)) -> pages_of c = pages_of (buffer_pool (pager s)) -> pages_of c !! (Main, pid) = Some page ->
  exists out r p' s', guard_resident debug iter (Main, pid) page slot realm b (set_caches c (segment_cache (pager s)) (pager s)) = (r, p') /\
    guarded_read r (with_pager p' s) = (out, s') /\ answers realm (view i) pid b out /\ out <> Missed /\
    R (S n) s' (hold pid out i) /\ cfg (pager s') = cfg (pager s).
Proof.
  intros HR Hpin Hheld Hn Hb c Hso Hd Hpg Hp. unfold guard_resident. pose proof (check_resident_total page b) as Hct.
  rewrite Hpg in Hp. destruct (R_ptrs _ _ HR _ _ Hp) as [_ Hbl].
  destruct (check_resident_page page realm b) as [k|e|] eqn:Hc; [| |done].
  - destruct (guard_body _ page (R_static _ _ HR) Hbl) as [body Hbody].
    eexists (Found k body), _, _, _. split; [done|]. unfold guarded_read, body_ref. cbn [guard_page]. rewrite Hbody. split; [done|].
    split; [|split; [done|split; [|done]]].
    + destruct (view i !! pid) as [x|] eqn:Hv; [|unfold answers; by rewrite Hv].
      pose proof (R_shows _ _ HR _ _ _ Hp Hv) as Hx. rewrite (check_resident_ok _ _ _ b Hx) in Hc.
      destruct (binds b x.1) eqn:Hbx; [|done]. injection Hc as <-. pose proof Hx as (_ & _ & Hb' & _). rewrite Hbody in Hb'. injection Hb' as ->.
      destruct x. by apply answers_found.
    + cbn [hold with_pager pager guards fetches flight]. eapply R_cache; try done; [eapply sound_le; [|exact Hso]; lia| | |by rewrite Hpg|by rewrite Hpg].
      * constructor; [by eexists|done].
      * cbn [held fmap list_fmap]. f_equal. exact Hheld.
  - destruct (cache_exec_ok debug iter iter_ok n (OpRelease 0) _ Hso Hn) as (out & s1 & Hex & Hst & Hso1).
    cbn [cache_exec s_guards lookup] in Hex. change (((Main, pid, slot) :: cguards (guards s)) !! 0%nat) with (Some ((Main, pid), slot)) in Hex. cbv iota beta in Hex.
    apply on_cache_inv in Hex as ([] & c2 & Hun & -> & ->). cbn [s_cache] in Hun.
    rewrite (pbind_ok _ _ _ _ _ (locked_ok Main _ (set_caches c (segment_cache (pager s)) (pager s)) _ _ Hun)).
    eexists (Refused e), _, _, _. split; [done|]. split; [done|]. split; [|split; [done|split; [|done]]].
    + destruct (view i !! pid) as [x|] eqn:Hv; [|unfold answers; by rewrite Hv].
      pose proof (R_shows _ _ HR _ _ _ Hp Hv) as Hx. rewrite (check_resident_ok _ _ _ b Hx) in Hc.
      destruct (binds b x.1) eqn:Hbx; [done|]. injection Hc as <-. destruct x. eapply answers_refused; try done. by left.
    + apply (astep_release 0 (Main, pid)) in Hst as [Hsub Hkeep Hdd Hgg]; [|done].
      cbn [hold with_pager pager guards fetches flight]. change (delete 0%nat ((Main, pid, slot) :: cguards (guards s))) with (cguards (guards s)) in *.
      cbn [a_pages a_dirty a_guards abs abstract s_cache s_guards] in *. 
      eapply R_cache; try done; [by rewrite Hdd| |].
      * by rewrite <- Hpg.
      * intros k0 page0 Hk0 Hp0. apply Hkeep; [unfold pages_of in *; by rewrite Hpg|]. left. by rewrite Hd.
Qed.

Lemma psim_read n s i pid b :
  R n s i -> Z.of_nat (S n) < U32_MAX -> addressable (pager s) pid -> simulates n s i (PRead pid b).
Proof.
  intros HR Hn Had. unfold simulates. cbn [pexec]. destruct (legal_binding b) eqn:Hb; cbn [negb].
  2: { exists (Refused IllegalPageKind), s, i. split; [done|]. split; [|split; [|done]].
       - apply (i_hit realm _ i pid b (Refused IllegalPageKind)); [|done]. unfold answers. destruct (view i !! pid); [|done].
         destruct b as [k|]; [|done]. cbn in Hb. unfold Store.read_main_page. rewrite Hb. cbn. eauto.
       - eapply R_le; [|exact HR]. lia. }
  destruct (cache_exec_ok debug iter iter_ok n (OpRead (Main, pid)) (sysof s) (R_sound _ _ _ HR) ltac:(lia)) as (out & s1 & Hex & Hst & Hso).
  cbn [cache_exec] in Hex. apply on_cache_inv in Hex as (r & c & Hget & -> & ->). cbn [sysof s_cache s_guards] in *.
  unfold read_cached. rewrite (pbind_ok _ _ _ _ _ (locked_ok Main _ (pager s) _ _ Hget)). cbn [set_cache_for_key].
  destruct r as [[page slot]|].
  - apply astep_read in Hst as (Hpg & Epg & Ed). cbn [abs abstract a_pages a_dirty s_cache] in Hpg, Epg, Ed.
    assert (R (S n) s i) as HR1 by (eapply R_le; [|exact HR]; lia).
    destruct (guard_resident_sim (S n) s i pid b page slot HR1 (R_pinned _ _ _ HR) (R_held _ _ _ HR) Hn Hb c) as (out & r & p' & s' & Hr & Hg & Hans & Hnm & HR' & Hcfg);
      [exact Hso|done|done|unfold pages_of; by rewrite Epg|].
    unfold pbind at 1. rewrite Hr. destruct r as [gk|e|].
    + cbn [pret]. rewrite Hg. exists out, s', (hold pid out i). split; [done|]. split; [by constructor|]. done.
    + injection Hg as <- <-. exists (Refused e), (with_pager p' s), i. split; [done|]. split; [by apply (i_hit realm _ i pid b (Refused e))|]. done.
    + injection Hg as <- <-. by apply answers_total in Hans.
  - apply astep_read in Hst as (Hpg & Epg & Ed). cbn [sysof abs abstract a_pages a_dirty s_cache fmap option_fmap option_map] in Hpg, Epg, Ed.
    set (p1 := set_caches c (segment_cache (pager s)) (pager s)).
    assert (R (S n) (with_pager p1 s) i) as HR1.
    { eapply R_cache; try done; [apply HR|apply HR|apply HR|by unfold pages_of; rewrite Epg|by unfold pages_of; rewrite Epg]. }
    destruct (st_file _ _ (R_static _ _ HR1)) as (f & Hf & Hu). cbn [with_pager pager] in Hf.
    destruct (fetch_page_ok realm blank p1 pid b f (R_static _ _ HR1) Had Hf Hu) as (r & nn & l & Hr & Hst2 & Hnn & Hnp & Hok & Hdur).
    unfold alone in Hr. cbn [pret]. rewrite Hr. set (p2 := set_next_ptr nn (set_dek_lru l p1)) in *.
    assert (moved past_header p1 p2) as Hm2.
    { eapply moved_trans; [apply moved_lru|apply moved_ptr; exact Hnn]. }
    assert (forall fts ys i', saved i' = saved i -> unsaved i' = unsaved i -> view i' = view i -> rewritten i' = rewritten i -> held i' = held i ->
      pending i' = ys -> Forall2 (fetch_ok p2 i') fts ys -> R (S (S n)) (mkPsys p2 (guards s) fts (flight s)) i') as Hmk.
    { intros fts ys i' Es Eu Ev Er Eh <- Hfts. constructor; [|eapply sound_le; [|apply HR1]; lia|apply HR|rewrite Eh; apply HR].
      eapply (R0_step (with_pager p1 s) i); try done; [apply HR1|].
      intros k page Hk. destruct (R_ptrs _ _ HR1 k page Hk) as [H1' H2']. split; [split; [change (next_ptr p2) with nn; change (next_ptr (pager (with_pager p1 s))) with (next_ptr p1) in H1'; lia|done]|].
        intros pid' x -> Hv. by eapply (R_shows _ _ HR1). }
    assert (Forall2 (fetch_ok p2 i) (fetches s) (pending i)) as Hfold by (eapply fetches_kept; [exact Hm2|done|done|apply HR1]).
    assert (~ (pid ∈ unsaved i)) as Hnu.
    { intros Hin. destruct (R_resident _ _ pid HR Hin) as [page Hp]. unfold pages_of in Hp. congruence. }
    assert (forall x, saved i !! pid = Some x -> durable p1 (contents f) pid x) as Hsd by (intros x Hx; by apply (R_saved _ _ HR1 f Hf)).
    destruct r as [[[page k] g]|e|]; [| |done].
    + exists Missed, (mkPsys p2 (guards s) (mkFetch pid b page k g :: fetches s) (flight s)), (set_pending ((pid, b) :: pending i) i).
      split; [done|]. split; [apply i_miss|]. split; [|done]. apply (Hmk _ ((pid, b) :: pending i)); try done.
      destruct (Hok page k g eq_refl) as (Hptr & Hnn' & Hgen & Hbody). constructor; [|done].
      split; [done|]. cbn [ft_page ft_pid ft_binding ft_generation ft_kind unsaved saved set_pending].
      split; [rewrite Hptr; change (next_ptr p2) with nn; lia|]. split; [done|]. split; [done|]. split; [done|]. split; [done|].
      intros x Hx. specialize (Hdur x (Hsd x Hx)). destruct (binds b x.1); [|by destruct Hdur as (? & [=] & _)].
      destruct Hdur as (page' & g' & [= <- -> <-] & Hxx). done.
    + exists (Refused e), (mkPsys p2 (guards s) (fetches s) (flight s)), i. split; [done|]. split; [|split; [|done]].
      * apply (i_hit realm _ i pid b (Refused e)); [|done]. destruct (view i !! pid) as [x|] eqn:Hv; [|unfold answers; by rewrite Hv].
        specialize (Hdur x (Hsd x (R_clean _ _ HR _ _ Hnu Hv))). destruct (binds b x.1) eqn:Hbx; [by destruct Hdur as (? & ? & [=] & _)|].
        destruct Hdur as (e' & [= <-] & He). destruct x. by eapply answers_refused.
      * by apply (Hmk (fetches s) (pending i)).
Qed.

Lemma R0_set_pending s i j : R0 s i ->
  R0 (mkPsys (pager s) (guards s) (delete j (fetches s)) (flight s)) (set_pending (delete j (pending i)) i).
Proof.
  intros [? ? ? ? ? ? ? HF ?]. constructor; try done. cbn. clear -HF. revert j. induction HF as [|ft y fts ys Hf HF IH]; intros [|j]; simpl.
  - constructor.
  - constructor.
  - eapply Forall2_impl; [exact HF|]. done.
  - constructor; [exact Hf|apply IH].
Qed.

Lemma psim_fetched n s i j : R n s i -> Z.of_nat (S n) < U32_MAX -> simulates n s i (PFetched j).
Proof.
  intros HR Hn. unfold simulates. cbn [pexec]. destruct (fetches s !! j) as [ft|] eqn:Hj.
  2: { exists Done, s, i. split; [done|]. split; [|split; [eapply R_le; [|exact HR]; lia|done]]. apply i_fetched_none.
       apply lookup_ge_None in Hj. apply lookup_ge_None. by rewrite <- (Forall2_length _ _ _ (R_fetch _ _ HR)). }
  destruct (Forall2_lookup_l _ _ _ _ _ (R_fetch _ _ HR) Hj) as (y & Hy & -> & Hptr & Hgen & Hb & Hnu & (body & Hown) & Hsx).
  set (pid := ft_pid ft) in *. set (b := ft_binding ft) in *. set (page := ft_page ft) in *.
  unfold cache_fetched. prun. rewrite Hgen, Z.eqb_refl. cbn [negb]. rewrite andb_false_r.
  destruct (cache_exec_ok debug iter iter_ok n (OpFetch (Main, pid) page) (sysof s) (R_sound _ _ _ HR) ltac:(lia)) as (out & s1 & Hex & Hst & Hso).
  cbn [cache_exec] in Hex. apply on_cache_inv in Hex as ([page' slot] & c & Hins & -> & ->). cbn [fst snd sysof s_cache s_guards] in *.
  rewrite (pbind_ok _ _ _ _ _ (locked_ok Main _ (pager s) _ _ Hins)). cbn [set_cache_for_key].
  apply astep_fetch in Hst as [Ed Hcase]. cbn [sysof abs abstract a_pages a_dirty s_cache] in Ed, Hcase.
  fold (pages_of c) in Hcase. fold (pages_of (buffer_pool (pager s))) in Hcase.
  set (p1 := set_caches c (segment_cache (pager s)) (pager s)).
  set (i1 := set_pending (delete j (pending i)) i). set (s0 := mkPsys (pager s) (guards s) (delete j (fetches s)) (flight s)).
  pose proof (R0_set_pending s i j HR) as HR0. fold s0 i1 in HR0.
  set (s1 := mkPsys p1 (guards s) (delete j (fetches s)) (flight s)).
  assert (R0 s1 i1 /\ pages_of c !! (Main, pid) = Some page') as [HR1 Hpg].
  { assert (pages_of c !! (Main, pid) = Some page') as Hpg.
    { destruct Hcase as [[Hp ->]|(_ & -> & a1 & _ & ->)]; [done|]. by rewrite lookup_insert_eq. }
    split; [|done]. assert (moved past_header (pager s) p1) as Hm by apply moved_caches.
    eapply (R0_step s0 i1); try done; [apply static_caches, HR| | |].
    - intros k pg Hk. change (buffer_pool p1) with c in Hk. change (next_ptr p1) with (next_ptr (pager s)).
      destruct Hcase as [[_ Epg]|(Hnone & _ & a1 & [Hsub _ _ _] & Epg)]; rewrite Epg in Hk.
      { split; [by apply (R_ptrs _ _ HR k)|]. intros pid' x -> Hv. by eapply (R_shows _ _ HR). }
      apply lookup_insert_Some in Hk as [[<- <-]|[_ Hk]].
      + split; [split; [exact Hptr|]|]; [by destruct Hown as (_ & _ & _ & ?)|]. intros pid' x [= <-] Hv.
        destruct (Hsx x (R_clean _ _ HR _ _ Hnu Hv)). done.
      + eapply lookup_weaken in Hk; [|exact Hsub]. split; [by apply (R_ptrs _ _ HR k)|]. intros pid' x -> Hv. by eapply (R_shows _ _ HR).
    - intros pid' pg Hu Hp. change (buffer_pool p1) with c. destruct Hcase as [[_ Epg]|(Hnone & _ & a1 & [_ Hkeep _ _] & Epg)]; rewrite Epg; [done|].
      rewrite lookup_insert_ne by (intros [= <-]; done). apply Hkeep; [done|]. left. by apply (R_dirty _ _ HR).
    - eapply fetches_kept; [exact Hm|done|done|apply HR0]. }
  destruct (guard_resident_sim (S n) s1 i1 pid b page' slot HR1 (R_pinned _ _ _ HR) (R_held _ _ _ HR) Hn Hb c)
    as (out & r & p' & s' & Hr & Hg & Hans & Hnm & HR' & Hcfg); [exact Hso|done|done|exact Hpg|].
  change (set_caches c (segment_cache (pager s1)) (pager s1)) with p1 in Hr. rewrite Hr.
  change (with_pager p' s1) with (mkPsys p' (guards s) (delete j (fetches s)) (flight s)) in Hg. rewrite Hg.
  exists out, s', (hold pid out i1). split; [done|]. split; [|done]. by apply (i_fetched realm _ i j pid b out).
Qed.

Lemma psim_release n s i j : R n s i -> Z.of_nat (S n) < U32_MAX -> simulates n s i (PRelease j).
Proof.
  intros HR Hn. unfold simulates. cbn [pexec]. set (i' := mkImage (view i) (saved i) (unsaved i) (rewritten i) (delete j (held i)) (pending i)).
  pose proof (R_held _ _ _ HR) as Hh.
  destruct (guards s !! j) as [g|] eqn:Hj.
  2: { exists Done, s, i'. split; [done|]. split; [constructor|]. split; [|done].
       assert (held i !! j = None) as Hn'.
       { apply (f_equal (fun l => l !! j)) in Hh. rewrite !list_lookup_fmap, Hj in Hh. by destruct (held i !! j). }
       assert (i' = i) as ->; [|eapply R_le; [|exact HR]; lia]. unfold i'. rewrite (delete_past _ _ Hn'). by destruct i. }
  destruct (cguards_lookup _ _ _ (R_pinned _ _ _ HR) Hj) as (slot & Hsl & Hcj).
  destruct (cache_exec_ok debug iter iter_ok n (OpRelease j) (sysof s) (R_sound _ _ _ HR) ltac:(lia)) as (out & s1 & Hex & Hst & Hso).
  cbn [cache_exec sysof s_guards] in Hex. rewrite Hcj in Hex. apply on_cache_inv in Hex as ([] & c & Hun & -> & ->).
  assert ((guard_key g).1 = Main) as HgM.
  { apply (f_equal (fun l => l !! j)) in Hh. rewrite !list_lookup_fmap, Hj in Hh. destruct (held i !! j); [|done]. by injection Hh as ->. }
  unfold drop_guard. rewrite Hsl, HgM. rewrite (locked_ok Main _ (pager s) _ _ Hun). cbn [set_cache_for_key replied].
  exists Done, (mkPsys (set_caches c (segment_cache (pager s)) (pager s)) (delete j (guards s)) (fetches s) (flight s)), i'.
  split; [done|]. split; [constructor|]. split; [|done].
  apply (astep_release j (guard_key g)) in Hst as [Hsub Hkeep Hdd _];
    [|cbn [sysof abs abstract a_guards s_guards]; by rewrite list_lookup_fmap, Hcj].
  cbn [sysof abs abstract a_pages a_dirty s_cache s_guards] in *. rewrite <- cguards_delete in Hso by apply HR.
  eapply (R_cache _ s i); try done; [apply HR|eapply sound_le; [|exact Hso]; lia|by apply all_pinned_delete, HR| |].
  - unfold i'. cbn [held]. rewrite !list_fmap_delete. by rewrite Hh.
  - intros k page Hk Hp. apply Hkeep; [done|]. by left.
Qed.

(** ** Writes *)

(** A page written over: its bytes show what was written. *)
Lemma written_shows ps ptr buf k body : 4096 <= ps -> blen body = ps - 40 -> copy_at (E := PagedbError) (zeros ps) 24 body = Ok buf ->
  shows ps (new_with_meta ptr buf (PageKind.as_byte k) realm) (k, body).
Proof.
  intros Hps Hb Hc. assert (blen (zeros ps) = ps) as Hz by (apply blen_zeros; lia).
  destruct (copy_at_step (E := PagedbError) (zeros ps) 24 body) as (w & Hw & Hl & Hs & _); [lia|rewrite Hz; lia|].
  rewrite Hw in Hc. injection Hc as ->. split; [done|]. split; [done|]. cbn. unfold page_body, ENVELOPE_HEADER_LEN, TAG_LEN.
  rewrite slice_ok by lia. split; [|lia]. rewrite Hl, Hz. replace (ps - 16 - 24) with (blen body) by lia. by rewrite Hs.
Qed.

Lemma flight_written p p' i i' G X pid page :
  flight_ok p i G X -> psize p' = psize p -> page_ptr page = next_ptr p -> next_ptr p <= next_ptr p' ->
  saved i' = saved i -> unsaved i' = {[ pid ]} ∪ unsaved i -> pages_of (buffer_pool p') !! (Main, pid) = Some page ->
  (forall pid0, pid0 ∈ unsaved i -> is_Some (pages_of (buffer_pool p) !! (Main, pid0))) ->
  (forall pid0 page0, pid0 <> pid -> pid0 ∈ unsaved i -> pages_of (buffer_pool p) !! (Main, pid0) = Some page0 ->
     pages_of (buffer_pool p') !! (Main, pid0) = Some page0) ->
  flight_ok p' i' G ({[ pid ]} ∪ X).
Proof.
  intros (F1 & F2 & F3 & F4) Hps Hptr Hn Es Eu Hpg Hres Hkeep. unfold flight_ok. rewrite Hps, Es, Eu. split; [set_solver|]. split; [|split].
  - intros pid0 page0 Hin. destruct (F2 _ _ Hin) as [? ?]. split; [lia|done].
  - intros pid0 Hu HX. destruct (F3 pid0) as (page0 & Hin & Hp); [set_solver..|]. exists page0. split; [done|].
    apply Hkeep; [set_solver..|done].
  - intros pid0 page0 page' HX Hin Hp. destruct (decide (pid0 = pid)) as [->|Hne].
    + rewrite Hpg in Hp. injection Hp as <-. destruct (F2 _ _ Hin) as [? _]. lia.
    + assert (pid0 ∈ X) as HX0 by set_solver. destruct (Hres pid0 (F1 _ HX0)) as [page1 Hp1].
      rewrite (Hkeep _ _ Hne (F1 _ HX0) Hp1) in Hp. injection Hp as ->. by eapply F4.
Qed.

Definition written (pid : Z) (x : PageKind.t * bytes) (i : image) : image :=
  mkImage (<[pid := x]> (view i)) (saved i) ({[ pid ]} ∪ unsaved i) (union {[ pid ]} <$> rewritten i) (held i) (pending i).

Lemma R0_written s i c pid page x :
  R0 s i -> past_header pid -> addressable (pager s) pid -> Forall (fun ft => ft_pid ft <> pid) (fetches s) ->
  page_ptr page = next_ptr (pager s) -> shows (psize (pager s)) page x ->
  dirty c = {[ (Main, pid) ]} ∪ dirty (buffer_pool (pager s)) -> pages_of c !! (Main, pid) = Some page ->
  (forall k page0, k <> (Main, pid) -> pages_of c !! k = Some page0 -> pages_of (buffer_pool (pager s)) !! k = Some page0) ->
  (forall k page0, k <> (Main, pid) -> k ∈ dirty (buffer_pool (pager s)) ->
     pages_of (buffer_pool (pager s)) !! k = Some page0 -> pages_of c !! k = Some page0) ->
  R0 (with_pager (set_caches c (segment_cache (pager s)) (set_next_ptr (next_ptr (pager s) + 1) (pager s))) s) (written pid x i).
Proof.
  intros HR Hpast Had Hft Hptr Hx Hd Hpg Hsub Hkeep. set (p' := set_caches _ _ _).
  assert (moved past_header (pager s) p') as Hm.
  { eapply moved_trans; [apply moved_ptr with (n := next_ptr (pager s) + 1); lia|apply moved_caches]. }
  assert (forall pid0 page0, pid0 <> pid -> pid0 ∈ unsaved i -> pages_of (buffer_pool (pager s)) !! (Main, pid0) = Some page0 ->
    pages_of c !! (Main, pid0) = Some page0) as Hkeep'.
  { intros pid0 page0 Hne Hu. apply Hkeep; [congruence|]. by apply (R_dirty _ _ HR). }
  constructor; cbn [with_pager pager fetches flight written view saved unsaved rewritten pending].
  - apply static_caches, static_ptr, HR.
  - intros k. cbn [buffer_pool set_caches p']. rewrite Hd, elem_of_union, elem_of_singleton, (R_dirty _ _ HR), elem_of_union, elem_of_singleton.
    destruct k as [f z]. cbn. split; [intros [[= -> ->]|]; tauto|]. intros [-> [->|?]]; [by left|by right].
  - intros pid0 Hu. destruct (decide (pid0 = pid)) as [->|Hne].
    { rewrite lookup_insert_eq. split_and!; try done; by eexists. }
    destruct (R_written _ _ HR pid0) as (? & ? & ? & [page0 Hp]); [set_solver|]. rewrite lookup_insert_ne by done.
    split_and!; try done. exists page0. apply Hkeep'; set_solver.
  - by apply (R_saved_moved s i).
  - intros pid0 page0 x0 Hp Hv. destruct (decide (pid0 = pid)) as [->|Hne].
    { rewrite lookup_insert_eq in Hv. injection Hv as <-. change (pages_of c !! (Main, pid) = Some page0) in Hp. by assert (page0 = page) as -> by congruence. }
    rewrite lookup_insert_ne in Hv by done. eapply (R_shows _ _ HR); [|exact Hv]. apply Hsub; [congruence|exact Hp].
  - intros pid0 x0 Hu. rewrite lookup_insert_ne by set_solver. apply (R_clean _ _ HR). set_solver.
  - intros k page0 Hp. change (next_ptr p') with (next_ptr (pager s) + 1). change (psize p') with (psize (pager s)).
    destruct (decide (k = (Main, pid))) as [->|Hne].
    { change (pages_of c !! (Main, pid) = Some page0) in Hp. assert (page0 = page) as -> by congruence. split; [lia|apply Hx]. }
    destruct (R_ptrs _ _ HR k page0 (Hsub _ _ Hne Hp)). split; [lia|done].
  - pose proof (fetches_kept _ p' i i _ _ Hm eq_refl eq_refl (R_fetch _ _ HR)) as HF. clear -HF Hft.
    induction HF as [|ft y fts ys (E1 & E2 & E3 & E4 & Hnu & E6) HF IH]; [constructor|]. apply Forall_cons in Hft as [Hne Hft].
    constructor; [|by apply IH]. do 4 (split; [done|]). split; [cbn; set_solver|done].
  - pose proof (R_flight _ _ HR) as Hfl. destruct (flight s) as [G|], (rewritten i) as [X|]; try done. cbn.
    eapply (flight_written (pager s)); try done; [cbn; lia|]. intros pid0. by eapply R_resident.
Qed.

Lemma psim_write n s i pid k body :
  R n s i -> Z.of_nat (S n) < U32_MAX -> past_header pid -> addressable (pager s) pid -> Forall (fun ft => ft_pid ft <> pid) (fetches s) ->
  simulates n s i (PWrite pid k body).
Proof.
  intros HR Hn Hpast Had Hft. unfold simulates. cbn [pexec]. pose proof (cf_page _ (st_cfg _ _ (R_static _ _ HR))) as Hps.
  fold (psize (pager s)) in Hps.
  assert (R (S (S n)) s i) as HR2 by (eapply R_le; [|exact HR]; lia).
  assert (with_pager (pager s) s = s) as Hid by (by destruct s).
  unfold run_unit, write_main_page. destruct (PageKind.is_main_db k) eqn:Hk; cbn [negb].
  2: { eexists _, s, i. split; [cbn; by rewrite Hid|]. split; [apply i_write_refused|done]. unfold Store.write_main_page. by rewrite Hk. }
  unfold write_page. prun. fold (psize (pager s)). destruct (Z.eqb_spec (blen body) (psize (pager s) - ENVELOPE_OVERHEAD)) as [Hb|Hb]; cbn [negb].
  2: { eexists _, s, i. split; [cbn; by rewrite Hid|]. split; [apply i_write_refused|done].
       unfold Store.write_main_page. rewrite Hk. cbn [negb]. by rewrite (proj2 (Z.eqb_neq _ _)). }
  unfold ENVELOPE_OVERHEAD, ENVELOPE_HEADER_LEN, TAG_LEN in Hb.
  assert (blen (zeros (psize (pager s))) = psize (pager s)) as Hz by (apply blen_zeros; lia).
  destruct (copy_at_step (E := PagedbError) (zeros (psize (pager s))) 24 body) as (buf & Hbuf & _); [lia|rewrite Hz; lia|].
  rewrite pbind_lift. unfold ENVELOPE_HEADER_LEN. rewrite Hbuf. rewrite (pbind_ok new_arc _ (pager s) _ _ eq_refl).
  set (page := new_with_meta _ _ _ _). pose proof (written_shows (psize (pager s)) (next_ptr (pager s)) buf k body ltac:(lia) ltac:(lia) Hbuf) as Hx.
  destruct (cache_exec_ok debug iter iter_ok n (OpWrite (Main, pid) page) (sysof s) (R_sound _ _ _ HR) ltac:(lia)) as (out & s1 & Hex & Hst & Hso).
  cbn [cache_exec] in Hex. apply on_cache_inv in Hex as ([] & c & Hins & -> & ->).
  set (p1 := set_next_ptr _ _). rewrite (locked_ok Main _ p1 _ _ Hins). cbn [replied set_cache_for_key].
  exists Done, (with_pager (set_caches c (segment_cache p1) p1) s), (written pid (k, body) i).
  split; [done|]. split; [|split; [|done]].
  { apply i_write. unfold Store.write_main_page. rewrite Hk. cbn [negb]. by rewrite (proj2 (Z.eqb_eq _ _)). }
  apply astep_write in Hst as (a1 & [Hsub Hkeep _ _] & Epg & Ed). cbn [sysof abs abstract a_pages a_dirty a_guards s_cache s_guards] in *.
  constructor; [|eapply sound_le; [|exact Hso]; lia|apply HR|apply HR].
  apply (R0_written s i c pid page (k, body)); try done; try apply HR; unfold pages_of; rewrite Epg.
  - by rewrite lookup_insert_eq.
  - intros k0 page0 Hne. rewrite lookup_insert_ne by done. intros Hp. eapply lookup_weaken; [exact Hp|done].
  - intros k0 page0 Hne Hdk Hp. rewrite lookup_insert_ne by done. apply Hkeep; [done|by left].
Qed.
End sim.
