(* ===== verification/PagerTrace.v ===== *)
(** * PagerTrace: every run of the pager is one of its contract

    Flushes, discards, key rotation, reopening and crashes preserve the relation of
    [PagerRefine.v]; with the reads and writes there, whole traces are simulated. *)

From S2P Require Import Prelude Keys Errors PageFormat Store Crypto DataPage StructuralHeader Vfs HeaderSlots PageCache PageCacheInv PageCacheEvict PageCacheOps PageCacheSettle PageCacheBatch PageCacheSpec Pager PagerFile PagerOps PagerFlush PagerSpec PagerRefine.
From Stdlib Require Import ZArith Lia.
From stdpp Require Import base list strings gmap relations.
From coqutil Require Import Byte.

Local Open Scope Z_scope.
Local Open Scope pagedb_scope.

Lemma restrict_lookup (X : Z -> Prop) `{forall z, Decision (X z)} (m : Store) z x :
  restrict X m !! z = Some x <-> m !! z = Some x /\ X z.
Proof. apply map_lookup_filter_Some. Qed.
Lemma restrict_lookup_None (X : Z -> Prop) `{forall z, Decision (X z)} (m : Store) z :
  restrict X m !! z = None <-> m !! z = None \/ ~ X z.
Proof.
  rewrite eq_None_not_Some. split.
  - intros Hn. destruct (m !! z) as [x|] eqn:E; [right|by left]. intros HX. apply Hn. exists x. by apply restrict_lookup.
  - intros Hn [x [Hm HX]%restrict_lookup]. destruct Hn; [congruence|done].
Qed.

(** What the abstract steps that clear the cache say. *)
Lemma astep_clear file a a' : astep (OpClear file) a PageCacheSpec.Done a' ->
  a_pages a' = filter (fun e : Key * Page => ~ (e.1.1 = file /\ ~ (e.1 ∈ a_guards a))) (a_pages a) /\
  a_dirty a' = filter (fun k => ~ (k.1 = file /\ ~ (k ∈ a_guards a))) (a_dirty a).
Proof. intros Hst. inversion Hst; subst. done. Qed.
Lemma astep_clear_clean file a a' : astep (OpClearClean file) a PageCacheSpec.Done a' ->
  a_pages a' = filter (fun e : Key * Page => ~ (e.1.1 = file /\ ~ (e.1 ∈ a_guards a) /\ ~ (e.1 ∈ a_dirty a))) (a_pages a) /\
  a_dirty a' = a_dirty a.
Proof. intros Hst. inversion Hst; subst. done. Qed.

Section trace.
Context `{PrimitivesSpec} {F : Type} `{VfsFileSpec F}.
Context (blank : F) (debug : bool) (iter : gmap Key nat -> list (Key * nat)) (iter_ok : forall m, iter m ≡ₚ map_to_list m).
Context (realm : RealmId).
Local Abbreviation Pager := (Pager F).
Local Abbreviation psys := (psys F).
Local Abbreviation static_ok := (static_ok realm).
Local Abbreviation shows := (shows realm).
Local Abbreviation durable := (durable realm).
Local Abbreviation R0 := (R0 realm).
Local Abbreviation R := (R realm).
Local Abbreviation simulates := (simulates blank debug iter realm).

(** ** Flushes *)

Definition flushing (i : image) : image :=
  mkImage (view i) (restrict (.∈ unsaved i) (view i) ∪ saved i) (unsaved i) (Some ∅) (held i) (pending i).

Lemma flushing_saved i pid x : saved (flushing i) !! pid = Some x ->
  (pid ∈ unsaved i /\ view i !! pid = Some x) \/ (pid ∉ unsaved i \/ view i !! pid = None) /\ saved i !! pid = Some x.
Proof.
  cbn. intros [Hr|[Hr Hs]]%lookup_union_Some_raw.
  - apply restrict_lookup in Hr as [? ?]. by left.
  - apply restrict_lookup_None in Hr. right. tauto.
Qed.

Lemma flushing_kept i pid : pid ∉ unsaved i -> saved (flushing i) !! pid = saved i !! pid.
Proof. intros Hp. cbn. rewrite lookup_union_r; [done|]. apply restrict_lookup_None. by right. Qed.

Lemma R0_flushed s i p' G :
  R0 s i -> static_ok p' -> entries (buffer_pool p') = entries (buffer_pool (pager s)) ->
  dirty (buffer_pool p') = dirty (buffer_pool (pager s)) ->
  flush_result realm (pager s) p' (Ok (Some G)) -> R0 (mkPsys p' (guards s) (fetches s) (Some G)) (flushing i).
Proof.
  intros HR Hs' HE Hd (Hm & HG & Hdur).
  assert (pages_of (buffer_pool p') = pages_of (buffer_pool (pager s))) as Hpg by (unfold pages_of; by rewrite HE).
  assert (psize p' = psize (pager s)) as Hps by (unfold psize; by rewrite (mv_cfg _ _ _ Hm)).
  assert (forall pid, addressable p' pid <-> addressable (pager s) pid) as Ha by (unfold addressable; by rewrite (mv_cfg _ _ _ Hm)).
  assert (forall pid page, (pid, page) ∈ G <-> pid ∈ unsaved i /\ pages_of (buffer_pool (pager s)) !! (Main, pid) = Some page) as HG'.
  { intros pid page. rewrite HG. unfold dirty_page. rewrite (R_dirty _ _ _ HR). cbn. tauto. }
  assert (forall pid page x, (pid, page) ∈ G -> view i !! pid = Some x -> exists f', main_file p' f' /\ shows (psize p') page x /\ durable p' (contents f') pid x) as Hdur'.
  { intros pid page x Hin Hv. destruct (Hdur _ _ Hin) as (x' & f' & Hf' & Hx' & Hd'). rewrite Hps. apply HG' in Hin as [_ Hp].
    pose proof (R_shows _ _ _ HR _ _ _ Hp Hv) as Hx. rewrite (shows_inj _ _ _ _ _ Hx Hx'). eauto. }
  constructor; cbn [pager fetches flight flushing view saved unsaved rewritten pending]; try done.
  - rewrite Hd. apply HR.
  - intros pid Hu. rewrite Hpg, Ha. by apply (R_written _ _ _ HR).
  - intros f' Hf' pid x Hx. apply (flushing_saved i) in Hx as [[Hu Hv]|[Hc Hx]].
    + destruct (R_written _ _ _ HR pid Hu) as (? & ? & _ & [page Hp]). split; [done|]. split; [by apply Ha|].
      destruct (Hdur' pid page x) as (f2 & Hf2 & _ & Hd2); [by apply HG'|done|]. unfold main_file in *. by assert (f2 = f') as -> by congruence.
    + destruct (st_file _ _ (R_static _ _ _ HR)) as (f & Hf & Hu). destruct (R_saved _ _ _ HR f Hf pid x Hx) as (Hp & Had & Hdx).
      split; [done|]. split; [by apply Ha|]. eapply (durable_moved realm _ (pager s) p' f f'); try done; [|unfold past_header in Hp; lia].
      split; [done|]. unfold dirty_page. rewrite (R_dirty _ _ _ HR). intros [_ Hu2]. cbn in Hu2. destruct Hc as [|Hn]; [done|].
      destruct (R_written _ _ _ HR pid Hu2) as (_ & _ & [? ?] & _). congruence.
  - rewrite Hpg, Hps. apply HR.
  - intros pid x Hu Hv. change (saved (flushing i) !! pid = Some x). rewrite flushing_kept by done. by apply (R_clean _ _ _ HR).
  - rewrite Hpg, Hps. intros k page Hp. destruct (R_ptrs _ _ _ HR k page Hp). pose proof (mv_ptr _ _ _ Hm). split; [lia|done].
  - eapply Forall2_impl; [apply (R_fetch _ _ _ HR)|]. intros ft y (E1 & E2 & E3 & E4 & Hnu & E6 & E7).
    split; [done|]. pose proof (mv_ptr _ _ _ Hm). split; [lia|]. rewrite Hps, (mv_gen _ _ _ Hm). do 3 (split; [done|]). split; [done|].
    by rewrite flushing_kept.
  - split; [set_solver|]. split; [|split; [|set_solver]].
    + intros pid page Hin. pose proof (proj1 (HG' _ _) Hin) as [Hu Hp]. destruct (R_ptrs _ _ _ HR _ _ Hp). pose proof (mv_ptr _ _ _ Hm). split; [lia|].
      destruct (R_written _ _ _ HR pid Hu) as (_ & _ & [x Hv] & _). exists x. destruct (Hdur' _ _ x Hin Hv) as (_ & _ & Hx & _). split; [|done].
      apply lookup_union_Some_l. by apply restrict_lookup.
    + intros pid Hu _. destruct (R_written _ _ _ HR pid Hu) as (_ & _ & _ & [page Hp]). exists page. rewrite Hpg. split; [by apply HG'|done].
Qed.

Lemma psim_flush n s i : R n s i -> flight s = None -> simulates n s i PFlush.
Proof.
  intros HR Hfl. unfold simulates. cbn [pexec]. destruct (snd_inv _ _ (R_sound _ _ _ _ HR)) as [q Hq]. cbn in Hq.
  destruct (flush_write_ok blank realm (pager s) q (R_static _ _ _ HR) Hq) as (r & p' & Hr & Hs' & Hq' & Hag & Hsg & Hres).
  { intros pid Hd. apply (R_dirty _ _ _ HR) in Hd as [_ Hu]. destruct (R_written _ _ _ HR pid Hu) as (? & ? & [x Hv] & [page Hp]).
    split; [done|]. split; [done|]. exists page, x. split; [done|]. by apply (R_shows _ _ _ HR pid). }
  rewrite Hr. pose proof (R_flight _ _ _ HR) as Hf0. rewrite Hfl in Hf0. destruct (rewritten i) as [|] eqn:Er; [done|].
  destruct (sound_aged _ _ _ _ (R_sound _ _ _ _ HR) Hq' Hag) as [Hso _]. pose proof (aged_entries _ _ Hag) as HE.
  assert (dirty (buffer_pool p') = dirty (buffer_pool (pager s))) as Hd by (by destruct Hag as (_ & _ & _ & _ & _ & _ & _ & ? & _)).
  assert (sound (S (S n)) (mkSys (buffer_pool p') (cguards (guards s)))) as Hso2 by (eapply sound_le; [|exact Hso]; lia).
  assert (moved past_header (pager s) p' -> R (S (S n)) (mkPsys p' (guards s) (fetches s) None) i) as Hquiet.
  { intros Hm. constructor; [|done|apply HR|apply HR]. rewrite <- Hfl. eapply (R0_step realm s i); try done; [apply HR| | |].
    - intros k page. unfold pages_of. rewrite HE. intros Hp. destruct (R_ptrs _ _ _ HR k page Hp). pose proof (mv_ptr _ _ _ Hm).
      unfold psize. rewrite (mv_cfg _ _ _ Hm). split; [split; [lia|done]|]. intros pid x -> Hv. by apply (R_shows _ _ _ HR pid).
    - intros pid page _. unfold pages_of. by rewrite HE.
    - eapply fetches_kept; [exact Hm|done|done|apply HR]. }
  destruct r as [[G|]|e|]; [| | |done].
  - exists Done, (mkPsys p' (guards s) (fetches s) (Some G)), (flushing i). split; [done|]. split; [apply i_flush|]. split; [|apply Hres].
    constructor; [apply (R0_flushed s i); [apply HR|done..]|done|apply HR|apply HR].
  - exists Done, (mkPsys p' (guards s) (fetches s) None), i. split; [done|]. destruct Hres as [Hm Hnd]. split; [|split; [by apply Hquiet|apply Hm]].
    apply i_flush_clean. apply set_eq. intros pid. split; [|set_solver]. intros Hu. destruct (Hnd pid). by apply (R_dirty _ _ _ HR).
  - exists (Refused e), (mkPsys p' (guards s) (fetches s) (flight s)), i. split; [done|]. split; [apply i_flush_failed|]. rewrite Hfl.
    split; [by apply Hquiet|apply Hres].
Qed.

(** ** Pages made clean *)

(** Pages leave the cache or the dirty set; what is durable stays. *)
Lemma R_cleaned n s i c' fl' i' :
  R n s i -> sound (S n) (mkSys c' (cguards (guards s))) ->
  pages_of c' ⊆ pages_of (buffer_pool (pager s)) ->
  (forall k, k ∈ dirty c' <-> k.1 = Main /\ k.2 ∈ unsaved i') -> unsaved i' ⊆ unsaved i ->
  (forall pid, pid ∈ unsaved i' -> is_Some (view i' !! pid) /\ is_Some (pages_of c' !! (Main, pid))) ->
  (forall pid page x, pages_of c' !! (Main, pid) = Some page -> view i' !! pid = Some x -> view i !! pid = Some x) ->
  (forall pid x, pid ∉ unsaved i' -> view i' !! pid = Some x -> saved i !! pid = Some x) ->
  saved i' = saved i -> held i' = held i -> pending i' = pending i ->
  match fl', rewritten i' with
  | None, None => True
  | Some G, Some X => flight_ok realm (set_caches c' (segment_cache (pager s)) (pager s)) i' G X
  | _, _ => False
  end ->
  R (S (S n)) (mkPsys (set_caches c' (segment_cache (pager s)) (pager s)) (guards s) (fetches s) fl') i'.
Proof.
  intros HR Hso Hsub Hd Hu Hw Hv Hc Es Eh Ep Hfl.
  constructor; [|eapply sound_le; [|exact Hso]; lia|apply HR|rewrite Eh; apply HR].
  constructor; cbn [pager fetches flight]; try done.
  - apply static_caches, HR.
  - intros pid Hin. destruct (Hw pid Hin). destruct (R_written _ _ _ HR pid (Hu _ Hin)) as (? & ? & _ & _). done.
  - rewrite Es. apply HR.
  - intros pid page x Hp Hx. apply (R_shows _ _ _ HR pid); [|by eapply Hv]. by eapply lookup_weaken.
  - rewrite Es. done.
  - intros k page Hp. apply (R_ptrs _ _ _ HR k). by eapply lookup_weaken.
  - rewrite Ep. eapply Forall2_impl; [apply (R_fetch _ _ _ HR)|]. intros ft y (E1 & E2 & E3 & E4 & Hnu & E6).
    do 4 (split; [done|]). rewrite Es. split; [set_solver|done].
Qed.

(** A flush under way, with part of what it gathered no longer wanted. *)
Lemma flight_shrunk (p p' : Pager) i i' G X X' :
  flight_ok realm p i G X -> psize p' = psize p -> next_ptr p' = next_ptr p -> saved i' = saved i ->
  unsaved i' ⊆ unsaved i -> X' ⊆ unsaved i' -> X' ⊆ X -> (forall pid, pid ∈ unsaved i' -> pid ∉ X' -> pid ∉ X) ->
  pages_of (buffer_pool p') ⊆ pages_of (buffer_pool p) ->
  (forall pid, pid ∈ unsaved i' -> is_Some (pages_of (buffer_pool p') !! (Main, pid))) ->
  flight_ok realm p' i' G X'.
Proof.
  intros (F1 & F2 & F3 & F4) Hps Hn Es Hu H1' H2' H3' Hsub Hres. unfold flight_ok. rewrite Hps, Hn, Es. split; [done|]. split; [done|]. split.
  - intros pid Hin HX. destruct (F3 pid (Hu _ Hin) (H3' _ Hin HX)) as (page & HG & Hp). exists page. split; [done|].
    destruct (Hres pid Hin) as [page' Hp']. pose proof (lookup_weaken _ _ _ _ Hp' Hsub). congruence.
  - intros pid page page' HX HG Hp. apply (F4 pid); [set_solver|done|]. by eapply lookup_weaken.
Qed.

Lemma flushed_spec file pages : forall G d k,
  k ∈ flushed file G pages d <->
  k ∈ d /\ ~ exists pid snap page, k = (file, pid) /\ (pid, snap) ∈ G /\ pages !! k = Some page /\ page_ptr page = page_ptr snap.
Proof.
  induction G as [|[pid snap] G IH]; intros d k; cbn [flushed].
  { split; [|tauto]. intros Hk. split; [done|]. intros (? & ? & ? & _ & []%elem_of_nil & _). }
  rewrite IH. clear IH. set (b := match pages !! (file, pid) with Some page => ptr_eq page snap | None => false end).
  assert (b = true <-> exists page, pages !! (file, pid) = Some page /\ page_ptr page = page_ptr snap) as Hb.
  { unfold b, ptr_eq. destruct (pages !! (file, pid)) as [page|]; [|split; [done|by intros (? & [=] & _)]].
    rewrite Z.eqb_eq. split; [intros E; by exists page|by intros (? & [= <-] & ?)]. }
  assert (k ∈ (if b then d ∖ {[(file, pid)]} else d) <-> k ∈ d /\ ~ (k = (file, pid) /\ b = true)) as ->.
  { destruct b; [set_solver|]. naive_solver. }
  rewrite Hb. setoid_rewrite elem_of_cons. split.
  - intros [[Hk Hn1] Hn2]. split; [done|]. intros (pid' & snap' & page & -> & [[= -> ->]|Hin] & Hp & Hq); [|naive_solver]. naive_solver.
  - intros [Hk Hn1]. split; [split; [done|]|].
    + intros [-> (page & Hp & Hq)]. apply Hn1. exists pid, snap, page. auto.
    + intros (pid' & snap' & page & -> & Hin & Hp & Hq). apply Hn1. exists pid', snap', page. auto.
Qed.

(** After the flush only what was rewritten meanwhile is dirty. *)
Lemma flushed_dirty s i G X : R0 s i -> flight_ok realm (pager s) i G X ->
  forall k, k ∈ flushed Main G (pages_of (buffer_pool (pager s))) (dirty (buffer_pool (pager s))) <-> k.1 = Main /\ k.2 ∈ X.
Proof.
  intros HR (F1 & F2 & F3 & F4) [f pid]. rewrite flushed_spec, (R_dirty _ _ _ HR). cbn. split.
  - intros [[-> Hu] Hn]. split; [done|]. destruct (decide (pid ∈ X)) as [|HX]; [done|]. destruct Hn.
    destruct (F3 _ Hu HX) as (page & Hin & Hp). by exists pid, page, page.
  - intros [-> HX]. split; [split; [done|by apply F1]|]. intros (pid' & snap & page & [= <-] & Hin & Hp & Hq). by eapply F4.
Qed.

Lemma psim_flushed n s i cap : R n s i -> Z.of_nat (S n) < U32_MAX -> simulates n s i (PFlushed cap).
Proof.
  intros HR Hn. unfold simulates. cbn [pexec]. set (i' := mkImage (view i) (saved i) (default (unsaved i) (rewritten i)) None (held i) (pending i)).
  pose proof (R_flight _ _ _ HR) as Hfl. destruct (flight s) as [G|] eqn:Ef.
  2: { exists Done, s, i'. split; [done|]. split; [apply i_flushed|]. split; [|done]. destruct (rewritten i) as [|] eqn:Er; [done|].
       assert (i' = i) as -> by (unfold i'; cbn; rewrite <- Er; by destruct i). eapply R_le; [|exact HR]. lia. }
  destruct (rewritten i) as [X|] eqn:Er; [|done].
  destruct (cache_exec_ok debug iter iter_ok n (OpFlushed cap Main G) (sysof s) (R_sound _ _ _ _ HR) ltac:(lia)) as (out & s1 & Hex & Hst & Hso).
  cbn [cache_exec] in Hex. apply on_cache_inv in Hex as ([] & c & Hfin & -> & ->).
  rewrite (locked_ok Main _ (pager s) _ _ Hfin). eexists Done, _, i'. split; [done|]. split; [pose proof (i_flushed realm (psize (pager s)) i cap) as Hi; by rewrite Er in Hi|]. split; [|done].
  inversion Hst as [| | | | | | | | | | |? ? ? ? ? [Hsub Hkeep Hdd _]| | |]; subst. cbn [sysof abs abstract a_pages a_dirty a_guards s_cache s_guards] in *.
  fold (pages_of c) in *. fold (pages_of (buffer_pool (pager s))) in *.
  pose proof (flushed_dirty s i G X HR Hfl) as Hfd. rewrite <- Hdd in Hfd. pose proof Hfl as (F1 & F2 & F3 & F4).
  apply (R_cleaned n s i); try done.
  - intros pid HX. change (pid ∈ X) in HX. destruct (R_written _ _ _ HR pid (F1 _ HX)) as (_ & _ & Hv & [page Hp]). split; [done|].
    exists page. apply Hkeep; [done|]. left. rewrite <- Hdd. by apply Hfd.
  - intros pid x HX Hv. change (pid ∉ X) in HX. change (view i !! pid = Some x) in Hv.
    destruct (decide (pid ∈ unsaved i)) as [Hu|Hu]; [|by apply (R_clean _ _ _ HR)].
    destruct (F3 _ Hu HX) as (page & Hin & Hp). destruct (F2 _ _ Hin) as (_ & x' & Hs & Hx'). rewrite Hs. f_equal.
    eapply shows_inj; [exact Hx'|]. by apply (R_shows _ _ _ HR pid).
Qed.

Lemma psim_discard n s i cap : R n s i -> Z.of_nat (S n) < U32_MAX -> simulates n s i (PDiscard cap).
Proof.
  intros HR Hn. unfold simulates. cbn [pexec]. unfold run_unit, discard_dirty_main.
  destruct (cache_exec_ok debug iter iter_ok n (OpDiscard cap Main) (sysof s) (R_sound _ _ _ _ HR) ltac:(lia)) as (out & s1 & Hex & Hst & Hso).
  cbn [cache_exec] in Hex. apply on_cache_inv in Hex as ([] & c & Hfin & -> & ->).
  rewrite (locked_ok Main _ (pager s) _ _ Hfin). eexists Done, _, _. split; [done|]. split; [apply i_discard|]. split; [|done].
  inversion Hst as [| | | | | | | | | | | |? ? ? ? [Hsub Hkeep Hdd _]| |]; subst. cbn [sysof abs abstract a_pages a_dirty a_guards s_cache s_guards] in *.
  fold (pages_of c) in *. fold (pages_of (buffer_pool (pager s))) in *. unfold with_pager.
  assert (pages_of c ⊆ pages_of (buffer_pool (pager s))) as Hsub' by (etrans; [exact Hsub|apply map_filter_subseteq]).
  assert (forall k, k ∉ dirty c) as Hnd.
  { intros k. rewrite Hdd, elem_of_filter, (R_dirty _ _ _ HR). tauto. }
  eapply (R_cleaned n s i); try done; cbn [view saved unsaved rewritten].
  - intros k. split; [by intros ?%Hnd|by intros [_ ?%elem_of_empty]].
  - intros pid page x Hp [Hr|[_ Hr]]%lookup_union_Some_raw; apply restrict_lookup in Hr as [Hx Hc]; [done|].
    eapply lookup_weaken in Hp; [|exact Hsub]. apply map_lookup_filter_Some in Hp as [_ Hf]. cbn in Hf. destruct Hf.
    rewrite (R_dirty _ _ _ HR), (held_guarded _ _ _ _ _ HR). cbn. tauto.
  - intros pid x _ [Hr|[_ Hr]]%lookup_union_Some_raw; apply restrict_lookup in Hr as [Hx Hc]; [|done]. by apply (R_clean _ _ _ HR).
  - pose proof (R_flight _ _ _ HR) as Hfl. destruct (flight s) as [G|], (rewritten i) as [X|]; try done. cbn.
    apply (flight_shrunk (pager s) _ i _ G X);
      [exact Hfl|done|done|done|apply empty_subseteq|done|apply empty_subseteq|by intros ? ?%elem_of_empty|exact Hsub'|by intros ? ?%elem_of_empty].
Qed.

Lemma psim_reset n s i : R n s i -> Z.of_nat (S n) < U32_MAX -> simulates n s i PReset.
Proof.
  intros HR Hn. unfold simulates. cbn [pexec]. unfold run_unit, reset_main_pages.
  destruct (cache_exec_ok debug iter iter_ok n (OpClear Main) (sysof s) (R_sound _ _ _ _ HR) ltac:(lia)) as (out & s1 & Hex & Hst & Hso).
  cbn [cache_exec] in Hex. apply on_cache_inv in Hex as ([] & c & Hfin & -> & ->).
  rewrite (locked_ok Main _ (pager s) _ _ Hfin). eexists Done, _, _. split; [done|]. split; [apply i_reset|]. split; [|done].
  apply astep_clear in Hst as [Epg Edd]. cbn [sysof abs abstract a_pages a_dirty a_guards s_cache s_guards] in *.
  fold (pages_of c) in *. fold (pages_of (buffer_pool (pager s))) in *. unfold with_pager.
  assert (pages_of c ⊆ pages_of (buffer_pool (pager s))) as Hsub' by (rewrite Epg; apply map_filter_subseteq).
  assert (forall pid page, pages_of c !! (Main, pid) = Some page <-> pages_of (buffer_pool (pager s)) !! (Main, pid) = Some page /\ pid ∈ held i) as Hpg.
  { intros pid page. rewrite Epg, map_lookup_filter_Some. cbn. rewrite (held_guarded _ _ _ _ _ HR). destruct (decide (pid ∈ held i)); tauto. }
  assert (forall pid, pid ∈ filter (.∈ held i) (unsaved i) -> is_Some (pages_of c !! (Main, pid))) as Hres.
  { intros pid [Hh Hu]%elem_of_filter. destruct (R_written _ _ _ HR pid Hu) as (_ & _ & _ & [page Hp]). exists page. by apply Hpg. }
  eapply (R_cleaned n s i); try done; cbn [view saved unsaved rewritten].
  - intros k. rewrite Edd, !elem_of_filter, (R_dirty _ _ _ HR). destruct k as [f z]. cbn. split.
    + intros [Hf [-> Hu]]. rewrite (held_guarded _ _ _ _ _ HR) in Hf. destruct (decide (z ∈ held i)); tauto.
    + intros [-> [Hh Hu]]. rewrite (held_guarded _ _ _ _ _ HR). tauto.
  - by intros ? [_ ?]%elem_of_filter.
  - intros pid Hin. split; [|by apply Hres]. apply elem_of_filter in Hin as [Hh Hu]. destruct (R_written _ _ _ HR pid Hu) as (_ & _ & [x Hx] & _).
    exists x. apply lookup_union_Some_l. by apply restrict_lookup.
  - intros pid page x [_ Hh]%Hpg [Hr|[_ Hr]]%lookup_union_Some_raw; apply restrict_lookup in Hr as [Hx Hc]; done.
  - intros pid x Hu [Hr|[_ Hr]]%lookup_union_Some_raw; apply restrict_lookup in Hr as [Hx Hc]; [|done]. apply (R_clean _ _ _ HR); [|done].
    rewrite elem_of_filter in Hu. tauto.
  - pose proof (R_flight _ _ _ HR) as Hfl. destruct (flight s) as [G|], (rewritten i) as [X|]; try done. cbn. pose proof Hfl as (F1 & _).
    apply (flight_shrunk (pager s) _ i _ G X);
      [exact Hfl|done|done|done|by intros ? [_ ?]%elem_of_filter|cbn [unsaved]; clear -F1; set_solver|by intros ? [_ ?]%elem_of_filter| |exact Hsub'|exact Hres].
    cbn [unsaved]. clear. intros pid. rewrite !elem_of_filter. tauto.
Qed.

Lemma psim_evict n s i : R n s i -> Z.of_nat (S n) < U32_MAX -> simulates n s i PEvict.
Proof.
  intros HR Hn. unfold simulates. cbn [pexec]. unfold run_unit, evict_clean_main_pages.
  destruct (cache_exec_ok debug iter iter_ok n (OpClearClean Main) (sysof s) (R_sound _ _ _ _ HR) ltac:(lia)) as (out & s1 & Hex & Hst & Hso).
  cbn [cache_exec] in Hex. apply on_cache_inv in Hex as ([] & c & Hfin & -> & ->).
  rewrite (locked_ok Main _ (pager s) _ _ Hfin). exists Done, (with_pager (set_caches c (segment_cache (pager s)) (pager s)) s), i.
  split; [done|]. split; [apply i_evict|]. split; [|done].
  apply astep_clear_clean in Hst as [Epg Edd]. cbn [sysof abs abstract a_pages a_dirty a_guards s_cache s_guards] in *.
  apply (R_cache realm _ s i); try done; [apply HR|eapply sound_le; [|exact Hso]; lia|apply HR|apply HR| |]; unfold pages_of; rewrite Epg.
  - apply map_filter_subseteq.
  - intros k page Hk Hp. apply map_lookup_filter_Some. cbn. tauto.
Qed.

(** ** Keys *)

Lemma opens_more (keys keys' : EpochKeyring) fid pid page x : keys ⊆ keys' ->
  opens_to keys fid realm pid page x -> opens_to keys' fid realm pid page x.
Proof.
  intros Hsub (id & e & mk & c & aad & opened & H1' & Hk & H2'). exists id, e, mk, c, aad, opened. split; [done|]. split; [|done].
  by eapply lookup_weaken.
Qed.

(** A new epoch opens to every page the older ones do. *)
Lemma psim_rotate n s i mk e :
  R n s i -> is_u64 e -> keyring (pager s) !! (e, CipherId.as_byte (cfg_cipher_id (cfg (pager s)))) = None ->
  simulates n s i (PRotate mk e).
Proof.
  intros HR He Hnew. unfold simulates. cbn [pexec]. eexists Done, _, i. split; [done|]. split; [apply i_rotate|]. split; [|done].
  set (p' := set_active_mk_epoch mk e (pager s)).
  assert (keyring (pager s) ⊆ keyring p') as Hsub by (by apply insert_subseteq).
  destruct (R_static _ _ _ HR) as [S1 S2 S3 S4 S5 S6 S7 S8 S9].
  constructor; [|eapply sound_le; [|apply HR]; lia|apply HR|apply HR].
  constructor; cbn [with_pager pager fetches flight]; try apply HR.
  - constructor; try done.
    + cbn. unfold install. rewrite lookup_insert_eq. by eexists.
    + intros r f e0 cid c Hc. cbn in Hc. apply map_lookup_filter_Some in Hc as [Hc _].
      destruct (S5 _ _ _ _ _ Hc) as (id & mk0 & ? & Hk & ?). exists id, mk0. split; [done|]. split; [|done]. by eapply lookup_weaken.
  - intros f Hf pid x Hx. destruct (R_saved _ _ _ HR f Hf pid x Hx) as (? & ? & Hh & Ho). split; [done|]. split; [done|]. split; [done|].
    by eapply opens_more.
Qed.

(** ** Reopening *)

Record bootable (p : Pager) : Prop := mkBootable {
  bt_cfg : config_ok (cfg p);
  bt_realm : blen realm = 16;
  bt_epoch : is_u64 (active_epoch p);
  bt_key : is_Some (keyring p !! (active_epoch p, CipherId.as_byte (cfg_cipher_id (cfg p))));
  bt_file : exists f, main_file p f /\ usable f;
}.

Lemma static_bootable p : static_ok p -> bootable p.
Proof. intros []. by constructor. Qed.

Lemma recover_wf (c : PagerConfig) anchor : config_ok c -> is_u64 anchor -> gen_wf (main_gen_recover (main_db_file_id c) anchor (anchor_budget c)).
Proof.
  intros [_ Hf _] Ha. split; cbn.
  - unfold blen in *. rewrite length_take. lia.
  - unfold saturating_add, MAX_ANCHOR_BUDGET, U64_MAX in *. lia.
Qed.

Lemma fresh_cache cap : dirty (with_capacity cap) = ∅ /\ pages_of (with_capacity cap) = ∅.
Proof. split; [done|]. unfold pages_of, entries, entries_of. simpl. by rewrite omap_empty, fmap_empty. Qed.

Lemma R_reopened n p st hk cursor anchor :
  bootable p -> 0 <= hc_seq cursor -> is_u64 anchor ->
  (forall f, main_file p f -> forall pid x, st !! pid = Some x -> past_header pid /\ addressable p pid /\ durable p (contents f) pid x) ->
  R n (mkPsys (reopened hk cursor anchor p) [] [] None) (mkImage st st ∅ None [] []).
Proof.
  intros [B1 B2 B3 B4 B5] Hc Ha Hst. destruct (fresh_cache (buffer_pool_pages (cfg p))) as [Hd Hp].
  constructor; [|eapply sound_le; [|apply sound_empty]; lia|constructor|done].
  constructor; cbn [pager fetches flight view saved unsaved rewritten held pending reopened recover_main_nonce bind_live_header set_main_nonce set_live_header set_keyring set_active_epoch pager_open buffer_pool].
  - constructor; try done; [by apply recover_wf|]. intros live [= <-]. done.
  - intros k. rewrite Hd. split; [by intros ?%elem_of_empty|by intros [_ ?%elem_of_empty]].
  - by intros pid ?%elem_of_empty.
  - exact Hst.
  - intros pid page x. rewrite Hp, lookup_empty. done.
  - done.
  - intros k page. rewrite Hp, lookup_empty. done.
  - constructor.
  - done.
Qed.

Lemma psim_reopen n s i hk cursor anchor :
  R n s i -> 0 <= hc_seq cursor -> is_u64 anchor -> simulates n s i (PReopen hk cursor anchor).
Proof.
  intros HR Hc Ha. eexists Done, _, _. split; [done|]. split; [apply i_reopen|]. split; [|done].
  apply R_reopened; [apply static_bootable, HR|done|done|]. apply HR.
Qed.

Lemma psim_crash n s i f f' hk cursor anchor :
  R n s i -> main_file (pager s) f -> usable f' ->
  keeps (page_size (cfg (pager s))) (fun pid => past_header pid /\ ~ (flight s = None /\ dirty_page (buffer_pool (pager s)) pid))
    (contents f) (contents f') ->
  0 <= hc_seq cursor -> is_u64 anchor ->
  exists i', istep realm (psize (pager s)) i (PCrash hk cursor anchor) Done i' /\
    R (S (S n)) (mkPsys (reopened hk cursor anchor (set_vfs (<[main_db_path (cfg (pager s)) := f']> (vfs (pager s))) (pager s))) [] [] None) i'.
Proof.
  intros HR Hf Hu' [Hlen Hkeep] Hc Ha. eexists. split; [by apply i_crash|].
  assert (main_file (set_vfs (<[main_db_path (cfg (pager s)) := f']> (vfs (pager s))) (pager s)) f') as Hf'.
  { unfold main_file. cbn. by rewrite lookup_insert_eq. }
  apply R_reopened; [|done|done|].
  - destruct (static_bootable _ (R_static _ _ _ HR)). constructor; try done. by exists f'.
  - intros f2 Hf2 pid x [Hx HX]%restrict_lookup. unfold main_file in Hf', Hf2. assert (f2 = f') as -> by congruence.
    destruct (R_saved _ _ _ HR f Hf pid x Hx) as (Hp & Had & Hh & Ho). split; [done|]. split; [done|].
    unfold has_page in Hh. split; [unfold has_page; cbn; lia|]. cbn. rewrite Hkeep; [done|unfold past_header in Hp; lia|split; [done|]|done].
    intros [Hfl Hd]. apply (R_dirty _ _ _ HR) in Hd as [_ Hd]. cbn in Hd. pose proof (R_flight _ _ _ HR) as Hr. rewrite Hfl in Hr.
    by destruct (rewritten i), HX.
Qed.

(** ** Traces *)

Inductive psteps : psys -> list (pager_op * reply) -> psys -> Prop :=
| psteps_nil s : psteps s [] s
| psteps_cons s o out s1 tr s2 : pstep blank debug iter realm s o out s1 -> psteps s1 tr s2 -> psteps s ((o, out) :: tr) s2.

Inductive isteps (ps : Z) : image -> list (pager_op * reply) -> image -> Prop :=
| isteps_nil i : isteps ps i [] i
| isteps_cons i o out i1 tr i2 : istep realm ps i o out i1 -> isteps ps i1 tr i2 -> isteps ps i ((o, out) :: tr) i2.

Lemma pexec_sim n s i o : R n s i -> Z.of_nat (S n) < U32_MAX -> enabled s o -> simulates n s i o.
Proof.
  intros HR Hn Hen. destruct o; cbn [enabled] in Hen.
  - destruct Hen as (? & ? & ?). by apply psim_write.
  - by apply psim_read.
  - by apply psim_fetched.
  - by apply psim_release.
  - by apply psim_flush.
  - by apply psim_flushed.
  - by apply psim_discard.
  - by apply psim_reset.
  - by apply psim_evict.
  - destruct Hen. by apply psim_rotate.
  - destruct Hen. by apply psim_reopen.
  - done.
Qed.

Lemma pstep_sim n s i o out s' : R n s i -> Z.of_nat (S n) < U32_MAX -> pstep blank debug iter realm s o out s' ->
  exists i', istep realm (psize (pager s)) i o out i' /\ R (S (S n)) s' i' /\ cfg (pager s') = cfg (pager s).
Proof.
  intros HR Hn Hst. destruct Hst as [s o out s' Hen Hex|s f f' hk cursor anchor Hf Hu Hk Hc Ha].
  - destruct (pexec_sim n s i o HR Hn Hen) as (out' & s1 & i' & Hex' & Hi & HR' & Hcfg). rewrite Hex in Hex'. injection Hex' as <- <-. eauto.
  - destruct (psim_crash n s i f f' hk cursor anchor HR Hf Hu Hk Hc Ha) as (i' & Hi & HR'). by exists i'.
Qed.

Lemma psteps_sim s tr s' : psteps s tr s' -> forall n i, R n s i -> Z.of_nat n + 2 * Z.of_nat (length tr) <= U32_MAX ->
  exists m i', isteps (psize (pager s)) i tr i' /\ R m s' i'.
Proof.
  induction 1 as [s|s o out s1 tr s2 Hst _ IH]; intros n i HR Hn; [exists n, i; split; [constructor|done]|].
  cbn [length] in Hn. destruct (pstep_sim n s i o out s1 HR ltac:(lia) Hst) as (i1 & Hi & HR1 & Hcfg).
  destruct (IH (S (S n)) i1 HR1 ltac:(lia)) as (m & i2 & His & HR2). exists m, i2. split; [|done].
  econstructor; [exact Hi|]. unfold psize in *. by rewrite <- Hcfg.
Qed.
Lemma isteps_no_panic ps i tr i' : isteps ps i tr i' -> Forall (fun t => t.2 <> Panicked) tr.
Proof.
  induction 1 as [|i o out i1 tr i2 Hst _ IH]; constructor; [|done]. cbn. intros ->. inversion Hst; subst; by eapply answers_total.
Qed.

(** Running calls one after the other. *)
Fixpoint exec_all (os : list pager_op) (s : psys) : list (pager_op * reply) * psys :=
  match os with
  | [] => ([], s)
  | o :: os => let '(out, s1) := pexec blank debug iter realm o s in
               let '(tr, s2) := exec_all os s1 in ((o, out) :: tr, s2)
  end.
Fixpoint enabled_all (os : list pager_op) (s : psys) : Prop :=
  match os with
  | [] => True
  | o :: os => enabled s o /\ enabled_all os (pexec blank debug iter realm o s).2
  end.

Lemma exec_all_steps : forall os s, enabled_all os s -> psteps s (exec_all os s).1 (exec_all os s).2.
Proof using.
  clear iter_ok. induction os as [|o os IH]; intros s; cbn [exec_all enabled_all]; [constructor|].
  intros [Hen Hos]. destruct (pexec blank debug iter realm o s) as [out s1] eqn:Hex. specialize (IH s1 Hos).
  destruct (exec_all os s1) as [tr s2]. econstructor; [by apply p_exec|exact IH].
Qed.
End trace.

(** ** Correctness *)

(** C8: The pager over the main file is a page image with a durable copy. Take any
    sequence of its calls, whatever the interleaving of reads, guards, writes, the
    two phases of a flush, discards, key rotations and restarts, with crashes that
    tear pages a flush was writing, from a pager just opened on a file that holds
    the pages [st]. Every reply is the one the image allows: a read gives the body
    last written under the kind it was written with or refuses, never another body
    and never a panic; a crash loses only what no flush had synced; and every page
    of the durable copy is on the file, sealed under a key of the keyring. *)
Theorem pager_refines_store `{PrimitivesSpec} {F : Type} `{VfsFileSpec F}
    (blank : F) (debug : bool) (iter : gmap Key nat -> list (Key * nat)) (realm : RealmId)
    (v : gmap string F) (mk : bytes) (c : PagerConfig) (f : F) (hk : bytes) (cursor : HeaderCursor) (anchor : Z)
    (st : Store) (tr : list (pager_op * reply)) (s : psys F) :
  (forall m, iter m ≡ₚ map_to_list m) -> config_ok c -> blen realm = 16 -> is_u64 (cfg_mk_epoch c) ->
  v !! main_db_path c = Some f -> usable f -> 0 <= hc_seq cursor -> is_u64 anchor ->
  let p := recover_main_nonce anchor (bind_live_header hk cursor (pager_open v mk c)) in
  (forall pid x, st !! pid = Some x -> past_header pid /\ addressable p pid /\ durable realm p (contents f) pid x) ->
  psteps blank debug iter realm (mkPsys p [] [] None) tr s -> 2 * Z.of_nat (length tr) <= U32_MAX ->
  exists i, isteps realm (page_size c) (mkImage st st ∅ None [] []) tr i /\ Forall (fun t => t.2 <> Panicked) tr /\
    forall f', main_file (pager s) f' -> forall pid x, saved i !! pid = Some x -> durable realm (pager s) (contents f') pid x.
Proof.
  intros Hi Hc Hr He Hf Hu Hcur Ha p Hst Htr Hn.
  assert (R realm 0 (mkPsys p [] [] None) (mkImage st st ∅ None [] [])) as HR.
  { apply (R_reopened realm 0 (pager_open v mk c) st hk cursor anchor); try done.
    - constructor; try done; [exists mk; apply lookup_insert_eq|by exists f].
    - intros f' Hf'. assert (f' = f) as -> by (unfold main_file in Hf'; cbn in Hf'; congruence). done. }
  destruct (psteps_sim blank debug iter Hi realm _ _ _ Htr 0 _ HR ltac:(lia)) as (m & i & His & HR').
  exists i. split; [exact His|]. split; [by eapply isteps_no_panic|].
  intros f' Hf' pid x Hx. by destruct (R_saved _ _ _ HR' f' Hf' pid x Hx) as (_ & _ & ?).
Qed.

(** ** A concrete run *)

#[local] Existing Instance toy_primitives.
#[local] Existing Instance toy_primitives_spec.

Definition sample_config : PagerConfig := mkPagerConfig 4096 8 8 CipherId.Aes256Gcm 1 (zeros 16) "/main.db" 1000 4 3.
Definition sample_hk : bytes := hk_of (zeros 32) sample_header.
Definition sample_main : OpenFile := (bootstrap_header empty_file sample_hk sample_header 4096).1.
Definition sample_pager : Pager OpenFile :=
  recover_main_nonce 4096 (bind_live_header sample_hk (mkHeaderCursor SlotA 5)
    (pager_open {[ "/main.db"%string := sample_main ]} (zeros 32) sample_config)).
Definition sample_body : bytes := repeat Byte.x07 4056.

(** Write, flush, restart, read back. *)
Definition sample_trace : list (pager_op * reply) :=
  [(PWrite 2 PageKind.BTreeLeaf sample_body, Done); (PFlush, Done); (PFlushed 8, Done);
   (PReopen sample_hk (mkHeaderCursor SlotB 6) 5096, Done); (PRead 2 NodeKind, Missed);
   (PFetched 0, Found PageKind.BTreeLeaf sample_body); (PRelease 0, Done)].

Lemma sample_main_usable : usable sample_main.
Proof.
  unfold sample_main, sample_hk. destruct (bootstrap_ok empty_file (zeros 32) None 4096 sample_header) as (f' & -> & Hu & _);
    [done|done|apply sample_header_valid|exact Hu].
Qed.

Definition sample_end : psys OpenFile :=
  (exec_all empty_file true map_to_list (zeros 16) (sample_trace.*1) (mkPsys sample_pager [] [] None)).2.

Lemma sample_steps : psteps empty_file true map_to_list (zeros 16) (mkPsys sample_pager [] [] None) sample_trace sample_end.
Proof.
  pose proof (exec_all_steps empty_file true map_to_list (zeros 16) (sample_trace.*1) (mkPsys sample_pager [] [] None)) as Hst.
  replace (exec_all empty_file true map_to_list (zeros 16) (sample_trace.*1) (mkPsys sample_pager [] [] None)).1 with sample_trace in Hst
    by (vm_compute; reflexivity).
  apply Hst. clear Hst.
  split; [by repeat split|]. split; [vm_compute; reflexivity|]. split; [exact I|]. split; [change (0 <= 6 /\ is_u64 5096); lia|].
  split; [vm_compute; split; intros [=]|]. split; [exact I|]. split; exact I.
Qed.

Lemma pager_refines_store_witness :
  exists i, isteps (zeros 16) 4096 (mkImage ∅ ∅ ∅ None [] []) sample_trace i.
Proof.
  destruct (pager_refines_store empty_file true map_to_list (zeros 16) {[ "/main.db"%string := sample_main ]} (zeros 32)
    sample_config sample_main sample_hk (mkHeaderCursor SlotA 5) 4096 ∅ sample_trace sample_end) as (i & Hi & _);
    [done|by constructor|done|done|apply lookup_singleton_eq|exact sample_main_usable|done|done|by intros pid x|exact sample_steps|done|].
  exists i. exact Hi.
Defined.

Definition aborted_body : bytes := repeat Byte.x08 4056.
Definition discard_replies : list reply :=
  snd <$> (exec_all empty_file true map_to_list (zeros 16)
    [PWrite 2 PageKind.BTreeLeaf sample_body; PFlush; PFlushed 8;
     PWrite 2 PageKind.BTreeLeaf aborted_body; PRead 2 NodeKind; PDiscard 8; PRelease 0;
     PRead 2 NodeKind; PRelease 0; PEvict; PRead 2 NodeKind; PFetched 0] (mkPsys sample_pager [] [] None)).1.

(** A page that a guard holds while the dirty pages are discarded does not leave
    the cache when the guard is released: the next read returns the discarded body,
    though the durable copy, which a read finds once the page is evicted, is the one
    flushed before. *)
Theorem discarded_page_stays :
  discard_replies !! 5%nat = Some Done /\ discard_replies !! 6%nat = Some Done /\
  discard_replies !! 7%nat = Some (Found PageKind.BTreeLeaf aborted_body) /\
  discard_replies !! 11%nat = Some (Found PageKind.BTreeLeaf sample_body).
Proof. vm_compute. split_and!; reflexivity. Qed.
